(* ===== verification/_CoqProject ===== *)
-Q . S2P
Prelude.v
Float64.v
Replay.v
TokenBucket.v
Registry.v
Ingress.v
Packet.v
Session.v
SessionInv.v
SessionProps.v
Udp.v
UdpProps.v
LoadControl.v
RelayQueue.v
Relay.v
RelayProps.v
RelayUdp.v
Snowflake.v
State.v
StateProps.v
StateRing.v
Visibility.v
Rbac.v
RelayGate.v
Strconv.v
Cursor.v
Support.v
Snapshot.v
Lane.v
Connection.v
ConnectionProps.v
EventBus.v
EventBusProps.v
Publication.v
PublicationProps.v
Sync.v
SyncProps.v
Pump.v
PumpProps.v
Sequencer.v
SequencerProps.v
Identity.v
Idempotency.v
IdempotencyProps.v
Database.v
DatabaseProps.v
Stores.v
Installation.v
InstallationProps.v
Durable.v
DurableProps.v
Events.v
Service.v
ChannelService.v
ServiceProps.v
ChannelProps.v
ModerationService.v
ModerationProps.v
ControlService.v
ControlProps.v
Voice.v
VoiceProps.v
Lifecycle.v
LifecycleProps.v
Cache.v
CacheProps.v
Password.v
Auth.v
AuthProps.v
Account.v
AccountTables.v
AccountProps.v
WebSocket.v
WebSocketProps.v
