(* ===== verification/Prelude.v ===== *)
(** * ZephyrVox CommunityServer: a verification library

    The program is a voice and community server in Go.  Clients keep an
    authenticated control connection, negotiate a voice session over it and
    exchange encrypted UDP datagrams, which are relayed to the other members of a
    voice channel.  Users, roles, groups, channels, access lists, permission
    configurations and mutes live in an SQLite database; a realtime layer keeps an
    immutable projection of them, and every change runs through one sequencer that
    commits the database and publishes the new state and its events, which
    connections receive over WebSocket lanes and may replay.  This library models
    that system from the sources under [src/internal] and proves what makes each
    part, and their composition, correct.

    ** Parts and files

    - Shared: [Prelude] (machine integers and their wrap-around, big-endian fields,
      times, results and early-return loops, sorting by a key, slices, tactics and
      the [zephyr] hint database), [Float64] (IEEE 754 doubles, exact integers
      scaled by a power of two with round to nearest, ties to even) and [Strconv]
      (decimal text).
    - Transport, [protocol/]: [Replay] ([replay.go]), [TokenBucket]
      ([ratelimit.go]), [Registry] ([channel.go]), [Ingress] ([ingress.go], and
      the upgrade limiter of [realtime/upgrade_limiter.go]), [Packet]
      ([packet.go], [crypto.go] and [buildPacket]), [Session] ([session.go]: the
      manager's heap of sessions, indexes, staged activations and barriers), with
      its invariant in [SessionInv] and theorems in [SessionProps]; [Udp]
      ([udp.go]) with theorems in [UdpProps].
    - Relay, [relay/]: [RelayQueue] ([queue.go]), [LoadControl] ([load.go]),
      [Relay] ([relay.go], [admission.go]) with theorems in [RelayProps];
      [RelayUdp] discharges the relay's [Sender] interface with the UDP server.
    - Identifiers: [Snowflake] ([snowflake/snowflake.go]).
    - Realtime state, [realtime/]: [State] ([state.go] and the row types of
      [db/models.go]) with theorems in [StateProps]; [StateRing] ([ring.go]);
      [Visibility] ([visibility.go]); [RelayGate] (the gate table of
      [relay_gate.go]); [Cursor] ([cursor.go]); [Support] ([etag.go], [timer.go],
      [mutation_gate.go]); [Snapshot] (the recipient-specific projections of
      [sync.go], [publication.go] and [eventbus.go]).
    - Connections, [realtime/]: [Connection] ([connection.go]) with theorems in
      [ConnectionProps]; [Lane] and [Pump] (the lanes and the write pump of
      [websocket.go]) with theorems in [Lane] and [PumpProps]; [WebSocket] (the
      handler of [websocket.go]: admission, the read loop and its commands, the
      timers and the teardown) with theorems in [WebSocketProps]; [EventBus]
      ([eventbus.go]) with theorems in [EventBusProps]; [Publication]
      ([publication.go]) with theorems in [PublicationProps]; [Sync] ([sync.go])
      with theorems in [Sync] and [SyncProps].
    - Commands, [realtime/]: [Sequencer] ([sequencer.go]) with theorems in
      [SequencerProps]; [Identity] and [Idempotency] ([idempotency.go],
      [runtime_idempotency.go]) with theorems in [Identity] and
      [IdempotencyProps]; [Lifecycle] ([lifecycle.go]: activation, presence,
      offline and voice teardown as commands, the publisher's batch workers, and a
      step relation of everything that may interleave with them) with theorems in
      [LifecycleProps].
    - Persistence, [db/] and [store/]: [Database] (the schema and the statements)
      with theorems in [DatabaseProps]; [Stores] (one module per store, over a
      transaction whose driver may fail at any step); [Installation] (bootstrap,
      the first owner, owner transfer, the projection load) with theorems in
      [InstallationProps]; [Durable] (durable command results) with theorems in
      [DurableProps].
    - Authorization, [rbac/]: [Rbac] ([rbac.go], [permissions.go] and
      [scope/authorizer.go]), which reads [State] and [Visibility].
    - Services: [Events] (event templates), [Service] (the pipeline of a mutation
      and the voice access it costs), [ChannelService] ([channel/service.go]),
      [ModerationService] ([moderation/]), [ControlService] ([rbac/control/]);
      [ServiceProps] is a program logic for their bodies, used by [ChannelProps],
      [ModerationProps] and [ControlProps]; [Voice] ([channel/voice.go]: joining
      and leaving a voice channel, its sessions and its reservation limiter) with
      theorems in [VoiceProps].
    - Authentication, [auth/] and [cache/]: [Cache] ([cache/cache.go]: entries,
      singleflight loads, and callers by their program counter) with theorems in
      [CacheProps]; [Password] ([password.go], the codes and tokens of [token.go],
      [invites.go], [activate.go] and [register.go]); [Auth] ([claims.go],
      [principal_cache.go], [resolver.go], [connection.go], [authorization.go], the
      sessions of [service.go] and [invites.go]) with theorems in [AuthProps];
      [Account] (the account transactions of [users.go], [service.go],
      [register.go] and [activate.go], their runtime in [state_change.go] and
      [PrepareAccountTeardown]), what each transaction does to the tables in
      [AccountTables], theorems in [AccountProps].

    The pieces meet as in the source.  [Udp.handleDatagram] runs the ingress
    limiter, the packet codec, the session lookup and [Session.acceptPacket],
    which consults the replay window and the token bucket; [Relay.process] fans a
    frame out through the [Sender] class, whose instance is [Udp.Send].  A service
    mutation is a [PostCommitCommand] of the [Sequencer]: it reads the published
    [State], authorizes with [Rbac], writes through [Stores] in one transaction,
    builds a candidate from what [Installation.loadStateProjection] reads there,
    reserves it in the [Publication], saves its result with [Durable] and commits;
    the sequencer then publishes, which appends to the [StateRing] and fans out
    over the [EventBus] into the [Lane]s that the [Pump] writes.  An account
    mutation runs the same way and, before it is published, invalidates the cached
    principals that [Auth] admits connections by and ends the connections of the
    account through the coordinator of [Connection].

    ** How code becomes definitions

    A method is a function from the receiver's state to its result and new state.
    Mutable objects reached through pointers (sessions, prepared sessions, expiry
    barriers, connections, cache entries) live in a heap indexed by locations, so
    aliasing is explicit.  A lock delimits an atomic section; where the source
    releases it inside an operation, the model takes an arbitrary environment step
    there or splits the operation into the steps of a relation, so a theorem holds
    under every interleaving.  A callback of the sequencer is a script of the calls
    it makes; a store operation is a computation over a transaction that counts the
    driver's answers.  The clock, random bytes, the outcome of a socket write or of
    a statement, and the order of a map iteration are arguments.  Errors are values
    of [result] or [option]; a Go panic that the code could reach is [None], and
    theorems show that it is not reached.  Integers are [Z] with the wrap-around of
    the source's type written where an operation may overflow.

    Code outside the repository is a parameter: the AEAD cipher, cursor signatures,
    access tokens and JSON codecs are classes with the laws their documentation gives; HKDF,
    HMAC, argon2, SHA-256, Unicode case and SQLite's string functions are arguments.  A theorem that
    needs a law of such code states it and is instantiated by a witness.

    ** What the theorems show

    - [Replay], [SessionProps], [UdpProps], [Packet]: the 128-bit window implements
      the set of sequences seen; no delivered frame is ever delivered again; a user
      has at most one live session; a send nonce is never used twice; a delivered
      frame was authentic; encoding and decoding are mutually inverse.
    - [TokenBucket], [Ingress], [LoadControl]: budgets hold exactly over floating
      point, tables stay bounded, soft limits recover after pressure ends.
    - [RelayQueue], [RelayProps], [RelayUdp]: the queue is FIFO per source and wakes
      its worker; a relayed frame reaches only members of its channel, under the
      authority current when it is sent, and each datagram of it is sealed as the
      recipient's session asks, with its key and its next nonce, whatever other
      goroutines do between and during the sends.
    - [Snowflake]: identifiers increase under any interleaving, and the loop ends.
    - [StateProps], [StateRing], [Visibility], [Snapshot], [Cursor]: the projection
      keeps every row and its indexes; the ring is bounded, contiguous and complete
      or refuses; visibility is its access rule; a snapshot holds exactly what its
      recipient may see; cursors round-trip and forgeries are classified.
    - [ConnectionProps], [PumpProps], [Lane], [RelayGate]: admissions are counted
      exactly, voice authority belongs to a live connection, teardown is claimed
      once, what the socket carries ends with its notice and close frame, gates
      exclude and never deadlock.
    - [WebSocketProps]: the handler follows the connection protocol, answers each
      command once within its budget, never blocks on its own answer, and leaves
      neither a record nor a timer behind when it returns.
    - [PublicationProps], [EventBusProps], [SyncProps]: the published checkpoint
      and the ring agree, a visibility transition proves itself by its epoch,
      queued events are visible to their recipient, and a connection that
      synchronises misses nothing.
    - [SequencerProps]: a command is published, committed as a no-op, or leaves no
      trace; every admitted command is answered once and in order, admission is
      bounded; after a failure, also one of another goroutine, at most the command
      in hand still completes and everything else is refused.
    - [IdempotencyProps], [Identity], [DurableProps]: a retry is recognised exactly
      and answered with the stored result for its whole window.
    - [DatabaseProps], [InstallationProps]: whatever the statements do, every table
      keeps what [schema.sql] declares of its columns, indexes and references; the
      projection describes exactly the tables; owner transfer is all or nothing; a
      refresh token is exchanged at most once, and the one exchanged last, presented
      again, ends its session.
    - [ServiceProps], [ChannelProps], [ModerationProps], [ControlProps]: after every
      mutation of every service the published state mirrors the committed tables,
      an error leaves both as they were, and a mutation only succeeds for an actor
      that is authorized, by rank and by version where it names one.
    - [VoiceProps], [LifecycleProps]: a join that succeeds installed its authority
      in the coordinator over the one it was allowed to replace, activated its
      session and published its membership, and what other goroutines left of it
      is in agreement; sessions stay within their budget; an offline or voice teardown settles to exactly the
      state it announces; the publisher's bookkeeping accounts for every
      disconnection it was told of; three concrete runs show where that
      bookkeeping loses an offline transition, makes a presence update fatal, or
      exhausts the closing reserve.
    - [CacheProps], [Password]: whatever interleaves with it, a read of the cache
      returns what was current when it started or later, and a waiter always waits
      for a load that is running; a stored hash verifies exactly the passwords that
      derive its key.
    - [AuthProps]: admission through the cached principals is admission by the
      tables; the tokens of a login open a control connection until they expire.
    - [AccountProps]: after every account mutation state, tables and cached
      principals agree; an account that was kicked, banned, deleted or given a new
      password keeps no connection, no voice authority and no working token.
    - [Rbac]: a resource decision allows exactly what the nearest configuration
      grants to an applicable binding on a visible resource, where the nearest is
      the target's own, its group's, or the server's.

    ** Bounds and fuel

    Loops are structural or folds.  [Snowflake.Next] takes fuel, and
    [Snowflake.Next_returns] shows three passes suffice for a clock that waits as
    long as asked; worker loops are modelled by their iterations.  Float theorems
    assume rates and bursts of at most 2^53, the integers a double represents
    exactly.  The capacities of queues, rings and tables are the source's.

    ** Not modelled, and next

    Sockets, tickers, goroutine creation, HTTP handlers and response encoding,
    configuration, certificates, logging, images and asset storage are I/O around
    this core, or third-party code.  The [WebSocket] handler takes its
    authenticator, strategy and publisher by their interfaces.  Of [auth/], the lists of users and invites and
    the lock table behind the principals' barriers are left out, and the stored
    result of an activation is only saved, not looked up, and of the services without a
    runtime only kicks and profile changes are modelled; the server always installs
    one.  Next in order: the request validation of the HTTP handlers. *)

From stdpp Require Import base gmap strings list fin_maps sorting.
From Stdlib Require Import ZArith Lia.

#[global] Open Scope Z_scope.

(** ** Notation of the development *)

Declare Scope zephyr_scope.
Delimit Scope zephyr_scope with zephyr.

(** [Abbreviation]s for the machine types of the source.  Every integer is a
    [Z]; the width of a type is stated by a range predicate and by the explicit
    wrap-around of the operations that may overflow. *)
Abbreviation bytes := (list Z).
Abbreviation SessionID := (list Z).

(** ** Machine integers *)

Definition u64_mod : Z := 2 ^ 64.
Definition max_u64 : Z := 2 ^ 64 - 1.
Definition u64 (x : Z) : Z := x mod u64_mod.
Definition is_u64 (x : Z) : Prop := 0 <= x < u64_mod.
Definition is_byte (x : Z) : Prop := 0 <= x < 256.
Definition is_u16 (x : Z) : Prop := 0 <= x < 65536.
Definition is_i64 (x : Z) : Prop := - 2 ^ 63 <= x < 2 ^ 63.

(** [int64(x)] of a [uint64] and [uint64(x)] of an [int64]. *)
Definition i64_of_u64 (x : Z) : Z := if x <? 2 ^ 63 then x else x - u64_mod.
Definition u64_of_i64 (x : Z) : Z := u64 x.

(** The two's complement result of [int64] arithmetic. *)
Definition i64 (x : Z) : Z := i64_of_u64 (u64 x).

Lemma u64_small x : is_u64 x -> u64 x = x.
Proof. apply Z.mod_small. Qed.

Lemma u64_range x : is_u64 (u64 x).
Proof. apply Z.mod_pos_bound. reflexivity. Qed.

Lemma i64_roundtrip x : is_i64 x -> i64_of_u64 (u64_of_i64 x) = x.
Proof.
  unfold is_i64, i64_of_u64, u64_of_i64, u64, u64_mod. intros H.
  destruct (Z.ltb_spec x 0).
  - replace (x mod 2 ^ 64) with (x + 2 ^ 64)
      by (apply Z.mod_unique with (-1); lia).
    destruct (Z.ltb_spec (x + 2 ^ 64) (2 ^ 63)); lia.
  - rewrite Z.mod_small by lia. destruct (Z.ltb_spec x (2 ^ 63)); lia.
Qed.

Lemma u64_roundtrip x : is_u64 x -> u64_of_i64 (i64_of_u64 x) = x.
Proof.
  unfold is_u64, i64_of_u64, u64_of_i64, u64, u64_mod. intros H.
  destruct (Z.ltb_spec x (2 ^ 63)).
  - apply Z.mod_small; lia.
  - symmetry. apply Z.mod_unique with (-1); lia.
Qed.

(** ** Big-endian encoding ([encoding/binary.BigEndian]) *)

(** [be_put n v] is [v] as [n] big-endian bytes, [be_get] reads them back. *)
Fixpoint be_put (n : nat) (v : Z) : bytes :=
  match n with
  | O => []
  | S n' => be_put n' (v / 256) ++ [v mod 256]
  end.

Definition be_get (bs : bytes) : Z := fold_left (fun acc b => acc * 256 + b) bs 0.

Lemma be_put_length n v : length (be_put n v) = n.
Proof. revert v. induction n; intros; simpl; [done|]. rewrite length_app, IHn. simpl. lia. Qed.

Lemma be_put_bytes n v : Forall is_byte (be_put n v).
Proof.
  revert v. induction n; intros; simpl; [constructor|].
  apply Forall_app. split; [done|]. constructor; [|constructor].
  apply Z.mod_pos_bound. lia.
Qed.

Lemma be_get_snoc bs b : be_get (bs ++ [b]) = be_get bs * 256 + b.
Proof. unfold be_get. by rewrite fold_left_app. Qed.

Lemma be_get_put n v : 0 <= v < 256 ^ Z.of_nat n -> be_get (be_put n v) = v.
Proof.
  revert v. induction n as [|n IH]; intros v Hv.
  - simpl in *. unfold be_get; simpl. lia.
  - simpl be_put. rewrite be_get_snoc, IH.
    + pose proof (Z.div_mod v 256). lia.
    + rewrite Nat2Z.inj_succ, Z.pow_succ_r in Hv by lia.
      split; [apply Z.div_pos; lia|]. apply Z.div_lt_upper_bound; lia.
Qed.

Lemma be_get_range bs : Forall is_byte bs -> 0 <= be_get bs < 256 ^ Z.of_nat (length bs).
Proof.
  induction bs as [|b bs IH] using rev_ind; intros H.
  - unfold be_get; simpl. lia.
  - apply Forall_app in H as [H1 H2]. apply Forall_inv in H2. specialize (IH H1).
    rewrite be_get_snoc, length_app, Nat.add_comm. cbn [length Nat.add].
    rewrite Nat2Z.inj_succ, Z.pow_succ_r by lia. unfold is_byte in H2. lia.
Qed.

Lemma be_put_get bs : Forall is_byte bs -> be_put (length bs) (be_get bs) = bs.
Proof.
  induction bs as [|b bs IH] using rev_ind; intros H; [done|].
  apply Forall_app in H as [H1 H2]. apply Forall_inv in H2. unfold is_byte in H2.
  rewrite length_app, Nat.add_comm. simpl be_put. rewrite be_get_snoc.
  rewrite Z.div_add_l, Z.div_small, Z.add_0_r, IH by (done || lia).
  by rewrite Z.add_comm, Z.mod_add, Z.mod_small by lia.
Qed.

(** ** Time

    A [time.Time] is a [Z] of nanoseconds since the Unix epoch; a
    [time.Duration] is a [Z] of nanoseconds.  [time.Time.Sub] saturates at the
    [int64] range. *)

Definition time_sub (t u : Z) : Z := Z.max (- 2 ^ 63) (Z.min (2 ^ 63 - 1) (t - u)).

(** [time.Time.UnixMilli]. *)
Definition unix_milli (t : Z) : Z := t / 1000000.

Definition Second : Z := 1000000000.
Definition Minute : Z := 60 * Second.

(** ** Finite maps *)

(** Deleting while ranging over a Go map keeps exactly the entries that fail the
    deletion test, so a sweep is a filter. *)
Lemma size_filter_le {K V} `{Countable K} (P : K * V -> Prop) `{!forall x, Decision (P x)}
    (m : gmap K V) : (size (filter P m) <= size m)%nat.
Proof. apply map_subseteq_size, map_filter_subseteq. Qed.

Lemma size_insert_le {K V} `{Countable K} (m : gmap K V) k v :
  (size (<[k:=v]> m) <= S (size m))%nat.
Proof.
  destruct (m !! k) eqn:E.
  - rewrite map_size_insert_Some; [lia|eauto].
  - by rewrite map_size_insert_None.
Qed.

(** The sum of a measure over the values of a map. *)
Definition msum {K V} `{Countable K} (f : V -> Z) (m : gmap K V) : Z := map_fold (fun _ x n => f x + n) 0 m.

Section Msum.
Context {K V : Type} `{Countable K} (f : V -> Z).
Implicit Types m : gmap K V.

Lemma msum_empty : msum f (∅ : gmap K V) = 0.
Proof. apply map_fold_empty. Qed.

Lemma msum_insert_new m k x : m !! k = None -> msum f (<[k:=x]> m) = f x + msum f m.
Proof. intros. unfold msum. rewrite map_fold_insert_L; [done|intros; lia|done]. Qed.

Lemma msum_delete m k x : m !! k = Some x -> msum f (delete k m) = msum f m - f x.
Proof.
  intros Hk. assert (Hm : <[k:=x]> (delete k m) = m) by (rewrite insert_delete_eq; by apply insert_id).
  rewrite <- Hm at 2. rewrite msum_insert_new by apply lookup_delete_eq. lia.
Qed.

Lemma msum_insert m k x y : m !! k = Some x -> msum f (<[k:=y]> m) = msum f m - f x + f y.
Proof.
  intros Hk. rewrite <- insert_delete_eq, msum_insert_new by apply lookup_delete_eq.
  rewrite (msum_delete _ _ x) by done. lia.
Qed.

Lemma msum_nonneg m : (forall x, 0 <= f x) -> 0 <= msum f m.
Proof.
  intros Hf. induction m as [|k x m Hk IH] using map_ind; [by rewrite msum_empty|].
  rewrite msum_insert_new by done. specialize (Hf x). lia.
Qed.

Lemma msum_ge m k x : (forall x, 0 <= f x) -> m !! k = Some x -> f x <= msum f m.
Proof. intros Hf Hk. pose proof (msum_nonneg (delete k m) Hf). rewrite (msum_delete _ _ _ Hk) in *. lia. Qed.
End Msum.

Lemma msum_ext {K V} `{Countable K} (f g : V -> Z) (m : gmap K V) :
  (forall k x, m !! k = Some x -> f x = g x) -> msum f m = msum g m.
Proof.
  induction m as [|k x m Hk IH] using map_ind; intros Hfg; [by rewrite !msum_empty|].
  rewrite !msum_insert_new by done. rewrite (Hfg k x) by apply lookup_insert_eq. f_equal. apply IH.
  intros k' y Hy. apply (Hfg k'). rewrite lookup_insert_ne; [done|]. intros ->. congruence.
Qed.

Lemma msum_fmap {K V W} `{Countable K} (g : V -> W) (f : W -> Z) (m : gmap K V) :
  msum f (g <$> m) = msum (fun x => f (g x)) m.
Proof.
  induction m as [|k x m Hk IH] using map_ind; [by rewrite fmap_empty, !msum_empty|].
  rewrite fmap_insert, !msum_insert_new by (rewrite ?lookup_fmap, ?Hk; done). by rewrite IH.
Qed.

Lemma msum_one {K V} `{Countable K} (m : gmap K V) : msum (fun _ => 1) m = Z.of_nat (size m).
Proof.
  induction m as [|k x m Hk IH] using map_ind; [by rewrite msum_empty, map_size_empty|].
  rewrite msum_insert_new, map_size_insert_None, IH by done. lia.
Qed.

(** ** Lists *)

Lemma filter_ext_elem {A} (P Q : A -> Prop) `{!forall x, Decision (P x), !forall x, Decision (Q x)}
    (l : list A) : (forall x, x ∈ l -> P x <-> Q x) -> filter P l = filter Q l.
Proof.
  induction l as [|x l IH]; intros Hl; [done|]. rewrite !filter_cons, IH by set_solver.
  assert (P x <-> Q x) by set_solver. by repeat case_decide; [|tauto|tauto|].
Qed.

Lemma list_filter_all {A} (P : A -> Prop) `{!forall x, Decision (P x)} (l : list A) :
  (forall x, x ∈ l -> P x) -> filter P l = l.
Proof.
  induction l as [|x l IH]; intros Hl; [done|]. rewrite filter_cons_True by (apply Hl; by left).
  f_equal. apply IH. intros y Hy. apply Hl. by right.
Qed.

Lemma list_filter_none {A} (P : A -> Prop) `{!forall x, Decision (P x)} (l : list A) : (forall x, x ∈ l -> ~ P x) -> filter P l = [].
Proof.
  induction l as [|x l IH]; intros Hall; [done|]. rewrite filter_cons_False by (apply Hall; by left). apply IH. intros y Hy. apply Hall. by right.
Qed.

(** [sort.Slice] by an integer field.  The library sort is not stable; the
    fields it is used on are primary keys. *)
Definition by_key {A} (key : A -> Z) (x y : A) : Prop := key x <= key y.
#[global] Instance by_key_dec {A} (key : A -> Z) : RelDecision (by_key key).
Proof. intros x y. apply Z.le_dec. Defined.
#[global] Instance by_key_total {A} (key : A -> Z) : Total (by_key key).
Proof. intros x y. unfold by_key. lia. Qed.
#[global] Instance by_key_trans {A} (key : A -> Z) : Transitive (by_key key).
Proof. intros x y z. unfold by_key. lia. Qed.

Definition sort_by {A} (key : A -> Z) (l : list A) : list A := merge_sort (by_key key) l.

Lemma sort_by_perm {A} (key : A -> Z) (l : list A) : sort_by key l ≡ₚ l.
Proof. apply merge_sort_Permutation. Qed.

Lemma elem_of_sort_by {A} (key : A -> Z) (l : list A) x : x ∈ sort_by key l <-> x ∈ l.
Proof. by rewrite (sort_by_perm key l). Qed.

Lemma sort_by_sorted {A} (key : A -> Z) (l : list A) : StronglySorted (by_key key) (sort_by key l).
Proof. apply StronglySorted_merge_sort; apply _. Qed.

(** Two sorted lists with the same elements are equal when the field identifies
    its element, so the order of a map iteration does not matter. *)
Lemma sorted_unique {A} (key : A -> Z) (l1 l2 : list A) :
  StronglySorted (by_key key) l1 -> StronglySorted (by_key key) l2 -> l1 ≡ₚ l2 ->
  (forall x y, x ∈ l1 -> y ∈ l1 -> key x = key y -> x = y) -> l1 = l2.
Proof.
  intros H1. revert l2. induction H1 as [|x l1 H1 IH Hx]; intros l2 H2 Hp Hinj.
  - by apply Permutation_nil_l in Hp.
  - destruct H2 as [|y l2 H2 Hy]; [by apply Permutation_nil_r in Hp|].
    rewrite Forall_forall in Hx, Hy. unfold by_key in Hx, Hy.
    assert (x = y) as <-.
    { apply Hinj; [by left|rewrite Hp; by left|].
      assert (Hyx : y ∈ x :: l1) by (rewrite Hp; by left). assert (Hxy : x ∈ y :: l2) by (rewrite <- Hp; by left).
      apply elem_of_cons in Hyx as [->|Hyx]; [done|]. apply elem_of_cons in Hxy as [->|Hxy]; [done|].
      specialize (Hx _ Hyx). specialize (Hy _ Hxy). lia. }
    f_equal. apply IH; [done|by apply Permutation_cons_inv in Hp|].
    intros a b Ha Hb. apply Hinj; by right.
Qed.

(** ** Results and panics *)

(** A Go [(value, error)] pair with a nil or non-nil error. *)
Inductive result (A E : Type) := Ok (a : A) | Err (e : E).
Arguments Ok {A E} a.
Arguments Err {A E} e.

Definition rbind {A B E} (f : A -> result B E) (r : result A E) : result B E :=
  match r with Ok a => f a | Err e => Err e end.

Notation "x '<-?' e ';;' k" := (rbind (fun x => k) e)
  (at level 100, e at next level, right associativity) : zephyr_scope.
#[global] Open Scope zephyr_scope.

Lemma rbind_Ok {A B E} (f : A -> result B E) r b :
  rbind f r = Ok b -> exists a, r = Ok a /\ f a = Ok b.
Proof. destruct r; [eauto|done]. Qed.

(** A [for range] loop over [l] that updates [a] and may return early with an error. *)
Fixpoint foldM {A B E} (f : A -> B -> result A E) (a : A) (l : list B) : result A E :=
  match l with
  | [] => Ok a
  | x :: l => a' <-? f a x ;; foldM f a' l
  end.

(** Induction over a loop that ran to its end, with the rows already consumed. *)
Lemma foldM_ind {A B E} (P : list B -> A -> Prop) (f : A -> B -> result A E) a l r :
  P [] a -> (forall done x b b', P done b -> f b x = Ok b' -> P (done ++ [x]) b') ->
  foldM f a l = Ok r -> P l r.
Proof.
  intros H0 Hstep Hr. change l with ([] ++ l). revert H0 Hr. generalize (@nil B) as done.
  revert a. induction l as [|x l IH]; intros a done H0 Hr; cbn in Hr.
  - injection Hr as <-. by rewrite app_nil_r.
  - destruct (f a x) as [a'|] eqn:Efx; [|discriminate]. cbn in Hr.
    rewrite cons_middle, (app_assoc _ [x] l). apply (IH a'); [|exact Hr]. by apply (Hstep _ _ a).
Qed.

(** [s[lo:hi]] with the bounds check of the language: [None] is the panic. *)
Definition slice {A} (lo hi : nat) (s : list A) : option (list A) :=
  if decide (lo <= hi /\ hi <= length s)%nat then Some (take (hi - lo) (drop lo s)) else None.

Lemma some_bind {A B} (f : A -> option B) x : Some x ≫= f = f x.
Proof. done. Qed.

(** The same without the check, where a length test precedes it. *)
Definition subslice {A} (lo hi : nat) (s : list A) : list A := take (hi - lo) (drop lo s).

Lemma subslice_length {A} lo hi (s : list A) : (lo <= hi <= length s)%nat ->
  length (subslice lo hi s) = (hi - lo)%nat.
Proof. intros. unfold subslice. rewrite length_take, length_drop. lia. Qed.

Lemma take_subslice {A} a b (s : list A) : (a <= b)%nat -> take b s = take a s ++ subslice a b s.
Proof. intros. unfold subslice. rewrite take_take_drop. f_equal. lia. Qed.

(** ** Tactics and hint databases *)

Create HintDb zephyr.

(** Case analysis on every [if] and [match] of the goal, with arithmetic
    comparisons turned into propositions. *)
Ltac split_ifs :=
  repeat (case_match || case_decide || case_bool_decide);
  rewrite ?Z.ltb_lt, ?Z.leb_le, ?Z.eqb_eq, ?Z.ltb_ge, ?Z.leb_gt, ?Z.eqb_neq in *.

Ltac inv H := inversion H; subst; clear H.
