(* ===== verification/Float64.v ===== *)
(** * Float64: the finite binary64 arithmetic the rate limiters use

    Go's [float64] is IEEE-754 binary64 with round-to-nearest-even.  A finite
    binary64 number is an integer multiple of [2^-1074], and is represented
    here by that integer: a [float64] value is a [Z] counted in units of
    [2^-1074].  Every operation computes the exact rational result and rounds it
    to 53 significant bits (fewer in the subnormal range, where one unit is the
    precision), ties to even.  Infinities and NaN are not represented: the code
    modelled with this file adds and multiplies values far below [2^1024] and
    divides only by non-zero constants. *)

From S2P Require Import Prelude.
From stdpp Require Import base decidable tactics numbers.
From Stdlib Require Import ZArith Lia.
#[local] Open Scope Z_scope.

Create HintDb float64.

Module Float64.

(** One (1.0) in units. *)
Definition one : Z := 2 ^ 1074.

(** Nearest integer to [a / b] ([0 < b]), ties to even. *)
Definition rne (a b : Z) : Z :=
  let d := a / b in
  let r := a mod b in
  if 2 * r <? b then d
  else if b <? 2 * r then d + 1
  else if Z.even d then d else d + 1.

(** The exponent by which a value with integer part [n] is scaled so that 53
    significant bits remain. *)
Definition ulp_exp (n : Z) : Z := Z.max 0 (Z.log2 n - 52).

(** Round the non-negative rational [p / q] (in units) to the nearest float. *)
Definition rnd_pos (p q : Z) : Z :=
  let e := ulp_exp (p / q) in
  rne p (q * 2 ^ e) * 2 ^ e.

Definition rnd (p q : Z) : Z :=
  if p <? 0 then - rnd_pos (- p) q else rnd_pos p q.

Definition of_int (n : Z) : Z := rnd (n * one) 1.
Definition of_ratio (n d : Z) : Z := rnd (n * one) d.
Definition add (a b : Z) : Z := rnd (a + b) 1.
Definition sub (a b : Z) : Z := rnd (a - b) 1.
Definition mul (a b : Z) : Z := rnd (a * b) one.
Definition div (a b : Z) : Z := rnd (a * one) b.

(** [int(math.Floor(x))]. *)
Definition floor (a : Z) : Z := a / one.

(** [time.Duration.Seconds]: whole seconds plus the fractional nanoseconds
    divided by 1e9, each step in binary64. *)
Definition duration_seconds (d : Z) : Z :=
  add (of_int (Z.quot d 1000000000))
      (div (of_int (Z.rem d 1000000000)) (of_int 1000000000)).

(** The floats: integers with at most 53 significant bits. *)
Definition representable (x : Z) : Prop :=
  exists m e, 0 <= e /\ Z.abs m <= 2 ^ 53 /\ x = m * 2 ^ e.

(** ** Rounding to an integer *)

Section Rne.

Lemma rne_near a b : 0 < b -> - b <= 2 * (b * rne a b - a) <= b.
Proof.
  intros Hb. unfold rne. pose proof (Z.div_mod a b). pose proof (Z.mod_pos_bound a b Hb).
  repeat case_match; lia.
Qed.

(** A tie goes to the even neighbour, so the result is determined by [a/b]. *)
Lemma rne_scale a b k : 0 < b -> 0 < k -> rne (a * k) (b * k) = rne a b.
Proof.
  intros Hb Hk. unfold rne.
  rewrite Z.div_mul_cancel_r, Zmult_mod_distr_r by lia.
  replace (2 * (a mod b * k) <? b * k) with (2 * (a mod b) <? b)
    by (apply eq_bool_prop_intro; rewrite !Is_true_true, !Z.ltb_lt; nia).
  replace (b * k <? 2 * (a mod b * k)) with (b <? 2 * (a mod b))
    by (apply eq_bool_prop_intro; rewrite !Is_true_true, !Z.ltb_lt; nia).
  done.
Qed.

Lemma rne_exact n b : 0 < b -> rne (n * b) b = n.
Proof.
  intros Hb. unfold rne. rewrite Z.div_mul, Z.mod_mul by lia.
  destruct (Z.ltb_spec (2 * 0) b); lia.
Qed.

Lemma rne_mono_same a1 a2 b : 0 < b -> a1 <= a2 -> rne a1 b <= rne a2 b.
Proof.
  intros Hb Ha. pose proof (rne_near a1 b Hb). pose proof (rne_near a2 b Hb).
  destruct (Z.le_gt_cases (rne a1 b) (rne a2 b)) as [|Hlt]; [done|].
  assert (rne a1 b = rne a2 b + 1) by nia.
  assert (a1 = a2) as -> by nia. lia.
Qed.

Lemma rne_mono a1 b1 a2 b2 :
  0 < b1 -> 0 < b2 -> a1 * b2 <= a2 * b1 -> rne a1 b1 <= rne a2 b2.
Proof.
  intros H1 H2 H. rewrite <-(rne_scale a1 b1 b2), <-(rne_scale a2 b2 b1) by lia.
  rewrite (Z.mul_comm b2 b1). apply rne_mono_same; nia.
Qed.

End Rne.

(** ** Rounding to a float *)

Lemma pow2_pos e : 0 <= e -> 0 < 2 ^ e.
Proof. intros. apply Z.pow_pos_nonneg; lia. Qed.

Lemma ulp_exp_nonneg n : 0 <= ulp_exp n.
Proof. unfold ulp_exp. lia. Qed.

Lemma ulp_exp_upper n : 0 <= n -> n < 2 ^ (ulp_exp n + 53).
Proof.
  intros Hn. unfold ulp_exp. destruct (decide (n = 0)) as [->|].
  - apply pow2_pos. lia.
  - pose proof (Z.log2_spec n). eapply Z.lt_le_trans; [apply H; lia|].
    apply Z.pow_le_mono_r; lia.
Qed.

Lemma ulp_exp_lower n : 0 < ulp_exp n -> 2 ^ (ulp_exp n + 52) <= n.
Proof.
  unfold ulp_exp. intros He. assert (0 < n).
  { destruct (Z.le_gt_cases n 0); [|done]. rewrite Z.log2_nonpos in He by done. lia. }
  replace (Z.max 0 (Z.log2 n - 52) + 52) with (Z.log2 n) by lia.
  by apply Z.log2_spec.
Qed.

Lemma rnd_pos_upper p q : 0 <= p -> 0 < q ->
  rnd_pos p q <= 2 ^ (ulp_exp (p / q) + 53).
Proof.
  intros Hp Hq. unfold rnd_pos. set (e := ulp_exp (p / q)).
  assert (0 <= e) by apply ulp_exp_nonneg. pose proof (pow2_pos e).
  assert (p < q * 2 ^ (e + 53)).
  { pose proof (ulp_exp_upper (p / q) (Z.div_pos p q Hp Hq)). fold e in H1.
    pose proof (Z.mul_succ_div_gt p q Hq). nia. }
  rewrite Z.pow_add_r in * by lia. rewrite (Z.mul_comm (2 ^ e)).
  apply Z.mul_le_mono_nonneg_r; [lia|].
  rewrite <-(rne_exact (2 ^ 53) (q * 2 ^ e)) by lia. apply rne_mono_same; lia.
Qed.

Lemma rnd_pos_lower p q : 0 <= p -> 0 < q -> 0 < ulp_exp (p / q) ->
  2 ^ (ulp_exp (p / q) + 52) <= rnd_pos p q.
Proof.
  intros Hp Hq He. pose proof (ulp_exp_lower _ He) as Hl. unfold rnd_pos.
  set (e := ulp_exp (p / q)) in *. pose proof (pow2_pos e).
  pose proof (Z.mul_div_le p q Hq).
  rewrite Z.pow_add_r in * by lia. rewrite (Z.mul_comm (2 ^ e)).
  apply Z.mul_le_mono_nonneg_r; [lia|].
  rewrite <-(rne_exact (2 ^ 52) (q * 2 ^ e)) by lia. apply rne_mono_same; nia.
Qed.

Lemma rnd_pos_nonneg p q : 0 <= p -> 0 < q -> 0 <= rnd_pos p q.
Proof.
  intros Hp Hq. unfold rnd_pos. pose proof (ulp_exp_nonneg (p / q)) as He.
  pose proof (pow2_pos _ He). apply Z.mul_nonneg_nonneg; [|lia].
  rewrite <-(rne_exact 0 (q * 2 ^ ulp_exp (p / q))) by lia. apply rne_mono_same; lia.
Qed.

(** Rounding is monotone in the exact value. *)
Lemma rnd_pos_mono p1 q1 p2 q2 :
  0 <= p1 -> 0 < q1 -> 0 <= p2 -> 0 < q2 ->
  p1 * q2 <= p2 * q1 -> rnd_pos p1 q1 <= rnd_pos p2 q2.
Proof.
  intros Hp1 Hq1 Hp2 Hq2 H.
  assert (p1 / q1 <= p2 / q2) as Hn.
  { apply Z.div_le_lower_bound; [done|]. pose proof (Z.mul_div_le p1 q1 Hq1). nia. }
  assert (ulp_exp (p1 / q1) <= ulp_exp (p2 / q2)) as He.
  { unfold ulp_exp. apply Z.log2_le_mono in Hn. lia. }
  destruct (decide (ulp_exp (p1 / q1) = ulp_exp (p2 / q2))) as [Heq|Hne].
  - unfold rnd_pos. rewrite Heq. pose proof (pow2_pos _ (ulp_exp_nonneg (p2 / q2))).
    apply Z.mul_le_mono_nonneg_r; [lia|]. apply rne_mono; nia.
  - pose proof (ulp_exp_nonneg (p1 / q1)).
    etrans; [by apply rnd_pos_upper|]. etrans; [|apply rnd_pos_lower; lia].
    apply Z.pow_le_mono_r; lia.
Qed.

Lemma rnd_pos_representable p q : 0 <= p -> 0 < q -> representable (rnd_pos p q).
Proof.
  intros Hp Hq. exists (rne p (q * 2 ^ ulp_exp (p / q))), (ulp_exp (p / q)).
  pose proof (ulp_exp_nonneg (p / q)) as He. pose proof (pow2_pos _ He).
  split_and!; [done| |done].
  pose proof (rnd_pos_upper p q Hp Hq). pose proof (rnd_pos_nonneg p q Hp Hq).
  unfold rnd_pos in *. rewrite Z.pow_add_r in * by lia. nia.
Qed.

(** A float is a fixed point of rounding. *)
Lemma rnd_pos_exact x q : 0 <= x -> 0 < q -> representable x -> rnd_pos (x * q) q = x.
Proof.
  intros Hx Hq (m & e & He & Hm & Hxe). unfold rnd_pos. rewrite Z.div_mul by lia.
  set (e' := ulp_exp x). assert (0 <= e') by apply ulp_exp_nonneg. pose proof (pow2_pos e').
  enough (exists k, x = k * 2 ^ e') as [k Hk].
  { replace (x * q) with (k * (q * 2 ^ e')) by nia. rewrite rne_exact by lia. done. }
  destruct (Z.le_gt_cases e' e) as [Hle|Hgt].
  - exists (m * 2 ^ (e - e')). rewrite Hxe.
    replace e with (e - e' + e') at 1 by lia. rewrite Z.pow_add_r by lia. ring.
  - assert (2 ^ (e' + 52) <= x) by (apply ulp_exp_lower; lia).
    assert (x <= 2 ^ (e + 53)).
    { rewrite Hxe, Z.pow_add_r by lia. pose proof (pow2_pos e He). nia. }
    assert (2 ^ (e + 53) <= 2 ^ (e' + 52)) by (apply Z.pow_le_mono_r; lia).
    exists (2 ^ 52). rewrite <-Z.pow_add_r by lia. rewrite (Z.add_comm 52). lia.
Qed.

(** Rounding up is bounded by half a unit in the last place. *)
Lemma rnd_pos_err p q : 0 <= p -> 0 < q ->
  rnd_pos p q * q * 2 ^ 53 <= p * (2 ^ 53 + 1) + 2 ^ 52 * q.
Proof.
  intros Hp Hq. unfold rnd_pos. set (e := ulp_exp (p / q)).
  assert (0 <= e) by apply ulp_exp_nonneg. pose proof (pow2_pos e).
  pose proof (rne_near p (q * 2 ^ e) ltac:(lia)) as Hn. set (x := rne p (q * 2 ^ e)) in *.
  destruct (decide (e = 0)) as [He|He].
  - rewrite He in *. lia.
  - assert (q * 2 ^ e * 2 ^ 52 <= p).
    { pose proof (ulp_exp_lower (p / q) ltac:(fold e; lia)) as Hl. fold e in Hl.
      rewrite Z.pow_add_r in Hl by lia. pose proof (Z.mul_div_le p q Hq). nia. }
    lia.
Qed.

(** ** The operations on non-negative floats *)

Lemma one_pos : 0 < one.
Proof. by vm_compute. Qed.

Lemma one_large : 2 ^ 110 <= one.
Proof. apply Z.pow_le_mono_r; lia. Qed.

Lemma rnd_nonneg_eq p q : 0 <= p -> rnd p q = rnd_pos p q.
Proof. intros. unfold rnd. destruct (Z.ltb_spec p 0); [lia|done]. Qed.

Lemma representable_mul_pow m e : 0 <= e -> Z.abs m <= 2 ^ 53 -> representable (m * 2 ^ e).
Proof. intros. by exists m, e. Qed.

Lemma representable_int n : Z.abs n <= 2 ^ 53 -> representable (n * one).
Proof. intros. by apply (representable_mul_pow n 1074). Qed.

#[local] Opaque one.

Lemma of_int_exact n : 0 <= n <= 2 ^ 53 -> of_int n = n * one.
Proof.
  intros H. unfold of_int. pose proof one_pos. rewrite rnd_nonneg_eq by nia.
  rewrite <-(Z.mul_1_r (n * one)) at 1.
  apply rnd_pos_exact; [nia|lia|]. apply representable_int. lia.
Qed.

Lemma of_int_representable n : 0 <= n -> representable (of_int n).
Proof.
  intros. pose proof one_pos. unfold of_int. rewrite rnd_nonneg_eq by nia.
  apply rnd_pos_representable; nia.
Qed.

Lemma of_int_mono a b : 0 <= a <= b -> of_int a <= of_int b.
Proof.
  intros. pose proof one_pos. unfold of_int. rewrite !rnd_nonneg_eq by nia.
  apply rnd_pos_mono; nia.
Qed.

Lemma of_int_nonneg a : 0 <= a -> 0 <= of_int a.
Proof.
  intros. pose proof one_pos. unfold of_int. rewrite rnd_nonneg_eq by nia.
  apply rnd_pos_nonneg; nia.
Qed.

Lemma add_nonneg a b : 0 <= a -> 0 <= b -> 0 <= add a b.
Proof. intros. unfold add. rewrite rnd_nonneg_eq by lia. apply rnd_pos_nonneg; lia. Qed.

Lemma add_representable a b : 0 <= a -> 0 <= b -> representable (add a b).
Proof. intros. unfold add. rewrite rnd_nonneg_eq by lia. apply rnd_pos_representable; lia. Qed.

Lemma add_ge_l a b : representable a -> 0 <= a -> 0 <= b -> a <= add a b.
Proof.
  intros. unfold add. rewrite rnd_nonneg_eq by lia.
  rewrite <-(rnd_pos_exact a 1) at 1 by (done || lia). apply rnd_pos_mono; lia.
Qed.

Lemma add_le a b c : representable c -> 0 <= a -> 0 <= b -> a + b <= c -> add a b <= c.
Proof.
  intros. unfold add. rewrite rnd_nonneg_eq by lia.
  rewrite <-(rnd_pos_exact c 1) by (done || lia). apply rnd_pos_mono; lia.
Qed.

Lemma representable_double c : representable c -> representable (2 * c).
Proof.
  intros (m & e & He & Hm & ->). exists m, (e + 1). split_and!; [lia|done|].
  rewrite Z.pow_add_r by lia. ring.
Qed.

(** A sum of more than twice [c] does not round down to [c]. *)
Lemma add_gt a b c : representable c -> 0 <= a -> 0 <= b -> 0 <= c -> 2 * c < a + b -> c < add a b.
Proof.
  intros Hc Ha Hb Hpos Hlt. unfold add. rewrite rnd_nonneg_eq by lia.
  destruct (decide (c = 0)) as [->|].
  - assert (rnd_pos (1 * 1) 1 = 1) by (apply rnd_pos_exact; [lia..|]; by exists 1, 0).
    pose proof (rnd_pos_mono (1 * 1) 1 (a + b) 1 ltac:(lia) ltac:(lia) ltac:(lia) ltac:(lia) ltac:(lia)). lia.
  - pose proof (rnd_pos_exact (2 * c) 1 ltac:(lia) ltac:(lia) (representable_double c Hc)) as He.
    pose proof (rnd_pos_mono (2 * c * 1) 1 (a + b) 1 ltac:(lia) ltac:(lia) ltac:(lia) ltac:(lia) ltac:(lia)). lia.
Qed.

Lemma sub_nonneg a b : b <= a -> 0 <= sub a b.
Proof. intros. unfold sub. rewrite rnd_nonneg_eq by lia. apply rnd_pos_nonneg; lia. Qed.

Lemma sub_representable a b : b <= a -> representable (sub a b).
Proof. intros. unfold sub. rewrite rnd_nonneg_eq by lia. apply rnd_pos_representable; lia. Qed.

Lemma sub_le_l a b : representable a -> 0 <= b <= a -> sub a b <= a.
Proof.
  intros. unfold sub. rewrite rnd_nonneg_eq by lia.
  rewrite <-(rnd_pos_exact a 1) at 2 by (done || lia). apply rnd_pos_mono; lia.
Qed.

(** Small integers are subtracted exactly. *)
Lemma sub_int_exact a b : 0 <= b <= a -> a <= 2 ^ 53 ->
  sub (a * one) (b * one) = (a - b) * one.
Proof.
  intros. pose proof one_pos. unfold sub. rewrite rnd_nonneg_eq by nia.
  rewrite <-Z.mul_sub_distr_r, <-(Z.mul_1_r ((a - b) * one)) at 1.
  apply rnd_pos_exact; [nia|lia|]. apply representable_int. lia.
Qed.

Lemma mul_nonneg a b : 0 <= a -> 0 <= b -> 0 <= mul a b.
Proof.
  intros. pose proof one_pos. unfold mul. rewrite rnd_nonneg_eq by nia.
  apply rnd_pos_nonneg; nia.
Qed.

(** Multiplying by a factor of at most 1.0 never grows a float. *)
Lemma mul_le_l a c : representable a -> 0 <= a -> 0 <= c <= one -> mul a c <= a.
Proof.
  intros. pose proof one_pos. unfold mul. rewrite rnd_nonneg_eq by nia.
  rewrite <-(rnd_pos_exact a 1) at 2 by (done || lia). apply rnd_pos_mono; nia.
Qed.

Lemma mul_mono_l a b c : 0 <= a <= b -> 0 <= c -> mul a c <= mul b c.
Proof.
  intros. pose proof one_pos. unfold mul. rewrite !rnd_nonneg_eq by nia.
  apply rnd_pos_mono; [nia..|]. apply Z.mul_le_mono_nonneg_r; nia.
Qed.

Lemma div_nonneg a b : 0 <= a -> 0 < b -> 0 <= div a b.
Proof.
  intros. pose proof one_pos. unfold div. rewrite rnd_nonneg_eq by nia.
  apply rnd_pos_nonneg; nia.
Qed.

Lemma floor_mono a b : a <= b -> floor a <= floor b.
Proof. apply Z.div_le_mono, one_pos. Qed.

Lemma floor_int n : floor (n * one) = n.
Proof. apply Z.div_mul. pose proof one_pos. lia. Qed.

Lemma floor_nonneg a : 0 <= a -> 0 <= floor a.
Proof. intros. apply Z.div_pos; [done|apply one_pos]. Qed.

(** [floor (n * c) <= n] for an exactly represented integer [n]. *)
Lemma floor_mul_le n c : 0 <= n <= 2 ^ 53 -> 0 <= c <= one -> floor (mul (of_int n) c) <= n.
Proof.
  intros Hn Hc. rewrite <-(floor_int n) at 2. apply floor_mono.
  rewrite <-(of_int_exact n) by done.
  apply mul_le_l; [apply of_int_representable; lia|apply of_int_nonneg; lia|done].
Qed.

(** A factor of at most 7/8 takes an integer strictly below itself. *)
Lemma floor_mul_lt n c : 1 <= n <= 2 ^ 50 -> 0 <= c /\ 8 * c <= 7 * one -> floor (mul (of_int n) c) < n.
Proof.
  intros Hn [Hc H8]. pose proof one_pos as H1. rewrite of_int_exact by lia.
  assert (Hone : one = 8 * 2 ^ 1071) by (by vm_compute).
  assert (Hle : mul (n * one) c <= (8 * n - 1) * 2 ^ 1071).
  { unfold mul. rewrite rnd_nonneg_eq by nia.
    rewrite <-(rnd_pos_exact ((8 * n - 1) * 2 ^ 1071) 1); [|nia|lia|apply representable_mul_pow; lia].
    apply rnd_pos_mono; nia. }
  unfold floor. apply Z.div_lt_upper_bound; [done|]. nia.
Qed.

Lemma duration_seconds_nonneg d : 0 <= d -> 0 <= duration_seconds d.
Proof.
  intros. unfold duration_seconds. apply add_nonneg.
  - apply of_int_nonneg, Z.quot_pos; lia.
  - apply div_nonneg.
    + apply of_int_nonneg, Z.rem_nonneg; lia.
    + rewrite of_int_exact by lia. pose proof one_pos. lia.
Qed.

(** ** Upper error bounds *)

Lemma add_err a b : 0 <= a -> 0 <= b -> add a b * 2 ^ 53 <= (a + b) * (2 ^ 53 + 1) + 2 ^ 52.
Proof.
  intros. unfold add. rewrite rnd_nonneg_eq by lia.
  pose proof (rnd_pos_err (a + b) 1). lia.
Qed.

Lemma sub_err a b : b <= a -> sub a b * 2 ^ 53 <= (a - b) * (2 ^ 53 + 1) + 2 ^ 52.
Proof.
  intros. unfold sub. rewrite rnd_nonneg_eq by lia.
  pose proof (rnd_pos_err (a - b) 1). lia.
Qed.

Lemma mul_int_err a n : 0 <= a -> 0 <= n ->
  mul a (n * one) * 2 ^ 53 <= a * n * (2 ^ 53 + 1) + 2 ^ 52.
Proof.
  intros. pose proof one_pos. unfold mul. rewrite rnd_nonneg_eq by nia.
  pose proof (rnd_pos_err (a * (n * one)) one ltac:(nia) ltac:(lia)) as He.
  set (x := rnd_pos (a * (n * one)) one) in *. nia.
Qed.

Lemma div_int_err r n : 0 <= r -> 0 < n ->
  div (r * one) (n * one) * n * 2 ^ 53 <= r * one * (2 ^ 53 + 1) + 2 ^ 52 * n.
Proof.
  intros. pose proof one_pos. unfold div. rewrite rnd_nonneg_eq by nia.
  pose proof (rnd_pos_err (r * one * one) (n * one) ltac:(nia) ltac:(nia)) as He.
  set (x := rnd_pos (r * one * one) (n * one)) in *. nia.
Qed.

Lemma duration_seconds_err d : 0 <= d < 2 ^ 63 ->
  duration_seconds d * 1000000000 * 2 ^ 106
  <= d * one * (2 ^ 53 + 1) ^ 2 + 1000000000 * 2 ^ 107.
Proof.
  intros Hd. unfold duration_seconds. pose proof one_pos as Ho.
  pose proof (Z.quot_rem d 1000000000 ltac:(lia)) as Hqr.
  pose proof (Z.rem_bound_pos d 1000000000 ltac:(lia) ltac:(lia)).
  assert (0 <= Z.quot d 1000000000) by (apply Z.quot_pos; lia).
  set (s := Z.quot d 1000000000) in *. set (r := Z.rem d 1000000000) in *.
  rewrite !of_int_exact by lia.
  pose proof (div_int_err r 1000000000 ltac:(lia) ltac:(lia)) as E1.
  assert (0 <= div (r * one) (1000000000 * one)) by (apply div_nonneg; nia).
  set (f := div (r * one) (1000000000 * one)) in *.
  pose proof (add_err (s * one) f ltac:(nia) ltac:(lia)) as E2.
  set (x := add (s * one) f) in *.
  assert (d * one = 1000000000 * (s * one) + r * one) as -> by nia.
  set (so := s * one) in *. set (ro := r * one) in *.
  assert (0 <= so /\ 0 <= ro) as [? ?] by (split; subst so ro; nia). lia.
Qed.

End Float64.

#[export] Hint Resolve Float64.of_int_representable Float64.of_int_nonneg
  Float64.add_nonneg Float64.add_representable Float64.sub_nonneg
  Float64.sub_representable Float64.mul_nonneg Float64.duration_seconds_nonneg
  : float64.

(** Proofs reason through the lemmas above; evaluation is by [vm_compute]. *)
#[global] Opaque Float64.rnd Float64.one.
