(* ===== verification/Replay.v ===== *)
(** * Replay: the 128-packet sliding receive window ([protocol/replay.go])

    [ReplayWindow] keeps a 64-bit high-water mark and a 128-bit bitmap split in
    two 64-bit words; bit [i] stands for the sequence number [high - i].  The
    file models its three methods on machine words and proves them equivalent
    to an abstract window: the set of sequence numbers accepted so far. *)

From S2P Require Import Prelude.
From stdpp Require Import base gmap list fin_sets.
From Stdlib Require Import ZArith Lia Bool.
#[local] Open Scope Z_scope.

Module Replay.

Definition replayWindowSize : Z := 128.

Record ReplayWindow := mkWindow { high : Z; bits0 : Z; bits1 : Z }.

(** [&ReplayWindow{}]. *)
Definition empty_window : ReplayWindow := mkWindow 0 0 0.

(** [w.bits[word]] for the word index computed by [offset / 64] (0 or 1). *)
Definition get_word (w : ReplayWindow) (word : Z) : Z :=
  if word =? 0 then bits0 w else bits1 w.

Definition set_word (w : ReplayWindow) (word v : Z) : ReplayWindow :=
  if word =? 0 then mkWindow (high w) v (bits1 w) else mkWindow (high w) (bits0 w) v.

Definition WouldAccept (w : ReplayWindow) (seq : Z) : bool :=
  if seq =? 0 then false
  else if high w <? seq then true
  else
    let offset := high w - seq in
    if replayWindowSize <=? offset then false
    else
      let word := offset / 64 in
      let bit := offset mod 64 in
      Z.land (get_word w word) (u64 (Z.shiftl 1 bit)) =? 0.

(** Shift the bitmap left by [n] (0..127), dropping the oldest bits. *)
Definition shiftLeft (w : ReplayWindow) (n : Z) : ReplayWindow :=
  if n =? 0 then w
  else if n <? 64 then
    mkWindow (high w) (u64 (Z.shiftl (bits0 w) n))
      (Z.lor (u64 (Z.shiftl (bits1 w) n)) (Z.shiftr (bits0 w) (64 - n)))
  else mkWindow (high w) 0 (u64 (Z.shiftl (bits0 w) (n - 64))).

(** [Accept] returns [(accepted, advanced)] and the updated window. *)
Definition Accept (w : ReplayWindow) (seq : Z) : bool * bool * ReplayWindow :=
  if seq =? 0 then (false, false, w)
  else if high w <? seq then
    let delta := seq - high w in
    let w1 := if replayWindowSize <=? delta then mkWindow (high w) 0 0
              else shiftLeft w delta in
    (true, true, mkWindow seq (Z.lor (bits0 w1) 1) (bits1 w1))
  else
    let offset := high w - seq in
    if replayWindowSize <=? offset then (false, false, w)
    else
      let word := offset / 64 in
      let bit := offset mod 64 in
      let mask := u64 (Z.shiftl 1 bit) in
      if negb (Z.land (get_word w word) mask =? 0) then (false, false, w)
      else (true, false, set_word w word (Z.lor (get_word w word) mask)).

(** Feeding a list of received sequence numbers; the accepted ones in order. *)
Fixpoint accept_all (w : ReplayWindow) (seqs : list Z) : list Z * ReplayWindow :=
  match seqs with
  | [] => ([], w)
  | seq :: rest =>
      let '(accepted, _, w') := Accept w seq in
      let '(out, w'') := accept_all w' rest in
      ((if accepted then seq :: out else out), w'')
  end.

(** ** The abstract window *)

(** The specification state: the set of accepted numbers and their maximum. *)
Record Spec := mkSpec { seen : gset Z; top : Z }.

Definition spec_accepts (s : Spec) (seq : Z) : bool :=
  bool_decide (0 < seq /\ top s - seq < 128 /\ seq ∉ seen s).

Definition spec_step (s : Spec) (seq : Z) : bool * bool * Spec :=
  if spec_accepts s seq
  then (true, bool_decide (top s < seq), mkSpec ({[seq]} ∪ seen s) (Z.max (top s) seq))
  else (false, false, s).

(** Bit [i] of the 128-bit bitmap. *)
Definition bit (w : ReplayWindow) (i : Z) : bool :=
  Z.testbit (if i <? 64 then bits0 w else bits1 w) (i mod 64).

(** The window represents [s]. *)
Record refines (w : ReplayWindow) (s : Spec) : Prop := {
  ref_words : is_u64 (bits0 w) /\ is_u64 (bits1 w);
  ref_high : high w = top s /\ is_u64 (top s);
  ref_seen : forall x, x ∈ seen s -> 0 < x <= top s;
  ref_top : 0 < top s -> top s ∈ seen s;
  ref_bit : forall i, 0 <= i < 128 -> bit w i = true <-> high w - i ∈ seen s
}.

(** ** Word-level lemmas *)

Lemma u64_testbit x i : 0 <= i -> Z.testbit (u64 x) i = (i <? 64) && Z.testbit x i.
Proof.
  intros Hi. unfold u64, u64_mod. destruct (Z.ltb_spec i 64).
  - by rewrite Z.mod_pow2_bits_low.
  - by rewrite Z.mod_pow2_bits_high by lia.
Qed.

Lemma is_u64_testbit x i : is_u64 x -> 64 <= i -> Z.testbit x i = false.
Proof.
  intros Hx Hi. rewrite <-(u64_small x) by done. rewrite u64_testbit by lia.
  by destruct (Z.ltb_spec i 64); [lia|].
Qed.

Lemma testbit_is_u64 x : 0 <= x -> (forall i, 64 <= i -> Z.testbit x i = false) -> is_u64 x.
Proof.
  intros Hx H. assert (u64 x = x) as <-; [|apply u64_range].
  apply Z.bits_inj'. intros i Hi. rewrite u64_testbit by done.
  destruct (Z.ltb_spec i 64); [done|]. by rewrite H.
Qed.

Lemma lor_u64 x y : is_u64 x -> is_u64 y -> is_u64 (Z.lor x y).
Proof.
  intros Hx Hy. apply testbit_is_u64.
  - apply Z.lor_nonneg. unfold is_u64 in *. lia.
  - intros. by rewrite Z.lor_spec, !is_u64_testbit.
Qed.

Lemma shiftr_u64 x n : is_u64 x -> 0 <= n -> is_u64 (Z.shiftr x n).
Proof.
  intros Hx Hn. apply testbit_is_u64.
  - apply Z.shiftr_nonneg. unfold is_u64 in *. lia.
  - intros. rewrite Z.shiftr_spec by lia. apply is_u64_testbit; [done|lia].
Qed.

Lemma mask_testbit b j : 0 <= b < 64 -> 0 <= j -> Z.testbit (u64 (Z.shiftl 1 b)) j = (b =? j).
Proof.
  intros Hb Hj. rewrite u64_testbit, Z.shiftl_1_l, Z.pow2_bits_eqb by lia.
  destruct (Z.ltb_spec j 64), (Z.eqb_spec b j); simpl; lia.
Qed.

Lemma mask_is_zero x b : 0 <= b < 64 ->
  (Z.land x (u64 (Z.shiftl 1 b)) =? 0) = negb (Z.testbit x b).
Proof.
  intros Hb. destruct (Z.testbit x b) eqn:E; simpl.
  - apply Z.eqb_neq. intros H. apply (f_equal (fun z => Z.testbit z b)) in H.
    rewrite Z.land_spec, mask_testbit, E, Z.eqb_refl, Z.testbit_0_l in H by lia. done.
  - apply Z.eqb_eq, Z.bits_inj'. intros j Hj.
    rewrite Z.land_spec, mask_testbit, Z.testbit_0_l by lia.
    destruct (Z.eqb_spec b j) as [<-|]; [by rewrite E|by rewrite andb_false_r].
Qed.

(** The test the code makes on [w.bits[offset/64]] reads bitmap bit [offset]. *)
Lemma land_word_bit w i : 0 <= i < 128 ->
  (Z.land (get_word w (i / 64)) (u64 (Z.shiftl 1 (i mod 64))) =? 0) = negb (bit w i).
Proof.
  intros Hi. rewrite mask_is_zero by (apply Z.mod_pos_bound; lia). f_equal.
  unfold get_word, bit. destruct (Z.ltb_spec i 64).
  - by rewrite Z.div_small by lia.
  - destruct (Z.eqb_spec (i / 64) 0); [|done].
    assert (1 <= i / 64) by (apply Z.div_le_lower_bound; lia). lia.
Qed.

Lemma mod64_low i : 0 <= i < 64 -> i mod 64 = i.
Proof. apply Z.mod_small. Qed.

Lemma mod64_high i : 64 <= i < 128 -> i mod 64 = i - 64.
Proof. intros. symmetry. apply Z.mod_unique with 1; lia. Qed.

Lemma bit_low w i : 0 <= i < 64 -> bit w i = Z.testbit (bits0 w) i.
Proof. intros. unfold bit. destruct (Z.ltb_spec i 64); [|lia]. by rewrite mod64_low. Qed.

Lemma bit_high w i : 64 <= i < 128 -> bit w i = Z.testbit (bits1 w) (i - 64).
Proof. intros. unfold bit. destruct (Z.ltb_spec i 64); [lia|]. by rewrite mod64_high. Qed.

Lemma shiftLeft_bit w n i :
  is_u64 (bits0 w) -> 0 < n < 128 -> 0 <= i < 128 ->
  bit (shiftLeft w n) i = (n <=? i) && bit w (i - n).
Proof.
  intros H0 Hn Hi. unfold shiftLeft. destruct (Z.eqb_spec n 0); [lia|].
  destruct (Z.ltb_spec n 64).
  - destruct (Z.lt_ge_cases i 64).
    + rewrite bit_low by lia. cbn [bits0]. rewrite u64_testbit, Z.shiftl_spec by lia.
      destruct (Z.ltb_spec i 64), (Z.leb_spec n i); simpl; try lia.
      * by rewrite bit_low by lia.
      * by rewrite Z.testbit_neg_r by lia.
    + rewrite bit_high by lia. cbn [bits1].
      rewrite Z.lor_spec, u64_testbit, Z.shiftl_spec, Z.shiftr_spec by lia.
      replace (i - 64 + (64 - n)) with (i - n) by lia.
      destruct (Z.ltb_spec (i - 64) 64), (Z.leb_spec n i); simpl; try lia.
      destruct (Z.lt_ge_cases (i - n) 64).
      * rewrite bit_low, (Z.testbit_neg_r _ (i - 64 - n)) by lia. done.
      * rewrite bit_high, (is_u64_testbit (bits0 w)) by (done || lia).
        rewrite orb_false_r. f_equal. lia.
  - destruct (Z.lt_ge_cases i 64).
    + rewrite bit_low by lia. cbn [bits0]. rewrite Z.testbit_0_l.
      destruct (Z.leb_spec n i); [lia|done].
    + rewrite bit_high by lia. cbn [bits1]. rewrite u64_testbit, Z.shiftl_spec by lia.
      replace (i - 64 - (n - 64)) with (i - n) by lia.
      destruct (Z.ltb_spec (i - 64) 64), (Z.leb_spec n i); simpl; try lia.
      * by rewrite bit_low by lia.
      * by rewrite Z.testbit_neg_r by lia.
Qed.

Lemma shiftLeft_words w n : is_u64 (bits0 w) -> is_u64 (bits1 w) -> 0 <= n ->
  is_u64 (bits0 (shiftLeft w n)) /\ is_u64 (bits1 (shiftLeft w n)).
Proof.
  intros. unfold shiftLeft. destruct (Z.eqb_spec n 0), (Z.ltb_spec n 64);
    split; cbn; try done; try apply u64_range.
  apply lor_u64; [apply u64_range|apply shiftr_u64; [done|lia]].
Qed.

Lemma set_bit w i j : 0 <= i < 128 -> 0 <= j < 128 ->
  bit (set_word w (i / 64) (Z.lor (get_word w (i / 64)) (u64 (Z.shiftl 1 (i mod 64))))) j
  = (i =? j) || bit w j.
Proof.
  intros Hi Hj. unfold set_word, get_word.
  assert (Hm : forall b, 0 <= b < 64 -> forall k, 0 <= k -> Z.testbit (u64 (Z.shiftl 1 b)) k = (b =? k))
    by (intros; by apply mask_testbit).
  destruct (Z.lt_ge_cases i 64).
  - rewrite Z.div_small, mod64_low by lia. cbn [Z.eqb].
    destruct (Z.lt_ge_cases j 64).
    + rewrite !bit_low by lia. cbn [bits0]. rewrite Z.lor_spec, Hm by lia. apply orb_comm.
    + rewrite !bit_high by lia. cbn [bits1]. destruct (Z.eqb_spec i j); [lia|done].
  - assert (i / 64 = 1) as -> by (symmetry; apply Z.div_unique with (i - 64); lia).
    rewrite mod64_high by lia. cbn [Z.eqb].
    destruct (Z.lt_ge_cases j 64).
    + rewrite !bit_low by lia. cbn [bits0]. destruct (Z.eqb_spec i j); [lia|done].
    + rewrite !bit_high by lia. cbn [bits1]. rewrite Z.lor_spec, Hm by lia.
      rewrite orb_comm. f_equal.
      destruct (Z.eqb_spec (i - 64) (j - 64)), (Z.eqb_spec i j); lia.
Qed.

Lemma high_set_word w word v : high (set_word w word v) = high w.
Proof. unfold set_word. by destruct (word =? 0). Qed.

Lemma set_word_words w word v : is_u64 (bits0 w) -> is_u64 (bits1 w) -> is_u64 v ->
  is_u64 (bits0 (set_word w word v)) /\ is_u64 (bits1 (set_word w word v)).
Proof. unfold set_word. by destruct (word =? 0). Qed.

Lemma get_word_u64 w word : is_u64 (bits0 w) -> is_u64 (bits1 w) -> is_u64 (get_word w word).
Proof. unfold get_word. by destruct (word =? 0). Qed.

(** ** Refinement *)

Lemma empty_refines : refines empty_window (mkSpec ∅ 0).
Proof.
  split; simpl; [done..|set_solver|lia|].
  intros i Hi. split; [|set_solver]. unfold bit; simpl.
  destruct (i <? 64); by rewrite Z.testbit_0_l.
Qed.

(** [WouldAccept] answers exactly what the specification accepts. *)
Lemma WouldAccept_spec w s seq : refines w s -> is_u64 seq ->
  WouldAccept w seq = spec_accepts s seq.
Proof.
  intros [Hw [Hh Hu] Hs Ht Hb] Hseq. unfold WouldAccept, spec_accepts, replayWindowSize.
  unfold is_u64 in Hseq. rewrite Hh in *.
  destruct (Z.eqb_spec seq 0); [by rewrite bool_decide_false by lia|].
  destruct (Z.ltb_spec (top s) seq).
  { rewrite bool_decide_true; [done|]. split_and!; [lia..|]. intros Hin%Hs. lia. }
  destruct (Z.leb_spec 128 (top s - seq)); [by rewrite bool_decide_false by lia|].
  rewrite land_word_bit by lia. specialize (Hb (top s - seq) ltac:(lia)).
  replace (top s - (top s - seq)) with seq in Hb by lia.
  destruct (bit w (top s - seq)) eqn:E; simpl.
  - rewrite bool_decide_false; [done|]. intros (_ & _ & Hn). by apply Hn, Hb.
  - rewrite bool_decide_true; [done|]. split_and!; [lia..|].
    intros Hin%Hb. congruence.
Qed.

Lemma Accept_fresh w s seq w1 :
  refines w s -> is_u64 seq -> top s < seq ->
  w1 = (if replayWindowSize <=? seq - high w then mkWindow (high w) 0 0
        else shiftLeft w (seq - high w)) ->
  refines (mkWindow seq (Z.lor (bits0 w1) 1) (bits1 w1)) (mkSpec ({[seq]} ∪ seen s) seq).
Proof.
  intros [[Hw0 Hw1] [Hh Hu] Hs Ht Hb] Hseq Hlt ->. unfold replayWindowSize, is_u64 in *.
  set (w1 := if 128 <=? seq - high w then _ else _).
  assert (Hwords : is_u64 (bits0 w1) /\ is_u64 (bits1 w1)).
  { unfold w1. destruct (128 <=? seq - high w); [done|]. apply shiftLeft_words; [done..|lia]. }
  assert (Hbits : forall i, 0 <= i < 128 ->
            bit w1 i = (seq - high w <=? i) && bit w (i - (seq - high w))).
  { intros i Hi. unfold w1. destruct (Z.leb_spec 128 (seq - high w)).
    - destruct (Z.leb_spec (seq - high w) i); [lia|]. unfold bit; simpl.
      destruct (i <? 64); by rewrite Z.testbit_0_l.
    - apply shiftLeft_bit; [done|lia..]. }
  destruct Hwords as [H0 H1]. split; cbn [bits0 bits1 high seen top].
  - split; [|done]. apply lor_u64; [done|]. unfold is_u64, u64_mod. lia.
  - done.
  - intros x [->%elem_of_singleton|Hx%Hs]%elem_of_union; lia.
  - set_solver.
  - intros i Hi.
    assert (bit (mkWindow seq (Z.lor (bits0 w1) 1) (bits1 w1)) i = (i =? 0) || bit w1 i) as ->.
    { destruct (Z.lt_ge_cases i 64).
      - rewrite !bit_low by lia. cbn [bits0]. rewrite Z.lor_spec, orb_comm. f_equal.
      - rewrite !bit_high by lia. cbn [bits1]. destruct (Z.eqb_spec i 0); [lia|done]. }
    rewrite orb_true_iff, Z.eqb_eq, Hbits, andb_true_iff, Z.leb_le by done.
    rewrite elem_of_union, elem_of_singleton. split.
    + intros [->|[Hle Hbit]]; [left; lia|right].
      apply Hb in Hbit; [|lia]. by replace (seq - i) with (high w - (i - (seq - high w))) by lia.
    + intros [?|Hin]; [left; lia|right]. pose proof (Hs _ Hin). split; [lia|].
      apply Hb; [lia|]. by replace (high w - (i - (seq - high w))) with (seq - i) by lia.
Qed.

Lemma Accept_late w s seq :
  refines w s -> 0 < seq <= top s -> top s - seq < 128 -> seq ∉ seen s ->
  refines (set_word w ((high w - seq) / 64)
             (Z.lor (get_word w ((high w - seq) / 64))
                (u64 (Z.shiftl 1 ((high w - seq) mod 64)))))
          (mkSpec ({[seq]} ∪ seen s) (top s)).
Proof.
  intros [[Hw0 Hw1] [Hh Hu] Hs Ht Hb] Hseq Hin Hfresh.
  split; cbn [seen top].
  - apply set_word_words; [done..|]. apply lor_u64; [by apply get_word_u64|apply u64_range].
  - by rewrite high_set_word.
  - intros x [->%elem_of_singleton|Hx%Hs]%elem_of_union; lia.
  - set_solver.
  - intros i Hi. rewrite set_bit, high_set_word, orb_true_iff, Z.eqb_eq, Hb by lia.
    rewrite elem_of_union, elem_of_singleton. split; intros [?|?]; auto; left; lia.
Qed.

Lemma Accept_refines_aux w s seq : refines w s -> is_u64 seq ->
  (Accept w seq).1 = (spec_step s seq).1 /\ refines (Accept w seq).2 (spec_step s seq).2.
Proof.
  intros Hr Hseq. pose proof (WouldAccept_spec w s seq Hr Hseq) as Hwa.
  destruct (Hr) as [_ [Hh Hu] Hs _ _].
  unfold spec_step. rewrite <-Hwa. unfold Accept, WouldAccept in *.
  destruct (Z.eqb_spec seq 0); [done|].
  destruct (Z.ltb_spec (high w) seq).
  { simpl. rewrite bool_decide_true, Z.max_r by lia. split; [done|].
    eapply Accept_fresh; [done..|lia|done]. }
  destruct (replayWindowSize <=? high w - seq); [done|].
  destruct (Z.land _ _ =? 0) eqn:E; [|done]. simpl.
  symmetry in Hwa. apply bool_decide_eq_true in Hwa as (? & ? & ?).
  rewrite bool_decide_false, Z.max_l by lia. split; [done|].
  apply Accept_late; [done|lia|done..].
Qed.

Lemma accept_all_spec w s seqs : refines w s -> Forall is_u64 seqs ->
  NoDup (accept_all w seqs).1 /\
  (forall x, x ∈ (accept_all w seqs).1 -> 0 < x /\ x ∉ seen s /\ x ∈ seqs).
Proof.
  revert w s. induction seqs as [|seq seqs IH]; intros w s Hr Hall.
  - split; [constructor|]. intros x Hx. by apply not_elem_of_nil in Hx.
  - apply Forall_cons in Hall as [Hseq Hall]. simpl.
    destruct (Accept_refines_aux w s seq Hr Hseq) as [Heq Hr'].
    destruct (Accept w seq) as [[acc adv] w'] eqn:E. simpl in *.
    unfold spec_step in *. destruct (spec_accepts s seq) eqn:Es; simpl in *;
      simplify_eq; destruct (IH _ _ Hr' Hall) as [Hnd Hin];
      destruct (accept_all w' seqs) as [out w'']; simpl in *.
    + apply bool_decide_eq_true in Es as (? & ? & ?). split.
      * constructor; [|done]. intros (_ & Hn & _)%Hin. set_solver.
      * intros x [->|Hx]%elem_of_cons; [set_solver|].
        apply Hin in Hx. set_solver.
    + split; [done|]. intros x Hx%Hin. set_solver.
Qed.

(** ** Theorems *)

(** A sequence that is not acceptable stays so, and accepting one makes it so. *)
Lemma WouldAccept_mono w s seq q : refines w s -> is_u64 seq -> is_u64 q ->
  WouldAccept w q = false -> WouldAccept (Accept w seq).2 q = false.
Proof.
  intros Hr Hseq Hq. destruct (Accept_refines_aux w s seq Hr Hseq) as [_ Hr'].
  rewrite (WouldAccept_spec w s), (WouldAccept_spec _ _ q Hr') by done.
  unfold spec_step. destruct (spec_accepts s seq); [|done].
  unfold spec_accepts. simpl. rewrite !bool_decide_eq_false. intros H H'. apply H.
  rewrite elem_of_union, elem_of_singleton in H'. split_and!; [lia..|tauto].
Qed.

Lemma Accept_blocks w s seq : refines w s -> is_u64 seq -> WouldAccept (Accept w seq).2 seq = false.
Proof.
  intros Hr Hseq. destruct (Accept_refines_aux w s seq Hr Hseq) as [_ Hr'].
  rewrite (WouldAccept_spec _ _ seq Hr') by done. unfold spec_step.
  destruct (spec_accepts s seq) eqn:E; [|done]. unfold spec_accepts. simpl.
  apply bool_decide_eq_false. rewrite elem_of_union, elem_of_singleton. tauto.
Qed.

(** The precheck [WouldAccept] returns the [accepted] flag [Accept] returns from
    the same state. *)
Lemma WouldAccept_agrees w seq : (Accept w seq).1.1 = WouldAccept w seq.
Proof.
  unfold Accept, WouldAccept. destruct (seq =? 0); [done|]. destruct (high w <? seq); [done|].
  destruct (replayWindowSize <=? high w - seq); [done|]. by destruct (Z.land _ _ =? 0).
Qed.

(** C12: [Accept] on the two-word bitmap implements the abstract window: for every
    64-bit sequence number it accepts exactly when the number is positive, less
    than 128 behind the highest accepted number and not accepted before; it
    reports [advanced] exactly when the number is a new maximum; and the
    updated bitmap represents the updated set. *)
Theorem Accept_refines w s seq : refines w s -> is_u64 seq ->
  (Accept w seq).1 = (spec_step s seq).1 /\ refines (Accept w seq).2 (spec_step s seq).2.
Proof. apply Accept_refines_aux. Qed.

Lemma Accept_refines_witness :
  (Accept empty_window 5).1 = (true, true) /\
  refines (Accept empty_window 5).2 (mkSpec ({[5]} ∪ ∅) 5).
Proof. apply (Accept_refines empty_window (mkSpec ∅ 0) 5 empty_refines). done. Defined.

(** Replay protection over a whole stream: whatever 64-bit numbers arrive, in
    whatever order, a fresh window accepts no number twice and never accepts
    zero. *)
Theorem accept_all_no_replay seqs : Forall is_u64 seqs ->
  NoDup (accept_all empty_window seqs).1 /\ 0 ∉ (accept_all empty_window seqs).1.
Proof.
  intros H. destruct (accept_all_spec _ _ seqs empty_refines H) as [Hnd Hin].
  split; [done|]. intros Hx%Hin. lia.
Qed.

Lemma accept_all_no_replay_witness :
  (accept_all empty_window [1; 200; 1; 150; 150; 0; 72; 73]).1 = [1; 200; 150; 73] /\
  NoDup (accept_all empty_window [1; 200; 1; 150; 150; 0; 72; 73]).1.
Proof.
  split; [by vm_compute|]. apply accept_all_no_replay. repeat constructor; by vm_compute.
Defined.

End Replay.
