(* ===== verification/TokenBucket.v ===== *)
(** * TokenBucket: the token bucket of [protocol/ratelimit.go]

    Tokens, rate and burst are [float64] values of module [Float64]; instants
    are nanoseconds.  Methods that sample the bucket's injected clock take the
    sample as an argument.  The file models [NewTokenBucket], [TakeAt],
    [SetRate] and [refillLocked], and proves the capacity invariant, the exact
    burst and the monotonicity facts the limiters built on it rely on. *)

From S2P Require Import Prelude Float64.
From stdpp Require Import base gmap list.
From Stdlib Require Import ZArith Lia.
#[local] Open Scope Z_scope.

Module TokenBucket.

Definition SessionPacketsPerSec : Z := 300.
Definition SessionBurst : Z := 600.

Record TokenBucket := mkBucket {
  rate : Z;    (* float64 *)
  burst : Z;   (* float64 *)
  tokens : Z;  (* float64 *)
  last : Z     (* time.Time *)
}.

Definition NewTokenBucket (rate : Z) (burst : Z) (now : Z) : TokenBucket :=
  mkBucket rate (Float64.of_int burst) (Float64.of_int burst) now.

Definition refillLocked (b : TokenBucket) (now : Z) : TokenBucket :=
  if (now <? last b) || (now =? last b) then b
  else
    let t := Float64.add (tokens b)
               (Float64.mul (Float64.duration_seconds (time_sub now (last b))) (rate b)) in
    let t := if burst b <? t then burst b else t in
    mkBucket (rate b) (burst b) t now.

Definition TakeAt (b : TokenBucket) (now : Z) : bool * TokenBucket :=
  let b := refillLocked b now in
  if tokens b <? Float64.one then (false, b)
  else (true, mkBucket (rate b) (burst b) (Float64.sub (tokens b) Float64.one) (last b)).

(** [Take] samples the bucket's own clock. *)
Definition Take (b : TokenBucket) (clock : Z) : bool * TokenBucket := TakeAt b clock.

(** [SetRate rate burst] with the clock sample [now]; [newrate] is a float. *)
Definition SetRate (b : TokenBucket) (newrate : Z) (newburst : Z) (now : Z) : TokenBucket :=
  let newrate := if newrate <? Float64.one then Float64.one else newrate in
  let newburst := if newburst <? 1 then 1 else newburst in
  let b := refillLocked b now in
  let bf := Float64.of_int newburst in
  mkBucket newrate bf (if bf <? tokens b then bf else tokens b) (last b).

(** A client's calls in order, with the admission results of the [TakeAt]s. *)
Inductive Op := OTake (now : Z) | OSetRate (newrate newburst now : Z).

Definition step (b : TokenBucket) (o : Op) : TokenBucket :=
  match o with
  | OTake now => (TakeAt b now).2
  | OSetRate r n now => SetRate b r n now
  end.

Fixpoint take_all (b : TokenBucket) (times : list Z) : list bool * TokenBucket :=
  match times with
  | [] => ([], b)
  | now :: rest =>
      let '(ok, b') := TakeAt b now in
      let '(oks, b'') := take_all b' rest in
      (ok :: oks, b'')
  end.

(** ** The capacity invariant *)

Record bucket_ok (b : TokenBucket) : Prop := {
  ok_tokens : 0 <= tokens b <= burst b;
  ok_rate : 0 <= rate b;
  ok_tokens_float : Float64.representable (tokens b);
  ok_burst_float : Float64.representable (burst b)
}.

Lemma NewTokenBucket_ok r n now : 0 <= r -> 0 <= n -> bucket_ok (NewTokenBucket r n now).
Proof.
  intros. pose proof (Float64.of_int_nonneg n).
  split; simpl; [lia|done|apply Float64.of_int_representable; lia..].
Qed.

Lemma refill_gain_nonneg b now : 0 <= rate b -> last b <= now ->
  0 <= Float64.mul (Float64.duration_seconds (time_sub now (last b))) (rate b).
Proof.
  intros. apply Float64.mul_nonneg; [|done].
  apply Float64.duration_seconds_nonneg. unfold time_sub. lia.
Qed.

Lemma refillLocked_ok b now : bucket_ok b -> bucket_ok (refillLocked b now).
Proof.
  intros Hok. destruct (Hok) as [Ht Hr Hf Hb]. unfold refillLocked.
  destruct (Z.ltb_spec now (last b)), (Z.eqb_spec now (last b)); simpl; try done.
  pose proof (refill_gain_nonneg b now Hr ltac:(lia)) as Hg.
  pose proof (Float64.add_nonneg (tokens b) _ (proj1 Ht) Hg).
  destruct (Z.ltb_spec (burst b)
    (Float64.add (tokens b) (Float64.mul (Float64.duration_seconds (time_sub now (last b))) (rate b))));
    split; simpl; try done; try lia.
  apply Float64.add_representable; [lia|done].
Qed.

(** Refilling never removes tokens, and a clock that stands still or moves
    backwards changes nothing. *)
Lemma refillLocked_grows b now : bucket_ok b -> tokens b <= tokens (refillLocked b now).
Proof.
  intros [Ht Hr Hf Hb]. unfold refillLocked.
  destruct (Z.ltb_spec now (last b)), (Z.eqb_spec now (last b)); simpl; try lia.
  pose proof (refill_gain_nonneg b now Hr ltac:(lia)) as Hg.
  pose proof (Float64.add_ge_l (tokens b) _ Hf (proj1 Ht) Hg).
  match goal with |- context [if ?c then _ else _] => destruct c end; lia.
Qed.

Lemma refillLocked_past b now : now <= last b -> refillLocked b now = b.
Proof.
  intros. unfold refillLocked.
  destruct (Z.ltb_spec now (last b)), (Z.eqb_spec now (last b)); simpl; try done. lia.
Qed.

Lemma refillLocked_same b now : rate (refillLocked b now) = rate b /\ burst (refillLocked b now) = burst b.
Proof. unfold refillLocked. by destruct (_ || _). Qed.

Lemma TakeAt_ok b now : bucket_ok b -> bucket_ok (TakeAt b now).2.
Proof.
  intros Hok. apply (refillLocked_ok b now) in Hok. unfold TakeAt.
  destruct (Z.ltb_spec (tokens (refillLocked b now)) Float64.one); [done|].
  destruct Hok as [Ht Hr Hf Hb]. pose proof Float64.one_pos.
  pose proof (Float64.sub_nonneg (tokens (refillLocked b now)) Float64.one ltac:(lia)).
  pose proof (Float64.sub_le_l (tokens (refillLocked b now)) Float64.one Hf ltac:(lia)).
  split; simpl; [lia|done|by apply Float64.sub_representable|done].
Qed.

Lemma SetRate_ok b r n now : bucket_ok b -> bucket_ok (SetRate b r n now).
Proof.
  intros Hok. apply (refillLocked_ok b now) in Hok as [Ht Hr Hf Hb].
  pose proof Float64.one_pos. unfold SetRate.
  set (m := if n <? 1 then 1 else n). assert (1 <= m) by (unfold m; destruct (Z.ltb_spec n 1); lia).
  pose proof (Float64.of_int_nonneg m ltac:(lia)).
  pose proof (Float64.of_int_representable m ltac:(lia)).
  split; simpl; try done.
  - destruct (Z.ltb_spec (Float64.of_int m) (tokens (refillLocked b now))); lia.
  - destruct (Z.ltb_spec r Float64.one); lia.
  - by destruct (Float64.of_int m <? tokens (refillLocked b now)).
Qed.

Lemma bucket_step_ok b o : bucket_ok b -> bucket_ok (step b o).
Proof. destruct o; [apply TakeAt_ok|apply SetRate_ok]. Qed.

Lemma take_all_ok b times : bucket_ok b -> bucket_ok (take_all b times).2.
Proof.
  revert b. induction times as [|t ts IH]; intros b Hok; [done|]. simpl.
  apply (TakeAt_ok b t) in Hok. destruct (TakeAt b t) as [ok b1].
  specialize (IH b1 Hok). by destruct (take_all b1 ts).
Qed.

#[export] Hint Resolve NewTokenBucket_ok refillLocked_ok TakeAt_ok SetRate_ok bucket_step_ok : zephyr.

(** ** Takes at one instant *)

Lemma TakeAt_at_last b now n :
  now <= last b -> tokens b = n * Float64.one -> 0 <= n <= 2 ^ 53 ->
  TakeAt b now = if n =? 0 then (false, b)
                 else (true, mkBucket (rate b) (burst b) ((n - 1) * Float64.one) (last b)).
Proof.
  intros Hl Ht Hn. pose proof Float64.one_pos. unfold TakeAt. rewrite refillLocked_past by done.
  rewrite Ht. destruct (Z.eqb_spec n 0) as [->|]; [by destruct (Z.ltb_spec (0 * Float64.one) Float64.one); [|lia]|].
  destruct (Z.ltb_spec (n * Float64.one) Float64.one); [nia|].
  rewrite <-(Z.mul_1_l Float64.one) at 2. rewrite Float64.sub_int_exact by lia. done.
Qed.

Lemma take_all_at_last b now n k :
  now <= last b -> tokens b = Z.of_nat n * Float64.one -> Z.of_nat n <= 2 ^ 53 ->
  (take_all b (replicate k now)).1 = replicate (n `min` k) true ++ replicate (k - n) false.
Proof.
  revert b n. induction k as [|k IH]; intros b n Hl Ht Hn; [by rewrite Nat.min_0_r|].
  simpl. rewrite (TakeAt_at_last b now (Z.of_nat n)) by (done || lia).
  destruct (Z.eqb_spec (Z.of_nat n) 0) as [E|E].
  - assert (n = 0)%nat as -> by lia. specialize (IH b 0%nat Hl Ht Hn).
    destruct (take_all b (replicate k now)) as [oks b']; simpl in *. subst oks. by rewrite Nat.sub_0_r.
  - destruct n as [|n]; [lia|].
    specialize (IH (mkBucket (rate b) (burst b) ((Z.of_nat (S n) - 1) * Float64.one) (last b)) n).
    destruct (take_all _ (replicate k now)) as [oks b']; simpl in *. rewrite IH; [done|done| |lia]. f_equal. lia.
Qed.

(** ** The long-run rate *)

Section Rate.
Context (R B : Z) (HR : 0 <= R <= 2 ^ 53) (HB : 0 <= B <= 2 ^ 53).

(** A bucket that runs at the integral rate [R] with the integral burst [B]. *)
Definition runs_at (b : TokenBucket) : Prop :=
  bucket_ok b /\ rate b = R * Float64.one /\ burst b = B * Float64.one.

Lemma gain_err d : 0 <= d < 2 ^ 63 ->
  Float64.mul (Float64.duration_seconds d) (R * Float64.one) * 1000000000 * 2 ^ 51
  <= d * R * Float64.one * (2 ^ 51 + 1) + 1000000000 * 2 ^ 53 * (R + 1).
Proof using HR.
  intros Hd. pose proof (Float64.duration_seconds_nonneg d ltac:(lia)).
  pose proof (Float64.duration_seconds_err d Hd) as E1.
  pose proof (Float64.mul_int_err (Float64.duration_seconds d) R ltac:(lia) ltac:(lia)) as E2.
  set (s := Float64.duration_seconds d) in *. set (x := Float64.mul s (R * Float64.one)) in *.
  pose proof (Z.mul_le_mono_nonneg_r _ _ R ltac:(lia) E1) as E3.
  pose proof Float64.one_pos. assert (0 <= d * Float64.one * R) by nia.
  replace (d * R * Float64.one) with (d * Float64.one * R) by ring.
  set (dor := d * Float64.one * R) in *.
  replace (s * 1000000000 * 2 ^ 106 * R) with (s * R * 1000000000 * 2 ^ 106) in E3 by ring.
  replace ((d * Float64.one * (2 ^ 53 + 1) ^ 2 + 1000000000 * 2 ^ 107) * R)
    with (dor * (2 ^ 53 + 1) ^ 2 + 1000000000 * 2 ^ 107 * R) in E3 by (unfold dor; ring).
  set (sr := s * R) in *. lia.
Qed.

Lemma refill_potential b now : runs_at b ->
  last (refillLocked b now) = Z.max (last b) now /\
  tokens (refillLocked b now) * 2 ^ 53 * 1000000000
  <= tokens b * 2 ^ 53 * 1000000000
     + 4 * (Z.max (last b) now - last b) * R * Float64.one * (2 ^ 51 + 1)
     + 1000000000 * (2 ^ 55 * (R + 1) + 2 * burst b + 2 ^ 52).
Proof using HR HB.
  intros (Hok & Hr & Hb). pose proof Float64.one_pos. destruct (Hok) as [Ht Hr0 Hf Hbf].
  unfold refillLocked.
  destruct (Z.ltb_spec now (last b)), (Z.eqb_spec now (last b)); simpl;
    try (split; [lia|]; rewrite Z.max_l, Z.sub_diag by lia; lia).
  split; [lia|]. rewrite Z.max_r by lia.
  set (d := time_sub now (last b)).
  assert (0 <= d < 2 ^ 63 /\ d <= now - last b) as [Hd Hle] by (unfold d, time_sub; lia).
  pose proof (gain_err d Hd) as He. rewrite Hr.
  assert (0 <= Float64.mul (Float64.duration_seconds d) (R * Float64.one)).
  { apply Float64.mul_nonneg; [apply Float64.duration_seconds_nonneg; lia|nia]. }
  set (inc := Float64.mul (Float64.duration_seconds d) (R * Float64.one)) in *.
  assert (inc * 1000000000 * 2 ^ 51
    <= (now - last b) * R * Float64.one * (2 ^ 51 + 1) + 1000000000 * 2 ^ 53 * (R + 1)) as He'.
  { etrans; [exact He|]. apply Z.add_le_mono_r, Z.mul_le_mono_nonneg_r; [lia|].
    apply Z.mul_le_mono_nonneg_r; [lia|]. apply Z.mul_le_mono_nonneg_r; lia. }
  set (X := (now - last b) * R * Float64.one) in *.
  replace (4 * (now - last b) * R * Float64.one) with (4 * X) by (unfold X; ring).
  destruct (Z.ltb_spec (burst b) (Float64.add (tokens b) inc)) as [Hc|Hc].
  - assert (burst b <= tokens b + inc); [|lia].
    destruct (Z.le_gt_cases (burst b) (tokens b + inc)) as [|Hn]; [done|].
    exfalso. pose proof (Float64.add_le (tokens b) inc (burst b) Hbf ltac:(lia) ltac:(lia) ltac:(lia)). lia.
  - assert (tokens b + inc <= 2 * burst b).
    { destruct (Z.le_gt_cases (tokens b + inc) (2 * burst b)) as [|Hn]; [done|].
      pose proof (Float64.add_gt (tokens b) inc (burst b) Hbf ltac:(lia) ltac:(lia) ltac:(lia) ltac:(lia)). lia. }
    pose proof (Float64.add_err (tokens b) inc ltac:(lia) ltac:(lia)). lia.
Qed.

Lemma TakeAt_potential b now : runs_at b ->
  runs_at (TakeAt b now).2 /\ last (TakeAt b now).2 = Z.max (last b) now /\
  (tokens (TakeAt b now).2 + (if (TakeAt b now).1 then Float64.one else 0)) * 2 ^ 53 * 1000000000
  <= tokens b * 2 ^ 53 * 1000000000
     + 4 * (Z.max (last b) now - last b) * R * Float64.one * (2 ^ 51 + 1)
     + 4 * 1000000000 * Float64.one * (B + 1).
Proof using HR HB.
  intros Hruns. destruct (refill_potential b now Hruns) as [Hl Hp].
  destruct Hruns as (Hok & Hr & Hb). pose proof Float64.one_pos.
  pose proof Float64.one_large.
  pose proof (refillLocked_ok b now Hok) as Hok1. pose proof (TakeAt_ok b now Hok) as Hok2.
  destruct (refillLocked_same b now) as [Hr1 Hb1].
  rewrite Hb in Hp. set (X := 4 * (Z.max (last b) now - last b) * R * Float64.one) in *.
  unfold TakeAt in *.
  destruct (Z.ltb_spec (tokens (refillLocked b now)) Float64.one); simpl in *.
  - split_and!; [|done|nia]. split; [done|]. by rewrite Hr1, Hb1.
  - split_and!; [|done|].
    + split; [done|]. simpl. by rewrite Hr1, Hb1.
    + pose proof (Float64.sub_err (tokens (refillLocked b now)) Float64.one ltac:(lia)).
      destruct Hok1 as [[_ Hle] _ _ _]. rewrite Hb1, Hb in Hle. nia.
Qed.

Lemma take_all_potential b times : runs_at b ->
  (tokens (take_all b times).2
   + Z.of_nat (count_occ Bool.bool_dec (take_all b times).1 true) * Float64.one) * 2 ^ 53 * 1000000000
  <= tokens b * 2 ^ 53 * 1000000000
     + 4 * (fold_left Z.max times (last b) - last b) * R * Float64.one * (2 ^ 51 + 1)
     + Z.of_nat (length times) * (4 * 1000000000 * Float64.one * (B + 1)).
Proof using HR HB.
  revert b. induction times as [|now times IH]; intros b Hruns.
  - simpl. lia.
  - destruct (TakeAt_potential b now Hruns) as (Hruns' & Hl & Hp).
    specialize (IH _ Hruns'). simpl. destruct (TakeAt b now) as [ok b'] eqn:E. simpl in *.
    destruct (take_all b' times) as [oks b'']. simpl in *. rewrite Hl in IH.
    set (T := fold_left Z.max times (Z.max (last b) now)) in *.
    set (M := Z.max (last b) now) in *.
    replace (4 * (T - last b) * R * Float64.one * (2 ^ 51 + 1))
      with (4 * (T - M) * R * Float64.one * (2 ^ 51 + 1) + 4 * (M - last b) * R * Float64.one * (2 ^ 51 + 1))
      by ring.
    rewrite Nat2Z.inj_succ, Z.mul_succ_l.
    set (Y1 := 4 * (T - M) * R * Float64.one * (2 ^ 51 + 1)) in *.
    set (Y2 := 4 * (M - last b) * R * Float64.one * (2 ^ 51 + 1)) in *.
    set (Y3 := 4 * 1000000000 * Float64.one * (B + 1)) in *.
    destruct ok; [destruct (Bool.bool_dec true true); [|done]|destruct (Bool.bool_dec false true); [done|]];
      rewrite ?Nat2Z.inj_succ, ?Z.mul_succ_l; lia.
Qed.

End Rate.

(** ** Theorems *)

(** Whatever sequence of [TakeAt] and [SetRate] calls a client makes, with
    whatever clock samples, a bucket created with a non-negative rate and burst
    holds between zero and [burst] tokens, all values being finite floats. *)
Theorem token_capacity r n now ops : 0 <= r -> 0 <= n ->
  bucket_ok (fold_left step ops (NewTokenBucket r n now)).
Proof.
  intros Hr Hn. generalize (NewTokenBucket_ok r n now Hr Hn). generalize (NewTokenBucket r n now).
  induction ops as [|o ops IH]; simpl; auto with zephyr.
Qed.

Lemma token_capacity_witness :
  bucket_ok (fold_left step [OTake 5; OSetRate 0 (-3) 9; OTake 2]
               (NewTokenBucket (Float64.of_int 300) 600 0)).
Proof. apply token_capacity; vm_compute; congruence. Defined.

(** The burst is exact: a fresh bucket of [n] tokens grants the first [n]
    requests made at its creation instant (or at any earlier clock sample) and
    refuses every later one, in binary64 arithmetic. *)
Theorem burst_exact r n k now t : Z.of_nat n <= 2 ^ 53 -> t <= now ->
  (take_all (NewTokenBucket r (Z.of_nat n) now) (replicate k t)).1
  = replicate (n `min` k) true ++ replicate (k - n) false.
Proof.
  intros Hn Ht. apply take_all_at_last; simpl; [done| |done].
  apply Float64.of_int_exact. lia.
Qed.

Lemma burst_exact_witness :
  (take_all (NewTokenBucket (Float64.of_int 300) 3 100) [100; 100; 100; 100; 100]).1
  = [true; true; true; false; false].
Proof. apply (burst_exact (Float64.of_int 300) 3 5 100 100); lia. Defined.

(** The bucket limits the long-run rate.  For integral rate [R] and burst [B],
    over any sequence of [TakeAt] calls whatever their clock samples, the number
    of granted requests is at most the burst plus the rate times the elapsed
    time, up to the binary64 rounding error: a relative [2^-51] on the elapsed
    gain and [(B+1) * 2^-51] tokens per call. *)
Theorem rate_bound R B now times : 0 <= R <= 2 ^ 53 -> 0 <= B <= 2 ^ 53 ->
  let granted := count_occ Bool.bool_dec
                   (take_all (NewTokenBucket (Float64.of_int R) B now) times).1 true in
  let elapsed := fold_left Z.max times now - now in
  Z.of_nat granted * (1000000000 * 2 ^ 51)
  <= B * (1000000000 * 2 ^ 51) + elapsed * R * (2 ^ 51 + 1)
     + Z.of_nat (length times) * (1000000000 * (B + 1)).
Proof.
  intros HR HB granted elapsed. pose proof Float64.one_pos as Ho.
  set (b := NewTokenBucket (Float64.of_int R) B now) in *.
  assert (runs_at R B b) as Hruns.
  { split_and!; [apply NewTokenBucket_ok; [apply Float64.of_int_nonneg|]; lia
                |by apply Float64.of_int_exact..]. }
  pose proof (take_all_potential R B HR HB b times Hruns) as Hp.
  pose proof (ok_tokens _ (take_all_ok b times (proj1 Hruns))).
  fold granted in Hp. change (tokens b) with (Float64.of_int B) in Hp.
  change (last b) with now in Hp. rewrite Float64.of_int_exact in Hp by done. fold elapsed in Hp.
  set (n := Z.of_nat granted) in *. set (len := Z.of_nat (length times)) in *.
  apply (Z.mul_le_mono_pos_l _ _ (4 * Float64.one)); [lia|].
  replace (4 * elapsed * R * Float64.one * (2 ^ 51 + 1))
    with (4 * Float64.one * (elapsed * R * (2 ^ 51 + 1))) in Hp by ring.
  replace (len * (4 * 1000000000 * Float64.one * (B + 1)))
    with (4 * Float64.one * (len * (1000000000 * (B + 1)))) in Hp by ring. lia.
Qed.

Lemma rate_bound_witness :
  let granted := count_occ Bool.bool_dec
    (take_all (NewTokenBucket (Float64.of_int 2) 1 0) [0; 0; 500000000; 500000000; 700000000]).1 true in
  granted = 2%nat /\
  Z.of_nat granted * (1000000000 * 2 ^ 51)
  <= 1 * (1000000000 * 2 ^ 51) + (700000000 - 0) * 2 * (2 ^ 51 + 1) + 5 * (1000000000 * (1 + 1)).
Proof.
  split; [by vm_compute|].
  apply (rate_bound 2 1 0 [0; 0; 500000000; 500000000; 700000000]); lia.
Defined.

End TokenBucket.
