(* ===== verification/Registry.v ===== *)
(** * Registry: the sealed table of business stream types ([protocol/channel.go])

    [channels] maps a channel type (1..255) to its capabilities; [sealed] is set
    by [UDPServer.Start].  The mutex only makes the operations atomic, so each
    is one state transformer. *)

From S2P Require Import Prelude.
From stdpp Require Import base gmap strings.
From Stdlib Require Import ZArith Lia.
#[local] Open Scope Z_scope.

Module Registry.

Definition HeartbeatChannelType : Z := 0.

Record Capabilities := mkCaps { Name : string; MuteKind : string; Fragmentable : bool }.

Record ChannelTypeRegistry := mkRegistry {
  channels : gmap Z Capabilities;
  sealed : bool
}.

Inductive RegError :=
  | ErrChannelTypeReserved
  | ErrChannelAlreadyRegistered
  | ErrChannelRegistrySealed.

Definition NewChannelTypeRegistry : ChannelTypeRegistry := mkRegistry ∅ false.

Definition Register (r : ChannelTypeRegistry) (channelType : Z) (caps : Capabilities)
  : option RegError * ChannelTypeRegistry :=
  if channelType =? HeartbeatChannelType then (Some ErrChannelTypeReserved, r)
  else if sealed r then (Some ErrChannelRegistrySealed, r)
  else match channels r !! channelType with
       | Some _ => (Some ErrChannelAlreadyRegistered, r)
       | None => (None, mkRegistry (<[channelType := caps]> (channels r)) (sealed r))
       end.

Definition Registered (r : ChannelTypeRegistry) (channelType : Z) : bool :=
  match channels r !! channelType with Some _ => true | None => false end.

Definition Lookup (r : ChannelTypeRegistry) (channelType : Z) : option Capabilities :=
  channels r !! channelType.

(** The returned map is a copy; [None] is the nil map of a nil registry. *)
Definition Snapshot (r : option ChannelTypeRegistry) : option (gmap Z Capabilities) :=
  channels <$> r.

Definition Seal (r : ChannelTypeRegistry) : ChannelTypeRegistry := mkRegistry (channels r) true.

(** The operations that change a registry, in any order. *)
Inductive step : ChannelTypeRegistry -> ChannelTypeRegistry -> Prop :=
  | step_register r t c : step r (Register r t c).2
  | step_seal r : step r (Seal r).

(** Type 0 is never a business stream. *)
Definition registry_ok (r : ChannelTypeRegistry) : Prop :=
  Registered r HeartbeatChannelType = false.

Lemma Register_channels r t c e r' : Register r t c = (e, r') ->
  r' = r \/ (e = None /\ t <> 0 /\ sealed r = false /\ channels r !! t = None /\
             channels r' = <[t := c]> (channels r) /\ sealed r' = false).
Proof.
  unfold Register, HeartbeatChannelType. destruct (Z.eqb_spec t 0); [intros [= <- <-]; auto|].
  destruct (sealed r) eqn:?; [intros [= <- <-]; auto|].
  destruct (channels r !! t) eqn:?; intros [= <- <-]; auto. right. split_and!; auto.
Qed.

Lemma registry_step_ok r r' : step r r' -> registry_ok r -> registry_ok r'.
Proof.
  unfold registry_ok, Registered, HeartbeatChannelType. intros [r0 t c|r0]; [|done].
  destruct (Register r0 t c) as [e r1] eqn:E. apply Register_channels in E.
  destruct E as [->|(_ & Ht & _ & _ & Hch & _)]; [done|].
  simpl. rewrite Hch, lookup_insert_ne by done. done.
Qed.

Lemma step_frozen r r' : step r r' -> sealed r = true -> channels r' = channels r /\ sealed r' = true.
Proof.
  intros [r0 t c|r0] Hs; [|done].
  destruct (Register r0 t c) as [e r1] eqn:E. apply Register_channels in E.
  destruct E as [->|(_ & _ & Hs' & _)]; [done|congruence].
Qed.

(** ** Theorems *)

(** Across every sequence of registrations and sealings from a new registry,
    heartbeat type 0 is never registered, and once the registry is sealed its
    table never changes again. *)
Theorem registry_reachable r r' :
  rtc step NewChannelTypeRegistry r -> rtc step r r' ->
  Registered r HeartbeatChannelType = false /\
  (sealed r = true -> channels r' = channels r).
Proof.
  intros H1 H2. split.
  - assert (registry_ok NewChannelTypeRegistry) as H0 by done.
    induction H1 as [|? ? ? Hs _ IH]; [done|]. apply IH; [done|]. eauto using registry_step_ok.
  - clear H1. induction H2 as [|x y z Hs _ IH]; [done|]. intros Hx.
    destruct (step_frozen _ _ Hs Hx) as [<- Hy]. auto.
Qed.

Lemma registry_reachable_witness :
  let r := Seal (Register NewChannelTypeRegistry 1 (mkCaps "mic" "voice" false)).2 in
  channels (Register r 2 (mkCaps "cam" "video" true)).2 = channels r.
Proof.
  apply (registry_reachable
           (Seal (Register NewChannelTypeRegistry 1 (mkCaps "mic" "voice" false)).2)); [| |done].
  - eapply rtc_l; [apply step_register|]. apply rtc_once, step_seal.
  - apply rtc_once, step_register.
Defined.

End Registry.
