(* ===== verification/Ingress.v ===== *)
(** * Ingress: the bounded pre-authentication limiters

    [IngressLimiter] ([protocol/ingress.go]) bounds unauthenticated UDP work and
    [UpgradeLimiter] ([realtime/upgrade_limiter.go]) bounds WebSocket
    handshakes.  Both keep a table of per-source budgets with a hard entry
    limit; the tables are [gmap]s keyed by [netip.Addr]. *)

From S2P Require Import Prelude Float64 TokenBucket.
From stdpp Require Import base gmap list strings fin_maps.
From Stdlib Require Import ZArith Lia.
Import TokenBucket.
#[local] Open Scope Z_scope.

(** ** [net/netip.Addr] *)

Module Netip.

(** The zero [Addr], an IPv4 address (4 bytes) or an IPv6 one (16 bytes). *)
Inductive Addr :=
  | AddrInvalid
  | Addr4 (b : bytes)
  | Addr6 (b : bytes) (zone : string).

#[export] Instance Addr_eq_dec : EqDecision Addr.
Proof. solve_decision. Defined.

#[export] Instance Addr_countable : Countable Addr.
Proof.
  refine (inj_countable'
    (fun a => match a with
              | AddrInvalid => inl ()
              | Addr4 b => inr (inl b)
              | Addr6 b z => inr (inr (b, z)) end)
    (fun x => match x with
              | inl _ => AddrInvalid
              | inr (inl b) => Addr4 b
              | inr (inr (b, z)) => Addr6 b z end) _).
  by intros [].
Defined.

Definition AddrFromSlice (s : bytes) : option Addr :=
  if decide (length s = 4%nat) then Some (Addr4 s)
  else if decide (length s = 16%nat) then Some (Addr6 s EmptyString)
  else None.

(** [Addr.Unmap] strips the IPv4-mapped prefix [::ffff:0:0/96]. *)
Definition Unmap (a : Addr) : Addr :=
  match a with
  | Addr6 b z =>
      if decide (take 12 b = replicate 10 0 ++ [255; 255]) then Addr4 (drop 12 b) else a
  | _ => a
  end.

Definition IsValid (a : Addr) : bool := match a with AddrInvalid => false | _ => true end.

Lemma Unmap_idemp a : Unmap (Unmap a) = Unmap a.
Proof. destruct a as [| |b z]; simpl; try done. case_decide; simpl; [done|]. by rewrite decide_False. Qed.

End Netip.
Import Netip.

Module Ingress.

Record IngressLimits := mkLimits {
  GlobalPacketsPerSec : Z;
  GlobalBurst : Z;
  SourcePacketsPerSec : Z;
  SourceBurst : Z;
  SourceEntryLimit : Z;
  SourceEntryTTL : Z
}.

Definition DefaultIngressLimits : IngressLimits :=
  mkLimits 20000 40000 1200 2400 4096 (2 * Minute).

Inductive IngressDecision :=
  | IngressAllowed
  | IngressDroppedGlobal
  | IngressDroppedSource
  | IngressDroppedTableFull.

Record sourceIngress := mkSource { budget : TokenBucket; lastSeen : Z }.

Record IngressLimiter := mkLimiter {
  limits : IngressLimits;
  global : TokenBucket;
  sources : gmap Addr sourceIngress
}.

(** [now] is the clock sample taken by the global bucket. *)
Definition NewIngressLimiter (l : IngressLimits) (now : Z) : option IngressLimiter :=
  if (GlobalPacketsPerSec l <=? 0) || (GlobalBurst l <=? 0)
     || (SourcePacketsPerSec l <=? 0) || (SourceBurst l <=? 0)
     || (SourceEntryLimit l <=? 0) || (SourceEntryTTL l <=? 0)
  then None
  else Some (mkLimiter l (NewTokenBucket (Float64.of_int (GlobalPacketsPerSec l)) (GlobalBurst l) now) ∅).

(** An entry survives a sweep when it was seen less than the TTL ago. *)
Definition sweepLocked (l : IngressLimiter) (now : Z) : Z * IngressLimiter :=
  let kept := filter (fun kv : Addr * sourceIngress =>
                        ~ (SourceEntryTTL (limits l) <= time_sub now (lastSeen kv.2)))
                     (sources l) in
  (Z.of_nat (size (sources l)) - Z.of_nat (size kept), mkLimiter (limits l) (global l) kept).

Definition Sweep (l : IngressLimiter) (now : Z) : Z * IngressLimiter := sweepLocked l now.

Definition Len (l : IngressLimiter) : Z := Z.of_nat (size (sources l)).

(** The budget step of [Allow] once the source entry is known. *)
Definition take_source (l : IngressLimiter) (addr : Addr) (source : sourceIngress) (now : Z)
  : IngressDecision * IngressLimiter :=
  let '(ok, b) := TakeAt (budget source) now in
  (if ok then IngressAllowed else IngressDroppedSource,
   mkLimiter (limits l) (global l) (<[addr := mkSource b now]> (sources l))).

(** [clock] is the sample of [l.now] taken when a new bucket is created. *)
Definition Allow (l : IngressLimiter) (addr : Addr) (now clock : Z)
  : IngressDecision * IngressLimiter :=
  let addr := Unmap addr in
  let '(ok, g) := TakeAt (global l) now in
  let l := mkLimiter (limits l) g (sources l) in
  if negb ok then (IngressDroppedGlobal, l)
  else match sources l !! addr with
       | Some source => take_source l addr source now
       | None =>
           let l := if SourceEntryLimit (limits l) <=? Len l then (sweepLocked l now).2 else l in
           if SourceEntryLimit (limits l) <=? Len l then (IngressDroppedTableFull, l)
           else take_source l addr
                  (mkSource (NewTokenBucket (Float64.of_int (SourcePacketsPerSec (limits l)))
                               (SourceBurst (limits l)) clock) now) now
       end.

(** ** Invariant: bounded table of healthy budgets *)

Record limiter_ok (l : IngressLimiter) : Prop := {
  ok_limits : 0 < SourcePacketsPerSec (limits l) /\ 0 < SourceBurst (limits l)
              /\ 0 < SourceEntryLimit (limits l);
  ok_global : bucket_ok (global l);
  ok_table : Len l <= SourceEntryLimit (limits l);
  ok_sources : map_Forall (fun _ s => bucket_ok (budget s)) (sources l)
}.

Lemma NewIngressLimiter_ok ls now l : NewIngressLimiter ls now = Some l -> limiter_ok l.
Proof.
  unfold NewIngressLimiter. intros H. case_match eqn:E; simplify_eq.
  rewrite !Bool.orb_false_iff, !Z.leb_gt in E.
  split; simpl; [lia| |unfold Len; simpl; rewrite map_size_empty; lia|apply map_Forall_empty].
  apply NewTokenBucket_ok; [apply Float64.of_int_nonneg|]; lia.
Qed.

Lemma sweepLocked_ok l now : limiter_ok l -> limiter_ok (sweepLocked l now).2.
Proof.
  intros [? ? Ht Hs]. split; simpl; [done..| |].
  - unfold Len in *; simpl. pose proof (size_filter_le
      (fun kv : Addr * sourceIngress => ~ SourceEntryTTL (limits l) <= time_sub now (lastSeen kv.2))
      (sources l)). lia.
  - intros k s [Hk _]%map_lookup_filter_Some. by eapply Hs.
Qed.

Lemma take_source_ok l a s now :
  limiter_ok l -> bucket_ok (budget s) ->
  is_Some (sources l !! a) \/ Len l < SourceEntryLimit (limits l) ->
  limiter_ok (take_source l a s now).2.
Proof.
  intros [? ? Ht Hs] Hb Hroom. unfold take_source. pose proof (TakeAt_ok _ now Hb).
  destruct (TakeAt (budget s) now) as [ok b]; simpl in *. split; simpl; [done..| |].
  - unfold Len in *; simpl. destruct Hroom as [Hin|Hlt].
    + by rewrite map_size_insert_Some.
    + pose proof (size_insert_le (sources l) a (mkSource b now)). lia.
  - by apply map_Forall_insert_2.
Qed.

Lemma with_global_ok l b : limiter_ok l -> bucket_ok b -> limiter_ok (mkLimiter (limits l) b (sources l)).
Proof. by intros [] ?. Qed.

Lemma Allow_ok l a now clock : limiter_ok l -> limiter_ok (Allow l a now clock).2.
Proof.
  intros Hok. unfold Allow. pose proof (TakeAt_ok _ now (ok_global _ Hok)) as Hg.
  destruct (TakeAt (global l) now) as [ok g]. simpl in Hg.
  pose proof (with_global_ok l g Hok Hg) as Hok1. set (l1 := mkLimiter (limits l) g (sources l)) in *.
  destruct ok; simpl negb; [|done]. change (sources l) with (sources l1).
  destruct (sources l1 !! Unmap a) as [s|] eqn:E.
  - apply take_source_ok; [done|by eapply (ok_sources _ Hok1)|eauto].
  - set (l2 := if SourceEntryLimit (limits l1) <=? Len l1 then _ else _).
    assert (limiter_ok l2) as Hok2.
    { unfold l2. destruct (SourceEntryLimit (limits l1) <=? Len l1); [by apply sweepLocked_ok|done]. }
    destruct (Z.leb_spec (SourceEntryLimit (limits l2)) (Len l2)); [done|].
    apply take_source_ok; [done| |by right]. destruct (ok_limits _ Hok2) as (? & ? & ?).
    apply NewTokenBucket_ok; [apply Float64.of_int_nonneg|]; lia.
Qed.

Inductive step : IngressLimiter -> IngressLimiter -> Prop :=
  | step_allow l a now clock : step l (Allow l a now clock).2
  | step_sweep l now : step l (Sweep l now).2.

Lemma limiter_step_ok l l' : step l l' -> limiter_ok l -> limiter_ok l'.
Proof. intros [] ?; [by apply Allow_ok|by apply sweepLocked_ok]. Qed.

Lemma step_limits l l' : step l l' -> limits l' = limits l.
Proof.
  intros [l0 a now clock|]; [|done]. unfold Allow, take_source. repeat case_match; simplify_eq; done.
Qed.

(** ** Theorems *)

(** Whatever addresses send datagrams at whatever times, the table of tracked
    sources never exceeds [SourceEntryLimit], and every budget in it keeps its
    token capacity: memory spent on unauthenticated senders is bounded. *)
Theorem ingress_table_bounded ls now l0 l :
  NewIngressLimiter ls now = Some l0 -> rtc step l0 l ->
  Len l <= SourceEntryLimit ls /\ bucket_ok (global l) /\
  (forall a s, sources l !! a = Some s -> bucket_ok (budget s)).
Proof.
  intros Hnew Hsteps. assert (limiter_ok l /\ limits l = ls) as [Hok <-].
  { pose proof (NewIngressLimiter_ok _ _ _ Hnew) as Hok0.
    assert (limits l0 = ls) as Hl0 by (unfold NewIngressLimiter in Hnew; case_match; by simplify_eq).
    clear Hnew. induction Hsteps as [|x y z Hs _ IH]; [done|].
    apply IH; [by eapply limiter_step_ok|]. by rewrite (step_limits _ _ Hs). }
  destruct Hok as [_ ? ? Hs]. split_and!; [done..|]. intros. by eapply Hs.
Qed.

Lemma ingress_table_bounded_witness :
  let ls := mkLimits 10 10 5 5 1 1000 in
  let l0 := mkLimiter ls (NewTokenBucket (Float64.of_int 10) 10 0) ∅ in
  let l1 := (Allow l0 (Addr4 [1;2;3;4]) 0 0).2 in
  (Allow l1 (Addr4 [9;9;9;9]) 1 1).1 = IngressDroppedTableFull /\
  Len (Allow l1 (Addr4 [9;9;9;9]) 1 1).2 <= 1.
Proof.
  intros ls l0 l1. split; [by vm_compute|].
  refine (proj1 (ingress_table_bounded ls 0 l0 (Allow l1 (Addr4 [9;9;9;9]) 1 1).2 _ _)).
  - reflexivity.
  - exact (rtc_l step l0 l1 _ (step_allow l0 (Addr4 [1;2;3;4]) 0 0)
             (rtc_once l1 _ (step_allow l1 (Addr4 [9;9;9;9]) 1 1))).
Defined.

(** Budgets are isolated between senders: a datagram from one address never
    consumes, resets or creates another address's budget; the most it can do to
    it is remove an entry that has been idle for the whole TTL, and it does so
    only when the table is full. *)
Theorem ingress_isolation l a b now clock s :
  Unmap a <> b -> sources l !! b = Some s ->
  sources (Allow l a now clock).2 !! b = Some s \/
  (sources (Allow l a now clock).2 !! b = None /\
   SourceEntryTTL (limits l) <= time_sub now (lastSeen s) /\
   SourceEntryLimit (limits l) <= Len l).
Proof.
  intros Hne Hb. unfold Allow, take_source, sweepLocked.
  destruct (TakeAt (global l) now) as [[] g]; simpl; [|by left].
  destruct (sources l !! Unmap a) as [s'|] eqn:E.
  { destruct (TakeAt (budget s') now); simpl. left. by rewrite lookup_insert_ne. }
  unfold Len; simpl.
  destruct (Z.leb_spec (SourceEntryLimit (limits l)) (Z.of_nat (size (sources l)))) as [Hfull|Hroom]; simpl.
  - set (m := filter _ (sources l)).
    assert (m !! b = Some s \/ m !! b = None /\ SourceEntryTTL (limits l) <= time_sub now (lastSeen s)) as Hm.
    { destruct (decide (SourceEntryTTL (limits l) <= time_sub now (lastSeen s))).
      - right. split; [|done]. apply map_lookup_filter_None. right. intros x Hx. simplify_eq. simpl. tauto.
      - left. by apply map_lookup_filter_Some. }
    destruct (Z.leb _ _); simpl; [naive_solver|].
    destruct (TakeAt _ now); simpl. rewrite lookup_insert_ne by done. naive_solver.
  - destruct (Z.leb_spec (SourceEntryLimit (limits l)) (Z.of_nat (size (sources l)))); [lia|].
    destruct (TakeAt _ now); simpl. left. by rewrite lookup_insert_ne.
Qed.

Lemma ingress_isolation_witness :
  let l := mkLimiter (mkLimits 10 10 5 5 1 1000) (NewTokenBucket (Float64.of_int 10) 10 0)
             {[Addr4 [1;2;3;4] := mkSource (NewTokenBucket (Float64.of_int 5) 5 0) 0]} in
  sources (Allow l (Addr4 [9;9;9;9]) 2000 2000).2 !! Addr4 [1;2;3;4]
    = Some (mkSource (NewTokenBucket (Float64.of_int 5) 5 0) 0) \/
  (sources (Allow l (Addr4 [9;9;9;9]) 2000 2000).2 !! Addr4 [1;2;3;4] = None /\
   1000 <= time_sub 2000 0 /\ 1 <= Len l).
Proof.
  intros l. apply (ingress_isolation l (Addr4 [9;9;9;9]) (Addr4 [1;2;3;4]) 2000 2000
           (mkSource (NewTokenBucket (Float64.of_int 5) 5 0) 0)).
  - discriminate.
  - apply lookup_singleton_eq.
Defined.

End Ingress.

(** ** WebSocket handshake limiter *)

Module Upgrade.

Definition upgradeTokensPerSecond : Z := Float64.of_int 10.
Definition upgradeBurst : Z := Float64.of_int 20.
Definition upgradeSourceTTL : Z := 2 * Minute.
Definition upgradeSourceLimit : Z := 4096.

Record upgradeSource := mkUpgrade { us_tokens : Z; us_last : Z }.

Record UpgradeLimiter := mkUpgradeLimiter { us_sources : gmap Addr upgradeSource }.

Definition NewUpgradeLimiter : UpgradeLimiter := mkUpgradeLimiter ∅.

Definition pruneLocked (l : UpgradeLimiter) (now : Z) : UpgradeLimiter :=
  mkUpgradeLimiter (filter (fun kv : Addr * upgradeSource =>
                              ~ (upgradeSourceTTL <= time_sub now (us_last kv.2))) (us_sources l)).

Definition Len (l : UpgradeLimiter) : Z := Z.of_nat (size (us_sources l)).

(** The refill-and-take step on one source entry. *)
Definition take_upgrade (s : upgradeSource) (now : Z) : bool * upgradeSource :=
  let elapsed := Float64.duration_seconds (time_sub now (us_last s)) in
  let s := if 0 <? elapsed
           then mkUpgrade (Z.min upgradeBurst
                             (Float64.add (us_tokens s) (Float64.mul elapsed upgradeTokensPerSecond))) now
           else s in
  if us_tokens s <? Float64.one then (false, s)
  else (true, mkUpgrade (Float64.sub (us_tokens s) Float64.one) (us_last s)).

(** [now] is the limiter's clock sample; the receiver is never nil here. *)
Definition Allow (l : UpgradeLimiter) (sourceIP : Addr) (now : Z) : bool * UpgradeLimiter :=
  if negb (IsValid sourceIP) then (false, l)
  else
    let sourceIP := Unmap sourceIP in
    let l := pruneLocked l now in
    match us_sources l !! sourceIP with
    | Some s =>
        let '(ok, s) := take_upgrade s now in
        (ok, mkUpgradeLimiter (<[sourceIP := s]> (us_sources l)))
    | None =>
        if upgradeSourceLimit <=? Len l then (false, l)
        else
          let '(ok, s) := take_upgrade (mkUpgrade upgradeBurst now) now in
          (ok, mkUpgradeLimiter (<[sourceIP := s]> (us_sources l)))
    end.

Definition source_ok (s : upgradeSource) : Prop :=
  0 <= us_tokens s <= upgradeBurst /\ Float64.representable (us_tokens s).

Record limiter_ok (l : UpgradeLimiter) : Prop := {
  up_table : Len l <= upgradeSourceLimit;
  up_sources : map_Forall (fun _ s => source_ok s) (us_sources l)
}.

Lemma upgradeBurst_float : 0 <= upgradeBurst /\ Float64.representable upgradeBurst.
Proof. split; [apply Float64.of_int_nonneg|apply Float64.of_int_representable]; lia. Qed.

Lemma take_upgrade_ok s now : source_ok s -> source_ok (take_upgrade s now).2.
Proof.
  intros [Ht Hf]. destruct upgradeBurst_float as [Hb0 Hbf]. pose proof Float64.one_pos.
  assert (Hs : forall s', source_ok s' ->
    source_ok (if us_tokens s' <? Float64.one then (false, s')
               else (true, mkUpgrade (Float64.sub (us_tokens s') Float64.one) (us_last s'))).2).
  { intros s' [H1 H2]. destruct (Z.ltb_spec (us_tokens s') Float64.one); [done|].
    pose proof (Float64.sub_nonneg (us_tokens s') Float64.one ltac:(lia)).
    pose proof (Float64.sub_le_l (us_tokens s') Float64.one H2 ltac:(lia)).
    split; simpl; [lia|]. by apply Float64.sub_representable. }
  unfold take_upgrade. apply Hs.
  destruct (Z.ltb_spec 0 (Float64.duration_seconds (time_sub now (us_last s)))); [|done].
  assert (0 <= upgradeTokensPerSecond) by (apply Float64.of_int_nonneg; lia).
  pose proof (Float64.mul_nonneg _ _ (Z.lt_le_incl _ _ H0) H1) as Hm.
  pose proof (Float64.add_nonneg (us_tokens s) _ (proj1 Ht) Hm).
  split; simpl; [lia|]. destruct (Z.min_spec upgradeBurst (Float64.add (us_tokens s)
    (Float64.mul (Float64.duration_seconds (time_sub now (us_last s))) upgradeTokensPerSecond)))
    as [[_ ->]|[_ ->]]; [done|]. apply Float64.add_representable; [lia|done].
Qed.

Lemma pruneLocked_ok l now : limiter_ok l -> limiter_ok (pruneLocked l now).
Proof.
  intros [Ht Hs]. split.
  - unfold Len in *; simpl. pose proof (size_filter_le
      (fun kv : Addr * upgradeSource => ~ upgradeSourceTTL <= time_sub now (us_last kv.2)) (us_sources l)).
    lia.
  - intros k s [Hk _]%map_lookup_filter_Some. by eapply Hs.
Qed.

Lemma upgrade_Allow_ok l a now : limiter_ok l -> limiter_ok (Allow l a now).2.
Proof.
  intros Hok. unfold Allow. destruct (IsValid a); cbn [negb]; [|done].
  apply (pruneLocked_ok l now) in Hok. set (l1 := pruneLocked l now) in *. clearbody l1.
  destruct (Hok) as [Ht Hs]. destruct upgradeBurst_float as [Hb0 Hbf].
  destruct (us_sources l1 !! Unmap a) as [s|] eqn:E.
  - pose proof (take_upgrade_ok s now (Hs _ _ E)). destruct (take_upgrade s now) as [ok s'].
    split; simpl; [|by apply map_Forall_insert_2].
    unfold Len in *; simpl. rewrite map_size_insert_Some; eauto.
  - destruct (Z.leb_spec upgradeSourceLimit (Len l1)); [done|].
    pose proof (take_upgrade_ok (mkUpgrade upgradeBurst now) now) as Ht'.
    destruct (take_upgrade (mkUpgrade upgradeBurst now) now) as [ok s'].
    split; simpl; [|apply map_Forall_insert_2; [|done]; apply Ht'; split; simpl; [lia|done]].
    unfold Len in *; simpl. rewrite map_size_insert_None by done. lia.
Qed.

Inductive step : UpgradeLimiter -> UpgradeLimiter -> Prop :=
  | step_allow l a now : step l (Allow l a now).2.

(** The handshake limiter tracks at most 4096 sources, each holding between
    zero and twenty tokens, after any sequence of handshake attempts. *)
Theorem upgrade_bounded l : rtc step NewUpgradeLimiter l -> limiter_ok l.
Proof.
  intros H. assert (limiter_ok NewUpgradeLimiter) as H0.
  { split; [unfold Len; simpl; by rewrite map_size_empty|apply map_Forall_empty]. }
  induction H as [|x y z [] _ IH]; [done|]. apply IH. by apply upgrade_Allow_ok.
Qed.

Lemma upgrade_bounded_witness :
  limiter_ok (Allow NewUpgradeLimiter (Addr4 [1;2;3;4]) 7).2.
Proof. apply upgrade_bounded. exact (rtc_once _ _ (step_allow NewUpgradeLimiter (Addr4 [1;2;3;4]) 7)). Defined.

End Upgrade.
