(* ===== verification/Packet.v ===== *)
(** * Packet: the ZVX1 wire format and its AEAD protection
    ([protocol/packet.go], [protocol/crypto.go], [buildPacket] of [protocol/udp.go])

    A datagram is a list of bytes.  AES-256-GCM and HKDF are not modelled
    byte by byte: [AEAD] is Go's [cipher.AEAD] interface for a 32-byte key with
    the laws its documentation gives, and [hkdf] is the third-party key
    derivation, an argument of the functions that use it. *)

From S2P Require Import Prelude Registry.
From stdpp Require Import base list strings.
From Stdlib Require Import ZArith Lia.
#[local] Open Scope Z_scope.

(** ** The cipher interface *)

Class AEAD := {
  aead_seal : bytes -> bytes -> bytes -> bytes -> bytes;          (* key nonce plaintext aad *)
  aead_open : bytes -> bytes -> bytes -> bytes -> option bytes    (* key nonce ciphertext aad *)
}.

(** What [crypto/cipher] documents of a GCM instance with the standard 16-byte
    tag: sealing appends a tag, opening inverts sealing, and only what sealing
    produced under the same key, nonce and additional data opens. *)
Class AEADLaws (cipher : AEAD) := {
  seal_length k n p a : length (aead_seal k n p a) = (length p + 16)%nat;
  open_seal k n p a : Forall is_byte p -> aead_open k n (aead_seal k n p a) a = Some p;
  open_inv k n c a p : aead_open k n c a = Some p -> c = aead_seal k n p a;
  open_bytes k n c a p : aead_open k n c a = Some p -> Forall is_byte p
}.

Module Packet.

Definition Magic : bytes := [90; 86; 88; 49].   (* "ZVX1" *)
Definition ProtocolVersion : Z := 1.
Definition HeaderSize : nat := 30.
Definition ChannelHeaderSize : nat := 12.
Definition TagSize : nat := 16.
Definition MaxPacketSize : nat := 1200.
Definition MaxPayloadEncrypted : nat := MaxPacketSize - HeaderSize - ChannelHeaderSize - TagSize.
Definition MaxPayloadPlaintext : nat := MaxPacketSize - HeaderSize - ChannelHeaderSize.
Definition masterKeySize : nat := 32.

Definition MaxPayload (encrypted : bool) : nat :=
  if encrypted then MaxPayloadEncrypted else MaxPayloadPlaintext.

Definition MinPacketSize (encrypted : bool) : nat :=
  if encrypted then (HeaderSize + ChannelHeaderSize + TagSize)%nat
  else (HeaderSize + ChannelHeaderSize)%nat.

(** The package's sentinel errors (and the runtime errors they wrap). *)
Inductive ProtoError :=
  | ErrInvalidKey | ErrSequenceZero | ErrOpenFailed | ErrBadAAD
  | ErrSequenceExhausted | ErrInvalidUserID | ErrSessionNotFound | ErrSessionNotOwned
  | ErrNoKey | ErrNoPeer | ErrChannelNotRegistered | ErrInvalidSpeakerID
  | ErrPayloadTooLarge | ErrSessionPrecondition | ErrSessionExpired
  | ErrChannelTypeReserved | ErrRandom | ErrNetClosed | ErrWriteFailed
  | ErrInvalidLimits | ErrUDPServerStarted | ErrUDPServerClosed | ErrNilArgument.

Record ChannelHeader := mkChannel {
  ChannelType : Z;   (* uint8 *)
  ChannelSeq : Z;    (* uint16 *)
  Flags : Z;         (* uint8 *)
  SpeakerID : Z      (* int64 *)
}.

Definition zero_channel : ChannelHeader := mkChannel 0 0 0 0.
Definition zero_id : SessionID := replicate 16 0.

(** The 30-byte outer header written over a fresh buffer. *)
Definition putOuterHeader (sessionID : SessionID) (seq : Z) : bytes :=
  Magic ++ [ProtocolVersion] ++ [0] ++ sessionID ++ be_put 8 seq.

(** Returns [(sessionID, seq, ok)]. *)
Definition parseOuterHeader (p : bytes) : SessionID * Z * bool :=
  if ((length p <? HeaderSize) || (MaxPacketSize <? length p))%nat then (zero_id, 0, false)
  else if negb (bool_decide (subslice 0 4 p = Magic)) || negb (nth 4 p 0 =? ProtocolVersion)
          || negb (nth 5 p 0 =? 0)
  then (zero_id, 0, false)
  else
    let sessionID := subslice 6 22 p in
    let seq := be_get (subslice 22 30 p) in
    if seq =? 0 then (sessionID, 0, false) else (sessionID, seq, true).

Definition putChannelHeader (ch : ChannelHeader) : bytes :=
  [ChannelType ch] ++ be_put 2 (ChannelSeq ch) ++ [Flags ch] ++ be_put 8 (u64_of_i64 (SpeakerID ch)).

Definition parseChannelHeader (p : bytes) : ChannelHeader * bool :=
  if (length p <? ChannelHeaderSize)%nat then (zero_channel, false)
  else (mkChannel (nth 0 p 0) (be_get (subslice 1 3 p)) (nth 3 p 0)
          (i64_of_u64 (be_get (subslice 4 12 p))), true).

(** ** Keys and nonces *)

Section Keys.
(** [io.ReadFull(hkdf.New(sha256.New, master, salt, info), key)]. *)
Context (hkdf : bytes -> bytes -> bytes -> option bytes).

Definition c2sKeyInfo : bytes :=
  map (fun a => Z.of_nat (Ascii.nat_of_ascii a)) (String.list_ascii_of_string "zephyrvox-voice-c2s-v1").
Definition s2cKeyInfo : bytes :=
  map (fun a => Z.of_nat (Ascii.nat_of_ascii a)) (String.list_ascii_of_string "zephyrvox-voice-s2c-v1").

Definition deriveKey (sessionID : SessionID) (masterKey info : bytes) : result bytes ProtoError :=
  match hkdf masterKey sessionID info with Some key => Ok key | None => Err ErrRandom end.

Definition DeriveDirectionKeys (sessionID : SessionID) (masterKey : bytes)
  : result (bytes * bytes) ProtoError :=
  if negb (length masterKey =? masterKeySize)%nat then Err ErrInvalidKey
  else c2s <-? deriveKey sessionID masterKey c2sKeyInfo ;;
       s2c <-? deriveKey sessionID masterKey s2cKeyInfo ;;
       Ok (c2s, s2c).

End Keys.

(** [io.ReadFull(rand.Reader, key)]: the bytes drawn, or the read error. *)
Definition GenerateMasterKey (drawn : option bytes) : result bytes ProtoError :=
  match drawn with Some key => Ok key | None => Err ErrRandom end.

Definition NonceFor (seq : Z) : bytes := replicate 4 0 ++ be_put 8 seq.

(** A [cipher.AEAD] instance is its key; AES-256 accepts every 32-byte key. *)
Definition newGCM (key : bytes) : result bytes ProtoError :=
  if negb (length key =? masterKeySize)%nat then Err ErrInvalidKey else Ok key.

Section Cipher.
Context {cipher : AEAD}.

(** [None] is the nil [cipher.AEAD]. *)
Definition sealWithAEAD (gcm : option bytes) (seq : Z) (header plaintext : bytes)
  : result bytes ProtoError :=
  match gcm with
  | None => Err ErrNoKey
  | Some key =>
      if seq =? 0 then Err ErrSequenceZero
      else if negb (length header =? HeaderSize)%nat then Err ErrBadAAD
      else Ok (aead_seal key (NonceFor seq) plaintext header)
  end.

Definition Seal (key : bytes) (seq : Z) (header plaintext : bytes) : result bytes ProtoError :=
  gcm <-? newGCM key ;; sealWithAEAD (Some gcm) seq header plaintext.

Definition openWithAEAD (gcm : option bytes) (seq : Z) (header ciphertext : bytes)
  : result bytes ProtoError :=
  match gcm with
  | None => Err ErrNoKey
  | Some key =>
      if seq =? 0 then Err ErrSequenceZero
      else if negb (length header =? HeaderSize)%nat then Err ErrBadAAD
      else match aead_open key (NonceFor seq) ciphertext header with
           | Some plaintext => Ok plaintext
           | None => Err ErrOpenFailed
           end
  end.

Definition Open (key : bytes) (seq : Z) (header ciphertext : bytes) : result bytes ProtoError :=
  gcm <-? newGCM key ;; openWithAEAD (Some gcm) seq header ciphertext.

Definition buildPacket (sessionID : SessionID) (seq : Z) (encrypted : bool) (aead : option bytes)
    (ch : ChannelHeader) (payload : bytes) : result bytes ProtoError :=
  if seq =? 0 then Err ErrSequenceZero
  else if (MaxPayload encrypted <? length payload)%nat then Err ErrPayloadTooLarge
  else
    let header := putOuterHeader sessionID seq in
    let body := putChannelHeader ch ++ payload in
    if negb encrypted then Ok (header ++ body)
    else ciphertext <-? sealWithAEAD aead seq header body ;; Ok (header ++ ciphertext).

Definition EncodePacket (sessionID : SessionID) (seq : Z) (encrypted : bool) (key : bytes)
    (ch : ChannelHeader) (payload : bytes) : result bytes ProtoError :=
  if seq =? 0 then Err ErrSequenceZero
  else if encrypted then
    gcm <-? newGCM key ;; buildPacket sessionID seq true (Some gcm) ch payload
  else buildPacket sessionID seq false None ch payload.

(** The values of [DecodePacket]; [payload] is empty when [ok] is false. *)
Record Decoded := mkDecoded {
  d_sessionID : SessionID; d_seq : Z; d_ch : ChannelHeader; d_payload : bytes; d_ok : bool
}.

(** [None] is a runtime panic of one of the slice expressions.  [key] is
    [None] for the nil slice. *)
Definition DecodePacket (packet : bytes) (encrypted : bool) (key : option bytes) : option Decoded :=
  let '(sessionID, seq, ok) := parseOuterHeader packet in
  if negb ok then Some (mkDecoded sessionID seq zero_channel [] false)
  else if encrypted then
    match key with
    | None => Some (mkDecoded sessionID seq zero_channel [] false)
    | Some key =>
        if (length packet <? MinPacketSize true)%nat
        then Some (mkDecoded sessionID seq zero_channel [] false)
        else
          header ← slice 0 HeaderSize packet;
          ciphertext ← slice HeaderSize (length packet) packet;
          match Open key seq header ciphertext with
          | Err _ => Some (mkDecoded sessionID seq zero_channel [] false)
          | Ok plaintext =>
              sub ← slice 0 ChannelHeaderSize plaintext;
              let '(ch, ok) := parseChannelHeader sub in
              if negb ok then Some (mkDecoded sessionID seq ch [] false)
              else payload ← slice ChannelHeaderSize (length plaintext) plaintext;
                   Some (mkDecoded sessionID seq ch payload true)
          end
    end
  else if (length packet <? MinPacketSize false)%nat
  then Some (mkDecoded sessionID seq zero_channel [] false)
  else
    body ← slice HeaderSize (length packet) packet;
    sub ← slice 0 ChannelHeaderSize body;
    let '(ch, ok) := parseChannelHeader sub in
    if negb ok then Some (mkDecoded sessionID seq ch [] false)
    else payload ← slice ChannelHeaderSize (length body) body;
         Some (mkDecoded sessionID seq ch payload true).

(** ** Header round trips *)

Definition channel_wf (ch : ChannelHeader) : Prop :=
  is_byte (ChannelType ch) /\ is_u16 (ChannelSeq ch) /\ is_byte (Flags ch) /\ is_i64 (SpeakerID ch).

Lemma putOuterHeader_length sid seq : length sid = 16%nat -> length (putOuterHeader sid seq) = HeaderSize.
Proof. intros H. unfold putOuterHeader. rewrite !length_app, be_put_length, H. done. Qed.

Lemma putChannelHeader_length ch : length (putChannelHeader ch) = ChannelHeaderSize.
Proof. unfold putChannelHeader. by rewrite !length_app, !be_put_length. Qed.

Lemma parse_putOuterHeader sid seq rest :
  length sid = 16%nat -> 0 < seq < u64_mod -> (length rest + 30 <= 1200)%nat ->
  parseOuterHeader (putOuterHeader sid seq ++ rest) = (sid, seq, true).
Proof.
  intros Hs Hq Hr. unfold parseOuterHeader.
  rewrite length_app, putOuterHeader_length by done. unfold HeaderSize, MaxPacketSize.
  replace (_ || _)%nat with false
    by (symmetry; apply orb_false_iff; split; apply Nat.ltb_ge; lia).
  pose proof (be_put_length 8 seq) as Hb.
  pose proof (be_get_put 8 seq ltac:(unfold u64_mod in Hq; lia)) as Hg.
  unfold putOuterHeader. generalize dependent (be_put 8 seq). intros b Hb Hg.
  do 16 (destruct sid as [|? sid]; [done|]). destruct sid; [|done].
  do 8 (destruct b as [|? b]; [done|]). destruct b; [|done].
  cbn -[be_get]. rewrite take_0, bool_decide_true by done. cbn [negb orb]. rewrite Hg. destruct (Z.eqb_spec seq 0); [lia|done].
Qed.

Lemma parse_putChannelHeader ch : channel_wf ch -> parseChannelHeader (putChannelHeader ch) = (ch, true).
Proof.
  destruct ch as [t s f k]. intros (Ht & Hs & Hf & Hk). unfold channel_wf, is_u16 in *. simpl in *.
  unfold parseChannelHeader. rewrite putChannelHeader_length. cbn [Nat.ltb Nat.leb ChannelHeaderSize].
  unfold putChannelHeader; cbn [ChannelType ChannelSeq Flags SpeakerID].
  pose proof (be_put_length 2 s) as L2. pose proof (be_get_put 2 s ltac:(lia)) as G2.
  pose proof (be_put_length 8 (u64_of_i64 k)) as L8.
  pose proof (be_get_put 8 (u64_of_i64 k) (u64_range k)) as G8.
  generalize dependent (be_put 2 s). intros b2 L2 G2.
  generalize dependent (be_put 8 (u64_of_i64 k)). intros b8 L8 G8.
  do 2 (destruct b2 as [|? b2]; [done|]). destruct b2; [|done].
  do 8 (destruct b8 as [|? b8]; [done|]). destruct b8; [|done].
  cbn -[be_get i64_of_u64]. rewrite G2, G8, i64_roundtrip by done. done.
Qed.

(** Conversely an accepted header is the encoding of what was read. *)
Lemma parseOuterHeader_inv p sid seq : Forall is_byte p ->
  parseOuterHeader p = (sid, seq, true) ->
  take HeaderSize p = putOuterHeader sid seq /\ length sid = 16%nat /\ 0 < seq < u64_mod /\
  (HeaderSize <= length p <= MaxPacketSize)%nat.
Proof.
  intros Hbytes. unfold parseOuterHeader.
  destruct (Nat.ltb_spec (length p) HeaderSize) as [|Hlo]; [by intros [=]|].
  destruct (Nat.ltb_spec MaxPacketSize (length p)) as [|Hhi]; [by intros [=]|]. simpl orb.
  destruct (bool_decide (subslice 0 4 p = Magic)) eqn:Em; [|by intros [=]]. apply bool_decide_eq_true in Em.
  destruct (Z.eqb_spec (nth 4 p 0) ProtocolVersion) as [E4|]; [|by intros [=]].
  destruct (Z.eqb_spec (nth 5 p 0) 0) as [E5|]; [|by intros [=]]. simpl.
  destruct (Z.eqb_spec (be_get (subslice 22 30 p)) 0) as [|E0]; [by intros [=]|]. intros [= <- <-].
  unfold HeaderSize in *.
  do 30 (destruct p as [|? p]; [simpl in Hlo; lia|]). clear Hlo.
  assert (Hb : Forall is_byte (subslice 22 30 (z :: z0 :: z1 :: z2 :: z3 :: z4 :: z5 :: z6 :: z7 :: z8
    :: z9 :: z10 :: z11 :: z12 :: z13 :: z14 :: z15 :: z16 :: z17 :: z18 :: z19 :: z20 :: z21 :: z22
    :: z23 :: z24 :: z25 :: z26 :: z27 :: z28 :: p))) by (apply Forall_take, Forall_drop, Hbytes).
  pose proof (be_put_get _ Hb) as Hput. pose proof (be_get_range _ Hb) as Hrange.
  rewrite subslice_length in Hrange, Hput by (simpl; lia).
  unfold putOuterHeader, Magic in *. unfold subslice in Em. simpl in Em, E4, E5. simplify_eq.
  change (256 ^ Z.of_nat (30 - 22)) with u64_mod in Hrange.
  split_and!; [|done|unfold subslice in *; lia..|simpl; lia|exact Hhi].
  change (30 - 22)%nat with 8%nat in Hput. rewrite Hput. done.
Qed.

Lemma parseChannelHeader_inv p ch : Forall is_byte p -> length p = ChannelHeaderSize ->
  parseChannelHeader p = (ch, true) -> p = putChannelHeader ch /\ channel_wf ch.
Proof.
  intros Hb Hl. unfold parseChannelHeader. rewrite Hl. cbn [Nat.ltb Nat.leb ChannelHeaderSize].
  intros [= <-]. unfold ChannelHeaderSize in Hl. do 12 (destruct p as [|? p]; [done|]). destruct p; [|done].
  rewrite !Forall_cons in Hb. destruct Hb as (? & ? & ? & ? & ? & ? & ? & ? & ? & ? & ? & ? & _).
  assert (B2 : Forall is_byte [z0; z1]) by (by rewrite !Forall_cons).
  assert (B8 : Forall is_byte [z3; z4; z5; z6; z7; z8; z9; z10]) by (by rewrite !Forall_cons).
  pose proof (be_put_get _ B2) as P2. pose proof (be_get_range _ B2) as R2.
  pose proof (be_put_get _ B8) as P8. pose proof (be_get_range _ B8) as R8.
  cbn [length Z.of_nat Pos.of_succ_nat Pos.succ] in R2, R8.
  assert (U8 : is_u64 (be_get [z3; z4; z5; z6; z7; z8; z9; z10])) by (unfold is_u64, u64_mod; lia).
  unfold putChannelHeader, channel_wf, subslice.
  cbn [ChannelType ChannelSeq Flags SpeakerID nth take drop Nat.sub].
  rewrite u64_roundtrip by done. cbn [length] in P2, P8. rewrite P2, P8.
  split; [done|]. split_and!; [done|unfold is_u16; lia|done|].
  unfold is_i64, i64_of_u64, is_u64, u64_mod in *. split_ifs; lia.
Qed.

Lemma slice_full {A} (l : list A) (n : nat) : (n <= length l)%nat -> slice n (length l) l = Some (drop n l).
Proof.
  intros. unfold slice. rewrite decide_True by lia. f_equal. apply take_ge. rewrite length_drop. lia.
Qed.

Lemma slice_prefix {A} (l : list A) (n : nat) : (n <= length l)%nat -> slice 0 n l = Some (take n l).
Proof. intros. unfold slice. rewrite decide_True by lia. by rewrite drop_0, Nat.sub_0_r. Qed.

(** ** Splitting a datagram *)

Section Laws.
Context {laws : AEADLaws cipher}.

Lemma aead_open_length k n c a p : aead_open k n c a = Some p -> length c = (length p + 16)%nat.
Proof using laws. intros ->%open_inv. apply seal_length. Qed.

Lemma openWithAEAD_Ok gcm seq h c p : openWithAEAD gcm seq h c = Ok p ->
  exists key, gcm = Some key /\ aead_open key (NonceFor seq) c h = Some p.
Proof using Type.
  unfold openWithAEAD. destruct gcm as [key|]; [|done]. intros H.
  repeat case_match; simplify_eq. eauto.
Qed.

Lemma openWithAEAD_eq key seq h c : seq <> 0 -> length h = HeaderSize ->
  openWithAEAD (Some key) seq h c =
  match aead_open key (NonceFor seq) c h with Some p => Ok p | None => Err ErrOpenFailed end.
Proof using Type.
  intros Hs Hh. unfold openWithAEAD. destruct (Z.eqb_spec seq 0); [done|].
  by rewrite Hh.
Qed.

Lemma sealWithAEAD_eq key seq h p : seq <> 0 -> length h = HeaderSize ->
  sealWithAEAD (Some key) seq h p = Ok (aead_seal key (NonceFor seq) p h).
Proof using Type.
  intros Hs Hh. unfold sealWithAEAD. destruct (Z.eqb_spec seq 0); [done|]. by rewrite Hh.
Qed.

Lemma newGCM_Ok key gcm : newGCM key = Ok gcm -> gcm = key /\ length key = masterKeySize.
Proof using Type.
  unfold newGCM. destruct (Nat.eqb_spec (length key) masterKeySize); [|done]. by intros [= ->].
Qed.

Lemma newGCM_eq key : length key = masterKeySize -> newGCM key = Ok key.
Proof using Type. intros H. unfold newGCM. by rewrite H. Qed.

(** The bytes a datagram is made of: the outer header followed by the channel
    header and payload, sealed in encrypted mode. *)
Definition body_of (enc : bool) (key : bytes) (sid : SessionID) (seq : Z) (plain : bytes) : bytes :=
  if enc then aead_seal key (NonceFor seq) plain (putOuterHeader sid seq) else plain.

Lemma body_of_length enc key sid seq plain :
  length (body_of enc key sid seq plain) = (length plain + (if enc then TagSize else 0))%nat.
Proof using laws. destruct enc; simpl; [apply seal_length|lia]. Qed.

Lemma buildPacket_eq enc key sid seq ch payload :
  length sid = 16%nat -> seq <> 0 -> (length payload <= MaxPayload enc)%nat ->
  buildPacket sid seq enc (if enc then Some key else None) ch payload
  = Ok (putOuterHeader sid seq ++ body_of enc key sid seq (putChannelHeader ch ++ payload)).
Proof using Type.
  intros Hs Hq Hp. unfold buildPacket. destruct (Z.eqb_spec seq 0); [done|].
  destruct (Nat.ltb_spec (MaxPayload enc) (length payload)); [lia|].
  destruct enc; cbn [negb]; [|done].
  by rewrite sealWithAEAD_eq by (done || by apply putOuterHeader_length).
Qed.

Lemma EncodePacket_eq enc key sid seq ch payload :
  length sid = 16%nat -> seq <> 0 -> (length payload <= MaxPayload enc)%nat ->
  (enc = true -> length key = masterKeySize) ->
  EncodePacket sid seq enc key ch payload
  = Ok (putOuterHeader sid seq ++ body_of enc key sid seq (putChannelHeader ch ++ payload)).
Proof using Type.
  intros Hs Hq Hp Hk. unfold EncodePacket. destruct (Z.eqb_spec seq 0); [done|].
  destruct enc.
  - rewrite newGCM_eq by auto. simpl. by apply (buildPacket_eq true).
  - by apply (buildPacket_eq false key).
Qed.

Lemma packet_length enc key sid seq ch payload : length sid = 16%nat ->
  length (putOuterHeader sid seq ++ body_of enc key sid seq (putChannelHeader ch ++ payload))
  = (MinPacketSize enc + length payload)%nat.
Proof using laws.
  intros Hs. rewrite length_app, putOuterHeader_length, body_of_length, length_app,
    putChannelHeader_length by done.
  destruct enc; unfold MinPacketSize, HeaderSize, ChannelHeaderSize, TagSize; lia.
Qed.

Lemma MinMax_payload enc : (MinPacketSize enc + MaxPayload enc = MaxPacketSize)%nat.
Proof using Type. by destruct enc. Qed.

Lemma decode_body sid seq ch payload : channel_wf ch ->
  (sub ← slice 0 ChannelHeaderSize (putChannelHeader ch ++ payload);
   let '(ch, ok) := parseChannelHeader sub in
   if negb ok then Some (mkDecoded sid seq ch [] false)
   else payload ← slice ChannelHeaderSize (length (putChannelHeader ch ++ payload))
                    (putChannelHeader ch ++ payload);
        Some (mkDecoded sid seq ch payload true)) = Some (mkDecoded sid seq ch payload true).
Proof using Type.
  intros Hw. rewrite slice_prefix by (rewrite length_app, putChannelHeader_length; lia).
  rewrite some_bind, take_app_length' by (by rewrite putChannelHeader_length).
  rewrite parse_putChannelHeader by done. cbn [negb].
  rewrite slice_full by (rewrite length_app, putChannelHeader_length; lia).
  by rewrite some_bind, drop_app_length' by (by rewrite putChannelHeader_length).
Qed.

Lemma decode_built enc key sid seq ch payload :
  length sid = 16%nat -> 0 < seq < u64_mod -> channel_wf ch -> Forall is_byte payload ->
  (length payload <= MaxPayload enc)%nat -> (enc = true -> length key = masterKeySize) ->
  DecodePacket (putOuterHeader sid seq ++ body_of enc key sid seq (putChannelHeader ch ++ payload))
    enc (Some key) = Some (mkDecoded sid seq ch payload true).
Proof using laws.
  intros Hs Hq Hw Hb Hp Hk. unfold DecodePacket.
  pose proof (packet_length enc key sid seq ch payload Hs) as Hl. pose proof (MinMax_payload enc).
  rewrite parse_putOuterHeader; [|done..|].
  2: { rewrite length_app, putOuterHeader_length in Hl by done. unfold HeaderSize, MaxPacketSize in *. lia. }
  assert (HeaderSize <= length (putOuterHeader sid seq ++ body_of enc key sid seq (putChannelHeader ch ++ payload)))%nat
    by (rewrite Hl; destruct enc; unfold MinPacketSize; lia).
  assert (length (putOuterHeader sid seq ++ body_of enc key sid seq (putChannelHeader ch ++ payload))
          <? MinPacketSize enc = false)%nat as Hmin by (apply Nat.ltb_ge; lia).
  destruct enc; cbn [negb]; rewrite Hmin.
  - rewrite slice_prefix, slice_full by done. rewrite !some_bind.
    rewrite take_app_length', drop_app_length' by (by rewrite putOuterHeader_length).
    unfold Open. rewrite newGCM_eq by auto. cbn [rbind].
    rewrite openWithAEAD_eq by (by apply putOuterHeader_length || lia).
    unfold body_of. rewrite open_seal.
    2: { apply Forall_app. split; [|done]. unfold putChannelHeader. destruct Hw as (? & ? & ? & ?).
         rewrite !Forall_app, !Forall_singleton. split_and!; auto using be_put_bytes. }
    by apply decode_body.
  - rewrite slice_full by done. rewrite ?some_bind.
    rewrite drop_app_length' by (by rewrite putOuterHeader_length). by apply decode_body.
Qed.

(** What an encrypted or plaintext body yields once it has been authenticated. *)
Lemma DecodePacket_ok p enc key d : DecodePacket p enc (Some key) = Some d -> d_ok d = true ->
  parseOuterHeader p = (d_sessionID d, d_seq d, true) /\
  (MinPacketSize enc <= length p)%nat /\
  exists plain,
    (if enc then length key = masterKeySize /\
       aead_open key (NonceFor (d_seq d)) (drop HeaderSize p) (take HeaderSize p) = Some plain
     else plain = drop HeaderSize p) /\
    (ChannelHeaderSize <= length plain)%nat /\
    parseChannelHeader (take ChannelHeaderSize plain) = (d_ch d, true) /\
    d_payload d = drop ChannelHeaderSize plain.
Proof using laws.
  unfold DecodePacket. destruct (parseOuterHeader p) as [[sid seq] ok] eqn:Ep.
  destruct ok; cbn [negb]; [|by intros [= <-]].
  assert (Hbody : forall plain,
    (sub ← slice 0 ChannelHeaderSize plain;
     let '(ch, ok) := parseChannelHeader sub in
     if negb ok then Some (mkDecoded sid seq ch [] false)
     else payload ← slice ChannelHeaderSize (length plain) plain;
          Some (mkDecoded sid seq ch payload true)) = Some d -> d_ok d = true ->
    d_sessionID d = sid /\ d_seq d = seq /\ (ChannelHeaderSize <= length plain)%nat /\
    parseChannelHeader (take ChannelHeaderSize plain) = (d_ch d, true) /\
    d_payload d = drop ChannelHeaderSize plain).
  { intros plain H Hok. apply bind_Some in H as (sub & Hsub & H).
    unfold slice in Hsub. case_decide; simplify_eq. rewrite drop_0, Nat.sub_0_r in H.
    destruct (parseChannelHeader (take ChannelHeaderSize plain)) as [ch ok] eqn:Ec.
    destruct ok; cbn [negb] in H; [|by simplify_eq].
    rewrite slice_full, some_bind in H by lia. simplify_eq. split_and!; simpl; (done || lia). }
  destruct enc.
  - destruct (Nat.ltb_spec (length p) (MinPacketSize true)) as [|Hmin]; [by intros [= <-]|].
    unfold MinPacketSize, HeaderSize in Hmin.
    rewrite slice_prefix, slice_full by (unfold HeaderSize; lia). rewrite !some_bind.
    destruct (Open key seq (take HeaderSize p) (drop HeaderSize p)) as [plain|] eqn:Eo; [|by intros [= <-]].
    intros H Hok. destruct (Hbody plain H Hok) as (-> & -> & Hl & Hc & Hp).
    unfold Open in Eo. apply rbind_Ok in Eo as (gcm & Hg & Eo). apply newGCM_Ok in Hg as [-> Hk].
    apply openWithAEAD_Ok in Eo as (k & [= <-] & Eo). split_and!; [done|exact Hmin|]. exists plain. auto.
  - destruct (Nat.ltb_spec (length p) (MinPacketSize false)) as [|Hmin]; [by intros [= <-]|].
    rewrite slice_full by (unfold MinPacketSize, HeaderSize in *; lia). rewrite some_bind.
    intros H Hok. destruct (Hbody _ H Hok) as (-> & -> & Hl & Hc & Hp).
    split_and!; [done|done|]. exists (drop HeaderSize p). auto.
Qed.

End Laws.
End Cipher.

(** Distinct sequence numbers have distinct GCM nonces, so a direction key whose
    sender never reuses a sequence number never reuses a nonce. *)
Lemma NonceFor_inj s1 s2 : is_u64 s1 -> is_u64 s2 -> NonceFor s1 = NonceFor s2 -> s1 = s2.
Proof.
  unfold NonceFor, is_u64, u64_mod. intros H1 H2 H. apply app_inv_head in H.
  rewrite <-(be_get_put 8 s1), <-(be_get_put 8 s2) by (change (256 ^ Z.of_nat 8) with (2 ^ 64); lia).
  by f_equal.
Qed.

(** ** An executable instance of the interface

    Not a cipher: the tag is a checksum.  It satisfies the laws and lets the
    definitions run on concrete inputs. *)
Definition sum_tag (k n p a : bytes) : bytes :=
  replicate 16 ((fold_left Z.add (k ++ n ++ p ++ a) 0) mod 256).

#[export] Instance checksum_aead : AEAD := {
  aead_seal k n p a := p ++ sum_tag k n p a;
  aead_open k n c a :=
    let p := take (length c - 16) c in
    if decide (c = p ++ sum_tag k n p a /\ Forall is_byte p) then Some p else None
}.

#[export] Instance is_byte_dec x : Decision (is_byte x).
Proof. unfold is_byte. apply _. Defined.

#[export] Instance checksum_laws : AEADLaws checksum_aead.
Proof.
  split; simpl.
  - intros. by rewrite length_app.
  - intros k n p a Hp. rewrite length_app.
    assert (take (length p + length (sum_tag k n p a) - 16) (p ++ sum_tag k n p a) = p) as ->.
    { apply take_app_length'. change (length (sum_tag k n p a)) with 16%nat. lia. }
    by rewrite decide_True.
  - intros k n c a p. case_decide as H; [|done]. intros [= <-]. apply H.
  - intros k n c a p. case_decide as H; [|done]. intros [= <-]. apply H.
Qed.

(** ** Theorems *)

Section Theorems.
Context {cipher : AEAD} {laws : AEADLaws cipher}.

Lemma encode_decoded p enc key d : Forall is_byte p ->
  DecodePacket p enc (Some key) = Some d -> d_ok d = true ->
  EncodePacket (d_sessionID d) (d_seq d) enc key (d_ch d) (d_payload d) = Ok p.
Proof using laws.
  intros Hb Hd Hok. destruct (DecodePacket_ok p enc key d Hd Hok) as (Hh & Hmin & plain & Hbody & Hl & Hc & Hp).
  destruct (parseOuterHeader_inv p _ _ Hb Hh) as (Htake & Hsid & Hseq & Hlen).
  assert (Hbp : Forall is_byte plain).
  { destruct enc; [destruct Hbody as [_ Ho]; by eapply open_bytes|subst; by apply Forall_drop]. }
  destruct (parseChannelHeader_inv (take ChannelHeaderSize plain) (d_ch d)) as [Hput Hw];
    [by apply Forall_take|rewrite length_take; lia|done|].
  assert (putChannelHeader (d_ch d) ++ d_payload d = plain) as Hplain.
  { rewrite <-Hput, Hp. apply take_drop. }
  assert (body_of enc key (d_sessionID d) (d_seq d) plain = drop HeaderSize p) as Hbo.
  { destruct enc; simpl; [|done]. destruct Hbody as [_ Ho]. rewrite <-Htake.
    symmetry. by apply open_inv. }
  rewrite EncodePacket_eq; [|done|lia| |].
  - by rewrite Hplain, Hbo, <-Htake, take_drop.
  - pose proof (f_equal length Hbo) as HL. rewrite body_of_length, length_drop in HL.
    rewrite Hp, length_drop. pose proof (MinMax_payload enc).
    destruct enc; unfold MinPacketSize, HeaderSize, ChannelHeaderSize, TagSize, MaxPacketSize in *; lia.
  - destruct enc; [intros _; apply Hbody|done].
Qed.

Lemma decode_total p enc key : DecodePacket p enc key <> None.
Proof using laws.
  unfold DecodePacket. destruct (parseOuterHeader p) as [[sid seq] ok].
  destruct ok; cbn [negb]; [|done].
  assert (Hbody : forall plain, (ChannelHeaderSize <= length plain)%nat ->
    (sub ← slice 0 ChannelHeaderSize plain;
     let '(ch, ok) := parseChannelHeader sub in
     if negb ok then Some (mkDecoded sid seq ch [] false)
     else payload ← slice ChannelHeaderSize (length plain) plain;
          Some (mkDecoded sid seq ch payload true)) <> None).
  { intros plain Hl. rewrite slice_prefix, slice_full, !some_bind by lia.
    by destruct (parseChannelHeader _) as [ch []]. }
  destruct enc; [destruct key as [key|]; [|done]|];
    case_match eqn:Hmin; try done; apply Nat.ltb_ge in Hmin;
    unfold MinPacketSize, HeaderSize, ChannelHeaderSize, TagSize in *.
  - rewrite slice_prefix, slice_full, !some_bind by lia.
    destruct (Open _ _ _ _) as [plain|] eqn:Eo; [|done]. apply Hbody.
    unfold Open in Eo. apply rbind_Ok in Eo as (gcm & _ & Eo).
    apply openWithAEAD_Ok in Eo as (k & _ & Eo%aead_open_length). rewrite length_drop in Eo. lia.
  - rewrite slice_full, some_bind by lia. apply Hbody. rewrite length_drop. lia.
Qed.

(** C17: Encoding is total on valid frames and decoding inverts it, in plaintext and
    in encrypted mode: [EncodePacket] returns a datagram within the size limits
    and [DecodePacket] reads back the session id, sequence, channel header and
    payload it was built from. *)
Theorem decode_encode sid seq enc key ch payload :
  length sid = 16%nat -> 0 < seq < u64_mod -> channel_wf ch -> Forall is_byte payload ->
  (length payload <= MaxPayload enc)%nat -> (enc = true -> length key = masterKeySize) ->
  exists p, EncodePacket sid seq enc key ch payload = Ok p /\
    (MinPacketSize enc <= length p <= MaxPacketSize)%nat /\
    DecodePacket p enc (Some key) = Some (mkDecoded sid seq ch payload true).
Proof using laws.
  intros Hs Hq Hw Hb Hp Hk. eexists. split; [apply EncodePacket_eq; (done || lia)|].
  split; [|by apply decode_built].
  rewrite packet_length by done. pose proof (MinMax_payload enc). lia.
Qed.

(** The encoding is canonical: every byte string [DecodePacket] accepts is the
    one [EncodePacket] produces from the decoded fields.  In encrypted mode this
    is the authenticity of the whole datagram, header included. *)
Theorem encode_decode p enc key d : Forall is_byte p ->
  DecodePacket p enc (Some key) = Some d -> d_ok d = true ->
  EncodePacket (d_sessionID d) (d_seq d) enc key (d_ch d) (d_payload d) = Ok p.
Proof using laws. apply encode_decoded. Qed.

(** Decoding any byte string in any mode never reaches a slice-bounds panic:
    the length checks before the slice expressions, together with the AEAD tag
    length, cover every index. *)
Theorem decode_never_panics p enc key : DecodePacket p enc key <> None.
Proof using laws. apply decode_total. Qed.

End Theorems.

Lemma decode_encode_witness :
  exists p, EncodePacket (replicate 16 7) 9 true (replicate 32 1) (mkChannel 1 5 0 0) [10; 20; 30] = Ok p /\
    (MinPacketSize true <= length p <= MaxPacketSize)%nat /\
    DecodePacket p true (Some (replicate 32 1))
      = Some (mkDecoded (replicate 16 7) 9 (mkChannel 1 5 0 0) [10; 20; 30] true).
Proof.
  apply decode_encode.
  - done.
  - by split.
  - unfold channel_wf, is_byte, is_u16, is_i64. simpl. lia.
  - apply (bool_decide_eq_true_1 (Forall is_byte [10; 20; 30])). by vm_compute.
  - unfold MaxPayload, MaxPayloadEncrypted, MaxPacketSize, HeaderSize, ChannelHeaderSize, TagSize. simpl. lia.
  - done.
Defined.

Lemma encode_decode_witness :
  EncodePacket (replicate 16 7) 9 false [] (mkChannel 1 5 0 0) [10; 20]
  = Ok (Magic ++ [1; 0] ++ replicate 16 7 ++ [0;0;0;0;0;0;0;9] ++ [1; 0; 5; 0; 0;0;0;0;0;0;0;0; 10; 20]).
Proof.
  apply (encode_decode
    (Magic ++ [1; 0] ++ replicate 16 7 ++ [0;0;0;0;0;0;0;9] ++ [1; 0; 5; 0; 0;0;0;0;0;0;0;0; 10; 20])
    false [] (mkDecoded (replicate 16 7) 9 (mkChannel 1 5 0 0) [10; 20] true)).
  - apply (bool_decide_eq_true_1 (Forall is_byte _)). by vm_compute.
  - by vm_compute.
  - done.
Defined.


End Packet.
