(* ===== verification/Session.v ===== *)
(** * Session: voice sessions and their registry ([protocol/session.go])

    A [World] is the [Manager] together with the memory it points into: the
    sessions, prepared sessions and expiry barriers live at locations, because
    the code shares them between the registry, prepared results, staged drains
    and cleanups.  Every exported method is one critical section of
    [Manager.mu] and is one state transformer here; callbacks run after the
    lock is released and are recorded, in order, in [w_events].  The closures
    the code returns ([SessionSendDrain], [RevocationCleanup],
    [ActivationCleanup]) are the constructors of [Drain] and [Cleanup], run by
    [run_drain] and [run_cleanup].  The clock samples a method takes are its
    arguments. *)

From S2P Require Import Prelude Float64 TokenBucket Replay Packet.
From stdpp Require Import base gmap list strings fin_maps.
From Stdlib Require Import ZArith Lia.
Import Packet.
#[local] Open Scope Z_scope.

Module Session.

Abbreviation loc := nat.

Definition SessionTTL : Z := 90 * Second.
Definition PurgeInterval : Z := 30 * Second.
(** [SessionTTL.Milliseconds()]. *)
Definition SessionTTLMillis : Z := SessionTTL / 1000000.

Record Limits := mkLimits { l_SessionPacketsPerSec : Z; l_SessionBurst : Z }.

Definition DefaultLimits : Limits :=
  mkLimits TokenBucket.SessionPacketsPerSec TokenBucket.SessionBurst.

Inductive RevocationReason := RevocationReplaced | RevocationRevoked.

Record UDPAddr := mkUDPAddr { IP : bytes; Port : Z; Zone : string }.

(** A deep copy of an immutable value is the value. *)
Definition cloneUDPAddr (addr : option UDPAddr) : option UDPAddr :=
  match addr with
  | None => None
  | Some a => Some (mkUDPAddr (IP a) (Port a) (Zone a))
  end.

Record Session := mkSession {
  s_ID : SessionID;
  s_UserID : Z;
  s_DeviceID : string;
  s_CreatedAt : Z;
  s_ExpiresAt : Z;
  s_encrypted : bool;
  s_c2sAEAD : option bytes;
  s_s2cAEAD : option bytes;
  s_rxBudget : TokenBucket.TokenBucket;
  s_remote : option UDPAddr;
  s_rxReplay : Replay.ReplayWindow;
  s_sendSeq : Z;
  s_active : bool
}.

Record SessionInfo := mkInfo {
  i_ID : SessionID; i_UserID : Z; i_Encrypted : bool; i_MasterKey : bytes;
  i_ExpiresAt : Z; i_ReplacedPrevious : bool
}.

Record SessionSnapshot := mkSnap {
  sn_ID : SessionID; sn_UserID : Z; sn_DeviceID : string; sn_CreatedAt : Z;
  sn_ExpiresAt : Z; sn_Encrypted : bool; sn_RemotePresent : bool
}.

Record RevokedSessionSnapshot := mkRevoked {
  rv_ID : SessionID; rv_UserID : Z; rv_Encrypted : bool; rv_S2CAEAD : option bytes;
  rv_Remote : option UDPAddr; rv_SendSeq : Z
}.

Record PreparedSession := mkPrepared {
  p_owner : nat; p_session : loc; p_info : SessionInfo; p_used : bool
}.

Record expiryBarrier := mkBarrier { eb_id : SessionID; eb_session : loc; eb_once : bool }.

(** [SessionSendDrain]: wait for a session's sends, or a barrier's [drain]. *)
Inductive Drain := DrainSession (l : loc) | DrainBarrier (b : loc).

Record revocationWork := mkWork {
  rw_session : option loc; rw_reason : RevocationReason; rw_handler : bool; rw_notify : bool
}.

(** [RevocationCleanup] and [ActivationCleanup]. *)
Inductive Cleanup := CleanupDrain (d : Drain) | CleanupRevocation (w : revocationWork).

Inductive Event :=
  | EvRevoked (reason : RevocationReason) (snap : RevokedSessionSnapshot)
  | EvExpired (userID : Z) (id : SessionID)
  | EvExpiredBarrier (userID : Z) (id : SessionID) (drain : Drain).

(** Handlers are recorded by whether they are installed. *)
Record Manager := mkManager {
  m_self : nat;
  m_sessions : gmap SessionID loc;
  m_byUser : gmap Z SessionID;
  m_limits : Limits;
  m_onRevoke : bool;
  m_onExpire : bool;
  m_onExpireBarrier : bool;
  m_expiryBarriers : gmap SessionID loc
}.

Record World := mkWorld {
  w_mgr : Manager;
  w_sess : gmap loc Session;
  w_prep : gmap loc PreparedSession;
  w_bar : gmap loc expiryBarrier;
  w_next : loc;
  w_events : list Event
}.

(** ** Field updates *)

Definition with_ExpiresAt (s : Session) (t : Z) : Session :=
  mkSession (s_ID s) (s_UserID s) (s_DeviceID s) (s_CreatedAt s) t (s_encrypted s) (s_c2sAEAD s)
    (s_s2cAEAD s) (s_rxBudget s) (s_remote s) (s_rxReplay s) (s_sendSeq s) (s_active s).
Definition with_rxBudget (s : Session) (b : TokenBucket.TokenBucket) : Session :=
  mkSession (s_ID s) (s_UserID s) (s_DeviceID s) (s_CreatedAt s) (s_ExpiresAt s) (s_encrypted s) (s_c2sAEAD s)
    (s_s2cAEAD s) b (s_remote s) (s_rxReplay s) (s_sendSeq s) (s_active s).
Definition with_remote (s : Session) (r : option UDPAddr) : Session :=
  mkSession (s_ID s) (s_UserID s) (s_DeviceID s) (s_CreatedAt s) (s_ExpiresAt s) (s_encrypted s) (s_c2sAEAD s)
    (s_s2cAEAD s) (s_rxBudget s) r (s_rxReplay s) (s_sendSeq s) (s_active s).
Definition with_rxReplay (s : Session) (w : Replay.ReplayWindow) : Session :=
  mkSession (s_ID s) (s_UserID s) (s_DeviceID s) (s_CreatedAt s) (s_ExpiresAt s) (s_encrypted s) (s_c2sAEAD s)
    (s_s2cAEAD s) (s_rxBudget s) (s_remote s) w (s_sendSeq s) (s_active s).
Definition with_sendSeq (s : Session) (q : Z) : Session :=
  mkSession (s_ID s) (s_UserID s) (s_DeviceID s) (s_CreatedAt s) (s_ExpiresAt s) (s_encrypted s) (s_c2sAEAD s)
    (s_s2cAEAD s) (s_rxBudget s) (s_remote s) (s_rxReplay s) q (s_active s).
Definition with_active (s : Session) (a : bool) : Session :=
  mkSession (s_ID s) (s_UserID s) (s_DeviceID s) (s_CreatedAt s) (s_ExpiresAt s) (s_encrypted s) (s_c2sAEAD s)
    (s_s2cAEAD s) (s_rxBudget s) (s_remote s) (s_rxReplay s) (s_sendSeq s) a.

Definition set_index (m : Manager) (ss : gmap SessionID loc) (us : gmap Z SessionID) : Manager :=
  mkManager (m_self m) ss us (m_limits m) (m_onRevoke m) (m_onExpire m) (m_onExpireBarrier m)
    (m_expiryBarriers m).
Definition set_barriers (m : Manager) (bs : gmap SessionID loc) : Manager :=
  mkManager (m_self m) (m_sessions m) (m_byUser m) (m_limits m) (m_onRevoke m) (m_onExpire m)
    (m_onExpireBarrier m) bs.
Definition set_handlers (m : Manager) (r e b : bool) : Manager :=
  mkManager (m_self m) (m_sessions m) (m_byUser m) (m_limits m) r e b (m_expiryBarriers m).

Definition set_mgr (w : World) (m : Manager) : World :=
  mkWorld m (w_sess w) (w_prep w) (w_bar w) (w_next w) (w_events w).
Definition set_sess (w : World) (ss : gmap loc Session) : World :=
  mkWorld (w_mgr w) ss (w_prep w) (w_bar w) (w_next w) (w_events w).
Definition emit (w : World) (e : Event) : World :=
  mkWorld (w_mgr w) (w_sess w) (w_prep w) (w_bar w) (w_next w) (w_events w ++ [e]).

(** Apply [f] to the session at [l] under its mutex. *)
Definition modify (w : World) (l : loc) (f : Session -> Session) : World :=
  set_sess w (alter f l (w_sess w)).

(** ** Session methods (callers hold [Session.mu]) *)

Definition expiredLocked (s : Session) (nowMS : Z) : bool := s_ExpiresAt s <=? nowMS.
Definition touchLocked (s : Session) (nowMS : Z) : Session := with_ExpiresAt s (nowMS + SessionTTLMillis).
Definition deactivateLocked (s : Session) : Session := with_active s false.

Definition cryptoSnapshot (s : Session) : bool * option bytes := (s_encrypted s, s_c2sAEAD s).

Inductive receiveDecision :=
  | receiveAccepted | receiveDroppedReplay | receiveDroppedRateLimit | receiveDroppedInactive.

(** [None] is the panic of the replay consistency check. *)
Definition acceptPacket (s : Session) (seq : Z) (now : Z) (remote : option UDPAddr)
  : option (receiveDecision * Session) :=
  if negb (s_active s) then Some (receiveDroppedInactive, s)
  else if negb (Replay.WouldAccept (s_rxReplay s) seq) then Some (receiveDroppedReplay, s)
  else
    let '(ok, b) := TokenBucket.TakeAt (s_rxBudget s) now in
    let s := with_rxBudget s b in
    if negb ok then Some (receiveDroppedRateLimit, s)
    else
      let '(accepted, advanced, win) := Replay.Accept (s_rxReplay s) seq in
      let s := with_rxReplay s win in
      if negb accepted then None
      else
        let s := touchLocked s (unix_milli now) in
        let s := match remote with
                 | Some _ => if advanced then with_remote s (cloneUDPAddr remote) else s
                 | None => s
                 end in
        Some (receiveAccepted, s).

Record SendGrant := mkGrant {
  g_seq : Z; g_encrypted : bool; g_s2cAEAD : option bytes; g_remote : option UDPAddr
}.

Definition reserveSendSeq (s : Session) : result SendGrant ProtoError * Session :=
  if negb (s_active s) then (Err ErrSessionNotFound, s)
  else if s_sendSeq s =? max_u64 then (Err ErrSequenceExhausted, s)
  else
    let s := with_sendSeq s (s_sendSeq s + 1) in
    if s_encrypted s && negb (bool_decide (is_Some (s_s2cAEAD s))) then (Err ErrNoKey, s)
    else (Ok (mkGrant (s_sendSeq s) (s_encrypted s) (s_s2cAEAD s) (cloneUDPAddr (s_remote s))), s).

Definition newRevokedSnapshotLocked (s : Session) : RevokedSessionSnapshot * Session :=
  let s' := if s_sendSeq s <? max_u64 then with_sendSeq s (s_sendSeq s + 1) else s in
  (mkRevoked (s_ID s) (s_UserID s) (s_encrypted s) (s_s2cAEAD s) (cloneUDPAddr (s_remote s))
     (if s_sendSeq s <? max_u64 then s_sendSeq s' else 0), s').

Definition snapshot_of (s : Session) : SessionSnapshot :=
  mkSnap (s_ID s) (s_UserID s) (s_DeviceID s) (s_CreatedAt s) (s_ExpiresAt s) (s_encrypted s)
    (bool_decide (is_Some (s_remote s))).

Definition newSession (id : SessionID) (userID : Z) (deviceID : string) (encrypted : bool)
    (nowMS : Z) (c2s s2c : option bytes) (limits : Limits) (clock : Z) : Session :=
  mkSession id userID deviceID nowMS (nowMS + SessionTTLMillis) encrypted c2s s2c
    (TokenBucket.NewTokenBucket (Float64.of_int (l_SessionPacketsPerSec limits)) (l_SessionBurst limits) clock)
    None Replay.empty_window 0 true.

(** ** Manager construction and handlers *)

Definition NewManagerWithLimits (self : nat) (limits : Limits) : result World ProtoError :=
  if (l_SessionPacketsPerSec limits <=? 0) || (l_SessionBurst limits <=? 0) then Err ErrInvalidLimits
  else Ok (mkWorld (mkManager self ∅ ∅ limits false false false ∅) ∅ ∅ ∅ 0 []).

Definition NewManager (self : nat) : World :=
  mkWorld (mkManager self ∅ ∅ DefaultLimits false false false ∅) ∅ ∅ ∅ 0 [].

Definition SetRevocationHandler (w : World) (installed : bool) : World :=
  set_mgr w (set_handlers (w_mgr w) installed (m_onExpire (w_mgr w)) (m_onExpireBarrier (w_mgr w))).
Definition SetExpiryHandler (w : World) (installed : bool) : World :=
  set_mgr w (set_handlers (w_mgr w) (m_onRevoke (w_mgr w)) installed false).
Definition SetExpiryBarrierHandler (w : World) (installed : bool) : World :=
  set_mgr w (set_handlers (w_mgr w) (m_onRevoke (w_mgr w)) false installed).

(** ** Index helpers (callers hold [Manager.mu]) *)

Definition deleteLocked (w : World) (id : SessionID) (userID : Z) : World :=
  let m := w_mgr w in
  set_mgr w (set_index m (delete id (m_sessions m))
    (match m_byUser m !! userID with
     | Some current => if decide (current = id) then delete userID (m_byUser m) else m_byUser m
     | None => m_byUser m
     end)).

Definition newExpiryDrainLocked (w : World) (id : SessionID) (l : loc) : Drain * World :=
  if negb (m_onExpireBarrier (w_mgr w)) then (DrainSession l, w)
  else
    let b := w_next w in
    (DrainBarrier b,
     mkWorld (set_barriers (w_mgr w) (<[id := b]> (m_expiryBarriers (w_mgr w))))
       (w_sess w) (w_prep w) (<[b := mkBarrier id l false]> (w_bar w)) (S b) (w_events w)).

Definition pendingExpiryDrainLocked (w : World) (id : SessionID) : option Drain :=
  DrainBarrier <$> m_expiryBarriers (w_mgr w) !! id.

Definition pendingExpiryDrain (w : World) (id : SessionID) : option Drain :=
  pendingExpiryDrainLocked w id.

Definition clearExpiryBarrier (w : World) (id : SessionID) (b : loc) : World :=
  match m_expiryBarriers (w_mgr w) !! id with
  | Some current =>
      if decide (current = b)
      then set_mgr w (set_barriers (w_mgr w) (delete id (m_expiryBarriers (w_mgr w)))) else w
  | None => w
  end.

(** [barrierHandler(...)] or [handler(...)] after the locks are released. *)
Definition notify_expiry (w : World) (userID : Z) (id : SessionID) (drain : Drain) : World :=
  if m_onExpireBarrier (w_mgr w) then emit w (EvExpiredBarrier userID id drain)
  else if m_onExpire (w_mgr w) then emit w (EvExpired userID id)
  else w.

(** [expiryBarrier.drain]: waits for the session's sends, once. *)
Definition barrier_drain (w : World) (b : loc) : World :=
  match w_bar w !! b with
  | Some bar =>
      if eb_once bar then w
      else clearExpiryBarrier
             (mkWorld (w_mgr w) (w_sess w) (w_prep w)
                (<[b := mkBarrier (eb_id bar) (eb_session bar) true]> (w_bar w)) (w_next w) (w_events w))
             (eb_id bar) b
  | None => w
  end.

(** Waiting on [sendMu] changes no state: sends in flight are the subject of
    [SendOrder]. *)
Definition run_drain (w : World) (d : Drain) : World :=
  match d with DrainSession _ => w | DrainBarrier b => barrier_drain w b end.

Definition runRevocation (w : World) (work : revocationWork) : World :=
  match rw_session work with
  | None => w
  | Some l =>
      match w_sess w !! l with
      | None => w
      | Some s =>
          if rw_notify work && rw_handler work
             && bool_decide (is_Some (s_remote s)) && (s_sendSeq s <? max_u64)
          then let '(snap, s') := newRevokedSnapshotLocked s in
               emit (modify w l (fun _ => s')) (EvRevoked (rw_reason work) snap)
          else w
      end
  end.

Definition run_cleanup (w : World) (c : Cleanup) : World :=
  match c with CleanupDrain d => run_drain w d | CleanupRevocation work => runRevocation w work end.

(** ** Preparation and activation *)

Definition randomSessionID (drawn : option SessionID) : result SessionID ProtoError :=
  match drawn with Some id => Ok id | None => Err ErrRandom end.

(** The transport keys of a new session: master key and direction AEADs. *)
Definition prepare_keys (hkdf : bytes -> bytes -> bytes -> option bytes) (encrypted : bool)
    (id : SessionID) (drawn_key : option bytes)
  : result (bytes * option bytes * option bytes) ProtoError :=
  if encrypted then
    masterKey <-? GenerateMasterKey drawn_key ;;
    keys <-? DeriveDirectionKeys hkdf id masterKey ;;
    c2sAEAD <-? newGCM keys.1 ;;
    s2cAEAD <-? newGCM keys.2 ;;
    Ok (masterKey, Some c2sAEAD, Some s2cAEAD)
  else Ok ([], None, None).

(** [now] is the sample of [nowMillis], [clock] the one of the new rate budget. *)
Definition Prepare (hkdf : bytes -> bytes -> bytes -> option bytes) (w : World) (userID : Z)
    (deviceID : string) (encrypted : bool) (drawn_id : option SessionID) (drawn_key : option bytes)
    (now clock : Z) : result loc ProtoError * World :=
  if userID <=? 0 then (Err ErrInvalidUserID, w)
  else match randomSessionID drawn_id with
  | Err e => (Err e, w)
  | Ok id =>
    match prepare_keys hkdf encrypted id drawn_key with
    | Err e => (Err e, w)
    | Ok (masterKey, c2s, s2c) =>
      let sess := newSession id userID deviceID encrypted (unix_milli now) c2s s2c
                    (m_limits (w_mgr w)) clock in
      let l := w_next w in
      let pl := S l in
      (Ok pl,
       mkWorld (w_mgr w) (<[l := sess]> (w_sess w))
         (<[pl := mkPrepared (m_self (w_mgr w)) l
                    (mkInfo id userID encrypted masterKey (s_ExpiresAt sess) false) false]> (w_prep w))
         (w_bar w) (S pl) (w_events w))
    end
  end.

(** The publication of [activatePreparedStaged]: mark the prepared session used,
    retire the user's current session and install the new one. *)
Definition activate_commit (w : World) (pl : loc) (p : PreparedSession) (sess : Session)
    (nowMS : Z) (missingExpectedDrain : option Drain)
  : result (SessionInfo * option Drain * Cleanup) ProtoError * World :=
  let m := w_mgr w in
  let userID := s_UserID sess in
  let w := mkWorld m (w_sess w)
             (<[pl := mkPrepared (p_owner p) (p_session p) (p_info p) true]> (w_prep w))
             (w_bar w) (w_next w) (w_events w) in
  let '(replaced, removed, ss, heap) :=
    match m_byUser m !! userID with
    | Some oldID =>
        match m_sessions m !! oldID with
        | Some ol =>
            (match w_sess w !! ol with Some old => negb (expiredLocked old nowMS) | None => false end,
             Some ol, delete oldID (m_sessions m), alter deactivateLocked ol (w_sess w))
        | None => (false, None, m_sessions m, w_sess w)
        end
    | None => (false, None, m_sessions m, w_sess w)
    end in
  let w := set_sess (set_mgr w (set_index m (<[s_ID sess := p_session p]> ss)
                                  (<[userID := s_ID sess]> (delete userID (m_byUser m))))) heap in
  let i := p_info p in
  (Ok (mkInfo (i_ID i) (i_UserID i) (i_Encrypted i) (i_MasterKey i) (i_ExpiresAt i) replaced,
       match removed with Some ol => Some (DrainSession ol) | None => missingExpectedDrain end,
       CleanupRevocation (mkWork removed RevocationReplaced (m_onRevoke m) replaced)), w).

Definition activatePreparedStaged (w : World) (prepared : option loc) (expectedOldID : option SessionID)
    (allowMissingExpected : bool) (now : Z)
  : result (SessionInfo * option Drain * Cleanup) ProtoError * World :=
  match prepared with
  | None => (Err ErrSessionPrecondition, w)
  | Some pl =>
    match w_prep w !! pl with
    | None => (Err ErrSessionPrecondition, w)
    | Some p =>
      match w_sess w !! p_session p with
      | None => (Err ErrSessionPrecondition, w)
      | Some sess =>
        let m := w_mgr w in
        if negb (p_owner p =? m_self m)%nat then (Err ErrSessionPrecondition, w)
        else if p_used p then (Err ErrSessionPrecondition, w)
        else
          let userID := s_UserID sess in
          let nowMS := unix_milli now in
          let current := m_byUser m !! userID in
          let proceed (_ : unit) :=
            let missing :=
              match expectedOldID, current with
              | Some expected, None =>
                  if allowMissingExpected then pendingExpiryDrainLocked w expected else None
              | _, _ => None
              end in
            if expiredLocked sess nowMS then (Err ErrSessionExpired, w)
            else activate_commit w pl p sess nowMS missing in
          match expectedOldID, current with
          | None, _ => proceed tt
          | Some expected, None =>
              if allowMissingExpected then proceed tt else (Err ErrSessionPrecondition, w)
          | Some expected, Some currentID =>
              if decide (currentID = expected) then
                match m_sessions m !! currentID with
                | None => (Err ErrSessionPrecondition, w)
                | Some ol =>
                    match w_sess w !! ol with
                    | None => (Err ErrSessionPrecondition, w)
                    | Some old =>
                        if expiredLocked old nowMS then
                          let w1 := modify w ol deactivateLocked in
                          let w2 := set_mgr w1 (set_index m (delete currentID (m_sessions m))
                                                  (delete userID (m_byUser m))) in
                          let '(drain, w3) := newExpiryDrainLocked w2 currentID ol in
                          (Err ErrSessionExpired, notify_expiry w3 userID currentID drain)
                        else proceed tt
                    end
                end
              else (Err ErrSessionPrecondition, w)
          end
      end
    end
  end.

Definition ActivatePreparedStaged (w : World) prepared expectedOldID now :=
  activatePreparedStaged w prepared expectedOldID false now.
Definition ActivatePreparedStagedAfterNaturalExpiry (w : World) prepared expectedOldID now :=
  activatePreparedStaged w prepared expectedOldID true now.

Definition ActivatePrepared (w : World) (prepared : option loc) (expectedOldID : option SessionID) (now : Z)
  : result SessionInfo ProtoError * World :=
  match ActivatePreparedStaged w prepared expectedOldID now with
  | (Err e, w) => (Err e, w)
  | (Ok (info, drain, cleanup), w) =>
      let w := match drain with Some d => run_drain w d | None => w end in
      (Ok info, run_cleanup w cleanup)
  end.

(** [PreparedSession.Info]; the zero value for a nil receiver. *)
Definition Info (w : World) (prepared : option loc) : SessionInfo :=
  match prepared ≫= fun pl => w_prep w !! pl with
  | Some p => p_info p
  | None => mkInfo zero_id 0 false [] 0 false
  end.

(** ** Lookup and lazy expiry *)

(** A method that finds [id] expired deactivates the session, removes it from
    both indexes, creates its send barrier and, after unlocking, runs the
    installed expiry callback. *)
Definition expire_entry (w : World) (id : SessionID) (l : loc) (userID : Z) : Drain * World :=
  let '(drain, w') := newExpiryDrainLocked (deleteLocked (modify w l deactivateLocked) id userID) id l in
  (drain, notify_expiry w' userID id drain).

Definition getSessionStaged (w : World) (id : SessionID) (now : Z) : option loc * option Drain * World :=
  match m_sessions (w_mgr w) !! id with
  | None => (None, pendingExpiryDrainLocked w id, w)
  | Some l =>
      match w_sess w !! l with
      | None => (None, None, w)
      | Some sess =>
          if expiredLocked sess (unix_milli now) then
            let '(drain, w') := expire_entry w id l (s_UserID sess) in (None, Some drain, w')
          else (Some l, None, w)
      end
  end.

Definition getSession (w : World) (id : SessionID) (now : Z) : option loc * World :=
  let '(sess, _, w') := getSessionStaged w id now in (sess, w').

(** The second critical section of [Get] and [GetStaged], on [Session.mu] alone. *)
Definition live_snapshot (w : World) (l : loc) : option SessionSnapshot :=
  match w_sess w !! l with
  | Some sess => if negb (s_active sess) then None else Some (snapshot_of sess)
  | None => None
  end.

(** [env] is what other goroutines do between [getSessionStaged], which
    releases [Manager.mu], and the locking of [Session.mu]. *)
Definition Get (w : World) (id : SessionID) (now : Z) (env : World -> World)
  : option SessionSnapshot * World :=
  let '(sess, _, w1) := getSessionStaged w id now in
  match sess with
  | None => (None, w1)
  | Some l => let w2 := env w1 in (live_snapshot w2 l, w2)
  end.

Definition GetStaged (w : World) (id : SessionID) (now : Z) (env : World -> World)
  : option SessionSnapshot * option Drain * World :=
  let '(sess, drain, w1) := getSessionStaged w id now in
  match sess with
  | None => (None, drain, w1)
  | Some l => let w2 := env w1 in (live_snapshot w2 l, None, w2)
  end.

Definition SessionIDByUser (w : World) (userID : Z) (now : Z) : option SessionID * World :=
  let m := w_mgr w in
  match m_byUser m !! userID with
  | None => (None, w)
  | Some id =>
      match m_sessions m !! id with
      | None => (None, set_mgr w (set_index m (m_sessions m) (delete userID (m_byUser m))))
      | Some l =>
          match w_sess w !! l with
          | None => (None, w)
          | Some sess =>
              if expiredLocked sess (unix_milli now)
              then (None, (expire_entry w id l (s_UserID sess)).2)
              else (Some id, w)
          end
      end
  end.

(** ** Explicit removal *)

(** The result is the number of table entries removed. *)
Definition InvalidateUser (w : World) (userID : Z) (now : Z) : Z * World :=
  let m := w_mgr w in
  match m_byUser m !! userID with
  | None => (0, w)
  | Some id =>
      match m_sessions m !! id with
      | None => (0, set_mgr w (set_index m (m_sessions m) (delete userID (m_byUser m))))
      | Some l =>
          match w_sess w !! l with
          | None => (0, w)
          | Some sess =>
              let active := negb (expiredLocked sess (unix_milli now)) in
              let w1 := set_mgr (modify w l deactivateLocked)
                          (set_index m (delete id (m_sessions m)) (delete userID (m_byUser m))) in
              (1, runRevocation w1 (mkWork (Some l) RevocationRevoked (m_onRevoke m) active))
          end
      end
  end.

(** The drain is returned beside the error, which [None] stands for nil. *)
Definition DeleteStaged (w : World) (id : SessionID) (userID : Z) (now : Z)
  : option Drain * option ProtoError * World :=
  match m_sessions (w_mgr w) !! id with
  | None => (pendingExpiryDrainLocked w id, Some ErrSessionNotFound, w)
  | Some l =>
      match w_sess w !! l with
      | None => (None, Some ErrSessionNotFound, w)
      | Some sess =>
          if negb (s_UserID sess =? userID) then (None, Some ErrSessionNotOwned, w)
          else
            let expired := expiredLocked sess (unix_milli now) in
            let w1 := deleteLocked (modify w l deactivateLocked) id userID in
            (Some (DrainSession l), if expired then Some ErrSessionNotFound else None, w1)
      end
  end.

Definition Delete (w : World) (id : SessionID) (userID : Z) (now : Z) : option ProtoError * World :=
  let '(drain, err, w1) := DeleteStaged w id userID now in
  (err, match drain with Some d => run_drain w1 d | None => w1 end).

(** [revokeStaged]'s session, whether it was unexpired, and its handler. *)
Definition revokeStaged (w : World) (id : SessionID) (userID : Z) (now : Z)
  : result (loc * bool * bool) ProtoError * World :=
  match m_sessions (w_mgr w) !! id with
  | None => (Err ErrSessionNotFound, w)
  | Some l =>
      match w_sess w !! l with
      | None => (Err ErrSessionNotFound, w)
      | Some sess =>
          if negb (s_UserID sess =? userID) then (Err ErrSessionNotOwned, w)
          else
            let active := negb (expiredLocked sess (unix_milli now)) in
            let w1 := deleteLocked (modify w l deactivateLocked) id userID in
            (Ok (l, active, m_onRevoke (w_mgr w1)), w1)
      end
  end.

Definition revocationCleanup (l : loc) (active handler : bool) : Cleanup :=
  CleanupRevocation (mkWork (Some l) RevocationRevoked handler active).

Definition RevokeStaged (w : World) (id : SessionID) (userID : Z) (now : Z)
  : option Cleanup * option ProtoError * World :=
  match revokeStaged w id userID now with
  | (Err ErrSessionNotFound, w1) =>
      (CleanupDrain <$> pendingExpiryDrain w1 id, Some ErrSessionNotFound, w1)
  | (Err e, w1) => (None, Some e, w1)
  | (Ok (l, active, handler), w1) =>
      (Some (revocationCleanup l active handler), if negb active then Some ErrSessionNotFound else None, w1)
  end.

Definition RevokeStagedForPublication (w : World) (id : SessionID) (userID : Z) (now : Z)
  : option Drain * option Cleanup * option ProtoError * World :=
  match revokeStaged w id userID now with
  | (Err ErrSessionNotFound, w1) => (pendingExpiryDrain w1 id, None, Some ErrSessionNotFound, w1)
  | (Err e, w1) => (None, None, Some e, w1)
  | (Ok (l, active, handler), w1) =>
      (Some (DrainSession l), Some (revocationCleanup l active handler),
       if negb active then Some ErrSessionNotFound else None, w1)
  end.

Definition Revoke (w : World) (id : SessionID) (userID : Z) (now : Z) : option ProtoError * World :=
  let '(cleanup, err, w1) := RevokeStaged w id userID now in
  (err, match cleanup with Some c => run_cleanup w1 c | None => w1 end).

(** ** Purge *)

(** One iteration of the table scan; [acc] collects the removed entries. *)
Definition purge_one (nowMS : Z) (st : World * list (SessionID * Z * Drain)) (id : SessionID)
  : World * list (SessionID * Z * Drain) :=
  let '(w, acc) := st in
  match m_sessions (w_mgr w) !! id with
  | None => (w, acc)
  | Some l =>
      match w_sess w !! l with
      | None => (w, acc)
      | Some sess =>
          if expiredLocked sess nowMS then
            let '(drain, w1) := newExpiryDrainLocked
              (deleteLocked (modify w l deactivateLocked) id (s_UserID sess)) id l in
            (w1, acc ++ [(id, s_UserID sess, drain)])
          else (w, acc)
      end
  end.

(** [order] is the order in which Go ranges over the table. *)
Definition Purge (w : World) (order : list SessionID) (now : Z) : Z * World :=
  let '(w1, expired) := fold_left (purge_one (unix_milli now)) order (w, []) in
  (Z.of_nat (length expired),
   fold_left (fun w '(id, userID, drain) => notify_expiry w userID id drain) expired w1).

Definition Len (w : World) : Z := Z.of_nat (size (m_sessions (w_mgr w))).

End Session.
