(* ===== verification/SessionInv.v ===== *)
(** * SessionInv: invariants of the session registry

    [wf gs w] is the representation invariant of a [Manager] and the sessions
    it has created; [gs] is the ghost list of the send sequences handed out by
    [reserveSendSeq].  Every method of [Session] preserves it.  [reachable]
    closes the initial world under all methods in any order, with any clock
    samples; the only assumption is that the 128-bit identifiers drawn from
    [crypto/rand] do not repeat. *)

From S2P Require Import Prelude Float64 TokenBucket Replay Packet Session.
From stdpp Require Import base gmap list strings fin_maps sorting.
From Stdlib Require Import ZArith Lia.
Import Packet Session.
#[local] Open Scope Z_scope.

Module SessionInv.

(** The sequence numbers of revocation notices handed to the handler. *)
Definition revoked_seq (e : Event) : option (SessionID * Z) :=
  match e with EvRevoked _ snap => Some (rv_ID snap, rv_SendSeq snap) | _ => None end.
Definition revoked_seqs (es : list Event) : list (SessionID * Z) := omap revoked_seq es.

Record session_ok (s : Session) : Prop := {
  so_seq : 0 <= s_sendSeq s <= max_u64;
  so_bucket : TokenBucket.bucket_ok (s_rxBudget s);
  so_replay : exists spec, Replay.refines (s_rxReplay s) spec;
  so_keys : s_encrypted s = true -> exists c k, s_c2sAEAD s = Some c /\ s_s2cAEAD s = Some k /\
    length c = masterKeySize /\ length k = masterKeySize;
  so_user : 0 < s_UserID s;
  so_id : length (s_ID s) = 16%nat
}.

Record wf (gs : list (SessionID * Z)) (w : World) : Prop := {
  wf_limits : 0 < l_SessionPacketsPerSec (m_limits (w_mgr w)) /\ 0 < l_SessionBurst (m_limits (w_mgr w));
  wf_table : forall id l, m_sessions (w_mgr w) !! id = Some l ->
    exists s, w_sess w !! l = Some s /\ s_ID s = id /\ s_active s = true /\
              m_byUser (w_mgr w) !! s_UserID s = Some id;
  wf_user : forall u id, m_byUser (w_mgr w) !! u = Some id ->
    exists l s, m_sessions (w_mgr w) !! id = Some l /\ w_sess w !! l = Some s /\ s_UserID s = u;
  wf_prep : forall pl p, w_prep w !! pl = Some p ->
    exists s, w_sess w !! p_session p = Some s /\ i_ID (p_info p) = s_ID s /\
      i_UserID (p_info p) = s_UserID s /\
      (p_used p = false -> s_active s = true /\ m_sessions (w_mgr w) !! s_ID s = None);
  wf_prep_inj : forall pl1 pl2 p1 p2, w_prep w !! pl1 = Some p1 -> w_prep w !! pl2 = Some p2 ->
    p_session p1 = p_session p2 -> pl1 = pl2;
  wf_ids : forall l1 l2 s1 s2, w_sess w !! l1 = Some s1 -> w_sess w !! l2 = Some s2 ->
    s_ID s1 = s_ID s2 -> l1 = l2;
  wf_next : forall l, (is_Some (w_sess w !! l) \/ is_Some (w_prep w !! l) \/ is_Some (w_bar w !! l)) ->
    (l < w_next w)%nat;
  wf_sess : forall l s, w_sess w !! l = Some s -> session_ok s;
  wf_live : forall l s, w_sess w !! l = Some s -> s_active s = true ->
    m_sessions (w_mgr w) !! s_ID s = Some l \/
    exists pl p, w_prep w !! pl = Some p /\ p_used p = false /\ p_session p = l;
  wf_bar : forall id b, m_expiryBarriers (w_mgr w) !! id = Some b ->
    exists bar s, w_bar w !! b = Some bar /\ eb_id bar = id /\ eb_once bar = false /\
      w_sess w !! eb_session bar = Some s /\ s_ID s = id /\ s_active s = false;
  wf_issued : NoDup (gs ++ revoked_seqs (w_events w));
  wf_issued_le : forall id q, (id, q) ∈ gs ++ revoked_seqs (w_events w) ->
    exists l s, w_sess w !! l = Some s /\ s_ID s = id /\ 0 < q <= s_sendSeq s
}.

(** ** Primitive transitions *)

Lemma lookup_modify w l f l' :
  w_sess (modify w l f) !! l' = if decide (l = l') then f <$> w_sess w !! l else w_sess w !! l'.
Proof.
  simpl. case_decide as E; [subst; by rewrite lookup_alter_eq|by rewrite lookup_alter_ne].
Qed.

(** A session changes without changing its identity or its liveness. *)
Record same_role (s s' : Session) : Prop := {
  sr_id : s_ID s' = s_ID s;
  sr_user : s_UserID s' = s_UserID s;
  sr_active : s_active s' = s_active s;
  sr_seq : s_sendSeq s <= s_sendSeq s'
}.

Lemma cloneUDPAddr_id a : cloneUDPAddr a = a.
Proof. by destruct a as [[]|]. Qed.

Lemma same_role_refl s : same_role s s.
Proof. by split. Qed.

Section Primitives.
Context (gs : list (SessionID * Z)).

Lemma modify_heap w l s s' l' t :
  w_sess w !! l = Some s -> w_sess w !! l' = Some t -> same_role s s' ->
  exists t', w_sess (modify w l (fun _ => s')) !! l' = Some t' /\ same_role t t'.
Proof using Type.
  intros Hl Hl' Hr. rewrite lookup_modify. case_decide; simplify_eq.
  - rewrite Hl. eauto.
  - exists t. split; [done|]. by split.
Qed.

Lemma modify_heap_inv w l s s' l' t' :
  w_sess w !! l = Some s -> w_sess (modify w l (fun _ => s')) !! l' = Some t' -> same_role s s' ->
  exists t, w_sess w !! l' = Some t /\ same_role t t'.
Proof using Type.
  intros Hl Hl' Hr. rewrite lookup_modify in Hl'. case_decide; simplify_eq.
  - rewrite Hl in Hl'. simplify_eq/=. eauto.
  - exists t'. split; [done|]. by split.
Qed.

Lemma wf_modify w l s s' : wf gs w -> w_sess w !! l = Some s -> same_role s s' -> session_ok s' ->
  wf gs (modify w l (fun _ => s')).
Proof using Type.
  intros [Hlim Ht Hu Hp Hpi Hi Hn Hs Hv Hb Hd Hq] Hl Hr Hok.
  pose proof (fun l' t H => modify_heap w l s s' l' t Hl H Hr) as Hf.
  pose proof (fun l' t H => modify_heap_inv w l s s' l' t Hl H Hr) as Hg.
  split; try done.
  - intros id l' Hid. destruct (Ht _ _ Hid) as (t & H1 & H2 & H3 & H4).
    destruct (Hf _ _ H1) as (t' & H5 & []). exists t'. simpl in *. by rewrite sr_id0, sr_active0, sr_user0.
  - intros u id Hid. destruct (Hu _ _ Hid) as (l' & t & H1 & H2 & H3).
    destruct (Hf _ _ H2) as (t' & H5 & []). exists l', t'. by rewrite sr_user0.
  - intros pl p Hpl. destruct (Hp _ _ Hpl) as (t & H1 & H2 & H3 & H4).
    destruct (Hf _ _ H1) as (t' & H5 & []). exists t'. simpl in *.
    by rewrite sr_id0, sr_active0, sr_user0.
  - intros l1 l2 s1 s2 H1 H2 He. destruct (Hg _ _ H1) as (t1 & ? & []), (Hg _ _ H2) as (t2 & ? & []).
    apply (Hi l1 l2 t1 t2); congruence.
  - intros l' H. apply Hn. destruct H as [[t H]|H]; [|by right]. left.
    destruct (Hg _ _ H) as (? & ? & ?). eauto.
  - intros l' t H. rewrite lookup_modify in H. case_decide; simplify_eq; [|eauto].
    rewrite Hl in H. by simplify_eq/=.
  - intros l' t H Ha. destruct (Hg _ _ H) as (t0 & H0 & []). rewrite sr_id0. apply Hv; [done|congruence].
  - intros id b H. destruct (Hb _ _ H) as (bar & t & ? & ? & ? & H1 & ? & ?).
    destruct (Hf _ _ H1) as (t' & Ht' & []). exists bar, t'. split_and!; done || congruence.
  - intros id q H. destruct (Hq _ _ H) as (l' & t & H1 & H2 & H3).
    destruct (Hf _ _ H1) as (t' & H5 & []). exists l', t'. split_and!; [done|congruence|lia..].
Qed.

(** Retire the table entry [id] of the session at [l]. *)
Definition retire (w : World) (id : SessionID) (l : loc) (u : Z) : World :=
  set_mgr (modify w l deactivateLocked)
    (set_index (w_mgr w) (delete id (m_sessions (w_mgr w))) (delete u (m_byUser (w_mgr w)))).

Lemma retire_heap w id l u l' t :
  w_sess (retire w id l u) !! l' = Some t ->
  exists t0, w_sess w !! l' = Some t0 /\ t = (if decide (l = l') then deactivateLocked t0 else t0).
Proof using Type.
  change (w_sess (retire w id l u)) with (w_sess (modify w l deactivateLocked)).
  rewrite lookup_modify. case_decide; [|eauto]. subst.
  destruct (w_sess w !! l') eqn:E; [|done]. intros [= <-]. eauto.
Qed.

Lemma retire_heap_fwd w id l u l' t : w_sess w !! l' = Some t ->
  w_sess (retire w id l u) !! l' = Some (if decide (l = l') then deactivateLocked t else t).
Proof using Type.
  intros H. change (w_sess (retire w id l u)) with (w_sess (modify w l deactivateLocked)).
  rewrite lookup_modify. case_decide; subst; by rewrite H.
Qed.

Lemma wf_retire w id l s : wf gs w -> m_sessions (w_mgr w) !! id = Some l -> w_sess w !! l = Some s ->
  wf gs (retire w id l (s_UserID s)).
Proof using Type.
  intros [Hlim Ht Hu Hp Hpi Hi Hn Hs Hv Hb Hd Hq] Hid Hl.
  destruct (Ht _ _ Hid) as (s0 & ? & HID & Hact & Hby). simplify_eq.
  split; try done.
  - intros id' l' H. simpl in H. apply lookup_delete_Some in H as [Hne H].
    destruct (Ht _ _ H) as (t & H1 & H2 & H3 & H4).
    exists t. rewrite (retire_heap_fwd w (s_ID s) l (s_UserID s) l' t H1). rewrite decide_False by (intros ->; congruence).
    split_and!; try done. simpl. rewrite lookup_delete_ne; [done|]. congruence.
  - intros u id' H. simpl in H. apply lookup_delete_Some in H as [Hne H].
    destruct (Hu _ _ H) as (l' & t & H1 & H2 & H3).
    exists l', t. rewrite (retire_heap_fwd w (s_ID s) l (s_UserID s) l' t H2).
    rewrite decide_False by (intros ->; congruence).
    split_and!; try done. simpl. rewrite lookup_delete_ne; [done|].
    intros <-. congruence.
  - intros pl p H. destruct (Hp _ _ H) as (t & H1 & H2 & H3 & H4).
    exists (if decide (l = p_session p) then deactivateLocked t else t).
    rewrite (retire_heap_fwd w (s_ID s) l (s_UserID s) _ t H1). split_and!; [done|by case_decide..|].
    intros Hused. destruct (H4 Hused) as [H5 H6]. rewrite decide_False by (intros ->; congruence).
    split; [done|]. simpl. rewrite lookup_delete_None. by right.
  - intros l1 l2 s1 s2 H1 H2 He.
    apply retire_heap in H1 as (t1 & ? & ->), H2 as (t2 & ? & ->).
    apply (Hi l1 l2 t1 t2); [done..|]. by repeat case_decide.
  - intros l' H. apply Hn. destruct H as [[t H]|H]; [|by right]. left.
    apply retire_heap in H as (t0 & ? & ->). eauto.
  - intros l' t H. apply retire_heap in H as (t0 & H & ->). apply Hs in H. by case_decide; [destruct H|].
  - intros l' t H Ha. apply retire_heap in H as (t0 & H & ->). case_decide as Hd'; [done|].
    destruct (Hv _ _ H Ha) as [Hin|Hpr]; [left|by right]. simpl.
    rewrite lookup_delete_ne; [done|]. intros E. rewrite <-E in Hin. congruence.
  - intros id' b H. destruct (Hb _ _ H) as (bar & t & ? & ? & ? & H1 & ? & ?).
    exists bar, (if decide (l = eb_session bar) then deactivateLocked t else t).
    rewrite (retire_heap_fwd w (s_ID s) l (s_UserID s) _ t H1). split_and!; try done; by case_decide.
  - intros id' q H. destruct (Hq _ _ H) as (l' & t & H1 & H2 & H3).
    exists l', (if decide (l = l') then deactivateLocked t else t).
    rewrite (retire_heap_fwd w (s_ID s) l (s_UserID s) _ t H1). case_decide; split_and!; simpl; done || lia.
Qed.

Lemma deleteLocked_retire w id l s : wf gs w -> m_sessions (w_mgr w) !! id = Some l ->
  w_sess w !! l = Some s ->
  deleteLocked (modify w l deactivateLocked) id (s_UserID s) = retire w id l (s_UserID s).
Proof using Type.
  intros Hwf Hid Hl. destruct (wf_table _ _ Hwf _ _ Hid) as (s0 & ? & ? & ? & Hby). simplify_eq.
  unfold deleteLocked, retire. simpl. rewrite Hby. by rewrite decide_True.
Qed.

Lemma retired_session w id l s : w_sess w !! l = Some s ->
  w_sess (retire w id l (s_UserID s)) !! l = Some (deactivateLocked s).
Proof using Type. intros H. by rewrite (retire_heap_fwd _ _ _ _ _ _ H), decide_True. Qed.

(** Retain the send barrier of an inactive session. *)
Lemma wf_newExpiryDrain w id l s : wf gs w -> w_sess w !! l = Some s -> s_ID s = id ->
  s_active s = false -> wf gs (newExpiryDrainLocked w id l).2.
Proof using Type.
  intros Hwf Hl Hid Ha. unfold newExpiryDrainLocked. destruct (m_onExpireBarrier _); [|done]. simpl.
  destruct Hwf as [Hlim Ht Hu Hp Hpi Hi Hn Hs Hv Hb Hd Hq]. split; try done; simpl.
  - intros l' H. destruct (decide (l' = w_next w)) as [->|Hne]; [lia|].
    rewrite lookup_insert_ne in H by done. specialize (Hn _ H). lia.
  - intros id' b H. apply lookup_insert_Some in H as [[<- <-]|[Hne H]].
    + eexists _, s. rewrite lookup_insert_eq. split_and!; eauto.
    + destruct (Hb _ _ H) as (bar & t & H1 & ?). exists bar, t. rewrite lookup_insert_ne; [done|].
      intros <-. assert (w_next w < w_next w)%nat; [|lia]. apply Hn. right; right; eauto.
Qed.

(** Callbacks other than revocation notices touch nothing. *)
Lemma wf_emit w e : wf gs w -> revoked_seq e = None -> wf gs (emit w e).
Proof using Type.
  intros [] He. split; try done; unfold emit, revoked_seqs in *; simpl.
  all: rewrite omap_app; simpl; by rewrite He, app_nil_r.
Qed.

Lemma wf_notify_expiry w u id d : wf gs w -> wf gs (notify_expiry w u id d).
Proof using Type. intros. unfold notify_expiry. repeat case_match; [by apply wf_emit..|done]. Qed.

Lemma wf_set_handlers w r e b : wf gs w -> wf gs (set_mgr w (set_handlers (w_mgr w) r e b)).
Proof using Type. intros []. by split. Qed.

Lemma wf_clearExpiryBarrier w id b : wf gs w -> wf gs (clearExpiryBarrier w id b).
Proof using Type.
  intros Hwf. unfold clearExpiryBarrier. repeat case_match; [|done..].
  destruct Hwf as [Hlim Ht Hu Hp Hpi Hi Hn Hs Hv Hb Hd Hq]. split; try done; simpl.
  intros id' b' [_ H']%lookup_delete_Some. by apply Hb.
Qed.

Lemma wf_barrier_drain w b : wf gs w -> wf gs (barrier_drain w b).
Proof using Type.
  intros Hwf. unfold barrier_drain. destruct (w_bar w !! b) as [bar|] eqn:Eb; [|done].
  destruct (eb_once bar) eqn:Eo; [done|].
  destruct Hwf as [Hlim Ht Hu Hp Hpi Hi Hn Hs Hv Hb Hd Hq]. unfold clearExpiryBarrier. simpl.
  assert (Hother : forall id b', m_expiryBarriers (w_mgr w) !! id = Some b' -> b' = b -> id = eb_id bar).
  { intros id b' H ->. destruct (Hb _ _ H) as (bar' & ? & ? & ? & ?). congruence. }
  assert (Hn' : forall l, is_Some (w_sess w !! l) \/ is_Some (w_prep w !! l) \/
    is_Some (<[b:=mkBarrier (eb_id bar) (eb_session bar) true]> (w_bar w) !! l) -> (l < w_next w)%nat).
  { intros l H. apply Hn. destruct H as [?|[?|H]]; [by left|by right; left|right; right].
    destruct (decide (b = l)) as [->|]; [eauto|]. by rewrite lookup_insert_ne in H. }
  assert (Hkeep : forall id b', m_expiryBarriers (w_mgr w) !! id = Some b' -> b' <> b ->
    exists bar' s, <[b:=mkBarrier (eb_id bar) (eb_session bar) true]> (w_bar w) !! b' = Some bar' /\
      eb_id bar' = id /\ eb_once bar' = false /\ w_sess w !! eb_session bar' = Some s /\
      s_ID s = id /\ s_active s = false).
  { intros id b' H Hne. rewrite lookup_insert_ne by done. eauto. }
  destruct (m_expiryBarriers (w_mgr w) !! eb_id bar) as [cur|] eqn:Ec; [case_decide|].
  - subst cur. split; try done; simpl. intros id b' [Hne H]%lookup_delete_Some. apply Hkeep; [done|].
    intros ->. by apply Hne, eq_sym, (Hother _ b).
  - split; try done; simpl. intros id b' H'. apply Hkeep; [done|]. intros E.
    rewrite (Hother _ _ H' E) in H'. congruence.
  - split; try done; simpl. intros id b' H'. apply Hkeep; [done|]. intros E.
    rewrite (Hother _ _ H' E) in H'. congruence.
Qed.

Lemma wf_run_drain w d : wf gs w -> wf gs (run_drain w d).
Proof using Type. destruct d; [done|apply wf_barrier_drain]. Qed.

(** A revocation notice takes the next send sequence of its session. *)
Lemma wf_runRevocation w work : wf gs w -> wf gs (runRevocation w work).
Proof using Type.
  intros Hwf. unfold runRevocation. destruct (rw_session work) as [l|]; [|done].
  destruct (w_sess w !! l) as [s|] eqn:El; [|done].
  destruct (_ && _ && _ && _) eqn:Ec; [|done].
  apply andb_true_iff in Ec as [_ Hlt]. apply Z.ltb_lt in Hlt.
  pose proof (wf_sess _ _ Hwf _ _ El) as Hok.
  unfold newRevokedSnapshotLocked. rewrite (proj2 (Z.ltb_lt _ _) Hlt). simpl.
  set (s' := with_sendSeq s (s_sendSeq s + 1)).
  assert (Hm : wf gs (modify w l (fun _ => s'))).
  { apply (wf_modify w l s); [done..|split; simpl; [done..|lia]|].
    destruct Hok. split; simpl; done || lia. }
  assert (Hnew : (s_ID s, s_sendSeq s + 1) ∉ gs ++ revoked_seqs (w_events w)).
  { intros Hin. destruct (wf_issued_le _ _ Hwf _ _ Hin) as (l' & t & H1 & H2 & H3).
    assert (l' = l) as -> by (eapply (wf_ids _ _ Hwf); eauto). simplify_eq. lia. }
  destruct Hm as [Hlim Ht Hu Hp Hpi Hi Hn Hs Hv Hb Hd Hq]. simpl in *.
  split; try done; simpl; unfold revoked_seqs in *; rewrite omap_app; simpl; rewrite app_assoc.
  - apply NoDup_app. split_and!; [done| |apply NoDup_singleton].
    intros x Hx Hx'. apply list_elem_of_singleton in Hx' as ->. done.
  - intros id q [H|H%list_elem_of_singleton]%elem_of_app; [by apply Hq|]. simplify_eq.
    exists l, s'. rewrite lookup_alter_eq, El. simpl. destruct Hok. split_and!; try done; lia.
Qed.

Lemma wf_run_cleanup w c : wf gs w -> wf gs (run_cleanup w c).
Proof using Type. destruct c; [apply wf_run_drain|apply wf_runRevocation]. Qed.

(** ** Preparation and activation *)

(** A drawn [[16]byte] that no session has. *)
Definition fresh_id (w : World) (id : SessionID) : Prop :=
  length id = 16%nat /\ forall l s, w_sess w !! l = Some s -> s_ID s <> id.

Lemma prepare_keys_Ok hkdf enc id key mk c s : prepare_keys hkdf enc id key = Ok (mk, c, s) ->
  enc = true -> exists c' s', c = Some c' /\ s = Some s' /\
    length c' = masterKeySize /\ length s' = masterKeySize.
Proof using Type.
  unfold prepare_keys. intros H ->.
  apply rbind_Ok in H as (mk' & _ & H). apply rbind_Ok in H as (ks & _ & H).
  apply rbind_Ok in H as (k1 & H1%newGCM_Ok & H). apply rbind_Ok in H as (k2 & H2%newGCM_Ok & H).
  destruct H1 as [-> H1], H2 as [-> H2]. simplify_eq. eauto 7.
Qed.

Lemma newSession_ok id u dev enc now c k lim clock : 0 < u -> 0 < l_SessionPacketsPerSec lim ->
  0 < l_SessionBurst lim -> length id = 16%nat ->
  (enc = true -> exists c' s', c = Some c' /\ k = Some s' /\
    length c' = masterKeySize /\ length s' = masterKeySize) ->
  session_ok (newSession id u dev enc now c k lim clock).
Proof using Type.
  intros. split; unfold newSession; cbn [s_sendSeq s_rxBudget s_rxReplay s_encrypted s_c2sAEAD s_s2cAEAD s_UserID s_ID].
  - unfold max_u64. lia.
  - apply TokenBucket.NewTokenBucket_ok; [apply Float64.of_int_nonneg|]; lia.
  - eexists. apply Replay.empty_refines.
  - done.
  - done.
  - done.
Qed.

(** Allocate a session and its prepared handle. *)
Definition allocate (w : World) (sess : Session) (info : SessionInfo) : World :=
  mkWorld (w_mgr w) (<[w_next w := sess]> (w_sess w))
    (<[S (w_next w) := mkPrepared (m_self (w_mgr w)) (w_next w) info false]> (w_prep w))
    (w_bar w) (S (S (w_next w))) (w_events w).

Lemma wf_allocate w sess info : wf gs w -> session_ok sess -> s_active sess = true ->
  fresh_id w (s_ID sess) -> i_ID info = s_ID sess -> i_UserID info = s_UserID sess ->
  wf gs (allocate w sess info).
Proof using Type.
  intros [Hlim Ht Hu Hp Hpi Hi Hn Hs Hv Hb Hd Hq] Hok Ha Hf HI HU.
  assert (Hold : forall l s, w_sess w !! l = Some s -> <[w_next w := sess]> (w_sess w) !! l = Some s).
  { intros l s H. rewrite lookup_insert_ne; [done|]. specialize (Hn l ltac:(eauto)). lia. }
  assert (Hpold : forall l p, w_prep w !! l = Some p ->
    (l < w_next w)%nat /\ w_sess w !! p_session p <> None).
  { intros l p H. split; [apply Hn; eauto|]. destruct (Hp _ _ H) as (? & -> & _). done. }
  split; unfold allocate; cbn [w_mgr w_sess w_prep w_bar w_next w_events]; try done.
  - intros id l H. destruct (Ht _ _ H) as (s & ? & ?). exists s. auto.
  - intros u id H. destruct (Hu _ _ H) as (l & s & ? & ? & ?). exists l, s. auto.
  - intros pl p H. apply lookup_insert_Some in H as [[<- <-]|[Hne H]].
    + exists sess. cbn. rewrite lookup_insert_eq. split_and!; try done. intros _. split; [done|].
      destruct (m_sessions (w_mgr w) !! s_ID sess) as [l|] eqn:E; [|done].
      destruct (Ht _ _ E) as (s & H1 & H2 & _). by destruct (proj2 Hf _ _ H1).
    + destruct (Hp _ _ H) as (s & ? & ?). exists s. auto.
  - intros pl1 pl2 p1 p2 H1 H2 He.
    apply lookup_insert_Some in H1 as [[<- <-]|[Hne1 H1]]; apply lookup_insert_Some in H2 as [[<- <-]|[Hne2 H2]]; try done.
    + cbn in He. destruct (Hp _ _ H2) as (s & H & _). specialize (Hn _ (or_introl (mk_is_Some _ _ H))). lia.
    + cbn in He. destruct (Hp _ _ H1) as (s & H & _). specialize (Hn _ (or_introl (mk_is_Some _ _ H))). lia.
    + eauto.
  - intros l1 l2 s1 s2 H1 H2 He.
    apply lookup_insert_Some in H1 as [[<- <-]|[Hne1 H1]]; apply lookup_insert_Some in H2 as [[<- <-]|[Hne2 H2]]; try done.
    + by destruct (proj2 Hf _ _ H2).
    + by destruct (proj2 Hf _ _ H1).
    + eauto.
  - intros l H. destruct (decide (l = w_next w)); [lia|]. destruct (decide (l = S (w_next w))); [lia|].
    rewrite !lookup_insert_ne in H by done. specialize (Hn _ H). lia.
  - intros l s H. apply lookup_insert_Some in H as [[<- <-]|[Hne H]]; eauto.
  - intros l s H Hact. apply lookup_insert_Some in H as [[<- <-]|[Hne H]].
    + right. eexists _, _. rewrite lookup_insert_eq. split_and!; done.
    + destruct (Hv _ _ H Hact) as [?|(pl & p & H1 & ? & ?)]; [by left|right].
      exists pl, p. rewrite lookup_insert_ne; [done|]. specialize (Hpold _ _ H1). lia.
  - intros id b H. destruct (Hb _ _ H) as (bar & s & ? & ? & ? & ? & ?). exists bar, s. split_and!; auto; tauto.
  - intros id q H. destruct (Hq _ _ H) as (l & s & ? & ?). exists l, s. auto.
Qed.

Lemma wf_Prepare hkdf w u dev enc did dkey now clock : wf gs w ->
  (forall id, did = Some id -> fresh_id w id) ->
  wf gs (Prepare hkdf w u dev enc did dkey now clock).2.
Proof using Type.
  intros Hwf Hf. unfold Prepare. destruct (Z.leb_spec u 0); [done|].
  destruct did as [id|]; [|done]. unfold randomSessionID.
  destruct (prepare_keys hkdf enc id dkey) as [[[mk c] k]|e] eqn:Ek; [|done]. cbn [snd].
  apply wf_allocate; try done; [|by apply Hf].
  destruct (wf_limits _ _ Hwf). apply newSession_ok; try done; [by apply Hf|eauto using prepare_keys_Ok].
Qed.

(** Publish the session of an unused prepared handle. *)
Definition install (w : World) (pl : loc) (p : PreparedSession) (sess : Session) : World :=
  mkWorld (set_index (w_mgr w) (<[s_ID sess := p_session p]> (m_sessions (w_mgr w)))
             (<[s_UserID sess := s_ID sess]> (m_byUser (w_mgr w))))
    (w_sess w) (<[pl := mkPrepared (p_owner p) (p_session p) (p_info p) true]> (w_prep w))
    (w_bar w) (w_next w) (w_events w).

Lemma wf_install w pl p sess : wf gs w -> w_prep w !! pl = Some p -> p_used p = false ->
  w_sess w !! p_session p = Some sess -> m_byUser (w_mgr w) !! s_UserID sess = None ->
  wf gs (install w pl p sess).
Proof using Type.
  intros [Hlim Ht Hu Hp Hpi Hi Hn Hs Hv Hb Hd Hq] Hpl Hused Hl Hby.
  destruct (Hp _ _ Hpl) as (s0 & ? & HI & HU & Hun). simplify_eq. destruct (Hun Hused) as [Hact Hno].
  split; unfold install; cbn [w_mgr w_sess w_prep w_bar w_next w_events set_index m_sessions m_byUser
    m_limits m_expiryBarriers]; try done.
  - intros id l H. apply lookup_insert_Some in H as [[<- <-]|[Hne H]].
    + exists sess. by rewrite lookup_insert_eq.
    + destruct (Ht _ _ H) as (s & ? & ? & ? & H4). exists s. rewrite lookup_insert_ne; [done|]. congruence.
  - intros u id H. apply lookup_insert_Some in H as [[<- <-]|[Hne H]].
    + exists (p_session p), sess. by rewrite lookup_insert_eq.
    + destruct (Hu _ _ H) as (l & s & ? & ? & ?). exists l, s. rewrite lookup_insert_ne; [done|]. congruence.
  - intros pl' p' H. apply lookup_insert_Some in H as [[<- <-]|[Hne H]].
    + exists sess. cbn. done.
    + destruct (Hp _ _ H) as (s & H1 & ? & ? & H4). exists s. split_and!; try done. intros Hu'.
      destruct (H4 Hu'). split; [done|]. rewrite lookup_insert_ne; [done|].
      intros E. apply Hne. eapply Hpi; [done..|]. eapply Hi; eauto.
  - intros pl1 pl2 p1 p2 H1 H2 He.
    apply lookup_insert_Some in H1 as [[<- <-]|[Hne1 H1]]; apply lookup_insert_Some in H2 as [[<- <-]|[Hne2 H2]]; eauto.
  - intros l H. apply Hn. destruct H as [?|[H|?]]; [by left|right; left|by right; right].
    destruct (decide (pl = l)) as [->|]; [eauto|]. by rewrite lookup_insert_ne in H.
  - intros l s H Ha. destruct (decide (l = p_session p)) as [->|Hne].
    + left. simplify_eq. by rewrite lookup_insert_eq.
    + destruct (Hv _ _ H Ha) as [Hin|(pl' & p' & H1 & ? & ?)].
      * left. rewrite lookup_insert_ne; [done|]. intros E. apply Hne. eapply Hi; eauto.
      * right. exists pl', p'. rewrite lookup_insert_ne; [done|]. intros <-. congruence.
Qed.

(** The world after the publication step: the user's current session, if any,
    is retired and the prepared one is installed. *)
Lemma activate_commit_world w pl p sess nowMS d : wf gs w ->
  (activate_commit w pl p sess nowMS d).2 =
  install (match m_byUser (w_mgr w) !! s_UserID sess with
           | Some oldID => match m_sessions (w_mgr w) !! oldID with
                           | Some ol => retire w oldID ol (s_UserID sess)
                           | None => w
                           end
           | None => w
           end) pl p sess.
Proof using Type.
  intros Hwf. unfold activate_commit, install.
  destruct (m_byUser (w_mgr w) !! s_UserID sess) as [oldID|] eqn:E.
  - destruct (wf_user _ _ Hwf _ _ E) as (ol & s & Hol & _). by rewrite Hol.
  - simpl. rewrite delete_id by done. by destruct w as [[]].
Qed.

Lemma wf_activate_commit w pl p sess nowMS d : wf gs w -> w_prep w !! pl = Some p ->
  p_used p = false -> w_sess w !! p_session p = Some sess ->
  wf gs (activate_commit w pl p sess nowMS d).2.
Proof using Type.
  intros Hwf Hpl Hu Hl. rewrite activate_commit_world by done.
  destruct (m_byUser (w_mgr w) !! s_UserID sess) as [oldID|] eqn:E; [|by apply wf_install].
  destruct (wf_user _ _ Hwf _ _ E) as (ol & s & Hol & Hs & Huid). rewrite Hol.
  apply wf_install; try done.
  - rewrite <-Huid. by apply wf_retire.
  - rewrite (retire_heap_fwd _ _ _ _ _ _ Hl). rewrite decide_False; [done|]. intros ->.
    destruct (wf_prep _ _ Hwf _ _ Hpl) as (? & ? & _ & _ & Hun). destruct (Hun Hu) as [_ Hno].
    destruct (wf_table _ _ Hwf _ _ Hol) as (? & ? & ? & _). simplify_eq; congruence.
  - simpl. apply lookup_delete_eq.
Qed.

(** ** Every method preserves the invariant *)

(** Lazy expiry of a table entry. *)
Lemma wf_expire w id l s : wf gs w -> m_sessions (w_mgr w) !! id = Some l -> w_sess w !! l = Some s ->
  wf gs (newExpiryDrainLocked (retire w id l (s_UserID s)) id l).2.
Proof using Type.
  intros Hwf Hid Hl. eapply wf_newExpiryDrain; [by apply wf_retire|by apply retired_session| |done].
  destruct (wf_table _ _ Hwf _ _ Hid) as (? & ? & ? & _). by simplify_eq.
Qed.

Lemma expire_entry_eq w id l s : wf gs w -> m_sessions (w_mgr w) !! id = Some l -> w_sess w !! l = Some s ->
  expire_entry w id l (s_UserID s) =
  let '(d, w') := newExpiryDrainLocked (retire w id l (s_UserID s)) id l in
  (d, notify_expiry w' (s_UserID s) id d).
Proof using Type. intros. unfold expire_entry. by rewrite deleteLocked_retire. Qed.

Lemma wf_expire_entry w id l s : wf gs w -> m_sessions (w_mgr w) !! id = Some l -> w_sess w !! l = Some s ->
  wf gs (expire_entry w id l (s_UserID s)).2.
Proof using Type.
  intros Hwf Hid Hl. rewrite expire_entry_eq by done. pose proof (wf_expire w id l s Hwf Hid Hl) as H.
  destruct (newExpiryDrainLocked _ id l). by apply wf_notify_expiry.
Qed.

Lemma wf_activatePreparedStaged w prepared expected allow now : wf gs w ->
  wf gs (activatePreparedStaged w prepared expected allow now).2.
Proof using Type.
  intros Hwf. unfold activatePreparedStaged.
  destruct prepared as [pl|]; [|done]. destruct (w_prep w !! pl) as [p|] eqn:Hpl; [|done].
  destruct (w_sess w !! p_session p) as [sess|] eqn:Hl; [|done].
  destruct (negb (p_owner p =? m_self (w_mgr w))%nat); [done|]. destruct (p_used p) eqn:Hu; [done|].
  assert (Hgo : forall d, wf gs (if expiredLocked sess (unix_milli now) then (Err ErrSessionExpired, w)
                      else activate_commit w pl p sess (unix_milli now) d).2).
  { intros d. destruct (expiredLocked sess _); [done|]. by apply wf_activate_commit. }
  destruct expected as [ex|]; [|apply Hgo].
  destruct (m_byUser (w_mgr w) !! s_UserID sess) as [cur|] eqn:Hby; [|destruct allow; [apply Hgo|done]].
  case_decide; [|done]. destruct (wf_user _ _ Hwf _ _ Hby) as (ol & s & Hol & Hs & Huid).
  rewrite Hol, Hs. destruct (expiredLocked s _); [|apply Hgo].
  pose proof (wf_expire w cur ol s Hwf Hol Hs) as Hexp. rewrite Huid in Hexp. unfold retire in Hexp.
  destruct (newExpiryDrainLocked _ cur ol) as [d w3]. by apply wf_notify_expiry.
Qed.

Lemma wf_ActivatePrepared w prepared expected now : wf gs w ->
  wf gs (ActivatePrepared w prepared expected now).2.
Proof using Type.
  intros Hwf. unfold ActivatePrepared, ActivatePreparedStaged.
  pose proof (wf_activatePreparedStaged w prepared expected false now Hwf) as H.
  destruct (activatePreparedStaged w prepared expected false now) as [[[[info d] c]|e] w']; [|done].
  apply wf_run_cleanup. destruct d; [by apply wf_run_drain|done].
Qed.

Lemma wf_getSessionStaged w id now : wf gs w -> wf gs (getSessionStaged w id now).2.
Proof using Type.
  intros Hwf. unfold getSessionStaged. destruct (m_sessions (w_mgr w) !! id) as [l|] eqn:Hid; [|done].
  destruct (w_sess w !! l) as [s|] eqn:Hl; [|done]. destruct (expiredLocked s _); [|done].
  pose proof (wf_expire_entry w id l s Hwf Hid Hl) as H. by destruct (expire_entry w id l (s_UserID s)).
Qed.

Lemma wf_getSession w id now : wf gs w -> wf gs (getSession w id now).2.
Proof using Type.
  intros Hwf. unfold getSession. pose proof (wf_getSessionStaged w id now Hwf) as H.
  by destruct (getSessionStaged w id now) as [[]].
Qed.

Lemma wf_SessionIDByUser w u now : wf gs w -> wf gs (SessionIDByUser w u now).2.
Proof using Type.
  intros Hwf. unfold SessionIDByUser. destruct (m_byUser (w_mgr w) !! u) as [id|] eqn:Hby; [|done].
  destruct (wf_user _ _ Hwf _ _ Hby) as (l & s & Hl & Hs & Hu). rewrite Hl, Hs.
  destruct (expiredLocked s _); [|done]. by apply wf_expire_entry.
Qed.

Lemma wf_InvalidateUser w u now : wf gs w -> wf gs (InvalidateUser w u now).2.
Proof using Type.
  intros Hwf. unfold InvalidateUser. destruct (m_byUser (w_mgr w) !! u) as [id|] eqn:Hby; [|done].
  destruct (wf_user _ _ Hwf _ _ Hby) as (l & s & Hl & Hs & Hu). rewrite Hl, Hs.
  apply wf_runRevocation. rewrite <-Hu. by apply wf_retire.
Qed.

Lemma wf_DeleteStaged w id u now : wf gs w -> wf gs (DeleteStaged w id u now).2.
Proof using Type.
  intros Hwf. unfold DeleteStaged. destruct (m_sessions (w_mgr w) !! id) as [l|] eqn:Hid; [|done].
  destruct (w_sess w !! l) as [s|] eqn:Hl; [|done]. destruct (Z.eqb_spec (s_UserID s) u) as [<-|]; [|done].
  cbn [negb snd]. rewrite deleteLocked_retire by done. by apply wf_retire.
Qed.

Lemma wf_Delete w id u now : wf gs w -> wf gs (Delete w id u now).2.
Proof using Type.
  intros Hwf. unfold Delete. pose proof (wf_DeleteStaged w id u now Hwf) as H.
  destruct (DeleteStaged w id u now) as [[[d|] e] w']; [by apply wf_run_drain|done].
Qed.

Lemma wf_revokeStaged w id u now : wf gs w -> wf gs (revokeStaged w id u now).2.
Proof using Type.
  intros Hwf. unfold revokeStaged. destruct (m_sessions (w_mgr w) !! id) as [l|] eqn:Hid; [|done].
  destruct (w_sess w !! l) as [s|] eqn:Hl; [|done]. destruct (Z.eqb_spec (s_UserID s) u) as [<-|]; [|done].
  cbn [negb snd]. rewrite deleteLocked_retire by done. by apply wf_retire.
Qed.

Lemma wf_RevokeStaged w id u now : wf gs w -> wf gs (RevokeStaged w id u now).2.
Proof using Type.
  intros Hwf. unfold RevokeStaged. pose proof (wf_revokeStaged w id u now Hwf) as H.
  destruct (revokeStaged w id u now) as [[[[l a] h]|e] w']; [done|by destruct e].
Qed.

Lemma wf_Revoke w id u now : wf gs w -> wf gs (Revoke w id u now).2.
Proof using Type.
  intros Hwf. unfold Revoke. pose proof (wf_RevokeStaged w id u now Hwf) as H.
  destruct (RevokeStaged w id u now) as [[[c|] e] w']; [by apply wf_run_cleanup|done].
Qed.

Lemma wf_RevokeStagedForPublication w id u now : wf gs w ->
  wf gs (RevokeStagedForPublication w id u now).2.
Proof using Type.
  intros Hwf. unfold RevokeStagedForPublication. pose proof (wf_revokeStaged w id u now Hwf) as H.
  destruct (revokeStaged w id u now) as [[[[l a] h]|e] w']; [done|by destruct e].
Qed.

Lemma wf_purge_one nowMS st id : wf gs st.1 -> wf gs (purge_one nowMS st id).1.
Proof using Type.
  destruct st as [w acc]. cbn [fst]. intros Hwf. unfold purge_one.
  destruct (m_sessions (w_mgr w) !! id) as [l|] eqn:Hid; [|done].
  destruct (w_sess w !! l) as [s|] eqn:Hl; [|done]. destruct (expiredLocked s _); [|done].
  rewrite deleteLocked_retire by done. pose proof (wf_expire w id l s Hwf Hid Hl) as H.
  by destruct (newExpiryDrainLocked _ id l).
Qed.

Lemma wf_purge_scan nowMS order st : wf gs st.1 -> wf gs (fold_left (purge_one nowMS) order st).1.
Proof using Type. revert st. induction order; intros st H; [done|]. simpl. by apply IHorder, wf_purge_one. Qed.

Lemma wf_Purge w order now : wf gs w -> wf gs (Purge w order now).2.
Proof using Type.
  intros Hwf. unfold Purge. pose proof (wf_purge_scan (unix_milli now) order (w, []) Hwf) as H.
  destruct (fold_left _ order _) as [w1 expired]. cbn [fst snd] in *. revert w1 H.
  induction expired as [|[[id u] d] es IH]; intros w1 H; [done|]. simpl. by apply IH, wf_notify_expiry.
Qed.

(** ** Session methods *)

Lemma acceptPacket_role s seq now r : session_ok s -> is_u64 seq ->
  exists d s', acceptPacket s seq now r = Some (d, s') /\ same_role s s' /\ session_ok s'.
Proof using Type.
  intros Hok Hseq. destruct (Hok) as [H1 H2 [spec H3] H4 H5 H6]. unfold acceptPacket.
  destruct (negb (s_active s)); [eexists _, s; by auto using same_role_refl|].
  destruct (Replay.WouldAccept (s_rxReplay s) seq) eqn:Ew; cbn [negb]; [|eexists _, s; by auto using same_role_refl].
  pose proof (TokenBucket.TakeAt_ok _ now H2) as Hb. destruct (TokenBucket.TakeAt _ now) as [ok b]. cbn [snd] in Hb.
  destruct ok; cbn [negb].
  - destruct (Replay.Accept_refines_aux _ _ seq H3 Hseq) as [_ Hr]. cbn [with_rxBudget s_rxReplay].
    pose proof (Replay.WouldAccept_agrees (s_rxReplay s) seq) as Ha. rewrite Ew in Ha.
    destruct (Replay.Accept (s_rxReplay s) seq) as [[acc adv] win]. cbn [fst snd] in *. subst acc. cbn [negb].
    eexists _, _. split; [done|]. destruct r, adv; (split; [by split|]); split; simpl; eauto.
  - eexists _, _. split; [done|]. split; [by split|]. split; simpl; eauto.
Qed.

Lemma wf_acceptPacket w l s seq now r d s' : wf gs w -> w_sess w !! l = Some s -> is_u64 seq ->
  acceptPacket s seq now r = Some (d, s') -> wf gs (modify w l (fun _ => s')).
Proof using Type.
  intros Hwf Hl Hseq He. destruct (acceptPacket_role s seq now r (wf_sess _ _ Hwf _ _ Hl) Hseq)
    as (d' & s'' & H1 & H2 & H3). simplify_eq. by eapply wf_modify.
Qed.

(** A grant takes the next sequence; an encrypted session always has its key. *)
Lemma reserveSendSeq_cases s : session_ok s ->
  (s_active s = false /\ reserveSendSeq s = (Err ErrSessionNotFound, s)) \/
  (s_active s = true /\ s_sendSeq s = max_u64 /\ reserveSendSeq s = (Err ErrSequenceExhausted, s)) \/
  (s_active s = true /\ s_sendSeq s < max_u64 /\
   reserveSendSeq s = (Ok (mkGrant (s_sendSeq s + 1) (s_encrypted s) (s_s2cAEAD s) (s_remote s)),
                       with_sendSeq s (s_sendSeq s + 1))).
Proof using Type.
  intros [H1 _ _ H4 _ _]. unfold reserveSendSeq. destruct (s_active s); cbn [negb]; [|by left].
  right. destruct (Z.eqb_spec (s_sendSeq s) max_u64); [by left|right].
  split_and!; [done|lia|]. cbn [with_sendSeq s_encrypted s_s2cAEAD s_remote s_sendSeq].
  rewrite cloneUDPAddr_id.
  destruct (s_encrypted s); [|done]. destruct (H4 eq_refl) as (? & ? & _ & -> & _). by rewrite bool_decide_true.
Qed.

Lemma wf_reserve w l s : wf gs w -> w_sess w !! l = Some s ->
  wf (match (reserveSendSeq s).1 with Ok g => (s_ID s, g_seq g) :: gs | Err _ => gs end)
     (modify w l (fun _ => (reserveSendSeq s).2)).
Proof using Type.
  intros Hwf Hl. pose proof (wf_sess _ _ Hwf _ _ Hl) as Hok.
  assert (Hid : wf gs (modify w l (fun _ => s))) by (eapply wf_modify; eauto using same_role_refl).
  destruct (reserveSendSeq_cases s Hok) as [[_ ->]|[(_ & _ & ->)|(_ & Hlt & ->)]]; [done..|]. cbn [fst snd g_seq].
  assert (Hm : wf gs (modify w l (fun _ => with_sendSeq s (s_sendSeq s + 1)))).
  { eapply wf_modify; [done..|split; simpl; [done..|lia]|]. destruct Hok. split; simpl; done || lia. }
  assert (Hnew : (s_ID s, s_sendSeq s + 1) ∉ gs ++ revoked_seqs (w_events w)).
  { intros Hin. destruct (wf_issued_le _ _ Hwf _ _ Hin) as (l' & t & H1 & H2 & H3).
    assert (l' = l) as -> by (eapply (wf_ids _ _ Hwf); eauto). simplify_eq. lia. }
  destruct Hm as [Hlim Ht Hu Hp Hpi Hi Hn Hs Hv Hb Hd Hq]. simpl in *.
  split; try done; simpl.
  - by constructor.
  - intros id q [H|H]%elem_of_cons; [|by apply Hq]. simplify_eq.
    exists l, (with_sendSeq s (s_sendSeq s + 1)). rewrite lookup_alter_eq, Hl. simpl.
    destruct Hok. split_and!; try done; lia.
Qed.
End Primitives.

(** ** Monotonicity of the session heap *)

(** What every method guarantees of a session: identity and keys are
    immutable, the send sequence never decreases, a retired session stays
    retired and keeps its deadline, peer and replay state, and a transport
    sequence once refused by the replay window is refused for ever. *)
Record evolves (s s' : Session) : Prop := {
  ev_id : s_ID s' = s_ID s;
  ev_user : s_UserID s' = s_UserID s;
  ev_keys : (s_encrypted s', s_c2sAEAD s', s_s2cAEAD s') = (s_encrypted s, s_c2sAEAD s, s_s2cAEAD s);
  ev_seq : s_sendSeq s <= s_sendSeq s';
  ev_replay : forall q, is_u64 q -> Replay.WouldAccept (s_rxReplay s) q = false ->
    Replay.WouldAccept (s_rxReplay s') q = false;
  ev_retired : s_active s = false -> s_active s' = false /\
    s_ExpiresAt s' = s_ExpiresAt s /\ s_remote s' = s_remote s /\ s_rxReplay s' = s_rxReplay s
}.

#[export] Instance evolves_preorder : PreOrder evolves.
Proof.
  split.
  - intros s. by split.
  - intros s1 s2 s3 [] []. split; try congruence; [lia|by eauto|]. intros H.
    destruct (ev_retired0 H) as (Ha & ? & ? & ?). destruct (ev_retired1 Ha) as (? & ? & ? & ?).
    split_and!; congruence.
Qed.

Definition heap_le (w w' : World) : Prop :=
  forall l s, w_sess w !! l = Some s -> exists s', w_sess w' !! l = Some s' /\ evolves s s'.

#[export] Instance heap_le_preorder : PreOrder heap_le.
Proof.
  split.
  - intros w l s H. exists s. by split.
  - intros w1 w2 w3 H1 H2 l s H. destruct (H1 _ _ H) as (s' & H' & E1).
    destruct (H2 _ _ H') as (s'' & H'' & E2). exists s''. split; [done|]. by etrans.
Qed.

Lemma heap_le_same w w' : w_sess w' = w_sess w -> heap_le w w'.
Proof. intros E l s H. exists s. by rewrite E. Qed.

Lemma heap_le_alter w w' l f : w_sess w' = alter f l (w_sess w) -> 
  (forall s, w_sess w !! l = Some s -> evolves s (f s)) -> heap_le w w'.
Proof.
  intros E Hf l' s H. rewrite E. destruct (decide (l = l')) as [<-|].
  - rewrite lookup_alter_eq, H. simpl. eauto.
  - rewrite lookup_alter_ne by done. exists s. by split.
Qed.

Lemma evolves_deactivate s : evolves s (deactivateLocked s).
Proof. by split. Qed.

Lemma evolves_sendSeq s q : s_sendSeq s <= q -> evolves s (with_sendSeq s q).
Proof. by split. Qed.

#[export] Hint Resolve evolves_deactivate : zephyr.
#[export] Hint Extern 1 (heap_le _ _) => reflexivity : zephyr.

Lemma w_sess_notify w u id d : w_sess (notify_expiry w u id d) = w_sess w.
Proof. unfold notify_expiry. by repeat case_match. Qed.

Lemma w_sess_drain w id l : w_sess (newExpiryDrainLocked w id l).2 = w_sess w.
Proof. unfold newExpiryDrainLocked. by case_match. Qed.

Lemma w_sess_run_drain w d : w_sess (run_drain w d) = w_sess w.
Proof. destruct d; [done|]. simpl. unfold barrier_drain, clearExpiryBarrier. by repeat case_match. Qed.

Lemma heap_le_expire_entry w id l u : heap_le w (expire_entry w id l u).2.
Proof.
  unfold expire_entry. pose proof (w_sess_drain (deleteLocked (modify w l deactivateLocked) id u) id l) as H.
  destruct (newExpiryDrainLocked _ id l) as [d w']. cbn [snd] in *.
  eapply heap_le_alter; [by rewrite w_sess_notify, H|]. auto with zephyr.
Qed.

Lemma heap_le_runRevocation w work : heap_le w (runRevocation w work).
Proof.
  unfold runRevocation. destruct (rw_session work) as [l|]; [|done].
  destruct (w_sess w !! l) as [s|] eqn:El; [|done]. destruct (_ && _ && _ && _) eqn:Ec; [|done].
  apply andb_true_iff in Ec as [_ Hlt]. unfold newRevokedSnapshotLocked. rewrite Hlt.
  eapply heap_le_alter; [done|]. intros s0 H. simplify_eq. apply evolves_sendSeq. lia.
Qed.

Lemma heap_le_run_cleanup w c : heap_le w (run_cleanup w c).
Proof. destruct c; [apply heap_le_same, w_sess_run_drain|apply heap_le_runRevocation]. Qed.

Lemma heap_le_activate_commit w pl p sess nowMS d : heap_le w (activate_commit w pl p sess nowMS d).2.
Proof.
  unfold activate_commit. repeat case_match; simplify_eq/=; try (by apply heap_le_same).
  all: eapply heap_le_alter; [done|]; auto with zephyr.
Qed.

Lemma heap_le_activatePreparedStaged w prepared expected allow now :
  heap_le w (activatePreparedStaged w prepared expected allow now).2.
Proof.
  unfold activatePreparedStaged.
  destruct prepared as [pl|]; [|done]. destruct (w_prep w !! pl) as [p|]; [|done].
  destruct (w_sess w !! p_session p) as [sess|]; [|done].
  destruct (negb (p_owner p =? m_self (w_mgr w))%nat); [done|]. destruct (p_used p); [done|].
  assert (Hgo : forall d, heap_le w (if expiredLocked sess (unix_milli now) then (Err ErrSessionExpired, w)
                      else activate_commit w pl p sess (unix_milli now) d).2).
  { intros d. destruct (expiredLocked sess _); [done|apply heap_le_activate_commit]. }
  destruct expected as [ex|]; [|apply Hgo].
  destruct (m_byUser (w_mgr w) !! s_UserID sess) as [cur|]; [|destruct allow; [apply Hgo|done]].
  case_decide; [|done]. destruct (m_sessions (w_mgr w) !! cur) as [ol|]; [|done].
  destruct (w_sess w !! ol) as [s|]; [|done]. destruct (expiredLocked s _); [|apply Hgo].
  match goal with |- context [newExpiryDrainLocked ?w ?id ?l] =>
    pose proof (w_sess_drain w id l) as Hd; destruct (newExpiryDrainLocked w id l) end.
  cbn [snd] in *. eapply heap_le_alter; [by rewrite w_sess_notify, Hd|]. auto with zephyr.
Qed.

Lemma heap_le_ActivatePrepared w prepared expected now : heap_le w (ActivatePrepared w prepared expected now).2.
Proof.
  unfold ActivatePrepared, ActivatePreparedStaged.
  pose proof (heap_le_activatePreparedStaged w prepared expected false now) as H.
  destruct (activatePreparedStaged w prepared expected false now) as [[[[info d] c]|e] w']; [|done].
  cbn [snd] in *. etrans; [done|]. etrans; [|apply heap_le_run_cleanup].
  destruct d; [apply heap_le_same, w_sess_run_drain|done].
Qed.

Lemma heap_le_getSessionStaged w id now : heap_le w (getSessionStaged w id now).2.
Proof.
  unfold getSessionStaged. destruct (m_sessions (w_mgr w) !! id) as [l|]; [|done].
  destruct (w_sess w !! l) as [s|]; [|done]. destruct (expiredLocked s _); [|done].
  pose proof (heap_le_expire_entry w id l (s_UserID s)) as H. by destruct (expire_entry w id l (s_UserID s)).
Qed.

Lemma heap_le_SessionIDByUser w u now : heap_le w (SessionIDByUser w u now).2.
Proof.
  unfold SessionIDByUser. repeat case_match; try done; [apply heap_le_expire_entry|by apply heap_le_same].
Qed.

Lemma heap_le_InvalidateUser w u now : heap_le w (InvalidateUser w u now).2.
Proof.
  unfold InvalidateUser. repeat case_match; try done; [|by apply heap_le_same]. cbn [snd].
  etrans; [|apply heap_le_runRevocation]. eapply heap_le_alter; [done|]. auto with zephyr.
Qed.

Lemma heap_le_DeleteStaged w id u now : heap_le w (DeleteStaged w id u now).2.
Proof.
  unfold DeleteStaged. repeat case_match; try done. all: eapply heap_le_alter; [done|]; auto with zephyr.
Qed.

Lemma heap_le_revokeStaged w id u now : heap_le w (revokeStaged w id u now).2.
Proof.
  unfold revokeStaged. repeat case_match; try done. all: eapply heap_le_alter; [done|]; auto with zephyr.
Qed.

Lemma heap_le_RevokeStaged w id u now : heap_le w (RevokeStaged w id u now).2.
Proof.
  unfold RevokeStaged. pose proof (heap_le_revokeStaged w id u now) as H.
  destruct (revokeStaged w id u now) as [[[[l a] h]|e] w']; [done|by destruct e].
Qed.

Lemma heap_le_RevokeStagedForPublication w id u now :
  heap_le w (RevokeStagedForPublication w id u now).2.
Proof.
  unfold RevokeStagedForPublication. pose proof (heap_le_revokeStaged w id u now) as H.
  destruct (revokeStaged w id u now) as [[[[l a] h]|e] w']; [done|by destruct e].
Qed.

Lemma heap_le_purge_one nowMS st id : heap_le st.1 (purge_one nowMS st id).1.
Proof.
  destruct st as [w acc]. unfold purge_one. destruct (m_sessions (w_mgr w) !! id) as [l|]; [|done].
  destruct (w_sess w !! l) as [s|]; [|done]. destruct (expiredLocked s _); [|done].
  pose proof (w_sess_drain (deleteLocked (modify w l deactivateLocked) id (s_UserID s)) id l) as H.
  destruct (newExpiryDrainLocked _ id l). eapply heap_le_alter; [exact H|]. auto with zephyr.
Qed.

Lemma heap_le_Purge w order now : heap_le w (Purge w order now).2.
Proof.
  unfold Purge. assert (H : forall st, heap_le st.1 (fold_left (purge_one (unix_milli now)) order st).1).
  { induction order; intros st; [done|]. simpl. etrans; [apply heap_le_purge_one|apply IHorder]. }
  specialize (H (w, [])). destruct (fold_left _ order _) as [w1 expired]. cbn [fst snd] in *.
  etrans; [done|]. clear H. revert w1. induction expired as [|[[id u] d] es IH]; intros w1; [done|].
  simpl. etrans; [|apply IH]. apply heap_le_same, w_sess_notify.
Qed.

Lemma evolves_acceptPacket s seq now r d s' : session_ok s -> is_u64 seq ->
  acceptPacket s seq now r = Some (d, s') -> evolves s s'.
Proof.
  intros [_ _ [spec Href] _ _ _] Hseq. unfold acceptPacket. intros H.
  destruct (s_active s) eqn:Ea; cbn [negb] in H; [|by simplify_eq].
  pose proof (fun q => Replay.WouldAccept_mono _ _ seq q Href Hseq) as Hm.
  cbn [with_rxBudget s_rxReplay] in H. destruct (Replay.Accept (s_rxReplay s) seq) as [[acc adv] win].
  cbn [snd] in Hm. repeat case_match; simplify_eq/=; split; simpl; rewrite ?Ea; try done; eauto.
Qed.

Lemma evolves_reserve s : evolves s (reserveSendSeq s).2.
Proof.
  unfold reserveSendSeq. repeat case_match; try done; simplify_eq/=; apply evolves_sendSeq; lia.
Qed.

Lemma heap_le_Prepare hkdf w u dev enc did dkey now clock :
  (forall l, is_Some (w_sess w !! l) -> (l < w_next w)%nat) ->
  heap_le w (Prepare hkdf w u dev enc did dkey now clock).2.
Proof.
  intros Hn. unfold Prepare. repeat case_match; try done. cbn [snd].
  intros l' s' Hl. exists s'. split; [|done]. cbn [w_sess]. rewrite lookup_insert_ne; [done|].
  specialize (Hn l' ltac:(eauto)). lia.
Qed.

End SessionInv.
