(* ===== verification/SessionProps.v ===== *)
(** * SessionProps: what the session registry guarantees

    [step] interleaves every method of [Session], each with arbitrary arguments
    and clock samples, on a [Manager] shared by any number of goroutines; a
    method that locks twice is two steps.  [crypto/rand] identifiers are
    assumed not to repeat.  The theorems hold in every reachable world. *)

From S2P Require Import Prelude Float64 TokenBucket Replay Packet Session SessionInv.
From stdpp Require Import base gmap list strings fin_maps relations.
From Stdlib Require Import ZArith Lia.
Import Packet Session SessionInv.
#[local] Open Scope Z_scope.

Module SessionProps.

(** A world with the ghost list of granted send sequences. *)
Abbreviation GWorld := (list (SessionID * Z) * World)%type.

Section Steps.
Context (hkdf : bytes -> bytes -> bytes -> option bytes).

Inductive step : GWorld -> GWorld -> Prop :=
  | step_prepare gs w u dev enc did dkey now clock :
      (forall id, did = Some id -> fresh_id w id) ->
      step (gs, w) (gs, (Prepare hkdf w u dev enc did dkey now clock).2)
  | step_activate_staged gs w prepared expected allow now :
      step (gs, w) (gs, (activatePreparedStaged w prepared expected allow now).2)
  | step_activate gs w prepared expected now :
      step (gs, w) (gs, (ActivatePrepared w prepared expected now).2)
  | step_get gs w id now : step (gs, w) (gs, (getSessionStaged w id now).2)
  | step_by_user gs w u now : step (gs, w) (gs, (SessionIDByUser w u now).2)
  | step_invalidate gs w u now : step (gs, w) (gs, (InvalidateUser w u now).2)
  | step_delete gs w id u now : step (gs, w) (gs, (DeleteStaged w id u now).2)
  | step_revoke gs w id u now : step (gs, w) (gs, (RevokeStaged w id u now).2)
  | step_revoke_pub gs w id u now : step (gs, w) (gs, (RevokeStagedForPublication w id u now).2)
  | step_purge gs w order now : step (gs, w) (gs, (Purge w order now).2)
  | step_drain gs w d : step (gs, w) (gs, run_drain w d)
  | step_cleanup gs w c : step (gs, w) (gs, run_cleanup w c)
  | step_handlers gs w r e b : step (gs, w) (gs, set_mgr w (set_handlers (w_mgr w) r e b))
  | step_accept gs w l s seq now r d s' :
      w_sess w !! l = Some s -> is_u64 seq -> acceptPacket s seq now r = Some (d, s') ->
      step (gs, w) (gs, modify w l (fun _ => s'))
  | step_reserve gs w l s : w_sess w !! l = Some s ->
      step (gs, w) (match (reserveSendSeq s).1 with Ok g => (s_ID s, g_seq g) :: gs | Err _ => gs end,
                    modify w l (fun _ => (reserveSendSeq s).2)).

(** Worlds reached from a manager with limits [lim]. *)
Definition reachable (self : nat) (lim : Limits) (st : GWorld) : Prop :=
  exists w0, NewManagerWithLimits self lim = Ok w0 /\ rtc step ([], w0) st.

Lemma step_wf st st' : step st st' -> wf st.1 st.2 -> wf st'.1 st'.2.
Proof using Type.
  intros Hs Hwf. destruct Hs; cbn [fst snd] in *.
  - by apply wf_Prepare.
  - by apply wf_activatePreparedStaged.
  - by apply wf_ActivatePrepared.
  - by apply wf_getSessionStaged.
  - by apply wf_SessionIDByUser.
  - by apply wf_InvalidateUser.
  - by apply wf_DeleteStaged.
  - by apply wf_RevokeStaged.
  - by apply wf_RevokeStagedForPublication.
  - by apply wf_Purge.
  - by apply wf_run_drain.
  - by apply wf_run_cleanup.
  - by apply wf_set_handlers.
  - by eapply wf_acceptPacket.
  - by apply wf_reserve.
Qed.

Lemma step_heap_le st st' : step st st' -> wf st.1 st.2 -> heap_le st.2 st'.2.
Proof using Type.
  intros Hs Hwf. destruct Hs; cbn [fst snd] in *.
  - apply heap_le_Prepare. intros l Hl. apply (wf_next _ _ Hwf). by left.
  - apply heap_le_activatePreparedStaged.
  - apply heap_le_ActivatePrepared.
  - apply heap_le_getSessionStaged.
  - apply heap_le_SessionIDByUser.
  - apply heap_le_InvalidateUser.
  - apply heap_le_DeleteStaged.
  - apply heap_le_RevokeStaged.
  - apply heap_le_RevokeStagedForPublication.
  - apply heap_le_Purge.
  - apply heap_le_same, w_sess_run_drain.
  - apply heap_le_run_cleanup.
  - by apply heap_le_same.
  - eapply heap_le_alter; [done|]. intros s0 Hs0. simplify_eq. eapply evolves_acceptPacket; [|done..]. by eapply (wf_sess _ _ Hwf).
  - eapply heap_le_alter; [done|]. intros s0 Hs0. simplify_eq. apply evolves_reserve.
Qed.

Lemma initial_wf self lim w0 : NewManagerWithLimits self lim = Ok w0 -> wf [] w0.
Proof using Type.
  unfold NewManagerWithLimits.
  destruct (Z.leb_spec (l_SessionPacketsPerSec lim) 0), (Z.leb_spec (l_SessionBurst lim) 0);
    [done..|]. intros [= <-].
  split; simpl; try done.
  - intros l [Hx|[Hx|Hx]]; rewrite lookup_empty in Hx; by destruct Hx.
  - apply NoDup_nil_2.
  - intros id q Hx. by apply not_elem_of_nil in Hx.
Qed.

Lemma rtc_wf st st' : rtc step st st' -> wf st.1 st.2 -> wf st'.1 st'.2 /\ heap_le st.2 st'.2.
Proof using Type.
  induction 1 as [st|st1 st2 st3 H12 H23 IH]; intros Hwf; [by split|].
  pose proof (step_wf _ _ H12 Hwf). pose proof (step_heap_le _ _ H12 Hwf).
  destruct (IH ltac:(done)). split; [done|]. by etrans.
Qed.

Lemma reachable_wf self lim gs w : reachable self lim (gs, w) -> wf gs w.
Proof using Type.
  intros (w0 & H0 & Hs). apply initial_wf in H0. by apply rtc_wf in Hs as [? _].
Qed.

(** ** Safety *)

(** A session that may carry traffic: active and already published. *)
Definition live (w : World) (l : loc) (s : Session) : Prop :=
  w_sess w !! l = Some s /\ s_active s = true /\
  ~ exists pl p, w_prep w !! pl = Some p /\ p_used p = false /\ p_session p = l.

Lemma live_indexed gs w l s : wf gs w -> live w l s ->
  m_sessions (w_mgr w) !! s_ID s = Some l /\ m_byUser (w_mgr w) !! s_UserID s = Some (s_ID s).
Proof using Type.
  intros Hwf (Hl & Ha & Hp). destruct (wf_live _ _ Hwf _ _ Hl Ha) as [Hin|?]; [|done].
  split; [done|]. destruct (wf_table _ _ Hwf _ _ Hin) as (s' & ? & ? & ? & ?). by simplify_eq.
Qed.

Lemma retired_out_of_table gs w l s : wf gs w -> w_sess w !! l = Some s -> s_active s = false ->
  forall id, m_sessions (w_mgr w) !! id <> Some l.
Proof using Type.
  intros Hwf Hl Ha id Hid. destruct (wf_table _ _ Hwf _ _ Hid) as (s' & ? & ? & ? & _). congruence.
Qed.

(** C4: One live session per user, in every reachable world: two sessions of the
    same user that are active and published are the same session, and both
    indexes of the manager lead to it. *)
Theorem one_live_session_per_user self lim gs w l1 l2 s1 s2 :
  reachable self lim (gs, w) -> live w l1 s1 -> live w l2 s2 -> s_UserID s1 = s_UserID s2 ->
  l1 = l2 /\ s1 = s2 /\ m_byUser (w_mgr w) !! s_UserID s1 = Some (s_ID s1) /\
  m_sessions (w_mgr w) !! s_ID s1 = Some l1.
Proof using Type.
  intros Hr H1 H2 He. pose proof (reachable_wf _ _ _ _ Hr) as Hwf.
  destruct (live_indexed _ _ _ _ Hwf H1) as [Hl1 Hb1]. destruct (live_indexed _ _ _ _ Hwf H2) as [Hl2 Hb2].
  rewrite <-He, Hb1 in Hb2. simplify_eq. assert (l1 = l2) as <- by congruence.
  destruct H1 as [H1 _], H2 as [H2 _]. split_and!; congruence.
Qed.

(** C13: No GCM nonce is used twice under one session's server-to-client key: over
    any interleaving of sends and revocation notices, the pairs of session
    identifier and nonce handed out are all different, and every sequence
    number is positive and fits 64 bits. *)
Theorem send_nonces_unique self lim gs w : reachable self lim (gs, w) ->
  NoDup (map (fun '(id, q) => (id, NonceFor q)) (gs ++ revoked_seqs (w_events w))) /\
  Forall (fun '(_, q) => 0 < q <= max_u64) (gs ++ revoked_seqs (w_events w)).
Proof using Type.
  intros Hr. pose proof (reachable_wf _ _ _ _ Hr) as Hwf.
  assert (Hall : Forall (fun '(_, q) => 0 < q <= max_u64) (gs ++ revoked_seqs (w_events w))).
  { apply Forall_forall. intros [id q] Hin. destruct (wf_issued_le _ _ Hwf _ _ Hin) as (l & s & Hl & _ & Hq).
    destruct (wf_sess _ _ Hwf _ _ Hl) as [Hs _ _ _ _ _]. lia. }
  split; [|done]. pose proof (wf_issued _ _ Hwf) as Hnd.
  induction Hnd as [|[id q] xs Hx Hnd IH]; [apply NoDup_nil_2|]. apply Forall_cons in Hall as [Hq Hall].
  cbn. constructor; [|by apply IH]. intros Hin. apply list_elem_of_fmap in Hin as ([id' q'] & He & Hin).
  pose proof (f_equal fst He) as Hi. apply (f_equal snd) in He. cbn [fst snd] in Hi, He. subst id'. apply Hx. rewrite Forall_forall in Hall. specialize (Hall _ Hin). cbn in Hall.
  unfold max_u64 in *. apply NonceFor_inj in He; [by subst|unfold is_u64, u64_mod; lia..].
Qed.

(** Retirement is final: once a session has been deactivated, whatever happens
    next it stays inactive and out of the table, its deadline, peer address
    and replay window never change, every packet for it is dropped and every
    send is refused. *)
Theorem retired_forever self lim gs w gs' w' l s :
  reachable self lim (gs, w) -> w_sess w !! l = Some s -> s_active s = false ->
  rtc step (gs, w) (gs', w') ->
  exists s', w_sess w' !! l = Some s' /\ s_ID s' = s_ID s /\ s_active s' = false /\
    s_ExpiresAt s' = s_ExpiresAt s /\ s_remote s' = s_remote s /\ s_rxReplay s' = s_rxReplay s /\
    (forall id, m_sessions (w_mgr w') !! id <> Some l) /\
    (forall seq now r, acceptPacket s' seq now r = Some (receiveDroppedInactive, s')) /\
    reserveSendSeq s' = (Err ErrSessionNotFound, s').
Proof using Type.
  intros Hr Hl Ha Hs. apply reachable_wf in Hr. apply rtc_wf in Hs as [Hwf' Hle]; [|done]. cbn [fst snd] in *.
  destruct (Hle _ _ Hl) as (s' & Hl' & []). destruct (ev_retired0 Ha) as (Ha' & ? & ? & ?).
  exists s'. split_and!; try done.
  - by eapply retired_out_of_table.
  - intros. unfold acceptPacket. by rewrite Ha'.
  - unfold reserveSendSeq. by rewrite Ha'.
Qed.

(** ** Functional behaviour *)

Lemma runRevocation_frame w work : w_mgr (runRevocation w work) = w_mgr w /\
  w_prep (runRevocation w work) = w_prep w /\
  forall l, rw_session work <> Some l -> w_sess (runRevocation w work) !! l = w_sess w !! l.
Proof using Type.
  unfold runRevocation. destruct (rw_session work) as [l0|]; [|done].
  destruct (w_sess w !! l0) as [s|]; [|done]. destruct (_ && _ && _ && _); [|done].
  unfold newRevokedSnapshotLocked. split_and!; [done..|]. intros l Hne. simpl. apply lookup_alter_ne. congruence.
Qed.

(** [InvalidateUser] cuts the user off and nobody else: in every reachable
    world it reports how many table entries it removed (0 or 1), afterwards the
    user has no index entry and no live session, and every session of another
    user and its table entry are untouched. *)
Theorem InvalidateUser_complete self lim gs w u now : reachable self lim (gs, w) ->
  let '(n, w') := InvalidateUser w u now in
  n = (if m_byUser (w_mgr w) !! u then 1 else 0) /\
  m_byUser (w_mgr w') = delete u (m_byUser (w_mgr w)) /\
  (forall l s, live w' l s -> s_UserID s <> u) /\
  (forall l s, w_sess w !! l = Some s -> s_UserID s <> u ->
    w_sess w' !! l = Some s /\ m_sessions (w_mgr w') !! s_ID s = m_sessions (w_mgr w) !! s_ID s).
Proof using Type.
  intros Hr. apply reachable_wf in Hr as Hwf. pose proof (wf_InvalidateUser gs w u now Hwf) as Hwf'.
  assert (Hcut : forall w', wf gs w' -> m_byUser (w_mgr w') = delete u (m_byUser (w_mgr w)) ->
    forall l s, live w' l s -> s_UserID s <> u).
  { intros w' Hw' Hb l s Hlv <-. destruct (live_indexed _ _ _ _ Hw' Hlv) as [_ H].
    by rewrite Hb, lookup_delete_eq in H. }
  unfold InvalidateUser in *. destruct (m_byUser (w_mgr w) !! u) as [id|] eqn:Hby.
  - destruct (wf_user _ _ Hwf _ _ Hby) as (l & s & Hl & Hs & Hu). rewrite Hl, Hs in *. cbn [snd] in *.
    match goal with |- context [runRevocation ?w1 ?wk] => destruct (runRevocation_frame w1 wk) as (Hm & Hp & Hf) end.
    rewrite Hm. split_and!; [done..|by apply Hcut; [|rewrite Hm]|].
    intros l' s' Hl' Hu'. destruct (wf_table _ _ Hwf _ _ Hl) as (s0 & ? & ? & _). simplify_eq. split.
    + rewrite Hf by (simpl; congruence). rewrite <-Hl'. simpl. apply lookup_alter_ne. congruence.
    + simpl. apply lookup_delete_ne. intros E. apply Hu'.
      assert (l' = l) as -> by (eapply (wf_ids _ _ Hwf); eauto). congruence.
  - rewrite delete_id by done. split_and!; [done..| |done].
    apply Hcut; [done|]. by rewrite delete_id.
Qed.

Lemma byUser_drain w id l : m_byUser (w_mgr (newExpiryDrainLocked w id l).2) = m_byUser (w_mgr w).
Proof using Type. unfold newExpiryDrainLocked. by case_match. Qed.

Lemma byUser_notify w u id d : m_byUser (w_mgr (notify_expiry w u id d)) = m_byUser (w_mgr w).
Proof using Type. unfold notify_expiry. by repeat case_match. Qed.

(** The outcome of the publication step. *)
Definition published (w : World) (p : PreparedSession) (sess : Session) (old : option loc)
    (expired : bool) (drain : option Drain)
    (out : result (SessionInfo * option Drain * Cleanup) ProtoError * World) : Prop :=
  (exists info cleanup, out.1 = Ok (info, drain, cleanup) /\ i_ID info = s_ID sess /\
     i_ReplacedPrevious info = (bool_decide (is_Some old) && negb expired)) /\
  m_byUser (w_mgr out.2) = <[s_UserID sess := s_ID sess]> (m_byUser (w_mgr w)) /\
  m_sessions (w_mgr out.2) !! s_ID sess = Some (p_session p) /\ live out.2 (p_session p) sess /\
  (forall l, old = Some l -> exists s, w_sess out.2 !! l = Some s /\ s_active s = false).

Lemma install_live gs w pl p sess : wf gs w -> w_prep w !! pl = Some p -> p_used p = false ->
  w_sess w !! p_session p = Some sess -> live (install w pl p sess) (p_session p) sess.
Proof using Type.
  intros Hwf Hpl Hu Hl. destruct (wf_prep _ _ Hwf _ _ Hpl) as (s & ? & _ & _ & Hun). simplify_eq.
  destruct (Hun Hu) as [Ha _]. split_and!; [done..|]. intros (pl' & p' & H & Hu' & He). cbn in H.
  apply lookup_insert_Some in H as [[<- <-]|[Hne H]]; [done|].
  apply Hne. by eapply (wf_prep_inj _ _ Hwf).
Qed.

Lemma activate_commit_effect gs w pl p sess nowMS d : wf gs w -> w_prep w !! pl = Some p ->
  p_used p = false -> w_sess w !! p_session p = Some sess ->
  let old := m_byUser (w_mgr w) !! s_UserID sess ≫= fun id => m_sessions (w_mgr w) !! id in
  published w p sess old
    (match old ≫= fun l => w_sess w !! l with Some s => expiredLocked s nowMS | None => false end)
    (match old with Some l => Some (DrainSession l) | None => d end)
    (activate_commit w pl p sess nowMS d).
Proof using Type.
  intros Hwf Hpl Hu Hl old. destruct (wf_prep _ _ Hwf _ _ Hpl) as (s & ? & HI & _ & Hun). simplify_eq.
  destruct (Hun Hu) as [Hact Hno]. split.
  { subst old. unfold activate_commit. cbn [w_sess].
    destruct (m_byUser (w_mgr w) !! s_UserID sess) as [oldID|] eqn:E; cbn [mbind option_bind].
    - destruct (wf_user _ _ Hwf _ _ E) as (ol & s & Hol & Hs & Huid). rewrite Hol, Hs. eexists _, _. cbn. by rewrite Hs.
    - by eexists _, _. }
  rewrite (activate_commit_world gs) by done. subst old.
  destruct (m_byUser (w_mgr w) !! s_UserID sess) as [oldID|] eqn:E; cbn [mbind option_bind].
  - destruct (wf_user _ _ Hwf _ _ E) as (ol & s & Hol & Hs & Huid). rewrite Hol.
    destruct (wf_table _ _ Hwf _ _ Hol) as (s' & ? & Hid & _). simplify_eq.
    assert (Hl' : w_sess (retire w (s_ID s) ol (s_UserID s)) !! p_session p = Some sess).
    { rewrite (retire_heap_fwd _ _ _ _ _ _ Hl), decide_False; [done|]. intros ->. congruence. }
    refine (conj _ (conj _ (conj _ _))); [cbn; by rewrite <-Huid, insert_delete_eq|cbn; by rewrite lookup_insert_eq| |].
    + rewrite <-Huid. eapply install_live; [by apply (wf_retire gs)|done..].
    + intros l [= <-]. cbn [w_sess install]. rewrite <-Huid, (retire_heap_fwd _ _ _ _ _ _ Hs), decide_True by done. eauto.
  - refine (conj _ (conj _ (conj _ _))); [done|cbn; by rewrite lookup_insert_eq|by eapply install_live|done].
Qed.

(** Staged activation is a compare-and-swap on the user's slot.  For an unused
    prepared session of this manager that is not past its own deadline:
    if the expectation is nil or names the user's current unexpired session,
    activation succeeds, the slot and the table hold the new session, the old
    one is retired and [ReplacedPrevious] and the returned drain tell whether
    there was one; if it names a current but expired session, that session is
    removed and [ErrSessionExpired] returned; any other expectation returns
    [ErrSessionPrecondition] and changes nothing. *)
Theorem activation_cas self lim gs w pl p sess expected now :
  reachable self lim (gs, w) -> w_prep w !! pl = Some p -> p_used p = false ->
  p_owner p = m_self (w_mgr w) -> w_sess w !! p_session p = Some sess ->
  expiredLocked sess (unix_milli now) = false ->
  let u := s_UserID sess in
  let current := m_byUser (w_mgr w) !! u in
  let old := current ≫= fun id => m_sessions (w_mgr w) !! id in
  let expired := match old ≫= fun l => w_sess w !! l with
                 | Some s => expiredLocked s (unix_milli now) | None => false end in
  let out := ActivatePreparedStaged w (Some pl) expected now in
  if decide (expected = None \/ expected = current /\ expired = false) then
    published w p sess old expired (DrainSession <$> old) out
  else if decide (expected = current) then
    out.1 = Err ErrSessionExpired /\ m_byUser (w_mgr out.2) = delete u (m_byUser (w_mgr w)) /\
    (forall l, old = Some l -> exists s, w_sess out.2 !! l = Some s /\ s_active s = false)
  else out = (Err ErrSessionPrecondition, w).
Proof using Type.
  intros Hr Hpl Hu Ho Hl He u current old expired. apply reachable_wf in Hr as Hwf.
  pose proof (activate_commit_effect gs w pl p sess (unix_milli now) None Hwf Hpl Hu Hl) as Hc.
  unfold ActivatePreparedStaged, activatePreparedStaged. rewrite Hpl, Hl, Ho, Nat.eqb_refl, Hu. cbn [negb].
  fold u current in Hc |- *. rewrite He.
  change (match old with Some l => Some (DrainSession l) | None => None end) with (DrainSession <$> old) in Hc.
  destruct expected as [ex|]; [|by rewrite decide_True by (by left)].
  destruct current as [cur|] eqn:Hby; [|by rewrite !decide_False by naive_solver].
  destruct (decide (cur = ex)) as [<-|Hne]; [|by rewrite !decide_False by naive_solver].
  destruct (wf_user _ _ Hwf _ _ Hby) as (ol & s & Hol & Hs & Huid).
  subst expired old. cbn [mbind option_bind] in *. rewrite Hol in *. cbn [mbind option_bind] in *. rewrite Hs in *.
  destruct (expiredLocked s (unix_milli now)) eqn:Hexp.
  - rewrite decide_False, decide_True by naive_solver.
    match goal with |- context [newExpiryDrainLocked ?w2 ?id ?l] =>
      pose proof (w_sess_drain w2 id l) as Hd; pose proof (byUser_drain w2 id l) as Hb;
      destruct (newExpiryDrainLocked w2 id l) as [d w3] end.
    cbn [snd] in *. split_and!; [done|by rewrite byUser_notify, Hb|].
    intros l [= <-]. rewrite w_sess_notify, Hd. cbn. rewrite lookup_alter_eq, Hs. cbn. eauto.
  - by rewrite decide_True by naive_solver.
Qed.

End Steps.

(** ** Purge *)

(** The session registered under [id] has reached its deadline. *)
Definition expired_at (w : World) (nowMS : Z) (id : SessionID) : bool :=
  match m_sessions (w_mgr w) !! id ≫= fun l => w_sess w !! l with
  | Some s => expiredLocked s nowMS
  | None => false
  end.

(** The effect of scanning the entries [order] on the world. *)
Record purged (w : World) (nowMS : Z) (order : list SessionID) (w' : World) : Prop := {
  pg_table : forall id, m_sessions (w_mgr w') !! id =
    if decide (id ∈ order /\ expired_at w nowMS id = true) then None else m_sessions (w_mgr w) !! id;
  pg_heap : forall l s, w_sess w !! l = Some s -> w_sess w' !! l =
    Some (if decide (m_sessions (w_mgr w) !! s_ID s = Some l /\ s_ID s ∈ order /\ expiredLocked s nowMS = true)
          then deactivateLocked s else s);
  pg_handlers : m_onExpireBarrier (w_mgr w') = m_onExpireBarrier (w_mgr w) /\
    m_onExpire (w_mgr w') = m_onExpire (w_mgr w);
  pg_events : w_events w' = w_events w
}.

Lemma purged_skip gs w nowMS id order w' : wf gs w -> expired_at w nowMS id = false ->
  purged w nowMS order w' -> purged w nowMS (id :: order) w'.
Proof.
  intros Hwf Hx []. split; try done.
  - intros id'. rewrite pg_table0. apply decide_ext. rewrite elem_of_cons. split; [tauto|].
    intros [[->|?] ?]; [congruence|tauto].
  - intros l s Hl. rewrite (pg_heap0 _ _ Hl). f_equal. apply decide_ext. rewrite elem_of_cons.
    split; [tauto|]. intros (Ht & [E|?] & Hs); [|tauto]. exfalso. subst id.
    unfold expired_at in Hx. rewrite Ht in Hx. cbn in Hx. rewrite Hl in Hx. congruence.
Qed.

Lemma sessions_expire w id l u :
  m_sessions (w_mgr (newExpiryDrainLocked (retire w id l u) id l).2) = delete id (m_sessions (w_mgr w)).
Proof. unfold newExpiryDrainLocked. by case_match. Qed.

Lemma retire_expired_at gs w id l s nowMS id' : wf gs w -> m_sessions (w_mgr w) !! id = Some l ->
  w_sess w !! l = Some s -> id <> id' ->
  expired_at (newExpiryDrainLocked (retire w id l (s_UserID s)) id l).2 nowMS id' = expired_at w nowMS id'.
Proof.
  intros Hwf Hid Hl Hne. unfold expired_at. rewrite w_sess_drain.
  rewrite sessions_expire, lookup_delete_ne by done. destruct (m_sessions (w_mgr w) !! id') as [l'|] eqn:E; [|done]. cbn.
  rewrite lookup_alter_ne; [done|]. intros <-.
  destruct (wf_table _ _ Hwf _ _ Hid) as (? & ? & ? & _), (wf_table _ _ Hwf _ _ E) as (? & ? & ? & _). congruence.
Qed.

Lemma purged_step gs w nowMS id l s order w' : wf gs w -> id ∉ order ->
  m_sessions (w_mgr w) !! id = Some l -> w_sess w !! l = Some s -> expiredLocked s nowMS = true ->
  purged (newExpiryDrainLocked (retire w id l (s_UserID s)) id l).2 nowMS order w' ->
  purged w nowMS (id :: order) w'.
Proof.
  intros Hwf Hnin Hid Hl Hx [Ht Hh Hb He].
  pose proof (sessions_expire w id l (s_UserID s)) as Hss.
  assert (Hsid : s_ID s = id) by (destruct (wf_table _ _ Hwf _ _ Hid) as (? & ? & ? & _); congruence).
  rewrite w_sess_drain in Hh. split.
  - intros id'. rewrite Ht, Hss. destruct (decide (id' = id)) as [->|Hne].
    + rewrite lookup_delete_eq. rewrite (decide_True (P:=id ∈ id :: order /\ _)); [by case_decide|].
      split; [left|]. unfold expired_at. rewrite Hid. cbn. by rewrite Hl.
    + rewrite lookup_delete_ne by done. rewrite (retire_expired_at gs) by done.
      apply decide_ext. rewrite elem_of_cons. tauto.
  - intros l' s' Hl'. destruct (decide (l = l')) as [<-|Hne].
    + simplify_eq. rewrite (Hh l (deactivateLocked s)) by (cbn; by rewrite lookup_alter_eq, Hl).
      rewrite Hss. rewrite decide_False.
      2:{ intros (E & _). cbn in E. by rewrite lookup_delete_eq in E. }
      rewrite decide_True; [done|]. rewrite elem_of_cons. tauto.
    + rewrite (Hh l' s') by (cbn; by rewrite lookup_alter_ne).
      f_equal. rewrite Hss. apply decide_ext. rewrite elem_of_cons.
      assert (s_ID s' <> id) by (intros E; apply Hne; eapply (wf_ids _ _ Hwf); eauto; congruence).
      rewrite lookup_delete_ne by done. tauto.
  - destruct Hb as [-> ->]. unfold newExpiryDrainLocked. by case_match.
  - rewrite He. unfold newExpiryDrainLocked. by case_match.
Qed.

Lemma purge_scan_spec gs nowMS order w acc : wf gs w -> NoDup order ->
  purged w nowMS order (fold_left (purge_one nowMS) order (w, acc)).1 /\
  ((fold_left (purge_one nowMS) order (w, acc)).2).*1.*1 =
    acc.*1.*1 ++ filter (fun id => expired_at w nowMS id = true) order.
Proof.
  revert w acc. induction order as [|id order IH]; intros w acc Hwf Hnd.
  - rewrite app_nil_r. split; [|done]. split; try done; intros; rewrite decide_False; try done; set_solver.
  - apply NoDup_cons in Hnd as [Hnin Hnd]. cbn [fold_left]. rewrite filter_cons.
    assert (Hskip : expired_at w nowMS id = false -> purge_one nowMS (w, acc) id = (w, acc)).
    { unfold expired_at, purge_one. destruct (m_sessions (w_mgr w) !! id) as [l|]; [|done]. cbn.
      destruct (w_sess w !! l) as [s|]; [|done]. by intros ->. }
    destruct (expired_at w nowMS id) eqn:Hx.
    + unfold expired_at in Hx. destruct (m_sessions (w_mgr w) !! id) as [l|] eqn:Hid; [|done]. cbn in Hx.
      destruct (w_sess w !! l) as [s|] eqn:Hl; [|done]. rewrite decide_True by done.
      unfold purge_one at 2 4. rewrite Hid, Hl, Hx, (deleteLocked_retire gs) by done.
      pose proof (wf_expire gs w id l s Hwf Hid Hl) as Hwf1.
      pose proof (fun id' H => retire_expired_at gs w id l s nowMS id' Hwf Hid Hl H) as Hsame.
      pose proof (purged_step gs w nowMS id l s order) as Hstep.
      destruct (newExpiryDrainLocked _ id l) as [d w1]. cbn [snd] in *.
      destruct (IH w1 (acc ++ [(id, s_UserID s, d)]) Hwf1 Hnd) as [IH1 IH2]. split; [by apply Hstep|].
      rewrite IH2, !fmap_app, <-app_assoc. cbn. do 2 f_equal.
      apply filter_ext_elem. intros id' Hin. by rewrite Hsame by set_solver.
    + rewrite decide_False, Hskip by done. destruct (IH w acc Hwf Hnd) as [IH1 IH2].
      split; [by eapply purged_skip|done].
Qed.

Definition expiry_event (e : Event) : option SessionID :=
  match e with EvExpired _ id | EvExpiredBarrier _ id _ => Some id | _ => None end.

Lemma notify_all_spec es w :
  let w' := fold_left (fun w '(id, userID, drain) => notify_expiry w userID id drain) es w in
  w_mgr w' = w_mgr w /\ w_sess w' = w_sess w /\
  exists new, w_events w' = w_events w ++ new /\
    omap expiry_event new =
      (if m_onExpireBarrier (w_mgr w) || m_onExpire (w_mgr w) then es.*1.*1 else []).
Proof.
  revert w. induction es as [|[[id u] d] es IH]; intros w; cbn.
  - split_and!; try done. exists []. rewrite app_nil_r. by destruct (_ || _).
  - destruct (IH (notify_expiry w u id d)) as (H1 & H2 & new & H3 & H4).
    assert (Hm : w_mgr (notify_expiry w u id d) = w_mgr w) by (unfold notify_expiry; by repeat case_match).
    rewrite w_sess_notify in H2. rewrite Hm in H1, H4. split_and!; [done..|]. rewrite H3.
    unfold notify_expiry. destruct (m_onExpireBarrier (w_mgr w)); [|destruct (m_onExpire (w_mgr w))]; cbn in *.
    + rewrite <-app_assoc. eexists. split; [done|]. cbn. by rewrite H4.
    + rewrite <-app_assoc. eexists. split; [done|]. cbn. by rewrite H4.
    + eauto.
Qed.

(** [Purge] reclaims exactly the expired sessions, in whatever order Go ranges
    over the table: afterwards the table holds precisely the entries that had not
    reached their deadline, every removed session is inactive, every other
    session is unchanged, the result counts the removed entries, and with an
    expiry handler installed each of them is reported exactly once. *)
Theorem Purge_exact hkdf self lim gs w order now : reachable hkdf self lim (gs, w) ->
  order ≡ₚ (map_to_list (m_sessions (w_mgr w))).*1 ->
  let nowMS := unix_milli now in
  let dead := filter (fun id => expired_at w nowMS id = true) order in
  let '(n, w') := Purge w order now in
  n = Z.of_nat (length dead) /\
  (forall id, m_sessions (w_mgr w') !! id =
    if expired_at w nowMS id then None else m_sessions (w_mgr w) !! id) /\
  (forall l s, w_sess w !! l = Some s -> w_sess w' !! l = Some
    (if decide (m_sessions (w_mgr w) !! s_ID s = Some l /\ expiredLocked s nowMS = true)
     then deactivateLocked s else s)) /\
  exists new, w_events w' = w_events w ++ new /\
    omap expiry_event new =
      (if m_onExpireBarrier (w_mgr w) || m_onExpire (w_mgr w) then dead else []).
Proof.
  intros Hr Hord nowMS dead. apply reachable_wf in Hr as Hwf.
  assert (Hnd : NoDup order) by (rewrite Hord; apply NoDup_fst_map_to_list).
  assert (Hin : forall id l, m_sessions (w_mgr w) !! id = Some l -> id ∈ order).
  { intros id l H. rewrite Hord. apply elem_of_map_to_list in H.
    apply list_elem_of_fmap. by exists (id, l). }
  unfold Purge. fold nowMS. destruct (purge_scan_spec gs nowMS order w [] Hwf Hnd) as [[Ht Hh [Hb1 Hb2] He] Hids].
  destruct (fold_left _ order _) as [w1 expired]. cbn [fst snd] in *.
  destruct (notify_all_spec expired w1) as (Hm & Hs & new & Hnew & Hev). cbn in Hids. fold dead in Hids.
  split_and!.
  - by rewrite <-Hids, !length_fmap.
  - intros id. rewrite Hm, Ht. destruct (expired_at w nowMS id) eqn:Hx; [|by rewrite decide_False by naive_solver].
    rewrite decide_True; [done|]. split; [|done]. unfold expired_at in Hx.
    destruct (m_sessions (w_mgr w) !! id) eqn:E; [eauto|done].
  - intros l s Hl. rewrite Hs, (Hh _ _ Hl). f_equal. apply decide_ext. split; [tauto|].
    intros [H1 H2]. eauto.
  - exists new. rewrite Hnew, He. split; [done|]. by rewrite Hev, Hb1, Hb2, Hids.
Qed.

(** ** Receiving, lookup and ownership *)

(** What [acceptPacket] returns for a session whose window represents [spec]. *)
Definition accept_outcome (s : Session) (spec : Replay.Spec) (seq now : Z) (r : option UDPAddr)
    (d : receiveDecision) (s' : Session) : Prop :=
  (s_ID s', s_UserID s', s_sendSeq s', s_active s', s_c2sAEAD s', s_s2cAEAD s') =
    (s_ID s, s_UserID s, s_sendSeq s, s_active s, s_c2sAEAD s, s_s2cAEAD s) /\
  match d with
  | receiveDroppedInactive => s_active s = false /\ s' = s
  | receiveDroppedReplay => s_active s = true /\ Replay.spec_accepts spec seq = false /\ s' = s
  | receiveDroppedRateLimit => s_active s = true /\ Replay.spec_accepts spec seq = true /\
      TokenBucket.TakeAt (s_rxBudget s) now = (false, s_rxBudget s') /\ s' = with_rxBudget s (s_rxBudget s')
  | receiveAccepted => s_active s = true /\ Replay.spec_accepts spec seq = true /\
      TokenBucket.TakeAt (s_rxBudget s) now = (true, s_rxBudget s') /\
      Replay.refines (s_rxReplay s') (Replay.mkSpec ({[seq]} ∪ Replay.seen spec) (Z.max (Replay.top spec) seq)) /\
      s_ExpiresAt s' = unix_milli now + 90000 /\
      s_remote s' = (if decide (is_Some r /\ Replay.top spec < seq) then r else s_remote s)
  end.

Lemma acceptPacket_cases s spec seq now r : Replay.refines (s_rxReplay s) spec -> is_u64 seq ->
  exists d s', acceptPacket s seq now r = Some (d, s') /\ accept_outcome s spec seq now r d s'.
Proof.
  unfold accept_outcome.
  intros Href Hseq. unfold acceptPacket. destruct (s_active s) eqn:Ha; cbn [negb].
  2:{ exists receiveDroppedInactive, s. by rewrite Ha. }
  pose proof (Replay.WouldAccept_spec _ _ _ Href Hseq) as Hwa.
  destruct (Replay.WouldAccept (s_rxReplay s) seq) eqn:Ew; cbn [negb].
  2:{ exists receiveDroppedReplay, s. by rewrite Ha. }
  destruct (TokenBucket.TakeAt (s_rxBudget s) now) as [ok b] eqn:Et.
  destruct ok; cbn [negb].
  2:{ exists receiveDroppedRateLimit, (with_rxBudget s b). cbn. rewrite Ha. split_and!; try done. }
  destruct (Replay.Accept_refines_aux _ _ seq Href Hseq) as [Hf Hr]. cbn [with_rxBudget s_rxReplay].
  unfold Replay.spec_step in Hf, Hr. rewrite <-Hwa in Hf, Hr. cbn [fst snd] in Hf, Hr.
  destruct (Replay.Accept (s_rxReplay s) seq) as [[acc adv] win]. cbn [fst snd] in *.
  injection Hf as -> ->. cbn [negb]. eexists receiveAccepted, _. split; [reflexivity|].
  rewrite cloneUDPAddr_id. destruct r as [r|]; [case_bool_decide|].
  all: cbn [touchLocked with_remote with_ExpiresAt with_rxReplay with_rxBudget s_active s_remote s_rxReplay
    s_ID s_UserID s_sendSeq s_c2sAEAD s_s2cAEAD s_rxBudget s_ExpiresAt]; rewrite ?Ha; split_and!; try done.
  all: rewrite ?decide_True by done; rewrite ?decide_False by naive_solver; try done.
Qed.

(** [acceptPacket] never panics and decides exactly by liveness, replay and
    rate, in that order.  A dropped packet changes nothing but the token budget
    it was charged to; an accepted one records its sequence in the window,
    slides the deadline to 90 s after its arrival and moves the peer address
    only when its sequence is a new maximum. *)
Theorem acceptPacket_spec s spec seq now r : Replay.refines (s_rxReplay s) spec -> is_u64 seq ->
  exists d s', acceptPacket s seq now r = Some (d, s') /\ accept_outcome s spec seq now r d s'.
Proof. apply acceptPacket_cases. Qed.

Lemma getSession_cases gs w id now : wf gs w ->
  match getSession w id now with
  | (Some l, w') => w' = w /\ m_sessions (w_mgr w) !! id = Some l /\ exists s, w_sess w !! l = Some s /\
      s_ID s = id /\ s_active s = true /\ unix_milli now < s_ExpiresAt s
  | (None, w') => m_sessions (w_mgr w') !! id = None /\
      (forall l s, m_sessions (w_mgr w) !! id = Some l -> w_sess w !! l = Some s ->
        s_ExpiresAt s <= unix_milli now /\ w_sess w' !! l = Some (deactivateLocked s))
  end.
Proof.
  intros Hwf. unfold getSession, getSessionStaged.
  destruct (m_sessions (w_mgr w) !! id) as [l|] eqn:Hid; [|done].
  destruct (wf_table _ _ Hwf _ _ Hid) as (s & Hl & HID & Ha & _). rewrite Hl.
  destruct (expiredLocked s (unix_milli now)) eqn:Hx; unfold expiredLocked in Hx.
  - apply Z.leb_le in Hx. rewrite (expire_entry_eq gs) by done.
    pose proof (sessions_expire w id l (s_UserID s)) as Hss.
    pose proof (w_sess_drain (retire w id l (s_UserID s)) id l) as Hd.
    destruct (newExpiryDrainLocked (retire w id l (s_UserID s)) id l) as [d w1]. cbn [snd] in *.
    rewrite w_sess_notify, Hd. unfold notify_expiry.
    split; [repeat case_match; cbn; rewrite Hss; apply lookup_delete_eq|].
    intros l' s' [= <-] ?. simplify_eq. split; [lia|]. by apply retired_session.
  - apply Z.leb_gt in Hx. split_and!; [done..|]. exists s. split_and!; done || lia.
Qed.

(** Lookup returns exactly the registered, unexpired session: it is active,
    carries the identifier asked for and the world is unchanged; otherwise
    nothing is found and the identifier is no longer registered. *)
Theorem getSession_spec hkdf self lim gs w id now : reachable hkdf self lim (gs, w) ->
  match getSession w id now with
  | (Some l, w') => w' = w /\ m_sessions (w_mgr w) !! id = Some l /\ exists s, w_sess w !! l = Some s /\
      s_ID s = id /\ s_active s = true /\ unix_milli now < s_ExpiresAt s
  | (None, w') => m_sessions (w_mgr w') !! id = None /\
      (forall l s, m_sessions (w_mgr w) !! id = Some l -> w_sess w !! l = Some s ->
        s_ExpiresAt s <= unix_milli now /\ w_sess w' !! l = Some (deactivateLocked s))
  end.
Proof. intros Hr%reachable_wf. by apply (getSession_cases gs). Qed.

(** [Get] never exposes a dead session: whatever other goroutines do between
    its two critical sections, a returned snapshot describes a session that is
    active when it is taken and has the identifier asked for. *)
Theorem Get_live hkdf self lim gs gs' w id now env sn w2 : reachable hkdf self lim (gs, w) ->
  rtc (step hkdf) (gs, (getSessionStaged w id now).2) (gs', env (getSessionStaged w id now).2) ->
  Get w id now env = (Some sn, w2) ->
  exists l s, w_sess w2 !! l = Some s /\ s_active s = true /\ s_ID s = id /\ sn = snapshot_of s.
Proof.
  intros Hr Henv. apply reachable_wf in Hr as Hwf. unfold Get.
  pose proof (wf_getSessionStaged gs w id now Hwf) as Hwf1.
  assert (Hfound : forall l, (getSessionStaged w id now).1.1 = Some l ->
    exists s, w_sess (getSessionStaged w id now).2 !! l = Some s /\ s_ID s = id).
  { unfold getSessionStaged. destruct (m_sessions (w_mgr w) !! id) as [l|] eqn:Hid; [|done].
    destruct (wf_table _ _ Hwf _ _ Hid) as (s & Hl & HID & _). rewrite Hl.
    destruct (expiredLocked s _); [by destruct (expire_entry _ _ _ _)|]. intros l' [= <-]. eauto. }
  destruct (getSessionStaged w id now) as [[[l|] d] w1]; [|done]. cbn [fst snd] in *.
  destruct (Hfound l eq_refl) as (s & Hl & Hid). apply rtc_wf in Henv as [_ Hle]; [|done].
  destruct (Hle _ _ Hl) as (s' & Hl' & [Hid' _ _ _ _ _]). cbn [snd] in Hl'. unfold live_snapshot.
  intros [= Hsn <-]. rewrite Hl' in Hsn. destruct (s_active s') eqn:Ha; [|done]. cbn in Hsn. simplify_eq.
  exists l, s'. done.
Qed.

(** Only the owner can end a session, and leaving is silent: [DeleteStaged]
    with another user's identifier returns [ErrSessionNotOwned] and changes
    nothing; for the owner the entry disappears from both indexes, the session
    is inactive, its send barrier is returned and no callback fires; the error
    tells whether the deadline had already passed. *)
Theorem DeleteStaged_spec hkdf self lim gs w id u now l s : reachable hkdf self lim (gs, w) ->
  m_sessions (w_mgr w) !! id = Some l -> w_sess w !! l = Some s ->
  let '(drain, err, w') := DeleteStaged w id u now in
  if decide (u = s_UserID s) then
    drain = Some (DrainSession l) /\
    err = (if expiredLocked s (unix_milli now) then Some ErrSessionNotFound else None) /\
    m_sessions (w_mgr w') = delete id (m_sessions (w_mgr w)) /\
    m_byUser (w_mgr w') = delete u (m_byUser (w_mgr w)) /\
    w_sess w' = <[l := deactivateLocked s]> (w_sess w) /\ w_events w' = w_events w
  else drain = None /\ err = Some ErrSessionNotOwned /\ w' = w.
Proof.
  intros Hr Hid Hl. apply reachable_wf in Hr as Hwf. unfold DeleteStaged. rewrite Hid, Hl.
  destruct (Z.eqb_spec (s_UserID s) u) as [<-|Hne]; cbn [negb].
  - rewrite (deleteLocked_retire gs) by done. rewrite decide_True by done. split_and!; try done.
    cbn. apply map_eq. intros l'. destruct (decide (l = l')) as [<-|].
    + by rewrite lookup_alter_eq, lookup_insert_eq, Hl.
    + by rewrite lookup_alter_ne, lookup_insert_ne.
  - by rewrite decide_False.
Qed.

(** ** A concrete run: a user joins, is seen from another device and replaced *)

Definition ex_hkdf (master salt info : bytes) : option bytes := Some (replicate 32 7).
Definition ex_id (n : Z) : SessionID := replicate 16 n.
Definition ex0 : World := NewManager 0.
Definition ex1 : World := (Prepare ex_hkdf ex0 7 "phone" false (Some (ex_id 1)) None 0 0).2.
Definition ex2 : World := (ActivatePrepared ex1 (Some 1%nat) None 0).2.
Definition ex3 : World := (Prepare ex_hkdf ex2 7 "desktop" false (Some (ex_id 2)) None Second Second).2.
Definition ex4 : World := (ActivatePrepared ex3 (Some 3%nat) (Some (ex_id 1)) Second).2.
Definition ex_s (n clock : Z) (dev : string) : Session :=
  newSession (ex_id n) 7 dev false (unix_milli clock) None None DefaultLimits clock.

Lemma fresh_id_decide w id : length id = 16%nat -> map_Forall (fun _ s => s_ID s <> id) (w_sess w) ->
  fresh_id w id.
Proof. intros Hl H. split; [done|]. intros l s Hs. by apply (H l s). Qed.

Lemma ex2_reachable : reachable ex_hkdf 0 DefaultLimits ([], ex2).
Proof.
  exists ex0. split; [reflexivity|].
  eapply rtc_l; [apply (step_prepare ex_hkdf [] ex0 7 "phone" false (Some (ex_id 1)) None 0 0)|].
  { intros id [= <-]. split; [done|]. intros l s H. by destruct (lookup_empty_Some l s). }
  eapply rtc_l; [apply (step_activate ex_hkdf [] ex1 (Some 1%nat) None 0)|]. reflexivity.
Qed.

Lemma ex3_step : step ex_hkdf ([], ex2) ([], ex3).
Proof.
  apply (step_prepare ex_hkdf [] ex2 7 "desktop" false (Some (ex_id 2)) None Second Second).
  intros id [= <-]. apply fresh_id_decide; [done|]. apply (bool_decide_eq_true_1 _). by vm_compute.
Qed.

Lemma ex4_steps : rtc (step ex_hkdf) ([], ex2) ([], ex4).
Proof.
  eapply rtc_l; [apply ex3_step|].
  eapply rtc_l; [apply (step_activate ex_hkdf [] ex3 (Some 3%nat) (Some (ex_id 1)) Second)|]. reflexivity.
Qed.

Lemma reachable_rtc hkdf self lim st st' : reachable hkdf self lim st -> rtc (step hkdf) st st' ->
  reachable hkdf self lim st'.
Proof. intros (w0 & H0 & H) H'. exists w0. split; [done|]. by etrans. Qed.

Lemma no_pending_decide w l :
  map_Forall (fun _ p => p_used p = true \/ p_session p <> l) (w_prep w) ->
  ~ exists pl p, w_prep w !! pl = Some p /\ p_used p = false /\ p_session p = l.
Proof. intros H (pl & p & Hp & Hu & Hl). destruct (H _ _ Hp); congruence. Qed.

Lemma ex4_live : live ex4 2 (ex_s 2 Second "desktop").
Proof.
  refine (conj _ (conj _ _)); [by vm_compute..|].
  apply no_pending_decide, (bool_decide_eq_true_1 _). by vm_compute.
Qed.

Lemma ex4_reachable : reachable ex_hkdf 0 DefaultLimits ([], ex4).
Proof. apply (reachable_rtc _ _ _ _ _ ex2_reachable ex4_steps). Qed.

Lemma one_live_session_per_user_witness :
  2%nat = 2%nat /\ ex_s 2 Second "desktop" = ex_s 2 Second "desktop" /\
  m_byUser (w_mgr ex4) !! 7 = Some (ex_id 2) /\ m_sessions (w_mgr ex4) !! ex_id 2 = Some 2%nat.
Proof.
  exact (one_live_session_per_user ex_hkdf 0 DefaultLimits [] ex4 2%nat 2%nat _ _
           ex4_reachable ex4_live ex4_live eq_refl).
Defined.

Lemma retired_forever_witness :
  exists s', w_sess ex4 !! 0%nat = Some s' /\ s_ID s' = ex_id 1 /\ s_active s' = false.
Proof.
  assert (Hl : w_sess ex4 !! 0%nat = Some (deactivateLocked (ex_s 1 0 "phone"))) by (by vm_compute).
  destruct (retired_forever ex_hkdf 0 DefaultLimits [] ex4 [] ex4 0%nat _ ex4_reachable Hl eq_refl
              (rtc_refl _ _)) as (s' & H1 & H2 & H3 & _).
  exists s'. exact (conj H1 (conj H2 H3)).
Defined.

(** A further send and its grant. *)
Definition ex5 : World := modify ex4 2 (fun _ => (reserveSendSeq (ex_s 2 Second "desktop")).2).

Lemma ex5_reachable : reachable ex_hkdf 0 DefaultLimits ([(ex_id 2, 1)], ex5).
Proof.
  eapply reachable_rtc; [apply ex4_reachable|]. apply rtc_once.
  exact (step_reserve ex_hkdf [] ex4 2%nat (ex_s 2 Second "desktop") (proj1 ex4_live)).
Qed.

Lemma send_nonces_unique_witness :
  NoDup [(ex_id 2, NonceFor 1)] /\ Forall (fun '(_, q) => 0 < q <= max_u64) [(ex_id 2, 1)].
Proof.
  assert (E : revoked_seqs (w_events ex5) = []) by (by vm_compute).
  pose proof (send_nonces_unique ex_hkdf 0 DefaultLimits _ ex5 ex5_reachable) as H.
  rewrite E in H. exact H.
Defined.

Lemma InvalidateUser_complete_witness :
  (InvalidateUser ex4 7 Second).1 = 1 /\ m_byUser (w_mgr (InvalidateUser ex4 7 Second).2) !! 7 = None.
Proof.
  pose proof (InvalidateUser_complete ex_hkdf 0 DefaultLimits [] ex4 7 Second ex4_reachable) as H.
  destruct (InvalidateUser ex4 7 Second) as [n w']. destruct H as (Hn & Hb & _).
  split; [rewrite Hn; by vm_compute|]. cbn [snd]. rewrite Hb. apply lookup_delete_eq.
Defined.

Lemma activation_cas_witness :
  m_byUser (w_mgr (ActivatePreparedStaged ex3 (Some 3%nat) (Some (ex_id 1)) Second).2) !! 7 = Some (ex_id 2).
Proof.
  assert (Hp : exists p, w_prep ex3 !! 3%nat = Some p /\ p_used p = false /\ p_owner p = 0%nat /\ p_session p = 2%nat)
    by (eexists; by vm_compute).
  destruct Hp as (p & Hp & Hu & Ho & Hs).
  assert (Hsess : w_sess ex3 !! p_session p = Some (ex_s 2 Second "desktop")) by (rewrite Hs; by vm_compute).
  pose proof (activation_cas ex_hkdf 0 DefaultLimits [] ex3 3%nat p _ (Some (ex_id 1)) Second
    (reachable_rtc _ _ _ _ _ ex2_reachable (rtc_once _ _ ex3_step)) Hp Hu Ho Hsess ltac:(by vm_compute)) as H.
  cbv zeta in H. rewrite decide_True in H by (right; by vm_compute).
  destruct H as (_ & Hb & _). rewrite Hb. apply lookup_insert_eq.
Defined.

Lemma Purge_exact_witness : (Purge ex4 [ex_id 2] (200 * Second)).1 = 1 /\
  m_sessions (w_mgr (Purge ex4 [ex_id 2] (200 * Second)).2) !! ex_id 2 = None.
Proof.
  pose proof (Purge_exact ex_hkdf 0 DefaultLimits [] ex4 [ex_id 2] (200 * Second) ex4_reachable
    ltac:(by vm_compute)) as H.
  destruct (Purge ex4 [ex_id 2] (200 * Second)) as [n w']. destruct H as (Hn & Ht & _).
  split; [rewrite Hn; by vm_compute|]. cbn [snd]. rewrite Ht. by vm_compute.
Defined.

Lemma acceptPacket_spec_witness :
  exists d s', acceptPacket (ex_s 1 0 "phone") 5 Second None = Some (d, s') /\ s_ID s' = ex_id 1.
Proof.
  destruct (acceptPacket_spec (ex_s 1 0 "phone") (Replay.mkSpec ∅ 0) 5 Second None
    Replay.empty_refines ltac:(done)) as (d & s' & H1 & H2 & _).
  exists d, s'. split; [exact H1|]. by injection H2.
Defined.

Lemma getSession_spec_witness : m_sessions (w_mgr ex4) !! ex_id 2 = Some 2%nat.
Proof.
  pose proof (getSession_spec ex_hkdf 0 DefaultLimits [] ex4 (ex_id 2) Second ex4_reachable) as H.
  assert (E : (getSession ex4 (ex_id 2) Second).1 = Some 2%nat) by (by vm_compute).
  destruct (getSession ex4 (ex_id 2) Second) as [[l|] w']; [|done]. cbn in E. injection E as ->. apply H.
Defined.

Lemma Get_live_witness : exists l s, w_sess ex4 !! l = Some s /\ s_active s = true /\ s_ID s = ex_id 2.
Proof.
  assert (E : (getSessionStaged ex4 (ex_id 2) Second).2 = ex4) by (by vm_compute).
  assert (EG : exists sn, Get ex4 (ex_id 2) Second id = (Some sn, ex4)) by (eexists; by vm_compute).
  destruct EG as [sn EG].
  destruct (Get_live ex_hkdf 0 DefaultLimits [] [] ex4 (ex_id 2) Second id sn ex4 ex4_reachable
    ltac:(rewrite E; apply rtc_refl) EG) as (l & s & H1 & H2 & H3 & _).
  exists l, s. exact (conj H1 (conj H2 H3)).
Defined.

Lemma DeleteStaged_spec_witness : DeleteStaged ex4 (ex_id 2) 8 Second = (None, Some ErrSessionNotOwned, ex4).
Proof.
  pose proof (DeleteStaged_spec ex_hkdf 0 DefaultLimits [] ex4 (ex_id 2) 8 Second 2%nat _ ex4_reachable
    ltac:(by vm_compute) (proj1 ex4_live)) as H.
  destruct (DeleteStaged ex4 (ex_id 2) 8 Second) as [[d e] w']. rewrite decide_False in H by done.
  by destruct H as (-> & -> & ->).
Defined.

End SessionProps.
