(* ===== verification/Udp.v ===== *)
(** * Udp: the datagram pipeline ([protocol/udp.go])

    [Net] is a [UDPServer] together with the session world it works on and the
    record of its outputs: transport samples, validated frames handed to the
    relay, and datagrams written.  [handleDatagram], [Send] and [sendRevoked]
    are translated whole; the other goroutines that may run between a session
    lookup and the use of the session are the [env] argument.  A Go runtime
    panic is [None]. *)

From S2P Require Import Prelude Float64 TokenBucket Replay Registry Ingress Packet Session SessionInv SessionProps.
From stdpp Require Import base gmap list strings fin_maps relations.
From Stdlib Require Import ZArith Lia.
Import Registry Packet Session SessionInv SessionProps.
#[local] Open Scope Z_scope.

Module Udp.

Record InboundFrame := mkFrame {
  f_UserID : Z; f_SessionID : SessionID; f_ChannelType : Z; f_ChannelSeq : Z;
  f_TransportSeq : Z; f_Payload : bytes
}.

Inductive StatsKind :=
  | StatsPacketReceived | StatsDroppedMalformed | StatsDroppedUnknownSession
  | StatsDroppedGlobalIngress | StatsDroppedSourceIngress | StatsDroppedSourceTableFull
  | StatsDroppedAuthentication | StatsDroppedChannel | StatsDroppedReplay
  | StatsDroppedSessionRateLimit | StatsHeartbeatReceived | StatsFrameDelivered
  | StatsSendSuccess | StatsSendError | StatsRevocationSent | StatsRevocationError.

Record StatsSample := mkSample {
  st_Kind : StatsKind; st_SessionID : SessionID; st_UserID : Z; st_ChannelType : Z; st_Bytes : Z
}.

(** A sample with only the kind and size set. *)
Definition bare_sample (k : StatsKind) (n : Z) : StatsSample := mkSample k zero_id 0 0 n.

Inductive Out :=
  | OStat (s : StatsSample)
  | OFrame (f : InboundFrame)
  | OWrite (packet : bytes) (remote : UDPAddr).

(** [u_conn] names the served [net.PacketConn]; [u_closed_conns] lists the ones closed. *)
Record UDPServer := mkServer {
  u_registry : ChannelTypeRegistry;
  u_onFrame : bool;
  u_statsHandler : bool;
  u_ingress : Ingress.IngressLimiter;
  u_conn : option nat;
  u_started : bool;
  u_closed : bool;
  u_closed_conns : list nat
}.

Record Net := mkNet { n_srv : UDPServer; n_world : World; n_out : list Out }.

Definition set_world (n : Net) (w : World) : Net := mkNet (n_srv n) w (n_out n).
Definition set_srv (n : Net) (s : UDPServer) : Net := mkNet s (n_world n) (n_out n).
Definition set_ingress (s : UDPServer) (i : Ingress.IngressLimiter) : UDPServer :=
  mkServer (u_registry s) (u_onFrame s) (u_statsHandler s) i (u_conn s) (u_started s) (u_closed s)
    (u_closed_conns s).
Definition output (n : Net) (o : Out) : Net := mkNet (n_srv n) (n_world n) (n_out n ++ [o]).

(** ** Construction and lifecycle *)

(** [NewUDPServer] for a non-nil manager and registry, options applied. *)
Definition NewUDPServer (registry : ChannelTypeRegistry) (onFrame stats : bool)
    (limits : Ingress.IngressLimits) (now : Z) : option UDPServer :=
  match Ingress.NewIngressLimiter limits now with
  | Some i => Some (mkServer registry onFrame stats i None false false [])
  | None => None
  end.

Definition SetFrameHandler (s : UDPServer) (handler : bool) : option ProtoError * UDPServer :=
  if u_closed s then (Some ErrUDPServerClosed, s)
  else if u_started s then (Some ErrUDPServerStarted, s)
  else (None, mkServer (u_registry s) handler (u_statsHandler s) (u_ingress s) (u_conn s)
                (u_started s) (u_closed s) (u_closed_conns s)).

Definition SetStatsHandler (s : UDPServer) (handler : bool) : option ProtoError * UDPServer :=
  if u_closed s then (Some ErrUDPServerClosed, s)
  else if u_started s then (Some ErrUDPServerStarted, s)
  else (None, mkServer (u_registry s) (u_onFrame s) handler (u_ingress s) (u_conn s)
                (u_started s) (u_closed s) (u_closed_conns s)).

(** [pc.Close()]. *)
Definition close_conn (s : UDPServer) (pc : nat) : UDPServer :=
  mkServer (u_registry s) (u_onFrame s) (u_statsHandler s) (u_ingress s) (u_conn s) (u_started s)
    (u_closed s) (pc :: u_closed_conns s).

Definition Start (s : UDPServer) (pc : option nat) : option ProtoError * UDPServer :=
  match pc with
  | None => (Some ErrNilArgument, s)
  | Some pc =>
      if u_closed s then (Some ErrNetClosed, close_conn s pc)
      else if u_started s then (Some ErrUDPServerStarted, close_conn s pc)
      else (None, mkServer (Registry.Seal (u_registry s)) (u_onFrame s) (u_statsHandler s) (u_ingress s)
                    (Some pc) true (u_closed s) (u_closed_conns s))
  end.

(** The deferred cleanup of [serve], run when the read loop of [pc] ends. *)
Definition serve_exit (s : UDPServer) (pc : nat) : UDPServer :=
  let s := close_conn s pc in
  mkServer (u_registry s) (u_onFrame s) (u_statsHandler s) (u_ingress s)
    (if decide (u_conn s = Some pc) then None else u_conn s) (u_started s) (u_closed s) (u_closed_conns s).

(** [Close] up to the wait for the read goroutine, whose end is [serve_exit]. *)
Definition Close (s : UDPServer) : UDPServer :=
  let s := mkServer (u_registry s) (u_onFrame s) (u_statsHandler s) (u_ingress s) (u_conn s)
             (u_started s) true (u_closed_conns s) in
  match u_conn s with Some pc => close_conn s pc | None => s end.

Definition isClosed (s : UDPServer) : bool := u_closed s.
Definition packetConn (s : UDPServer) : option nat := u_conn s.

(** The result of the read loop on an error of [ReadFrom]: nil once the socket
    or the server is closed. *)
Definition serve_result (s : UDPServer) (err : ProtoError) : option ProtoError :=
  match err with
  | ErrNetClosed => None
  | _ => if isClosed s then None else Some err
  end.

Definition reportStats (n : Net) (sample : StatsSample) : Net :=
  if u_statsHandler (n_srv n) then output n (OStat sample) else n.

(** ** Sending *)

Section Sending.
Context {cipher : AEAD}.

(** [sent] is the outcome of [pc.WriteTo]; the datagram is recorded when it succeeds. *)
Definition write_packet (n : Net) (packet : bytes) (remote : UDPAddr) (sent : bool)
  : option ProtoError * Net :=
  match packetConn (n_srv n) with
  | None => (Some ErrNetClosed, n)
  | Some _ => if sent then (None, output n (OWrite packet remote)) else (Some ErrWriteFailed, n)
  end.

(** [now] is the clock sample of the lookup, [env] what other goroutines do
    before [Session.sendMu] and [Session.mu] are taken. *)
Definition Send (n : Net) (id : SessionID) (channelType speakerID channelSeq : Z) (payload : bytes)
    (now : Z) (env : World -> World) (sent : bool) : option ProtoError * Net :=
  let fail (n : Net) (e : ProtoError) :=
    (Some e, reportStats n (mkSample StatsSendError id 0 channelType (Z.of_nat (length payload)))) in
  if channelType =? HeartbeatChannelType then fail n ErrChannelTypeReserved
  else if speakerID <=? 0 then fail n ErrInvalidSpeakerID
  else if negb (Registered (u_registry (n_srv n)) channelType) then fail n ErrChannelNotRegistered
  else
    let '(found, w1) := getSession (n_world n) id now in
    match found with
    | None => fail (set_world n w1) ErrSessionNotFound
    | Some l =>
        let w2 := env w1 in
        match w_sess w2 !! l with
        | None => fail (set_world n w2) ErrSessionNotFound
        | Some sess =>
            let '(grant, sess') := reserveSendSeq sess in
            let n := set_world n (modify w2 l (fun _ => sess')) in
            match grant with
            | Err e => fail n e
            | Ok g =>
                match g_remote g with
                | None => fail n ErrNoPeer
                | Some remote =>
                    if (MaxPayload (g_encrypted g) <? length payload)%nat then fail n ErrPayloadTooLarge
                    else
                      match buildPacket id (g_seq g) (g_encrypted g) (g_s2cAEAD g)
                              (mkChannel channelType channelSeq 0 speakerID) payload with
                      | Err e => fail n e
                      | Ok packet =>
                          let '(err, n) := write_packet n packet remote sent in
                          match err with
                          | Some e => fail n e
                          | None =>
                              (None, reportStats n (mkSample StatsSendSuccess id (s_UserID sess)
                                                      channelType (Z.of_nat (length packet))))
                          end
                      end
                end
            end
        end
    end.

Definition reason_byte (r : RevocationReason) : Z :=
  match r with RevocationReplaced => 1 | RevocationRevoked => 2 end.

Definition sendRevoked (n : Net) (reason : RevocationReason) (snap : RevokedSessionSnapshot) (sent : bool)
  : option ProtoError * Net :=
  let fail (n : Net) (e : ProtoError) :=
    (Some e, reportStats n (mkSample StatsRevocationError (rv_ID snap) (rv_UserID snap) 0 0)) in
  match rv_Remote snap with
  | None => fail n ErrNoPeer
  | Some remote =>
      if rv_SendSeq snap =? 0 then fail n ErrSequenceExhausted
      else
        match buildPacket (rv_ID snap) (rv_SendSeq snap) (rv_Encrypted snap) (rv_S2CAEAD snap)
                zero_channel [reason_byte reason] with
        | Err e => fail n e
        | Ok packet =>
            let '(err, n) := write_packet n packet remote sent in
            match err with
            | Some e => fail n e
            | None => (None, reportStats n (mkSample StatsRevocationSent (rv_ID snap) (rv_UserID snap) 0
                                              (Z.of_nat (length packet))))
            end
        end
  end.

Definition HandleRevocation (n : Net) (reason : RevocationReason) (snap : RevokedSessionSnapshot)
    (sent : bool) : Net := (sendRevoked n reason snap sent).2.

(** ** Receiving *)

Definition validInboundChannel (registry : ChannelTypeRegistry) (ch : ChannelHeader) (payload : bytes)
    (encrypted : bool) : bool :=
  if negb (Flags ch =? 0) then false
  else if ChannelType ch =? HeartbeatChannelType then
    (ChannelSeq ch =? 0) && (SpeakerID ch =? 0) && (length payload =? 0)%nat
  else if negb (SpeakerID ch =? 0) then false
  else if negb (Registered registry (ChannelType ch)) then false
  else (length payload <=? MaxPayload encrypted)%nat.

(** Authentication and channel parsing: the channel header and payload, or the
    sample kind of the drop; [None] is a slice panic. *)
Definition open_datagram (p : bytes) (seq : Z) (encrypted : bool) (aead : option bytes)
  : option (result (ChannelHeader * bytes) StatsKind) :=
  if encrypted then
    if bool_decide (aead = None) || (length p <? MinPacketSize true)%nat
    then Some (Err StatsDroppedAuthentication)
    else
      header ← slice 0 HeaderSize p;
      ciphertext ← slice HeaderSize (length p) p;
      match openWithAEAD aead seq header ciphertext with
      | Err _ => Some (Err StatsDroppedAuthentication)
      | Ok plaintext =>
          sub ← slice 0 ChannelHeaderSize plaintext;
          let '(ch, ok) := parseChannelHeader sub in
          if negb ok then Some (Err StatsDroppedChannel)
          else payload ← slice ChannelHeaderSize (length plaintext) plaintext; Some (Ok (ch, payload))
      end
  else if (length p <? MinPacketSize false)%nat then Some (Err StatsDroppedMalformed)
  else
    body ← slice HeaderSize (length p) p;
    sub ← slice 0 ChannelHeaderSize body;
    let '(ch, ok) := parseChannelHeader sub in
    if negb ok then Some (Err StatsDroppedChannel)
    else payload ← slice ChannelHeaderSize (length body) body; Some (Ok (ch, payload)).

(** The last stage: account the packet to the session and deliver it. *)
Definition deliver (n : Net) (l : loc) (sess : Session) (sessionID : SessionID) (seq : Z) (size : Z)
    (ch : ChannelHeader) (payload : bytes) (now : Z) (udpAddr : UDPAddr) : option Net :=
  let sample k := mkSample k sessionID (s_UserID sess) (ChannelType ch) size in
  match acceptPacket sess seq now (Some udpAddr) with
  | None => None
  | Some (decision, sess') =>
      let n := set_world n (modify (n_world n) l (fun _ => sess')) in
      match decision with
      | receiveDroppedReplay => Some (reportStats n (sample StatsDroppedReplay))
      | receiveDroppedRateLimit => Some (reportStats n (sample StatsDroppedSessionRateLimit))
      | receiveDroppedInactive => Some n
      | receiveAccepted =>
          if ChannelType ch =? HeartbeatChannelType then
            Some (reportStats n (mkSample StatsHeartbeatReceived sessionID (s_UserID sess) 0 size))
          else
            let n := if u_onFrame (n_srv n)
                     then output n (OFrame (mkFrame (s_UserID sess) sessionID (ChannelType ch)
                                              (ChannelSeq ch) seq payload))
                     else n in
            Some (reportStats n (sample StatsFrameDelivered))
      end
  end.

(** The stages from the outer header on. *)
Definition receive (n : Net) (p : bytes) (udpAddr : UDPAddr) (now lookup_now : Z) (env : World -> World)
  : option Net :=
  let size := Z.of_nat (length p) in
  let '(sessionID, seq, ok) := parseOuterHeader p in
  if negb ok then Some (reportStats n (bare_sample StatsDroppedMalformed size))
  else
    let '(found, w1) := getSession (n_world n) sessionID lookup_now in
    match found with
    | None => Some (reportStats (set_world n w1) (mkSample StatsDroppedUnknownSession sessionID 0 0 size))
    | Some l =>
        let w2 := env w1 in
        let n := set_world n w2 in
        match w_sess w2 !! l with
        | None => Some n
        | Some sess =>
            let '(encrypted, aead) := cryptoSnapshot sess in
            match open_datagram p seq encrypted aead with
            | None => None
            | Some (Err kind) => Some (reportStats n (mkSample kind sessionID (s_UserID sess) 0 size))
            | Some (Ok (ch, payload)) =>
                if negb (validInboundChannel (u_registry (n_srv n)) ch payload encrypted)
                then Some (reportStats n (mkSample StatsDroppedChannel sessionID (s_UserID sess)
                                            (ChannelType ch) size))
                else deliver n l sess sessionID seq size ch payload now udpAddr
            end
        end
    end.

(** [addr] is [None] for a non-UDP address; [now] is the pipeline's sample of the
    manager clock, [clock] the one of a new source bucket and [lookup_now] the
    one of the session lookup. *)
Definition handleDatagram (n : Net) (p : bytes) (addr : option UDPAddr) (now clock lookup_now : Z)
    (env : World -> World) : option Net :=
  let size := Z.of_nat (length p) in
  let n := reportStats n (bare_sample StatsPacketReceived size) in
  match addr with
  | None => Some (reportStats n (bare_sample StatsDroppedMalformed size))
  | Some udpAddr =>
      match Netip.AddrFromSlice (IP udpAddr) with
      | None => Some (reportStats n (bare_sample StatsDroppedMalformed size))
      | Some addrIP =>
          let '(decision, i) := Ingress.Allow (u_ingress (n_srv n)) addrIP now clock in
          let n := set_srv n (set_ingress (n_srv n) i) in
          match decision with
          | Ingress.IngressDroppedGlobal => Some (reportStats n (bare_sample StatsDroppedGlobalIngress size))
          | Ingress.IngressDroppedSource => Some (reportStats n (bare_sample StatsDroppedSourceIngress size))
          | Ingress.IngressDroppedTableFull => Some (reportStats n (bare_sample StatsDroppedSourceTableFull size))
          | Ingress.IngressAllowed => receive n p udpAddr now lookup_now env
          end
      end
  end.

End Sending.

(** ** The purge loop *)

(** One item [PurgeLoop] selects: a tick, with the table order, the clock sample
    of [Purge] and the one of the ingress sweep, or the closed stop channel. *)
Inductive PurgeItem := Tick (order : list SessionID) (purge_now sweep_now : Z) | Stop.

Fixpoint PurgeLoop (n : Net) (items : list PurgeItem) : Net :=
  match items with
  | [] | Stop :: _ => n
  | Tick order purge_now sweep_now :: items =>
      let n := set_world n (Purge (n_world n) order purge_now).2 in
      let n := set_srv n (set_ingress (n_srv n) (Ingress.Sweep (u_ingress (n_srv n)) sweep_now).2) in
      PurgeLoop n items
  end.

(** The interval [StartPurge] and [RunPurge] use. *)
Definition purge_interval (interval : Z) : Z := if interval <=? 0 then PurgeInterval else interval.

End Udp.
