(* ===== verification/UdpProps.v ===== *)
(** * UdpProps: what the datagram pipeline guarantees

    [nstep] interleaves datagrams, sends and every session-manager method on one
    server; inside a datagram or a send the environment may run any manager
    steps between the session lookup and the use of the session. *)

From S2P Require Import Prelude Float64 TokenBucket Replay Registry Ingress Packet Session SessionInv SessionProps Udp.
From stdpp Require Import base gmap list strings fin_maps relations.
From Stdlib Require Import ZArith Lia.
Import Registry Packet Session SessionInv SessionProps Udp.
#[local] Open Scope Z_scope.

Module UdpProps.

(** ** Opening a datagram *)

Section Opening.
Context {cipher : AEAD} {laws : AEADLaws cipher}.

(** The pipeline's own decoding agrees with the exported [DecodePacket]. *)
Definition open_agrees (p : bytes) (sid : SessionID) (seq : Z) (enc : bool) (key : bytes)
    (r : option (result (ChannelHeader * bytes) StatsKind)) : Prop :=
  match r with
  | None => DecodePacket p enc (Some key) = None
  | Some (Ok (ch, payload)) => DecodePacket p enc (Some key) = Some (mkDecoded sid seq ch payload true)
  | Some (Err _) => exists d, DecodePacket p enc (Some key) = Some d /\ d_ok d = false
  end.

Lemma open_datagram_agrees p sid seq enc key : parseOuterHeader p = (sid, seq, true) ->
  (enc = true -> length key = masterKeySize) ->
  open_agrees p sid seq enc key (open_datagram p seq enc (if enc then Some key else None)).
Proof using Type.
  intros Hh Hk. unfold open_agrees, open_datagram, DecodePacket. rewrite Hh. cbn [negb].
  destruct enc.
  - rewrite bool_decide_false by done. cbn [orb]. destruct (_ <? _)%nat; [by eexists|].
    destruct (slice 0 HeaderSize p) as [h|]; [|done]. rewrite !some_bind.
    destruct (slice HeaderSize (length p) p) as [c|]; [|done]. rewrite !some_bind.
    unfold Open. rewrite newGCM_eq by auto. cbn [rbind].
    destruct (openWithAEAD (Some key) seq h c) as [plain|e]; [|by eexists].
    destruct (slice 0 ChannelHeaderSize plain) as [sub|]; [|done]. rewrite !some_bind.
    destruct (parseChannelHeader sub) as [ch []]; cbn [negb]; [|by eexists].
    destruct (slice ChannelHeaderSize (length plain) plain); by rewrite ?some_bind.
  - destruct (_ <? _)%nat; [by eexists|].
    destruct (slice HeaderSize (length p) p) as [c|]; [|done]. rewrite !some_bind.
    destruct (slice 0 ChannelHeaderSize c) as [sub|]; [|done]. rewrite !some_bind.
    destruct (parseChannelHeader sub) as [ch []]; cbn [negb]; [|by eexists].
    destruct (slice ChannelHeaderSize (length c) c); by rewrite ?some_bind.
Qed.

(** The key that opens a session's inbound datagrams. *)
Definition inbound_key (s : Session) : bytes := default [] (s_c2sAEAD s).

Lemma session_aead s : session_ok s -> s_encrypted s = true ->
  s_c2sAEAD s = Some (inbound_key s) /\ length (inbound_key s) = masterKeySize.
Proof using Type.
  intros [_ _ _ Hk _ _] He. unfold inbound_key.
  destruct (Hk He) as (c & k & -> & _ & ? & _). done.
Qed.

Lemma open_session p s sid seq : session_ok s -> parseOuterHeader p = (sid, seq, true) ->
  open_agrees p sid seq (s_encrypted s) (inbound_key s) (open_datagram p seq (s_encrypted s) (s_c2sAEAD s)).
Proof using Type.
  intros Hok Hh.
  pose proof (open_datagram_agrees p sid seq (s_encrypted s) (inbound_key s) Hh
                (fun E => proj2 (session_aead s Hok E))) as H.
  destruct (s_encrypted s) eqn:E; [by rewrite (proj1 (session_aead s Hok E))|exact H].
Qed.

(** [p] is what a holder of the key of [s] sends for this sequence and content. *)
Definition authentic (p : bytes) (s : Session) (seq : Z) (ch : ChannelHeader) (payload : bytes) : Prop :=
  EncodePacket (s_ID s) seq (s_encrypted s) (inbound_key s) ch payload = Ok p.

Lemma open_session_spec p s seq : session_ok s -> Forall is_byte p ->
  parseOuterHeader p = (s_ID s, seq, true) ->
  exists r, open_datagram p seq (s_encrypted s) (s_c2sAEAD s) = Some r /\
    forall ch payload, r = Ok (ch, payload) -> authentic p s seq ch payload.
Proof using laws.
  intros Hok Hb Hh. pose proof (open_session p s (s_ID s) seq Hok Hh) as Ha. unfold open_agrees in Ha.
  destruct (open_datagram _ _ _ _) as [r|]; [|by apply decode_total in Ha].
  exists r. split; [done|]. intros ch payload ->. by apply (encode_decoded p _ _ _ Hb Ha).
Qed.

End Opening.

(** ** One datagram *)

Definition frame_of (o : Out) : option InboundFrame := match o with OFrame f => Some f | _ => None end.
Definition frames (os : list Out) : list InboundFrame := omap frame_of os.

(** What other goroutines do: any run of manager steps. *)
Definition env_run (hkdf : bytes -> bytes -> bytes -> option bytes) (env : World -> World) (w : World) : Prop :=
  forall gs, wf gs w -> exists gs', rtc (step hkdf) (gs, w) (gs', env w).

Lemma env_run_id hkdf w : env_run hkdf (fun w => w) w.
Proof. intros gs _. exists gs. apply rtc_refl. Qed.

Lemma reportStats_frames n s : exists new, n_out (reportStats n s) = n_out n ++ new /\ frames new = [].
Proof.
  unfold reportStats. destruct (u_statsHandler _); [by exists [OStat s]|].
  exists []. by rewrite app_nil_r.
Qed.

Lemma reportStats_world n s : n_world (reportStats n s) = n_world n /\ n_srv (reportStats n s) = n_srv n.
Proof. unfold reportStats. by destruct (u_statsHandler _). Qed.

Section Datagram.
Context {cipher : AEAD}.

(** A packet that passed every check of the pipeline for session [s]. *)
Record admitted (reg : ChannelTypeRegistry) (p : bytes) (s : Session) (seq : Z) (ch : ChannelHeader)
    (payload : bytes) : Prop := {
  ad_seq : is_u64 seq;
  ad_authentic : authentic p s seq ch payload;
  ad_valid : validInboundChannel reg ch payload (s_encrypted s) = true;
  ad_active : s_active s = true;
  ad_fresh : Replay.WouldAccept (s_rxReplay s) seq = true
}.

(** How one datagram may change a session: not at all, by the charge to its
    rate budget, or, for an admitted packet, as [accept_outcome] says. *)
Definition touched (reg : ChannelTypeRegistry) (p : bytes) (now : Z) (s s' : Session) : Prop :=
  s' = s \/ s' = with_rxBudget s (s_rxBudget s') \/
  exists seq ch payload, admitted reg p s seq ch payload /\
    Replay.WouldAccept (s_rxReplay s') seq = false /\ s_ExpiresAt s' = unix_milli now + 90000.

(** The frame [f] delivered for [p] at session [s], which became [s']. *)
Record delivered (reg : ChannelTypeRegistry) (p : bytes) (s s' : Session) (f : InboundFrame) : Prop := {
  dl_id : f_SessionID f = s_ID s /\ f_UserID f = s_UserID s;
  dl_type : f_ChannelType f <> HeartbeatChannelType /\ Registered reg (f_ChannelType f) = true;
  dl_size : (length (f_Payload f) <= MaxPayload (s_encrypted s))%nat;
  dl_admitted : admitted reg p s (f_TransportSeq f)
    (mkChannel (f_ChannelType f) (f_ChannelSeq f) 0 0) (f_Payload f);
  dl_recorded : Replay.WouldAccept (s_rxReplay s') (f_TransportSeq f) = false
}.

Lemma valid_media reg ch payload enc : validInboundChannel reg ch payload enc = true ->
  ChannelType ch <> HeartbeatChannelType ->
  ch = mkChannel (ChannelType ch) (ChannelSeq ch) 0 0 /\ Registered reg (ChannelType ch) = true /\
  (length payload <= MaxPayload enc)%nat.
Proof using Type.
  unfold validInboundChannel. destruct ch as [t q fl sp]. cbn. intros H Ht.
  destruct (Z.eqb_spec fl 0) as [->|]; [|done]. cbn [negb] in H.
  destruct (Z.eqb_spec t HeartbeatChannelType); [done|].
  destruct (Z.eqb_spec sp 0) as [->|]; [|done]. cbn [negb] in H.
  destruct (Registered reg t); [|done]. cbn [negb] in H. apply Nat.leb_le in H. done.
Qed.

(** The effect of [deliver] on the net. *)
Lemma deliver_spec n l s seq size ch payload now a p : session_ok s -> is_u64 seq ->
  w_sess (n_world n) !! l = Some s -> authentic p s seq ch payload ->
  validInboundChannel (u_registry (n_srv n)) ch payload (s_encrypted s) = true ->
  exists n' d s', deliver n l s (s_ID s) seq size ch payload now a = Some n' /\
    acceptPacket s seq now (Some a) = Some (d, s') /\
    n_srv n' = n_srv n /\ n_world n' = modify (n_world n) l (fun _ => s') /\
    touched (u_registry (n_srv n)) p now s s' /\
    exists new, n_out n' = n_out n ++ new /\
      (frames new = [] \/ exists f, frames new = [f] /\ delivered (u_registry (n_srv n)) p s s' f).
Proof using Type.
  intros Hok Hseq Hl Hau Hv. destruct (Hok) as [_ _ [spec Href] _ _ _].
  destruct (acceptPacket_cases s spec seq now (Some a) Href Hseq) as (d & s' & Hacc & Hout).
  pose proof (Replay.WouldAccept_spec _ _ _ Href Hseq) as Hwa.
  assert (Hblock : d = receiveAccepted -> Replay.WouldAccept (s_rxReplay s') seq = false).
  { intros ->. destruct Hout as (_ & _ & Hsp & _ & Href' & _). rewrite (Replay.WouldAccept_spec _ _ _ Href' Hseq).
    unfold Replay.spec_accepts. apply bool_decide_eq_false. set_solver. }
  unfold deliver. rewrite Hacc. destruct Hout as (Hid & Hout).
  assert (Had : d = receiveAccepted -> admitted (u_registry (n_srv n)) p s seq ch payload).
  { intros ->. destruct Hout as (Ha & Hsp & _). split; try done. congruence. }
  set (n1 := set_world n (modify (n_world n) l (fun _ => s'))).
  assert (Hstat : forall sm, n_srv (reportStats n1 sm) = n_srv n /\
    n_world (reportStats n1 sm) = modify (n_world n) l (fun _ => s') /\
    exists new, n_out (reportStats n1 sm) = n_out n ++ new /\ frames new = []).
  { intros sm. destruct (reportStats_world n1 sm) as [-> ->]. split_and!; try done. exact (reportStats_frames n1 sm). }
  destruct d.
  - specialize (Hblock eq_refl). specialize (Had eq_refl). destruct Hout as (_ & _ & _ & _ & Hexp & _).
    assert (Htouch : touched (u_registry (n_srv n)) p now s s') by (right; right; eauto 7).
    destruct (Z.eqb_spec (ChannelType ch) HeartbeatChannelType) as [|Hmedia].
    + eexists _, _, s'. split; [done|]. destruct (Hstat (mkSample StatsHeartbeatReceived (s_ID s) (s_UserID s) 0 size)) as (-> & -> & new & -> & Hf).
      split_and!; try done. eauto.
    + eexists _, _, s'. split; [done|]. split; [done|].
      set (f := mkFrame (s_UserID s) (s_ID s) (ChannelType ch) (ChannelSeq ch) seq payload).
      set (n2 := if u_onFrame (n_srv n1) then output n1 (OFrame f) else n1).
      destruct (reportStats_world n2 (mkSample StatsFrameDelivered (s_ID s) (s_UserID s) (ChannelType ch) size)) as [-> ->].
      destruct (reportStats_frames n2 (mkSample StatsFrameDelivered (s_ID s) (s_UserID s) (ChannelType ch) size))
        as (new & -> & Hf).
      destruct (valid_media _ _ _ _ Hv Hmedia) as (Hch & Hreg & Hsz).
      assert (Hdl : delivered (u_registry (n_srv n)) p s s' f).
      { split; cbn; try done. by rewrite <-Hch. }
      unfold n2. destruct (u_onFrame _); cbn; split_and!; try done; [|by eauto].
      exists (OFrame f :: new). rewrite <-app_assoc. split; [done|]. right. exists f. unfold frames in *. cbn. by rewrite Hf.
  - eexists _, _, s'. split; [done|].
    destruct (Hstat (mkSample StatsDroppedReplay (s_ID s) (s_UserID s) (ChannelType ch) size)) as (-> & -> & new & -> & Hf).
    split_and!; try done; [|by eauto]. left. by destruct Hout as (_ & _ & ->).
  - eexists _, _, s'. split; [done|].
    destruct (Hstat (mkSample StatsDroppedSessionRateLimit (s_ID s) (s_UserID s) (ChannelType ch) size)) as (-> & -> & new & -> & Hf).
    split_and!; try done; [|by eauto]. right. left. by destruct Hout as (_ & _ & _ & ?).
  - eexists _, _, s'. split; [done|]. split_and!; try done; [left; by destruct Hout as (_ & ->)|].
    exists []. rewrite app_nil_r. by split; [|left].
Qed.

End Datagram.

Section Receive.
Context {cipher : AEAD} {laws : AEADLaws cipher} (hkdf : bytes -> bytes -> bytes -> option bytes).

(** Summary of one datagram on the net.  [mid] is the world in which the packet is
    accounted: as it was, after the lookup, or after the environment; [acc] is the last. *)
Record handled (mid : World -> Prop) (acc : World) (p : bytes) (now : Z) (n n' : Net) : Prop := {
  hd_srv : u_registry (n_srv n') = u_registry (n_srv n) /\ u_onFrame (n_srv n') = u_onFrame (n_srv n);
  hd_wf : exists gs', wf gs' (n_world n');
  hd_heap : heap_le (n_world n) (n_world n');
  hd_touch : exists w2, mid w2 /\ forall l s s', w_sess w2 !! l = Some s ->
    w_sess (n_world n') !! l = Some s' -> touched (u_registry (n_srv n)) p now s s';
  hd_out : exists new, n_out n' = n_out n ++ new /\
    (frames new = [] \/ exists f l s s', frames new = [f] /\
       m_sessions (w_mgr (n_world n)) !! f_SessionID f = Some l /\
       w_sess acc !! l = Some s /\ w_sess (n_world n') !! l = Some s' /\
       delivered (u_registry (n_srv n)) p s s' f)
}.

Lemma handled_stat mid acc p now n n1 k : handled mid acc p now n n1 -> handled mid acc p now n (reportStats n1 k).
Proof using Type.
  intros [Hs Hw Hh Ht (new & Ho & Hf)]. destruct (reportStats_world n1 k) as [Ew Es].
  destruct (reportStats_frames n1 k) as (new' & Ho' & Hf').
  split; rewrite ?Ew, ?Es; try done. exists (new ++ new'). rewrite Ho', Ho, <-app_assoc. split; [done|].
  unfold frames in *. rewrite omap_app, Hf', app_nil_r. done.
Qed.

Lemma handled_world (mid : World -> Prop) acc p now n gs' w' : wf gs' w' -> heap_le (n_world n) w' -> mid w' ->
  handled mid acc p now n (set_world n w').
Proof using Type.
  intros. split; try done; [by eexists| |].
  - exists w'. split; [done|]. intros l s s' H1' H2'. cbn in H2'. left. congruence.
  - exists []. rewrite app_nil_r. auto.
Qed.

Lemma handled_refl (mid : World -> Prop) acc p now n gs : wf gs (n_world n) -> mid (n_world n) ->
  handled mid acc p now n n.
Proof using Type. intros. destruct n as [sv w o]. by apply (handled_world mid acc p now (mkNet sv w o) gs w). Qed.

(** The worlds a datagram may be accounted in. *)
Definition accept_world (n : Net) (p : bytes) (lnow : Z) (env : World -> World) : World := env (getSession (n_world n) (parseOuterHeader p).1.1 lnow).2.
Definition mid_world (n : Net) (p : bytes) (lnow : Z) (env : World -> World) (w : World) : Prop :=
  let w1 := (getSession (n_world n) (parseOuterHeader p).1.1 lnow).2 in
  w = n_world n \/ w = w1 \/ w = env w1.

Lemma heap_le_getSession w id now : heap_le w (getSession w id now).2.
Proof using Type.
  unfold getSession. pose proof (heap_le_getSessionStaged w id now) as H.
  by destruct (getSessionStaged w id now) as [[]].
Qed.

(** A lookup leaves a session as it is or retires it. *)
Lemma getSession_sess gs w id now l s : wf gs w -> w_sess w !! l = Some s ->
  w_sess (getSession w id now).2 !! l = Some s \/ w_sess (getSession w id now).2 !! l = Some (deactivateLocked s).
Proof using Type.
  intros Hw Hl. unfold getSession, getSessionStaged.
  destruct (m_sessions (w_mgr w) !! id) as [l0|] eqn:Hid; [|by left].
  destruct (w_sess w !! l0) as [s0|] eqn:Hl0; [|by left]. destruct (expiredLocked s0 _); [|by left].
  rewrite (expire_entry_eq gs) by done.
  pose proof (w_sess_drain (retire w id l0 (s_UserID s0)) id l0) as Hd.
  destruct (newExpiryDrainLocked (retire w id l0 (s_UserID s0)) id l0) as [d w1]. cbn [snd] in *.
  rewrite w_sess_notify, Hd, (retire_heap_fwd _ _ _ _ _ _ Hl). case_decide; auto.
Qed.

Lemma receive_spec gs n p a now lnow env : wf gs (n_world n) -> Forall is_byte p ->
  env_run hkdf env (getSession (n_world n) (parseOuterHeader p).1.1 lnow).2 ->
  exists n', receive n p a now lnow env = Some n' /\ handled (mid_world n p lnow env) (accept_world n p lnow env) p now n n'.
Proof using laws.
  intros Hwf Hb Henv. unfold receive.
  assert (Hmid : mid_world n p lnow env (n_world n) /\
    mid_world n p lnow env (getSession (n_world n) (parseOuterHeader p).1.1 lnow).2 /\
    mid_world n p lnow env (env (getSession (n_world n) (parseOuterHeader p).1.1 lnow).2))
    by (unfold mid_world; auto).
  revert Hmid Henv. generalize (mid_world n p lnow env). intros mid. unfold accept_world.
  destruct (parseOuterHeader p) as [[sid seq] ok] eqn:Hh. cbn [fst snd]. intros (Hm0 & Hm1 & Hm2) Henv.
  pose proof (fun acc => handled_refl mid acc p now n gs Hwf Hm0) as Hsame.
  destruct ok; cbn [negb]; [|eexists; split; [done|]; by apply handled_stat].
  pose proof (getSession_cases gs (n_world n) sid lnow Hwf) as Hg.
  pose proof (wf_getSession gs (n_world n) sid lnow Hwf) as Hwf1.
  pose proof (heap_le_getSession (n_world n) sid lnow) as Hle1.
  destruct (getSession (n_world n) sid lnow) as [[l|] w1]; cbn [snd] in *.
  2:{ eexists. split; [done|]. by apply handled_stat, (handled_world _ _ _ _ _ gs). }
  destruct Hg as (-> & Htab & s0 & Hs0 & HID0 & _). destruct (Henv gs Hwf) as (gs' & Hrun).
  destruct (rtc_wf _ _ _ Hrun Hwf) as [Hwf2 Hle2]. cbn [fst snd] in *. clear Henv Hrun.
  set (w2 := env (n_world n)) in *. destruct (Hle2 _ _ Hs0) as (s & Hs & Hev). rewrite Hs.
  pose proof (wf_sess _ _ Hwf2 _ _ Hs) as Hok.
  assert (Hsid : sid = s_ID s) by (destruct Hev; congruence). clear HID0. subst sid.
  destruct (open_session_spec p s seq Hok Hb Hh) as (r & Hr & Hauth). unfold cryptoSnapshot. rewrite Hr.
  assert (Hw2 : handled mid w2 p now n (set_world n w2)) by (by apply (handled_world _ _ _ _ _ gs')).
  destruct r as [[ch payload]|k]; [|eexists; split; [done|]; by apply handled_stat].
  specialize (Hauth _ _ eq_refl).
  destruct (validInboundChannel _ ch payload _) eqn:Hv; cbn [negb];
    [|eexists; split; [done|]; by apply handled_stat].
  assert (Hseq : is_u64 seq) by (destruct (parseOuterHeader_inv p _ _ Hb Hh) as (_ & _ & ? & _); unfold is_u64; lia).
  destruct (deliver_spec (set_world n w2) l s seq (Z.of_nat (length p)) ch payload now a p Hok Hseq Hs Hauth Hv)
    as (n' & d & s' & Hd & Hacc & Hsrv & Hworld & Htouch & new & Hout & Hfr).
  exists n'. split; [done|]. split.
  - by rewrite Hsrv.
  - exists gs'. rewrite Hworld. by eapply wf_acceptPacket.
  - rewrite Hworld. etrans; [exact Hle2|]. eapply heap_le_alter; [done|].
    intros s1 Hs1. simplify_eq. by eapply evolves_acceptPacket.
  - exists w2. split; [done|]. intros l1 s1 s1' H1 H1'. rewrite Hworld, lookup_modify in H1'.
    cbn [n_world set_world] in H1'. case_decide; [|left; congruence].
    subst l1. rewrite Hs in H1'. cbn in H1'. by simplify_eq.
  - exists new. split; [done|]. destruct Hfr as [?|(f & Hf & Hdl)]; [by left|right].
    exists f, l, s, s'. split_and!; try done.
    + destruct Hdl as [[-> _] _ _ _ _]. congruence.
    + rewrite Hworld, lookup_modify, decide_True by done. cbn [n_world set_world]. by rewrite Hs.
Qed.

(** The environment of a datagram starts after the lookup of its session. *)
Definition datagram_env (n : Net) (p : bytes) (lnow : Z) (env : World -> World) : Prop :=
  env_run hkdf env (getSession (n_world n) (parseOuterHeader p).1.1 lnow).2.

Lemma handleDatagram_spec gs n p addr now clock lnow env : wf gs (n_world n) -> Forall is_byte p ->
  datagram_env n p lnow env ->
  exists n', handleDatagram n p addr now clock lnow env = Some n' /\
    handled (mid_world n p lnow env) (accept_world n p lnow env) p now n n'.
Proof using laws.
  intros Hwf Hb Henv. unfold handleDatagram.
  set (n1 := reportStats n (bare_sample StatsPacketReceived (Z.of_nat (length p)))).
  destruct (reportStats_world n (bare_sample StatsPacketReceived (Z.of_nat (length p)))) as [Ew Es]. fold n1 in Ew, Es.
  assert (H1 : handled (mid_world n p lnow env) (accept_world n p lnow env) p now n n1).
  { eapply handled_stat, handled_refl; [done|by left]. }
  destruct addr as [a|]; [|eexists; split; [done|]; by apply handled_stat].
  destruct (Netip.AddrFromSlice (IP a)) as [ip|]; [|eexists; split; [done|]; by apply handled_stat].
  destruct (Ingress.Allow _ ip now clock) as [dec i].
  set (n2 := set_srv n1 (set_ingress (n_srv n1) i)).
  assert (H2 : handled (mid_world n p lnow env) (accept_world n p lnow env) p now n n2) by (destruct H1; by split).
  destruct dec; try (eexists; split; [done|]; by apply handled_stat).
  destruct (receive_spec gs n2 p a now lnow env) as (n' & Hr & Hh); [by rewrite <-Ew in Hwf|done| |].
  { unfold datagram_env in Henv. rewrite <-Ew in Henv. exact Henv. }
  exists n'. split; [done|]. destruct Hh as [Hs Hw Hhp Ht (new & Ho & Hf)]. unfold mid_world, accept_world in *. cbn in *.
  rewrite Ew in *. rewrite Es in *. destruct H1 as [_ _ _ _ (new1 & Ho1 & Hf1)].
  split; try done. destruct (reportStats_frames n (bare_sample StatsPacketReceived (Z.of_nat (length p))))
    as (nw & Ho' & Hf'). fold n1 in Ho'. exists (nw ++ new). rewrite Ho, Ho', <-app_assoc. split; [done|].
  unfold frames in *. rewrite omap_app, Hf'. exact Hf.
Qed.

(** ** The running server *)

Inductive nstep : Net -> Net -> Prop :=
  | n_manager n gs gs' w' : step hkdf (gs, n_world n) (gs', w') -> nstep n (set_world n w')
  | n_datagram n p addr now clock lnow env n' : Forall is_byte p -> datagram_env n p lnow env ->
      handleDatagram n p addr now clock lnow env = Some n' -> nstep n n'
  | n_send n id ct sp cs payload now env sent :
      env_run hkdf env (getSession (n_world n) id now).2 ->
      nstep n (Send n id ct sp cs payload now env sent).2
  | n_revoked n reason snap sent : nstep n (HandleRevocation n reason snap sent)
  | n_purge n items : nstep n (PurgeLoop n items)
  | n_set_frame n h : nstep n (set_srv n (SetFrameHandler (n_srv n) h).2)
  | n_set_stats n h : nstep n (set_srv n (SetStatsHandler (n_srv n) h).2)
  | n_start n pc : nstep n (set_srv n (Start (n_srv n) pc).2)
  | n_serve_exit n pc : nstep n (set_srv n (serve_exit (n_srv n) pc))
  | n_close n : nstep n (set_srv n (Close (n_srv n))).

Definition frame_key (f : InboundFrame) : SessionID * Z := (f_SessionID f, f_TransportSeq f).

(** Every delivered sequence is recorded in its session's replay window. *)
Record net_ok (n : Net) : Prop := {
  no_wf : exists gs, wf gs (n_world n);
  no_dup : NoDup (map frame_key (frames (n_out n)));
  no_seen : forall f, f ∈ frames (n_out n) -> is_u64 (f_TransportSeq f) /\
    exists l s, w_sess (n_world n) !! l = Some s /\ s_ID s = f_SessionID f /\
                Replay.WouldAccept (s_rxReplay s) (f_TransportSeq f) = false
}.

(** A transition that delivers no frame. *)
Record quiet (n n' : Net) : Prop := {
  qt_wf : (exists gs, wf gs (n_world n)) -> exists gs, wf gs (n_world n');
  qt_heap : (exists gs, wf gs (n_world n)) -> heap_le (n_world n) (n_world n');
  qt_out : frames (n_out n') = frames (n_out n)
}.

Lemma quiet_ok n n' : quiet n n' -> net_ok n -> net_ok n'.
Proof using Type.
  intros [Hw Hh Ho] [Hwf Hd Hs]. split; [auto|by rewrite Ho|].
  intros f Hf. rewrite Ho in Hf. destruct (Hs f Hf) as (Hq & l & s & Hl & Hid & Hwa). split; [done|].
  destruct (Hh Hwf _ _ Hl) as (s' & Hl' & Hev). exists l, s'. destruct Hev. split_and!; [done|congruence|by auto].
Qed.

#[local] Instance quiet_preorder : PreOrder quiet.
Proof using Type.
  split.
  - by intros n; split.
  - intros n1 n2 n3 [A1 B1 C1] [A2 B2 C2]. split; [by auto| |congruence].
    intros H. etrans; [by apply B1|by apply B2, A1].
Qed.

Lemma quiet_stat n k : quiet n (reportStats n k).
Proof using Type.
  destruct (reportStats_world n k) as [Ew _], (reportStats_frames n k) as (new & Ho & Hf).
  split; [by rewrite Ew..|]. rewrite Ho. unfold frames in *. by rewrite omap_app, Hf, app_nil_r.
Qed.

Lemma quiet_write n pk r sent : quiet n (write_packet n pk r sent).2.
Proof using Type.
  unfold write_packet. destruct (packetConn _); [destruct sent|]; [|done..].
  split; [done..|]. cbn. unfold frames. by rewrite omap_app, app_nil_r.
Qed.

Lemma quiet_world n w' : (forall gs, wf gs (n_world n) -> (exists gs', wf gs' w') /\ heap_le (n_world n) w') ->
  quiet n (set_world n w').
Proof using Type. intros H. split; [intros [gs Hw]; by destruct (H gs Hw)..|done]. Qed.

Lemma quiet_srv n s : quiet n (set_srv n s).
Proof using Type. by split. Qed.

Lemma step_any_ghost gs w gs' w' gs2 : step hkdf (gs, w) (gs', w') -> exists gs2', step hkdf (gs2, w) (gs2', w').
Proof using Type. intros H. inversion H; subst; eexists; by econstructor. Qed.

Lemma quiet_manager n gs gs' w' : step hkdf (gs, n_world n) (gs', w') -> quiet n (set_world n w').
Proof using Type.
  intros Hst. apply quiet_world. intros gs2 Hw. destruct (step_any_ghost _ _ _ _ gs2 Hst) as (gs2' & Hst').
  pose proof (step_wf _ _ _ Hst' Hw). pose proof (step_heap_le _ _ _ Hst' Hw). eauto.
Qed.

(** A lookup, what the environment does after it, and a change of the session found. *)
Lemma lookup_run gs w id now env : wf gs w -> env_run hkdf env (getSession w id now).2 ->
  (wf gs (getSession w id now).2 /\ heap_le w (getSession w id now).2) /\
  exists gs', wf gs' (env (getSession w id now).2) /\ heap_le w (env (getSession w id now).2).
Proof using Type.
  intros Hw Henv. pose proof (wf_getSession gs w id now Hw) as Hw1. pose proof (heap_le_getSession w id now) as Hl1.
  destruct (Henv gs Hw1) as (gs' & Hrun). destruct (rtc_wf _ _ _ Hrun Hw1) as [Hw2 Hl2].
  split; [done|]. exists gs'. split; [done|]. by etrans.
Qed.

Lemma quiet_Send n id ct sp cs payload now env sent : env_run hkdf env (getSession (n_world n) id now).2 ->
  quiet n (Send n id ct sp cs payload now env sent).2.
Proof using Type.
  intros Henv. unfold Send. repeat (case_match; [apply quiet_stat|]).
  pose proof (fun gs Hw => lookup_run gs _ id now env Hw Henv) as Hlk.
  destruct (getSession (n_world n) id now) as [[l|] w1]; cbn [snd] in *.
  2:{ etrans; [apply (quiet_world n w1)|apply quiet_stat]. intros gs Hw. destruct (Hlk gs Hw) as [[? ?] _]. eauto. }
  destruct (w_sess (env w1) !! l) as [s|] eqn:Hs.
  2:{ etrans; [apply (quiet_world n (env w1))|apply quiet_stat]. intros gs Hw. by destruct (Hlk gs Hw) as [_ (? & ? & ?)]; eauto. }
  assert (Hq : quiet n (set_world n (modify (env w1) l (fun _ => (reserveSendSeq s).2)))).
  { apply quiet_world. intros gs Hw. destruct (Hlk gs Hw) as [_ (gs' & Hw2 & Hle)].
    split; [eexists; by apply (wf_reserve gs')|]. etrans; [done|].
    eapply heap_le_alter; [done|]. intros s0 Hs0. simplify_eq. apply evolves_reserve. }
  destruct (reserveSendSeq s) as [[g|e] s']; cbn [snd] in Hq; [|etrans; [exact Hq|apply quiet_stat]].
  destruct (g_remote g) as [r|]; [|etrans; [exact Hq|apply quiet_stat]].
  case_match; [etrans; [exact Hq|apply quiet_stat]|].
  destruct (buildPacket _ _ _ _ _ _) as [pk|e]; [|etrans; [exact Hq|apply quiet_stat]].
  etrans; [exact Hq|].
  match goal with |- context [write_packet ?m ?a ?b ?c] => pose proof (quiet_write m a b c) as Hq2;
    destruct (write_packet m a b c) as [[e|] n2] end; cbn [snd] in Hq2; (etrans; [exact Hq2|apply quiet_stat]).
Qed.

Lemma quiet_revoked n reason snap sent : quiet n (HandleRevocation n reason snap sent).
Proof using Type.
  unfold HandleRevocation, sendRevoked. destruct (rv_Remote snap); [|apply quiet_stat].
  case_match; [apply quiet_stat|]. destruct (buildPacket _ _ _ _ _ _) as [pk|e]; [|apply quiet_stat].
  match goal with |- context [write_packet ?m ?a ?b ?c] => pose proof (quiet_write m a b c) as Hq2;
    destruct (write_packet m a b c) as [[e|] n2] end; cbn [snd] in *; (etrans; [exact Hq2|apply quiet_stat]).
Qed.

Lemma quiet_purge n items : quiet n (PurgeLoop n items).
Proof using hkdf.
  revert n. induction items as [|[order pn sn|] items IH]; intros n; [done| |done]. cbn [PurgeLoop].
  etrans; [|apply IH]. etrans; [|apply quiet_srv].
  apply (quiet_manager n [] []). apply step_purge.
Qed.

Lemma nstep_ok n n' : nstep n n' -> net_ok n -> net_ok n'.
Proof using laws.
  intros Hst. destruct Hst; try by (apply quiet_ok; auto using quiet_srv, quiet_revoked, quiet_purge, quiet_Send).
  - by eapply quiet_ok, quiet_manager.
  - intros [[gs Hw] Hd Hs].
    destruct (handleDatagram_spec gs n p addr now clock lnow env Hw H H0) as (n2 & E & [_ Hw2 Hle _ (new & Ho & Hf)]).
    rewrite H1 in E. simplify_eq. destruct Hf as [Hf|(f & l & s & s' & Hf & Htab & Hacc & Hl' & Hdl)].
    + eapply quiet_ok; [|exact (Build_net_ok _ (ex_intro _ gs Hw) Hd Hs)]. split; try done. rewrite Ho. unfold frames in *.
      by rewrite omap_app, Hf, app_nil_r.
    + destruct (wf_table _ _ Hw _ _ Htab) as (s0 & Hl & HID0 & _).
      destruct (lookup_run gs _ _ _ env Hw H0) as [_ (gs2 & _ & Hmid)].
      destruct (Hmid _ _ Hl) as (s2 & Hs2 & Hev). unfold accept_world in Hacc. assert (s2 = s) as -> by congruence.
      destruct Hdl as [[Hid _] _ _ [Hq _ _ _ Hfresh] Hrec].
      split; [done| |].
      * rewrite Ho. unfold frames in *. rewrite omap_app, map_app, Hf. apply NoDup_app. split_and!; [done| |apply NoDup_singleton].
        intros k Hk Hk'. apply list_elem_of_singleton in Hk' as ->. apply list_elem_of_fmap in Hk as (f' & Ek & Hk).
        destruct (Hs f' Hk) as (Hq' & l' & t & Ht & Hid' & Hwa). unfold frame_key in Ek.
        pose proof (f_equal fst Ek) as Ei. pose proof (f_equal snd Ek) as Es. cbn in Ei, Es.
        assert (l' = l) as -> by (apply (wf_ids _ _ Hw l' l t s0); [done..|]; destruct Hev; congruence).
        assert (t = s0) as -> by congruence. destruct Hev as [_ _ _ _ Hrep _].
        rewrite Es, (Hrep _ Hq' Hwa) in Hfresh. done.
      * intros f' Hf'. rewrite Ho in Hf'. unfold frames in *. rewrite omap_app, elem_of_app, Hf in Hf'. destruct Hf' as [Hf'|Hf'].
        -- destruct (Hs f' Hf') as (Hq' & l' & t & Ht & Hid' & Hwa). split; [done|].
           destruct (Hle _ _ Ht) as (t' & Ht' & Hev'). exists l', t'. destruct Hev'. split_and!; [done|congruence|by auto].
        -- apply list_elem_of_singleton in Hf' as ->. split; [done|]. exists l, s'. split_and!; [done| |done].
           destruct (Hle _ _ Hl) as (t' & Ht' & Hev'). destruct Hev', Hev. congruence.
Qed.

Lemma boot_ok self lim w0 srv : NewManagerWithLimits self lim = Ok w0 -> net_ok (mkNet srv w0 []).
Proof using Type.
  intros H. split; [exists []; by eapply initial_wf|apply NoDup_nil_2|].
  intros f Hf. by apply not_elem_of_nil in Hf.
Qed.

(** A server state reached from a fresh manager and any server configuration. *)
Definition nreachable (self : nat) (lim : Limits) (srv : UDPServer) (n : Net) : Prop :=
  exists w0, NewManagerWithLimits self lim = Ok w0 /\ rtc nstep (mkNet srv w0 []) n.

Lemma nreachable_ok self lim srv n : nreachable self lim srv n -> net_ok n.
Proof using laws.
  intros (w0 & H0 & Hr). apply (boot_ok self lim w0 srv) in H0. revert H0.
  induction Hr as [|x y z Hxy _ IH]; [done|]. intros Hx. apply IH. by eapply nstep_ok.
Qed.

(** C3: Replay protection end to end: over any interleaving of datagrams from any
    sender, sends, session replacements, revocations, expiries and restarts of
    the read loop, no two frames handed to the relay carry the same session
    identifier and transport sequence. *)
Theorem frames_never_replayed self lim srv n : nreachable self lim srv n ->
  NoDup (map frame_key (frames (n_out n))).
Proof using laws. intros Hr%nreachable_ok. by destruct Hr. Qed.

(** C16: The read pipeline never panics and delivers only what it should: for every
    byte string from any address, with other goroutines running after the
    session lookup, [handleDatagram] returns, and it hands at most one frame to
    the relay.  A frame names a session that was registered at lookup and is
    active in the world in which the packet is accepted, after whatever the
    others did; it carries the session's user, a registered media channel and a
    payload within the limit; the datagram is exactly the encoding of the frame
    under that session's client key, its sequence was acceptable and is now
    refused. *)
Theorem datagram_sound self lim srv n p addr now clock lnow env : nreachable self lim srv n ->
  Forall is_byte p -> datagram_env n p lnow env ->
  exists n' new, handleDatagram n p addr now clock lnow env = Some n' /\ n_out n' = n_out n ++ new /\
    (frames new = [] \/ exists f l s s', frames new = [f] /\
       m_sessions (w_mgr (n_world n)) !! f_SessionID f = Some l /\
       w_sess (accept_world n p lnow env) !! l = Some s /\ s_active s = true /\ w_sess (n_world n') !! l = Some s' /\
       delivered (u_registry (n_srv n)) p s s' f).
Proof using laws.
  intros Hr%nreachable_ok Hb Henv. destruct Hr as [[gs Hw] _ _].
  destruct (handleDatagram_spec gs n p addr now clock lnow env Hw Hb Henv) as (n' & E & [_ _ _ _ (new & Ho & Hf)]).
  exists n', new. split_and!; [done..|]. destruct Hf as [?|(f & l & s & s' & H1 & H2 & H3 & H4 & H5)]; [by left|right].
  exists f, l, s, s'. split_and!; try done. by destruct H5 as [_ _ _ [_ _ _ ? _] _].
Qed.

(** An invalid packet never extends a session or moves its peer: if handling a
    datagram changes the deadline, the peer address or the replay window of an
    existing session, then the datagram is authentic for that session's key,
    is valid for its channel and has an acceptable sequence, and the deadline is
    90 s after the arrival time. *)
Theorem only_admitted_refresh self lim srv n p addr now clock lnow n' l s s' :
  nreachable self lim srv n -> Forall is_byte p ->
  handleDatagram n p addr now clock lnow (fun w => w) = Some n' ->
  w_sess (n_world n) !! l = Some s -> w_sess (n_world n') !! l = Some s' ->
  (s_ExpiresAt s', s_remote s', s_rxReplay s') <> (s_ExpiresAt s, s_remote s, s_rxReplay s) ->
  s_ExpiresAt s' = unix_milli now + 90000 /\
  exists seq ch payload, admitted (u_registry (n_srv n)) p s seq ch payload.
Proof using laws hkdf.
  intros Hr%nreachable_ok Hb E Hl Hl' Hne. destruct Hr as [[gs Hw] _ _].
  destruct (handleDatagram_spec gs n p addr now clock lnow (fun w => w) Hw Hb (env_run_id _ _))
    as (n2 & E2 & [_ _ _ (w2 & Hmid & Ht) _]). rewrite E in E2. simplify_eq.
  assert (Hs2 : w_sess w2 !! l = Some s \/ w_sess w2 !! l = Some (deactivateLocked s)).
  { destruct Hmid as [->|Hmid]; [by left|]. assert (w2 = (getSession (n_world n) (parseOuterHeader p).1.1 lnow).2) as -> by tauto.
    apply (getSession_sess gs); [done|done]. }
  destruct Hs2 as [Hs2|Hs2]; destruct (Ht _ _ _ Hs2 Hl') as [E1|[E1|(seq & ch & pl & Ha & _ & Hexp)]];
    try (exfalso; apply Hne; rewrite E1; reflexivity).
  - split; [done|]. eauto.
  - destruct Ha as [_ _ _ Hact _]. by cbn in Hact.
Qed.

(** ** End-to-end delivery *)

Lemma open_built s seq ch payload p : session_ok s -> 0 < seq < u64_mod -> channel_wf ch ->
  Forall is_byte payload -> (length payload <= MaxPayload (s_encrypted s))%nat ->
  authentic p s seq ch payload ->
  parseOuterHeader p = (s_ID s, seq, true) /\
  open_datagram p seq (s_encrypted s) (s_c2sAEAD s) = Some (Ok (ch, payload)).
Proof using laws.
  intros Hok Hseq Hch Hb Hlen Hau. pose proof (so_id _ Hok) as Hid.
  assert (Hk : s_encrypted s = true -> length (inbound_key s) = masterKeySize) by (intros; by apply session_aead).
  unfold authentic in Hau. rewrite EncodePacket_eq in Hau by (done || lia). injection Hau as <-.
  pose proof (MinMax_payload (s_encrypted s)) as Hmm.
  assert (Hh : parseOuterHeader (putOuterHeader (s_ID s) seq ++
    body_of (s_encrypted s) (inbound_key s) (s_ID s) seq (putChannelHeader ch ++ payload)) = (s_ID s, seq, true)).
  { apply parse_putOuterHeader; [done..|].
    pose proof (packet_length (s_encrypted s) (inbound_key s) (s_ID s) seq ch payload Hid) as HL.
    rewrite length_app, putOuterHeader_length in HL by done. unfold HeaderSize, MaxPacketSize in *. lia. }
  split; [done|]. pose proof (open_session _ s _ _ Hok Hh) as Ha. unfold open_agrees in Ha.
  rewrite decode_built in Ha by (done || lia).
  destruct (open_datagram _ _ _ _) as [[[ch' pl']|k]|]; [|destruct Ha as (d & [= <-] & Hd)|]; [|done..].
  by injection Ha as -> ->.
Qed.

Lemma admitted_accepts s seq now a : session_ok s -> is_u64 seq -> s_active s = true ->
  Replay.WouldAccept (s_rxReplay s) seq = true -> (TokenBucket.TakeAt (s_rxBudget s) now).1 = true ->
  exists s', acceptPacket s seq now (Some a) = Some (receiveAccepted, s').
Proof using Type.
  intros [_ _ [spec Href] _ _ _] Hseq Ha Hw Ht.
  destruct (acceptPacket_cases s spec seq now (Some a) Href Hseq) as (d & s' & -> & Hout).
  rewrite (Replay.WouldAccept_spec _ _ _ Href Hseq) in Hw. unfold accept_outcome in Hout.
  destruct d; [eauto|..]; exfalso.
  - destruct Hout as (_ & _ & ? & _). congruence.
  - destruct Hout as (_ & _ & _ & Et & _). by rewrite Et in Ht.
  - destruct Hout as (_ & ? & _). congruence.
Qed.

(** A legitimate client is heard: when a registered, unexpired session's client
    sends a frame of a registered media channel, encoded with its key and an
    acceptable sequence, and both the ingress limiter and the session budget
    have room, the relay receives exactly that frame. *)
Theorem client_frame_delivered self lim srv n l s seq ct cs payload p a ip i now clock lnow :
  nreachable self lim srv n -> m_sessions (w_mgr (n_world n)) !! s_ID s = Some l ->
  w_sess (n_world n) !! l = Some s -> expiredLocked s (unix_milli lnow) = false ->
  0 < seq < u64_mod -> is_byte ct -> ct <> HeartbeatChannelType -> is_u16 cs -> Forall is_byte payload ->
  (length payload <= MaxPayload (s_encrypted s))%nat ->
  Registered (u_registry (n_srv n)) ct = true -> u_onFrame (n_srv n) = true ->
  EncodePacket (s_ID s) seq (s_encrypted s) (inbound_key s) (mkChannel ct cs 0 0) payload = Ok p ->
  Netip.AddrFromSlice (IP a) = Some ip ->
  Ingress.Allow (u_ingress (n_srv n)) ip now clock = (Ingress.IngressAllowed, i) ->
  Replay.WouldAccept (s_rxReplay s) seq = true -> (TokenBucket.TakeAt (s_rxBudget s) now).1 = true ->
  exists n' new, handleDatagram n p (Some a) now clock lnow (fun w => w) = Some n' /\
    n_out n' = n_out n ++ new /\
    frames new = [mkFrame (s_UserID s) (s_ID s) ct cs seq payload].
Proof using laws.
  intros Hr Htab Hl Hexp Hseq Hct Hmedia Hcs Hb Hlen Hreg Hon Henc Hip Hallow Hwa Htake.
  apply nreachable_ok in Hr as [[gs Hw] _ _]. pose proof (wf_sess _ _ Hw _ _ Hl) as Hok.
  assert (Hact : s_active s = true) by (destruct (wf_table _ _ Hw _ _ Htab) as (s1 & ? & ? & ? & _); congruence).
  destruct (open_built s seq (mkChannel ct cs 0 0) payload p Hok Hseq) as [Hh Hopen]; [unfold channel_wf, is_i64, is_u16, is_byte in *; cbn; lia|done..|].
  assert (Hu : is_u64 seq) by (unfold is_u64; lia).
  destruct (admitted_accepts s seq now a Hok Hu Hact Hwa Htake) as (s' & Hacc).
  unfold handleDatagram. set (n1 := reportStats n _).
  destruct (reportStats_world n (bare_sample StatsPacketReceived (Z.of_nat (length p)))) as [Ew Es]. fold n1 in Ew, Es.
  destruct (reportStats_frames n (bare_sample StatsPacketReceived (Z.of_nat (length p)))) as (new1 & Ho1 & Hf1). fold n1 in Ho1.
  rewrite Hip, Es, Hallow. unfold receive. rewrite Hh. cbn [negb].
  unfold getSession, getSessionStaged. cbn [n_world set_srv]. rewrite Ew, Htab, Hl, Hexp. cbn [set_world n_world n_srv].
  rewrite Hl. unfold cryptoSnapshot. rewrite Hopen. unfold set_ingress. cbn [u_registry set_srv n_srv].
  unfold validInboundChannel. cbn [Flags ChannelType SpeakerID ChannelSeq]. rewrite Z.eqb_refl. cbn [negb].
  rewrite (proj2 (Z.eqb_neq _ _) Hmedia), Hreg, (proj2 (Nat.leb_le _ _) Hlen). cbn [negb].
  unfold deliver. rewrite Hacc. cbn [ChannelType ChannelSeq]. rewrite (proj2 (Z.eqb_neq _ _) Hmedia).
  cbn [set_world n_srv u_onFrame]. rewrite Hon.
  eexists. match goal with |- context [Some (reportStats ?m ?k) = _] =>
    destruct (reportStats_frames m k) as (new2 & Ho2 & Hf2) end.
  exists (new1 ++ OFrame (mkFrame (s_UserID s) (s_ID s) ct cs seq payload) :: new2). split; [done|].
  rewrite Ho2. cbn [n_out n_srv u_onFrame output set_srv set_world]. rewrite Ho1, <-!app_assoc. split; [done|].
  unfold frames in *. rewrite omap_app, Hf1. cbn. by rewrite Hf2.
Qed.

(** ** Sending *)

Definition write_of (o : Out) : option (bytes * UDPAddr) :=
  match o with OWrite pk r => Some (pk, r) | _ => None end.
Definition writes (os : list Out) : list (bytes * UDPAddr) := omap write_of os.

(** The key a session's server-to-client packets are sealed with. *)
Definition outbound_key (s : Session) : bytes := default [] (s_s2cAEAD s).

Lemma reportStats_writes n k : writes (n_out (reportStats n k)) = writes (n_out n).
Proof using Type.
  unfold reportStats, writes. destruct (u_statsHandler _); [|done]. cbn. by rewrite omap_app, app_nil_r.
Qed.

Lemma buildPacket_outbound s seq ch payload : session_ok s ->
  buildPacket (s_ID s) seq (s_encrypted s) (s_s2cAEAD s) ch payload =
  buildPacket (s_ID s) seq (s_encrypted s) (if s_encrypted s then Some (outbound_key s) else None) ch payload /\
  (s_encrypted s = true -> length (outbound_key s) = masterKeySize).
Proof using Type.
  intros [_ _ _ Hk _ _]. unfold outbound_key, buildPacket. destruct (s_encrypted s); [|done].
  destruct (Hk eq_refl) as (c & k & _ & -> & _ & ?). done.
Qed.

(** What a successful [Send] did with session [s] at [l]. *)
Record sent_frame (id : SessionID) (ct cs sp : Z) (payload : bytes) (s : Session) (n n' : Net) (l : loc) : Prop := {
  sf_session : s_ID s = id /\ s_active s = true /\ s_sendSeq s < max_u64;
  sf_seq : w_sess (n_world n') !! l = Some (with_sendSeq s (s_sendSeq s + 1));
  sf_write : exists pk r, s_remote s = Some r /\ writes (n_out n') = writes (n_out n) ++ [(pk, r)] /\
    (length pk <= MaxPacketSize)%nat /\
    DecodePacket pk (s_encrypted s) (Some (outbound_key s)) =
      Some (mkDecoded id (s_sendSeq s + 1) (mkChannel ct cs 0 sp) payload true)
}.

Lemma Send_cases gs n id ct sp cs payload now env sent : wf gs (n_world n) ->
  env_run hkdf env (getSession (n_world n) id now).2 ->
  Forall is_byte payload -> is_byte ct -> is_u16 cs -> is_i64 sp ->
  match Send n id ct sp cs payload now env sent with
  | (None, n') => exists l s, m_sessions (w_mgr (n_world n)) !! id = Some l /\
      w_sess (env (getSession (n_world n) id now).2) !! l = Some s /\ sent_frame id ct cs sp payload s n n' l
  | (Some _, n') => writes (n_out n') = writes (n_out n)
  end.
Proof using laws.
  intros Hw Henv Hb Hct Hcs Hsp. unfold Send.
  destruct (ct =? HeartbeatChannelType); [apply reportStats_writes|].
  destruct (sp <=? 0); [apply reportStats_writes|]. destruct (negb (Registered _ _)); [apply reportStats_writes|].
  pose proof (getSession_cases gs (n_world n) id now Hw) as Hg.
  destruct (lookup_run gs (n_world n) id now env Hw Henv) as [_ (gs' & Hw2 & Hle)].
  destruct (getSession (n_world n) id now) as [[l|] w1]; cbn [snd] in *; [|by rewrite reportStats_writes].
  destruct Hg as (-> & Htab & s0 & Hs0 & HID & _). destruct (Hle _ _ Hs0) as (s & Hs & Hev).
  rewrite Hs. pose proof (wf_sess _ _ Hw2 _ _ Hs) as Hok.
  assert (Hid : s_ID s = id) by (destruct Hev; congruence).
  destruct (reserveSendSeq_cases s Hok) as [[_ ->]|[(_ & _ & ->)|(Ha & Hlt & ->)]];
    [by rewrite reportStats_writes..|]. cbn [g_remote g_encrypted g_seq g_s2cAEAD].
  destruct (s_remote s) as [r|] eqn:Hr; [|by rewrite reportStats_writes].
  destruct (_ <? _)%nat eqn:Hlen; [by rewrite reportStats_writes|]. apply Nat.ltb_ge in Hlen. rewrite <-Hid.
  destruct (buildPacket_outbound s (s_sendSeq s + 1) (mkChannel ct cs 0 sp) payload Hok) as [-> Hk].
  pose proof (so_seq _ Hok). pose proof (so_id _ Hok) as Hlid. rewrite buildPacket_eq by (done || lia).
  unfold write_packet. destruct (packetConn _); [|by rewrite reportStats_writes].
  destruct sent; [|by rewrite reportStats_writes]. exists l, s. split_and!; [congruence|done|].
  split; [done| |].
  - match goal with |- context [reportStats ?m ?k] => rewrite (proj1 (reportStats_world m k)) end.
    cbn [n_world output set_world]. by rewrite lookup_modify, decide_True, Hs.
  - eexists _, r. split; [done|]. split.
    { rewrite reportStats_writes. cbn [n_out output set_world]. unfold writes. by rewrite omap_app. }
    rewrite packet_length by done. pose proof (MinMax_payload (s_encrypted s)). split; [lia|].
    unfold max_u64 in *. apply decode_built; try done;
      unfold channel_wf, is_i64, is_u16, is_byte, u64_mod in *; cbn; lia.
Qed.

(** [Send] is sound on every branch.  Whatever other goroutines do after its
    lookup, a failed [Send] writes nothing; a successful one writes exactly one
    datagram of at most 1200 bytes to the peer the session has learnt, the
    session was registered at lookup and active at reservation, its send
    sequence advanced by one, and the client decodes the datagram with its
    server-to-client key to the given channel, speaker and payload. *)
Theorem Send_sound self lim srv n id ct sp cs payload now env sent : nreachable self lim srv n ->
  env_run hkdf env (getSession (n_world n) id now).2 ->
  Forall is_byte payload -> is_byte ct -> is_u16 cs -> is_i64 sp ->
  match Send n id ct sp cs payload now env sent with
  | (None, n') => exists l s, m_sessions (w_mgr (n_world n)) !! id = Some l /\
      w_sess (env (getSession (n_world n) id now).2) !! l = Some s /\ sent_frame id ct cs sp payload s n n' l
  | (Some _, n') => writes (n_out n') = writes (n_out n)
  end.
Proof using laws. intros Hr%nreachable_ok. destruct Hr as [[gs Hw] _ _]. by apply (Send_cases gs). Qed.

End Receive.

(** ** Server lifecycle *)

Inductive lstep : UDPServer -> UDPServer -> Prop :=
  | l_set_frame s h : lstep s (SetFrameHandler s h).2
  | l_set_stats s h : lstep s (SetStatsHandler s h).2
  | l_start s pc : lstep s (Start s pc).2
  | l_serve_exit s pc : lstep s (serve_exit s pc)
  | l_close s : lstep s (Close s).

(** Once started, the wiring never changes again; started and closed are final. *)
Lemma lstep_frozen s s' : lstep s s' ->
  (u_started s = true -> u_started s' = true /\ u_onFrame s' = u_onFrame s /\
    u_statsHandler s' = u_statsHandler s /\ u_registry s' = u_registry s /\
    (u_conn s' = u_conn s \/ u_conn s' = None)) /\
  (u_closed s = true -> u_closed s' = true /\ u_started s' = u_started s /\
    u_onFrame s' = u_onFrame s /\ u_statsHandler s' = u_statsHandler s).
Proof.
  intros Hst. destruct Hst; unfold SetFrameHandler, SetStatsHandler, Start, Close, serve_exit.
  - destruct (u_closed s) eqn:?, (u_started s) eqn:?; split; intros; cbn; try done; split_and!; auto.
  - destruct (u_closed s) eqn:?, (u_started s) eqn:?; split; intros; cbn; try done; split_and!; auto.
  - destruct pc; [|split; intros; split_and!; auto].
    destruct (u_closed s) eqn:?, (u_started s) eqn:?; split; intros; cbn; try done; split_and!; auto.
  - split; intros; cbn; split_and!; auto. case_decide; auto.
  - split; intros; case_match; cbn; split_and!; auto.
Qed.

(** The startup barrier: after one successful [Start] no later call changes the
    frame callback, the stats callback or the (sealed) channel registry, no
    second [Start] succeeds, the served connection is the first one or none,
    and after [Close] every [Start] and handler change fails for good. *)
Theorem startup_barrier s s' pc pc' h :
  (Start s (Some pc)).1 = None -> rtc lstep (Start s (Some pc)).2 s' ->
  u_onFrame s' = u_onFrame s /\ u_statsHandler s' = u_statsHandler s /\
  u_registry s' = Registry.Seal (u_registry s) /\ (u_conn s' = Some pc \/ u_conn s' = None) /\
  (Start s' pc').1 <> None /\ (SetFrameHandler s' h).1 <> None /\
  (forall s'', rtc lstep (Close s') s'' -> u_closed s'' = true /\ (Start s'' pc').1 <> None /\
     (SetFrameHandler s'' h).1 = Some ErrUDPServerClosed).
Proof.
  intros Hok Hrun. unfold Start in Hok, Hrun.
  destruct (u_closed s) eqn:Hc; [done|]. destruct (u_started s) eqn:Hs; [done|]. clear Hok.
  assert (Hfz : forall a b, rtc lstep a b -> u_started a = true ->
    u_started b = true /\ u_onFrame b = u_onFrame a /\ u_statsHandler b = u_statsHandler a /\
    u_registry b = u_registry a /\ (u_conn b = u_conn a \/ u_conn b = None)).
  { induction 1 as [|a b c Hab _ IH]; intros Ha; [split_and!; auto|].
    destruct (proj1 (lstep_frozen _ _ Hab) Ha) as (H1 & H2 & H3 & H4 & H5).
    destruct (IH H1) as (H6 & H7 & H8 & H9 & H10). split_and!; [done|congruence..|].
    destruct H5, H10; (left; congruence) || (right; congruence). }
  destruct (Hfz _ _ Hrun eq_refl) as (H1 & H2 & H3 & H4 & H5). cbn [snd u_onFrame u_statsHandler u_registry u_conn] in *.
  split_and!; try done.
  - unfold Start. destruct pc'; [|done]. rewrite H1. by destruct (u_closed s').
  - unfold SetFrameHandler. rewrite H1. by destruct (u_closed s').
  - intros s'' Hr''. assert (Hcl : u_closed s'' = true).
    { assert (Hc' : u_closed (Close s') = true) by (unfold Close; by case_match).
      revert Hc'. clear -Hr''. induction Hr'' as [|a b c Hab _ IH]; [done|]. intros Ha.
      apply IH. by apply (lstep_frozen _ _ Hab). }
    split; [done|]. unfold Start, SetFrameHandler. rewrite Hcl. split; [by destruct pc'|done].
Qed.

(** ** A concrete run: the session of [ex4] on a started server *)

Definition ex_srv : UDPServer :=
  mkServer (Registry.Seal (Register NewChannelTypeRegistry 1 (mkCaps "mic" "voice" false)).2) true true
    (Ingress.mkLimiter Ingress.DefaultIngressLimits
       (TokenBucket.NewTokenBucket (Float64.of_int 20000) 40000 0) ∅)
    (Some 0%nat) true false [].
Definition ex_net : Net := mkNet ex_srv ex4 [].
Definition ex_addr : UDPAddr := mkUDPAddr [127; 0; 0; 1] 4000 EmptyString.
Definition ex_packet : bytes :=
  putOuterHeader (ex_id 2) 1 ++ putChannelHeader (mkChannel 1 5 0 0) ++ [10; 20].
Definition ex_session : Session := ex_s 2 Second "desktop".

Lemma manager_run srv o st st' : rtc (step ex_hkdf) st st' ->
  rtc (nstep (cipher := checksum_aead) ex_hkdf) (mkNet srv st.2 o) (mkNet srv st'.2 o).
Proof.
  induction 1 as [|[gs1 w1] [gs2 w2] st3 H12 _ IH]; [apply rtc_refl|].
  eapply rtc_l; [|exact IH]. exact (n_manager ex_hkdf (mkNet srv w1 o) gs1 gs2 w2 H12).
Qed.

Lemma ex_net_reachable : nreachable (cipher := checksum_aead) ex_hkdf 0 DefaultLimits ex_srv ex_net.
Proof.
  destruct ex4_reachable as (w0 & H0 & Hr). exists w0. split; [done|].
  exact (manager_run ex_srv [] _ _ Hr).
Qed.

Lemma ex_packet_bytes : Forall is_byte ex_packet.
Proof. apply (bool_decide_eq_true_1 _). by vm_compute. Qed.

Definition ex_net1 : Net :=
  default ex_net (handleDatagram (cipher := checksum_aead) ex_net ex_packet (Some ex_addr) Second Second Second (fun w => w)).

Lemma ex_handled :
  handleDatagram (cipher := checksum_aead) ex_net ex_packet (Some ex_addr) Second Second Second (fun w => w) = Some ex_net1.
Proof. by vm_compute. Qed.

Lemma frames_never_replayed_witness :
  NoDup (map frame_key (frames (n_out ex_net1))) /\ map frame_key (frames (n_out ex_net1)) = [(ex_id 2, 1)].
Proof.
  split; [|by vm_compute]. apply (frames_never_replayed (cipher := checksum_aead) ex_hkdf 0 DefaultLimits ex_srv).
  destruct ex_net_reachable as (w0 & H0 & Hr). exists w0. split; [exact H0|].
  eapply rtc_r; [exact Hr|]. exact (n_datagram ex_hkdf ex_net ex_packet (Some ex_addr) Second Second Second
    (fun w => w) ex_net1 ex_packet_bytes (env_run_id _ _) ex_handled).
Defined.

Lemma datagram_sound_witness : exists n' new,
  handleDatagram (cipher := checksum_aead) ex_net ex_packet (Some ex_addr) Second Second Second (fun w => w) = Some n' /\
  n_out n' = n_out ex_net ++ new.
Proof.
  destruct (datagram_sound (cipher := checksum_aead) ex_hkdf 0 DefaultLimits ex_srv ex_net ex_packet (Some ex_addr)
    Second Second Second (fun w => w) ex_net_reachable ex_packet_bytes (env_run_id _ _)) as (n' & new & H1 & H2 & _).
  exists n', new. exact (conj H1 H2).
Defined.

Lemma only_admitted_refresh_witness : exists s', w_sess (n_world ex_net1) !! 2%nat = Some s' /\
  s_ExpiresAt s' = unix_milli Second + 90000.
Proof.
  assert (Hs : exists s', w_sess (n_world ex_net1) !! 2%nat = Some s' /\ s_remote s' = Some ex_addr)
    by (eexists; by vm_compute).
  destruct Hs as (s' & Hs' & Hr). exists s'. split; [exact Hs'|].
  apply (only_admitted_refresh (cipher := checksum_aead) ex_hkdf 0 DefaultLimits ex_srv ex_net ex_packet (Some ex_addr)
    Second Second Second ex_net1 2%nat ex_session s' ex_net_reachable ex_packet_bytes ex_handled (proj1 ex4_live) Hs').
  intros E. apply (f_equal (fun x => x.1.2)) in E. cbn in E. rewrite Hr in E. discriminate E.
Defined.

Lemma client_frame_delivered_witness : exists n' new,
  handleDatagram (cipher := checksum_aead) ex_net ex_packet (Some ex_addr) Second Second Second (fun w => w) = Some n' /\
  n_out n' = n_out ex_net ++ new /\ frames new = [mkFrame 7 (ex_id 2) 1 5 1 [10; 20]].
Proof.
  assert (H4 : 0 < 1 < u64_mod) by done. assert (H5 : is_byte 1) by done.
  assert (H6 : 1 <> HeartbeatChannelType) by done. assert (H7 : is_u16 5) by done.
  assert (H8 : Forall is_byte [10; 20]) by (by repeat constructor).
  assert (H9 : (length [10; 20] <= MaxPayload (s_encrypted ex_session))%nat) by (vm_compute; lia).
  assert (Ha : (Ingress.Allow (u_ingress (n_srv ex_net)) (Netip.Addr4 [127; 0; 0; 1]) Second Second).1
               = Ingress.IngressAllowed) by (by vm_compute).
  destruct (Ingress.Allow (u_ingress (n_srv ex_net)) (Netip.Addr4 [127; 0; 0; 1]) Second Second) as [d i] eqn:Hal.
  cbn in Ha. subst d.
  apply (client_frame_delivered (cipher := checksum_aead) ex_hkdf 0 DefaultLimits ex_srv ex_net 2%nat ex_session
    1 1 5 [10; 20] ex_packet ex_addr (Netip.Addr4 [127; 0; 0; 1]) i Second Second Second ex_net_reachable).
  - by vm_compute.
  - exact (proj1 ex4_live).
  - by vm_compute.
  - exact H4.
  - exact H5.
  - exact H6.
  - exact H7.
  - exact H8.
  - exact H9.
  - by vm_compute.
  - by vm_compute.
  - by vm_compute.
  - by vm_compute.
  - exact Hal.
  - by vm_compute.
  - by vm_compute.
Defined.

(** Once the peer address is known, a frame is sent to it. *)
Lemma Send_sound_witness :
  (Send (cipher := checksum_aead) ex_net1 (ex_id 2) 1 9 3 [7] Second (fun w => w) true).1 = None /\
  length (writes (n_out (Send (cipher := checksum_aead) ex_net1 (ex_id 2) 1 9 3 [7] Second (fun w => w) true).2)) = 1%nat.
Proof.
  assert (Hr : nreachable (cipher := checksum_aead) ex_hkdf 0 DefaultLimits ex_srv ex_net1).
  { destruct ex_net_reachable as (w0 & H0 & Hr). exists w0. split; [exact H0|].
    eapply rtc_r; [exact Hr|]. exact (n_datagram ex_hkdf ex_net ex_packet (Some ex_addr) Second Second Second
      (fun w => w) ex_net1 ex_packet_bytes (env_run_id _ _) ex_handled). }
  pose proof (Send_sound (cipher := checksum_aead) ex_hkdf 0 DefaultLimits ex_srv ex_net1 (ex_id 2) 1 9 3 [7] Second
    (fun w => w) true Hr (env_run_id _ _)) as H.
  assert (E : (Send (cipher := checksum_aead) ex_net1 (ex_id 2) 1 9 3 [7] Second (fun w => w) true).1 = None) by (by vm_compute).
  destruct (Send (cipher := checksum_aead) ex_net1 (ex_id 2) 1 9 3 [7] Second (fun w => w) true) as [err n'].
  cbn in E. subst err. split; [done|]. cbn [snd].
  destruct H as (l & s & _ & _ & Hsf); [repeat constructor; done..|].
  destruct Hsf as [_ _ (pk & r & _ & -> & _)].
  assert (Hw : writes (n_out ex_net1) = []) by (by vm_compute). by rewrite Hw.
Defined.

Definition ex_stopped : UDPServer :=
  mkServer NewChannelTypeRegistry true false (u_ingress ex_srv) None false false [].

Lemma startup_barrier_witness :
  u_conn (Start ex_stopped (Some 4%nat)).2 = Some 4%nat /\
  (Start (Start ex_stopped (Some 4%nat)).2 (Some 5%nat)).1 <> None.
Proof.
  split; [reflexivity|].
  destruct (startup_barrier ex_stopped (Start ex_stopped (Some 4%nat)).2 4 (Some 5%nat) true eq_refl (rtc_refl _ _))
    as (_ & _ & _ & _ & H & _). exact H.
Defined.

End UdpProps.
