(* ===== verification/LoadControl.v ===== *)
(** * LoadControl: the elastic relay limits ([relay/load.go])

    The controller lowers the voice soft limits at once under pressure and
    raises them slowly after thirty clean samples.  Ratios are [float64]
    values of [Float64]; durations are nanoseconds. *)

From S2P Require Import Prelude Float64.
From stdpp Require Import base list.
From Stdlib Require Import ZArith Lia.
#[local] Open Scope Z_scope.

Module LoadControl.

Definition LoadTickInterval : Z := Second.
Definition LoadRecoveryTicks : Z := 30.

Record HardLimits := mkHard { h_Global : Z; h_Session : Z }.
Record SoftLimits := mkSoft { s_Global : Z; s_Session : Z; s_StatsInterval : Z }.

Record LoadInput := mkInput {
  QueueUtilization : Z;     (* float64 *)
  RelayDropRatio : Z;       (* float64 *)
  UDPDropRatio : Z;         (* float64 *)
  UDPGlobalDropRatio : Z;   (* float64 *)
  UDPSourceDropRatio : Z;   (* float64 *)
  UDPSessionDropRatio : Z;  (* float64 *)
  RelayP95Latency : Z;
  StatePublicationLag : Z
}.

Definition zero_input : LoadInput := mkInput 0 0 0 0 0 0 0 0.

(** [updates] records the calls of the installed [onUpdate] callback. *)
Record LoadController := mkController {
  hard : HardLimits;
  current : SoftLimits;
  overloaded : bool;
  recoveryTicks : Z;
  cleanTicks : Z;
  lastInput : LoadInput;
  onUpdate : bool;
  updates : list SoftLimits
}.

Record LoadSnapshot := mkSnapshot {
  sn_Hard : HardLimits; sn_Soft : SoftLimits; sn_Overloaded : bool; sn_RecoveryTicks : Z;
  sn_LastInput : LoadInput
}.

Definition NewLoadController (h : HardLimits) : option LoadController :=
  if (h_Global h <=? 0) || (h_Session h <=? 0) then None
  else Some (mkController h (mkSoft (h_Global h) (h_Session h) (5 * Second)) false 0 0 zero_input false []).

Definition SetUpdateFunc (c : LoadController) (installed : bool) : LoadController :=
  mkController (hard c) (current c) (overloaded c) (recoveryTicks c) (cleanTicks c) (lastInput c)
    installed (updates c).

Definition Current (c : LoadController) : SoftLimits := current c.

Definition Snapshot (c : LoadController) : LoadSnapshot :=
  mkSnapshot (hard c) (Current c) (overloaded c) (recoveryTicks c) (lastInput c).

Definition maxInt (left right : Z) : Z := if right <? left then left else right.
Definition minInt (left right : Z) : Z := if left <? right then left else right.

Definition pressureHigh (i : LoadInput) : bool :=
  (Float64.of_ratio 3 4 <=? QueueUtilization i) || (Float64.of_ratio 1 20 <=? RelayDropRatio i)
  || (100000000 <=? RelayP95Latency i) || (250000000 <=? StatePublicationLag i).

Definition nextStatsInterval (cur : Z) (over : bool) : Z :=
  let cur := if cur <=? 0 then 5 * Second else cur in
  if over then
    if cur <? 10 * Second then 10 * Second
    else if cur <? 20 * Second then 20 * Second
    else 30 * Second
  else
    if 30 * Second <=? cur then 20 * Second
    else if 20 * Second <=? cur then 10 * Second
    else 5 * Second.

(** [int(math.Floor(float64(n) * c))] for a float constant [c]. *)
Definition scale (n c : Z) : Z := Float64.floor (Float64.mul (Float64.of_int n) c).

Definition Tick (c : LoadController) (input : LoadInput) : SoftLimits * LoadController :=
  let h := hard c in
  let cur := Current c in
  let '(cur, over, rec, clean) :=
    if pressureHigh input then
      let globalFloor := maxInt 1 (scale (h_Global h) (Float64.of_ratio 1 4)) in
      let sessionFloor := maxInt 1 (minInt (h_Session h) 50) in
      (mkSoft (maxInt globalFloor (scale (s_Global cur) (Float64.of_ratio 4 5)))
              (maxInt sessionFloor (scale (s_Session cur) (Float64.of_ratio 4 5)))
              (nextStatsInterval (s_StatsInterval cur) true), true, 0, 0)
    else
      let clean := cleanTicks c + 1 in
      if overloaded c then
        let '(cur, rec) :=
          if LoadRecoveryTicks <=? clean then
            let rec := recoveryTicks c + 1 in
            if Z.rem rec 10 =? 0 then
              (mkSoft (minInt (h_Global h) (s_Global cur + maxInt 1 (scale (h_Global h) (Float64.of_ratio 1 20))))
                      (minInt (h_Session h) (s_Session cur + maxInt 1 (scale (h_Session h) (Float64.of_ratio 1 20))))
                      (nextStatsInterval (s_StatsInterval cur) false), rec)
            else (cur, rec)
          else (cur, recoveryTicks c) in
        if (h_Global h <=? s_Global cur) && (h_Session h <=? s_Session cur)
           && (s_StatsInterval cur <=? 5 * Second)
        then (cur, false, 0, clean) else (cur, true, rec, clean)
      else (cur, overloaded c, recoveryTicks c, clean) in
  let cur := mkSoft (minInt (h_Global h) (maxInt 1 (s_Global cur)))
               (minInt (h_Session h) (maxInt 1 (s_Session cur))) (s_StatsInterval cur) in
  (cur, mkController h cur over rec clean input (onUpdate c)
          (if onUpdate c then updates c ++ [cur] else updates c)).

(** [Run] ticks once per sample until its context ends. *)
Fixpoint Run (c : LoadController) (samples : list LoadInput) : LoadController :=
  match samples with [] => c | i :: samples => Run (Tick c i).2 samples end.

(** ** Invariant *)

Definition global_floor (h : HardLimits) : Z := maxInt 1 (scale (h_Global h) (Float64.of_ratio 1 4)).
Definition session_floor (h : HardLimits) : Z := maxInt 1 (minInt (h_Session h) 50).

Record ctl_ok (c : LoadController) : Prop := {
  ok_hard : 0 < h_Global (hard c) <= 2 ^ 53 /\ 0 < h_Session (hard c) <= 2 ^ 53;
  ok_global : global_floor (hard c) <= s_Global (current c) <= h_Global (hard c);
  ok_session : session_floor (hard c) <= s_Session (current c) <= h_Session (hard c);
  ok_interval : s_StatsInterval (current c) ∈ [5 * Second; 10 * Second; 20 * Second; 30 * Second];
  ok_normal : overloaded c = false ->
    current c = mkSoft (h_Global (hard c)) (h_Session (hard c)) (5 * Second);
  ok_counts : 0 <= recoveryTicks c /\ 0 <= cleanTicks c
}.

Lemma maxInt_eq a b : maxInt a b = Z.max a b.
Proof. unfold maxInt. destruct (Z.ltb_spec b a); lia. Qed.
Lemma minInt_eq a b : minInt a b = Z.min a b.
Proof. unfold minInt. destruct (Z.ltb_spec a b); lia. Qed.

Lemma scale_le n p q : 0 <= n <= 2 ^ 53 -> 0 <= Float64.of_ratio p q <= Float64.one ->
  0 <= scale n (Float64.of_ratio p q) <= n.
Proof.
  intros Hn Hc. split; [|by apply Float64.floor_mul_le].
  apply Float64.floor_nonneg, Float64.mul_nonneg; [apply Float64.of_int_nonneg|]; lia.
Qed.

Lemma quarter_range : 0 <= Float64.of_ratio 1 4 <= Float64.one.
Proof. split; by vm_compute. Qed.
Lemma fifth_range : 0 <= Float64.of_ratio 4 5 <= Float64.one.
Proof. split; by vm_compute. Qed.
Lemma twentieth_range : 0 <= Float64.of_ratio 1 20 <= Float64.one.
Proof. split; by vm_compute. Qed.

Lemma scale_fifth_lt n : 1 <= n <= 2 ^ 50 -> scale n (Float64.of_ratio 4 5) <= n - 1.
Proof.
  intros Hn. pose proof (Float64.floor_mul_lt n (Float64.of_ratio 4 5) Hn ltac:(split; by vm_compute)). unfold scale. lia.
Qed.

#[local] Opaque scale Float64.of_ratio.

Lemma floors_le h : 0 < h_Global h <= 2 ^ 53 -> 0 < h_Session h <= 2 ^ 53 ->
  1 <= global_floor h <= h_Global h /\ 1 <= session_floor h <= h_Session h.
Proof.
  intros Hg Hs. unfold global_floor, session_floor. rewrite !maxInt_eq, minInt_eq.
  pose proof (scale_le (h_Global h) 1 4 ltac:(lia) quarter_range). lia.
Qed.

Lemma nextStatsInterval_range cur over :
  cur ∈ [5 * Second; 10 * Second; 20 * Second; 30 * Second] ->
  nextStatsInterval cur over ∈ [5 * Second; 10 * Second; 20 * Second; 30 * Second].
Proof.
  unfold nextStatsInterval, Second. rewrite !elem_of_cons.
  intros [->|[->|[->|[->|H]]]]; [destruct over; cbn; auto 6..|by apply not_elem_of_nil in H].
Qed.

(** The limits after a pressure sample. *)
Definition pressed (h : HardLimits) (cur : SoftLimits) : SoftLimits :=
  mkSoft (Z.max (global_floor h) (scale (s_Global cur) (Float64.of_ratio 4 5)))
         (Z.max (session_floor h) (scale (s_Session cur) (Float64.of_ratio 4 5)))
         (nextStatsInterval (s_StatsInterval cur) true).

Lemma Tick_pressure c i : ctl_ok c -> pressureHigh i = true ->
  (Tick c i).2 = mkController (hard c) (pressed (hard c) (current c)) true 0 0 i (onUpdate c)
    (if onUpdate c then updates c ++ [pressed (hard c) (current c)] else updates c) /\
  (Tick c i).1 = pressed (hard c) (current c).
Proof.
  intros [Hh Hg Hs _ _ _] Hp. unfold Tick, Current. rewrite Hp.
  fold (global_floor (hard c)) (session_floor (hard c)).
  assert (E : mkSoft
    (minInt (h_Global (hard c)) (maxInt 1 (maxInt (global_floor (hard c)) (scale (s_Global (current c)) (Float64.of_ratio 4 5)))))
    (minInt (h_Session (hard c)) (maxInt 1 (maxInt (session_floor (hard c)) (scale (s_Session (current c)) (Float64.of_ratio 4 5)))))
    (nextStatsInterval (s_StatsInterval (current c)) true) = pressed (hard c) (current c)).
  { unfold pressed. rewrite !maxInt_eq, !minInt_eq.
    destruct (floors_le (hard c)) as [Fg Fs]; [lia..|].
    pose proof (scale_le (s_Global (current c)) 4 5 ltac:(lia) fifth_range).
    pose proof (scale_le (s_Session (current c)) 4 5 ltac:(lia) fifth_range).
    generalize dependent (scale (s_Global (current c)) (Float64.of_ratio 4 5)). intros x Hx.
    generalize dependent (scale (s_Session (current c)) (Float64.of_ratio 4 5)). intros y Hy. f_equal; lia. }
  cbn [s_Global s_Session s_StatsInterval]. rewrite E. split; reflexivity.
Qed.

(** The limits after a recovery increment. *)
Definition raised (h : HardLimits) (cur : SoftLimits) : SoftLimits :=
  mkSoft (Z.min (h_Global h) (s_Global cur + Z.max 1 (scale (h_Global h) (Float64.of_ratio 1 20))))
         (Z.min (h_Session h) (s_Session cur + Z.max 1 (scale (h_Session h) (Float64.of_ratio 1 20))))
         (nextStatsInterval (s_StatsInterval cur) false).

Definition at_hard (h : HardLimits) (cur : SoftLimits) : bool :=
  (h_Global h <=? s_Global cur) && (h_Session h <=? s_Session cur) && (s_StatsInterval cur <=? 5 * Second).

Lemma Tick_clean_overloaded c i : ctl_ok c -> pressureHigh i = false -> overloaded c = true ->
  let clean := cleanTicks c + 1 in
  let rec := if LoadRecoveryTicks <=? clean then recoveryTicks c + 1 else recoveryTicks c in
  let cur := if (LoadRecoveryTicks <=? clean) && (Z.rem rec 10 =? 0)
             then raised (hard c) (current c) else current c in
  let done := at_hard (hard c) cur in
  (Tick c i).2 = mkController (hard c) cur (negb done) (if done then 0 else rec) clean i (onUpdate c)
    (if onUpdate c then updates c ++ [cur] else updates c) /\ (Tick c i).1 = cur.
Proof.
  intros [Hh Hg Hs _ _ _] Hp Ho. destruct (floors_le (hard c)) as [Fg Fs]; [lia..|].
  assert (Hid : forall cur, 1 <= s_Global cur <= h_Global (hard c) -> 1 <= s_Session cur <= h_Session (hard c) ->
    mkSoft (minInt (h_Global (hard c)) (maxInt 1 (s_Global cur)))
           (minInt (h_Session (hard c)) (maxInt 1 (s_Session cur))) (s_StatsInterval cur) = cur).
  { intros [g s t] ? ?. cbn in *. rewrite !maxInt_eq, !minInt_eq. f_equal; lia. }
  assert (Hr : 1 <= s_Global (raised (hard c) (current c)) <= h_Global (hard c) /\
               1 <= s_Session (raised (hard c) (current c)) <= h_Session (hard c)).
  { unfold raised; cbn. lia. }
  assert (Hraise : mkSoft
    (minInt (h_Global (hard c)) (s_Global (current c) + maxInt 1 (scale (h_Global (hard c)) (Float64.of_ratio 1 20))))
    (minInt (h_Session (hard c)) (s_Session (current c) + maxInt 1 (scale (h_Session (hard c)) (Float64.of_ratio 1 20))))
    (nextStatsInterval (s_StatsInterval (current c)) false) = raised (hard c) (current c))
    by (unfold raised; rewrite !maxInt_eq, !minInt_eq; reflexivity).
  unfold Tick, Current. rewrite Hp, Ho, Hraise. cbv zeta.
  destruct (LoadRecoveryTicks <=? cleanTicks c + 1); cbn [andb];
    [destruct (Z.rem (recoveryTicks c + 1) 10 =? 0)|].
  all: match goal with |- context [(h_Global ?h <=? s_Global ?x) && _ && _] => fold (at_hard h x); destruct (at_hard h x) end.
  all: rewrite Hid by lia; split; reflexivity.
Qed.

Lemma Tick_clean_normal c i : ctl_ok c -> pressureHigh i = false -> overloaded c = false ->
  (Tick c i).2 = mkController (hard c) (current c) false (recoveryTicks c) (cleanTicks c + 1) i (onUpdate c)
    (if onUpdate c then updates c ++ [current c] else updates c) /\ (Tick c i).1 = current c.
Proof.
  intros [Hh Hg Hs _ _ _] Hp Ho. destruct (floors_le (hard c)) as [Fg Fs]; [lia..|].
  unfold Tick, Current. rewrite Hp, Ho. rewrite !maxInt_eq, !minInt_eq.
  rewrite !Z.max_r, !Z.min_r by lia. destruct (current c). split; reflexivity.
Qed.

Lemma at_hard_eq c : ctl_ok c -> at_hard (hard c) (current c) = true ->
  current c = mkSoft (h_Global (hard c)) (h_Session (hard c)) (5 * Second).
Proof.
  intros [_ Hg Hs Hi _ _] H. unfold at_hard in H. rewrite !andb_true_iff, !Z.leb_le in H.
  destruct (current c) as [g q t]; cbn in *. unfold Second in *. rewrite !elem_of_cons in Hi.
  f_equal; [lia|lia|]. destruct Hi as [->|[->|[->|[->|Hn]]]]; try lia. by apply not_elem_of_nil in Hn.
Qed.

Lemma raised_ok c : ctl_ok c ->
  global_floor (hard c) <= s_Global (raised (hard c) (current c)) <= h_Global (hard c) /\
  session_floor (hard c) <= s_Session (raised (hard c) (current c)) <= h_Session (hard c) /\
  s_StatsInterval (raised (hard c) (current c)) ∈ [5 * Second; 10 * Second; 20 * Second; 30 * Second].
Proof.
  intros [Hh Hg Hs Hi _ _]. destruct (floors_le (hard c)) as [Fg Fs]; [lia..|]. unfold raised.
  cbn [s_Global s_Session s_StatsInterval]. split_and!; try lia. by apply nextStatsInterval_range.
Qed.

(** A controller that keeps its hard limits and is overloaded unless fully recovered. *)
Lemma ctl_ok_cur c cur rec clean i u us : ctl_ok c ->
  global_floor (hard c) <= s_Global cur <= h_Global (hard c) /\
  session_floor (hard c) <= s_Session cur <= h_Session (hard c) /\
  s_StatsInterval cur ∈ [5 * Second; 10 * Second; 20 * Second; 30 * Second] ->
  0 <= rec -> 0 <= clean ->
  ctl_ok (mkController (hard c) cur (negb (at_hard (hard c) cur)) rec clean i u us).
Proof.
  intros [Hh _ _ _ _ _] (Hg & Hs & Hi) Hr Hc.
  split; cbn [hard current overloaded recoveryTicks cleanTicks]; try done.
  intros Hd%negb_false_iff.
  apply (at_hard_eq (mkController (hard c) cur true 0 0 i u us)); [|exact Hd].
  split; cbn [hard current overloaded recoveryTicks cleanTicks]; done.
Qed.

Lemma Tick_ok c i : ctl_ok c -> ctl_ok (Tick c i).2.
Proof.
  intros Hok. destruct (Hok) as [Hh Hg Hs Hi Hn Hc]. destruct (floors_le (hard c)) as [Fg Fs]; [lia..|].
  destruct (pressureHigh i) eqn:Hp.
  - rewrite (proj1 (Tick_pressure c i Hok Hp)).
    pose proof (scale_le (s_Global (current c)) 4 5 ltac:(lia) fifth_range).
    pose proof (scale_le (s_Session (current c)) 4 5 ltac:(lia) fifth_range).
    unfold pressed. split; cbn [hard current overloaded recoveryTicks cleanTicks s_Global s_Session s_StatsInterval];
      first [lia|by apply nextStatsInterval_range|done].
  - destruct (overloaded c) eqn:Ho.
    + destruct (Tick_clean_overloaded c i Hok Hp Ho) as [-> _].
      apply ctl_ok_cur; [done|..]; cbv zeta.
      * match goal with |- context [if ?b then raised _ _ else _] => destruct b end;
          [exact (raised_ok c Hok)|exact (conj Hg (conj Hs Hi))].
      * repeat match goal with |- 0 <= (if ?b then _ else _) => destruct b end; lia.
      * lia.
    + rewrite (proj1 (Tick_clean_normal c i Hok Hp Ho)).
      apply Build_ctl_ok; [exact Hh|exact Hg|exact Hs|exact Hi|intros _; exact (Hn eq_refl)|].
      cbn [recoveryTicks cleanTicks]. lia.
Qed.

Lemma Tick_hard c i : hard (Tick c i).2 = hard c.
Proof.
  unfold Tick. match goal with |- context [match ?x with pair _ _ => _ end] => destruct x as [[[cur over] rec] clean] end.
  reflexivity.
Qed.

Lemma Run_ok c samples : ctl_ok c -> ctl_ok (Run c samples) /\ hard (Run c samples) = hard c.
Proof.
  revert c. induction samples as [|i samples IH]; intros c Hok; [done|]. cbn [Run].
  destruct (IH (Tick c i).2 (Tick_ok c i Hok)) as [H1 H2]. split; [done|]. rewrite H2. apply Tick_hard.
Qed.

Lemma New_ok h c : h_Global h <= 2 ^ 53 -> h_Session h <= 2 ^ 53 -> NewLoadController h = Some c -> ctl_ok c /\ hard c = h.
Proof.
  intros Hg Hs. unfold NewLoadController.
  destruct (Z.leb_spec (h_Global h) 0), (Z.leb_spec (h_Session h) 0); try done. cbn. intros [= <-].
  destruct (floors_le h) as [Fg Fs]; [lia..|]. split; [|reflexivity].
  apply Build_ctl_ok; cbn [hard current overloaded recoveryTicks cleanTicks s_Global s_Session s_StatsInterval];
    [lia..| |reflexivity|lia]. rewrite elem_of_cons. by left.
Qed.

(** ** Recovery *)

(** The rank of a telemetry cadence: how many steps it is from five seconds. *)
Definition interval_rank (t : Z) : Z :=
  if t <=? 5 * Second then 0 else if t <=? 10 * Second then 1 else if t <=? 20 * Second then 2 else 3.

(** How many increments separate the soft limits from full recovery, at most. *)
Definition deficit (c : LoadController) : Z :=
  Z.max (Z.max (h_Global (hard c) - s_Global (current c)) (h_Session (hard c) - s_Session (current c)))
        (interval_rank (s_StatsInterval (current c))).

(** Clean samples until the next increment. *)
Definition wait (c : LoadController) : Z :=
  Z.max 0 (29 - cleanTicks c) + (10 - recoveryTicks c mod 10).

(** Clean samples until full recovery, at most. *)
Definition potential (c : LoadController) : Z :=
  if deficit c <=? 0 then 1 else wait c + 10 * (deficit c - 1).

Lemma at_hard_deficit c : ctl_ok c -> at_hard (hard c) (current c) = (deficit c <=? 0).
Proof.
  intros [_ Hg Hs Hi _ _]. unfold at_hard, deficit, interval_rank.
  apply eq_bool_prop_intro. rewrite !Is_true_true, !andb_true_iff, !Z.leb_le.
  repeat match goal with |- context [if ?a <=? ?b then _ else _] => destruct (Z.leb_spec a b) end; lia.
Qed.

Lemma raised_rank t : t ∈ [5 * Second; 10 * Second; 20 * Second; 30 * Second] ->
  interval_rank (nextStatsInterval t false) = Z.max 0 (interval_rank t - 1).
Proof.
  rewrite !elem_of_cons. intros [->|[->|[->|[->|H]]]]; [reflexivity..|by apply not_elem_of_nil in H].
Qed.

(** An increment shrinks a positive deficit. *)
Lemma raised_deficit c c' : ctl_ok c -> hard c' = hard c -> current c' = raised (hard c) (current c) ->
  deficit c' <= Z.max 0 (deficit c - 1).
Proof.
  intros [_ Hg Hs Hi _ _] Hh Hc. unfold deficit. rewrite Hh, Hc. unfold raised.
  cbn [s_Global s_Session s_StatsInterval]. rewrite raised_rank by done. lia.
Qed.

Lemma wait_range c : ctl_ok c -> 1 <= wait c <= 39.
Proof.
  intros [_ _ _ _ _ Hc]. unfold wait. pose proof (Z.mod_pos_bound (recoveryTicks c) 10 ltac:(lia)). lia.
Qed.

Lemma mod10_succ r : 0 <= r -> (r + 1) mod 10 <> 0 -> (r + 1) mod 10 = r mod 10 + 1.
Proof.
  intros Hr Hne. rewrite Z.add_mod in Hne |- * by lia. change (1 mod 10) with 1 in *.
  pose proof (Z.mod_pos_bound r 10 ltac:(lia)).
  destruct (decide (r mod 10 = 9)) as [E|]; [rewrite E in Hne; done|]. rewrite Z.mod_small; lia.
Qed.

Lemma mod10_wrap r : 0 <= r -> (r + 1) mod 10 = 0 -> r mod 10 = 9.
Proof.
  intros Hr He. rewrite Z.add_mod in He by lia. change (1 mod 10) with 1 in *.
  pose proof (Z.mod_pos_bound r 10 ltac:(lia)).
  destruct (decide (r mod 10 = 9)); [done|]. rewrite Z.mod_small in He; lia.
Qed.

(** One clean sample of an overloaded controller ends the overload or brings it closer. *)
Lemma Tick_progress c i : ctl_ok c -> overloaded c = true -> pressureHigh i = false ->
  overloaded (Tick c i).2 = false \/
  (overloaded (Tick c i).2 = true /\ potential (Tick c i).2 <= potential c - 1).
Proof.
  intros Hok Ho Hp. pose proof (Tick_ok c i Hok) as Hok'. pose proof (wait_range c Hok) as Hwait.
  pose proof (at_hard_deficit c Hok) as Hdef. pose proof (at_hard_deficit _ Hok') as Hdef'.
  pose proof (raised_deficit c (Tick c i).2 Hok (Tick_hard c i)) as Hraise.
  destruct (ok_counts c Hok) as [Hr0 Hc0].
  destruct (Tick_clean_overloaded c i Hok Hp Ho) as [E _]. cbv zeta in E. revert E Hdef' Hraise.
  generalize (Tick c i).2. intros c'. unfold LoadRecoveryTicks.
  destruct (Z.leb_spec 30 (cleanTicks c + 1)) as [Hcl|Hcl]; cbn [andb];
    [rewrite Z.rem_mod_nonneg by lia; destruct (Z.eqb_spec ((recoveryTicks c + 1) mod 10) 0) as [Hm|Hm]|].
  all: intros -> Hdef' Hraise; cbn [hard current overloaded recoveryTicks cleanTicks] in *.
  - destruct (at_hard (hard c) (raised (hard c) (current c))) eqn:Ea; [by left|right]. split; [done|].
    specialize (Hraise eq_refl). unfold potential. rewrite <-Hdef', <-Hdef.
    set (c' := mkController _ _ _ _ _ _ _ _) in *. symmetry in Hdef'. apply Z.leb_gt in Hdef'.
    destruct (at_hard (hard c) (current c)) eqn:Eb; symmetry in Hdef;
      [apply Z.leb_le in Hdef; lia|apply Z.leb_gt in Hdef].
    unfold wait, c'. cbn [recoveryTicks cleanTicks]. rewrite Hm, (mod10_wrap _ Hr0 Hm). fold c'. lia.
  - destruct (at_hard (hard c) (current c)) eqn:Ea; [by left|right]. split; [done|].
    unfold potential. rewrite <-Hdef', <-Hdef. unfold deficit, wait.
    cbn [hard current recoveryTicks cleanTicks]. rewrite (mod10_succ _ Hr0 Hm). lia.
  - destruct (at_hard (hard c) (current c)) eqn:Ea; [by left|right]. split; [done|].
    unfold potential. rewrite <-Hdef', <-Hdef. unfold deficit, wait.
    cbn [hard current recoveryTicks cleanTicks]. lia.
Qed.

Lemma Tick_stays_normal c i : ctl_ok c -> overloaded c = false -> pressureHigh i = false ->
  overloaded (Tick c i).2 = false.
Proof. intros Hok Ho Hp. by rewrite (proj1 (Tick_clean_normal c i Hok Hp Ho)). Qed.

Lemma Run_recovers c samples : ctl_ok c -> Forall (fun i => pressureHigh i = false) samples ->
  overloaded c = false \/ potential c <= Z.of_nat (length samples) -> overloaded (Run c samples) = false.
Proof.
  revert c. induction samples as [|i samples IH]; intros c Hok Hall Hpot.
  - destruct Hpot as [|Hpot]; [done|]. cbn in Hpot. pose proof (wait_range c Hok).
    unfold potential in Hpot. destruct (Z.leb_spec (deficit c) 0); lia.
  - apply Forall_cons in Hall as [Hi Hall]. cbn [Run]. apply IH; [by apply Tick_ok|done|].
    destruct (overloaded c) eqn:Ho.
    + destruct Hpot as [|Hpot]; [done|]. cbn [length] in Hpot.
      destruct (Tick_progress c i Hok Ho Hi) as [|[_ ?]]; [by left|right; lia].
    + left. by apply Tick_stays_normal.
Qed.

(** ** Theorems *)

(** The soft limits stay inside their bounds: after any sequence of samples they
    lie between the configured floors (a quarter of the global cap; 50 packets
    per session or the cap if smaller) and the hard caps, the telemetry cadence
    is 5, 10, 20 or 30 s, and a controller that is not overloaded is exactly at
    the hard caps with the 5 s cadence. *)
Theorem limits_bounded h c samples : h_Global h <= 2 ^ 53 -> h_Session h <= 2 ^ 53 ->
  NewLoadController h = Some c ->
  let s := Current (Run c samples) in
  1 <= global_floor h <= s_Global s /\ s_Global s <= h_Global h /\
  1 <= session_floor h <= s_Session s /\ s_Session s <= h_Session h /\
  s_StatsInterval s ∈ [5 * Second; 10 * Second; 20 * Second; 30 * Second] /\
  (overloaded (Run c samples) = false -> s = mkSoft (h_Global h) (h_Session h) (5 * Second)).
Proof.
  intros Hg Hs Hn s. destruct (New_ok h c Hg Hs Hn) as [Hok Hh]. destruct (Run_ok c samples Hok) as [Hok' Hh'].
  destruct (Hok') as [H1 H2 H3 H4 H5 _]. rewrite Hh', Hh in *. subst s. unfold Current.
  destruct (floors_le h) as [Fg Fs]; [lia..|]. split_and!; try lia; done.
Qed.

(** A sample moves the limits the right way: under pressure neither limit rises
    and both fall unless already at their floor, with the overload flag raised
    and the recovery counters reset; a clean sample never lowers a limit. *)
Theorem Tick_direction h c samples i : h_Global h <= 2 ^ 50 -> h_Session h <= 2 ^ 50 ->
  NewLoadController h = Some c ->
  let before := Run c samples in
  let after := (Tick before i).2 in
  if pressureHigh i then
    (s_Global (current after) < s_Global (current before) \/ s_Global (current after) = global_floor h) /\
    (s_Session (current after) < s_Session (current before) \/ s_Session (current after) = session_floor h) /\
    overloaded after = true /\ cleanTicks after = 0 /\ recoveryTicks after = 0
  else s_Global (current before) <= s_Global (current after) /\
       s_Session (current before) <= s_Session (current after).
Proof.
  intros Hg Hs Hn before after.
  destruct (New_ok h c ltac:(lia) ltac:(lia) Hn) as [Hok Hh]. destruct (Run_ok c samples Hok) as [Hok' Hh'].
  fold before in Hok', Hh'. rewrite Hh in Hh'. destruct (Hok') as [H1 H2 H3 H4 H5 _].
  destruct (floors_le (hard before)) as [Fg Fs]; [lia..|]. rewrite Hh' in H1, H2, H3, Fg, Fs.
  destruct (pressureHigh i) eqn:Hp.
  - destruct (Tick_pressure before i Hok' Hp) as [E _]. fold after in E. rewrite E.
    cbn [current overloaded cleanTicks recoveryTicks]. unfold pressed. cbn [s_Global s_Session].
    pose proof (scale_fifth_lt (s_Global (current before)) ltac:(lia)).
    pose proof (scale_fifth_lt (s_Session (current before)) ltac:(lia)). rewrite Hh'.
    split_and!; [lia|lia|reflexivity..].
  - destruct (overloaded before) eqn:Ho.
    + destruct (Tick_clean_overloaded before i Hok' Hp Ho) as [E _]. fold after in E. rewrite E. cbv zeta.
      cbn [current]. match goal with |- context [if ?b then raised _ _ else _] => destruct b end; [|lia].
      unfold raised. cbn [s_Global s_Session]. rewrite Hh'. lia.
    + destruct (Tick_clean_normal before i Hok' Hp Ho) as [E _]. fold after in E. rewrite E. cbn [current]. lia.
Qed.

(** The controller always recovers: from any state, [29 + 10 * max caps] clean
    samples in a row end the overload and restore exactly the hard caps and the
    5 s cadence, whatever the earlier pressure was. *)
Theorem recovery_complete h c samples clean : h_Global h <= 2 ^ 53 -> h_Session h <= 2 ^ 53 ->
  NewLoadController h = Some c -> Forall (fun i => pressureHigh i = false) clean ->
  29 + 10 * Z.max 3 (Z.max (h_Global h) (h_Session h)) <= Z.of_nat (length clean) ->
  let after := Run (Run c samples) clean in
  overloaded after = false /\ Current after = mkSoft (h_Global h) (h_Session h) (5 * Second).
Proof.
  intros Hg Hs Hn Hclean Hlen after. destruct (New_ok h c Hg Hs Hn) as [Hok Hh].
  destruct (Run_ok c samples Hok) as [Hok' Hh']. destruct (Run_ok _ clean Hok') as [Hok'' Hh''].
  fold after in Hok'', Hh''. rewrite Hh', Hh in Hh''. rewrite Hh in Hh'.
  assert (Ho : overloaded after = false).
  { apply Run_recovers; [done..|right]. pose proof (wait_range _ Hok'). destruct (Hok') as [_ H2 H3 H4 _ _].
    unfold potential. destruct (floors_le h) as [Fg Fs]; [destruct Hok'; rewrite Hh' in *; lia..|].
    assert (Hd : deficit (Run c samples) <= Z.max 3 (Z.max (h_Global h) (h_Session h))).
    { unfold deficit. rewrite Hh' in *. unfold interval_rank.
      repeat match goal with |- context [if ?b then _ else _] => destruct b end; lia. }
    destruct (deficit (Run c samples) <=? 0); lia. }
  split; [done|]. destruct Hok'' as [_ _ _ _ H5 _]. rewrite <-Hh''. by apply H5.
Qed.

Definition ex_hard : HardLimits := mkHard 4 60.
Definition ex_ctl : LoadController :=
  mkController ex_hard (mkSoft 4 60 (5 * Second)) false 0 0 zero_input false [].
Definition ex_slow : LoadInput := mkInput 0 0 0 0 0 0 200000000 0.

Lemma limits_bounded_witness :
  s_Global (Current (Run ex_ctl [ex_slow; ex_slow])) <= 4 /\
  Current (Run ex_ctl [ex_slow; ex_slow]) = mkSoft 2 50 (20 * Second).
Proof.
  split; [|by vm_compute].
  destruct (limits_bounded ex_hard ex_ctl [ex_slow; ex_slow] ltac:(by vm_compute) ltac:(by vm_compute) eq_refl)
    as (_ & H & _). exact H.
Defined.

Lemma Tick_direction_witness : overloaded (Tick (Run ex_ctl [ex_slow]) ex_slow).2 = true.
Proof.
  pose proof (Tick_direction ex_hard ex_ctl [ex_slow] ex_slow ltac:(by vm_compute) ltac:(by vm_compute) eq_refl) as H.
  assert (E : pressureHigh ex_slow = true) by (by vm_compute). cbv zeta in H. rewrite E in H.
  destruct H as (_ & _ & H & _). exact H.
Defined.

Lemma recovery_complete_witness :
  Current (Run (Run ex_ctl [ex_slow; ex_slow]) (replicate 629 zero_input)) = mkSoft 4 60 (5 * Second).
Proof.
  destruct (recovery_complete ex_hard ex_ctl [ex_slow; ex_slow] (replicate 629 zero_input)
    ltac:(by vm_compute) ltac:(by vm_compute) eq_refl
    ltac:(apply Forall_replicate; by vm_compute) ltac:(rewrite length_replicate; vm_compute; congruence)) as [_ H].
  exact H.
Defined.

End LoadControl.
