(* ===== verification/RelayQueue.v ===== *)
(** * RelayQueue: the bounded eight-shard media queue ([relay/queue.go])

    A queue is its eight shards and the process-wide counters.  Admission and
    removal hold the admission lock and the shard lock together, so each is one
    state transformer; [sh_ready] is the one-slot wake-up channel.  A worker
    that finds its shard empty waits outside the locks: [wstep] gives the
    interleavings of one shard's worker with producers and [Close]. *)

From S2P Require Import Prelude Float64.
From stdpp Require Import base list relations.
From Stdlib Require Import ZArith Lia.
#[local] Open Scope Z_scope.

Module RelayQueue.

Definition ShardCount : nat := 8.
Definition MaxQueueItems : Z := 4096.
Definition MaxQueueBytes : Z := Z.shiftl 16 20.
Definition MaxShardItems : Z := MaxQueueItems / Z.of_nat ShardCount.
Definition MaxShardBytes : Z := MaxQueueBytes / Z.of_nat ShardCount.

(** [relay.Source]: the authority tuple captured at admission. *)
Record Source := mkSource {
  UserID : Z; SessionID_ : SessionID; ChannelID : Z; ControlConnectionID : SessionID;
  ConnectionGeneration : Z; VoiceAuthorityGeneration : Z
}.

#[export] Instance Source_eq_dec : EqDecision Source.
Proof. solve_decision. Defined.

Record Frame := mkQFrame {
  fr_Source : Source; fr_ChannelType : Z; fr_ChannelSeq : Z; fr_TransportSeq : Z; fr_Payload : bytes
}.

Record queueShard := mkShard {
  sh_items : Z; sh_bytes : Z; sh_queue : list Frame; sh_ready : bool; sh_closed : bool
}.

Record Queue := mkQueue {
  q_shards : list queueShard; q_items : Z; q_bytes : Z; q_closed : bool
}.

Record QueueStats := mkStats {
  qs_Items : Z; qs_Bytes : Z; qs_ItemCapacity : Z; qs_ByteCapacity : Z; qs_Utilization : Z;
  qs_ShardItems : list Z; qs_ShardBytes : list Z; qs_ShardUtilization : list Z
}.

Definition NewQueue : Queue := mkQueue (replicate ShardCount (mkShard 0 0 [] false false)) 0 0 false.

(** [len(frame.Payload)]. *)
Definition size_of (f : Frame) : Z := Z.of_nat (length (fr_Payload f)).

(** Arithmetic on [uint64] wraps. *)
Definition ShardFor (userID channelType : Z) : nat :=
  let value := Z.lxor (u64_of_i64 userID) (u64 (channelType * 0x9e3779b97f4a7c15)) in
  let value := Z.lxor value (Z.shiftr value 30) in
  let value := u64 (value * 0xbf58476d1ce4e5b9) in
  let value := Z.lxor value (Z.shiftr value 27) in
  let value := u64 (value * 0x94d049bb133111eb) in
  let value := Z.lxor value (Z.shiftr value 31) in
  Z.to_nat (value mod Z.of_nat ShardCount).

(** The copy owned by the queue has the same fields and bytes. *)
Definition cloneFrame (f : Frame) : Frame :=
  mkQFrame (fr_Source f) (fr_ChannelType f) (fr_ChannelSeq f) (fr_TransportSeq f) (fr_Payload f).

(** Fill the one-slot channel if it is empty. *)
Definition signalLocked (s : queueShard) : queueShard :=
  mkShard (sh_items s) (sh_bytes s) (sh_queue s) true (sh_closed s).

(** [shard] is a Go [int]; a negative or large index is rejected. *)
Definition Enqueue (q : Queue) (shard : Z) (frame : Frame) : bool * Queue :=
  if (shard <? 0) || (Z.of_nat ShardCount <=? shard) || (UserID (fr_Source frame) <=? 0)
     || (size_of frame =? 0) then (false, q)
  else if (MaxShardBytes <? size_of frame) || (MaxQueueBytes <? size_of frame) then (false, q)
  else
    let owned := cloneFrame frame in
    if q_closed q || (MaxQueueItems <=? q_items q) || (MaxQueueBytes <? q_bytes q + size_of owned)
    then (false, q)
    else match q_shards q !! Z.to_nat shard with
         | None => (false, q)
         | Some item =>
             if sh_closed item || (MaxShardItems <=? sh_items item)
                || (MaxShardBytes <? sh_bytes item + size_of owned)
             then (false, q)
             else
               let item := signalLocked (mkShard (sh_items item + 1) (sh_bytes item + size_of owned)
                                           (sh_queue item ++ [owned]) (sh_ready item) (sh_closed item)) in
               (true, mkQueue (<[Z.to_nat shard := item]> (q_shards q)) (q_items q + 1)
                        (q_bytes q + size_of owned) (q_closed q))
         end.

(** One pass of [Pop]'s loop up to its [select]. *)
Inductive PopResult := PopFrame (f : Frame) | PopDone | PopWait.

Definition pop_pass (q : Queue) (shard : Z) : PopResult * Queue :=
  if (shard <? 0) || (Z.of_nat ShardCount <=? shard) then (PopDone, q)
  else match q_shards q !! Z.to_nat shard with
       | None => (PopDone, q)
       | Some item =>
           match sh_queue item with
           | frame :: rest =>
               let item := mkShard (sh_items item - 1) (sh_bytes item - size_of frame) rest
                             (sh_ready item) (sh_closed item) in
               let item := match rest with [] => item | _ :: _ => signalLocked item end in
               (PopFrame frame, mkQueue (<[Z.to_nat shard := item]> (q_shards q)) (q_items q - 1)
                                  (q_bytes q - size_of frame) (q_closed q))
           | [] => if sh_closed item then (PopDone, q) else (PopWait, q)
           end
       end.

(** The receive from [ready]: possible when the slot is full, and it empties it. *)
Definition take_ready (q : Queue) (shard : nat) : option Queue :=
  match q_shards q !! shard with
  | Some item =>
      if sh_ready item
      then Some (mkQueue (<[shard := mkShard (sh_items item) (sh_bytes item) (sh_queue item) false (sh_closed item)]>
                            (q_shards q)) (q_items q) (q_bytes q) (q_closed q))
      else None
  | None => None
  end.

Definition close_shard (s : queueShard) : queueShard := signalLocked (mkShard 0 0 [] (sh_ready s) true).

Definition Close (q : Queue) : Queue :=
  if q_closed q then q else mkQueue (close_shard <$> q_shards q) 0 0 true.

Definition maxRatio (left right : Z) : Z := if right <? left then left else right.

(** [float64(a) / b] for an integer constant [b]. *)
Definition ratio (a b : Z) : Z := Float64.div (Float64.of_int a) (Float64.of_int b).

Definition Stats (q : Queue) : QueueStats :=
  if q_closed q then
    mkStats (q_items q) (q_bytes q) MaxQueueItems MaxQueueBytes 0 (replicate ShardCount 0)
      (replicate ShardCount 0) (replicate ShardCount 0)
  else
    mkStats (q_items q) (q_bytes q) MaxQueueItems MaxQueueBytes
      (maxRatio (ratio (q_items q) MaxQueueItems) (ratio (q_bytes q) MaxQueueBytes))
      (sh_items <$> q_shards q) (sh_bytes <$> q_shards q)
      ((fun s => maxRatio (ratio (sh_items s) MaxShardItems) (ratio (sh_bytes s) MaxShardBytes)) <$> q_shards q).

(** ** Invariant: exact accounting within the caps *)

Fixpoint total (l : list Z) : Z := match l with [] => 0 | x :: l => x + total l end.

Record shard_ok (s : queueShard) : Prop := {
  so_items : sh_items s = Z.of_nat (length (sh_queue s));
  so_bytes : sh_bytes s = total (size_of <$> sh_queue s);
  so_caps : sh_items s <= MaxShardItems /\ sh_bytes s <= MaxShardBytes;
  so_closed : sh_closed s = true -> sh_queue s = []
}.

Record queue_ok (q : Queue) : Prop := {
  qo_shards : length (q_shards q) = ShardCount /\ Forall shard_ok (q_shards q);
  qo_items : q_items q = total (sh_items <$> q_shards q);
  qo_bytes : q_bytes q = total (sh_bytes <$> q_shards q);
  qo_caps : q_items q <= MaxQueueItems /\ q_bytes q <= MaxQueueBytes;
  qo_closed : Forall (fun s => sh_closed s = q_closed q) (q_shards q)
}.

Lemma total_insert l i x y : l !! i = Some x -> total (<[i := y]> l) = total l - x + y.
Proof.
  revert i. induction l as [|a l IH]; intros i H; [done|]. destruct i as [|i].
  - injection H as ->. change (total (<[0%nat := y]> (x :: l))) with (y + total l). cbn [total]. lia.
  - change (total (<[S i := y]> (a :: l))) with (a + total (<[i := y]> l)). rewrite (IH i H). cbn [total]. lia.
Qed.

Lemma total_app l k : total (l ++ k) = total l + total k.
Proof. induction l; simpl; [done|lia]. Qed.

Lemma size_nonneg f : 0 <= size_of f.
Proof. unfold size_of. lia. Qed.

Lemma total_sizes l : 0 <= total (size_of <$> l).
Proof. induction l as [|f l IH]; [done|]. rewrite fmap_cons. cbn [total]. pose proof (size_nonneg f). lia. Qed.

(** Replace one shard and adjust the totals. *)
Lemma queue_ok_update q i s s' : queue_ok q -> q_shards q !! i = Some s -> shard_ok s' ->
  sh_closed s' = sh_closed s ->
  q_items q - sh_items s + sh_items s' <= MaxQueueItems ->
  q_bytes q - sh_bytes s + sh_bytes s' <= MaxQueueBytes ->
  queue_ok (mkQueue (<[i := s']> (q_shards q)) (q_items q - sh_items s + sh_items s')
              (q_bytes q - sh_bytes s + sh_bytes s') (q_closed q)).
Proof.
  intros [[Hl Hs] Hi Hb Hc Hcl] Hq Hs' Ecl Hi' Hb'. split; simpl.
  - rewrite length_insert. split; [done|]. by apply Forall_insert.
  - rewrite list_fmap_insert, (total_insert _ _ (sh_items s)) by (by rewrite list_lookup_fmap, Hq). lia.
  - rewrite list_fmap_insert, (total_insert _ _ (sh_bytes s)) by (by rewrite list_lookup_fmap, Hq). lia.
  - lia.
  - apply Forall_insert; [done|]. rewrite Ecl. by apply (Forall_lookup_1 _ _ _ _ Hcl Hq).
Qed.

Lemma NewQueue_ok : queue_ok NewQueue.
Proof.
  assert (He : shard_ok (mkShard 0 0 [] false false)) by (split; cbn; try done; split; by vm_compute).
  apply Build_queue_ok; cbn; try done.
  - split; [done|]. by repeat constructor.
  - repeat constructor.
Qed.

Lemma cloneFrame_id f : cloneFrame f = f.
Proof. by destruct f. Qed.

(** What an admitted frame does. *)
Lemma Enqueue_true q shard f q' : Enqueue q shard f = (true, q') ->
  exists s, 0 <= shard < Z.of_nat ShardCount /\ q_shards q !! Z.to_nat shard = Some s /\
    q_closed q = false /\ sh_closed s = false /\ 0 < size_of f /\ 0 < UserID (fr_Source f) /\
    q_items q < MaxQueueItems /\ q_bytes q + size_of f <= MaxQueueBytes /\
    sh_items s < MaxShardItems /\ sh_bytes s + size_of f <= MaxShardBytes /\
    q' = mkQueue (<[Z.to_nat shard := mkShard (sh_items s + 1) (sh_bytes s + size_of f)
                                        (sh_queue s ++ [f]) true (sh_closed s)]> (q_shards q))
           (q_items q + 1) (q_bytes q + size_of f) (q_closed q).
Proof.
  unfold Enqueue. rewrite cloneFrame_id. pose proof (size_nonneg f) as Hsz. intros H.
  destruct (_ || _ || _ || _) eqn:E1 in H; [done|]. destruct (_ || _) eqn:E2 in H; [done|].
  destruct (_ || _ || _) eqn:E3 in H; [done|].
  destruct (q_shards q !! Z.to_nat shard) as [s|] eqn:Es; [|done].
  destruct (_ || _ || _) eqn:E4 in H; [done|]. injection H as <-.
  rewrite ?orb_false_iff, ?Z.ltb_ge, ?Z.leb_gt, ?Z.eqb_neq in *.
  exists s. split_and!; try lia; try tauto.
Qed.

(** Every other outcome leaves the queue alone. *)
Lemma Enqueue_false q shard f q' : Enqueue q shard f = (false, q') -> q' = q.
Proof.
  unfold Enqueue. repeat match goal with |- context [if ?b then _ else _] => destruct b; [by intros [= <-]|] end.
  destruct (q_shards q !! Z.to_nat shard); [|by intros [= <-]].
  match goal with |- context [if ?b then _ else _] => destruct b; [by intros [= <-]|done] end.
Qed.

Lemma Enqueue_ok q shard f : queue_ok q -> queue_ok (Enqueue q shard f).2.
Proof.
  intros Hok. destruct (Enqueue q shard f) as [[] q'] eqn:E; cbn [snd]; [|by apply Enqueue_false in E as ->].
  apply Enqueue_true in E as (s & Hr & Hs & Hc & Hsc & Hsz & _ & H1 & H2 & H3 & H4 & ->).
  pose proof (Forall_lookup_1 _ _ _ _ (proj2 (qo_shards _ Hok)) Hs) as [Ha Hb Hd He].
  pose proof (queue_ok_update q (Z.to_nat shard) s
    (mkShard (sh_items s + 1) (sh_bytes s + size_of f) (sh_queue s ++ [f]) true (sh_closed s)) Hok Hs) as Hup.
  cbn [sh_items sh_bytes sh_closed] in Hup.
  replace (q_items q - sh_items s + (sh_items s + 1)) with (q_items q + 1) in Hup by lia.
  replace (q_bytes q - sh_bytes s + (sh_bytes s + size_of f)) with (q_bytes q + size_of f) in Hup by lia.
  apply Hup; try lia; [|done]. split; cbn [sh_items sh_bytes sh_queue sh_closed].
  - rewrite length_app. cbn [length]. lia.
  - rewrite fmap_app, total_app. cbn. lia.
  - lia.
  - congruence.
Qed.

Lemma pop_pass_frame q shard f q' : pop_pass q shard = (PopFrame f, q') ->
  exists s rest, 0 <= shard < Z.of_nat ShardCount /\ q_shards q !! Z.to_nat shard = Some s /\ sh_queue s = f :: rest /\
    q' = mkQueue (<[Z.to_nat shard := mkShard (sh_items s - 1) (sh_bytes s - size_of f) rest
                     (match rest with [] => sh_ready s | _ :: _ => true end) (sh_closed s)]> (q_shards q))
           (q_items q - 1) (q_bytes q - size_of f) (q_closed q).
Proof.
  unfold pop_pass. destruct (_ || _) eqn:E1; [done|].
  rewrite orb_false_iff, Z.ltb_ge, Z.leb_gt in E1.
  destruct (q_shards q !! Z.to_nat shard) as [s|] eqn:Es; [|done].
  destruct (sh_queue s) as [|f' rest] eqn:Eq; [by destruct (sh_closed s)|]. intros [= <- <-].
  exists s, rest. split_and!; try done; try lia. by destruct rest.
Qed.

Lemma pop_pass_other q shard r q' : pop_pass q shard = (r, q') -> (forall f, r <> PopFrame f) -> q' = q.
Proof.
  unfold pop_pass. intros H Hr. destruct (_ || _) in H; [by simplify_eq|].
  destruct (q_shards q !! Z.to_nat shard) as [s|]; [|by simplify_eq].
  destruct (sh_queue s) as [|f rest]; [by destruct (sh_closed s); simplify_eq|]. simplify_eq. by destruct (Hr f).
Qed.

Lemma pop_pass_ok q shard : queue_ok q -> queue_ok (pop_pass q shard).2.
Proof.
  intros Hok. destruct (pop_pass q shard) as [r q'] eqn:E. cbn [snd].
  destruct r as [f| |]; [|by rewrite (pop_pass_other _ _ _ _ E)..].
  apply pop_pass_frame in E as (s & rest & Hr & Hs & Hq & ->).
  pose proof (Forall_lookup_1 _ _ _ _ (proj2 (qo_shards _ Hok)) Hs) as [Ha Hb Hd He].
  rewrite Hq in Ha, Hb, He. rewrite fmap_cons in Hb. cbn [length total] in Ha, Hb.
  pose proof (size_nonneg f) as Hsz. pose proof (qo_caps _ Hok) as Hcap.
  match goal with |- queue_ok (mkQueue (<[_ := ?s']> _) _ _ _) =>
    pose proof (queue_ok_update q (Z.to_nat shard) s s' Hok Hs) as Hup end.
  cbn [sh_items sh_bytes sh_closed] in Hup.
  replace (q_items q - sh_items s + (sh_items s - 1)) with (q_items q - 1) in Hup by lia.
  replace (q_bytes q - sh_bytes s + (sh_bytes s - size_of f)) with (q_bytes q - size_of f) in Hup by lia.
  apply Hup; try lia; [|done]. split; cbn [sh_items sh_bytes sh_queue sh_closed]; try lia.
  intros Hc. by apply He in Hc.
Qed.

Lemma total_zero {A} (f : A -> Z) l : (forall x, f x = 0) -> total (f <$> l) = 0.
Proof. intros H. induction l as [|a l IH]; [done|]. rewrite fmap_cons. cbn [total]. rewrite H. lia. Qed.

Lemma Close_ok q : queue_ok q -> queue_ok (Close q).
Proof.
  intros Hok. unfold Close. destruct (q_closed q) eqn:Hc; [done|]. destruct Hok as [[Hl _] _ _ _ _].
  apply Build_queue_ok; cbn [q_shards q_items q_bytes q_closed].
  - rewrite length_fmap. split; [done|]. apply Forall_fmap, Forall_true. intros s.
    split; cbn; done.
  - rewrite <-list_fmap_compose. by rewrite total_zero.
  - rewrite <-list_fmap_compose. by rewrite total_zero.
  - split; by vm_compute.
  - apply Forall_fmap, Forall_true. done.
Qed.

Lemma take_ready_ok q i q' : queue_ok q -> take_ready q i = Some q' -> queue_ok q'.
Proof.
  intros Hok. unfold take_ready. destruct (q_shards q !! i) as [s|] eqn:Hs; [|done].
  destruct (sh_ready s); [|done]. intros [= <-].
  pose proof (Forall_lookup_1 _ _ _ _ (proj2 (qo_shards _ Hok)) Hs) as [Ha Hb Hd He].
  pose proof (queue_ok_update q i s (mkShard (sh_items s) (sh_bytes s) (sh_queue s) false (sh_closed s)) Hok Hs) as Hup.
  cbn [sh_items sh_bytes sh_closed] in Hup. pose proof (qo_caps _ Hok).
  replace (q_items q - sh_items s + sh_items s) with (q_items q) in Hup by lia.
  replace (q_bytes q - sh_bytes s + sh_bytes s) with (q_bytes q) in Hup by lia.
  apply Hup; try lia; done.
Qed.

(** ** Sequences of operations *)

Inductive Op := OEnqueue (shard : Z) (f : Frame) | OPop (shard : Z) | OTake (shard : nat) | OClose.

(** The queue, the frames admitted and the frames popped, each with its shard. *)
Record Trace := mkTrace { t_queue : Queue; t_in : list (Z * Frame); t_out : list (Z * Frame) }.

Definition apply_op (t : Trace) (o : Op) : Trace :=
  match o with
  | OEnqueue shard f =>
      let '(ok, q) := Enqueue (t_queue t) shard f in
      mkTrace q (if ok then t_in t ++ [(shard, f)] else t_in t) (t_out t)
  | OPop shard =>
      let '(r, q) := pop_pass (t_queue t) shard in
      mkTrace q (t_in t) (match r with PopFrame f => t_out t ++ [(shard, f)] | _ => t_out t end)
  | OTake shard =>
      mkTrace (default (t_queue t) (take_ready (t_queue t) shard)) (t_in t) (t_out t)
  | OClose => mkTrace (Close (t_queue t)) (t_in t) (t_out t)
  end.

Definition run (ops : list Op) : Trace := fold_left apply_op ops (mkTrace NewQueue [] []).

(** The frames of one shard, in order. *)
Definition on_shard (shard : Z) (l : list (Z * Frame)) : list Frame :=
  (filter (fun x => x.1 = shard) l).*2.

Definition waiting (q : Queue) (shard : Z) : list Frame :=
  match q_shards q !! Z.to_nat shard with Some s => sh_queue s | None => [] end.

(** Every shard is a FIFO: what was admitted is what was popped, then what waits. *)
Record trace_ok (t : Trace) : Prop := {
  to_queue : queue_ok (t_queue t);
  to_fifo : forall shard, 0 <= shard < Z.of_nat ShardCount ->
    (q_closed (t_queue t) = false ->
       on_shard shard (t_in t) = on_shard shard (t_out t) ++ waiting (t_queue t) shard) /\
    (q_closed (t_queue t) = true ->
       on_shard shard (t_out t) `prefix_of` on_shard shard (t_in t) /\ waiting (t_queue t) shard = [])
}.

Lemma on_shard_snoc shard l k f :
  on_shard shard (l ++ [(k, f)]) = on_shard shard l ++ (if decide (k = shard) then [f] else []).
Proof.
  unfold on_shard. rewrite filter_app, fmap_app, filter_cons. cbn [fst]. case_decide; done.
Qed.

Lemma waiting_insert q k s shard it by_ cl : 0 <= k -> 0 <= shard -> (Z.to_nat k < length (q_shards q))%nat ->
  waiting (mkQueue (<[Z.to_nat k := s]> (q_shards q)) it by_ cl) shard =
  if decide (k = shard) then sh_queue s else waiting q shard.
Proof.
  intros Hk Hs Hl. unfold waiting. cbn [q_shards]. case_decide as E.
  - subst. by rewrite list_lookup_insert_eq.
  - rewrite list_lookup_insert_ne; [done|]. lia.
Qed.

Lemma apply_op_ok t o : trace_ok t -> trace_ok (apply_op t o).
Proof.
  intros [Hq Hf]. pose proof (proj1 (qo_shards _ Hq)) as Hlen. destruct o as [k f|k|k|]; cbn [apply_op].
  - pose proof (Enqueue_ok _ k f Hq) as Hq'. destruct (Enqueue (t_queue t) k f) as [[] q'] eqn:E; cbn [snd] in Hq'.
    2:{ apply Enqueue_false in E as ->. by split. }
    apply Enqueue_true in E as (s & Hr & Hs & Hc & _ & _ & _ & _ & _ & _ & _ & ->).
    split; cbn [t_queue t_in t_out q_closed]; [done|]. intros shard Hsh. split; [|congruence]. intros _.
    rewrite on_shard_snoc, waiting_insert by (rewrite ?Hlen; unfold ShardCount in *; lia).
    rewrite (proj1 (Hf shard Hsh) Hc). case_decide; [|by rewrite app_nil_r].
    subst. unfold waiting. rewrite Hs. cbn [sh_queue]. by simplify_list_eq.
  - pose proof (pop_pass_ok _ k Hq) as Hq'. destruct (pop_pass (t_queue t) k) as [r q'] eqn:E; cbn [snd] in Hq'.
    destruct r as [f| |]; [|rewrite (pop_pass_other _ _ _ _ E ltac:(done)); by split..].
    apply pop_pass_frame in E as (s & rest & Hr & Hs & Hqs & ->).
    split; cbn [t_queue t_in t_out q_closed]; [done|]. intros shard Hsh.
    rewrite on_shard_snoc, waiting_insert by (rewrite ?Hlen; unfold ShardCount in *; lia).
    destruct (Hf shard Hsh) as [Ho Hcl]. split.
    + intros Hc. rewrite (Ho Hc). case_decide; [|by rewrite app_nil_r].
      subst. unfold waiting. rewrite Hs, Hqs, <-app_assoc. done.
    + intros Hc. destruct (Hcl Hc) as [Hp Hw]. case_decide; [|by rewrite app_nil_r].
      subst. unfold waiting in Hw. rewrite Hs, Hqs in Hw. done.
  - destruct (take_ready (t_queue t) k) as [q'|] eqn:E; cbn [from_option id]; [|by split].
    pose proof (take_ready_ok _ _ _ Hq E) as Hq'. unfold take_ready in E.
    destruct (q_shards (t_queue t) !! k) as [s|] eqn:Hs; [|done]. destruct (sh_ready s); [|done]. simplify_eq.
    split; cbn [t_queue t_in t_out q_closed]; [done|]. intros shard Hsh.
    assert (Ew : waiting (mkQueue (<[k := mkShard (sh_items s) (sh_bytes s) (sh_queue s) false (sh_closed s)]>
      (q_shards (t_queue t))) (q_items (t_queue t)) (q_bytes (t_queue t)) (q_closed (t_queue t))) shard
      = waiting (t_queue t) shard).
    { pose proof (lookup_lt_Some _ _ _ Hs) as Hlt. pose proof (waiting_insert (t_queue t) (Z.of_nat k)
        (mkShard (sh_items s) (sh_bytes s) (sh_queue s) false (sh_closed s)) shard (q_items (t_queue t))
        (q_bytes (t_queue t)) (q_closed (t_queue t)) ltac:(lia) ltac:(lia)) as Hw.
      rewrite Nat2Z.id in Hw. rewrite Hw by done. case_decide; [|done]. subst. unfold waiting. by rewrite Nat2Z.id, Hs. }
    rewrite Ew. by apply Hf.
  - pose proof (Close_ok _ Hq) as Hq'. split; [done|]. cbn [t_queue t_in t_out]. intros shard Hsh.
    unfold Close in *. destruct (q_closed (t_queue t)) eqn:Hc; [rewrite Hc; by apply Hf|]. cbn [q_closed]. split; [done|].
    intros _. split.
    + rewrite (proj1 (Hf shard Hsh) eq_refl). by eexists.
    + unfold waiting. cbn [q_shards]. rewrite list_lookup_fmap. by destruct (q_shards (t_queue t) !! Z.to_nat shard).
Qed.

Lemma run_ok ops : trace_ok (run ops).
Proof.
  unfold run. assert (H0 : trace_ok (mkTrace NewQueue [] [])).
  { split; [apply NewQueue_ok|]. intros shard Hsh. split; [|done]. intros _. cbn [t_queue t_in t_out].
    unfold waiting, NewQueue. cbn [q_shards]. rewrite lookup_replicate_2 by (unfold ShardCount in *; lia). done. }
  generalize dependent (mkTrace NewQueue [] []). induction ops as [|o ops IH]; intros t Ht; [done|].
  cbn [fold_left]. by apply IH, apply_op_ok.
Qed.

(** ** A shard's worker *)

Inductive Worker := Running | Waiting | Stopped.

(** One step of the worker of [shard], of a producer, of another shard's worker
    or of [Close]. *)
Inductive wstep (shard : Z) : Queue * Worker -> Queue * Worker -> Prop :=
  | w_enqueue q w k f : wstep shard (q, w) ((Enqueue q k f).2, w)
  | w_close q w : wstep shard (q, w) (Close q, w)
  | w_other q w k : 0 <= k -> k <> shard -> wstep shard (q, w) ((pop_pass q k).2, w)
  | w_other_take q w k q' : k <> Z.to_nat shard -> take_ready q k = Some q' -> wstep shard (q, w) (q', w)
  | w_pop q f q' : pop_pass q shard = (PopFrame f, q') -> wstep shard (q, Running) (q', Running)
  | w_done q : (pop_pass q shard).1 = PopDone -> wstep shard (q, Running) (q, Stopped)
  | w_wait q : (pop_pass q shard).1 = PopWait -> wstep shard (q, Running) (q, Waiting)
  | w_wake q q' : take_ready q (Z.to_nat shard) = Some q' -> wstep shard (q, Waiting) (q', Running)
  | w_cancel q : wstep shard (q, Waiting) (q, Stopped).

(** A sleeping worker whose shard has work or is closed has a wake-up pending. *)
Definition awake_ok (shard : Z) (st : Queue * Worker) : Prop :=
  queue_ok st.1 /\ forall s, q_shards st.1 !! Z.to_nat shard = Some s -> st.2 = Waiting ->
    sh_queue s <> [] \/ sh_closed s = true -> sh_ready s = true.

Lemma wstep_ok shard st st' : 0 <= shard < Z.of_nat ShardCount -> wstep shard st st' ->
  awake_ok shard st -> awake_ok shard st'.
Proof.
  intros Hsh Hst [Hq Hw]. destruct Hst; cbn [fst snd] in *; (split; cbn [fst snd]).
  - by apply Enqueue_ok.
  - intros s Hs -> Hwork. destruct (Enqueue q k f) as [[] q'] eqn:E; cbn [snd] in Hs;
      [|apply Enqueue_false in E as ->; by apply (Hw s)].
    apply Enqueue_true in E as (s0 & Hr & Hs0 & _ & _ & _ & _ & _ & _ & _ & _ & ->). cbn [q_shards] in Hs.
    apply list_lookup_insert_Some in Hs as [(_ & <- & _)|[_ Hs]]; [done|]. by apply (Hw s).
  - by apply Close_ok.
  - intros s Hs -> Hwork. unfold Close in Hs. destruct (q_closed q); [by apply (Hw s)|]. cbn [q_shards] in Hs.
    rewrite list_lookup_fmap in Hs. destruct (q_shards q !! Z.to_nat shard); [|done]. by simplify_eq/=.
  - by apply pop_pass_ok.
  - intros s Hs -> Hwork. destruct (pop_pass q k) as [r q'] eqn:E. cbn [snd] in Hs.
    destruct r as [f| |]; [|rewrite (pop_pass_other _ _ _ _ E ltac:(done)) in Hs; by apply (Hw s)..].
    apply pop_pass_frame in E as (s0 & rest & Hr & Hs0 & _ & ->). cbn [q_shards] in Hs.
    rewrite list_lookup_insert_ne in Hs by lia. by apply (Hw s).
  - by eapply take_ready_ok.
  - intros s Hs -> Hwork. unfold take_ready in H0. destruct (q_shards q !! k) as [s0|]; [|done].
    destruct (sh_ready s0); [|done]. simplify_eq. cbn [q_shards] in Hs.
    rewrite list_lookup_insert_ne in Hs by done. by apply (Hw s).
  - pose proof (pop_pass_ok q shard Hq) as Hok. by rewrite H in Hok.
  - done.
  - done.
  - done.
  - done.
  - intros s Hs _ Hwork. unfold pop_pass in H. destruct (_ || _) in H; [done|]. rewrite Hs in H.
    destruct (sh_queue s); [|done]. destruct (sh_closed s); [done|]. by destruct Hwork.
  - by eapply take_ready_ok.
  - done.
  - done.
  - done.
Qed.

(** ** Theorems *)

(** The queue's caps hold exactly: after any sequence of operations the
    counters are the numbers and payload bytes of the waiting frames, globally
    and per shard, and they never exceed 4096 frames and 16 MiB overall and an
    eighth of each per shard; a closed queue holds nothing. *)
Theorem queue_bounded ops :
  let q := t_queue (run ops) in
  q_items q = total ((fun s => Z.of_nat (length (sh_queue s))) <$> q_shards q) /\
  q_bytes q = total ((fun s => total (size_of <$> sh_queue s)) <$> q_shards q) /\
  q_items q <= 4096 /\ q_bytes q <= 16777216 /\
  Forall (fun s => Z.of_nat (length (sh_queue s)) <= 512 /\ total (size_of <$> sh_queue s) <= 2097152 /\
                   (q_closed q = true -> sh_queue s = [])) (q_shards q).
Proof.
  destruct (run_ok ops) as [[[Hl Hs] Hi Hb Hc Hcl] _]. cbv zeta. set (q := t_queue (run ops)) in *.
  split_and!; [| |apply Hc..|].
  - rewrite Hi. f_equal. apply list_fmap_ext. intros i s Hs'. by apply (Forall_lookup_1 _ _ _ _ Hs Hs').
  - rewrite Hb. f_equal. apply list_fmap_ext. intros i s Hs'. by apply (Forall_lookup_1 _ _ _ _ Hs Hs').
  - apply Forall_lookup. intros i s Hs'. pose proof (Forall_lookup_1 _ _ _ _ Hs Hs') as [H1 H2 [H3 H4] H5].
    pose proof (Forall_lookup_1 _ _ _ _ Hcl Hs') as Hcs. cbn in Hcs.
    rewrite <-H1, <-H2. split_and!; [exact H3|exact H4|]. intros Hq. apply H5. congruence.
Qed.

(** Each shard is a first-in first-out queue: whatever producers, workers and
    [Close] do, the frames popped from a shard are the frames admitted to it in
    order, followed, until the queue is closed, by the ones still waiting; a
    stream always uses the same one of the eight shards. *)
Theorem queue_fifo ops userID channelType :
  let t := run ops in
  let shard := Z.of_nat (ShardFor userID channelType) in
  0 <= shard < 8 /\
  (q_closed (t_queue t) = false ->
     on_shard shard (t_in t) = on_shard shard (t_out t) ++ waiting (t_queue t) shard) /\
  on_shard shard (t_out t) `prefix_of` on_shard shard (t_in t).
Proof.
  cbv zeta. assert (Hr : 0 <= Z.of_nat (ShardFor userID channelType) < Z.of_nat ShardCount).
  { unfold ShardFor. match goal with |- context [Z.to_nat (?v mod _)] =>
      pose proof (Z.mod_pos_bound v (Z.of_nat ShardCount) ltac:(unfold ShardCount; lia)) end. lia. }
  split; [exact Hr|]. destruct (run_ok ops) as [_ Hf]. destruct (Hf _ Hr) as [Ho Hc].
  split; [exact Ho|]. destruct (q_closed (t_queue (run ops))) eqn:E; [by apply Hc|].
  rewrite (Ho eq_refl). by eexists.
Qed.

(** No wake-up is lost: in every interleaving of a shard's worker with
    producers, other workers and [Close], a worker asleep in [Pop] while its
    shard holds a frame or is closed can be woken at once, so it never sleeps on
    work or past shutdown. *)
Theorem no_lost_wakeup shard q w : 0 <= shard < 8 -> rtc (wstep shard) (NewQueue, Running) (q, w) -> w = Waiting ->
  forall s, q_shards q !! Z.to_nat shard = Some s -> sh_queue s <> [] \/ sh_closed s = true ->
  exists q', wstep shard (q, w) (q', Running).
Proof.
  intros Hsh Hr -> s Hs Hwork.
  assert (Hok : awake_ok shard (q, Waiting)).
  { assert (H0 : awake_ok shard (NewQueue, Running)) by (split; [apply NewQueue_ok|done]). revert H0.
    induction Hr as [|x y z Hxy _ IH]; [done|]. intros Hx. apply IH. by apply (wstep_ok shard x). }
  destruct Hok as [_ Hw]. specialize (Hw s Hs eq_refl Hwork). cbn [fst] in *.
  eexists. apply w_wake. unfold take_ready. rewrite Hs, Hw. done.
Qed.

Definition ex_frame : Frame := mkQFrame (mkSource 7 (replicate 16 1) 3 (replicate 16 2) 1 1) 1 5 9 [10; 20].

Lemma no_lost_wakeup_witness :
  exists q', wstep 3 ((Enqueue NewQueue 3 ex_frame).2, Waiting) (q', Running).
Proof.
  apply (no_lost_wakeup 3 (Enqueue NewQueue 3 ex_frame).2 Waiting ltac:(lia)) with
    (s := mkShard 1 2 [ex_frame] true false).
  - eapply rtc_l; [by apply w_wait|]. apply rtc_once, w_enqueue.
  - reflexivity.
  - by vm_compute.
  - by left.
Defined.

End RelayQueue.
