(* ===== verification/Relay.v ===== *)
(** * Relay: admission, authority checks and fan-out of media frames
    ([relay/admission.go], [relay/relay.go])

    The relay's adapters are the operations of a [Config] over an environment
    state [E]: the authority resolver, the membership and mute views and the
    channel registry; the UDP sender is the interface [Sender], which
    [RelayUdp] implements with [Udp.Send].  [Handle] runs on the UDP read
    goroutine; [process] runs on a worker, with the environment states at each of
    its four reads as separate arguments. *)

From S2P Require Import Prelude Float64 TokenBucket Registry Udp LoadControl RelayQueue.
From stdpp Require Import base gmap list strings fin_maps sorting.
From Stdlib Require Import ZArith Lia.
Import TokenBucket RelayQueue.
#[local] Open Scope Z_scope.

Module Relay.

Definition MaxTrackedSessions : Z := 4096.
Definition MaxLatencySamples : nat := 4096.
Definition MaxFanout : nat := 256.

Definition zero_id : SessionID := replicate 16 0.

(** ** Soft admission *)

Record sessionBucket := mkSessionBucket { bucket : TokenBucket; lastSeen : Z }.

Record softAdmission := mkSoftAdmission {
  sa_global : TokenBucket;
  sa_sessions : gmap SessionID sessionBucket;
  sa_globalRate : Z;
  sa_sessionRate : Z
}.

Definition newSoftAdmission (globalRate sessionRate : Z) (now : Z) : softAdmission :=
  mkSoftAdmission (NewTokenBucket (Float64.of_int globalRate) (globalRate * 2) now) ∅ globalRate sessionRate.

(** [now.Sub(lastSeen) > 2*time.Minute]. *)
Definition idle (now : Z) (s : sessionBucket) : bool := 2 * Minute <? time_sub now (lastSeen s).

(** [now] is the sample of [set], [clock] those of the buckets it updates. *)
Definition set (a : softAdmission) (globalRate sessionRate : Z) (now clock : Z) : softAdmission :=
  let globalRate := if globalRate <? 1 then 1 else globalRate in
  let sessionRate := if sessionRate <? 1 then 1 else sessionRate in
  mkSoftAdmission (SetRate (sa_global a) (Float64.of_int globalRate) (globalRate * 2) clock)
    ((fun s => mkSessionBucket (SetRate (bucket s) (Float64.of_int sessionRate) (sessionRate * 2) clock) (lastSeen s))
       <$> filter (fun kv => idle now kv.2 = false) (sa_sessions a))
    globalRate sessionRate.

Definition sweepLocked (a : softAdmission) (now : Z) : softAdmission :=
  mkSoftAdmission (sa_global a) (filter (fun kv => idle now kv.2 = false) (sa_sessions a))
    (sa_globalRate a) (sa_sessionRate a).

Definition tracked (a : softAdmission) : Z := Z.of_nat (size (sa_sessions a)).

(** The final budget step of [allow] on a known session bucket. *)
Definition take_session (a : softAdmission) (id : SessionID) (b : TokenBucket) (now : Z) : bool * softAdmission :=
  let '(ok, b) := TakeAt b now in
  (ok, mkSoftAdmission (sa_global a) (<[id := mkSessionBucket b now]> (sa_sessions a))
         (sa_globalRate a) (sa_sessionRate a)).

Definition allow (a : softAdmission) (id : SessionID) (now clock : Z) : bool * softAdmission :=
  if decide (id = zero_id) then (false, a)
  else
    let '(ok, g) := TakeAt (sa_global a) now in
    let a := mkSoftAdmission g (sa_sessions a) (sa_globalRate a) (sa_sessionRate a) in
    if negb ok then (false, a)
    else match sa_sessions a !! id with
         | Some s => take_session a id (bucket s) now
         | None =>
             let a := if MaxTrackedSessions <=? tracked a then sweepLocked a now else a in
             if MaxTrackedSessions <=? tracked a then (false, a)
             else take_session a id
                    (NewTokenBucket (Float64.of_int (sa_sessionRate a)) (sa_sessionRate a * 2) clock) now
         end.

(** ** Adapters *)

Record Recipient := mkRecipient { rc_UserID : Z; rc_SessionID : SessionID }.
Record MembershipSnapshot := mkMembers { ms_ChannelID : Z; ms_Members : list Recipient }.

(** What the relay is given to read the coordinator's state with. *)
Record Config (E : Type) := mkConfig {
  SourceResolver : E -> Z -> option Source;
  MembershipResolver : E -> Z -> MembershipSnapshot;
  MuteResolver : E -> Source -> Z -> bool;
  Capabilities_ : E -> Z -> option Registry.Capabilities;
  GlobalPacketsPerSec : Z;
  SessionPacketsPerSec : Z
}.
Arguments SourceResolver {E}.
Arguments MembershipResolver {E}.
Arguments MuteResolver {E}.
Arguments Capabilities_ {E}.
Arguments GlobalPacketsPerSec {E}.
Arguments SessionPacketsPerSec {E}.

(** [Sender.Send]: target session, channel type, speaker, channel sequence and
    payload; the boolean is a nil error. *)
Class Sender (E : Type) := sender_send : E -> SessionID -> Z -> Z -> Z -> bytes -> bool * E.

Definition Valid (s : Source) : bool :=
  (0 <? UserID s) && bool_decide (SessionID_ s <> zero_id) && (0 <? ChannelID s)
  && bool_decide (ControlConnectionID s <> zero_id) && (0 <? ConnectionGeneration s)
  && (0 <? VoiceAuthorityGeneration s).

(** ** The relay's own state *)

Inductive Counter :=
  | enqueued | droppedOverload | droppedSoftLimit | droppedNoAuthority | droppedStaleAuthority
  | droppedMuted | droppedNoMembership | droppedInvalidChannel | sent | sendErrors.

#[export] Instance Counter_eq_dec : EqDecision Counter.
Proof. solve_decision. Defined.

(** [r_total k] and [r_interval k] are the cumulative and the interval counter [k]. *)
Record Relay := mkRelay {
  r_queue : Queue;
  r_soft : softAdmission;
  r_started : bool;
  r_stop : bool;
  r_err : option nat;
  r_total : Counter -> Z;
  r_interval : Counter -> Z;
  r_latencies : list Z
}.

Definition with_queue (r : Relay) (q : Queue) : Relay :=
  mkRelay q (r_soft r) (r_started r) (r_stop r) (r_err r) (r_total r) (r_interval r) (r_latencies r).
Definition with_soft (r : Relay) (a : softAdmission) : Relay :=
  mkRelay (r_queue r) a (r_started r) (r_stop r) (r_err r) (r_total r) (r_interval r) (r_latencies r).
Definition with_latencies (r : Relay) (l : list Z) : Relay :=
  mkRelay (r_queue r) (r_soft r) (r_started r) (r_stop r) (r_err r) (r_total r) (r_interval r) l.

(** [Add(1)] on an atomic [uint64] pair. *)
Definition bump (f : Counter -> Z) (k : Counter) : Counter -> Z :=
  fun k' => if decide (k' = k) then u64 (f k + 1) else f k'.
Definition count (r : Relay) (k : Counter) : Relay :=
  mkRelay (r_queue r) (r_soft r) (r_started r) (r_stop r) (r_err r) (bump (r_total r) k)
    (bump (r_interval r) k) (r_latencies r).

Inductive RelayError := ErrInvalidRelay | ErrRelayAlreadyStarted | ErrRelayNotStarted.

(** [New] for a configuration whose adapters are all present. *)
Definition New {E} (cfg : Config E) (now : Z) : result Relay RelayError :=
  if (GlobalPacketsPerSec cfg <=? 0) || (SessionPacketsPerSec cfg <=? 0) then Err ErrInvalidRelay
  else Ok (mkRelay NewQueue (newSoftAdmission (GlobalPacketsPerSec cfg) (SessionPacketsPerSec cfg) now)
             false false None (fun _ => 0) (fun _ => 0) []).

(** [e] is the environment the adapters read; [now] and [clock] are the clock samples. *)
Definition Handle {E} (cfg : Config E) (e : E) (r : Relay) (frame : Udp.InboundFrame) (now clock : Z) : Relay :=
  if negb (r_started r) || (Udp.f_UserID frame <=? 0) || bool_decide (Udp.f_SessionID frame = zero_id)
     || bool_decide (Udp.f_Payload frame = []) then r
  else match SourceResolver cfg e (Udp.f_UserID frame) with
  | None => count r droppedNoAuthority
  | Some source =>
      if negb (Valid source) || negb (bool_decide (SessionID_ source = Udp.f_SessionID frame))
      then count r droppedNoAuthority
      else match Capabilities_ cfg e (Udp.f_ChannelType frame) with
      | None => count r droppedInvalidChannel
      | Some caps =>
          if bool_decide (Registry.MuteKind caps = EmptyString) then count r droppedInvalidChannel
          else
            let '(ok, soft) := allow (r_soft r) (Udp.f_SessionID frame) now clock in
            let r := with_soft r soft in
            if negb ok then count r droppedSoftLimit
            else
              let shard := Z.of_nat (ShardFor (UserID source) (Udp.f_ChannelType frame)) in
              let '(ok, q) := Enqueue (r_queue r) shard
                (mkQFrame source (Udp.f_ChannelType frame) (Udp.f_ChannelSeq frame)
                   (Udp.f_TransportSeq frame) (Udp.f_Payload frame)) in
              let r := with_queue r q in
              if negb ok then count r droppedOverload else count r enqueued
      end
  end.

(** ** Worker *)

(** What a worker does to the outside world, in order. *)
Inductive Action :=
  | AcquireGate (userID : Z)
  | SendTo (id : SessionID) (channelType speaker channelSeq : Z) (payload : bytes) (ok : bool)
  | ReleaseGate (userID : Z).

Definition skip_member (source : Source) (m : Recipient) : bool :=
  (rc_UserID m <=? 0) || bool_decide (rc_SessionID m = zero_id)
  || bool_decide (rc_SessionID m = SessionID_ source).

(** The recipient loop. *)
Fixpoint fan_out {E} `{!Sender E} (frame : Frame) (members : list Recipient) (fanout : nat) (r : Relay) (e : E)
  : Relay * E * list Action :=
  match members with
  | [] => (r, e, [])
  | m :: members =>
      if skip_member (fr_Source frame) m then fan_out frame members fanout r e
      else if (MaxFanout <=? fanout)%nat then (r, e, [])
      else
        let '(ok, e) := sender_send e (rc_SessionID m) (fr_ChannelType frame) (UserID (fr_Source frame))
                          (fr_ChannelSeq frame) (fr_Payload frame) in
        let '(r, e, acts) := fan_out frame members (S fanout) (count r (if ok then sent else sendErrors)) e in
        (r, e, SendTo (rc_SessionID m) (fr_ChannelType frame) (UserID (fr_Source frame))
                 (fr_ChannelSeq frame) (fr_Payload frame) ok :: acts)
  end.

(** [e1] is the environment at the first resolution; the gate once held, [e2], [e3]
    and [e4] are those at the second resolution, at the mute check and at the
    membership read, from which the fan-out starts. *)
Definition process {E} `{!Sender E} (cfg : Config E) (r : Relay) (frame : Frame) (e1 e2 e3 e4 : E)
  : Relay * E * list Action :=
  let u := UserID (fr_Source frame) in
  if negb (bool_decide (SourceResolver cfg e1 u = Some (fr_Source frame)))
  then (count r droppedStaleAuthority, e1, [])
  else
    let gated r e := (r, e, [AcquireGate u; ReleaseGate u]) in
    if negb (bool_decide (SourceResolver cfg e2 u = Some (fr_Source frame)))
    then gated (count r droppedStaleAuthority) e2
    else if MuteResolver cfg e3 (fr_Source frame) (fr_ChannelType frame) then gated (count r droppedMuted) e3
    else
      let members := MembershipResolver cfg e4 (ChannelID (fr_Source frame)) in
      if negb (ms_ChannelID members =? ChannelID (fr_Source frame)) || bool_decide (ms_Members members = [])
      then gated (count r droppedNoMembership) e4
      else
        let '(r, e, acts) := fan_out frame (ms_Members members) 0 r e4 in
        (r, e, [AcquireGate u] ++ acts ++ [ReleaseGate u]).

Definition recordLatency (r : Relay) (latency : Z) : Relay :=
  let l := if (MaxLatencySamples <=? length (r_latencies r))%nat
           then take (MaxLatencySamples - 1) (drop 1 (r_latencies r)) else r_latencies r in
  with_latencies r (l ++ [latency]).

(** One iteration of [runShard]: [None] when [Pop] has nothing to return now. *)
Definition shard_iteration {E} `{!Sender E} (cfg : Config E) (r : Relay) (shard : Z) (e1 e2 e3 e4 : E)
    (started finished : Z) : option (Relay * E * list Action) :=
  match pop_pass (r_queue r) shard with
  | (PopFrame frame, q) =>
      let '(r, e, acts) := process cfg (with_queue r q) frame e1 e2 e3 e4 in
      Some (recordLatency r (time_sub finished started), e, acts)
  | _ => None
  end.

(** ** Lifecycle *)

Definition Start (r : Relay) : option RelayError * Relay :=
  if r_started r then (Some ErrRelayAlreadyStarted, r)
  else (None, mkRelay (r_queue r) (r_soft r) true (r_stop r) (r_err r) (r_total r) (r_interval r) (r_latencies r)).

(** [Close] up to its wait for completion: [stopOnce] closes [stop]. *)
Definition Close (r : Relay) : option RelayError * Relay :=
  if negb (r_started r) then (Some ErrRelayNotStarted, r)
  else (None, mkRelay (r_queue r) (r_soft r) (r_started r) true (r_err r) (r_total r) (r_interval r) (r_latencies r)).

Definition setFailure (r : Relay) (err : option nat) : Relay :=
  mkRelay (r_queue r) (r_soft r) (r_started r) (r_stop r)
    (match r_err r with Some e => Some e | None => err end) (r_total r) (r_interval r) (r_latencies r).
Definition failure (r : Relay) : option nat := r_err r.

(** A worker's panic handler: record the failure and stop the relay. *)
Definition worker_panic (r : Relay) (err : nat) : Relay :=
  let r := setFailure r (Some err) in
  mkRelay (r_queue r) (r_soft r) (r_started r) true (r_err r) (r_total r) (r_interval r) (r_latencies r).

(** [run] once its context or [stop] fires: the queue is closed and, when the
    workers are gone, the first failure is sent on [done]. *)
Definition run_exit (r : Relay) : option nat * Relay :=
  let r := with_queue r (RelayQueue.Close (r_queue r)) in (failure r, r).

(** ** Limits and metrics *)

Definition minPositive (value hard : Z) : Z :=
  let value := if value <? 1 then 1 else value in
  if hard <? value then hard else value.

Definition SetSoftLimits {E} (cfg : Config E) (r : Relay) (limits : LoadControl.SoftLimits) (now clock : Z) : Relay :=
  with_soft r (set (r_soft r) (minPositive (LoadControl.s_Global limits) (GlobalPacketsPerSec cfg))
                 (minPositive (LoadControl.s_Session limits) (SessionPacketsPerSec cfg)) now clock).

Definition percentile95 (values : list Z) : Z :=
  match values with
  | [] => 0
  | _ =>
      let sorted := merge_sort Z.le values in
      let position := ((length sorted * 95 + 99) / 100)%nat in
      let position := if (0 <? position)%nat then (position - 1)%nat else position in
      nth position sorted 0
  end.

Record MetricsSnapshot := mkMetrics {
  m_counters : Counter -> Z; m_Queue : QueueStats; m_P95 : Z; m_P95Millis : Z
}.

Definition drop_counters : list Counter :=
  [droppedOverload; droppedSoftLimit; droppedNoAuthority; droppedStaleAuthority; droppedMuted;
   droppedNoMembership; droppedInvalidChannel].

(** [uint64] addition from left to right. *)
Definition TotalDropped (m : MetricsSnapshot) : Z :=
  fold_left (fun acc k => u64 (acc + m_counters m k)) drop_counters 0.

Definition Snapshot (r : Relay) : MetricsSnapshot :=
  let p := percentile95 (r_latencies r) in
  mkMetrics (r_total r) (Stats (r_queue r)) p (Z.quot p 1000000).

Record IntervalSampleT := mkInterval {
  is_Enqueued : Z; is_Dropped : Z; is_SendErrors : Z; is_QueueUtilization : Z; is_P95 : Z
}.

Definition IntervalSample (r : Relay) : IntervalSampleT * Relay :=
  let p := percentile95 (r_latencies r) in
  let snapshot := mkMetrics (r_interval r) (Stats (r_queue r)) p (Z.quot p 1000000) in
  (mkInterval (m_counters snapshot enqueued) (TotalDropped snapshot) (m_counters snapshot sendErrors)
     (qs_Utilization (m_Queue snapshot)) p,
   mkRelay (r_queue r) (r_soft r) (r_started r) (r_stop r) (r_err r) (r_total r) (fun _ => 0) []).

End Relay.
