(* ===== verification/RelayProps.v ===== *)
(** * RelayProps: what the media relay guarantees

    Bounded admission state, authority and gating of the fan-out, exact
    accounting of every frame, and the p95 latency signal. *)

From S2P Require Import Prelude Float64 TokenBucket Registry Udp LoadControl RelayQueue Relay.
From stdpp Require Import base gmap list strings fin_maps sorting.
From Stdlib Require Import ZArith Lia.
Import TokenBucket RelayQueue Relay.
#[local] Open Scope Z_scope.

Module RelayProps.

(** ** Soft admission *)

Record soft_ok (a : softAdmission) : Prop := {
  sk_rates : 1 <= sa_globalRate a /\ 1 <= sa_sessionRate a;
  sk_global : bucket_ok (sa_global a);
  sk_sessions : map_Forall (fun _ s => bucket_ok (bucket s)) (sa_sessions a);
  sk_size : tracked a <= MaxTrackedSessions
}.

Lemma newSoftAdmission_ok g s now : 1 <= g -> 1 <= s -> soft_ok (newSoftAdmission g s now).
Proof.
  intros Hg Hs. split; cbn [newSoftAdmission sa_globalRate sa_sessionRate sa_global sa_sessions]; [lia| |apply map_Forall_empty|].
  - apply NewTokenBucket_ok; [apply Float64.of_int_nonneg|]; lia.
  - unfold tracked. cbn [sa_sessions newSoftAdmission]. by rewrite map_size_empty.
Qed.

Lemma filter_soft_ok a now : soft_ok a -> soft_ok (sweepLocked a now).
Proof.
  intros [Hr Hg Hs Hz]. split; cbn [sweepLocked sa_globalRate sa_sessionRate sa_global sa_sessions]; try done.
  - intros k s [Hk _]%map_lookup_filter_Some. by eapply Hs.
  - unfold tracked in *. cbn [sweepLocked sa_sessions].
    pose proof (size_filter_le (fun kv : SessionID * sessionBucket => idle now kv.2 = false) (sa_sessions a)). lia.
Qed.

Lemma set_soft_ok a g s now clock : soft_ok a -> soft_ok (set a g s now clock).
Proof.
  intros Ha. destruct (filter_soft_ok a now Ha) as [_ _ Hs Hz]. destruct Ha as [Hr Hg _ _].
  unfold sweepLocked, tracked in *. cbn [sa_sessions] in *.
  split; cbn [set sa_globalRate sa_sessionRate sa_global sa_sessions].
  - destruct (Z.ltb_spec g 1), (Z.ltb_spec s 1); lia.
  - by apply SetRate_ok.
  - apply map_Forall_fmap. eapply map_Forall_impl; [exact Hs|]. intros k b Hb. cbn. by apply SetRate_ok.
  - unfold tracked. cbn [sa_sessions set]. by rewrite map_size_fmap.
Qed.

Lemma take_session_ok a id b now : soft_ok a -> bucket_ok b ->
  is_Some (sa_sessions a !! id) \/ tracked a < MaxTrackedSessions -> soft_ok (take_session a id b now).2.
Proof.
  intros [Hr Hg Hs Hz] Hb Hroom. unfold take_session. pose proof (TakeAt_ok b now Hb) as Hb'.
  destruct (TakeAt b now) as [ok b']. cbn [snd] in *.
  split; cbn [sa_globalRate sa_sessionRate sa_global sa_sessions]; try done.
  - by apply map_Forall_insert_2.
  - unfold tracked in *. cbn [sa_sessions]. destruct Hroom as [Hin|Hlt].
    + by rewrite map_size_insert_Some.
    + pose proof (size_insert_le (sa_sessions a) id (mkSessionBucket b' now)). lia.
Qed.

Lemma allow_soft_ok a id now clock : soft_ok a -> soft_ok (allow a id now clock).2.
Proof.
  intros Ha. unfold allow. case_decide; [done|]. pose proof (TakeAt_ok _ now (sk_global _ Ha)) as Hg.
  destruct (TakeAt (sa_global a) now) as [ok g]. cbn [snd] in Hg.
  assert (Ha1 : soft_ok (mkSoftAdmission g (sa_sessions a) (sa_globalRate a) (sa_sessionRate a)))
    by (destruct Ha; by split).
  destruct ok; cbn [negb]; [|exact Ha1]. clear Ha Hg. revert Ha1.
  generalize (mkSoftAdmission g (sa_sessions a) (sa_globalRate a) (sa_sessionRate a)). clear a. intros a Ha.
  destruct (sa_sessions a !! id) as [s|] eqn:Hid.
  - apply take_session_ok; [done|by apply (sk_sessions _ Ha id)|by left].
  - cbv zeta. set (a' := if MaxTrackedSessions <=? tracked a then sweepLocked a now else a). assert (Ha' : soft_ok a').
    { unfold a'. destruct (_ <=? _); [by apply filter_soft_ok|done]. }
    destruct (Z.leb_spec MaxTrackedSessions (tracked a')); [exact Ha'|].
    apply take_session_ok; [done| |by right]. destruct (sk_rates _ Ha').
    apply NewTokenBucket_ok; [apply Float64.of_int_nonneg|]; lia.
Qed.

Inductive SoftOp := OAllow (id : SessionID) (now clock : Z) | OSet (g s now clock : Z).

Definition soft_step (a : softAdmission) (o : SoftOp) : softAdmission :=
  match o with
  | OAllow id now clock => (allow a id now clock).2
  | OSet g s now clock => set a g s now clock
  end.

(** Session churn cannot grow the relay: over any sequence of admissions with any
    session identifiers and any limit updates, at most 4096 session budgets are
    tracked, every budget stays between zero and its burst, and the effective
    rates never fall below one packet per second. *)
Theorem soft_admission_bounded g s now ops : 1 <= g -> 1 <= s ->
  let a := fold_left soft_step ops (newSoftAdmission g s now) in
  tracked a <= 4096 /\ 1 <= sa_globalRate a /\ 1 <= sa_sessionRate a /\ bucket_ok (sa_global a) /\
  map_Forall (fun _ b => bucket_ok (bucket b)) (sa_sessions a).
Proof.
  intros Hg Hs a. assert (Ha : soft_ok a).
  { subst a. generalize (newSoftAdmission_ok g s now Hg Hs). generalize (newSoftAdmission g s now).
    induction ops as [|o ops IH]; intros a Ha; [done|]. cbn [fold_left]. apply IH.
    destruct o; [by apply allow_soft_ok|by apply set_soft_ok]. }
  destruct Ha as [[Hr1 Hr2] H1 H2 H3]. split_and!; try done.
Qed.

(** ** Fan-out *)

Section FanOut.
Context {E : Type} `{!Sender E} (cfg : Config E).

Definition send_of (a : Action) : option (SessionID * bool) :=
  match a with SendTo id _ _ _ _ ok => Some (id, ok) | _ => None end.

(** The recipients of a frame: members other than the speaker, at most 256. *)
Definition recipients (frame : Frame) (members : list Recipient) : list SessionID :=
  take MaxFanout (rc_SessionID <$> filter (fun m => skip_member (fr_Source frame) m = false) members).

Definition is_send (frame : Frame) (a : Action) : Prop :=
  exists id ok, a = SendTo id (fr_ChannelType frame) (UserID (fr_Source frame)) (fr_ChannelSeq frame)
                  (fr_Payload frame) ok.

Lemma fan_out_spec frame members n r e r' e' acts : fan_out frame members n r e = (r', e', acts) ->
  Forall (is_send frame) acts /\
  (omap send_of acts).*1 =
    take (MaxFanout - n) (rc_SessionID <$> filter (fun m => skip_member (fr_Source frame) m = false) members) /\
  r_queue r' = r_queue r /\ r_soft r' = r_soft r /\
  (forall k, k <> sent -> k <> sendErrors -> r_total r' k = r_total r k).
Proof using Type.
  revert n r e r' e' acts. induction members as [|m members IH]; intros n r e r' e' acts H; cbn [fan_out] in H.
  - simplify_eq. cbn. by rewrite take_nil.
  - rewrite filter_cons. destruct (skip_member (fr_Source frame) m) eqn:Es.
    { rewrite decide_False by done. by apply IH in H. }
    rewrite decide_True, fmap_cons by done. destruct (Nat.leb_spec MaxFanout n) as [Hn|Hn].
    { simplify_eq. replace (MaxFanout - n)%nat with 0%nat by lia. by rewrite take_0. }
    destruct (sender_send e _ _ _ _ _) as [ok e1].
    destruct (fan_out frame members (S n) _ e1) as [[r2 e2] acts2] eqn:Ef. simplify_eq.
    apply IH in Ef as (H1 & H2 & H3 & H4 & H5). split_and!.
    + constructor; [by eexists _, _|done].
    + cbn [omap list_omap send_of fmap list_fmap fst]. replace (MaxFanout - n)%nat with (S (MaxFanout - S n)) by lia.
      cbn [take firstn]. f_equal. exact H2.
    + done.
    + done.
    + intros k K1 K2. rewrite (H5 k K1 K2). cbn. unfold bump. rewrite decide_False; [done|]. by destruct ok.
Qed.

(** Sends that succeeded and that failed. *)
Definition outcomes (ok : bool) (acts : list Action) : Z :=
  Z.of_nat (length (filter (fun x => x.2 = ok) (omap send_of acts))).

Lemma u64_add_l x n : u64 (u64 x + n) = u64 (x + n).
Proof using Type. unfold u64. apply Z.add_mod_idemp_l. by vm_compute. Qed.

Lemma fan_out_counts frame members n r e r' e' acts : fan_out frame members n r e = (r', e', acts) ->
  is_u64 (r_total r sent) -> is_u64 (r_total r sendErrors) ->
  r_total r' sent = u64 (r_total r sent + outcomes true acts) /\
  r_total r' sendErrors = u64 (r_total r sendErrors + outcomes false acts).
Proof using Type.
  revert n r e r' e' acts. induction members as [|m members IH]; intros n r e r' e' acts H U1 U2; cbn [fan_out] in H.
  - simplify_eq. unfold outcomes. cbn. rewrite !Z.add_0_r, !u64_small by done. done.
  - destruct (skip_member (fr_Source frame) m); [by apply (IH _ _ _ _ _ _ H)|].
    destruct (Nat.leb MaxFanout n).
    { simplify_eq. unfold outcomes. cbn. rewrite !Z.add_0_r, !u64_small by done. done. }
    destruct (sender_send e _ _ _ _ _) as [ok e1].
    destruct (fan_out frame members (S n) _ e1) as [[r2 e2] acts2] eqn:Ef. simplify_eq.
    apply IH in Ef as [-> ->].
    + unfold outcomes. cbn [omap list_omap send_of]. rewrite !filter_cons. cbn [snd].
      unfold count, bump. cbn [r_total].
      destruct ok; split; repeat (case_decide; try done); rewrite ?u64_add_l; f_equal; cbn [length]; lia.
    + cbn. unfold bump. case_decide; [apply u64_range|done].
    + cbn. unfold bump. case_decide; [apply u64_range|done].
Qed.

(** Why a worker drops a frame under counter [k]. *)
Definition drop_cause (k : Counter) (frame : Frame) (e1 e2 e3 e4 : E) : Prop :=
  match k with
  | droppedStaleAuthority => SourceResolver cfg e1 (UserID (fr_Source frame)) <> Some (fr_Source frame) \/
      SourceResolver cfg e2 (UserID (fr_Source frame)) <> Some (fr_Source frame)
  | droppedMuted => MuteResolver cfg e3 (fr_Source frame) (fr_ChannelType frame) = true
  | droppedNoMembership =>
      ms_ChannelID (MembershipResolver cfg e4 (ChannelID (fr_Source frame))) <> ChannelID (fr_Source frame) \/
      ms_Members (MembershipResolver cfg e4 (ChannelID (fr_Source frame))) = []
  | _ => False
  end.

(** C21: Media only flows under current authority.  When a worker processes a frame,
    either nothing is sent and exactly one drop counter advances, the one of
    the cause: the authority had changed before or after the gate was taken,
    the source is muted, or its channel has no members; or the source
    tuple captured at admission is still the user's authority both before and
    after the user's gate is taken, the source is not muted, and the payload
    goes, unchanged and between acquiring and releasing that gate, to each
    member of the source's channel other than the speaker's own session, in
    order and at most 256; the sent and failed counters advance by exactly the
    sends that succeeded and failed. *)
Theorem process_authority r frame e1 e2 e3 e4 r' e' acts : process cfg r frame e1 e2 e3 e4 = (r', e', acts) ->
  is_u64 (r_total r sent) -> is_u64 (r_total r sendErrors) ->
  let u := UserID (fr_Source frame) in
  (exists k, drop_cause k frame e1 e2 e3 e4 /\ r' = count r k /\
     (acts = [] \/ acts = [AcquireGate u; ReleaseGate u])) \/
  (SourceResolver cfg e1 u = Some (fr_Source frame) /\ SourceResolver cfg e2 u = Some (fr_Source frame) /\
   MuteResolver cfg e3 (fr_Source frame) (fr_ChannelType frame) = false /\
   exists members sends, MembershipResolver cfg e4 (ChannelID (fr_Source frame)) =
       mkMembers (ChannelID (fr_Source frame)) members /\
     acts = [AcquireGate u] ++ sends ++ [ReleaseGate u] /\ Forall (is_send frame) sends /\
     (omap send_of sends).*1 = recipients frame members /\
     (length (recipients frame members) <= 256)%nat /\ SessionID_ (fr_Source frame) ∉ recipients frame members /\
     r_total r' sent = u64 (r_total r sent + outcomes true sends) /\
     r_total r' sendErrors = u64 (r_total r sendErrors + outcomes false sends)).
Proof using Type.
  intros H U1 U2 u. unfold process in H. fold u in H.
  destruct (bool_decide (SourceResolver cfg e1 u = _)) eqn:E1; cbn [negb] in H.
  2:{ left. exists droppedStaleAuthority. apply bool_decide_eq_false in E1. simplify_eq. split_and!; cbn; auto. }
  destruct (bool_decide (SourceResolver cfg e2 u = _)) eqn:E2; cbn [negb] in H.
  2:{ left. exists droppedStaleAuthority. apply bool_decide_eq_false in E2. simplify_eq. split_and!; cbn; auto. }
  apply bool_decide_eq_true in E1, E2.
  destruct (MuteResolver cfg e3 (fr_Source frame) (fr_ChannelType frame)) eqn:Em.
  { left. exists droppedMuted. simplify_eq. split_and!; cbn; auto. }
  destruct (MembershipResolver cfg e4 (ChannelID (fr_Source frame))) as [cid members] eqn:Ec.
  cbn [ms_ChannelID ms_Members] in H. destruct (Z.eqb_spec cid (ChannelID (fr_Source frame))) as [->|]; cbn [negb orb] in H.
  2:{ left. exists droppedNoMembership. simplify_eq. split; [left; by rewrite Ec|auto]. }
  destruct (bool_decide_reflect (members = [])).
  { left. exists droppedNoMembership. simplify_eq. split; [right; by rewrite Ec|auto]. }
  destruct (fan_out frame members 0 r e4) as [[r2 e5] sends] eqn:Ef. simplify_eq. right. split_and!; try done.
  pose proof (fan_out_counts _ _ _ _ _ _ _ _ Ef U1 U2) as [Hs Hf].
  apply fan_out_spec in Ef as (H1 & H2 & _). exists members, sends. unfold recipients. split_and!; try done.
  - rewrite length_take. unfold MaxFanout. lia.
  - intros Hin. apply list_elem_of_lookup in Hin as (i & Hi). apply lookup_take_Some in Hi as [Hi _]. apply list_lookup_fmap_Some in Hi as (m & Hm & Hi).
    apply list_elem_of_lookup_2, list_elem_of_filter in Hi as [Hi _]. unfold skip_member in Hi.
    rewrite !orb_false_iff in Hi. destruct Hi as [_ Hi]. apply bool_decide_eq_false in Hi. congruence.
Qed.

(** Every frame offered to a running relay is accounted for exactly once: it is
    admitted, and then the queue holds it, with the authority tuple resolved for
    its user and session, at the end of its stream's shard; or exactly one of
    the four admission drop counters advances and the queue is unchanged. *)
Theorem Handle_accounting e r frame now clock : r_started r = true -> 0 < Udp.f_UserID frame ->
  Udp.f_SessionID frame <> zero_id -> Udp.f_Payload frame <> [] ->
  let r' := Handle cfg e r frame now clock in
  (exists k, k ∈ [droppedNoAuthority; droppedInvalidChannel; droppedSoftLimit; droppedOverload] /\
     r_total r' = bump (r_total r) k /\ r_interval r' = bump (r_interval r) k /\ r_queue r' = r_queue r) \/
  (exists source, SourceResolver cfg e (Udp.f_UserID frame) = Some source /\ Valid source = true /\
     SessionID_ source = Udp.f_SessionID frame /\
     r_total r' = bump (r_total r) enqueued /\ r_interval r' = bump (r_interval r) enqueued /\
     let shard := Z.of_nat (ShardFor (UserID source) (Udp.f_ChannelType frame)) in
     waiting (r_queue r') shard = waiting (r_queue r) shard ++
       [mkQFrame source (Udp.f_ChannelType frame) (Udp.f_ChannelSeq frame) (Udp.f_TransportSeq frame) (Udp.f_Payload frame)]).
Proof using Type.
  intros Hst Hu Hid Hp r'. subst r'. unfold Handle. rewrite Hst. cbn [negb orb].
  destruct (Z.leb_spec (Udp.f_UserID frame) 0); [lia|]. rewrite !bool_decide_false by done. cbn [orb].
  destruct (SourceResolver cfg e (Udp.f_UserID frame)) as [source|].
  2:{ left. exists droppedNoAuthority. rewrite !elem_of_cons. auto. }
  destruct (Valid source) eqn:Ev; cbn [negb orb].
  2:{ left. exists droppedNoAuthority. rewrite !elem_of_cons. auto. }
  destruct (bool_decide (SessionID_ source = _)) eqn:Es; cbn [negb].
  2:{ left. exists droppedNoAuthority. rewrite !elem_of_cons. auto. }
  apply bool_decide_eq_true in Es. destruct (Capabilities_ cfg e (Udp.f_ChannelType frame)) as [caps|].
  2:{ left. exists droppedInvalidChannel. rewrite !elem_of_cons. auto. }
  destruct (bool_decide (Registry.MuteKind caps = _)).
  { left. exists droppedInvalidChannel. rewrite !elem_of_cons. auto. }
  destruct (allow (r_soft r) (Udp.f_SessionID frame) now clock) as [ok soft]. destruct ok; cbn [negb].
  2:{ left. exists droppedSoftLimit. rewrite !elem_of_cons. auto 6. }
  cbn [with_soft r_queue].
  match goal with |- context [Enqueue ?q ?sh ?f] => destruct (Enqueue q sh f) as [ok q'] eqn:Eq end.
  destruct ok; cbn [negb].
  2:{ left. exists droppedOverload. apply Enqueue_false in Eq as ->. rewrite !elem_of_cons. auto 7. }
  right. exists source. split_and!; try done. cbn [count with_queue with_soft r_queue].
  apply Enqueue_true in Eq as (s & Hr & Hs & _ & _ & _ & _ & _ & _ & _ & _ & ->).
  rewrite waiting_insert by (try lia; by eapply lookup_lt_Some). rewrite decide_True by done.
  unfold waiting. by rewrite Hs.
Qed.

End FanOut.

(** ** Latency signal *)

Lemma sorted_lookup_le l i j x y : StronglySorted Z.le l -> l !! i = Some x -> l !! j = Some y ->
  (i <= j)%nat -> x <= y.
Proof.
  intros Hs. revert i j. induction Hs as [|a l Hs IH Ha]; intros i j Hi Hj Hij; [done|].
  destruct i as [|i], j as [|j]; cbn in *; simplify_eq; try lia.
  - by apply (Forall_lookup_1 _ _ _ _ Ha Hj).
  - apply (IH i j); (done || lia).
Qed.

Lemma filter_length_perm (P : Z -> Prop) `{!forall x, Decision (P x)} l k :
  l ≡ₚ k -> length (filter P l) = length (filter P k).
Proof. intros Hp. by rewrite Hp. Qed.

Lemma filter_all (P : Z -> Prop) `{!forall x, Decision (P x)} l : Forall P l -> filter P l = l.
Proof. induction 1 as [|x l Hx _ IH]; [done|]. by rewrite filter_cons_True, IH. Qed.

Lemma filter_none (P : Z -> Prop) `{!forall x, Decision (P x)} l : Forall (fun x => ~ P x) l -> filter P l = [].
Proof. induction 1 as [|x l Hx _ IH]; [done|]. by rewrite filter_cons_False. Qed.

(** In a sorted list the element at [p] has [p + 1] elements at most it and at most [p] below it. *)
Lemma sorted_rank l p r : StronglySorted Z.le l -> l !! p = Some r ->
  (S p <= length (filter (fun x => (x <= r)%Z) l))%nat /\ (length (filter (fun x => (x < r)%Z) l) <= p)%nat.
Proof.
  intros Hs Hp. pose proof (lookup_lt_Some _ _ _ Hp) as Hlt. split.
  - rewrite <-(take_drop (S p) l), filter_app, length_app, filter_all.
    + rewrite length_take. lia.
    + apply Forall_lookup. intros i x Hx. apply lookup_take_Some in Hx as [Hx Hi].
      apply (sorted_lookup_le l i p); (done || lia).
  - rewrite <-(take_drop p l), filter_app, length_app.
    rewrite (filter_none _ (drop p l)).
    + rewrite Nat.add_0_r. etrans; [apply length_filter|]. rewrite length_take. lia.
    + apply Forall_lookup. intros i x Hx. rewrite lookup_drop in Hx.
      pose proof (sorted_lookup_le l p (p + i) r x Hs Hp Hx). lia.
Qed.

(** [percentile95] is the nearest-rank 95th percentile: for a non-empty sample it
    is one of the values, at least 95% of the values are at most it, and fewer
    than 95% are below it; its index never leaves the slice.  The empty sample
    gives 0. *)
Theorem percentile95_spec values :
  let p := percentile95 values in
  (values = [] -> p = 0) /\
  (values <> [] -> p ∈ values /\
     (95 * length values <= 100 * length (filter (fun x => (x <= p)%Z) values))%nat /\
     (100 * length (filter (fun x => (x < p)%Z) values) < 95 * length values)%nat).
Proof.
  cbv zeta. split; [by intros ->|]. intros Hne. unfold percentile95. destruct values as [|v vs]; [done|].
  set (l := merge_sort Z.le (v :: vs)).
  assert (Hperm : l ≡ₚ v :: vs) by apply merge_sort_Permutation.
  assert (Hsort : StronglySorted Z.le l) by (apply (StronglySorted_merge_sort Z.le)).
  assert (Hlen : length l = S (length vs)) by (by rewrite Hperm).
  generalize dependent (v :: vs). intros values Hne l Hperm Hsort Hlen.
  assert (Hlv : length values = length l) by (by rewrite Hperm). rewrite Hlv.
  set (n := length l) in *. pose proof (Nat.div_mod (n * 95 + 99) 100 ltac:(lia)) as Hdm.
  pose proof (Nat.mod_upper_bound (n * 95 + 99) 100 ltac:(lia)) as Hub.
  set (q := ((n * 95 + 99) / 100)%nat) in *. destruct (Nat.ltb_spec 0 q); [|lia].
  destruct (lookup_lt_is_Some_2 l (q - 1)) as [r Hr]; [fold n; lia|].
  rewrite (nth_lookup_Some _ _ _ _ Hr). destruct (sorted_rank l (q - 1) r Hsort Hr) as [H1 H2].
  rewrite <-(filter_length_perm _ l values Hperm), <-(filter_length_perm (fun x => x < r) l values Hperm).
  split_and!; [rewrite <-Hperm; by eapply list_elem_of_lookup_2|lia|lia].
Qed.

(** The latency window is a rolling one: after recording any number of
    latencies it holds exactly the most recent 4096 of them, in order. *)
Theorem latency_window r ls : r_latencies r = [] ->
  r_latencies (fold_left recordLatency ls r) = drop (length ls - MaxLatencySamples) ls.
Proof.
  intros Hr. induction ls as [|x ls IH] using rev_ind; [done|].
  rewrite fold_left_app. cbn [fold_left]. unfold recordLatency at 1. cbn [with_latencies r_latencies].
  rewrite IH, length_drop, length_app. cbn [length].
  generalize MaxLatencySamples (eq_refl : (0 <? MaxLatencySamples)%nat = true). intros M HM. apply Nat.ltb_lt in HM.
  destruct (Nat.leb_spec M (length ls - (length ls - M))) as [Hle|Hle].
  - rewrite drop_drop. rewrite drop_app_le by lia. f_equal.
    replace (length ls - M + 1)%nat with (length ls + 1 - M)%nat by lia.
    apply take_ge. rewrite length_drop. lia.
  - rewrite drop_app_le by lia. f_equal. f_equal. lia.
Qed.

(** ** Concrete instances *)

Lemma soft_admission_bounded_witness :
  tracked (fold_left soft_step [OAllow (replicate 16 3) 5 5; OSet 0 0 9 9; OAllow (replicate 16 4) 9 9]
             (newSoftAdmission 10 5 0)) <= 4096.
Proof.
  destruct (soft_admission_bounded 10 5 0 [OAllow (replicate 16 3) 5 5; OSet 0 0 9 9; OAllow (replicate 16 4) 9 9]
    ltac:(lia) ltac:(lia)) as (H & _). exact H.
Defined.

Definition ex_source : Source := mkSource 9 (replicate 16 5) 3 (replicate 16 6) 1 1.
Definition ex_members : list Recipient :=
  [mkRecipient 9 (replicate 16 5); mkRecipient 7 (replicate 16 2); mkRecipient 0 (replicate 16 8)].
Definition ex_config (E : Type) : Config E :=
  mkConfig E (fun _ _ => Some ex_source) (fun _ c => mkMembers c ex_members) (fun _ _ _ => false)
    (fun _ _ => Some (Registry.mkCaps "mic" "voice" false)) 100 10.
#[local] Instance ex_sender : Sender unit := fun e _ _ _ _ _ => (true, e).
Definition ex_relay : Relay := 
  mkRelay NewQueue (newSoftAdmission 100 10 0) true false None (fun _ => 0) (fun _ => 0) [].
Definition ex_qframe : Frame := mkQFrame ex_source 1 5 9 [10; 20].

Lemma process_authority_witness :
  (process (ex_config unit) ex_relay ex_qframe tt tt tt tt).2 =
    [AcquireGate 9; SendTo (replicate 16 2) 1 9 5 [10; 20] true; ReleaseGate 9] /\
  r_total (process (ex_config unit) ex_relay ex_qframe tt tt tt tt).1.1 sent = 1.
Proof.
  destruct (process (ex_config unit) ex_relay ex_qframe tt tt tt tt) as [[r' e'] acts] eqn:E. cbn [fst snd].
  assert (Ha : acts = [AcquireGate 9; SendTo (replicate 16 2) 1 9 5 [10; 20] true; ReleaseGate 9])
    by (symmetry; exact (f_equal snd E)).
  pose proof (process_authority (ex_config unit) ex_relay ex_qframe tt tt tt tt r' e' acts E ltac:(done) ltac:(done)) as H.
  split; [exact Ha|]. rewrite Ha in H. destruct H as [(k & _ & _ & [H|H])|H]; [discriminate H|discriminate H|].
  destruct H as (_ & _ & _ & members & sends & _ & Hs & _ & _ & _ & _ & Hc & _). rewrite Hc.
  destruct sends as [|a [|b [|c sends]]]; try discriminate Hs. injection Hs as <-. reflexivity.
Defined.

Lemma Handle_accounting_witness :
  let frame := Udp.mkFrame 9 (replicate 16 5) 1 5 9 [10; 20] in
  r_total (Handle (ex_config unit) tt ex_relay frame 0 0) enqueued = 1.
Proof.
  pose proof (Handle_accounting (ex_config unit) tt ex_relay (Udp.mkFrame 9 (replicate 16 5) 1 5 9 [10; 20]) 0 0
    eq_refl ltac:(done) ltac:(done) ltac:(done)) as H. cbv zeta in H |- *.
  destruct H as [(k & Hk & _ & _ & Hq)|(source & _ & _ & _ & Ht & _)]; [|rewrite Ht; reflexivity].
  assert (Hq' : q_items (r_queue (Handle (ex_config unit) tt ex_relay (Udp.mkFrame 9 (replicate 16 5) 1 5 9 [10; 20]) 0 0)) = 1)
    by (by vm_compute).
  rewrite Hq in Hq'. discriminate Hq'.
Defined.

Lemma latency_window_witness : r_latencies (fold_left recordLatency [3; 1; 2] ex_relay) = [3; 1; 2].
Proof. rewrite (latency_window ex_relay [3; 1; 2] eq_refl). reflexivity. Defined.

End RelayProps.
