(* ===== verification/RelayUdp.v ===== *)
(** * RelayUdp: the relay over the UDP server

    [udp_sender] implements the relay's [Sender] interface with [Udp.Send], other
    goroutines acting on the sessions around and inside every send; the
    theorem composes the relay's fan-out with the transport's guarantees down to
    the datagrams on the wire. *)

From S2P Require Import Prelude TokenBucket Packet Session SessionInv SessionProps Udp UdpProps RelayQueue Relay RelayProps.
From stdpp Require Import base gmap list strings fin_maps relations.
From Stdlib Require Import ZArith Lia.
Import Packet Session SessionInv SessionProps Udp UdpProps RelayQueue Relay RelayProps.
#[local] Open Scope Z_scope.

Module RelayUdp.

(** What surrounds one send of a worker: the manager clock, whether the socket
    takes the write, and what other goroutines do to the sessions before the
    send and between its lookup and its write. *)
Record Turn := mkTurn { tn_now : Z; tn_up : bool; tn_before : World -> World; tn_during : World -> World }.

(** The server as a worker sees it, with the turns of its next sends. *)
Record Wire := mkWire { wi_net : Net; wi_turns : list Turn }.

Definition quiet_turn (now : Z) : Turn := mkTurn now true (fun w => w) (fun w => w).

#[export] Instance udp_sender {cipher : AEAD} : Sender Wire :=
  fun w id ct speaker cs payload =>
    let t := hd (quiet_turn 0) (wi_turns w) in
    let n := set_world (wi_net w) (tn_before t (n_world (wi_net w))) in
    let '(err, n') := Send n id ct speaker cs payload (tn_now t) (tn_during t) (tn_up t) in
    (match err with None => true | Some _ => false end, mkWire n' (tl (wi_turns w))).

(** The sessions a frame was sent to successfully. *)
Definition successes (acts : list Action) : list SessionID :=
  (filter (fun x => x.2 = true) (omap send_of acts)).*1.

Section Compose.
Context {cipher : AEAD} {laws : AEADLaws cipher} (hkdf : bytes -> bytes -> bytes -> option bytes).

(** Other goroutines act on the sessions through the manager. *)
Definition turn_ok (t : Turn) : Prop :=
  forall w, env_run hkdf (tn_before t) w /\ env_run hkdf (tn_during t) w.

(** [pk], written to [to], is the frame for the session registered under [id] at
    some moment between [n] and [n']: in that session's mode, under its
    server-to-client key and its next send sequence, at its learnt peer. *)
Definition carries (frame : Frame) (n n' : Net) (id : SessionID) (pk : bytes) (to : UDPAddr) : Prop :=
  (length pk <= MaxPacketSize)%nat /\
  exists m m' l s, rtc (nstep hkdf) n m /\ nstep hkdf m m' /\ rtc (nstep hkdf) m' n' /\
    m_sessions (w_mgr (n_world m)) !! id = Some l /\ w_sess (n_world m') !! l = Some s /\
    s_ID s = id /\ s_active s = true /\ s_remote s = Some to /\
    DecodePacket pk (s_encrypted s) (Some (outbound_key s)) =
      Some (mkDecoded id (s_sendSeq s) (mkChannel (fr_ChannelType frame) (fr_ChannelSeq frame) 0 (UserID (fr_Source frame)))
              (fr_Payload frame) true).

Lemma carries_mono frame n0 n n' n1 id pk to : rtc (nstep hkdf) n0 n -> rtc (nstep hkdf) n' n1 ->
  carries frame n n' id pk to -> carries frame n0 n1 id pk to.
Proof using Type.
  intros H0 H1 (Hlen & m & m' & l & s & A & B & D & Hrest). split; [done|]. exists m, m', l, s.
  split_and!; try tauto; by etrans.
Qed.

(** What other goroutines do is a run of the server. *)
Lemma env_run_nsteps gs n env : wf gs (n_world n) -> env_run hkdf env (n_world n) ->
  rtc (nstep hkdf) n (set_world n (env (n_world n))).
Proof using Type.
  intros Hw He. destruct (He gs Hw) as (gs' & Hr). clear He Hw.
  assert (H : forall x y, rtc (step hkdf) x y -> rtc (nstep hkdf) (set_world n x.2) (set_world n y.2)).
  { induction 1 as [|[g1 w1] [g2 w2] [g3 w3] Hst _ IH]; [done|]. eapply rtc_l; [|exact IH].
    exact (n_manager hkdf (set_world n w1) g1 g2 w2 Hst). }
  specialize (H _ _ Hr). destruct n. exact H.
Qed.

Lemma nsteps_ok n n' : rtc (nstep hkdf) n n' -> net_ok n -> net_ok n'.
Proof using laws. induction 1; [done|]. intros. by eauto using nstep_ok. Qed.

Lemma udp_send_step w id frame : net_ok (wi_net w) -> Forall turn_ok (wi_turns w) -> Forall is_byte (fr_Payload frame) ->
  is_byte (fr_ChannelType frame) -> is_u16 (fr_ChannelSeq frame) -> is_i64 (UserID (fr_Source frame)) ->
  let '(ok, w') := sender_send w id (fr_ChannelType frame) (UserID (fr_Source frame)) (fr_ChannelSeq frame) (fr_Payload frame) in
  rtc (nstep hkdf) (wi_net w) (wi_net w') /\ Forall turn_ok (wi_turns w') /\
  exists new, writes (n_out (wi_net w')) = writes (n_out (wi_net w)) ++ new /\
    Forall2 (fun id x => carries frame (wi_net w) (wi_net w') id x.1 x.2) (if ok then [id] else []) new.
Proof using laws.
  intros Hok Ht Hb Hct Hcs Hu. unfold sender_send, udp_sender. set (t := hd (quiet_turn 0) (wi_turns w)).
  assert (Htl : Forall turn_ok (tl (wi_turns w))) by (destruct Ht; [constructor|done]).
  assert (Hturn : turn_ok t). { unfold t. destruct Ht; [|done]. intros w0. split; apply env_run_id. }
  destruct Hok as [[gs Hw] Hd Hsn]. pose proof (env_run_nsteps gs (wi_net w) (tn_before t) Hw (proj1 (Hturn _))) as Hr.
  pose proof (nsteps_ok _ _ Hr (Build_net_ok _ (ex_intro _ gs Hw) Hd Hsn)) as [[gs1 Hw1] _ _].
  set (n1 := set_world (wi_net w) (tn_before t (n_world (wi_net w)))) in *.
  pose proof (Send_cases hkdf gs1 n1 id _ _ _ _ (tn_now t) (tn_during t) (tn_up t) Hw1 (proj2 (Hturn _)) Hb Hct Hcs Hu) as Hc.
  pose proof (n_send hkdf n1 id (fr_ChannelType frame) (UserID (fr_Source frame)) (fr_ChannelSeq frame)
    (fr_Payload frame) (tn_now t) (tn_during t) (tn_up t) (proj2 (Hturn _))) as Hst.
  destruct (Send _ _ _ _ _ _ _ _ _) as [[err|] n']; cbn [snd wi_net wi_turns] in *;
    (split_and!; [by eapply rtc_r|done|]).
  - exists []. rewrite app_nil_r. by split; [|constructor].
  - destruct Hc as (l & s & Htab & _ & [(HID & Hact & _) Hseq (pk & r & Hrem & Hwr & Hlen & Hdec)]). exists [(pk, r)].
    split; [done|]. constructor; [|constructor]. split; [done|].
    exists n1, n', l, (with_sendSeq s (s_sendSeq s + 1)). by split_and!.
Qed.

Lemma fan_out_writes frame members k r w r' w' acts : fan_out frame members k r w = (r', w', acts) ->
  net_ok (wi_net w) -> Forall turn_ok (wi_turns w) -> Forall is_byte (fr_Payload frame) ->
  is_byte (fr_ChannelType frame) -> is_u16 (fr_ChannelSeq frame) -> is_i64 (UserID (fr_Source frame)) ->
  rtc (nstep hkdf) (wi_net w) (wi_net w') /\
  exists new, writes (n_out (wi_net w')) = writes (n_out (wi_net w)) ++ new /\
    Forall2 (fun id x => carries frame (wi_net w) (wi_net w') id x.1 x.2) (successes acts) new.
Proof using laws.
  intros H Hw Ht Hb Hct Hcs Hu. revert k r w r' w' acts H Hw Ht.
  induction members as [|m members IH]; intros k r w r' w' acts H Hw Ht; cbn [fan_out] in H.
  { simplify_eq. split; [done|]. exists []. rewrite app_nil_r. by split; [|constructor]. }
  destruct (skip_member (fr_Source frame) m); [by apply (IH _ _ _ _ _ _ H)|].
  destruct (Nat.leb MaxFanout k).
  { simplify_eq. split; [done|]. exists []. rewrite app_nil_r. by split; [|constructor]. }
  pose proof (udp_send_step w (rc_SessionID m) frame Hw Ht Hb Hct Hcs Hu) as Hst.
  destruct (sender_send w _ _ _ _ _) as [ok w1]. destruct Hst as (Hr1 & Ht1 & new1 & Ho1 & Hf1).
  destruct (fan_out frame members (S k) _ w1) as [[r2 w2] acts2] eqn:Ef. simplify_eq.
  destruct (IH _ _ _ _ _ _ Ef (nsteps_ok _ _ Hr1 Hw) Ht1) as (Hr2 & new2 & Ho2 & Hf2).
  split; [by etrans|]. exists (new1 ++ new2). split; [rewrite Ho2, Ho1; by simplify_list_eq|].
  apply (Forall2_impl _ (fun id x => carries frame (wi_net w) (wi_net w') id x.1 x.2)) in Hf1, Hf2;
    try (intros; eapply carries_mono; [| |done]; done).
  unfold successes in *. cbn [omap list_omap send_of]. rewrite filter_cons. cbn [snd].
  destruct ok; [rewrite decide_True by done|rewrite decide_False by done]; cbn [fmap list_fmap fst].
  - change (rc_SessionID m :: ?l) with ([rc_SessionID m] ++ l). by apply Forall2_app.
  - inversion Hf1; subst. exact Hf2.
Qed.

(** C22: A frame that is fanned out reaches exactly the members reported as sent: over a
    reachable UDP server, with other goroutines acting on the sessions before
    and during every send and the socket failing at will, the worker writes
    one datagram per successful send, in order and nothing else.  Each is
    within the packet limit and goes to the peer of the session registered
    under the recipient's identifier when it was looked up; in that session's
    encryption mode and under its server-to-client key and send sequence it
    decodes to the speaker's identifier, the source's channel type and
    sequence, and the unchanged payload. *)
Theorem relay_over_udp self lim srv (cfg : Config Wire) r frame e1 e2 e3 w r' w' acts :
  nreachable hkdf self lim srv (wi_net w) -> Forall turn_ok (wi_turns w) ->
  process cfg r frame e1 e2 e3 w = (r', w', acts) -> omap send_of acts <> [] ->
  Forall is_byte (fr_Payload frame) -> is_byte (fr_ChannelType frame) -> is_u16 (fr_ChannelSeq frame) ->
  is_i64 (UserID (fr_Source frame)) ->
  rtc (nstep hkdf) (wi_net w) (wi_net w') /\
  exists new, writes (n_out (wi_net w')) = writes (n_out (wi_net w)) ++ new /\
    Forall2 (fun id x => carries frame (wi_net w) (wi_net w') id x.1 x.2) (successes acts) new.
Proof using laws.
  intros Hr Ht H Hne Hb Hct Hcs Hu. apply nreachable_ok in Hr. unfold process in H.
  destruct (negb _) in H; [by simplify_eq|]. destruct (negb _) in H; [by simplify_eq|].
  destruct (MuteResolver cfg e3 _ _); [by simplify_eq|].
  destruct (_ || _) in H; [by simplify_eq|].
  destruct (fan_out frame _ 0 r w) as [[r2 w2] sends] eqn:Ef. simplify_eq.
  assert (E : omap send_of ([AcquireGate (UserID (fr_Source frame))] ++ sends ++ [ReleaseGate (UserID (fr_Source frame))])
              = omap send_of sends) by (rewrite !omap_app; cbn; by rewrite app_nil_r).
  unfold successes. rewrite E. by eapply fan_out_writes.
Qed.

End Compose.

(** The server of [ex_net1] with one undisturbed turn. *)
Definition ex_wire : Wire := mkWire ex_net1 [quiet_turn Second].
Definition ex_heard := process (Sender0 := udp_sender (cipher := checksum_aead)) (ex_config Wire) ex_relay ex_qframe ex_wire ex_wire ex_wire ex_wire.

(** The speaker 9 is heard by the session of [ex_net1]. *)
Lemma relay_over_udp_witness :
  exists new, writes (n_out (wi_net ex_heard.1.2)) = writes (n_out ex_net1) ++ new /\ length new = 1%nat.
Proof.
  assert (Hr : nreachable (cipher := checksum_aead) ex_hkdf 0 DefaultLimits ex_srv (wi_net ex_wire)).
  { destruct ex_net_reachable as (w0 & H0 & Hr). exists w0. split; [exact H0|].
    eapply rtc_r; [exact Hr|]. exact (n_datagram ex_hkdf ex_net ex_packet (Some ex_addr) Second Second Second
      (fun w => w) ex_net1 ex_packet_bytes (env_run_id _ _) ex_handled). }
  assert (Ht : Forall (turn_ok ex_hkdf) (wi_turns ex_wire)) by (repeat constructor; apply env_run_id).
  assert (Hb : Forall is_byte (fr_Payload ex_qframe)) by (repeat constructor; done).
  assert (Hct : is_byte (fr_ChannelType ex_qframe)) by done. assert (Hcs : is_u16 (fr_ChannelSeq ex_qframe)) by done.
  assert (Hu : is_i64 (UserID (fr_Source ex_qframe))) by done.
  assert (Hs : successes ex_heard.2 = [ex_id 2]) by (by vm_compute).
  destruct ex_heard as [[r' w'] acts] eqn:E. cbn [fst snd] in *.
  assert (Hne : omap send_of acts <> []) by (intros Hn; unfold successes in Hs; by rewrite Hn in Hs).
  destruct (relay_over_udp (cipher := checksum_aead) ex_hkdf 0 DefaultLimits ex_srv (ex_config Wire)
    ex_relay ex_qframe ex_wire ex_wire ex_wire ex_wire r' w' acts Hr Ht E Hne Hb Hct Hcs Hu) as (_ & new & H1 & H2).
  exists new. split; [exact H1|]. rewrite Hs in H2. apply Forall2_length in H2. symmetry. exact H2.
Defined.

End RelayUdp.
