(* ===== verification/Snowflake.v ===== *)
(** * Snowflake: the lock-free identifier generator ([snowflake/snowflake.go])

    The state word packs a 43-bit timestamp and a 20-bit sequence.  [attempt] is
    the body of [Next]'s loop between the load of the word and the
    compare-and-swap; [gstep] interleaves any number of goroutines over one
    word, with arbitrary clock samples; [Next] is the loop of one goroutine. *)

From S2P Require Import Prelude.
From stdpp Require Import base gmap list relations fin_maps.
From Stdlib Require Import ZArith Lia Sorted.
#[local] Open Scope Z_scope.

Module Snowflake.

Definition timestampBits : Z := 43.
Definition sequenceBits : Z := 20.
Definition sequenceMask : Z := Z.shiftl 1 sequenceBits - 1.
Definition maxSequence : Z := sequenceMask.
Definition maxTimestamp : Z := Z.shiftl 1 timestampBits - 1.

(** 2026-08-10T00:00:00Z in Unix milliseconds. *)
Definition DefaultEpoch : Z := 1786320000000.

Inductive IDError := ErrClockBeforeEpoch | ErrTimestampOverflow.

(** The generator's word and epoch; [now] and [sleep] are present or nil. *)
Record IDGenerator := mkGen { state : Z; epoch : Z }.

Inductive Option :=
  | WithEpoch (unix_ms : Z)
  | WithClock (nonnil : bool)
  | WithSleep (nonnil : bool).

Definition apply_option (g : IDGenerator * bool * bool) (opt : Option) : IDGenerator * bool * bool :=
  let '(g, now, sleep) := g in
  match opt with
  | WithEpoch ms => (mkGen (state g) ms, now, sleep)
  | WithClock b => (g, b, sleep)
  | WithSleep b => (g, now, b)
  end.

(** [None]: a nil clock or waiting function is refused. *)
Definition New (opts : list Option) : option IDGenerator :=
  let '(g, now, sleep) := fold_left apply_option opts (mkGen 0 DefaultEpoch, true, true) in
  if negb now || negb sleep then None else Some g.

(** What one pass of the loop decides from the loaded word and a clock sample. *)
Inductive Attempt :=
  | Fail (e : IDError)
  | Sleep (ms : Z)
  | Claim (next : Z).

Definition attempt (epoch old now : Z) : Attempt :=
  let ts := Z.shiftr old sequenceBits in
  let seq := Z.land old sequenceMask in
  let rel := i64 (now - epoch) in
  if rel <? 0 then Fail ErrClockBeforeEpoch
  else if maxTimestamp <? rel then Fail ErrTimestampOverflow
  else if rel <? ts then Sleep (ts - rel)
  else if ts <? rel then Claim (Z.shiftl rel sequenceBits)
  else if maxSequence <=? seq then Sleep 1
  else Claim (old + 1).

Definition CompareAndSwap (g : IDGenerator) (old next : Z) : bool * IDGenerator :=
  if state g =? old then (true, mkGen next (epoch g)) else (false, g).

(** [Next] of a goroutine alone with the generator: [now i] is the clock at its
    [i]-th pass.  [None]: the fuel ran out. *)
Fixpoint Next (fuel : nat) (g : IDGenerator) (now : nat -> Z) (i : nat) : option (result Z IDError * IDGenerator) :=
  match fuel with
  | O => None
  | S fuel =>
      let old := state g in
      match attempt (epoch g) old (now i) with
      | Fail e => Some (Err e, g)
      | Sleep _ => Next fuel g now (S i)
      | Claim next =>
          let '(ok, g') := CompareAndSwap g old next in
          if ok then Some (Ok next, g') else Next fuel g' now (S i)
      end
  end.

Definition TimestampMS (id : Z) : Z := Z.shiftr id sequenceBits.

(** ** Concurrent goroutines *)

(** Where a goroutine is in [Next]: outside, holding a loaded word, or about to
    compare-and-swap. *)
Inductive Pc := Idle | Loaded (old : Z) | Claiming (old next : Z).

(** The word, the goroutines, and the identifiers returned so far, newest first. *)
Record Sys := mkSys { sy_gen : IDGenerator; sy_pcs : gmap nat Pc; sy_ids : list Z }.

Definition pc_of (s : Sys) (t : nat) : Pc := default Idle (sy_pcs s !! t).
Definition set_pc (s : Sys) (t : nat) (p : Pc) : Sys := mkSys (sy_gen s) (<[t := p]> (sy_pcs s)) (sy_ids s).

Inductive gstep : Sys -> Sys -> Prop :=
  | g_load s t : pc_of s t = Idle -> gstep s (set_pc s t (Loaded (state (sy_gen s))))
  | g_fail s t old now e : pc_of s t = Loaded old -> attempt (epoch (sy_gen s)) old now = Fail e ->
      gstep s (set_pc s t Idle)
  | g_sleep s t old now d : pc_of s t = Loaded old -> attempt (epoch (sy_gen s)) old now = Sleep d ->
      gstep s (set_pc s t Idle)
  | g_decide s t old now next : pc_of s t = Loaded old -> attempt (epoch (sy_gen s)) old now = Claim next ->
      gstep s (set_pc s t (Claiming old next))
  | g_cas_ok s t old next g' : pc_of s t = Claiming old next -> CompareAndSwap (sy_gen s) old next = (true, g') ->
      gstep s (mkSys g' (<[t := Idle]> (sy_pcs s)) (next :: sy_ids s))
  | g_cas_fail s t old next g' : pc_of s t = Claiming old next -> CompareAndSwap (sy_gen s) old next = (false, g') ->
      gstep s (set_pc s t Idle).

(** ** Arithmetic of the packed word *)

Definition word_ok (w : Z) : Prop := 0 <= w < 2 ^ 63.

Lemma shiftr_div w : Z.shiftr w sequenceBits = w / 2 ^ 20.
Proof. apply Z.shiftr_div_pow2. by vm_compute. Qed.

Lemma land_mod w : Z.land w sequenceMask = w mod 2 ^ 20.
Proof. change sequenceMask with (Z.ones 20). apply Z.land_ones. lia. Qed.

Lemma shiftl_mul r : Z.shiftl r sequenceBits = r * 2 ^ 20.
Proof. apply Z.shiftl_mul_pow2. by vm_compute. Qed.

(** A claimed word is larger than the loaded one, fits 63 bits and carries the
    sampled millisecond. *)
Lemma attempt_claim ep old now next : word_ok old -> attempt ep old now = Claim next ->
  old < next < 2 ^ 63 /\ TimestampMS next = i64 (now - ep).
Proof.
  unfold attempt, word_ok, TimestampMS. rewrite !shiftr_div, land_mod, shiftl_mul. intros Hold H.
  pose proof (Z.div_mod old (2 ^ 20) ltac:(lia)) as Hdm. pose proof (Z.mod_pos_bound old (2 ^ 20) ltac:(lia)) as Hmb.
  change maxTimestamp with (2 ^ 43 - 1) in H. change maxSequence with (2 ^ 20 - 1) in H.
  destruct (Z.ltb_spec (i64 (now - ep)) 0); [done|]. destruct (Z.ltb_spec (2 ^ 43 - 1) (i64 (now - ep))); [done|].
  destruct (Z.ltb_spec (i64 (now - ep)) (old / 2 ^ 20)); [done|].
  destruct (Z.ltb_spec (old / 2 ^ 20) (i64 (now - ep))).
  - injection H as <-. rewrite Z.div_mul by lia. split; [|done]. nia.
  - destruct (Z.leb_spec (2 ^ 20 - 1) (old mod 2 ^ 20)); [done|]. injection H as <-.
    assert (i64 (now - ep) = old / 2 ^ 20) as -> by lia. split; [nia|].
    symmetry. apply Z.div_unique with (old mod 2 ^ 20 + 1); lia.
Qed.

(** ** Invariant of the shared word *)

Record sys_ok (s : Sys) : Prop := {
  sk_word : word_ok (state (sy_gen s));
  sk_loaded : forall t old, pc_of s t = Loaded old -> word_ok old /\ old <= state (sy_gen s);
  sk_claim : forall t old next, pc_of s t = Claiming old next -> word_ok old /\ old < next < 2 ^ 63;
  sk_ids : forall id, id ∈ sy_ids s -> 0 < id <= state (sy_gen s);
  sk_sorted : StronglySorted (fun a b => b < a) (sy_ids s)
}.

Lemma pc_set s t p t' : pc_of (set_pc s t p) t' = if decide (t = t') then p else pc_of s t'.
Proof.
  unfold pc_of, set_pc. cbn. case_decide; [subst; by rewrite lookup_insert_eq|by rewrite lookup_insert_ne].
Qed.

Lemma set_pc_ok s t p : sys_ok s ->
  (forall old, p = Loaded old -> word_ok old /\ old <= state (sy_gen s)) ->
  (forall old next, p = Claiming old next -> word_ok old /\ old < next < 2 ^ 63) -> sys_ok (set_pc s t p).
Proof.
  intros [Hw Hl Hc Hi Hs] H1 H2. split; try done.
  - intros t' old. rewrite pc_set. case_decide; [by intros ->; apply H1|apply Hl].
  - intros t' old next. rewrite pc_set. case_decide; [by intros ->; apply H2|apply Hc].
Qed.

Lemma gstep_ok s s' : gstep s s' -> sys_ok s -> sys_ok s'.
Proof.
  intros Hst Hok. destruct (Hok) as [Hw Hl Hc Hi Hs]. destruct Hst as [s t Hp|s t old now e Hp Ha|s t old now d Hp Ha
    |s t old now next Hp Ha|s t old next g' Hp Ha|s t old next g' Hp Ha].
  - apply set_pc_ok; [done| |done]. intros old [= <-]. split; [done|lia].
  - by apply set_pc_ok.
  - by apply set_pc_ok.
  - apply set_pc_ok; [done..|]. intros o n [= <- <-]. destruct (Hl _ _ Hp) as [Ho _].
    destruct (attempt_claim _ _ _ _ Ho Ha). done.
  - destruct (Hc _ _ _ Hp) as [Ho Hn]. unfold CompareAndSwap in Ha.
    destruct (Z.eqb_spec (state (sy_gen s)) old) as [<-|]; [|done]. injection Ha as <-.
    unfold word_ok in *. split; unfold pc_of in *; cbn.
    + unfold word_ok. lia.
    + intros t' old' H. destruct (decide (t = t')) as [<-|Hne]; [by rewrite lookup_insert_eq in H|].
      rewrite lookup_insert_ne in H by done. destruct (Hl _ _ H) as [Hl1 Hl2].
      split; [exact Hl1|lia].
    + intros t' old' next' H. destruct (decide (t = t')) as [<-|Hne]; [by rewrite lookup_insert_eq in H|].
      rewrite lookup_insert_ne in H by done. by apply (Hc _ _ _ H).
    + intros id [->|H]%elem_of_cons; [lia|]. apply Hi in H. lia.
    + constructor; [done|]. apply Forall_forall. intros id H%Hi. lia.
  - by apply set_pc_ok.
Qed.

Definition start (ep : Z) : Sys := mkSys (mkGen 0 ep) ∅ [].

Lemma start_ok ep : sys_ok (start ep).
Proof.
  split.
  - by vm_compute.
  - intros t old H. unfold pc_of, start in H. cbn in H. by rewrite lookup_empty in H.
  - intros t old next H. unfold pc_of, start in H. cbn in H. by rewrite lookup_empty in H.
  - intros id H. by apply not_elem_of_nil in H.
  - constructor.
Qed.

(** ** Theorems *)

(** Identifiers are globally unique and strictly increasing without a lock: over
    any interleaving of any number of goroutines and any clock behaviour,
    including a clock that jumps backwards, the identifiers returned in order of
    their compare-and-swap strictly increase, and each is a positive [int64]. *)
Theorem ids_strictly_increase ep s : rtc gstep (start ep) s ->
  StronglySorted (fun a b => b < a) (sy_ids s) /\ NoDup (sy_ids s) /\
  Forall (fun id => 0 < id < 2 ^ 63) (sy_ids s).
Proof.
  intros Hr. assert (Hok : sys_ok s).
  { pose proof (start_ok ep) as H0. revert H0. induction Hr as [|x y z Hxy _ IH]; [done|]. intros Hx.
    apply IH. by apply (gstep_ok x). }
  destruct Hok as [Hw _ _ Hi Hs]. split_and!; [done| |].
  - clear -Hs. induction Hs as [|a l Hs IH Ha]; constructor; [|done].
    intros Hin. rewrite Forall_forall in Ha. specialize (Ha _ Hin). lia.
  - apply Forall_forall. intros id Hid%Hi. unfold word_ok in Hw. lia.
Qed.

(** ** One goroutine's loop *)

(** What [Next] may return at a given word: a clock out of range, or a larger
    identifier that carries the millisecond of its claim. *)
Definition next_result (g : IDGenerator) (now : nat -> Z) (r : result Z IDError) (g' : IDGenerator) : Prop :=
  match r with
  | Err ErrClockBeforeEpoch => g' = g /\ exists i, now i < epoch g
  | Err ErrTimestampOverflow => g' = g /\ exists i, epoch g + 2 ^ 43 <= now i
  | Ok id => g' = mkGen id (epoch g) /\ state g < id < 2 ^ 63 /\ exists i, TimestampMS id = now i - epoch g
  end.

Section Loop.
Context (g : IDGenerator) (now : nat -> Z).
Context (Hw : word_ok (state g)) (Hnow : forall i, is_i64 (now i - epoch g)).
Abbreviation try i := (attempt (epoch g) (state g) (now i)).

Lemma rel_exact i : i64 (now i - epoch g) = now i - epoch g.
Proof using Hnow. apply (i64_roundtrip _ (Hnow i)). Qed.

Lemma try_fail i e : try i = Fail e -> next_result g now (Err e) g.
Proof using Hnow.
  unfold attempt. rewrite rel_exact. change maxTimestamp with (2 ^ 43 - 1).
  destruct (Z.ltb_spec (now i - epoch g) 0); [intros [= <-]; split; [done|]; exists i; lia|].
  destruct (Z.ltb_spec (2 ^ 43 - 1) (now i - epoch g)); [intros [= <-]; split; [done|]; exists i; lia|].
  by repeat case_match.
Qed.

(** A pass that does not sleep ends the loop. *)
Lemma Next_pass i fuel : (forall d, try i <> Sleep d) ->
  exists r g', Next (S fuel) g now i = Some (r, g') /\ next_result g now r g'.
Proof using Hw Hnow.
  intros Hns. cbn [Next]. destruct (try i) as [e|d|next] eqn:E.
  - eexists _, _. split; [done|]. by apply (try_fail i e).
  - by destruct (Hns d).
  - unfold CompareAndSwap. rewrite Z.eqb_refl. eexists _, _. split; [done|].
    destruct (attempt_claim _ _ _ _ Hw E) as [H1 H2]. rewrite rel_exact in H2.
    refine (conj eq_refl (conj H1 _)). by exists i.
Qed.

Lemma Next_sleep i d fuel : try i = Sleep d -> Next (S fuel) g now i = Next fuel g now (S i).
Proof. intros E. cbn [Next]. by rewrite E. Qed.

(** A sleep is a clock behind the word, or the exhausted current millisecond. *)
Lemma try_sleep i d : try i = Sleep d ->
  (now i - epoch g < state g / 2 ^ 20 /\ d = state g / 2 ^ 20 - (now i - epoch g)) \/
  (now i - epoch g = state g / 2 ^ 20 /\ d = 1).
Proof using Hnow.
  unfold attempt. rewrite rel_exact, shiftr_div.
  destruct (now i - epoch g <? 0); [done|]. destruct (maxTimestamp <? now i - epoch g); [done|].
  destruct (Z.ltb_spec (now i - epoch g) (state g / 2 ^ 20)); [intros [= <-]; by left|].
  destruct (Z.ltb_spec (state g / 2 ^ 20) (now i - epoch g)); [done|].
  destruct (_ <=? _); [|done]. intros [= <-]. right. lia.
Qed.
End Loop.

(** C29: [Next] returns: for a goroutine alone with the generator, a clock within the
    [int64] range of the epoch and a wait that lasts at least as long as
    requested, three passes suffice; it then either reports the clock out of the
    43-bit range, leaving the word alone, or returns an identifier greater than
    every earlier one that carries the millisecond it was claimed in. *)
Theorem Next_returns g now : word_ok (state g) -> (forall i, is_i64 (now i - epoch g)) ->
  (forall i d, attempt (epoch g) (state g) (now i) = Sleep d -> now i + d <= now (S i)) ->
  exists r g', Next 3 g now 0 = Some (r, g') /\ next_result g now r g'.
Proof.
  intros Hw Hnow Hsleep.
  destruct (attempt (epoch g) (state g) (now 0%nat)) as [e0|d0|n0] eqn:E0;
    [apply Next_pass; done || congruence| |apply Next_pass; done || congruence].
  rewrite (Next_sleep _ _ _ _ _ E0). pose proof (Hsleep _ _ E0) as H0. apply try_sleep in E0; [|done].
  destruct (attempt (epoch g) (state g) (now 1%nat)) as [e1|d1|n1] eqn:E1;
    [apply Next_pass; done || congruence| |apply Next_pass; done || congruence].
  rewrite (Next_sleep _ _ _ _ _ E1). pose proof (Hsleep _ _ E1) as H1. apply try_sleep in E1; [|done].
  apply Next_pass; [done..|]. intros d2 E2%try_sleep; [|done]. lia.
Qed.

(** Two goroutines that race for the word: the loser of the compare-and-swap
    loads again and claims the following sequence number. *)
Lemma ids_strictly_increase_witness : NoDup [2; 1].
Proof.
  pose (s1 := set_pc (start 0) 1%nat (Loaded 0)).
  pose (s2 := set_pc s1 2%nat (Loaded 0)).
  pose (s3 := set_pc s2 1%nat (Claiming 0 1)).
  pose (s4 := set_pc s3 2%nat (Claiming 0 1)).
  pose (s5 := mkSys (mkGen 1 0) (<[1%nat := Idle]> (sy_pcs s4)) [1]).
  pose (s6 := set_pc s5 2%nat Idle).
  pose (s7 := set_pc s6 2%nat (Loaded 1)).
  pose (s8 := set_pc s7 2%nat (Claiming 1 2)).
  pose (s9 := mkSys (mkGen 2 0) (<[2%nat := Idle]> (sy_pcs s8)) [2; 1]).
  destruct (ids_strictly_increase 0 s9) as (_ & H & _); [|exact H].
  eapply rtc_l; [exact (g_load (start 0) 1%nat eq_refl)|].
  eapply rtc_l; [exact (g_load s1 2%nat eq_refl)|].
  eapply rtc_l; [exact (g_decide s2 1%nat 0 0 1 eq_refl eq_refl)|].
  eapply rtc_l; [exact (g_decide s3 2%nat 0 0 1 eq_refl eq_refl)|].
  eapply rtc_l; [exact (g_cas_ok s4 1%nat 0 1 (mkGen 1 0) eq_refl eq_refl)|].
  eapply rtc_l; [exact (g_cas_fail s5 2%nat 0 1 (mkGen 1 0) eq_refl eq_refl)|].
  eapply rtc_l; [exact (g_load s6 2%nat eq_refl)|].
  eapply rtc_l; [exact (g_decide s7 2%nat 1 0 2 eq_refl eq_refl)|].
  eapply rtc_l; [exact (g_cas_ok s8 2%nat 1 2 (mkGen 2 0) eq_refl eq_refl)|].
  apply rtc_refl.
Defined.

(** An exhausted millisecond, with a clock that advances by one per pass. *)
Lemma Next_returns_witness : exists r g',
  Next 3 (mkGen 1048575 0) Z.of_nat 0 = Some (r, g') /\ next_result (mkGen 1048575 0) Z.of_nat r g'.
Proof.
  set (now := fun i => Z.min (Z.of_nat i) 5).
  destruct (Next_returns (mkGen 1048575 0) now) as (r & g' & H & Hr).
  - by vm_compute.
  - intros i. unfold is_i64, now. cbn. lia.
  - intros i d H. apply try_sleep in H; [|intros j; unfold is_i64, now; cbn; lia].
    change (state (mkGen 1048575 0) / 2 ^ 20) with 0 in H. unfold now in *. cbn [epoch] in H. lia.
  - vm_compute in H. injection H as <- <-. eexists _, _. split; [by vm_compute|].
    refine (conj eq_refl (conj _ _)); [done|]. by exists 1%nat.
Defined.

End Snowflake.
