(* ===== verification/State.v ===== *)
(** * State: the immutable server-state projection ([realtime/state.go])

    [newPersistentState] turns database rows into the projection; a
    [StateVersion] pairs it with the runtime state; a [StateCandidate] is an
    unpublished successor built and edited before publication.  Versions are
    values: the source clones whatever a reader could alias.  Receivers are
    non-nil: the nil guards of the accessors return the zero value. *)

From S2P Require Import Prelude.
From stdpp Require Import base gmap strings list fin_maps sorting pretty.
From Stdlib Require Import ZArith Lia.
#[local] Open Scope string_scope.
#[local] Open Scope list_scope.
#[local] Open Scope Z_scope.

Module State.

(** ** Data *)

Record Scope := mkScope { sc_Type : string; sc_ID : Z }.

#[global] Instance Scope_eq_dec : EqDecision Scope.
Proof. solve_decision. Defined.
#[global] Instance Scope_countable : Countable Scope :=
  inj_countable' (fun s => (sc_Type s, sc_ID s)) (fun p => mkScope p.1 p.2) ltac:(by intros []).

(** [Scope.Key]: [fmt.Sprintf("%s:%d", ...)]. *)
Definition Key (s : Scope) : string :=
  if bool_decide (sc_Type s = "server") then "server"
  else sc_Type s +:+ ":" +:+ pretty (sc_ID s).

Definition Valid (s : Scope) : bool :=
  if bool_decide (sc_Type s = "server") then sc_ID s =? 0
  else bool_decide (sc_Type s = "group" \/ sc_Type s = "channel") && (0 <? sc_ID s).

Definition server_scope : Scope := mkScope "server" 0.
Definition group_scope (id : Z) : Scope := mkScope "group" id.
Definition channel_scope (id : Z) : Scope := mkScope "channel" id.

Record Checkpoint := mkCheckpoint { cp_StreamEpoch : string; cp_GEID : Z }.

Record User := mkUser {
  us_ID : Z; us_Username : string; us_Nickname : string; us_Avatar : option string;
  us_AuthVersion : Z; us_Banned : bool; us_CreatedAt : Z; us_UpdatedAt : Z
}.

Record Role := mkRole {
  ro_Key : string; ro_DisplayName : string; ro_Rank : Z; ro_Builtin : bool; ro_Immutable : bool;
  ro_CreatedAt : Z; ro_UpdatedAt : Z; ro_Version : Z
}.

Record Group := mkGroup {
  gr_ID : Z; gr_Name : string; gr_Position : Z; gr_Visibility : string;
  gr_CreatedAt : Z; gr_UpdatedAt : Z; gr_Version : Z
}.

Record Channel := mkChannel {
  ch_ID : Z; ch_GroupID : option Z; ch_Name : string; ch_Mode : string; ch_Temporary : bool;
  ch_Visibility : string; ch_Capacity : Z; ch_Position : Z; ch_Pinned : bool; ch_CreatedBy : option Z;
  ch_CreatedAt : Z; ch_UpdatedAt : Z; ch_Version : Z
}.

Record AccessEntry := mkAccess {
  ac_ID : Z; ac_PrincipalType : string; ac_UserID : option Z; ac_RoleKey : option string; ac_CreatedAt : Z
}.

Record RoleBinding := mkBinding { rb_ID : Z; rb_RoleKey : string; rb_Scope : Scope; rb_CreatedAt : Z }.

Record PermissionConfig := mkConfig { pc_Scope : Scope; pc_Config : string; pc_UpdatedAt : Z; pc_Version : Z }.

Record Mute := mkMute {
  mu_ID : Z; mu_Scope : Scope; mu_UserID : Z; mu_Kind : string; mu_ExpiresAt : option Z;
  mu_CreatedBy : option Z; mu_Reason : string; mu_CreatedAt : Z; mu_Version : Z
}.

Record PresenceActivity := mkActivity { pa_Type : string; pa_Name : string; pa_Privacy : string }.
Record Presence := mkPresence { pr_Status : string; pr_Activity : option PresenceActivity }.

(** [connection.go]: the 16-byte identifiers are byte lists. *)
Record VoiceAuthority := mkVoice {
  va_UserID : Z; va_ChannelID : Z; va_ControlConnectionID : list Z; va_ConnectionGeneration : Z;
  va_VoiceSessionID : list Z; va_VoiceAuthorityGeneration : Z; va_JoinedAt : Z
}.

#[global] Instance VoiceAuthority_eq_dec : EqDecision VoiceAuthority.
Proof. solve_decision. Defined.

Definition zero_id : list Z := replicate 16 0.

Definition VoiceValid (a : VoiceAuthority) : bool :=
  (0 <? va_UserID a) && (0 <? va_ChannelID a) && negb (bool_decide (va_ControlConnectionID a = zero_id)) &&
  (0 <? va_ConnectionGeneration a) && negb (bool_decide (va_VoiceSessionID a = zero_id)) &&
  (0 <? va_VoiceAuthorityGeneration a) && (0 <=? va_JoinedAt a).

Record ExpirySchedule := mkSchedule { es_Generation : Z; es_Deadline : Z }.
Definition no_schedule : ExpirySchedule := mkSchedule 0 0.

Record persistentState := mkPersistent {
  users : gmap Z User;
  roles : gmap string Role;
  groups : gmap Z Group;
  channels : gmap Z Channel;
  groupAccess : gmap Z (list AccessEntry);
  channelAccess : gmap Z (list AccessEntry);
  bindings : gmap Z (list RoleBinding);
  configs : gmap Scope PermissionConfig;
  mutes : gmap Z Mute;
  mutesByUser : gmap Z (list Mute)
}.

Record runtimeState := mkRuntime {
  visibilityEpochs : gmap Z Z;
  moderationEpoch : Z;
  presences : gmap Z Presence;
  voiceAuthorities : gmap Z VoiceAuthority;
  voiceAuthoritiesByChannel : gmap Z (list VoiceAuthority);
  temporaryExpiry : gmap Z ExpirySchedule;
  muteExpiry : gmap Z ExpirySchedule
}.

Record StateVersion := mkVersion {
  number : Z; checkpoint : Checkpoint; persistent : persistentState; runtime : runtimeState
}.

(** A nil map entry reads as the empty slice. *)
Definition entries {K} `{Countable K} {A} (m : gmap K (list A)) (k : K) : list A := default [] (m !! k).

(** ** Accessors *)

Definition sortedIntKeys {A} (m : gmap Z A) : list Z := sort_by id ((map_to_list m).*1).

Definition values_in_key_order {A} (m : gmap Z A) : list A := omap (fun k => m !! k) (sortedIntKeys m).

Definition getUser (v : StateVersion) (id : Z) : option User := users (persistent v) !! id.
Definition Users (v : StateVersion) : list User := values_in_key_order (users (persistent v)).
Definition getRole (v : StateVersion) (key : string) : option Role := roles (persistent v) !! key.
Definition getGroup (v : StateVersion) (id : Z) : option Group := groups (persistent v) !! id.
Definition getChannel (v : StateVersion) (id : Z) : option Channel := channels (persistent v) !! id.
Definition GroupAccess (v : StateVersion) (id : Z) : list AccessEntry := entries (groupAccess (persistent v)) id.
Definition ChannelAccess (v : StateVersion) (id : Z) : list AccessEntry := entries (channelAccess (persistent v)) id.
Definition Bindings (v : StateVersion) (userID : Z) : list RoleBinding := entries (bindings (persistent v)) userID.
Definition getConfig (v : StateVersion) (s : Scope) : option PermissionConfig := configs (persistent v) !! s.
Definition getMute (v : StateVersion) (id : Z) : option Mute := mutes (persistent v) !! id.
Definition Mutes (v : StateVersion) : list Mute := values_in_key_order (mutes (persistent v)).

(** Whether [mute] is active for [kind] and covers [channel], the loop body of
    [EffectiveMute]. *)
Definition mute_applies (kind : string) (nowMillis channelID : Z) (channel : Channel) (mute : Mute) : bool :=
  if negb (bool_decide (mu_Kind mute = kind)) then false
  else if match mu_ExpiresAt mute with Some e => e <=? nowMillis | None => false end then false
  else if bool_decide (sc_Type (mu_Scope mute) = "server") then sc_ID (mu_Scope mute) =? 0
  else if bool_decide (sc_Type (mu_Scope mute) = "group") then
    match ch_GroupID channel with Some g => sc_ID (mu_Scope mute) =? g | None => false end
  else if bool_decide (sc_Type (mu_Scope mute) = "channel") then sc_ID (mu_Scope mute) =? channelID
  else false.

Definition EffectiveMute (v : StateVersion) (userID channelID : Z) (kind : string) (nowMillis : Z) : bool :=
  if (userID <=? 0) || (channelID <=? 0) || bool_decide (kind = EmptyString) || (nowMillis <=? 0) then false
  else match channels (persistent v) !! channelID with
       | None => false
       | Some channel =>
           existsb (mute_applies kind nowMillis channelID channel) (entries (mutesByUser (persistent v)) userID)
       end.

Definition VisibilityEpoch (v : StateVersion) (userID : Z) : Z := default 0 (visibilityEpochs (runtime v) !! userID).
Definition ModerationEpoch (v : StateVersion) : Z := moderationEpoch (runtime v).
Definition TemporaryExpiry (v : StateVersion) (id : Z) : option ExpirySchedule := temporaryExpiry (runtime v) !! id.
Definition MuteExpiry (v : StateVersion) (id : Z) : option ExpirySchedule := muteExpiry (runtime v) !! id.

Definition getPresence (v : StateVersion) (userID : Z) : Presence :=
  default (mkPresence "offline" None) (presences (runtime v) !! userID).

Definition getVoiceAuthority (v : StateVersion) (userID : Z) : option VoiceAuthority :=
  voiceAuthorities (runtime v) !! userID.
Definition VoiceAuthorities (v : StateVersion) : list VoiceAuthority :=
  values_in_key_order (voiceAuthorities (runtime v)).
Definition VoiceChannelAuthorities (v : StateVersion) (channelID : Z) : list VoiceAuthority :=
  if channelID <=? 0 then [] else entries (voiceAuthoritiesByChannel (runtime v)) channelID.

(** ** Projection loading *)

Inductive ProjectionError :=
  | DuplicateProjection (kind id : string)
  | InvalidScope (scopeType : string)
  | NilLoaderResult.

(** Rows of [internal/db]: a nullable column is an [option]. *)
Record UserRow := mkUserRow {
  ur_ID : Z; ur_Username : string; ur_PasswordHash : string; ur_Nickname : string; ur_Avatar : option string;
  ur_AuthVersion : Z; ur_BannedAt : option Z; ur_LastLoginAt : option Z; ur_CreatedAt : Z; ur_UpdatedAt : Z
}.
Record RoleRow := mkRoleRow {
  rr_Key : string; rr_DisplayName : string; rr_Rank : Z; rr_Builtin : Z; rr_Immutable : Z;
  rr_CreatedAt : Z; rr_UpdatedAt : Z; rr_Version : Z
}.
Record ChannelRow := mkChannelRow {
  cr_ID : Z; cr_GroupID : option Z; cr_Name : string; cr_Mode : string; cr_Temporary : Z;
  cr_Visibility : string; cr_Capacity : Z; cr_Position : Z; cr_Pinned : Z; cr_CreatedBy : option Z;
  cr_CreatedAt : Z; cr_UpdatedAt : Z; cr_Version : Z
}.
(** [db.GroupAccess] and [db.ChannelAccess], which differ in the name of the
    resource column. *)
Record AccessRow := mkAccessRow {
  ar_ID : Z; ar_Resource : Z; ar_PrincipalType : string; ar_UserID : option Z; ar_RoleKey : option string;
  ar_CreatedAt : Z
}.
Record BindingRow := mkBindingRow {
  br_ID : Z; br_UserID : Z; br_RoleKey : string; br_ScopeType : string; br_GroupID : option Z;
  br_ChannelID : option Z; br_CreatedAt : Z
}.
Record ConfigRow := mkConfigRow {
  cf_ScopeType : string; cf_GroupID : option Z; cf_ChannelID : option Z; cf_Config : string;
  cf_UpdatedAt : Z; cf_Version : Z
}.
Record MuteRow := mkMuteRow {
  mr_ID : Z; mr_ScopeType : string; mr_GroupID : option Z; mr_ChannelID : option Z; mr_UserID : Z;
  mr_Kind : string; mr_ExpiresAt : option Z; mr_CreatedBy : option Z; mr_Reason : string; mr_CreatedAt : Z;
  mr_Version : Z
}.

Record StateProjection := mkProjection {
  pj_Users : list UserRow; pj_Roles : list RoleRow; pj_Groups : list Group; pj_Channels : list ChannelRow;
  pj_GroupAccess : list AccessRow; pj_ChannelAccess : list AccessRow; pj_Bindings : list BindingRow;
  pj_Configs : list ConfigRow; pj_Mutes : list MuteRow
}.

Definition userFromDB (r : UserRow) : User :=
  mkUser (ur_ID r) (ur_Username r) (ur_Nickname r) (ur_Avatar r) (ur_AuthVersion r)
    (bool_decide (is_Some (ur_BannedAt r))) (ur_CreatedAt r) (ur_UpdatedAt r).

Definition roleFromDB (r : RoleRow) : Role :=
  mkRole (rr_Key r) (rr_DisplayName r) (rr_Rank r) (negb (rr_Builtin r =? 0)) (negb (rr_Immutable r =? 0))
    (rr_CreatedAt r) (rr_UpdatedAt r) (rr_Version r).

(** [db.ChannelGroup] has the fields of [Group]. *)
Definition groupFromDB (r : Group) : Group := r.

Definition channelFromDB (r : ChannelRow) : Channel :=
  mkChannel (cr_ID r) (cr_GroupID r) (cr_Name r) (cr_Mode r) (negb (cr_Temporary r =? 0)) (cr_Visibility r)
    (cr_Capacity r) (cr_Position r) (negb (cr_Pinned r =? 0)) (cr_CreatedBy r) (cr_CreatedAt r)
    (cr_UpdatedAt r) (cr_Version r).

Definition accessFromDB (r : AccessRow) : AccessEntry :=
  mkAccess (ar_ID r) (ar_PrincipalType r) (ar_UserID r) (ar_RoleKey r) (ar_CreatedAt r).

Definition scopeFromNullable (scopeType : string) (groupID channelID : option Z) : result Scope ProjectionError :=
  if bool_decide (scopeType = "server") then
    match groupID, channelID with None, None => Ok server_scope | _, _ => Err (InvalidScope scopeType) end
  else if bool_decide (scopeType = "group") then
    match groupID, channelID with
    | Some g, None => if 0 <? g then Ok (group_scope g) else Err (InvalidScope scopeType)
    | _, _ => Err (InvalidScope scopeType)
    end
  else if bool_decide (scopeType = "channel") then
    match groupID, channelID with
    | None, Some c => if 0 <? c then Ok (channel_scope c) else Err (InvalidScope scopeType)
    | _, _ => Err (InvalidScope scopeType)
    end
  else Err (InvalidScope scopeType).

Definition bindingFromDB (r : BindingRow) : result RoleBinding ProjectionError :=
  s <-? scopeFromNullable (br_ScopeType r) (br_GroupID r) (br_ChannelID r) ;;
  Ok (mkBinding (br_ID r) (br_RoleKey r) s (br_CreatedAt r)).

Definition configFromDB (r : ConfigRow) : result PermissionConfig ProjectionError :=
  s <-? scopeFromNullable (cf_ScopeType r) (cf_GroupID r) (cf_ChannelID r) ;;
  Ok (mkConfig s (cf_Config r) (cf_UpdatedAt r) (cf_Version r)).

Definition muteFromDB (r : MuteRow) : result Mute ProjectionError :=
  s <-? scopeFromNullable (mr_ScopeType r) (mr_GroupID r) (mr_ChannelID r) ;;
  Ok (mkMute (mr_ID r) s (mr_UserID r) (mr_Kind r) (mr_ExpiresAt r) (mr_CreatedBy r) (mr_Reason r)
        (mr_CreatedAt r) (mr_Version r)).

(** The duplicate-key test that precedes every map assignment of the loader. *)
Definition insert_unique {K} `{Countable K} {A} (kind : string) (text : K -> string) (k : K) (a : A)
    (m : gmap K A) : result (gmap K A) ProjectionError :=
  match m !! k with
  | Some _ => Err (DuplicateProjection kind (text k))
  | None => Ok (<[k := a]> m)
  end.

(** [m[k] = append(m[k], a)]. *)
Definition push {A} (k : Z) (a : A) (m : gmap Z (list A)) : gmap Z (list A) := <[k := entries m k ++ [a]]> m.

Definition load_mute (acc : gmap Z Mute * gmap Z (list Mute)) (r : MuteRow) :=
  mute <-? muteFromDB r ;;
  ms <-? insert_unique "mute" pretty (mu_ID mute) mute acc.1 ;;
  Ok (ms, push (mu_UserID mute) mute acc.2).

Definition newPersistentState (projection : option StateProjection) : result persistentState ProjectionError :=
  match projection with
  | None => Err NilLoaderResult
  | Some p =>
      us <-? foldM (fun m r => insert_unique "user" pretty (ur_ID r) (userFromDB r) m) ∅ (pj_Users p) ;;
      rs <-? foldM (fun m r => insert_unique "role" id (rr_Key r) (roleFromDB r) m) ∅ (pj_Roles p) ;;
      gs <-? foldM (fun m r => insert_unique "group" pretty (gr_ID r) (groupFromDB r) m) ∅ (pj_Groups p) ;;
      cs <-? foldM (fun m r => insert_unique "channel" pretty (cr_ID r) (channelFromDB r) m) ∅ (pj_Channels p) ;;
      let ga := fold_left (fun m r => push (ar_Resource r) (accessFromDB r) m) (pj_GroupAccess p) ∅ in
      let ca := fold_left (fun m r => push (ar_Resource r) (accessFromDB r) m) (pj_ChannelAccess p) ∅ in
      bs <-? foldM (fun m r => b <-? bindingFromDB r ;; Ok (push (br_UserID r) b m)) ∅ (pj_Bindings p) ;;
      cf <-? foldM (fun m r => c <-? configFromDB r ;; insert_unique "permission config" Key (pc_Scope c) c m)
               ∅ (pj_Configs p) ;;
      mm <-? foldM load_mute (∅, ∅) (pj_Mutes p) ;;
      Ok (mkPersistent us rs gs cs (sort_by ac_ID <$> ga) (sort_by ac_ID <$> ca) (sort_by rb_ID <$> bs) cf
            mm.1 (sort_by mu_ID <$> mm.2))
  end.

(** ** The state store and its candidates *)

Definition empty_runtime : runtimeState := mkRuntime ∅ 0 ∅ ∅ ∅ ∅ ∅.

Definition is_lower_hex (c : Ascii.ascii) : bool :=
  let n := Ascii.nat_of_ascii c in
  ((48 <=? n) && (n <=? 57) || (97 <=? n) && (n <=? 102))%nat.

(** [validateStreamEpoch]: 32 characters that decode as hexadecimal and equal
    their lower-case form. *)
Definition validateStreamEpoch (s : string) : bool :=
  (String.length s =? 32)%nat && forallb is_lower_hex (String.list_ascii_of_string s).

Inductive StoreError := ErrInvalidStreamEpoch | ErrInvalidProjection (e : option ProjectionError) | ErrLoad.

(** [NewStateStoreWithEpoch]: [load] is the loader's answer, [None] its error. *)
Definition NewStateStoreWithEpoch (load : option (option StateProjection)) (streamEpoch : string)
    : result StateVersion StoreError :=
  if negb (validateStreamEpoch streamEpoch) then Err ErrInvalidStreamEpoch
  else match load with
       | None => Err ErrLoad
       | Some projection =>
           match newPersistentState projection with
           | Err e => Err (ErrInvalidProjection (Some e))
           | Ok ps => Ok (mkVersion 0 (mkCheckpoint streamEpoch 0) ps empty_runtime)
           end
       end.

Record StateCandidate := mkCandidate { base : StateVersion; version : StateVersion }.

Definition BuildRuntimeCandidate (current : StateVersion) : StateCandidate :=
  mkCandidate current
    (mkVersion (u64 (number current + 1)) (checkpoint current) (persistent current) (runtime current)).

Definition prune {A B} (m : gmap Z A) (alive : gmap Z B) : gmap Z A := filter (fun p => is_Some (alive !! p.1)) m.

Definition BuildPersistentCandidateFrom (current : StateVersion) (load : option (option StateProjection))
    : result StateCandidate StoreError :=
  match load with
  | None => Err ErrLoad
  | Some projection =>
      match newPersistentState projection with
      | Err e => Err (ErrInvalidProjection (Some e))
      | Ok ps =>
          let r := runtime current in
          let r' := mkRuntime (visibilityEpochs r) (moderationEpoch r) (presences r) (voiceAuthorities r)
                      (voiceAuthoritiesByChannel r) (prune (temporaryExpiry r) (channels ps))
                      (prune (muteExpiry r) (mutes ps)) in
          Ok (mkCandidate current (mkVersion (u64 (number current + 1)) (checkpoint current) ps r'))
      end
  end.

(** ** Candidate edits *)

Definition with_runtime (c : StateCandidate) (r : runtimeState) : StateCandidate :=
  mkCandidate (base c) (mkVersion (number (version c)) (checkpoint (version c)) (persistent (version c)) r).

Definition set_presences p (r : runtimeState) : runtimeState :=
  mkRuntime (visibilityEpochs r) (moderationEpoch r) p (voiceAuthorities r) (voiceAuthoritiesByChannel r)
    (temporaryExpiry r) (muteExpiry r).
Definition set_moderation e (r : runtimeState) : runtimeState :=
  mkRuntime (visibilityEpochs r) e (presences r) (voiceAuthorities r) (voiceAuthoritiesByChannel r)
    (temporaryExpiry r) (muteExpiry r).
Definition set_temporary t (r : runtimeState) : runtimeState :=
  mkRuntime (visibilityEpochs r) (moderationEpoch r) (presences r) (voiceAuthorities r)
    (voiceAuthoritiesByChannel r) t (muteExpiry r).
Definition set_mute_expiry t (r : runtimeState) : runtimeState :=
  mkRuntime (visibilityEpochs r) (moderationEpoch r) (presences r) (voiceAuthorities r)
    (voiceAuthoritiesByChannel r) (temporaryExpiry r) t.
Definition set_voice a b (r : runtimeState) : runtimeState :=
  mkRuntime (visibilityEpochs r) (moderationEpoch r) (presences r) a b (temporaryExpiry r) (muteExpiry r).

Definition validPresence (p : Presence) : bool :=
  bool_decide (pr_Status p ∈ ["online"; "dnd"; "afk"; "offline"; "invisible"]) &&
  match pr_Activity p with
  | None => true
  | Some a => negb (bool_decide (pa_Type a = EmptyString)) && negb (bool_decide (pa_Name a = EmptyString)) &&
              bool_decide (pa_Privacy a ∈ ["public"; "private"])
  end.

(** Candidate edits answer [None] for [ErrInvalidProjection]. *)
Definition SetPresence (c : StateCandidate) (userID : Z) (p : Presence) : option StateCandidate :=
  if bool_decide (users (persistent (version c)) !! userID = None) || negb (validPresence p) then None
  else Some (with_runtime c (set_presences (<[userID := p]> (presences (runtime (version c)))) (runtime (version c)))).

Definition ClearPresence (c : StateCandidate) (userID : Z) : option StateCandidate :=
  if userID <=? 0 then None
  else Some (with_runtime c (set_presences (delete userID (presences (runtime (version c)))) (runtime (version c)))).

Definition IncrementModerationEpoch (c : StateCandidate) : StateCandidate :=
  with_runtime c (set_moderation (u64 (moderationEpoch (runtime (version c)) + 1)) (runtime (version c))).

Definition ScheduleTemporaryExpiry (c : StateCandidate) (channelID deadline : Z)
    : option (ExpirySchedule * StateCandidate) :=
  let t := temporaryExpiry (runtime (version c)) in
  if deadline <=? 0 then None
  else match channels (persistent (version c)) !! channelID with
       | None => None
       | Some ch =>
           if negb (ch_Temporary ch) then None
           else let s := mkSchedule (u64 (es_Generation (default no_schedule (t !! channelID)) + 1)) deadline in
                Some (s, with_runtime c (set_temporary (<[channelID := s]> t) (runtime (version c))))
       end.

Definition live_schedule (s : ExpirySchedule) : bool := (0 <? es_Generation s) && (0 <? es_Deadline s).

Definition ClearTemporaryExpiry (c : StateCandidate) (channelID : Z) : (ExpirySchedule * bool) * StateCandidate :=
  let t := temporaryExpiry (runtime (version c)) in
  let stays := match channels (persistent (version c)) !! channelID with
               | Some ch => ch_Temporary ch && bool_decide (ch_Mode ch = "voice")
               | None => false
               end in
  if negb stays then
    (match t !! channelID with Some p => (p, live_schedule p) | None => (no_schedule, false) end,
     with_runtime c (set_temporary (delete channelID t) (runtime (version c))))
  else match t !! channelID with
       | None => ((no_schedule, false), c)
       | Some p =>
           ((p, live_schedule p),
            with_runtime c (set_temporary (<[channelID := mkSchedule (u64 (es_Generation p + 1)) 0]> t)
                              (runtime (version c))))
       end.

Definition ScheduleMuteExpiry (c : StateCandidate) (muteID deadline : Z)
    : option (ExpirySchedule * StateCandidate) :=
  let t := muteExpiry (runtime (version c)) in
  if deadline <=? 0 then None
  else match mutes (persistent (version c)) !! muteID with
       | None => None
       | Some m =>
           if negb (bool_decide (mu_ExpiresAt m = Some deadline)) then None
           else let s := mkSchedule (u64 (es_Generation (default no_schedule (t !! muteID)) + 1)) deadline in
                Some (s, with_runtime c (set_mute_expiry (<[muteID := s]> t) (runtime (version c))))
       end.

Definition ClearMuteExpiry (c : StateCandidate) (muteID : Z) : StateCandidate :=
  let t := muteExpiry (runtime (version c)) in
  let s := mkSchedule (u64 (es_Generation (default no_schedule (t !! muteID)) + 1)) 0 in
  with_runtime c (set_mute_expiry (<[muteID := s]> t) (runtime (version c))).

Definition addVoiceAuthorityIndex (m : gmap Z (list VoiceAuthority)) (a : VoiceAuthority) :=
  <[va_ChannelID a := sort_by va_UserID (entries m (va_ChannelID a) ++ [a])]> m.

Definition removeVoiceAuthorityIndex (m : gmap Z (list VoiceAuthority)) (a : VoiceAuthority) :=
  let members := entries m (va_ChannelID a) in
  if bool_decide (members = []) then m
  else let filtered := filter (fun x => va_UserID x <> va_UserID a) members in
       if bool_decide (filtered = []) then delete (va_ChannelID a) m else <[va_ChannelID a := filtered]> m.

Definition SetVoiceAuthority (c : StateCandidate) (userID : Z) (authority : option VoiceAuthority)
    : option StateCandidate :=
  let v := version c in
  let r := runtime v in
  let refused := match authority with
                 | None => false
                 | Some a => negb (va_UserID a =? userID) || negb (VoiceValid a) ||
                     bool_decide (users (persistent v) !! userID = None) ||
                     bool_decide (channels (persistent v) !! va_ChannelID a = None)
                 end in
  if (userID <=? 0) || refused then None
  else
    let byChannel := match voiceAuthorities r !! userID with
                     | Some previous => removeVoiceAuthorityIndex (voiceAuthoritiesByChannel r) previous
                     | None => voiceAuthoritiesByChannel r
                     end in
    let all := delete userID (voiceAuthorities r) in
    match authority with
    | None => Some (with_runtime c (set_voice all byChannel r))
    | Some a => Some (with_runtime c (set_voice (<[userID := a]> all) (addVoiceAuthorityIndex byChannel a) r))
    end.

Definition TransitionVoiceAuthority (c : StateCandidate) (previous current : option VoiceAuthority)
    : option (bool * StateCandidate) :=
  let userID := match current, previous with
                | Some a, _ => va_UserID a
                | None, Some a => va_UserID a
                | None, None => 0
                end in
  let bad o := match o with Some a => negb (VoiceValid a) | None => false end in
  if (userID <=? 0) || bad previous || bad current then None
  else if negb (bool_decide (voiceAuthorities (runtime (version c)) !! userID = previous)) then Some (false, c)
  else match SetVoiceAuthority c userID current with
       | None => None
       | Some c' => Some (true, c')
       end.

End State.
