(* ===== verification/StateProps.v ===== *)
(** * StateProps: correctness of the state projection and its candidates

    The projection keeps every row under its key and its indexes agree with its
    tables; a mute is in force exactly when an unexpired row covers the channel;
    the per-channel voice index agrees with the authority map after any sequence
    of candidate edits. *)

From S2P Require Import Prelude State.
From stdpp Require Import base gmap strings list fin_maps sorting pretty relations.
From Stdlib Require Import ZArith Lia.
#[local] Open Scope string_scope.
#[local] Open Scope list_scope.
#[local] Open Scope Z_scope.

Module StateProps.
Import State.

(** ** Loading loops *)

Lemma entries_insert {K} `{Countable K} {A} (m : gmap K (list A)) k k' l :
  entries (<[k := l]> m) k' = if decide (k = k') then l else entries m k'.
Proof. unfold entries. case_decide; [subst; by rewrite lookup_insert_eq|by rewrite lookup_insert_ne]. Qed.

Lemma entries_push {A} (m : gmap Z (list A)) k x k' y :
  y ∈ entries (push k x m) k' <-> y ∈ entries m k' \/ (k = k' /\ y = x).
Proof. unfold push. rewrite entries_insert. case_decide; [subst; set_solver|naive_solver]. Qed.

(** A table loaded behind the duplicate test holds exactly the converted rows. *)
Lemma load_table {K} `{Countable K} {Row A} kind text (conv : Row -> result A ProjectionError) (key : A -> K) rows m :
  foldM (fun m r => a <-? conv r ;; insert_unique kind text (key a) a m) ∅ rows = Ok m ->
  forall k a, m !! k = Some a <-> exists r, r ∈ rows /\ conv r = Ok a /\ key a = k.
Proof.
  apply (foldM_ind (fun done m => forall k a, m !! k = Some a <-> exists r, r ∈ done /\ conv r = Ok a /\ key a = k)).
  - intros k a. rewrite lookup_empty. set_solver.
  - intros done r b b' IH Hb k a. destruct (conv r) as [x|] eqn:Ec; [|done]. cbn in Hb. unfold insert_unique in Hb.
    destruct (b !! key x) eqn:El; [done|]. injection Hb as <-. rewrite lookup_insert_Some, IH. split.
    + intros [[<- <-]|[_ (r' & Hr & ?)]]; [exists r; set_solver|]. exists r'. set_solver.
    + intros (r' & [Hr| ->%list_elem_of_singleton]%elem_of_app & Hc & <-); [|left; split; congruence].
      right. split; [|by exists r']. intros Hk.
      assert (b !! key x = Some a) by (rewrite Hk; apply IH; by exists r'). congruence.
Qed.

(** An append loop groups the converted rows by their owner. *)
Lemma load_groups {Row A} (conv : Row -> result A ProjectionError) (owner : Row -> Z) rows m :
  foldM (fun m r => a <-? conv r ;; Ok (push (owner r) a m)) ∅ rows = Ok m ->
  forall k a, a ∈ entries m k <-> exists r, r ∈ rows /\ conv r = Ok a /\ owner r = k.
Proof.
  apply (foldM_ind (fun done m => forall k a, a ∈ entries m k <-> exists r, r ∈ done /\ conv r = Ok a /\ owner r = k)).
  - intros k a. unfold entries. rewrite lookup_empty. set_solver.
  - intros done r b b' IH Hb k a. destruct (conv r) as [x|] eqn:Ec; [|done]. cbn in Hb. injection Hb as <-.
    rewrite entries_push, IH. split.
    + intros [(r' & Hr & ?)|[<- ->]]; [exists r'; set_solver|exists r; set_solver].
    + intros (r' & [Hr| ->%list_elem_of_singleton]%elem_of_app & Hc & Hk); [left; by exists r'|].
      right. split; congruence.
Qed.

Lemma entries_sort {A} (key : A -> Z) (m : gmap Z (list A)) k : entries (sort_by key <$> m) k = sort_by key (entries m k).
Proof. unfold entries. rewrite lookup_fmap. by destruct (m !! k). Qed.

Lemma load_mutes rows mm : foldM load_mute (∅, ∅) rows = Ok mm ->
  (forall k a, mm.1 !! k = Some a <-> exists r, r ∈ rows /\ muteFromDB r = Ok a /\ mu_ID a = k) /\
  (forall u a, a ∈ entries mm.2 u <-> mm.1 !! mu_ID a = Some a /\ mu_UserID a = u).
Proof.
  apply (foldM_ind (fun done (mm : gmap Z Mute * gmap Z (list Mute)) =>
    (forall k a, mm.1 !! k = Some a <-> exists r, r ∈ done /\ muteFromDB r = Ok a /\ mu_ID a = k) /\
    (forall u a, a ∈ entries mm.2 u <-> mm.1 !! mu_ID a = Some a /\ mu_UserID a = u))).
  - cbn. unfold entries. setoid_rewrite lookup_empty. set_solver.
  - intros done r [b1 b2] b' [IH1 IH2] Hb. unfold load_mute in Hb. cbn in Hb, IH1, IH2.
    destruct (muteFromDB r) as [x|] eqn:Ec; [|done]. cbn in Hb. unfold insert_unique in Hb.
    destruct (b1 !! mu_ID x) eqn:El; [done|]. cbn in Hb. injection Hb as <-. cbn. split.
    + intros k a. rewrite lookup_insert_Some, IH1. split.
      * intros [[<- <-]|[_ (r' & Hr & ?)]]; [exists r; set_solver|]. exists r'. set_solver.
      * intros (r' & [Hr| ->%list_elem_of_singleton]%elem_of_app & Hc & <-); [|left; split; congruence].
        right. split; [|by exists r']. intros Hk.
        assert (b1 !! mu_ID x = Some a) by (rewrite Hk; apply IH1; by exists r'). congruence.
    + intros u a. rewrite entries_push, IH2, lookup_insert_Some. split.
      * intros [[Ha Hu]|[<- ->]]; [|naive_solver]. split; [|done]. right. split; [|done]. congruence.
      * intros [[[Hid <-]|[Hne Ha]] Hu]; [right; by subst|by left].
Qed.

(** Every scope the loader accepts has a supported shape. *)
Lemma scopeFromNullable_valid t g c s : scopeFromNullable t g c = Ok s -> Valid s = true.
Proof.
  unfold scopeFromNullable, server_scope, group_scope, channel_scope.
  repeat case_bool_decide; destruct g as [g|], c as [c|]; try done;
    try (destruct (Z.ltb_spec 0 g); [|done]); try (destruct (Z.ltb_spec 0 c); [|done]);
    intros [= <-]; unfold Valid; cbn; (done || by apply Z.ltb_lt).
Qed.

(** The fields of a successful load, one equation per table. *)
Lemma newPersistentState_inv p st : newPersistentState (Some p) = Ok st -> exists bs mm,
  foldM (fun m r => a <-? (fun r => Ok (userFromDB r)) r ;; insert_unique "user" pretty (us_ID a) a m) ∅ (pj_Users p) = Ok (users st) /\
  foldM (fun m r => a <-? (fun r => Ok (roleFromDB r)) r ;; insert_unique "role" id (ro_Key a) a m) ∅ (pj_Roles p) = Ok (roles st) /\
  foldM (fun m r => a <-? (fun r => Ok (groupFromDB r)) r ;; insert_unique "group" pretty (gr_ID a) a m) ∅ (pj_Groups p) = Ok (groups st) /\
  foldM (fun m r => a <-? (fun r => Ok (channelFromDB r)) r ;; insert_unique "channel" pretty (ch_ID a) a m) ∅ (pj_Channels p) = Ok (channels st) /\
  foldM (fun m r => b <-? bindingFromDB r ;; Ok (push (br_UserID r) b m)) ∅ (pj_Bindings p) = Ok bs /\
  foldM (fun m r => c <-? configFromDB r ;; insert_unique "permission config" Key (pc_Scope c) c m) ∅ (pj_Configs p) = Ok (configs st) /\
  foldM load_mute (∅, ∅) (pj_Mutes p) = Ok mm /\
  bindings st = sort_by rb_ID <$> bs /\ mutes st = mm.1 /\ mutesByUser st = sort_by mu_ID <$> mm.2.
Proof.
  unfold newPersistentState. intros H.
  apply rbind_Ok in H as (us & Hus & H). apply rbind_Ok in H as (rs & Hrs & H). apply rbind_Ok in H as (gs & Hgs & H).
  apply rbind_Ok in H as (cs & Hcs & H). apply rbind_Ok in H as (bs & Hbs & H). apply rbind_Ok in H as (cf & Hcf & H).
  apply rbind_Ok in H as (mm & Hmm & H). injection H as <-. exists bs, mm. by repeat split.
Qed.

(** The invariant of a loaded projection: indexes agree with tables, and every
    scope is well formed. *)
Record projection_ok (st : persistentState) : Prop := {
  po_users : forall id u, users st !! id = Some u -> us_ID u = id;
  po_channels : forall id c, channels st !! id = Some c -> ch_ID c = id;
  po_mutes : forall u m, m ∈ entries (mutesByUser st) u <-> mutes st !! mu_ID m = Some m /\ mu_UserID m = u;
  po_mute_scopes : forall id m, mutes st !! id = Some m -> Valid (mu_Scope m) = true;
  po_binding_scopes : forall u b, b ∈ entries (bindings st) u -> Valid (rb_Scope b) = true;
  po_config_scopes : forall s c, configs st !! s = Some c -> pc_Scope c = s /\ Valid s = true
}.

Lemma muteFromDB_scope r m : muteFromDB r = Ok m -> Valid (mu_Scope m) = true.
Proof. unfold muteFromDB. intros (s & Hs & [= <-])%rbind_Ok. cbn. by apply scopeFromNullable_valid in Hs. Qed.

Lemma bindingFromDB_scope r b : bindingFromDB r = Ok b -> Valid (rb_Scope b) = true.
Proof. unfold bindingFromDB. intros (s & Hs & [= <-])%rbind_Ok. cbn. by apply scopeFromNullable_valid in Hs. Qed.

Lemma configFromDB_scope r c : configFromDB r = Ok c -> Valid (pc_Scope c) = true.
Proof. unfold configFromDB. intros (s & Hs & [= <-])%rbind_Ok. cbn. by apply scopeFromNullable_valid in Hs. Qed.

Lemma newPersistentState_ok p st : newPersistentState (Some p) = Ok st -> projection_ok st.
Proof.
  intros (bs & mm & Hu & _ & _ & Hc & Hb & Hcf & Hm & Eb & Em & Ei)%newPersistentState_inv.
  pose proof (load_table _ _ _ _ _ _ Hu) as Lu. pose proof (load_table _ _ _ _ _ _ Hc) as Lc.
  pose proof (load_table _ _ _ _ _ _ Hcf) as Lcf. pose proof (load_groups _ _ _ _ Hb) as Lb.
  destruct (load_mutes _ _ Hm) as [Lm Li]. split.
  - intros id u (r & _ & [= <-] & <-)%Lu. done.
  - intros id c (r & _ & [= <-] & <-)%Lc. done.
  - intros u m. rewrite Ei, Em, entries_sort, elem_of_sort_by. apply Li.
  - intros id m. rewrite Em. intros (r & _ & Hr & _)%Lm. by apply muteFromDB_scope in Hr.
  - intros u b. rewrite Eb, entries_sort, elem_of_sort_by, Lb. intros (r & _ & Hr & _). by apply bindingFromDB_scope in Hr.
  - intros s c (r & _ & Hr & Hs)%Lcf. split; [done|]. rewrite <- Hs. by apply configFromDB_scope in Hr.
Qed.

(** A successful load is faithful: no row overwrites another, so each table maps
    exactly the keys of its rows to their converted values, a user's bindings
    are exactly that user's binding rows in ascending identifier order, and the
    per-user mute index and all scopes are consistent with the tables. *)
Theorem projection_faithful p st : newPersistentState (Some p) = Ok st ->
  projection_ok st /\
  (forall k u, users st !! k = Some u <-> exists r, r ∈ pj_Users p /\ userFromDB r = u /\ ur_ID r = k) /\
  (forall k c, channels st !! k = Some c <-> exists r, r ∈ pj_Channels p /\ channelFromDB r = c /\ cr_ID r = k) /\
  (forall k m, mutes st !! k = Some m <-> exists r, r ∈ pj_Mutes p /\ muteFromDB r = Ok m /\ mr_ID r = k) /\
  (forall u b, b ∈ entries (bindings st) u <-> exists r, r ∈ pj_Bindings p /\ bindingFromDB r = Ok b /\ br_UserID r = u) /\
  (forall u, StronglySorted (by_key rb_ID) (entries (bindings st) u)).
Proof.
  intros H. split; [by apply newPersistentState_ok in H|].
  apply newPersistentState_inv in H as (bs & mm & Hu & _ & _ & Hc & Hb & _ & Hm & Eb & Em & _).
  pose proof (load_table _ _ _ _ _ _ Hu) as Lu. pose proof (load_table _ _ _ _ _ _ Hc) as Lc.
  pose proof (load_groups _ _ _ _ Hb) as Lb. destruct (load_mutes _ _ Hm) as [Lm _].
  split; [intros k u; rewrite Lu; split; intros (r & ? & He & <-); exists r; split; try done; injection He as <- || subst; done|].
  split; [intros k c; rewrite Lc; split; intros (r & ? & He & <-); exists r; split; try done; injection He as <- || subst; done|].
  split.
  { intros k m. rewrite Em, Lm. split; intros (r & ? & He & <-); exists r; repeat (split; [done|]);
    unfold muteFromDB in He; apply rbind_Ok in He as (s & _ & [= <-]); done. }
  split; intros u; rewrite Eb, entries_sort; [|apply sort_by_sorted].
  intros b. rewrite elem_of_sort_by. apply Lb.
Qed.

(** ** Mutes *)

(** A mute row that is in force for [kind] at [now] in channel [ch]. *)
Definition in_force (kind : string) (now cid : Z) (ch : Channel) (m : Mute) : Prop :=
  mu_Kind m = kind /\ (forall e, mu_ExpiresAt m = Some e -> now < e) /\
  (mu_Scope m = server_scope \/ (exists g, ch_GroupID ch = Some g /\ mu_Scope m = group_scope g) \/
   mu_Scope m = channel_scope cid).

Lemma mute_applies_spec kind now cid ch m :
  mute_applies kind now cid ch m = true <-> in_force kind now cid ch m.
Proof.
  unfold mute_applies, in_force, server_scope, group_scope, channel_scope.
  destruct (mu_Scope m) as [t i]. cbn.
  destruct (bool_decide_reflect (mu_Kind m = kind)) as [Hkd|Hkd]; cbn; [|naive_solver].
  destruct (mu_ExpiresAt m) as [e|].
  - destruct (Z.leb_spec e now) as [Hle|Hlt].
    + split; [done|]. intros (_ & He & _). specialize (He e eq_refl). lia.
    + assert (Hx : forall e', Some e = Some e' -> now < e') by (intros e' [= <-]; lia).
      repeat case_bool_decide; subst; rewrite ?Z.eqb_eq; destruct (ch_GroupID ch) as [g|]; rewrite ?Z.eqb_eq; naive_solver.
  - repeat case_bool_decide; subst; rewrite ?Z.eqb_eq; destruct (ch_GroupID ch) as [g|]; rewrite ?Z.eqb_eq; naive_solver.
Qed.

(** Mute enforcement is exact: for a loaded projection and a well-formed query,
    [EffectiveMute] holds iff some mute row of that user and kind is unexpired
    and covers the channel by server, parent-group or exact-channel scope; the
    per-user index never hides a mute and never applies another user's. *)
Theorem EffectiveMute_exact p v uid cid kind now :
  newPersistentState (Some p) = Ok (persistent v) -> 0 < uid -> 0 < cid -> kind <> EmptyString -> 0 < now ->
  EffectiveMute v uid cid kind now = true <->
  exists ch r m, channels (persistent v) !! cid = Some ch /\ r ∈ pj_Mutes p /\ muteFromDB r = Ok m /\
    mr_UserID r = uid /\ in_force kind now cid ch m.
Proof.
  intros Hp Hu Hc Hk Hn. pose proof (newPersistentState_ok _ _ Hp) as Hok.
  apply newPersistentState_inv in Hp as (bs & mm & _ & _ & _ & _ & _ & _ & Hm & _ & Em & _).
  destruct (load_mutes _ _ Hm) as [Lm _]. rewrite <- Em in Lm.
  assert (Huid : forall r m, muteFromDB r = Ok m -> mu_UserID m = mr_UserID r).
  { intros r m He. unfold muteFromDB in He. by apply rbind_Ok in He as (s & _ & [= <-]). }
  unfold EffectiveMute. rewrite (proj2 (Z.leb_gt uid 0)), (proj2 (Z.leb_gt cid 0)), (proj2 (Z.leb_gt now 0)) by done.
  rewrite bool_decide_false by done. cbn. destruct (channels (persistent v) !! cid) as [ch|]; [|naive_solver].
  rewrite existsb_exists. split.
  - intros (m & Hin%list_elem_of_In & Ha%mute_applies_spec). apply (po_mutes _ Hok) in Hin as [Hl Hmu].
    apply Lm in Hl as (r & Hr & Hf & _). exists ch, r, m. rewrite <- (Huid _ _ Hf). done.
  - intros (ch' & r & m & [= <-] & Hr & Hf & Hmu & Ha). exists m. split; [|by apply mute_applies_spec].
    apply list_elem_of_In, (po_mutes _ Hok). rewrite (Huid _ _ Hf). split; [|done]. apply Lm. by exists r.
Qed.

(** ** The voice index *)

Lemma sorted_fmap {A} (key : A -> Z) (l : list A) :
  StronglySorted (by_key key) l <-> StronglySorted (by_key id) (key <$> l).
Proof.
  induction l as [|x l IH]; cbn; [by split; constructor|].
  assert (He : Forall (by_key key x) l <-> Forall (by_key id (key x)) (key <$> l)) by (by rewrite Forall_fmap).
  split; intros [H1 H2]%StronglySorted_inv; constructor; try (by apply IH); by apply He.
Qed.

(** For a map keyed by a field of its values, the values in key order. *)
Section Keyed.
Context {A : Type} (key : A -> Z) (m : gmap Z A) (Hkey : forall k a, m !! k = Some a -> key a = k).

Lemma elem_of_sortedIntKeys k : k ∈ sortedIntKeys m <-> is_Some (m !! k).
Proof.
  unfold sortedIntKeys. rewrite elem_of_sort_by, list_elem_of_fmap. split.
  - intros ([k' a] & -> & Hin%elem_of_map_to_list). by exists a.
  - intros [a Ha]. exists (k, a). split; [done|]. by apply elem_of_map_to_list.
Qed.

Lemma elem_of_values a : a ∈ values_in_key_order m <-> exists k, m !! k = Some a.
Proof.
  unfold values_in_key_order. rewrite list_elem_of_omap. split; [naive_solver|].
  intros [k Hk]. exists k. split; [|done]. apply elem_of_sortedIntKeys. by exists a.
Qed.

Lemma keys_of_values : key <$> values_in_key_order m = sortedIntKeys m.
Proof using Hkey.
  unfold values_in_key_order.
  assert (Hall : forall k, k ∈ sortedIntKeys m -> is_Some (m !! k)) by (intros k; apply elem_of_sortedIntKeys).
  revert Hall. generalize (sortedIntKeys m) as ks. induction ks as [|k ks IH]; intros Hall; [done|].
  destruct (Hall k) as [a Ha]; [by left|]. cbn. rewrite Ha. cbn. rewrite IH by (intros; apply Hall; by right).
  by rewrite (Hkey _ _ Ha).
Qed.

Lemma values_sorted : StronglySorted (by_key key) (values_in_key_order m).
Proof using Hkey. apply sorted_fmap. rewrite keys_of_values. apply sort_by_sorted. Qed.

Lemma values_NoDup : NoDup (key <$> values_in_key_order m).
Proof using Hkey. rewrite keys_of_values. unfold sortedIntKeys. rewrite sort_by_perm. apply NoDup_fst_map_to_list. Qed.
End Keyed.

(** The channel index agrees with the authority map. *)
Record voice_indexed (r : runtimeState) : Prop := {
  vi_key : forall u a, voiceAuthorities r !! u = Some a -> va_UserID a = u;
  vi_mem : forall ch a, a ∈ entries (voiceAuthoritiesByChannel r) ch <->
    voiceAuthorities r !! va_UserID a = Some a /\ va_ChannelID a = ch;
  vi_sorted : forall ch, StronglySorted (by_key va_UserID) (entries (voiceAuthoritiesByChannel r) ch);
  vi_nodup : forall ch, NoDup (va_UserID <$> entries (voiceAuthoritiesByChannel r) ch)
}.

Lemma sorted_filter {A} (R : A -> A -> Prop) (P : A -> Prop) `{!forall x, Decision (P x)} l :
  StronglySorted R l -> StronglySorted R (filter P l).
Proof.
  induction 1 as [|x l Hs IH Hx]; [constructor|]. rewrite filter_cons. case_decide; [|done].
  constructor; [done|]. rewrite Forall_forall in *. intros y [_ Hy]%list_elem_of_filter. by apply Hx.
Qed.

Lemma NoDup_fmap_filter {A} (key : A -> Z) (P : A -> Prop) `{!forall x, Decision (P x)} l :
  NoDup (key <$> l) -> NoDup (key <$> filter P l).
Proof.
  induction l as [|x l IH]; [done|]. rewrite fmap_cons. intros [Hx Hl]%NoDup_cons. rewrite filter_cons.
  case_decide; [|by apply IH]. rewrite fmap_cons. apply NoDup_cons. split; [|by apply IH].
  rewrite list_elem_of_fmap in *. intros (y & Hy & [_ Hin]%list_elem_of_filter). apply Hx. by exists y.
Qed.

Lemma NoDup_key_inj {A} (key : A -> Z) l x y : NoDup (key <$> l) -> x ∈ l -> y ∈ l -> key x = key y -> x = y.
Proof.
  induction l as [|z l IH]; [by intros _ ?%elem_of_nil|]. cbn. intros [Hz Hl]%NoDup_cons Hx Hy He.
  apply elem_of_cons in Hx as [->|Hx], Hy as [->|Hy]; [done| | |by apply IH];
    destruct Hz; apply list_elem_of_fmap; eauto.
Qed.

(** The indexed view is the filtered map view. *)
Lemma indexed_view r ch : voice_indexed r ->
  entries (voiceAuthoritiesByChannel r) ch =
  filter (fun a => va_ChannelID a = ch) (values_in_key_order (voiceAuthorities r)).
Proof.
  intros [Hk Hm Hs Hn]. apply (sorted_unique va_UserID).
  - apply Hs.
  - apply sorted_filter, values_sorted, Hk.
  - apply NoDup_Permutation.
    + by apply (NoDup_fmap_1 va_UserID).
    + apply NoDup_filter, (NoDup_fmap_1 va_UserID), values_NoDup, Hk.
    + intros a. rewrite Hm, list_elem_of_filter, elem_of_values. split.
      * intros [Ha Hc]. split; [done|]. by eexists.
      * intros [Hc [k Ha]]. pose proof (Hk _ _ Ha) as Hka. subst k. done.
  - intros x y. by apply NoDup_key_inj.
Qed.

(** Removing one user's entry from the index leaves the others. *)
Lemma entries_remove m a ch : entries (removeVoiceAuthorityIndex m a) ch =
  if decide (va_ChannelID a = ch) then filter (fun x => va_UserID x <> va_UserID a) (entries m ch) else entries m ch.
Proof.
  unfold removeVoiceAuthorityIndex. case_decide as Hch.
  - subst ch. destruct (bool_decide_reflect (entries m (va_ChannelID a) = [])) as [->|_]; [done|].
    case_bool_decide as Hf; [|rewrite entries_insert, decide_True by done; done].
    rewrite Hf. unfold entries. by rewrite lookup_delete_eq.
  - case_bool_decide; [done|]. case_bool_decide; [|rewrite entries_insert, decide_False by done; done].
    unfold entries. by rewrite lookup_delete_ne.
Qed.

Lemma remove_indexed r u : voice_indexed r ->
  voice_indexed (set_voice (delete u (voiceAuthorities r))
    (match voiceAuthorities r !! u with
     | Some previous => removeVoiceAuthorityIndex (voiceAuthoritiesByChannel r) previous
     | None => voiceAuthoritiesByChannel r
     end) r).
Proof.
  intros [Hk Hm Hs Hn]. destruct (voiceAuthorities r !! u) as [p|] eqn:Hp.
  - pose proof (Hk _ _ Hp) as Hpu. split; cbn.
    + intros u' a [_ Ha]%lookup_delete_Some. by apply Hk.
    + intros ch a. rewrite entries_remove, lookup_delete_Some. case_decide as Hch.
      * rewrite list_elem_of_filter, Hm. naive_solver.
      * rewrite Hm. split; [|naive_solver]. intros [Ha Hc]. split; [|done]. split; [|done].
        intros Hu. rewrite <- Hu, Hp in Ha. congruence.
    + intros ch. rewrite entries_remove. case_decide; [apply sorted_filter|]; apply Hs.
    + intros ch. rewrite entries_remove. case_decide; [apply NoDup_fmap_filter|]; apply Hn.
  - rewrite delete_id by done. by split.
Qed.

Lemma add_indexed r a : voice_indexed r -> voiceAuthorities r !! va_UserID a = None ->
  voice_indexed (set_voice (<[va_UserID a := a]> (voiceAuthorities r))
    (addVoiceAuthorityIndex (voiceAuthoritiesByChannel r) a) r).
Proof.
  intros [Hk Hm Hs Hn] Hnone. split; cbn.
  - intros u x [[<- <-]|[_ Hx]]%lookup_insert_Some; [done|by apply Hk].
  - intros ch x. unfold addVoiceAuthorityIndex. rewrite entries_insert, lookup_insert_Some. case_decide as Hch.
    + rewrite elem_of_sort_by, elem_of_app, list_elem_of_singleton, Hm. split.
      * intros [[Hx Hc]| ->]; [|naive_solver]. split; [|naive_solver]. right. split; [congruence|done].
      * intros [[[_ <-]|[_ Hx]] Hc]; [by right|left]. split; [done|congruence].
    + rewrite Hm. split; [|naive_solver]. intros [Hx Hc]. split; [|done]. right. split; [congruence|done].
  - intros ch. unfold addVoiceAuthorityIndex. rewrite entries_insert. case_decide; [apply sort_by_sorted|apply Hs].
  - intros ch. unfold addVoiceAuthorityIndex. rewrite entries_insert. case_decide as Hch; [|apply Hn].
    rewrite sort_by_perm, fmap_app. apply NoDup_app. split; [apply Hn|]. split; [|apply NoDup_singleton].
    intros u Hu Ha%list_elem_of_singleton. subst u. apply list_elem_of_fmap in Hu as (x & Hx & Hin).
    apply Hm in Hin as [Hin _]. rewrite Hx in Hnone. congruence.
Qed.

Lemma SetVoiceAuthority_indexed c u o c' : voice_indexed (runtime (version c)) ->
  SetVoiceAuthority c u o = Some c' -> voice_indexed (runtime (version c')).
Proof.
  intros Hi. unfold SetVoiceAuthority. destruct (_ || _) eqn:Hg; [done|].
  pose proof (remove_indexed _ u Hi) as Hr. destruct o as [a|]; intros [= <-]; cbn; [|exact Hr].
  apply orb_false_iff in Hg as [_ Hg]. repeat apply orb_false_iff in Hg as [Hg _].
  apply negb_false_iff, Z.eqb_eq in Hg. subst u. apply (add_indexed _ a) in Hr; [exact Hr|].
  cbn. apply lookup_delete_eq.
Qed.

(** ** Candidate edits *)

(** One edit of an unpublished candidate, or the build of the next candidate
    from a version. *)
Inductive edit : StateVersion -> StateVersion -> Prop :=
  | e_runtime v : edit v (version (BuildRuntimeCandidate v))
  | e_persistent v load c : BuildPersistentCandidateFrom v load = Ok c -> edit v (version c)
  | e_presence v b u p c : SetPresence (mkCandidate b v) u p = Some c -> edit v (version c)
  | e_clear_presence v b u c : ClearPresence (mkCandidate b v) u = Some c -> edit v (version c)
  | e_moderation v b : edit v (version (IncrementModerationEpoch (mkCandidate b v)))
  | e_temporary v b ch d s c : ScheduleTemporaryExpiry (mkCandidate b v) ch d = Some (s, c) -> edit v (version c)
  | e_clear_temporary v b ch : edit v (version (ClearTemporaryExpiry (mkCandidate b v) ch).2)
  | e_mute v b m d s c : ScheduleMuteExpiry (mkCandidate b v) m d = Some (s, c) -> edit v (version c)
  | e_clear_mute v b m : edit v (version (ClearMuteExpiry (mkCandidate b v) m))
  | e_voice v b u a c : SetVoiceAuthority (mkCandidate b v) u a = Some c -> edit v (version c)
  | e_transition v b old new ok c : TransitionVoiceAuthority (mkCandidate b v) old new = Some (ok, c) -> edit v (version c).

Lemma voice_same r r' : voice_indexed r -> voiceAuthorities r' = voiceAuthorities r ->
  voiceAuthoritiesByChannel r' = voiceAuthoritiesByChannel r -> voice_indexed r'.
Proof. intros [] E1 E2. by split; rewrite ?E1, ?E2. Qed.

Lemma edit_indexed v v' : edit v v' -> voice_indexed (runtime v) -> voice_indexed (runtime v').
Proof.
  intros He Hi. destruct He as [v|v load c H|v b u p c H|v b u c H|v b|v b ch d s c H|v b ch|v b m d s c H|v b m|v b u a c H|v b old new ok c H].
  - done.
  - unfold BuildPersistentCandidateFrom in H. destruct load; [|done]. destruct (newPersistentState _); [|done].
    injection H as <-. by apply (voice_same _ _ Hi).
  - unfold SetPresence in H. destruct (_ || _); [done|]. injection H as <-. by apply (voice_same _ _ Hi).
  - unfold ClearPresence in H. destruct (_ <=? _); [done|]. injection H as <-. by apply (voice_same _ _ Hi).
  - by apply (voice_same _ _ Hi).
  - unfold ScheduleTemporaryExpiry in H. destruct (_ <=? _); [done|]. destruct (channels _ !! _); [|done].
    destruct (negb _); [done|]. injection H as <- <-. by apply (voice_same _ _ Hi).
  - unfold ClearTemporaryExpiry. destruct (negb _); [|destruct (temporaryExpiry _ !! _)]; by apply (voice_same _ _ Hi).
  - unfold ScheduleMuteExpiry in H. destruct (_ <=? _); [done|]. destruct (mutes _ !! _); [|done].
    destruct (negb _); [done|]. injection H as <- <-. by apply (voice_same _ _ Hi).
  - by apply (voice_same _ _ Hi).
  - by apply (SetVoiceAuthority_indexed (mkCandidate b v) u a).
  - unfold TransitionVoiceAuthority in H. destruct (_ || _); [done|]. destruct (negb _); [by injection H as <- <-|].
    destruct (SetVoiceAuthority _ _ _) as [c'|] eqn:E; [|done]. injection H as <- <-.
    by apply (SetVoiceAuthority_indexed (mkCandidate b v) _ _ _ Hi E).
Qed.

Lemma empty_indexed : voice_indexed empty_runtime.
Proof.
  split; cbn; unfold entries; intros *; rewrite ?lookup_empty; cbn; try done; [|constructor|constructor].
  rewrite elem_of_nil. naive_solver.
Qed.

(** The media path's membership index is exact: in a version reached from startup
    by any sequence of candidate builds and edits, the authorities indexed under
    a channel are the authority map's entries for that channel, each user once,
    ordered by user. *)
Theorem voice_index_exact load ep v0 v ch :
  NewStateStoreWithEpoch load ep = Ok v0 -> rtc edit v0 v -> 0 < ch ->
  VoiceChannelAuthorities v ch = filter (fun a => va_ChannelID a = ch) (VoiceAuthorities v) /\
  NoDup (va_UserID <$> VoiceAuthorities v).
Proof.
  intros H0 Hr Hch. assert (Hi : voice_indexed (runtime v)).
  { assert (Hi0 : voice_indexed (runtime v0)).
    { unfold NewStateStoreWithEpoch in H0. destruct (negb _); [done|]. destruct load; [|done].
      destruct (newPersistentState _); [|done]. injection H0 as <-. exact empty_indexed. }
    clear H0. induction Hr as [|x y z Hxy _ IH]; [done|]. by apply IH, (edit_indexed x). }
  unfold VoiceChannelAuthorities. rewrite (proj2 (Z.leb_gt ch 0)) by done. split; [by apply indexed_view|].
  apply values_NoDup, Hi.
Qed.

(** A voice transition is an exact compare-and-swap: it takes effect only when the
    recorded authority is the expected one, then it replaces that user's
    authority and nobody else's; a stale transition changes nothing. *)
Theorem voice_transition_cas c old new ok c' :
  TransitionVoiceAuthority c old new = Some (ok, c') ->
  exists u, (forall a, new = Some a -> va_UserID a = u) /\
  if ok then voiceAuthorities (runtime (version c)) !! u = old /\
             voiceAuthorities (runtime (version c')) !! u = new /\
             (forall w, w <> u -> voiceAuthorities (runtime (version c')) !! w = voiceAuthorities (runtime (version c)) !! w) /\
             persistent (version c') = persistent (version c)
  else c' = c /\ voiceAuthorities (runtime (version c)) !! u <> old.
Proof.
  unfold TransitionVoiceAuthority. set (u := match new with Some a => va_UserID a | None => _ end).
  destruct (_ || _); [done|]. case_bool_decide as Hold; cbn [negb].
  - destruct (SetVoiceAuthority c u new) as [c1|] eqn:E; [|done]. intros [= <- <-]. exists u.
    split; [by intros a ->|]. split; [done|]. unfold SetVoiceAuthority in E. destruct (_ || _); [done|].
    destruct new as [a|]; injection E as <-; cbn.
    + rewrite lookup_insert_eq. split_and!; try done. intros w Hw. by rewrite lookup_insert_ne, lookup_delete_ne.
    + rewrite lookup_delete_eq. split_and!; try done. intros w Hw. by rewrite lookup_delete_ne.
  - intros [= <- <-]. exists u. split; [by intros a ->|]. done.
Qed.

(** ** Witnesses: a user in a grouped voice channel, muted in the group until 500 *)

Definition demo : StateProjection := mkProjection
  [mkUserRow 7 "ada" "hash" "Ada" None 1 None None 1 1; mkUserRow 8 "bob" "hash" "Bob" None 1 None None 1 1]
  [mkRoleRow "member" "Member" 1 1 1 1 1 1]
  [mkGroup 10 "General" 0 "public" 1 1 1]
  [mkChannelRow 20 (Some 10) "Lobby" "voice" 0 "public" 0 0 0 None 1 1 1]
  [] [] [mkBindingRow 3 7 "member" "server" None None 1; mkBindingRow 2 7 "member" "group" (Some 10) None 1]
  [mkConfigRow "server" None None "{}" 1 1]
  [mkMuteRow 30 "group" (Some 10) None 7 "voice" (Some 500) None "noise" 1 1].

Definition demo_epoch : string := "00112233445566778899aabbccddeeff".
Definition demo_voice (u : Z) : VoiceAuthority := mkVoice u 20 (replicate 16 1) 1 (replicate 16 2) 1 1000.

Lemma projection_faithful_witness :
  exists st, newPersistentState (Some demo) = Ok st /\ projection_ok st /\ (rb_ID <$> entries (bindings st) 7) = [2; 3].
Proof.
  destruct (newPersistentState (Some demo)) as [st|e] eqn:E; [|by vm_compute in E].
  exists st. split; [done|]. split; [by apply (projection_faithful demo st)|].
  vm_compute in E. injection E as <-. by vm_compute.
Defined.

Lemma EffectiveMute_exact_witness : exists v,
  EffectiveMute v 7 20 "voice" 499 = true /\ EffectiveMute v 7 20 "voice" 500 = false /\
  EffectiveMute v 8 20 "voice" 499 = false /\
  exists ch r m, channels (persistent v) !! 20 = Some ch /\ r ∈ pj_Mutes demo /\ muteFromDB r = Ok m /\
    mr_UserID r = 7 /\ in_force "voice" 499 20 ch m.
Proof.
  destruct (newPersistentState (Some demo)) as [st|e] eqn:E; [|by vm_compute in E].
  pose (v := mkVersion 0 (mkCheckpoint demo_epoch 0) st empty_runtime). exists v.
  assert (H : EffectiveMute v 7 20 "voice" 499 = true /\ EffectiveMute v 7 20 "voice" 500 = false /\
    EffectiveMute v 8 20 "voice" 499 = false).
  { unfold v. clear v. vm_compute in E. injection E as <-. by vm_compute. }
  destruct H as (H1 & H2 & H3). refine (conj H1 (conj H2 (conj H3 _))).
  by apply (EffectiveMute_exact demo v 7 20 "voice" 499).
Defined.

Lemma voice_index_exact_witness : exists v,
  VoiceChannelAuthorities v 20 = filter (fun a => va_ChannelID a = 20) (VoiceAuthorities v) /\
  VoiceChannelAuthorities v 20 = [demo_voice 7; demo_voice 8].
Proof.
  destruct (NewStateStoreWithEpoch (Some (Some demo)) demo_epoch) as [v0|e] eqn:E0; [|by vm_compute in E0].
  destruct (SetVoiceAuthority (BuildRuntimeCandidate v0) 8 (Some (demo_voice 8))) as [c1|] eqn:E1;
    [|vm_compute in E0; injection E0 as <-; by vm_compute in E1].
  destruct (TransitionVoiceAuthority c1 None (Some (demo_voice 7))) as [[ok c2]|] eqn:E2;
    [|vm_compute in E0; injection E0 as <-; vm_compute in E1; injection E1 as <-; by vm_compute in E2].
  exists (version c2). split.
  - apply (voice_index_exact (Some (Some demo)) demo_epoch v0); [done| |done].
    eapply rtc_l; [apply (e_runtime v0)|]. eapply rtc_l.
    { apply (e_voice (version (BuildRuntimeCandidate v0)) v0 8 (Some (demo_voice 8)) c1). exact E1. }
    eapply rtc_l; [|apply rtc_refl].
    apply (e_transition (version c1) (base c1) None (Some (demo_voice 7)) ok c2). by destruct c1.
  - vm_compute in E0. injection E0 as <-. vm_compute in E1. injection E1 as <-. vm_compute in E2.
    injection E2 as <- <-. by vm_compute.
Defined.

Lemma voice_transition_cas_witness : exists v0 c1 c2,
  NewStateStoreWithEpoch (Some (Some demo)) demo_epoch = Ok v0 /\
  TransitionVoiceAuthority (BuildRuntimeCandidate v0) None (Some (demo_voice 7)) = Some (true, c1) /\
  TransitionVoiceAuthority c1 None (Some (demo_voice 7)) = Some (false, c2) /\ c2 = c1.
Proof.
  destruct (NewStateStoreWithEpoch (Some (Some demo)) demo_epoch) as [v0|e] eqn:E0; [|by vm_compute in E0].
  vm_compute in E0. injection E0 as <-. eexists _, _, _. split; [done|]. split; [by vm_compute|].
  match goal with |- ?a = ?b /\ _ => assert (H : a = b) by (vm_compute; reflexivity) end.
  split; [exact H|]. by destruct (voice_transition_cas _ _ _ _ _ H) as (u & _ & Hc & _).
Defined.

End StateProps.
