(* ===== verification/StateRing.v ===== *)
(** * StateRing: the bounded replay ring ([realtime/ring.go])

    A ring keeps the newest events within an entry and a byte limit.  The model
    takes [json.Valid] and [json.Marshal] of the event envelope as parameters;
    only the size theorem assumes anything of them.  Byte strings and slices are
    values: the source copies them on the way in and out. *)

From S2P Require Import Prelude State.
From stdpp Require Import base gmap strings list pretty relations.
From Stdlib Require Import ZArith Lia.
#[local] Open Scope string_scope.
#[local] Open Scope list_scope.
#[local] Open Scope Z_scope.

Module StateRing.
Import State.

Definition MaxStateRingEntries : Z := 1024.
Definition MaxStateRingBytes : Z := Z.shiftl 16 20.
Definition MaxStateEventBytes : Z := Z.shiftl 192 10.
Definition MaxStateEventCursorBytes : Z := 256.
(** The bytes a non-empty cursor member adds around its value. *)
Definition stateEventCursorEnvelopeBytes : Z := 12.
Definition maxStateEventRingBytes : Z :=
  MaxStateEventBytes - MaxStateEventCursorBytes - stateEventCursorEnvelopeBytes.

Inductive RingError :=
  | ErrInvalidStateRingLimits | ErrInvalidStateEvent | ErrStateEventTooLarge | ErrStateRingSequence | ErrEncode.

(** [StateDeliveryPolicy] of [eventbus.go]: [iota + 1]. *)
Definition StateDeliveryControl : Z := 1.
Definition StateDeliveryVisibleAfter : Z := 2.
Definition StateDeliveryVisibleBefore : Z := 3.
Definition StateDeliveryDirectTransition : Z := 4.
Definition StateDeliveryUserTargeted : Z := 5.

Definition isVisibilityTransitionEvent (eventType : string) : bool :=
  bool_decide (eventType ∈ ["visibility.tombstone"; "visibility.revoked"; "visibility.grant.begin";
    "visibility.fragment"; "visibility.granted"; "visibility.transition.complete"]).

(** [Data]: [None] is the nil slice. *)
Record StateEventTemplate := mkTemplate {
  t_EventType : string; t_Scope : Scope; t_CausationID : Z; t_Data : option bytes; t_DeliveryPolicy : Z;
  t_VisibleBeforeUserIDs : list Z; t_RecipientUserID : Z; t_SubjectUserID : Z;
  t_CursorVisibilityEpoch : Z; t_HasCursorVisibilityEpoch : bool
}.

Record StateEvent := mkEvent {
  GEID : Z; EventType : string; EvScope : Scope; CausationID : Z; ServerTime : Z; Data : option bytes;
  DeliveryPolicy : Z; VisibleBeforeUserIDs : list Z; RecipientUserID : Z; SubjectUserID : Z;
  CursorVisibilityEpoch : Z; HasCursorVisibilityEpoch : bool;
  cursorVisibilityEpochs : list (Z * Z);
  subjectState : option (User * Presence);
  encoded : bytes
}.

Definition set_encoded (e : StateEvent) (d : option bytes) (b : bytes) : StateEvent :=
  mkEvent (GEID e) (EventType e) (EvScope e) (CausationID e) (ServerTime e) d (DeliveryPolicy e)
    (VisibleBeforeUserIDs e) (RecipientUserID e) (SubjectUserID e) (CursorVisibilityEpoch e)
    (HasCursorVisibilityEpoch e) (cursorVisibilityEpochs e) (subjectState e) b.

Definition len {A} (l : list A) : Z := Z.of_nat (length l).
Definition slen (s : string) : Z := Z.of_nat (String.length s).

Definition retainedSize (e : StateEvent) : Z :=
  let size := len (encoded e) + len (cursorVisibilityEpochs e) * 16 + len (VisibleBeforeUserIDs e) * 8 in
  match subjectState e with
  | None => size
  | Some (u, p) =>
      size + (64 + slen (us_Username u) + slen (us_Nickname u)) +
      match us_Avatar u with Some a => slen a | None => 0 end +
      match pr_Activity p with Some a => slen (pa_Type a) + slen (pa_Name a) + slen (pa_Privacy a) | None => 0 end
  end.

Record eventScope := mkEventScope { es_Type : string; es_ID : string }.

Record stateEventEnvelope := mkEnvelope {
  en_Type : string; en_GEID : string; en_Cursor : string; en_Class : string; en_Scope : eventScope;
  en_EventType : string; en_CausationID : string; en_ServerTime : Z; en_Data : option bytes
}.

Definition stateEventScope (s : Scope) : eventScope :=
  mkEventScope (sc_Type s) (if sc_ID s =? 0 then EmptyString else pretty (sc_ID s)).

Definition commandIDText (id : Z) : string := if id =? 0 then EmptyString else pretty id.

Definition stateEventEnvelopeFromEventWithData (e : StateEvent) (data : option bytes) (cursor : string) :=
  mkEnvelope "state.event" (pretty (GEID e)) cursor "state" (stateEventScope (EvScope e)) (EventType e)
    (commandIDText (CausationID e)) (ServerTime e) data.

Definition stateEventEnvelopeFromEvent (e : StateEvent) (cursor : string) :=
  stateEventEnvelopeFromEventWithData e (Data e) cursor.

Definition cursor_char (c : Ascii.ascii) : bool :=
  let n := Z.of_nat (Ascii.nat_of_ascii c) in
  ((97 <=? n) && (n <=? 122)) || ((65 <=? n) && (n <=? 90)) || ((48 <=? n) && (n <=? 57)) || (n =? 45) || (n =? 95).

Definition validStateEventCursor (cursor : string) : bool :=
  if bool_decide (cursor = EmptyString) || (MaxStateEventCursorBytes <? slen cursor) then false
  else forallb cursor_char (String.list_ascii_of_string cursor).

(** The bytes of ["null"]. *)
Definition json_null : bytes := [110; 117; 108; 108].

(** Strictly increasing positive user identifiers. *)
Fixpoint ascending_from (previous : option Z) (l : list Z) : bool :=
  match l with
  | [] => true
  | u :: l => negb (u <=? 0) && match previous with Some p => negb (u <=? p) | None => true end &&
              ascending_from (Some u) l
  end.

Section Ring.
Context (json_Valid : bytes -> bool) (json_Marshal : stateEventEnvelope -> option bytes).

Definition normalizeStateEvent (e : StateEvent) : result StateEvent RingError :=
  let policy := DeliveryPolicy e in
  if (GEID e =? 0) || bool_decide (EventType e = EmptyString) || negb (Valid (EvScope e)) || (CausationID e <? 0)
  then Err ErrInvalidStateEvent
  else if negb (policy =? 0) && negb (policy =? StateDeliveryVisibleAfter) &&
          negb (policy =? StateDeliveryVisibleBefore) && negb (policy =? StateDeliveryDirectTransition) &&
          negb (policy =? StateDeliveryUserTargeted)
  then Err ErrInvalidStateEvent
  else if (if policy =? StateDeliveryVisibleBefore
           then bool_decide (EventType e ∈ ["group.deleted"; "channel.deleted"; "channel.member.left"; "moderation.mute.removed"])
                && ascending_from None (VisibleBeforeUserIDs e)
           else bool_decide (VisibleBeforeUserIDs e = []))
  then
    if ((policy =? StateDeliveryDirectTransition) || (policy =? StateDeliveryUserTargeted)) && (RecipientUserID e <=? 0)
    then Err ErrInvalidStateEvent
    else if (policy =? StateDeliveryDirectTransition) && negb (isVisibilityTransitionEvent (EventType e))
    then Err ErrInvalidStateEvent
    else if SubjectUserID e <? 0 then Err ErrInvalidStateEvent
    else
      let data := default json_null (Data e) in
      if negb (json_Valid data) then Err ErrInvalidStateEvent
      else match json_Marshal (stateEventEnvelopeFromEventWithData e (Some data) EmptyString) with
           | None => Err ErrEncode
           | Some b => Ok (set_encoded e (Some data) b)
           end
  else Err ErrInvalidStateEvent.

(** [append([]T(nil), s...)] of an empty slice is nil. *)
Definition clone_raw (d : option bytes) : option bytes :=
  match d with Some (b :: bs) => Some (b :: bs) | _ => None end.

Definition stateEventFromTemplate (t : StateEventTemplate) (geid serverTime : Z) : result StateEvent RingError :=
  normalizeStateEvent (mkEvent geid (t_EventType t) (t_Scope t) (t_CausationID t) serverTime (clone_raw (t_Data t))
    (t_DeliveryPolicy t) (t_VisibleBeforeUserIDs t) (t_RecipientUserID t) (t_SubjectUserID t)
    (t_CursorVisibilityEpoch t) (t_HasCursorVisibilityEpoch t) [] None []).

Definition EncodedWithDataAndCursor (e : StateEvent) (data : option bytes) (cursor : string)
    : result bytes RingError :=
  if negb (validStateEventCursor cursor) || negb (json_Valid (default [] data)) then Err ErrInvalidStateEvent
  else match json_Marshal (stateEventEnvelopeFromEventWithData e data cursor) with
       | None => Err ErrEncode
       | Some b => if MaxStateEventBytes <? len b then Err ErrStateEventTooLarge else Ok b
       end.

Definition EncodedWithCursor (e : StateEvent) (cursor : string) : result bytes RingError :=
  if negb (validStateEventCursor cursor) then Err ErrInvalidStateEvent
  else EncodedWithDataAndCursor e (Data e) cursor.

Record StateRing := mkRing {
  events : list StateEvent; rbytes : Z; highWater : Z; maxEvents : Z; maxBytes : Z
}.

Definition NewStateRingWithLimits (maxEvents maxBytes : Z) : result StateRing RingError :=
  if (maxEvents <=? 0) || (maxBytes <=? 0) then Err ErrInvalidStateRingLimits
  else Ok (mkRing [] 0 0 maxEvents maxBytes).

Definition NewStateRing : result StateRing RingError :=
  NewStateRingWithLimits MaxStateRingEntries MaxStateRingBytes.

(** One iteration of [validateAppendLocked]; the accumulator is the prepared
    prefix and the expected identifier. *)
Definition validate_one (r : StateRing) (acc : list StateEvent * Z) (e : StateEvent)
    : result (list StateEvent * Z) RingError :=
  let '(prepared, expected) := acc in
  if negb (GEID e =? expected) then Err ErrStateRingSequence
  else
    n <-? normalizeStateEvent e ;;
    if (maxStateEventRingBytes <? len (encoded n)) || (maxBytes r <? len (encoded n)) then Err ErrStateEventTooLarge
    else if maxBytes r <? retainedSize n then Err ErrStateEventTooLarge
    else Ok (prepared ++ [n], u64 (expected + 1)).

Definition validateAppendLocked (r : StateRing) (evs : list StateEvent) : result (list StateEvent) RingError :=
  acc <-? foldM (validate_one r) ([], u64 (highWater r + 1)) evs ;; Ok acc.1.

Definition ValidateAppend (r : StateRing) (evs : list StateEvent) : option RingError :=
  match validateAppendLocked r evs with Ok _ => None | Err e => Some e end.

(** The eviction loop; [None]: [r.events[0]] of an empty slice panics. *)
Fixpoint evict (maxEvents maxBytes : Z) (evs : list StateEvent) (size : Z) : option (list StateEvent * Z) :=
  if (maxEvents <? len evs) || (maxBytes <? size) then
    match evs with
    | [] => None
    | e :: evs => evict maxEvents maxBytes evs (size - retainedSize e)
    end
  else Some (evs, size).

Definition append_one (r : StateRing) (e : StateEvent) : option StateRing :=
  '(evs, size) ← evict (maxEvents r) (maxBytes r) (events r ++ [e]) (rbytes r + retainedSize e);
  Some (mkRing evs size (GEID e) (maxEvents r) (maxBytes r)).

Definition append_all (r : StateRing) (evs : list StateEvent) : option StateRing :=
  fold_left (fun o e => o ≫= fun r => append_one r e) evs (Some r).

(** [Append]: [None] is a panic, otherwise the error if any and the ring. *)
Definition Append (r : StateRing) (evs : list StateEvent) : option (option RingError * StateRing) :=
  match validateAppendLocked r evs with
  | Err e => Some (Some e, r)
  | Ok prepared => r' ← append_all r prepared; Some (None, r')
  end.

(** [cloneStateEvents] copies. *)
Definition cloneStateEvents (evs : list StateEvent) : list StateEvent := evs.

(** The suffix from the first event past [geid]. *)
Fixpoint suffix_after (geid : Z) (evs : list StateEvent) : list StateEvent :=
  match evs with
  | [] => []
  | e :: evs' => if geid <? GEID e then evs else suffix_after geid evs'
  end.

Definition EventsAfter (r : StateRing) (geid : Z) : list StateEvent * bool :=
  if highWater r <? geid then ([], false)
  else match events r with
       | [] => ([], geid =? highWater r)
       | oldest :: _ =>
           if geid <? u64 (GEID oldest - 1) then ([], false)
           else (cloneStateEvents (suffix_after geid (events r)), true)
       end.

Definition Snapshot (r : StateRing) : list StateEvent * Z := (cloneStateEvents (events r), highWater r).
Definition HighWater (r : StateRing) : Z := highWater r.
Definition Len (r : StateRing) : Z := len (events r).
Definition Bytes (r : StateRing) : Z := rbytes r.

(** ** Invariant *)

Definition total_size (evs : list StateEvent) : Z := foldr (fun e n => retainedSize e + n) 0 evs.

(** The events numbered [first], [first + 1], ... *)
Fixpoint numbered (first : Z) (evs : list StateEvent) : Prop :=
  match evs with
  | [] => True
  | e :: evs => GEID e = first /\ numbered (first + 1) evs
  end.

(** [log] is every event ever appended. *)
Record ring_ok (r : StateRing) (log : list StateEvent) : Prop := {
  ok_log : numbered 1 log;
  ok_high : highWater r = len log;
  ok_u64 : len log < u64_mod;
  ok_suffix : exists old, log = old ++ events r;
  ok_bytes : rbytes r = total_size (events r);
  ok_limits : 0 < maxEvents r /\ 0 < maxBytes r;
  ok_entries : len (events r) <= maxEvents r;
  ok_size : rbytes r <= maxBytes r;
  ok_norm : Forall (fun e => exists e0, normalizeStateEvent e0 = Ok e /\ len (encoded e) <= maxStateEventRingBytes) log
}.

Lemma retainedSize_nonneg e : 0 <= retainedSize e.
Proof.
  unfold retainedSize, len, slen. destruct (subjectState e) as [[u p]|]; [|lia].
  destruct (us_Avatar u), (pr_Activity p); lia.
Qed.

Lemma total_size_app l1 l2 : total_size (l1 ++ l2) = total_size l1 + total_size l2.
Proof. induction l1 as [|e l1 IH]; cbn; [done|]. unfold total_size in *. lia. Qed.

Lemma len_nonneg {A} (l : list A) : 0 <= len l.
Proof. unfold len. lia. Qed.
Lemma len_cons {A} (x : A) l : len (x :: l) = 1 + len l.
Proof. unfold len. cbn [length]. lia. Qed.
Lemma len_app {A} (l1 l2 : list A) : len (l1 ++ l2) = len l1 + len l2.
Proof. unfold len. rewrite length_app. lia. Qed.

Lemma numbered_app first l1 l2 : numbered first (l1 ++ l2) <-> numbered first l1 /\ numbered (first + len l1) l2.
Proof.
  revert first. induction l1 as [|e l1 IH]; intros first; cbn.
  - unfold len. cbn. rewrite Z.add_0_r. tauto.
  - rewrite IH. replace (first + 1 + len l1) with (first + len (e :: l1)) by (unfold len; cbn; lia). tauto.
Qed.

(** The loop stops before the slice runs out, at the longest suffix within the
    limits. *)
Lemma evict_spec mE mB evs size : 0 <= mE -> 0 <= mB -> size = total_size evs ->
  exists old kept, evs = old ++ kept /\ evict mE mB evs size = Some (kept, total_size kept) /\
    len kept <= mE /\ total_size kept <= mB.
Proof.
  intros HE HB. revert size. induction evs as [|e evs IH]; intros size ->.
  - exists [], []. cbn. rewrite (proj2 (Z.ltb_ge mE (len [])) ) by done. rewrite (proj2 (Z.ltb_ge mB 0)) by done. done.
  - cbn [evict]. destruct (Z.ltb_spec mE (len (e :: evs))) as [Hlt|Hge]; cbn [orb].
    2: destruct (Z.ltb_spec mB (total_size (e :: evs))) as [Hlt|Hge2]; cbn [orb].
    3: { by exists [], (e :: evs). }
    all: destruct (IH (total_size (e :: evs) - retainedSize e)) as (old & kept & -> & H & Hk);
      [unfold total_size; cbn; lia|]; exists (e :: old), kept; done.
Qed.

Lemma normalize_geid e n : normalizeStateEvent e = Ok n -> GEID n = GEID e /\ GEID e <> 0.
Proof using All.
  unfold normalizeStateEvent. destruct (Z.eqb_spec (GEID e) 0) as [|Hne]; [done|].
  destruct (_ || _); [done|]. destruct (_ && _); [done|]. destruct (if _ =? _ then _ else _); [|done].
  destruct (_ && _); [done|]. destruct (_ && _); [done|]. destruct (_ <? _); [done|]. destruct (negb _); [done|].
  destruct (json_Marshal _); [|done]. by intros [= <-].
Qed.

(** What a validated batch is: numbered after the high-water mark without
    wrapping, each event normalized and within the size limits. *)
Definition prepared_ok (r : StateRing) (prepared : list StateEvent) : Prop :=
  numbered (highWater r + 1) prepared /\ highWater r + len prepared < u64_mod /\
  Forall (fun e => (exists e0, normalizeStateEvent e0 = Ok e /\ len (encoded e) <= maxStateEventRingBytes) /\
    retainedSize e <= maxBytes r) prepared.

Lemma validate_spec r evs prepared : is_u64 (highWater r) -> validateAppendLocked r evs = Ok prepared ->
  prepared_ok r prepared /\ length prepared = length evs.
Proof using All.
  intros Hhw Hv. unfold validateAppendLocked in Hv. apply rbind_Ok in Hv as ([prep ex] & Hv & [= <-]).
  assert (H : prepared_ok r prep /\ length prep = length evs /\ ex = u64 (highWater r + 1 + len prep)).
  2: { destruct H as (H & Hl & _). by split. }
  revert Hv. apply (foldM_ind (fun done acc => prepared_ok r acc.1 /\ length acc.1 = length done /\
    acc.2 = u64 (highWater r + 1 + len acc.1)) _ ([], _) evs (prep, ex)).
  - cbn. unfold prepared_ok, is_u64 in *. cbn. unfold len. cbn. rewrite !Z.add_0_r. split_and!; try done; try lia.
  - intros done e [p0 x0] [p1 x1] [(Hn & Hu & Hf) [Hl Hx]] Hs. cbn in Hn, Hu, Hf, Hl, Hx. unfold validate_one in Hs.
    destruct (Z.eqb_spec (GEID e) x0) as [He|]; [|done]. cbn in Hs.
    apply rbind_Ok in Hs as (n & Hnorm & Hs). destruct (normalize_geid _ _ Hnorm) as [Hg Hnz].
    destruct (Z.ltb_spec maxStateEventRingBytes (len (encoded n))) as [|Hm]; [done|]. cbn in Hs.
    destruct (_ <? _); [done|]. destruct (Z.ltb_spec (maxBytes r) (retainedSize n)) as [|Hr]; [done|].
    injection Hs as <- <-. cbn.
    assert (Hlt : highWater r + 1 + len p0 < u64_mod).
    { destruct (Z.lt_trichotomy (highWater r + 1 + len p0) u64_mod) as [?|[Heq|?]]; [done| |lia].
      rewrite Heq in Hx. subst x0. by vm_compute in He. }
    assert (Hx0 : x0 = highWater r + 1 + len p0).
    { rewrite Hx. apply u64_small. unfold is_u64, len in *. lia. }
    assert (Hln : len (p0 ++ [n]) = len p0 + 1) by (rewrite len_app; reflexivity).
    unfold prepared_ok. rewrite !length_app, Hl, numbered_app, Forall_app, Hln. cbn.
    split_and!; try done; try lia.
    + constructor; [|constructor]. split; [|done]. by exists e.
    + f_equal. lia.
Qed.

Lemma append_one_ok r log e : ring_ok r log -> GEID e = len log + 1 -> len log + 1 < u64_mod ->
  (exists e0, normalizeStateEvent e0 = Ok e /\ len (encoded e) <= maxStateEventRingBytes) ->
  exists r', append_one r e = Some r' /\ ring_ok r' (log ++ [e]) /\ maxEvents r' = maxEvents r /\ maxBytes r' = maxBytes r.
Proof using All.
  intros [Hl Hh Hu [old Ho] Hb [He Hm] _ _ Hn] Hg Hw He0. unfold append_one.
  destruct (evict_spec (maxEvents r) (maxBytes r) (events r ++ [e]) (rbytes r + retainedSize e))
    as (gone & kept & Hk & -> & Hk1 & Hk2); [lia..| |].
  { rewrite total_size_app, Hb. unfold total_size at 3. cbn. lia. }
  cbn. eexists. split; [done|]. split; [|done].
  assert (Hlen : len (log ++ [e]) = len log + 1) by (rewrite len_app; reflexivity).
  split; cbn; try done; try lia.
  - rewrite numbered_app. cbn. split_and!; try done; lia.
  - exists (old ++ gone). rewrite Ho, <- !(app_assoc old). by rewrite Hk.
  - apply Forall_app. split; [done|]. by constructor.
Qed.

Lemma append_all_ok r log evs : ring_ok r log -> prepared_ok r evs ->
  exists r', append_all r evs = Some r' /\ ring_ok r' (log ++ evs).
Proof using All.
  revert r log. induction evs as [|e evs IH]; intros r log Hok (Hn & Hu & Hf).
  - exists r. by rewrite app_nil_r.
  - cbn in Hn. destruct Hn as [Hg Hn]. apply Forall_cons in Hf as [[He Hs] Hf].
    pose proof (ok_high _ _ Hok) as Hh. unfold len in Hu. cbn [length] in Hu.
    destruct (append_one_ok r log e) as (r1 & E1 & Hok1 & _ & Hmb); [done|lia|lia|done|].
    assert (Hh1 : highWater r1 = highWater r + 1).
    { rewrite (ok_high _ _ Hok1), len_app, Hh. reflexivity. }
    destruct (IH r1 (log ++ [e]) Hok1) as (r' & E' & Hok').
    + split; [by rewrite Hh1|]. split; [unfold len; lia|]. by rewrite Hmb.
    + exists r'. unfold append_all in *. cbn [fold_left]. cbn [mbind option_bind]. rewrite E1. split; [done|].
      by rewrite <- app_assoc in Hok'.
Qed.

(** A ring with the log of its successful appends. *)
Inductive ring_reach : StateRing -> list StateEvent -> Prop :=
  | rr_new mE mB r : NewStateRingWithLimits mE mB = Ok r -> ring_reach r []
  | rr_append r log evs r' prepared : ring_reach r log -> validateAppendLocked r evs = Ok prepared ->
      Append r evs = Some (None, r') -> ring_reach r' (log ++ prepared)
  | rr_reject r log evs e r' : ring_reach r log -> Append r evs = Some (Some e, r') -> ring_reach r' log.

Lemma ok_hw r log : ring_ok r log -> is_u64 (highWater r).
Proof using All. intros [_ -> Hu _ _ _ _ _ _]. unfold is_u64, len in *. lia. Qed.

Lemma Append_cases r log evs : ring_ok r log ->
  match validateAppendLocked r evs with
  | Ok prepared => exists r', Append r evs = Some (None, r') /\ ring_ok r' (log ++ prepared)
  | Err e => Append r evs = Some (Some e, r)
  end.
Proof using All.
  intros Hok. unfold Append. destruct (validateAppendLocked r evs) as [prepared|e] eqn:E; [|done].
  destruct (validate_spec _ _ _ (ok_hw _ _ Hok) E) as [Hp _].
  destruct (append_all_ok _ _ _ Hok Hp) as (r' & -> & Hok'). by exists r'.
Qed.

Lemma reach_ok r log : ring_reach r log -> ring_ok r log.
Proof using All.
  induction 1 as [mE mB r H|r log evs r' prepared _ IH Hv Ha|r log evs e r' _ IH Ha].
  - unfold NewStateRingWithLimits in H. destruct (Z.leb_spec mE 0); [done|]. destruct (Z.leb_spec mB 0); [done|].
    injection H as <-. split; cbn; try done; try (unfold len; cbn; lia). by exists [].
  - pose proof (Append_cases _ _ evs IH) as Hc. rewrite Hv in Hc. destruct Hc as (r1 & Hr1 & Hok). congruence.
  - pose proof (Append_cases _ _ evs IH) as Hc. destruct (validateAppendLocked r evs).
    + destruct Hc as (r1 & Hr1 & _). congruence.
    + congruence.
Qed.

(** ** Theorems *)

(** C24: The ring is safe and bounded: after any sequence of batches, accepted or
    refused, it holds a suffix of everything appended, numbered contiguously up
    to the high-water mark, within its entry and byte limits and with an exact
    byte count; the next batch never panics, is applied whole or leaves the ring
    untouched, and is accepted exactly when [ValidateAppend] accepts it. *)
Theorem ring_safe r log evs : ring_reach r log ->
  (numbered 1 log /\ highWater r = len log /\ (exists old, log = old ++ events r)) /\
  (len (events r) <= maxEvents r /\ rbytes r = total_size (events r) /\ rbytes r <= maxBytes r) /\
  match ValidateAppend r evs with
  | Some e => Append r evs = Some (Some e, r)
  | None => exists prepared r', Append r evs = Some (None, r') /\ length prepared = length evs /\
              ring_reach r' (log ++ prepared)
  end.
Proof using All.
  intros Hr. pose proof (reach_ok _ _ Hr) as Hok. pose proof (Append_cases _ _ evs Hok) as Hc.
  split; [|split].
  - by destruct Hok.
  - by destruct Hok.
  - unfold ValidateAppend. destruct (validateAppendLocked r evs) as [prepared|e] eqn:E; [|done].
    destruct Hc as (r' & Ha & _). exists prepared, r'. split; [done|].
    split; [by apply (validate_spec _ _ _ (ok_hw _ _ Hok) E)|]. by apply (rr_append r log evs).
Qed.

Lemma numbered_suffix first evs geid : numbered first evs -> first - 1 <= geid ->
  suffix_after geid evs = drop (Z.to_nat (geid - (first - 1))) evs.
Proof using All.
  revert first. induction evs as [|e evs IH]; intros first Hn Hg; [by rewrite drop_nil|].
  cbn in Hn. destruct Hn as [He Hn]. cbn. destruct (Z.ltb_spec geid (GEID e)).
  - by replace (Z.to_nat (geid - (first - 1))) with 0%nat by lia.
  - rewrite (IH (first + 1)) by (done || lia).
    replace (Z.to_nat (geid - (first - 1))) with (S (Z.to_nat (geid - (first + 1 - 1)))) by lia. done.
Qed.

Lemma EventsAfter_ok r log geid : ring_ok r log -> 0 <= geid ->
  EventsAfter r geid =
  if (len log - len (events r) <=? geid) && (geid <=? len log) then (drop (Z.to_nat geid) log, true) else ([], false).
Proof using All.
  intros Hr Hg. destruct Hr as [Hl Hh Hu [old Ho] _ _ _ _ _].
  assert (Hll : len log = len old + len (events r)) by (by rewrite Ho, len_app).
  rewrite Ho in Hl. apply numbered_app in Hl as [_ Hl].
  unfold EventsAfter. rewrite Hh. destruct (Z.ltb_spec (len log) geid) as [Hlt|Hle].
  { rewrite (proj2 (Z.leb_gt geid (len log))) by lia. by rewrite andb_false_r. }
  rewrite (proj2 (Z.leb_le geid (len log))), andb_true_r by lia.
  assert (Hdrop : len old <= geid -> drop (Z.to_nat geid) log = drop (Z.to_nat (geid - len old)) (events r)).
  { intros Hge. rewrite Ho, drop_app_ge by (unfold len in *; lia). f_equal. unfold len in *. lia. }
  destruct (events r) as [|e evs] eqn:E.
  - unfold len in Hll at 3. cbn in Hll. replace (len (@nil StateEvent)) with 0 by done. rewrite Z.sub_0_r.
    destruct (Z.leb_spec (len log) geid).
    + rewrite (proj2 (Z.eqb_eq geid (len log))) by lia. by rewrite Hdrop, drop_nil by lia.
    + by rewrite (proj2 (Z.eqb_neq geid (len log))) by lia.
  - assert (He : u64 (GEID e - 1) = len old).
    { cbn in Hl. destruct Hl as [-> _]. unfold len in *. cbn [length] in Hll. rewrite u64_small; unfold is_u64; lia. }
    rewrite He. replace (len log - len (e :: evs)) with (len old) by lia.
    destruct (Z.ltb_spec geid (len old)).
    + by rewrite (proj2 (Z.leb_gt (len old) geid)) by lia.
    + rewrite (proj2 (Z.leb_le (len old) geid)) by lia. rewrite Hdrop by lia. unfold cloneStateEvents.
      rewrite (numbered_suffix (1 + len old)) by (done || lia). do 3 f_equal. lia.
Qed.

(** Replay is complete or refused: for a checkpoint within the retained window,
    [EventsAfter] returns every event ever appended after it, in order and
    without gaps; outside the window it returns nothing and reports the
    interval as not replayable. *)
Theorem EventsAfter_complete r log geid : ring_reach r log -> 0 <= geid ->
  EventsAfter r geid =
  if (len log - len (events r) <=? geid) && (geid <=? len log) then (drop (Z.to_nat geid) log, true) else ([], false).
Proof using All. intros Hr. apply EventsAfter_ok. by apply reach_ok. Qed.

Definition with_cursor (env : stateEventEnvelope) (c : string) : stateEventEnvelope :=
  mkEnvelope (en_Type env) (en_GEID env) c (en_Class env) (en_Scope env) (en_EventType env) (en_CausationID env)
    (en_ServerTime env) (en_Data env).

(** [encoding/json]: an [omitempty] string member that becomes non-empty adds its
    separator, name and quotes, and a cursor's characters need no escape. *)
Definition cursor_member_size : Prop := forall env c b,
  en_Cursor env = EmptyString -> validStateEventCursor c = true -> json_Marshal env = Some b ->
  exists b', json_Marshal (with_cursor env c) = Some b' /\ len b' = len b + stateEventCursorEnvelopeBytes + slen c.

Lemma normalize_data e n : normalizeStateEvent e = Ok n -> exists data,
  Data n = Some data /\ json_Valid data = true /\
  json_Marshal (stateEventEnvelopeFromEventWithData n (Some data) EmptyString) = Some (encoded n).
Proof using All.
  unfold normalizeStateEvent.
  destruct (_ || _); [done|]. destruct (_ && _); [done|]. destruct (if _ =? _ then _ else _); [|done].
  destruct (_ && _); [done|]. destruct (_ && _); [done|]. destruct (_ <? _); [done|].
  destruct (json_Valid (default json_null (Data e))) eqn:Hv; [|done]. cbn [negb].
  destruct (json_Marshal _) as [b|] eqn:Hm; [|done]. intros [= <-]. exists (default json_null (Data e)).
  split; [done|]. split; [done|]. exact Hm.
Qed.

(** Every retained event is deliverable: the headroom reserved when an event
    enters the ring is enough for any cursor, so the recipient envelope of a
    ring entry always encodes and never exceeds the protocol's event limit. *)
Theorem cursor_headroom r log e c : cursor_member_size -> ring_reach r log -> e ∈ events r ->
  validStateEventCursor c = true ->
  exists b, EncodedWithCursor e c = Ok b /\ len b <= MaxStateEventBytes.
Proof using All.
  intros Hlaw Hr He Hc. destruct (reach_ok _ _ Hr) as [_ _ _ [old Ho] _ _ _ _ Hn]. rewrite Forall_forall in Hn.
  destruct (Hn e) as (e0 & Hnorm & Hsize); [rewrite Ho; set_solver|].
  destruct (normalize_data _ _ Hnorm) as (data & Hd & Hv & Hm).
  destruct (Hlaw (stateEventEnvelopeFromEventWithData e (Some data) EmptyString) c (encoded e) eq_refl Hc Hm) as (b & Hb & Hlen). exists b.
  assert (Hcl : slen c <= MaxStateEventCursorBytes).
  { unfold validStateEventCursor in Hc. destruct (bool_decide _); [done|]. cbn in Hc.
    destruct (Z.ltb_spec MaxStateEventCursorBytes (slen c)); [done|lia]. }
  assert (Hbl : len b <= MaxStateEventBytes) by (unfold maxStateEventRingBytes in Hsize; lia).
  split; [|done]. unfold EncodedWithCursor, EncodedWithDataAndCursor. rewrite Hc, Hd. cbn [negb orb].
  change (default [] (Some data)) with data.
  rewrite Hv. cbn [negb]. change (json_Marshal (stateEventEnvelopeFromEventWithData e (Some data) c) = Some b) in Hb.
  rewrite Hb. by rewrite (proj2 (Z.ltb_ge MaxStateEventBytes (len b))).
Qed.

End Ring.

(** ** Witnesses: a stand-in encoder, and a ring of two entries after three appends *)

Definition demo_Valid (b : bytes) : bool := negb (bool_decide (b = [])).
Definition demo_Marshal (env : stateEventEnvelope) : option bytes :=
  Some (default [] (en_Data env) ++
    (if bool_decide (en_Cursor env = EmptyString) then []
     else replicate 12 34 ++ ((fun a => Z.of_nat (Ascii.nat_of_ascii a)) <$> String.list_ascii_of_string (en_Cursor env)))).

Lemma list_ascii_length s : length (String.list_ascii_of_string s) = String.length s.
Proof. induction s as [|a s IH]; cbn; [done|]. by rewrite IH. Qed.

Lemma demo_cursor_member_size : cursor_member_size demo_Marshal.
Proof.
  intros env c b He Hc [= <-]. eexists. split; [reflexivity|]. cbn [en_Cursor en_Data with_cursor]. rewrite He.
  rewrite (bool_decide_true (EmptyString = EmptyString)) by done. rewrite bool_decide_false.
  - rewrite !len_app. unfold len, slen. rewrite length_fmap, list_ascii_length. cbn [length replicate].
    unfold stateEventCursorEnvelopeBytes. lia.
  - intros ->. by vm_compute in Hc.
Qed.

Definition demo_event (g : Z) : StateEvent :=
  mkEvent g "user.updated" (mkScope "server" 0) 0 1000 (Some [123; 125]) 0 [] 0 0 0 false [] None [].
Definition demo_stored (g : Z) : StateEvent := set_encoded (demo_event g) (Some [123; 125]) [123; 125].

Definition demo_ring : StateRing := mkRing [demo_stored 2; demo_stored 3] 4 3 2 100.

Lemma demo_reach : ring_reach demo_Valid demo_Marshal demo_ring [demo_stored 1; demo_stored 2; demo_stored 3].
Proof.
  apply (rr_append demo_Valid demo_Marshal (mkRing [] 0 0 2 100) [] [demo_event 1; demo_event 2; demo_event 3]).
  - by apply (rr_new _ _ 2 100).
  - by vm_compute.
  - by vm_compute.
Qed.

Lemma ring_safe_witness :
  Append demo_Valid demo_Marshal demo_ring [demo_event 5] = Some (Some ErrStateRingSequence, demo_ring).
Proof.
  destruct (ring_safe demo_Valid demo_Marshal demo_ring _ [demo_event 5] demo_reach) as (_ & _ & H).
  vm_compute in H. by vm_compute.
Defined.

Lemma EventsAfter_complete_witness :
  EventsAfter demo_ring 1 = ([demo_stored 2; demo_stored 3], true) /\ EventsAfter demo_ring 0 = ([], false).
Proof.
  split.
  - rewrite (EventsAfter_complete demo_Valid demo_Marshal demo_ring _ 1 demo_reach) by lia. by vm_compute.
  - rewrite (EventsAfter_complete demo_Valid demo_Marshal demo_ring _ 0 demo_reach) by lia. by vm_compute.
Defined.

Lemma cursor_headroom_witness :
  exists b, EncodedWithCursor demo_Valid demo_Marshal (demo_stored 3) "Zm9v" = Ok b /\ len b <= MaxStateEventBytes.
Proof.
  apply (cursor_headroom demo_Valid demo_Marshal demo_ring _ _ _ demo_cursor_member_size demo_reach).
  - right. by left.
  - by vm_compute.
Defined.

End StateRing.
