(* ===== verification/Visibility.v ===== *)
(** * Visibility: group and channel visibility ([realtime/visibility.go])

    The resolver is a pure function of one immutable [StateVersion]; [None] is
    the nil version.  Ranging over a Go map is [map_to_list], whose order the
    final sort removes. *)

From S2P Require Import Prelude State.
From stdpp Require Import base gmap strings list fin_maps sorting pretty.
From Stdlib Require Import ZArith Lia.
#[local] Open Scope string_scope.
#[local] Open Scope list_scope.
#[local] Open Scope Z_scope.

Module Visibility.
Import State.

Definition knownUser (userID : Z) (v : StateVersion) : bool :=
  bool_decide (is_Some (users (persistent v) !! userID)).

Definition isOwner (userID : Z) (v : StateVersion) : bool :=
  existsb (fun b => bool_decide (rb_RoleKey b = "owner") && bool_decide (sc_Type (rb_Scope b) = "server"))
    (entries (bindings (persistent v)) userID).

Definition hasRoleAtGroup (userID : Z) (roleKey : string) (groupID : Z) (v : StateVersion) : bool :=
  existsb (fun b => bool_decide (rb_RoleKey b = roleKey) &&
      (bool_decide (sc_Type (rb_Scope b) = "server") ||
       (bool_decide (sc_Type (rb_Scope b) = "group") && (sc_ID (rb_Scope b) =? groupID))))
    (entries (bindings (persistent v)) userID).

Definition hasRoleAtChannel (userID : Z) (roleKey : string) (ch : Channel) (v : StateVersion) : bool :=
  existsb (fun b => bool_decide (rb_RoleKey b = roleKey) &&
      (bool_decide (sc_Type (rb_Scope b) = "server") ||
       (bool_decide (sc_Type (rb_Scope b) = "channel") && (sc_ID (rb_Scope b) =? ch_ID ch)) ||
       match ch_GroupID ch with
       | Some g => bool_decide (sc_Type (rb_Scope b) = "group") && (sc_ID (rb_Scope b) =? g)
       | None => false
       end))
    (entries (bindings (persistent v)) userID).

(** An ACL entry matches by its user or by its role. *)
Definition entry_matches (userID : Z) (has_role : string -> bool) (e : AccessEntry) : bool :=
  match ac_UserID e with Some u => u =? userID | None => false end ||
  match ac_RoleKey e with Some k => has_role k | None => false end.

Definition matchesGroupAccess (userID groupID : Z) (v : StateVersion) : bool :=
  existsb (entry_matches userID (fun k => hasRoleAtGroup userID k groupID v))
    (entries (groupAccess (persistent v)) groupID).

Definition matchesChannelAccess (userID : Z) (ch : Channel) (v : StateVersion) : bool :=
  existsb (entry_matches userID (fun k => hasRoleAtChannel userID k ch v))
    (entries (channelAccess (persistent v)) (ch_ID ch)).

Definition CanSeeGroup (userID groupID : Z) (ov : option StateVersion) : bool :=
  match ov with
  | None => false
  | Some v =>
      match groups (persistent v) !! groupID with
      | None => false
      | Some g =>
          if negb (knownUser userID v) then false
          else if isOwner userID v || bool_decide (gr_Visibility g = "public") then true
          else matchesGroupAccess userID groupID v
      end
  end.

Definition CanAccessChannel (userID channelID : Z) (ov : option StateVersion) : bool :=
  match ov with
  | None => false
  | Some v =>
      match channels (persistent v) !! channelID with
      | None => false
      | Some ch =>
          if negb (knownUser userID v) then false
          else if match ch_GroupID ch with Some g => negb (CanSeeGroup userID g ov) | None => false end then false
          else if isOwner userID v || bool_decide (ch_Visibility ch = "public") then true
          else matchesChannelAccess userID ch v
      end
  end.

(** [sort.Slice] by [Scope.Key]. *)
Definition key_le (s t : Scope) : Prop := String.le (Key s) (Key t).
#[global] Instance key_le_dec : RelDecision key_le.
Proof. intros s t. unfold key_le. apply _. Defined.
#[global] Instance key_le_total : Total key_le.
Proof. intros s t. apply String.le_total. Qed.
#[global] Instance key_le_trans : Transitive key_le.
Proof. intros s t w. unfold key_le. apply transitivity. Qed.

Definition VisibleScopeIDs (userID : Z) (ov : option StateVersion) : list Scope :=
  match ov with
  | None => []
  | Some v =>
      if negb (knownUser userID v) then []
      else merge_sort key_le
        ((group_scope <$> filter (fun g => CanSeeGroup userID g ov = true) ((map_to_list (groups (persistent v))).*1)) ++
         (channel_scope <$> filter (fun c => CanAccessChannel userID c ov = true) ((map_to_list (channels (persistent v))).*1)))
  end.

Record VisibilityChange := mkChange { Granted : list Scope; Revoked : list Scope }.

Definition Changed (c : VisibilityChange) : bool :=
  negb (bool_decide (Granted c = [])) || negb (bool_decide (Revoked c = [])).

Definition scopesToSet (l : list Scope) : gset Scope := list_to_set l.

Definition Diff (userID : Z) (before after : option StateVersion) : VisibilityChange :=
  let beforeSet := scopesToSet (VisibleScopeIDs userID before) in
  let afterSet := scopesToSet (VisibleScopeIDs userID after) in
  mkChange (merge_sort key_le (filter (fun s => s ∉ beforeSet) (elements afterSet)))
           (merge_sort key_le (filter (fun s => s ∉ afterSet) (elements beforeSet))).

(** ** Specification *)

(** The scopes whose bindings satisfy a role entry of a resource. *)
Definition role_at (v : StateVersion) (u : Z) (k : string) (ok : Scope -> Prop) : Prop :=
  exists b, b ∈ entries (bindings (persistent v)) u /\ rb_RoleKey b = k /\ ok (rb_Scope b).

(** Access by ACL: an entry names the user, or a role the user holds there. *)
Definition acl_allows (v : StateVersion) (u : Z) (acl : list AccessEntry) (ok : Scope -> Prop) : Prop :=
  exists e, e ∈ acl /\ (ac_UserID e = Some u \/ exists k, ac_RoleKey e = Some k /\ role_at v u k ok).

Definition owner (v : StateVersion) (u : Z) : Prop := role_at v u "owner" (fun s => sc_Type s = "server").

Definition group_visible (v : StateVersion) (u g : Z) : Prop :=
  exists gr, groups (persistent v) !! g = Some gr /\ is_Some (users (persistent v) !! u) /\
  (owner v u \/ gr_Visibility gr = "public" \/
   acl_allows v u (entries (groupAccess (persistent v)) g)
     (fun s => sc_Type s = "server" \/ s = group_scope g)).

Definition channel_visible (v : StateVersion) (u c : Z) : Prop :=
  exists ch, channels (persistent v) !! c = Some ch /\ is_Some (users (persistent v) !! u) /\
  (forall g, ch_GroupID ch = Some g -> group_visible v u g) /\
  (owner v u \/ ch_Visibility ch = "public" \/
   acl_allows v u (entries (channelAccess (persistent v)) (ch_ID ch))
     (fun s => sc_Type s = "server" \/ s = channel_scope (ch_ID ch) \/
       exists g, ch_GroupID ch = Some g /\ s = group_scope g)).

Lemma existsb_elem {A} (f : A -> bool) l : existsb f l = true <-> exists x, x ∈ l /\ f x = true.
Proof. rewrite existsb_exists. by setoid_rewrite list_elem_of_In. Qed.

Lemma scope_is t i s : sc_Type s = t /\ sc_ID s = i <-> s = mkScope t i.
Proof. destruct s; cbn. naive_solver. Qed.

Lemma isOwner_spec u v : isOwner u v = true <-> owner v u.
Proof.
  unfold isOwner, owner, role_at. rewrite existsb_elem. f_equiv. intros b.
  by rewrite andb_true_iff, !bool_decide_eq_true.
Qed.

Lemma hasRoleAtGroup_spec u k g v :
  hasRoleAtGroup u k g v = true <-> role_at v u k (fun s => sc_Type s = "server" \/ s = group_scope g).
Proof.
  unfold hasRoleAtGroup, role_at. rewrite existsb_elem. f_equiv. intros b.
  rewrite andb_true_iff, orb_true_iff, andb_true_iff, !bool_decide_eq_true, Z.eqb_eq.
  unfold group_scope. by rewrite <- scope_is.
Qed.

Lemma hasRoleAtChannel_spec u k ch v : hasRoleAtChannel u k ch v = true <->
  role_at v u k (fun s => sc_Type s = "server" \/ s = channel_scope (ch_ID ch) \/
    exists g, ch_GroupID ch = Some g /\ s = group_scope g).
Proof.
  unfold hasRoleAtChannel, role_at. rewrite existsb_elem. f_equiv. intros b.
  rewrite andb_true_iff, !orb_true_iff, andb_true_iff, !bool_decide_eq_true, Z.eqb_eq.
  unfold group_scope, channel_scope. rewrite scope_is. destruct (ch_GroupID ch) as [g|].
  - rewrite andb_true_iff, bool_decide_eq_true, Z.eqb_eq, scope_is. naive_solver.
  - naive_solver.
Qed.

Lemma acl_spec u v acl has ok : (forall k, has k = true <-> role_at v u k ok) ->
  existsb (entry_matches u has) acl = true <-> acl_allows v u acl ok.
Proof.
  intros Hh. rewrite existsb_elem. unfold acl_allows, entry_matches. f_equiv. intros e.
  rewrite orb_true_iff. destruct (ac_UserID e), (ac_RoleKey e); rewrite ?Z.eqb_eq, ?Hh; naive_solver.
Qed.

Lemma CanSeeGroup_spec u g v : CanSeeGroup u g (Some v) = true <-> group_visible v u g.
Proof.
  unfold CanSeeGroup, group_visible, knownUser. destruct (groups (persistent v) !! g) as [gr|]; [|naive_solver].
  case_bool_decide as Hk; cbn; [|naive_solver].
  pose proof (acl_spec u v (entries (groupAccess (persistent v)) g) _ _ (fun k => hasRoleAtGroup_spec u k g v)) as Ha.
  pose proof (isOwner_spec u v) as Ho. unfold matchesGroupAccess.
  destruct (isOwner u v) eqn:E; cbn; [naive_solver|]. case_bool_decide; [naive_solver|]. rewrite Ha. naive_solver.
Qed.

Lemma CanAccessChannel_spec u c v : CanAccessChannel u c (Some v) = true <-> channel_visible v u c.
Proof.
  unfold CanAccessChannel, channel_visible, knownUser. destruct (channels (persistent v) !! c) as [ch|]; [|naive_solver].
  case_bool_decide as Hk; cbn [negb]; [|naive_solver].
  assert (Hg : match ch_GroupID ch with Some g => negb (CanSeeGroup u g (Some v)) | None => false end = false <->
    forall g, ch_GroupID ch = Some g -> group_visible v u g).
  { destruct (ch_GroupID ch) as [g|]; [|naive_solver]. rewrite negb_false_iff, CanSeeGroup_spec. naive_solver. }
  destruct (match ch_GroupID ch with Some g => negb (CanSeeGroup u g (Some v)) | None => false end); [naive_solver|].
  pose proof (acl_spec u v (entries (channelAccess (persistent v)) (ch_ID ch)) _ _ (fun k => hasRoleAtChannel_spec u k ch v)) as Ha.
  pose proof (isOwner_spec u v) as Ho. unfold matchesChannelAccess.
  destruct (isOwner u v) eqn:E; cbn; [naive_solver|]. case_bool_decide; [naive_solver|]. rewrite Ha. naive_solver.
Qed.

(** ** Visible scopes *)

Definition resource (s : Scope) : Prop := sc_Type s = "group" \/ sc_Type s = "channel".

Lemma append_inv_l s t1 t2 : s +:+ t1 = s +:+ t2 -> t1 = t2.
Proof. induction s as [|a s IH]; cbn; [done|]. intros [= H]. by apply IH. Qed.

Lemma Key_inj s t : resource s -> resource t -> Key s = Key t -> s = t.
Proof.
  destruct s as [ts i], t as [tt j]. unfold resource, Key. cbn.
  intros [->| ->] [->| ->]; cbn; intros H; try discriminate H.
  - apply (append_inv_l "group:") in H. by apply (inj pretty) in H as ->.
  - apply (append_inv_l "channel:") in H. by apply (inj pretty) in H as ->.
Qed.

(** Sorting by key does not depend on the order of the map iteration. *)
Lemma key_sorted_unique l1 l2 : StronglySorted key_le l1 -> StronglySorted key_le l2 -> l1 ≡ₚ l2 ->
  Forall resource l1 -> l1 = l2.
Proof.
  intros H1. revert l2. induction H1 as [|x l1 H1 IH Hx]; intros l2 H2 Hp Hr.
  - by apply Permutation_nil_l in Hp.
  - destruct H2 as [|y l2 H2 Hy]; [by apply Permutation_nil_r in Hp|].
    pose proof Hr as Hr'. rewrite Hp in Hr'. apply Forall_cons in Hr as [Hrx Hr]. apply Forall_cons in Hr' as [Hry _].
    rewrite Forall_forall in Hx, Hy.
    assert (x = y) as <-.
    { apply Key_inj; [done..|].
      assert (Hyx : y ∈ x :: l1) by (rewrite Hp; by left). assert (Hxy : x ∈ y :: l2) by (rewrite <- Hp; by left).
      apply elem_of_cons in Hyx as [->|Hyx]; [done|]. apply elem_of_cons in Hxy as [->|Hxy]; [done|].
      apply (anti_symm String.le); [by apply Hx|by apply Hy]. }
    f_equal. apply IH; [done|by apply Permutation_cons_inv in Hp|done].
Qed.

Lemma elem_of_keys {A} (m : gmap Z A) k : k ∈ (map_to_list m).*1 <-> is_Some (m !! k).
Proof.
  rewrite list_elem_of_fmap. split.
  - intros ([k' a] & -> & Hin%elem_of_map_to_list). by exists a.
  - intros [a Ha]. exists (k, a). split; [done|]. by apply elem_of_map_to_list.
Qed.

Lemma elem_of_visible u v s : s ∈ VisibleScopeIDs u (Some v) <->
  (exists g, s = group_scope g /\ group_visible v u g) \/ (exists c, s = channel_scope c /\ channel_visible v u c).
Proof.
  unfold VisibleScopeIDs. destruct (knownUser u v) eqn:Hk; cbn [negb].
  - rewrite merge_sort_Permutation, elem_of_app, !list_elem_of_fmap. f_equiv; f_equiv; intros x;
      rewrite list_elem_of_filter, elem_of_keys, ?CanSeeGroup_spec, ?CanAccessChannel_spec.
    + split; [naive_solver|]. intros [-> Hg]. split; [done|]. split; [done|]. destruct Hg as (gr & -> & _). done.
    + split; [naive_solver|]. intros [-> Hc]. split; [done|]. split; [done|]. destruct Hc as (ch & -> & _). done.
  - unfold knownUser in Hk. apply bool_decide_eq_false in Hk. rewrite elem_of_nil. split; [done|].
    intros [(g & _ & gr & _ & H & _)|(c & _ & ch & _ & H & _)]; done.
Qed.

Lemma visible_resources u ov : Forall resource (VisibleScopeIDs u ov).
Proof.
  destruct ov as [v|]; [|constructor]. apply Forall_forall.
  intros s [(g & -> & _)|(c & -> & _)]%elem_of_visible; [by left|by right].
Qed.

Lemma visible_sorted u ov : StronglySorted key_le (VisibleScopeIDs u ov).
Proof.
  unfold VisibleScopeIDs. destruct ov as [v|]; [|constructor]. destruct (negb _); [constructor|].
  apply StronglySorted_merge_sort; apply _.
Qed.

Lemma visible_NoDup u ov : NoDup (VisibleScopeIDs u ov).
Proof.
  unfold VisibleScopeIDs. destruct ov as [v|]; [|constructor]. destruct (negb _); [constructor|].
  rewrite merge_sort_Permutation. apply NoDup_app. split_and!.
  - apply NoDup_fmap_2_strong; [by intros ?? _ _ [=]|]. apply NoDup_filter, NoDup_fst_map_to_list.
  - intros s (g & -> & _)%list_elem_of_fmap (c & Hc & _)%list_elem_of_fmap. done.
  - apply NoDup_fmap_2_strong; [by intros ?? _ _ [=]|]. apply NoDup_filter, NoDup_fst_map_to_list.
Qed.

(** ** Theorems *)

(** Visibility is exactly its access rule: a known user sees a group iff owner, the
    group is public, or an ACL entry names them or a role they hold on the
    server or that group; a channel additionally requires its parent group to
    be visible, even to a user its own ACL admits. *)
Theorem visibility_rule v u :
  (forall g, CanSeeGroup u g (Some v) = true <-> group_visible v u g) /\
  (forall c, CanAccessChannel u c (Some v) = true <-> channel_visible v u c) /\
  (forall c ch g, channels (persistent v) !! c = Some ch -> ch_GroupID ch = Some g ->
     CanSeeGroup u g (Some v) = false -> CanAccessChannel u c (Some v) = false).
Proof.
  split; [intros; apply CanSeeGroup_spec|]. split; [intros; apply CanAccessChannel_spec|].
  intros c ch g Hc Hg Hs. apply not_true_iff_false. rewrite CanAccessChannel_spec.
  intros (ch' & Hc' & _ & Hgr & _). rewrite Hc in Hc'. injection Hc' as <-.
  apply Hgr, CanSeeGroup_spec in Hg. congruence.
Qed.

(** The visible-scope list of a user is the set of visible groups and channels,
    each once and in key order, and it is the only such list: the result does
    not depend on the iteration order of the maps it is computed from. *)
Theorem visible_scopes_exact v u :
  (forall s, s ∈ VisibleScopeIDs u (Some v) <->
     (exists g, s = group_scope g /\ group_visible v u g) \/ (exists c, s = channel_scope c /\ channel_visible v u c)) /\
  NoDup (VisibleScopeIDs u (Some v)) /\ StronglySorted key_le (VisibleScopeIDs u (Some v)) /\
  (forall l, StronglySorted key_le l -> l ≡ₚ VisibleScopeIDs u (Some v) -> l = VisibleScopeIDs u (Some v)).
Proof.
  split; [intros; apply elem_of_visible|]. split; [apply visible_NoDup|]. split; [apply visible_sorted|].
  intros l Hl Hp. symmetry. apply key_sorted_unique; [apply visible_sorted|done|by symmetry|apply visible_resources].
Qed.

(** A visibility diff is exact: granted scopes are those visible only afterwards,
    revoked scopes those visible only before, and it reports a change iff the
    two visible-scope lists differ, so the visibility epoch advances exactly
    when what the user can see changes. *)
Theorem Diff_exact u before after :
  (forall s, s ∈ Granted (Diff u before after) <-> s ∈ VisibleScopeIDs u after /\ s ∉ VisibleScopeIDs u before) /\
  (forall s, s ∈ Revoked (Diff u before after) <-> s ∈ VisibleScopeIDs u before /\ s ∉ VisibleScopeIDs u after) /\
  (Changed (Diff u before after) = false <-> VisibleScopeIDs u before = VisibleScopeIDs u after).
Proof.
  assert (HG : forall s, s ∈ Granted (Diff u before after) <-> s ∈ VisibleScopeIDs u after /\ s ∉ VisibleScopeIDs u before).
  { intros s. unfold Diff, scopesToSet. cbn [Granted].
    rewrite merge_sort_Permutation, list_elem_of_filter, elem_of_elements, !elem_of_list_to_set. tauto. }
  assert (HR : forall s, s ∈ Revoked (Diff u before after) <-> s ∈ VisibleScopeIDs u before /\ s ∉ VisibleScopeIDs u after).
  { intros s. unfold Diff, scopesToSet. cbn [Revoked].
    rewrite merge_sort_Permutation, list_elem_of_filter, elem_of_elements, !elem_of_list_to_set. tauto. }
  split; [exact HG|]. split; [exact HR|]. unfold Changed.
  rewrite orb_false_iff, !negb_false_iff, !bool_decide_eq_true. split.
  - intros [EG ER]. apply key_sorted_unique; [apply visible_sorted..| |apply visible_resources].
    apply NoDup_Permutation; [apply visible_NoDup..|]. intros s. specialize (HG s). specialize (HR s).
    rewrite EG, elem_of_nil in HG. rewrite ER, elem_of_nil in HR.
    destruct (decide (s ∈ VisibleScopeIDs u before)), (decide (s ∈ VisibleScopeIDs u after)); tauto.
  - intros E. split; apply elem_of_nil_inv; intros s; rewrite ?HG, ?HR, E; tauto.
Qed.

End Visibility.
