(* ===== verification/Rbac.v ===== *)
(** * Rbac: permissions and resource-scoped authorization

    [rbac/rbac.go] and [rbac/permissions.go] (module [Server]: deny-by-default
    checks of server bindings against a permission store) and
    [rbac/scope/authorizer.go] (module [ScopeAuth]: decisions at server, group
    and channel scope over one immutable [StateVersion]).  The permission store
    and the JSON decoder of a configuration row are parameters. *)

From S2P Require Import Prelude State Visibility.
From stdpp Require Import base gmap strings list fin_maps sorting.
From Stdlib Require Import ZArith Lia.
#[local] Open Scope string_scope.
#[local] Open Scope list_scope.
#[local] Open Scope Z_scope.

(** ** [rbac/permissions.go] *)

Module Permissions.

Definition Wildcard : string := "*".

Definition PermGroupManage : string := "group.manage".
Definition PermChannelCreate : string := "channel.create".
Definition PermChannelCreateTemp : string := "channel.create_temporary".
Definition PermChannelManage : string := "channel.manage".
Definition PermChannelInvite : string := "channel.invite".
Definition PermChannelAnnounce : string := "channel.announce".
Definition PermMemberMute : string := "member.mute".

Definition AllPermissions : list string :=
  ["server.manage"; "server.metrics"; "role.manage"; "user:read"; "user:update"; "user:delete"; "user:kick";
   "invite.manage"; "group.create"; PermGroupManage; PermChannelCreate; PermChannelCreateTemp;
   PermChannelManage; PermChannelInvite; PermChannelAnnounce; PermMemberMute].

Definition IsKnown (p : string) : bool := bool_decide (p ∈ AllPermissions).

Definition group_permissions : list string :=
  [PermGroupManage; PermChannelCreate; PermChannelCreateTemp; PermChannelManage; PermChannelInvite;
   PermChannelAnnounce; PermMemberMute].
Definition channel_permissions : list string :=
  [PermChannelManage; PermChannelInvite; PermChannelAnnounce; PermMemberMute].

Definition AllowedAtScope (scopeType permission : string) : bool :=
  if bool_decide (scopeType = "server") then IsKnown permission
  else if bool_decide (scopeType = "group") then bool_decide (permission ∈ group_permissions)
  else if bool_decide (scopeType = "channel") then bool_decide (permission ∈ channel_permissions)
  else false.

(** [slices.Sort] of permission names. *)
Definition sort_permissions (l : list string) : list string := merge_sort String.le l.

(** The [seen]-guarded append of a permission: the set and the list grow together. *)
Definition add_permission (acc : gset string * list string) (p : string) : gset string * list string :=
  if bool_decide (p ∈ acc.1) then acc else ({[p]} ∪ acc.1, acc.2 ++ [p]).

Lemma add_permissions_elem ps acc : (forall p, p ∈ acc.1 <-> p ∈ acc.2) ->
  let acc' := fold_left add_permission ps acc in
  (forall p, p ∈ acc'.1 <-> p ∈ acc'.2) /\ (forall p, p ∈ acc'.2 <-> p ∈ acc.2 \/ p ∈ ps).
Proof.
  revert acc. induction ps as [|q ps IH]; intros acc Hacc; cbn; [split; [done|set_solver]|].
  assert (H1 : (forall p, p ∈ (add_permission acc q).1 <-> p ∈ (add_permission acc q).2) /\
    (forall p, p ∈ (add_permission acc q).2 <-> p ∈ acc.2 \/ p = q)).
  { unfold add_permission. case_bool_decide as Hq; cbn; [split; [done|]|split; set_solver].
    intros p. split; [by left|]. intros [?| ->]; [done|by apply Hacc]. }
  destruct H1 as [H1 H2]. destruct (IH _ H1) as [H3 H4]. split; [done|].
  intros p. rewrite H4, H2. set_solver.
Qed.

End Permissions.

(** ** [rbac/rbac.go] *)

Module Server.
Import Permissions.

Record RoleBinding := mkRB { RoleKey : string; ScopeType : string; GroupID : option Z; ChannelID : option Z }.
Record Principal := mkPrincipal { UserID : Z; PBindings : list RoleBinding }.
Record Decision := mkDecision { Allow : bool; Reason : string }.

Section Store.
(** [PermissionStore.PermissionsForRole]: [Err] its error, [None] an unknown role. *)
Context {E : Type} (PermissionsForRole : string -> result (option (list string)) E).

Definition grant_binding (acc : gset string * list string) (b : RoleBinding) : result (gset string * list string) E :=
  if negb (bool_decide (ScopeType b = "server")) then Ok acc
  else granted <-? PermissionsForRole (RoleKey b) ;;
       match granted with
       | None => Ok acc
       | Some ps => Ok (fold_left add_permission ps acc)
       end.

Definition effectivePermissions (p : Principal) : result (list string) E :=
  acc <-? foldM grant_binding (∅, []) (PBindings p) ;; Ok (sort_permissions acc.2).

Definition Check (p : Principal) (perm : string) : Decision :=
  match effectivePermissions p with
  | Err _ => mkDecision false "denied: permission lookup failed"
  | Ok permissions =>
      if existsb (fun g => bool_decide (g = Wildcard) || bool_decide (g = perm)) permissions
      then mkDecision true "allowed"
      else mkDecision false ("denied: missing permission " +:+ perm)
  end.

Lemma grant_spec bs acc : foldM grant_binding (∅, []) bs = Ok acc ->
  (forall p, p ∈ acc.1 <-> p ∈ acc.2) /\
  (forall p, p ∈ acc.2 <-> exists b ps, b ∈ bs /\ ScopeType b = "server" /\
     PermissionsForRole (RoleKey b) = Ok (Some ps) /\ p ∈ ps).
Proof.
  apply (foldM_ind (fun done acc => (forall p, p ∈ acc.1 <-> p ∈ acc.2) /\
    (forall p, p ∈ acc.2 <-> exists b ps, b ∈ done /\ ScopeType b = "server" /\
       PermissionsForRole (RoleKey b) = Ok (Some ps) /\ p ∈ ps))).
  - cbn. set_solver.
  - intros done b a a' [H1 H2] Hs. unfold grant_binding in Hs. setoid_rewrite elem_of_app.
    setoid_rewrite list_elem_of_singleton. case_bool_decide as Ht; cbn in Hs.
    + destruct (PermissionsForRole (RoleKey b)) as [[ps|]|] eqn:Ep; cbn in Hs; [| |done]; injection Hs as <-.
      * destruct (add_permissions_elem ps a H1) as [H3 H4]. split; [done|].
        intros p. rewrite H4, H2. split.
        -- intros [(b' & ps' & Hin & Hrest)|Hp]; [exists b', ps'|exists b, ps]; tauto.
        -- intros (b' & ps' & [Hin| ->] & Hst & Hr & Hp); [left; by exists b', ps'|right; congruence].
      * split; [done|]. intros p. rewrite H2. split.
        -- intros (b' & ps' & Hin & Hrest). exists b', ps'. tauto.
        -- intros (b' & ps' & [Hin| ->] & Hst & Hr & Hp); [by exists b', ps'|congruence].
    + injection Hs as <-. split; [done|]. intros p. rewrite H2. split.
      * intros (b' & ps' & Hin & Hrest). exists b', ps'. tauto.
      * intros (b' & ps' & [Hin| ->] & Hst & Hr & Hp); [by exists b', ps'|congruence].
Qed.

Lemma grant_error bs acc : (exists e, foldM grant_binding acc bs = Err e) <->
  exists b e, b ∈ bs /\ ScopeType b = "server" /\ PermissionsForRole (RoleKey b) = Err e.
Proof.
  revert acc. induction bs as [|b bs IH]; intros a.
  - split; [by intros [e [=]]|]. by intros (b & e & Hb%elem_of_nil & _).
  - cbn. destruct (grant_binding a b) as [a'|e0] eqn:Eg; cbn.
    + rewrite IH. split; intros (b' & e & Hb & Hs & He); exists b', e; (split; [|done]); [by right|].
      apply elem_of_cons in Hb as [->|Hb]; [|done]. unfold grant_binding in Eg.
      by rewrite bool_decide_true, He in Eg by done.
    + split; [intros _|intros _; by exists e0]. unfold grant_binding in Eg. case_bool_decide as Ht; [|done].
      cbn in Eg. exists b. destruct (PermissionsForRole (RoleKey b)) as [[ps|]|e]; try done. exists e. by split; [left|].
Qed.

(** Server authorization denies by default: a check allows iff every lookup for a
    server binding succeeded and one of them granted the permission or the
    wildcard; group and channel bindings, unknown roles and store failures
    never allow. *)
Theorem Check_exact p perm : Allow (Check p perm) = true <->
  (forall b e, b ∈ PBindings p -> ScopeType b = "server" -> PermissionsForRole (RoleKey b) <> Err e) /\
  (exists b ps, b ∈ PBindings p /\ ScopeType b = "server" /\ PermissionsForRole (RoleKey b) = Ok (Some ps) /\
     (Wildcard ∈ ps \/ perm ∈ ps)).
Proof.
  unfold Check, effectivePermissions. destruct (foldM grant_binding (∅, []) (PBindings p)) as [acc|e] eqn:Ef; cbn.
  - destruct (grant_spec _ _ Ef) as [_ H2]. destruct (existsb _ _) eqn:Ex; cbn.
    + split; [|done]. intros _. split.
      * intros b e Hb Hs He. destruct (proj2 (grant_error (PBindings p) (∅, []))) as [e' He']; [by exists b, e|congruence].
      * apply Visibility.existsb_elem in Ex as (q & Hq & Hor). unfold sort_permissions in Hq.
        rewrite merge_sort_Permutation, H2 in Hq. destruct Hq as (b & ps & ? & ? & ? & ?). exists b, ps.
        rewrite orb_true_iff, !bool_decide_eq_true in Hor. naive_solver.
    + split; [done|]. intros [_ (b & ps & Hb & Hs & Hp & Hor)]. apply not_true_iff_false in Ex. destruct Ex.
      apply Visibility.existsb_elem. unfold sort_permissions.
      destruct Hor as [Hw|Hq]; [exists Wildcard|exists perm]; rewrite merge_sort_Permutation, H2; split;
        try (by exists b, ps); rewrite orb_true_iff, !bool_decide_eq_true; auto.
  - split; [done|]. intros [Hno _]. destruct (proj1 (grant_error (PBindings p) (∅, []))) as (b & e' & Hb & Hs & He); [by exists e|].
    by destruct (Hno b e').
Qed.

End Store.
End Server.

(** ** [rbac/scope/authorizer.go] *)

Module ScopeAuth.
Import State Visibility Permissions.

Inductive AuthError := ErrInvalidState.

Record Authority := mkAuthority { Owner : bool; Rank : Z; Perms : list string }.
Record Decision := mkDecision { Allow : bool; Visible : bool; DAuthority : Authority; Reason : string }.

(** The zero [Authority] value. *)
Definition no_authority : Authority := mkAuthority false 0 [].

Definition targetExists (target : Scope) (v : StateVersion) : bool :=
  if bool_decide (sc_Type target = "server") then true
  else if bool_decide (sc_Type target = "group") then bool_decide (is_Some (getGroup v (sc_ID target)))
  else bool_decide (is_Some (getChannel v (sc_ID target))).

Definition visibleAt (userID : Z) (target : Scope) (v : StateVersion) : bool :=
  if bool_decide (sc_Type target = "server") then true
  else if bool_decide (sc_Type target = "group") then CanSeeGroup userID (sc_ID target) (Some v)
  else CanAccessChannel userID (sc_ID target) (Some v).

Definition bindingApplies (b : RoleBinding) (target : Scope) (v : StateVersion) : bool :=
  let s := rb_Scope b in
  if bool_decide (sc_Type s = "server") then true
  else if bool_decide (sc_Type target = "server") then false
  else if bool_decide (sc_Type target = "group") then bool_decide (sc_Type s = "group") && (sc_ID s =? sc_ID target)
  else match getChannel v (sc_ID target) with
       | None => false
       | Some ch =>
           if bool_decide (sc_Type s = "channel") then sc_ID s =? sc_ID target
           else bool_decide (sc_Type s = "group") &&
                match ch_GroupID ch with Some g => sc_ID s =? g | None => false end
       end.

Definition root_config (v : StateVersion) : result PermissionConfig AuthError :=
  match getConfig v server_scope with Some c => Ok c | None => Err ErrInvalidState end.

Definition effectiveConfig (target : Scope) (v : StateVersion) : result PermissionConfig AuthError :=
  match getConfig v target with
  | Some c => Ok c
  | None =>
      if bool_decide (sc_Type target = "channel") then
        match getChannel v (sc_ID target) with
        | None => Err ErrInvalidState
        | Some ch =>
            match ch_GroupID ch with
            | Some g => match getConfig v (group_scope g) with Some c => Ok c | None => root_config v end
            | None => root_config v
            end
        end
      else root_config v
  end.

Section Json.
(** [json.Unmarshal] into a [map[string][]string]: [None] for an error or a nil map. *)
Context (Unmarshal : string -> option (gmap string (list string))).

(** The grants of one role that are meaningful at the target. *)
Definition usable (target : Scope) (p : string) : bool := IsKnown p && AllowedAtScope (sc_Type target) p.

(** The loop body of [Authority] for one binding; the accumulator is the
    authority so far (its permissions unsorted) and the [seen] set. *)
Definition authority_step (target : Scope) (v : StateVersion) (grants : gmap string (list string))
    (acc : Authority * gset string) (b : RoleBinding) : result (Authority * gset string) AuthError :=
  let '(a, seen) := acc in
  if negb (bindingApplies b target v) then Ok acc
  else match getRole v (rb_RoleKey b) with
       | None => Err ErrInvalidState
       | Some role =>
           let rank := if Rank a <? ro_Rank role then ro_Rank role else Rank a in
           if bool_decide (rb_RoleKey b = "owner") && bool_decide (rb_Scope b = server_scope)
           then Ok (mkAuthority true rank (Perms a), seen)
           else let '(seen', perms) :=
                  fold_left add_permission (List.filter (usable target) (default [] (grants !! rb_RoleKey b))) (seen, Perms a) in
                Ok (mkAuthority (Owner a) rank perms, seen')
       end.

Definition AuthorityOf (userID : Z) (target : Scope) (ov : option StateVersion) : result Authority AuthError :=
  match ov with
  | None => Err ErrInvalidState
  | Some v =>
      if (userID <=? 0) || negb (Valid target) then Err ErrInvalidState
      else if bool_decide (getUser v userID = None) || negb (targetExists target v) then Ok (mkAuthority false (-1) [])
      else
        config <-? effectiveConfig target v ;;
        match Unmarshal (pc_Config config) with
        | None => Err ErrInvalidState
        | Some grants =>
            acc <-? foldM (authority_step target v grants) (mkAuthority false (-1) [], ∅) (Bindings v userID) ;;
            Ok (mkAuthority (Owner acc.1) (Rank acc.1) (sort_permissions (Perms acc.1)))
        end
  end.

Definition Decide (userID : Z) (target : Scope) (permission : string) (ov : option StateVersion)
    : result Decision AuthError :=
  match ov with
  | None => Ok (mkDecision false false no_authority "invalid authorization target")
  | Some v =>
      if (userID <=? 0) || negb (Valid target) || negb (AllowedAtScope (sc_Type target) permission)
      then Ok (mkDecision false false no_authority "invalid authorization target")
      else if bool_decide (getUser v userID = None) then Ok (mkDecision false false no_authority "unknown user")
      else if negb (targetExists target v) then Ok (mkDecision false false no_authority "target not found")
      else
        a <-? AuthorityOf userID target ov ;;
        if negb (Owner a || visibleAt userID target v)
        then Ok (mkDecision false false a "target not visible")
        else if Owner a || bool_decide (permission ∈ Perms a)
        then Ok (mkDecision true true a "allowed")
        else Ok (mkDecision false true a ("missing permission " +:+ permission))
  end.

(** ** Specification *)

(** The scopes whose bindings count at a target: the server, the target itself
    and the parent group of a channel. *)
Definition covers (v : StateVersion) (target s : Scope) : Prop :=
  sc_Type s = "server" \/ (sc_Type target <> "server" /\ s = target) \/
  (sc_Type target = "channel" /\ exists ch g, getChannel v (sc_ID target) = Some ch /\ ch_GroupID ch = Some g /\
     s = group_scope g).

Lemma Valid_types s : Valid s = true ->
  s = server_scope \/ (exists i, s = group_scope i /\ 0 < i) \/ (exists i, s = channel_scope i /\ 0 < i).
Proof.
  destruct s as [t i]. unfold Valid. cbn. case_bool_decide as Ht; [rewrite Z.eqb_eq; intros ->; by left; subst|].
  rewrite andb_true_iff, bool_decide_eq_true, Z.ltb_lt. intros [[->| ->] Hi]; right; [left|right]; by exists i.
Qed.

(** Evaluate the scope-type comparisons of a concrete target. *)
Ltac scope_types :=
  unfold server_scope, group_scope, channel_scope in *; cbn [sc_Type sc_ID] in *;
  change (bool_decide ("server" = "server")) with true in *; change (bool_decide ("group" = "server")) with false in *;
  change (bool_decide ("group" = "group")) with true in *; change (bool_decide ("channel" = "server")) with false in *;
  change (bool_decide ("channel" = "group")) with false in *; cbn iota in *.

Lemma bindingApplies_spec b target v : Valid target = true -> targetExists target v = true ->
  bindingApplies b target v = true <-> covers v target (rb_Scope b).
Proof.
  intros Hv He. unfold bindingApplies, covers. destruct (rb_Scope b) as [t i]. cbn [sc_Type sc_ID].
  case_bool_decide as Hs; [naive_solver|].
  apply Valid_types in Hv as [->|[(j & -> & Hj)|(j & -> & Hj)]]; unfold targetExists in *; scope_types.
  - naive_solver.
  - rewrite andb_true_iff, bool_decide_eq_true, Z.eqb_eq. naive_solver.
  - apply bool_decide_eq_true in He as [ch Hch]. rewrite Hch.
    case_bool_decide as Ht; [rewrite Z.eqb_eq; naive_solver|].
    rewrite andb_true_iff, bool_decide_eq_true. destruct (ch_GroupID ch) eqn:Eg; rewrite ?Z.eqb_eq; naive_solver.
Qed.

(** An applicable binding that is not the ownership of the server grants [p]. *)
Definition grants_at (v : StateVersion) (target : Scope) (grants : gmap string (list string)) (p : string)
    (b : RoleBinding) : Prop :=
  bindingApplies b target v = true /\ ~ (rb_RoleKey b = "owner" /\ rb_Scope b = server_scope) /\
  p ∈ default [] (grants !! rb_RoleKey b) /\ usable target p = true.

Definition owns (v : StateVersion) (target : Scope) (b : RoleBinding) : Prop :=
  bindingApplies b target v = true /\ rb_RoleKey b = "owner" /\ rb_Scope b = server_scope.

(** The loop's invariant over the bindings consumed so far. *)
Record loop_ok (v : StateVersion) (target : Scope) (grants : gmap string (list string))
    (bs : list RoleBinding) (acc : Authority * gset string) : Prop := {
  lo_seen : forall p, p ∈ acc.2 <-> p ∈ Perms acc.1;
  lo_owner : Owner acc.1 = true <-> exists b, b ∈ bs /\ owns v target b;
  lo_perms : forall p, p ∈ Perms acc.1 <-> exists b, b ∈ bs /\ grants_at v target grants p b
}.

Lemma exists_snoc {A} (P : A -> Prop) l x : (exists y, y ∈ l ++ [x] /\ P y) <-> (exists y, y ∈ l /\ P y) \/ P x.
Proof.
  setoid_rewrite elem_of_app. setoid_rewrite list_elem_of_singleton. split.
  - intros (y & [Hy| ->] & HP); [left; by exists y|by right].
  - intros [(y & Hy & HP)|HP]; [exists y; tauto|exists x; tauto].
Qed.

Lemma authority_step_ok v target grants done b acc acc' : loop_ok v target grants done acc ->
  authority_step target v grants acc b = Ok acc' -> loop_ok v target grants (done ++ [b]) acc'.
Proof.
  destruct acc as [a seen]. intros [Hs Ho Hp] Hst. cbn in Hs, Ho, Hp. unfold authority_step in Hst.
  destruct (bindingApplies b target v) eqn:Ea; cbn [negb] in Hst.
  - destruct (getRole v (rb_RoleKey b)) as [role|]; [|done].
    destruct (bool_decide (rb_RoleKey b = "owner") && bool_decide (rb_Scope b = server_scope)) eqn:Eo.
    + apply andb_true_iff in Eo as [E1%bool_decide_eq_true E2%bool_decide_eq_true]. injection Hst as <-.
      split; cbn; [done| |].
      * rewrite exists_snoc. split; [|done]. intros _. right. done.
      * intros p. rewrite exists_snoc, Hp. unfold grants_at at 3. tauto.
    + assert (Hno : ~ (rb_RoleKey b = "owner" /\ rb_Scope b = server_scope)).
      { intros [E1 E2]. by rewrite !bool_decide_true in Eo by done. }
      destruct (add_permissions_elem (List.filter (usable target) (default [] (grants !! rb_RoleKey b))) (seen, Perms a) Hs) as [H3 H4].
      destruct (fold_left add_permission _ _) as [seen' perms]. cbn in H3, H4. injection Hst as <-.
      split; cbn; [done| |].
      * rewrite exists_snoc, Ho. unfold owns at 3. tauto.
      * intros p. rewrite exists_snoc, H4, Hp, list_elem_of_In, filter_In, <- list_elem_of_In.
        unfold grants_at at 3. tauto.
  - injection Hst as <-. split; cbn; [done| |].
    + rewrite exists_snoc, Ho. unfold owns at 3. rewrite Ea. naive_solver.
    + intros p. rewrite exists_snoc, Hp. unfold grants_at at 3. rewrite Ea. naive_solver.
Qed.

Lemma loop_spec v target grants bs acc :
  foldM (authority_step target v grants) (mkAuthority false (-1) [], ∅) bs = Ok acc -> loop_ok v target grants bs acc.
Proof.
  apply (foldM_ind (loop_ok v target grants)).
  - split; cbn [fst snd Owner Perms].
    + intros p. by rewrite elem_of_empty, elem_of_nil.
    + split; [done|]. by intros (b & Hb%elem_of_nil & _).
    + intros p. rewrite elem_of_nil. split; [done|]. by intros (b & Hb%elem_of_nil & _).
  - intros done b a a' H Hst. by apply (authority_step_ok _ _ _ _ _ a).
Qed.

Definition target_visible (v : StateVersion) (u : Z) (target : Scope) : Prop :=
  target = server_scope \/ (exists g, target = group_scope g /\ group_visible v u g) \/
  (exists c, target = channel_scope c /\ channel_visible v u c).

Lemma visibleAt_spec u target v : Valid target = true -> visibleAt u target v = true <-> target_visible v u target.
Proof.
  intros [->|[(j & -> & Hj)|(j & -> & Hj)]]%Valid_types; unfold visibleAt, target_visible; scope_types.
  - split; [by left|done].
  - rewrite CanSeeGroup_spec. split; [intros; right; left; by exists j|].
    intros [?|[(g & [= <-] & ?)|(c & ? & _)]]; done.
  - rewrite CanAccessChannel_spec. split; [intros; right; right; by exists j|].
    intros [?|[(g & ? & _)|(c & [= <-] & ?)]]; done.
Qed.

(** A target that is there. *)
Definition target_known (v : StateVersion) (target : Scope) : Prop :=
  target = server_scope \/ (exists g, target = group_scope g /\ is_Some (groups (persistent v) !! g)) \/
  (exists c, target = channel_scope c /\ is_Some (channels (persistent v) !! c)).

Lemma targetExists_spec target v : Valid target = true -> targetExists target v = true <-> target_known v target.
Proof.
  intros [->|[(j & -> & Hj)|(j & -> & Hj)]]%Valid_types; unfold targetExists, target_known; scope_types.
  - split; [by left|done].
  - rewrite bool_decide_eq_true. split; [intros; right; left; by exists j|].
    intros [?|[(g & [= <-] & ?)|(c & ? & _)]]; done.
  - rewrite bool_decide_eq_true. split; [intros; right; right; by exists j|].
    intros [?|[(g & ? & _)|(c & [= <-] & ?)]]; done.
Qed.

(** The configuration that governs a target: its own; that of its group for a
    channel without one; the server's when there is neither. *)
Inductive governs (v : StateVersion) (target : Scope) : PermissionConfig -> Prop :=
  | governs_own c : getConfig v target = Some c -> governs v target c
  | governs_group ch g c : sc_Type target = "channel" -> getConfig v target = None ->
      getChannel v (sc_ID target) = Some ch -> ch_GroupID ch = Some g -> getConfig v (group_scope g) = Some c ->
      governs v target c
  | governs_server c : getConfig v target = None ->
      (forall ch g, sc_Type target = "channel" -> getChannel v (sc_ID target) = Some ch -> ch_GroupID ch = Some g ->
         getConfig v (group_scope g) = None) ->
      getConfig v server_scope = Some c -> governs v target c.

Lemma root_config_Ok v c : root_config v = Ok c <-> getConfig v server_scope = Some c.
Proof. unfold root_config. destruct (getConfig v server_scope); naive_solver. Qed.

Lemma effectiveConfig_spec v target c : targetExists target v = true ->
  effectiveConfig target v = Ok c <-> governs v target c.
Proof.
  intros He. unfold effectiveConfig, targetExists in *. split.
  - destruct (getConfig v target) as [c0|] eqn:Hc; [intros [= ->]; by constructor|].
    destruct (bool_decide_reflect (sc_Type target = "channel")) as [Ht|Ht]; [|intros Hr%root_config_Ok; by constructor].
    destruct (getChannel v (sc_ID target)) as [ch|] eqn:Hch; [|done].
    destruct (ch_GroupID ch) as [g|] eqn:Hg; [destruct (getConfig v (group_scope g)) as [cg|] eqn:Hcg|].
    + intros [= ->]. by eapply governs_group.
    + intros Hr%root_config_Ok. apply governs_server; [done| |done]. intros. congruence.
    + intros Hr%root_config_Ok. apply governs_server; [done| |done]. intros. congruence.
  - intros [c' Hc|ch g c' Ht Hc Hch Hg Hcg|c' Hc Hno Hr]; rewrite Hc; [done|rewrite bool_decide_true, Hch, Hg, Hcg by done; done|].
    destruct (bool_decide_reflect (sc_Type target = "channel")) as [Ht|Ht]; [|by apply root_config_Ok].
    rewrite Ht in He. change (bool_decide ("channel" = "server")) with false in He.
    change (bool_decide ("channel" = "group")) with false in He. apply bool_decide_eq_true in He as [ch Hch]. rewrite Hch.
    destruct (ch_GroupID ch) as [g|] eqn:Hg; [rewrite (Hno ch g) by done|]; by apply root_config_Ok.
Qed.

(** The loop fails only on an applicable binding whose role is gone. *)
Lemma loop_total v target grants bs acc :
  (forall b, b ∈ bs -> bindingApplies b target v = true -> is_Some (getRole v (rb_RoleKey b))) ->
  exists acc', foldM (authority_step target v grants) acc bs = Ok acc'.
Proof.
  revert acc. induction bs as [|b bs IH]; intros [a seen] Hb; cbn [foldM]; [by eexists|].
  assert (Hst : exists x, authority_step target v grants (a, seen) b = Ok x).
  { unfold authority_step. destruct (bindingApplies b target v) eqn:Eb; cbn [negb]; [|by eexists].
    destruct (Hb b) as [role ->]; [by left|done|]. case_match; [by eexists|].
    destruct (fold_left add_permission _ _). by eexists. }
  destruct Hst as [x ->]. cbn [rbind]. apply IH. intros b' Hin. apply Hb. by right.
Qed.

(** A request that reaches the roles: a permission of the target's kind, for a
    user and a target that are there. *)
Definition well_formed (v : StateVersion) (u : Z) (target : Scope) (perm : string) : Prop :=
  0 < u /\ Valid target = true /\ AllowedAtScope (sc_Type target) perm = true /\
  is_Some (getUser v u) /\ target_known v target.

Definition owns_server (v : StateVersion) (u : Z) : Prop :=
  exists b, b ∈ Bindings v u /\ rb_RoleKey b = "owner" /\ rb_Scope b = server_scope.

Definition granted (v : StateVersion) (u : Z) (target : Scope) (grants : gmap string (list string)) (perm : string) : Prop :=
  exists b, b ∈ Bindings v u /\ covers v target (rb_Scope b) /\
    ~ (rb_RoleKey b = "owner" /\ rb_Scope b = server_scope) /\
    perm ∈ default [] (grants !! rb_RoleKey b) /\ IsKnown perm = true.

(** What the loop computes, for a request that reaches it. *)
Lemma AuthorityOf_spec u target v a perm : well_formed v u target perm -> AuthorityOf u target (Some v) = Ok a ->
  exists cfg grants, governs v target cfg /\ Unmarshal (pc_Config cfg) = Some grants /\
    (Owner a = true <-> owns_server v u) /\ (perm ∈ Perms a <-> granted v u target grants perm).
Proof using All.
  intros (Hu & Hv & Hal & Hus & Hk). apply targetExists_spec in Hk as Hte; [|done]. unfold AuthorityOf.
  destruct (Z.leb_spec u 0); [lia|]. rewrite Hv, Hte. cbn [negb orb]. rewrite bool_decide_false by (by intros E; rewrite E in Hus; destruct Hus).
  cbn [orb]. intros (cfg & Hcfg & Ha)%rbind_Ok. destruct (Unmarshal (pc_Config cfg)) as [grants|] eqn:Hun; [|done].
  apply rbind_Ok in Ha as (acc & Hacc & [= <-]). apply loop_spec in Hacc as [_ Ho Hp]. exists cfg, grants.
  split_and!; [by apply effectiveConfig_spec|done| |]; cbn [Owner Perms].
  - rewrite Ho. unfold owns_server. f_equiv. intros b. unfold owns. split; [tauto|]. intros (Hb & Hkb & Hs). split; [done|].
    split; [|done]. rewrite bindingApplies_spec by done. left. by rewrite Hs.
  - unfold sort_permissions. rewrite merge_sort_Permutation, Hp. unfold granted. f_equiv. intros b. unfold grants_at, usable.
    rewrite bindingApplies_spec, andb_true_iff by done. tauto.
Qed.

Lemma governs_unique v target c c' : targetExists target v = true -> governs v target c -> governs v target c' -> c = c'.
Proof. intros He H1 H2. apply effectiveConfig_spec in H1, H2; [|done..]. congruence. Qed.

Lemma AuthorityOf_error u target v e perm : well_formed v u target perm -> AuthorityOf u target (Some v) = Err e ->
  ~ exists cfg grants, governs v target cfg /\ Unmarshal (pc_Config cfg) = Some grants /\
      forall b, b ∈ Bindings v u -> covers v target (rb_Scope b) -> is_Some (getRole v (rb_RoleKey b)).
Proof using All.
  intros (Hu & Hv & Hal & Hus & Hk) He (cfg & grants & Hg & Hun & Hroles). apply targetExists_spec in Hk as Hte; [|done].
  revert He. unfold AuthorityOf. destruct (Z.leb_spec u 0); [lia|]. rewrite Hv, Hte. cbn [negb orb].
  rewrite bool_decide_false by (by intros E; rewrite E in Hus; destruct Hus). cbn [orb].
  apply effectiveConfig_spec in Hg; [|done]. rewrite Hg. cbn [rbind]. rewrite Hun.
  destruct (loop_total v target grants (Bindings v u) (mkAuthority false (-1) [], ∅)) as [acc ->]; [|done].
  intros b Hb Ha. apply Hroles; [done|]. by apply bindingApplies_spec.
Qed.

(** C26: Resource authorization is exact: a decision allows iff the request is well
    formed for an existing user and target, a configuration governs the target
    (its own, else the one of a channel's group, else the server's), and either
    the user owns the server, or the target is visible to them and a binding on
    the server, on the target or on its parent group holds a role to which that
    configuration grants the permission; bindings of sibling resources never
    count.  An allowed target is reported visible, and a target is reported
    visible only to the owner and to the users who can see it.  There is no
    decision only when a well-formed request meets a missing or undecodable
    configuration or a binding to a role that is gone. *)
Theorem Decide_exact u target perm v :
  match Decide u target perm (Some v) with
  | Ok d =>
      (Allow d = true <-> well_formed v u target perm /\
         exists cfg grants, governs v target cfg /\ Unmarshal (pc_Config cfg) = Some grants /\
           (owns_server v u \/ (target_visible v u target /\ granted v u target grants perm))) /\
      (Allow d = true -> Visible d = true) /\
      (Visible d = true -> owns_server v u \/ target_visible v u target)
  | Err _ => well_formed v u target perm /\
      ~ exists cfg grants, governs v target cfg /\ Unmarshal (pc_Config cfg) = Some grants /\
          forall b, b ∈ Bindings v u -> covers v target (rb_Scope b) -> is_Some (getRole v (rb_RoleKey b))
  end.
Proof using All.
  unfold Decide. destruct (Z.leb_spec u 0) as [|Hu]; cbn [orb]; [cbn; unfold well_formed; split_and!; [split; [done|lia]|done..]|].
  destruct (Valid target) eqn:Hv; cbn [negb orb]; [|cbn; unfold well_formed; split_and!; [split; [done|]; intros [(_ & ? & _) _]; congruence|done..]].
  destruct (AllowedAtScope _ perm) eqn:Hal; cbn [negb orb]; [|cbn; unfold well_formed; split_and!; [split; [done|]; intros [(_ & _ & ? & _) _]; congruence|done..]].
  case_bool_decide as Hus; [cbn; unfold well_formed; rewrite Hus; split_and!; [split; [done|]; by intros [(_ & _ & _ & [? ?] & _) _]|done..]|].
  pose proof (targetExists_spec target v Hv) as Htk.
  destruct (targetExists target v) eqn:Hte; cbn [negb orb]; [|cbn; unfold well_formed; split_and!; [split; [done|]; intros [(_ & _ & _ & _ & Hk) _]; by apply Htk in Hk|done..]].
  assert (Hwf : well_formed v u target perm).
  { split_and!; try done; [by destruct (getUser v u)|by apply Htk]. }
  destruct (AuthorityOf u target (Some v)) as [a|e] eqn:Ha; cbn [rbind].
  2:{ split; [done|]. by eapply AuthorityOf_error. }
  destruct (AuthorityOf_spec u target v a perm Hwf Ha) as (cfg & grants & Hg & Hun & Ho & Hp).
  pose proof (visibleAt_spec u target v Hv) as Hvis.
  assert (Hgoal : forall P : Prop, (P <-> Owner a = true \/ (visibleAt u target v = true /\ perm ∈ Perms a)) ->
    (P <-> well_formed v u target perm /\ exists cfg grants, governs v target cfg /\ Unmarshal (pc_Config cfg) = Some grants /\
       (owns_server v u \/ (target_visible v u target /\ granted v u target grants perm)))).
  { intros P ->. rewrite Ho, Hp, Hvis. split; [intros; split; [done|]; by exists cfg, grants|]. intros (_ & cfg' & grants' & Hg' & Hun' & H).
    assert (cfg' = cfg) as -> by (by eapply governs_unique). assert (grants' = grants) as -> by congruence. exact H. }
  assert (Hseen : Owner a = true \/ visibleAt u target v = true -> owns_server v u \/ target_visible v u target) by (rewrite Ho, Hvis; done).
  clear Ho Hp Hvis.
  destruct (Owner a); cbn [orb negb]; [cbn; split_and!; [|done|by auto]; apply Hgoal; split; [by left|done]|].
  destruct (visibleAt u target v); cbn [orb negb]; [|cbn; split_and!; [|done..]; apply Hgoal; split; [done|]; by intros [?|[? _]]].
  case_bool_decide as Hin; cbn; (split_and!; [|done|by auto]); apply Hgoal; split; try done; [by right|]. by intros [?|[_ ?]].
Qed.

(** Local bindings never escalate: at a group or channel only that resource's own
    permission vocabulary is ever allowed, even to the owner, and at server
    scope a user without any server binding is allowed nothing. *)
Theorem no_escalation u target perm v d : Decide u target perm (Some v) = Ok d -> Allow d = true ->
  (sc_Type target = "group" -> perm ∈ group_permissions) /\
  (sc_Type target = "channel" -> perm ∈ channel_permissions) /\
  (target = server_scope -> exists b, b ∈ Bindings v u /\ sc_Type (rb_Scope b) = "server").
Proof using All.
  intros Hd Ha. unfold Decide in Hd. destruct (_ <=? _); [by injection Hd as <-|].
  destruct (Valid target) eqn:Hv; cbn [negb orb] in Hd; [|by injection Hd as <-].
  destruct (AllowedAtScope _ perm) eqn:Hal; cbn [negb orb] in Hd; [|by injection Hd as <-].
  destruct (bool_decide _); [by injection Hd as <-|]. destruct (targetExists target v) eqn:Hte; cbn [negb] in Hd; [|by injection Hd as <-].
  unfold AllowedAtScope in Hal. split; [|split].
  - intros Ht. rewrite Ht in Hal. change (bool_decide ("group" = "server")) with false in Hal.
    change (bool_decide ("group" = "group")) with true in Hal. by apply bool_decide_eq_true in Hal.
  - intros Ht. rewrite Ht in Hal. change (bool_decide ("channel" = "server")) with false in Hal.
    change (bool_decide ("channel" = "group")) with false in Hal.
    change (bool_decide ("channel" = "channel")) with true in Hal. by apply bool_decide_eq_true in Hal.
  - intros ->. clear Hal Hte. apply rbind_Ok in Hd as (a & Hau & Hd).
    assert (Hsome : exists b, b ∈ Bindings v u /\ bindingApplies b server_scope v = true).
    { unfold AuthorityOf in Hau. destruct (_ || _); [done|]. destruct (_ || _).
      { injection Hau as <-. cbn [Owner Perms orb] in Hd. destruct (negb _); [by injection Hd as <-|].
        case_bool_decide as Hin; [by apply elem_of_nil in Hin|by injection Hd as <-]. }
      apply rbind_Ok in Hau as (cfg & _ & Hau). destruct (Unmarshal _) as [grants|]; [|done].
      apply rbind_Ok in Hau as (acc & Hacc & [= <-]). apply loop_spec in Hacc as [_ Ho Hp]. cbn [Owner Perms] in Hd.
      destruct (Owner acc.1); [destruct (proj1 Ho eq_refl) as (b & Hb & Hbo & _); by exists b|].
      cbn [orb] in Hd. destruct (negb _); [by injection Hd as <-|]. case_bool_decide as Hin; [|by injection Hd as <-].
      unfold sort_permissions in Hin. rewrite merge_sort_Permutation in Hin. apply Hp in Hin as (b & Hb & Hbo & _). by exists b. }
    destruct Hsome as (b & Hb & Hbo). exists b. split; [done|]. unfold bindingApplies in Hbo.
    by case_bool_decide.
Qed.

End Json.

(** ** Witnesses: a member of group 10 acting in its channel 20 *)

Definition demo_version : StateVersion := mkVersion 0 (mkCheckpoint "epoch" 0)
  (mkPersistent {[7 := mkUser 7 "ada" "Ada" None 1 false 1 1]} {["member" := mkRole "member" "Member" 1 true true 1 1 1]}
     {[10 := mkGroup 10 "General" 0 "public" 1 1 1]}
     {[20 := mkChannel 20 (Some 10) "Lobby" "voice" false "public" 0 0 false None 1 1 1]} ∅ ∅
     {[7 := [mkBinding 3 "member" (group_scope 10) 1]]} {[server_scope := mkConfig server_scope "root" 1 1]} ∅ ∅)
  empty_runtime.

Definition demo_Unmarshal (_ : string) : option (gmap string (list string)) :=
  Some {["member" := ["channel.invite"; "server.manage"]]}.

Definition demo_decision : Decision :=
  mkDecision true true (mkAuthority false 1 ["channel.invite"]) "allowed".

Lemma demo_decides : Decide demo_Unmarshal 7 (channel_scope 20) "channel.invite" (Some demo_version) = Ok demo_decision.
Proof. by vm_compute. Qed.

Lemma Decide_exact_witness : target_visible demo_version 7 (channel_scope 20) /\
  exists b, b ∈ Bindings demo_version 7 /\ covers demo_version (channel_scope 20) (rb_Scope b).
Proof.
  pose proof (Decide_exact demo_Unmarshal 7 (channel_scope 20) "channel.invite" demo_version) as H.
  rewrite demo_decides in H. destruct H as [[H _] _].
  destruct (H eq_refl) as (_ & cfg & grants & _ & _ & [(b & Hb & Hk & _)|(Hv & b & Hb & Hc & _)]).
  - apply list_elem_of_singleton in Hb. by rewrite Hb in Hk.
  - split; [exact Hv|]. exists b. by split.
Defined.

Lemma no_escalation_witness : "channel.invite" ∈ channel_permissions /\
  Decide demo_Unmarshal 7 server_scope "server.manage" (Some demo_version) =
    Ok (mkDecision false true (mkAuthority false (-1) []) "missing permission server.manage").
Proof.
  split; [|by vm_compute].
  by apply (no_escalation demo_Unmarshal 7 (channel_scope 20) "channel.invite" demo_version _ demo_decides).
Defined.

End ScopeAuth.
