(* ===== verification/RelayGate.v ===== *)
(** * RelayGate: the fixed table of per-user relay gates ([realtime/relay_gate.go])

    [plan] is the list of gate slots an [acquire] or [acquireMany] call locks, in
    order.  [move] interleaves any number of goroutines over the table, one lock
    or unlock at a time; a goroutine requests again only after its release. *)

From S2P Require Import Prelude.
From stdpp Require Import base gmap list fin_maps sorting relations.
From Stdlib Require Import ZArith Lia.
#[local] Open Scope Z_scope.

Module RelayGate.

Definition voiceRelayGateCount : Z := 4096.

(** [uint64(userID) % voiceRelayGateCount]. *)
Definition gate_index (userID : Z) : Z := u64_of_i64 userID mod voiceRelayGateCount.

(** One iteration of [acquireMany]'s collection loop: the [seen] map and [indices]. *)
Definition collect (acc : gset Z * list Z) (userID : Z) : gset Z * list Z :=
  if userID <=? 0 then acc
  else
    let index := gate_index userID in
    if bool_decide (index ∈ acc.1) then acc else ({[index]} ∪ acc.1, acc.2 ++ [index]).

Definition acquireMany (userIDs : list Z) : list Z := sort_by id (fold_left collect userIDs (∅, [])).2.

Definition acquire (userID : Z) : list Z := if userID <=? 0 then [] else [gate_index userID].

Inductive Request := One (userID : Z) | Many (userIDs : list Z).

Definition plan (r : Request) : list Z := match r with One u => acquire u | Many us => acquireMany us end.
Definition covers (r : Request) (u : Z) : Prop := match r with One v => v = u | Many us => u ∈ us end.

(** Where a goroutine is: locking its plan in order, between acquire and release,
    or unlocking in the reverse order. *)
Inductive Phase :=
  | Idle
  | Acquiring (r : Request) (held todo : list Z)
  | Inside (r : Request) (held : list Z)
  | Releasing (todo : list Z).

Record Table := mkTable { gates : gmap Z nat; phases : gmap nat Phase }.

Definition phase_of (s : Table) (t : nat) : Phase := default Idle (phases s !! t).
Definition set_phase (s : Table) (t : nat) (p : Phase) : Table := mkTable (gates s) (<[t := p]> (phases s)).

(** A step of a goroutine that already requested. *)
Inductive advance : Table -> Table -> Prop :=
  | a_lock s t r held i todo : phase_of s t = Acquiring r held (i :: todo) -> gates s !! i = None ->
      advance s (mkTable (<[i := t]> (gates s)) (<[t := Acquiring r (held ++ [i]) todo]> (phases s)))
  | a_enter s t r held : phase_of s t = Acquiring r held [] -> advance s (set_phase s t (Inside r held))
  | a_release s t r held : phase_of s t = Inside r held -> advance s (set_phase s t (Releasing (reverse held)))
  | a_unlock s t i todo : phase_of s t = Releasing (i :: todo) ->
      advance s (mkTable (delete i (gates s)) (<[t := Releasing todo]> (phases s)))
  | a_done s t : phase_of s t = Releasing [] -> advance s (set_phase s t Idle).

Inductive move : Table -> Table -> Prop :=
  | m_request s t r : phase_of s t = Idle -> move s (set_phase s t (Acquiring r [] (plan r)))
  | m_advance s s' : advance s s' -> move s s'.

Definition newVoiceRelayGateSet : Table := mkTable ∅ ∅.

(** ** Plans *)

Definition slots_ok (l : list Z) : Prop := StronglySorted Z.lt l /\ Forall (fun i => 0 <= i < voiceRelayGateCount) l.

Lemma gate_index_range u : 0 <= gate_index u < voiceRelayGateCount.
Proof. apply Z.mod_pos_bound. reflexivity. Qed.

Lemma collect_spec us acc : (forall i, i ∈ acc.1 <-> i ∈ acc.2) -> NoDup acc.2 ->
  Forall (fun i => 0 <= i < voiceRelayGateCount) acc.2 ->
  let acc' := fold_left collect us acc in
  NoDup acc'.2 /\ Forall (fun i => 0 <= i < voiceRelayGateCount) acc'.2 /\
  (forall i, i ∈ acc.2 -> i ∈ acc'.2) /\ (forall u, u ∈ us -> 0 < u -> gate_index u ∈ acc'.2).
Proof.
  revert acc. induction us as [|v us IH]; intros acc Hs Hn Hr; cbn.
  { split_and!; try done. by intros u ?%elem_of_nil. }
  assert (H : let a := collect acc v in (forall i, i ∈ a.1 <-> i ∈ a.2) /\ NoDup a.2 /\
    Forall (fun i => 0 <= i < voiceRelayGateCount) a.2 /\ (forall i, i ∈ acc.2 -> i ∈ a.2) /\ (0 < v -> gate_index v ∈ a.2)).
  { unfold collect. destruct (Z.leb_spec v 0); [split_and!; try done; lia|]. case_bool_decide as Hin.
    - split_and!; try done. intros _. by apply Hs.
    - cbn. split_and!.
      + intros i. rewrite elem_of_union, elem_of_singleton, elem_of_app, list_elem_of_singleton, Hs. tauto.
      + apply NoDup_app. split; [done|]. split; [|apply NoDup_singleton]. intros i Hi ->%list_elem_of_singleton. by apply Hin, Hs.
      + apply Forall_app. split; [done|]. constructor; [apply gate_index_range|constructor].
      + intros i Hi. apply elem_of_app. by left.
      + intros _. apply elem_of_app. right. by apply list_elem_of_singleton. }
  destruct H as (H1 & H2 & H3 & H4 & H5). destruct (IH _ H1 H2 H3) as (I1 & I2 & I3 & I4). split_and!; try done.
  - intros i Hi. by apply I3, H4.
  - intros u [->|Hu]%elem_of_cons Hp; [by apply I3, H5|by apply I4].
Qed.

Lemma sorted_strict (l : list Z) : StronglySorted (by_key id) l -> NoDup l -> StronglySorted Z.lt l.
Proof.
  induction 1 as [|x l Hs IH Hx]; intros Hn; [constructor|]. apply NoDup_cons in Hn as [Hnx Hn].
  constructor; [by apply IH|]. rewrite Forall_forall in *. intros y Hy. specialize (Hx y Hy). unfold by_key, id in Hx.
  assert (x <> y) by congruence. lia.
Qed.

(** A plan is strictly ascending, so its slots are distinct, and has the slot of
    every user it covers. *)
Lemma plan_spec r : slots_ok (plan r) /\ (forall u, covers r u -> 0 < u -> gate_index u ∈ plan r).
Proof.
  destruct r as [v|us]; cbn.
  - unfold acquire. destruct (Z.leb_spec v 0); [split; [by split; constructor|intros; lia]|].
    split; [|intros u -> _; by left]. split; [by repeat constructor|]. constructor; [apply gate_index_range|constructor].
  - destruct (collect_spec us (∅, [])) as (Hn & Hr & _ & Hu); [intros i; cbn; by rewrite elem_of_empty, elem_of_nil|constructor|constructor|].
    unfold acquireMany. split.
    + split; [apply sorted_strict; [apply sort_by_sorted|by rewrite sort_by_perm]|by rewrite sort_by_perm].
    + intros u Hin Hp. apply elem_of_sort_by. by apply Hu.
Qed.

(** ** Invariant *)

Definition held_of (p : Phase) : list Z :=
  match p with Idle => [] | Acquiring _ held _ | Inside _ held => held | Releasing todo => todo end.

Definition phase_ok (p : Phase) : Prop :=
  match p with
  | Idle => True
  | Acquiring r held todo => held ++ todo = plan r
  | Inside r held => held = plan r
  | Releasing todo => NoDup todo
  end.

Record table_ok (s : Table) : Prop := {
  tk_phase : forall t, phase_ok (phase_of s t);
  tk_held : forall t i, gates s !! i = Some t <-> i ∈ held_of (phase_of s t)
}.

Lemma phase_set gs ps t p t' : phase_of (mkTable gs (<[t := p]> ps)) t' = if decide (t = t') then p else phase_of (mkTable gs ps) t'.
Proof. unfold phase_of. cbn. case_decide; [subst; by rewrite lookup_insert_eq|by rewrite lookup_insert_ne]. Qed.

Lemma slots_NoDup l : slots_ok l -> NoDup l.
Proof.
  intros [Hs _]. induction Hs as [|x l Hs IH Hx]; constructor; [|done]. rewrite Forall_forall in Hx.
  intros Hin. specialize (Hx x Hin). lia.
Qed.

(** Replacing a goroutine's phase by one that holds the same gates. *)
Lemma set_phase_ok s t p : table_ok s -> phase_ok p ->
  (forall i, i ∈ held_of p <-> i ∈ held_of (phase_of s t)) -> table_ok (set_phase s t p).
Proof.
  destruct s as [gs ps]. intros [Hp Hh] Hok Hsame. split.
  - intros t'. unfold set_phase. rewrite phase_set. case_decide; [done|apply Hp].
  - intros t' i. unfold set_phase. rewrite phase_set. cbn. case_decide as Ht; [subst t'; rewrite Hsame|]; apply Hh.
Qed.

Lemma advance_ok s s' : advance s s' -> table_ok s -> table_ok s'.
Proof.
  intros Ha Hok. pose proof Hok as [Hp Hh].
  destruct Ha as [[gs ps] t r held i todo E Hfree|s t r held E|s t r held E|[gs ps] t i todo E|s t E]; cbn in *.
  - specialize (Hp t) as Hpt. rewrite E in Hpt. split.
    + intros t'. rewrite phase_set. case_decide; [|apply Hp]. cbn in *. by rewrite <- app_assoc.
    + intros t' j. rewrite phase_set. cbn. rewrite lookup_insert_Some. case_decide as Ht.
      * subst t'. cbn. rewrite elem_of_app, list_elem_of_singleton. specialize (Hh t j). rewrite E in Hh. cbn in Hh.
        rewrite <- Hh. destruct (decide (i = j)) as [<-|]; [rewrite Hfree; naive_solver|naive_solver].
      * rewrite <- (Hh t' j). destruct (decide (i = j)) as [<-|]; [rewrite Hfree; naive_solver|naive_solver].
  - apply set_phase_ok; [done| |by rewrite E]. specialize (Hp t). rewrite E in Hp. cbn in *. by rewrite app_nil_r in Hp.
  - apply set_phase_ok; [done| |rewrite E; intros j; apply elem_of_reverse].
    specialize (Hp t). rewrite E in Hp. cbn in *. subst held. rewrite reverse_Permutation. apply slots_NoDup, plan_spec.
  - specialize (Hp t) as Hpt. rewrite E in Hpt. cbn in Hpt. apply NoDup_cons in Hpt as [Hi Hn].
    assert (Hown : gs !! i = Some t) by (apply Hh; rewrite E; by left). split.
    + intros t'. rewrite phase_set. case_decide; [done|apply Hp].
    + intros t' j. rewrite phase_set. cbn. rewrite lookup_delete_Some. case_decide as Ht.
      * subst t'. cbn. rewrite (Hh t j), E. cbn. rewrite elem_of_cons. naive_solver.
      * rewrite <- (Hh t' j). split; [naive_solver|]. intros Hj. split; [|done]. intros <-. congruence.
  - apply set_phase_ok; [done|done|]. by rewrite E.
Qed.

Lemma move_ok s s' : move s s' -> table_ok s -> table_ok s'.
Proof.
  intros [s0 t r E|s0 s1 Ha]; [|by apply advance_ok]. intros Hok. apply set_phase_ok; [done|done|]. by rewrite E.
Qed.

Lemma reachable_ok s : rtc move newVoiceRelayGateSet s -> table_ok s.
Proof.
  intros Hr. assert (H0 : table_ok newVoiceRelayGateSet).
  { split; [done|]. intros t i. unfold newVoiceRelayGateSet, phase_of. cbn. rewrite !lookup_empty. cbn.
    rewrite elem_of_nil. naive_solver. }
  revert H0. induction Hr as [|x y z Hxy _ IH]; [done|]. intros Hx. apply IH. by apply (move_ok x).
Qed.

(** ** Progress *)

(** A goroutine that waits for slot [i] is blocked, if at all, by one that can
    move or that waits for a larger slot. *)
Lemma waiting_progress s n t r held i todo : table_ok s -> phase_of s t = Acquiring r held (i :: todo) ->
  voiceRelayGateCount - i <= Z.of_nat n -> exists s', advance s s'.
Proof.
  revert t r held i todo. induction n as [|n IH]; intros t r held i todo Hok E Hn.
  - pose proof (tk_phase _ Hok t) as Hp. rewrite E in Hp. cbn in Hp. destruct (plan_spec r) as [[_ Hr] _].
    rewrite <- Hp, Forall_app, Forall_cons in Hr. lia.
  - destruct (gates s !! i) as [t'|] eqn:Eg; [|eexists; by eapply a_lock].
    apply (tk_held _ Hok) in Eg as Hin. destruct (phase_of s t') as [|r' held' todo'|r' held'|todo'] eqn:E'; cbn in Hin.
    + by apply elem_of_nil in Hin.
    + destruct todo' as [|j todo']; [eexists; by eapply a_enter|].
      apply (IH t' r' held' j todo' Hok E'). pose proof (tk_phase _ Hok t') as Hp. rewrite E' in Hp. cbn in Hp.
      destruct (plan_spec r') as [[Hs _] _]. rewrite <- Hp in Hs.
      assert (i < j); [|lia]. clear -Hs Hin. induction held' as [|x l IH]; [by apply elem_of_nil in Hin|].
      apply StronglySorted_inv in Hs as [Hs Hx]. apply elem_of_cons in Hin as [->|Hin]; [|by apply IH].
      rewrite Forall_forall in Hx. apply Hx, elem_of_app. right. by left.
    + eexists. by eapply a_release.
    + destruct todo' as [|j todo']; [by apply elem_of_nil in Hin|]. eexists. by eapply a_unlock.
Qed.

Lemma progress s t : table_ok s -> phase_of s t <> Idle -> exists s', advance s s'.
Proof.
  intros Hok Hne. destruct (phase_of s t) as [|r held [|i todo]|r held|[|i todo]] eqn:E; [done|..].
  - eexists. by eapply a_enter.
  - by apply (waiting_progress s (Z.to_nat (voiceRelayGateCount - i)) t r held i todo Hok E); lia.
  - eexists. by eapply a_release.
  - eexists. by eapply a_done.
  - eexists. by eapply a_unlock.
Qed.

(** Steps a goroutine still has to take. *)
Definition remaining (p : Phase) : nat :=
  match p with
  | Idle => 0
  | Acquiring _ held todo => 2 * length todo + length held + 3
  | Inside _ held => length held + 2
  | Releasing todo => length todo + 1
  end.

Definition work (ps : gmap nat Phase) : nat := map_fold (fun _ p n => (remaining p + n)%nat) 0%nat ps.

Lemma work_insert t p ps : work (<[t := p]> ps) = (remaining p + work (delete t ps))%nat.
Proof.
  unfold work. rewrite <- insert_delete_eq. rewrite map_fold_insert_L; [done|intros; lia|apply lookup_delete_eq].
Qed.

Lemma work_lookup s t : (work (phases s) = remaining (phase_of s t) + work (delete t (phases s)))%nat.
Proof.
  unfold phase_of. destruct (phases s !! t) as [p|] eqn:E; cbn.
  - rewrite <- work_insert. by rewrite insert_id.
  - by rewrite delete_id.
Qed.

Lemma advance_work s s' : advance s s' -> (work (phases s') < work (phases s))%nat.
Proof.
  intros [s0 t r held i todo E _|s0 t r held E|s0 t r held E|s0 t i todo E|s0 t E]; cbn;
    rewrite work_insert, (work_lookup s0 t), E; cbn; rewrite ?length_app, ?length_reverse; cbn; lia.
Qed.

(** C27: The relay gates exclude and never deadlock: over any interleaving of single and
    multi-user acquisitions, two goroutines are never both inside for a common
    user, and from every reachable state the goroutines that have requested can
    always run to completion, after which every gate is free, whatever slots
    their users collide on. *)
Theorem relay_gates_sound s : rtc move newVoiceRelayGateSet s ->
  (forall t1 t2 r1 r2 h1 h2 u, phase_of s t1 = Inside r1 h1 -> phase_of s t2 = Inside r2 h2 ->
     covers r1 u -> covers r2 u -> 0 < u -> t1 = t2) /\
  ((exists t, phase_of s t <> Idle) -> exists s', advance s s') /\
  (exists s', rtc advance s s' /\ (forall t, phase_of s' t = Idle) /\ gates s' = ∅).
Proof.
  intros Hr%reachable_ok. split; [|split].
  - intros t1 t2 r1 r2 h1 h2 u E1 E2 H1 H2 Hu.
    pose proof (tk_phase _ Hr t1) as P1. pose proof (tk_phase _ Hr t2) as P2. rewrite E1 in P1. rewrite E2 in P2. cbn in P1, P2.
    pose proof (proj2 (tk_held _ Hr t1 (gate_index u))) as G1. pose proof (proj2 (tk_held _ Hr t2 (gate_index u))) as G2.
    rewrite E1 in G1. rewrite E2 in G2. cbn in G1, G2. rewrite P1 in G1. rewrite P2 in G2.
    specialize (G1 (proj2 (plan_spec r1) u H1 Hu)). specialize (G2 (proj2 (plan_spec r2) u H2 Hu)). congruence.
  - intros [t Ht]. by apply (progress s t).
  - remember (work (phases s)) as n eqn:En. revert s Hr En. induction n as [n IH] using lt_wf_ind. intros s Hr En.
    destruct (decide (Exists (fun p => remaining p.2 <> 0%nat) (map_to_list (phases s)))) as [Hex|Hall].
    + apply Exists_exists in Hex as ([t p] & Hin%elem_of_map_to_list & Hp). cbn in Hp.
      destruct (progress s t Hr) as [s1 Ha].
      { unfold phase_of. rewrite Hin. cbn. intros ->. by apply Hp. }
      pose proof (advance_work _ _ Ha) as Hlt. destruct (IH (work (phases s1)) ltac:(lia) s1 (advance_ok _ _ Ha Hr) eq_refl)
        as (s' & Hs' & Hend). exists s'. split; [by apply (rtc_l _ _ s1)|done].
    + assert (Hidle : forall t, phase_of s t = Idle).
      { intros t. unfold phase_of. destruct (phases s !! t) as [p|] eqn:E; [|done]. cbn.
        apply not_Exists_Forall in Hall; [|intros [??]; apply _]. rewrite Forall_forall in Hall.
        specialize (Hall (t, p)). cbn in Hall. destruct p; [done|..]; destruct Hall; try (by apply elem_of_map_to_list); cbn; lia. }
      exists s. split; [apply rtc_refl|]. split; [done|]. apply map_empty. intros i.
      destruct (gates s !! i) as [t|] eqn:E; [|done]. apply (tk_held _ Hr) in E. rewrite Hidle in E. by apply elem_of_nil in E.
Qed.

(** Two multi-user mutations whose users collide in opposite orders. *)
Lemma relay_gates_sound_witness :
  acquireMany [5; 4099; 3] = [3; 5] /\ exists s', rtc advance (mkTable ∅ (<[2%nat := Acquiring (Many [4099; 5]) [] [3; 5]]>
    (<[1%nat := Acquiring (Many [5; 3]) [] [3; 5]]> ∅))) s' /\ gates s' = ∅.
Proof.
  split; [by vm_compute|].
  destruct (relay_gates_sound (mkTable ∅ (<[2%nat := Acquiring (Many [4099; 5]) [] [3; 5]]>
    (<[1%nat := Acquiring (Many [5; 3]) [] [3; 5]]> ∅)))) as (_ & _ & s' & H1 & _ & H2); [|by exists s'].
  eapply rtc_l; [exact (m_request newVoiceRelayGateSet 1%nat (Many [5; 3]) eq_refl)|].
  apply rtc_once. exact (m_request (mkTable ∅ (<[1%nat := Acquiring (Many [5; 3]) [] [3; 5]]> ∅)) 2%nat (Many [4099; 5]) eq_refl).
Defined.

End RelayGate.
