(* ===== verification/Strconv.v ===== *)
(** * Strconv: decimal numbers as text ([strconv], [fmt])

    [pretty] is [FormatInt] and [FormatUint] in base 10; this file adds the
    parsers and the round trip between them. *)

From S2P Require Import Prelude.
From stdpp Require Import base strings list pretty.
From Stdlib Require Import ZArith Lia Ascii.
#[local] Open Scope string_scope.
#[local] Open Scope Z_scope.

Module Strconv.

Definition digit (c : ascii) : option Z :=
  let n := Z.of_nat (nat_of_ascii c) in
  if (48 <=? n) && (n <=? 57) then Some (n - 48) else None.

(** The value of the digits of [s] after the prefix worth [acc]. *)
Fixpoint digits_from (acc : Z) (s : string) : option Z :=
  match s with
  | EmptyString => Some acc
  | String c s => match digit c with Some d => digits_from (acc * 10 + d) s | None => None end
  end.

Definition max_digits (bound : Z) (o : option Z) : option Z :=
  match o with Some n => if n <? bound then Some n else None | None => None end.

(** [strconv.ParseUint(s, 10, 64)]; [None] is either of its errors. *)
Definition ParseUint (s : string) : option Z :=
  match s with EmptyString => None | _ => max_digits (2 ^ 64) (digits_from 0 s) end.

(** [strconv.ParseInt(s, 10, 64)]. *)
Definition ParseInt (s : string) : option Z :=
  match s with
  | EmptyString => None
  | String c rest =>
      if ascii_dec c "-" then
        match ParseUint rest with Some n => if n <=? 2 ^ 63 then Some (- n) else None | None => None end
      else
        match ParseUint (if ascii_dec c "+" then rest else s) with
        | Some n => if n <? 2 ^ 63 then Some n else None
        | None => None
        end
  end.

Lemma digit_char x : (x < 10)%N -> digit (pretty_N_char x) = Some (Z.of_N x).
Proof.
  intros Hx. assert (H : (x = 0 \/ x = 1 \/ x = 2 \/ x = 3 \/ x = 4 \/ x = 5 \/ x = 6 \/ x = 7 \/ x = 8 \/ x = 9)%N) by lia.
  repeat destruct H as [->|H]; subst; reflexivity.
Qed.

Lemma digits_pretty x s : digits_from 0 (pretty_N_go x s) = digits_from (Z.of_N x) s.
Proof.
  revert s. induction (N.lt_wf_0 x) as [x _ IH]. intros s. destruct (decide (0 < x)%N) as [Hx|Hx].
  - rewrite pretty_N_go_step by done. rewrite IH by (apply N.div_lt; lia). cbn [digits_from].
    rewrite digit_char by (apply N.mod_lt; lia). f_equal. rewrite N2Z.inj_div, N2Z.inj_mod.
    pose proof (Z.div_mod (Z.of_N x) 10). lia.
  - assert (x = 0%N) as -> by lia. by rewrite pretty_N_go_0.
Qed.

Lemma digits_pretty_Z n : 0 <= n -> digits_from 0 (pretty n) = Some n.
Proof.
  intros Hn. destruct n as [|p|p]; [reflexivity| |lia]. change (pretty (Zpos p)) with (pretty_N_go (Npos p) EmptyString).
  by rewrite digits_pretty.
Qed.

(** The first character of a formatted natural number is a digit. *)
Lemma digits_head n c s : digits_from n (String c s) <> None -> exists d, digit c = Some d.
Proof. cbn. destruct (digit c); [eauto|done]. Qed.

Lemma format_ne (n : Z) : pretty n <> EmptyString.
Proof.
  destruct n as [|p|p]; [done| |done]. change (pretty (Zpos p)) with (pretty_N_go (Npos p) EmptyString).
  intros E. pose proof (digits_pretty (Npos p) EmptyString) as H. rewrite E in H. cbn in H. by injection H.
Qed.

Lemma digits_from_nonneg acc s n : 0 <= acc -> digits_from acc s = Some n -> 0 <= n.
Proof.
  revert acc. induction s as [|c s IH]; cbn [digits_from]; intros acc Ha; [by intros [= <-]|]. unfold digit.
  destruct (Z.leb_spec 48 (Z.of_nat (nat_of_ascii c))); [|done]. cbn [andb]. destruct (_ <=? 57); [|done]. apply IH. lia.
Qed.

Lemma ParseUint_nonneg s n : ParseUint s = Some n -> 0 <= n.
Proof.
  unfold ParseUint, max_digits. destruct s as [|c s]; [done|]. destruct (digits_from 0 (String c s)) as [m|] eqn:Hd; [|done].
  destruct (_ <? _); [|done]. intros [= <-]. by eapply (digits_from_nonneg 0); [|exact Hd].
Qed.

Lemma ParseUint_format (n : Z) : is_u64 n -> ParseUint (pretty n) = Some n.
Proof.
  intros [Hn Hb]. unfold ParseUint. pose proof (digits_pretty_Z n Hn) as H. pose proof (format_ne n) as Hne.
  destruct (pretty n) as [|c s]; [done|]. rewrite H. unfold max_digits, u64_mod in *. by rewrite (proj2 (Z.ltb_lt _ _) Hb).
Qed.

Lemma ParseInt_format n : 0 <= n < 2 ^ 63 -> ParseInt (pretty n) = Some n.
Proof.
  intros [Hn Hb]. pose proof (ParseUint_format n) as H. pose proof (digits_pretty_Z n Hn) as Hd. unfold ParseInt.
  pose proof (format_ne n) as Hne. destruct (pretty n) as [|c s]; [done|].
  destruct (digits_head 0 c s) as [d Hc]; [by rewrite Hd|].
  destruct (ascii_dec c "-") as [->|]; [done|]. destruct (ascii_dec c "+") as [->|]; [done|].
  rewrite H by (unfold is_u64, u64_mod; lia). by rewrite (proj2 (Z.ltb_lt _ _) Hb).
Qed.

End Strconv.
