(* ===== verification/Cursor.v ===== *)
(** * Cursor: opaque cursors, entity tags, deadlines and the mutation gate

    [realtime/cursor.go], [etag.go], [timer.go] and [mutation_gate.go].  JSON,
    HMAC-SHA256 and base64 are the class [CursorPrims]; the laws a theorem needs
    of them are the class [CursorLaws]. *)

From S2P Require Import Prelude State StateRing Strconv.
From stdpp Require Import base gmap strings list pretty relations.
From Stdlib Require Import ZArith Lia Ascii.
#[local] Open Scope string_scope.
#[local] Open Scope list_scope.
#[local] Open Scope Z_scope.

Module Cursor.
Import State Strconv.

Inductive CursorError :=
  | ErrInvalidCursor | ErrCursorPrincipal | ErrCursorEpoch | ErrCursorSchema
  | ErrCursorEncode | ErrCursorKey | ErrCursorStreamEpoch | ErrCursorRandom.

Definition SnapshotSchemaVersion : Z := 1.
Definition cursorKeyBytes : nat := 32.
(** [sha256.Size]. *)
Definition sha256_Size : nat := 32.

Record Cursor := mkCursor { cu_Checkpoint : Checkpoint; cu_VisibilityEpoch : Z; cu_SchemaVersion : Z }.

Record cursorPayload := mkPayload {
  cp_UserID : string; cp_Epoch : string; cp_GEIDText : string; cp_VisibilityEpoch : string; cp_Schema : Z
}.

Record CursorSigner := mkSigner { cs_streamEpoch : string; cs_key : bytes }.

(** [json.Marshal] and [json.Unmarshal] of the payload, HMAC-SHA256 of a key and
    a message, and [base64.RawURLEncoding]. *)
Class CursorPrims := {
  payload_Marshal : cursorPayload -> option bytes;
  payload_Unmarshal : bytes -> option cursorPayload;
  hmac_sha256 : bytes -> bytes -> bytes;
  b64_Encode : bytes -> string;
  b64_Decode : string -> option bytes
}.

(** Printable ASCII, which JSON and base64 carry unchanged. *)
Definition plain (s : string) : bool :=
  forallb (fun c => let n := nat_of_ascii c in ((32 <=? n) && (n <? 127))%nat) (String.list_ascii_of_string s).

Definition plain_payload (p : cursorPayload) : bool :=
  plain (cp_UserID p) && plain (cp_Epoch p) && plain (cp_GEIDText p) && plain (cp_VisibilityEpoch p).

Class CursorLaws {prims : CursorPrims} : Prop := {
  payload_roundtrip p b : plain_payload p = true -> cp_Schema p = SnapshotSchemaVersion ->
    payload_Marshal p = Some b -> payload_Unmarshal b = Some p /\ Forall is_byte b /\ b <> [];
  hmac_size key m : length (hmac_sha256 key m) = sha256_Size /\ Forall is_byte (hmac_sha256 key m);
  b64_roundtrip b : Forall is_byte b -> b64_Decode (b64_Encode b) = Some b
}.
Arguments CursorLaws : clear implicits.

Definition NewCursorSignerWithKey (streamEpoch : string) (key : bytes) : result CursorSigner CursorError :=
  if negb (validateStreamEpoch streamEpoch) then Err ErrCursorStreamEpoch
  else if negb (length key =? cursorKeyBytes)%nat then Err ErrCursorKey
  else Ok (mkSigner streamEpoch key).

(** [drawn]: the random bytes, or a failed read. *)
Definition NewCursorSigner (streamEpoch : string) (drawn : option bytes) : result CursorSigner CursorError :=
  match drawn with None => Err ErrCursorRandom | Some key => NewCursorSignerWithKey streamEpoch key end.

Section Codec.
Context {prims : CursorPrims}.

Definition issue_payload (userID : Z) (checkpoint : Checkpoint) (visibilityEpoch : Z) : cursorPayload :=
  mkPayload (pretty userID) (cp_StreamEpoch checkpoint) (pretty (cp_GEID checkpoint)) (pretty visibilityEpoch)
    SnapshotSchemaVersion.

Definition Issue (s : CursorSigner) (userID : Z) (checkpoint : Checkpoint) (visibilityEpoch : Z)
  : result string CursorError :=
  if (userID <=? 0) || negb (bool_decide (cp_StreamEpoch checkpoint = cs_streamEpoch s)) then Err ErrInvalidCursor
  else match payload_Marshal (issue_payload userID checkpoint visibilityEpoch) with
       | None => Err ErrCursorEncode
       | Some payload =>
           let encoded := b64_Encode (payload ++ hmac_sha256 (cs_key s) payload) in
           if StateRing.MaxStateEventCursorBytes <? StateRing.slen encoded then Err ErrInvalidCursor else Ok encoded
       end.

Definition splitCursor (token : string) : result (bytes * bytes) CursorError :=
  match b64_Decode token with
  | None => Err ErrInvalidCursor
  | Some encoded =>
      if (length encoded <=? sha256_Size)%nat then Err ErrInvalidCursor
      else Ok (take (length encoded - sha256_Size) encoded, drop (length encoded - sha256_Size) encoded)
  end.

Definition Parse (s : CursorSigner) (userID : Z) (token : string) : result Cursor CursorError :=
  parts <-? splitCursor token ;;
  let '(payload, signature) := parts in
  if negb (bool_decide (signature = hmac_sha256 (cs_key s) payload)) then Err ErrInvalidCursor
  else match payload_Unmarshal payload with
  | None => Err ErrInvalidCursor
  | Some decoded =>
      match ParseInt (cp_UserID decoded) with
      | None => Err ErrInvalidCursor
      | Some parsedUserID =>
          if parsedUserID <=? 0 then Err ErrInvalidCursor
          else if negb (parsedUserID =? userID) then Err ErrCursorPrincipal
          else if negb (bool_decide (cp_Epoch decoded = cs_streamEpoch s)) then Err ErrCursorEpoch
          else if negb (cp_Schema decoded =? SnapshotSchemaVersion) then Err ErrCursorSchema
          else match ParseUint (cp_GEIDText decoded) with
          | None => Err ErrInvalidCursor
          | Some geid =>
              match ParseUint (cp_VisibilityEpoch decoded) with
              | None => Err ErrInvalidCursor
              | Some visibilityEpoch =>
                  Ok (mkCursor (mkCheckpoint (cp_Epoch decoded) geid) visibilityEpoch (cp_Schema decoded))
              end
          end
      end
  end.

(** ** Round trip and authentication *)

Lemma digits_plain acc s : digits_from acc s <> None -> plain s = true.
Proof using.
  revert acc. induction s as [|c s IH]; intros acc; [done|]. cbn [digits_from]. destruct (digit c) as [d|] eqn:Hd; [|done].
  intros H. unfold plain in *. cbn [String.list_ascii_of_string forallb]. rewrite (IH _ H), andb_true_r.
  unfold digit in Hd. destruct (_ && _) eqn:E; [|done]. apply andb_true_iff in E as [E1 E2].
  apply Z.leb_le in E1, E2. apply andb_true_iff. split; [apply Nat.leb_le|apply Nat.ltb_lt]; lia.
Qed.

Lemma pretty_plain (n : Z) : 0 <= n -> plain (pretty n) = true.
Proof using. intros Hn. apply (digits_plain 0). by rewrite digits_pretty_Z. Qed.

Lemma epoch_plain e : validateStreamEpoch e = true -> plain e = true.
Proof using.
  unfold validateStreamEpoch, plain. intros [_ H]%andb_true_iff. rewrite forallb_forall in H |- *. intros c Hc.
  specialize (H c Hc). unfold is_lower_hex in H. apply orb_true_iff in H as [H|H]; apply andb_true_iff in H as [H1 H2];
    apply Nat.leb_le in H1, H2; apply andb_true_iff; (split; [apply Nat.leb_le; lia|apply Nat.ltb_lt; lia]).
Qed.

Lemma issued_token `{!CursorLaws prims} s u cp ve token : validateStreamEpoch (cs_streamEpoch s) = true ->
  is_u64 (cp_GEID cp) -> is_u64 ve -> Issue s u cp ve = Ok token ->
  0 < u /\ cp_StreamEpoch cp = cs_streamEpoch s /\ exists b,
    splitCursor token = Ok (b, hmac_sha256 (cs_key s) b) /\ payload_Unmarshal b = Some (issue_payload u cp ve).
Proof using.
  intros He Hg Hv. unfold Issue. destruct (Z.leb_spec u 0) as [|Hu]; [done|]. cbn [orb].
  case_bool_decide as Hse; [|done]. cbn [negb]. destruct (payload_Marshal _) as [b|] eqn:Hm; [|done].
  destruct (_ <? _); [done|]. intros [= <-].
  destruct (payload_roundtrip (issue_payload u cp ve) b) as (Hun & Hb & Hne); [|done|done|].
  { unfold plain_payload, issue_payload. cbn [cp_UserID cp_Epoch cp_GEIDText cp_VisibilityEpoch]. unfold is_u64 in *. rewrite Hse, (epoch_plain (cs_streamEpoch s)), !pretty_plain by (done || lia). done. }
  split; [done|]. split; [done|]. exists b. split; [|done]. destruct (hmac_size (cs_key s) b) as [Hl Hh].
  unfold splitCursor. rewrite b64_roundtrip by (by apply Forall_app). rewrite length_app, Hl.
  destruct (Nat.leb_spec (length b + sha256_Size) sha256_Size) as [Hle|_]; [destruct b; [done|cbn in Hle; lia]|].
  rewrite Nat.add_sub, take_app_length, drop_app_length. done.
Qed.

(** cursors round trip and are bound to their user and process.  Parsing an
    issued cursor under the same key returns exactly the checkpoint and epoch
    it was issued for; for another user it is refused as theirs, and under
    another stream epoch as stale, each with its own error. *)
Theorem Parse_Issue `{!CursorLaws prims} s s' u u' cp ve token :
  validateStreamEpoch (cs_streamEpoch s) = true -> cs_key s' = cs_key s ->
  0 < u < 2 ^ 63 -> is_u64 (cp_GEID cp) -> is_u64 ve -> Issue s u cp ve = Ok token ->
  Parse s' u' token =
    if negb (u =? u') then Err ErrCursorPrincipal
    else if negb (bool_decide (cs_streamEpoch s = cs_streamEpoch s')) then Err ErrCursorEpoch
    else Ok (mkCursor cp ve SnapshotSchemaVersion).
Proof using.
  intros He Hk Hu Hg Hv Hi. destruct (issued_token _ _ _ _ _ He Hg Hv Hi) as (Hpos & Hse & b & Hs & Hun).
  unfold Parse. rewrite Hs. cbn [rbind]. rewrite Hk, bool_decide_true by done. cbn [negb]. rewrite Hun.
  cbn [cp_UserID issue_payload]. rewrite ParseInt_format by lia. destruct (Z.leb_spec u 0); [lia|].
  destruct (u =? u'); [|done]. cbn [negb cp_Epoch issue_payload]. rewrite Hse. case_bool_decide; [|done]. cbn [negb cp_Schema issue_payload].
  change (SnapshotSchemaVersion =? SnapshotSchemaVersion) with true. cbn [negb cp_GEIDText cp_VisibilityEpoch issue_payload]. rewrite !ParseUint_format by done. rewrite <- Hse. by destruct cp.
Qed.

(** The authenticated reading of a token. *)
Definition authentic (s : CursorSigner) (token : string) (p : cursorPayload) : Prop :=
  exists b, splitCursor token = Ok (b, hmac_sha256 (cs_key s) b) /\ payload_Unmarshal b = Some p.

(** the errors of [Parse] classify a token exactly.  A token is accepted
    only when its payload carries this process's signature, names the user, the
    stream epoch and the current schema; a principal, epoch or schema error is
    reported only for a payload so signed, the first of the three that fails;
    every other token, forged ones included, is an invalid cursor. *)
Theorem Parse_classified s u token :
  match Parse s u token with
  | Ok c => exists p, authentic s token p /\ ParseInt (cp_UserID p) = Some u /\ 0 < u /\ cp_Epoch p = cs_streamEpoch s /\
      cp_Schema p = SnapshotSchemaVersion /\ ParseUint (cp_GEIDText p) = Some (cp_GEID (cu_Checkpoint c)) /\
      cp_StreamEpoch (cu_Checkpoint c) = cs_streamEpoch s /\ ParseUint (cp_VisibilityEpoch p) = Some (cu_VisibilityEpoch c)
  | Err ErrCursorPrincipal => exists p v, authentic s token p /\ ParseInt (cp_UserID p) = Some v /\ 0 < v /\ v <> u
  | Err ErrCursorEpoch => exists p, authentic s token p /\ ParseInt (cp_UserID p) = Some u /\ cp_Epoch p <> cs_streamEpoch s
  | Err ErrCursorSchema => exists p, authentic s token p /\ ParseInt (cp_UserID p) = Some u /\
      cp_Epoch p = cs_streamEpoch s /\ cp_Schema p <> SnapshotSchemaVersion
  | Err ErrInvalidCursor => forall p, authentic s token p ->
      (forall v, ParseInt (cp_UserID p) = Some v -> v <= 0) \/
      ParseInt (cp_UserID p) = Some u /\ cp_Epoch p = cs_streamEpoch s /\ cp_Schema p = SnapshotSchemaVersion /\
        (ParseUint (cp_GEIDText p) = None \/ ParseUint (cp_VisibilityEpoch p) = None)
  | Err _ => False
  end.
Proof using.
  unfold Parse. unfold authentic. destruct (splitCursor token) as [[b sg]|e] eqn:Hs; cbn [rbind].
  2: { assert (e = ErrInvalidCursor) as ->.
       { unfold splitCursor in Hs. destruct (b64_Decode token); [|congruence]. destruct (_ <=? _)%nat; congruence. }
       intros p (b & ? & _). done. }
  case_bool_decide as Hsig; cbn [negb].
  2: { intros p (b' & [= -> ->] & _). done. }
  subst sg. destruct (payload_Unmarshal b) as [p|] eqn:Hun.
  2: { intros p (b' & [= <-] & ?). congruence. }
  assert (Ha : exists b0, Ok (b, hmac_sha256 (cs_key s) b) = Ok (E := CursorError) (b0, hmac_sha256 (cs_key s) b0) /\
    payload_Unmarshal b0 = Some p) by eauto.
  assert (Hinj : forall q, (exists b0, Ok (b, hmac_sha256 (cs_key s) b) = Ok (E := CursorError) (b0, hmac_sha256 (cs_key s) b0) /\
    payload_Unmarshal b0 = Some q) -> q = p) by (intros q (b0 & [= <-] & ?); congruence).
  destruct (ParseInt (cp_UserID p)) as [v|] eqn:Hp.
  2: { intros q ->%Hinj. left. congruence. }
  destruct (Z.leb_spec v 0) as [Hv|Hv].
  { intros q ->%Hinj. left. intros w Hw. rewrite Hp in Hw. injection Hw as <-. done. }
  destruct (Z.eqb_spec v u) as [->|Hne]; cbn [negb]; [|exists p, v; done].
  case_bool_decide as He; cbn [negb]; [|exists p; done].
  destruct (Z.eqb_spec (cp_Schema p) SnapshotSchemaVersion) as [Hsc|Hsc]; cbn [negb]; [|exists p; done].
  destruct (ParseUint (cp_GEIDText p)) as [g|] eqn:Hg; [|intros q ->%Hinj; right; eauto].
  destruct (ParseUint (cp_VisibilityEpoch p)) as [ve|] eqn:Hv'; [|intros q ->%Hinj; right; eauto].
  exists p. cbn. split_and!; done.
Qed.

End Codec.

(** ** An instance, for the witnesses *)

Definition code (c : ascii) : Z := Z.of_nat (nat_of_ascii c).
Definition text_bytes (s : string) : bytes := code <$> String.list_ascii_of_string s.
Definition bytes_text (b : bytes) : string := String.string_of_list_ascii ((fun x => ascii_of_nat (Z.to_nat x)) <$> b).

(** A field up to its terminating zero byte. *)
Fixpoint take_field (b : bytes) : option (string * bytes) :=
  match b with
  | [] => None
  | x :: r =>
      if x =? 0 then Some (EmptyString, r)
      else match take_field r with
           | Some (s, r') => Some (String (ascii_of_nat (Z.to_nat x)) s, r')
           | None => None
           end
  end.

#[local] Instance ex_prims : CursorPrims := {
  payload_Marshal p := Some (text_bytes (cp_UserID p) ++ 0 :: text_bytes (cp_Epoch p) ++ 0 ::
                             text_bytes (cp_GEIDText p) ++ 0 :: text_bytes (cp_VisibilityEpoch p) ++ [0]);
  payload_Unmarshal b :=
    '(u, b) ← take_field b; '(e, b) ← take_field b; '(g, b) ← take_field b; '(v, b) ← take_field b;
    Some (mkPayload u e g v 1);
  hmac_sha256 key m := replicate 32 ((foldr Z.add 0 (key ++ m)) mod 256);
  b64_Encode := bytes_text;
  b64_Decode s := Some (text_bytes s)
}.

Lemma take_field_text s r : plain s = true -> take_field (text_bytes s ++ 0 :: r) = Some (s, r).
Proof.
  unfold plain, text_bytes. induction s as [|c s IH]; [done|]. cbn [String.list_ascii_of_string forallb fmap list_fmap app take_field].
  intros [Hc Hs]%andb_true_iff. apply andb_true_iff in Hc as [Hc _]. apply Nat.leb_le in Hc.
  unfold code at 1. destruct (Z.eqb_spec (Z.of_nat (nat_of_ascii c)) 0) as [|_]; [lia|]. rewrite IH by done.
  unfold code. by rewrite Nat2Z.id, ascii_nat_embedding.
Qed.

Lemma text_bytes_byte s : Forall is_byte (text_bytes s).
Proof.
  apply Forall_fmap, Forall_forall. intros c _. unfold is_byte, code. cbn. pose proof (nat_ascii_bounded c). lia.
Qed.

Lemma ex_b64 b : Forall is_byte b -> text_bytes (bytes_text b) = b.
Proof.
  unfold text_bytes, bytes_text. rewrite String.list_ascii_of_string_of_list_ascii. induction 1 as [|x b Hx Hb IH]; [done|].
  cbn [fmap list_fmap]. rewrite IH. f_equal. unfold code, is_byte in *. rewrite nat_ascii_embedding; lia.
Qed.

#[local] Instance ex_laws : CursorLaws ex_prims.
Proof.
  split.
  - intros p b Hp Hsc [= <-]. unfold plain_payload in Hp. rewrite !andb_true_iff in Hp. destruct Hp as [[[Hu He] Hg] Hv].
    split_and!.
    + cbn [payload_Unmarshal ex_prims]. rewrite take_field_text by done. cbn. rewrite take_field_text by done. cbn.
      rewrite take_field_text by done. cbn. rewrite take_field_text by done. cbn. destruct p. cbn in *. by rewrite Hsc.
    + repeat (apply Forall_app; split); try apply text_bytes_byte;
        repeat (apply Forall_cons; split; [by unfold is_byte|]); repeat (apply Forall_app; split); try apply text_bytes_byte;
        repeat (apply Forall_cons; split; [by unfold is_byte|]); repeat (apply Forall_app; split); try apply text_bytes_byte;
        repeat (apply Forall_cons; split; [by unfold is_byte|]); repeat (apply Forall_app; split); try apply text_bytes_byte;
        repeat (apply Forall_cons; split; [by unfold is_byte|]); constructor.
    + by destruct (text_bytes (cp_UserID p)).
  - intros key m. cbn [hmac_sha256 ex_prims]. split; [by rewrite length_replicate|]. apply Forall_replicate.
    apply Z.mod_pos_bound. lia.
  - intros b Hb. cbn [b64_Decode b64_Encode ex_prims]. by rewrite ex_b64.
Qed.

Definition ex_epoch : string := "0123456789abcdef0123456789abcdef".
Definition ex_signer : CursorSigner := mkSigner ex_epoch (replicate 32 7).

Lemma Parse_Issue_witness : exists token, Issue ex_signer 42 (mkCheckpoint ex_epoch 9) 3 = Ok token /\
  Parse ex_signer 42 token = Ok (mkCursor (mkCheckpoint ex_epoch 9) 3 1) /\ Parse ex_signer 43 token = Err ErrCursorPrincipal.
Proof.
  destruct (Issue ex_signer 42 (mkCheckpoint ex_epoch 9) 3) as [token|e] eqn:Hi; [|vm_compute in Hi; discriminate].
  exists token. pose proof (fun u' H1 H2 H3 H4 H5 => Parse_Issue ex_signer ex_signer 42 u' (mkCheckpoint ex_epoch 9) 3 token H1 H2 H3 H4 H5 Hi) as H.
  split; [done|]. split; rewrite H; try done; try (by vm_compute); try lia; unfold is_u64, u64_mod; cbn; lia.
Defined.

End Cursor.
