(* ===== verification/Support.v ===== *)
(** * Support: entity tags, deadlines and the mutation gate

    [realtime/etag.go], [timer.go] and [mutation_gate.go].  SHA-256, base64 and
    the re-encoding of a permission document are arguments of the tag of an
    effective configuration. *)

From S2P Require Import Prelude State Strconv.
From stdpp Require Import base gmap strings list pretty relations.
From Stdlib Require Import ZArith Lia Ascii.
#[local] Open Scope string_scope.
#[local] Open Scope list_scope.
#[local] Open Scope Z_scope.

Module Etag.
Import State Strconv.

Inductive EtagError := ErrInvalidEntityETag | ErrInvalidConfigETag.

Definition quote : ascii := ascii_of_nat 34.
Definition newline : string := String (ascii_of_nat 10) EmptyString.
Definition chars (s : string) : list ascii := String.list_ascii_of_string s.
Definition in_range (c : ascii) (lo hi : nat) : bool := ((lo <=? nat_of_ascii c) && (nat_of_ascii c <=? hi))%nat.

(** [^[a-z][a-z0-9_.-]{0,63}$]. *)
Definition role_head (c : ascii) : bool := in_range c 97 122.
Definition role_tail (c : ascii) : bool :=
  in_range c 97 122 || in_range c 48 57 || bool_decide (c = "_"%char) || bool_decide (c = "."%char) || bool_decide (c = "-"%char).
Definition roleKeyPattern (s : string) : bool :=
  match chars s with
  | [] => false
  | c :: cs => role_head c && forallb role_tail cs && (length cs <=? 63)%nat
  end.

Definition isCanonicalPositiveID (value : string) : bool :=
  match ParseInt value with Some id => (0 <? id) && bool_decide (pretty id = value) | None => false end.

Definition EntityETag (kind identity : string) (version : Z) : result string EtagError :=
  let ok := if bool_decide (kind ∈ ["group"; "channel"; "mute"]) then isCanonicalPositiveID identity
            else if bool_decide (kind = "role") then roleKeyPattern identity else false in
  if (version <? 1) || negb ok then Err ErrInvalidEntityETag
  else Ok (String quote (kind +:+ ":" +:+ identity +:+ ":" +:+ pretty version +:+ String quote EmptyString)).

Definition NumericEntityETag (kind : string) (id version : Z) : result string EtagError :=
  if id <=? 0 then Err ErrInvalidEntityETag else EntityETag kind (pretty id) version.

(** A character allowed between the quotes.  Ranging over runes and over bytes
    agree here: the tests only concern ASCII. *)
Definition tag_char (c : ascii) : bool :=
  negb (bool_decide (c = quote)) && negb (bool_decide (c = "\"%char)) &&
  negb (nat_of_ascii c <? 32)%nat && negb (nat_of_ascii c =? 127)%nat.

Definition StrongETagValid (value : string) : bool :=
  let l := chars value in
  if (length l <? 3)%nat || negb (bool_decide (head l = Some quote)) || negb (bool_decide (last l = Some quote)) ||
     existsb (fun c => bool_decide (c = ","%char)) l
  then false
  else forallb tag_char (take (length l - 2) (drop 1 l)).

Record EffectiveConfigETagInput := mkConfigInput {
  ei_Target : Scope; ei_Local : bool; ei_Source : Scope; ei_SourceVersion : Z; ei_Config : string
}.

(** [canonicalJSON] decodes and re-encodes the document, [None] when it is not
    one; [digest] is base64url of SHA-256. *)
Definition EffectiveConfigETag (canonicalJSON : string -> option string) (digest : string -> string)
    (input : EffectiveConfigETagInput) : result string EtagError :=
  if negb (Valid (ei_Target input)) || negb (Valid (ei_Source input)) || (ei_SourceVersion input <? 1)
  then Err ErrInvalidConfigETag
  else match canonicalJSON (ei_Config input) with
       | None => Err ErrInvalidConfigETag
       | Some config =>
           let encoded := "target=" +:+ Key (ei_Target input) +:+ newline +:+ "local=" +:+
             (if ei_Local input then "true" else "false") +:+ newline +:+ "source=" +:+ Key (ei_Source input) +:+ newline +:+
             "source_version=" +:+ pretty (ei_SourceVersion input) +:+ newline +:+ "config=" +:+ config in
           Ok (String quote (digest encoded +:+ String quote EmptyString))
       end.

(** ** Tags identify their resource *)

Definition free (c : ascii) (s : string) : bool := forallb (fun d => negb (bool_decide (d = c))) (chars s).

Fixpoint split_at (c : ascii) (s : string) : string * string :=
  match s with
  | EmptyString => (EmptyString, EmptyString)
  | String d s => if decide (d = c) then (EmptyString, s) else let '(a, b) := split_at c s in (String d a, b)
  end.

Lemma split_at_app c s t : free c s = true -> split_at c (s +:+ String c t) = (s, t).
Proof.
  unfold free, chars. induction s as [|d s IH].
  { intros _. change ((if decide (c = c) then (EmptyString, t) else let '(a, b) := split_at c t in (String c a, b)) = (EmptyString, t)).
    by rewrite decide_True. }
  change (split_at c (String d s +:+ String c t)) with
    (if decide (d = c) then (EmptyString, s +:+ String c t) else let '(a, b) := split_at c (s +:+ String c t) in (String d a, b)).
  cbn [String.list_ascii_of_string forallb]. intros [Hd Hs]%andb_true_iff. apply negb_true_iff, bool_decide_eq_false in Hd. rewrite decide_False by done. by rewrite IH.
Qed.

Lemma split_inj c s s' t t' : free c s = true -> free c s' = true -> s +:+ String c t = s' +:+ String c t' -> s = s' /\ t = t'.
Proof. intros H H' E. apply (f_equal (split_at c)) in E. rewrite !split_at_app in E by done. by injection E. Qed.

Lemma chars_app s t : String.list_ascii_of_string (s +:+ t) = String.list_ascii_of_string s ++ String.list_ascii_of_string t.
Proof. induction s as [|c s IH]; [done|]. cbn. by rewrite <- IH. Qed.

(** A character is one of the decimal digits. *)
Lemma pretty_digits (n : Z) : 0 <= n -> forallb (fun c => in_range c 48 57) (chars (pretty n)) = true.
Proof.
  intros Hn. pose proof (digits_pretty_Z n Hn) as H. assert (H' : digits_from 0 (pretty n) <> None) by (by rewrite H). clear H.
  revert H'. generalize 0 at 1. induction (pretty n) as [|c s IH]; intros acc; [done|]. cbn [digits_from chars String.list_ascii_of_string forallb].
  destruct (digit c) as [d|] eqn:Hd; [|done]. intros Hs. unfold chars in IH. rewrite (IH _ Hs), andb_true_r.
  unfold digit in Hd. destruct (_ && _) eqn:E; [|done]. apply andb_true_iff in E as [E1 E2]. apply Z.leb_le in E1, E2.
  unfold in_range. apply andb_true_iff. split; apply Nat.leb_le; lia.
Qed.

Lemma forallb_impl {A} (p q : A -> bool) l : (forall x, p x = true -> q x = true) -> forallb p l = true -> forallb q l = true.
Proof. intros H. rewrite !forallb_forall. auto. Qed.

(** The characters of the parts of a tag: neither quote, colon nor comma. *)
Definition part_char (c : ascii) : bool := role_tail c.

Lemma part_ok kind identity version t : EntityETag kind identity version = Ok t ->
  forallb part_char (chars kind) = true /\ forallb part_char (chars identity) = true /\
  forallb part_char (chars (pretty version)) = true /\ 1 <= version /\
  t = String quote (kind +:+ ":" +:+ identity +:+ ":" +:+ pretty version +:+ String quote EmptyString).
Proof.
  unfold EntityETag. destruct (Z.ltb_spec version 1) as [|Hv]; [done|]. cbn [orb].
  assert (Hdig : forall n, 0 <= n -> forallb part_char (chars (pretty n)) = true).
  { intros n Hn. eapply forallb_impl; [|by apply pretty_digits]. intros c Hc. unfold part_char, role_tail. rewrite Hc, orb_true_r. done. }
  destruct (bool_decide (kind ∈ ["group"; "channel"; "mute"])) eqn:Hk.
  - destruct (isCanonicalPositiveID identity) eqn:Hid; [|done]. intros [= <-]. unfold isCanonicalPositiveID in Hid.
    destruct (ParseInt identity) as [id|]; [|done]. apply andb_true_iff in Hid as [Hp Hid]. apply Z.ltb_lt in Hp.
    apply bool_decide_eq_true in Hid, Hk. split_and!; [|rewrite <- Hid; apply Hdig; lia|apply Hdig; lia|done|done].
    rewrite !elem_of_cons, elem_of_nil in Hk. destruct Hk as [->|[->|[->|[]]]]; by vm_compute.
  - destruct (bool_decide (kind = "role")) eqn:Hr; [|done]. apply bool_decide_eq_true in Hr. destruct (roleKeyPattern identity) eqn:Hid; [|done]. intros [= <-]. subst kind.
    split_and!; [by vm_compute| |apply Hdig; lia|done|done]. unfold roleKeyPattern in Hid.
    destruct (chars identity) as [|c cs]; [done|]. apply andb_true_iff in Hid as [[H1 H2]%andb_true_iff _]. cbn [forallb].
    apply andb_true_iff. split; [|exact H2]. unfold part_char, role_tail, role_head in *. by rewrite H1.
Qed.

Lemma part_free c s : role_tail c = false -> forallb part_char (chars s) = true -> free c s = true.
Proof.
  intros Hc. apply forallb_impl. intros d Hd. apply negb_true_iff, bool_decide_eq_false. intros ->. unfold part_char in Hd. congruence.
Qed.

(** an entity tag identifies its resource and version.  Two resources get
    the same tag only when kind, identity and version all agree, and every tag
    produced is one the precondition check accepts as a strong tag. *)
Theorem EntityETag_identifies kind identity version kind' identity' version' t :
  EntityETag kind identity version = Ok t -> EntityETag kind' identity' version' = Ok t ->
  kind = kind' /\ identity = identity' /\ version = version' /\ StrongETagValid t = true.
Proof.
  intros H H'. destruct (part_ok _ _ _ _ H) as (K & I & V & Hv & E). destruct (part_ok _ _ _ _ H') as (K' & I' & V' & Hv' & E').
  assert (Eq := E). rewrite E' in Eq. injection Eq as Eq.
  apply split_inj in Eq as [-> Eq]; [|by apply part_free..]. apply split_inj in Eq as [-> Eq]; [|by apply part_free..].
  apply split_inj in Eq as [Eq _]; [|by apply part_free..]. apply (inj pretty) in Eq as ->. split_and!; try done.
  rewrite E. unfold StrongETagValid, chars. cbn [String.list_ascii_of_string].
  rewrite !chars_app. cbn [String.list_ascii_of_string].
  set (m := String.list_ascii_of_string kind ++ _). 
  assert (Hm : exists mid, m = mid ++ [quote] /\ forallb (fun c => part_char c || bool_decide (c = ":"%char)) mid = true /\ mid <> []).
  { exists (String.list_ascii_of_string kind ++ [":"%char] ++ String.list_ascii_of_string identity ++ [":"%char] ++
            String.list_ascii_of_string (pretty version)). split_and!.
    - unfold m. by rewrite <- !app_assoc.
    - assert (W : forall s, forallb part_char (chars s) = true ->
        forallb (fun c => part_char c || bool_decide (c = ":"%char)) (String.list_ascii_of_string s) = true)
        by (intros s; apply forallb_impl; intros c ->; done).
      rewrite !forallb_app. rewrite !W by done. done.
    - intros E0. apply app_eq_nil in E0 as [_ E0]. done. }
  destruct Hm as (mid & -> & Hmid & Hne).
  assert (Hlen : (1 <= length mid)%nat) by (destruct mid; [done|cbn; lia]).
  cbn [length head]. rewrite length_app. cbn [length].
  destruct (Nat.ltb_spec (S (length mid + 1)) 3); [lia|]. cbn [orb]. rewrite bool_decide_true by done. cbn [negb orb].
  change (quote :: mid ++ [quote]) with ((quote :: mid) ++ [quote]). rewrite last_snoc, bool_decide_true by done. cbn [negb orb].
  assert (Hcomma : existsb (fun c => bool_decide (c = ","%char)) ((quote :: mid) ++ [quote]) = false).
  { rewrite existsb_app. cbn [existsb]. rewrite !orb_false_r. apply orb_false_iff. split; [done|].
    apply not_true_iff_false. intros (c & Hin & Hc)%existsb_exists. rewrite forallb_forall in Hmid. specialize (Hmid c Hin).
    apply bool_decide_eq_true in Hc as ->. done. }
  rewrite Hcomma. change (drop 1 ((quote :: mid) ++ [quote])) with (mid ++ [quote]).
  replace (S (length mid + 1) - 2)%nat with (length mid) by lia. rewrite take_app_length.
  eapply forallb_impl; [|exact Hmid]. intros c Hc. unfold part_char, role_tail, in_range, tag_char in *.
  destruct (decide (c = quote)) as [->|Hq]; [done|]. rewrite bool_decide_false by done.
  destruct (decide (c = "\"%char)) as [->|Hb]; [done|]. rewrite bool_decide_false by done. cbn [negb andb].
  apply andb_true_iff. rewrite !negb_true_iff, Nat.ltb_ge, Nat.eqb_neq.
  repeat rewrite orb_true_iff in Hc. rewrite !andb_true_iff, !Nat.leb_le, !bool_decide_eq_true in Hc.
  destruct Hc as [[[[[?|?]| ->]| ->]| ->]| ->]; try (by vm_compute; split; lia); lia.
Qed.

Lemma EntityETag_identifies_witness : exists t, EntityETag "channel" "42" 7 = Ok t /\ StrongETagValid t = true.
Proof.
  destruct (EntityETag "channel" "42" 7) as [t|e] eqn:E; [|vm_compute in E; discriminate]. exists t. split; [done|].
  destruct (EntityETag_identifies "channel" "42" 7 "channel" "42" 7 t E E) as (_ & _ & _ & H). exact H.
Defined.

End Etag.

Module Deadline.

Record DeadlineTask := mkTask { dt_Kind : string; dt_ID : Z; dt_Generation : Z; dt_Deadline : Z }.
#[global] Instance DeadlineTask_eq_dec : EqDecision DeadlineTask.
Proof. solve_decision. Defined.

(** [ds_armed] holds the timer callbacks that may still run, a stopped timer's
    included: [Stop] does not wait for one that has begun.  [ds_fired] is the
    sequence of callback invocations. *)
Record DeadlineScheduler := mkScheduler {
  ds_closed : bool; ds_timers : gmap string DeadlineTask; ds_armed : list DeadlineTask; ds_fired : list DeadlineTask
}.

Definition NewDeadlineScheduler : DeadlineScheduler := mkScheduler false ∅ [] [].

Definition deadlineTaskKey (kind : string) (id : Z) : string := kind +:+ ":" +:+ pretty id.
Definition task_key (t : DeadlineTask) : string := deadlineTaskKey (dt_Kind t) (dt_ID t).

Definition Schedule (s : DeadlineScheduler) (task : DeadlineTask) : DeadlineScheduler :=
  if bool_decide (dt_Kind task = EmptyString) || (dt_ID task <=? 0) || (dt_Generation task =? 0) || (dt_Deadline task <=? 0)
  then s
  else if ds_closed s then s
  else
    let install := mkScheduler (ds_closed s) (<[task_key task := task]> (ds_timers s)) (ds_armed s ++ [task]) (ds_fired s) in
    match ds_timers s !! task_key task with
    | Some active => if dt_Generation task <=? dt_Generation active then s else install
    | None => install
    end.

(** The function given to [time.AfterFunc]. *)
Definition fire (s : DeadlineScheduler) (task : DeadlineTask) : DeadlineScheduler :=
  if ds_closed s || negb (bool_decide (ds_timers s !! task_key task = Some task)) then s
  else mkScheduler (ds_closed s) (delete (task_key task) (ds_timers s)) (ds_armed s) (ds_fired s ++ [task]).

Definition Cancel (s : DeadlineScheduler) (kind : string) (id generation : Z) : DeadlineScheduler :=
  if bool_decide (kind = EmptyString) || (id <=? 0) || (generation =? 0) then s
  else match ds_timers s !! deadlineTaskKey kind id with
       | Some active =>
           if dt_Generation active <=? generation
           then mkScheduler (ds_closed s) (delete (deadlineTaskKey kind id) (ds_timers s)) (ds_armed s) (ds_fired s)
           else s
       | None => s
       end.

(** The part of [Close] before it waits for callbacks in progress. *)
Definition Close (s : DeadlineScheduler) : DeadlineScheduler :=
  if ds_closed s then s else mkScheduler true ∅ (ds_armed s) (ds_fired s).

(** Timers run whenever they like, each armed callback any number of times. *)
Inductive step : DeadlineScheduler -> DeadlineScheduler -> Prop :=
  | st_schedule s t : step s (Schedule s t)
  | st_fire s t : t ∈ ds_armed s -> step s (fire s t)
  | st_cancel s kind id g : step s (Cancel s kind id g)
  | st_close s : step s (Close s).

(** Steps other than a schedule of a task in the slot [k]. *)
Inductive quiet (k : string) : DeadlineScheduler -> DeadlineScheduler -> Prop :=
  | qt_schedule s t : task_key t <> k -> quiet k s (Schedule s t)
  | qt_fire s t : t ∈ ds_armed s -> quiet k s (fire s t)
  | qt_cancel s kind id g : quiet k s (Cancel s kind id g)
  | qt_close s : quiet k s (Close s).

(** The callbacks of slot [k] so far. *)
Definition fired_at (k : string) (s : DeadlineScheduler) : list DeadlineTask := filter (fun t => task_key t = k) (ds_fired s).

Lemma quiet_empty k s s' : quiet k s s' -> ds_timers s !! k = None -> ds_timers s' !! k = None /\ fired_at k s' = fired_at k s.
Proof.
  intros Hq Hk. destruct Hq as [s t Hne|s t Hin|s kind id g|s].
  - unfold Schedule. repeat case_match; try done; cbn; (split; [by rewrite lookup_insert_ne|done]).
  - unfold fire. case_match eqn:G; [done|]. apply orb_false_iff in G as [_ G]. apply negb_false_iff, bool_decide_eq_true in G.
    assert (task_key t <> k) by congruence. cbn. split; [by rewrite lookup_delete_ne|].
    unfold fired_at. cbn. rewrite filter_app, filter_cons_False, filter_nil by done. by rewrite app_nil_r.
  - unfold Cancel. repeat case_match; try done; cbn; (split; [|done]). apply lookup_delete_None. by right.
  - unfold Close. case_match; [done|]. done.
Qed.

Lemma quiet_run k s s' : rtc (quiet k) s s' -> ds_timers s !! k = None -> ds_timers s' !! k = None /\ fired_at k s' = fired_at k s.
Proof.
  induction 1 as [s|s s1 s' H1 _ IH]; intros Hk; [done|]. destruct (quiet_empty _ _ _ H1 Hk) as [Hk1 E1].
  destruct (IH Hk1) as [Hk2 E2]. split; [done|]. by rewrite E2.
Qed.

(** a deadline fires at most once and never after it was cancelled.  After
    [Cancel] at a generation that covers the slot's task, or after the slot's
    callback ran, no timer of that slot runs again, stopped timers that had
    already begun included, until a new task is scheduled in the slot. *)
Theorem deadline_once s s' kind id generation task :
  ds_timers s !! deadlineTaskKey kind id = Some task -> kind <> EmptyString -> 0 < id -> generation <> 0 ->
  (dt_Generation task <= generation -> rtc (quiet (deadlineTaskKey kind id)) (Cancel s kind id generation) s' ->
     fired_at (deadlineTaskKey kind id) s' = fired_at (deadlineTaskKey kind id) s) /\
  (task_key task = deadlineTaskKey kind id -> ds_closed s = false -> rtc (quiet (deadlineTaskKey kind id)) (fire s task) s' ->
     fired_at (deadlineTaskKey kind id) s' = fired_at (deadlineTaskKey kind id) s ++ [task]).
Proof.
  intros Ht Hk Hid Hg. split.
  - intros Hle Hs. unfold Cancel in Hs. rewrite bool_decide_false in Hs by done. cbn [orb] in Hs.
    rewrite (proj2 (Z.leb_gt id 0)), (proj2 (Z.eqb_neq generation 0)) in Hs by done. cbn [orb] in Hs. rewrite Ht in Hs.
    rewrite (proj2 (Z.leb_le _ _) Hle) in Hs. apply quiet_run in Hs as [_ E]; [exact E|]. cbn. apply lookup_delete_eq.
  - intros Hkey Hc Hs. unfold fire in Hs. rewrite Hc, Hkey, Ht, bool_decide_true in Hs by done. cbn [orb negb] in Hs.
    apply quiet_run in Hs as [_ E]; [|cbn; apply lookup_delete_eq]. rewrite E. unfold fired_at. cbn.
    by rewrite filter_app, filter_cons_True, filter_nil by done.
Qed.

Definition ex_task : DeadlineTask := mkTask "mute" 4 2 100.
Lemma deadline_once_witness :
  fired_at "mute:4" (Cancel (Schedule NewDeadlineScheduler ex_task) "mute" 4 2) = [].
Proof.
  destruct (deadline_once (Schedule NewDeadlineScheduler ex_task) (Cancel (Schedule NewDeadlineScheduler ex_task) "mute" 4 2)
    "mute" 4 2 ex_task) as [H _]; [by vm_compute|done|done|done|].
  exact (H ltac:(cbn; lia) (rtc_refl _ _)).
Defined.

End Deadline.

Module MutationGate.

(** [permit] is the one-element channel; holders are the acquisitions not yet
    released. *)
Record Gate := mkGate { permit : bool; holders : nat }.
Definition NewMutationGate : Gate := mkGate true 0.

Inductive Acquired := Granted (g : Gate) | Cancelled | Blocked.

(** [cancelled]: the context is done; with both cases of the select ready Go
    picks either, given by [prefer_ctx]. *)
Definition Acquire (g : Gate) (cancelled prefer_ctx : bool) : Acquired :=
  if cancelled && (prefer_ctx || negb (permit g)) then Cancelled
  else if permit g then Granted (mkGate false (S (holders g))) else Blocked.
Definition Release (g : Gate) : Gate := mkGate true (pred (holders g)).

Inductive step : Gate -> Gate -> Prop :=
  | st_acquire g c p g' : Acquire g c p = Granted g' -> step g g'
  | st_release g : (0 < holders g)%nat -> step g (Release g).

(** At most one mutation holds the gate, and the gate is free exactly when none does. *)
Theorem gate_exclusive g : rtc step NewMutationGate g -> (holders g <= 1)%nat /\ (permit g = true <-> holders g = 0%nat).
Proof.
  assert (H : forall g g', rtc step g g' -> (holders g <= 1)%nat /\ (permit g = true <-> holders g = 0%nat) ->
    (holders g' <= 1)%nat /\ (permit g' = true <-> holders g' = 0%nat)).
  { induction 1 as [|a b c Hab _ IH]; [done|]. intros [Ha Hp]. apply IH. destruct Hab as [g0 cc p g' Hac|g0 Hh].
    - unfold Acquire in Hac. destruct (_ && _); [done|]. destruct (permit g0) eqn:E; [|done]. injection Hac as <-. cbn.
      assert (holders g0 = 0%nat) by (by apply Hp). split; [lia|]. split; [done|lia].
    - cbn. split; [lia|]. split; [lia|done]. }
  intros Hr. apply (H _ _ Hr). cbn. split; [lia|done].
Qed.

End MutationGate.
