(* ===== verification/Snapshot.v ===== *)
(** * Snapshot: what one recipient may see ([realtime/sync.go])

    The projection of one immutable state version for one user, shared by HTTP
    snapshots, visibility fragments, replay and live delivery: the snapshot
    document, the privacy rule of presence, the recipients of an event, the
    epoch a cursor proves, and the fragments of a newly visible scope
    ([realtime/publication.go]).  JSON encoders are arguments. *)

From S2P Require Import Prelude State StateRing Visibility.
From stdpp Require Import base gmap strings list fin_maps sorting pretty.
From Stdlib Require Import ZArith Lia.
#[local] Open Scope string_scope.
#[local] Open Scope list_scope.
#[local] Open Scope Z_scope.

Module Snapshot.
Import State StateRing Visibility.

(** ** The document *)

Record SnapshotServer := mkServer { sv_Name : string; sv_Version : string }.
Record SnapshotUser := mkSUser { su_ID : string; su_Username : string; su_Nickname : string; su_Avatar : option string }.
Record SnapshotPresence := mkSPresence { sp_Status : string; sp_Activity : option PresenceActivity }.
Record SnapshotUserPresence := mkSUP {
  up_UserID : string; up_Nickname : string; up_Avatar : option string; up_Presence : SnapshotPresence
}.
Record SnapshotRole := mkSRole { sr_Key : string; sr_DisplayName : string; sr_Rank : Z; sr_Builtin : bool }.
Record SnapshotGroup := mkSGroup {
  sg_ID : string; sg_Name : string; sg_Position : Z; sg_Visibility : string; sg_Version : string
}.
Record SnapshotChannel := mkSChannel {
  sch_ID : string; sch_GroupID : option string; sch_Name : string; sch_Mode : string; sch_Temporary : bool;
  sch_Visibility : string; sch_Capacity : Z; sch_Position : Z; sch_Pinned : bool; sch_Version : string
}.
Record SnapshotVoiceMembership := mkSMember { sm_UserID : string; sm_ChannelID : string; sm_JoinedAt : Z }.
Record SnapshotVoiceAuthority := mkSVoice {
  sva_ChannelID : string; sva_ControlConnectionID : string; sva_VoiceSessionID : string;
  sva_VoiceAuthorityGeneration : string
}.
Record SnapshotSelf := mkSelf {
  sf_User : SnapshotUser; sf_ServerRoleKeys : list string; sf_ServerPermissions : list string;
  sf_Presence : SnapshotPresence; sf_VoiceAuthority : option SnapshotVoiceAuthority
}.
Record SnapshotState := mkSState {
  ss_Server : SnapshotServer; ss_Self : SnapshotSelf; ss_Users : list SnapshotUserPresence;
  ss_Roles : list SnapshotRole; ss_Groups : list SnapshotGroup; ss_Channels : list SnapshotChannel;
  ss_VoiceMemberships : list SnapshotVoiceMembership
}.

(** ** Display accessors of [state.go] *)

Definition sort_strings (l : list string) : list string := merge_sort String.le l.

Definition pos_le {A} (pos id : A -> Z) (x y : A) : Prop := pos x < pos y \/ pos x = pos y /\ id x <= id y.
#[global] Instance pos_le_dec {A} (pos id : A -> Z) : RelDecision (pos_le pos id).
Proof. intros x y. unfold pos_le. apply _. Defined.

Definition role_le (r s : Role) : Prop := String.le (ro_Key r) (ro_Key s).
#[global] Instance role_le_dec : RelDecision role_le.
Proof. intros r s. unfold role_le. apply _. Defined.

Definition Roles (v : StateVersion) : list Role := merge_sort role_le ((map_to_list (roles (persistent v))).*2).
Definition Groups (v : StateVersion) : list Group :=
  merge_sort (pos_le gr_Position gr_ID) ((map_to_list (groups (persistent v))).*2).
Definition Channels (v : StateVersion) : list Channel :=
  merge_sort (pos_le ch_Position ch_ID) ((map_to_list (channels (persistent v))).*2).

(** ** Presence and its privacy *)

Definition snapshotPresenceValue (recipientID subjectID : Z) (p : Presence) : SnapshotPresence :=
  if negb (recipientID =? subjectID) && bool_decide (pr_Status p = "invisible") then mkSPresence "offline" None
  else mkSPresence (pr_Status p)
         (match pr_Activity p with
          | Some a => if (recipientID =? subjectID) || bool_decide (pa_Privacy a = "public") then Some a else None
          | None => None
          end).

Definition snapshotPresenceFor (recipientID subjectID : Z) (v : StateVersion) : SnapshotPresence :=
  snapshotPresenceValue recipientID subjectID (getPresence v subjectID).

Definition snapshotUserPresenceFromState (recipientID : Z) (state : User * Presence) : SnapshotUserPresence :=
  mkSUP (pretty (us_ID state.1)) (us_Nickname state.1) (us_Avatar state.1)
    (snapshotPresenceValue recipientID (us_ID state.1) state.2).

(** The zero [User]. *)
Definition no_user : User := mkUser 0 EmptyString EmptyString None 0 false 0 0.

Definition snapshotUserPresenceFor (recipientID subjectID : Z) (v : StateVersion) : SnapshotUserPresence :=
  snapshotUserPresenceFromState recipientID (default no_user (getUser v subjectID), getPresence v subjectID).
Definition SnapshotUserPresenceFor (recipientID subjectID : Z) (v : StateVersion) : SnapshotUserPresence :=
  snapshotUserPresenceFor recipientID subjectID v.

Definition snapshotUser (u : User) : SnapshotUser := mkSUser (pretty (us_ID u)) (us_Username u) (us_Nickname u) (us_Avatar u).

(** ["%x"] of a byte array. *)
Definition hex_digit (n : Z) : Ascii.ascii :=
  Ascii.ascii_of_nat (Z.to_nat (if n <? 10 then 48 + n else 87 + n)).
Definition hex_bytes (b : bytes) : string :=
  String.string_of_list_ascii (b ≫= fun x => [hex_digit (x / 16); hex_digit (x mod 16)]).

Definition snapshotVoiceAuthorityValue (a : option VoiceAuthority) : option SnapshotVoiceAuthority :=
  match a with
  | None => None
  | Some a => Some (mkSVoice (pretty (va_ChannelID a)) (hex_bytes (va_ControlConnectionID a)) (hex_bytes (va_VoiceSessionID a))
                      (pretty (va_VoiceAuthorityGeneration a)))
  end.
Definition snapshotVoiceAuthorityFor (userID : Z) (v : StateVersion) : option SnapshotVoiceAuthority :=
  snapshotVoiceAuthorityValue (getVoiceAuthority v userID).

Definition snapshotGroup (g : Group) : SnapshotGroup :=
  mkSGroup (pretty (gr_ID g)) (gr_Name g) (gr_Position g) (gr_Visibility g) (pretty (gr_Version g)).
Definition snapshotChannel (c : Channel) : SnapshotChannel :=
  mkSChannel (pretty (ch_ID c)) (pretty <$> ch_GroupID c) (ch_Name c) (ch_Mode c) (ch_Temporary c) (ch_Visibility c)
    (ch_Capacity c) (ch_Position c) (ch_Pinned c) (pretty (ch_Version c)).
Definition snapshotMembership (a : VoiceAuthority) : SnapshotVoiceMembership :=
  mkSMember (pretty (va_UserID a)) (pretty (va_ChannelID a)) (va_JoinedAt a).

(** ** The projection *)

Section Project.
(** [grants] decodes a permission document into its role map; [version_text] is
    the build's version. *)
Context (grants : string -> option (gmap string (list string))) (version_text : string).

(** Append the permissions not seen yet, in order. *)
Definition collect_permission (acc : gset string * list string) (p : string) : gset string * list string :=
  if decide (p ∈ acc.1) then acc else ({[p]} ∪ acc.1, acc.2 ++ [p]).

Definition snapshotServerPermissions (roleKeys : list string) (v : StateVersion) : list string :=
  if bool_decide ("owner" ∈ roleKeys) then ["*"]
  else match getConfig v server_scope with
       | None => []
       | Some config =>
           match grants (pc_Config config) with
           | None => []
           | Some m =>
               sort_strings (fold_left collect_permission (roleKeys ≫= fun k => default [] (m !! k)) (∅, [])).2
           end
       end.

Definition server_role_keys (userID : Z) (v : StateVersion) : list string :=
  sort_strings (rb_RoleKey <$> filter (fun b => sc_Type (rb_Scope b) = "server") (Bindings v userID)).

Definition snapshotStateFor (userID : Z) (v : StateVersion) : SnapshotState :=
  let roleKeys := server_role_keys userID v in
  mkSState (mkServer "ZephyrVox" version_text)
    (mkSelf (snapshotUser (default no_user (getUser v userID))) roleKeys (snapshotServerPermissions roleKeys v)
       (snapshotPresenceFor userID userID v) (snapshotVoiceAuthorityFor userID v))
    ((fun u => snapshotUserPresenceFor userID (us_ID u) v) <$> Users v)
    ((fun r => mkSRole (ro_Key r) (ro_DisplayName r) (ro_Rank r) (ro_Builtin r)) <$> Roles v)
    (snapshotGroup <$> filter (fun g => CanSeeGroup userID (gr_ID g) (Some v) = true) (sort_by gr_ID (Groups v)))
    (snapshotChannel <$> filter (fun c => CanAccessChannel userID (ch_ID c) (Some v) = true) (sort_by ch_ID (Channels v)))
    (snapshotMembership <$> filter (fun a => CanAccessChannel userID (va_ChannelID a) (Some v) = true) (VoiceAuthorities v)).

Definition SnapshotSelfFor (userID : Z) (v : StateVersion) : SnapshotSelf := ss_Self (snapshotStateFor userID v).

(** ** Events and their recipients *)

Definition eventVisibleTo (userID : Z) (e : StateEvent) (v : StateVersion) : bool :=
  if (DeliveryPolicy e =? StateDeliveryDirectTransition) || (DeliveryPolicy e =? StateDeliveryUserTargeted)
  then RecipientUserID e =? userID
  else if DeliveryPolicy e =? StateDeliveryVisibleBefore then bool_decide (userID ∈ VisibleBeforeUserIDs e)
  else if bool_decide (sc_Type (EvScope e) = "server") then bool_decide (is_Some (getUser v userID))
  else if bool_decide (sc_Type (EvScope e) = "group") then CanSeeGroup userID (sc_ID (EvScope e)) (Some v)
  else if bool_decide (sc_Type (EvScope e) = "channel") then CanAccessChannel userID (sc_ID (EvScope e)) (Some v)
  else false.

(** [sort.Search]: binary search for the first index of [0..n) that satisfies
    [f]; [fuel] bounds the number of halvings. *)
Fixpoint search (f : nat -> bool) (fuel i j : nat) : nat :=
  match fuel with
  | O => i
  | S fuel => if (i <? j)%nat
              then let h := ((i + j) / 2)%nat in if f h then search f fuel i h else search f fuel (S h) j
              else i
  end.
Definition sort_Search (n : nat) (f : nat -> bool) : nat := search f (S n) 0 n.

Definition cursorEpochForEvent (e : StateEvent) (userID : Z) (v : StateVersion) : Z :=
  if HasCursorVisibilityEpoch e then CursorVisibilityEpoch e
  else
    let l := cursorVisibilityEpochs e in
    let index := sort_Search (length l) (fun i => match l !! i with Some (u, _) => userID <=? u | None => false end) in
    match l !! index with
    | Some (u, epoch) => if u =? userID then epoch else VisibilityEpoch v userID
    | None => VisibilityEpoch v userID
    end.

Definition projected_event (e : StateEvent) : bool :=
  (0 <? SubjectUserID e) && bool_decide (EventType e ∈ ["user.created"; "user.updated"; "presence.updated"]).

(** [json_user] encodes the recipient's projection of the event's subject. *)
Definition encodeEventForRecipient (json_Valid : bytes -> bool) (json_Marshal : stateEventEnvelope -> option bytes)
    (json_user : SnapshotUserPresence -> option bytes) (e : StateEvent) (recipientID : Z) (v : StateVersion)
    (cursor : string) : result bytes RingError :=
  if projected_event e then
    let projected := match subjectState e with
                     | Some s => snapshotUserPresenceFromState recipientID s
                     | None => SnapshotUserPresenceFor recipientID (SubjectUserID e) v
                     end in
    match json_user projected with
    | None => Err ErrEncode
    | Some data => EncodedWithDataAndCursor json_Valid json_Marshal e (Some data) cursor
    end
  else EncodedWithDataAndCursor json_Valid json_Marshal e (Data e) cursor.

Definition eventsAfterCapture (evs : list StateEvent) (highWater geid : Z) : list StateEvent * bool :=
  if highWater <? geid then ([], false)
  else match evs with
       | [] => ([], geid =? highWater)
       | first :: _ =>
           if geid <? u64 (GEID first - 1) then ([], false)
           else
             let start := match list_find (fun e => geid < GEID e) evs with Some (i, _) => i | None => length evs end in
             (drop start evs, true)
       end.

(** ** Fragments of a newly visible scope ([publication.go]) *)

Definition maxVisibilityFragmentBytes : Z := Z.shiftl 128 10.

Inductive FragmentError := FragmentTooLarge | FragmentEncode | FragmentMissing.

Section Split.
(** [encode ids]: the document of a group with those visible children. *)
Context (encode : list string -> option bytes).

(** The inner loop: [acc] fits and encodes to [data]; try one more identifier. *)
Fixpoint grow (acc : list string) (data : bytes) (rest : list string) : result (bytes * list string) FragmentError :=
  match rest with
  | [] => Ok (data, [])
  | id :: rest' =>
      match encode (acc ++ [id]) with
      | None => Err FragmentEncode
      | Some longer =>
          if maxVisibilityFragmentBytes <? len longer then
            match encode acc with None => Err FragmentEncode | Some data => Ok (data, rest) end
          else grow (acc ++ [id]) longer rest'
      end
  end.

(** One part from the front of a non-empty list. *)
Definition next_part (id : string) (rest : list string) : result (bytes * list string) FragmentError :=
  match encode [id] with
  | None => Err FragmentEncode
  | Some data => if maxVisibilityFragmentBytes <? len data then Err FragmentTooLarge else grow [id] data rest
  end.

Fixpoint split_parts (fuel : nat) (ids : list string) : result (list bytes) FragmentError :=
  match fuel, ids with
  | _, [] => Ok []
  | O, _ => Ok []
  | S fuel, id :: rest =>
      part <-? next_part id rest ;;
      parts <-? split_parts fuel part.2 ;;
      Ok (part.1 :: parts)
  end.

Definition splitGroupFragment (childIDs : list string) : result (list bytes) FragmentError :=
  match childIDs with
  | [] => match encode [] with
          | Some data => if maxVisibilityFragmentBytes <? len data then Err FragmentTooLarge else Ok [data]
          | None => Err FragmentTooLarge
          end
  | _ => split_parts (length childIDs) childIDs
  end.

(** *** Fragments cover the children *)

Lemma grow_spec acc data rest d rest' : encode acc = Some data -> len data <= maxVisibilityFragmentBytes ->
  grow acc data rest = Ok (d, rest') ->
  exists more, rest = more ++ rest' /\ encode (acc ++ more) = Some d /\ len d <= maxVisibilityFragmentBytes.
Proof using.
  revert acc data. induction rest as [|id rest IH]; intros acc data He Hd; cbn [grow].
  - intros [= <- <-]. exists []. by rewrite !app_nil_r.
  - destruct (encode (acc ++ [id])) as [longer|] eqn:El; [|done].
    destruct (Z.ltb_spec maxVisibilityFragmentBytes (len longer)) as [Hlt|Hge].
    + rewrite He. intros [= <- <-]. exists []. by rewrite !app_nil_r.
    + intros Hg. destruct (IH _ _ El Hge Hg) as (more & -> & Hm & Hl). exists (id :: more). by rewrite <- app_assoc in Hm.
Qed.

Lemma split_parts_spec fuel ids parts : (length ids <= fuel)%nat -> split_parts fuel ids = Ok parts ->
  exists chunks, concat chunks = ids /\ Forall (fun c => c <> []) chunks /\
    Forall2 (fun c p => encode c = Some p /\ len p <= maxVisibilityFragmentBytes) chunks parts.
Proof using.
  revert ids parts. induction fuel as [|fuel IH]; intros [|id rest] parts Hf; cbn [split_parts]; cbn in Hf.
  - intros [= <-]. exists []. split_and!; [done|constructor|constructor].
  - lia.
  - intros [= <-]. exists []. split_and!; [done|constructor|constructor].
  - intros ([d rest'] & Hn & Hp)%rbind_Ok. apply rbind_Ok in Hp as (parts' & Hp & [= <-]). cbn [fst snd] in *.
    unfold next_part in Hn. destruct (encode [id]) as [d0|] eqn:He; [|done].
    destruct (Z.ltb_spec maxVisibilityFragmentBytes (len d0)) as [|Hd0]; [done|].
    destruct (grow_spec _ _ _ _ _ He Hd0 Hn) as (more & -> & Hm & Hl). rewrite length_app in Hf.
    destruct (IH rest' parts') as (chunks & <- & Hne & Hch); [lia|done|].
    exists ((id :: more) :: chunks). split_and!; [done|by constructor|by constructor].
Qed.

Lemma split_parts_total fuel ids : (length ids <= fuel)%nat ->
  (forall l, encode l <> None) -> (forall id d, encode [id] = Some d -> len d <= maxVisibilityFragmentBytes) ->
  exists parts, split_parts fuel ids = Ok parts.
Proof using.
  intros Hf Henc Hone. revert ids Hf. induction fuel as [|fuel IH]; intros [|id rest] Hf; cbn [split_parts]; cbn in Hf; try by eexists.
  unfold next_part. destruct (encode [id]) as [d|] eqn:He; [|by apply Henc in He].
  specialize (Hone _ _ He). destruct (Z.ltb_spec maxVisibilityFragmentBytes (len d)); [lia|].
  assert (Hg : forall rest acc data, encode acc = Some data -> exists p, grow acc data rest = Ok p /\ (length p.2 <= length rest)%nat).
  { clear -Henc. induction rest as [|x rest IH]; intros acc data Ha; cbn [grow]; [by eexists|].
    destruct (encode (acc ++ [x])) as [l|] eqn:El; [|by apply Henc in El]. case_match.
    - rewrite Ha. eexists. by split.
    - destruct (IH _ _ El) as (p & -> & Hp). exists p. split; [done|cbn; lia]. }
  destruct (Hg rest [id] d He) as ([d' rest'] & -> & Hl). cbn [rbind fst snd] in *.
  destruct (IH rest') as (parts & ->); [cbn in Hl; lia|]. by eexists.
Qed.

(** a group's fragments are a partition of its visible children.  Whenever
    splitting succeeds, the parts encode, in order, non-empty runs of the
    children whose concatenation is all of them (or the one empty part), each
    within 128 KiB; and splitting succeeds whenever every single child fits. *)
Theorem splitGroupFragment_partition childIDs :
  (forall parts, splitGroupFragment childIDs = Ok parts ->
     exists chunks, concat chunks = childIDs /\ (childIDs <> [] -> Forall (fun c => c <> []) chunks) /\
       Forall2 (fun c p => encode c = Some p /\ len p <= maxVisibilityFragmentBytes) chunks parts) /\
  ((forall l, encode l <> None) -> (forall d, encode [] = Some d -> len d <= maxVisibilityFragmentBytes) ->
   (forall id d, encode [id] = Some d -> len d <= maxVisibilityFragmentBytes) ->
     exists parts, splitGroupFragment childIDs = Ok parts /\ parts <> []).
Proof using.
  unfold splitGroupFragment. destruct childIDs as [|id rest].
  - split.
    + intros parts. destruct (encode []) as [d|] eqn:He; [|done].
      destruct (Z.ltb_spec maxVisibilityFragmentBytes (len d)); [done|]. intros [= <-]. exists [[]]. split_and!; [done|done|].
      by repeat constructor.
    + intros Henc H0 _. destruct (encode []) as [d|] eqn:He; [|by apply Henc in He].
      destruct (Z.ltb_spec maxVisibilityFragmentBytes (len d)); [specialize (H0 _ eq_refl); lia|]. by eexists.
  - split.
    + intros parts Hp. destruct (split_parts_spec _ _ _ (le_n _) Hp) as (chunks & ? & ? & ?). by exists chunks.
    + intros Henc _ Hone. destruct (split_parts_total _ _ (le_n (length (id :: rest))) Henc Hone) as (parts & Hp).
      exists parts. split; [done|]. destruct (split_parts_spec _ _ _ (le_n _) Hp) as (chunks & Hc & _ & Hf).
      intros ->. inversion Hf; subst. done.
Qed.

End Split.

(** [json_group] and [json_channel] encode the two fragment documents. *)
Definition visibilityFragmentPayloads (json_group : SnapshotGroup -> list string -> option bytes)
    (json_channel : option SnapshotGroup -> SnapshotChannel -> list SnapshotVoiceMembership -> option bytes)
    (userID : Z) (scope : Scope) (v : StateVersion) : result (list bytes) FragmentError :=
  let state := snapshotStateFor userID v in
  if bool_decide (sc_Type scope = "group") then
    match list_find (fun g => sg_ID g = pretty (sc_ID scope)) (ss_Groups state) with
    | None => Err FragmentMissing
    | Some (_, group) =>
        let childIDs := sch_ID <$> filter (fun c => sch_GroupID c = Some (sg_ID group)) (ss_Channels state) in
        splitGroupFragment (json_group group) (sort_strings childIDs)
    end
  else if bool_decide (sc_Type scope = "channel") then
    match list_find (fun c => sch_ID c = pretty (sc_ID scope)) (ss_Channels state) with
    | None => Err FragmentMissing
    | Some (_, channel) =>
        let parent := match sch_GroupID channel with
                      | Some gid => snd <$> list_find (fun g => sg_ID g = gid) (ss_Groups state)
                      | None => None
                      end in
        let members := filter (fun m => sm_ChannelID m = sch_ID channel) (ss_VoiceMemberships state) in
        match json_channel parent channel members with
        | Some data => if maxVisibilityFragmentBytes <? len data then Err FragmentTooLarge else Ok [data]
        | None => Err FragmentTooLarge
        end
    end
  else Err FragmentMissing.

(** ** Theorems *)

Lemma elem_of_map_values {A} (m : gmap Z A) x : x ∈ (map_to_list m).*2 <-> exists k, m !! k = Some x.
Proof using.
  rewrite list_elem_of_fmap. split.
  - intros ([k a] & -> & Hin%elem_of_map_to_list). by exists k.
  - intros [k Hk]. exists (k, x). split; [done|]. by apply elem_of_map_to_list.
Qed.

Lemma elem_of_values_in_order {A} (m : gmap Z A) x : x ∈ values_in_key_order m <-> exists k, m !! k = Some x.
Proof using.
  unfold values_in_key_order, sortedIntKeys. rewrite list_elem_of_omap. split.
  - intros (k & _ & Hk). eauto.
  - intros [k Hk]. exists k. split; [|done]. rewrite elem_of_sort_by, elem_of_keys. eauto.
Qed.

(** What [recipient] is shown of the presence [p] of [subject]: their own as it is;
    of another user an invisible status as offline without activity, and an
    activity only when it is public. *)
Record presence_shown (recipient subject : Z) (p : Presence) (q : SnapshotPresence) : Prop := {
  ps_own : recipient = subject -> sp_Status q = pr_Status p /\ sp_Activity q = pr_Activity p;
  ps_status : recipient <> subject -> sp_Status q = (if decide (pr_Status p = "invisible") then "offline" else pr_Status p);
  ps_activity : recipient <> subject -> forall a, sp_Activity q = Some a <->
    pr_Status p <> "invisible" /\ pr_Activity p = Some a /\ pa_Privacy a = "public"
}.

Lemma snapshotPresenceValue_shown u w p : presence_shown u w p (snapshotPresenceValue u w p).
Proof using Type.
  unfold snapshotPresenceValue. destruct (Z.eqb_spec u w) as [->|Hne]; cbn [negb andb orb].
  - split; [|done..]. intros _. cbn. by destruct (pr_Activity p).
  - split; [done| |]; intros _; case_bool_decide as Hi; cbn [sp_Status sp_Activity].
    + by rewrite decide_True.
    + by rewrite decide_False.
    + intros a. split; [done|]. by intros [? _].
    + intros a. destruct (pr_Activity p) as [b|]; [|split; [done|]; by intros (_ & ? & _)].
      case_bool_decide as Hp; [|split; [done|]; intros (_ & [= ->] & ?); done].
      split; [intros [= <-]; done|]. by intros (_ & ? & _).
Qed.

(** What [recipient] is shown of the user [s] whose presence is [p]. *)
Record user_shown (recipient : Z) (s : User) (p : Presence) (x : SnapshotUserPresence) : Prop := {
  ush_profile : up_UserID x = pretty (us_ID s) /\ up_Nickname x = us_Nickname s /\ up_Avatar x = us_Avatar s;
  ush_presence : presence_shown recipient (us_ID s) p (up_Presence x)
}.

Lemma snapshotUserPresence_shown u v k s : users (persistent v) !! k = Some s -> us_ID s = k ->
  user_shown u s (getPresence v k) (snapshotUserPresenceFor u (us_ID s) v).
Proof using Type.
  intros Hk HID. unfold snapshotUserPresenceFor, snapshotUserPresenceFromState, getUser. rewrite HID, Hk. cbn [default fst snd].
  unfold id. split; [done|]. cbn [up_Presence]. rewrite HID. apply snapshotPresenceValue_shown.
Qed.

Lemma sortedIntKeys_sorted {A} (m : gmap Z A) : StronglySorted Z.lt (sortedIntKeys m).
Proof using Type.
  assert (Hnd : NoDup (sortedIntKeys m)) by (unfold sortedIntKeys; rewrite sort_by_perm; apply NoDup_fst_map_to_list).
  revert Hnd. unfold sortedIntKeys. induction (sort_by_sorted id (map_to_list m).*1) as [|k l _ IH Hk]; intros Hnd; [constructor|].
  apply NoDup_cons in Hnd as [Hni Hnd]. constructor; [by apply IH|]. rewrite Forall_forall in Hk |- *. intros x Hx.
  specialize (Hk x Hx). unfold by_key in Hk. cbn in Hk. assert (k <> x) by (by intros ->). lia.
Qed.

(** C28: a snapshot shows a recipient exactly what it may see.  It lists the
    groups and channels visible to it, no others; voice memberships of those
    channels only; its own presence as it is and its own voice authority; and
    one entry per user, in the order of their identifiers, which shows an
    invisible user to others as offline without activity, an activity to others
    only when it is public, and the profile as stored. *)
Theorem snapshot_exact u v : (forall k s, users (persistent v) !! k = Some s -> us_ID s = k) ->
  (forall x, x ∈ ss_Groups (snapshotStateFor u v) <->
     exists k g, groups (persistent v) !! k = Some g /\ group_visible v u (gr_ID g) /\ x = snapshotGroup g) /\
  (forall x, x ∈ ss_Channels (snapshotStateFor u v) <->
     exists k c, channels (persistent v) !! k = Some c /\ channel_visible v u (ch_ID c) /\ x = snapshotChannel c) /\
  (forall x, x ∈ ss_VoiceMemberships (snapshotStateFor u v) <->
     exists k a, voiceAuthorities (runtime v) !! k = Some a /\ channel_visible v u (va_ChannelID a) /\ x = snapshotMembership a) /\
  presence_shown u u (getPresence v u) (sf_Presence (ss_Self (snapshotStateFor u v))) /\
  sf_VoiceAuthority (ss_Self (snapshotStateFor u v)) = snapshotVoiceAuthorityValue (voiceAuthorities (runtime v) !! u) /\
  exists ids, StronglySorted Z.lt ids /\ (forall k, k ∈ ids <-> is_Some (users (persistent v) !! k)) /\
    Forall2 (fun k x => exists s, users (persistent v) !! k = Some s /\ user_shown u s (getPresence v k) x)
      ids (ss_Users (snapshotStateFor u v)).
Proof using Type.
  intros Hkey. cbn [ss_Groups ss_Channels ss_VoiceMemberships ss_Users ss_Self sf_Presence sf_VoiceAuthority snapshotStateFor]. split_and!.
  - intros x. rewrite list_elem_of_fmap. setoid_rewrite list_elem_of_filter. setoid_rewrite elem_of_sort_by.
    unfold Groups. setoid_rewrite merge_sort_Permutation. setoid_rewrite elem_of_map_values. setoid_rewrite CanSeeGroup_spec.
    split; [intros (g & -> & Hv & k & Hk)|intros (k & g & Hk & Hv & ->)]; eauto 10.
  - intros x. rewrite list_elem_of_fmap. setoid_rewrite list_elem_of_filter. setoid_rewrite elem_of_sort_by.
    unfold Channels. setoid_rewrite merge_sort_Permutation. setoid_rewrite elem_of_map_values. setoid_rewrite CanAccessChannel_spec.
    split; [intros (g & -> & Hv & k & Hk)|intros (k & g & Hk & Hv & ->)]; eauto 10.
  - intros x. rewrite list_elem_of_fmap. setoid_rewrite list_elem_of_filter. unfold VoiceAuthorities.
    setoid_rewrite elem_of_values_in_order. setoid_rewrite CanAccessChannel_spec.
    split; [intros (g & -> & Hv & k & Hk)|intros (k & g & Hk & Hv & ->)]; eauto 10.
  - apply snapshotPresenceValue_shown.
  - done.
  - exists (sortedIntKeys (users (persistent v))). split; [apply sortedIntKeys_sorted|].
    split; [intros k; unfold sortedIntKeys; by rewrite elem_of_sort_by, elem_of_keys|].
    unfold Users, values_in_key_order. assert (Hin : Forall (fun k => is_Some (users (persistent v) !! k)) (sortedIntKeys (users (persistent v)))).
    { apply Forall_forall. intros k Hk. unfold sortedIntKeys in Hk. by rewrite elem_of_sort_by, elem_of_keys in Hk. }
    induction Hin as [|k ids [s Hs] _ IH]; [constructor|]. cbn [omap list_omap]. rewrite Hs. constructor; [|exact IH].
    exists s. split; [done|]. by apply snapshotUserPresence_shown, Hkey.
Qed.

(** The capture's replay is the ring's: computing the events after a cursor
    from a captured slice and high-water mark gives what the ring itself
    answers, the refusal of a cursor that is too old or in the future included. *)
Lemma eventsAfterCapture_ring (r : StateRing) geid :
  eventsAfterCapture (events r) (highWater r) geid = EventsAfter r geid.
Proof using.
  unfold eventsAfterCapture, EventsAfter, cloneStateEvents. destruct (highWater r <? geid); [done|].
  destruct (events r) as [|first evs] eqn:E; [done|]. destruct (geid <? u64 (GEID first - 1)); [done|]. f_equal.
  rewrite <- E. clear E. induction (events r) as [|e l IH]; [done|]. cbn [suffix_after list_find].
  destruct (Z.ltb_spec geid (GEID e)) as [Hlt|Hge]; [by rewrite decide_True|]. rewrite decide_False by lia.
  rewrite <- IH. by destruct (list_find _ l) as [[i x]|].
Qed.

(** *** The epoch override of an event *)

Lemma search_first f fuel i j : (i <= j)%nat -> (j - i < fuel)%nat ->
  (forall a b, (a <= b)%nat -> (b < j)%nat -> f a = true -> f b = true) ->
  let k := search f fuel i j in
  (i <= k <= j)%nat /\ (forall a, (i <= a < k)%nat -> f a = false) /\ ((k < j)%nat -> f k = true).
Proof using.
  revert i j. induction fuel as [|fuel IH]; intros i j Hij Hf Hmono; [lia|]. cbn [search].
  destruct (Nat.ltb_spec i j) as [Hlt|Hge]; [|split_and!; [lia|lia|lia|lia]].
  set (h := ((i + j) / 2)%nat). assert (Hh : (i <= h < j)%nat).
  { subst h. split; [apply Nat.div_le_lower_bound; lia|apply Nat.div_lt_upper_bound; lia]. }
  clearbody h. destruct (f h) eqn:Ef.
  - destruct (IH i h) as (H1 & H2 & H3); [lia|lia|intros a b ? ? ?; apply (Hmono a b); [lia|lia|done]|].
    split_and!; [lia|lia|done|]. intros Hk. destruct (decide (search f fuel i h = h)) as [->|]; [done|apply H3; lia].
  - destruct (IH (S h) j) as (H1 & H2 & H3); [lia|lia|done|]. split_and!; [lia|lia| |done].
    intros a Ha. destruct (decide (S h <= a)%nat); [apply H2; lia|]. destruct (f a) eqn:Efa; [|done].
    rewrite (Hmono a h) in Ef; [done|lia|lia|done].
Qed.

(** The binary search for a recipient's cursor epoch is a table lookup: for
    overrides sorted by user, an event without an explicit epoch proves the
    recipient's overridden epoch if it has one and its current epoch otherwise. *)
Lemma cursorEpoch_lookup e u v : StronglySorted Z.lt (cursorVisibilityEpochs e).*1 -> HasCursorVisibilityEpoch e = false ->
  (forall epoch, (u, epoch) ∈ cursorVisibilityEpochs e -> cursorEpochForEvent e u v = epoch) /\
  (u ∉ (cursorVisibilityEpochs e).*1 -> cursorEpochForEvent e u v = VisibilityEpoch v u).
Proof using.
  intros Hs Hh. unfold cursorEpochForEvent. rewrite Hh. set (l := cursorVisibilityEpochs e) in *.
  set (f := fun i => match l !! i with Some (w, _) => u <=? w | None => false end).
  assert (Hsorted : forall a b x y, (a < b)%nat -> l !! a = Some x -> l !! b = Some y -> x.1 < y.1).
  { clear -Hs. revert Hs. generalize l. clear l. intros l. induction l as [|p l IH]; intros Hs a b x y Hab Ha Hb; [done|].
    inversion Hs as [|? ? Hs' Hall]; subst. destruct b as [|b]; [lia|]. destruct a as [|a]; cbn in *.
    - injection Ha as <-. rewrite Forall_fmap, Forall_lookup in Hall. by apply (Hall b).
    - apply (IH Hs' a b x y); [lia|done|done]. }
  assert (Hmono : forall a b, (a <= b)%nat -> (b < length l)%nat -> f a = true -> f b = true).
  { intros a b Hab Hb. unfold f. destruct (l !! a) as [[w we]|] eqn:Ha; [|done]. destruct (lookup_lt_is_Some_2 l b Hb) as [[z ze] Hz].
    rewrite Hz. intros Hw%Z.leb_le. apply Z.leb_le. destruct (decide (a = b)) as [->|]; [congruence|].
    pose proof (Hsorted a b _ _ ltac:(lia) Ha Hz) as Hlt. cbn in Hlt. lia. }
  destruct (search_first f (S (length l)) 0 (length l)) as (H1 & H2 & H3); [lia|lia|done|].
  change (search f (S (length l)) 0 (length l)) with (sort_Search (length l) f) in *. set (k := sort_Search (length l) f) in *.
  split.
  - intros epoch (i & Hi)%list_elem_of_lookup. pose proof (lookup_lt_Some _ _ _ Hi) as Hil.
    assert (Hfi : f i = true) by (unfold f; rewrite Hi; apply Z.leb_le; lia).
    assert (Hki : (k <= i)%nat). { destruct (decide (k <= i)%nat); [done|]. rewrite H2 in Hfi; [done|lia]. }
    assert (k = i) as ->.
    { destruct (decide (k = i)); [done|]. assert (Hfk : f k = true) by (apply H3; lia). unfold f in Hfk.
      destruct (l !! k) as [[w we]|] eqn:Hk; [|done]. apply Z.leb_le in Hfk.
      pose proof (Hsorted k i _ _ ltac:(lia) Hk Hi). cbn in *. lia. }
    rewrite Hi. by rewrite Z.eqb_refl.
  - intros Hnot. destruct (l !! k) as [[w we]|] eqn:Hk; [|done]. destruct (Z.eqb_spec w u) as [->|]; [|done].
    destruct Hnot. apply list_elem_of_fmap. exists (u, we). split; [done|]. by eapply list_elem_of_lookup_2.
Qed.

End Project.

Lemma splitGroupFragment_partition_witness :
  exists parts, splitGroupFragment (fun ids => Some (replicate (length ids) 0)) ["4"; "7"] = Ok parts /\ parts <> [].
Proof.
  apply (splitGroupFragment_partition (fun ids => Some (replicate (length ids) 0)) ["4"; "7"]).
  - done.
  - intros d [= <-]. by vm_compute.
  - intros id d [= <-]. by vm_compute.
Defined.

(** A version without any record, for examples. *)
Definition ex_version : StateVersion := mkVersion 1 (mkCheckpoint EmptyString 0)
  (mkPersistent ∅ ∅ ∅ ∅ ∅ ∅ ∅ ∅ ∅ ∅) empty_runtime.

(** Users 7 and 9 are invisible: 7 sees itself as it is and the other offline. *)
Definition shy_version : StateVersion := mkVersion 1 (mkCheckpoint EmptyString 0)
  (mkPersistent {[7 := mkUser 7 "ada" "Ada" None 1 false 1 1; 9 := mkUser 9 "bob" "Bob" None 1 false 1 1]}
     ∅ ∅ ∅ ∅ ∅ ∅ ∅ ∅ ∅)
  (mkRuntime ∅ 0 {[7 := mkPresence "invisible" None; 9 := mkPresence "invisible" None]} ∅ ∅ ∅ ∅).

Lemma snapshot_exact_witness :
  map (fun x => (up_UserID x, sp_Status (up_Presence x))) (ss_Users (snapshotStateFor (fun _ => None) "v" 7 shy_version)) =
    [("7", "invisible"); ("9", "offline")] /\
  exists ids, StronglySorted Z.lt ids /\ length ids = 2%nat.
Proof.
  split; [by vm_compute|].
  destruct (snapshot_exact (fun _ => None) "v" 7 shy_version) as (_ & _ & _ & _ & _ & ids & Hs & _ & Hf).
  - intros k s Hk. cbn in Hk. apply lookup_insert_Some in Hk as [[<- <-]|[_ Hk]]; [done|].
    apply lookup_singleton_Some in Hk as [<- <-]. done.
  - exists ids. split; [exact Hs|]. apply Forall2_length in Hf. rewrite Hf. by vm_compute.
Defined.

End Snapshot.
