(* ===== verification/Lane.v ===== *)
(** * Lane: the bounded delivery lanes of one WebSocket ([realtime/websocket.go])

    A connection's single writer serves four lanes: replayable state, latest-only
    telemetry, reserved command responses and the terminal close.  The lanes are
    the records below; their channels of capacity one are booleans, those of
    larger capacity lists.  [StateQueueItem] and its pruning are those of
    [realtime/eventbus.go].  Frames are values: the source copies them. *)

From S2P Require Import Prelude State StateRing Visibility.
From stdpp Require Import base gmap strings list relations.
From Stdlib Require Import ZArith Lia.
#[local] Open Scope string_scope.
#[local] Open Scope list_scope.
#[local] Open Scope Z_scope.

Module Lane.
Import State StateRing.

Definition MaxWebSocketStateItems : Z := 256.
Definition MaxWebSocketStateBytes : Z := Z.shiftl 1 20.
Definition MaxWebSocketTelemetryBytes : Z := Z.shiftl 16 10.
Definition MaxWebSocketResponseItems : Z := 16.
Definition MaxWebSocketResponseBytes : Z := Z.shiftl 64 10.
Definition MaxWebSocketTerminalItems : Z := 2.
Definition MaxWebSocketTerminalBytes : Z := Z.shiftl 8 10.
Definition maxWebSocketResponseFrameBytes : Z := MaxWebSocketResponseBytes / MaxWebSocketResponseItems.

(** ** Queue items *)

Record StateQueueItem := mkItem {
  qi_Frame : bytes; qi_Scope : Scope; qi_GEID : Z; qi_Policy : Z; qi_RecipientUserID : Z;
  qi_ConnectionGeneration : Z; qi_CursorVisibilityEpoch : Z
}.

Definition cloneStateQueueItems (items : list StateQueueItem) : list StateQueueItem := items.

Definition stateQueueItemBytes (items : list StateQueueItem) : Z := foldr (fun i n => len (qi_Frame i) + n) 0 items.

(** The running check of [stateItemBatchWithinLimits]. *)
Fixpoint within (bytes : Z) (items : list StateQueueItem) : bool :=
  match items with
  | [] => true
  | i :: items =>
      negb ((len (qi_Frame i) =? 0) || (MaxWebSocketStateBytes <? len (qi_Frame i))) &&
      negb (MaxWebSocketStateBytes <? bytes + len (qi_Frame i)) && within (bytes + len (qi_Frame i)) items
  end.
Definition stateItemBatchWithinLimits (items : list StateQueueItem) : bool :=
  negb ((len items =? 0) || (MaxWebSocketStateItems <? len items)) && within 0 items.

(** An ordinary item of a revoked scope. *)
Definition prunable (revoked : gset Scope) (i : StateQueueItem) : Prop :=
  qi_Policy i = StateDeliveryVisibleAfter /\ qi_Scope i ∈ revoked.
#[global] Instance prunable_dec revoked i : Decision (prunable revoked i).
Proof. unfold prunable. apply _. Defined.

Definition pruneStateQueueItems (items : list StateQueueItem) (revoked : list Scope) : list StateQueueItem :=
  if bool_decide (items = []) || bool_decide (revoked = []) then items
  else filter (fun i => ~ prunable (Visibility.scopesToSet revoked) i) items.

Lemma prune_eq items revoked :
  pruneStateQueueItems items revoked = filter (fun i => ~ prunable (Visibility.scopesToSet revoked) i) items.
Proof.
  unfold pruneStateQueueItems. destruct items as [|i items]; [done|]. cbn [bool_decide orb].
  destruct revoked as [|s revoked]; [|done]. symmetry.
  transitivity (i :: items); [|done]. apply list_filter_all. intros x _ [_ Hx]. by apply elem_of_empty in Hx.
Qed.

Lemma within_bytes n items : 0 <= n <= MaxWebSocketStateBytes -> within n items = true ->
  n + stateQueueItemBytes items <= MaxWebSocketStateBytes.
Proof.
  revert n. induction items as [|i items IH]; intros n Hn; cbn [within stateQueueItemBytes foldr]; [lia|].
  intros [[_ H1]%andb_true_iff H2]%andb_true_iff. apply negb_true_iff, Z.ltb_ge in H1.
  assert (0 <= len (qi_Frame i)) by (unfold len; lia).
  specialize (IH (n + len (qi_Frame i)) ltac:(lia) H2). unfold stateQueueItemBytes in *. lia.
Qed.

(** ** The state lane *)

Record webSocketStateFrame := mkFrame { fr_item : StateQueueItem; fr_bytes : Z }.

Record webSocketStateLane := mkLane {
  ln_items : Z; ln_bytes : Z; ln_queue : list webSocketStateFrame; ln_ready : bool; ln_closed : bool
}.

Definition newWebSocketStateLane : webSocketStateLane := mkLane 0 0 [] false false.

(** A send to a channel of capacity one with a default case leaves it full. *)
Definition signalLocked (l : webSocketStateLane) : webSocketStateLane :=
  mkLane (ln_items l) (ln_bytes l) (ln_queue l) true (ln_closed l).

(** The loop of [pruneLocked]: the kept frames and the counters. *)
Definition prune_frame (revoked : gset Scope) (acc : list webSocketStateFrame * Z * Z) (f : webSocketStateFrame) :=
  let '(kept, items, bytes) := acc in
  if decide (prunable revoked (fr_item f)) then (kept, items - 1, bytes - fr_bytes f) else (kept ++ [f], items, bytes).

Definition pruneLocked (l : webSocketStateLane) (revoked : list Scope) : webSocketStateLane :=
  if bool_decide (revoked = []) || bool_decide (ln_queue l = []) then l
  else let '(kept, items, bytes) := fold_left (prune_frame (Visibility.scopesToSet revoked)) (ln_queue l) ([], ln_items l, ln_bytes l) in
       mkLane items bytes kept (ln_ready l) (ln_closed l).

Definition applyBatch (l : webSocketStateLane) (revoked : list Scope) (items : list StateQueueItem)
  : bool * webSocketStateLane :=
  if negb (len items =? 0) && negb (stateItemBatchWithinLimits items) then (false, l)
  else
    let batch := (fun i => mkFrame i (len (qi_Frame i))) <$> cloneStateQueueItems items in
    let batchBytes := stateQueueItemBytes items in
    if ln_closed l then (false, l)
    else
      let l := pruneLocked l revoked in
      if (MaxWebSocketStateItems <? ln_items l + len batch) || (MaxWebSocketStateBytes <? ln_bytes l + batchBytes)
      then (false, l)
      else (true, signalLocked (mkLane (ln_items l + len batch) (ln_bytes l + batchBytes) (ln_queue l ++ batch)
                                  (ln_ready l) (ln_closed l))).

Definition control_item (frame : bytes) : StateQueueItem := mkItem frame (mkScope EmptyString 0) 0 StateDeliveryControl 0 0 0.
Definition enqueue (l : webSocketStateLane) (frame : bytes) : bool * webSocketStateLane := applyBatch l [] [control_item frame].

Definition claim (l : webSocketStateLane) : option webSocketStateFrame * webSocketStateLane :=
  if ln_closed l then (None, l)
  else match ln_queue l with
       | [] => (None, l)
       | f :: q =>
           let l := mkLane (ln_items l) (ln_bytes l) q (ln_ready l) (ln_closed l) in
           (Some f, if bool_decide (q = []) then l else signalLocked l)
       end.

Definition release (l : webSocketStateLane) (f : webSocketStateFrame) : webSocketStateLane :=
  mkLane (ln_items l - 1) (ln_bytes l - fr_bytes f) (ln_queue l) (ln_ready l) (ln_closed l).

Definition stop (l : webSocketStateLane) : webSocketStateLane :=
  if ln_closed l then l
  else mkLane (ln_items l - len (ln_queue l)) (ln_bytes l - foldr (fun f n => fr_bytes f + n) 0 (ln_queue l)) [] (ln_ready l) true.

Definition close (l : webSocketStateLane) : webSocketStateLane :=
  let l := stop l in mkLane 0 0 (ln_queue l) (ln_ready l) (ln_closed l).

(** ** The writer and its wake-up *)

(** Where the writer is: about to look at the lane, blocked in the select
    because the lane was empty, writing the frame it claimed, or gone. *)
Inductive Writer := Looking | Waiting | Writing (f : webSocketStateFrame) | Gone.

(** Publications, the writer and teardown in any interleaving.  [wd] leaves the
    select for a reason other than the lane. *)
Inductive lane_step : webSocketStateLane * Writer -> webSocketStateLane * Writer -> Prop :=
  | ls_apply l w revoked items : lane_step (l, w) ((applyBatch l revoked items).2, w)
  | ls_claim l f l' : claim l = (Some f, l') -> lane_step (l, Looking) (l', Writing f)
  | ls_empty l l' : claim l = (None, l') -> lane_step (l, Looking) (l', Waiting)
  | ls_wake l : ln_ready l = true ->
      lane_step (l, Waiting) (mkLane (ln_items l) (ln_bytes l) (ln_queue l) false (ln_closed l), Looking)
  | ls_other l : lane_step (l, Waiting) (l, Looking)
  | ls_written l f : lane_step (l, Writing f) (release l f, Looking)
  | ls_stop l w : lane_step (l, w) (stop l, w)
  | ls_exit l w : (forall f, w <> Writing f) -> lane_step (l, w) (close l, Gone).

Definition frames_ok (q : list webSocketStateFrame) : Prop := Forall (fun f => fr_bytes f = len (qi_Frame (fr_item f))) q.
Definition frame_bytes (q : list webSocketStateFrame) : Z := foldr (fun f n => fr_bytes f + n) 0 q.

(** Capacity held by the writer. *)
Definition held (w : Writer) : Z * Z := match w with Writing f => (1, fr_bytes f) | _ => (0, 0) end.

Record lane_ok (s : webSocketStateLane * Writer) : Prop := {
  lo_items : ln_items s.1 = len (ln_queue s.1) + (held s.2).1;
  lo_bytes : ln_bytes s.1 = frame_bytes (ln_queue s.1) + (held s.2).2;
  lo_frames : frames_ok (ln_queue s.1) /\ 0 <= (held s.2).2;
  lo_max : ln_items s.1 <= MaxWebSocketStateItems /\ ln_bytes s.1 <= MaxWebSocketStateBytes;
  lo_closed : ln_closed s.1 = true -> ln_queue s.1 = [];
  lo_gone : s.2 = Gone -> ln_closed s.1 = true;
  lo_wake : s.2 = Waiting -> ln_queue s.1 <> [] -> ln_ready s.1 = true
}.

Lemma frame_bytes_app q1 q2 : frame_bytes (q1 ++ q2) = frame_bytes q1 + frame_bytes q2.
Proof. unfold frame_bytes. induction q1 as [|f q1 IH]; cbn; lia. Qed.

Lemma frame_bytes_nonneg q : frames_ok q -> 0 <= frame_bytes q.
Proof. unfold frame_bytes. induction 1 as [|f q Hf _ IH]; cbn; [lia|]. rewrite Hf. unfold len. lia. Qed.

Lemma frame_bytes_batch items :
  frame_bytes ((fun i => mkFrame i (len (qi_Frame i))) <$> items) = stateQueueItemBytes items.
Proof. unfold frame_bytes, stateQueueItemBytes. induction items as [|i items IH]; cbn; [done|]. by rewrite IH. Qed.

(** Pruning is a filter whose counters follow. *)
Lemma prune_fold revoked q kept items bytes :
  fold_left (prune_frame revoked) q (kept, items, bytes) =
  (kept ++ filter (fun f => ~ prunable revoked (fr_item f)) q,
   items - (len q - len (filter (fun f => ~ prunable revoked (fr_item f)) q)),
   bytes - (frame_bytes q - frame_bytes (filter (fun f => ~ prunable revoked (fr_item f)) q))).
Proof.
  revert kept items bytes. induction q as [|f q IH]; intros kept items bytes.
  - cbn. rewrite app_nil_r. f_equal; [f_equal|]; lia.
  - cbn [fold_left prune_frame]. destruct (decide (prunable revoked (fr_item f))) as [Hp|Hp].
    + rewrite IH, filter_cons_False by tauto. unfold len, frame_bytes. cbn [length foldr]. f_equal; [f_equal|]; lia.
    + rewrite IH, filter_cons_True by tauto. rewrite <- app_assoc. unfold len, frame_bytes. cbn [length foldr app]. f_equal; [f_equal|]; lia.
Qed.

Definition pruned (l : webSocketStateLane) (revoked : list Scope) : list webSocketStateFrame :=
  filter (fun f => ~ prunable (Visibility.scopesToSet revoked) (fr_item f)) (ln_queue l).

Lemma pruneLocked_eq l revoked : pruneLocked l revoked =
  mkLane (ln_items l - (len (ln_queue l) - len (pruned l revoked)))
    (ln_bytes l - (frame_bytes (ln_queue l) - frame_bytes (pruned l revoked))) (pruned l revoked) (ln_ready l) (ln_closed l).
Proof.
  unfold pruneLocked. destruct (bool_decide (revoked = [])) eqn:Hr; cbn [orb].
  { apply bool_decide_eq_true in Hr as ->. unfold pruned. rewrite list_filter_all.
    - destruct l. cbn. f_equal; lia.
    - intros f _ [_ Hf]. by apply elem_of_empty in Hf. }
  destruct (bool_decide (ln_queue l = [])) eqn:Hq; [apply bool_decide_eq_true in Hq; unfold pruned; rewrite Hq; destruct l; cbn in *; subst; f_equal; lia|].
  by rewrite prune_fold.
Qed.

Lemma pruned_le l revoked : frames_ok (ln_queue l) -> frames_ok (pruned l revoked) /\
  len (pruned l revoked) <= len (ln_queue l) /\ frame_bytes (pruned l revoked) <= frame_bytes (ln_queue l).
Proof.
  unfold pruned. intros H. split_and!.
  - apply Forall_forall. intros f [_ Hf]%list_elem_of_filter. revert f Hf. by apply Forall_forall.
  - unfold len. pose proof (length_filter (fun f => ~ prunable (Visibility.scopesToSet revoked) (fr_item f)) (ln_queue l)). lia.
  - induction H as [|f q Hf _ IH]; [done|]. destruct (decide (prunable (Visibility.scopesToSet revoked) (fr_item f))).
    + rewrite filter_cons_False by tauto. unfold frame_bytes in *. cbn. rewrite Hf. unfold len. lia.
    + rewrite filter_cons_True by tauto. unfold frame_bytes in *. cbn. lia.
Qed.

Lemma applyBatch_ok l w revoked items : lane_ok (l, w) -> lane_ok ((applyBatch l revoked items).2, w).
Proof.
  intros Hok. pose proof Hok as [H1 H2 [H3 H3'] [H4 H4'] H5 H6 H7]. cbn [fst snd] in *. unfold applyBatch.
  destruct (_ && _); [exact Hok|]. destruct (ln_closed l) eqn:Hc; [exact Hok|].
  destruct (pruned_le l revoked H3) as (P1 & P2 & P3). rewrite pruneLocked_eq. cbn [ln_items ln_bytes ln_queue ln_ready ln_closed].
  assert (Hw : w <> Gone) by (intros ->; specialize (H6 eq_refl); congruence).
  destruct (Z.ltb_spec MaxWebSocketStateItems (ln_items l - (len (ln_queue l) - len (pruned l revoked)) +
    len ((fun i => mkFrame i (len (qi_Frame i))) <$> cloneStateQueueItems items))) as [|Hi]; cbn [orb].
  { constructor; cbn [fst snd ln_items ln_bytes ln_queue ln_ready ln_closed]; try done; try lia; try congruence.
    intros Hwt Hne. apply H7; [done|]. intros E. unfold pruned in Hne. rewrite E in Hne. done. }
  destruct (Z.ltb_spec MaxWebSocketStateBytes (ln_bytes l - (frame_bytes (ln_queue l) - frame_bytes (pruned l revoked)) +
    stateQueueItemBytes items)) as [|Hb].
  { constructor; cbn [fst snd ln_items ln_bytes ln_queue ln_ready ln_closed]; try done; try lia; try congruence.
    intros Hwt Hne. apply H7; [done|]. intros E. unfold pruned in Hne. rewrite E in Hne. done. }
  constructor; cbn [fst snd signalLocked ln_items ln_bytes ln_queue ln_ready ln_closed]; try done; try lia; try congruence.
  - rewrite len_app. lia.
  - rewrite frame_bytes_app. unfold cloneStateQueueItems. rewrite frame_bytes_batch. lia.
  - split; [|done]. apply Forall_app. split; [done|]. by apply Forall_fmap, Forall_forall.
Qed.

Lemma lane_step_ok s s' : lane_step s s' -> lane_ok s -> lane_ok s'.
Proof.
  intros Hs Hok. destruct Hs as [l w revoked items|l f l' Hc|l l' Hc|l Hr|l|l f|l w|l w Hw].
  - by apply applyBatch_ok.
  - destruct Hok as [H1 H2 [H3 H3'] [H4 H4'] H5 H6 H7]. cbn [fst snd] in *. unfold claim in Hc.
    destruct (ln_closed l) eqn:Hcl; [done|]. destruct (ln_queue l) as [|f0 q] eqn:Hq; [done|]. injection Hc as -> <-.
    pose proof (Forall_inv H3) as Hf. pose proof (Forall_inv_tail H3) as Hf'. cbn in Hf.
    unfold frame_bytes, len, held in *. cbn [length foldr fst snd] in *.
    destruct (bool_decide (q = [])); constructor; cbn [fst snd signalLocked ln_items ln_bytes ln_queue ln_ready ln_closed held];
      unfold frame_bytes, len in *; try done; try lia; try congruence; split; try done; lia.
  - destruct Hok as [H1 H2 H3 H4 H5 H6 H7]. cbn [fst snd] in *. unfold claim in Hc.
    assert (l' = l /\ ln_queue l = []) as [-> Hq].
    { destruct (ln_closed l) eqn:Hcl; [injection Hc as <-; auto|destruct (ln_queue l) as [|f q]; [by injection Hc as <-|done]]. }
    by constructor.
  - destruct Hok as [H1 H2 H3 H4 H5 H6 H7]. by constructor.
  - destruct Hok as [H1 H2 H3 H4 H5 H6 H7]. by constructor.
  - destruct Hok as [H1 H2 [H3 H3'] [H4 H4'] H5 H6 H7]. cbn [fst snd held] in *.
    constructor; cbn [fst snd release ln_items ln_bytes ln_queue ln_ready ln_closed held]; try done; lia.
  - pose proof Hok as [H1 H2 [H3 H3'] [H4 H4'] H5 H6 H7]. cbn [fst snd] in *. unfold stop.
    destruct (ln_closed l) eqn:Hcl; [exact Hok|].
    fold (frame_bytes (ln_queue l)). pose proof (frame_bytes_nonneg _ H3).
    assert (0 <= len (ln_queue l)) by (unfold len; lia).
    constructor; cbn [fst snd ln_items ln_bytes ln_queue ln_ready ln_closed]; unfold frames_ok; try done; try lia; try (split; [constructor|done]).
    + unfold len. cbn. unfold len in H1. lia.
    + cbn. lia.
  - destruct Hok as [H1 H2 [H3 H3'] [H4 H4'] H5 H6 H7]. cbn [fst snd] in *. unfold close, stop.
    destruct (ln_closed l) eqn:Hcl; [rewrite (H5 eq_refl)|]; constructor; cbn [fst snd ln_items ln_bytes ln_queue ln_ready ln_closed held];
      unfold frames_ok; try done; split; try done; constructor.
Qed.

(** the state lane is bounded and never loses a wake-up.  Whatever
    publications, claims, writes and teardown interleave, its counters are
    exactly the queued frames plus the one being written, at most 256 frames and
    1 MiB; and a writer waiting while frames are queued has a pending signal. *)
Theorem lane_bounded l w : rtc lane_step (newWebSocketStateLane, Looking) (l, w) ->
  ln_items l = len (ln_queue l) + (held w).1 /\ ln_bytes l = frame_bytes (ln_queue l) + (held w).2 /\
  0 <= ln_items l <= 256 /\ 0 <= ln_bytes l <= 1048576 /\
  (w = Waiting -> ln_queue l <> [] -> ln_ready l = true) /\ (ln_closed l = true -> ln_queue l = []).
Proof.
  intros Hr. assert (Hok : lane_ok (l, w)).
  { remember (newWebSocketStateLane, Looking) as s0 eqn:E0. remember (l, w) as s1 eqn:E1.
    assert (H0 : lane_ok s0) by (subst; constructor; cbn; try done; split; try done; constructor).
    clear E0 E1. induction Hr; eauto using lane_step_ok. }
  destruct Hok as [H1 H2 [H3 H3'] [H4 H4'] H5 H6 H7]. cbn [fst snd] in *. pose proof (frame_bytes_nonneg _ H3).
  assert (0 <= len (ln_queue l)) by (unfold len; lia). assert (0 <= (held w).1) by (destruct w; cbn; lia).
  unfold MaxWebSocketStateItems, MaxWebSocketStateBytes in *. cbn in H4'. split_and!; try done; lia.
Qed.

Lemma lane_bounded_witness : ln_items (applyBatch newWebSocketStateLane [] [control_item [1; 2]]).2 = 1.
Proof.
  destruct (lane_bounded (applyBatch newWebSocketStateLane [] [control_item [1; 2]]).2 Looking) as (H & _).
  - apply rtc_once, ls_apply.
  - rewrite H. by vm_compute.
Defined.

(** What a batch does to the queue: all of it or none, after the prune. *)
Lemma applyBatch_queue l revoked items ok l' : applyBatch l revoked items = (ok, l') ->
  (ok = true -> ln_closed l = false /\ fr_item <$> ln_queue l' = pruneStateQueueItems (fr_item <$> ln_queue l) revoked ++ items /\ ln_closed l' = false) /\
  (ok = false -> ln_queue l' = ln_queue l \/ fr_item <$> ln_queue l' = pruneStateQueueItems (fr_item <$> ln_queue l) revoked) /\
  (ln_closed l = false -> items = [] \/ stateItemBatchWithinLimits items = true ->
     forall i, i ∈ fr_item <$> ln_queue l' -> i ∈ items \/ ~ prunable (Visibility.scopesToSet revoked) i).
Proof.
  assert (Hf : forall q, fr_item <$> filter (fun f => ~ prunable (Visibility.scopesToSet revoked) (fr_item f)) q =
    pruneStateQueueItems (fr_item <$> q) revoked).
  { intros q. rewrite prune_eq. induction q as [|f q IH]; [done|]. cbn [fmap list_fmap].
    destruct (decide (prunable (Visibility.scopesToSet revoked) (fr_item f))).
    - by rewrite !filter_cons_False, IH by tauto.
    - rewrite !filter_cons_True by tauto. cbn [fmap list_fmap]. by rewrite IH. }
  assert (Hkeep : forall i q, i ∈ pruneStateQueueItems q revoked -> ~ prunable (Visibility.scopesToSet revoked) i).
  { intros i q. rewrite prune_eq, list_elem_of_filter. tauto. }
  assert (Hitems : fr_item <$> ((fun i => mkFrame i (len (qi_Frame i))) <$> cloneStateQueueItems items) = items).
  { unfold cloneStateQueueItems. rewrite <- list_fmap_compose. by rewrite <- (list_fmap_id items) at 2. }
  unfold applyBatch. destruct (_ && _) eqn:G.
  { intros [= <- <-]. split_and!; [done|by left|]. intros _ Hlim. apply andb_true_iff in G as [G1 G2].
    apply negb_true_iff in G1, G2. destruct Hlim as [->|?]; [done|congruence]. }
  destruct (ln_closed l) eqn:Hc; [intros [= <- <-]; split_and!; [done|by left|done]|].
  rewrite pruneLocked_eq. cbn [ln_items ln_bytes ln_queue ln_ready ln_closed]. case_match; intros [= <- <-].
  - cbn [ln_queue]. unfold pruned. rewrite Hf. split_and!; [done|by right|]. intros _ _ i Hi. right. by eapply Hkeep.
  - cbn [signalLocked ln_queue ln_closed]. rewrite fmap_app, Hitems. unfold pruned. rewrite Hf. split_and!; [done|done|].
    intros _ _ i [Hi|Hi]%elem_of_app; [right; by eapply Hkeep|by left].
Qed.

(** ** Telemetry *)

Record webSocketTelemetryLane := mkTelemetry { te_frame : bytes; te_ready : bool; te_closed : bool }.
Definition newWebSocketTelemetryLane : webSocketTelemetryLane := mkTelemetry [] false false.
Definition store (l : webSocketTelemetryLane) (frame : bytes) : bool * webSocketTelemetryLane :=
  if (len frame =? 0) || (MaxWebSocketTelemetryBytes <? len frame) then (false, l)
  else if te_closed l then (false, l)
  else (true, mkTelemetry frame true (te_closed l)).
Definition claim_telemetry (l : webSocketTelemetryLane) : option bytes * webSocketTelemetryLane :=
  if te_closed l || (len (te_frame l) =? 0) then (None, l)
  else (Some (te_frame l), mkTelemetry [] (te_ready l) (te_closed l)).
Definition close_telemetry (l : webSocketTelemetryLane) : webSocketTelemetryLane := mkTelemetry [] (te_ready l) true.

(** ** Command responses *)

(** A slot by its identity, whether it was released and its request. *)
Record webSocketResponseSlot := mkSlot { sl_id : nat; sl_requestID : string }.
Record webSocketResponseLane := mkResponses {
  rl_items : Z; rl_bytes : Z; rl_queue : list (bytes * webSocketResponseSlot); rl_released : gset nat; rl_next : nat;
  rl_used : gset string
}.
Definition newWebSocketResponseLane : webSocketResponseLane := mkResponses 0 0 [] ∅ 0 ∅.

(** [webSocketRequestTracker.Reserve] and [Release]. *)
Definition tracker_Reserve (l : webSocketResponseLane) (requestID : string) : bool * webSocketResponseLane :=
  if MaxWebSocketResponseItems <=? Z.of_nat (size (rl_used l)) then (false, l)
  else if decide (requestID ∈ rl_used l) then (false, l)
  else (true, mkResponses (rl_items l) (rl_bytes l) (rl_queue l) (rl_released l) (rl_next l) ({[requestID]} ∪ rl_used l)).
Definition tracker_Release (l : webSocketResponseLane) (requestID : string) : webSocketResponseLane :=
  mkResponses (rl_items l) (rl_bytes l) (rl_queue l) (rl_released l) (rl_next l) (rl_used l ∖ {[requestID]}).

Definition ReserveResponse (l : webSocketResponseLane) (done : bool) (requestID : string)
  : option webSocketResponseSlot * webSocketResponseLane :=
  if done then (None, tracker_Release l requestID)
  else if (MaxWebSocketResponseItems <=? rl_items l) || (MaxWebSocketResponseBytes <? rl_bytes l + maxWebSocketResponseFrameBytes)
  then (None, tracker_Release l requestID)
  else (Some (mkSlot (rl_next l) requestID),
        mkResponses (rl_items l + 1) (rl_bytes l + maxWebSocketResponseFrameBytes) (rl_queue l) (rl_released l)
          (S (rl_next l)) (rl_used l)).

(** [webSocketResponseSlot.release], once. *)
Definition release_slot (l : webSocketResponseLane) (s : webSocketResponseSlot) : webSocketResponseLane :=
  if decide (sl_id s ∈ rl_released l) then l
  else tracker_Release (mkResponses (rl_items l - 1) (rl_bytes l - maxWebSocketResponseFrameBytes) (rl_queue l)
                          ({[sl_id s]} ∪ rl_released l) (rl_next l) (rl_used l)) (sl_requestID s).

(** [None]: the send blocks, the channel being full. *)
Definition EnqueueResponse (l : webSocketResponseLane) (done : bool) (s : webSocketResponseSlot) (frame : bytes)
  : option (bool * webSocketResponseLane) :=
  if (len frame =? 0) || (maxWebSocketResponseFrameBytes <? len frame) then Some (false, release_slot l s)
  else if done then Some (false, release_slot l s)
  else if MaxWebSocketResponseItems <=? len (rl_queue l) then None
  else Some (true, mkResponses (rl_items l) (rl_bytes l) (rl_queue l ++ [(frame, s)]) (rl_released l) (rl_next l) (rl_used l)).

(** The writer takes one response, and releases its slot after the write. *)
Definition take_response (l : webSocketResponseLane) : option (bytes * webSocketResponseSlot) * webSocketResponseLane :=
  match rl_queue l with
  | [] => (None, l)
  | r :: q => (Some r, mkResponses (rl_items l) (rl_bytes l) q (rl_released l) (rl_next l) (rl_used l))
  end.

Definition releaseQueued (l : webSocketResponseLane) : webSocketResponseLane :=
  let queued := rl_queue l in
  fold_left (fun l r => release_slot l r.2) queued
    (mkResponses (rl_items l) (rl_bytes l) [] (rl_released l) (rl_next l) (rl_used l)).

(** The command read pump, which reserves a request and its slot together and
    answers once, the writer and teardown. *)
Inductive response_step : webSocketResponseLane -> webSocketResponseLane -> Prop :=
  | rs_reserve l requestID l1 : tracker_Reserve l requestID = (true, l1) ->
      response_step l (ReserveResponse l1 false requestID).2
  | rs_answer l s frame b l' : (sl_id s < rl_next l)%nat -> sl_id s ∉ rl_released l ->
      sl_id s ∉ ((fun r => sl_id r.2) <$> rl_queue l) -> EnqueueResponse l false s frame = Some (b, l') -> response_step l l'
  | rs_write l r l' : take_response l = (Some r, l') -> response_step l (release_slot l' r.2)
  | rs_release l s : (sl_id s < rl_next l)%nat -> sl_id s ∉ ((fun r => sl_id r.2) <$> rl_queue l) -> response_step l (release_slot l s).

Record responses_ok (l : webSocketResponseLane) : Prop := {
  ro_items : rl_items l = Z.of_nat (rl_next l) - Z.of_nat (size (rl_released l));
  ro_bytes : rl_bytes l = rl_items l * maxWebSocketResponseFrameBytes;
  ro_max : rl_items l <= MaxWebSocketResponseItems;
  ro_released : forall i, i ∈ rl_released l -> (i < rl_next l)%nat;
  ro_queue : NoDup ((fun r => sl_id r.2) <$> rl_queue l) /\
    forall r, r ∈ rl_queue l -> (sl_id r.2 < rl_next l)%nat /\ sl_id r.2 ∉ rl_released l
}.

Lemma release_slot_ok l s : responses_ok l -> (sl_id s < rl_next l)%nat ->
  sl_id s ∉ ((fun r => sl_id r.2) <$> rl_queue l) -> responses_ok (release_slot l s).
Proof.
  intros [H1 H2 H3 H4 [H5 H6]] Hs Hq. unfold release_slot. case_decide as Hin; [done|].
  constructor; cbn [tracker_Release rl_items rl_bytes rl_queue rl_released rl_next rl_used].
  - rewrite size_union by set_solver. rewrite size_singleton. lia.
  - lia.
  - lia.
  - intros i [->%elem_of_singleton|Hi]%elem_of_union; auto.
  - split; [done|]. intros r Hr. destruct (H6 r Hr) as [? Hn]. split; [done|]. intros [E%elem_of_singleton|?]%elem_of_union; [|done].
    apply Hq. rewrite <- E. apply list_elem_of_fmap. eauto.
Qed.

Lemma response_step_ok l l' : response_step l l' -> responses_ok l -> responses_ok l'.
Proof.
  intros Hs Hok. destruct Hs as [l requestID l1 Ht|l s frame b l' Hs Hn Hq He|l r l' Ht|l s Hs Hq].
  - unfold tracker_Reserve in Ht. case_match; [done|]. case_decide; [done|]. injection Ht as <-.
    destruct Hok as [H1 H2 H3 H4 [H5 H6]]. unfold ReserveResponse. cbn [rl_items rl_bytes rl_queue rl_released rl_next rl_used].
    destruct (Z.leb_spec MaxWebSocketResponseItems (rl_items l)); cbn [orb];
      [|destruct (Z.ltb_spec MaxWebSocketResponseBytes (rl_bytes l + maxWebSocketResponseFrameBytes))];
      constructor; cbn [fst snd tracker_Release rl_items rl_bytes rl_queue rl_released rl_next rl_used]; try done; try lia.
    + intros i Hi. specialize (H4 i Hi). lia.
    + split; [done|]. intros r Hr. destruct (H6 r Hr). split; [lia|done].
  - unfold EnqueueResponse in He. destruct (_ || _); [injection He as <- <-; by apply release_slot_ok|].
    case_match; [done|]. injection He as <- <-. destruct Hok as [H1 H2 H3 H4 [H5 H6]].
    constructor; cbn [rl_items rl_bytes rl_queue rl_released rl_next rl_used]; try done. rewrite fmap_app. cbn. split.
    + apply NoDup_app. split_and!; [done| |apply NoDup_singleton]. intros x Hx ->%list_elem_of_singleton. done.
    + intros r [Hr| ->%list_elem_of_singleton]%elem_of_app; [by apply H6|]. done.
  - unfold take_response in Ht. destruct (rl_queue l) as [|r0 q] eqn:Hq; [done|]. injection Ht as -> <-.
    destruct Hok as [H1 H2 H3 H4 [H5 H6]]. rewrite Hq in H5, H6. apply NoDup_cons in H5 as [Hnot H5].
    destruct (H6 r (list_elem_of_here _ _)) as [Hlt _].
    apply release_slot_ok; [|done|done]. constructor; cbn [rl_items rl_bytes rl_queue rl_released rl_next rl_used]; try done.
    split; [done|]. intros x Hx. apply H6. by right.
  - by apply release_slot_ok.
Qed.

(** Slots that are not released, distinct, are counted. *)
Lemma outstanding_counted l extra : responses_ok l -> NoDup extra -> (forall i, i ∈ extra -> (i < rl_next l)%nat /\ i ∉ rl_released l) ->
  Z.of_nat (length extra) <= rl_items l.
Proof.
  intros [H1 H2 H3 H4 [H5 H6]] Hnd Hin. rewrite H1.
  assert (Hsub : list_to_set extra ∪ rl_released l ⊆ (set_seq 0 (rl_next l) : gset nat)).
  { intros i [Hi%elem_of_list_to_set|Hi]%elem_of_union; apply elem_of_set_seq; [destruct (Hin i Hi); lia|specialize (H4 i Hi); lia]. }
  apply subseteq_size in Hsub. rewrite size_set_seq, size_union in Hsub.
  - rewrite size_list_to_set in Hsub by done. lia.
  - intros i Hi%elem_of_list_to_set Hi'. by destruct (Hin i Hi).
Qed.
(** An answer for an outstanding slot does not block. *)
Lemma answer_fits l s frame : responses_ok l -> (sl_id s < rl_next l)%nat -> sl_id s ∉ rl_released l -> sl_id s ∉ ((fun r => sl_id r.2) <$> rl_queue l) ->
  exists b l', EnqueueResponse l false s frame = Some (b, l').
Proof.
  intros Hok Hs Hn Hq. unfold EnqueueResponse. destruct (_ || _); [eauto|].
  pose proof (outstanding_counted l (sl_id s :: ((fun r => sl_id r.2) <$> rl_queue l)) Hok) as Hroom. cbn [length] in Hroom. rewrite length_fmap in Hroom.
  destruct Hok as [H1 H2 H3 H4 [H5 H6]].
  destruct (Z.leb_spec MaxWebSocketResponseItems (len (rl_queue l))) as [Hfull|]; [|eauto]. exfalso. unfold len in Hfull.
  assert (Z.of_nat (S (length (rl_queue l))) <= rl_items l).
  { apply Hroom; [by apply NoDup_cons|]. intros i [->|Hi]%elem_of_cons; [done|].
    apply list_elem_of_fmap in Hi as (r & -> & Hr'). by apply H6. }
  lia.
Qed.

(** accepted commands always have room for their answer.  The response lane
    accounts exactly for the slots not yet released, never more than sixteen;
    a slot is released once; and an answer for an outstanding slot never blocks
    the reader, since the queue holds fewer entries than its capacity. *)
Theorem responses_never_block l s frame : rtc response_step newWebSocketResponseLane l ->
  rl_items l = Z.of_nat (rl_next l) - Z.of_nat (size (rl_released l)) /\ 0 <= rl_items l <= 16 /\
  rl_bytes l = rl_items l * 4096 /\
  ((sl_id s < rl_next l)%nat -> sl_id s ∉ rl_released l -> sl_id s ∉ ((fun r => sl_id r.2) <$> rl_queue l) ->
   exists b l', EnqueueResponse l false s frame = Some (b, l')).
Proof.
  intros Hr. assert (Hok : responses_ok l).
  { remember newWebSocketResponseLane as l0. assert (H0 : responses_ok l0).
    { subst. constructor; cbn; try done; try set_solver. split; [constructor|]. intros r Hr0. by apply elem_of_nil in Hr0. }
    clear Heql0. induction Hr; eauto using response_step_ok. }
  pose proof (outstanding_counted l [] Hok (NoDup_nil_2)) as Hnil. cbn [length] in Hnil.
  split_and!; [apply Hok|apply Hnil; intros i Hi; by apply elem_of_nil in Hi|apply Hok|rewrite (ro_bytes _ Hok); done|by apply answer_fits].
Qed.

Lemma responses_never_block_witness : exists l, rtc response_step newWebSocketResponseLane l /\
  exists b l', EnqueueResponse l false (mkSlot 0 "r") [1] = Some (b, l').
Proof.
  pose (l := (ReserveResponse (tracker_Reserve newWebSocketResponseLane "r").2 false "r").2).
  assert (Hr : rtc response_step newWebSocketResponseLane l) by (apply rtc_once; apply rs_reserve; by vm_compute).
  exists l. split; [exact Hr|]. destruct (responses_never_block l (mkSlot 0 "r") [1] Hr) as (_ & _ & _ & H).
  apply H; [vm_compute; lia|apply not_elem_of_empty|apply not_elem_of_nil].
Defined.

End Lane.
