(* ===== verification/Connection.v ===== *)
(** * Connection: the control-connection coordinator ([realtime/connection.go])

    The coordinator owns every control connection and every voice authority.
    Per-user registries are objects reached through a pointer that an operation
    retains while it runs ([acquireUser], [releaseUser]), so they live in a heap
    and the index [co_users] holds locations.  Each operation is
    [with_user]: retain the registry, run one critical section of [user.mu],
    run the collected side effects, release.  The critical sections are separate
    definitions (suffix [_locked]); interleavings of them are the step relation
    of [ConnectionProps].

    Callbacks, transports and relay gates are recorded in [co_log] in the order
    the code calls them.  Receivers are non-nil. *)

From S2P Require Import Prelude Ingress Packet Session State RelayGate.
From stdpp Require Import base gmap list strings fin_maps.
From Stdlib Require Import ZArith Lia.
Import Netip.
#[local] Open Scope string_scope.
#[local] Open Scope list_scope.
#[local] Open Scope Z_scope.

Module Connection.
Import State (VoiceAuthority, mkVoice, va_UserID, va_ChannelID, va_ControlConnectionID,
  va_ConnectionGeneration, va_VoiceSessionID, va_VoiceAuthorityGeneration, va_JoinedAt, VoiceValid).
Import Packet (ProtoError, ErrSessionPrecondition, ErrSessionNotFound, ErrSessionNotOwned, zero_id).
Import Session (World, Drain, Cleanup, run_drain, run_cleanup).

Abbreviation loc := nat.
Abbreviation ConnID := (list Z).

Definition MaxActiveControlConnections : Z := 4096.
Definition MaxControlConnectionsPerUser : Z := 8.
Definition MaxControlConnectionsPerSource : Z := 64.

(** [ErrRead] is a failed read of the random source, [ErrProtocol] an error of
    the session manager returned as it is. *)
Inductive ConnError :=
  | ErrInvalidConnection | ErrControlConnectionLimit | ErrSourceConnectionLimit
  | ErrConnectionAdmissionClosed | ErrConnectionNotOpening | ErrConnectionNotActive
  | ErrVoiceAuthorityPrecondition | ErrRead | ErrProtocol (e : ProtoError).

Inductive ConnectionState := ConnectionOpening | ConnectionActive | ConnectionClosing.
#[global] Instance ConnectionState_eq_dec : EqDecision ConnectionState.
Proof. solve_decision. Defined.

Record ControlConnectionRef := mkRef {
  r_ID : ConnID; r_UserID : Z; r_Generation : Z; r_LoginSessionID : Z
}.
#[global] Instance ControlConnectionRef_eq_dec : EqDecision ControlConnectionRef.
Proof. solve_decision. Defined.

Record AuthLease := mkLease { al_Revision : Z; al_ExpiresAt : Z }.
#[global] Instance AuthLease_eq_dec : EqDecision AuthLease.
Proof. solve_decision. Defined.

Definition no_lease : AuthLease := mkLease 0 0.

(** A [ConnectionTransport] by its identity and the optional interfaces it
    implements: [AuthRevocationTransport] and [VoiceStatsTransport]. *)
Record Transport := mkTransport { t_id : nat; t_revocation : bool; t_stats : bool }.

Record connectionRecord := mkRecord {
  cr_ref : ControlConnectionRef; cr_state : ConnectionState; cr_admitted : bool; cr_sourceIP : Addr;
  cr_lease : AuthLease; cr_transport : option Transport
}.

Record voiceAuthorityTombstone := mkTombstone { vt_authority : VoiceAuthority; vt_reason : string }.

Record connectionUser := mkUser {
  u_userID : Z; u_refs : Z; u_connections : gmap ConnID connectionRecord; u_nextGen : Z;
  u_admitted : Z; u_live : Z; u_voice : option VoiceAuthority;
  u_tombstone : option voiceAuthorityTombstone; u_nextVoice : Z
}.

Inductive Effect :=
  | EffRequestClose (t : Transport) (status : Z) (reason : string)
  | EffRequestAuthRevoked (t : Transport) (reason : string) (status : Z)
  | EffForceClose (t : Transport)
  | EffVoiceStop (a : VoiceAuthority) (reason : string)
  | EffVoiceObserve (previous current : option VoiceAuthority) (reason : string)
  | EffClosed (ref : ControlConnectionRef)
  | EffVoiceStats (t : Transport) (frame : bytes)
  | EffAcquireGate (userID : Z)
  | EffReleaseGate (userID : Z).

(** The observers are recorded by whether they are installed. *)
Record ConnectionCoordinator := mkCoordinator {
  co_users : gmap Z loc;
  co_heap : gmap loc connectionUser;
  co_next : loc;
  co_accepting : bool;
  co_admitted : Z;
  co_sources : gmap Addr Z;
  co_wg : Z;
  co_voiceStop : bool;
  co_voiceObserver : bool;
  co_closeObserver : bool;
  co_log : list Effect
}.

Record connectionClosePlan := mkPlan {
  pl_transport : option Transport; pl_status : Z; pl_reason : string;
  pl_voiceAuthority : option VoiceAuthority; pl_voiceAuthorityStop : bool; pl_voiceObserver : bool;
  pl_voiceReason : string; pl_authRevoked : bool
}.

Definition zero_plan : connectionClosePlan := mkPlan None 0 EmptyString None false false EmptyString false.

Record VoiceAuthorityStage := mkStage {
  st_owner : ControlConnectionRef; st_expected : option VoiceAuthority; st_channelID : Z;
  st_prepared : option Session.loc; st_generation : Z; st_joinedAt : Z
}.

(** [cm_Release] is the user whose relay gate the release callback frees. *)
Record VoiceAuthorityCommit := mkCommit {
  cm_Previous : option VoiceAuthority; cm_Current : VoiceAuthority; cm_Drain : option Drain;
  cm_Cleanup : option Cleanup; cm_Release : option Z
}.

(** ** Field updates *)

Definition set_refs (u : connectionUser) (n : Z) : connectionUser :=
  mkUser (u_userID u) n (u_connections u) (u_nextGen u) (u_admitted u) (u_live u) (u_voice u)
    (u_tombstone u) (u_nextVoice u).
Definition set_connections (u : connectionUser) (m : gmap ConnID connectionRecord) : connectionUser :=
  mkUser (u_userID u) (u_refs u) m (u_nextGen u) (u_admitted u) (u_live u) (u_voice u)
    (u_tombstone u) (u_nextVoice u).
Definition set_voice (u : connectionUser) (v : option VoiceAuthority) : connectionUser :=
  mkUser (u_userID u) (u_refs u) (u_connections u) (u_nextGen u) (u_admitted u) (u_live u) v
    (u_tombstone u) (u_nextVoice u).
Definition set_tombstone (u : connectionUser) (t : option voiceAuthorityTombstone) : connectionUser :=
  mkUser (u_userID u) (u_refs u) (u_connections u) (u_nextGen u) (u_admitted u) (u_live u) (u_voice u)
    t (u_nextVoice u).
Definition set_nextVoice (u : connectionUser) (n : Z) : connectionUser :=
  mkUser (u_userID u) (u_refs u) (u_connections u) (u_nextGen u) (u_admitted u) (u_live u) (u_voice u)
    (u_tombstone u) n.
Definition set_counts (u : connectionUser) (gen admitted live : Z) : connectionUser :=
  mkUser (u_userID u) (u_refs u) (u_connections u) gen admitted live (u_voice u)
    (u_tombstone u) (u_nextVoice u).

Definition with_state (r : connectionRecord) (s : ConnectionState) : connectionRecord :=
  mkRecord (cr_ref r) s (cr_admitted r) (cr_sourceIP r) (cr_lease r) (cr_transport r).
Definition with_lease (r : connectionRecord) (l : AuthLease) : connectionRecord :=
  mkRecord (cr_ref r) (cr_state r) (cr_admitted r) (cr_sourceIP r) l (cr_transport r).
Definition with_transport (r : connectionRecord) (t : option Transport) : connectionRecord :=
  mkRecord (cr_ref r) (cr_state r) (cr_admitted r) (cr_sourceIP r) (cr_lease r) t.
Definition with_admitted (r : connectionRecord) (b : bool) : connectionRecord :=
  mkRecord (cr_ref r) (cr_state r) b (cr_sourceIP r) (cr_lease r) (cr_transport r).

Definition set_index (c : ConnectionCoordinator) (us : gmap Z loc) (h : gmap loc connectionUser) (n : loc) :=
  mkCoordinator us h n (co_accepting c) (co_admitted c) (co_sources c) (co_wg c)
    (co_voiceStop c) (co_voiceObserver c) (co_closeObserver c) (co_log c).
Definition set_admission (c : ConnectionCoordinator) (acc : bool) (n : Z) (ss : gmap Addr Z) (wg : Z) :=
  mkCoordinator (co_users c) (co_heap c) (co_next c) acc n ss wg
    (co_voiceStop c) (co_voiceObserver c) (co_closeObserver c) (co_log c).
Definition set_observers (c : ConnectionCoordinator) (stop obs cls : bool) :=
  mkCoordinator (co_users c) (co_heap c) (co_next c) (co_accepting c) (co_admitted c) (co_sources c)
    (co_wg c) stop obs cls (co_log c).
Definition emit (c : ConnectionCoordinator) (es : list Effect) :=
  mkCoordinator (co_users c) (co_heap c) (co_next c) (co_accepting c) (co_admitted c) (co_sources c)
    (co_wg c) (co_voiceStop c) (co_voiceObserver c) (co_closeObserver c) (co_log c ++ es).

Definition newUser (userID : Z) : connectionUser := mkUser userID 0 ∅ 0 0 0 None None 0.

(** The registry an operation has retained. *)
Definition user_at (c : ConnectionCoordinator) (l : loc) : connectionUser := default (newUser 0) (co_heap c !! l).
Definition put (c : ConnectionCoordinator) (l : loc) (u : connectionUser) : ConnectionCoordinator :=
  set_index c (co_users c) (<[l := u]> (co_heap c)) (co_next c).

(** ** Construction and observers *)

Definition NewConnectionCoordinator : ConnectionCoordinator :=
  mkCoordinator ∅ ∅ 0 true 0 ∅ 0 false false false [].

Definition SetVoiceAuthorityDeactivator (c : ConnectionCoordinator) (installed : bool) :=
  set_observers c installed (co_voiceObserver c) (co_closeObserver c).
Definition SetVoiceAuthorityObserver (c : ConnectionCoordinator) (installed : bool) :=
  set_observers c (co_voiceStop c) installed (co_closeObserver c).
Definition SetCloseObserver (c : ConnectionCoordinator) (installed : bool) :=
  set_observers c (co_voiceStop c) (co_voiceObserver c) installed.

(** ** Identities *)

Definition validConnectionRef (ref : ControlConnectionRef) : bool :=
  (0 <? r_UserID ref) && (0 <? r_Generation ref) && (0 <? r_LoginSessionID ref) &&
  negb (bool_decide (r_ID ref = zero_id)).

Definition sameVoiceAuthority (left right : option VoiceAuthority) : bool := bool_decide (left = right).

(** A copy of a value is the value. *)
Definition cloneVoiceAuthority (a : option VoiceAuthority) : option VoiceAuthority := a.

Definition randomControlConnectionID (drawn : option ConnID) : result ConnID ConnError :=
  match drawn with Some id => Ok id | None => Err ErrRead end.

(** ** The registry index *)

Definition acquireUser (c : ConnectionCoordinator) (userID : Z) : loc * ConnectionCoordinator :=
  match co_users c !! userID with
  | Some l => (l, put c l (set_refs (user_at c l) (u_refs (user_at c l) + 1)))
  | None =>
      let l := co_next c in
      (l, set_index c (<[userID := l]> (co_users c)) (<[l := set_refs (newUser userID) 1]> (co_heap c)) (S l))
  end.

Definition releaseUser (c : ConnectionCoordinator) (userID : Z) (l : loc) : ConnectionCoordinator :=
  let u := set_refs (user_at c l) (u_refs (user_at c l) - 1) in
  let c := put c l u in
  if (u_refs u =? 0) && (u_live u =? 0) && bool_decide (co_users c !! userID = Some l)
  then set_index c (delete userID (co_users c)) (co_heap c) (co_next c)
  else c.

(** [order] is the order in which Go ranges over the index. *)
Definition acquireAllUsers (c : ConnectionCoordinator) (order : list Z) : list loc * ConnectionCoordinator :=
  fold_left (fun '(ls, c) userID =>
    match co_users c !! userID with
    | Some l => (ls ++ [l], put c l (set_refs (user_at c l) (u_refs (user_at c l) + 1)))
    | None => (ls, c)
    end) order ([], c).

(** Retain [userID]'s registry, run [f] on it, release it. *)
Definition with_user {A} (c : ConnectionCoordinator) (userID : Z)
    (f : ConnectionCoordinator -> loc -> A * ConnectionCoordinator) : A * ConnectionCoordinator :=
  let '(l, c) := acquireUser c userID in
  let '(a, c) := f c l in
  (a, releaseUser c userID l).

(** A critical section that reads and updates one registry. *)
Definition locked {A} (f : connectionUser -> A * connectionUser) (c : ConnectionCoordinator) (l : loc)
  : A * ConnectionCoordinator :=
  let '(a, u) := f (user_at c l) in (a, put c l u).

Definition reading {A} (f : connectionUser -> A) (c : ConnectionCoordinator) (l : loc) : A * ConnectionCoordinator :=
  (f (user_at c l), c).

(** ** Admission *)

Definition source_count (ss : gmap Addr Z) (a : Addr) : Z := default 0 (ss !! a).

(** [None] is a nil error. *)
Definition reserveAdmission (c : ConnectionCoordinator) (sourceIP : Addr) : option ConnError * ConnectionCoordinator :=
  if negb (co_accepting c) then (Some ErrConnectionAdmissionClosed, c)
  else if MaxActiveControlConnections <=? co_admitted c then (Some ErrControlConnectionLimit, c)
  else if IsValid sourceIP && (MaxControlConnectionsPerSource <=? source_count (co_sources c) sourceIP)
  then (Some ErrSourceConnectionLimit, c)
  else
    let sources := if IsValid sourceIP
                   then <[sourceIP := source_count (co_sources c) sourceIP + 1]> (co_sources c)
                   else co_sources c in
    (None, set_admission c (co_accepting c) (co_admitted c + 1) sources (co_wg c + 1)).

Definition releaseAdmissionLocked (c : ConnectionCoordinator) (u : connectionUser) (r : connectionRecord)
  : connectionUser * ConnectionCoordinator :=
  if negb (cr_admitted r) then (u, c)
  else
    let u := set_counts (set_connections u (<[r_ID (cr_ref r) := with_admitted r false]> (u_connections u)))
               (u_nextGen u) (u_admitted u - 1) (u_live u) in
    let sources :=
      if IsValid (cr_sourceIP r) then
        let n := source_count (co_sources c) (cr_sourceIP r) - 1 in
        if n =? 0 then delete (cr_sourceIP r) (co_sources c) else <[cr_sourceIP r := n]> (co_sources c)
      else co_sources c in
    (u, set_admission c (co_accepting c) (co_admitted c - 1) sources (co_wg c)).

Definition removeLocked (c : ConnectionCoordinator) (u : connectionUser) (r : connectionRecord)
  : connectionUser * ConnectionCoordinator :=
  let '(u, c) := releaseAdmissionLocked c u r in
  let u := set_connections u (delete (r_ID (cr_ref r)) (u_connections u)) in
  let u := set_counts u (u_nextGen u) (u_admitted u) (u_live u - 1) in
  (u, set_admission c (co_accepting c) (co_admitted c) (co_sources c) (co_wg c - 1)).

Definition reserve_locked (userID loginSessionID : Z) (sourceIP : Addr) (id : ConnID)
    (c : ConnectionCoordinator) (l : loc) : result ControlConnectionRef ConnError * ConnectionCoordinator :=
  let u := user_at c l in
  if MaxControlConnectionsPerUser <=? u_admitted u then (Err ErrControlConnectionLimit, c)
  else match reserveAdmission c sourceIP with
  | (Some e, c) => (Err e, c)
  | (None, c) =>
      let gen := u64 (u_nextGen u + 1) in
      let ref := mkRef id userID gen loginSessionID in
      let r := mkRecord ref ConnectionOpening true sourceIP no_lease None in
      (Ok ref, put c l (set_counts (set_connections u (<[id := r]> (u_connections u)))
                          gen (u_admitted u + 1) (u_live u + 1)))
  end.

Definition ReserveConnectFrom (c : ConnectionCoordinator) (userID loginSessionID : Z) (sourceIP : Addr)
    (drawn : option ConnID) : result ControlConnectionRef ConnError * ConnectionCoordinator :=
  if (userID <=? 0) || (loginSessionID <=? 0) then (Err ErrInvalidConnection, c)
  else
    let sourceIP := if IsValid sourceIP then Unmap sourceIP else sourceIP in
    match randomControlConnectionID drawn with
    | Err e => (Err e, c)
    | Ok id => with_user c userID (reserve_locked userID loginSessionID sourceIP id)
    end.

Definition ReserveConnect (c : ConnectionCoordinator) (userID loginSessionID : Z) (drawn : option ConnID) :=
  ReserveConnectFrom c userID loginSessionID AddrInvalid drawn.

Definition AdmissionOpen (c : ConnectionCoordinator) : bool := co_accepting c.
Definition StopAdmission (c : ConnectionCoordinator) : ConnectionCoordinator :=
  set_admission c false (co_admitted c) (co_sources c) (co_wg c).

(** ** Activation and leases *)

Definition activate_locked (ref : ControlConnectionRef) (t : Transport) (expires : Z) (u : connectionUser)
  : result (ControlConnectionRef * AuthLease) ConnError * connectionUser :=
  match u_connections u !! r_ID ref with
  | Some r =>
      if decide (cr_ref r = ref /\ cr_state r = ConnectionOpening) then
        let lease := mkLease 1 expires in
        (Ok (ref, lease),
         set_connections u (<[r_ID ref := with_lease (with_state (with_transport r (Some t)) ConnectionActive) lease]>
                              (u_connections u)))
      else (Err ErrConnectionNotOpening, u)
  | None => (Err ErrConnectionNotOpening, u)
  end.

Definition activate (c : ConnectionCoordinator) (ref : ControlConnectionRef) (transport : option Transport)
    (accessExpiresAt : Z) : result (ControlConnectionRef * AuthLease) ConnError * ConnectionCoordinator :=
  match transport with
  | None => (Err ErrInvalidConnection, c)
  | Some t =>
      if negb (validConnectionRef ref) || (accessExpiresAt <=? 0) then (Err ErrInvalidConnection, c)
      else with_user c (r_UserID ref) (locked (activate_locked ref t accessExpiresAt))
  end.

(** [ConnectionReservation.Activate]: the reservation is its reference. *)
Definition Activate (c : ConnectionCoordinator) (ref : ControlConnectionRef) (transport : option Transport)
    (accessExpiresAt : Z) : result (ControlConnectionRef * AuthLease) ConnError * ConnectionCoordinator :=
  match transport with
  | None => (Err ErrInvalidConnection, c)
  | Some _ => if accessExpiresAt <=? 0 then (Err ErrInvalidConnection, c) else activate c ref transport accessExpiresAt
  end.

(** [connectionActiveLocked] together with the record it finds. *)
Definition active_record (u : connectionUser) (ref : ControlConnectionRef) : option connectionRecord :=
  match u_connections u !! r_ID ref with
  | Some r => if decide (cr_ref r = ref /\ cr_state r = ConnectionActive) then Some r else None
  | None => None
  end.
Definition connectionActiveLocked (u : connectionUser) (ref : ControlConnectionRef) : bool :=
  bool_decide (is_Some (active_record u ref)).

Definition GetAuthLease (c : ConnectionCoordinator) (ref : ControlConnectionRef)
  : option AuthLease * ConnectionCoordinator :=
  if negb (validConnectionRef ref) then (None, c)
  else with_user c (r_UserID ref) (reading (fun u => cr_lease <$> active_record u ref)).

Definition lease_active_locked (ref : ControlConnectionRef) (now : Z) (u : connectionUser) : bool :=
  match active_record u ref with Some r => now <? al_ExpiresAt (cr_lease r) | None => false end.

Definition LeaseActive (c : ConnectionCoordinator) (ref : ControlConnectionRef) (nowMillis : Z)
  : bool * ConnectionCoordinator :=
  if negb (validConnectionRef ref) || (nowMillis <=? 0) then (false, c)
  else with_user c (r_UserID ref) (reading (lease_active_locked ref nowMillis)).

Definition lease_matches_locked (ref : ControlConnectionRef) (expected : AuthLease) (u : connectionUser) : bool :=
  match active_record u ref with Some r => bool_decide (cr_lease r = expected) | None => false end.

Definition LeaseMatches (c : ConnectionCoordinator) (ref : ControlConnectionRef) (expected : AuthLease)
    (nowMillis : Z) : bool * ConnectionCoordinator :=
  if negb (validConnectionRef ref) || (al_Revision expected =? 0) || (al_ExpiresAt expected <=? nowMillis) ||
     (nowMillis <=? 0)
  then (false, c)
  else with_user c (r_UserID ref) (reading (lease_matches_locked ref expected)).

Definition renew_locked (ref : ControlConnectionRef) (expires now : Z) (u : connectionUser)
  : result AuthLease ConnError * connectionUser :=
  match active_record u ref with
  | Some r =>
      if al_ExpiresAt (cr_lease r) <=? now then (Err ErrConnectionNotActive, u)
      else let lease := mkLease (u64 (al_Revision (cr_lease r) + 1)) expires in
           (Ok lease, set_connections u (<[r_ID ref := with_lease r lease]> (u_connections u)))
  | None => (Err ErrConnectionNotActive, u)
  end.

Definition RenewAuthLease (c : ConnectionCoordinator) (ref : ControlConnectionRef) (accessExpiresAt nowMillis : Z)
  : result AuthLease ConnError * ConnectionCoordinator :=
  if negb (validConnectionRef ref) || (accessExpiresAt <=? 0) || (nowMillis <=? 0) then (Err ErrInvalidConnection, c)
  else with_user c (r_UserID ref) (locked (renew_locked ref accessExpiresAt nowMillis)).

(** ** Queries *)

Definition GetVoiceAuthority (c : ConnectionCoordinator) (userID : Z) : option VoiceAuthority * ConnectionCoordinator :=
  if userID <=? 0 then (None, c) else with_user c userID (reading u_voice).

Definition PendingVoiceAuthorityTombstone (c : ConnectionCoordinator) (userID : Z)
  : option (VoiceAuthority * string) * ConnectionCoordinator :=
  if userID <=? 0 then (None, c)
  else with_user c userID (reading (fun u => (fun t => (vt_authority t, vt_reason t)) <$> u_tombstone u)).

Definition clear_tombstone_locked (a : VoiceAuthority) (u : connectionUser) : unit * connectionUser :=
  match u_tombstone u with
  | Some t => if decide (vt_authority t = a) then (tt, set_tombstone u None) else (tt, u)
  | None => (tt, u)
  end.

Definition clearPendingVoiceAuthorityTombstone (c : ConnectionCoordinator) (authority : option VoiceAuthority)
  : ConnectionCoordinator :=
  match authority with
  | None => c
  | Some a => (with_user c (va_UserID a) (locked (clear_tombstone_locked a))).2
  end.

Definition active_connection_locked (id : ConnID) (u : connectionUser) : option ControlConnectionRef :=
  match u_connections u !! id with
  | Some r => if decide (cr_state r = ConnectionActive) then Some (cr_ref r) else None
  | None => None
  end.

Definition ActiveConnection (c : ConnectionCoordinator) (userID : Z) (id : ConnID)
  : option ControlConnectionRef * ConnectionCoordinator :=
  if (userID <=? 0) || bool_decide (id = zero_id) then (None, c)
  else with_user c userID (reading (active_connection_locked id)).

Definition state_locked (ref : ControlConnectionRef) (u : connectionUser) : option ConnectionState :=
  match u_connections u !! r_ID ref with
  | Some r => if decide (cr_ref r = ref) then Some (cr_state r) else None
  | None => None
  end.

Definition ConnState (c : ConnectionCoordinator) (ref : ControlConnectionRef)
  : option ConnectionState * ConnectionCoordinator :=
  if negb (validConnectionRef ref) then (None, c) else with_user c (r_UserID ref) (reading (state_locked ref)).

Definition ActiveCount (c : ConnectionCoordinator) : Z := co_admitted c.

(** The loops of [UserActiveCount] and [ActiveConnectionCount]. *)
Definition active_count (u : connectionUser) : Z :=
  msum (fun r => if decide (cr_state r = ConnectionActive) then 1 else 0) (u_connections u).

Definition UserActiveCount (c : ConnectionCoordinator) (userID : Z) : Z * ConnectionCoordinator :=
  if userID <=? 0 then (0, c) else with_user c userID (reading active_count).

Definition SourceCount (c : ConnectionCoordinator) (sourceIP : Addr) : Z :=
  if IsValid sourceIP then source_count (co_sources c) (Unmap sourceIP) else 0.

(** ** Close plans *)

Definition beginDisconnectLocked (c : ConnectionCoordinator) (ref : ControlConnectionRef) (statusCode : Z)
    (reason : string) (u : connectionUser) : connectionClosePlan * bool * connectionUser :=
  match u_connections u !! r_ID ref with
  | None => (zero_plan, false, u)
  | Some r =>
      if decide (cr_ref r <> ref \/ cr_state r = ConnectionClosing) then (zero_plan, false, u)
      else
        let u := set_connections u (<[r_ID ref := with_state r ConnectionClosing]> (u_connections u)) in
        match u_voice u with
        | Some a =>
            if decide (va_ControlConnectionID a = r_ID ref /\ va_ConnectionGeneration a = r_Generation ref)
            then (mkPlan (cr_transport r) statusCode reason (cloneVoiceAuthority (Some a)) (co_voiceStop c)
                    (co_voiceObserver c) reason false, true,
                  set_voice (set_tombstone u (Some (mkTombstone a reason))) None)
            else (mkPlan (cr_transport r) statusCode reason None false false EmptyString false, true, u)
        | None => (mkPlan (cr_transport r) statusCode reason None false false EmptyString false, true, u)
        end
  end.

Definition AcquireVoiceRelayGate (c : ConnectionCoordinator) (userID : Z) : ConnectionCoordinator :=
  if userID <=? 0 then c else emit c [EffAcquireGate userID].
Definition releaseRelay (c : ConnectionCoordinator) (userID : Z) : ConnectionCoordinator :=
  if userID <=? 0 then c else emit c [EffReleaseGate userID].

(** The voice part of a close plan: stop the session under its relay gate. *)
Definition stop_voice (c : ConnectionCoordinator) (plan : connectionClosePlan) (relayGateHeld : bool)
  : ConnectionCoordinator :=
  match pl_voiceAuthority plan with
  | Some a =>
      if pl_voiceAuthorityStop plan then
        let c := if relayGateHeld then c else AcquireVoiceRelayGate c (va_UserID a) in
        let c := emit c [EffVoiceStop a (pl_reason plan)] in
        if relayGateHeld then c else releaseRelay c (va_UserID a)
      else c
  | None => c
  end.

Definition runClosePlanWithGate (c : ConnectionCoordinator) (plan : connectionClosePlan) (relayGateHeld : bool)
  : ConnectionCoordinator :=
  let c := stop_voice c plan relayGateHeld in
  let c := if pl_voiceObserver plan
           then emit c [EffVoiceObserve (pl_voiceAuthority plan) None (pl_voiceReason plan)] else c in
  match pl_transport plan with
  | None => c
  | Some t =>
      if pl_authRevoked plan && t_revocation t
      then emit c [EffRequestAuthRevoked t (pl_reason plan) (pl_status plan)]
      else emit c [EffRequestClose t (pl_status plan) (pl_reason plan)]
  end.

Definition runClosePlan (c : ConnectionCoordinator) (plan : connectionClosePlan) : ConnectionCoordinator :=
  runClosePlanWithGate c plan false.

Definition notifyVoiceAuthority (c : ConnectionCoordinator) (previous current : option VoiceAuthority) (reason : string) :=
  if co_voiceObserver c
  then emit c [EffVoiceObserve (cloneVoiceAuthority previous) (cloneVoiceAuthority current) reason] else c.

Definition notifyClosed (c : ConnectionCoordinator) (ref : ControlConnectionRef) : ConnectionCoordinator :=
  if co_closeObserver c then emit c [EffClosed ref] else c.

(** The tail shared by [BeginDisconnect] and [ExpireAuthLease]. *)
Definition begin_disconnect (ref : ControlConnectionRef) (statusCode : Z) (reason : string)
    (c : ConnectionCoordinator) (l : loc) : bool * ConnectionCoordinator :=
  let '(plan, ok, u) := beginDisconnectLocked c ref statusCode reason (user_at c l) in
  let c := runClosePlan (put c l u) plan in
  (ok, if ok then notifyClosed c ref else c).

Definition BeginDisconnect (c : ConnectionCoordinator) (ref : ControlConnectionRef) (statusCode : Z) (reason : string)
  : bool * ConnectionCoordinator :=
  if negb (validConnectionRef ref) then (false, c)
  else with_user c (r_UserID ref) (begin_disconnect ref statusCode reason).

Definition expire_locked (ref : ControlConnectionRef) (expected : AuthLease) (c : ConnectionCoordinator) (l : loc)
  : bool * ConnectionCoordinator :=
  match active_record (user_at c l) ref with
  | Some r => if decide (cr_lease r = expected) then begin_disconnect ref 4001 "token expired" c l else (false, c)
  | None => (false, c)
  end.

Definition ExpireAuthLease (c : ConnectionCoordinator) (ref : ControlConnectionRef) (expected : AuthLease)
    (nowMillis : Z) : bool * ConnectionCoordinator :=
  if negb (validConnectionRef ref) || (al_Revision expected =? 0) || (al_ExpiresAt expected <=? 0) ||
     (nowMillis <? al_ExpiresAt expected)
  then (false, c)
  else with_user c (r_UserID ref) (expire_locked ref expected).

(** ** Removal *)

Definition finish_locked (ref : ControlConnectionRef) (c : ConnectionCoordinator) (l : loc)
  : unit * ConnectionCoordinator :=
  let u := user_at c l in
  match u_connections u !! r_ID ref with
  | Some r =>
      if decide (cr_ref r = ref /\ cr_state r = ConnectionClosing)
      then let '(u, c) := removeLocked c u r in (tt, put c l u) else (tt, c)
  | None => (tt, c)
  end.
Definition finish (c : ConnectionCoordinator) (ref : ControlConnectionRef) : ConnectionCoordinator :=
  (with_user c (r_UserID ref) (finish_locked ref)).2.
Definition FinishDisconnect (c : ConnectionCoordinator) (ref : ControlConnectionRef) : ConnectionCoordinator :=
  if negb (validConnectionRef ref) then c else finish c ref.

Definition abort_locked (ref : ControlConnectionRef) (c : ConnectionCoordinator) (l : loc)
  : unit * ConnectionCoordinator :=
  let u := user_at c l in
  match u_connections u !! r_ID ref with
  | Some r =>
      if decide (cr_ref r = ref /\ cr_transport r = None)
      then let '(u, c) := removeLocked c u r in (tt, put c l u) else (tt, c)
  | None => (tt, c)
  end.
Definition abort (c : ConnectionCoordinator) (ref : ControlConnectionRef) : ConnectionCoordinator :=
  (with_user c (r_UserID ref) (abort_locked ref)).2.

(** ** Disconnecting several connections *)

(** One iteration of the loops of [disconnectMatchingWithGate] and
    [DisconnectAll]; the accumulator holds the plans and references. *)
Definition close_one (c : ConnectionCoordinator) (statusCode : Z) (reason : string) (revoked : bool)
    (matches : ControlConnectionRef -> bool)
    (st : list (connectionClosePlan * ControlConnectionRef) * connectionUser) (id : ConnID) :=
  let '(work, u) := st in
  match u_connections u !! id with
  | Some r =>
      if matches (cr_ref r) then
        let '(plan, ok, u) := beginDisconnectLocked c (cr_ref r) statusCode reason u in
        if ok
        then (work ++ [(mkPlan (pl_transport plan) (pl_status plan) (pl_reason plan) (pl_voiceAuthority plan)
                          (pl_voiceAuthorityStop plan) (pl_voiceObserver plan) (pl_voiceReason plan) revoked,
                        cr_ref r)], u)
        else (work, u)
      else (work, u)
  | None => (work, u)
  end.

(** [order] is the order in which Go ranges over the connections. *)
Definition close_matching (statusCode : Z) (reason : string) (revoked gateHeld : bool)
    (matches : ControlConnectionRef -> bool) (order : list ConnID) (c : ConnectionCoordinator) (l : loc)
  : unit * ConnectionCoordinator :=
  let '(work, u) := fold_left (close_one c statusCode reason revoked matches) order ([], user_at c l) in
  let c := put c l u in
  let c := fold_left (fun c w => runClosePlanWithGate c w.1 gateHeld) work c in
  (tt, fold_left (fun c w => notifyClosed c w.2) work c).

Definition disconnectMatchingWithGate (c : ConnectionCoordinator) (userID : Z) (reason : string)
    (matches : ControlConnectionRef -> bool) (relayGateHeld : bool) (order : list ConnID) : ConnectionCoordinator :=
  (with_user c userID (close_matching 4002 reason true relayGateHeld matches order)).2.
Definition disconnectMatching (c : ConnectionCoordinator) (userID : Z) (reason : string)
    (matches : ControlConnectionRef -> bool) (order : list ConnID) : ConnectionCoordinator :=
  disconnectMatchingWithGate c userID reason matches false order.

Definition DisconnectLoginSession (c : ConnectionCoordinator) (userID loginSessionID : Z) (reason : string)
    (order : list ConnID) : ConnectionCoordinator :=
  if (userID <=? 0) || (loginSessionID <=? 0) then c
  else disconnectMatching c userID reason (fun ref => r_LoginSessionID ref =? loginSessionID) order.

Definition DisconnectUser (c : ConnectionCoordinator) (userID : Z) (reason : string) (order : list ConnID) :=
  if userID <=? 0 then c else disconnectMatching c userID reason (fun _ => true) order.
Definition DisconnectUserForPublication (c : ConnectionCoordinator) (userID : Z) (reason : string)
    (order : list ConnID) :=
  if userID <=? 0 then c else disconnectMatchingWithGate c userID reason (fun _ => true) true order.

(** [users] is the order of the index, [order] that of each registry's connections. *)
Definition DisconnectAll (c : ConnectionCoordinator) (statusCode : Z) (reason : string)
    (users : list Z) (order : loc -> list ConnID) : ConnectionCoordinator :=
  let '(ls, c) := acquireAllUsers c users in
  fold_left (fun c l =>
    let c := (close_matching statusCode reason false false (fun _ => true) (order l) c l).2 in
    releaseUser c (u_userID (user_at c l)) l) ls c.

Definition ForceCloseAll (c : ConnectionCoordinator) (users : list Z) (order : loc -> list ConnID) : ConnectionCoordinator :=
  let '(ls, c) := acquireAllUsers c users in
  fold_left (fun c l =>
    let u := user_at c l in
    let transports := omap (fun id => u_connections u !! id ≫= cr_transport) (order l) in
    releaseUser (emit c (EffForceClose <$> transports)) (u_userID u) l) ls c.

(** ** Process-wide queries ([realtime/relay_gate.go]) *)

Definition VoiceAuthorities (c : ConnectionCoordinator) (users : list Z)
  : list VoiceAuthority * ConnectionCoordinator :=
  let '(ls, c) := acquireAllUsers c users in
  let '(acc, c) := fold_left (fun '(acc, c) l =>
    let u := user_at c l in (acc ++ option_list (u_voice u), releaseUser c (u_userID u) l)) ls ([], c) in
  (sort_by va_UserID acc, c).

Definition ActiveConnectionCount (c : ConnectionCoordinator) (users : list Z) : Z * ConnectionCoordinator :=
  let '(ls, c) := acquireAllUsers c users in
  fold_left (fun '(n, c) l => let u := user_at c l in (n + active_count u, releaseUser c (u_userID u) l)) ls (0, c).

(** The gate slots [acquireMany] locks, in its order. *)
Definition AcquireCurrentVoiceRelayGates (c : ConnectionCoordinator) (users : list Z)
  : list Z * ConnectionCoordinator :=
  let '(authorities, c) := VoiceAuthorities c users in
  (RelayGate.acquireMany (va_UserID <$> authorities), c).

(** [accepts] is the outcome of each non-blocking enqueue. *)
Definition PublishVoiceStats (c : ConnectionCoordinator) (userID : Z) (sessionID : SessionID) (frame : bytes)
    (order : list ConnID) (accepts : Transport -> bool) : Z * ConnectionCoordinator :=
  if (userID <=? 0) || bool_decide (sessionID = zero_id) || bool_decide (frame = []) then (0, c)
  else
    let c := AcquireVoiceRelayGate c userID in
    let '(transports, c) := with_user c userID (reading (fun u =>
      match u_voice u with
      | Some a =>
          if decide (va_VoiceSessionID a = sessionID) then
            omap (fun id => match u_connections u !! id with
                            | Some r => if decide (cr_state r = ConnectionActive)
                                        then (match cr_transport r with
                                              | Some t => if t_stats t then Some t else None
                                              | None => None
                                              end) else None
                            | None => None
                            end) order
          else []
      | None => []
      end)) in
    let c := emit c ((fun t => EffVoiceStats t frame) <$> transports) in
    (Z.of_nat (length (filter (fun t => accepts t = true) transports)), releaseRelay c userID).

(** ** Voice authority *)

Definition stage_locked (owner : ControlConnectionRef) (expected : option VoiceAuthority) (channelID : Z)
    (prepared : option Session.loc) (joinedAt : Z) (u : connectionUser) : result VoiceAuthorityStage ConnError :=
  if negb (connectionActiveLocked u owner) || negb (sameVoiceAuthority (u_voice u) expected)
  then Err ErrVoiceAuthorityPrecondition
  else if match prepared, expected with
          | None, Some e => negb (bool_decide (va_ControlConnectionID e = r_ID owner)) ||
                            negb (va_ConnectionGeneration e =? r_Generation owner)
          | _, _ => false
          end
  then Err ErrVoiceAuthorityPrecondition
  else Ok (mkStage owner (cloneVoiceAuthority expected) channelID prepared (u64 (u_nextVoice u + 1)) joinedAt).

Definition StageVoiceReplacement (c : ConnectionCoordinator) (w : World) (owner : ControlConnectionRef)
    (expected : option VoiceAuthority) (channelID : Z) (prepared : option Session.loc) (joinedAt : Z)
  : result VoiceAuthorityStage ConnError * ConnectionCoordinator :=
  let bad_expected := match expected with
                      | Some e => negb (VoiceValid e) || negb (va_UserID e =? r_UserID owner)
                      | None => false
                      end in
  let bad_prepared := match prepared with
                      | Some _ => let info := Session.Info w prepared in
                                  bool_decide (Session.i_ID info = zero_id) ||
                                  negb (Session.i_UserID info =? r_UserID owner)
                      | None => bool_decide (expected = None)
                      end in
  if negb (validConnectionRef owner) || (channelID <=? 0) || (joinedAt <? 0) || bad_expected || bad_prepared
  then (Err ErrVoiceAuthorityPrecondition, c)
  else with_user c (r_UserID owner) (reading (stage_locked owner expected channelID prepared joinedAt)).

Definition staged_authority (s : VoiceAuthorityStage) (sessionID : SessionID) : VoiceAuthority :=
  mkVoice (r_UserID (st_owner s)) (st_channelID s) (r_ID (st_owner s)) (r_Generation (st_owner s))
    sessionID (st_generation s) (st_joinedAt s).

Definition ProposedAuthority (s : VoiceAuthorityStage) (w : World) : result VoiceAuthority ConnError :=
  if negb (validConnectionRef (st_owner s)) || (st_channelID s <=? 0) || (st_generation s =? 0) || (st_joinedAt s <? 0)
  then Err ErrVoiceAuthorityPrecondition
  else
    let sessionID :=
      match st_prepared s with
      | Some _ =>
          let info := Session.Info w (st_prepared s) in
          if bool_decide (Session.i_ID info = zero_id) || negb (Session.i_UserID info =? r_UserID (st_owner s))
          then Err ErrVoiceAuthorityPrecondition else Ok (Session.i_ID info)
      | None => Ok (match st_expected s with Some e => va_VoiceSessionID e | None => zero_id end)
      end in
    id <-? sessionID ;;
    let proposed := staged_authority s id in
    if negb (VoiceValid proposed) then Err ErrVoiceAuthorityPrecondition else Ok proposed.

(** The manager's part of the commit: the session of the new authority, the
    sends to drain and the notification left for later. *)
Definition apply_manager (s : VoiceAuthorityStage) (w : World) (allowNaturalExpiry : bool) (now : Z)
    (env : World -> World) : result (SessionID * option Drain * option Cleanup) ConnError * World :=
  match st_prepared s with
  | Some _ =>
      let expectedSessionID := va_VoiceSessionID <$> st_expected s in
      match (if allowNaturalExpiry
             then Session.ActivatePreparedStagedAfterNaturalExpiry w (st_prepared s) expectedSessionID now
             else Session.ActivatePreparedStaged w (st_prepared s) expectedSessionID now) with
      | (Ok (info, drain, cleanup), w) => (Ok (Session.i_ID info, drain, Some cleanup), w)
      | (Err e, w) => (Err (ErrProtocol e), w)
      end
  | None =>
      match st_expected s with
      | None => (Err ErrVoiceAuthorityPrecondition, w)
      | Some e =>
          match Session.Get w (va_VoiceSessionID e) now env with
          | (Some snapshot, w) =>
              if Session.sn_UserID snapshot =? r_UserID (st_owner s)
              then (Ok (va_VoiceSessionID e, None, None), w)
              else (Err (ErrProtocol ErrSessionPrecondition), w)
          | (None, w) => (Err (ErrProtocol ErrSessionPrecondition), w)
          end
      end
  end.

Definition apply_locked (s : VoiceAuthorityStage) (w : World) (allowNaturalExpiry : bool) (now : Z)
    (env : World -> World) (u : connectionUser)
  : result VoiceAuthorityCommit ConnError * World * connectionUser :=
  if negb (connectionActiveLocked u (st_owner s)) || negb (sameVoiceAuthority (u_voice u) (st_expected s)) ||
     negb (u64 (u_nextVoice u + 1) =? st_generation s)
  then (Err ErrVoiceAuthorityPrecondition, w, u)
  else
    match apply_manager s w allowNaturalExpiry now env with
    | (Err e, w) => (Err e, w, u)
    | (Ok (sessionID, drain, cleanup), w) =>
        let current := staged_authority s sessionID in
        (Ok (mkCommit (cloneVoiceAuthority (u_voice u)) current drain cleanup None), w,
         set_tombstone (set_voice (set_nextVoice u (st_generation s)) (Some current)) None)
    end.

(** [manager] is [None] when nil. *)
Definition apply (c : ConnectionCoordinator) (s : VoiceAuthorityStage) (manager : option World)
    (allowNaturalExpiry acquireRelay : bool) (now : Z) (env : World -> World)
  : result VoiceAuthorityCommit ConnError * option World * ConnectionCoordinator :=
  match manager with
  | None => (Err ErrVoiceAuthorityPrecondition, None, c)
  | Some w =>
      if negb (validConnectionRef (st_owner s)) || bool_decide (st_prepared s = None /\ st_expected s = None)
      then (Err ErrVoiceAuthorityPrecondition, Some w, c)
      else
        let userID := r_UserID (st_owner s) in
        let c := if acquireRelay then AcquireVoiceRelayGate c userID else c in
        let '(res, w, c) := with_user c userID (locked (apply_locked s w allowNaturalExpiry now env)) in
        match res with
        | Err e => (Err e, Some w, if acquireRelay then releaseRelay c userID else c)
        | Ok cm => (Ok (mkCommit (cm_Previous cm) (cm_Current cm) (cm_Drain cm) (cm_Cleanup cm)
                          (if acquireRelay then Some userID else None)), Some w, c)
        end
  end.

Definition run_opt_drain (w : World) (d : option Drain) : World :=
  match d with Some d => run_drain w d | None => w end.
Definition run_release (c : ConnectionCoordinator) (r : option Z) : ConnectionCoordinator :=
  match r with Some userID => releaseRelay c userID | None => c end.

Definition Apply (c : ConnectionCoordinator) (s : VoiceAuthorityStage) (manager : option World) (now : Z)
    (env : World -> World) : result VoiceAuthorityCommit ConnError * option World * ConnectionCoordinator :=
  match apply c s manager true true now env with
  | (Err e, w, c) => (Err e, w, c)
  | (Ok commit, w, c) =>
      let w := (fun w => run_opt_drain w (cm_Drain commit)) <$> w in
      let c := run_release c (cm_Release commit) in
      (Ok commit, w, notifyVoiceAuthority c (cm_Previous commit) (Some (cm_Current commit)) "session_replaced")
  end.

Definition ApplyForPublication c s manager allowNaturalExpiry now env :=
  apply c s manager allowNaturalExpiry true now env.
Definition ApplyForPublicationWithGate c s manager allowNaturalExpiry now env :=
  apply c s manager allowNaturalExpiry false now env.

(** The closure a staged voice teardown returns: drain, then free the gate. *)
Record ReturnDrain := mkReturnDrain { rd_drain : option Drain; rd_gate : option Z }.
Definition run_return_drain (c : ConnectionCoordinator) (w : World) (d : ReturnDrain) : ConnectionCoordinator * World :=
  (run_release c (rd_gate d), run_opt_drain w (rd_drain d)).

(** An error other than a missing session is returned before the authority is cleared. *)
Definition fatal (e : option ProtoError) : option ProtoError :=
  match e with Some ErrSessionNotFound => None | _ => e end.

Definition clear_voice_locked (mark : option string) (u : connectionUser) : connectionUser :=
  match u_voice u with
  | Some a =>
      let u := set_voice u None in
      match mark with Some reason => set_tombstone u (Some (mkTombstone a reason)) | None => u end
  | None => u
  end.

(** The section shared by the two disconnect paths: [DeleteStaged] when a
    manager is supplied, then clear the authority, leaving a tombstone for
    [mark].  The first component is [None] when [expected] is not current. *)
Definition voice_disconnect_locked (expected : VoiceAuthority) (manager : option World) (mark : option string)
    (now : Z) (u : connectionUser)
  : result (option (VoiceAuthority * option Drain)) ConnError * option World * connectionUser :=
  if negb (sameVoiceAuthority (u_voice u) (Some expected)) then (Ok None, manager, u)
  else
    match manager with
    | None => (Ok (Some (expected, None)), None, clear_voice_locked mark u)
    | Some w =>
        let '(drain, err, w) := Session.DeleteStaged w (va_VoiceSessionID expected) (va_UserID expected) now in
        match fatal err with
        | Some e => (Err (ErrProtocol e), Some w, u)
        | None => (Ok (Some (expected, drain)), Some w, clear_voice_locked mark u)
        end
    end.

Definition beginVoiceDisconnectForPublication (c : ConnectionCoordinator) (expected : VoiceAuthority)
    (manager : option World) (acquireRelay : bool) (now : Z)
  : result (option (VoiceAuthority * ReturnDrain)) ConnError * option World * ConnectionCoordinator :=
  if negb (VoiceValid expected) then (Err ErrVoiceAuthorityPrecondition, manager, c)
  else
    let userID := va_UserID expected in
    let c := if acquireRelay then AcquireVoiceRelayGate c userID else c in
    let '(res, w, c) := with_user c userID (locked (voice_disconnect_locked expected manager None now)) in
    match res with
    | Ok (Some (removed, drain)) =>
        (Ok (Some (removed, mkReturnDrain drain (if acquireRelay then Some userID else None))), w, c)
    | Ok None => (Ok None, w, if acquireRelay then releaseRelay c userID else c)
    | Err e => (Err e, w, if acquireRelay then releaseRelay c userID else c)
    end.

Definition BeginVoiceDisconnectForPublication c expected manager now :=
  beginVoiceDisconnectForPublication c expected manager true now.
Definition BeginVoiceDisconnectForPublicationWithGate c expected manager now :=
  beginVoiceDisconnectForPublication c expected manager false now.

Definition voice_revoke_locked (expected : VoiceAuthority) (w : World) (now : Z) (u : connectionUser)
  : result (option (VoiceAuthority * option Drain * option Cleanup)) ConnError * World * connectionUser :=
  if negb (sameVoiceAuthority (u_voice u) (Some expected)) then (Ok None, w, u)
  else
    let '(drain, cleanup, err, w) :=
      Session.RevokeStagedForPublication w (va_VoiceSessionID expected) (va_UserID expected) now in
    match fatal err with
    | Some e => (Err (ErrProtocol e), w, u)
    | None => (Ok (Some (expected, drain, cleanup)), w, clear_voice_locked None u)
    end.

Definition beginVoiceRevokeForPublication (c : ConnectionCoordinator) (expected : VoiceAuthority)
    (manager : option World) (acquireRelay : bool) (now : Z)
  : result (option (VoiceAuthority * ReturnDrain * option Cleanup)) ConnError * option World * ConnectionCoordinator :=
  match manager with
  | None => (Err ErrVoiceAuthorityPrecondition, None, c)
  | Some w =>
      if negb (VoiceValid expected) then (Err ErrVoiceAuthorityPrecondition, Some w, c)
      else
        let userID := va_UserID expected in
        let c := if acquireRelay then AcquireVoiceRelayGate c userID else c in
        let '(res, w, c) := with_user c userID (locked (voice_revoke_locked expected w now)) in
        match res with
        | Ok (Some (removed, drain, cleanup)) =>
            (Ok (Some (removed, mkReturnDrain drain (if acquireRelay then Some userID else None), cleanup)), Some w, c)
        | Ok None => (Ok None, Some w, if acquireRelay then releaseRelay c userID else c)
        | Err e => (Err e, Some w, if acquireRelay then releaseRelay c userID else c)
        end
  end.

Definition BeginVoiceRevokeForPublication c expected manager now :=
  beginVoiceRevokeForPublication c expected manager true now.
Definition BeginVoiceRevokeForPublicationWithGate c expected manager now :=
  beginVoiceRevokeForPublication c expected manager false now.

Definition beginVoiceDisconnectReason (c : ConnectionCoordinator) (expected : VoiceAuthority)
    (manager : option World) (reason : string) (notify : bool) (now : Z)
  : result (option VoiceAuthority) ConnError * option World * ConnectionCoordinator :=
  if negb (VoiceValid expected) then (Err ErrVoiceAuthorityPrecondition, manager, c)
  else
    let userID := va_UserID expected in
    let c := AcquireVoiceRelayGate c userID in
    let '(res, w, c) := with_user c userID (locked (voice_disconnect_locked expected manager (Some reason) now)) in
    match res with
    | Err e => (Err e, w, releaseRelay c userID)
    | Ok None => (Ok None, w, releaseRelay c userID)
    | Ok (Some (removed, drain)) =>
        let w := (fun w => run_opt_drain w drain) <$> w in
        let c := if notify then notifyVoiceAuthority c (Some removed) None reason else c in
        (Ok (Some removed), w, releaseRelay c userID)
    end.

Definition BeginVoiceDisconnectReason c expected manager reason now :=
  beginVoiceDisconnectReason c expected manager reason true now.
Definition BeginVoiceDisconnect c expected manager now := BeginVoiceDisconnectReason c expected manager "revoked" now.

End Connection.
