(* ===== verification/ConnectionProps.v ===== *)
(** * ConnectionProps: what the connection coordinator guarantees

    The steps of [sys_step] are the critical sections of every operation of
    [Connection], so a run of steps is any interleaving of any number of
    goroutines; a registry is only touched by a holder of a reference to it. *)

From S2P Require Import Prelude Ingress Packet Session State Connection.
From stdpp Require Import base gmap list strings fin_maps relations.
From Stdlib Require Import ZArith Lia.
Import Netip.
#[local] Open Scope Z_scope.

Module ConnectionProps.
Import State (VoiceAuthority, mkVoice, va_UserID, va_ChannelID, va_ControlConnectionID,
  va_ConnectionGeneration, va_VoiceSessionID, va_VoiceAuthorityGeneration, va_JoinedAt, VoiceValid).
Import Packet (ProtoError, ErrSessionPrecondition, ErrSessionNotFound, zero_id).
Import Session (World, Drain, Cleanup).
Import Connection.

(** ** Sections of one registry *)

(** [user_sect c u u' claim]: a critical section of [user.mu] that changes only
    the registry; [claim] is the connection whose teardown it claimed. *)
Inductive user_sect (c : ConnectionCoordinator) (u : connectionUser) : connectionUser -> option ControlConnectionRef -> Prop :=
  | us_activate ref t expires : user_sect c u (activate_locked ref t expires u).2 None
  | us_renew ref expires now : user_sect c u (renew_locked ref expires now u).2 None
  | us_clear a : user_sect c u (clear_tombstone_locked a u).2 None
  | us_apply s w allow now env : user_sect c u (apply_locked s w allow now env u).2 None
  | us_disconnect e m mark now : user_sect c u (voice_disconnect_locked e m mark now u).2 None
  | us_revoke e w now : user_sect c u (voice_revoke_locked e w now u).2 None
  | us_begin ref status reason :
      user_sect c u (beginDisconnectLocked c ref status reason u).2
        (if (beginDisconnectLocked c ref status reason u).1.2 then Some ref else None).

(** The coordinator, the identifiers drawn so far and the teardowns claimed. *)
Record Sys := mkSys { sy_co : ConnectionCoordinator; sy_issued : gset ConnID; sy_claims : list ControlConnectionRef }.

Definition retained (c : ConnectionCoordinator) (l : loc) : Prop :=
  exists u, co_heap c !! l = Some u /\ 0 < u_refs u.

Inductive sys_step : Sys -> Sys -> Prop :=
  | ss_acquire c ids cl userID : sys_step (mkSys c ids cl) (mkSys (acquireUser c userID).2 ids cl)
  | ss_release c ids cl l : retained c l ->
      sys_step (mkSys c ids cl) (mkSys (releaseUser c (u_userID (user_at c l)) l) ids cl)
  | ss_section c ids cl l u' claim : retained c l -> user_sect c (user_at c l) u' claim ->
      sys_step (mkSys c ids cl) (mkSys (put c l u') ids (cl ++ option_list claim))
  | ss_reserve c ids cl l login source id : retained c l -> id ∉ ids -> id <> zero_id ->
      sys_step (mkSys c ids cl)
        (mkSys (reserve_locked (u_userID (user_at c l)) login source id c l).2 ({[id]} ∪ ids) cl)
  | ss_finish c ids cl l ref : retained c l -> sys_step (mkSys c ids cl) (mkSys (finish_locked ref c l).2 ids cl)
  | ss_abort c ids cl l ref : retained c l -> sys_step (mkSys c ids cl) (mkSys (abort_locked ref c l).2 ids cl)
  | ss_stop c ids cl : sys_step (mkSys c ids cl) (mkSys (StopAdmission c) ids cl)
  | ss_observers c ids cl a b d : sys_step (mkSys c ids cl) (mkSys (set_observers c a b d) ids cl)
  | ss_effects c ids cl es : sys_step (mkSys c ids cl) (mkSys (emit c es) ids cl).

Definition reachable (s : Sys) : Prop := rtc sys_step (mkSys NewConnectionCoordinator ∅ []) s.

(** ** The invariant *)

Definition record_ok (u : connectionUser) (id : ConnID) (r : connectionRecord) : Prop :=
  r_ID (cr_ref r) = id /\ r_UserID (cr_ref r) = u_userID u /\ cr_admitted r = true /\
  (cr_state r = ConnectionOpening -> cr_transport r = None) /\
  (cr_state r = ConnectionActive -> is_Some (cr_transport r)).

Definition voice_ok (u : connectionUser) (a : VoiceAuthority) : Prop :=
  u_tombstone u = None /\ va_UserID a = u_userID u /\ va_VoiceAuthorityGeneration a = u_nextVoice u /\
  exists r, u_connections u !! va_ControlConnectionID a = Some r /\ cr_state r = ConnectionActive /\
            r_Generation (cr_ref r) = va_ConnectionGeneration a.

Record user_ok (u : connectionUser) : Prop := {
  uo_rec : map_Forall (record_ok u) (u_connections u);
  uo_admitted : u_admitted u = Z.of_nat (size (u_connections u));
  uo_live : u_live u = Z.of_nat (size (u_connections u));
  uo_max : u_admitted u <= MaxControlConnectionsPerUser;
  uo_refs : 0 <= u_refs u;
  uo_voice : forall a, u_voice u = Some a -> voice_ok u a
}.

(** What a section never changes of a record. *)
Definition frame (r : connectionRecord) : ControlConnectionRef * bool * Addr :=
  (cr_ref r, cr_admitted r, cr_sourceIP r).

Record same_frame (u u' : connectionUser) : Prop := {
  sf_id : u_userID u' = u_userID u;
  sf_refs : u_refs u' = u_refs u;
  sf_adm : u_admitted u' = u_admitted u;
  sf_live : u_live u' = u_live u;
  sf_conns : frame <$> u_connections u' = frame <$> u_connections u;
  sf_closing : forall id r, u_connections u !! id = Some r -> cr_state r = ConnectionClosing ->
    exists r', u_connections u' !! id = Some r' /\ cr_state r' = ConnectionClosing
}.

Lemma same_frame_refl u : same_frame u u.
Proof. constructor; eauto. Qed.

Lemma frame_size u u' : same_frame u u' -> size (u_connections u') = size (u_connections u).
Proof. intros H. by rewrite <- (map_size_fmap frame (u_connections u')), (sf_conns _ _ H), map_size_fmap. Qed.

Lemma frame_lookup u u' id r' : same_frame u u' -> u_connections u' !! id = Some r' ->
  exists r, u_connections u !! id = Some r /\ frame r = frame r'.
Proof.
  intros H Hr. pose proof (f_equal (lookup id) (sf_conns _ _ H)) as E. rewrite !lookup_fmap, Hr in E.
  simpl in E. destruct (u_connections u !! id) as [r|]; simpl in E; [|done]. eexists. split; [done|congruence].
Qed.

Lemma fmap_frame_insert (m : gmap ConnID connectionRecord) id r r' :
  m !! id = Some r -> frame r' = frame r -> frame <$> <[id := r']> m = frame <$> m.
Proof. intros Hr Hf. rewrite fmap_insert, Hf. apply insert_id. by rewrite lookup_fmap, Hr. Qed.

(** Replacing a record in place keeps the frame unless it reopens a closing one. *)
Lemma same_frame_record u id r r' : u_connections u !! id = Some r -> frame r' = frame r ->
  (cr_state r = ConnectionClosing -> cr_state r' = ConnectionClosing) ->
  same_frame u (set_connections u (<[id := r']> (u_connections u))).
Proof.
  intros Hr Hf Hc. constructor; simpl; try done; [by eapply fmap_frame_insert|].
  intros id' q Hq Hs. destruct (decide (id = id')) as [<-|].
  - rewrite lookup_insert_eq. simplify_eq. eauto.
  - rewrite lookup_insert_ne by done. eauto.
Qed.

Lemma user_ok_record u id r r' : user_ok u -> u_connections u !! id = Some r -> frame r' = frame r ->
  record_ok u id r' ->
  (cr_state r = ConnectionActive -> cr_state r' = ConnectionActive) ->
  user_ok (set_connections u (<[id := r']> (u_connections u))).
Proof.
  intros [H1 H2 H3 H4 H5 H6] Hr Hf Hok Ha.
  assert (Hs : size (<[id := r']> (u_connections u)) = size (u_connections u)) by (apply map_size_insert_Some; eauto).
  constructor; simpl; rewrite ?Hs; try done.
  - apply map_Forall_insert_2; [done|]. eapply map_Forall_impl; [exact H1|done].
  - intros a Hv. destruct (H6 a Hv) as (? & ? & ? & q & Hq & Hqs & Hqg). split_and!; try done. simpl.
    destruct (decide (id = va_ControlConnectionID a)) as [->|].
    + exists r'. rewrite lookup_insert_eq. simplify_eq. unfold frame in Hf. simplify_eq. split_and!; auto; congruence.
    + exists q. rewrite lookup_insert_ne by done. done.
Qed.

Lemma user_ok_tombstone u t : user_ok u -> (u_voice u <> None -> t = None) -> user_ok (set_tombstone u t).
Proof.
  intros [H1 H2 H3 H4 H5 H6] Ht. constructor; simpl; try done.
  intros a Ha. destruct (H6 a Ha) as (? & ? & ? & ?). split_and!; try done. simpl. apply Ht. congruence.
Qed.

Lemma user_ok_no_voice u : user_ok u -> user_ok (set_voice u None).
Proof. intros [H1 H2 H3 H4 H5 H6]. constructor; simpl; done. Qed.

Lemma active_record_Some u ref r : active_record u ref = Some r ->
  u_connections u !! r_ID ref = Some r /\ cr_ref r = ref /\ cr_state r = ConnectionActive.
Proof. unfold active_record. intros. repeat case_match; simplify_eq. naive_solver. Qed.

Lemma record_at u id r : user_ok u -> u_connections u !! id = Some r -> record_ok u id r.
Proof. intros H. apply (uo_rec _ H). Qed.

Lemma clear_voice_ok mark u : user_ok u -> user_ok (clear_voice_locked mark u) /\ same_frame u (clear_voice_locked mark u).
Proof.
  intros Hok. unfold clear_voice_locked. destruct (u_voice u); [|by split; [|apply same_frame_refl]].
  destruct mark; (split; [|constructor; simpl; eauto]).
  - apply user_ok_tombstone; [by apply user_ok_no_voice|done].
  - by apply user_ok_no_voice.
Qed.

Lemma apply_locked_ok s w allow now env u : user_ok u ->
  user_ok (apply_locked s w allow now env u).2 /\ same_frame u (apply_locked s w allow now env u).2.
Proof.
  intros Hok. unfold apply_locked. destruct (_ || _ || _) eqn:G; [by split; [|apply same_frame_refl]|].
  apply orb_false_iff in G as [[Ga _]%orb_false_iff Gn].
  apply negb_false_iff in Ga, Gn. apply bool_decide_eq_true in Ga as [r Hr]. apply Z.eqb_eq in Gn.
  destruct (active_record_Some _ _ _ Hr) as (Hl & Href & Hst).
  destruct (apply_manager _ _ _ _ _) as [[[[sid d] cl]|e] w']; simpl; [|by split; [|apply same_frame_refl]].
  split; [|constructor; simpl; eauto]. destruct Hok as [H1 H2 H3 H4 H5 H6]. constructor; simpl; try done.
  intros a [= <-]. split_and!; simpl; try done.
  - destruct (H1 _ _ Hl) as (_ & ? & _). congruence.
  - exists r. split_and!; [done|done|congruence].
Qed.

Lemma begin_locked_ok c ref status reason u plan ok u' : user_ok u ->
  beginDisconnectLocked c ref status reason u = (plan, ok, u') ->
  user_ok u' /\ same_frame u u' /\
  (ok = true -> exists r, u_connections u !! r_ID ref = Some r /\ cr_ref r = ref /\ cr_state r <> ConnectionClosing /\
                   u_connections u' !! r_ID ref = Some (with_state r ConnectionClosing)).
Proof.
  intros Hok. unfold beginDisconnectLocked. destruct (u_connections u !! r_ID ref) as [r|] eqn:Hr;
    [|intros [= <- <- <-]; split_and!; [done|apply same_frame_refl|done]].
  case_decide as Hd; [intros [= <- <- <-]; split_and!; [done|apply same_frame_refl|done]|].
  set (u1 := set_connections u _).
  assert (Hrec : record_ok u (r_ID ref) (with_state r ConnectionClosing)).
  { pose proof (record_at _ _ _ Hok Hr) as (? & ? & ? & ? & ?). done. }
  assert (Href : cr_ref r = ref) by (apply dec_stable; tauto).
  assert (Hf1 : same_frame u u1) by (by eapply same_frame_record).
  assert (Hclaim : exists r0, Some r = Some r0 /\ cr_ref r0 = ref /\ cr_state r0 <> ConnectionClosing /\
     u_connections u1 !! r_ID ref = Some (with_state r0 ConnectionClosing)).
  { exists r. split_and!; [done|done|tauto|]. simpl. by rewrite lookup_insert_eq. }
  assert (Hnv : user_ok (set_voice u1 None)).
  { destruct Hok as [H1 H2 H3 H4 H5 H6].
    assert (Hs : size (u_connections u1) = size (u_connections u)) by (by apply frame_size).
    constructor; simpl in *; rewrite ?Hs; try done.
    apply map_Forall_insert_2; [done|]. eapply map_Forall_impl; [exact H1|done]. }
  change (u_voice u1) with (u_voice u).
  destruct (u_voice u) as [a|] eqn:Hv; [case_decide as Ho|]; intros [= <- <- <-].
  - split_and!; [|constructor; apply Hf1|done].
    destruct Hnv as [H1 H2 H3 H4 H5 H6]. constructor; simpl in *; done.
  - split_and!; [|done|done]. destruct Hnv as [H1 H2 H3 H4 H5 H6]. constructor; simpl in *; try done.
    intros b Hb. destruct (uo_voice _ Hok b Hb) as (? & ? & ? & q & Hq & ? & ?). split_and!; try done.
    exists q. simpl. rewrite lookup_insert_ne; [done|]. intros Heq. rewrite <- Heq in Hq. simplify_eq.
    apply Ho. split; [done|]. congruence.
  - split_and!; [|done|done]. destruct Hnv as [H1 H2 H3 H4 H5 H6]. constructor; simpl in *; try done. congruence.
Qed.

Lemma user_sect_ok c u u' claim : user_sect c u u' claim -> user_ok u ->
  user_ok u' /\ same_frame u u' /\
  (forall ref, claim = Some ref -> exists r r', u_connections u !! r_ID ref = Some r /\ cr_ref r = ref /\
     cr_state r <> ConnectionClosing /\ u_connections u' !! r_ID ref = Some r' /\ cr_state r' = ConnectionClosing).
Proof.
  intros Hs Hok. destruct Hs as [ref t expires|ref expires now|a|s w allow now env|e m mark now|e w now|ref status reason].
  - unfold activate_locked. destruct (u_connections u !! r_ID ref) as [r|] eqn:Hr;
      [case_decide as Hd|]; simpl; (split_and!; [|try apply same_frame_refl|done]); try done.
    + pose proof (record_at _ _ _ Hok Hr) as (? & ? & ? & ? & ?). eapply user_ok_record; eauto; try done.
    + eapply same_frame_record; [done|done|]. destruct Hd as [_ Hd]. simpl. congruence.
  - unfold renew_locked. destruct (active_record u ref) as [r|] eqn:Hr; [|by split_and!; [|apply same_frame_refl|]].
    apply active_record_Some in Hr as (Hr & ? & ?). pose proof (record_at _ _ _ Hok Hr) as (? & ? & ? & ? & ?).
    case_match; simpl; (split_and!; [|try apply same_frame_refl|done]); try done.
    + eapply user_ok_record; eauto; done.
    + eapply same_frame_record; eauto; done.
  - unfold clear_tombstone_locked. repeat case_match; simpl; (split_and!; [|constructor; simpl; eauto|done]); try done.
    by apply user_ok_tombstone.
  - destruct (apply_locked_ok s w allow now env u Hok). split_and!; done.
  - unfold voice_disconnect_locked. destruct (clear_voice_ok mark u Hok).
    repeat case_match; simpl; (split_and!; [|try apply same_frame_refl|done]); done.
  - unfold voice_revoke_locked. destruct (clear_voice_ok None u Hok).
    repeat case_match; simpl; (split_and!; [|try apply same_frame_refl|done]); done.
  - destruct (beginDisconnectLocked c ref status reason u) as [[plan ok] u'] eqn:Hb.
    destruct (begin_locked_ok _ _ _ _ _ _ _ _ Hok Hb) as (? & ? & Hcl). simpl. split_and!; [done|done|].
    intros ref' Hc. destruct ok; simplify_eq. destruct Hcl as (r & ? & ? & ? & ?); [done|].
    eexists r, _. split_and!; try done.
Qed.

(** ** The coordinator *)

Definition conn_count (u : connectionUser) : Z := Z.of_nat (size (u_connections u)).
Definition from_source (a : Addr) (r : connectionRecord) : Z := if decide (cr_sourceIP r = a) then 1 else 0.
Definition source_conns (a : Addr) (u : connectionUser) : Z := msum (from_source a) (u_connections u).

Record index_ok (c : ConnectionCoordinator) : Prop := {
  ix_users : forall userID l, co_users c !! userID = Some l ->
    exists u, co_heap c !! l = Some u /\ u_userID u = userID;
  ix_heap : forall l u, co_heap c !! l = Some u ->
    user_ok u /\ (l < co_next c)%nat /\
    (co_users c !! u_userID u = Some l \/ u_refs u = 0 /\ u_connections u = ∅)
}.

Record admission_ok (c : ConnectionCoordinator) : Prop := {
  ad_admitted : co_admitted c = msum conn_count (co_heap c);
  ad_wg : co_wg c = co_admitted c;
  ad_max : co_admitted c <= MaxActiveControlConnections;
  ad_sources : forall a, source_count (co_sources c) a = if IsValid a then msum (source_conns a) (co_heap c) else 0;
  ad_source_max : forall a, source_count (co_sources c) a <= MaxControlConnectionsPerSource;
  ad_source_zero : forall a, co_sources c !! a <> Some 0
}.

Record claims_ok (s : Sys) : Prop := {
  cl_ids : forall l u id r, co_heap (sy_co s) !! l = Some u -> u_connections u !! id = Some r ->
    id ∈ sy_issued s /\ id <> zero_id;
  cl_nodup : NoDup (sy_claims s);
  cl_closing : forall ref, ref ∈ sy_claims s -> r_ID ref ∈ sy_issued s /\
    forall l u r, co_heap (sy_co s) !! l = Some u -> u_connections u !! r_ID ref = Some r -> cr_ref r = ref ->
      cr_state r = ConnectionClosing
}.

Record inv (s : Sys) : Prop := {
  iv_index : index_ok (sy_co s);
  iv_admission : admission_ok (sy_co s);
  iv_claims : claims_ok s
}.

Lemma user_at_Some c l u : co_heap c !! l = Some u -> user_at c l = u.
Proof. intros H. unfold user_at. by rewrite H. Qed.

Lemma source_conns_nonneg a u : 0 <= source_conns a u.
Proof. apply msum_nonneg. intros r. unfold from_source. case_decide; lia. Qed.

Lemma source_conns_frame a u u' : same_frame u u' -> source_conns a u' = source_conns a u.
Proof.
  intros H. set (g := fun f : ControlConnectionRef * bool * Addr => if decide (f.2 = a) then 1 else 0).
  assert (E : forall m : gmap ConnID connectionRecord, msum (from_source a) m = msum g (frame <$> m))
    by (intros m; by rewrite msum_fmap).
  unfold source_conns. by rewrite !E, (sf_conns _ _ H).
Qed.

(** A registry is replaced in place, with the same identity, index entry and
    identifiers. *)
Lemma index_put c l u u' : index_ok c -> co_heap c !! l = Some u -> user_ok u' -> u_userID u' = u_userID u ->
  (co_users c !! u_userID u = Some l \/ u_refs u' = 0 /\ u_connections u' = ∅) -> index_ok (put c l u').
Proof.
  intros [H1 H2] Hu Hok Hid Hi. constructor; simpl.
  - intros uid l' Hl. destruct (H1 _ _ Hl) as (v & Hv & Hvid). destruct (decide (l = l')) as [<-|].
    + exists u'. rewrite lookup_insert_eq. split; [done|congruence].
    + exists v. by rewrite lookup_insert_ne.
  - intros l' v. destruct (decide (l = l')) as [<-|].
    + rewrite lookup_insert_eq. intros [= <-]. destruct (H2 _ _ Hu) as (? & ? & ?). rewrite Hid. done.
    + rewrite lookup_insert_ne by done. apply H2.
Qed.

Lemma admission_put c l u u' : admission_ok c -> co_heap c !! l = Some u -> conn_count u' = conn_count u ->
  (forall a, source_conns a u' = source_conns a u) -> admission_ok (put c l u').
Proof.
  intros [H1 H2 H3 H4 H5 H6] Hu Hn Hs. constructor; simpl; try done.
  - rewrite (msum_insert _ _ _ u) by done. lia.
  - intros a. rewrite (msum_insert _ _ _ u) by done. rewrite Hs, H4. case_match; lia.
Qed.

Lemma section_inv c ids cl l u u' claim : inv (mkSys c ids cl) -> co_heap c !! l = Some u -> 0 < u_refs u ->
  user_sect c u u' claim -> inv (mkSys (put c l u') ids (cl ++ option_list claim)).
Proof.
  intros [Hix Had Hcl] Hu Href Hs. destruct (ix_heap _ Hix _ _ Hu) as (Hok & _ & Hin).
  destruct Hin as [Hin|[? _]]; [|lia].
  destruct (user_sect_ok _ _ _ _ Hs Hok) as (Hok' & Hf & Hc). constructor; simpl.
  - eapply index_put; eauto using sf_id.
  - eapply admission_put; eauto using source_conns_frame. unfold conn_count. by rewrite (frame_size u u').
  - destruct Hcl as [C1 C2 C3]. simpl in *. constructor; simpl.
    + intros l' v id r. destruct (decide (l = l')) as [<-|].
      * rewrite lookup_insert_eq. intros [= <-] Hr. destruct (frame_lookup _ _ _ _ Hf Hr) as (r0 & Hr0 & _). eauto.
      * rewrite lookup_insert_ne by done. eauto.
    + destruct claim as [ref|]; simpl; [|by rewrite app_nil_r]. apply NoDup_app. split_and!; [done| |apply NoDup_singleton].
      intros ref' Hin' ->%list_elem_of_singleton. destruct (Hc ref eq_refl) as (r & r' & Hr & Hrr & Hst & _).
      apply Hst. by eapply (C3 ref).
    + assert (Hold : forall ref, ref ∈ cl -> r_ID ref ∈ ids /\ forall l0 v r, <[l := u']> (co_heap c) !! l0 = Some v ->
        u_connections v !! r_ID ref = Some r -> cr_ref r = ref -> cr_state r = ConnectionClosing).
      { intros ref Hin'. destruct (C3 ref Hin') as [Hid Hst]. split; [done|]. intros l0 v r.
        destruct (decide (l = l0)) as [<-|]; [|rewrite lookup_insert_ne by done; eauto].
        rewrite lookup_insert_eq. intros [= <-] Hr Hrr. destruct (frame_lookup _ _ _ _ Hf Hr) as (r0 & Hr0 & Hfr).
        unfold frame in Hfr. destruct (sf_closing _ _ Hf (r_ID ref) r0 Hr0) as (r' & ? & ?);
          [eapply Hst; eauto; congruence|congruence]. }
      intros ref [Hin'|Hin']%elem_of_app; [by apply Hold|]. destruct claim as [ref'|]; simpl in Hin'; [|by apply elem_of_nil in Hin'].
      apply list_elem_of_singleton in Hin' as ->. destruct (Hc ref' eq_refl) as (r & r' & Hr & Hrr & Hst & Hr' & Hst').
      split; [by eapply (C1 l u)|]. intros l0 v q. destruct (decide (l = l0)) as [<-|Hne].
      * rewrite lookup_insert_eq. intros [= <-] Hq _. congruence.
      * rewrite lookup_insert_ne by done. intros Hv Hq Hqr. destruct (ix_heap _ Hix _ _ Hv) as (Hokv & _ & [Hiv|[_ He]]);
          [|rewrite He in Hq; done].
        exfalso. apply Hne. pose proof (record_at _ _ _ Hokv Hq) as (_ & Huq & _). pose proof (record_at _ _ _ Hok Hr) as (_ & Hur & _).
        congruence.
Qed.

(** *** Admission and removal *)

Lemma user_ok_reserve u id r : user_ok u -> u_connections u !! id = None -> record_ok u id r ->
  u_admitted u < MaxControlConnectionsPerUser -> forall gen,
  user_ok (set_counts (set_connections u (<[id := r]> (u_connections u))) gen (u_admitted u + 1) (u_live u + 1)).
Proof.
  intros [H1 H2 H3 H4 H5 H6] Hn Hok Hm gen.
  constructor; simpl; rewrite ?map_size_insert_None by done; try done; try lia.
  - apply map_Forall_insert_2; [done|]. eapply map_Forall_impl; [exact H1|done].
  - intros a Ha. destruct (H6 a Ha) as (? & ? & ? & q & Hq & ? & ?). split_and!; try done. exists q. simpl.
    rewrite lookup_insert_ne by congruence. done.
Qed.

Lemma user_ok_remove u id r : user_ok u -> u_connections u !! id = Some r -> cr_state r <> ConnectionActive ->
  user_ok (set_counts (set_connections u (delete id (u_connections u))) (u_nextGen u) (u_admitted u - 1) (u_live u - 1)).
Proof.
  intros [H1 H2 H3 H4 H5 H6] Hr Hst.
  assert (Hs : size (u_connections u) = S (size (delete id (u_connections u)))).
  { rewrite <- (insert_id _ _ _ Hr) at 1. rewrite <- insert_delete_eq. apply map_size_insert_None, lookup_delete_eq. }
  constructor; simpl; try lia.
  - apply map_Forall_delete. eapply map_Forall_impl; [exact H1|done].
  - intros a Ha. destruct (H6 a Ha) as (? & ? & ? & q & Hq & ? & ?). split_and!; try done. exists q. simpl.
    rewrite lookup_delete_ne by congruence. done.
Qed.

Lemma removeLocked_eq c u r : cr_admitted r = true ->
  removeLocked c u r =
    (set_counts (set_connections u (delete (r_ID (cr_ref r)) (u_connections u))) (u_nextGen u) (u_admitted u - 1) (u_live u - 1),
     set_admission c (co_accepting c) (co_admitted c - 1)
       (if IsValid (cr_sourceIP r) then
          (if source_count (co_sources c) (cr_sourceIP r) - 1 =? 0 then delete (cr_sourceIP r) (co_sources c)
           else <[cr_sourceIP r := source_count (co_sources c) (cr_sourceIP r) - 1]> (co_sources c))
        else co_sources c) (co_wg c - 1)).
Proof.
  intros Ha. unfold removeLocked, releaseAdmissionLocked. rewrite Ha. simpl. f_equal.
  unfold set_counts, set_connections; simpl. by rewrite delete_insert_eq.
Qed.

(** The counters after one record was added ([d = 1]) or removed ([d = -1]). *)
Lemma admission_shift c l u u' d n sources wg src : admission_ok c -> co_heap c !! l = Some u ->
  conn_count u' = conn_count u + d ->
  (forall a, source_conns a u' = source_conns a u + if decide (src = a) then d else 0) ->
  n = co_admitted c + d -> n <= MaxActiveControlConnections -> wg = co_wg c + d ->
  (forall a, source_count sources a = source_count (co_sources c) a + if decide (IsValid a = true /\ src = a) then d else 0) ->
  (forall a, source_count sources a <= MaxControlConnectionsPerSource) -> (forall a, sources !! a <> Some 0) ->
  admission_ok (put (set_admission c (co_accepting c) n sources wg) l u').
Proof.
  intros [H1 H2 H3 H4 H5 H6] Hu Hn Hs -> Hm -> Hc Hmax Hz. constructor; simpl; try done.
  - rewrite (msum_insert _ _ _ u) by done. lia.
  - lia.
  - intros a. rewrite Hc, (msum_insert _ _ _ u) by done. rewrite Hs, H4. destruct (IsValid a).
    + repeat case_decide; try tauto; lia.
    + rewrite decide_False by (intros [? ?]; done). lia.
Qed.

Lemma source_count_insert m a n b : source_count (<[a := n]> m) b = if decide (a = b) then n else source_count m b.
Proof. unfold source_count. case_decide; subst; [by rewrite lookup_insert_eq|by rewrite lookup_insert_ne]. Qed.
Lemma source_count_delete m a b : source_count (delete a m) b = if decide (a = b) then 0 else source_count m b.
Proof. unfold source_count. case_decide; subst; [by rewrite lookup_delete_eq|by rewrite lookup_delete_ne]. Qed.

Lemma claims_shrink c ids cl c' ids' : claims_ok (mkSys c ids cl) -> ids ⊆ ids' ->
  (forall l u' id r, co_heap c' !! l = Some u' -> u_connections u' !! id = Some r ->
     (exists l0 u, co_heap c !! l0 = Some u /\ u_connections u !! id = Some r) \/ id ∉ ids /\ id ∈ ids' /\ id <> zero_id) ->
  claims_ok (mkSys c' ids' cl).
Proof.
  intros [C1 C2 C3] Hids Hh. simpl in *. constructor; simpl; [|done|].
  - intros l u' id r Hl Hr. destruct (Hh _ _ _ _ Hl Hr) as [(l0 & u & Hl0 & Hu)|(? & ? & ?)]; [|done].
    destruct (C1 _ _ _ _ Hl0 Hu). split; [by apply Hids|done].
  - intros ref Hin. destruct (C3 _ Hin) as [Hid Hst]. split; [by apply Hids|]. intros l u' r Hl Hr Hrr.
    destruct (Hh _ _ _ _ Hl Hr) as [(l0 & u & Hl0 & Hu)|(? & ? & ?)]; [|done]. by eapply Hst.
Qed.

Lemma index_set_admission c a n ss wg : index_ok c -> index_ok (set_admission c a n ss wg).
Proof. intros [H1 H2]. by constructor. Qed.

Lemma remove_inv c ids cl l u id r : inv (mkSys c ids cl) -> co_heap c !! l = Some u -> 0 < u_refs u ->
  u_connections u !! id = Some r -> cr_state r <> ConnectionActive ->
  inv (mkSys (put (removeLocked c u r).2 l (removeLocked c u r).1) ids cl).
Proof.
  intros [Hix Had Hcl] Hu Href Hr Hst. simpl in *. destruct (ix_heap _ Hix _ _ Hu) as (Hok & _ & [Hin|[? _]]); [|lia].
  pose proof (record_at _ _ _ Hok Hr) as (Hid & _ & Ha & _). rewrite removeLocked_eq by done. rewrite Hid. simpl.
  set (u' := set_counts _ _ _ _). assert (Hok' : user_ok u') by (by eapply user_ok_remove).
  assert (Hsrc : forall a, source_conns a u' = source_conns a u + if decide (cr_sourceIP r = a) then -1 else 0).
  { intros a. unfold source_conns, u'. simpl. rewrite (msum_delete _ _ _ r) by done. unfold from_source. case_decide; lia. }
  assert (Hpos : source_count (co_sources c) (cr_sourceIP r) = 0 -> IsValid (cr_sourceIP r) = true -> False).
  { intros Hz Hv. rewrite (ad_sources _ Had), Hv in Hz.
    pose proof (msum_ge (source_conns (cr_sourceIP r)) (co_heap c) l u (source_conns_nonneg _) Hu) as Hge.
    assert (Hge' : 1 <= source_conns (cr_sourceIP r) u); [|lia].
    replace 1 with (from_source (cr_sourceIP r) r) by (unfold from_source; by rewrite decide_True).
    apply (msum_ge _ _ id); [|done]. intros q. unfold from_source. case_decide; lia. }
  constructor; simpl.
  - eapply (index_put _ _ u); [by apply index_set_admission|done|done|done|by left].
  - assert (Hcnt : conn_count u' = conn_count u + -1).
    { unfold conn_count. pose proof (uo_admitted _ Hok). pose proof (uo_admitted _ Hok'). simpl in *. lia. }
    pose proof (ad_max _ Had). pose proof (ad_source_max _ Had) as Hsm. pose proof (ad_source_zero _ Had) as Hsz.
    apply (admission_shift c l u u' (-1) _ _ _ (cr_sourceIP r)); try done; try lia; simpl; intros a.
    + destruct (IsValid (cr_sourceIP r)) eqn:Hv; [|rewrite decide_False by (intros [? ?]; congruence); lia].
      case_match; rewrite ?source_count_insert, ?source_count_delete; repeat case_decide; subst; try lia; try tauto.
    + pose proof (Hsm a). pose proof (Hsm (cr_sourceIP r)). destruct (IsValid (cr_sourceIP r)) eqn:Hv; [|done].
      unfold MaxControlConnectionsPerSource in *.
      case_match; rewrite ?source_count_insert, ?source_count_delete; case_decide; lia.
    + destruct (IsValid (cr_sourceIP r)) eqn:Hv; [|done]. case_match eqn:Hz.
      * rewrite lookup_delete_Some. intros [_ ?]. by eapply Hsz.
      * rewrite lookup_insert_Some. apply Z.eqb_neq in Hz. intros [[_ ?]|[_ ?]]; [done|by eapply Hsz].
  - eapply claims_shrink; [done|done|]. simpl. intros l0 v id' r'. destruct (decide (l = l0)) as [<-|].
    + rewrite lookup_insert_eq. intros [= <-]. simpl. rewrite lookup_delete_Some. intros [_ ?]. eauto.
    + rewrite lookup_insert_ne by done. eauto.
Qed.

Lemma reserveAdmission_cases c src : 
  (exists e, reserveAdmission c src = (Some e, c)) \/
  co_accepting c = true /\ co_admitted c < MaxActiveControlConnections /\
  (IsValid src = true -> source_count (co_sources c) src < MaxControlConnectionsPerSource) /\
  reserveAdmission c src = (None, set_admission c (co_accepting c) (co_admitted c + 1)
    (if IsValid src then <[src := source_count (co_sources c) src + 1]> (co_sources c) else co_sources c) (co_wg c + 1)).
Proof.
  unfold reserveAdmission. destruct (co_accepting c); simpl; [|eauto].
  destruct (Z.leb_spec MaxActiveControlConnections (co_admitted c)); [eauto|].
  destruct (IsValid src); simpl; [|right; split_and!; done].
  destruct (Z.leb_spec MaxControlConnectionsPerSource (source_count (co_sources c) src)); [eauto|].
  right. split_and!; done.
Qed.

Lemma reserve_inv c ids cl l u login src id : inv (mkSys c ids cl) -> co_heap c !! l = Some u -> 0 < u_refs u ->
  id ∉ ids -> id <> zero_id ->
  inv (mkSys (reserve_locked (u_userID u) login src id c l).2 ({[id]} ∪ ids) cl).
Proof.
  intros [Hix Had Hcl] Hu Href Hid Hz. simpl in *. destruct (ix_heap _ Hix _ _ Hu) as (Hok & _ & [Hin|[? _]]); [|lia].
  assert (Hsame : inv (mkSys c ({[id]} ∪ ids) cl)).
  { constructor; [done|done|]. eapply claims_shrink; [done|set_solver|]. simpl. eauto. }
  unfold reserve_locked. rewrite (user_at_Some _ _ _ Hu).
  destruct (Z.leb_spec MaxControlConnectionsPerUser (u_admitted u)); [done|].
  destruct (reserveAdmission_cases c src) as [[e ->]|(Hacc & Hmax & Hsrc & ->)]; [done|]. simpl.
  set (r := mkRecord _ _ _ _ _ _). set (u' := set_counts _ _ _ _).
  assert (Hnone : u_connections u !! id = None).
  { destruct (u_connections u !! id) eqn:He; [|done]. destruct (cl_ids _ Hcl _ _ _ _ Hu He). done. }
  assert (Hok' : user_ok u') by (by apply user_ok_reserve).
  constructor; simpl.
  - eapply (index_put _ _ u); [by apply index_set_admission|done|done|done|by left].
  - pose proof (ad_source_max _ Had) as Hsm. pose proof (ad_source_zero _ Had) as Hsz.
    apply (admission_shift c l u u' 1 _ _ _ src); try done; try lia; simpl.
    + unfold conn_count, u'. simpl. rewrite map_size_insert_None by done. lia.
    + intros a. unfold source_conns, u'. simpl. rewrite msum_insert_new by done. unfold from_source. simpl. case_decide; lia.
    + intros a. destruct (IsValid src) eqn:Hv; [|rewrite decide_False by (intros [? ?]; congruence); lia].
      rewrite source_count_insert. repeat case_decide; subst; try tauto; lia.
    + intros a. destruct (IsValid src) eqn:Hv; [|done]. rewrite source_count_insert. case_decide; [|done].
      specialize (Hsrc eq_refl). lia.
    + intros a. destruct (IsValid src) eqn:Hv; [|done]. rewrite lookup_insert_Some. intros [[_ E]|[_ E]]; [|by eapply Hsz].
      rewrite (ad_sources _ Had), Hv in E. pose proof (msum_nonneg (source_conns src) (co_heap c) (source_conns_nonneg _)). lia.
  - eapply claims_shrink; [done|set_solver|]. simpl. intros l0 v id' r'. destruct (decide (l = l0)) as [<-|].
    + rewrite lookup_insert_eq. intros [= <-]. simpl. destruct (decide (id = id')) as [<-|].
      * intros _. right. set_solver.
      * rewrite lookup_insert_ne by done. eauto.
    + rewrite lookup_insert_ne by done. eauto.
Qed.

(** *** The registry index *)

Lemma user_ok_refs u n : user_ok u -> 0 <= n -> user_ok (set_refs u n).
Proof. intros [H1 H2 H3 H4 H5 H6] Hn. by constructor. Qed.

Lemma claims_refs c ids cl l u n : claims_ok (mkSys c ids cl) -> co_heap c !! l = Some u ->
  claims_ok (mkSys (put c l (set_refs u n)) ids cl).
Proof.
  intros Hcl Hu. eapply claims_shrink; [done|done|]. simpl. intros l0 v id r. destruct (decide (l = l0)) as [<-|].
  - rewrite lookup_insert_eq. intros [= <-]. simpl. eauto.
  - rewrite lookup_insert_ne by done. eauto.
Qed.

Lemma next_fresh c : index_ok c -> co_heap c !! co_next c = None.
Proof. intros Hix. destruct (co_heap c !! co_next c) eqn:He; [|done]. destruct (ix_heap _ Hix _ _ He) as (_ & ? & _). lia. Qed.

Lemma acquire_index c userID : index_ok c -> index_ok (acquireUser c userID).2.
Proof.
  intros Hix. unfold acquireUser. destruct (co_users c !! userID) as [l|] eqn:Hl; simpl.
  - destruct (ix_users _ Hix _ _ Hl) as (u & Hu & Huid). rewrite (user_at_Some _ _ _ Hu).
    destruct (ix_heap _ Hix _ _ Hu) as (Hok & _ & Hin). pose proof (uo_refs _ Hok).
    eapply (index_put _ _ u); [done|done|apply user_ok_refs; [done|lia]|done|left; congruence].
  - pose proof (next_fresh _ Hix). constructor; simpl.
    + intros uid l'. rewrite lookup_insert_Some. intros [[<- <-]|[Hne Hl']].
      * rewrite lookup_insert_eq. eauto.
      * destruct (ix_users _ Hix _ _ Hl') as (u & Hu & ?). exists u. rewrite lookup_insert_ne by congruence. done.
    + intros l u. rewrite lookup_insert_Some. intros [[<- <-]|[Hne Hu]].
      * split_and!; [|lia|left; simpl; by rewrite lookup_insert_eq]. by constructor; simpl.
      * destruct (ix_heap _ Hix _ _ Hu) as (? & ? & [Hin|?]); split_and!; [done|lia| |done|lia|by right].
        left. rewrite lookup_insert_ne by congruence. done.
Qed.

Lemma acquire_inv c ids cl userID : inv (mkSys c ids cl) -> inv (mkSys (acquireUser c userID).2 ids cl).
Proof.
  intros [Hix Had Hcl]. simpl in *. pose proof (acquire_index c userID Hix) as Hix'. constructor; simpl; [done| |].
  all: clear Hix'; unfold acquireUser; destruct (co_users c !! userID) as [l|] eqn:Hl; simpl.
  - destruct (ix_users _ Hix _ _ Hl) as (u & Hu & Huid). rewrite (user_at_Some _ _ _ Hu). eapply (admission_put _ _ u); done.
  - pose proof (next_fresh _ Hix). destruct Had as [H1 H2 H3 H4 H5 H6]. constructor; simpl; try done.
    + rewrite msum_insert_new by done. unfold conn_count at 1. simpl. rewrite map_size_empty. lia.
    + intros a. rewrite msum_insert_new by done. rewrite H4. case_match; [|done]. unfold source_conns at 2. simpl.
      by rewrite msum_empty.
  - destruct (ix_users _ Hix _ _ Hl) as (u & Hu & Huid). rewrite (user_at_Some _ _ _ Hu). by apply claims_refs.
  - eapply claims_shrink; [done|done|]. simpl. intros l u id r. rewrite lookup_insert_Some. intros [[_ <-]|[_ Hu]] Hr; [done|eauto].
Qed.

Lemma release_inv c ids cl l u : inv (mkSys c ids cl) -> co_heap c !! l = Some u -> 0 < u_refs u ->
  inv (mkSys (releaseUser c (u_userID u) l) ids cl).
Proof.
  intros [Hix Had Hcl] Hu Href. simpl in *. unfold releaseUser. rewrite (user_at_Some _ _ _ Hu).
  set (u' := set_refs u _). destruct (ix_heap _ Hix _ _ Hu) as (Hok & _ & [Hin|[? _]]); [|lia].
  assert (Hok' : user_ok u') by (apply user_ok_refs; [done|lia]).
  assert (Hinv : inv (mkSys (put c l u') ids cl)).
  { constructor; simpl; [eapply (index_put _ _ u); eauto|eapply (admission_put _ _ u); done|by apply claims_refs]. }
  case_match eqn:G; [|done]. apply andb_true_iff in G as [[G1 G2]%andb_true_iff G3]. apply Z.eqb_eq in G1, G2.
  destruct Hinv as [Hix' Had' Hcl']. simpl in *. constructor; [|by destruct Had'; constructor|by destruct Hcl'; constructor].
  assert (He : u_connections u = ∅). { pose proof (uo_live _ Hok') as Hl. simpl in Hl, G2. apply map_size_empty_inv. lia. }
  destruct Hix' as [I1 I2]. constructor; simpl in *.
  - intros uid l'. rewrite lookup_delete_Some. intros [_ ?]. eauto.
  - intros l' v Hv. destruct (I2 _ _ Hv) as (? & ? & [Hi|?]); split_and!; try done; [|by right].
    destruct (decide (u_userID u = u_userID v)) as [E|]; [|left; by rewrite lookup_delete_ne].
    rewrite <- E, Hin in Hi. simplify_eq. rewrite lookup_insert_eq in Hv. simplify_eq. right. done.
Qed.

Lemma retained_user c l : retained c l -> co_heap c !! l = Some (user_at c l) /\ 0 < u_refs (user_at c l).
Proof. intros (u & Hu & Hr). by rewrite (user_at_Some _ _ _ Hu). Qed.

Lemma step_inv s s' : sys_step s s' -> inv s -> inv s'.
Proof.
  intros Hs Hi. destruct Hs as [c ids cl uid|c ids cl l Hr|c ids cl l u' claim Hr Hsec|c ids cl l login src id Hr Hf Hz
    |c ids cl l ref Hr|c ids cl l ref Hr|c ids cl|c ids cl a b d|c ids cl es];
    try (apply retained_user in Hr as [Hu Href]).
  - by apply acquire_inv.
  - by apply release_inv.
  - by eapply section_inv.
  - by apply reserve_inv.
  - unfold finish_locked. destruct (u_connections _ !! _) as [r|] eqn:Hc; [case_decide as Hd|]; simpl; try done.
    destruct (removeLocked _ _ _) as [u1 c1] eqn:E. simpl.
    pose proof (remove_inv _ _ _ _ _ _ _ Hi Hu Href Hc) as Hrm. rewrite E in Hrm. apply Hrm. destruct Hd. congruence.
  - unfold abort_locked. destruct (u_connections _ !! _) as [r|] eqn:Hc; [case_decide as Hd|]; simpl; try done.
    destruct (removeLocked _ _ _) as [u1 c1] eqn:E. simpl.
    pose proof (remove_inv _ _ _ _ _ _ _ Hi Hu Href Hc) as Hrm. rewrite E in Hrm. apply Hrm. intros Hact.
    destruct (ix_heap _ (iv_index _ Hi) _ _ Hu) as (Hok & _). pose proof (record_at _ _ _ Hok Hc) as (_ & _ & _ & _ & Ht).
    destruct (Ht Hact). destruct Hd. congruence.
  - destruct Hi as [[] [] []]. by constructor; constructor.
  - destruct Hi as [[] [] []]. by constructor; constructor.
  - destruct Hi as [[] [] []]. by constructor; constructor.
Qed.

Lemma initial_inv : inv (mkSys NewConnectionCoordinator ∅ []).
Proof.
  constructor; constructor; simpl; try done; try set_solver.
  - intros a. rewrite msum_empty. unfold source_count. rewrite lookup_empty. by case_match.
  - apply NoDup_nil_2.
Qed.

Lemma reachable_inv s : reachable s -> inv s.
Proof.
  intros Hr. unfold reachable in Hr. remember (mkSys NewConnectionCoordinator ∅ []) as s0.
  assert (Hi : inv s0) by (subst; apply initial_inv). clear Heqs0. induction Hr; eauto using step_inv.
Qed.

(** ** What a caller observes *)

(** A user's connections and authority, whether or not a registry exists. *)
Definition view (c : ConnectionCoordinator) (userID : Z) : connectionUser :=
  match co_users c !! userID with Some l => user_at c l | None => newUser userID end.
Definition conns_of (c : ConnectionCoordinator) (userID : Z) : gmap ConnID connectionRecord := u_connections (view c userID).
Definition voice_of (c : ConnectionCoordinator) (userID : Z) : option VoiceAuthority := u_voice (view c userID).

Lemma view_ok c userID : index_ok c -> user_ok (view c userID) /\ u_userID (view c userID) = userID.
Proof.
  intros Hix. unfold view. destruct (co_users c !! userID) as [l|] eqn:Hl.
  - destruct (ix_users _ Hix _ _ Hl) as (u & Hu & Hid). rewrite (user_at_Some _ _ _ Hu).
    destruct (ix_heap _ Hix _ _ Hu). done.
  - split; [|done]. by constructor.
Qed.

Lemma acquire_spec c userID l c1 : index_ok c -> acquireUser c userID = (l, c1) ->
  co_heap c1 !! l = Some (set_refs (view c userID) (u_refs (view c userID) + 1)) /\ co_users c1 !! userID = Some l /\
  0 < u_refs (view c userID) + 1.
Proof.
  intros Hix. destruct (view_ok c userID Hix) as [Hok _]. pose proof (uo_refs _ Hok). revert Hok H.
  unfold acquireUser, view. destruct (co_users c !! userID) as [l'|] eqn:Hl; intros Hok H [= <- <-]; simpl.
  - rewrite lookup_insert_eq. split_and!; [done|done|lia].
  - rewrite !lookup_insert_eq. split_and!; [done|done|lia].
Qed.

Lemma release_spec c userID l u : index_ok c -> co_heap c !! l = Some u -> co_users c !! userID = Some l ->
  u_connections (view (releaseUser c userID l) userID) = u_connections u /\
  u_voice (view (releaseUser c userID l) userID) = u_voice u.
Proof.
  intros Hix Hu Hl. destruct (ix_heap _ Hix _ _ Hu) as (Hok & _). unfold releaseUser. rewrite (user_at_Some _ _ _ Hu).
  case_match eqn:G; unfold view; simpl.
  - rewrite lookup_delete_eq. simpl. apply andb_true_iff in G as [[_ G]%andb_true_iff _]. apply Z.eqb_eq in G. simpl in G.
    assert (He : u_connections u = ∅). { pose proof (uo_live _ Hok). apply map_size_empty_inv. lia. }
    rewrite He. split; [done|]. destruct (u_voice u) as [a|] eqn:Ha; [|done].
    destruct (uo_voice _ Hok a Ha) as (_ & _ & _ & r & Hr & _). by rewrite He in Hr.
  - rewrite Hl. unfold user_at. simpl. by rewrite lookup_insert_eq.
Qed.

Lemma same_index_release c uid l uid' : uid' <> uid -> index_ok c -> co_users c !! uid = Some l ->
  view (releaseUser c uid l) uid' = view c uid'.
Proof.
  intros Hne Hix Hl. unfold releaseUser. assert (Hput : forall u, view (put c l u) uid' = view c uid').
  { intros u. unfold view. simpl. destruct (co_users c !! uid') as [l'|] eqn:Hl'; [|done].
    unfold user_at. simpl. rewrite lookup_insert_ne; [done|]. intros <-.
    destruct (ix_users _ Hix _ _ Hl) as (v & Hv & <-). destruct (ix_users _ Hix _ _ Hl') as (v' & Hv' & <-). congruence. }
  case_match; [|apply Hput]. rewrite <- (Hput (set_refs (user_at c l) (u_refs (user_at c l) - 1))).
  unfold view. simpl. by rewrite lookup_delete_ne by done.
Qed.

(** A whole operation retains the registry it finds, runs its section on it and
    releases it. *)
Lemma with_user_spec {A} c userID (f : ConnectionCoordinator -> loc -> A * ConnectionCoordinator) :
  index_ok c -> exists c1 l u,
    u = set_refs (view c userID) (u_refs (view c userID) + 1) /\ (l, c1) = acquireUser c userID /\
    co_heap c1 !! l = Some u /\ user_at c1 l = u /\ user_ok u /\ u_userID u = userID /\ 0 < u_refs u /\
    co_users c1 !! userID = Some l /\ index_ok c1 /\ co_log c1 = co_log c /\
    with_user c userID f = ((f c1 l).1, releaseUser (f c1 l).2 userID l).
Proof.
  intros Hix. unfold with_user. destruct (acquireUser c userID) as [l c1] eqn:Hacq.
  destruct (acquire_spec _ _ _ _ Hix Hacq) as (Hu & Hl & Hpos). destruct (view_ok c userID Hix) as [Hok Hid].
  eexists c1, l, _. split_and!; try done.
  - by apply user_at_Some.
  - apply user_ok_refs; [done|lia].
  - pose proof (acquire_index c userID Hix) as H. by rewrite Hacq in H.
  - unfold acquireUser in Hacq. case_match; by simplify_eq/=.
  - by destruct (f c1 l).
Qed.

(** The outcome of a section that replaces the registry and emits effects. *)
Lemma release_section c c' l u u' es userID : index_ok c -> co_heap c !! l = Some u -> co_users c !! userID = Some l ->
  user_ok u' -> u_userID u' = u_userID u -> c' = emit (put c l u') es ->
  conns_of (releaseUser c' userID l) userID = u_connections u' /\
  voice_of (releaseUser c' userID l) userID = u_voice u' /\
  co_log (releaseUser c' userID l) = co_log c ++ es.
Proof.
  intros Hix Hu Hl Hok Hid ->. destruct (ix_users _ Hix _ _ Hl) as (v & Hv & Hvid). simplify_eq.
  assert (Hix' : index_ok (emit (put c l u') es)).
  { pose proof (index_put c l u u' Hix Hu Hok Hid (or_introl Hl)) as []. by constructor. }
  destruct (release_spec _ (u_userID u) l u' Hix') as [E1 E2]; [simpl; apply lookup_insert_eq|done|].
  split_and!; [done|done|]. unfold releaseUser. by case_match.
Qed.

(** ** Theorems *)

(** C15: at every moment the admission counters are exact and within their
    caps: the global count and the shutdown wait group are the number of
    connections that exist, a source's count the number of its connections, and
    no more than 4096 exist, 8 for one user and 64 for one source, whatever
    reservations, closes and removals interleave. *)
Theorem admission_exact s : reachable s ->
  ActiveCount (sy_co s) = msum conn_count (co_heap (sy_co s)) /\ co_wg (sy_co s) = ActiveCount (sy_co s) /\
  ActiveCount (sy_co s) <= 4096 /\
  (forall a, IsValid (Unmap a) = true -> 
     SourceCount (sy_co s) a = msum (source_conns (Unmap a)) (co_heap (sy_co s)) /\ SourceCount (sy_co s) a <= 64) /\
  (forall l u, co_heap (sy_co s) !! l = Some u -> conn_count u <= 8).
Proof.
  intros [Hix Had _]%reachable_inv. unfold ActiveCount. split_and!; [apply Had|apply Had|apply (ad_max _ Had)| |].
  - intros a Ha. assert (Hv : IsValid a = true) by (destruct a; done). unfold SourceCount. rewrite Hv.
    pose proof (ad_sources _ Had (Unmap a)) as E. rewrite Ha in E. split; [done|apply (ad_source_max _ Had)].
  - intros l u Hu. destruct (ix_heap _ Hix _ _ Hu) as (Hok & _). pose proof (uo_max _ Hok).
    rewrite (uo_admitted _ Hok) in *. done.
Qed.

(** C14: a voice authority is always owned: its registry is the user's current
    one, the connection it names is active with the generation it records, it
    is the last authority issued, no teardown of it is pending, and no other
    registry holds an authority of the same user. *)
Theorem voice_authority_owned s l u a : reachable s -> co_heap (sy_co s) !! l = Some u -> u_voice u = Some a ->
  va_UserID a = u_userID u /\ co_users (sy_co s) !! u_userID u = Some l /\ u_tombstone u = None /\
  va_VoiceAuthorityGeneration a = u_nextVoice u /\
  (exists r, u_connections u !! va_ControlConnectionID a = Some r /\ cr_state r = ConnectionActive /\
     r_UserID (cr_ref r) = va_UserID a /\ r_ID (cr_ref r) = va_ControlConnectionID a /\
     r_Generation (cr_ref r) = va_ConnectionGeneration a) /\
  (forall l' u' a', co_heap (sy_co s) !! l' = Some u' -> u_voice u' = Some a' -> va_UserID a' = va_UserID a -> l' = l).
Proof.
  intros [Hix _ _]%reachable_inv Hu Ha.
  assert (Hone : forall l u a, co_heap (sy_co s) !! l = Some u -> u_voice u = Some a -> 
    va_UserID a = u_userID u /\ co_users (sy_co s) !! u_userID u = Some l).
  { intros l0 u0 a0 Hu0 Ha0. destruct (ix_heap _ Hix _ _ Hu0) as (Hok & _ & Hin).
    destruct (uo_voice _ Hok _ Ha0) as (_ & ? & _ & r & Hr & _). split; [done|].
    destruct Hin as [?|[_ He]]; [done|]. by rewrite He in Hr. }
  destruct (ix_heap _ Hix _ _ Hu) as (Hok & _ & _). destruct (uo_voice _ Hok _ Ha) as (? & Huid & ? & r & Hr & ? & ?).
  pose proof (record_at _ _ _ Hok Hr) as (? & ? & _). destruct (Hone _ _ _ Hu Ha).
  split_and!; try done.
  - exists r. split_and!; try done. congruence.
  - intros l' u' a' Hu' Ha' E. destruct (Hone _ _ _ Hu' Ha'). congruence.
Qed.

Lemma begin_claimed c ref status reason u : 
  (forall r, u_connections u !! r_ID ref = Some r -> cr_ref r = ref -> cr_state r = ConnectionClosing) ->
  beginDisconnectLocked c ref status reason u = (zero_plan, false, u).
Proof.
  intros Hc. unfold beginDisconnectLocked. destruct (u_connections u !! r_ID ref) as [r|] eqn:Hr; [|done].
  rewrite decide_True; [done|]. destruct (decide (cr_ref r = ref)) as [E|]; [right|by left]. by apply Hc.
Qed.

(** closing is once-only.  Over any interleaving a connection's teardown is
    claimed at most once; once claimed, every later [BeginDisconnect] of it
    returns false and changes no connection or authority of the user. *)
Theorem teardown_claimed_once s ref status reason : reachable s ->
  NoDup (sy_claims s) /\
  (ref ∈ sy_claims s ->
   (BeginDisconnect (sy_co s) ref status reason).1 = false /\
   conns_of (BeginDisconnect (sy_co s) ref status reason).2 (r_UserID ref) = conns_of (sy_co s) (r_UserID ref) /\
   voice_of (BeginDisconnect (sy_co s) ref status reason).2 (r_UserID ref) = voice_of (sy_co s) (r_UserID ref) /\
   co_log (BeginDisconnect (sy_co s) ref status reason).2 = co_log (sy_co s)).
Proof.
  intros Hi%reachable_inv. split; [apply Hi|]. intros Hin. unfold BeginDisconnect. destruct (negb _); [done|].
  destruct (with_user_spec (sy_co s) (r_UserID ref) (begin_disconnect ref status reason) (iv_index _ Hi))
    as (c1 & l & u & Eu & Hacq & Hu & Hat & Hok & Hid & Hpos & Hl & Hix & Hlog & ->). simpl.
  assert (Hbegin : begin_disconnect ref status reason c1 l = (false, emit (put c1 l u) [])).
  { unfold begin_disconnect. rewrite Hat, begin_claimed.
    - unfold runClosePlan, runClosePlanWithGate, emit, put. simpl. by rewrite app_nil_r.
    - intros r Hr Hrr. destruct s as [c ids cl]. simpl in *.
      assert (Hi1 : inv (mkSys c1 ids cl)) by (pose proof (acquire_inv _ _ _ (r_UserID ref) Hi) as H; by rewrite <- Hacq in H).
      destruct (cl_closing _ (iv_claims _ Hi1) _ Hin) as [_ Hst]. by eapply Hst. }
  rewrite Hbegin. simpl.
  destruct (release_section c1 _ l u u [] (r_UserID ref) Hix Hu Hl Hok eq_refl eq_refl) as (E1 & E2 & E3).
  rewrite E1, E2, E3, app_nil_r, Eu. done.
Qed.

(** *** Shutdown *)

(** [s'] holds no connection that [s] does not. *)
Definition shrinks (s s' : Sys) : Prop :=
  co_accepting (sy_co s') = false /\ co_wg (sy_co s') <= co_wg (sy_co s) /\
  forall l u' id r', co_heap (sy_co s') !! l = Some u' -> u_connections u' !! id = Some r' ->
    exists u r, co_heap (sy_co s) !! l = Some u /\ u_connections u !! id = Some r /\ cr_ref r' = cr_ref r.

Lemma shrinks_put c ids cl c' ids' cl' l u' : co_accepting c' = false -> co_wg c' <= co_wg c ->
  co_heap c' = <[l := u']> (co_heap c) ->
  (forall id r', u_connections u' !! id = Some r' ->
     exists u r, co_heap c !! l = Some u /\ u_connections u !! id = Some r /\ cr_ref r' = cr_ref r) ->
  shrinks (mkSys c ids cl) (mkSys c' ids' cl').
Proof.
  intros Ha Hw Hh Hl. split_and!; [done|done|]. simpl. rewrite Hh. intros l0 v id r'.
  destruct (decide (l = l0)) as [<-|Hne]; [rewrite lookup_insert_eq|rewrite lookup_insert_ne by done; eauto].
  intros [= <-]. eauto.
Qed.

Lemma remove_heap c u r : cr_admitted r = true -> co_heap (removeLocked c u r).2 = co_heap c /\
  co_accepting (removeLocked c u r).2 = co_accepting c /\ co_wg (removeLocked c u r).2 = co_wg c - 1 /\
  u_connections (removeLocked c u r).1 = delete (r_ID (cr_ref r)) (u_connections u).
Proof. intros Ha. rewrite removeLocked_eq by done. done. Qed.

Lemma remove_shrinks c ids cl l u id r : user_ok u -> co_heap c !! l = Some u -> u_connections u !! id = Some r ->
  co_accepting c = false -> shrinks (mkSys c ids cl) (mkSys (put (removeLocked c u r).2 l (removeLocked c u r).1) ids cl).
Proof.
  intros Hok Hu Hr Ha. pose proof (record_at _ _ _ Hok Hr) as (_ & _ & Hadm & _).
  destruct (remove_heap c u r Hadm) as (H1 & H2 & H3 & H4).
  eapply shrinks_put; [simpl; congruence|simpl; lia|simpl; by rewrite H1|].
  intros id' r'. rewrite H4, lookup_delete_Some. intros [_ ?]. eauto.
Qed.

Lemma step_shrinks s s' : inv s -> co_accepting (sy_co s) = false -> sys_step s s' -> shrinks s s'.
Proof.
  intros Hi Ha Hs. destruct Hs as [c ids cl uid|c ids cl l Hr|c ids cl l u' claim Hr Hsec|c ids cl l login src id Hr Hf Hz
    |c ids cl l ref Hr|c ids cl l ref Hr|c ids cl|c ids cl a b d|c ids cl es]; simpl in Ha;
    pose proof (iv_index _ Hi) as Hix; simpl in Hix;
    try (apply retained_user in Hr as [Hu Href]; set (u := user_at c l) in * );
    try (pose proof (ix_heap _ Hix _ _ Hu) as (Hok & _));
    try (by split_and!; [done|done|simpl; eauto]).
  - unfold acquireUser. destruct (co_users c !! uid) as [l|] eqn:Hl; (eapply shrinks_put; [done|done|done|]); simpl; [|done].
    destruct (ix_users _ Hix _ _ Hl) as (u & Hu & _). rewrite (user_at_Some _ _ _ Hu). eauto.
  - eapply (shrinks_put _ _ _ _ _ _ l (set_refs u (u_refs u - 1))); [unfold releaseUser; fold u; by case_match..|eauto].
  - destruct (user_sect_ok _ _ _ _ Hsec Hok) as (_ & Hfr & _). eapply shrinks_put; [done|done|done|].
    intros id r' Hr. destruct (frame_lookup _ _ _ _ Hfr Hr) as (r & ? & E). unfold frame in E. simplify_eq. eauto.
  - assert (E : (reserve_locked (u_userID u) login src id c l).2 = c).
    { unfold reserve_locked. case_match; [done|]. destruct (reserveAdmission_cases c src) as [[e ->]|(? & _)]; [done|congruence]. }
    rewrite E. split_and!; [done|done|]. simpl. eauto.
  - unfold finish_locked. fold u. destruct (u_connections u !! r_ID ref) as [r|] eqn:Hc; [case_decide|]; simpl;
      [|split_and!; [done|done|simpl; eauto]..].
    pose proof (remove_shrinks c ids cl l u _ r Hok Hu Hc Ha). by destruct (removeLocked c u r).
  - unfold abort_locked. fold u. destruct (u_connections u !! r_ID ref) as [r|] eqn:Hc; [case_decide|]; simpl;
      [|split_and!; [done|done|simpl; eauto]..].
    pose proof (remove_shrinks c ids cl l u _ r Hok Hu Hc Ha). by destruct (removeLocked c u r).
Qed.

(** [StopAdmission] is final.  Once admission is closed, no interleaving of
    later operations opens it again, adds a connection or raises the wait group:
    every connection that exists later existed before, so shutdown waits only
    for what was admitted. *)
Theorem no_admission_after_stop s s' : reachable s -> co_accepting (sy_co s) = false -> rtc sys_step s s' ->
  AdmissionOpen (sy_co s') = false /\ co_wg (sy_co s') <= co_wg (sy_co s) /\
  forall l u' id r', co_heap (sy_co s') !! l = Some u' -> u_connections u' !! id = Some r' ->
    exists u r, co_heap (sy_co s) !! l = Some u /\ u_connections u !! id = Some r /\ cr_ref r' = cr_ref r.
Proof.
  intros Hi%reachable_inv Ha Hs. change (shrinks s s'). revert Hi Ha. induction Hs as [s|s s1 s' H1 Hs IH]; intros Hi Ha.
  - split_and!; [done|done|]. eauto.
  - destruct (step_shrinks _ _ Hi Ha H1) as (A1 & A2 & A3). destruct (IH (step_inv _ _ H1 Hi) A1) as (B1 & B2 & B3).
    split_and!; [done|lia|]. intros l u' id r' Hu Hr. destruct (B3 _ _ _ _ Hu Hr) as (u1 & r1 & Hu1 & Hr1 & ?).
    destruct (A3 _ _ _ _ Hu1 Hr1) as (u0 & r0 & ? & ? & ?). exists u0, r0. split_and!; [done|done|congruence].
Qed.

(** *** Revocation *)

Section Close.
Context (c : ConnectionCoordinator) (status : Z) (reason : string) (revoked : bool)
  (matches : ControlConnectionRef -> bool).

Definition close_if (r : connectionRecord) : connectionRecord :=
  if matches (cr_ref r) then with_state r ConnectionClosing else r.

Lemma close_if_idemp r : close_if (close_if r) = close_if r.
Proof using. unfold close_if. destruct (matches (cr_ref r)) eqn:E; simpl; by rewrite E. Qed.

(** The work of a pass asks every connection it closes to close. *)
Definition asks (work : list (connectionClosePlan * ControlConnectionRef)) (r : connectionRecord) : Prop :=
  exists p, (p, cr_ref r) ∈ work /\ pl_transport p = cr_transport r /\ pl_status p = status /\
    pl_reason p = reason /\ pl_authRevoked p = revoked.

Definition owns (u : connectionUser) (id : ConnID) : Prop :=
  exists a r, u_voice u = Some a /\ va_ControlConnectionID a = id /\ u_connections u !! id = Some r /\ matches (cr_ref r) = true.

Lemma close_one_spec work u id work' u' : user_ok u ->
  close_one c status reason revoked matches (work, u) id = (work', u') ->
  user_ok u' /\ same_frame u u' /\ u_connections u' = alter close_if id (u_connections u) /\
  (u_voice u' = u_voice u \/ u_voice u' = None /\ owns u id) /\
  (forall a r, u_voice u' = Some a -> va_ControlConnectionID a = id -> u_connections u !! id = Some r ->
     matches (cr_ref r) = false) /\
  (exists new, work' = work ++ new) /\
  (forall r, u_connections u !! id = Some r -> matches (cr_ref r) = true -> cr_state r <> ConnectionClosing -> asks work' r).
Proof using.
  intros Hok. unfold close_one. destruct (u_connections u !! id) as [r|] eqn:Hr.
  2: { intros [= <- <-]. split_and!; [done|apply same_frame_refl| |by left|done|exists []; by rewrite app_nil_r|done].
       rewrite alter_id; [done|]. intros q Hq. congruence. }
  assert (Hrec := record_at _ _ _ Hok Hr). destruct (matches (cr_ref r)) eqn:Hm.
  2: { intros [= <- <-]. split_and!; [done|apply same_frame_refl| |by left|by intros a q _ _ [= <-]|exists []; by rewrite app_nil_r|intros q [= <-]; congruence].
       rewrite alter_id; [done|]. intros q Hq. simplify_eq. unfold close_if. by rewrite Hm. }
  assert (Hid : r_ID (cr_ref r) = id) by apply Hrec.
  destruct (beginDisconnectLocked c (cr_ref r) status reason u) as [[plan ok] u1] eqn:Hb.
  destruct (begin_locked_ok _ _ _ _ _ _ _ _ Hok Hb) as (Hok1 & Hf1 & Hcl).
  assert (Hshape : u_connections u1 = alter close_if id (u_connections u) /\
    (u_voice u1 = u_voice u \/ u_voice u1 = None /\ owns u id) /\
    (ok = true -> pl_transport plan = cr_transport r /\ pl_status plan = status /\ pl_reason plan = reason) /\
    (ok = false -> cr_state r = ConnectionClosing)).
  { unfold beginDisconnectLocked in Hb. rewrite Hid, Hr in Hb.
    assert (Halt : <[id := with_state r ConnectionClosing]> (u_connections u) = alter close_if id (u_connections u)).
    { apply map_eq. intros j. destruct (decide (id = j)) as [<-|]; [|by rewrite lookup_insert_ne, lookup_alter_ne].
      rewrite lookup_insert_eq, lookup_alter_eq, Hr. simpl. unfold close_if. by rewrite Hm. }
    case_decide as Hd.
    - simplify_eq. destruct Hd as [?|Hd]; [done|]. split_and!; try done; [|by left].
      rewrite <- Halt. symmetry. apply insert_id. rewrite Hr. f_equal. destruct r. simpl in *. by subst.
    - simpl in Hb. destruct (u_voice u) as [a|] eqn:Hv; [case_decide as Ho|]; simplify_eq; simpl; split_and!; try done; try by left.
      right. split; [done|]. exists a, r. destruct Ho. split_and!; [done|congruence|done|done]. }
  destruct Hshape as (Hc1 & Hv1 & Hp & Hclosing).
  assert (Hown : forall a q, u_voice u1 = Some a -> va_ControlConnectionID a = id -> Some r = Some q -> matches (cr_ref q) = false).
  { intros a q Ha Hida [= <-]. exfalso. destruct (uo_voice _ Hok1 a Ha) as (_ & _ & _ & q & Hq & Hst & _).
    rewrite Hc1, Hida, lookup_alter_eq, Hr in Hq. simpl in Hq. unfold close_if in Hq. rewrite Hm in Hq. by simplify_eq. }
  destruct ok; intros [= <- <-]; (split_and!; [done|done|done|done|done| |]).
  - eauto.
  - intros q [= <-] _ _. destruct (Hp eq_refl) as (? & ? & ?). eexists. split; [apply elem_of_app; right; apply list_elem_of_singleton; reflexivity|].
    simpl. done.
  - exists []. by rewrite app_nil_r.
  - intros q [= <-] _ Hst. by specialize (Hclosing eq_refl).
Qed.

Lemma close_all_spec order work u work' u' : user_ok u ->
  fold_left (close_one c status reason revoked matches) order (work, u) = (work', u') ->
  user_ok u' /\ same_frame u u' /\
  (forall id, u_connections u' !! id = if decide (id ∈ order) then close_if <$> u_connections u !! id else u_connections u !! id) /\
  (u_voice u' = u_voice u \/ u_voice u' = None /\ exists id, id ∈ order /\ owns u id) /\
  (forall a r, u_voice u' = Some a -> va_ControlConnectionID a ∈ order -> u_connections u !! va_ControlConnectionID a = Some r ->
     matches (cr_ref r) = false) /\
  (exists new, work' = work ++ new) /\
  (forall id r, id ∈ order -> u_connections u !! id = Some r -> matches (cr_ref r) = true ->
     cr_state r <> ConnectionClosing -> asks work' r).
Proof using.
  revert work u. induction order as [|id order IH]; intros work u Hok.
  - intros [= <- <-]. split_and!; [done|apply same_frame_refl| |by left| |exists []; by rewrite app_nil_r|].
    + intros id. by rewrite decide_False by apply not_elem_of_nil.
    + intros a r _ []%elem_of_nil.
    + intros id r []%elem_of_nil.
  - cbn [fold_left]. destruct (close_one c status reason revoked matches (work, u) id) as [work1 u1] eqn:E1. intros Hf.
    destruct (close_one_spec _ _ _ _ _ Hok E1) as (Hok1 & Hf1 & Hc1 & Hv1 & Hm1 & (n1 & ->) & Ha1).
    destruct (IH _ _ Hok1 Hf) as (Hok2 & Hf2 & Hc2 & Hv2 & Hm2 & (n2 & ->) & Ha2).
    assert (Hl1 : forall j, u_connections u1 !! j = if decide (j = id) then close_if <$> u_connections u !! j else u_connections u !! j).
    { intros j. rewrite Hc1. case_decide; subst; [by rewrite lookup_alter_eq|by rewrite lookup_alter_ne]. }
    assert (Hasks : forall r, asks (work ++ n1) r -> asks ((work ++ n1) ++ n2) r).
    { intros r (q & Hq & ?). exists q. split; [apply elem_of_app; by left|done]. }
    assert (Hback : forall j r1, u_connections u1 !! j = Some r1 -> matches (cr_ref r1) = true ->
      exists r, u_connections u !! j = Some r /\ matches (cr_ref r) = true).
    { intros j r1 Hr1 Hm. destruct (frame_lookup _ _ _ _ Hf1 Hr1) as (r & Hr & Efr). unfold frame in Efr. exists r. split; [done|].
      by replace (cr_ref r) with (cr_ref r1) by congruence. }
    split_and!; [done| | | | |exists (n1 ++ n2); by rewrite app_assoc|].
    + destruct Hf1 as [F1 F2 F3 F4 F5 F6], Hf2 as [G1 G2 G3 G4 G5 G6]. constructor; try congruence.
      intros j r Hr Hst. destruct (F6 _ _ Hr Hst) as (r1 & Hr1 & Hst1). eauto.
    + intros j. rewrite Hc2, Hl1. destruct (decide (j = id)) as [->|Hne].
      * rewrite (decide_True (P := id ∈ id :: order)) by (by left). case_decide; [|done].
        destruct (u_connections u !! id); simpl; [by rewrite close_if_idemp|done].
      * destruct (decide (j ∈ order)); [rewrite decide_True by (by right)|rewrite decide_False by (rewrite elem_of_cons; tauto)]; done.
    + destruct Hv2 as [->|(-> & j & Hj & a & r1 & Ha & Hida & Hr1 & Hm)].
      * destruct Hv1 as [->|[-> Ho]]; [by left|right]. split; [done|]. exists id. split; [by left|done].
      * right. split; [done|]. destruct Hv1 as [Ev|[Ev Ho]]; [|congruence]. exists j. split; [by right|].
        destruct (Hback _ _ Hr1 Hm) as (r & ? & ?). exists a, r. split_and!; [congruence|done|done|done].
    + intros a r Hv Hin Hr. destruct (matches (cr_ref r)) eqn:Hm; [|done].
      assert (Ev1 : u_voice u1 = Some a) by (destruct Hv2 as [<-|[? _]]; congruence).
      destruct (decide (va_ControlConnectionID a = id)) as [E|Hne].
      * rewrite <- Hm. eapply (Hm1 a); [done|done|]. by rewrite <- E.
      * assert (Hr1 : u_connections u1 !! va_ControlConnectionID a = Some r) by (rewrite Hl1; by rewrite decide_False).
        rewrite <- Hm. eapply (Hm2 a); [done|by apply elem_of_cons in Hin as [?|?]|done].
    + intros j r Hin Hr Hm Hst. destruct (decide (j = id)) as [->|Hne]; [by apply Hasks, Ha1|].
      apply (Ha2 j); [by apply elem_of_cons in Hin as [?|?]| |done|done]. rewrite Hl1. by rewrite decide_False.
Qed.

End Close.

(** What one close plan emits. *)
Definition close_effect (t : Transport) (status : Z) (reason : string) (revoked : bool) : Effect :=
  if revoked && t_revocation t then EffRequestAuthRevoked t reason status else EffRequestClose t status reason.

Lemma emit_emit c es es' : emit (emit c es) es' = emit c (es ++ es').
Proof. unfold emit. simpl. by rewrite app_assoc. Qed.
Lemma emit_nil c : emit c [] = c.
Proof. unfold emit. rewrite app_nil_r. by destruct c. Qed.

Lemma run_plan_emit c p g : exists es, runClosePlanWithGate c p g = emit c es /\
  (forall t, pl_transport p = Some t -> close_effect t (pl_status p) (pl_reason p) (pl_authRevoked p) ∈ es).
Proof.
  unfold runClosePlanWithGate, close_effect.
  assert (Hv : exists es, stop_voice c p g = emit c es).
  { unfold stop_voice, AcquireVoiceRelayGate, releaseRelay.
    repeat case_match; rewrite ?emit_emit; try (eexists; reflexivity); exists []; by rewrite emit_nil. }
  destruct Hv as [es1 ->].
  assert (Ho : exists es, (if pl_voiceObserver p then emit (emit c es1) [EffVoiceObserve (pl_voiceAuthority p) None (pl_voiceReason p)]
      else emit c es1) = emit c es) by (case_match; rewrite ?emit_emit; eauto).
  destruct Ho as [es2 ->]. destruct (pl_transport p) as [t|]; [|exists es2; split; [done|done]].
  case_match eqn:G; rewrite emit_emit; eexists; (split; [reflexivity|]); intros t' [= <-]; rewrite G; apply elem_of_app; right; by left.
Qed.

Lemma run_plans_emit g work c : exists es, fold_left (fun c w => runClosePlanWithGate c w.1 g) work c = emit c es /\
  (forall p (ref : ControlConnectionRef) t, (p, ref) ∈ work -> pl_transport p = Some t ->
     close_effect t (pl_status p) (pl_reason p) (pl_authRevoked p) ∈ es).
Proof.
  revert c. induction work as [|[p ref] work IH]; intros c; simpl.
  - exists []. split; [by rewrite emit_nil|]. intros ? ? ? []%elem_of_nil.
  - destruct (run_plan_emit c p g) as (es1 & -> & H1). destruct (IH (emit c es1)) as (es2 & -> & H2).
    exists (es1 ++ es2). split; [by rewrite emit_emit|]. intros p' ref' t [?|Hin]%elem_of_cons Ht; apply elem_of_app; [left|right; eauto].
    simplify_eq. by apply H1.
Qed.

Lemma notify_all_emit (work : list (connectionClosePlan * ControlConnectionRef)) c :
  exists es, fold_left (fun c w => notifyClosed c w.2) work c = emit c es.
Proof.
  revert c. induction work as [|w work IH]; intros c; simpl; [exists []; by rewrite emit_nil|].
  unfold notifyClosed at 2. case_match; [|apply IH]. destruct (IH (emit c [EffClosed w.2])) as [es ->].
  rewrite emit_emit. eauto.
Qed.

Lemma close_matching_spec c userID status reason revoked g matches order : index_ok c ->
  (forall id, is_Some (conns_of c userID !! id) -> id ∈ order) ->
  let c' := (with_user c userID (close_matching status reason revoked g matches order)).2 in
  conns_of c' userID = close_if matches <$> conns_of c userID /\
  (forall a, voice_of c' userID = Some a <-> voice_of c userID = Some a /\
     forall r, conns_of c userID !! va_ControlConnectionID a = Some r -> matches (cr_ref r) = false) /\
  (forall id r t, conns_of c userID !! id = Some r -> matches (cr_ref r) = true -> cr_state r <> ConnectionClosing ->
     cr_transport r = Some t -> close_effect t status reason revoked ∈ co_log c').
Proof.
  intros Hix Hord. destruct (with_user_spec c userID (close_matching status reason revoked g matches order) Hix)
    as (c1 & l & u & Eu & Hacq & Hu & Hat & Hok & Hid & Hpos & Hl & Hix1 & Hlog & ->). simpl.
  unfold close_matching. rewrite Hat. destruct (fold_left _ order _) as [work u'] eqn:Hf.
  destruct (close_all_spec _ _ _ _ _ _ _ _ _ _ Hok Hf) as (Hok' & Hfr & Hc & Hv & Hm & _ & Ha).
  destruct (run_plans_emit g work (put c1 l u')) as (es1 & E1 & Hes1). rewrite E1.
  destruct (notify_all_emit work (emit (put c1 l u') es1)) as (es2 & E2). rewrite E2, emit_emit. simpl.
  destruct (release_section c1 _ l u u' (es1 ++ es2) userID Hix1 Hu Hl Hok' (sf_id _ _ Hfr) eq_refl) as (R1 & R2 & R3).
  rewrite R1, R2, R3. assert (Econn : conns_of c userID = u_connections u) by (by subst u).
  assert (Evoice : voice_of c userID = u_voice u) by (by subst u). rewrite Econn, Evoice in *. clear Eu Econn Evoice.
  assert (Howner : forall a, u_voice u = Some a -> va_ControlConnectionID a ∈ order).
  { intros a Hva. destruct (uo_voice _ Hok a Hva) as (_ & _ & _ & r & Hr & _). eauto. }
  split_and!.
  - apply map_eq. intros id. rewrite Hc, lookup_fmap. case_decide as Hin; [done|].
    destruct (u_connections u !! id) eqn:E; [|done]. destruct Hin. eauto.
  - intros a. split.
    + intros Hva. assert (Hua : u_voice u = Some a) by (destruct Hv as [<-|[? _]]; congruence). split; [done|]. eauto.
    + intros [Hua Hno]. destruct Hv as [->|(_ & id & _ & a' & r & Ha' & Hida & Hr & Hmr)]; [done|]. simplify_eq.
      rewrite (Hno _ Hr) in Hmr. done.
  - intros id r t Hr Hmr Hst Ht. destruct (Ha id r) as (p & Hp & Ept & Eps & Epr & Epa); eauto.
    apply elem_of_app; right. apply elem_of_app; left. rewrite <- Eps, <- Epr, <- Epa. eapply Hes1; [done|congruence].
Qed.

(** revoking a login session closes exactly that session's connections.
    Afterwards every connection of the session is closing and has been asked
    to close, every other connection of the user is untouched, and the user's
    voice authority survives exactly when another session owns it. *)
Theorem DisconnectLoginSession_exact s userID loginSessionID reason order : reachable s ->
  0 < userID -> 0 < loginSessionID -> (forall id, is_Some (conns_of (sy_co s) userID !! id) -> id ∈ order) ->
  let c' := DisconnectLoginSession (sy_co s) userID loginSessionID reason order in
  conns_of c' userID =
    (fun r => if r_LoginSessionID (cr_ref r) =? loginSessionID then with_state r ConnectionClosing else r)
      <$> conns_of (sy_co s) userID /\
  (forall a, voice_of c' userID = Some a <-> voice_of (sy_co s) userID = Some a /\
     forall r, conns_of (sy_co s) userID !! va_ControlConnectionID a = Some r -> r_LoginSessionID (cr_ref r) <> loginSessionID) /\
  (forall id r t, conns_of (sy_co s) userID !! id = Some r -> r_LoginSessionID (cr_ref r) = loginSessionID ->
     cr_state r <> ConnectionClosing -> cr_transport r = Some t -> close_effect t 4002 reason true ∈ co_log c').
Proof.
  intros Hi%reachable_inv Hu Hl Hord. unfold DisconnectLoginSession, disconnectMatching, disconnectMatchingWithGate.
  destruct (Z.leb_spec userID 0); [lia|]. destruct (Z.leb_spec loginSessionID 0); [lia|]. simpl.
  destruct (close_matching_spec (sy_co s) userID 4002 reason true false (fun ref => r_LoginSessionID ref =? loginSessionID)
    order (iv_index _ Hi) Hord) as (H1 & H2 & H3). split_and!; [done| |].
  - intros a. rewrite H2. split; intros [? Hn]; (split; [done|]); intros r Hr; [apply Z.eqb_neq|apply Z.eqb_neq]; auto.
  - intros id r t Hr Hlg. eapply H3; [done|]. by apply Z.eqb_eq.
Qed.

(** *** Voice transitions *)

Lemma activate_info w pl expected allow now info d cl w' :
  Session.activatePreparedStaged w (Some pl) expected allow now = (Ok (info, d, cl), w') ->
  Session.i_ID info = Session.i_ID (Session.Info w (Some pl)).
Proof.
  unfold Session.activatePreparedStaged, Session.Info. simpl. intros H.
  destruct (Session.w_prep w !! pl) as [p|]; [|done].
  assert (Hc : forall sess nowMS md, Session.activate_commit w pl p sess nowMS md = (Ok (info, d, cl), w') ->
    Session.i_ID info = Session.i_ID (Session.p_info p)).
  { intros sess nowMS md. unfold Session.activate_commit. repeat case_match; intros; by simplify_eq/=. }
  repeat case_match; simplify_eq; eauto.
Qed.

Lemma apply_manager_id st w allow now env sid d cl w' p : 
  apply_manager st w allow now env = (Ok (sid, d, cl), w') -> ProposedAuthority st w = Ok p -> p = staged_authority st sid.
Proof.
  unfold apply_manager, ProposedAuthority, Session.ActivatePreparedStagedAfterNaturalExpiry, Session.ActivatePreparedStaged.
  intros Hm Hp. destruct (negb _ || _ || _ || _); [done|]. destruct (st_prepared st) as [pl|].
  - destruct (bool_decide _ || _); [done|]. simpl in Hp.
    assert (Hid : sid = Session.i_ID (Session.Info w (Some pl))).
    { destruct allow; destruct (Session.activatePreparedStaged _ _ _ _ _) as [[[[i d'] c']|e] w1] eqn:E; simplify_eq;
        by eapply activate_info. }
    case_match; by simplify_eq.
  - destruct (st_expected st) as [e|]; [|done]. simpl in Hp. case_match; [done|]. repeat case_match; by simplify_eq.
Qed.

(** the staged voice commit is a compare-and-swap.  It succeeds only while
    the owner is active and the user's authority is the expected one, and then
    installs exactly the authority that was proposed, returning the one it
    replaced and leaving the user's relay gate held for the caller to release;
    on any error no connection or authority changes and the gate is free again. *)
Theorem apply_commit s st w allow acquire now env res w' c' : reachable s ->
  apply (sy_co s) st (Some w) allow acquire now env = (res, w', c') ->
  let userID := r_UserID (st_owner st) in
  conns_of c' userID = conns_of (sy_co s) userID /\
  match res with
  | Ok cm =>
      (exists r, conns_of (sy_co s) userID !! r_ID (st_owner st) = Some r /\ cr_ref r = st_owner st /\
         cr_state r = ConnectionActive) /\
      cm_Previous cm = voice_of (sy_co s) userID /\ voice_of (sy_co s) userID = st_expected st /\
      voice_of c' userID = Some (cm_Current cm) /\
      (forall p, ProposedAuthority st w = Ok p -> cm_Current cm = p) /\
      cm_Release cm = (if acquire then Some userID else None) /\
      co_log c' = co_log (sy_co s) ++ if acquire then [EffAcquireGate userID] else []
  | Err _ =>
      voice_of c' userID = voice_of (sy_co s) userID /\
      (co_log c' = co_log (sy_co s) \/ acquire = true /\ co_log c' = co_log (sy_co s) ++ [EffAcquireGate userID; EffReleaseGate userID])
  end.
Proof.
  intros Hi%reachable_inv. unfold apply. destruct (negb (validConnectionRef _) || _) eqn:G.
  { intros [= <- <- <-]. simpl. eauto. }
  apply orb_false_iff in G as [G _]. apply negb_false_iff in G. unfold validConnectionRef in G.
  assert (Hpos : (r_UserID (st_owner st) <=? 0) = false).
  { rewrite !andb_true_iff in G. destruct G as [[[G _] _] _]. apply Z.ltb_lt in G. by apply Z.leb_gt. }
  set (c0 := if acquire then AcquireVoiceRelayGate (sy_co s) (r_UserID (st_owner st)) else sy_co s).
  assert (Hc0 : c0 = emit (sy_co s) (if acquire then [EffAcquireGate (r_UserID (st_owner st))] else [])).
  { subst c0. destruct acquire; [unfold AcquireVoiceRelayGate; by rewrite Hpos|by rewrite emit_nil]. }
  assert (Hix0 : index_ok c0) by (rewrite Hc0; by destruct (iv_index _ Hi); constructor).
  destruct (with_user_spec c0 (r_UserID (st_owner st)) (locked (apply_locked st w allow now env)) Hix0)
    as (c1 & l & u & Eu & Hacq & Hu & Hat & Hok & Hid & Hp1 & Hl & Hix1 & Hlog & ->).
  assert (Econn : u_connections u = conns_of (sy_co s) (r_UserID (st_owner st))) by (subst u; by rewrite Hc0).
  assert (Evoice : u_voice u = voice_of (sy_co s) (r_UserID (st_owner st))) by (subst u; by rewrite Hc0).
  assert (Elog : co_log c1 = co_log (sy_co s) ++ if acquire then [EffAcquireGate (r_UserID (st_owner st))] else []) by (by rewrite Hlog, Hc0).
  rewrite <- Econn, <- Evoice. unfold locked. rewrite Hat.
  destruct (apply_locked_ok st w allow now env u Hok) as [Hok' Hfr].
  destruct (apply_locked st w allow now env u) as [[r w1] u'] eqn:Ha. simpl in *.
  destruct (release_section c1 _ l u u' [] (r_UserID (st_owner st)) Hix1 Hu Hl Hok' (sf_id _ _ Hfr) eq_refl) as (R1 & R2 & R3).
  rewrite emit_nil in R1, R2, R3. rewrite app_nil_r, Elog in R3. unfold apply_locked in Ha.
  destruct (negb (connectionActiveLocked u (st_owner st)) || _ || _) eqn:G1; [simplify_eq|
    destruct (apply_manager st w allow now env) as [[[[sid d] cl]|e] w2] eqn:Hm; simplify_eq].
  1, 3: intros [= <- <- <-]; destruct acquire; [|rewrite app_nil_r in R3; eauto];
    unfold releaseRelay; rewrite Hpos;
    (split_and!; [exact R1|exact R2|right; split; [done|simpl; by rewrite R3, <- app_assoc]]).
  apply orb_false_iff in G1 as [[Ga Gs]%orb_false_iff _]. apply negb_false_iff, bool_decide_eq_true in Ga as [r Hr], Gs.
  apply active_record_Some in Hr. intros [= <- <- <-]. simpl. split_and!; try done; [by exists r|].
  intros p Hp. symmetry. by eapply apply_manager_id.
Qed.

(** *** Leases *)

Lemma lease_bump r : u64 (r + 1) <> r.
Proof.
  intros E. pose proof (u64_range (r + 1)) as H. rewrite E in H. unfold is_u64, u64, u64_mod in *.
  destruct (Z.eq_dec r (2 ^ 64 - 1)) as [->|]; [vm_compute in E; done|]. rewrite Z.mod_small in E by lia. lia.
Qed.

Lemma get_lease_spec c ref : index_ok c -> validConnectionRef ref = true ->
  (GetAuthLease c ref).1 = cr_lease <$> active_record (view c (r_UserID ref)) ref.
Proof.
  intros Hix Hv. unfold GetAuthLease. rewrite Hv. simpl.
  destruct (with_user_spec c (r_UserID ref) (reading (fun u => cr_lease <$> active_record u ref)) Hix)
    as (c1 & l & u & Eu & Hacq & Hu & Hat & Hok & Hid & Hp1 & Hl & Hix1 & Hlog & ->). simpl. by rewrite Hat, Eu.
Qed.

Lemma expire_stale c ref old later : index_ok c ->
  cr_lease <$> active_record (view c (r_UserID ref)) ref <> Some old ->
  (ExpireAuthLease c ref old later).1 = false /\
  conns_of (ExpireAuthLease c ref old later).2 (r_UserID ref) = conns_of c (r_UserID ref).
Proof.
  intros Hix Hold. unfold ExpireAuthLease. destruct (_ || _ || _ || _); [done|].
  destruct (with_user_spec c (r_UserID ref) (expire_locked ref old) Hix)
    as (c1 & l & u & Eu & Hacq & Hu & Hat & Hok & Hid & Hp1 & Hl & Hix1 & Hlog & ->).
  assert (E : expire_locked ref old c1 l = (false, c1)).
  { unfold expire_locked. rewrite Hat. assert (Ea : active_record u ref = active_record (view c (r_UserID ref)) ref) by (by rewrite Eu).
    rewrite Ea. destruct (active_record _ _) as [r|]; [|done]. rewrite decide_False; [done|]. simpl in Hold. congruence. }
  rewrite E. simpl. split; [done|]. destruct (release_spec _ (r_UserID ref) _ _ Hix1 Hu Hl) as [E1 _]. unfold conns_of.
  rewrite E1. by rewrite Eu.
Qed.

(** a renewed lease fences its timers.  After [RenewAuthLease] the new lease
    is the current one and the expiry timer of the lease it replaced does
    nothing, at whatever time it fires: the connection is not closed. *)
Theorem renewal_fences s ref expires now lease c' : reachable s ->
  RenewAuthLease (sy_co s) ref expires now = (Ok lease, c') ->
  exists old, (GetAuthLease (sy_co s) ref).1 = Some old /\ now < al_ExpiresAt old /\
    (GetAuthLease c' ref).1 = Some lease /\ al_ExpiresAt lease = expires /\
    forall later, (ExpireAuthLease c' ref old later).1 = false /\
      conns_of (ExpireAuthLease c' ref old later).2 (r_UserID ref) = conns_of c' (r_UserID ref).
Proof.
  intros Hi%reachable_inv. unfold RenewAuthLease. destruct (negb (validConnectionRef ref) || _ || _) eqn:G; [done|].
  apply orb_false_iff in G as [[Hv%negb_false_iff _]%orb_false_iff _].
  destruct (with_user_spec (sy_co s) (r_UserID ref) (locked (renew_locked ref expires now)) (iv_index _ Hi))
    as (c1 & l & u & Eu & Hacq & Hu & Hat & Hok & Hid & Hp1 & Hl & Hix1 & Hlog & ->).
  unfold locked. rewrite Hat. destruct (user_sect_ok c1 u _ _ (us_renew c1 u ref expires now) Hok) as (Hok' & Hfr & _).
  destruct (renew_locked ref expires now u) as [res u'] eqn:Hr. simpl in *. intros [= -> <-].
  assert (Hix' : index_ok (releaseUser (put c1 l u') (r_UserID ref) l)).
  { destruct s as [c ids cl]. simpl in *. assert (Hi1 : inv (mkSys c1 ids cl)).
    { pose proof (acquire_inv _ _ _ (r_UserID ref) Hi) as H. by rewrite <- Hacq in H. }
    assert (Hs : user_sect c1 u u' None) by (pose proof (us_renew c1 u ref expires now) as H; by rewrite Hr in H).
    pose proof (section_inv _ _ _ _ _ _ _ Hi1 Hu Hp1 Hs) as Hi2.
    rewrite <- Hid, <- (sf_id _ _ Hfr). eapply (iv_index _ (release_inv _ _ _ _ u' Hi2 _ _)). Unshelve.
    - simpl. apply lookup_insert_eq.
    - rewrite (sf_refs _ _ Hfr). lia. }
  destruct (release_section c1 _ l u u' [] (r_UserID ref) Hix1 Hu Hl Hok' (sf_id _ _ Hfr) eq_refl) as (R1 & R2 & R3).
  rewrite emit_nil in R1, R2, R3. set (c' := releaseUser _ _ _) in *. clearbody c'.
  unfold renew_locked in Hr. destruct (active_record u ref) as [r|] eqn:Ha; [|done].
  destruct (Z.leb_spec (al_ExpiresAt (cr_lease r)) now) as [|Hlt]; [done|]. simplify_eq.
  apply active_record_Some in Ha as Ha'. destruct Ha' as (Hl' & Href & Hst).
  assert (Hnew : active_record (view c' (r_UserID ref)) ref =
    Some (with_lease r (mkLease (u64 (al_Revision (cr_lease r) + 1)) expires))).
  { unfold active_record. unfold conns_of in R1. rewrite R1. simpl. rewrite lookup_insert_eq. by rewrite decide_True. }
  exists (cr_lease r). split_and!.
  - rewrite get_lease_spec by (done || apply Hi). change (active_record (view (sy_co s) (r_UserID ref)) ref)
      with (active_record (set_refs (view (sy_co s) (r_UserID ref)) (u_refs (view (sy_co s) (r_UserID ref)) + 1)) ref).
    by rewrite Ha.
  - done.
  - rewrite get_lease_spec by done. by rewrite Hnew.
  - done.
  - intros later. apply expire_stale; [done|]. rewrite Hnew. simpl. intros [= E].
    exact (lease_bump (al_Revision (cr_lease r)) (f_equal al_Revision E)).
Qed.

(** ** A concrete run: a user connects, joins voice and is closed *)

Definition ex_conn : ConnID := replicate 16 1.
Definition ex_ip : Addr := Addr4 [10; 0; 0; 1].
Definition ex_t : Transport := mkTransport 0 true false.
Definition ex_ref : ControlConnectionRef := mkRef ex_conn 7 1 3.
Definition ex_world : World :=
  (Session.Prepare (fun _ _ _ => None) (Session.NewManager 0) 7 EmptyString false (Some (replicate 16 2)) None 0 0).2.
Definition ex_stage : VoiceAuthorityStage := mkStage ex_ref None 5 (Some 1%nat) 1 100.
Definition ex_voice : VoiceAuthority := mkVoice 7 5 ex_conn 1 (replicate 16 2) 1 100.
Definition ex_sys0 : Sys := mkSys (acquireUser NewConnectionCoordinator 7).2 ∅ [].
Definition ex_sys1 : Sys := mkSys (reserve_locked 7 3 ex_ip ex_conn (sy_co ex_sys0) 0).2 ({[ex_conn]} ∪ ∅) [].
Definition ex_sys2 : Sys :=
  mkSys (put (sy_co ex_sys1) 0 (activate_locked ex_ref ex_t 9000 (user_at (sy_co ex_sys1) 0)).2) ({[ex_conn]} ∪ ∅) ([] ++ []).
Definition ex_sys3 : Sys :=
  mkSys (put (sy_co ex_sys2) 0 (apply_locked ex_stage ex_world false 0 id (user_at (sy_co ex_sys2) 0)).2)
    ({[ex_conn]} ∪ ∅) (([] ++ []) ++ []).
Definition ex_sys4 : Sys :=
  mkSys (put (sy_co ex_sys3) 0 (beginDisconnectLocked (sy_co ex_sys3) ex_ref 1000 EmptyString (user_at (sy_co ex_sys3) 0)).2)
    ({[ex_conn]} ∪ ∅) ((([] ++ []) ++ []) ++ [ex_ref]).

(** A registry is retained when its reference count is positive. *)
Lemma retained_decide c l : match co_heap c !! l with Some u => 0 <? u_refs u | None => false end = true -> retained c l.
Proof. unfold retained. destruct (co_heap c !! l) as [u|]; [|done]. intros ?%Z.ltb_lt. eauto. Qed.

Lemma ex_sys2_reachable : reachable ex_sys2.
Proof.
  unfold reachable. apply rtc_l with ex_sys0; [apply (ss_acquire _ ∅ [] 7)|].
  apply rtc_l with ex_sys1; [apply (ss_reserve (sy_co ex_sys0) ∅ [] 0 3 ex_ip ex_conn);
    [by apply retained_decide; vm_compute|set_solver|done]|].
  apply rtc_once, (ss_section (sy_co ex_sys1) ({[ex_conn]} ∪ ∅) [] 0 _ None);
    [by apply retained_decide; vm_compute|apply (us_activate _ _ ex_ref ex_t 9000)].
Qed.

Lemma ex_sys3_reachable : reachable ex_sys3.
Proof.
  eapply rtc_r; [apply ex_sys2_reachable|].
  apply (ss_section (sy_co ex_sys2) ({[ex_conn]} ∪ ∅) ([] ++ []) 0 _ None);
    [by apply retained_decide; vm_compute|apply (us_apply _ _ ex_stage ex_world false 0 id)].
Qed.

Lemma ex_sys4_step : sys_step ex_sys3 ex_sys4.
Proof.
  assert (Hok : (beginDisconnectLocked (sy_co ex_sys3) ex_ref 1000 EmptyString (user_at (sy_co ex_sys3) 0)).1.2 = true)
    by (by vm_compute).
  pose proof (us_begin (sy_co ex_sys3) (user_at (sy_co ex_sys3) 0) ex_ref 1000 EmptyString) as Hs. rewrite Hok in Hs.
  apply (ss_section (sy_co ex_sys3) ({[ex_conn]} ∪ ∅) (([] ++ []) ++ []) 0 _ (Some ex_ref));
    [by apply retained_decide; vm_compute|exact Hs].
Qed.

Lemma ex_sys4_reachable : reachable ex_sys4.
Proof. eapply rtc_r; [apply ex_sys3_reachable|apply ex_sys4_step]. Qed.

Lemma admission_exact_witness : ActiveCount (sy_co ex_sys3) = 1 /\ SourceCount (sy_co ex_sys3) ex_ip = 1.
Proof.
  destruct (admission_exact ex_sys3 ex_sys3_reachable) as (H1 & _ & _ & H2 & _). split.
  - rewrite H1. by vm_compute.
  - rewrite (proj1 (H2 ex_ip eq_refl)). by vm_compute.
Defined.

Lemma voice_authority_owned_witness : exists u r,
  co_heap (sy_co ex_sys3) !! 0%nat = Some u /\ u_voice u = Some ex_voice /\
  u_connections u !! ex_conn = Some r /\ cr_state r = ConnectionActive.
Proof.
  assert (Hu : co_heap (sy_co ex_sys3) !! 0%nat = Some (user_at (sy_co ex_sys3) 0)) by (by vm_compute).
  assert (Hv : u_voice (user_at (sy_co ex_sys3) 0) = Some ex_voice) by (by vm_compute).
  destruct (voice_authority_owned ex_sys3 0 _ ex_voice ex_sys3_reachable Hu Hv) as (_ & _ & _ & _ & (r & Hr & Hs & _) & _).
  exists (user_at (sy_co ex_sys3) 0), r. exact (conj Hu (conj Hv (conj Hr Hs))).
Defined.

Lemma teardown_claimed_once_witness : (BeginDisconnect (sy_co ex_sys4) ex_ref 1000 EmptyString).1 = false.
Proof.
  destruct (teardown_claimed_once ex_sys4 ex_ref 1000 EmptyString ex_sys4_reachable) as [_ H].
  apply H. simpl. by left.
Defined.

Lemma no_admission_after_stop_witness : let s := mkSys (StopAdmission (sy_co ex_sys3)) (sy_issued ex_sys3) (sy_claims ex_sys3) in
  AdmissionOpen (sy_co s) = false /\ co_wg (sy_co s) <= 1.
Proof.
  pose (s := mkSys (StopAdmission (sy_co ex_sys3)) (sy_issued ex_sys3) (sy_claims ex_sys3)).
  assert (Hr : reachable s) by (eapply rtc_r; [apply ex_sys3_reachable|exact (ss_stop (sy_co ex_sys3) _ _)]).
  destruct (no_admission_after_stop s s Hr eq_refl (rtc_refl _ _)) as (H1 & _). split; [exact H1|by vm_compute].
Defined.

Lemma DisconnectLoginSession_exact_witness :
  voice_of (DisconnectLoginSession (sy_co ex_sys3) 7 3 EmptyString [ex_conn]) 7 = None.
Proof.
  destruct (DisconnectLoginSession_exact ex_sys3 7 3 EmptyString [ex_conn] ex_sys3_reachable) as (_ & H & _); [done|done| |].
  - intros id Hid. apply list_elem_of_singleton. assert (E : conns_of (sy_co ex_sys3) 7 = u_connections (user_at (sy_co ex_sys3) 0))
      by (by vm_compute). rewrite E in Hid.
    assert (D : dom (u_connections (user_at (sy_co ex_sys3) 0)) = ({[ex_conn]} : gset ConnID)) by (by vm_compute).
    apply elem_of_dom in Hid. rewrite D in Hid. by apply elem_of_singleton in Hid.
  - destruct (voice_of _ 7) as [a|] eqn:Ha; [|done]. destruct (proj1 (H a) eq_refl) as [Hva Hn]. clear Ha H.
    assert (E : voice_of (sy_co ex_sys3) 7 = Some ex_voice) by (by vm_compute). rewrite E in Hva. injection Hva as <-.
    assert (Hr : exists r, conns_of (sy_co ex_sys3) 7 !! va_ControlConnectionID ex_voice = Some r /\ r_LoginSessionID (cr_ref r) = 3)
      by (eexists; split; by vm_compute). destruct Hr as (r & Hr & Hl). by specialize (Hn r Hr).
Defined.

Lemma apply_commit_witness : exists cm w' c',
  apply (sy_co ex_sys2) ex_stage (Some ex_world) false true 0 id = (Ok cm, w', c') /\ voice_of c' 7 = Some ex_voice.
Proof.
  destruct (apply (sy_co ex_sys2) ex_stage (Some ex_world) false true 0 id) as [[res w'] c'] eqn:E.
  pose proof (apply_commit ex_sys2 ex_stage ex_world false true 0 id res w' c' ex_sys2_reachable E) as (_ & H).
  assert (Hres : match (apply (sy_co ex_sys2) ex_stage (Some ex_world) false true 0 id).1.1 with
                 | Ok cm => cm_Current cm = ex_voice | Err _ => False end) by (by vm_compute).
  rewrite E in Hres. cbn [fst] in Hres. destruct res as [cm|e]; [|done]. exists cm, w', c'. split; [done|].
  destruct H as (_ & _ & _ & Hv & _). rewrite <- Hres. exact Hv.
Defined.

Lemma renewal_fences_witness : exists lease c',
  RenewAuthLease (sy_co ex_sys2) ex_ref 20000 5000 = (Ok lease, c') /\ (GetAuthLease c' ex_ref).1 = Some lease.
Proof.
  destruct (RenewAuthLease (sy_co ex_sys2) ex_ref 20000 5000) as [[lease|e] c'] eqn:E.
  - exists lease, c'. split; [done|]. destruct (renewal_fences ex_sys2 ex_ref 20000 5000 lease c' ex_sys2_reachable E) as (old & _ & _ & H & _).
    exact H.
  - exfalso. assert (Hok : match (RenewAuthLease (sy_co ex_sys2) ex_ref 20000 5000).1 with Ok _ => True | Err _ => False end)
      by (by vm_compute). by rewrite E in Hok.
Defined.

End ConnectionProps.
