(* ===== verification/EventBus.v ===== *)
(** * EventBus: state subscriptions and their delivery ([realtime/eventbus.go])

    The bus keeps one subscription per connection generation.  Subscriptions are
    objects reached from the registry, from sync attempts and from a running
    fan-out, so they live in a heap and a location is an index of it.  The
    connections they deliver to are another heap, of any type that implements
    [StateSink], the interface [StateSyncConnection] of the source.  The record
    [eb_log] lists the calls made to connections, in order.

    Every operation runs its work in critical sections that the model takes as
    atomic; a fan-out holds all delivery gates at once. *)

From S2P Require Import Prelude State StateRing Visibility Cursor Snapshot Lane Connection.
From stdpp Require Import base gmap strings list sorting relations.
From Stdlib Require Import ZArith Lia.
#[local] Open Scope string_scope.
#[local] Open Scope list_scope.
#[local] Open Scope Z_scope.

Module EventBus.
Import State StateRing Visibility Snapshot Lane.
Import Connection (ControlConnectionRef, mkRef, r_ID, r_UserID, r_Generation, r_LoginSessionID, validConnectionRef).

#[global] Instance ControlConnectionRef_countable : Countable ControlConnectionRef.
Proof.
  refine (inj_countable' (fun r => (r_ID r, r_UserID r, r_Generation r, r_LoginSessionID r))
            (fun '(a, b, c, d) => mkRef a b c d) _). by intros [].
Defined.

(** [ErrCursor] and [ErrEncoding] are errors of the signer and of the encoder,
    returned as they are. *)
Inductive BusError :=
  | ErrInvalidEventBus | ErrEventBusClosed | ErrSyncConnectionExists | ErrSyncAttemptClosed | ErrEventConsumerSlow
  | ErrInvalidConnection | ErrCursor (e : Cursor.CursorError) | ErrEncoding (e : RingError).

(** The bounded delivery sink of one connection.  [queued] is what it has
    accepted and not yet handed to its writer. *)
Class StateSink (C : Type) := {
  ControlRef : C -> ControlConnectionRef;
  ApplyStateBatch : C -> list Scope -> list StateQueueItem -> bool * C;
  queued : C -> list StateQueueItem
}.

(** What the interface documents: a batch prunes the revoked scopes and then
    appends every item, or appends none. *)
Class StateSinkLaws (C : Type) `{!StateSink C} : Prop := {
  apply_ref c revoked items : ControlRef (ApplyStateBatch c revoked items).2 = ControlRef c;
  apply_all c revoked items : (ApplyStateBatch c revoked items).1 = true ->
    queued (ApplyStateBatch c revoked items).2 = pruneStateQueueItems (queued c) revoked ++ items;
  apply_none c revoked items : (ApplyStateBatch c revoked items).1 = false ->
    queued (ApplyStateBatch c revoked items).2 = queued c \/
    queued (ApplyStateBatch c revoked items).2 = pruneStateQueueItems (queued c) revoked
}.
Arguments StateSinkLaws C {_}.

Inductive eventSubscriptionPhase := eventSubscriptionSyncing | eventSubscriptionLive.
#[global] Instance phase_eq_dec : EqDecision eventSubscriptionPhase.
Proof. solve_decision. Defined.

Record eventSubscription := mkSub {
  su_connection : nat; su_ref : ControlConnectionRef; su_active : bool; su_phase : eventSubscriptionPhase;
  su_pending : list StateQueueItem; su_pendingBytes : Z; su_visibilityEpoch : Z; su_visibleScopes : gset Scope
}.

Definition with_active (s : eventSubscription) (a : bool) : eventSubscription :=
  mkSub (su_connection s) (su_ref s) a (su_phase s) (su_pending s) (su_pendingBytes s) (su_visibilityEpoch s) (su_visibleScopes s).
Definition with_phase (s : eventSubscription) (p : eventSubscriptionPhase) : eventSubscription :=
  mkSub (su_connection s) (su_ref s) (su_active s) p (su_pending s) (su_pendingBytes s) (su_visibilityEpoch s) (su_visibleScopes s).
Definition with_pending (s : eventSubscription) (p : list StateQueueItem) (n : Z) : eventSubscription :=
  mkSub (su_connection s) (su_ref s) (su_active s) (su_phase s) p n (su_visibilityEpoch s) (su_visibleScopes s).
Definition with_visibility (s : eventSubscription) (epoch : Z) (scopes : gset Scope) : eventSubscription :=
  mkSub (su_connection s) (su_ref s) (su_active s) (su_phase s) (su_pending s) (su_pendingBytes s) epoch scopes.

(** The end of a subscription: inactive, nothing pending. *)
Definition retire (s : eventSubscription) : eventSubscription := with_pending (with_active s false) [] 0.

(** The subscription on whose behalf a connection is called is part of the record. *)
Inductive BusCall :=
  | CallApply (l connection : nat) (revoked : list Scope) (items : list StateQueueItem) (ok : bool)
  | CallSlow (connection : nat).

(** ** Recipient items *)

Definition controlQueueItems (frames : list bytes) (ref : ControlConnectionRef) (visibilityEpoch : Z) : list StateQueueItem :=
  (fun frame => mkItem frame (mkScope EmptyString 0) 0 StateDeliveryControl (r_UserID ref) (r_Generation ref) visibilityEpoch) <$> frames.

Definition queue_policy (policy : Z) : Z :=
  if policy =? StateDeliveryVisibleBefore then StateDeliveryVisibleBefore
  else if policy =? StateDeliveryDirectTransition then StateDeliveryDirectTransition
  else if policy =? StateDeliveryUserTargeted then StateDeliveryUserTargeted
  else StateDeliveryVisibleAfter.

(** The loop of [appendPending]. *)
Fixpoint pending_fits (itemCount bytes : Z) (items : list StateQueueItem) : option Z :=
  match items with
  | [] => Some bytes
  | i :: items =>
      if len (qi_Frame i) =? 0 then None
      else let itemCount := itemCount + 1 in
           let bytes := bytes + len (qi_Frame i) in
           if (MaxWebSocketStateItems <? itemCount) || (MaxWebSocketStateBytes <? bytes) then None
           else pending_fits itemCount bytes items
  end.

Definition appendPending (s : eventSubscription) (revoked : list Scope) (items : list StateQueueItem)
  : bool * eventSubscription :=
  if negb (su_active s) || negb (bool_decide (su_phase s = eventSubscriptionSyncing)) then (false, s)
  else
    let pending := pruneStateQueueItems (su_pending s) revoked in
    let pendingBytes := stateQueueItemBytes pending in
    let s := with_pending s pending pendingBytes in
    match pending_fits (len pending) pendingBytes items with
    | None => (false, s)
    | Some bytes => (true, with_pending s (pending ++ cloneStateQueueItems items) bytes)
    end.

(** [bytes.Compare], and the order of the delivery gates. *)
Fixpoint bytes_Compare (a b : bytes) : comparison :=
  match a, b with
  | [], [] => Eq
  | [], _ => Lt
  | _, [] => Gt
  | x :: a, y :: b => match x ?= y with Eq => bytes_Compare a b | c => c end
  end.
Definition gate_le (x y : ControlConnectionRef * nat) : Prop :=
  let left := x.1 in
  let right := y.1 in
  match bytes_Compare (r_ID left) (r_ID right) with
  | Lt => True
  | Gt => False
  | Eq => r_Generation left < r_Generation right \/
          r_Generation left = r_Generation right /\ r_UserID left <= r_UserID right
  end.
#[global] Instance gate_le_dec : RelDecision gate_le.
Proof. intros x y. unfold gate_le. destruct (bytes_Compare _ _); apply _. Defined.
Definition sortSubscriptions (l : list (ControlConnectionRef * nat)) : list (ControlConnectionRef * nat) := merge_sort gate_le l.

Definition change_of (changes : gmap Z VisibilityChange) (u : Z) : VisibilityChange := default (mkChange [] []) (changes !! u).

Section Bus.
Context {C : Type} `{!StateSink C} {prims : Cursor.CursorPrims}.
Context (json_Valid : bytes -> bool) (json_Marshal : stateEventEnvelope -> option bytes)
        (json_user : SnapshotUserPresence -> option bytes).

Record EventBus := mkBus {
  eb_signer : Cursor.CursorSigner; eb_closed : bool; eb_subscriptions : gmap ControlConnectionRef nat;
  eb_heap : list eventSubscription; eb_conns : gmap nat C; eb_log : list BusCall
}.

(** [conns]: the connections that exist. *)
Definition NewEventBus (signer : Cursor.CursorSigner) (conns : gmap nat C) : EventBus := mkBus signer false ∅ [] conns [].

Definition with_subs (b : EventBus) (m : gmap ControlConnectionRef nat) : EventBus :=
  mkBus (eb_signer b) (eb_closed b) m (eb_heap b) (eb_conns b) (eb_log b).
Definition with_heap (b : EventBus) (h : list eventSubscription) : EventBus :=
  mkBus (eb_signer b) (eb_closed b) (eb_subscriptions b) h (eb_conns b) (eb_log b).
Definition put_sub (b : EventBus) (l : nat) (s : eventSubscription) : EventBus := with_heap b (<[l := s]> (eb_heap b)).
Definition log_call (b : EventBus) (c : BusCall) : EventBus :=
  mkBus (eb_signer b) (eb_closed b) (eb_subscriptions b) (eb_heap b) (eb_conns b) (eb_log b ++ [c]).

(** [subscription.connection.ApplyStateBatch]. *)
Definition apply_conn (b : EventBus) (l : nat) (s : eventSubscription) (revoked : list Scope) (items : list StateQueueItem)
  : bool * EventBus :=
  match eb_conns b !! su_connection s with
  | None => (false, b)
  | Some c =>
      let '(ok, c') := ApplyStateBatch c revoked items in
      (ok, log_call (mkBus (eb_signer b) (eb_closed b) (eb_subscriptions b) (eb_heap b)
                       (<[su_connection s := c']> (eb_conns b)) (eb_log b))
             (CallApply l (su_connection s) revoked items ok))
  end.

Definition remove (b : EventBus) (l : nat) : EventBus :=
  match eb_heap b !! l with
  | None => b
  | Some s => if bool_decide (eb_subscriptions b !! su_ref s = Some l)
              then with_subs b (delete (su_ref s) (eb_subscriptions b)) else b
  end.

(** ** Synchronisation *)

Definition beginSync (b : EventBus) (connection : nat) (version : StateVersion) : result nat BusError * EventBus :=
  match eb_conns b !! connection with
  | None => (Err ErrInvalidEventBus, b)
  | Some c =>
      let ref := ControlRef c in
      if negb (validConnectionRef ref) then (Err ErrInvalidConnection, b)
      else
        let s := mkSub connection ref true eventSubscriptionSyncing [] 0 (VisibilityEpoch version (r_UserID ref))
                   (scopesToSet (VisibleScopeIDs (r_UserID ref) (Some version))) in
        if eb_closed b then (Err ErrEventBusClosed, b)
        else match eb_subscriptions b !! ref with
             | Some _ => (Err ErrSyncConnectionExists, b)
             | None =>
                 let l := length (eb_heap b) in
                 (Ok l, with_subs (with_heap b (eb_heap b ++ [s])) (<[ref := l]> (eb_subscriptions b)))
             end
  end.

(** The error, if any. *)
Definition completeSync (b : EventBus) (l : nat) (handoff : list bytes) : option BusError * EventBus :=
  match eb_heap b !! l with
  | None => (Some ErrInvalidEventBus, b)
  | Some s =>
      if negb (su_active s) || negb (bool_decide (su_phase s = eventSubscriptionSyncing)) then (Some ErrSyncAttemptClosed, b)
      else
        let combined := controlQueueItems handoff (su_ref s) (su_visibilityEpoch s) ++ cloneStateQueueItems (su_pending s) in
        let '(ok, b) := if stateItemBatchWithinLimits combined then apply_conn b l s [] combined else (false, b) in
        if negb ok then
          (Some ErrEventConsumerSlow, log_call (remove (put_sub b l (retire s)) l) (CallSlow (su_connection s)))
        else (None, put_sub b l (with_pending (with_phase s eventSubscriptionLive) [] 0))
  end.

Definition abortSync (b : EventBus) (l : nat) : EventBus :=
  match eb_heap b !! l with
  | None => b
  | Some s =>
      let s := if bool_decide (su_phase s = eventSubscriptionSyncing) then retire s else s in
      remove (put_sub b l s) l
  end.

Definition unsubscribe (b : EventBus) (ref : ControlConnectionRef) : EventBus :=
  if negb (validConnectionRef ref) then b
  else match eb_subscriptions b !! ref with
       | None => b
       | Some l =>
           let b := with_subs b (delete ref (eb_subscriptions b)) in
           match eb_heap b !! l with Some s => put_sub b l (retire s) | None => b end
       end.

(** ** Fan-out *)

Fixpoint live_from (signer : Cursor.CursorSigner) (ref : ControlConnectionRef) (version : StateVersion)
    (items : list StateQueueItem) (bytes : Z) (events : list StateEvent) : result (list StateQueueItem * bool) BusError :=
  match events with
  | [] => Ok (items, false)
  | event :: events =>
      if negb (eventVisibleTo (r_UserID ref) event version) then live_from signer ref version items bytes events
      else
        let cursorEpoch := cursorEpochForEvent event (r_UserID ref) version in
        match Cursor.Issue signer (r_UserID ref) (mkCheckpoint (cp_StreamEpoch (checkpoint version)) (GEID event)) cursorEpoch with
        | Err e => Err (ErrCursor e)
        | Ok cursor =>
            match encodeEventForRecipient json_Valid json_Marshal json_user event (r_UserID ref) version cursor with
            | Err e => Err (ErrEncoding e)
            | Ok frame =>
                if (MaxWebSocketStateItems <? len items + 1) || (MaxWebSocketStateBytes <? bytes + len frame) then Ok ([], true)
                else live_from signer ref version
                       (items ++ [mkItem frame (EvScope event) (GEID event) (queue_policy (DeliveryPolicy event))
                                    (r_UserID ref) (r_Generation ref) cursorEpoch]) (bytes + len frame) events
            end
        end
  end.
Definition liveItems (signer : Cursor.CursorSigner) (ref : ControlConnectionRef) (version : StateVersion)
    (events : list StateEvent) : result (list StateQueueItem * bool) BusError := live_from signer ref version [] 0 events.

(** One subscription of the fan-out loop: the slow subscriptions so far and the
    bus, or the error that ends the loop. *)
Definition fan_one (version : StateVersion) (events : list StateEvent) (changes : gmap Z VisibilityChange)
    (acc : list nat * EventBus) (l : nat) : (list nat * EventBus) * option BusError :=
  let '(slow, b) := acc in
  match eb_heap b !! l with
  | None => (acc, None)
  | Some s =>
      if negb (su_active s) then (acc, None)
      else
        let change := change_of changes (r_UserID (su_ref s)) in
        match liveItems (eb_signer b) (su_ref s) version events with
        | Err e => (acc, Some e)
        | Ok (items, oversized) =>
            let revoked := Revoked change in
            let s := if Changed change
                     then with_visibility s (VisibilityEpoch version (r_UserID (su_ref s)))
                            (scopesToSet (VisibleScopeIDs (r_UserID (su_ref s)) (Some version)))
                     else s in
            if oversized then
              let b := if bool_decide (revoked = []) then b else (apply_conn b l s revoked []).2 in
              ((slow ++ [l], put_sub b l (with_active s false)), None)
            else if bool_decide (items = []) && bool_decide (revoked = []) then ((slow, put_sub b l s), None)
            else match su_phase s with
                 | eventSubscriptionSyncing =>
                     let '(ok, s) := appendPending s revoked items in
                     if ok then ((slow, put_sub b l s), None)
                     else ((slow ++ [l], put_sub b l (with_active s false)), None)
                 | eventSubscriptionLive =>
                     let '(ok, b) := apply_conn b l s revoked items in
                     if ok then ((slow, put_sub b l s), None)
                     else ((slow ++ [l], put_sub b l (with_active s false)), None)
                 end
        end
  end.

Fixpoint fan_all (version : StateVersion) (events : list StateEvent) (changes : gmap Z VisibilityChange)
    (acc : list nat * EventBus) (ls : list nat) : (list nat * EventBus) * option BusError :=
  match ls with
  | [] => (acc, None)
  | l :: ls => let '(acc, e) := fan_one version events changes acc l in
               match e with Some e => (acc, Some e) | None => fan_all version events changes acc ls end
  end.

Definition snapshotSubscriptions (b : EventBus) : list nat :=
  if eb_closed b then [] else (sortSubscriptions (map_to_list (eb_subscriptions b))).*2.

Definition connection_of (b : EventBus) (l : nat) : option nat := su_connection <$> eb_heap b !! l.

(** The connections to disconnect, or the error. *)
Definition fanout (b : EventBus) (version : StateVersion) (events : list StateEvent) (changes : gmap Z VisibilityChange)
  : result (list nat) BusError * EventBus :=
  let '((slow, b), e) := fan_all version events changes ([], b) (snapshotSubscriptions b) in
  match e with
  | Some e => (Err e, b)
  | None => (Ok (omap (connection_of b) slow), fold_left remove slow b)
  end.

Definition snapshotAndClose (b : EventBus) : list nat * EventBus :=
  if eb_closed b then ([], b)
  else ((sortSubscriptions (map_to_list (eb_subscriptions b))).*2,
        mkBus (eb_signer b) true ∅ (eb_heap b) (eb_conns b) (eb_log b)).

Definition Close (b : EventBus) : EventBus :=
  let '(ls, b) := snapshotAndClose b in
  fold_left (fun b l => match eb_heap b !! l with Some s => put_sub b l (retire s) | None => b end) ls b.

End Bus.
Arguments EventBus C : clear implicits.

End EventBus.
