(* ===== verification/EventBusProps.v ===== *)
(** * EventBusProps: what the event bus guarantees

    The bus is run by publications, sync attempts, disconnects, shutdown and the
    connections' own writers, in any order: [bus_step].  A publication whose
    fan-out returns an error is fatal to the process, so the steps are those of
    fan-outs that succeed.  The history of a subscription lists what happened
    since its registration, and each theorem compares deliveries with it. *)

From S2P Require Import Prelude State StateRing Visibility Cursor Snapshot Lane Connection EventBus.
From stdpp Require Import base gmap strings list sorting relations.
From Stdlib Require Import ZArith Lia.
#[local] Open Scope string_scope.
#[local] Open Scope list_scope.
#[local] Open Scope Z_scope.

Module EventBusProps.
Import State StateRing Visibility Snapshot Lane EventBus.
Import Connection (ControlConnectionRef, mkRef, r_ID, r_UserID, r_Generation, r_LoginSessionID, validConnectionRef).

(** ** The WebSocket as a sink *)

Record webSocketSyncConnection := mkConnection { wc_ref : ControlConnectionRef; wc_done : bool; wc_lane : webSocketStateLane }.

Definition pump_ApplyStateBatch (c : webSocketSyncConnection) (revoked : list Scope) (items : list StateQueueItem)
  : bool * webSocketSyncConnection :=
  if wc_done c then (false, c)
  else let '(ok, l) := applyBatch (wc_lane c) revoked items in (ok, mkConnection (wc_ref c) (wc_done c) l).

#[global] Instance webSocketSink : StateSink webSocketSyncConnection := {
  ControlRef := wc_ref; ApplyStateBatch := pump_ApplyStateBatch; queued c := fr_item <$> ln_queue (wc_lane c) }.

#[global] Instance webSocketSinkLaws : StateSinkLaws webSocketSyncConnection.
Proof.
  split; intros c revoked items; cbn [ControlRef ApplyStateBatch queued webSocketSink]; unfold pump_ApplyStateBatch;
    destruct (wc_done c); cbn [fst snd]; auto; try done; destruct (applyBatch _ _ _) as [ok l] eqn:E;
    cbn [fst snd wc_lane wc_ref]; try done; apply applyBatch_queue in E as (H1 & H2 & _).
  - intros ->. by destruct (H1 eq_refl) as (_ & ? & _).
  - intros ->. destruct (H2 eq_refl) as [->|?]; auto.
Qed.

(** ** Histories *)

Inductive Label :=
  | LFanout (v : StateVersion) (events : list StateEvent) (changes : gmap Z VisibilityChange)
  | LComplete (frames : list bytes).

Definition call_of (l : nat) (c : BusCall) : option (list Scope * list StateQueueItem) :=
  match c with CallApply l' _ revoked items true => if decide (l = l') then Some (revoked, items) else None | _ => None end.

(** The batches the subscription's connection accepted, in order. *)
Definition accepted (l : nat) (log : list BusCall) : list (list Scope * list StateQueueItem) := omap (call_of l) log.

Lemma accepted_snoc l log c : accepted l (log ++ [c]) = accepted l log ++ option_list (call_of l c).
Proof. unfold accepted. rewrite omap_app. cbn. by destruct (call_of l c). Qed.

Definition VisibleTo (v : StateVersion) (u : Z) (i : StateQueueItem) : Prop :=
  qi_Policy i = StateDeliveryVisibleAfter -> resource (qi_Scope i) -> qi_Scope i ∈ VisibleScopeIDs u (Some v).

Section Bus.
Context {C : Type} `{!StateSink C, !StateSinkLaws C} {prims : Cursor.CursorPrims}.
Context (json_Valid : bytes -> bool) (json_Marshal : stateEventEnvelope -> option bytes)
        (json_user : SnapshotUserPresence -> option bytes) (signer : Cursor.CursorSigner).

Notation liveItems := (EventBus.liveItems json_Valid json_Marshal json_user).
Notation fan_one := (EventBus.fan_one json_Valid json_Marshal json_user).
Notation fan_all := (EventBus.fan_all json_Valid json_Marshal json_user).
Notation fanout := (EventBus.fanout json_Valid json_Marshal json_user).

(** What one publication owes a subscription: the scopes to prune and the items. *)
Definition batch (ref : ControlConnectionRef) (lab : Label) : option (list Scope * list StateQueueItem) :=
  match lab with
  | LFanout v events changes =>
      match liveItems signer ref v events with
      | Ok (items, false) =>
          let revoked := Revoked (change_of changes (r_UserID ref)) in
          if bool_decide (items = []) && bool_decide (revoked = []) then None else Some (revoked, items)
      | _ => None
      end
  | LComplete _ => None
  end.

Definition after_batch (pending : list StateQueueItem) (b : list Scope * list StateQueueItem) : list StateQueueItem :=
  pruneStateQueueItems pending b.1 ++ b.2.
Definition pending_of (ref : ControlConnectionRef) (h : list Label) : list StateQueueItem :=
  fold_left after_batch (omap (batch ref) h) [].

(** The delivery so far is exactly what the history owes. *)
Definition delivered (s : eventSubscription) (h : list Label) (calls : list (list Scope * list StateQueueItem)) : Prop :=
  match su_phase s with
  | eventSubscriptionSyncing => calls = [] /\ su_pending s = pending_of (su_ref s) h
  | eventSubscriptionLive => exists h1 frames h2 epoch, h = h1 ++ LComplete frames :: h2 /\
      calls = ([], controlQueueItems frames (su_ref s) epoch ++ pending_of (su_ref s) h1) :: omap (batch (su_ref s)) h2
  end.

Definition bounded (s : eventSubscription) : Prop :=
  su_pendingBytes s = stateQueueItemBytes (su_pending s) /\ len (su_pending s) <= MaxWebSocketStateItems /\
  su_pendingBytes s <= MaxWebSocketStateBytes /\ (su_phase s = eventSubscriptionLive -> su_pending s = []).

Definition private (v : StateVersion) (s : eventSubscription) (c : C) : Prop :=
  Forall (VisibleTo v (r_UserID (su_ref s))) (su_pending s ++ queued c) /\
  (su_phase s = eventSubscriptionSyncing -> Forall (fun i => qi_Policy i <> StateDeliveryVisibleAfter) (queued c)).

Record sub_ok (v : StateVersion) (h : list Label) (s : eventSubscription)
    (calls : list (list Scope * list StateQueueItem)) (c : C) : Prop := {
  so_active : su_active s = true;
  so_ref : ControlRef c = su_ref s;
  so_delivered : delivered s h calls;
  so_bounded : bounded s;
  so_private : private v s c
}.

(** ** Steps *)

Definition sys : Type := EventBus C * gmap nat (list Label) * StateVersion.

Definition set_conn (b : EventBus C) (k : nat) (c : C) : EventBus C :=
  mkBus (eb_signer b) (eb_closed b) (eb_subscriptions b) (eb_heap b) (<[k := c]> (eb_conns b)) (eb_log b).

Inductive bus_step : sys -> sys -> Prop :=
  | bs_begin b h v k c l b' : eb_conns b !! k = Some c -> Forall (fun i => qi_Policy i <> StateDeliveryVisibleAfter) (queued c) ->
      beginSync b k v = (Ok l, b') -> bus_step (b, h, v) (b', <[l := []]> h, v)
  | bs_complete b h v l frames e b' : completeSync b l frames = (e, b') ->
      bus_step (b, h, v) (b', alter (fun hl => hl ++ [LComplete frames]) l h, v)
  | bs_abort b h v l : bus_step (b, h, v) (abortSync b l, h, v)
  | bs_unsubscribe b h v ref : bus_step (b, h, v) (unsubscribe b ref, h, v)
  | bs_close b h v : bus_step (b, h, v) (Close b, h, v)
  | bs_fanout b h v v' events changes slow b' : fanout b v' events changes = (Ok slow, b') ->
      (forall u, change_of changes u = Diff u (Some v) (Some v')) ->
      bus_step (b, h, v) (b', (fun hl => hl ++ [LFanout v' events changes]) <$> h, v')
  | bs_writer b h v k c c' : eb_conns b !! k = Some c -> ControlRef c' = ControlRef c ->
      (forall i, i ∈ queued c' -> i ∈ queued c \/ qi_Policy i <> StateDeliveryVisibleAfter) ->
      bus_step (b, h, v) (set_conn b k c', h, v)
  | bs_slow b h v k : bus_step (b, h, v) (log_call b (CallSlow k), h, v).

Record bus_ok (y : sys) : Prop := {
  bo_signer : eb_signer y.1.1 = signer;
  bo_log : forall l, (length (eb_heap y.1.1) <= l)%nat -> accepted l (eb_log y.1.1) = [];
  bo_closed : eb_closed y.1.1 = true -> eb_subscriptions y.1.1 = ∅;
  bo_syncing : forall l s, eb_heap y.1.1 !! l = Some s -> su_active s = true -> su_phase s = eventSubscriptionSyncing ->
    eb_subscriptions y.1.1 !! su_ref s = Some l;
  bo_registered : forall ref l, eb_subscriptions y.1.1 !! ref = Some l -> exists s c hl,
    eb_heap y.1.1 !! l = Some s /\ su_ref s = ref /\ eb_conns y.1.1 !! su_connection s = Some c /\
    y.1.2 !! l = Some hl /\ sub_ok y.2 hl s (accepted l (eb_log y.1.1)) c
}.

(** ** Items *)

Lemma live_from_visible ref v items n events items' o :
  Forall (VisibleTo v (r_UserID ref)) items ->
  live_from json_Valid json_Marshal json_user signer ref v items n events = Ok (items', o) ->
  Forall (VisibleTo v (r_UserID ref)) items'.
Proof.
  revert items n. induction events as [|e events IH]; intros items n Hi; cbn [live_from]; [by intros [= <- <-]|].
  destruct (eventVisibleTo (r_UserID ref) e v) eqn:Hv; cbn [negb]; [|by apply IH].
  case_match; [|done]. case_match; [|done]. destruct (_ || _); [by intros [= <- <-]|]. apply IH, Forall_app. split; [done|].
  apply Forall_singleton. intros Hp Hres. cbn [qi_Policy qi_Scope] in *. revert Hp Hv. unfold queue_policy, eventVisibleTo.
  destruct (DeliveryPolicy e =? StateDeliveryVisibleBefore); [done|].
  destruct (DeliveryPolicy e =? StateDeliveryDirectTransition); [done|].
  destruct (DeliveryPolicy e =? StateDeliveryUserTargeted); [done|]. intros _. cbn [orb]. destruct (EvScope e) as [ty id].
  cbn [sc_Type sc_ID] in *. intros Hv. apply elem_of_visible. destruct Hres as [Ht|Ht]; cbn [sc_Type] in Ht; subst ty.
  - left. exists id. split; [done|]. by apply CanSeeGroup_spec.
  - right. exists id. split; [done|]. by apply CanAccessChannel_spec.
Qed.

(** A publication's prune keeps only what stays visible. *)
Lemma prune_visible v v' u items : Forall (VisibleTo v u) items ->
  Forall (VisibleTo v' u) (pruneStateQueueItems items (Revoked (Diff u (Some v) (Some v')))).
Proof.
  intros H. rewrite prune_eq. apply Forall_forall. intros i [Hn Hi]%list_elem_of_filter Hp Hres.
  rewrite Forall_forall in H. specialize (H i Hi Hp Hres). destruct (decide (qi_Scope i ∈ VisibleScopeIDs u (Some v'))) as [|Hno]; [done|].
  exfalso. apply Hn. split; [done|]. unfold scopesToSet. apply elem_of_list_to_set. unfold Diff. cbn [Revoked].
  rewrite merge_sort_Permutation. apply list_elem_of_filter. unfold scopesToSet. rewrite elem_of_list_to_set.
  split; [done|]. apply elem_of_elements. by apply elem_of_list_to_set.
Qed.

Lemma pending_fits_spec n m items m' : pending_fits n m items = Some m' ->
  m' = m + stateQueueItemBytes items /\ (items = [] \/ n + len items <= MaxWebSocketStateItems /\ m' <= MaxWebSocketStateBytes).
Proof.
  revert n m. induction items as [|i items IH]; intros n m; cbn [pending_fits stateQueueItemBytes foldr].
  - intros [= <-]. split; [lia|by left].
  - destruct (_ =? 0); [done|].
    destruct (Z.ltb_spec MaxWebSocketStateItems (n + 1)); [done|]. cbn [orb].
    destruct (Z.ltb_spec MaxWebSocketStateBytes (m + len (qi_Frame i))); [done|].
    intros [Hm Hb]%IH. unfold stateQueueItemBytes in *. split; [lia|]. right.
    destruct Hb as [-> | [Hb1 Hb2]]; cbn in *; unfold len in *; cbn [length] in *; lia.
Qed.

(** ** One subscription of a fan-out *)

Lemma pending_of_snoc ref h v events changes items : liveItems signer ref v events = Ok (items, false) ->
  pending_of ref (h ++ [LFanout v events changes]) =
  pruneStateQueueItems (pending_of ref h) (Revoked (change_of changes (r_UserID ref))) ++ items.
Proof using.
  intros Hl. unfold pending_of. rewrite omap_app, fold_left_app. cbn [omap list_omap batch]. rewrite Hl.
  destruct (bool_decide (items = [])) eqn:H1; [|done]. destruct (bool_decide (Revoked _ = [])) eqn:H2; [|done].
  apply bool_decide_eq_true in H1 as ->, H2 as ->. cbn [andb fold_left]. rewrite app_nil_r, prune_eq. symmetry.
  apply list_filter_all. intros i _ [_ Hi]. by apply elem_of_empty in Hi.
Qed.

Lemma prune_nil items : pruneStateQueueItems items [] = items.
Proof using. unfold pruneStateQueueItems. rewrite (bool_decide_eq_true_2 ([] = [])) by done. by rewrite orb_true_r. Qed.

Lemma stateQueueItemBytes_app x y : stateQueueItemBytes (x ++ y) = stateQueueItemBytes x + stateQueueItemBytes y.
Proof using. unfold stateQueueItemBytes. induction x as [|i x IH]; cbn; lia. Qed.

Lemma prune_le items revoked : len (pruneStateQueueItems items revoked) <= len items /\
  stateQueueItemBytes (pruneStateQueueItems items revoked) <= stateQueueItemBytes items.
Proof using.
  rewrite prune_eq. split.
  - unfold len. pose proof (length_filter (fun i => ~ prunable (scopesToSet revoked) i) items). lia.
  - induction items as [|i items IH]; [done|]. destruct (decide (prunable (scopesToSet revoked) i)).
    + rewrite filter_cons_False by tauto. unfold stateQueueItemBytes in *. cbn [foldr].
      assert (0 <= len (qi_Frame i)) by (unfold len; lia). lia.
    + rewrite filter_cons_True by tauto. unfold stateQueueItemBytes in *. cbn [foldr]. lia.
Qed.

Lemma apply_conn_spec b l s c revoked items ok b' : eb_conns b !! su_connection s = Some c ->
  apply_conn b l s revoked items = (ok, b') -> exists c',
  b' = mkBus (eb_signer b) (eb_closed b) (eb_subscriptions b) (eb_heap b) (<[su_connection s := c']> (eb_conns b))
         (eb_log b ++ [CallApply l (su_connection s) revoked items ok]) /\
  ControlRef c' = ControlRef c /\ (ok = true -> queued c' = pruneStateQueueItems (queued c) revoked ++ items).
Proof using StateSinkLaws0.
  intros Hc. unfold apply_conn. rewrite Hc. destruct (ApplyStateBatch c revoked items) as [ok' c'] eqn:E. intros [= <- <-].
  exists c'. split; [done|]. pose proof (apply_ref c revoked items) as H1. pose proof (apply_all c revoked items) as H2.
  rewrite E in H1, H2. done.
Qed.

(** What a publication does to a subscription it can serve. *)
Lemma sync_ok v v' h s calls c events changes items bytes epoch scopes :
  (forall u, change_of changes u = Diff u (Some v) (Some v')) -> sub_ok v h s calls c ->
  su_phase s = eventSubscriptionSyncing -> liveItems signer (su_ref s) v' events = Ok (items, false) ->
  let pending := pruneStateQueueItems (su_pending s) (Revoked (change_of changes (r_UserID (su_ref s)))) in
  pending_fits (len pending) (stateQueueItemBytes pending) items = Some bytes ->
  sub_ok v' (h ++ [LFanout v' events changes]) (with_pending (with_visibility s epoch scopes) (pending ++ items) bytes) calls c.
Proof using.
  intros Hch [H1 H2 H3 (B1 & B2 & B3 & B4) [P1 P2]] Hp Hl pending Hf. apply pending_fits_spec in Hf as [-> Hf].
  unfold delivered in H3. rewrite Hp in H3. destruct H3 as [-> H3]. apply Forall_app in P1 as [P1 P1'].
  pose proof (prune_le (su_pending s) (Revoked (change_of changes (r_UserID (su_ref s))))) as [L1 L2].
  constructor; cbn [with_pending with_visibility su_active su_ref]; [done|done| | |].
  - unfold delivered. cbn [with_pending with_visibility su_phase su_pending su_ref]. rewrite Hp. split; [done|].
    rewrite (pending_of_snoc _ _ _ _ _ _ Hl). unfold pending. by rewrite H3.
  - unfold bounded. cbn [with_pending with_visibility su_phase su_pending su_pendingBytes]. rewrite stateQueueItemBytes_app.
    fold pending in L1, L2. split_and!; [done| | |by rewrite Hp].
    + rewrite len_app. destruct Hf as [->|[? _]]; [unfold len in *; cbn; lia|lia].
    + destruct Hf as [->|[_ ?]]; [unfold stateQueueItemBytes in *; cbn; lia|lia].
  - split; [|by apply P2]. cbn [with_pending with_visibility su_ref su_pending]. apply Forall_app. split.
    + apply Forall_app. split; [|by eapply (live_from_visible _ _ []); [constructor|exact Hl]].
      unfold pending. rewrite Hch. by eapply prune_visible.
    + eapply Forall_impl; [exact (P2 Hp)|]. intros i Hi Hv. done.
Qed.

Lemma live_ok v v' h s calls c c' events changes items epoch scopes :
  (forall u, change_of changes u = Diff u (Some v) (Some v')) -> sub_ok v h s calls c ->
  su_phase s = eventSubscriptionLive -> liveItems signer (su_ref s) v' events = Ok (items, false) ->
  let revoked := Revoked (change_of changes (r_UserID (su_ref s))) in
  ControlRef c' = ControlRef c -> queued c' = pruneStateQueueItems (queued c) revoked ++ items ->
  sub_ok v' (h ++ [LFanout v' events changes]) (with_visibility s epoch scopes)
    (calls ++ option_list (batch (su_ref s) (LFanout v' events changes))) c'.
Proof using.
  intros Hch [H1 H2 H3 (B1 & B2 & B3 & B4) [P1 P2]] Hp Hl revoked Hr Hq. specialize (B4 Hp). rewrite B4 in P1. cbn in P1.
  constructor; cbn [with_visibility su_active su_ref]; [done|congruence| | |].
  - unfold delivered in *. cbn [with_visibility su_phase su_ref]. rewrite Hp in *. destruct H3 as (h1 & fr & h2 & ep & -> & ->).
    exists h1, fr, (h2 ++ [LFanout v' events changes]), ep. split; [by rewrite <- app_assoc|].
    rewrite omap_app. cbn [app omap list_omap]. by destruct (batch (su_ref s) (LFanout v' events changes)).
  - unfold bounded. cbn [with_visibility su_phase su_pending su_pendingBytes]. done.
  - split; [|cbn [with_visibility su_phase]; congruence]. cbn [with_visibility su_ref su_pending]. rewrite B4, Hq. cbn [app].
    apply Forall_app. split; [|by eapply (live_from_visible _ _ []); [constructor|exact Hl]].
    unfold revoked. rewrite Hch. by eapply prune_visible.
Qed.

Lemma with_visibility_self (s : eventSubscription) (b : bool) epoch scopes :
  exists epoch' scopes', (if b then with_visibility s epoch scopes else s) = with_visibility s epoch' scopes'.
Proof using. destruct b; [eauto|]. exists (su_visibilityEpoch s), (su_visibleScopes s). by destruct s. Qed.

Lemma batch_eq ref v events changes items : liveItems signer ref v events = Ok (items, false) ->
  batch ref (LFanout v events changes) =
  let revoked := Revoked (change_of changes (r_UserID ref)) in
  if bool_decide (items = []) && bool_decide (revoked = []) then None else Some (revoked, items).
Proof using. intros Hl. cbn [batch]. by rewrite Hl. Qed.

(** What [fan_one] leaves alone. *)
Record untouched (l k : nat) (b b' : EventBus C) : Prop := {
  ut_signer : eb_signer b' = eb_signer b;
  ut_closed : eb_closed b' = eb_closed b;
  ut_subs : eb_subscriptions b' = eb_subscriptions b;
  ut_length : length (eb_heap b') = length (eb_heap b);
  ut_heap l' : l' <> l -> eb_heap b' !! l' = eb_heap b !! l';
  ut_calls l' : l' <> l -> accepted l' (eb_log b') = accepted l' (eb_log b);
  ut_conns k' : k' <> k -> eb_conns b' !! k' = eb_conns b !! k'
}.

Lemma untouched_put l k b s : untouched l k b (put_sub b l s).
Proof using.
  constructor; cbn; try done; [by rewrite length_insert|]. intros l' Hl. by rewrite list_lookup_insert_ne.
Qed.

Lemma untouched_trans l k b1 b2 b3 : untouched l k b1 b2 -> untouched l k b2 b3 -> untouched l k b1 b3.
Proof using.
  intros [A1 A2 A3 A4 A5 A6 A7] [B1 B2 B3 B4 B5 B6 B7]. constructor; [congruence..| | |]; intros x Hx.
  - by rewrite B5, A5.
  - by rewrite B6, A6.
  - by rewrite B7, A7.
Qed.

Lemma untouched_conn l k b c r i ok : untouched l k b
  (mkBus (eb_signer b) (eb_closed b) (eb_subscriptions b) (eb_heap b) (<[k := c]> (eb_conns b)) (eb_log b ++ [CallApply l k r i ok])).
Proof using.
  constructor; cbn [eb_signer eb_closed eb_subscriptions eb_heap eb_conns eb_log]; try done.
  - intros l' Hl. rewrite accepted_snoc. cbn [call_of]. destruct ok; [|by rewrite app_nil_r]. rewrite decide_False by done. by rewrite app_nil_r.
  - intros k' Hk. by rewrite lookup_insert_ne.
Qed.

Lemma fan_one_spec v v' h events changes slow b l s c slow' b' :
  eb_signer b = signer -> eb_heap b !! l = Some s -> eb_conns b !! su_connection s = Some c ->
  (forall u, change_of changes u = Diff u (Some v) (Some v')) -> sub_ok v h s (accepted l (eb_log b)) c ->
  fan_one v' events changes (slow, b) l = ((slow', b'), None) ->
  untouched l (su_connection s) b b' /\ exists s' c', eb_heap b' !! l = Some s' /\ su_ref s' = su_ref s /\
    su_connection s' = su_connection s /\ eb_conns b' !! su_connection s = Some c' /\ ControlRef c' = ControlRef c /\
    (slow' = slow ++ [l] /\ su_active s' = false \/ slow' = slow /\ sub_ok v' (h ++ [LFanout v' events changes]) s' (accepted l (eb_log b')) c').
Proof using StateSinkLaws0.
  intros Hsig Hs Hc Hch Hok. pose proof (lookup_lt_Some _ _ _ Hs) as Hlt.
  assert (Hput : forall (b1 : EventBus C) s1, length (eb_heap b1) = length (eb_heap b) -> eb_heap (put_sub b1 l s1) !! l = Some s1).
  { intros b1 s1 E. cbn. apply list_lookup_insert_eq. lia. }
  unfold EventBus.fan_one. rewrite Hs, (so_active _ _ _ _ _ Hok). cbn [negb]. rewrite Hsig.
  destruct (liveItems signer (su_ref s) v' events) as [[items over]|] eqn:Hl; [|done].
  destruct (with_visibility_self s (Changed (change_of changes (r_UserID (su_ref s))))
    (VisibilityEpoch v' (r_UserID (su_ref s))) (scopesToSet (VisibleScopeIDs (r_UserID (su_ref s)) (Some v')))) as (ep & sco & ->).
  destruct over.
  { destruct (bool_decide (Revoked _ = [])); intros [= <- <-].
    { split; [apply untouched_put|]. eexists _, c. rewrite Hput by done. cbn. eauto 11. }
    destruct (apply_conn b l (with_visibility s ep sco) _ []) as [ok b1] eqn:Ha. cbn [snd].
    destruct (apply_conn_spec _ _ _ _ _ _ _ _ Hc Ha) as (c' & -> & Hr & _). split.
    - eapply untouched_trans; [|apply untouched_put]. apply untouched_conn.
    - eexists _, c'. rewrite Hput by done. cbn. rewrite lookup_insert_eq. eauto 11. }
  destruct (bool_decide (items = []) && bool_decide (Revoked _ = [])) eqn:Hskip.
  { intros [= <- <-]. split; [apply untouched_put|]. eexists _, c. rewrite Hput by done. cbn [with_visibility su_ref su_connection].
    split_and!; [done..|]. right. split; [done|]. apply andb_true_iff in Hskip as [E1%bool_decide_eq_true E2%bool_decide_eq_true].
    subst items. change (eb_log (put_sub b l (with_visibility s ep sco))) with (eb_log b). destruct (su_phase s) eqn:Hp.
    - pose proof Hok as [_ _ _ (B1 & B2 & B3 & _) _].
      pose proof (sync_ok v v' h s _ c events changes [] (stateQueueItemBytes (su_pending s)) ep sco Hch Hok Hp Hl) as Hso.
      cbn zeta in Hso. rewrite E2, prune_nil, app_nil_r, <- B1 in Hso. specialize (Hso eq_refl).
      by destruct s.
    - pose proof (live_ok v v' h s _ c c events changes [] ep sco Hch Hok Hp Hl) as Hso. cbn zeta in Hso.
      rewrite (batch_eq _ _ _ _ _ Hl), E2, prune_nil, app_nil_r in Hso. cbn in Hso. rewrite app_nil_r in Hso. by apply Hso. }
  cbn [with_visibility su_phase]. destruct (su_phase s) eqn:Hp.
  - unfold appendPending. cbn [with_visibility su_active su_phase su_pending]. rewrite (so_active _ _ _ _ _ Hok), Hp.
    rewrite bool_decide_eq_true_2 by done. cbn [negb orb].
    destruct (pending_fits _ _ items) as [n|] eqn:Hf; intros [= <- <-]; (split; [apply untouched_put|]);
      eexists _, c; rewrite Hput by done; cbn [with_pending with_active with_visibility su_ref su_connection]; split_and!; try done.
    + right. split; [done|]. exact (sync_ok v v' h s _ c events changes items n ep sco Hch Hok Hp Hl Hf).
    + by left.
  - destruct (apply_conn b l (with_visibility s ep sco) _ items) as [ok b1] eqn:Ha.
    destruct (apply_conn_spec _ _ _ _ _ _ _ _ Hc Ha) as (c' & -> & Hr & Hq).
    destruct ok; intros [= <- <-]; (split; [eapply untouched_trans; [apply untouched_conn|apply untouched_put]|]);
      eexists _, c'; rewrite Hput by done; cbn [with_active with_visibility su_ref su_connection];
      (split_and!; [done..|by apply lookup_insert_eq|done|]).
    + right. split; [done|]. pose proof (live_ok v v' h s _ c c' events changes items ep sco Hch Hok Hp Hl Hr (Hq eq_refl)) as Hso.
      rewrite (batch_eq _ _ _ _ _ Hl) in Hso. cbn zeta in Hso. rewrite Hskip in Hso.
      cbn [put_sub with_heap eb_log]. rewrite accepted_snoc. cbn [call_of]. by rewrite decide_True by done.
    + by left.
Qed.

(** ** The whole fan-out *)

(** The registered subscriptions in the middle of a fan-out: those of [ls] are
    still to be served. *)
Definition midway (v v' : StateVersion) (h : gmap nat (list Label)) (lab : Label) (ls slow : list nat) (b : EventBus C) : Prop :=
  forall ref l, eb_subscriptions b !! ref = Some l -> exists s c hl,
    eb_heap b !! l = Some s /\ su_ref s = ref /\ eb_conns b !! su_connection s = Some c /\ ControlRef c = ref /\
    h !! l = Some hl /\
    ((l ∈ ls /\ l ∉ slow /\ sub_ok v hl s (accepted l (eb_log b)) c) \/
     (l ∉ ls /\ (l ∈ slow /\ su_active s = false \/ l ∉ slow /\ sub_ok v' (hl ++ [lab]) s (accepted l (eb_log b)) c))).

Lemma fan_all_spec v v' h events changes ls slow b slow' b' :
  (forall u, change_of changes u = Diff u (Some v) (Some v')) -> eb_signer b = signer -> NoDup ls ->
  (forall l, l ∈ ls -> exists ref, eb_subscriptions b !! ref = Some l) ->
  (forall l, (length (eb_heap b) <= l)%nat -> accepted l (eb_log b) = []) ->
  midway v v' h (LFanout v' events changes) ls slow b ->
  fan_all v' events changes (slow, b) ls = ((slow', b'), None) ->
  midway v v' h (LFanout v' events changes) [] slow' b' /\ eb_signer b' = signer /\ eb_closed b' = eb_closed b /\
  eb_subscriptions b' = eb_subscriptions b /\ (forall l, (length (eb_heap b') <= l)%nat -> accepted l (eb_log b') = []) /\
  (forall l, (forall ref, eb_subscriptions b !! ref <> Some l) -> eb_heap b' !! l = eb_heap b !! l) /\
  (forall l, l ∈ slow' -> l ∈ slow \/ l ∈ ls).
Proof using StateSinkLaws0.
  intros Hch. revert slow b. induction ls as [|l ls IH]; intros slow b Hsig Hnd Hreg Hlog Hmid.
  { intros [= <- <-]. split_and!; try done. by left. }
  apply NoDup_cons in Hnd as [Hnl Hnd]. cbn [EventBus.fan_all].
  destruct (fan_one v' events changes (slow, b) l) as [[slow1 b1] e] eqn:E. destruct e as [e|]; [done|].
  destruct (Hreg l (list_elem_of_here _ _)) as [ref Href].
  destruct (Hmid ref l Href) as (s & c & hl & Hs & Hr & Hc & Hcr & Hh & [(_ & Hns & Hok)|[Hno _]]); [|exfalso; apply Hno; by left].
  destruct (fan_one_spec v v' hl events changes slow b l s c slow1 b1 Hsig Hs Hc Hch Hok E)
    as ([U1 U2 U3 U4 U5 U6 U7] & s' & c' & Hs' & Hr' & Hk' & Hc' & Hcr' & Hout).
  intros Hrun. destruct (IH slow1 b1) as (I1 & I2 & I3 & I4 & I5 & I6 & I7); [congruence|done| | | |exact Hrun|].
  - intros l' Hl'. rewrite U3. apply Hreg. by right.
  - intros l' Hl'. rewrite U6; [apply Hlog; lia|]. intros ->. apply lookup_lt_Some in Hs. lia.
  - intros ref' l' Hl'. rewrite U3 in Hl'. destruct (decide (l' = l)) as [->|Hne].
    + destruct (Hmid ref' l Hl') as (s0 & c0 & hl0 & Hs0 & Hr0 & Hc0 & Hcr0 & Hh0 & _).
      rewrite Hs in Hs0. injection Hs0 as <-. rewrite Hc in Hc0. injection Hc0 as <-. rewrite Hh in Hh0. injection Hh0 as <-.
      exists s', c', hl. rewrite Hk'. split_and!; [done|congruence|done|congruence|done|]. right. split; [done|].
      destruct Hout as [[-> Ha] | [-> ?]]; [left; split; [|done]|by right]. apply elem_of_app. right. by apply list_elem_of_singleton.
    + destruct (Hmid ref' l' Hl') as (s0 & c0 & hl0 & Hs0 & Hr0 & Hc0 & Hcr0 & Hh0 & Hcase).
      assert (su_connection s0 <> su_connection s) as Hkne.
      { intros Ek. apply Hne. rewrite Ek, Hc in Hc0. injection Hc0 as <-. congruence. }
      exists s0, c0, hl0. rewrite U5, U6, U7 by done. split_and!; try done.
      assert (Hsl : l' ∈ slow1 <-> l' ∈ slow).
      { destruct Hout as [[-> _] | [-> _]]; [|done]. rewrite elem_of_app, list_elem_of_singleton. tauto. }
      rewrite Hsl. destruct Hcase as [([->|Hin]%elem_of_cons & Hs1 & Hso)|[Hno Hso]]; [done|by left|]. right. split; [set_solver|done].
  - split_and!; [done|done|congruence|congruence|done| |].
    + intros l' Hl'. rewrite I6 by (intros r; rewrite U3; apply Hl'). apply U5. intros ->. by destruct (Hl' ref).
    + intros l' [Hl'|Hl']%I7; [|right; by right]. destruct Hout as [[-> _] | [-> _]]; [|by left].
      apply elem_of_app in Hl' as [?| ->%list_elem_of_singleton]; [by left|right; by left].
Qed.

Lemma remove_fields (b : EventBus C) l : eb_signer (remove b l) = eb_signer b /\ eb_closed (remove b l) = eb_closed b /\
  eb_heap (remove b l) = eb_heap b /\ eb_conns (remove b l) = eb_conns b /\ eb_log (remove b l) = eb_log b /\
  (forall ref l', eb_subscriptions (remove b l) !! ref = Some l' -> eb_subscriptions b !! ref = Some l' /\
     (forall s, eb_heap b !! l' = Some s -> su_ref s = ref -> l' <> l)) /\
  (forall ref l', eb_subscriptions b !! ref = Some l' -> l' <> l -> eb_subscriptions (remove b l) !! ref = Some l').
Proof using.
  unfold remove. destruct (eb_heap b !! l) as [s|] eqn:Hs.
  - destruct (bool_decide (eb_subscriptions b !! su_ref s = Some l)) eqn:Hd; cbn; (split_and!; [done..| |]); intros ref l' Hl'; try done.
    + apply lookup_delete_Some in Hl' as [Hne Hl']. split; [done|]. intros s' Hs' Hr ->. congruence.
    + intros Hne. rewrite lookup_delete_ne; [done|]. intros <-. apply bool_decide_eq_true in Hd. congruence.
    + split; [done|]. apply bool_decide_eq_false in Hd. intros s' Hs' Hr ->. rewrite Hs in Hs'. injection Hs' as <-. congruence.
  - (split_and!; [done..| |]); intros ref l' Hl'; [|done]. split; [done|]. intros s' Hs' Hr ->. congruence.
Qed.

Lemma removes_fields ls (b : EventBus C) : let b' := fold_left remove ls b in
  eb_signer b' = eb_signer b /\ eb_closed b' = eb_closed b /\ eb_heap b' = eb_heap b /\ eb_conns b' = eb_conns b /\
  eb_log b' = eb_log b /\
  (forall ref l', eb_subscriptions b' !! ref = Some l' -> eb_subscriptions b !! ref = Some l' /\
     (forall s, eb_heap b !! l' = Some s -> su_ref s = ref -> l' ∉ ls)) /\
  (forall ref l', eb_subscriptions b !! ref = Some l' -> l' ∉ ls -> eb_subscriptions b' !! ref = Some l').
Proof using.
  revert b. induction ls as [|l ls IH]; intros b; cbn [fold_left].
  - (split_and!; [done..| |]); intros ref l' Hl'; [|done]. split; [done|]. intros s _ _ H. by apply elem_of_nil in H.
  - destruct (IH (remove b l)) as (I1 & I2 & I3 & I4 & I5 & I6 & I7).
    destruct (remove_fields b l) as (R1 & R2 & R3 & R4 & R5 & R6 & R7).
    (split_and!; [congruence..| |]); intros ref l' Hl'; [|intros [? ?]%not_elem_of_cons; auto].
    destruct (I6 ref l' Hl') as [J1 J2]. destruct (R6 ref l' J1) as [K1 K2]. split; [done|]. intros s Hs Hr.
    rewrite R3 in J2. intros [->|Hin]%elem_of_cons; [by eapply K2|by eapply J2].
Qed.

Lemma fanout_ok b h v v' events changes slow b' : bus_ok (b, h, v) ->
  (forall u, change_of changes u = Diff u (Some v) (Some v')) -> fanout b v' events changes = (Ok slow, b') ->
  bus_ok (b', (fun hl => hl ++ [LFanout v' events changes]) <$> h, v').
Proof using StateSinkLaws0.
  intros [H1 H2 H3 HS H4] Hch. cbn [fst snd] in *. unfold EventBus.fanout.
  destruct (fan_all v' events changes ([], b) (snapshotSubscriptions b)) as [[sl b1] e] eqn:E.
  destruct e as [e|]; [done|]. intros [= <- <-].
  assert (Hsnap : forall l, l ∈ snapshotSubscriptions b <-> exists ref, eb_subscriptions b !! ref = Some l).
  { intros l. unfold snapshotSubscriptions. destruct (eb_closed b) eqn:Hc.
    - rewrite (H3 eq_refl). split; [by intros ?%elem_of_nil|]. intros [ref Hr]. by rewrite lookup_empty in Hr.
    - unfold sortSubscriptions. rewrite merge_sort_Permutation, list_elem_of_fmap. split.
      + intros ([r l'] & -> & Hin%elem_of_map_to_list). by exists r.
      + intros [r Hr]. exists (r, l). split; [done|]. by apply elem_of_map_to_list. }
  assert (Hnd : NoDup (snapshotSubscriptions b)).
  { unfold snapshotSubscriptions. destruct (eb_closed b); [constructor|]. unfold sortSubscriptions. rewrite merge_sort_Permutation.
    apply NoDup_fmap_2_strong; [|apply NoDup_map_to_list]. intros [r1 l1] [r2 l2] X1%elem_of_map_to_list X2%elem_of_map_to_list.
    cbn. intros ->. destruct (H4 _ _ X1) as (s1 & _ & _ & Y1 & Z1 & _). destruct (H4 _ _ X2) as (s2 & _ & _ & Y2 & Z2 & _).
    rewrite Y1 in Y2. congruence. }
  destruct (fan_all_spec v v' h events changes (snapshotSubscriptions b) [] b sl b1 Hch H1 Hnd) as (M & S1 & S2 & S3 & S4 & S5 & S6);
    [by intros l ?%Hsnap|done| |exact E|].
  { intros ref l Hl. destruct (H4 ref l Hl) as (s & c & hl & A1 & A2 & A3 & A4 & A5). exists s, c, hl.
    split_and!; try done; [rewrite <- A2; apply (so_ref _ _ _ _ _ A5)|]. left. split; [apply Hsnap; eauto|]. split; [by intros ?%elem_of_nil|done]. }
  destruct (removes_fields sl b1) as (R1 & R2 & R3 & R4 & R5 & R6 & R7).
  constructor; cbn [fst snd].
  - congruence.
  - intros l. rewrite R3, R5. apply S4.
  - rewrite R2, S2. intros Hc. apply map_eq. intros ref. rewrite lookup_empty.
    destruct (eb_subscriptions _ !! ref) as [l|] eqn:El; [|done]. apply R6 in El as [El _]. rewrite S3, (H3 Hc) in El.
    by rewrite lookup_empty in El.
  - intros l s. rewrite R3. intros Hs Ha Hp. destruct (decide (l ∈ snapshotSubscriptions b)) as [Hin|Hno].
    + apply Hsnap in Hin as [ref Hl]. rewrite <- S3 in Hl. destruct (M ref l Hl) as (s0 & c & hl & A1 & A2 & A3 & A4 & A5 & Hcase).
      rewrite Hs in A1. injection A1 as <-. rewrite A2. apply R7; [done|]. intros Hsl.
      destruct Hcase as [[Hn _]|[_ [[_ Hf]|[Hns _]]]]; [by apply elem_of_nil in Hn|congruence|done].
    + rewrite S5 in Hs by (intros r Hr; apply Hno, Hsnap; eauto). exfalso. apply Hno, Hsnap. eauto.
  - intros ref l Hl. apply R6 in Hl as [Hl Hnot]. destruct (M ref l Hl) as (s & c & hl & A1 & A2 & A3 & A4 & A5 & Hcase).
    exists s, c, (hl ++ [LFanout v' events changes]). rewrite R3, R4, R5, lookup_fmap, A5. split_and!; try done.
    destruct Hcase as [[Hn _]|[_ [[Hs _]|[_ ?]]]]; [by apply elem_of_nil in Hn|by destruct (Hnot s A1 A2)|done].
Qed.

(** ** The other operations *)

(** An operation that touches one unregistered or newly unregistered subscription. *)
Lemma frame_ok b b' h v l : bus_ok (b, h, v) -> eb_signer b' = eb_signer b -> eb_closed b' = eb_closed b ->
  length (eb_heap b') = length (eb_heap b) -> (forall l', accepted l' (eb_log b') = accepted l' (eb_log b)) ->
  eb_conns b' = eb_conns b -> (forall l', l' <> l -> eb_heap b' !! l' = eb_heap b !! l') ->
  (forall ref l', eb_subscriptions b' !! ref = Some l' -> eb_subscriptions b !! ref = Some l' /\ l' <> l) ->
  (forall ref l', eb_subscriptions b !! ref = Some l' -> l' <> l -> eb_subscriptions b' !! ref = Some l') ->
  (forall s, eb_heap b' !! l = Some s -> su_active s = true -> su_phase s = eventSubscriptionSyncing -> False) ->
  bus_ok (b', h, v).
Proof using.
  intros [H1 H2 H3 HS H4] E1 E2 E3 E4 E5 E6 E7 E8 E9. cbn [fst snd] in *. constructor; cbn [fst snd].
  - congruence.
  - intros l' Hl'. rewrite E4. apply H2. lia.
  - rewrite E2. intros Hc. apply map_eq. intros ref. rewrite lookup_empty. destruct (eb_subscriptions b' !! ref) as [l'|] eqn:El; [|done].
    apply E7 in El as [El _]. rewrite (H3 Hc), lookup_empty in El. done.
  - intros l' s Hs Ha Hp. destruct (decide (l' = l)) as [->|Hne]; [by destruct (E9 s)|]. rewrite E6 in Hs by done. apply E8; auto.
  - intros ref l' Hl'. apply E7 in Hl' as [Hl' Hne]. rewrite E6, E4, E5 by done. apply H4. done.
Qed.

Lemma begin_ok b h v k c l b' : bus_ok (b, h, v) -> eb_conns b !! k = Some c ->
  Forall (fun i => qi_Policy i <> StateDeliveryVisibleAfter) (queued c) -> beginSync b k v = (Ok l, b') ->
  bus_ok (b', <[l := []]> h, v).
Proof using.
  intros [H1 H2 H3 HS H4] Hc Hq. cbn [fst snd] in *. unfold beginSync. rewrite Hc. destruct (negb _); [done|].
  destruct (eb_closed b) eqn:Hcl; [done|]. destruct (eb_subscriptions b !! ControlRef c) as [|] eqn:Hnone; [done|].
  match goal with |- context [with_heap b (_ ++ [?x])] => remember x as s0 eqn:Es0 end.
  intros [= <- <-]. assert (Hold : forall ref l', eb_subscriptions b !! ref = Some l' -> (l' < length (eb_heap b))%nat).
  { intros ref l' Hl'. destruct (H4 _ _ Hl') as (s & _ & _ & Hs & _). by eapply lookup_lt_Some. }
  constructor; cbn [fst snd with_subs with_heap eb_signer eb_closed eb_subscriptions eb_heap eb_conns eb_log]; try done.
  - intros l' Hl'. apply H2. rewrite length_app in Hl'. lia.
  - congruence.
  - intros l' s Hs Ha Hp. apply lookup_snoc_Some in Hs as [[Hlt Hs]|[-> <-]]; [|rewrite Es0; by rewrite lookup_insert_eq].
    specialize (HS l' s Hs Ha Hp). rewrite lookup_insert_ne by congruence. done.
  - intros ref l' Hl'. apply lookup_insert_Some in Hl' as [[<- <-]|[Hne Hl']].
    + exists s0, c, []. rewrite lookup_insert_eq, (list_lookup_middle _ []) by done. rewrite Es0. cbn [su_ref su_connection].
      split_and!; try done. rewrite H2 by lia. constructor; try done. split; [|done]. cbn [su_pending app]. eapply Forall_impl; [exact Hq|].
      intros i Hi Hv. done.
    + destruct (H4 ref l' Hl') as (s & c' & hl & Hs & Hr). exists s, c', hl. pose proof (Hold _ _ Hl').
      rewrite lookup_app_l, lookup_insert_ne by lia. done.
Qed.

(** A completion that finds nothing to complete. *)
Lemma complete_idle b h v l frames : bus_ok (b, h, v) ->
  (forall s, eb_heap b !! l = Some s -> su_active s = true -> su_phase s = eventSubscriptionLive) ->
  bus_ok (b, alter (fun hl => hl ++ [LComplete frames]) l h, v).
Proof using.
  intros [H1 H2 H3 HS H4] Hl. cbn [fst snd] in *. constructor; cbn [fst snd]; try done. intros ref l' Hl'.
  destruct (H4 ref l' Hl') as (s & c & hl & A1 & A2 & A3 & A4 & A5). destruct (decide (l' = l)) as [->|Hne].
  - exists s, c, (hl ++ [LComplete frames]). rewrite lookup_alter_eq, A4. split_and!; try done. destruct A5 as [B1 B2 B3 B4 B5].
    constructor; try done. unfold delivered in *. rewrite (Hl s A1 B1) in *. destruct B3 as (h1 & fr & h2 & ep & -> & ->).
    exists h1, fr, (h2 ++ [LComplete frames]), ep. split; [by rewrite <- app_assoc|]. rewrite omap_app. cbn. by rewrite app_nil_r.
  - exists s, c, hl. by rewrite lookup_alter_ne.
Qed.

(** Histories of unregistered subscriptions do not matter. *)
Lemma history_frame b h v l f : bus_ok (b, h, v) -> (forall ref, eb_subscriptions b !! ref <> Some l) ->
  bus_ok (b, alter f l h, v).
Proof using.
  intros [I1 I2 I3 IS I4] Hno. constructor; try done. intros ref l' Hl'.
  destruct (I4 ref l' Hl') as (s & c & hl & A1 & A2 & A3 & A4 & A5). exists s, c, hl. cbn [fst snd] in *.
  rewrite lookup_alter_ne; [done|]. intros ->. by eapply Hno.
Qed.

Lemma other_connection v v' hl hl' s s' calls calls' c c' : sub_ok v hl s calls c -> sub_ok v' hl' s' calls' c' ->
  su_ref s <> su_ref s' -> c <> c'.
Proof using. intros H H' Hne ->. apply Hne. by rewrite <- (so_ref _ _ _ _ _ H), <- (so_ref _ _ _ _ _ H'). Qed.

(** The end of a subscription whose connection may have been called, but
    accepted nothing. *)
Lemma retire_ok b b1 h v l s c hl : bus_ok (b, h, v) -> eb_heap b !! l = Some s ->
  eb_subscriptions b !! su_ref s = Some l -> eb_conns b !! su_connection s = Some c -> sub_ok v hl s (accepted l (eb_log b)) c ->
  eb_signer b1 = eb_signer b -> eb_closed b1 = eb_closed b -> eb_heap b1 = eb_heap b ->
  eb_subscriptions b1 = eb_subscriptions b -> (forall k, k <> su_connection s -> eb_conns b1 !! k = eb_conns b !! k) ->
  (forall l', accepted l' (eb_log b1) = accepted l' (eb_log b)) ->
  let b2 := log_call (remove (put_sub b1 l (retire s)) l) (CallSlow (su_connection s)) in
  bus_ok (b2, h, v) /\ forall ref, eb_subscriptions b2 !! ref <> Some l.
Proof using.
  intros Hok Hs Hreg A3 A5 E1 E2 E3 E4 E5 E6 b2. pose proof Hok as [H1 H2 H3 HS H4]. cbn [fst snd] in *.
  pose proof (lookup_lt_Some _ _ _ Hs) as Hlt.
  destruct (remove_fields (put_sub b1 l (retire s)) l) as (R1 & R2 & R3 & R4 & R5 & R6 & R7).
  assert (Hgone : forall ref l', eb_subscriptions b2 !! ref = Some l' -> eb_subscriptions b !! ref = Some l' /\ l' <> l).
  { intros ref l' Hl'. apply R6 in Hl' as [Hl' Hno]. cbn [put_sub with_heap eb_subscriptions eb_heap] in *. rewrite E4 in Hl'.
    split; [done|]. intros ->. destruct (H4 ref l Hl') as (s1 & _ & _ & Y1 & Y2 & _). rewrite Hs in Y1. injection Y1 as <-.
    apply (Hno (retire s)); [apply list_lookup_insert_eq; rewrite E3; done|done|done]. }
  split; [|intros ref Hl'; by apply Hgone in Hl' as [_ []]].
  constructor; cbn [fst snd]; unfold b2; cbn [log_call eb_signer eb_closed eb_heap eb_conns eb_log].
  - rewrite R1. cbn. congruence.
  - intros l'. rewrite R3, R5, accepted_snoc. cbn [call_of option_list put_sub with_heap eb_heap eb_log].
    rewrite app_nil_r, length_insert, E6, E3. apply H2.
  - rewrite R2. cbn. rewrite E2. intros Hc. apply map_eq. intros ref. rewrite lookup_empty. fold b2.
    change (eb_subscriptions b2 !! ref = None). destruct (eb_subscriptions b2 !! ref) as [l'|] eqn:El; [|done].
    apply Hgone in El as [El _]. by rewrite (H3 Hc), lookup_empty in El.
  - intros l' s' Hs' Ha' Hp'. rewrite R3 in Hs'. cbn [put_sub with_heap eb_heap] in Hs'. destruct (decide (l' = l)) as [->|Hne].
    + rewrite list_lookup_insert_eq in Hs' by (rewrite E3; done). by injection Hs' as <-.
    + rewrite list_lookup_insert_ne, E3 in Hs' by done. apply R7; [|done]. cbn. rewrite E4. by apply HS.
  - intros ref l' Hl'. apply Hgone in Hl' as [Hl' Hne]. destruct (H4 ref l' Hl') as (s1 & c1 & hl1 & Y1 & Y2 & Y3 & Y4 & Y5).
    exists s1, c1, hl1. rewrite R3, R4, R5, accepted_snoc. cbn [call_of option_list put_sub with_heap eb_heap eb_conns eb_log].
    rewrite app_nil_r, list_lookup_insert_ne, E3, E6, E5; try done. intros Ek. rewrite Ek, A3 in Y3. injection Y3 as <-.
    eapply (other_connection _ _ _ _ s s1); [exact A5|exact Y5| |done]. intros Er. apply Hne. congruence.
Qed.

(** The replay-to-live handoff. *)
Lemma completed_ok v hl s calls c c' frames : sub_ok v hl s calls c -> su_phase s = eventSubscriptionSyncing ->
  ControlRef c' = ControlRef c ->
  queued c' = queued c ++ controlQueueItems frames (su_ref s) (su_visibilityEpoch s) ++ cloneStateQueueItems (su_pending s) ->
  sub_ok v (hl ++ [LComplete frames]) (with_pending (with_phase s eventSubscriptionLive) [] 0)
    (calls ++ [([], controlQueueItems frames (su_ref s) (su_visibilityEpoch s) ++ cloneStateQueueItems (su_pending s))]) c'.
Proof using.
  intros [B1 B2 B3 B4 [P1 P2]] Hp Hr Hq. unfold delivered in B3. rewrite Hp in B3. destruct B3 as [-> B3].
  constructor; cbn [with_pending with_phase su_active su_ref]; [done|congruence| |done|].
  - exists hl, frames, [], (su_visibilityEpoch s). split; [done|]. cbn [app with_pending with_phase su_ref omap list_omap].
    unfold cloneStateQueueItems. by rewrite B3.
  - split; [|done]. cbn [with_pending with_phase su_pending su_ref app]. rewrite Hq. apply Forall_app in P1 as [P1 P1'].
    apply Forall_app. split; [done|]. apply Forall_app. split; [|done]. apply Forall_fmap, Forall_forall. intros x _ Hx. done.
Qed.

Lemma complete_ok b h v l frames e b' : bus_ok (b, h, v) -> completeSync b l frames = (e, b') ->
  bus_ok (b', alter (fun hl => hl ++ [LComplete frames]) l h, v).
Proof using StateSinkLaws0.
  intros Hok. pose proof Hok as [H1 H2 H3 HS H4]. cbn [fst snd] in *. unfold completeSync.
  destruct (eb_heap b !! l) as [s|] eqn:Hs; [|intros [= <- <-]; apply complete_idle; [done|congruence]].
  destruct (su_active s) eqn:Ha; cbn [negb orb]; [|intros [= <- <-]; apply complete_idle; [done|congruence]].
  destruct (su_phase s) eqn:Hp; [|rewrite bool_decide_eq_false_2 by done; intros [= <- <-]; apply complete_idle; [done|congruence]].
  rewrite bool_decide_eq_true_2 by done. cbn [negb].
  specialize (HS l s Hs Ha Hp). destruct (H4 _ _ HS) as (s0 & c & hl & A1 & _ & A3 & A4 & A5).
  rewrite Hs in A1. injection A1 as <-. pose proof (lookup_lt_Some _ _ _ Hs) as Hlt.
  destruct (stateItemBatchWithinLimits _).
  2: { intros [= <- <-]. by destruct (retire_ok b b h v l s c hl) as [? ?]; [..|by apply history_frame]. }
  destruct (apply_conn b l s [] _) as [ok b1] eqn:Hap. destruct (apply_conn_spec _ _ _ _ _ _ _ _ A3 Hap) as (c' & -> & Hr & Hq).
  match goal with |- context [CallApply l _ [] ?i ok] => pose proof (untouched_conn l (su_connection s) b c' [] i ok) as [U1 U2 U3 U4 U5 U6 U7] end.
  destruct ok; intros [= <- <-]; cbn [negb].
  2: { match goal with |- bus_ok (log_call (remove (put_sub ?x _ _) _) _, _, _) => destruct (retire_ok b x h v l s c hl) as [? ?] end;
         [done..| |by apply history_frame].
       intros l'. destruct (decide (l' = l)) as [->|]; [|by apply U6]. cbn [eb_log]. rewrite accepted_snoc. cbn. by rewrite app_nil_r. }
  specialize (Hq eq_refl). rewrite prune_nil in Hq.
  constructor; cbn [fst snd put_sub with_heap eb_signer eb_closed eb_subscriptions eb_heap eb_conns eb_log]; try done.
  - intros l'. rewrite length_insert. intros Hl'. rewrite U6 by lia. by apply H2.
  - intros l' s' Hs' Ha' Hp'. destruct (decide (l' = l)) as [->|Hne].
    + rewrite list_lookup_insert_eq in Hs' by done. by injection Hs' as <-.
    + rewrite list_lookup_insert_ne in Hs' by done. by apply (bo_syncing _ Hok).
  - intros ref l' Hl'. destruct (H4 ref l' Hl') as (s1 & c1 & hl1 & Y1 & Y2 & Y3 & Y4 & Y5). destruct (decide (l' = l)) as [->|Hne].
    + rewrite Hs in Y1. injection Y1 as <-.
      exists (with_pending (with_phase s eventSubscriptionLive) [] 0), c', (hl ++ [LComplete frames]).
      rewrite list_lookup_insert_eq by done. cbn [with_pending with_phase su_ref su_connection].
      rewrite lookup_insert_eq, lookup_alter_eq, A4. split_and!; try done. cbn [eb_log]. rewrite accepted_snoc. cbn [call_of].
      rewrite decide_True by done. by apply completed_ok with c.
    + exists s1, c1, hl1. rewrite list_lookup_insert_ne, U6, lookup_alter_ne by done. rewrite lookup_insert_ne; [done|]. intros Ek.
      rewrite <- Ek, A3 in Y3. injection Y3 as <-. eapply (other_connection _ _ _ _ s s1); [exact A5|exact Y5| |done]. congruence.
Qed.

Lemma abort_ok b h v l : bus_ok (b, h, v) -> bus_ok (abortSync b l, h, v).
Proof using.
  intros Hok. pose proof Hok as [H1 H2 H3 HS H4]. cbn [fst snd] in *. unfold abortSync.
  destruct (eb_heap b !! l) as [s|] eqn:Hs; [|done]. pose proof (lookup_lt_Some _ _ _ Hs) as Hlt.
  set (s' := if bool_decide _ then retire s else s).
  assert (Hs' : su_ref s' = su_ref s /\ (su_active s' = true -> su_phase s' = eventSubscriptionSyncing -> False)).
  { unfold s'. destruct (bool_decide _) eqn:E; [done|]. apply bool_decide_eq_false in E. done. }
  destruct (remove_fields (put_sub b l s') l) as (R1 & R2 & R3 & R4 & R5 & R6 & R7).
  apply (frame_ok b _ h v l Hok); rewrite ?R1, ?R2, ?R3, ?R4, ?R5; cbn [put_sub with_heap eb_heap]; try done.
  - by rewrite length_insert.
  - intros l' Hne. by rewrite list_lookup_insert_ne.
  - intros ref l' Hl'. apply R6 in Hl' as [Hl' Hno]. split; [done|]. intros ->. cbn in Hl'.
    destruct (H4 ref l Hl') as (s1 & _ & _ & Y1 & Y2 & _). rewrite Hs in Y1. injection Y1 as <-.
    apply (Hno s'); [by apply list_lookup_insert_eq|by destruct Hs' as [-> _]|done].
  - intros s1. rewrite list_lookup_insert_eq by done. intros [= <-]. apply Hs'.
Qed.

Lemma unsubscribe_ok b h v ref : bus_ok (b, h, v) -> bus_ok (unsubscribe b ref, h, v).
Proof using.
  intros Hok. pose proof Hok as [H1 H2 H3 HS H4]. cbn [fst snd] in *. unfold unsubscribe. destruct (negb _); [done|].
  destruct (eb_subscriptions b !! ref) as [l|] eqn:Hl; [|done]. destruct (H4 ref l Hl) as (s & _ & _ & Hs & Hr & _).
  pose proof (lookup_lt_Some _ _ _ Hs) as Hlt. cbn [with_subs eb_heap]. rewrite Hs.
  apply (frame_ok b _ h v l Hok); cbn [put_sub with_heap with_subs eb_signer eb_closed eb_subscriptions eb_heap eb_conns eb_log]; try done.
  - by rewrite length_insert.
  - intros l' Hne. by rewrite list_lookup_insert_ne.
  - intros ref' l' [Hne Hl']%lookup_delete_Some. split; [done|]. intros ->.
    destruct (H4 ref' l Hl') as (s1 & _ & _ & Y1 & Y2 & _). congruence.
  - intros ref' l' Hl' Hne. rewrite lookup_delete_ne; [done|]. intros <-. congruence.
  - intros s1. rewrite list_lookup_insert_eq by done. by intros [= <-].
Qed.

Definition retire_at (b : EventBus C) (l : nat) : EventBus C :=
  match eb_heap b !! l with Some s => put_sub b l (retire s) | None => b end.

Lemma retire_all ls (b : EventBus C) : let b' := fold_left retire_at ls b in
  eb_signer b' = eb_signer b /\ eb_closed b' = eb_closed b /\ eb_subscriptions b' = eb_subscriptions b /\
  eb_log b' = eb_log b /\ length (eb_heap b') = length (eb_heap b) /\
  (forall l s, eb_heap b' !! l = Some s -> su_active s = true -> eb_heap b !! l = Some s /\ l ∉ ls).
Proof using.
  revert b. induction ls as [|l ls IH]; intros b; cbn [fold_left].
  - split_and!; try done. intros l s Hs Ha. split; [done|]. by intros ?%elem_of_nil.
  - destruct (IH (retire_at b l)) as (I1 & I2 & I3 & I4 & I5 & I6). unfold retire_at in *.
    destruct (eb_heap b !! l) as [s0|] eqn:Hs0.
    + cbn [put_sub with_heap eb_signer eb_closed eb_subscriptions eb_heap eb_log] in *. rewrite length_insert in I5.
      split_and!; try done. intros l' s Hs Ha. destruct (I6 l' s Hs Ha) as [J1 J2]. apply list_lookup_insert_Some in J1 as [(<- & <- & _)|[Hne J1]]; [done|].
      split; [done|]. by intros [->|?]%elem_of_cons.
    + split_and!; try done. intros l' s Hs Ha. destruct (I6 l' s Hs Ha) as [J1 J2]. split; [done|].
      intros [->|?]%elem_of_cons; [congruence|done].
Qed.

Lemma close_ok b h v : bus_ok (b, h, v) -> bus_ok (Close b, h, v).
Proof using.
  intros Hok. pose proof Hok as [H1 H2 H3 HS H4]. cbn [fst snd] in *. unfold Close, snapshotAndClose.
  destruct (eb_closed b) eqn:Hc; [done|]. fold retire_at.
  match goal with |- bus_ok (fold_left _ ?ls ?x, _, _) => destruct (retire_all ls x) as (R1 & R2 & R3 & R4 & R5 & R6) end.
  cbn [eb_signer eb_closed eb_subscriptions eb_heap eb_log] in *.
  constructor; cbn [fst snd]; [congruence| |done| |].
  - intros l. rewrite R4, R5. apply H2.
  - intros l s Hs Ha Hp. exfalso. destruct (R6 l s Hs Ha) as [Hs' Hno]. apply Hno. specialize (HS l s Hs' Ha Hp).
    apply list_elem_of_fmap. exists (su_ref s, l). split; [done|]. unfold sortSubscriptions. rewrite merge_sort_Permutation.
    by apply elem_of_map_to_list.
  - intros ref l. rewrite R3, lookup_empty. done.
Qed.

Lemma writer_ok b h v k c c' : bus_ok (b, h, v) -> eb_conns b !! k = Some c -> ControlRef c' = ControlRef c ->
  (forall i, i ∈ queued c' -> i ∈ queued c \/ qi_Policy i <> StateDeliveryVisibleAfter) -> bus_ok (set_conn b k c', h, v).
Proof using.
  intros [H1 H2 H3 HS H4] Hc Hr Hq. constructor; try done. intros ref l Hl.
  destruct (H4 ref l Hl) as (s & c0 & hl & A1 & A2 & A3 & A4 & A5). cbn [fst snd set_conn eb_heap eb_conns eb_log] in *.
  destruct (decide (su_connection s = k)) as [<-|Hne]; [|exists s, c0, hl; by rewrite lookup_insert_ne].
  rewrite Hc in A3. injection A3 as <-. exists s, c', hl. rewrite lookup_insert_eq. split_and!; try done.
  destruct A5 as [B1 B2 B3 B4 [P1 P2]]. constructor; [done|congruence|done|done|].
  apply Forall_app in P1 as [P1 P1']. rewrite Forall_forall in P1'. split.
  - apply Forall_app. split; [done|]. apply Forall_forall. intros i [Hi|Hi]%Hq; [by apply P1'|intros Hv; congruence].
  - intros Hp. specialize (P2 Hp). rewrite Forall_forall in P2. apply Forall_forall. intros i [Hi|Hi]%Hq; auto.
Qed.

Lemma slow_ok b h v k : bus_ok (b, h, v) -> bus_ok (log_call b (CallSlow k), h, v).
Proof using.
  intros [H1 H2 H3 HS H4]. assert (Ha : forall l, accepted l (eb_log b ++ [CallSlow k]) = accepted l (eb_log b)).
  { intros l. rewrite accepted_snoc. cbn. by rewrite app_nil_r. }
  constructor; cbn [fst snd log_call eb_signer eb_closed eb_subscriptions eb_heap eb_conns eb_log] in *; try done.
  - intros l. rewrite Ha. apply H2.
  - intros ref l. rewrite Ha. apply H4.
Qed.

Lemma bus_step_ok y y' : bus_step y y' -> bus_ok y -> bus_ok y'.
Proof using StateSinkLaws0.
  intros []; eauto using begin_ok, complete_ok, abort_ok, unsubscribe_ok, close_ok, fanout_ok, writer_ok, slow_ok.
Qed.

Lemma bus_reachable_ok conns v0 y : rtc bus_step (NewEventBus signer conns, ∅, v0) y -> bus_ok y.
Proof using StateSinkLaws0.
  intros Hr. remember (NewEventBus signer conns, ∅, v0) as y0. assert (H0 : bus_ok y0).
  { subst. by constructor. }
  clear Heqy0. induction Hr; eauto using bus_step_ok.
Qed.

(** ** Theorems *)

(** The replay-to-live handoff loses, repeats and reorders nothing.  Whatever
    publications, sync attempts, disconnects, shutdown and writers interleave, a
    registered connection has accepted exactly what its history owes it: before
    its handoff nothing, everything published since its registration being
    pending in order; after it, one batch with the replay frames followed by that
    pending work, and then each later publication's batch, in order. *)
Theorem handoff_seamless conns v0 b h v ref l :
  rtc bus_step (NewEventBus signer conns, ∅, v0) (b, h, v) -> eb_subscriptions b !! ref = Some l ->
  exists s hl, eb_heap b !! l = Some s /\ su_ref s = ref /\ su_active s = true /\ h !! l = Some hl /\
  match su_phase s with
  | eventSubscriptionSyncing => accepted l (eb_log b) = [] /\ su_pending s = pending_of ref hl
  | eventSubscriptionLive => su_pending s = [] /\ exists h1 frames h2 epoch, hl = h1 ++ LComplete frames :: h2 /\
      accepted l (eb_log b) = ([], controlQueueItems frames ref epoch ++ pending_of ref h1) :: omap (batch ref) h2
  end.
Proof using StateSinkLaws0.
  intros Hr Hl. destruct (bo_registered _ (bus_reachable_ok _ _ _ Hr) ref l Hl) as (s & c & hl & A1 & <- & _ & A4 & [B1 _ B3 B4 _]).
  exists s, hl. split_and!; try done. unfold delivered in B3. destruct (su_phase s) eqn:Hp; [done|]. split; [|done]. by apply B4.
Qed.

(** C5: A revoked scope is gone at once.  In every reachable state, nothing a
    registered connection has pending or queued is an ordinary event of a group
    or channel its user cannot see in the version published last; and what is
    pending is within 256 items and 1 MiB, its byte count exact. *)
Theorem queued_visible_and_bounded conns v0 b h v ref l :
  rtc bus_step (NewEventBus signer conns, ∅, v0) (b, h, v) -> eb_subscriptions b !! ref = Some l ->
  exists s c, eb_heap b !! l = Some s /\ eb_conns b !! su_connection s = Some c /\ ControlRef c = ref /\
  (forall i, i ∈ su_pending s ++ queued c -> qi_Policy i = StateDeliveryVisibleAfter -> resource (qi_Scope i) ->
     qi_Scope i ∈ VisibleScopeIDs (r_UserID ref) (Some v)) /\
  su_pendingBytes s = stateQueueItemBytes (su_pending s) /\ len (su_pending s) <= 256 /\ su_pendingBytes s <= 1048576.
Proof using StateSinkLaws0.
  intros Hr Hl. destruct (bo_registered _ (bus_reachable_ok _ _ _ Hr) ref l Hl)
    as (s & c & hl & A1 & <- & A3 & _ & [_ B2 _ (B4 & B5 & B6 & _) [B7 _]]).
  exists s, c. split_and!; try done. intros i Hi. by apply (proj1 (Forall_forall _ _) B7).
Qed.

(** Aborting an attempt that already completed: the subscription stays active
    but leaves the registry, so no later publication reaches it. *)
Lemma abort_unregisters_live (b : EventBus C) l s : eb_heap b !! l = Some s -> su_phase s = eventSubscriptionLive ->
  eb_subscriptions b !! su_ref s = Some l ->
  eb_heap (abortSync b l) !! l = Some s /\ eb_subscriptions (abortSync b l) !! su_ref s = None.
Proof using.
  intros Hs Hp Hl. pose proof (lookup_lt_Some _ _ _ Hs) as Hlt. unfold abortSync. rewrite Hs, Hp.
  rewrite bool_decide_eq_false_2 by done. unfold remove. cbn [put_sub with_heap eb_heap eb_subscriptions].
  rewrite list_lookup_insert_eq by done. rewrite bool_decide_eq_true_2 by done. cbn. split; [|apply lookup_delete_eq].
  by rewrite list_insert_id.
Qed.

End Bus.

Lemma Diff_same u v : Diff u v v = mkChange [] [].
Proof.
  assert (H : forall S : gset Scope, filter (fun s => s ∉ S) (elements S) = []).
  { intros S. destruct (filter _ _) as [|x l] eqn:E; [done|]. exfalso.
    assert (Hx : x ∈ filter (fun s => s ∉ S) (elements S)) by (rewrite E; by left).
    by apply list_elem_of_filter in Hx as [Hn Hx%elem_of_elements]. }
  unfold Diff. by rewrite !H.
Qed.

(** A concrete run: a connection registers, an event for its user is published
    during the replay, and the handoff follows. *)
#[local] Instance ex_prims : Cursor.CursorPrims := {
  Cursor.payload_Marshal := fun _ => Some []; Cursor.payload_Unmarshal := fun _ => None; Cursor.hmac_sha256 := fun _ _ => [];
  Cursor.b64_Encode := fun _ => "c"; Cursor.b64_Decode := fun _ => None }.

Definition ex_ref : ControlConnectionRef := mkRef [1] 7 1 1.
Definition ex_connection : webSocketSyncConnection := mkConnection ex_ref false newWebSocketStateLane.
Definition ex_event : StateEvent :=
  mkEvent 1 "presence.updated" (mkScope "server" 0) 0 0 (Some [1]) StateDeliveryUserTargeted [] 7 0 0 false [] None [].
Definition ex_signer : Cursor.CursorSigner := Cursor.mkSigner EmptyString [].
Definition ex_fanout (b : EventBus webSocketSyncConnection) :=
  fanout (fun _ => true) (fun _ => Some [9]) (fun _ => None) b ex_version [ex_event] ∅.

Definition ex_b0 : EventBus webSocketSyncConnection := NewEventBus ex_signer {[0%nat := ex_connection]}.
Definition ex_b1 := (beginSync ex_b0 0 ex_version).2.
Definition ex_b2 := (ex_fanout ex_b1).2.
Definition ex_b3 := (completeSync ex_b2 0 [[5]]).2.

Lemma by_fst {A B} (p : A * B) a : p.1 = a -> p = (a, p.2).
Proof. by destruct p; intros <-. Qed.

Lemma bus_run : rtc (bus_step (fun _ => true) (fun _ => Some [9]) (fun _ => None))
  (ex_b0, ∅, ex_version)
  (ex_b3, alter (fun hl => hl ++ [LComplete [[5]]]) 0%nat ((fun hl => hl ++ [LFanout ex_version [ex_event] ∅]) <$> <[0%nat := []]> ∅), ex_version).
Proof.
  apply rtc_l with (ex_b1, <[0%nat := []]> ∅, ex_version).
  { apply (bs_begin _ _ _ ex_b0 ∅ ex_version 0%nat ex_connection); [by vm_compute|constructor|apply by_fst; by vm_compute]. }
  apply rtc_l with (ex_b2, (fun hl => hl ++ [LFanout ex_version [ex_event] ∅]) <$> <[0%nat := []]> ∅, ex_version).
  { apply (bs_fanout _ _ _ ex_b1 _ ex_version ex_version [ex_event] ∅ []); [apply (by_fst (ex_fanout ex_b1)); by vm_compute|].
    intros u. by rewrite Diff_same. }
  apply rtc_once. apply (bs_complete _ _ _ ex_b2 _ _ 0%nat [[5]] None). apply by_fst. by vm_compute.
Qed.

Lemma handoff_seamless_witness : eb_subscriptions ex_b3 !! ex_ref = Some 0%nat /\
  exists s, eb_heap ex_b3 !! 0%nat = Some s /\ su_phase s = eventSubscriptionLive /\ su_pending s = [].
Proof.
  split; [by vm_compute|].
  destruct (handoff_seamless (fun _ => true) (fun _ => Some [9]) (fun _ => None) ex_signer _ _ _ _ _ ex_ref 0%nat bus_run) as (s & hl & H1 & _ & _ & _ & H2);
    [by vm_compute|]. exists s. split; [done|]. vm_compute in H1. injection H1 as <-. cbn in H2 |- *. split; [done|apply H2].
Defined.

Lemma queued_visible_and_bounded_witness : exists s, eb_heap ex_b3 !! 0%nat = Some s /\ len (su_pending s) <= 256.
Proof.
  destruct (queued_visible_and_bounded (fun _ => true) (fun _ => Some [9]) (fun _ => None) ex_signer _ _ _ _ _ ex_ref 0%nat bus_run)
    as (s & c & H1 & _ & _ & _ & _ & H2 & _); [by vm_compute|]. exact (ex_intro _ s (conj H1 H2)).
Defined.

End EventBusProps.
