(* ===== verification/Publication.v ===== *)
(** * Publication: the state commit boundary ([realtime/publication.go])

    One publication turns a candidate into the current version, appends its
    events to the ring, raises the visibility epochs of the users it affects and
    fans the events out, all under one lock.  A reservation holds that lock from
    the moment the result is computed until it is published or aborted.

    A published version is identified by the number of publications before it
    ([pb_pointer]), which stands for its address: a candidate is stale when its
    base is not the current version.  The JSON encoders and SHA-256 are
    arguments.  A runtime commit acts on a world of any type; the test hooks and
    the latency gauge are left out. *)

From S2P Require Import Prelude State StateRing Visibility Cursor Snapshot Lane Connection EventBus EventBusProps.
From stdpp Require Import base gmap strings list sorting relations pretty.
From Stdlib Require Import ZArith Lia.
#[local] Open Scope string_scope.
#[local] Open Scope list_scope.
#[local] Open Scope Z_scope.

Module Publication.
Import State StateRing Visibility Snapshot EventBus.

(** [ErrMarshal]: a failed [json.Marshal]; [ErrCanceled]: the context's error;
    [ErrRuntime]: the runtime commit's; [ErrAppend] and [ErrFanout]: those of the
    ring and of the event bus, returned as they are. *)
Inductive PublicationError :=
  | ErrInvalidPublication | ErrStaleStateCandidate | ErrMarshal | ErrCanceled | ErrRuntime
  | ErrAppend (e : RingError) | ErrFanout (e : BusError).
(** How a runtime commit fails: with an error that is a cancellation, or another. *)
Inductive CommitError := CommitCanceled | CommitFailed.
Definition commit_error (e : CommitError) : PublicationError := match e with CommitCanceled => ErrCanceled | CommitFailed => ErrRuntime end.

(** The encoders of the visibility transition documents, and SHA-256. *)
Class PublicationPrims := {
  json_scope : eventScope -> option bytes;
  json_fragment : string -> eventScope -> Z -> Z -> bytes -> option bytes;
  json_digest : string -> option bytes;
  json_group : SnapshotGroup -> list string -> option bytes;
  json_channel : option SnapshotGroup -> SnapshotChannel -> list SnapshotVoiceMembership -> option bytes;
  sha256 : string -> bytes;
  role_grants : string -> option (gmap string (list string));
  server_version : string
}.

Record PublicationResult := mkResult {
  pu_Version : StateVersion; pu_Checkpoint : Checkpoint; pu_Events : list StateEvent;
  pu_VisibilityChanges : gmap Z VisibilityChange
}.

(** Copies of values are the values. *)
Definition cloneVisibilityChanges (changes : gmap Z VisibilityChange) : gmap Z VisibilityChange := changes.
Definition clonePublicationResult (r : PublicationResult) : PublicationResult :=
  mkResult (pu_Version r) (pu_Checkpoint r) (cloneStateEvents (pu_Events r)) (cloneVisibilityChanges (pu_VisibilityChanges r)).

(** ** Visibility transitions *)

Fixpoint dedup_sorted (last : Z) (ids : list Z) : list Z :=
  match ids with
  | [] => []
  | id :: ids => if id =? last then dedup_sorted last ids else id :: dedup_sorted id ids
  end.
Definition sortedUniqueUserIDs (userIDs : list Z) : list Z :=
  match sort_by id userIDs with [] => [] | first :: rest => first :: dedup_sorted first rest end.

(** One user of [visibilityChanges]. *)
Definition change_user (before after : StateVersion) (acc : gmap Z VisibilityChange * gmap Z Z) (userID : Z)
  : result (gmap Z VisibilityChange * gmap Z Z) PublicationError :=
  let '(changes, epochs) := acc in
  if userID <=? 0 then Err ErrInvalidPublication
  else
    let change := Diff userID (Some before) (Some after) in
    if negb (Changed change) then Ok (changes, epochs)
    else Ok (<[userID := change]> changes, <[userID := u64 (VisibilityEpoch before userID + 1)]> epochs).

Definition visibilityChanges (before after : StateVersion) (userIDs : list Z)
  : result (gmap Z VisibilityChange * gmap Z Z) PublicationError :=
  foldM (change_user before after) (∅, ∅) (sortedUniqueUserIDs userIDs).

Definition directTransitionTemplate (eventType : string) (scope : Scope) (userID epoch causationID : Z) (data : option bytes)
  : StateEventTemplate :=
  mkTemplate eventType scope causationID data StateDeliveryDirectTransition [] userID 0 epoch true.

Definition joinStrings (values : list string) : string := foldr String.append EmptyString values.

Definition newline : string := String (Ascii.ascii_of_nat 10) EmptyString.

Definition fragment_error (e : FragmentError) : PublicationError :=
  match e with
  | FragmentTooLarge => ErrAppend ErrStateEventTooLarge
  | FragmentEncode => ErrMarshal
  | FragmentMissing => ErrInvalidPublication
  end.

Definition complete_type : string := "visibility.transition.complete".

Section Transitions.
Context `{!PublicationPrims}.

Definition marshalVisibilityScope (scope : Scope) : option bytes := json_scope (stateEventScope scope).
Definition mustMarshalVisibilityScope (scope : Scope) : option bytes := marshalVisibilityScope scope.

Definition visibilityChangeDigest (change : VisibilityChange) : string :=
  let lines := ((fun s => String.append (Key s) newline) <$> Granted change) ++
               ((fun s => String.append (Key s) newline) <$> Revoked change) in
  hex_bytes (sha256 (joinStrings (sort_strings lines))).

(** The templates of one revoked scope. *)
Definition revoke_templates (userID oldEpoch causationID : Z) (combined : list StateEventTemplate) (scope : Scope)
  : result (list StateEventTemplate) PublicationError :=
  match marshalVisibilityScope scope with
  | None => Err ErrMarshal
  | Some data => Ok (combined ++ [directTransitionTemplate "visibility.tombstone" scope userID oldEpoch causationID (Some data);
                                  directTransitionTemplate "visibility.revoked" scope userID oldEpoch causationID (Some data)])
  end.

Definition fragment_template (userID oldEpoch causationID : Z) (scope : Scope) (fragmentID : string) (count : Z)
    (acc : list StateEventTemplate * Z) (fragment : bytes) : result (list StateEventTemplate * Z) PublicationError :=
  let '(combined, index) := acc in
  match json_fragment fragmentID (stateEventScope scope) index count fragment with
  | Some data => if maxVisibilityFragmentBytes <? len data then Err (ErrAppend ErrStateEventTooLarge)
                 else Ok (combined ++ [directTransitionTemplate "visibility.fragment" scope userID oldEpoch causationID (Some data)], index + 1)
  | None => Err (ErrAppend ErrStateEventTooLarge)
  end.

Definition fragmentID (userID : Z) (after : StateVersion) (scope : Scope) : string :=
  pretty userID +:+ "-" +:+ pretty (number after) +:+ "-" +:+ Key scope.

(** The templates of one granted scope. *)
Definition grant_templates (userID oldEpoch causationID : Z) (after : StateVersion) (combined : list StateEventTemplate) (scope : Scope)
  : result (list StateEventTemplate) PublicationError :=
  match marshalVisibilityScope scope with
  | None => Err ErrMarshal
  | Some data =>
      let combined := combined ++ [directTransitionTemplate "visibility.grant.begin" scope userID oldEpoch causationID (Some data)] in
      match visibilityFragmentPayloads role_grants server_version json_group json_channel userID scope after with
      | Err e => Err (fragment_error e)
      | Ok fragments =>
          acc <-? foldM (fragment_template userID oldEpoch causationID scope (fragmentID userID after scope) (len fragments))
                    (combined, 0) fragments ;;
          Ok (acc.1 ++ [directTransitionTemplate "visibility.granted" scope userID oldEpoch causationID (mustMarshalVisibilityScope scope)])
      end
  end.

(** The transition of one user. *)
Definition transition_user (before after : StateVersion) (changes : gmap Z VisibilityChange) (causationID : Z)
    (combined : list StateEventTemplate) (userID : Z) : result (list StateEventTemplate) PublicationError :=
  let change := change_of changes userID in
  let oldEpoch := VisibilityEpoch before userID in
  let newEpoch := VisibilityEpoch after userID in
  combined <-? foldM (revoke_templates userID oldEpoch causationID) combined (Revoked change) ;;
  combined <-? foldM (grant_templates userID oldEpoch causationID after) combined (Granted change) ;;
  match json_digest (visibilityChangeDigest change) with
  | None => Err ErrMarshal
  | Some data => Ok (combined ++ [directTransitionTemplate complete_type (mkScope "server" 0) userID newEpoch causationID (Some data)])
  end.

(** The first causation identifier of the caller's events. *)
Definition first_causation (templates : list StateEventTemplate) : Z :=
  match list_find (fun t => t_CausationID t <> 0) templates with Some (_, t) => t_CausationID t | None => 0 end.

Definition appendVisibilityTransitions (templates : list StateEventTemplate) (before after : StateVersion)
    (changes : gmap Z VisibilityChange) : result (list StateEventTemplate) PublicationError :=
  foldM (transition_user before after changes (first_causation templates)) templates (sortedIntKeys changes).

End Transitions.

(** ** Events *)

Definition set_subject (e : StateEvent) (s : option (User * Presence)) : StateEvent :=
  mkEvent (GEID e) (EventType e) (EvScope e) (CausationID e) (ServerTime e) (Data e) (DeliveryPolicy e)
    (VisibleBeforeUserIDs e) (RecipientUserID e) (SubjectUserID e) (CursorVisibilityEpoch e)
    (HasCursorVisibilityEpoch e) (cursorVisibilityEpochs e) s (encoded e).
Definition set_overrides (e : StateEvent) (o : list (Z * Z)) : StateEvent :=
  mkEvent (GEID e) (EventType e) (EvScope e) (CausationID e) (ServerTime e) (Data e) (DeliveryPolicy e)
    (VisibleBeforeUserIDs e) (RecipientUserID e) (SubjectUserID e) (CursorVisibilityEpoch e)
    (HasCursorVisibilityEpoch e) o (subjectState e) (encoded e).

Section Commit.
Context {C : Type} `{!StateSink C} {prims : Cursor.CursorPrims} `{!PublicationPrims}.
Context (json_Valid : bytes -> bool) (json_Marshal : stateEventEnvelope -> option bytes)
        (json_user : SnapshotUserPresence -> option bytes).
(** What a runtime commit changes: the coordinator and what it reaches. *)
Context {W : Type}.

Definition materialize_one (serverTime : Z) (version : StateVersion) (acc : list StateEvent * Z) (t : StateEventTemplate)
  : result (list StateEvent * Z) PublicationError :=
  let '(events, geid) := acc in
  match stateEventFromTemplate json_Valid json_Marshal t geid serverTime with
  | Err e => Err (ErrAppend e)
  | Ok event =>
      let event := if 0 <? t_SubjectUserID t
                   then match getUser version (t_SubjectUserID t) with
                        | Some user => set_subject event (Some (user, getPresence version (t_SubjectUserID t)))
                        | None => event
                        end
                   else event in
      Ok (events ++ [event], u64 (geid + 1))
  end.
Definition materializeEvents (now : Z) (templates : list StateEventTemplate) (baseGEID : Z) (version : StateVersion)
  : result (list StateEvent) PublicationError :=
  acc <-? foldM (materialize_one now version) ([], u64 (baseGEID + 1)) templates ;; Ok acc.1.

(** A runtime commit returns its error, which may be a cancellation, and the
    cleanup to run later. *)
Definition RuntimeCommit : Type := W -> W * (option CommitError * option (W -> W)).

(** [cand]: the candidate with its base, [None] for nil. *)
Record PublicationRequest := mkRequest {
  rq_Candidate : option (nat * StateVersion); rq_Events : list StateEventTemplate; rq_VisibilityUserIDs : list Z;
  rq_CommitRuntime : option RuntimeCommit
}.

(** [pb_bus]: the bound bus and its identity. *)
Record StatePublication := mkPub {
  pb_pointer : nat; pb_current : StateVersion; pb_ring : StateRing; pb_bus : option (nat * EventBus C);
  pb_locked : bool; pb_world : W
}.

Record PublicationReservation := mkReservation {
  pr_result : PublicationResult; pr_runtimeCommit : option RuntimeCommit; pr_completed : bool
}.

Definition with_locked (p : StatePublication) (l : bool) : StatePublication :=
  mkPub (pb_pointer p) (pb_current p) (pb_ring p) (pb_bus p) l (pb_world p).
Definition with_world (p : StatePublication) (w : W) : StatePublication :=
  mkPub (pb_pointer p) (pb_current p) (pb_ring p) (pb_bus p) (pb_locked p) w.

Definition NewStatePublication (state : StateVersion) (ring : StateRing) (w : W) : result StatePublication PublicationError :=
  if negb (HighWater ring =? cp_GEID (checkpoint state)) then Err ErrInvalidPublication
  else Ok (mkPub 0 state ring None false w).

(** [same_visibility]: the bus shares the publication's resolver. *)
Definition BindEventBus (p : StatePublication) (bus : nat * EventBus C) (same_visibility : bool)
  : option PublicationError * StatePublication :=
  if negb same_visibility then (Some ErrInvalidPublication, p)
  else match pb_bus p with
       | Some (id, _) => if negb (id =? bus.1)%nat then (Some ErrInvalidPublication, p) else (None, p)
       | None => (None, mkPub (pb_pointer p) (pb_current p) (pb_ring p) (Some bus) (pb_locked p) (pb_world p))
       end.

Definition reserveLocked (now : Z) (p : StatePublication) (request : PublicationRequest)
  : result PublicationResult PublicationError :=
  match rq_Candidate request with
  | None => Err ErrInvalidPublication
  | Some (base, candidate) =>
      let before := pb_current p in
      if negb (base =? pb_pointer p)%nat then Err ErrStaleStateCandidate
      else if negb (number candidate =? u64 (number before + 1)) ||
              negb (bool_decide (cp_StreamEpoch (checkpoint candidate) = cp_StreamEpoch (checkpoint before))) ||
              negb (HighWater (pb_ring p) =? cp_GEID (checkpoint before))
      then Err ErrInvalidPublication
      else
        ce <-? visibilityChanges before candidate (rq_VisibilityUserIDs request) ;;
        let '(changes, epochs) := ce in
        let r := runtime candidate in
        let after := mkVersion (number candidate) (checkpoint candidate) (persistent candidate)
                       (mkRuntime (epochs ∪ visibilityEpochs r) (moderationEpoch r) (presences r) (voiceAuthorities r)
                          (voiceAuthoritiesByChannel r) (temporaryExpiry r) (muteExpiry r)) in
        templates <-? appendVisibilityTransitions (rq_Events request) before after changes ;;
        events <-? materializeEvents now templates (cp_GEID (checkpoint before)) after ;;
        let overrides := (fun userID => (userID, VisibilityEpoch before userID)) <$> sortedIntKeys changes in
        let events := (fun e => if HasCursorVisibilityEpoch e || bool_decide (changes = ∅) then e else set_overrides e overrides) <$> events in
        let after := mkVersion (number after)
                       (mkCheckpoint (cp_StreamEpoch (checkpoint after))
                          (match last events with Some e => GEID e | None => cp_GEID (checkpoint after) end))
                       (persistent after) (runtime after) in
        match ValidateAppend json_Valid json_Marshal (pb_ring p) events with
        | Some e => Err (ErrAppend e)
        | None => Ok (mkResult after (checkpoint after) (cloneStateEvents events) (cloneVisibilityChanges changes))
        end
  end.

(** [Reserve] blocks while the lock is held: it is used on an unlocked publication. *)
Definition Reserve (now : Z) (p : StatePublication) (request : PublicationRequest)
  : result PublicationReservation PublicationError * StatePublication :=
  match reserveLocked now p request with
  | Err e => (Err e, p)
  | Ok res => (Ok (mkReservation res (rq_CommitRuntime request) false), with_locked p true)
  end.

Definition Result (r : PublicationReservation) : PublicationResult := clonePublicationResult (pr_result r).

Definition claimCompletion (r : PublicationReservation) : bool * PublicationReservation :=
  if pr_completed r then (false, r) else (true, mkReservation (pr_result r) (pr_runtimeCommit r) true).

Definition Abort (p : StatePublication) (r : PublicationReservation) : StatePublication * PublicationReservation :=
  let '(claimed, r) := claimCompletion r in (if claimed then with_locked p false else p, r).

(** The deferred end of [publish]: unlock, disconnect the slow consumers, clean up. *)
Definition finish (p : StatePublication) (slow : list nat) (cleanup : option (W -> W)) : StatePublication :=
  let bus := match pb_bus p with
             | Some (id, b) => Some (id, fold_left (fun b k => log_call b (CallSlow k)) slow b)
             | None => None
             end in
  mkPub (pb_pointer p) (pb_current p) (pb_ring p) bus false
    (match cleanup with Some f => f (pb_world p) | None => pb_world p end).

Definition run_commit (commit : option RuntimeCommit) (w : W) : W * (option CommitError * option (W -> W)) :=
  match commit with None => (w, (None, None)) | Some f => f w end.

(** [canceled]: the context's state at the commit point.  [None]: a panic. *)
Definition publish (canceled : bool) (p : StatePublication) (r : PublicationReservation)
  : option (result PublicationResult PublicationError * StatePublication * PublicationReservation) :=
  let '(claimed, r) := claimCompletion r in
  if negb claimed then Some (Err ErrInvalidPublication, p, r)
  else if canceled then Some (Err ErrCanceled, finish p [] None, r)
  else
    let '(w, (failed, cleanup)) := run_commit (pr_runtimeCommit r) (pb_world p) in
    let p := with_world p w in
    match failed with
    | Some e => Some (Err (commit_error e), finish p [] cleanup, r)
    | None =>
      let res := pr_result r in
      '(err, ring) ← Append json_Valid json_Marshal (pb_ring p) (pu_Events res);
      match err with
      | Some e => Some (Err (ErrAppend e), finish (mkPub (pb_pointer p) (pb_current p) ring (pb_bus p) (pb_locked p) (pb_world p)) [] cleanup, r)
      | None =>
          let p := mkPub (S (pb_pointer p)) (pu_Version res) ring (pb_bus p) (pb_locked p) (pb_world p) in
          match pb_bus p with
          | None => Some (Ok (clonePublicationResult res), finish p [] cleanup, r)
          | Some (id, b) =>
              let '(out, b) := fanout json_Valid json_Marshal json_user b (pu_Version res) (pu_Events res) (pu_VisibilityChanges res) in
              let p := mkPub (pb_pointer p) (pb_current p) (pb_ring p) (Some (id, b)) (pb_locked p) (pb_world p) in
              match out with
              | Err e => Some (Err (ErrFanout e), finish p [] cleanup, r)
              | Ok slow => Some (Ok (clonePublicationResult res), finish p slow cleanup, r)
              end
          end
      end
    end.

Definition Publish (p : StatePublication) (r : PublicationReservation) := publish false p r.

(** [ctx]: [None] is the nil context. *)
Definition PublishRuntime (ctx : option bool) (p : StatePublication) (r : PublicationReservation)
  : option (result PublicationResult PublicationError * StatePublication * PublicationReservation) :=
  match ctx with None => Some (Err ErrInvalidPublication, p, r) | Some canceled => publish canceled p r end.

Definition Commit (now : Z) (p : StatePublication) (request : PublicationRequest)
  : option (result PublicationResult PublicationError * StatePublication) :=
  match Reserve now p request with
  | (Err e, p) => Some (Err e, p)
  | (Ok r, p) => '(res, p, _) ← Publish p r; Some (res, p)
  end.

(** One version and ring pair, taken under the read lock. *)
Record PublicationSnapshot := mkPSnapshot { ps_Version : StateVersion; ps_Events : list StateEvent; ps_HighWater : Z }.
Definition Capture (p : StatePublication) : PublicationSnapshot :=
  let '(events, highWater) := StateRing.Snapshot (pb_ring p) in mkPSnapshot (pb_current p) events highWater.

End Commit.
Arguments StatePublication C W : clear implicits.
Arguments PublicationReservation W : clear implicits.
Arguments PublicationRequest W : clear implicits.

End Publication.
