(* ===== verification/PublicationProps.v ===== *)
(** * PublicationProps: what a publication guarantees

    Publications, aborted reservations and the event bus's own operations run in
    any order ([pub_step]); a reservation excludes other publications until it
    is completed. *)

From S2P Require Import Prelude State StateRing Visibility Cursor Snapshot Lane Connection EventBus EventBusProps Publication.
From stdpp Require Import base gmap strings list sorting relations pretty.
From Stdlib Require Import ZArith Lia.
#[local] Open Scope string_scope.
#[local] Open Scope list_scope.
#[local] Open Scope Z_scope.

Module PublicationProps.
Import State StateRing Visibility Snapshot EventBus Publication.

Section Events.
Context (json_Valid : bytes -> bool) (json_Marshal : stateEventEnvelope -> option bytes).
Notation normalizeStateEvent := (StateRing.normalizeStateEvent json_Valid json_Marshal).
Notation validateAppendLocked := (StateRing.validateAppendLocked json_Valid json_Marshal).

Definition rmap {A B E} (f : A -> B) (r : result A E) : result B E := match r with Ok a => Ok (f a) | Err e => Err e end.

Ltac normalize_cases :=
  unfold StateRing.normalizeStateEvent;
  cbn [GEID EventType EvScope CausationID DeliveryPolicy VisibleBeforeUserIDs RecipientUserID SubjectUserID Data
       set_subject set_overrides set_encoded];
  repeat match goal with |- context [if ?b then _ else _] => destruct b; try done end.

Lemma normalize_subject e s : normalizeStateEvent (set_subject e s) = rmap (fun n => set_subject n s) (normalizeStateEvent e).
Proof using. normalize_cases; unfold stateEventEnvelopeFromEventWithData; cbn; by case_match. Qed.

Lemma normalize_overrides e o : normalizeStateEvent (set_overrides e o) = rmap (fun n => set_overrides n o) (normalizeStateEvent e).
Proof using. normalize_cases; unfold stateEventEnvelopeFromEventWithData; cbn; by case_match. Qed.

(** A normalized event is its own normal form. *)
Lemma normalize_idem e n : normalizeStateEvent e = Ok n -> normalizeStateEvent n = Ok n.
Proof using.
  intros H. pose proof H as Hcopy. revert H. unfold StateRing.normalizeStateEvent at 1.
  repeat match goal with |- (if ?b then _ else _) = _ -> _ => let G := fresh "G" in destruct b eqn:G; try discriminate end.
  destruct (json_Marshal _) as [b|] eqn:G8; [|discriminate].
  intros [= <-]. clear Hcopy. unfold StateRing.normalizeStateEvent.
  cbn [GEID EventType EvScope CausationID DeliveryPolicy VisibleBeforeUserIDs RecipientUserID SubjectUserID Data set_encoded].
  repeat match goal with G : ?b = _ |- context [if ?b then _ else _] => rewrite G end.
  cbn [default from_option id]. unfold stateEventEnvelopeFromEventWithData in *. cbn in *.
  repeat match goal with G : ?b = _ |- context [?b] => rewrite G end. done.
Qed.

Lemma validate_normal r evs prepared : Forall (fun e => normalizeStateEvent e = Ok e) evs ->
  validateAppendLocked r evs = Ok prepared -> prepared = evs.
Proof using.
  intros Hn Hv. unfold StateRing.validateAppendLocked in Hv. apply rbind_Ok in Hv as ([prep ex] & Hv & [= <-]). cbn.
  assert (H : forall acc, foldM (validate_one json_Valid json_Marshal r) acc evs = Ok (prep, ex) -> prep = acc.1 ++ evs).
  { clear Hv. induction Hn as [|e evs He _ IH]; intros acc; cbn [foldM]; [intros [= ->]; by rewrite app_nil_r|].
    intros Hv. apply rbind_Ok in Hv as ([p1 x1] & H1 & H2). apply IH in H2. destruct acc as [p0 x0]. unfold validate_one in H1.
    destruct (negb _); [done|]. rewrite He in H1. cbn [rbind] in H1. destruct (_ || _); [done|]. destruct (_ <? _); [done|].
    injection H1 as <- <-. cbn in *. by rewrite <- app_assoc in H2. }
  exact (H _ Hv).
Qed.

(** What an event keeps of its template. *)
Record of_template (t : StateEventTemplate) (e : StateEvent) : Prop := {
  ot_type : EventType e = t_EventType t;
  ot_policy : DeliveryPolicy e = t_DeliveryPolicy t;
  ot_recipient : RecipientUserID e = t_RecipientUserID t;
  ot_epoch : CursorVisibilityEpoch e = t_CursorVisibilityEpoch t;
  ot_has : HasCursorVisibilityEpoch e = t_HasCursorVisibilityEpoch t
}.

Lemma from_template t geid now e : stateEventFromTemplate json_Valid json_Marshal t geid now = Ok e ->
  of_template t e /\ GEID e = geid /\ cursorVisibilityEpochs e = [] /\ normalizeStateEvent e = Ok e.
Proof using.
  intros H. split_and!; [| | |by eapply normalize_idem]; revert H; unfold stateEventFromTemplate, StateRing.normalizeStateEvent;
    cbn [GEID EventType EvScope CausationID DeliveryPolicy VisibleBeforeUserIDs RecipientUserID SubjectUserID Data];
    (repeat match goal with |- (if ?b then _ else _) = _ -> _ => destruct b; try discriminate end);
    (destruct (json_Marshal _); [|discriminate]); by intros [= <-].
Qed.

Lemma materialize_spec now ts base v evs : materializeEvents json_Valid json_Marshal now ts base v = Ok evs ->
  Forall2 of_template ts evs /\ Forall (fun e => normalizeStateEvent e = Ok e /\ cursorVisibilityEpochs e = []) evs.
Proof using.
  intros H. unfold materializeEvents in H. apply rbind_Ok in H as ([es g] & H & [= <-]). cbn. revert H.
  apply (foldM_ind (fun done acc => Forall2 of_template done acc.1 /\
    Forall (fun e => normalizeStateEvent e = Ok e /\ cursorVisibilityEpochs e = []) acc.1)); [done|].
  intros done t [es' g'] [es'' g''] [H1 H2]. cbn [fst] in *. unfold materialize_one.
  destruct (stateEventFromTemplate _ _ _ _ _) as [e|] eqn:Ht; [|done]. apply from_template in Ht as (A1 & A2 & A3 & A4).
  intros [= <- <-]. split.
  - apply Forall2_app; [done|]. constructor; [|done]. destruct A1. case_match; [case_match|]; by constructor.
  - apply Forall_app. split; [done|]. apply Forall_singleton. case_match; [case_match|]; try done.
    split; [|done]. rewrite normalize_subject, A4. done.
Qed.

End Events.

(** ** Visibility changes *)

Lemma visible_persistent u v v' : persistent v = persistent v' -> VisibleScopeIDs u (Some v) = VisibleScopeIDs u (Some v').
Proof. destruct v as [n c p r], v' as [n' c' p' r']. cbn [persistent]. intros ->. reflexivity. Qed.

Lemma Diff_persistent u v v1 v2 : persistent v1 = persistent v2 -> Diff u v (Some v1) = Diff u v (Some v2).
Proof. intros H. unfold Diff. by rewrite (visible_persistent u _ _ H). Qed.

Lemma elem_of_dedup_sorted u last ids : u ∈ last :: dedup_sorted last ids <-> u ∈ last :: ids.
Proof.
  revert last. induction ids as [|x ids IH]; intros last; cbn [dedup_sorted]; [done|].
  destruct (Z.eqb_spec x last) as [->|].
  - rewrite IH, !elem_of_cons. tauto.
  - specialize (IH x). rewrite !elem_of_cons in *. tauto.
Qed.

Lemma elem_of_sortedUnique u ids : u ∈ sortedUniqueUserIDs ids <-> u ∈ ids.
Proof.
  unfold sortedUniqueUserIDs. rewrite <- (elem_of_sort_by id ids u). destruct (sort_by id ids); [done|].
  apply elem_of_dedup_sorted.
Qed.

Lemma visibilityChanges_spec before after ids changes epochs : visibilityChanges before after ids = Ok (changes, epochs) ->
  forall u, let d := Diff u (Some before) (Some after) in
  changes !! u = (if bool_decide (u ∈ ids) && Changed d then Some d else None) /\
  epochs !! u = (if bool_decide (u ∈ ids) && Changed d then Some (u64 (VisibilityEpoch before u + 1)) else None).
Proof.
  intros H u d. rewrite <- (bool_decide_ext _ _ (elem_of_sortedUnique u ids)). revert H. unfold visibilityChanges.
  pose (P := fun (seen : list Z) (acc : gmap Z VisibilityChange * gmap Z Z) =>
    acc.1 !! u = (if bool_decide (u ∈ seen) && Changed d then Some d else None) /\
    acc.2 !! u = (if bool_decide (u ∈ seen) && Changed d then Some (u64 (VisibilityEpoch before u + 1)) else None)).
  apply (foldM_ind P); unfold P; [done|].
  intros seen w [c e] [c' e'] [H1 H2]. cbn [fst snd] in *. unfold change_user. destruct (_ <=? _); [done|].
  assert (Hin : bool_decide (u ∈ seen ++ [w]) = bool_decide (u ∈ seen) || bool_decide (u = w)).
  { rewrite <- bool_decide_or. apply bool_decide_ext. by rewrite elem_of_app, list_elem_of_singleton. }
  rewrite Hin. destruct (Changed (Diff w (Some before) (Some after))) eqn:Hc; cbn [negb]; intros [= <- <-];
    destruct (bool_decide_reflect (u = w)) as [->|Hne].
  - rewrite !lookup_insert_eq, orb_true_r. unfold d. rewrite Hc. done.
  - rewrite !lookup_insert_ne, orb_false_r by done. done.
  - rewrite orb_true_r. unfold d in *. rewrite Hc in *. rewrite andb_false_r in *. done.
  - by rewrite orb_false_r.
Qed.

(** ** Transition templates *)

(** A loop that only appends elements of one kind. *)
Lemma foldM_extends {A B E} (P : B -> Prop) (f : list B -> A -> result (list B) E) l acc acc' :
  (forall acc x acc', f acc x = Ok acc' -> exists ext, acc' = acc ++ ext /\ Forall P ext) ->
  foldM f acc l = Ok acc' -> exists ext, acc' = acc ++ ext /\ Forall P ext.
Proof.
  intros Hf. apply (foldM_ind (fun _ a => exists ext, a = acc ++ ext /\ Forall P ext)).
  - exists []. by rewrite app_nil_r.
  - intros _ x b b' (e1 & -> & H1) (e2 & -> & H2)%Hf. exists (e1 ++ e2). rewrite app_assoc. split; [done|]. by apply Forall_app.
Qed.

(** A direct transition of [u] that proves [epoch]. *)
Definition transition_for (u epoch : Z) (t : StateEventTemplate) : Prop :=
  t_DeliveryPolicy t = StateDeliveryDirectTransition /\ t_RecipientUserID t = u /\
  t_HasCursorVisibilityEpoch t = true /\ t_CursorVisibilityEpoch t = epoch.

Lemma direct_transition ty sc u epoch c d : transition_for u epoch (directTransitionTemplate ty sc u epoch c d).
Proof. done. Qed.

Section Transitions.
Context {pprims : PublicationPrims}.

Lemma revoke_extends u epoch c acc sc acc' : revoke_templates u epoch c acc sc = Ok acc' ->
  exists ext, acc' = acc ++ ext /\ Forall (transition_for u epoch) ext.
Proof using. unfold revoke_templates. case_match; [|done]. intros [= <-]. eexists. split; [done|]. by repeat constructor. Qed.

Lemma grant_extends u epoch c after acc sc acc' : grant_templates u epoch c after acc sc = Ok acc' ->
  exists ext, acc' = acc ++ ext /\ Forall (transition_for u epoch) ext.
Proof using.
  unfold grant_templates. destruct (marshalVisibilityScope sc) as [data|]; [|done].
  destruct (visibilityFragmentPayloads _ _ _ _ _ _ _) as [fragments|]; [|done].
  intros H. apply rbind_Ok in H as ([mid ix] & H & [= <-]). cbn [fst].
  assert (exists ext, mid = (acc ++ [directTransitionTemplate "visibility.grant.begin" sc u epoch c (Some data)]) ++ ext /\
    Forall (transition_for u epoch) ext) as (ext & -> & He).
  { revert H. apply (foldM_ind (fun _ (a : list StateEventTemplate * Z) => exists ext, a.1 =
      (acc ++ [directTransitionTemplate "visibility.grant.begin" sc u epoch c (Some data)]) ++ ext /\
      Forall (transition_for u epoch) ext)); [exists []; by rewrite app_nil_r|].
    intros _ fr [b i] [b' i'] (e1 & H1 & H2). cbn [fst] in *. unfold fragment_template. case_match; [|done]. case_match; [done|].
    intros [= <- <-]. subst b. eexists (e1 ++ [_]). rewrite app_assoc. split; [done|]. apply Forall_app. split; [done|]. by repeat constructor. }
  eexists (_ :: ext ++ [_]). rewrite <- !app_assoc. split; [done|]. constructor; [done|]. apply Forall_app. split; [done|]. by repeat constructor.
Qed.

(** One user's block: its scope transitions with the old epoch, then the one
    event that completes them, with the new. *)
Definition user_block (before after : StateVersion) (c u : Z) (block : list StateEventTemplate) : Prop :=
  exists init data, block = init ++ [directTransitionTemplate complete_type (mkScope "server" 0) u (VisibilityEpoch after u) c data] /\
  Forall (transition_for u (VisibilityEpoch before u)) init.

Lemma transition_block before after changes c acc u acc' : transition_user before after changes c acc u = Ok acc' ->
  exists block, acc' = acc ++ block /\ user_block before after c u block.
Proof using.
  unfold transition_user. intros H. apply rbind_Ok in H as (a1 & H1 & H). apply rbind_Ok in H as (a2 & H2 & H).
  apply (foldM_extends _ _ _ _ _ (revoke_extends _ _ _)) in H1 as (e1 & -> & F1).
  apply (foldM_extends _ _ _ _ _ (grant_extends _ _ _ _)) in H2 as (e2 & -> & F2).
  case_match; [|done]. injection H as <-. eexists (e1 ++ e2 ++ [_]). split; [by rewrite !app_assoc|].
  eexists (e1 ++ e2), _. split; [by rewrite app_assoc|]. by apply Forall_app.
Qed.

Lemma transition_blocks templates before after changes all : appendVisibilityTransitions templates before after changes = Ok all ->
  exists blocks, all = templates ++ concat blocks /\
    Forall2 (user_block before after (first_causation templates)) (sortedIntKeys changes) blocks.
Proof using.
  unfold appendVisibilityTransitions. generalize (first_causation templates) as c. intros c.
  apply (foldM_ind (fun done all => exists blocks, all = templates ++ concat blocks /\ Forall2 (user_block before after c) done blocks)).
  - exists []. split; [by rewrite app_nil_r|constructor].
  - intros done u b b' (bs & -> & H) (block & -> & Hb)%transition_block. exists (bs ++ [block]).
    rewrite concat_app, app_assoc. cbn. rewrite app_nil_r. split; [done|]. apply Forall2_app; [done|]. by constructor.
Qed.

(** Blocks of other users. *)
Definition elsewhere (u : Z) (t : StateEventTemplate) : Prop :=
  t_DeliveryPolicy t = StateDeliveryDirectTransition /\ t_RecipientUserID t <> u.

Lemma blocks_elsewhere before after c us blocks u : Forall2 (user_block before after c) us blocks -> u ∉ us ->
  Forall (elsewhere u) (concat blocks).
Proof using.
  induction 1 as [|w block us blocks (init & data & -> & Hi) _ IH]; intros Hu; [constructor|].
  apply not_elem_of_cons in Hu as [Hne Hu]. cbn. apply Forall_app. split; [|by apply IH]. apply Forall_app. split.
  - eapply Forall_impl; [exact Hi|]. intros t (H1 & H2 & _). split; [done|congruence].
  - apply Forall_singleton. split; [done|]. cbn. congruence.
Qed.

Lemma user_split templates before after changes all u : appendVisibilityTransitions templates before after changes = Ok all ->
  is_Some (changes !! u) -> exists l1 init data l2,
  all = templates ++ l1 ++ init ++
    directTransitionTemplate complete_type (mkScope "server" 0) u (VisibilityEpoch after u) (first_causation templates) data :: l2 /\
  Forall (elsewhere u) l1 /\ Forall (transition_for u (VisibilityEpoch before u)) init /\ Forall (elsewhere u) l2.
Proof using.
  intros (blocks & -> & Hb)%transition_blocks Hu. assert (Hin : u ∈ sortedIntKeys changes).
  { unfold sortedIntKeys. rewrite elem_of_sort_by. by apply elem_of_keys. }
  assert (Hnd : NoDup (sortedIntKeys changes)) by (unfold sortedIntKeys; rewrite sort_by_perm; apply NoDup_fst_map_to_list).
  apply list_elem_of_split in Hin as (us1 & us2 & Hus). rewrite Hus in Hb, Hnd.
  apply Forall2_app_inv_l in Hb as (b1 & b2 & H1 & H2 & ->). inversion H2 as [|? block ? b2' (init & data & -> & Hi) H3]; subst.
  apply NoDup_app in Hnd as (_ & Hn1 & Hn2). apply NoDup_cons in Hn2 as [Hn2 _].
  exists (concat b1), init, data, (concat b2'). rewrite concat_app. cbn. rewrite <- !app_assoc. split; [done|].
  split_and!; [|done|]; eapply blocks_elsewhere; try done. intros Hu1. apply (Hn1 u Hu1). by left.
Qed.

End Transitions.

Lemma sortedIntKeys_lt {A} (m : gmap Z A) : StronglySorted Z.lt (sortedIntKeys m).
Proof.
  assert (Hs : StronglySorted (by_key id) (sortedIntKeys m)) by apply sort_by_sorted.
  assert (Hnd : NoDup (sortedIntKeys m)) by (unfold sortedIntKeys; rewrite sort_by_perm; apply NoDup_fst_map_to_list).
  revert Hs Hnd. generalize (sortedIntKeys m) as l. intros l. induction 1 as [|x l Hl IH Hx]; [constructor|].
  intros [Hn Hnd]%NoDup_cons. constructor; [by apply IH|]. rewrite Forall_forall in Hx. apply Forall_forall. intros y Hy.
  specialize (Hx y Hy). unfold by_key, id in Hx. assert (x <> y) by (intros ->; done). lia.
Qed.

(** ** Reservations *)

Section Publications.
Context {C : Type} `{!StateSink C, !StateSinkLaws C} {cprims : Cursor.CursorPrims} {pprims : PublicationPrims}.
Context (json_Valid : bytes -> bool) (json_Marshal : stateEventEnvelope -> option bytes)
        (json_user : SnapshotUserPresence -> option bytes) {W : Type}.
Notation reserveLocked := (Publication.reserveLocked json_Valid json_Marshal).
Notation publish := (Publication.publish json_Valid json_Marshal json_user).
Notation pub := (StatePublication C W).

(** Candidates are built from a published version and keep its checkpoint and
    its visibility epochs. *)
Definition built (p : pub) (req : PublicationRequest W) : Prop :=
  forall base cand, rq_Candidate req = Some (base, cand) -> base = pb_pointer p ->
  checkpoint cand = checkpoint (pb_current p) /\ visibilityEpochs (runtime cand) = visibilityEpochs (runtime (pb_current p)).

(** A request for a version derived from the current one. *)
Lemma runtime_built (p : pub) evs ids commit :
  built p (mkRequest (Some (pb_pointer p, version (BuildRuntimeCandidate (pb_current p)))) evs ids commit).
Proof using. by intros base cand [= <- <-]. Qed.

Lemma persistent_built (p : pub) load cand evs ids commit : BuildPersistentCandidateFrom (pb_current p) load = Ok cand ->
  built p (mkRequest (Some (pb_pointer p, version cand)) evs ids commit).
Proof using.
  unfold BuildPersistentCandidateFrom. destruct load as [l|]; [|done]. case_match; [|done]. intros [= <-] base c [= <- <-]. done.
Qed.

(** The version, the events and the changes of a reservation. *)
Record reserved (p : pub) (req : PublicationRequest W) (res : PublicationResult) : Prop := {
  rv_number : number (pu_Version res) = u64 (number (pb_current p) + 1);
  rv_stream : cp_StreamEpoch (checkpoint (pu_Version res)) = cp_StreamEpoch (checkpoint (pb_current p));
  rv_ring : highWater (pb_ring p) = cp_GEID (checkpoint (pb_current p));
  rv_geid : cp_GEID (checkpoint (pu_Version res)) =
    match last (pu_Events res) with Some e => GEID e | None => cp_GEID (checkpoint (pb_current p)) end;
  rv_checkpoint : pu_Checkpoint res = checkpoint (pu_Version res);
  rv_normal : Forall (fun e => normalizeStateEvent json_Valid json_Marshal e = Ok e) (pu_Events res);
  rv_valid : validateAppendLocked json_Valid json_Marshal (pb_ring p) (pu_Events res) = Ok (pu_Events res);
  rv_changes u : pu_VisibilityChanges res !! u =
    let d := Diff u (Some (pb_current p)) (Some (pu_Version res)) in
    if bool_decide (u ∈ rq_VisibilityUserIDs req) && Changed d then Some d else None;
  rv_epochs u : VisibilityEpoch (pu_Version res) u =
    if bool_decide (is_Some (pu_VisibilityChanges res !! u)) then u64 (VisibilityEpoch (pb_current p) u + 1)
    else VisibilityEpoch (pb_current p) u;
  rv_events : exists templates raw after, after = pu_Version res /\
    (forall before, before = pb_current p ->
     exists v, persistent v = persistent after /\ runtime v = runtime after /\ number v = number after /\
     appendVisibilityTransitions (rq_Events req) before v (pu_VisibilityChanges res) = Ok templates) /\
    Forall2 of_template templates raw /\ Forall (fun e => cursorVisibilityEpochs e = []) raw /\
    pu_Events res = (fun e => if HasCursorVisibilityEpoch e || bool_decide (pu_VisibilityChanges res = ∅) then e
      else set_overrides e ((fun userID => (userID, VisibilityEpoch (pb_current p) userID)) <$> sortedIntKeys (pu_VisibilityChanges res))) <$> raw
}.

Lemma reserve_spec now p req res : built p req -> reserveLocked now p req = Ok res -> reserved p req res.
Proof using.
  intros Hb. unfold Publication.reserveLocked. destruct (rq_Candidate req) as [[base cand]|] eqn:Hc; [|done].
  destruct (Nat.eqb_spec base (pb_pointer p)) as [->|]; cbn [negb]; [|done].
  destruct (Hb _ _ Hc eq_refl) as [Hcp Hve]. clear Hb.
  destruct (Z.eqb_spec (number cand) (u64 (number (pb_current p) + 1))) as [Hn|]; cbn [negb orb]; [|done].
  destruct (bool_decide (cp_StreamEpoch _ = _)) eqn:Hse; cbn [negb orb]; [|done].
  destruct (Z.eqb_spec (HighWater (pb_ring p)) (cp_GEID (checkpoint (pb_current p)))) as [Hhw|]; cbn [negb]; [|done].
  intros H. apply rbind_Ok in H as ([changes epochs] & Hch & H). apply rbind_Ok in H as (templates & Ht & H).
  apply rbind_Ok in H as (raw & Hm & H). destruct (ValidateAppend _ _ _ _) eqn:Hv; [done|]. injection H as <-.
  pose proof (visibilityChanges_spec _ _ _ _ _ Hch) as Hspec. apply materialize_spec in Hm as [Hm1 Hm2].
  assert (Hnorm : Forall (fun e => normalizeStateEvent json_Valid json_Marshal e = Ok e)
    ((fun e => if HasCursorVisibilityEpoch e || bool_decide (changes = ∅) then e
      else set_overrides e ((fun userID => (userID, VisibilityEpoch (pb_current p) userID)) <$> sortedIntKeys changes)) <$> raw)).
  { apply Forall_fmap. eapply Forall_impl; [exact Hm2|]. intros e [He _]. cbn. case_match; [done|]. by rewrite normalize_overrides, He. }
  constructor; cbn [pu_Version pu_Checkpoint pu_Events pu_VisibilityChanges number checkpoint persistent runtime cp_StreamEpoch cp_GEID]; try done.
  - by rewrite Hcp.
  - by rewrite Hcp.
  - unfold ValidateAppend in Hv. destruct (StateRing.validateAppendLocked _ _ _ _) as [prep|] eqn:Hva; [|done].
    pose proof (validate_normal _ _ _ _ _ Hnorm Hva). by subst prep.
  - intros u. change (cloneVisibilityChanges changes !! u) with (changes !! u). destruct (Hspec u) as [-> _]. cbn zeta.
    by erewrite (Diff_persistent u _ cand).
  - intros u. destruct (Hspec u) as [Hu1 Hu2]. unfold VisibilityEpoch at 1. cbn [runtime visibilityEpochs]. unfold cloneVisibilityChanges.
    rewrite Hu1. rewrite lookup_union, Hu2, Hve. destruct (_ && _).
    + rewrite bool_decide_eq_true_2 by done. by destruct (visibilityEpochs _ !! u).
    + rewrite bool_decide_eq_false_2 by (by intros []). by rewrite (left_id None _).
  - eexists templates, raw, _. split; [done|]. split_and!; [|done|by eapply Forall_impl; [exact Hm2|intros e [_ ?]]|done].
    intros before ->. eexists. split_and!; [| | |exact Ht]; done.
Qed.

Definition overridden (p : pub) (changes : gmap Z VisibilityChange) (e : StateEvent) : StateEvent :=
  if HasCursorVisibilityEpoch e || bool_decide (changes = ∅) then e
  else set_overrides e ((fun userID => (userID, VisibilityEpoch (pb_current p) userID)) <$> sortedIntKeys changes).

Lemma overridden_fields p changes e : EventType (overridden p changes e) = EventType e /\
  DeliveryPolicy (overridden p changes e) = DeliveryPolicy e /\ RecipientUserID (overridden p changes e) = RecipientUserID e /\
  CursorVisibilityEpoch (overridden p changes e) = CursorVisibilityEpoch e /\
  HasCursorVisibilityEpoch (overridden p changes e) = HasCursorVisibilityEpoch e.
Proof using. unfold overridden. by case_match. Qed.

(** An event without an explicit epoch proves the old epoch of a changed user. *)
Lemma overridden_epoch p changes e u v : HasCursorVisibilityEpoch e = false -> is_Some (changes !! u) ->
  cursorEpochForEvent (overridden p changes e) u v = VisibilityEpoch (pb_current p) u.
Proof using.
  intros Hh Hu. unfold overridden. rewrite Hh. rewrite bool_decide_eq_false_2 by (intros ->; rewrite lookup_empty in Hu; by destruct Hu).
  cbn [orb]. destruct (cursorEpoch_lookup (set_overrides e ((fun userID => (userID, VisibilityEpoch (pb_current p) userID)) <$> sortedIntKeys changes)) u v)
    as [H _]; [|done|].
  - cbn. rewrite <- list_fmap_compose. cbn. rewrite list_fmap_id. apply sortedIntKeys_lt.
  - apply H. cbn. apply list_elem_of_fmap. exists u. split; [done|]. unfold sortedIntKeys. rewrite elem_of_sort_by.
    by apply elem_of_keys.
Qed.

Lemma overridden_explicit p changes e u v : HasCursorVisibilityEpoch e = true ->
  cursorEpochForEvent (overridden p changes e) u v = CursorVisibilityEpoch e.
Proof using. intros Hh. unfold overridden. rewrite Hh. cbn [orb]. unfold cursorEpochForEvent. by rewrite Hh. Qed.

Lemma direct_visible u e v : DeliveryPolicy e = StateDeliveryDirectTransition ->
  eventVisibleTo u e v = (RecipientUserID e =? u).
Proof using. intros H. unfold eventVisibleTo. by rewrite H. Qed.

(** The events of a block of templates. *)
Lemma of_elsewhere p changes u v ts es e' : Forall2 of_template ts es -> Forall (elsewhere u) ts ->
  e' ∈ overridden p changes <$> es -> eventVisibleTo u e' v = false.
Proof using.
  intros H2 Hf (e & -> & He)%list_elem_of_fmap. apply list_elem_of_lookup in He as [i Hi].
  destruct (Forall2_lookup_r _ _ _ _ _ H2 Hi) as (t & Ht & [_ Hp Hr _ _]). rewrite Forall_lookup in Hf. destruct (Hf i t Ht) as [E1 E2].
  destruct (overridden_fields p changes e) as (_ & F1 & F2 & _). rewrite direct_visible, F2, Hr by congruence. by apply Z.eqb_neq.
Qed.

(** A group or channel the user sees, by the access rule. *)
Definition sees (v : StateVersion) (u : Z) (s : Scope) : Prop :=
  (exists g, s = group_scope g /\ group_visible v u g) \/ (exists c, s = channel_scope c /\ channel_visible v u c).
(** The change of a user names the scopes that appear and disappear, and is one
    exactly if there are some. *)
Lemma diff_sees u before after : let d := Diff u (Some before) (Some after) in
  (forall s, s ∈ Granted d <-> sees after u s /\ ~ sees before u s) /\ (forall s, s ∈ Revoked d <-> sees before u s /\ ~ sees after u s) /\
  (Changed d = true <-> exists s, ~ (sees before u s <-> sees after u s)).
Proof using.
  intros d. destruct (Diff_exact u (Some before) (Some after)) as (HG & HR & _). fold d in HG, HR.
  assert (Hs : forall v s, s ∈ VisibleScopeIDs u (Some v) <-> sees v u s) by (intros v s; apply elem_of_visible).
  assert (HG' : forall s, s ∈ Granted d <-> sees after u s /\ ~ sees before u s) by (intros s; rewrite HG, !Hs; reflexivity).
  assert (HR' : forall s, s ∈ Revoked d <-> sees before u s /\ ~ sees after u s) by (intros s; rewrite HR, !Hs; reflexivity).
  split_and!; [done..|]. unfold Changed. rewrite orb_true_iff, !negb_true_iff, !bool_decide_eq_false. split.
  - intros [Hd|Hd]; [destruct (Granted d) as [|s l]|destruct (Revoked d) as [|s l]]; try done; exists s.
    + destruct (proj1 (HG' s) (list_elem_of_here _ _)). tauto.
    + destruct (proj1 (HR' s) (list_elem_of_here _ _)). tauto.
  - intros (s & Hs'). destruct (decide (s ∈ VisibleScopeIDs u (Some before))) as [H1|H1]; rewrite Hs in H1; destruct (decide (s ∈ VisibleScopeIDs u (Some after))) as [H2|H2]; rewrite Hs in H2; try tauto.
    + right. intros E. assert (Hin : s ∈ Revoked d) by (apply HR'; tauto). rewrite E in Hin. by apply elem_of_nil in Hin.
    + left. intros E. assert (Hin : s ∈ Granted d) by (apply HG'; tauto). rewrite E in Hin. by apply elem_of_nil in Hin.
Qed.

(** C11: Holding a cursor of the new visibility epoch proves that a whole
    transition arrived.  Of the users a request names, a publication raises the
    epoch of exactly those whose visible groups and channels it changes, and
    every other epoch stays.  For such a user the change names exactly the scopes
    that appear and disappear, one event completes the transition and carries the
    new epoch, everything that user sees before it carries the old epoch, and the
    publication shows that user nothing after it. *)
Theorem epoch_proves_transition now p req res u : built p req ->
  Forall (fun t => t_HasCursorVisibilityEpoch t = false) (rq_Events req) -> reserveLocked now p req = Ok res ->
  let before := pb_current p in
  let after := pu_Version res in
  let affected := u ∈ rq_VisibilityUserIDs req /\ exists s, ~ (sees before u s <-> sees after u s) in
  match pu_VisibilityChanges res !! u with
  | None => ~ affected /\ VisibilityEpoch after u = VisibilityEpoch before u
  | Some d => affected /\ (forall s, s ∈ Granted d <-> sees after u s /\ ~ sees before u s) /\ (forall s, s ∈ Revoked d <-> sees before u s /\ ~ sees after u s) /\
      VisibilityEpoch after u = u64 (VisibilityEpoch before u + 1) /\
      exists pre e post, pu_Events res = pre ++ e :: post /\ EventType e = "visibility.transition.complete" /\
        eventVisibleTo u e after = true /\ cursorEpochForEvent e u after = VisibilityEpoch after u /\
        (forall e', e' ∈ pre -> eventVisibleTo u e' after = true -> cursorEpochForEvent e' u after = VisibilityEpoch before u) /\
        (forall e', e' ∈ post -> eventVisibleTo u e' after = false)
  end.
Proof using.
  intros Hb Hcaller Hr before after affected. destruct (reserve_spec _ _ _ _ Hb Hr) as [_ _ _ _ _ _ _ Hch Hep Hev].
  specialize (Hep u). specialize (Hch u). fold before after in Hep, Hch. cbn zeta in Hch. rewrite Hep.
  destruct (diff_sees u before after) as (HG & HR & HC).
  destruct (pu_VisibilityChanges res !! u) as [d|] eqn:Hd.
  2: { rewrite bool_decide_eq_false_2 by (by intros []). split; [|done]. intros [Hin Hs]. rewrite bool_decide_eq_true_2, (proj2 HC Hs) in Hch by done. done. }
  rewrite bool_decide_eq_true_2 by done. destruct (_ && _) eqn:Hcond; [|done]. injection Hch as Hch.
  apply andb_true_iff in Hcond as [Hin%bool_decide_eq_true Hcond]. split; [by split; [|apply HC]|]. rewrite Hch. split; [done|]. split; [done|]. split; [done|].
  destruct Hev as (ts & raw & a & -> & Ht & H2 & _ & Hevs). destruct (Ht before eq_refl) as (v & _ & Hrt & _ & Happ).
  destruct (user_split _ _ _ _ _ u Happ) as (l1 & init & data & l2 & -> & F1 & F2 & F3); [by exists d|].
  apply Forall2_app_inv_l in H2 as (r0 & r1 & G0 & H2 & ->). apply Forall2_app_inv_l in H2 as (r2 & r3 & G1 & H2 & ->).
  apply Forall2_app_inv_l in H2 as (r4 & r5 & G2 & H2 & ->). inversion H2 as [|? e ? r6 Ge G3]; subst. destruct Ge as [E1 E2 E3 E4 E5].
  change (pu_Events res = overridden p (pu_VisibilityChanges res) <$> (r0 ++ r2 ++ r4 ++ e :: r6)) in Hevs.
  set (f := overridden p (pu_VisibilityChanges res)) in *.
  assert (Hve : VisibilityEpoch v u = u64 (VisibilityEpoch before u + 1)).
  { unfold VisibilityEpoch at 1. rewrite Hrt. unfold after in Hep. unfold VisibilityEpoch at 1 in Hep. rewrite Hep.
    by rewrite bool_decide_eq_true_2 by done. }
  exists (f <$> (r0 ++ r2 ++ r4)), (f e), (f <$> r6). split_and!.
  - rewrite Hevs, !fmap_app, fmap_cons, <- !app_assoc. done.
  - unfold f. destruct (overridden_fields p (pu_VisibilityChanges res) e) as (-> & _). by rewrite E1.
  - unfold f. destruct (overridden_fields p (pu_VisibilityChanges res) e) as (_ & X1 & X2 & _).
    rewrite direct_visible by (by rewrite X1, E2). rewrite X2, E3. apply Z.eqb_refl.
  - unfold f. rewrite overridden_explicit by (by rewrite E5). rewrite E4. exact Hve.
  - intros e' He' Hvis. rewrite !fmap_app, !elem_of_app in He'. destruct He' as [He'|[He'|He']].
    + apply list_elem_of_fmap in He' as (x & -> & Hx). apply list_elem_of_lookup in Hx as [i Hi].
      destruct (Forall2_lookup_r _ _ _ _ _ G0 Hi) as (t & Hti & [_ _ _ _ Hh]). rewrite Forall_lookup in Hcaller.
      apply overridden_epoch; [rewrite Hh; by eapply Hcaller|by rewrite Hd].
    + unfold f in He'. rewrite (of_elsewhere _ _ _ after _ _ _ G1 F1 He') in Hvis. done.
    + apply list_elem_of_fmap in He' as (x & -> & Hx). apply list_elem_of_lookup in Hx as [i Hi].
      destruct (Forall2_lookup_r _ _ _ _ _ G2 Hi) as (t & Hti & [_ _ _ Hx Hh]). rewrite Forall_lookup in F2.
      destruct (F2 i t Hti) as (_ & _ & Y1 & Y2). unfold f. rewrite overridden_explicit by congruence. congruence.
  - intros e' He'. eapply of_elsewhere; [exact G3|exact F3|exact He'].
Qed.

(** ** Runs *)

Definition pub_sys : Type := pub * option (PublicationReservation W) * list PublicationResult.

(** The results made visible: a failed fan-out comes after the swap. *)
Definition published (out : result PublicationResult PublicationError) (res : PublicationResult) : list PublicationResult :=
  match out with Ok _ | Err (ErrFanout _) => [res] | Err _ => [] end.

Definition with_bus (p : pub) (bus : option (nat * EventBus C)) : pub :=
  mkPub (pb_pointer p) (pb_current p) (pb_ring p) bus (pb_locked p) (pb_world p).

Inductive pub_step : pub_sys -> pub_sys -> Prop :=
  | ps_reserve p pubs now req r p' : pb_locked p = false -> built p req ->
      Reserve json_Valid json_Marshal now p req = (Ok r, p') -> pub_step (p, None, pubs) (p', Some r, pubs)
  | ps_refuse p pubs now req e p' : pb_locked p = false ->
      Reserve json_Valid json_Marshal now p req = (Err e, p') -> pub_step (p, None, pubs) (p', None, pubs)
  | ps_abort p pubs r p' r' : Abort p r = (p', r') -> pub_step (p, Some r, pubs) (p', None, pubs)
  | ps_publish p pubs r canceled out p' r' : publish canceled p r = Some (out, p', r') ->
      pub_step (p, Some r, pubs) (p', None, pubs ++ published out (pr_result r))
  | ps_bus p held pubs bus : pub_step (p, held, pubs) (with_bus p bus, held, pubs)
  | ps_world p held pubs w : pub_step (p, held, pubs) (with_world p w, held, pubs).

Definition published_events (pubs : list PublicationResult) : list StateEvent := concat (pu_Events <$> pubs).

Record pub_ok (state : StateVersion) (log0 : list StateEvent) (y : pub_sys) : Prop := {
  po_ring : ring_ok json_Valid json_Marshal (pb_ring y.1.1) (log0 ++ published_events y.2);
  po_high : highWater (pb_ring y.1.1) = cp_GEID (checkpoint (pb_current y.1.1));
  po_number : number (pb_current y.1.1) = u64 (number state + len y.2);
  po_stream : cp_StreamEpoch (checkpoint (pb_current y.1.1)) = cp_StreamEpoch (checkpoint state);
  po_current : pb_current y.1.1 = match last y.2 with Some res => pu_Version res | None => state end;
  po_held : match y.1.2 with
            | Some r => pr_completed r = false /\ pb_locked y.1.1 = true /\ exists req, built y.1.1 req /\ reserved y.1.1 req (pr_result r)
            | None => pb_locked y.1.1 = false
            end
}.

Lemma reserved_frame p p' req res : pb_current p' = pb_current p -> pb_ring p' = pb_ring p -> pb_pointer p' = pb_pointer p ->
  built p req /\ reserved p req res -> built p' req /\ reserved p' req res.
Proof using.
  intros E1 E2 E3 [Hb [R1 R2 R3 R4 R5 R6 R7 R8 R9 R10]]. split.
  - intros base cand Hc Hp. rewrite E1. apply (Hb base cand); congruence.
  - constructor; rewrite ?E1, ?E2; done.
Qed.

Lemma clone_result res : clonePublicationResult res = res.
Proof using. by destruct res. Qed.

(** What publishing a valid reservation does. *)
Definition published_state (r : PublicationReservation W) (res : PublicationResult) (ring : StateRing) (p p' : pub) : Prop :=
  pb_pointer p' = S (pb_pointer p) /\ pb_current p' = pu_Version res /\ pb_ring p' = ring.

Lemma publish_cases canceled p req r log : ring_ok json_Valid json_Marshal (pb_ring p) log -> pr_completed r = false ->
  reserved p req (pr_result r) ->
  exists out p' r', publish canceled p r = Some (out, p', r') /\ pb_locked p' = false /\ pr_completed r' = true /\
  ((exists ring, ring_ok json_Valid json_Marshal ring (log ++ pu_Events (pr_result r)) /\
     published_state r (pr_result r) ring p p' /\ canceled = false /\ (run_commit (pr_runtimeCommit r) (pb_world p)).2.1 = None /\
     (out = Ok (pr_result r) \/ exists e, out = Err (ErrFanout e))) \/
   (pb_pointer p' = pb_pointer p /\ pb_current p' = pb_current p /\ pb_ring p' = pb_ring p /\ pb_bus p' = pb_bus p /\
     (canceled = true /\ out = Err ErrCanceled /\ pb_world p' = pb_world p \/
      canceled = false /\ exists e, out = Err (commit_error e) /\ (run_commit (pr_runtimeCommit r) (pb_world p)).2.1 = Some e))).
Proof using.
  intros Hring Hc [_ _ _ _ _ _ Hvalid _ _ _]. unfold Publication.publish, claimCompletion. rewrite Hc. cbn [negb].
  assert (Hbus : forall bus : option (nat * EventBus C), match bus with Some (id, b) => Some (id, b) | None => None end = bus) by (by intros [[]|]).
  destruct canceled.
  { do 3 eexists. split; [done|]. split; [done|]. split; [done|]. right.
    cbn [finish with_locked pb_pointer pb_current pb_ring pb_bus pb_world fold_left]. rewrite Hbus. split_and!; try done. by left. }
  cbn [pr_runtimeCommit pr_result]. destruct (run_commit (pr_runtimeCommit r) (pb_world p)) as [w [failed cleanup]]. cbn [snd fst].
  destruct failed as [e|].
  1: { do 3 eexists. split; [done|]. split; [done|]. split; [done|]. right.
       cbn [finish with_world pb_pointer pb_current pb_ring pb_bus pb_world fold_left]. rewrite Hbus. split_and!; try done. right. split; [done|by exists e]. }
  pose proof (Append_cases json_Valid json_Marshal _ _ (pu_Events (pr_result r)) Hring) as Ha. rewrite Hvalid in Ha.
  destruct Ha as (ring & Ha & Hok). change (pb_ring (with_world p w)) with (pb_ring p). rewrite Ha. cbn [mbind option_bind].
  cbn [pb_bus with_world]. destruct (pb_bus p) as [[id b]|].
  - destruct (fanout _ _ _ b _ _ _) as [[slow|e] b']; (do 3 eexists; split; [done|]; split; [done|]; split; [done|]; left;
      exists ring; split; [done|]; split; [done|]; split; [done|]; split; [done|]); [left; by rewrite clone_result|right; by eexists].
  - do 3 eexists. split; [done|]. split; [done|]. split; [done|]. left. exists ring. split_and!; try done. left. by rewrite clone_result.
Qed.

Lemma pub_step_ok state log0 y y' : pub_step y y' -> pub_ok state log0 y -> pub_ok state log0 y'.
Proof using.
  intros Hs [H1 H2 H3 H4 H5 H6].
  destruct Hs as [p pubs now req r p' Hl Hb Hr|p pubs now req e p' Hl Hr|p pubs r p' r' Ha|p pubs r canceled out p' r' Hp|p held pubs bus|p held pubs w];
    cbn [fst snd] in *.
  - unfold Reserve in Hr. destruct (reserveLocked now p req) as [res|] eqn:Hres; [|done]. injection Hr as <- <-.
    constructor; cbn [fst snd]; try done. split; [done|]. split; [done|]. exists req.
    apply (reserved_frame p); try done. split; [done|]. by eapply reserve_spec.
  - unfold Reserve in Hr. destruct (reserveLocked now p req); [done|]. injection Hr as <- <-. by constructor.
  - destruct H6 as (Hc & _ & _). unfold Abort, claimCompletion in Ha. rewrite Hc in Ha. injection Ha as <- <-. by constructor.
  - destruct H6 as (Hc & _ & req & Hb & Hres).
    destruct (publish_cases canceled p req r _ H1 Hc Hres) as (out' & p1 & r1 & Hp1 & L1 & L2 & Hcase). rewrite Hp in Hp1.
    injection Hp1 as <- <- <-. destruct Hcase as [(ring & Hring & (E1 & E2 & E3) & _ & _ & Hout)|(E1 & E2 & E3 & E4 & Hout)].
    + assert (published out (pr_result r) = [pr_result r]) as -> by (destruct Hout as [-> | [e ->]]; done).
      assert (Hlog : log0 ++ published_events (pubs ++ [pr_result r]) = (log0 ++ published_events pubs) ++ pu_Events (pr_result r)).
      { unfold published_events. rewrite fmap_app, concat_app. cbn. by rewrite app_nil_r, app_assoc. }
      destruct Hres as [R1 R2 R3 R4 _ _ Rv _ _ _].
      constructor; cbn [fst snd]; rewrite ?E2, ?E3.
      * by rewrite Hlog.
      * rewrite (ok_high _ _ _ _ Hring), R4. rewrite len_app. rewrite <- (ok_high _ _ _ _ H1), H2.
        destruct (validate_spec _ _ _ _ _ (ok_hw _ _ _ _ H1) Rv) as [(Hn & _ & _) _].
        destruct (last (pu_Events (pr_result r))) as [e|] eqn:El.
        -- apply last_Some in El as [l' El]. rewrite El in Hn |- *. apply numbered_app in Hn as [_ [Hg _]].
           rewrite Hg, H2, len_app. unfold len. cbn. lia.
        -- apply last_None in El. rewrite El. unfold len. cbn. lia.
      * rewrite R1, H3, len_app. unfold u64, len. rewrite Zplus_mod_idemp_l. cbn. f_equal. lia.
      * by rewrite R2.
      * by rewrite last_snoc.
      * done.
    + assert (published out (pr_result r) = []) as -> by (destruct Hout as [(_ & -> & _)|(_ & [] & -> & _)]; done). rewrite app_nil_r.
      constructor; cbn [fst snd]; rewrite ?E2, ?E3; done.
  - constructor; cbn [fst snd]; try done. destruct held as [r|]; [|done]. destruct H6 as (A & B & req & D). split; [done|]. split; [done|].
    exists req. by apply (reserved_frame p).
  - constructor; cbn [fst snd]; try done. destruct held as [r|]; [|done]. destruct H6 as (A & B & req & D). split; [done|]. split; [done|].
    exists req. by apply (reserved_frame p).
Qed.

Lemma pub_reachable_ok state ring w log0 p0 y : ring_reach json_Valid json_Marshal ring log0 -> is_u64 (number state) ->
  NewStatePublication state ring w = Ok p0 -> rtc pub_step (p0, None, []) y -> pub_ok state log0 y.
Proof using.
  intros Hr Hu Hn Hs. remember (p0, None, []) as y0 eqn:E0. assert (H0 : pub_ok state log0 y0).
  { subst. unfold NewStatePublication in Hn. destruct (Z.eqb_spec (HighWater ring) (cp_GEID (checkpoint state))); [|done]. injection Hn as <-.
    constructor; cbn [fst snd pb_ring pb_current pb_locked]; try done.
    - unfold published_events. cbn. rewrite app_nil_r. by apply reach_ok.
    - unfold len. cbn. by rewrite Z.add_0_r, u64_small. }
  clear E0. induction Hs; eauto using pub_step_ok.
Qed.

(** C2: Published state and replay ring never disagree.  In every run of
    reservations, aborts, publications, failures and bus activity, a capture
    pairs the current version with a ring that ends exactly at that version's
    checkpoint; the ring is a suffix of all events ever published, numbered
    without gap; versions are numbered consecutively, keep the stream epoch, and
    the current one is that of the last publication. *)
Theorem publication_consistent state ring w log0 p0 p held pubs :
  ring_reach json_Valid json_Marshal ring log0 -> is_u64 (number state) -> NewStatePublication state ring w = Ok p0 ->
  rtc pub_step (p0, None, []) (p, held, pubs) ->
  let log := log0 ++ published_events pubs in
  let capture := Capture p in
  numbered 1 log /\ (exists old, log = old ++ ps_Events capture) /\ ps_HighWater capture = len log /\
  cp_GEID (checkpoint (ps_Version capture)) = len log /\
  cp_StreamEpoch (checkpoint (ps_Version capture)) = cp_StreamEpoch (checkpoint state) /\
  number (ps_Version capture) = u64 (number state + len pubs) /\
  ps_Version capture = match last pubs with Some res => pu_Version res | None => state end.
Proof using.
  intros Hr Hu Hn Hs log capture. destruct (pub_reachable_ok _ _ _ _ _ _ Hr Hu Hn Hs) as [H1 H2 H3 H4 H5 _]. cbn [fst snd] in *.
  destruct H1 as [L1 L2 _ L4 _ _ _ _ _]. split_and!; try done. cbn. rewrite <- H2. exact L2.
Qed.

(** A reservation is decided once and never half-published.  Publishing it
    always returns and always frees the lock: either the version and its events
    are installed together, whatever the ring, or, when the context was canceled
    or the runtime commit failed, neither version nor ring nor bus changes; the
    ring never refuses what was reserved.  Aborting changes nothing else, and a
    completed reservation does nothing again. *)
Theorem reservation_decides state ring w log0 p0 p r pubs canceled :
  ring_reach json_Valid json_Marshal ring log0 -> is_u64 (number state) -> NewStatePublication state ring w = Ok p0 ->
  rtc pub_step (p0, None, []) (p, Some r, pubs) ->
  (exists out p' r', publish canceled p r = Some (out, p', r') /\ pb_locked p' = false /\
    (forall c q, publish c q r' = Some (Err ErrInvalidPublication, q, r')) /\ (forall q : pub, Abort q r' = (q, r')) /\
    match out with
    | Ok res => res = Result r /\ pb_current p' = pu_Version res /\ highWater (pb_ring p') = cp_GEID (pu_Checkpoint res)
    | Err (ErrFanout _) => pb_current p' = pu_Version (Result r) /\ highWater (pb_ring p') = cp_GEID (pu_Checkpoint (Result r))
    | Err e => (e = ErrCanceled /\ canceled = true \/ exists c, e = commit_error c /\ (run_commit (pr_runtimeCommit r) (pb_world p)).2.1 = Some c) /\
               pb_current p' = pb_current p /\ pb_ring p' = pb_ring p /\ pb_bus p' = pb_bus p
    end) /\
  (exists p' r', Abort p r = (p', r') /\ pb_locked p' = false /\ pb_current p' = pb_current p /\ pb_ring p' = pb_ring p /\ pb_bus p' = pb_bus p).
Proof using.
  intros Hr Hu Hn Hs. pose proof (pub_reachable_ok _ _ _ _ _ _ Hr Hu Hn Hs) as Hok. pose proof Hok as [H1 H2 H3 H4 H5 (Hc & Hl & req & Hb & Hres)].
  cbn [fst snd] in *. split.
  - destruct (publish_cases canceled p req r _ H1 Hc Hres) as (out & p' & r' & Hp & L1 & L2 & Hcase). exists out, p', r'.
    split; [done|]. split; [done|].
    split; [intros c q; unfold Publication.publish, claimCompletion; by rewrite L2|].
    split; [intros q; unfold Abort, claimCompletion; by rewrite L2|].
    assert (Hend : pb_current p' = pu_Version (Result r) -> published out (pr_result r) = [pr_result r] ->
      highWater (pb_ring p') = cp_GEID (pu_Checkpoint (Result r))).
    { intros Ecur Hpub. pose proof (pub_step_ok state log0 _ _ (ps_publish p pubs r canceled out p' r' Hp) Hok) as [_ Hh _ _ _ _].
      cbn [fst snd] in Hh. rewrite Hh, Ecur. unfold Result. rewrite clone_result. by rewrite (rv_checkpoint _ _ _ Hres). }
    unfold Result in *. rewrite clone_result in *.
    destruct Hcase as [(ring' & _ & (_ & E2 & _) & _ & _ & [-> | [e ->]])|(_ & E2 & E3 & E4 & [(-> & -> & _)|(-> & c & -> & E5)])]; [auto 8..|]. destruct c; (split; [right; eexists; split; [|exact E5]; done|auto]).
  - unfold Abort, claimCompletion. rewrite Hc. by eexists _, _.
Qed.

End Publications.

(** ** Examples *)

#[local] Existing Instance EventBusProps.ex_prims.
#[local] Instance ex_pprims : PublicationPrims := {
  json_scope := fun _ => Some [1]; json_fragment := fun _ _ _ _ _ => Some [1]; json_digest := fun _ => Some [1];
  json_group := fun _ _ => Some [1]; json_channel := fun _ _ _ => Some [1]; sha256 := fun _ => [1];
  role_grants := fun _ => None; server_version := EmptyString }.

Definition ex_group (visibility : string) : Group := mkGroup 1 "g" 0 visibility 0 0 1.
Definition ex_state (visibility : string) : persistentState :=
  mkPersistent {[7 := mkUser 7 "u" "u" None 1 true 0 0]} ∅ {[1 := ex_group visibility]} ∅ ∅ ∅ ∅ ∅ ∅ ∅.
Definition ex_before : StateVersion := mkVersion 1 (mkCheckpoint "e" 0) (ex_state "private") empty_runtime.
Definition ex_after : StateVersion := mkVersion 2 (mkCheckpoint "e" 0) (ex_state "public") empty_runtime.
Definition ex_ring : StateRing := mkRing [] 0 0 10 1000.
Definition ex_template : StateEventTemplate :=
  mkTemplate "group.updated" (mkScope "group" 1) 5 (Some [1]) StateDeliveryVisibleAfter [] 0 0 0 false.
Definition ex_request : PublicationRequest unit := mkRequest (Some (0%nat, ex_after)) [ex_template] [7] None.
Definition ex_pub : StatePublication EventBusProps.webSocketSyncConnection unit := mkPub 0 ex_before ex_ring None false tt.
Definition ok_json : bytes -> bool := fun _ => true.
Definition ok_marshal : stateEventEnvelope -> option bytes := fun _ => Some [1].

Lemma ex_built : built ex_pub ex_request.
Proof. by intros base cand [= <- <-] _. Qed.

Definition ex_result : PublicationResult :=
  match reserveLocked ok_json ok_marshal 0 ex_pub ex_request with
  | Ok res => res
  | Err _ => mkResult ex_before (mkCheckpoint "e" 0) [] ∅
  end.

Lemma ex_reserved : reserveLocked ok_json ok_marshal 0 ex_pub ex_request = Ok ex_result.
Proof. unfold ex_result. destruct (reserveLocked _ _ _ _ _) eqn:E; [done|]. by vm_compute in E. Qed.

Lemma epoch_proves_transition_witness : VisibilityEpoch ex_before 7 = 0 /\
  exists pre e post, pu_Events ex_result = pre ++ e :: post /\ cursorEpochForEvent e 7 (pu_Version ex_result) = 1.
Proof.
  split; [reflexivity|].
  pose proof (epoch_proves_transition ok_json ok_marshal 0 ex_pub ex_request ex_result 7 ex_built
    ltac:(by repeat constructor) ex_reserved) as H. cbn zeta in H.
  assert (Hd : exists d, pu_VisibilityChanges ex_result !! 7 = Some d).
  { exists (mkChange [mkScope "group" 1] []). vm_compute. reflexivity. }
  destruct Hd as [d Hd]. rewrite Hd in H.
  destruct H as (_ & _ & _ & He & pre & e & post & H1 & _ & _ & H2 & _). exists pre, e, post. split; [exact H1|].
  rewrite H2, He. by vm_compute.
Defined.

Lemma ex_ring_reach : ring_reach ok_json ok_marshal ex_ring [].
Proof. by apply (rr_new _ _ 10 1000). Qed.

Definition ex_reservation : PublicationReservation unit := mkReservation ex_result None false.

Lemma pub_run json_user : rtc (pub_step ok_json ok_marshal json_user) (ex_pub, None, []) (with_locked ex_pub true, Some ex_reservation, []).
Proof.
  apply rtc_once. refine (ps_reserve ok_json ok_marshal json_user ex_pub [] 0 ex_request ex_reservation (with_locked ex_pub true) eq_refl ex_built _).
  unfold Reserve. rewrite ex_reserved. reflexivity.
Qed.

Lemma publication_consistent_witness : NewStatePublication ex_before ex_ring tt = Ok ex_pub /\
  ps_HighWater (Capture (with_locked ex_pub true)) = 0.
Proof.
  split; [done|].
  destruct (publication_consistent ok_json ok_marshal (fun _ => None) ex_before ex_ring tt [] ex_pub (with_locked ex_pub true)
    (Some ex_reservation) [] ex_ring_reach ltac:(split; by vm_compute) eq_refl (pub_run _)) as (_ & _ & H & _).
  exact H.
Defined.

Lemma reservation_decides_witness : exists out p' r',
  publish ok_json ok_marshal (fun _ => None) true (with_locked ex_pub true) ex_reservation = Some (out, p', r') /\ pb_locked p' = false.
Proof.
  destruct (reservation_decides ok_json ok_marshal (fun _ => None) ex_before ex_ring tt [] ex_pub (with_locked ex_pub true)
    ex_reservation [] true ex_ring_reach ltac:(split; by vm_compute) eq_refl (pub_run _)) as [(out & p' & r' & H1 & H2 & _) _].
  exists out, p', r'. exact (conj H1 H2).
Defined.

End PublicationProps.
