(* ===== verification/Sync.v ===== *)
(** * Sync: snapshots and the hello handoff ([realtime/sync.go])

    A client fetches a snapshot with a cursor over HTTP and presents the cursor in
    its WebSocket hello.  [OnHello] registers the connection under one
    publication capture, encodes the retained events after the cursor into
    [sync.replay] frames, and hands them over together with whatever was
    published in between.  It is two steps here, [hello_begin] under the
    publication's read lock and [hello_finish] after it, since publications may
    run in between.  The strategy's bus is the one bound to the publication,
    identified by [bus_id]. *)

From S2P Require Import Prelude State StateRing Visibility Cursor Snapshot Lane Connection EventBus Publication.
From stdpp Require Import base gmap strings list pretty.
From Stdlib Require Import ZArith Lia.
#[local] Open Scope string_scope.
#[local] Open Scope list_scope.
#[local] Open Scope Z_scope.

Module Sync.
Import State StateRing Visibility Snapshot Lane EventBus Publication.
Import Connection (ControlConnectionRef, r_UserID, validConnectionRef).

Definition maxSyncReplayBytes : Z := Z.shiftl 256 10.

Inductive SyncError :=
  | ErrInvalidStateSync | ErrSyncInvalidConnection | ErrSyncSlow | ErrSyncTooLarge | ErrSyncEncode
  | ErrSyncCursor (e : Cursor.CursorError) | ErrSyncEvent (e : RingError) | ErrSyncBus (e : BusError).

Record StateSnapshot := mkStateSnapshot {
  sn_Cursor : string; sn_StreamEpoch : string; sn_GEID : string; sn_StateVersion : string; sn_State : SnapshotState
}.

Definition syncRequiredReason (e : Cursor.CursorError) : string :=
  match e with
  | Cursor.ErrCursorEpoch => "epoch_changed"
  | Cursor.ErrCursorSchema => "schema_changed"
  | _ => "invalid_cursor"
  end.

Record syncPublicationCapture := mkCapture {
  sy_version : StateVersion; sy_events : list StateEvent; sy_highWater : Z; sy_visibilityEpoch : Z
}.

(** A hello either needs a new snapshot, for a reason, or has registered. *)
Inductive HelloStart := Required (reason : string) | Started (c : syncPublicationCapture) (l : nat).

Definition syncReplayFrameSize (from to eventBytes eventCount : Z) : Z :=
  let fixed := 71 in
  let commas := if 1 <? eventCount then eventCount - 1 else 0 in
  fixed + slen (pretty from) + slen (pretty to) + eventBytes + commas.

Section Strategy.
Context {C : Type} `{!StateSink C} {prims : Cursor.CursorPrims} {pprims : PublicationPrims} {W : Type}.
Context (json_Valid : bytes -> bool) (json_Marshal : stateEventEnvelope -> option bytes)
        (json_user : SnapshotUserPresence -> option bytes)
        (json_replay : string -> string -> list bytes -> option bytes) (json_complete : string -> option bytes).
Context (signer : Cursor.CursorSigner) (bus_id : nat).
Notation pub := (StatePublication C W).

Definition syncReplayFrame (from to : Z) (events : list bytes) : option bytes := json_replay (pretty from) (pretty to) events.
Definition syncCompleteFrame (cursor : string) : option bytes := json_complete cursor.

(** [NewFullSnapshotSyncStrategy]: [same] says that publication, bus and strategy
    share their resolver and that the bus uses the strategy's signer. *)
Definition NewFullSnapshotSyncStrategy (p : pub) (bus : nat * EventBus C) (same : bool) : option PublicationError * pub :=
  if negb same then (Some ErrInvalidPublication, p) else BindEventBus p bus same.

Definition CaptureSnapshot (p : pub) (userID : Z) : result StateSnapshot SyncError :=
  if userID <=? 0 then Err ErrInvalidStateSync
  else
    let capture := Capture p in
    match getUser (ps_Version capture) userID with
    | None => Err ErrInvalidStateSync
    | Some _ =>
        let cp := checkpoint (ps_Version capture) in
        match Cursor.Issue signer userID cp (VisibilityEpoch (ps_Version capture) userID) with
        | Err e => Err (ErrSyncCursor e)
        | Ok cursor => Ok (mkStateSnapshot cursor (cp_StreamEpoch cp) (pretty (cp_GEID cp)) (pretty (number (ps_Version capture)))
                             (snapshotStateFor role_grants server_version userID (ps_Version capture)))
        end
    end.

Definition IssueStateCursor (userID : Z) (v : StateVersion) : result string SyncError :=
  if userID <=? 0 then Err ErrInvalidStateSync
  else match getUser v userID with
       | None => Err ErrInvalidStateSync
       | Some _ => match Cursor.Issue signer userID (checkpoint v) (VisibilityEpoch v userID) with
                   | Err e => Err (ErrSyncCursor e) | Ok c => Ok c end
       end.

(** [beginSync] of the strategy, under the publication's read lock. *)
Definition beginSync (p : pub) (connection : nat) (ref : ControlConnectionRef) (cursor : Cursor.Cursor)
  : result HelloStart SyncError * pub :=
  match pb_bus p with
  | None => (Err ErrInvalidStateSync, p)
  | Some (id, b) =>
      if negb (id =? bus_id)%nat then (Err ErrInvalidStateSync, p)
      else
        let version := pb_current p in
        let '(events, highWater) := StateRing.Snapshot (pb_ring p) in
        if negb (cp_GEID (checkpoint version) =? highWater) then (Err ErrInvalidStateSync, p)
        else
          let visibilityEpoch := VisibilityEpoch version (r_UserID ref) in
          if negb (Cursor.cu_VisibilityEpoch cursor =? visibilityEpoch) then (Ok (Required "visibility_changed"), p)
          else if highWater <? cp_GEID (Cursor.cu_Checkpoint cursor) then (Ok (Required "invalid_cursor"), p)
          else
            let '(replay, replayable) := eventsAfterCapture events highWater (cp_GEID (Cursor.cu_Checkpoint cursor)) in
            if negb replayable then (Ok (Required "ring_miss"), p)
            else match EventBus.beginSync b connection version with
                 | (Err e, b) => (Err (ErrSyncBus e), mkPub (pb_pointer p) (pb_current p) (pb_ring p) (Some (id, b)) (pb_locked p) (pb_world p))
                 | (Ok l, b) => (Ok (Started (mkCapture version replay highWater visibilityEpoch) l),
                                 mkPub (pb_pointer p) (pb_current p) (pb_ring p) (Some (id, b)) (pb_locked p) (pb_world p))
                 end
  end.

(** ** Replay frames *)

(** The frames so far, their bytes, the open batch, its bytes and its first and
    last event. *)
Record ReplayState := mkReplay {
  rp_frames : list bytes; rp_frameBytes : Z; rp_batch : list bytes; rp_batchBytes : Z; rp_from : Z; rp_to : Z
}.

Definition flush (st : ReplayState) : result ReplayState SyncError :=
  if bool_decide (rp_batch st = []) then Ok st
  else match syncReplayFrame (rp_from st) (rp_to st) (rp_batch st) with
       | None => Err ErrSyncEncode
       | Some encoded =>
           if maxSyncReplayBytes <? len encoded then Err ErrSyncTooLarge
           else if (MaxWebSocketStateItems <=? len (rp_frames st) + 1) || (MaxWebSocketStateBytes <? rp_frameBytes st + len encoded)
           then Err ErrSyncSlow
           else Ok (mkReplay (rp_frames st ++ [encoded]) (rp_frameBytes st + len encoded) [] 0 (rp_from st) (rp_to st))
       end.

Definition encode_event (userID : Z) (version : StateVersion) (event : StateEvent) : result bytes SyncError :=
  match Cursor.Issue signer userID (mkCheckpoint (cp_StreamEpoch (checkpoint version)) (GEID event)) (cursorEpochForEvent event userID version) with
  | Err e => Err (ErrSyncCursor e)
  | Ok cursor => match encodeEventForRecipient json_Valid json_Marshal json_user event userID version cursor with
                 | Err e => Err (ErrSyncEvent e)
                 | Ok encoded => Ok encoded
                 end
  end.

Definition replay_one (userID : Z) (version : StateVersion) (st : ReplayState) (event : StateEvent) : result ReplayState SyncError :=
  if negb (eventVisibleTo userID event version) then Ok st
  else
    encoded <-? encode_event userID version event ;;
    let candidateFrom := if bool_decide (rp_batch st = []) then GEID event else rp_from st in
    let candidateBytes := rp_batchBytes st + len encoded in
    let candidateCount := len (rp_batch st) + 1 in
    (* flush first when the event does not fit the open batch *)
    acc <-? (if negb (bool_decide (rp_batch st = [])) &&
                (maxSyncReplayBytes <? syncReplayFrameSize candidateFrom (GEID event) candidateBytes candidateCount)
             then st <-? flush st ;; Ok (st, GEID event, len encoded, 1)
             else Ok (st, candidateFrom, candidateBytes, candidateCount)) ;;
    let '(st, candidateFrom, candidateBytes, candidateCount) := acc in
    if maxSyncReplayBytes <? syncReplayFrameSize candidateFrom (GEID event) candidateBytes candidateCount then Err ErrSyncTooLarge
    else Ok (mkReplay (rp_frames st) (rp_frameBytes st) (rp_batch st ++ [encoded]) candidateBytes
               (if bool_decide (rp_batch st = []) then candidateFrom else rp_from st) (GEID event)).

Definition replayFrames (userID : Z) (version : StateVersion) (events : list StateEvent) : result (list bytes) SyncError :=
  st <-? foldM (replay_one userID version) (mkReplay [] 0 [] 0 0 0) events ;;
  st <-? flush st ;;
  Ok (rp_frames st).

(** ** Hello *)

Definition hello_begin (p : pub) (connection : nat) (ref : ControlConnectionRef) (cursor : string) : result HelloStart SyncError * pub :=
  if negb (validConnectionRef ref) then (Err ErrSyncInvalidConnection, p)
  else match Cursor.Parse signer (r_UserID ref) cursor with
       | Err e => (Ok (Required (syncRequiredReason e)), p)
       | Ok parsed => beginSync p connection ref parsed
       end.

Definition on_bus (p : pub) (f : EventBus C -> EventBus C) : pub :=
  match pb_bus p with
  | Some (id, b) => mkPub (pb_pointer p) (pb_current p) (pb_ring p) (Some (id, f b)) (pb_locked p) (pb_world p)
  | None => p
  end.

(** The frames of the handoff: the replay and the final cursor. *)
Definition handoff_frames (userID : Z) (c : syncPublicationCapture) : result (list bytes) SyncError :=
  frames <-? replayFrames userID (sy_version c) (sy_events c) ;;
  match Cursor.Issue signer userID (mkCheckpoint (cp_StreamEpoch (checkpoint (sy_version c))) (sy_highWater c)) (sy_visibilityEpoch c) with
  | Err e => Err (ErrSyncCursor e)
  | Ok completeCursor => match syncCompleteFrame completeCursor with
                         | None => Err ErrSyncEncode
                         | Some complete => Ok (frames ++ [complete])
                         end
  end.

Definition is_slow (e : SyncError) : bool := match e with ErrSyncSlow => true | _ => false end.

Definition hello_finish (p : pub) (connection : nat) (ref : ControlConnectionRef) (c : syncPublicationCapture) (l : nat)
  : option SyncError * pub :=
  match handoff_frames (r_UserID ref) c with
  | Err e =>
      let p := if is_slow e then on_bus p (fun b => log_call b (CallSlow connection)) else p in
      (Some e, on_bus p (fun b => abortSync b l))
  | Ok frames =>
      match pb_bus p with
      | None => (Some ErrInvalidStateSync, p)
      | Some (id, b) =>
          let '(e, b) := completeSync b l frames in
          let p := mkPub (pb_pointer p) (pb_current p) (pb_ring p) (Some (id, b)) (pb_locked p) (pb_world p) in
          match e with
          | Some e => (Some (ErrSyncBus e), on_bus p (fun b => abortSync b l))
          | None => (None, p)
          end
      end
  end.

(** [OnHello] without other work in between: the reason for a new snapshot, if any. *)
Definition OnHello (p : pub) (connection : nat) (ref : ControlConnectionRef) (cursor : string)
  : result (option string) SyncError * pub :=
  match hello_begin p connection ref cursor with
  | (Err e, p) => (Err e, p)
  | (Ok (Required reason), p) => (Ok (Some reason), p)
  | (Ok (Started c l), p) =>
      match hello_finish p connection ref c l with
      | (Some e, p) => (Err e, p)
      | (None, p) => (Ok None, p)
      end
  end.

Definition OnDisconnect (p : pub) (ref : ControlConnectionRef) : pub := on_bus p (fun b => unsubscribe b ref).

(** ** The replay is exact *)

(** The encoding for a recipient carries a cursor that names the event. *)
Definition encodes (userID : Z) (version : StateVersion) (e : StateEvent) (encoded : bytes) : Prop :=
  exists cursor, Cursor.Issue signer userID (mkCheckpoint (cp_StreamEpoch (checkpoint version)) (GEID e)) (cursorEpochForEvent e userID version) = Ok cursor /\
    encodeEventForRecipient json_Valid json_Marshal json_user e userID version cursor = Ok encoded.
(** What the client is to receive of [events]: the encodings of those it sees. *)
Definition owed (userID : Z) (version : StateVersion) (events : list StateEvent) (out : list (Z * bytes)) : Prop :=
  Forall2 (fun e p => p.1 = GEID e /\ encodes userID version e p.2)
    (filter (fun e => eventVisibleTo userID e version = true) events) out.

Lemma encode_encodes userID version e encoded : encode_event userID version e = Ok encoded -> encodes userID version e encoded.
Proof using.
  unfold encode_event, encodes. destruct (Cursor.Issue _ _ _ _) as [cursor|]; [|done]. destruct (encodeEventForRecipient _ _ _ _ _ _ _) eqn:E; [|done].
  intros [= <-]. by exists cursor.
Qed.

(** A frame of a batch: its first and last identifier and its events. *)
Definition frame_of (batch : list (Z * bytes)) (frame : bytes) : Prop :=
  exists first rest last, batch = first :: rest /\ List.last (first :: rest) first = last /\
    syncReplayFrame first.1 last.1 (snd <$> batch) = Some frame /\ len frame <= maxSyncReplayBytes.

Definition total_len (l : list bytes) : Z := foldr (fun b n => len b + n) 0 l.

Definition open_ok (st : ReplayState) (batch : list (Z * bytes)) : Prop :=
  rp_batch st = snd <$> batch /\ rp_batchBytes st = total_len (rp_batch st) /\
  match batch with
  | [] => True
  | first :: rest => rp_from st = first.1 /\ rp_to st = (List.last (first :: rest) first).1
  end.

Record replay_ok (st : ReplayState) (batches : list (list (Z * bytes))) (batch : list (Z * bytes)) : Prop := {
  ro_frames : Forall2 frame_of batches (rp_frames st);
  ro_bytes : rp_frameBytes st = total_len (rp_frames st) /\ rp_frameBytes st <= MaxWebSocketStateBytes;
  ro_count : len (rp_frames st) < MaxWebSocketStateItems;
  ro_open : open_ok st batch
}.

Lemma total_len_app a b : total_len (a ++ b) = total_len a + total_len b.
Proof using. unfold total_len. induction a as [|x a IH]; cbn; lia. Qed.

Lemma flush_ok st batches batch st' : replay_ok st batches batch -> flush st = Ok st' ->
  rp_batch st' = [] /\ exists batches', concat batches' = concat batches ++ batch /\ replay_ok st' batches' [].
Proof using.
  intros [H1 [H2 H2'] H3 (H4 & H5 & H6)]. unfold flush. destruct (bool_decide (rp_batch st = [])) eqn:Hb.
  - intros [= <-]. apply bool_decide_eq_true in Hb. split; [done|]. exists batches. rewrite Hb in H4. destruct batch; [|done].
    rewrite app_nil_r. split; [done|]. by constructor.
  - apply bool_decide_eq_false in Hb. destruct (syncReplayFrame _ _ _) as [enc|] eqn:Hf; [|done].
    destruct (Z.ltb_spec maxSyncReplayBytes (len enc)); [done|].
    destruct (Z.leb_spec MaxWebSocketStateItems (len (rp_frames st) + 1)); [done|]. cbn [orb].
    destruct (Z.ltb_spec MaxWebSocketStateBytes (rp_frameBytes st + len enc)); [done|]. intros [= <-]. split; [done|].
    exists (batches ++ [batch]). rewrite concat_app. cbn [concat]. rewrite app_nil_r. split; [done|].
    constructor; cbn [rp_frames rp_frameBytes rp_batch rp_batchBytes].
    + apply Forall2_app; [done|]. constructor; [|constructor]. destruct batch as [|first rest]; [by rewrite H4 in Hb|].
      destruct H6 as [E1 E2]. exists first, rest, (List.last (first :: rest) first). rewrite <- E1, <- E2, <- H4. done.
    + rewrite total_len_app. unfold total_len at 2. cbn. lia.
    + rewrite len_app. unfold len in *. cbn. lia.
    + done.
Qed.

Lemma last_snoc_list {A} (l : list A) x d : List.last (l ++ [x]) d = x.
Proof using. by rewrite List.last_last. Qed.

Lemma push_ok st batches batch geid enc : replay_ok st batches batch ->
  replay_ok (mkReplay (rp_frames st) (rp_frameBytes st) (rp_batch st ++ [enc]) (rp_batchBytes st + len enc)
    (if bool_decide (rp_batch st = []) then geid else rp_from st) geid) batches (batch ++ [(geid, enc)]).
Proof using.
  intros [H1 H2 H3 (H4 & H5 & H6)]. constructor; cbn [rp_frames rp_frameBytes]; [done..|].
  split_and!; cbn [rp_batch rp_batchBytes rp_from rp_to].
  - by rewrite fmap_app, H4.
  - rewrite total_len_app, H5. unfold total_len. cbn. lia.
  - destruct batch as [|first rest]; cbn [app].
    + rewrite H4. done.
    + rewrite (bool_decide_eq_false_2 (rp_batch st = [])) by (by rewrite H4). destruct H6 as [-> _]. split; [done|].
      change (first :: rest ++ [(geid, enc)]) with ((first :: rest) ++ [(geid, enc)]). by rewrite last_snoc_list.
Qed.

Lemma replay_one_ok userID version st event batches batch st' : replay_ok st batches batch ->
  eventVisibleTo userID event version = true -> replay_one userID version st event = Ok st' ->
  exists enc batches' batch', encode_event userID version event = Ok enc /\
  concat batches' ++ batch' = concat batches ++ batch ++ [(GEID event, enc)] /\ replay_ok st' batches' batch'.
Proof using.
  intros Hok Hv. unfold replay_one. rewrite Hv. cbn [negb]. intros H. apply rbind_Ok in H as (enc & He & H). exists enc.
  apply rbind_Ok in H as ([[[st1 cf] cb] cc] & Hacc & H).
  revert H. destruct (maxSyncReplayBytes <? syncReplayFrameSize cf _ _ _); [done|]. intros [= <-].
  destruct (bool_decide (rp_batch st = [])) eqn:Hb; cbn [negb andb] in Hacc.
  - injection Hacc as <- <- <- <-. exists batches, (batch ++ [(GEID event, enc)]). split; [done|]. split; [done|].
    pose proof (push_ok st batches batch (GEID event) enc Hok) as Hp. rewrite Hb in Hp |- *. exact Hp.
  - revert Hacc. destruct (_ <? _); intros Hacc.
    + apply rbind_Ok in Hacc as (st2 & Hf & [= <- <- <- <-]). destruct (flush_ok _ _ _ _ Hok Hf) as (Hempty & bs' & Hc & Hok').
      exists bs', [(GEID event, enc)]. split; [done|]. split; [by rewrite Hc, app_assoc|].
      pose proof (push_ok st2 bs' [] (GEID event) enc Hok') as Hp. destruct (ro_open _ _ _ Hok') as (_ & Hbytes & _).
      rewrite Hempty in Hbytes. unfold total_len in Hbytes. cbn in Hbytes. rewrite Hbytes in Hp. exact Hp.
    + injection Hacc as <- <- <- <-. exists batches, (batch ++ [(GEID event, enc)]). split; [done|]. split; [done|].
      pose proof (push_ok st batches batch (GEID event) enc Hok) as Hp. rewrite Hb in Hp |- *. exact Hp.
Qed.

Lemma owed_snoc userID version seen e out : owed userID version seen out ->
  (eventVisibleTo userID e version = false -> owed userID version (seen ++ [e]) out) /\
  (forall enc, eventVisibleTo userID e version = true -> encode_event userID version e = Ok enc ->
   owed userID version (seen ++ [e]) (out ++ [(GEID e, enc)])).
Proof using.
  unfold owed. intros H. rewrite filter_app. split.
  - intros Hv. rewrite filter_cons_False by congruence. by rewrite filter_nil, app_nil_r.
  - intros enc Hv He. rewrite filter_cons_True, filter_nil by done. apply Forall2_app; [done|]. constructor; [|done]. split; [done|by apply encode_encodes].
Qed.

(** A replay is the visible suffix, complete and in order.  When the frames
    can be built, cutting their batches open gives exactly the recipient's
    encodings of the captured events it may see, in order; each frame names its
    first and last event and is at most 256 KiB; and one queue slot is left for
    the completing cursor, within the 1 MiB of the connection's queue. *)
Theorem replay_exact userID version events frames : replayFrames userID version events = Ok frames ->
  exists batches out, owed userID version events out /\ concat batches = out /\ Forall2 frame_of batches frames /\
  len frames < 256 /\ total_len frames <= 1048576.
Proof using.
  intros H. apply rbind_Ok in H as (st & Hf & H). apply rbind_Ok in H as (st' & Hfl & [= <-]).
  assert (exists batches batch, owed userID version events (concat batches ++ batch) /\ replay_ok st batches batch) as (bs & b & Ho & Hok).
  { revert Hf. apply (foldM_ind (fun seen st => exists batches batch, owed userID version seen (concat batches ++ batch) /\ replay_ok st batches batch)).
    - exists [], []. split; [by constructor|]. by repeat constructor.
    - intros seen e st0 st1 (bs & b & Ho & Hok) Hr. destruct (eventVisibleTo userID e version) eqn:Hv.
      + destruct (replay_one_ok _ _ _ _ _ _ _ Hok Hv Hr) as (enc & bs' & b' & He & Hc & Hok'). exists bs', b'. split; [|done].
        rewrite Hc, app_assoc. by apply owed_snoc.
      + unfold replay_one in Hr. rewrite Hv in Hr. injection Hr as <-. exists bs, b. split; [|done]. by apply (owed_snoc _ _ _ e _ Ho). }
  destruct (flush_ok _ _ _ _ Hok Hfl) as (_ & bs' & Hc & [R1 [R2 R2'] R3 _]). exists bs', (concat bs'). rewrite Hc. split_and!; try done.
  rewrite <- R2. exact R2'.
Qed.

End Strategy.

(** A concrete replay of one event. *)
#[local] Instance ex_prims : Cursor.CursorPrims := {
  Cursor.payload_Marshal := fun _ => Some []; Cursor.payload_Unmarshal := fun _ => None; Cursor.hmac_sha256 := fun _ _ => [];
  Cursor.b64_Encode := fun _ => "c"; Cursor.b64_Decode := fun _ => None }.
Definition ex_event : StateEvent :=
  mkEvent 1 "presence.updated" (mkScope "server" 0) 0 0 (Some [1]) StateDeliveryUserTargeted [] 7 0 0 false [] None [].
Definition ex_replay : result (list bytes) SyncError :=
  replayFrames (fun _ => true) (fun _ => Some [9]) (fun _ => None) (fun _ _ evs => Some (0 :: concat evs))
    (Cursor.mkSigner EmptyString []) 7 ex_version [ex_event].

Lemma replay_exact_witness : ex_replay = Ok [[0; 9]] /\ exists batches : list (list (Z * bytes)), length batches = 1%nat.
Proof.
  assert (H : ex_replay = Ok [[0; 9]]) by (vm_compute; reflexivity). split; [exact H|].
  destruct (replay_exact _ _ _ _ _ _ _ _ _ H) as (batches & out & _ & _ & H2 & _). exists batches. exact (Forall2_length _ _ _ H2).
Defined.

End Sync.
