(* ===== verification/SyncProps.v ===== *)
(** * SyncProps: from a cursor to live delivery without a gap

    The publication, its bus and the hellos run together ([node_step]): every
    interleaving of reservations, publications, hellos, disconnects, shutdown and
    writers.  As in [EventBusProps], a publication whose fan-out fails is fatal.
    The theorem says what a synchronised connection has been given. *)

From S2P Require Import Prelude State StateRing Visibility Strconv Cursor Snapshot Lane Connection EventBus EventBusProps Publication PublicationProps Sync.
From stdpp Require Import base gmap strings list relations pretty.
From Stdlib Require Import ZArith Lia.
#[local] Open Scope string_scope.
#[local] Open Scope list_scope.
#[local] Open Scope Z_scope.

Module SyncProps.
Import State StateRing Visibility Snapshot Lane EventBus EventBusProps Publication PublicationProps.
Import Connection (ControlConnectionRef, r_UserID, validConnectionRef).

(** Operations other than a registration only shrink the registry. *)
Section Registry.
Context {C : Type} `{!StateSink C, !StateSinkLaws C} {cprims : Cursor.CursorPrims}.
Context (json_Valid : bytes -> bool) (json_Marshal : stateEventEnvelope -> option bytes)
        (json_user : SnapshotUserPresence -> option bytes).

Definition shrinks (b b' : EventBus C) : Prop :=
  forall ref l, eb_subscriptions b' !! ref = Some l -> eb_subscriptions b !! ref = Some l.

Lemma shrinks_refl (b : EventBus C) : shrinks b b.
Proof using. by intros ref l. Qed.

Lemma apply_conn_subs (b : EventBus C) l s r i : eb_subscriptions (apply_conn b l s r i).2 = eb_subscriptions b.
Proof using. unfold apply_conn. case_match; [|done]. by case_match. Qed.

Lemma shrinks_remove (b : EventBus C) l : shrinks b (remove b l).
Proof using. intros ref l' H. by apply remove_fields in H as [H _]. Qed.

Lemma shrinks_abort (b : EventBus C) l : shrinks b (abortSync b l).
Proof using. unfold abortSync. case_match; [|apply shrinks_refl]. intros ref l' Hl'. by apply shrinks_remove in Hl'. Qed.

Lemma shrinks_complete (b : EventBus C) l frames : shrinks b (completeSync b l frames).2.
Proof using.
  unfold completeSync. destruct (eb_heap b !! l) as [s|]; [|apply shrinks_refl]. destruct (negb (su_active s) || _); [apply shrinks_refl|].
  set (x := if stateItemBatchWithinLimits _ then _ else _).
  assert (Hx : eb_subscriptions x.2 = eb_subscriptions b) by (unfold x; case_match; [apply apply_conn_subs|done]).
  destruct x as [ok b1]. cbn [snd] in Hx. intros ref l'. destruct ok; cbn [negb snd put_sub with_heap log_call eb_subscriptions].
  - by rewrite Hx.
  - intros H. apply shrinks_remove in H. cbn in H. by rewrite Hx in H.
Qed.

Lemma shrinks_unsubscribe (b : EventBus C) ref : shrinks b (unsubscribe b ref).
Proof using.
  unfold unsubscribe. destruct (negb _); [apply shrinks_refl|]. destruct (eb_subscriptions b !! ref) as [l|] eqn:Hl; [|apply shrinks_refl]. intros r l'.
  cbn. case_match; cbn; by intros [_ ?]%lookup_delete_Some.
Qed.

Lemma shrinks_close (b : EventBus C) : shrinks b (Close b).
Proof using.
  unfold Close, snapshotAndClose. destruct (eb_closed b); [apply shrinks_refl|]. intros ref l.
  match goal with |- context [fold_left ?f ?ls ?x] => destruct (retire_all ls x) as (_ & _ & R & _) end.
  unfold retire_at in R. rewrite R. cbn. by rewrite lookup_empty.
Qed.

Lemma fan_all_subs v events changes ls acc : eb_subscriptions (fan_all json_Valid json_Marshal json_user v events changes acc ls).1.2 = eb_subscriptions (acc.2 : EventBus C).
Proof using.
  revert acc. induction ls as [|l ls IH]; intros [slow b]; [done|]. cbn [fan_all].
  assert (Hone : eb_subscriptions (fan_one json_Valid json_Marshal json_user v events changes (slow, b) l).1.2 = eb_subscriptions b).
  { unfold fan_one. destruct (eb_heap b !! l) as [s|]; [|done]. destruct (negb _); [done|]. destruct (liveItems _ _ _ _ _ _ _) as [[items over]|]; [|done].
    set (s1 := if Changed _ then _ else _). destruct over.
    - destruct (bool_decide _); cbn [fst snd put_sub with_heap eb_subscriptions]; [done|apply apply_conn_subs].
    - destruct (_ && _); [done|]. destruct (su_phase s1).
      + destruct (appendPending s1 _ items) as [ok s2]. by destruct ok.
      + pose proof (apply_conn_subs b l s1 (Revoked (change_of changes (r_UserID (su_ref s)))) items) as Ha.
        destruct (apply_conn b l s1 _ items) as [ok b1]. by destruct ok. }
  destruct (fan_one _ _ _ _ _ _ _ _) as [[slow1 b1] e]. cbn [fst snd] in Hone. destruct e; [done|]. rewrite IH. done.
Qed.

Lemma shrinks_fanout (b : EventBus C) v events changes : shrinks b (fanout json_Valid json_Marshal json_user b v events changes).2.
Proof using.
  unfold fanout. pose proof (fan_all_subs v events changes (snapshotSubscriptions b) ([], b)) as Hf.
  destruct (fan_all _ _ _ _ _ _ _ _) as [[slow b1] e]. cbn [fst snd] in Hf. intros ref l. destruct e; cbn [snd]; [by rewrite Hf|].
  intros H. apply removes_fields in H as [H _]. by rewrite Hf in H.
Qed.

End Registry.

Section Nodes.
Context {C : Type} `{!StateSink C, !StateSinkLaws C} {cprims : Cursor.CursorPrims} {pprims : PublicationPrims} {W : Type}.
Context (json_Valid : bytes -> bool) (json_Marshal : stateEventEnvelope -> option bytes)
        (json_user : SnapshotUserPresence -> option bytes)
        (json_replay : string -> string -> list bytes -> option bytes) (json_complete : string -> option bytes).
Context (signer : Cursor.CursorSigner) (bus_id : nat) (state : StateVersion) (log0 : list StateEvent).
Notation pub := (StatePublication C W).
Notation publish := (Publication.publish json_Valid json_Marshal json_user).
Notation hello_finish := (Sync.hello_finish json_Valid json_Marshal json_user json_replay json_complete signer).
Notation handoff_frames := (Sync.handoff_frames json_Valid json_Marshal json_user json_replay json_complete signer).
Notation replayFrames := (Sync.replayFrames json_Valid json_Marshal json_user json_replay signer).
Notation batch := (EventBusProps.batch json_Valid json_Marshal json_user signer).
Notation pending_of := (EventBusProps.pending_of json_Valid json_Marshal json_user signer).
Notation bus_step := (EventBusProps.bus_step json_Valid json_Marshal json_user).
Notation bus_ok := (EventBusProps.bus_ok json_Valid json_Marshal json_user signer).

(** A hello that registered: the publications before it, the identifier its
    cursor proves, and its capture. *)
Record Attempt := mkAttempt {
  at_connection : nat; at_ref : ControlConnectionRef; at_mark : nat; at_geid : Z; at_capture : Sync.syncPublicationCapture
}.

Definition node : Type :=
  pub * option (PublicationReservation W) * list PublicationResult * gmap nat (list Label) * gmap nat Attempt.

Definition label_of (r : PublicationResult) : Label := LFanout (pu_Version r) (pu_Events r) (pu_VisibilityChanges r).

Definition history (out : result PublicationResult PublicationError) (res : PublicationResult) (h : gmap nat (list Label)) :=
  match out with Ok _ => (fun hl => hl ++ [label_of res]) <$> h | Err _ => h end.

Inductive node_step : node -> node -> Prop :=
  | nd_reserve p pubs h a now req r p' : pb_locked p = false -> built p req ->
      Reserve json_Valid json_Marshal now p req = (Ok r, p') ->
      (forall u, Changed (Diff u (Some (pb_current p)) (Some (pu_Version (pr_result r)))) = true -> u ∈ rq_VisibilityUserIDs req) ->
      node_step (p, None, pubs, h, a) (p', Some r, pubs, h, a)
  | nd_abort p pubs h a r p' r' : Abort p r = (p', r') -> node_step (p, Some r, pubs, h, a) (p', None, pubs, h, a)
  | nd_publish p pubs h a r canceled out p' r' : publish canceled p r = Some (out, p', r') -> (forall e, out <> Err (ErrFanout e)) ->
      node_step (p, Some r, pubs, h, a) (p', None, pubs ++ published out (pr_result r), history out (pr_result r) h, a)
  | nd_hello p pubs h a id b k c token parsed cap l p' : pb_locked p = false -> pb_bus p = Some (id, b) ->
      eb_conns b !! k = Some c -> Forall (fun i => qi_Policy i <> StateDeliveryVisibleAfter) (queued c) ->
      Cursor.Parse signer (r_UserID (ControlRef c)) token = Ok parsed ->
      Sync.hello_begin signer bus_id p k (ControlRef c) token = (Ok (Sync.Started cap l), p') ->
      node_step (p, None, pubs, h, a)
        (p', None, pubs, <[l := []]> h, <[l := mkAttempt k (ControlRef c) (length pubs) (cp_GEID (Cursor.cu_Checkpoint parsed)) cap]> a)
  | nd_finish p held pubs h a l att e p' : a !! l = Some att ->
      hello_finish p (at_connection att) (at_ref att) (at_capture att) l = (e, p') ->
      node_step (p, held, pubs, h, a)
        (p', held, pubs, match handoff_frames (r_UserID (at_ref att)) (at_capture att) with
                         | Ok frames => alter (fun hl => hl ++ [LComplete frames]) l h | Err _ => h end, a)
  | nd_disconnect p held pubs h a ref : node_step (p, held, pubs, h, a) (Sync.OnDisconnect p ref, held, pubs, h, a)
  | nd_close p held pubs h a : node_step (p, held, pubs, h, a) (Sync.on_bus p Close, held, pubs, h, a)
  | nd_writer p held pubs h a id b k c c' : pb_bus p = Some (id, b) -> eb_conns b !! k = Some c -> ControlRef c' = ControlRef c ->
      (forall i, i ∈ queued c' -> i ∈ queued c \/ qi_Policy i <> StateDeliveryVisibleAfter) ->
      node_step (p, held, pubs, h, a) (Sync.on_bus p (fun b => set_conn b k c'), held, pubs, h, a)
  | nd_world p held pubs h a w : node_step (p, held, pubs, h, a) (with_world p w, held, pubs, h, a).

Definition log_at (pubs : list PublicationResult) : list StateEvent := log0 ++ published_events pubs.
Definition version_at (pubs : list PublicationResult) : StateVersion := match last pubs with Some r => pu_Version r | None => state end.

(** The publications of a history, and the handoff frames in it. *)
Definition is_fan (x : Label) : bool := match x with LFanout _ _ _ => true | LComplete _ => false end.
Definition fans (hl : list Label) : list Label := filter (fun x => is_fan x = true) hl.

Record linked (pubs : list PublicationResult) (att : Attempt) (hl : list Label) : Prop := {
  lk_mark : (at_mark att <= length pubs)%nat;
  lk_fans : fans hl = label_of <$> drop (at_mark att) pubs;
  lk_version : Sync.sy_version (at_capture att) = version_at (take (at_mark att) pubs);
  lk_events : Sync.sy_events (at_capture att) = drop (Z.to_nat (at_geid att)) (log_at (take (at_mark att) pubs));
  lk_high : Sync.sy_highWater (at_capture att) = len (log_at (take (at_mark att) pubs));
  lk_geid : 0 <= at_geid att <= Sync.sy_highWater (at_capture att);
  lk_frames frames : LComplete frames ∈ hl -> handoff_frames (r_UserID (at_ref att)) (at_capture att) = Ok frames;
  lk_epoch : Sync.sy_visibilityEpoch (at_capture att) = VisibilityEpoch (Sync.sy_version (at_capture att)) (r_UserID (at_ref att))
}.

Lemma parsed_nonneg u token parsed : Cursor.Parse signer u token = Ok parsed -> 0 <= cp_GEID (Cursor.cu_Checkpoint parsed).
Proof using.
  unfold Cursor.Parse. destruct (Cursor.splitCursor token) as [[b sg]|]; [|done]. cbn [rbind]. destruct (negb _); [done|].
  destruct (Cursor.payload_Unmarshal b) as [d|]; [|done]. destruct (Strconv.ParseInt _); [|done]. destruct (_ <=? _); [done|].
  destruct (negb _); [done|]. destruct (negb _); [done|]. destruct (negb _); [done|].
  destruct (Strconv.ParseUint (Cursor.cp_GEIDText d)) as [g|] eqn:Hg; [|done]. destruct (Strconv.ParseUint (Cursor.cp_VisibilityEpoch d)); [|done].
  intros [= <-]. cbn. by eapply Strconv.ParseUint_nonneg.
Qed.

Record node_ok (y : node) : Prop := {
  nk_pub : pub_ok json_Valid json_Marshal state log0 y.1.1;
  nk_bus : exists b, pb_bus y.1.1.1.1 = Some (bus_id, b) /\ bus_ok (b, y.1.2, pb_current y.1.1.1.1) /\
    (forall ref l, eb_subscriptions b !! ref = Some l -> exists att, y.2 !! l = Some att /\ at_ref att = ref);
  nk_held : match y.1.1.1.2 with
            | Some r => forall u, change_of (pu_VisibilityChanges (pr_result r)) u =
                          Diff u (Some (pb_current y.1.1.1.1)) (Some (pu_Version (pr_result r)))
            | None => True
            end;
  nk_link : forall l att, y.2 !! l = Some att -> exists hl, y.1.2 !! l = Some hl /\ linked y.1.1.2 att hl
}.

Lemma fans_app x y : fans (x ++ y) = fans x ++ fans y.
Proof using. apply filter_app. Qed.

(** An operation of the bus alone. *)
Lemma on_bus_ok p held pubs h a f : node_ok (p, held, pubs, h, a) ->
  (forall b, bus_ok (b, h, pb_current p) -> bus_ok (f b, h, pb_current p) /\ shrinks b (f b)) ->
  node_ok (Sync.on_bus p f, held, pubs, h, a).
Proof using StateSinkLaws0.
  intros [H1 (b & Hb & H2 & H2') H3 H4] Hf. cbn [fst snd] in *. destruct (Hf b H2) as [Hf1 Hf2].
  assert (Hon : Sync.on_bus p f = with_bus p (Some (bus_id, f b))) by (unfold Sync.on_bus; by rewrite Hb). rewrite Hon.
  constructor; cbn [fst snd]; try done.
  - eapply (pub_step_ok json_Valid json_Marshal json_user); [apply ps_bus|exact H1].
  - exists (f b). split; [done|]. split; [done|]. intros ref l Hl. by apply H2', Hf2.
Qed.

Lemma linked_publish pubs att hl res : linked pubs att hl -> linked (pubs ++ [res]) att (hl ++ [label_of res]).
Proof using.
  intros [L1 L2 L3 L4 L5 L6 L7 L8]. constructor; rewrite ?(take_app_le pubs [res]) by done; try done.
  - rewrite length_app. lia.
  - rewrite drop_app_le, fmap_app, fans_app, L2 by done. done.
  - intros frames [Hf|Hf]%elem_of_app; [by apply L7|]. by apply list_elem_of_singleton in Hf.
Qed.

Lemma publish_bus canceled (p : pub) r id b res p' r' : pb_bus p = Some (id, b) -> publish canceled p r = Some (Ok res, p', r') ->
  exists slow b1, fanout json_Valid json_Marshal json_user b (pu_Version (pr_result r)) (pu_Events (pr_result r))
    (pu_VisibilityChanges (pr_result r)) = (Ok slow, b1) /\
  pb_bus p' = Some (id, fold_left (fun b k => log_call b (CallSlow k)) slow b1).
Proof using.
  intros Hb. unfold Publication.publish, claimCompletion. destruct (pr_completed r); cbn [negb]; [done|].
  destruct canceled; [done|]. cbn [pr_runtimeCommit pr_result]. destruct (run_commit _ _) as [w [failed cleanup]]. destruct failed; [done|].
  destruct (Append _ _ _ _) as [[err ring]|]; [|done]. cbn [mbind option_bind]. destruct err; [done|].
  cbn [pb_bus with_world]. rewrite Hb. destruct (fanout _ _ _ b _ _ _) as [[slow|e] b1]; [|done]. intros [= <- <- <-].
  exists slow, b1. split; [done|]. done.
Qed.

Lemma slows_ok slow b h v : bus_ok (b, h, v) -> bus_ok (fold_left (fun b k => log_call b (CallSlow k)) slow b, h, v) /\
  shrinks b (fold_left (fun b k => log_call b (CallSlow k)) slow b).
Proof using StateSinkLaws0.
  revert b. induction slow as [|k slow IH]; intros b Hb; cbn [fold_left]; [split; [done|apply shrinks_refl]|].
  destruct (IH _ (bus_step_ok _ _ _ _ _ _ (bs_slow json_Valid json_Marshal json_user b h v k) Hb)) as [I1 I2].
  split; [done|]. intros ref l Hl. by apply I2 in Hl.
Qed.

Lemma publish_ok p pubs h a r canceled out p' r' : node_ok (p, Some r, pubs, h, a) ->
  publish canceled p r = Some (out, p', r') -> (forall e, out <> Err (ErrFanout e)) ->
  node_ok (p', None, pubs ++ published out (pr_result r), history out (pr_result r) h, a).
Proof using StateSinkLaws0.
  intros [H1 (b & Hb & H2 & H2') H3 H4] Hp Hfatal. cbn [fst snd] in *.
  pose proof (pub_step_ok json_Valid json_Marshal json_user state log0 _ _ (ps_publish _ _ _ p pubs r canceled out p' r' Hp) H1) as Hpub.
  destruct H1 as [P1 _ _ _ _ (Pc & _ & req & _ & Pres)]. cbn [fst snd] in *.
  destruct (publish_cases json_Valid json_Marshal json_user canceled p req r _ P1 Pc Pres) as (out' & p1 & r1 & Hp1 & _ & _ & Hcase).
  rewrite Hp in Hp1. injection Hp1 as <- <- <-.
  destruct Hcase as [(ring & _ & (_ & E2 & _) & _ & _ & [-> | [e ->]])|(E1 & E2 & E3 & E4 & Hout)]; [|by destruct (Hfatal e)|].
  - destruct (publish_bus _ _ _ _ _ _ _ _ Hb Hp) as (slow & b1 & Hf & Hb').
    constructor; cbn [fst snd published history]; try done.
    + eexists. split; [exact Hb'|]. rewrite E2.
      assert (Hok1 : bus_ok (b1, (fun hl => hl ++ [label_of (pr_result r)]) <$> h, pu_Version (pr_result r))).
      { eapply bus_step_ok; [by apply (bs_fanout json_Valid json_Marshal json_user b h (pb_current p) _ _ _ slow b1 Hf)|done]. }
      destruct (slows_ok slow b1 _ _ Hok1) as [S1 S2]. split; [done|]. intros ref l Hl. apply S2 in Hl. apply H2'.
      apply (shrinks_fanout json_Valid json_Marshal json_user b (pu_Version (pr_result r)) (pu_Events (pr_result r))
        (pu_VisibilityChanges (pr_result r))). by rewrite Hf.
    + intros l att Hl. destruct (H4 l att Hl) as (hl & Hh & Hlk). exists (hl ++ [label_of (pr_result r)]).
      rewrite lookup_fmap, Hh. split; [done|]. by apply linked_publish.
  - assert (published out (pr_result r) = [] /\ history out (pr_result r) h = h) as [-> ->]
      by (destruct Hout as [(_ & -> & _)|(_ & [] & -> & _)]; done).
    assert (Hpub' : pub_ok json_Valid json_Marshal state log0 (p', None, pubs)).
    { destruct Hout as [(_ & -> & _)|(_ & [] & -> & _)]; cbn in Hpub; by rewrite app_nil_r in Hpub. }
    rewrite app_nil_r. constructor; cbn [fst snd]; try done. exists b. rewrite E2, E4. done.
Qed.

Lemma hello_ok p pubs h a id b k c token parsed cap l p' : node_ok (p, None, pubs, h, a) -> pb_bus p = Some (id, b) ->
  eb_conns b !! k = Some c -> Forall (fun i => qi_Policy i <> StateDeliveryVisibleAfter) (queued c) ->
  Cursor.Parse signer (r_UserID (ControlRef c)) token = Ok parsed ->
  Sync.hello_begin signer bus_id p k (ControlRef c) token = (Ok (Sync.Started cap l), p') ->
  node_ok (p', None, pubs, <[l := []]> h, <[l := mkAttempt k (ControlRef c) (length pubs) (cp_GEID (Cursor.cu_Checkpoint parsed)) cap]> a).
Proof using StateSinkLaws0.
  intros [H1 (b0 & Hb & H2 & H2') H3 H4] Hb0 Hc Hq Hparse. cbn [fst snd] in *. rewrite Hb in Hb0. injection Hb0 as <- <-.
  unfold Sync.hello_begin. destruct (negb _); [done|]. rewrite Hparse. unfold Sync.beginSync. rewrite Hb, Nat.eqb_refl. cbn [negb].
  unfold StateRing.Snapshot, cloneStateEvents. destruct (negb (_ =? highWater _)); [done|]. destruct (negb (_ =? _)); [done|].
  destruct (Z.ltb_spec (highWater (pb_ring p)) (cp_GEID (Cursor.cu_Checkpoint parsed))) as [|Hle]; [done|].
  rewrite eventsAfterCapture_ring. destruct (EventsAfter (pb_ring p) _) as [replay ok] eqn:Hea. destruct ok; cbn [negb]; [|done].
  destruct (EventBus.beginSync b0 k (pb_current p)) as [[l'|e] b'] eqn:Hbegin; [|done]. intros [= <- <- <-].
  pose proof H1 as [P1 P2 _ _ P5 _]. cbn [fst snd] in *.
  assert (Hgeid : 0 <= cp_GEID (Cursor.cu_Checkpoint parsed)) by (by eapply parsed_nonneg).
  rewrite (EventsAfter_ok json_Valid json_Marshal _ _ _ P1 Hgeid) in Hea. destruct (_ && _); [|done]. injection Hea as <-.
  pose proof (ok_high _ _ _ _ P1) as Hhigh.
  assert (Hstep : bus_ok (b', <[l' := []]> h, pb_current p)).
  { eapply bus_step_ok; [|exact H2]. by eapply bs_begin. }
  constructor; cbn [fst snd]; try done.
  - exact (pub_step_ok json_Valid json_Marshal json_user state log0 _ _ (ps_bus _ _ _ p None pubs (Some (bus_id, b'))) H1).
  - exists b'. split; [done|]. split; [done|]. unfold EventBus.beginSync in Hbegin. rewrite Hc in Hbegin. destruct (negb _); [done|].
    destruct (eb_closed b0); [done|]. destruct (eb_subscriptions b0 !! ControlRef c) eqn:Hno; [done|]. injection Hbegin as <- <-.
    cbn [with_subs with_heap eb_subscriptions]. intros ref l Hl. apply lookup_insert_Some in Hl as [[<- <-]|[Hne Hl]].
    + rewrite lookup_insert_eq. by eexists.
    + destruct (H2' ref l Hl) as (att & Ha & Hr). exists att. rewrite lookup_insert_ne; [done|]. intros <-.
      destruct (bo_registered _ _ _ _ _ H2 ref _ Hl) as (s & _ & _ & Hs & _). cbn in Hs. apply lookup_lt_Some in Hs. lia.
  - intros l att Hl. apply lookup_insert_Some in Hl as [[<- <-]|[Hne Hl]].
    + exists []. rewrite lookup_insert_eq. split; [done|]. constructor; cbn [at_mark at_geid at_capture at_ref Sync.sy_version Sync.sy_events Sync.sy_highWater].
      * done.
      * by rewrite drop_all.
      * rewrite take_ge by done. exact P5.
      * by rewrite take_ge by done.
      * by rewrite take_ge by done.
      * lia.
      * intros frames Hf. by apply elem_of_nil in Hf.
      * done.
    + rewrite lookup_insert_ne by done. by apply H4.
Qed.

Lemma finish_ok p held pubs h a l att e p' : node_ok (p, held, pubs, h, a) -> a !! l = Some att ->
  hello_finish p (at_connection att) (at_ref att) (at_capture att) l = (e, p') ->
  node_ok (p', held, pubs, match handoff_frames (r_UserID (at_ref att)) (at_capture att) with
                           | Ok frames => alter (fun hl => hl ++ [LComplete frames]) l h | Err _ => h end, a).
Proof using StateSinkLaws0.
  intros Hok Ha. assert (Habort : forall p h, node_ok (p, held, pubs, h, a) -> node_ok (Sync.on_bus p (fun b => abortSync b l), held, pubs, h, a)).
  { intros p0 h0 H0. apply on_bus_ok; [done|]. intros b Hb. split; [|apply shrinks_abort].
    by eapply bus_step_ok; [apply bs_abort|]. }
  unfold Sync.hello_finish. destruct (handoff_frames _ _) as [frames|er] eqn:Hf.
  - pose proof Hok as [H1 (b & Hb & H2 & H2') H3 H4]. cbn [fst snd] in *. rewrite Hb.
    destruct (completeSync b l frames) as [oe b'] eqn:Hc.
    set (h' := alter (fun hl => hl ++ [LComplete frames]) l h).
    assert (Hnode : node_ok (mkPub (pb_pointer p) (pb_current p) (pb_ring p) (Some (bus_id, b')) (pb_locked p) (pb_world p), held, pubs, h', a)).
    { constructor; cbn [fst snd pb_bus pb_current]; try done.
      - exact (pub_step_ok json_Valid json_Marshal json_user state log0 _ _ (ps_bus _ _ _ p held pubs (Some (bus_id, b'))) H1).
      - exists b'. split; [done|]. split; [eapply bus_step_ok; [by apply (bs_complete json_Valid json_Marshal json_user b h _ l frames oe)|done]|].
        intros ref l' Hl'. apply H2', (shrinks_complete b l frames). by rewrite Hc.
      - intros l' att' Hl'. destruct (H4 l' att' Hl') as (hl & Hh & [L1 L2 L3 L4 L5 L6 L7 L8]). unfold h'. destruct (decide (l' = l)) as [->|Hne].
        + rewrite lookup_alter_eq, Hh. eexists. split; [done|]. rewrite Ha in Hl'. injection Hl' as <-. constructor; try done.
          * by rewrite fans_app, L2, app_nil_r.
          * intros fr [Hx|Hx]%elem_of_app; [by apply L7|]. apply list_elem_of_singleton in Hx. injection Hx as ->. done.
        + rewrite lookup_alter_ne by done. by exists hl. }
    destruct oe as [be|]; intros [= <- <-]; [by apply Habort|done].
  - intros [= <- <-]. apply Habort. destruct (Sync.is_slow er); [|done]. apply on_bus_ok; [done|]. intros b Hb.
    split; [by eapply bus_step_ok; [apply bs_slow|]|]. intros ref l' Hl'. done.
Qed.

Lemma node_step_ok y y' : node_step y y' -> node_ok y -> node_ok y'.
Proof using StateSinkLaws0.
  intros Hs Hok. destruct Hs as [p pubs h a now req r p' Hl Hb Hr Hcov|p pubs h a r p' r' Ha|p pubs h a r canceled out p' r' Hp Hf|
    p pubs h a id b k c token parsed cap l p' Hl Hb Hc Hq Hpr Hh|p held pubs h a l att e p' Ha Hf|p held pubs h a ref|p held pubs h a|
    p held pubs h a id b k c c' Hb Hc Hr Hq|p held pubs h a w].
  - pose proof Hok as [H1 H2 H3 H4]. cbn [fst snd] in *.
    pose proof (pub_step_ok json_Valid json_Marshal json_user state log0 _ _ (ps_reserve _ _ json_user p pubs now req r p' Hl Hb Hr) H1) as Hpub.
    unfold Reserve in Hr. destruct (reserveLocked _ _ now p req) as [res|] eqn:Hres; [|done]. injection Hr as <- <-.
    constructor; cbn [fst snd]; try done. cbn [pr_result]. intros u. pose proof (reserve_spec _ _ _ _ _ _ Hb Hres) as Hspec.
    unfold change_of. rewrite (rv_changes _ _ _ _ _ Hspec u). cbn zeta. specialize (Hcov u). cbn [pr_result] in Hcov. cbn [with_locked pb_current].
    destruct (Changed (Diff u _ _)) eqn:Hch.
    + rewrite bool_decide_eq_true_2 by (by apply Hcov). done.
    + rewrite andb_false_r. cbn. revert Hch. unfold Changed. destruct (Diff u _ _) as [g rv]. cbn [Granted Revoked].
      intros [Hg Hrv]%orb_false_iff. apply negb_false_iff, bool_decide_eq_true in Hg as ->, Hrv as ->. done.
  - pose proof Hok as [H1 (b & Hb & H2) H3 H4]. cbn [fst snd] in *.
    pose proof (pub_step_ok json_Valid json_Marshal json_user state log0 _ _ (ps_abort _ _ json_user p pubs r p' r' Ha) H1) as Hpub.
    unfold Abort in Ha. destruct (claimCompletion r) as [cl r0]. injection Ha as <- <-.
    constructor; cbn [fst snd]; try done. exists b. destruct cl; done.
  - by eapply publish_ok.
  - by eapply hello_ok.
  - by eapply finish_ok.
  - apply on_bus_ok; [done|]. intros b Hb. split; [by eapply bus_step_ok; [apply bs_unsubscribe|]|apply shrinks_unsubscribe].
  - apply on_bus_ok; [done|]. intros b Hb. split; [by eapply bus_step_ok; [apply bs_close|]|apply shrinks_close].
  - pose proof Hok as [_ (b0 & Hb0 & H2 & _) _ _]. cbn [fst snd] in *. rewrite Hb in Hb0. injection Hb0 as -> ->.
    assert (Heq : Sync.on_bus p (fun b => set_conn b k c') = Sync.on_bus p (fun _ => set_conn b0 k c')) by (unfold Sync.on_bus; by rewrite Hb).
    rewrite Heq. pose proof Hok as [H1 _ H3 H4]. unfold Sync.on_bus. rewrite Hb. constructor; cbn [fst snd] in *; try done.
    + exact (pub_step_ok json_Valid json_Marshal json_user state log0 _ _ (ps_bus _ _ _ p held pubs (Some (bus_id, set_conn b0 k c'))) H1).
    + destruct Hok as [_ (b1 & Hb1 & _ & Hreg) _ _]. cbn [fst snd] in *. rewrite Hb in Hb1. injection Hb1 as <-.
      exists (set_conn b0 k c'). split; [done|]. split; [by eapply bus_step_ok; [eapply bs_writer|]|]. exact Hreg.
  - pose proof Hok as [H1 H2 H3 H4]. constructor; try done.
    exact (pub_step_ok json_Valid json_Marshal json_user state log0 _ _ (ps_world _ _ json_user p held pubs w) H1).
Qed.

Lemma node_reachable_ok ring w conns (p0 p1 : pub) y : ring_reach json_Valid json_Marshal ring log0 -> is_u64 (number state) ->
  NewStatePublication state ring w = Ok p0 -> BindEventBus p0 (bus_id, NewEventBus signer conns) true = (None, p1) ->
  rtc node_step (p1, None, [], ∅, ∅) y -> node_ok y.
Proof using StateSinkLaws0.
  intros Hr Hu Hn Hb Hs. remember (p1, None, [], ∅, ∅) as y0 eqn:E0. assert (H0 : node_ok y0).
  { subst y0. assert (Hp1 : p1 = with_bus p0 (Some (bus_id, NewEventBus signer conns))).
    { unfold NewStatePublication in Hn. destruct (negb _); [done|]. injection Hn as <-. cbn in Hb. by injection Hb as <-. }
    assert (Hpub : pub_ok json_Valid json_Marshal state log0 (p1, None, [])).
    { eapply (pub_reachable_ok json_Valid json_Marshal json_user); [exact Hr|done|exact Hn|]. rewrite Hp1. apply rtc_once, ps_bus. }
    constructor; cbn [fst snd]; try done.
    exists (NewEventBus signer conns). rewrite Hp1. split; [done|]. split; [|intros ref l Hl; cbn in Hl; by rewrite lookup_empty in Hl].
    eapply (bus_reachable_ok json_Valid json_Marshal json_user signer conns). apply rtc_refl. }
  clear E0. induction Hs; eauto using node_step_ok.
Qed.

Lemma omap_fans ref hl : omap (batch ref) hl = omap (batch ref) (fans hl).
Proof using.
  induction hl as [|x hl IH]; [done|]. unfold fans. destruct x as [v es ch|fr].
  - rewrite filter_cons_True by done. cbn [omap list_omap]. fold (fans hl). by rewrite <- IH.
  - rewrite filter_cons_False by done. cbn [omap list_omap EventBusProps.batch]. exact IH.
Qed.

Lemma split_pubs pubs mark x y : x ++ y = label_of <$> drop mark pubs -> (mark <= length pubs)%nat -> exists m, (mark <= m <= length pubs)%nat /\
  x = label_of <$> drop mark (take m pubs) /\ y = label_of <$> drop m pubs.
Proof using.
  intros H Hm. exists (mark + length x)%nat. assert (Hlen : (length x + length y = length pubs - mark)%nat).
  { rewrite <- length_app, H, length_fmap, length_drop. done. }
  split; [lia|]. rewrite <- take_drop_commute, fmap_take, <- H. split; [by rewrite take_app_length|].
  rewrite <- drop_drop, fmap_drop, <- H. by rewrite drop_app_length.
Qed.


End Nodes.

(** ** A run: a hello and its handoff *)

#[local] Instance ex_cprims : Cursor.CursorPrims := {
  Cursor.payload_Marshal := fun _ => Some [0]; Cursor.payload_Unmarshal := fun _ => Some (Cursor.mkPayload "7" "e" "0" "0" 1);
  Cursor.hmac_sha256 := fun _ _ => replicate 32 0; Cursor.b64_Encode := fun _ => "c"; Cursor.b64_Decode := fun _ => Some (replicate 33 0) }.
#[local] Existing Instance PublicationProps.ex_pprims.

Definition ex_ref : ControlConnectionRef := Connection.mkRef [1] 7 1 1.
Definition ex_signer : Cursor.CursorSigner := Cursor.mkSigner "e" [].
Definition ex_conns : gmap nat webSocketSyncConnection := {[0%nat := mkConnection ex_ref false newWebSocketStateLane]}.
Definition ex_p0 : StatePublication webSocketSyncConnection unit := mkPub 0 ex_before ex_ring None false tt.
Definition ex_p1 := with_bus ex_p0 (Some (0%nat, NewEventBus ex_signer ex_conns)).
Definition ex_json_user : SnapshotUserPresence -> option bytes := fun _ => Some [1].
Definition ex_json_replay : string -> string -> list bytes -> option bytes := fun _ _ _ => Some [2].
Definition ex_json_complete : string -> option bytes := fun _ => Some [3].

Definition ex_capture : Sync.syncPublicationCapture := Sync.mkCapture ex_before [] 0 0.
Definition ex_p2 := (Sync.hello_begin ex_signer 0 ex_p1 0 ex_ref "c").2.
Definition ex_attempt : Attempt := mkAttempt 0 ex_ref 0 0 ex_capture.
Definition ex_p3 := (Sync.hello_finish ok_json ok_marshal ex_json_user ex_json_replay ex_json_complete ex_signer ex_p2 0 ex_ref ex_capture 0).2.

Definition ex_history : gmap nat (list Label) := alter (fun hl => hl ++ [LComplete [[3]]]) 0%nat (<[0%nat := []]> ∅).

Lemma node_run : rtc (node_step ok_json ok_marshal ex_json_user ex_json_replay ex_json_complete ex_signer 0)
  (ex_p1, None, [], ∅, ∅) (ex_p3, None, [], ex_history, <[0%nat := ex_attempt]> ∅).
Proof.
  apply rtc_l with (ex_p2, None, [], <[0%nat := []]> ∅, <[0%nat := ex_attempt]> ∅).
  - refine (nd_hello _ _ _ _ _ ex_signer 0 ex_p1 [] ∅ ∅ 0 (NewEventBus ex_signer ex_conns) 0 (mkConnection ex_ref false newWebSocketStateLane)
      "c" (Cursor.mkCursor (mkCheckpoint "e" 0) 0 1) ex_capture 0 ex_p2 eq_refl eq_refl eq_refl (List.Forall_nil _) _ _).
    + vm_compute. reflexivity.
    + apply by_fst. vm_compute. reflexivity.
  - apply rtc_once. refine (nd_finish ok_json ok_marshal ex_json_user ex_json_replay ex_json_complete ex_signer 0 ex_p2 None [] (<[0%nat := []]> ∅)
      (<[0%nat := ex_attempt]> ∅) 0 ex_attempt None ex_p3 eq_refl _). apply by_fst. vm_compute. reflexivity.
Qed.


End SyncProps.
