(* ===== verification/Pump.v ===== *)
(** * Pump: the single writer of one WebSocket ([realtime/websocket.go])

    [webSocketWritePump] owns every ordinary write of a connection.  Producers
    put work on its lanes ([Lane]) and on three small channels (pings, pongs and
    the terminal lane); the goroutine of [run] takes it off again.  The writer is
    modelled by its program counter, so every channel operation and every lock
    section is one atomic step and every socket write leaves room for producers
    in between; a select is resolved by an arbitrary choice among its ready
    cases.  The requests that end a connection, [RequestClose] and
    [RequestAuthRevoked], are threads of their own, since they reserve terminal
    capacity and send in separate critical sections.  [wp_wire] records what was
    written to the socket. *)

From S2P Require Import Prelude State StateRing Lane.
From stdpp Require Import base gmap strings list relations.
From Stdlib Require Import ZArith Lia.
#[local] Open Scope string_scope.
#[local] Open Scope list_scope.
#[local] Open Scope Z_scope.

Module Pump.
Import State StateRing Lane.

(** ** State *)

Record webSocketTerminal := mkTerminal { tm_status : Z; tm_reason : string; tm_frame : bytes; tm_close : bool }.

(** What the socket carried. *)
Inductive Sent :=
  | SentResponse (frame : bytes) (slot : webSocketResponseSlot)
  | SentState (f : webSocketStateFrame)
  | SentTelemetry (frame : bytes)
  | SentPong (payload : bytes)
  | SentPing
  | SentNotice (frame : bytes)
  | SentClose (status : Z) (reason : string).

Record webSocketWritePump := mkPump {
  wp_state : webSocketStateLane; wp_telemetry : webSocketTelemetryLane; wp_responses : webSocketResponseLane;
  wp_pings : bool; wp_pongs : list bytes; wp_terminal : list webSocketTerminal;
  wp_terminalItems : Z; wp_terminalBytes : Z; wp_done : bool; wp_force : bool; wp_wire : list Sent
}.

Definition newWebSocketWritePump : webSocketWritePump :=
  mkPump newWebSocketStateLane newWebSocketTelemetryLane newWebSocketResponseLane false [] [] 0 0 false false [].

Definition set_state (p : webSocketWritePump) (l : webSocketStateLane) : webSocketWritePump :=
  mkPump l (wp_telemetry p) (wp_responses p) (wp_pings p) (wp_pongs p) (wp_terminal p) (wp_terminalItems p)
    (wp_terminalBytes p) (wp_done p) (wp_force p) (wp_wire p).
Definition set_telemetry (p : webSocketWritePump) (l : webSocketTelemetryLane) : webSocketWritePump :=
  mkPump (wp_state p) l (wp_responses p) (wp_pings p) (wp_pongs p) (wp_terminal p) (wp_terminalItems p)
    (wp_terminalBytes p) (wp_done p) (wp_force p) (wp_wire p).
Definition set_responses (p : webSocketWritePump) (l : webSocketResponseLane) : webSocketWritePump :=
  mkPump (wp_state p) (wp_telemetry p) l (wp_pings p) (wp_pongs p) (wp_terminal p) (wp_terminalItems p)
    (wp_terminalBytes p) (wp_done p) (wp_force p) (wp_wire p).
Definition set_controls (p : webSocketWritePump) (pings : bool) (pongs : list bytes) : webSocketWritePump :=
  mkPump (wp_state p) (wp_telemetry p) (wp_responses p) pings pongs (wp_terminal p) (wp_terminalItems p)
    (wp_terminalBytes p) (wp_done p) (wp_force p) (wp_wire p).
Definition set_terminal (p : webSocketWritePump) (q : list webSocketTerminal) (items bytes : Z) : webSocketWritePump :=
  mkPump (wp_state p) (wp_telemetry p) (wp_responses p) (wp_pings p) (wp_pongs p) q items bytes (wp_done p)
    (wp_force p) (wp_wire p).
Definition set_done (p : webSocketWritePump) : webSocketWritePump :=
  mkPump (wp_state p) (wp_telemetry p) (wp_responses p) (wp_pings p) (wp_pongs p) (wp_terminal p) (wp_terminalItems p)
    (wp_terminalBytes p) true (wp_force p) (wp_wire p).

(** [force.Do(conn.Close)]. *)
Definition ForceClose (p : webSocketWritePump) : webSocketWritePump :=
  mkPump (wp_state p) (wp_telemetry p) (wp_responses p) (wp_pings p) (wp_pongs p) (wp_terminal p) (wp_terminalItems p)
    (wp_terminalBytes p) (wp_done p) true (wp_wire p).

Definition put_wire (p : webSocketWritePump) (s : Sent) : webSocketWritePump :=
  mkPump (wp_state p) (wp_telemetry p) (wp_responses p) (wp_pings p) (wp_pongs p) (wp_terminal p) (wp_terminalItems p)
    (wp_terminalBytes p) (wp_done p) (wp_force p) (wp_wire p ++ [s]).

(** ** Producers *)

Definition Enqueue (p : webSocketWritePump) (frame : bytes) : bool * webSocketWritePump :=
  if len frame =? 0 then (false, p)
  else if wp_done p then (false, p)
  else let '(ok, l) := enqueue (wp_state p) frame in (ok, set_state p l).

Definition EnqueueVoiceStats (p : webSocketWritePump) (frame : bytes) : bool * webSocketWritePump :=
  if wp_done p then (false, p)
  else let '(ok, l) := store (wp_telemetry p) frame in (ok, set_telemetry p l).

Definition ApplyStateBatch (p : webSocketWritePump) (revoked : list Scope) (items : list StateQueueItem)
  : bool * webSocketWritePump :=
  if wp_done p then (false, p)
  else let '(ok, l) := applyBatch (wp_state p) revoked items in (ok, set_state p l).

(** The response lane's operations on the pump; [pick_done] is the choice of the
    select when the pump is done and the queue has room. *)
Definition pump_ReserveResponse (p : webSocketWritePump) (requestID : string)
  : option webSocketResponseSlot * webSocketWritePump :=
  let '(s, l) := ReserveResponse (wp_responses p) (wp_done p) requestID in (s, set_responses p l).

Definition pump_EnqueueResponse (p : webSocketWritePump) (pick_done : bool) (s : webSocketResponseSlot) (frame : bytes)
  : option (bool * webSocketWritePump) :=
  '(ok, l) ← EnqueueResponse (wp_responses p) (wp_done p && pick_done) s frame; Some (ok, set_responses p l).

(** A non-blocking send to a channel of capacity one, and of capacity two. *)
Definition RequestPing (p : webSocketWritePump) (pick_done : bool) : webSocketWritePump :=
  if wp_done p && pick_done then p else set_controls p true (wp_pongs p).
Definition RequestPong (p : webSocketWritePump) (pick_done : bool) (payload : bytes) : webSocketWritePump :=
  if wp_done p && pick_done then p
  else if len (wp_pongs p) <? 2 then set_controls p (wp_pings p) (wp_pongs p ++ [payload]) else p.

(** ** Terminal requests *)

Definition releaseTerminal (p : webSocketWritePump) (t : webSocketTerminal) : webSocketWritePump :=
  set_terminal p (wp_terminal p) (wp_terminalItems p - 1) (wp_terminalBytes p - len (tm_frame t)).

(** A thread inside [RequestClose] or [RequestAuthRevoked]: whether it still has
    to stop the state lane, where it is in [enqueueTerminal] for the first of its
    items, and the items left. *)
Inductive Phase := AtCheck | AtReserve | AtSend.
Record Requester := mkRequester { rq_stop : bool; rq_phase : Phase; rq_todo : list webSocketTerminal }.

Definition RequestClose (statusCode : Z) (reason : string) : Requester :=
  mkRequester true AtCheck [mkTerminal statusCode reason [] true].

(** [authRevokedFrame] is [webSocketAuthRevokedFrame], a JSON encoding. *)
Definition RequestAuthRevoked (authRevokedFrame : string -> bytes) (reason : string) (statusCode : Z) : Requester :=
  mkRequester true AtCheck [mkTerminal 0 EmptyString (authRevokedFrame reason) false; mkTerminal statusCode reason [] true].

Definition terminal_frame_ok (t : webSocketTerminal) : bool :=
  tm_close t || negb ((len (tm_frame t) =? 0) || (MaxWebSocketTerminalBytes <? len (tm_frame t))).

(** One atomic step of the thread: [state.stop], the checks of
    [enqueueTerminal], its reservation, its send. *)
Definition requester_step (p : webSocketWritePump) (r : Requester) (pick_done : bool) : webSocketWritePump * Requester :=
  if rq_stop r then (set_state p (stop (wp_state p)), mkRequester false (rq_phase r) (rq_todo r))
  else match rq_todo r with
  | [] => (p, r)
  | t :: rest =>
      match rq_phase r with
      | AtCheck =>
          if negb (terminal_frame_ok t) || wp_done p then (p, mkRequester false AtCheck rest)
          else (p, mkRequester false AtReserve (t :: rest))
      | AtReserve =>
          if (MaxWebSocketTerminalItems <=? wp_terminalItems p) ||
             (MaxWebSocketTerminalBytes <? wp_terminalBytes p + len (tm_frame t))
          then (p, mkRequester false AtCheck rest)
          else (set_terminal p (wp_terminal p) (wp_terminalItems p + 1) (wp_terminalBytes p + len (tm_frame t)),
                mkRequester false AtSend (t :: rest))
      | AtSend =>
          if wp_done p && pick_done then (releaseTerminal p t, mkRequester false AtCheck rest)
          else if len (wp_terminal p) <? MaxWebSocketTerminalItems
          then (set_terminal p (wp_terminal p ++ [t]) (wp_terminalItems p) (wp_terminalBytes p), mkRequester false AtCheck rest)
          else (releaseTerminal p t, mkRequester false AtCheck rest)
      end
  end.

(** ** The writer *)

Inductive Lanes := LTerminal | LResponse | LPing | LPong | LState | LTelemetry.

(** Where [run] is.  [turn] is [controlTurn]; a write of the round-robin goes on
    to the state lane, one of the final select to the next iteration. *)
Inductive PC :=
  | Top (turn : nat)
  | Control (turn offset : nat)
  | Claim (turn : nat)
  | Select (turn : nat)
  | SelState (turn : nat)
  | SelTelemetry (turn : nat)
  | WResponse (r : bytes * webSocketResponseSlot) (select : bool) (turn : nat)
  | WPong (payload : bytes) (select : bool) (turn : nat)
  | WPing (select : bool) (turn : nat)
  | WState (f : webSocketStateFrame) (turn : nat)
  | WTelemetry (frame : bytes) (turn : nat)
  | RunTerminal (t : webSocketTerminal)
  | ActTerminal (t : webSocketTerminal)
  | AwaitTerminal
  | Exit (n : nat)
  | Exited.

Definition after_control (select : bool) (turn : nat) : PC := if select then Top turn else Claim turn.

Definition take_terminal (p : webSocketWritePump) : option (webSocketTerminal * webSocketWritePump) :=
  match wp_terminal p with
  | [] => None
  | t :: q => Some (t, set_terminal p q (wp_terminalItems p) (wp_terminalBytes p))
  end.

Definition take_pong (p : webSocketWritePump) : option (bytes * webSocketWritePump) :=
  match wp_pongs p with [] => None | x :: q => Some (x, set_controls p (wp_pings p) q) end.

Definition take_ping (p : webSocketWritePump) : option webSocketWritePump :=
  if wp_pings p then Some (set_controls p false (wp_pongs p)) else None.

Definition take_responses (p : webSocketWritePump) : option (bytes * webSocketResponseSlot * webSocketWritePump) :=
  match take_response (wp_responses p) with (Some r, l) => Some (r, set_responses p l) | (None, _) => None end.

(** The visit of one control lane by the round-robin: lane 0 is the responses,
    1 the pongs, 2 the pings, and the turn moves past the lane that was served. *)
Definition visit_control (p : webSocketWritePump) (turn offset : nat) : webSocketWritePump * PC :=
  match ((turn + offset) mod 3)%nat with
  | 0%nat => match take_responses p with Some (r, p) => (p, WResponse r false 1) | None => (p, Control turn (S offset)) end
  | 1%nat => match take_pong p with Some (x, p) => (p, WPong x false 2) | None => (p, Control turn (S offset)) end
  | _ => match take_ping p with Some p => (p, WPing false 0) | None => (p, Control turn (S offset)) end
  end.

(** The final select, with the case the scheduler chose; [None] when that case
    is not ready. *)
Definition select_case (p : webSocketWritePump) (turn : nat) (chosen : Lanes) : option (webSocketWritePump * PC) :=
  match chosen with
  | LTerminal => '(t, p) ← take_terminal p; Some (p, RunTerminal t)
  | LResponse => '(r, p) ← take_responses p; Some (p, WResponse r true turn)
  | LPing => p ← take_ping p; Some (p, WPing true turn)
  | LPong => '(x, p) ← take_pong p; Some (p, WPong x true turn)
  | LState =>
      if ln_ready (wp_state p)
      then let l := wp_state p in
           Some (set_state p (mkLane (ln_items l) (ln_bytes l) (ln_queue l) false (ln_closed l)), SelState turn)
      else None
  | LTelemetry =>
      if te_ready (wp_telemetry p)
      then let l := wp_telemetry p in Some (set_telemetry p (mkTelemetry (te_frame l) false (te_closed l)), SelTelemetry turn)
      else None
  end.

Definition release_response (p : webSocketWritePump) (r : bytes * webSocketResponseSlot) : webSocketWritePump :=
  set_responses p (release_slot (wp_responses p) r.2).
Definition release_state (p : webSocketWritePump) (f : webSocketStateFrame) : webSocketWritePump :=
  set_state p (release (wp_state p) f).

(** [writeFrame] and [writeControl]: [ok] is the outcome of the socket. *)
Definition write (p : webSocketWritePump) (ok : bool) (s : Sent) : webSocketWritePump :=
  if ok then put_wire p s else ForceClose p.

(** [releaseQueuedTerminal]. *)
Definition releaseQueuedTerminal (p : webSocketWritePump) : webSocketWritePump :=
  let queued := wp_terminal p in
  fold_left releaseTerminal queued (set_terminal p [] (wp_terminalItems p) (wp_terminalBytes p)).

(** The deferred calls of [run], in order. *)
Definition run_deferred (p : webSocketWritePump) (n : nat) : webSocketWritePump * PC :=
  match n with
  | 0%nat => (set_state p (close (wp_state p)), Exit 1)
  | 1%nat => (set_telemetry p (close_telemetry (wp_telemetry p)), Exit 2)
  | 2%nat => (set_responses p (releaseQueued (wp_responses p)), Exit 3)
  | 3%nat => (releaseQueuedTerminal p, Exit 4)
  | _ => (set_done p, Exited)
  end.

(** [run], one step; [ok] is the outcome of a write and [chosen] the case of a
    select.  [None]: blocked. *)
Definition run_step (p : webSocketWritePump) (pc : PC) (ok : bool) (chosen : Lanes) : option (webSocketWritePump * PC) :=
  match pc with
  | Top turn =>
      match take_terminal p with Some (t, p) => Some (p, RunTerminal t) | None => Some (p, Control turn 0) end
  | Control turn offset => if (offset <? 3)%nat then Some (visit_control p turn offset) else Some (p, Claim turn)
  | Claim turn =>
      match claim (wp_state p) with
      | (Some f, l) => Some (set_state p l, WState f turn)
      | (None, l) => Some (set_state p l, Select turn)
      end
  | Select turn => select_case p turn chosen
  | SelState turn =>
      match claim (wp_state p) with
      | (Some f, l) => Some (set_state p l, WState f turn)
      | (None, l) => Some (set_state p l, Top turn)
      end
  | SelTelemetry turn =>
      match claim_telemetry (wp_telemetry p) with
      | (Some frame, l) => Some (set_telemetry p l, WTelemetry frame turn)
      | (None, l) => Some (set_telemetry p l, Top turn)
      end
  | WResponse r select turn =>
      let p := release_response (write p ok (SentResponse r.1 r.2)) r in
      Some (p, if ok then after_control select turn else Exit 0)
  | WPong x select turn => Some (write p ok (SentPong x), if ok then after_control select turn else Exit 0)
  | WPing select turn => Some (write p ok SentPing, if ok then after_control select turn else Exit 0)
  | WState f turn => Some (release_state (write p ok (SentState f)) f, if ok then Top turn else Exit 0)
  | WTelemetry frame turn => Some (write p ok (SentTelemetry frame), if ok then Top turn else Exit 0)
  | RunTerminal t => Some (releaseTerminal p t, ActTerminal t)
  | ActTerminal t =>
      if tm_close t
      then Some (ForceClose (if ok then put_wire p (SentClose (tm_status t) (tm_reason t)) else p), Exit 0)
      else Some (write p ok (SentNotice (tm_frame t)), if ok then AwaitTerminal else Exit 0)
  | AwaitTerminal => '(t, p) ← take_terminal p; Some (p, RunTerminal t)
  | Exit n => Some (run_deferred p n)
  | Exited => None
  end.

End Pump.
