(* ===== verification/PumpProps.v ===== *)
(** * PumpProps: ordering, fairness and shutdown of the WebSocket writer

    The system of one connection: the writer of [Pump.run_step], any number of
    producers and any number of threads that ask for the connection to end, in
    every interleaving. *)

From S2P Require Import Prelude State StateRing Lane Pump.
From stdpp Require Import base gmap strings list relations.
From Stdlib Require Import ZArith Lia.
#[local] Open Scope string_scope.
#[local] Open Scope list_scope.
#[local] Open Scope Z_scope.

Module PumpProps.
Import State StateRing Lane Pump.

(** ** The system *)

(** Producers of ordinary work. *)
Inductive produce : webSocketWritePump -> webSocketWritePump -> Prop :=
  | pr_enqueue p frame : produce p (Enqueue p frame).2
  | pr_batch p revoked items : produce p (ApplyStateBatch p revoked items).2
  | pr_stats p frame : produce p (EnqueueVoiceStats p frame).2
  | pr_track p requestID : produce p (set_responses p (tracker_Reserve (wp_responses p) requestID).2)
  | pr_reserve p requestID : produce p (pump_ReserveResponse p requestID).2
  | pr_respond p pick s frame ok p' : pump_EnqueueResponse p pick s frame = Some (ok, p') -> produce p p'
  | pr_release p s : produce p (set_responses p (release_slot (wp_responses p) s))
  | pr_ping p pick : produce p (RequestPing p pick)
  | pr_pong p pick payload : produce p (RequestPong p pick payload).

Record Sys := mkSys { sy_pump : webSocketWritePump; sy_pc : PC; sy_reqs : list Requester }.

Inductive write_step : Sys -> Sys -> Prop :=
  | ws_run p pc rs ok chosen p' pc' : run_step p pc ok chosen = Some (p', pc') -> write_step (mkSys p pc rs) (mkSys p' pc' rs).

(** Every step but the writer's and the arrival of new requests to close. *)
Inductive env_step : Sys -> Sys -> Prop :=
  | es_produce p p' pc rs : produce p p' -> env_step (mkSys p pc rs) (mkSys p' pc rs)
  | es_request p pc pre r post pick p' r' : requester_step p r pick = (p', r') ->
      env_step (mkSys p pc (pre ++ r :: post)) (mkSys p' pc (pre ++ r' :: post)).

Inductive sys_step (authRevokedFrame : string -> bytes) : Sys -> Sys -> Prop :=
  | ss_write a b : write_step a b -> sys_step authRevokedFrame a b
  | ss_env a b : env_step a b -> sys_step authRevokedFrame a b
  | ss_close p pc rs status reason : sys_step authRevokedFrame (mkSys p pc rs) (mkSys p pc (RequestClose status reason :: rs))
  | ss_revoke p pc rs status reason :
      sys_step authRevokedFrame (mkSys p pc rs) (mkSys p pc (RequestAuthRevoked authRevokedFrame reason status :: rs)).

Definition start : Sys := mkSys newWebSocketWritePump (Top 0) [].

(** ** Accounting of the terminal lane *)

Definition frames (l : list webSocketTerminal) : Z := foldr (fun t n => len (tm_frame t) + n) 0 l.

(** Terminal items a requester has reserved and not sent, and the writer took
    and did not release. *)
Definition in_flight (r : Requester) : list webSocketTerminal :=
  match rq_phase r, rq_todo r with AtSend, t :: _ => [t] | _, _ => [] end.
Definition holds (pc : PC) : list webSocketTerminal := match pc with RunTerminal t => [t] | _ => [] end.
Definition counted (s : Sys) : list webSocketTerminal :=
  holds (sy_pc s) ++ wp_terminal (sy_pump s) ++ mjoin (in_flight <$> sy_reqs s).

(** ** What has been written *)

Definition ordinary (s : Sent) : Prop := match s with SentNotice _ | SentClose _ _ => False | _ => True end.
Definition notice (s : Sent) : Prop := match s with SentNotice _ => True | _ => False end.

Definition closing (pc : PC) : bool := match pc with RunTerminal _ | ActTerminal _ | AwaitTerminal | Exit _ | Exited => true | _ => false end.
Definition exiting (pc : PC) : bool := match pc with Exit _ | Exited => true | _ => false end.

Definition wire_ok (wire : list Sent) (pc : PC) : Prop :=
  exists o n c, wire = o ++ n ++ c /\ Forall ordinary o /\ Forall notice n /\
    (c = [] \/ exists status reason, c = [SentClose status reason]) /\
    (closing pc = false -> n = []) /\ (exiting pc = false -> c = []).

(** The writer's place as the state lane sees it. *)
Definition lane_writer (pc : PC) : Writer :=
  match pc with
  | Top _ | Control _ _ | Claim _ | SelState _ | SelTelemetry _ | WResponse _ _ _ | WPong _ _ _ | WPing _ _
  | WTelemetry _ _ | RunTerminal _ | ActTerminal _ | AwaitTerminal => Looking
  | Select _ => Waiting
  | WState f _ => Writing f
  | Exit 0 => Looking
  | Exit _ | Exited => Gone
  end.

Definition telemetry_ok (l : webSocketTelemetryLane) (pc : PC) : Prop :=
  (te_closed l = true -> te_frame l = []) /\
  (te_frame l <> [] -> te_ready l = true \/ exists turn, pc = SelTelemetry turn).

Record sys_ok (s : Sys) : Prop := {
  so_items : wp_terminalItems (sy_pump s) = len (counted s);
  so_bytes : wp_terminalBytes (sy_pump s) = frames (counted s);
  so_max : len (counted s) <= MaxWebSocketTerminalItems /\ frames (counted s) <= MaxWebSocketTerminalBytes;
  so_wire : wire_ok (wp_wire (sy_pump s)) (sy_pc s);
  so_lane : lane_ok (wp_state (sy_pump s), lane_writer (sy_pc s));
  so_telemetry : telemetry_ok (wp_telemetry (sy_pump s)) (sy_pc s);
  so_done : wp_done (sy_pump s) = true -> sy_pc s = Exited
}.


(** ** The invariant *)

(** The lane operations of one writer step. *)
Ltac run_cases H :=
  match type of H with run_step _ ?pc _ _ = _ => destruct pc end; cbn [run_step] in H;
  unfold select_case, visit_control, take_responses, take_terminal, take_pong, take_ping, run_deferred in H;
  repeat (case_match; simplify_option_eq); simplify_option_eq.

Lemma claim_none l l' : claim l = (None, l') -> l' = l.
Proof. unfold claim. by repeat case_match; intros; simplify_eq. Qed.

Lemma write_lanes p ok s : wp_state (write p ok s) = wp_state p /\ wp_telemetry (write p ok s) = wp_telemetry p /\
  wp_terminal (write p ok s) = wp_terminal p /\ wp_terminalItems (write p ok s) = wp_terminalItems p /\
  wp_terminalBytes (write p ok s) = wp_terminalBytes p /\ wp_done (write p ok s) = wp_done p /\
  wp_wire (write p ok s) = (if ok then wp_wire p ++ [s] else wp_wire p).
Proof. unfold write. by destruct ok. Qed.

Lemma releaseQueuedTerminal_eq p : releaseQueuedTerminal p =
  set_terminal p [] (wp_terminalItems p - len (wp_terminal p)) (wp_terminalBytes p - frames (wp_terminal p)).
Proof.
  unfold releaseQueuedTerminal. generalize (wp_terminal p) as q. intros q.
  assert (H : forall q p0, wp_terminal p0 = [] -> fold_left releaseTerminal q p0 =
    set_terminal p0 [] (wp_terminalItems p0 - len q) (wp_terminalBytes p0 - frames q)).
  { clear. induction q as [|t q IH]; intros p0 H0; cbn [fold_left].
    - destruct p0. cbn in *. subst. unfold set_terminal, len. cbn. f_equal; lia.
    - rewrite IH by done. unfold releaseTerminal, set_terminal, frames, len. cbn [wp_state wp_telemetry wp_responses wp_pings wp_pongs wp_terminal wp_terminalItems wp_terminalBytes wp_done wp_force wp_wire length foldr]. f_equal; lia. }
  by rewrite H.
Qed.

(** One step of the writer is steps of the state lane's protocol. *)
Lemma run_lane p pc ok chosen p' pc' : run_step p pc ok chosen = Some (p', pc') ->
  rtc lane_step (wp_state p, lane_writer pc) (wp_state p', lane_writer pc').
Proof.
  intros H. run_cases H; cbn [lane_writer after_control]; try rewrite releaseQueuedTerminal_eq;
    unfold release_response, release_state, after_control; try destruct ok; try case_match;
    cbn [write put_wire ForceClose set_state set_telemetry set_responses set_controls set_terminal set_done releaseTerminal wp_state lane_writer];
    try apply rtc_refl; try (by apply rtc_once; constructor).
  all: match goal with Hc : claim _ = (None, _) |- _ => apply claim_none in Hc as ->; apply rtc_refl end.
Qed.

Lemma lane_steps_ok s s' : rtc lane_step s s' -> lane_ok s -> lane_ok s'.
Proof. induction 1; eauto using lane_step_ok. Qed.

Lemma frames_app l1 l2 : frames (l1 ++ l2) = frames l1 + frames l2.
Proof. unfold frames. induction l1 as [|t l1 IH]; cbn; lia. Qed.

Lemma frames_nonneg l : 0 <= frames l.
Proof. unfold frames. induction l as [|t l IH]; cbn; [lia|]. pose proof (len_nonneg (tm_frame t)). lia. Qed.

Lemma frames_perm l1 l2 : l1 ≡ₚ l2 -> frames l1 = frames l2.
Proof. unfold frames. induction 1; cbn; lia. Qed.

Lemma len_perm {A} (l1 l2 : list A) : l1 ≡ₚ l2 -> len l1 = len l2.
Proof. intros H. unfold len. by rewrite H. Qed.

(** Only the order of counted items changes when the writer takes one, and only
    the released ones disappear. *)
Definition released (pc : PC) (p : webSocketWritePump) : list webSocketTerminal :=
  match pc with RunTerminal t => [t] | Exit 3 => wp_terminal p | _ => [] end.

Lemma run_counted p pc ok chosen p' pc' rs : run_step p pc ok chosen = Some (p', pc') ->
  counted (mkSys p pc rs) = released pc p ++ counted (mkSys p' pc' rs) /\
  wp_terminalItems p' = wp_terminalItems p - len (released pc p) /\
  wp_terminalBytes p' = wp_terminalBytes p - frames (released pc p).
Proof.
  intros H. run_cases H; try rewrite releaseQueuedTerminal_eq;
    unfold release_response, release_state, after_control, counted; try destruct ok; try case_match;
    cbn [write put_wire ForceClose set_state set_telemetry set_responses set_controls set_terminal set_done releaseTerminal
         wp_terminal wp_terminalItems wp_terminalBytes holds released sy_pc sy_pump sy_reqs app frames foldr];
    split_and!; try done; unfold len; cbn [length]; try lia; try congruence.
  all: match goal with Hq : wp_terminal _ = _ :: _ |- _ => by rewrite Hq end.
Qed.

Ltac run_simpl :=
  try rewrite releaseQueuedTerminal_eq; unfold release_response, release_state, after_control, write; repeat case_match; simplify_eq;
  cbn [put_wire ForceClose set_state set_telemetry set_responses set_controls set_terminal set_done releaseTerminal
       wp_wire wp_telemetry wp_done te_frame te_ready close_telemetry closing exiting sy_pc sy_pump sy_reqs].

(** What a step may write. *)
Lemma run_write p pc ok chosen p' pc' : run_step p pc ok chosen = Some (p', pc') ->
  (wp_wire p' = wp_wire p /\ (closing pc' = false -> closing pc = false) /\ (exiting pc' = false -> exiting pc = false)) \/
  exists s, wp_wire p' = wp_wire p ++ [s] /\ exiting pc = false /\
    ((ordinary s /\ closing pc = false /\ closing pc' = false) \/ (notice s /\ closing pc' = true /\ exiting pc' = false) \/
     (exists status reason, s = SentClose status reason) /\ exiting pc' = true).
Proof.
  intros H. run_cases H; run_simpl; try (left; split_and!; done); 
    (right; eexists; split; [done|split; [done|first [left; by split_and! | right; left; by split_and! | right; right; by eauto]]]).
Qed.

Lemma run_wire p pc ok chosen p' pc' : run_step p pc ok chosen = Some (p', pc') ->
  wire_ok (wp_wire p) pc -> wire_ok (wp_wire p') pc'.
Proof.
  intros H (o & n & c & Hw & Ho & Hn & Hc & H1 & H2).
  destruct (run_write _ _ _ _ _ _ H) as [(-> & M1 & M2)|(s & -> & Hx & Hs)].
  { exists o, n, c. split_and!; try done; intros; [apply H1, M1|apply H2, M2]; done. }
  rewrite (H2 Hx), app_nil_r in Hw. rewrite Hw. destruct Hs as [(Hs & Hcl & Hcl')|[(Hs & Hcl' & Hx')|((status & reason & ->) & Hx')]].
  - exists (o ++ [s]), [], []. rewrite (H1 Hcl), !app_nil_r. split_and!; try done; [|by left]. apply Forall_app. by repeat constructor.
  - exists o, (n ++ [s]), []. rewrite app_nil_r, app_assoc. split_and!; try done; [|by left|congruence]. apply Forall_app. by repeat constructor.
  - exists o, n, [SentClose status reason]. rewrite app_assoc. split_and!; try done; [by right; eauto| |congruence].
    intros Hcl. by destruct pc'.
Qed.

Lemma run_telemetry p pc ok chosen p' pc' : run_step p pc ok chosen = Some (p', pc') ->
  telemetry_ok (wp_telemetry p) pc -> telemetry_ok (wp_telemetry p') pc'.
Proof.
  intros H [H0 Hok]. unfold telemetry_ok. run_cases H; run_simpl; unfold claim_telemetry in *; repeat case_match; simplify_eq;
    cbn [te_frame te_ready te_closed]; split; try done;
    try (intros Hf; destruct (Hok Hf) as [?|[? ?]]; [by left|done]); try (by right; eauto).
  intros Hf. exfalso. apply Hf. destruct (te_closed (wp_telemetry p)); [auto|]. cbn [orb] in *.
  destruct (te_frame (wp_telemetry p)); [done|]. by apply Z.eqb_eq in H.
Qed.

Lemma run_done p pc ok chosen p' pc' : run_step p pc ok chosen = Some (p', pc') ->
  (wp_done p = true -> pc = Exited) -> wp_done p' = true -> pc' = Exited.
Proof. intros H Hd. run_cases H; run_simpl; try done; intros E; by apply Hd in E. Qed.

Lemma writer_step_ok a b : write_step a b -> sys_ok a -> sys_ok b.
Proof.
  intros [p pc rs ok chosen p' pc' H] [H1 H2 [H3 H3'] H4 H5 H6 H7]. cbn [sy_pump sy_pc sy_reqs] in *.
  destruct (run_counted _ _ _ _ _ _ rs H) as (E & E1 & E2). rewrite E in *. rewrite len_app in *. rewrite frames_app in *.
  pose proof (len_nonneg (released pc p)). pose proof (frames_nonneg (released pc p)).
  constructor; cbn [sy_pump sy_pc sy_reqs]; try lia; eauto using run_wire, run_telemetry, run_done, lane_steps_ok, run_lane.
Qed.

Lemma produce_frame p p' : produce p p' ->
  wp_terminal p' = wp_terminal p /\ wp_terminalItems p' = wp_terminalItems p /\ wp_terminalBytes p' = wp_terminalBytes p /\
  wp_wire p' = wp_wire p /\ wp_done p' = wp_done p /\
  (forall w, rtc lane_step (wp_state p, w) (wp_state p', w)) /\
  (forall pc, telemetry_ok (wp_telemetry p) pc -> telemetry_ok (wp_telemetry p') pc).
Proof.
  intros H. destruct H.
  all: unfold Enqueue, ApplyStateBatch, EnqueueVoiceStats, pump_ReserveResponse, RequestPing, RequestPong, enqueue in *.
  all: repeat case_match; simplify_eq; try (by split_and!; try done; intros; apply rtc_refl).
  all: cbn [snd set_state set_telemetry set_responses set_controls wp_state wp_telemetry wp_terminal wp_terminalItems wp_terminalBytes wp_wire wp_done].
  all: try (by split_and!; try done; intros; apply rtc_refl).
  - split_and!; try done. intros w0. apply rtc_once.
    match goal with Ha : applyBatch _ _ _ = _ |- _ => pose proof (ls_apply (wp_state p) w0 [] [control_item frame]) as Hl; by rewrite Ha in Hl end.
  - split_and!; try done. intros w0. apply rtc_once.
    match goal with Ha : applyBatch _ _ _ = _ |- _ => pose proof (ls_apply (wp_state p) w0 revoked items) as Hl; by rewrite Ha in Hl end.
  - split_and!; try done. intros pc [T1 T2]. unfold store in *. repeat case_match; simplify_eq; (split; [auto|]); try done. by left.
  - unfold pump_EnqueueResponse in H. apply bind_Some in H as ([b l] & H1 & [= <- <-]).
    cbn [set_responses wp_state wp_telemetry wp_terminal wp_terminalItems wp_terminalBytes wp_wire wp_done].
    by split_and!.
Qed.

(** What a thread asking to close does: it keeps the capacity it reserved. *)
Lemma requester_frame p r pick p' r' : requester_step p r pick = (p', r') ->
  wp_wire p' = wp_wire p /\ wp_done p' = wp_done p /\ wp_telemetry p' = wp_telemetry p /\
  (forall w, rtc lane_step (wp_state p, w) (wp_state p', w)).
Proof.
  unfold requester_step, releaseTerminal. repeat case_match; intros; simplify_eq; split_and!; try done; intros w; try apply rtc_refl.
  apply rtc_once, ls_stop.
Qed.

Lemma requester_counted p r pick p' r' : requester_step p r pick = (p', r') ->
  exists delta, len (wp_terminal p' ++ in_flight r') = len (wp_terminal p ++ in_flight r) + delta.1 /\
    frames (wp_terminal p' ++ in_flight r') = frames (wp_terminal p ++ in_flight r) + delta.2 /\
    wp_terminalItems p' = wp_terminalItems p + delta.1 /\ wp_terminalBytes p' = wp_terminalBytes p + delta.2 /\
    (delta = (0, 0) \/ delta.1 = -1 /\ delta.2 <= 0 \/ wp_terminalItems p' <= MaxWebSocketTerminalItems /\ wp_terminalBytes p' <= MaxWebSocketTerminalBytes).
Proof.
  unfold requester_step. intros H.
  assert (Hid : forall q q' : list webSocketTerminal, q = q' -> len q = len q' + 0 /\ frames q = frames q' + 0) by (intros ? ? ->; lia).
  destruct (rq_stop r).
  { simplify_eq. exists (0, 0). cbn. split_and!; try lia; try done; [apply Hid; done|apply Hid; done|by left]. }
  unfold in_flight. destruct (rq_todo r) as [|t rest] eqn:Ht.
  { simplify_eq. rewrite Ht. exists (0, 0). cbn [fst snd]. split_and!; try lia; try (by left); apply Hid; by destruct (rq_phase r'). }
  destruct (rq_phase r) eqn:Hp.
  - exists (0, 0). case_match; simplify_eq; cbn [fst snd rq_phase rq_todo]; split_and!; try lia; by left.
  - case_match eqn:G; simplify_eq; cbn [fst snd rq_phase rq_todo]; [exists (0, 0); cbn [fst snd]; split_and!; try lia; by left|].
    exists (1, len (tm_frame t)). cbn [fst snd set_terminal wp_terminal wp_terminalItems wp_terminalBytes].
    rewrite app_nil_r, len_app, frames_app. apply orb_false_iff in G as [G1%Z.leb_gt G2%Z.ltb_ge].
    unfold frames at 2. cbn [foldr]. rewrite len_cons. change (@len webSocketTerminal []) with 0.
    split_and!; lia.
  - assert (Hrel : in_flight (mkRequester false AtCheck rest) = []) by done. unfold in_flight in Hrel.
    repeat case_match; simplify_eq; cbn [rq_phase rq_todo releaseTerminal set_terminal wp_terminal wp_terminalItems wp_terminalBytes] in *;
      rewrite ?app_nil_r, ?len_app, ?frames_app; unfold frames; cbn [foldr]; rewrite ?len_cons; change (@len webSocketTerminal []) with 0;
      pose proof (len_nonneg (tm_frame t)).
    1, 3: exists (-1, - len (tm_frame t)); cbn [fst snd]; split_and!; try lia; right; left; lia.
    exists (0, 0). cbn [fst snd]. split_and!; try lia. by left.
Qed.

Lemma counted_split p pc pre r post :
  counted (mkSys p pc (pre ++ r :: post)) ≡ₚ
  (holds pc ++ mjoin (in_flight <$> pre) ++ mjoin (in_flight <$> post)) ++ (wp_terminal p ++ in_flight r).
Proof.
  unfold counted. cbn [sy_pc sy_pump sy_reqs]. rewrite fmap_app, fmap_cons, join_app. cbn [mjoin list_join]. fold (@mjoin list _ webSocketTerminal).
  solve_Permutation.
Qed.

Lemma env_ok a b : env_step a b -> sys_ok a -> sys_ok b.
Proof.
  intros He [H1 H2 [H3 H3'] H4 H5 H6 H7]. destruct He as [p p' pc rs Hp|p pc pre r post pick p' r' Hr]; cbn [sy_pump sy_pc sy_reqs] in *.
  - destruct (produce_frame _ _ Hp) as (E1 & E2 & E3 & E4 & E5 & E6 & E7).
    assert (E : counted (mkSys p' pc rs) = counted (mkSys p pc rs)) by (unfold counted; cbn; by rewrite E1).
    constructor; cbn [sy_pump sy_pc sy_reqs]; rewrite ?E, ?E2, ?E3, ?E4, ?E5; eauto using lane_steps_ok.
  - destruct (requester_frame _ _ _ _ _ Hr) as (E1 & E2 & E3 & E4).
    destruct (requester_counted _ _ _ _ _ Hr) as ([d1 d2] & D1 & D2 & D3 & D4 & D5). cbn [fst snd] in *.
    pose proof (counted_split p pc pre r post) as P. pose proof (counted_split p' pc pre r' post) as P'.
    pose proof (len_perm _ _ P) as L. pose proof (len_perm _ _ P') as L'. pose proof (frames_perm _ _ P) as F. pose proof (frames_perm _ _ P') as F'.
    rewrite len_app in L, L'. rewrite frames_app in F, F'.
    constructor; cbn [sy_pump sy_pc sy_reqs]; rewrite ?E1, ?E2, ?E3; eauto using lane_steps_ok; try lia.
    destruct D5 as [D5|[D5|D5]]; [injection D5 as -> ->; lia|lia|lia].
Qed.

Section Reachable.
Context (authRevokedFrame : string -> bytes).
#[local] Abbreviation step := (sys_step authRevokedFrame).

Lemma sys_step_ok a b : step a b -> sys_ok a -> sys_ok b.
Proof.
  intros Hs Hok. destruct Hs as [a b Hs|a b Hs| |]; [by eapply writer_step_ok|by eapply env_ok| |].
  all: destruct Hok as [H1 H2 H3 H4 H5 H6 H7]; by constructor.
Qed.

Lemma pump_start_ok : sys_ok start.
Proof.
  constructor; cbn; try done.
  - by exists [], [], []; split_and!; try constructor.
  - constructor; cbn; try done. split; [constructor|done].
Qed.

Lemma pump_reachable_ok s : rtc step start s -> sys_ok s.
Proof. intros H. assert (H0 := pump_start_ok). induction H; eauto using sys_step_ok. Qed.

(** the terminal lane is exactly accounted and never overflows.  Whatever
    threads ask for the connection to end, the reserved items are those queued,
    those about to be sent and the one the writer just took, at most two items
    and 8 KiB; and a thread that reserved capacity always finds room to send. *)
Theorem terminal_accounted s : rtc step start s ->
  wp_terminalItems (sy_pump s) = len (counted s) /\ wp_terminalBytes (sy_pump s) = frames (counted s) /\
  len (counted s) <= 2 /\ frames (counted s) <= 8192 /\
  (forall r t, r ∈ sy_reqs s -> in_flight r = [t] -> len (wp_terminal (sy_pump s)) < 2).
Proof.
  intros [H1 H2 [H3 H3'] _ _ _ _]%pump_reachable_ok. unfold MaxWebSocketTerminalItems, MaxWebSocketTerminalBytes in *.
  split_and!; try done. intros r t Hr Ht. apply list_elem_of_split in Hr as (pre & post & E).
  destruct s as [p pc rs]. cbn [sy_reqs sy_pump] in *. subst rs. pose proof (len_perm _ _ (counted_split p pc pre r post)) as L.
  rewrite !len_app, Ht in L. change (len [t]) with 1 in L.
  pose proof (len_nonneg (holds pc)). pose proof (len_nonneg (mjoin (in_flight <$> pre))). pose proof (len_nonneg (mjoin (in_flight <$> post))). lia.
Qed.

(** C38: nothing overtakes the end of a connection.  What the socket carries is
    ordinary frames, then revocation notices, then at most one close frame;
    while the writer serves ordinary lanes there is no notice, and after a close
    frame it only cleans up. *)
Theorem wire_order s : rtc step start s -> exists o n c, wp_wire (sy_pump s) = o ++ n ++ c /\
  Forall ordinary o /\ Forall notice n /\ (c = [] \/ exists status reason, c = [SentClose status reason]) /\
  (closing (sy_pc s) = false -> n = []) /\ (exiting (sy_pc s) = false -> c = []).
Proof. intros H%pump_reachable_ok. exact (so_wire _ H). Qed.

(** the writer blocks only when there is nothing to write.  In every
    reachable state where no choice lets it step, it has exited, or waits with
    all six lanes empty, or waits for the close that follows a notice. *)
Theorem writer_idle s : rtc step start s ->
  (forall ok chosen, run_step (sy_pump s) (sy_pc s) ok chosen = None) ->
  sy_pc s = Exited \/ (sy_pc s = AwaitTerminal /\ wp_terminal (sy_pump s) = []) \/
  (exists turn, sy_pc s = Select turn /\ wp_terminal (sy_pump s) = [] /\ rl_queue (wp_responses (sy_pump s)) = [] /\
    wp_pings (sy_pump s) = false /\ wp_pongs (sy_pump s) = [] /\ ln_queue (wp_state (sy_pump s)) = [] /\
    te_frame (wp_telemetry (sy_pump s)) = []).
Proof.
  intros [_ _ _ _ HL [_ HT] _]%pump_reachable_ok Hb. destruct s as [p pc rs]. cbn [sy_pump sy_pc] in *.
  destruct pc eqn:Hpc; try (specialize (Hb true LTerminal); cbn [run_step] in Hb; repeat case_match; by simplify_eq); [| |by left].
  - right; right. eexists. split; [done|].
    pose proof (Hb true LTerminal) as B1. pose proof (Hb true LResponse) as B2. pose proof (Hb true LPing) as B3.
    pose proof (Hb true LPong) as B4. pose proof (Hb true LState) as B5. pose proof (Hb true LTelemetry) as B6.
    cbn [run_step] in *. unfold select_case, take_terminal, take_responses, take_response, take_ping, take_pong in *.
    pose proof (lo_wake _ HL eq_refl) as HW. cbn [fst] in HW.
    split_and!.
    + by destruct (wp_terminal p).
    + by destruct (rl_queue (wp_responses p)).
    + by destruct (wp_pings p).
    + by destruct (wp_pongs p).
    + destruct (ln_queue (wp_state p)); [done|]. by rewrite HW in B5.
    + destruct (te_frame (wp_telemetry p)); [done|]. destruct HT as [HT|[? ?]]; [done|by rewrite HT in B6|done].
  - right; left. specialize (Hb true LTerminal). cbn [run_step] in Hb. unfold take_terminal in Hb.
    destruct (wp_terminal p); by simplify_option_eq.
Qed.
End Reachable.

(** ** Fairness *)

(** Work a lane holds, and the writer having taken some of it. *)
Definition pending (lane : Lanes) (p : webSocketWritePump) : Prop :=
  match lane with
  | LResponse => rl_queue (wp_responses p) <> []
  | LPong => wp_pongs p <> []
  | LPing => wp_pings p = true
  | LState => ln_closed (wp_state p) = false /\ ln_queue (wp_state p) <> []
  | LTerminal | LTelemetry => False
  end.
Definition serves (lane : Lanes) (pc : PC) : Prop :=
  match lane, pc with
  | LResponse, WResponse _ _ _ | LPong, WPong _ _ _ | LPing, WPing _ _ | LState, WState _ _ => True
  | _, _ => False
  end.

Definition index (lane : Lanes) : nat := match lane with LResponse => 0 | LPong => 1 | _ => 2 end.

(** Lanes the round-robin visits before this one. *)
Definition dist (lane : Lanes) (turn : nat) : nat := ((index lane + 3 - turn mod 3) mod 3)%nat.

(** Writes that may still precede the lane's turn. *)
Definition control_budget (lane : Lanes) (pc : PC) : nat :=
  match pc with
  | Top t => 2 * dist lane t
  | Control t offset => if (offset <=? dist lane t)%nat then 2 * dist lane t else 6
  | Claim t | Select t | SelState t | SelTelemetry t | WResponse _ true t | WPong _ true t | WPing true t
  | WState _ t | WTelemetry _ t => 1 + 2 * dist lane t
  | WResponse _ false t | WPong _ false t | WPing false t => 2 + 2 * dist lane t
  | _ => 0
  end.
Definition state_budget (pc : PC) : nat :=
  match pc with
  | Claim _ | SelState _ => 0
  | Top _ | Control _ _ | WResponse _ false _ | WPong _ false _ | WPing false _ => 1
  | _ => 2
  end.

Lemma dist_lt lane turn : (dist lane turn < 3)%nat.
Proof. apply Nat.mod_upper_bound. lia. Qed.

Lemma control_budget_le lane pc : (control_budget lane pc <= 6)%nat.
Proof. destruct pc; cbn [control_budget]; try case_match; try pose proof (dist_lt lane turn); lia. Qed.

(** The round-robin serves the first pending lane from the turn on, and the turn
    moves past it. *)
Lemma visit_budget lane p turn offset p' pc' : (lane = LResponse \/ lane = LPong \/ lane = LPing) -> (offset < 3)%nat ->
  pending lane p -> visit_control p turn offset = (p', pc') -> ~ serves lane pc' ->
  wp_wire p' = wp_wire p /\ (control_budget lane pc' <= control_budget lane (Control turn offset))%nat.
Proof.
  intros Hl Ho Hp Hv Hs. unfold visit_control in Hv. rewrite <- Nat.Div0.add_mod_idemp_l in Hv.
  cbn [control_budget]. unfold dist.
  assert (Hm : (turn mod 3 < 3)%nat) by (apply Nat.mod_upper_bound; lia).
  destruct (turn mod 3)%nat as [|[|[|?]]] eqn:Et; [| | |lia];
    (destruct offset as [|[|[|?]]]; [| | |lia]);
    destruct Hl as [ -> | [ -> | -> ]]; cbn [index Nat.add Nat.sub Nat.modulo Nat.divmod fst snd Nat.leb Nat.mul] in Hv |- *;
    unfold take_responses, take_response, take_pong, take_ping in Hv; cbn [pending serves] in *;
    repeat case_match; simplify_eq; cbn [serves] in *; try done; split; try done; cbn [control_budget]; unfold dist; rewrite ?Et; cbn; lia.
Qed.

Lemma write_length p ok s : (length (wp_wire (write p ok s)) <= S (length (wp_wire p)))%nat.
Proof. unfold write. destruct ok; cbn; rewrite ?length_app; cbn; lia. Qed.

Lemma control_step lane p pc ok chosen p' pc' : (lane = LResponse \/ lane = LPong \/ lane = LPing) ->
  run_step p pc ok chosen = Some (p', pc') -> pending lane p -> ~ serves lane pc' -> closing pc' = false ->
  (length (wp_wire p') + control_budget lane pc' <= length (wp_wire p) + control_budget lane pc)%nat.
Proof.
  intros Hl H Hp Hs Hc. destruct pc as [turn|turn offset| | | | | | | | | | | | | |]; cbn [run_step] in H.
  2: { destruct (Nat.ltb_spec offset 3) as [Ho|Ho].
    - injection H as H. destruct (visit_budget lane p turn offset p' pc') as [-> ?]; [done..|lia].
    - injection H as <- <-. cbn [control_budget]. pose proof (dist_lt lane turn).
      destruct (Nat.leb_spec offset (dist lane turn)); lia. }
  all: unfold select_case, take_terminal in H; repeat case_match; simplify_option_eq; try done; unfold after_control in *;
    repeat case_match; simplify_eq; try done.
  all: unfold take_responses, take_pong, take_ping, run_deferred in *; repeat case_match; simplify_eq; try done.
  all: cbn [control_budget set_controls set_responses wp_wire]; rewrite ?length_app; cbn [length]; lia.
Qed.

Lemma state_step p pc ok chosen p' pc' : run_step p pc ok chosen = Some (p', pc') ->
  pending LState p -> ~ serves LState pc' -> closing pc' = false ->
  (length (wp_wire p') + state_budget pc' <= length (wp_wire p) + state_budget pc)%nat.
Proof.
  intros H [Hp1 Hp2] Hs Hc.
  assert (Hcl : exists f l, claim (wp_state p) = (Some f, l)).
  { unfold claim. rewrite Hp1. destruct (ln_queue (wp_state p)); [done|]. eauto. }
  destruct Hcl as (f & l & Hcl).
  run_cases H; try done; unfold after_control in *; repeat case_match; simplify_eq; try done.
  all: cbn [state_budget set_controls set_responses set_state set_telemetry release_response release_state write put_wire ForceClose wp_wire].
  all: rewrite ?length_app; cbn [length]; lia.
Qed.

(** Steps of the system while the lane has work, none of it is taken and the
    connection is not ending. *)
Definition waits_step (authRevokedFrame : string -> bytes) (lane : Lanes) (a b : Sys) : Prop :=
  sys_step authRevokedFrame a b /\ pending lane (sy_pump b) /\ ~ serves lane (sy_pc b) /\ closing (sy_pc b) = false.

Definition budget (lane : Lanes) (pc : PC) : nat := match lane with LState => state_budget pc | _ => control_budget lane pc end.

Lemma waits_budget revoked lane a b : rtc (waits_step revoked lane) a b -> pending lane (sy_pump a) ->
  (length (wp_wire (sy_pump b)) + budget lane (sy_pc b) <= length (wp_wire (sy_pump a)) + budget lane (sy_pc a))%nat.
Proof.
  induction 1 as [a|a b c (Hs & Hp & Hn & Hc) _ IH]; intros Ha; [done|]. etrans; [by apply IH|]. clear IH.
  destruct Hs as [a b [p pc rs ok chosen p' pc' H]|a b [p p' pc rs H|p pc pre r post pick p' r' H]| |]; cbn [sy_pump sy_pc] in *; try done.
  - destruct lane; cbn [budget]; try done; try (by eapply control_step; eauto); by eapply state_step.
  - destruct (produce_frame _ _ H) as (_ & _ & _ & -> & _). done.
  - destruct (requester_frame _ _ _ _ _ H) as (-> & _). done.
Qed.

(** the writer is fair.  A queued response, pong or ping is taken after at
    most six other frames, and a queued state frame after at most two, whatever
    the producers add to the other lanes meanwhile. *)
Theorem writer_fair revoked lane a b : pending lane (sy_pump a) -> rtc (waits_step revoked lane) a b ->
  (length (wp_wire (sy_pump b)) <= length (wp_wire (sy_pump a)) + (match lane with LState => 2 | _ => 6 end))%nat.
Proof.
  intros Hp H. pose proof (waits_budget _ _ _ _ H Hp) as Hb. pose proof (control_budget_le lane (sy_pc a)).
  assert (state_budget (sy_pc a) <= 2)%nat by (destruct (sy_pc a) as [| | | | | |? [] ?|? [] ?|[] ?| | | | | | |]; cbn; lia).
  destruct lane; cbn [budget] in Hb; lia.
Qed.

(** ** Shutdown *)

(** Steps the writer needs at most to end a connection whose terminal lane holds
    a close. *)
Definition distance (p : webSocketWritePump) (pc : PC) : nat :=
  let t := (3 * length (wp_terminal p))%nat in
  match pc with
  | Exited => 0
  | Exit n => 1 + (4 - n)
  | AwaitTerminal => 6 + t
  | ActTerminal _ => 7 + t
  | RunTerminal _ => 8 + t
  | Top _ => 9 + t
  | WResponse _ true _ | WPong _ true _ | WPing true _ | WState _ _ | WTelemetry _ _ => 10 + t
  | SelState _ | SelTelemetry _ => 11 + t
  | Select _ => 12 + t
  | Claim _ => 13 + t
  | WResponse _ false _ | WPong _ false _ | WPing false _ => 14 + t
  | Control _ offset => 15 + (4 - offset) + t
  end.

Lemma distance_step p pc ok chosen p' pc' : run_step p pc ok chosen = Some (p', pc') ->
  (forall turn, pc = Top turn -> wp_terminal p <> []) -> (distance p' pc' < distance p pc)%nat.
Proof.
  intros H Ht. run_cases H; try rewrite releaseQueuedTerminal_eq; unfold after_control, release_response, release_state, write;
    repeat case_match; simplify_eq; unfold distance;
    cbn [set_controls set_responses set_state set_telemetry set_terminal set_done put_wire ForceClose releaseTerminal wp_terminal];
    try (match goal with Hq : wp_terminal _ = _ |- _ => rewrite Hq end; cbn [length]); try lia.
  - by destruct (Ht turn).
  - match goal with Ho : (offset <? 3)%nat = true |- _ => apply Nat.ltb_lt in Ho; lia end.
  - match goal with Ho : (offset <? 3)%nat = true |- _ => apply Nat.ltb_lt in Ho; lia end.
  - match goal with Ho : (offset <? 3)%nat = true |- _ => apply Nat.ltb_lt in Ho; lia end.
Qed.

(** One thread asks for the end of the connection; its items are [items]. *)
Section OneRequest.
Context (items : list webSocketTerminal).
Context (Hlen : (length items <= 2)%nat) (Hframes : frames items <= MaxWebSocketTerminalBytes).
Context (Hok : Forall (fun t => terminal_frame_ok t = true) items).

(** What the writer took so far, with the items before the current one all
    notices. *)
Definition taken_ok (pc : PC) (taken : list webSocketTerminal) : Prop :=
  match pc with
  | RunTerminal t | ActTerminal t => exists before, taken = before ++ [t] /\ Forall (fun t => tm_close t = false) before
  | AwaitTerminal => Forall (fun t => tm_close t = false) taken
  | _ => taken = []
  end.

Definition request_ok (s : Sys) : Prop := sys_ok s /\
  exists r, sy_reqs s = [r] /\
    (exiting (sy_pc s) = true \/ exists taken, items = taken ++ wp_terminal (sy_pump s) ++ rq_todo r /\ taken_ok (sy_pc s) taken).

Lemma exiting_mono p pc ok chosen p' pc' : run_step p pc ok chosen = Some (p', pc') -> exiting pc = true -> exiting pc' = true.
Proof. intros H. run_cases H; done. Qed.

Lemma request_write a b : write_step a b -> request_ok a -> request_ok b.
Proof.
  intros Hs [Ha (r & Hr & Hcase)]. split; [by eapply writer_step_ok|]. destruct Hs as [p pc rs ok chosen p' pc' H]. cbn [sy_reqs sy_pc sy_pump] in *.
  exists r. split; [done|]. destruct Hcase as [He|(taken & Hi & Ht)]; [left; by eapply exiting_mono|].
  run_cases H; unfold after_control, release_response, release_state, write in *; repeat case_match; simplify_eq; cbn [exiting]; try (by left); right;
    cbn [set_controls set_responses set_state set_telemetry set_terminal put_wire ForceClose releaseTerminal wp_terminal taken_ok] in *;
    try (by exists taken); try (by exists []);
    try (match goal with Hq : wp_terminal _ = ?w :: _ |- _ => exists [w]; split; [done|]; by exists [] end).
  - destruct Ht as (before & -> & Hb). exists (before ++ [t]). split; [done|]. apply Forall_app. by repeat constructor.
  - exists (taken ++ [w]). rewrite <- app_assoc. split; [done|]. by exists taken.
Qed.

Lemma taken_holds pc taken : taken_ok pc taken -> len (holds pc) <= len taken /\ frames (holds pc) <= frames taken.
Proof.
  destruct pc; cbn [taken_ok holds]; try (intros ->; done); try (intros; split; [apply len_nonneg|apply frames_nonneg]).
  - intros (before & -> & _). rewrite len_app, frames_app. pose proof (len_nonneg before). pose proof (frames_nonneg before). lia.
Qed.

(** The reservation of a single request always succeeds. *)
Lemma request_room p pc r taken t rest : sys_ok (mkSys p pc [r]) -> rq_todo r = t :: rest -> rq_phase r <> AtSend ->
  items = taken ++ wp_terminal p ++ rq_todo r -> taken_ok pc taken ->
  wp_terminalItems p < MaxWebSocketTerminalItems /\ wp_terminalBytes p + len (tm_frame t) <= MaxWebSocketTerminalBytes.
Proof.
  intros [H1 H2 _ _ _ _ _] Htodo Hph Hi Ht. destruct (taken_holds _ _ Ht) as [T1 T2]. cbn [sy_pump] in *.
  assert (E : counted (mkSys p pc [r]) = holds pc ++ wp_terminal p).
  { unfold counted, in_flight. cbn. rewrite Htodo. destruct (rq_phase r); by rewrite ?app_nil_r. }
  rewrite E, len_app in H1. rewrite E, frames_app in H2. rewrite Hi, Htodo in Hframes, Hlen.
  rewrite !frames_app in Hframes. change (frames (t :: rest)) with (len (tm_frame t) + frames rest) in Hframes. rewrite !length_app in Hlen. cbn [length] in Hlen.
  pose proof (frames_nonneg rest).
  unfold MaxWebSocketTerminalItems, len in *. lia.
Qed.

Lemma request_env a b : env_step a b -> request_ok a -> request_ok b.
Proof.
  intros Hs [Ha (r & Hr & Hcase)]. split; [by eapply env_ok|].
  destruct Hs as [p p' pc rs Hp|p pc pre r0 post pick p' r' Hq]; cbn [sy_reqs sy_pc sy_pump] in *.
  - exists r. split; [done|]. destruct (produce_frame _ _ Hp) as (-> & _). done.
  - destruct pre as [|? pre]; [|by destruct pre]. injection Hr as -> ->. cbn [app] in *. exists r'. split; [done|].
    destruct Hcase as [He|(taken & Hi & Ht)]; [by left|].
    destruct (decide (wp_done p = true)) as [Hd|Hd]; [left; apply (so_done _ Ha) in Hd; cbn in Hd; by rewrite Hd|]. apply not_true_is_false in Hd.
    right. exists taken. split; [|done]. unfold requester_step in Hq. rewrite Hd in Hq. cbn [andb] in Hq.
    destruct (rq_stop r); [by simplify_eq|]. destruct (rq_todo r) as [|t rest] eqn:Htodo; [simplify_eq; by rewrite Htodo|].
    assert (Htok : terminal_frame_ok t = true).
    { rewrite Hi in Hok. apply Forall_app in Hok as [_ [_ Hok']%Forall_app]. by apply Forall_inv in Hok'. }
    destruct (rq_phase r) eqn:Hph.
    + rewrite Htok in Hq. cbn [negb orb] in Hq. by simplify_eq.
    + destruct (request_room p pc r taken t rest Ha Htodo) as [R1 R2]; [congruence|by rewrite Htodo|done|].
      apply Z.leb_gt in R1. apply Z.ltb_ge in R2. rewrite R1, R2 in Hq. cbn [orb] in Hq. by simplify_eq.
    + destruct (taken_holds _ _ Ht) as [T1 _].
      assert (R : (len (wp_terminal p) <? MaxWebSocketTerminalItems) = true).
      { apply Z.ltb_lt. rewrite Hi, !length_app in Hlen. cbn [length] in Hlen. unfold len, MaxWebSocketTerminalItems. lia. }
      rewrite R in Hq. simplify_eq. cbn [set_terminal wp_terminal rq_todo]. rewrite <- app_assoc. done.
Qed.

(** With the request made in full, the writer is never left without a close. *)
Lemma request_finished p pc r : request_ok (mkSys p pc [r]) -> rq_todo r = [] -> (exists before t, items = before ++ [t] /\ tm_close t = true) ->
  exiting pc = false -> (exists t, pc = RunTerminal t) \/ (exists t, pc = ActTerminal t) \/ wp_terminal p <> [].
Proof.
  intros [_ (r0 & [= <-] & [He|(taken & Hi & Ht)])] Htodo (before & t & Hb & Hc) Hx; cbn [sy_pc sy_pump] in *; [congruence|].
  rewrite Htodo, app_nil_r in Hi. destruct (wp_terminal p) as [|t0 q] eqn:Hq; [|by right; right].
  rewrite app_nil_r in Hi. subst taken. rewrite Hb in Ht.
  destruct pc; cbn [taken_ok] in Ht; eauto; try (by destruct before); try done.
  apply Forall_app in Ht as [_ Ht%Forall_inv]. congruence.
Qed.
End OneRequest.

(** Runs of the closed system, counting the writer's steps. *)
Inductive close_run : nat -> Sys -> Sys -> Prop :=
  | cr_refl s : close_run 0 s s
  | cr_write n a b c : write_step a b -> close_run n b c -> close_run (S n) a c
  | cr_env n a b c : env_step a b -> close_run n b c -> close_run n a c.

Definition exit_ok (s : Sys) : Prop :=
  (exiting (sy_pc s) = true -> wp_force (sy_pump s) = true) /\ (sy_pc s = Exited -> wp_done (sy_pump s) = true).

Lemma requester_force p r pick : wp_force (requester_step p r pick).1 = wp_force p.
Proof. unfold requester_step, releaseTerminal. by repeat case_match. Qed.

Lemma produce_force p p' : produce p p' -> wp_force p' = wp_force p.
Proof.
  destruct 1; unfold Enqueue, ApplyStateBatch, EnqueueVoiceStats, pump_ReserveResponse, pump_EnqueueResponse, RequestPing, RequestPong in *;
    repeat case_match; simplify_option_eq; try done. case_match; by simplify_eq.
Qed.

Lemma exit_write a b : write_step a b -> exit_ok a -> exit_ok b.
Proof.
  intros [p pc rs ok chosen p' pc' H] [H1 H2]. unfold exit_ok. cbn [sy_pc sy_pump] in *.
  run_cases H; try rewrite releaseQueuedTerminal_eq; unfold after_control, release_response, release_state, write; repeat case_match; simplify_eq; split; try done; intros; by apply H1.
Qed.

Lemma exit_env a b : env_step a b -> exit_ok a -> exit_ok b.
Proof.
  intros [p p' pc rs H|p pc pre r post pick p' r' H] [H1 H2]; unfold exit_ok; cbn [sy_pc sy_pump] in *.
  - by rewrite (produce_force _ _ H), (proj1 (proj2 (proj2 (proj2 (proj2 (produce_frame _ _ H)))))).
  - pose proof (requester_force p r pick) as E. rewrite H in E. cbn in E. rewrite E.
    by rewrite (proj1 (proj2 (requester_frame _ _ _ _ _ H))).
Qed.

Lemma close_run_ind_ok (P : Sys -> Prop) n a b : (forall a b, write_step a b -> P a -> P b) -> (forall a b, env_step a b -> P a -> P b) ->
  close_run n a b -> P a -> P b.
Proof. intros Hw He. induction 1; eauto. Qed.

Lemma env_distance a b : env_step a b -> (forall r, r ∈ sy_reqs a -> rq_todo r = []) ->
  (forall r, r ∈ sy_reqs b -> rq_todo r = []) /\ distance (sy_pump b) (sy_pc b) = distance (sy_pump a) (sy_pc a).
Proof.
  intros [p p' pc rs H|p pc pre r post pick p' r' H] Hr; cbn [sy_reqs sy_pump sy_pc] in *.
  - split; [done|]. unfold distance. by rewrite (proj1 (produce_frame _ _ H)).
  - pose proof (Hr r ltac:(set_solver)) as Ht. unfold requester_step in H. rewrite Ht in H.
    assert (wp_terminal p' = wp_terminal p /\ rq_todo r' = []) as [E1 E2] by (case_match; by simplify_eq).
    split; [|unfold distance; by rewrite E1]. intros x Hx. apply elem_of_app in Hx as [Hx|[->|Hx]%elem_of_cons]; [|done|]; apply Hr; set_solver.
Qed.

Section Completion.
Context (items : list webSocketTerminal) (Hlen : (length items <= 2)%nat) (Hframes : frames items <= MaxWebSocketTerminalBytes).
Context (Hok : Forall (fun t => terminal_frame_ok t = true) items) (Hclose : exists before t, items = before ++ [t] /\ tm_close t = true).

Lemma finish_bounded n s s' : close_run n s s' -> request_ok items s -> (forall r, r ∈ sy_reqs s -> rq_todo r = []) ->
  (n + distance (sy_pump s') (sy_pc s') <= distance (sy_pump s) (sy_pc s))%nat /\ (forall r, r ∈ sy_reqs s' -> rq_todo r = []).
Proof.
  induction 1 as [s|n a b c Hs _ IH|n a b c Hs _ IH]; intros Hq Ht; [split; [lia|done]| |].
  - assert (Htb : forall r, r ∈ sy_reqs b -> rq_todo r = []) by (by destruct Hs).
    destruct (IH ltac:(by eapply request_write) Htb) as [I1 I2]. split; [|done].
    destruct Hs as [p pc rs ok chosen p' pc' H]. cbn [sy_pump sy_pc sy_reqs] in *.
    assert (distance p' pc' < distance p pc)%nat; [|lia]. eapply distance_step; [done|]. intros turn ->.
    destruct Hq as [Hq1 (r & [= ->] & Hq2)].
    destruct (request_finished items p (Top turn) r) as [[? ?]|[[? ?]|?]]; try done.
    + split; [done|]. by exists r.
    + apply Ht. by left.
  - destruct (env_distance _ _ Hs Ht) as [Htb E]. destruct (IH ltac:(by eapply request_env) Htb). split; [lia|done].
Qed.

Lemma finish_unblocked p pc rs : request_ok items (mkSys p pc rs) -> (forall r, r ∈ rs -> rq_todo r = []) ->
  run_step p pc true LTerminal = None -> pc = Exited.
Proof.
  intros [Hq1 (r & [= ->] & Hq2)] Ht Hb. destruct (exiting pc) eqn:Hx.
  { by destruct pc. }
  destruct (request_finished items p pc r) as [[t ->]|[[t ->]|Hne]]; try done; try (split; [done|]; by exists r); try (apply Ht; by left).
  - cbn [run_step] in Hb; by case_match.
  - destruct pc; cbn [run_step select_case] in Hb; unfold take_terminal in Hb; destruct (wp_terminal p); try done;
      repeat case_match; by simplify_option_eq.
Qed.
End Completion.

(** The items of a request to end the connection. *)
Definition ends (authRevokedFrame : string -> bytes) (r : Requester) : Prop :=
  (exists status reason, r = RequestClose status reason) \/
  (exists reason status, r = RequestAuthRevoked authRevokedFrame reason status /\ 0 < len (authRevokedFrame reason) <= MaxWebSocketTerminalBytes).

(** a requested end arrives.  Once the thread that ends a connection has
    returned, the writer needs at most 27 of its own steps, however producers
    interleave and whatever the socket does, and never blocks before it exits;
    when it has exited, the socket is closed and [Done] is signalled. *)
Theorem close_completes authRevokedFrame req m s n s' : ends authRevokedFrame req ->
  close_run m (mkSys newWebSocketWritePump (Top 0) [req]) s -> (forall r, r ∈ sy_reqs s -> rq_todo r = []) ->
  close_run n s s' ->
  (n <= 27)%nat /\ (sy_pc s' = Exited \/ exists ok chosen, run_step (sy_pump s') (sy_pc s') ok chosen <> None) /\
  (sy_pc s' = Exited -> wp_force (sy_pump s') = true /\ wp_done (sy_pump s') = true).
Proof.
  intros He Hm Ht Hn. set (items := rq_todo req).
  assert (Hitems : (length items <= 2)%nat /\ frames items <= MaxWebSocketTerminalBytes /\
    Forall (fun t => terminal_frame_ok t = true) items /\ exists before t, items = before ++ [t] /\ tm_close t = true).
  { destruct He as [(status & reason & E)|(reason & status & E & Hl)]; unfold items; rewrite E; cbn; split_and!; try lia; try done.
    - by repeat constructor.
    - by exists [], (mkTerminal status reason [] true).
    - change (len (@nil Z)) with 0. lia.
    - repeat constructor. unfold terminal_frame_ok. cbn [tm_close tm_frame orb].
      destruct (Z.eqb_spec (len (authRevokedFrame reason)) 0); [lia|]. destruct (Z.ltb_spec MaxWebSocketTerminalBytes (len (authRevokedFrame reason))); [lia|done].
    - by exists [mkTerminal 0 EmptyString (authRevokedFrame reason) false], (mkTerminal status reason [] true). }
  destruct Hitems as (I1 & I2 & I3 & I4).
  assert (H0 : request_ok items (mkSys newWebSocketWritePump (Top 0) [req])).
  { split; [|exists req; split; [done|]; right; by exists []].
    destruct pump_start_ok as [S1 S2 S3 S4 S5 S6 S7]. constructor; cbn [sy_pump sy_pc sy_reqs] in *; try done;
      unfold counted, in_flight in *; cbn; destruct He as [(? & ? & ->)|(? & ? & -> & _)]; done. }
  assert (Hs : request_ok items s) by (eapply close_run_ind_ok; [| |exact Hm|exact H0]; eauto using request_write, request_env).
  destruct (finish_bounded items I1 I2 I3 I4 _ _ _ Hn Hs Ht) as [Hd Ht'].
  assert (Hs' : request_ok items s') by (eapply close_run_ind_ok; [| |exact Hn|exact Hs]; eauto using request_write, request_env).
  assert (Hx : exit_ok s').
  { eapply close_run_ind_ok; [exact exit_write|exact exit_env|exact Hn|].
    eapply close_run_ind_ok; [exact exit_write|exact exit_env|exact Hm|]. done. }
  split_and!.
  - destruct Hs as [[_ _ [Hmax _] _ _ _ _] _]. destruct s as [p pc rs]. cbn [sy_pump sy_pc] in *.
    assert (length (wp_terminal p) <= 2)%nat.
    { unfold counted in Hmax. cbn [sy_pump sy_pc sy_reqs] in Hmax. rewrite !len_app in Hmax. unfold MaxWebSocketTerminalItems in Hmax.
      pose proof (len_nonneg (holds pc)). pose proof (len_nonneg (mjoin (in_flight <$> rs))). unfold len in Hmax at 2. lia. }
    assert (distance p pc <= 27)%nat; [|lia]. unfold distance. destruct pc as [| | | | | |? [] ?|? [] ?|[] ?| | | | | | |]; lia.
  - destruct s' as [p pc rs]. cbn [sy_pump sy_pc sy_reqs] in *.
    destruct (run_step p pc true LTerminal) as [next|] eqn:Hb; [right; exists true, LTerminal; congruence|].
    left. by eapply (finish_unblocked items).
  - intros E. split; [apply Hx; by rewrite E|by apply Hx].
Qed.
(** ** Witnesses *)

Definition ex_notice (reason : string) : bytes := [1; 2].

(** A response queued and the request to close about to be sent. *)
Definition ex_sys : Sys :=
  let p := (pump_ReserveResponse (set_responses newWebSocketWritePump (tracker_Reserve newWebSocketResponseLane "r").2) "r").2 in
  let p := default (true, p) (pump_EnqueueResponse p false (mkSlot 0 "r") [7]) in
  let step x := requester_step x.1 x.2 false in
  let '(p, r) := step (step (step (p.2, RequestAuthRevoked ex_notice "banned" 4002))) in
  mkSys p (Top 0) [r].

Lemma ex_sys_reach : rtc (sys_step ex_notice) start ex_sys.
Proof.
  eapply rtc_l; [apply ss_env, es_produce, (pr_track _ "r")|].
  eapply rtc_l; [apply ss_env, es_produce, (pr_reserve _ "r")|].
  eapply rtc_l; [eapply ss_env, es_produce, (pr_respond _ false (mkSlot 0 "r") [7]); reflexivity|].
  eapply rtc_l; [apply (ss_revoke _ _ _ _ 4002 "banned")|].
  do 3 (eapply rtc_l; [eapply ss_env, (es_request _ _ [] _ [] false); reflexivity|]).
  apply rtc_refl.
Qed.

Lemma terminal_accounted_witness : wp_terminalItems (sy_pump ex_sys) = 1 /\ len (wp_terminal (sy_pump ex_sys)) < 2.
Proof.
  destruct (terminal_accounted ex_notice ex_sys ex_sys_reach) as (H & _ & _ & _ & Hr). split; [rewrite H; by vm_compute|].
  apply (Hr (default (mkRequester false AtCheck []) (sy_reqs ex_sys !! 0%nat)) (mkTerminal 0 EmptyString [1; 2] false));
    [vm_compute; left|by vm_compute].
Defined.

Lemma wire_order_witness : exists o n c, wp_wire (sy_pump ex_sys) = o ++ n ++ c /\ n = [] /\ c = [].
Proof.
  destruct (wire_order ex_notice ex_sys ex_sys_reach) as (o & n & c & H & _ & _ & _ & H1 & H2).
  exists o, n, c. split; [exact H|]. split; [apply H1; reflexivity|apply H2; reflexivity].
Defined.

(** The writer of an idle connection, at its select. *)
Definition ex_idle : Sys := mkSys newWebSocketWritePump (Select 0) [].
Lemma ex_idle_reach : rtc (sys_step ex_notice) start ex_idle.
Proof.
  do 6 (eapply rtc_l; [eapply ss_write, (ws_run _ _ _ true LTerminal); reflexivity|]). apply rtc_refl.
Qed.

Lemma writer_idle_witness : rl_queue (wp_responses (sy_pump ex_idle)) = [].
Proof.
  destruct (writer_idle ex_notice ex_idle ex_idle_reach) as [H|[[H _]|(turn & _ & _ & H & _)]].
  - intros ok chosen. by destruct chosen.
  - discriminate.
  - discriminate.
  - exact H.
Defined.

(** A response waits while a pong is written first. *)
Definition ex_wait : Sys := mkSys (RequestPong (sy_pump ex_sys) false [5]) (Top 1) [].
Lemma ex_wait_run : exists b, rtc (waits_step ex_notice LResponse) ex_wait b /\ wp_wire (sy_pump b) = [SentPong [5]].
Proof.
  eexists. split.
  - do 3 (eapply rtc_l; [split; [eapply ss_write, (ws_run _ _ _ true LTerminal); reflexivity|by split_and!; [intros [=]|intros []|]]|]).
    apply rtc_refl.
  - by vm_compute.
Qed.

Lemma writer_fair_witness : exists b, rtc (waits_step ex_notice LResponse) ex_wait b /\
  (length (wp_wire (sy_pump b)) <= length (wp_wire (sy_pump ex_wait)) + 6)%nat.
Proof.
  destruct ex_wait_run as (b & Hb & _). exists b. split; [exact Hb|].
  apply (writer_fair ex_notice LResponse ex_wait b); [intros [=]|exact Hb].
Defined.

Definition ex_close : Sys := mkSys newWebSocketWritePump (Top 0) [RequestClose 4001 "expired"].

Lemma ex_close_run : exists s s', close_run 0 ex_close s /\ (forall r, r ∈ sy_reqs s -> rq_todo r = []) /\ close_run 8 s s' /\ sy_pc s' = Exited.
Proof.
  eexists. eexists. split_and!.
  - do 4 (eapply cr_env; [eapply (es_request _ _ [] _ [] false); reflexivity|]). apply cr_refl.
  - intros r Hr. apply list_elem_of_singleton in Hr as ->. done.
  - do 8 (eapply cr_write; [eapply (ws_run _ _ _ true LTerminal); reflexivity|]). apply cr_refl.
  - done.
Qed.

Lemma close_completes_witness : exists s', close_run 8 ex_close s' /\ wp_force (sy_pump s') = true /\ wp_done (sy_pump s') = true.
Proof.
  destruct ex_close_run as (s & s' & Hm & Ht & Hn & Hx). exists s'. split.
  - remember ex_close as a. remember 0%nat as z. clear -Hm Hn Heqz. induction Hm; [exact Hn|discriminate|by eapply cr_env; [eassumption|apply IHHm]].
  - destruct (close_completes ex_notice (RequestClose 4001 "expired") 0 s 8 s') as (_ & _ & H); [left; eauto|exact Hm|exact Ht|exact Hn|].
    apply H. exact Hx.
Defined.

End PumpProps.
