(* ===== verification/Sequencer.v ===== *)
(** * Sequencer: ordered execution of commands ([realtime/sequencer.go])

    [PostCommitSequencer] admits commands to two bounded queues, ordinary and
    control, and one worker executes them one at a time: it reserves a
    publication, lets the command commit its transaction, and publishes.

    A command's [Execute] callback is a script: a tree of calls on its
    [CommandExecution], each continuing with the call's outcome, that ends in a
    result, an error or a panic.  Barriers and the callbacks around publication
    act on the world of the publication and may fail or panic.  Transactions
    report their outcome to the call that commits them.  Contexts are the
    answers they give when asked.  A panic that [execute] recovers is a value of
    the model; [None] is a call that blocks forever. *)

From S2P Require Import Prelude State StateRing Visibility Cursor Snapshot Lane Connection EventBus Publication PublicationProps.
From stdpp Require Import base gmap strings list relations.
From Stdlib Require Import ZArith Lia.
#[local] Open Scope string_scope.
#[local] Open Scope list_scope.
#[local] Open Scope Z_scope.

Module Sequencer.
Import State StateRing Snapshot EventBus Publication.

Definition MaxSequencerQueueItems : Z := 1024.
Definition MaxSequencerQueueBytes : Z := Z.shiftl 4 20.
Definition MaxControlTeardownQueueItems : Z := 1024.
Definition MaxControlPlansPerItem : Z := 64.

(** [ErrSequencerFailed] wraps the error that made it fail; [ErrContext],
    [ErrTx], [ErrCallback] and [ErrID] are those of the context, of the
    transaction, of a callback and of the identifier generator. *)
Inductive SequencerError :=
  | ErrInvalidSequencer | ErrCommandQueueFull | ErrSequencerClosed | ErrSequencerFailed (cause : SequencerError)
  | ErrCommandPanic | ErrCommandNotCommitted | ErrPublication (e : PublicationError)
  | ErrContext | ErrTx | ErrCallback (code : Z) | ErrID.

Section Execution.
Context {C : Type} `{!StateSink C} {prims : Cursor.CursorPrims} {pprims : PublicationPrims} {W : Type}.
Context (json_Valid : bytes -> bool) (json_Marshal : stateEventEnvelope -> option bytes)
        (json_user : SnapshotUserPresence -> option bytes).
(** The identifier generator and what callers get back from a command. *)
Context {G : Type} (idNext : G -> result Z unit * G) {Value : Type} (nil_value : Value).
#[local] Abbreviation pub := (StatePublication C W).

(** ** One command's execution *)

(** [ce_replay] is a ghost: [CommitNoop] committed its transaction.  What [Commit]
    committed is recorded by [ce_persistent]. *)
Record CommandExecution := mkExecution {
  ce_commandID : Z; ce_reservation : option (PublicationReservation W); ce_committing : bool; ce_persistent : bool;
  ce_runtimeReady : bool; ce_noop : bool; ce_published : bool; ce_replay : bool
}.
Definition new_execution : CommandExecution := mkExecution 0 None false false false false false false.

Definition with_id (e : CommandExecution) (id : Z) : CommandExecution :=
  mkExecution id (ce_reservation e) (ce_committing e) (ce_persistent e) (ce_runtimeReady e) (ce_noop e) (ce_published e) (ce_replay e).
Definition with_reservation (e : CommandExecution) (r : PublicationReservation W) : CommandExecution :=
  mkExecution (ce_commandID e) (Some r) (ce_committing e) (ce_persistent e) (ce_runtimeReady e) (ce_noop e) (ce_published e) (ce_replay e).
Definition with_phase (e : CommandExecution) (committing persistent runtimeReady noop : bool) : CommandExecution :=
  mkExecution (ce_commandID e) (ce_reservation e) committing persistent runtimeReady noop (ce_published e) (ce_replay e).
Definition with_published (e : CommandExecution) : CommandExecution :=
  mkExecution (ce_commandID e) (ce_reservation e) (ce_committing e) (ce_persistent e) (ce_runtimeReady e) (ce_noop e) true (ce_replay e).
Definition with_replay (e : CommandExecution) : CommandExecution :=
  mkExecution (ce_commandID e) (ce_reservation e) (ce_committing e) (ce_persistent e) (ce_runtimeReady e) (ce_noop e) (ce_published e) true.

Definition set_causation (id : Z) (t : StateEventTemplate) : StateEventTemplate :=
  mkTemplate (t_EventType t) (t_Scope t) id (t_Data t) (t_DeliveryPolicy t) (t_VisibleBeforeUserIDs t) (t_RecipientUserID t)
    (t_SubjectUserID t) (t_CursorVisibilityEpoch t) (t_HasCursorVisibilityEpoch t).
Definition caused_by (id : Z) (request : PublicationRequest W) : PublicationRequest W :=
  mkRequest (rq_Candidate request) (set_causation id <$> rq_Events request) (rq_VisibilityUserIDs request) (rq_CommitRuntime request).

Definition is_some {A} (o : option A) : bool := match o with Some _ => true | None => false end.

(** [CommandExecution.Reserve]; [None]: the publication is locked. *)
Definition exec_Reserve (now : Z) (p : pub) (e : CommandExecution) (request : PublicationRequest W)
  : option (result PublicationResult SequencerError * pub * CommandExecution) :=
  if is_some (ce_reservation e) || ce_persistent e || ce_runtimeReady e || ce_published e
  then Some (Err ErrInvalidSequencer, p, e)
  else if pb_locked p then None
  else match Reserve json_Valid json_Marshal now p (caused_by (ce_commandID e) request) with
       | (Err err, p) => Some (Err (ErrPublication err), p, e)
       | (Ok r, p) => Some (Ok (Result r), p, with_reservation e r)
       end.

(** A reservation exists and nothing was decided yet. *)
Definition undecided (e : CommandExecution) : bool :=
  is_some (ce_reservation e) && negb (ce_committing e || ce_persistent e || ce_runtimeReady e || ce_published e).

Definition ReservedResult (e : CommandExecution) : result PublicationResult SequencerError :=
  if undecided e then match ce_reservation e with Some r => Ok (Result r) | None => Err ErrCommandNotCommitted end
  else Err ErrCommandNotCommitted.

(** [tx.Commit()]: a nil transaction, success, an error or a panic. *)
Inductive Tx := TxNil | TxCommitted | TxRefused | TxPanics.

(** [None] is a panic, which leaves [committing] set. *)
Definition exec_Commit (e : CommandExecution) (tx : Tx) : option (option SequencerError) * CommandExecution :=
  match tx with
  | TxNil => (Some (Some ErrInvalidSequencer), e)
  | _ =>
      if negb (undecided e) then (Some (Some ErrCommandNotCommitted), e)
      else match tx with
           | TxCommitted => (Some None, with_phase e false true (ce_runtimeReady e) (ce_noop e))
           | TxRefused => (Some (Some ErrTx), with_phase e false (ce_persistent e) (ce_runtimeReady e) (ce_noop e))
           | _ => (None, with_phase e true (ce_persistent e) (ce_runtimeReady e) (ce_noop e))
           end
  end.

Definition untouched (e : CommandExecution) : bool :=
  negb (is_some (ce_reservation e) || ce_committing e || ce_persistent e || ce_runtimeReady e || ce_noop e || ce_published e).

Definition CommitNoop (e : CommandExecution) (tx : Tx) : option (option SequencerError) * CommandExecution :=
  match tx with
  | TxNil => (Some (Some ErrInvalidSequencer), e)
  | _ =>
      if negb (untouched e) then (Some (Some ErrCommandNotCommitted), e)
      else match tx with
           | TxCommitted => (Some None, with_replay (with_phase e false (ce_persistent e) (ce_runtimeReady e) true))
           | TxRefused => (Some (Some ErrTx), with_phase e false (ce_persistent e) (ce_runtimeReady e) (ce_noop e))
           | _ => (None, with_phase e true (ce_persistent e) (ce_runtimeReady e) (ce_noop e))
           end
  end.

Definition MarkRuntimeReady (e : CommandExecution) : option SequencerError * CommandExecution :=
  if negb (undecided e) then (Some ErrCommandNotCommitted, e)
  else (None, with_phase e (ce_committing e) (ce_persistent e) true (ce_noop e)).

Definition MarkNoop (e : CommandExecution) : option SequencerError * CommandExecution :=
  if negb (untouched e) then (Some ErrCommandNotCommitted, e)
  else (None, with_phase e (ce_committing e) (ce_persistent e) (ce_runtimeReady e) true).

Definition CompletionContext (e : CommandExecution) : option SequencerError :=
  if ce_persistent e then None else Some ErrCommandNotCommitted.

Definition abort (p : pub) (e : CommandExecution) : pub * CommandExecution :=
  match ce_reservation e with
  | Some r => if ce_committing e || (ce_persistent e && ce_published e) then (p, e)
              else let '(p, r) := Abort p r in (p, with_reservation e r)
  | None => (p, e)
  end.

(** ** The callback *)

Inductive Callback := CbOk | CbErr (e : SequencerError) | CbPanic.

Record CommandOutput := mkOutput {
  co_Value : Value; co_BeforePublish : option (W -> W * Callback); co_AfterPublish : option (W -> W * Callback)
}.

Inductive Call :=
  | CallReserve (now : Z) (request : PublicationRequest W)
  | CallReservedResult
  | CallCommit (tx : Tx)
  | CallCommitNoop (tx : Tx)
  | CallMarkRuntimeReady
  | CallMarkNoop
  | CallCompletionContext.

Inductive Reply := GotResult (r : result PublicationResult SequencerError) | GotError (e : option SequencerError).

(** [Look]: the callback reads the current version; [Peek]: it reads the world;
    [Touch]: what it or others do to the world and the event bus. *)
Inductive Script :=
  | Return (out : CommandOutput)
  | Throw (e : SequencerError)
  | Panic
  | Look (k : nat -> StateVersion -> Script)
  | Peek (k : W -> Script)
  | Touch (w : W -> W) (bus : option (nat * EventBus C) -> option (nat * EventBus C)) (k : Script)
  | Invoke (c : Call) (k : Reply -> Script).

Inductive Ended := Returned (out : CommandOutput) | Threw (e : SequencerError) | Panicked.

Definition touch (p : pub) (w : W -> W) (bus : option (nat * EventBus C) -> option (nat * EventBus C)) : pub :=
  mkPub (pb_pointer p) (pb_current p) (pb_ring p) (bus (pb_bus p)) (pb_locked p) (w (pb_world p)).

(** One call: its reply, [None] inside for a panic, [None] outside for a block. *)
Definition invoke (p : pub) (e : CommandExecution) (c : Call) : option (option Reply * pub * CommandExecution) :=
  match c with
  | CallReserve now request => '(r, p, e) ← exec_Reserve now p e request; Some (Some (GotResult r), p, e)
  | CallReservedResult => Some (Some (GotResult (ReservedResult e)), p, e)
  | CallCommit tx => let '(r, e) := exec_Commit e tx in Some (GotError <$> r, p, e)
  | CallCommitNoop tx => let '(r, e) := CommitNoop e tx in Some (GotError <$> r, p, e)
  | CallMarkRuntimeReady => let '(r, e) := MarkRuntimeReady e in Some (Some (GotError r), p, e)
  | CallMarkNoop => let '(r, e) := MarkNoop e in Some (Some (GotError r), p, e)
  | CallCompletionContext => Some (Some (GotError (CompletionContext e)), p, e)
  end.

Fixpoint run_script (s : Script) (p : pub) (e : CommandExecution) : option (Ended * pub * CommandExecution) :=
  match s with
  | Return out => Some (Returned out, p, e)
  | Throw err => Some (Threw err, p, e)
  | Panic => Some (Panicked, p, e)
  | Look k => run_script (k (pb_pointer p) (pb_current p)) p e
  | Peek k => run_script (k (pb_world p)) p e
  | Touch w bus k => run_script k (touch p w bus) e
  | Invoke c k =>
      '(reply, p, e) ← invoke p e c;
      match reply with Some reply => run_script (k reply) p e | None => Some (Panicked, p, e) end
  end.

(** ** [execute] *)

(** The barriers a command takes at dequeue. *)
Inductive Acquired := AcquireErr (e : SequencerError) | AcquireNil | AcquireOk (release : W -> W) | AcquirePanic.

(** A submitted command, with the answers its context gives: before it starts,
    after its callback, and at the publication point. *)
Record PostCommitCommand := mkCommand {
  cm_QueueBytes : Z; cm_CommandID : Z; cm_Acquire : option (W -> W * Acquired); cm_Execute : Z -> Script;
  cm_canceledStart : bool; cm_canceledReady : bool; cm_canceledPublish : bool
}.

Record CommandCompletion := mkCompletion { cc_CommandID : Z; cc_Publication : option PublicationResult; cc_Value : Value }.
Definition zero_completion : CommandCompletion := mkCompletion 0 None nil_value.

(** What [execute] returns and whether it failed the sequencer. *)
Record Outcome := mkOutcome {
  oc_reply : result CommandCompletion SequencerError; oc_fail : option SequencerError;
  oc_pub : pub; oc_execution : CommandExecution; oc_gen : G
}.

Definition ordinary_error (p : pub) (e : CommandExecution) (g : G) (err : SequencerError) : Outcome :=
  mkOutcome (Err err) None p e g.
Definition fatal_error (p : pub) (e : CommandExecution) (g : G) (err : SequencerError) : Outcome :=
  mkOutcome (Err err) (Some err) p e g.
(** An ordinary error after [execution.abort()]. *)
Definition aborted (p : pub) (e : CommandExecution) (g : G) (err : SequencerError) : Outcome :=
  let '(p, e) := abort p e in ordinary_error p e g err.
(** The recovered panic. *)
Definition recovered (p : pub) (e : CommandExecution) (g : G) : Outcome :=
  let '(p, e) := abort p e in fatal_error p e g ErrCommandPanic.

Definition run_callback (p : pub) (f : option (W -> W * Callback)) : pub * Callback :=
  match f with
  | None => (p, CbOk)
  | Some f => let '(w, r) := f (pb_world p) in (with_world p w, r)
  end.

(** From the publication point on. *)
Definition publish_phase (command : PostCommitCommand) (commandID : Z) (out : CommandOutput)
    (r : PublicationReservation W) (runtime : bool) (p : pub) (e : CommandExecution) (g : G) : Outcome :=
  match (if runtime then PublishRuntime json_Valid json_Marshal json_user (Some (cm_canceledPublish command)) p r
         else Publish json_Valid json_Marshal json_user p r) with
  | None => recovered p e g
  | Some (Err err, p, r) =>
      let e := with_reservation e r in
      if runtime && match err with ErrCanceled => true | _ => false end then ordinary_error p e g (ErrPublication err)
      else fatal_error p e g (ErrSequencerFailed (ErrPublication err))
  | Some (Ok publication, p, r) =>
      let e := with_published (with_reservation e r) in
      match run_callback p (co_AfterPublish out) with
      | (p, CbOk) => mkOutcome (Ok (mkCompletion commandID (Some publication) (co_Value out))) None p e g
      | (p, CbErr err) => fatal_error p e g (ErrSequencerFailed err)
      | (p, CbPanic) => recovered p e g
      end
  end.

(** After the callback. *)
Definition conclude (command : PostCommitCommand) (commandID : Z) (ended : Ended) (p : pub) (e : CommandExecution) (g : G) : Outcome :=
  match ended with
  | Panicked => recovered p e g
  | Threw err =>
      if ce_persistent e || ce_runtimeReady e
      then if ce_runtimeReady e && negb (ce_persistent e) then aborted p e g err
           else fatal_error p e g (ErrSequencerFailed err)
      else aborted p e g err
  | Returned out =>
      if ce_noop e
      then if is_some (ce_reservation e) || ce_persistent e || ce_runtimeReady e
           then aborted p e g ErrCommandNotCommitted
           else mkOutcome (Ok (mkCompletion commandID None (co_Value out))) None p e g
      else
        match ce_reservation e with
        | None => aborted p e g ErrCommandNotCommitted
        | Some r =>
            if negb (ce_persistent e) && negb (ce_runtimeReady e) then aborted p e g ErrCommandNotCommitted
            else
              let runtime := ce_runtimeReady e && negb (ce_persistent e) in
              if runtime && cm_canceledReady command then aborted p e g ErrContext
              else match co_BeforePublish out with
                   | None => publish_phase command commandID out r runtime p e g
                   | Some f =>
                       if negb (ce_persistent e) then aborted p e g ErrCommandNotCommitted
                       else match run_callback p (Some f) with
                            | (p, CbOk) => publish_phase command commandID out r runtime p e g
                            | (p, CbErr err) =>
                                let '(p, e) := abort p e in fatal_error p e g (ErrSequencerFailed err)
                            | (p, CbPanic) => recovered p e g
                            end
                   end
        end
  end.

(** With the barriers held. *)
Definition execute_held (command : PostCommitCommand) (p : pub) (g : G) : option Outcome :=
  let start (id : Z) (g : G) :=
    let e := with_id new_execution id in
    '(ended, p, e) ← run_script (cm_Execute command id) p e; Some (conclude command id ended p e g) in
  if cm_CommandID command =? 0
  then match idNext g with
       | (Err _, g) => Some (ordinary_error p new_execution g ErrID)
       | (Ok id, g) => start id g
       end
  else start (cm_CommandID command) g.

Definition release_barriers (release : W -> W) (o : Outcome) : Outcome :=
  mkOutcome (oc_reply o) (oc_fail o) (with_world (oc_pub o) (release (pb_world (oc_pub o)))) (oc_execution o) (oc_gen o).

Definition execute (command : PostCommitCommand) (p : pub) (g : G) : option Outcome :=
  if cm_canceledStart command then Some (ordinary_error p new_execution g ErrContext)
  else match cm_Acquire command with
       | None => execute_held command p g
       | Some acquire =>
           let '(w, a) := acquire (pb_world p) in
           let p := with_world p w in
           match a with
           | AcquireErr err => Some (ordinary_error p new_execution g err)
           | AcquireNil => Some (ordinary_error p new_execution g ErrInvalidSequencer)
           | AcquirePanic => Some (recovered p new_execution g)
           | AcquireOk release => release_barriers release <$> execute_held command p g
           end
       end.

(** ** The queues and the worker *)

(** An admitted command; its number stands for its completion channel. *)
Record queuedCommand := mkQueued { qc_id : nat; qc_command : PostCommitCommand }.
Record controlBatch := mkBatch { cb_commands : list queuedCommand; cb_bytes : Z }.

(** [sq_replies] are the completions sent, [sq_fatal] the calls of [onFatal],
    [sq_next] the next command number; [sq_progress] is the heartbeat channel of
    capacity one. *)
Record PostCommitSequencer := mkSequencer {
  sq_pub : pub; sq_gen : G; sq_commands : list queuedCommand; sq_controls : list controlBatch;
  sq_accepting : bool; sq_closed : bool; sq_failure : option SequencerError; sq_queuedBytes : Z; sq_controlBytes : Z;
  sq_fatal : list SequencerError; sq_replies : list (nat * result CommandCompletion SequencerError);
  sq_progress : bool; sq_next : nat
}.

Definition NewPostCommitSequencer (p : pub) (g : G) : PostCommitSequencer :=
  mkSequencer p g [] [] true false None 0 0 [] [] false 0.

Definition set_queue (s : PostCommitSequencer) (q : list queuedCommand) (bytes : Z) (next : nat) : PostCommitSequencer :=
  mkSequencer (sq_pub s) (sq_gen s) q (sq_controls s) (sq_accepting s) (sq_closed s) (sq_failure s) bytes (sq_controlBytes s)
    (sq_fatal s) (sq_replies s) (sq_progress s) next.
Definition set_controls (s : PostCommitSequencer) (q : list controlBatch) (bytes : Z) (next : nat) : PostCommitSequencer :=
  mkSequencer (sq_pub s) (sq_gen s) (sq_commands s) q (sq_accepting s) (sq_closed s) (sq_failure s) (sq_queuedBytes s) bytes
    (sq_fatal s) (sq_replies s) (sq_progress s) next.
Definition signalProgress (s : PostCommitSequencer) : PostCommitSequencer :=
  mkSequencer (sq_pub s) (sq_gen s) (sq_commands s) (sq_controls s) (sq_accepting s) (sq_closed s) (sq_failure s)
    (sq_queuedBytes s) (sq_controlBytes s) (sq_fatal s) (sq_replies s) true (sq_next s).
Definition send_reply (s : PostCommitSequencer) (id : nat) (r : result CommandCompletion SequencerError) : PostCommitSequencer :=
  mkSequencer (sq_pub s) (sq_gen s) (sq_commands s) (sq_controls s) (sq_accepting s) (sq_closed s) (sq_failure s)
    (sq_queuedBytes s) (sq_controlBytes s) (sq_fatal s) (sq_replies s ++ [(id, r)]) (sq_progress s) (sq_next s).
Definition set_state (s : PostCommitSequencer) (p : pub) (g : G) : PostCommitSequencer :=
  mkSequencer p g (sq_commands s) (sq_controls s) (sq_accepting s) (sq_closed s) (sq_failure s)
    (sq_queuedBytes s) (sq_controlBytes s) (sq_fatal s) (sq_replies s) (sq_progress s) (sq_next s).

(** [Close] up to its wait for the worker. *)
Definition Close (s : PostCommitSequencer) : PostCommitSequencer :=
  mkSequencer (sq_pub s) (sq_gen s) (sq_commands s) (sq_controls s) false true (sq_failure s)
    (sq_queuedBytes s) (sq_controlBytes s) (sq_fatal s) (sq_replies s) (sq_progress s) (sq_next s).

Definition fail (s : PostCommitSequencer) (err : option SequencerError) : PostCommitSequencer :=
  match err, sq_failure s with
  | Some err, None =>
      mkSequencer (sq_pub s) (sq_gen s) (sq_commands s) (sq_controls s) false true (Some err)
        (sq_queuedBytes s) (sq_controlBytes s) (sq_fatal s ++ [err]) (sq_replies s) (sq_progress s) (sq_next s)
  | _, _ => s
  end.

Definition Failure (s : PostCommitSequencer) : option SequencerError := sq_failure s.
Definition QueueDepth (s : PostCommitSequencer) : Z := len (sq_commands s).
Definition QueuedBytes (s : PostCommitSequencer) : Z := sq_queuedBytes s.

Definition valid_command (c : PostCommitCommand) : bool :=
  (0 <? cm_QueueBytes c) && (cm_QueueBytes c <=? MaxSequencerQueueBytes) && (0 <=? cm_CommandID c).

Definition refusal (s : PostCommitSequencer) : SequencerError :=
  match sq_failure s with Some e => e | None => ErrSequencerClosed end.

Definition enqueue (s : PostCommitSequencer) (pending : queuedCommand) : option SequencerError * PostCommitSequencer :=
  if negb (sq_accepting s) then (Some (refusal s), s)
  else if MaxSequencerQueueBytes <? sq_queuedBytes s + cm_QueueBytes (qc_command pending) then (Some ErrCommandQueueFull, s)
  else if len (sq_commands s) <? MaxSequencerQueueItems
  then (None, set_queue s (sq_commands s ++ [pending]) (sq_queuedBytes s + cm_QueueBytes (qc_command pending)) (sq_next s))
  else (Some ErrCommandQueueFull, s).

Definition enqueueControl (s : PostCommitSequencer) (batch : controlBatch) : option SequencerError * PostCommitSequencer :=
  if negb (sq_accepting s) then (Some (refusal s), s)
  else if MaxSequencerQueueBytes <? sq_controlBytes s + cb_bytes batch then (Some ErrCommandQueueFull, s)
  else if len (sq_controls s) <? MaxControlTeardownQueueItems
  then (None, set_controls s (sq_controls s ++ [batch]) (sq_controlBytes s + cb_bytes batch) (sq_next s))
  else (Some ErrCommandQueueFull, s).

(** Admission of [Submit]: the number whose reply the caller waits for. *)
Definition Submit (s : PostCommitSequencer) (command : PostCommitCommand) : result nat SequencerError * PostCommitSequencer :=
  if negb (valid_command command) then (Err ErrInvalidSequencer, s)
  else
    let id := sq_next s in
    match enqueue (set_queue s (sq_commands s) (sq_queuedBytes s) (S id)) (mkQueued id command) with
    | (None, s) => (Ok id, s)
    | (Some e, s) => (Err e, s)
    end.

Definition number_from (next : nat) (commands : list PostCommitCommand) : list queuedCommand :=
  zip_with mkQueued (seq next (length commands)) commands.

Definition SubmitControlBatch (s : PostCommitSequencer) (commands : list PostCommitCommand)
  : result (list nat) SequencerError * PostCommitSequencer :=
  if (len commands =? 0) || (MaxControlPlansPerItem <? len commands) then (Err ErrInvalidSequencer, s)
  else if negb (forallb valid_command commands) then (Err ErrInvalidSequencer, s)
  else
    let pending := number_from (sq_next s) commands in
    let totalBytes := foldr (fun c n => cm_QueueBytes c + n) 0 commands in
    match enqueueControl (set_controls s (sq_controls s) (sq_controlBytes s) (sq_next s + length commands)) (mkBatch pending totalBytes) with
    | (None, s) => (Ok (qc_id <$> pending), s)
    | (Some e, s) => (Err e, s)
    end.

Definition SubmitControl (s : PostCommitSequencer) (command : PostCommitCommand) : result (list nat) SequencerError * PostCommitSequencer :=
  SubmitControlBatch s [command].

(** [executeAndReply] in the steps that other goroutines may come between: the
    command is to be checked, [failed] returned nil, it was executed with its own
    failure still to report, and its failure was reported. *)
Inductive Phase :=
  | Dequeued
  | Checked
  | Executed (failure : option SequencerError) (reply : result CommandCompletion SequencerError)
  | Reported (reply : result CommandCompletion SequencerError).

(** One such step; no next phase when the reply was sent. *)
Definition executeAndReply (s : PostCommitSequencer) (pending : queuedCommand) (ph : Phase) : option (PostCommitSequencer * option Phase) :=
  match ph with
  | Dequeued =>
      match sq_failure s with
      | Some failure => Some (send_reply s (qc_id pending) (Err failure), None)
      | None => Some (s, Some Checked)
      end
  | Checked =>
      o ← execute (qc_command pending) (sq_pub s) (sq_gen s);
      Some (set_state s (oc_pub o) (oc_gen o), Some (Executed (oc_fail o) (oc_reply o)))
  | Executed failure reply => Some (fail s failure, Some (Reported reply))
  | Reported reply => Some (signalProgress (send_reply s (qc_id pending) reply), None)
  end.

(** Where [run] is; the booleans are [commands != nil] and [controls != nil];
    [Executing] has the phase of the first of the commands it holds. *)
Inductive Worker :=
  | Idle (commands controls : bool)
  | GotCommand (q : queuedCommand) (commands controls : bool)
  | GotBatch (b : controlBatch) (commands controls : bool)
  | Executing (ph : Phase) (l : list queuedCommand) (commands controls : bool)
  | Done.

(** One step of [run]; [control] is the case its select chose. *)
Definition run_step (s : PostCommitSequencer) (w : Worker) (control : bool) : option (PostCommitSequencer * Worker) :=
  match w with
  | Idle commands controls =>
      if negb commands && negb controls then Some (s, Done)
      else if control
      then if negb controls then None
           else match sq_controls s with
                | b :: rest => Some (set_controls s rest (sq_controlBytes s) (sq_next s), GotBatch b commands controls)
                | [] => if sq_closed s then Some (s, Idle commands false) else None
                end
      else if negb commands then None
           else match sq_commands s with
                | q :: rest => Some (set_queue s rest (sq_queuedBytes s) (sq_next s), GotCommand q commands controls)
                | [] => if sq_closed s then Some (s, Idle false controls) else None
                end
  | GotCommand q commands controls =>
      Some (set_queue s (sq_commands s) (sq_queuedBytes s - cm_QueueBytes (qc_command q)) (sq_next s), Executing Dequeued [q] commands controls)
  | GotBatch b commands controls =>
      Some (set_controls s (sq_controls s) (sq_controlBytes s - cb_bytes b) (sq_next s), Executing Dequeued (cb_commands b) commands controls)
  | Executing _ [] commands controls => Some (s, Idle commands controls)
  | Executing ph (q :: rest) commands controls =>
      '(s, next) ← executeAndReply s q ph;
      Some (s, match next with
               | Some ph => Executing ph (q :: rest) commands controls
               | None => Executing Dequeued rest commands controls
               end)
  | Done => None
  end.

End Execution.
Arguments PostCommitCommand C W Value : clear implicits.
Arguments CommandExecution W : clear implicits.
Arguments Script C W Value : clear implicits.
Arguments CommandOutput W Value : clear implicits.
Arguments CommandCompletion Value : clear implicits.
Arguments Outcome C W G Value : clear implicits.
Arguments PostCommitSequencer C W G Value : clear implicits.
Arguments queuedCommand C W Value : clear implicits.
Arguments Phase Value : clear implicits.
Arguments Worker C W Value : clear implicits.

End Sequencer.
