(* ===== verification/SequencerProps.v ===== *)
(** * SequencerProps: what a command's execution and the worker guarantee

    Executions are runs of the publication protocol of [PublicationProps], so its
    theorems hold between commands; the queues are bounded, every admitted
    command is answered once and in order, and a failure refuses all but the
    command in hand. *)

From S2P Require Import Prelude State StateRing Visibility Cursor Snapshot Lane Connection EventBus EventBusProps Publication PublicationProps Sequencer.
From stdpp Require Import base gmap strings list relations.
From Stdlib Require Import ZArith Lia.
#[local] Open Scope string_scope.
#[local] Open Scope list_scope.
#[local] Open Scope Z_scope.

Module SequencerProps.
Import State StateRing Snapshot EventBus Publication PublicationProps Sequencer.

Section Commands.
Context {C : Type} `{!StateSink C, !StateSinkLaws C} {cprims : Cursor.CursorPrims} {pprims : PublicationPrims} {W : Type}.
Context (json_Valid : bytes -> bool) (json_Marshal : stateEventEnvelope -> option bytes)
        (json_user : SnapshotUserPresence -> option bytes).
Context {G : Type} (idNext : G -> result Z unit * G) {Value : Type}.
#[local] Abbreviation pub := (StatePublication C W).
#[local] Abbreviation execution := (CommandExecution W).
#[local] Abbreviation script := (Script C W Value).
#[local] Abbreviation command := (PostCommitCommand C W Value).
#[local] Abbreviation pstep := (pub_step (C:=C) (W:=W) json_Valid json_Marshal json_user).
#[local] Abbreviation run_script := (Sequencer.run_script json_Valid json_Marshal).
#[local] Abbreviation execute := (Sequencer.execute json_Valid json_Marshal json_user idNext).

(** ** The callback *)

(** Every candidate the callback may reserve is built from the current version. *)
Fixpoint buildable (p : pub) (s : script) : Prop :=
  match s with
  | Return _ | Throw _ | Panic => True
  | Look k => buildable p (k (pb_pointer p) (pb_current p))
  | Peek k => forall w, buildable p (k w)
  | Touch _ _ k => buildable p k
  | Invoke (CallReserve _ request) k => built p request /\ forall r, buildable p (k r)
  | Invoke _ k => forall r, buildable p (k r)
  end.

(** The version, the ring and the place in the sequence of versions. *)
Definition same_state (p p' : pub) : Prop :=
  pb_pointer p' = pb_pointer p /\ pb_current p' = pb_current p /\ pb_ring p' = pb_ring p.

#[global] Instance same_state_equiv : PreOrder same_state.
Proof. split; [by intros p|]. intros p q r (? & ? & ?) (? & ? & ?). unfold same_state. split_and!; congruence. Qed.

Lemma buildable_same p p' s : same_state p p' -> buildable p s -> buildable p' s.
Proof.
  intros (E1 & E2 & E3). induction s as [| | |k IH|k IH|w bus k IH|c k IH]; cbn [buildable]; try done.
  - rewrite E1, E2. apply IH.
  - intros Hk w. by apply IH.
  - destruct c; try (intros H r; apply IH, H). intros [Hb H]. split; [|intros r; apply IH, H].
    intros base cand Hc Hp. rewrite E2. apply (Hb base cand); congruence.
Qed.

(** A decision follows a reservation, and only one is taken. *)
Record exec_ok (e : execution) : Prop := {
  xo_published : ce_published e = false;
  xo_reserved : ce_persistent e || ce_runtimeReady e = true -> ce_reservation e <> None;
  xo_one : ce_persistent e && ce_runtimeReady e = false;
  xo_committing : ce_committing e = true -> ce_persistent e = false /\ ce_runtimeReady e = false;
  xo_replay : ce_replay e = true -> ce_noop e = true
}.

Definition held_by (p : pub) (e : execution) (pubs : list PublicationResult) : pub_sys := (p, ce_reservation e, pubs).

Section Run.
Context (state : StateVersion) (log0 : list StateEvent).
#[local] Abbreviation pok := (pub_ok (C:=C) (W:=W) json_Valid json_Marshal state log0).

Lemma pok_step y y' : pstep y y' -> pok y -> pok y'.
Proof. apply pub_step_ok; apply _. Qed.

Lemma pok_steps y y' : rtc pstep y y' -> pok y -> pok y'.
Proof. induction 1; eauto using pok_step. Qed.

Lemma pok_unlocked (p : pub) pubs : pok (p, None, pubs) -> pb_locked p = false.
Proof. intros [_ _ _ _ _ H]. exact H. Qed.

(** A call that only moves the phase. *)
Ltac decide_phase e X1 Hc :=
  destruct (ce_reservation e) as [r|] eqn:Hr; cbn [is_some orb andb negb]; rewrite ?X1, ?Hc, ?orb_false_l, ?orb_false_r;
  destruct (ce_persistent e) eqn:Hpe, (ce_runtimeReady e) eqn:Hre, (ce_noop e) eqn:Hno; cbn [orb negb andb];
  do 3 eexists; (split; [done|]); unfold held_by;
  cbn [fmap option_fmap option_map with_replay with_phase ce_reservation ce_committing ce_noop ce_commandID]; rewrite ?Hr;
  (split; [apply rtc_refl|]); (split; [done|]);
  (split; [constructor; cbn [with_replay with_phase ce_published ce_persistent ce_runtimeReady ce_reservation ce_committing ce_noop ce_replay];
           rewrite ?Hr, ?Hpe, ?Hre; try done|]); by rewrite ?Hno, ?Hc.

Lemma invoke_ok c p e pubs : pok (held_by p e pubs) -> exec_ok e -> ce_committing e = false ->
  (forall now request, c = CallReserve now request -> built p request) ->
  exists reply p' e', invoke json_Valid json_Marshal p e c = Some (reply, p', e') /\ rtc pstep (held_by p e pubs) (held_by p' e' pubs) /\
    same_state p p' /\ exec_ok e' /\ (reply <> None -> ce_committing e' = false) /\ (ce_noop e = true -> ce_noop e' = true) /\
    ce_commandID e' = ce_commandID e.
Proof.
  intros Hp [X1 X2 X3 X4 X5] Hc Hb. destruct c; cbn [invoke]; unfold undecided, untouched.
  - unfold exec_Reserve. destruct (ce_reservation e) as [r|] eqn:Hr; cbn [is_some orb].
    { do 3 eexists. split; [done|]. split; [apply rtc_refl|]. split; [done|]. split; [by constructor; rewrite ?Hr|done]. }
    assert (Hpr : ce_persistent e = false /\ ce_runtimeReady e = false).
    { destruct (ce_persistent e), (ce_runtimeReady e); try done; by destruct X2. }
    destruct Hpr as [-> ->]. rewrite X1. cbn [orb]. unfold held_by in *. rewrite Hr in *. rewrite (pok_unlocked _ _ Hp).
    destruct (Reserve json_Valid json_Marshal now p (caused_by (ce_commandID e) request)) as [[r|err] p'] eqn:E; cbn [mbind option_bind].
    + do 3 eexists. split; [done|]. cbn [with_reservation ce_reservation ce_committing ce_noop ce_commandID]. split; [|split; [|split]].
      * apply rtc_once. eapply ps_reserve; [by eapply pok_unlocked| |exact E]. intros base cand Hcand Hpt. by apply (Hb now request eq_refl base cand).
      * unfold Reserve in E. destruct (reserveLocked _ _ _ _ _); [|done]. injection E as _ <-. done.
      * by constructor.
      * done.
    + do 3 eexists. split; [done|]. rewrite Hr. split; [|split; [|split]].
      * apply rtc_once. eapply ps_refuse; [by eapply pok_unlocked|exact E].
      * unfold Reserve in E. destruct (reserveLocked _ _ _ _ _); [done|]. injection E as _ <-. done.
      * constructor; rewrite ?Hr; done.
      * done.
  - do 3 eexists. split; [done|]. split; [apply rtc_refl|]. split; [done|]. split; [by constructor|done].
  - unfold exec_Commit, undecided. destruct tx; decide_phase e X1 Hc.
  - unfold CommitNoop, untouched. destruct tx; decide_phase e X1 Hc.
  - unfold MarkRuntimeReady, undecided. decide_phase e X1 Hc.
  - unfold MarkNoop, untouched. decide_phase e X1 Hc.
  - do 3 eexists. split; [done|]. split; [apply rtc_refl|]. split; [done|]. split; [by constructor|done].
Qed.

Lemma run_script_ok s p e pubs : pok (held_by p e pubs) -> exec_ok e -> ce_committing e = false -> buildable p s ->
  exists ended p' e', run_script s p e = Some (ended, p', e') /\ rtc pstep (held_by p e pubs) (held_by p' e' pubs) /\
    pok (held_by p' e' pubs) /\ same_state p p' /\ exec_ok e' /\ (ended <> Panicked -> ce_committing e' = false) /\
    ce_commandID e' = ce_commandID e.
Proof.
  revert p e. induction s as [out|err| |k IH|k IH|w bus k IH|c k IH]; intros p e Hp He Hc Hb; cbn [Sequencer.run_script buildable] in *.
  1-3: do 3 eexists; split; [done|]; split; [apply rtc_refl|]; by split_and!.
  - by apply IH.
  - by apply IH.
  - assert (Hstep : rtc pstep (held_by p e pubs) (held_by (touch p w bus) e pubs)).
    { eapply rtc_l; [apply (ps_bus _ _ _ p (ce_reservation e) pubs (bus (pb_bus p)))|].
      eapply rtc_l; [apply (ps_world _ _ _ _ (ce_reservation e) pubs (w (pb_world p)))|]. apply rtc_refl. }
    destruct (IH (touch p w bus) e) as (ended & p' & e' & H1 & H2 & H3 & H4 & H5 & H6 & H7); try done.
    + eapply pok_steps; [exact Hstep|done].
    + by apply (buildable_same p).
    + exists ended, p', e'. split; [done|]. split; [by etrans|]. by split_and!.
  - destruct (invoke_ok c p e pubs Hp He Hc) as (reply & p1 & e1 & I1 & I2 & I3 & I4 & I5 & I6 & I7).
    { intros now request ->. by destruct Hb. }
    rewrite I1. cbn [mbind option_bind]. assert (Hp1 : pok (held_by p1 e1 pubs)) by (by eapply pok_steps).
    destruct reply as [reply|].
    + destruct (IH reply p1 e1) as (ended & p' & e' & H1 & H2 & H3 & H4 & H5 & H6 & H7); try done.
      * by apply I5.
      * apply (buildable_same p); [done|]. destruct c; try apply Hb; by destruct Hb.
      * exists ended, p', e'. split; [done|]. split; [by etrans|]. split; [done|]. split; [by etrans|]. split_and!; try done. congruence.
    + exists Panicked, p1, e1. by split_and!.
Qed.

(** ** The conclusion of a command *)

Lemma exec_abort_ok p e pubs p' e' : pok (held_by p e pubs) -> exec_ok e -> ce_committing e = false -> abort p e = (p', e') ->
  rtc pstep (held_by p e pubs) (p', None, pubs) /\ same_state p p' /\
  ce_persistent e' = ce_persistent e /\ ce_runtimeReady e' = ce_runtimeReady e /\ ce_noop e' = ce_noop e /\ ce_replay e' = ce_replay e.
Proof.
  intros Hp [X1 _ _ _ _] Hc. unfold abort, held_by in *. destruct (ce_reservation e) as [r|] eqn:Hr; [|intros [= <- <-]; split; [apply rtc_refl|done]].
  rewrite Hc, X1, andb_false_r. cbn [orb]. destruct (Abort p r) as [p1 r1] eqn:Ha. intros [= <- <-]. split.
  - apply rtc_once. by eapply ps_abort.
  - split; [|done]. unfold Abort, claimCompletion in Ha. destruct (pr_completed r); by injection Ha as <- _.
Qed.

Lemma replay_off e : exec_ok e -> ce_noop e = false -> ce_replay e = false.
Proof. intros [_ _ _ _ X] Hn. destruct (ce_replay e); [|done]. by rewrite X in Hn. Qed.

(** What a command leaves behind: a run of the publication protocol that ends
    without a reservation unless the sequencer failed, and a reply that tells
    what happened. *)
Record outcome_ok (p : pub) (pubs : list PublicationResult) (o : Outcome C W G Value) : Prop := {
  oo_run : exists held pubs', rtc pstep (p, None, pubs) (oc_pub o, held, pubs') /\ (oc_fail o = None -> held = None);
  oo_reply : match oc_reply o with
    | Ok c => oc_fail o = None /\
        match cc_Publication c with
        | Some res => ce_persistent (oc_execution o) || ce_runtimeReady (oc_execution o) = true /\
            ce_replay (oc_execution o) = false /\
            pb_current (oc_pub o) = pu_Version res /\ pb_pointer (oc_pub o) = S (pb_pointer p) /\
            highWater (pb_ring (oc_pub o)) = cp_GEID (pu_Checkpoint res)
        | None => ce_noop (oc_execution o) = true /\ ce_persistent (oc_execution o) = false /\ same_state p (oc_pub o)
        end
    | Err _ => oc_fail o = None -> same_state p (oc_pub o) /\
        (ce_noop (oc_execution o) = false -> ce_persistent (oc_execution o) = false /\ ce_replay (oc_execution o) = false)
    end
}.

Section Conclude.
Context (p0 : pub) (pubs : list PublicationResult).

(** Within a command: the publication runs from [p0] and has not moved. *)
Definition within (p : pub) (e : execution) : Prop :=
  rtc pstep (p0, None, pubs) (held_by p e pubs) /\ pok (held_by p e pubs) /\ same_state p0 p /\ exec_ok e.

Lemma fatal_ok p held pubs' e g err : rtc pstep (p0, None, pubs) (p, held, pubs') -> outcome_ok p0 pubs (fatal_error p e g err).
Proof. intros H. constructor; cbn [fatal_error oc_pub oc_fail oc_reply]; [|done]. by exists held, pubs'. Qed.

Lemma aborted_ok p e g err : within p e -> ce_committing e = false -> (ce_noop e = false -> ce_persistent e = false) ->
  outcome_ok p0 pubs (aborted p e g err).
Proof.
  intros (H1 & H2 & H3 & H4) Hc Hn. unfold aborted. destruct (abort p e) as [p' e'] eqn:Ha.
  destruct (exec_abort_ok _ _ _ _ _ H2 H4 Hc Ha) as (A1 & A2 & A3 & A4 & A5 & A6).
  constructor; cbn [ordinary_error oc_pub oc_fail oc_reply oc_execution].
  - exists None, pubs. split; [by etrans|done].
  - intros _. split; [by etrans|]. rewrite A5, A3, A6. intros Hf. split; [by apply Hn|]. by eapply replay_off.
Qed.

Lemma recovered_ok p e g : within p e -> outcome_ok p0 pubs (recovered p e g).
Proof.
  intros (H1 & H2 & H3 & H4). unfold recovered. destruct (abort p e) as [p' e'] eqn:Ha. destruct (ce_committing e) eqn:Hc.
  - assert ((p', e') = (p, e)) as [= -> ->].
    { rewrite <- Ha. unfold abort. rewrite Hc. by destruct (ce_reservation e). }
    by eapply fatal_ok.
  - destruct (exec_abort_ok _ _ _ _ _ H2 H4 Hc Ha) as (A1 & _). eapply fatal_ok. by etrans.
Qed.

Lemma within_world p e w : within p e -> within (with_world p w) e.
Proof.
  intros (H1 & H2 & H3 & H4). assert (Hs : pstep (held_by p e pubs) (held_by (with_world p w) e pubs)) by apply ps_world.
  split; [eapply rtc_r; [exact H1|exact Hs]|]. split; [by eapply pok_step|]. by split; [etrans|].
Qed.

Lemma publish_phase_ok c id out r runtime p e g : within p e -> ce_reservation e = Some r -> ce_persistent e || ce_runtimeReady e = true ->
  runtime = ce_runtimeReady e && negb (ce_persistent e) -> ce_noop e = false ->
  outcome_ok p0 pubs (publish_phase json_Valid json_Marshal json_user c id out r runtime p e g).
Proof.
  intros (H1 & H2 & H3 & H4) Hr Hd Hrt Hnn. pose proof (replay_off e H4 Hnn) as Hrep. pose proof H2 as [K1 K2 K3 K4 K5 K6]. unfold held_by in *. rewrite Hr in *. cbn [fst snd] in *.
  destruct K6 as (Hcomp & Hlock & req & Hb & Hres).
  unfold publish_phase. set (canceled := if runtime then cm_canceledPublish c else false).
  assert (Hpub : (if runtime then PublishRuntime json_Valid json_Marshal json_user (Some (cm_canceledPublish c)) p r
    else Publish json_Valid json_Marshal json_user p r) = publish json_Valid json_Marshal json_user canceled p r) by (by destruct runtime).
  rewrite Hpub. clear Hpub.
  destruct (publish_cases json_Valid json_Marshal json_user canceled p req r _ K1 Hcomp Hres) as (res & p' & r' & Hp & L1 & L2 & Hcase).
  rewrite Hp. assert (Hs : pstep (p, Some r, pubs) (p', None, pubs ++ published res (pr_result r))) by (by eapply ps_publish).
  assert (Hrun : rtc pstep (p0, None, pubs) (p', None, pubs ++ published res (pr_result r))) by (by eapply rtc_r).
  pose proof (pok_step _ _ Hs H2) as Hok'. destruct H3 as (T1 & T2 & T3).
  destruct res as [publication|err].
  - destruct Hcase as [(ring & _ & (E1 & E2 & E3) & _ & _ & [[= ->] | [? ?]])|(_ & _ & _ & _ & [(_ & ? & _)|(_ & ? & ? & _)])]; try done.
    assert (Hhw : highWater (pb_ring p') = cp_GEID (pu_Checkpoint (pr_result r))).
    { destruct Hok' as [_ Hh _ _ _ _]. cbn [fst snd] in Hh. rewrite Hh, E2. by rewrite (rv_checkpoint _ _ _ _ _ Hres). }
    assert (Hend : forall w cb, run_callback p' (co_AfterPublish out) = (w, cb) -> exists w', w = with_world p' w').
    { intros w cb. unfold run_callback. destruct (co_AfterPublish out) as [f|]; [destruct (f (pb_world p')) as [w1 cb1]|]; intros [= <- <-];
        [by eexists|]. exists (pb_world p'). by destruct p'. }
    destruct (run_callback p' (co_AfterPublish out)) as [p2 cb] eqn:Ecb. destruct (Hend _ _ eq_refl) as [w' ->].
    assert (Hrun2 : rtc pstep (p0, None, pubs) (with_world p' w', None, pubs ++ [pr_result r])) by (eapply rtc_r; [exact Hrun|apply ps_world]).
    destruct cb.
    + constructor; cbn [oc_pub oc_fail oc_reply oc_execution cc_Publication]; [by exists None, (pubs ++ [pr_result r])|].
      split; [done|]. cbn [with_published with_reservation ce_persistent ce_runtimeReady ce_replay with_world pb_current pb_pointer pb_ring].
      split_and!; try done. congruence.
    + by eapply fatal_ok.
    + unfold recovered, abort. cbn [with_published with_reservation ce_reservation ce_committing ce_persistent ce_published].
      destruct (ce_committing e || ce_persistent e && true); [by eapply fatal_ok|].
      unfold Abort, claimCompletion. rewrite L2. by eapply fatal_ok.
  - destruct (runtime && _) eqn:Hcan; [|by eapply fatal_ok].
    destruct Hcase as [(ring & _ & _ & _ & _ & [? | [e0 [= ->]]])|(E1 & E2 & E3 & E4 & [(_ & [= ->] & _)|(_ & [] & [= ->] & _)])]; try done;
      try (by destruct runtime).
    all: constructor; cbn [ordinary_error oc_pub oc_fail oc_reply oc_execution].
    1, 3: exists None; cbn [published] in Hrun; rewrite app_nil_r in Hrun; by exists pubs.
    all: intros _; split; [split_and!; congruence|]; intros _; cbn [with_reservation ce_persistent ce_replay]; (split; [|done]);
      (destruct runtime; [|done]); symmetry in Hrt; apply andb_true_iff in Hrt as [_ Hrt]; by apply negb_true_iff in Hrt.
Qed.

Lemma conclude_ok c id ended p e g : within p e -> (ended <> Panicked -> ce_committing e = false) ->
  outcome_ok p0 pubs (conclude json_Valid json_Marshal json_user c id ended p e g).
Proof.
  intros Hw Hc. pose proof Hw as (_ & _ & H3 & [X1 X2 X3 _ _]). unfold conclude. destruct ended as [out|err|]; [| |by apply recovered_ok].
  - specialize (Hc ltac:(done)). destruct (ce_noop e) eqn:Hn.
    + destruct (is_some (ce_reservation e) || ce_persistent e || ce_runtimeReady e) eqn:Ha; [apply aborted_ok; try done; congruence|].
      apply orb_false_iff in Ha as [[Ha1 Ha2]%orb_false_iff _]. destruct Hw as (H1 & _).
      constructor; cbn [oc_pub oc_fail oc_reply oc_execution cc_Publication]; [|done].
      exists (ce_reservation e), pubs. split; [exact H1|]. intros _. by destruct (ce_reservation e).
    + destruct (ce_reservation e) as [r|] eqn:Hr.
      2: { apply aborted_ok; try done. intros _. destruct (ce_persistent e); [|done]. by destruct X2. }
      destruct (ce_persistent e) eqn:Hp, (ce_runtimeReady e) eqn:Hrt; cbn [negb andb] in *; try done.
      * destruct (co_BeforePublish out) as [f|]; [|by apply publish_phase_ok; rewrite ?Hp, ?Hrt].
        cbn [run_callback]. destruct (f (pb_world p)) as [w [|err|]].
        -- apply publish_phase_ok; rewrite ?Hp, ?Hrt; try done. by apply within_world.
        -- destruct (abort (with_world p w) e) as [p' e'] eqn:Ha.
           destruct (within_world p e w Hw) as (W1 & W2 & _ & W4). destruct (exec_abort_ok _ _ _ _ _ W2 W4 Hc Ha) as (A1 & _).
           eapply fatal_ok. by etrans.
        -- by apply recovered_ok, within_world.
      * destruct (cm_canceledReady c); [apply aborted_ok; try done; congruence|].
        destruct (co_BeforePublish out); [apply aborted_ok; try done; congruence|]. by apply publish_phase_ok; rewrite ?Hp, ?Hrt.
      * by apply aborted_ok.
  - specialize (Hc ltac:(done)). destruct (ce_persistent e) eqn:Hp; cbn [orb negb andb].
    + rewrite andb_false_r. destruct Hw as (H1 & _). by eapply fatal_ok.
    + rewrite andb_true_r. by destruct (ce_runtimeReady e); apply aborted_ok.
Qed.
End Conclude.

Lemma held_ok c p pubs g : pok (p, None, pubs) -> (forall id, buildable p (cm_Execute c id)) ->
  exists o, execute_held json_Valid json_Marshal json_user idNext c p g = Some o /\ outcome_ok p pubs o.
Proof.
  intros Hp Hb. unfold execute_held.
  assert (Hstart : forall id g, exists o, ('(ended, p1, e) ← run_script (cm_Execute c id) p (with_id new_execution id);
    Some (conclude json_Valid json_Marshal json_user c id ended p1 e g)) = Some o /\ outcome_ok p pubs o).
  { intros id g'. destruct (run_script_ok (cm_Execute c id) p (with_id new_execution id) pubs) as (ended & p' & e' & R1 & R2 & R3 & R4 & R5 & R6 & _); try done.
    rewrite R1. cbn [mbind option_bind]. eexists. split; [done|]. apply conclude_ok; [|done]. split; [exact R2|]. by split. }
  destruct (cm_CommandID c =? 0); [|apply Hstart]. destruct (idNext g) as [[id|[]] g']; [apply Hstart|].
  eexists. split; [done|]. constructor; cbn [ordinary_error oc_pub oc_fail oc_reply oc_execution]; [|done].
  exists None, pubs. by split; [apply rtc_refl|].
Qed.

Lemma execute_ok c p pubs g : pok (p, None, pubs) -> (forall id, buildable p (cm_Execute c id)) ->
  exists o, execute c p g = Some o /\ outcome_ok p pubs o.
Proof.
  intros Hp Hb. unfold Sequencer.execute.
  assert (Hstay : forall w err, outcome_ok p pubs (ordinary_error (with_world p w) new_execution g err)).
  { intros w err. constructor; cbn [ordinary_error oc_pub oc_fail oc_reply oc_execution]; [|done].
    exists None, pubs. split; [apply rtc_once, ps_world|done]. }
  destruct (cm_canceledStart c).
  { eexists. split; [done|]. specialize (Hstay (pb_world p) ErrContext). by destruct p. }
  destruct (cm_Acquire c) as [acquire|]; [|by apply held_ok]. destruct (acquire (pb_world p)) as [w a].
  assert (Hw : rtc pstep (p, None, pubs) (with_world p w, None, pubs)) by apply rtc_once, ps_world.
  destruct a as [err| |release|]; [eexists; by split..| |].
  - destruct (held_ok c (with_world p w) pubs g) as (o & -> & [(held & pubs' & O1 & O1') O2]).
    { by eapply pok_steps. } { intros id. by apply (buildable_same p). }
    cbn [fmap option_fmap option_map]. eexists. split; [done|].
    constructor; cbn [release_barriers oc_pub oc_fail oc_reply oc_execution]; [|exact O2].
    exists held, pubs'. split; [|done]. etrans; [exact Hw|]. eapply rtc_r; [exact O1|]. apply ps_world.
  - eexists. split; [done|]. unfold recovered, abort. cbn [new_execution ce_reservation]. by eapply fatal_ok.
Qed.
End Run.


(** ** The queues *)

#[local] Abbreviation sequencer := (PostCommitSequencer C W G Value).
#[local] Abbreviation worker := (Worker C W Value).
#[local] Abbreviation queued := (queuedCommand C W Value).
#[local] Abbreviation run_step := (Sequencer.run_step json_Valid json_Marshal json_user idNext).

Definition command_ok (c : command) : Prop := forall p id, buildable p (cm_Execute c id).

(** The sequencer, its worker, and the numbers admitted to either queue. *)
Record Node := mkNode { nd_seq : sequencer; nd_worker : worker; nd_ordinary : list nat; nd_control : list nat }.

Definition env (s : sequencer) (bus : option (nat * EventBus C)) (w : W) : sequencer :=
  set_state s (with_world (with_bus (sq_pub s) bus) w) (sq_gen s).

Inductive node_step : Node -> Node -> Prop :=
  | nd_submit s w o k c id s' : command_ok c -> Submit s c = (Ok id, s') -> node_step (mkNode s w o k) (mkNode s' w (o ++ [id]) k)
  | nd_refuse s w o k c e s' : Submit s c = (Err e, s') -> node_step (mkNode s w o k) (mkNode s' w o k)
  | nd_submit_control s w o k cs ids s' : Forall command_ok cs -> SubmitControlBatch s cs = (Ok ids, s') ->
      node_step (mkNode s w o k) (mkNode s' w o (k ++ ids))
  | nd_refuse_control s w o k cs e s' : SubmitControlBatch s cs = (Err e, s') -> node_step (mkNode s w o k) (mkNode s' w o k)
  | nd_close s w o k : node_step (mkNode s w o k) (mkNode (Close s) w o k)
  | nd_fail s w o k e : node_step (mkNode s w o k) (mkNode (fail s (Some e)) w o k)
  | nd_env s w o k bus world : node_step (mkNode s w o k) (mkNode (env s bus world) w o k)
  | nd_run s w o k control s' w' : run_step s w control = Some (s', w') -> node_step (mkNode s w o k) (mkNode s' w' o k).

Definition bytes_of (l : list queued) : Z := foldr (fun q n => cm_QueueBytes (qc_command q) + n) 0 l.
Definition batch_bytes (l : list (controlBatch (C:=C) (W:=W) (Value:=Value))) : Z := foldr (fun b n => cb_bytes b + n) 0 l.
Definition batch_commands (l : list (controlBatch (C:=C) (W:=W) (Value:=Value))) : list queued := mjoin (cb_commands <$> l).

(** What the worker took and did not answer, and the capacity it has not given back. *)
Definition inflight (w : worker) : list queued :=
  match w with GotCommand q _ _ => [q] | GotBatch b _ _ => cb_commands b | Executing _ l _ _ => l | _ => [] end.
Definition owed_command (w : worker) : list queued := match w with GotCommand q _ _ => [q] | _ => [] end.
Definition owed_batch (w : worker) : list (controlBatch (C:=C) (W:=W) (Value:=Value)) := match w with GotBatch b _ _ => [b] | _ => [] end.
Definition flags (w : worker) : bool * bool :=
  match w with Idle c k | GotCommand _ c k | GotBatch _ c k | Executing _ _ c k => (c, k) | Done => (false, false) end.

(** The numbers taken so far, in order. *)
Definition taken (s : sequencer) (w : worker) : list nat := (sq_replies s).*1 ++ (qc_id <$> inflight w).

Record queue_ok (s : sequencer) (w : worker) : Prop := {
  qo_bytes : sq_queuedBytes s = bytes_of (owed_command w ++ sq_commands s);
  qo_control_bytes : sq_controlBytes s = batch_bytes (owed_batch w ++ sq_controls s);
  qo_max : sq_queuedBytes s <= MaxSequencerQueueBytes /\ sq_controlBytes s <= MaxSequencerQueueBytes /\
    len (sq_commands s) <= MaxSequencerQueueItems /\ len (sq_controls s) <= MaxControlTeardownQueueItems;
  qo_batches : Forall (fun b => cb_bytes b = bytes_of (cb_commands b) /\ len (cb_commands b) <= MaxControlPlansPerItem) (owed_batch w ++ sq_controls s);
  qo_valid : Forall (fun q => command_ok (qc_command q) /\ 0 < cm_QueueBytes (qc_command q))
    (inflight w ++ sq_commands s ++ batch_commands (sq_controls s));
  qo_failure : match sq_failure s with None => sq_fatal s = [] | Some e => sq_fatal s = [e] /\ sq_closed s = true end;
  qo_closed : sq_closed s = true -> sq_accepting s = false;
  qo_flags : ((flags w).1 = false -> sq_closed s = true /\ sq_commands s = []) /\
    ((flags w).2 = false -> sq_closed s = true /\ sq_controls s = [])
}.

Record order_ok (n : Node) : Prop := {
  ro_ordinary : nd_ordinary n = filter (fun i => i ∈ nd_ordinary n) (taken (nd_seq n) (nd_worker n)) ++ (qc_id <$> sq_commands (nd_seq n));
  ro_control : nd_control n = filter (fun i => i ∈ nd_control n) (taken (nd_seq n) (nd_worker n)) ++
    (qc_id <$> batch_commands (sq_controls (nd_seq n)));
  ro_nodup : NoDup (nd_ordinary n ++ nd_control n);
  ro_perm : taken (nd_seq n) (nd_worker n) ++ (qc_id <$> sq_commands (nd_seq n)) ++ (qc_id <$> batch_commands (sq_controls (nd_seq n))) ≡ₚ
    nd_ordinary n ++ nd_control n;
  ro_next : forall i, i ∈ nd_ordinary n ++ nd_control n -> (i < sq_next (nd_seq n))%nat
}.

Lemma bytes_app l1 l2 : bytes_of (l1 ++ l2) = bytes_of l1 + bytes_of l2.
Proof. unfold bytes_of. induction l1 as [|q l1 IH]; cbn; lia. Qed.
Lemma batch_bytes_app l1 l2 : batch_bytes (l1 ++ l2) = batch_bytes l1 + batch_bytes l2.
Proof. unfold batch_bytes. induction l1 as [|q l1 IH]; cbn; lia. Qed.
Lemma batch_commands_app l1 l2 : batch_commands (l1 ++ l2) = batch_commands l1 ++ batch_commands l2.
Proof. unfold batch_commands. by rewrite fmap_app, join_app. Qed.

(** Admission. *)
Lemma Submit_cases (s : sequencer) c r (s' : sequencer) : Submit s c = (r, s') ->
  match r with
  | Ok id => id = sq_next s /\ valid_command c = true /\ sq_accepting s = true /\ len (sq_commands s) < MaxSequencerQueueItems /\
      sq_queuedBytes s + cm_QueueBytes c <= MaxSequencerQueueBytes /\
      s' = set_queue s (sq_commands s ++ [mkQueued id c]) (sq_queuedBytes s + cm_QueueBytes c) (S id)
  | Err _ => s' = set_queue s (sq_commands s) (sq_queuedBytes s) (sq_next s') /\ (sq_next s <= sq_next s')%nat
  end.
Proof.
  assert (Hid : forall s : sequencer, s = set_queue s (sq_commands s) (sq_queuedBytes s) (sq_next s)) by (by intros []).
  unfold Submit, enqueue. destruct (valid_command c); cbn [negb]; [|intros [= <- <-]; split; [apply Hid|done]].
  cbn [set_queue sq_accepting sq_queuedBytes sq_commands qc_command sq_next]. destruct (sq_accepting s); cbn [negb];
    [|intros [= <- <-]; split; [done|cbn; lia]].
  destruct (Z.ltb_spec MaxSequencerQueueBytes (sq_queuedBytes s + cm_QueueBytes c)); [intros [= <- <-]; split; [done|cbn; lia]|].
  destruct (Z.ltb_spec (len (sq_commands s)) MaxSequencerQueueItems); intros [= <- <-]; [|split; [done|cbn; lia]].
  by split_and!.
Qed.

Lemma number_from_spec next (cs : list command) : qc_command <$> number_from next cs = cs /\ qc_id <$> number_from next cs = seq next (length cs).
Proof.
  unfold number_from. revert next. induction cs as [|c cs IH]; intros next; [done|]. cbn. destruct (IH (S next)) as [I1 I2].
  split; [by f_equal|by f_equal].
Qed.

Lemma control_cases (s : sequencer) cs r (s' : sequencer) : SubmitControlBatch s cs = (r, s') ->
  match r with
  | Ok ids => ids = seq (sq_next s) (length cs) /\ 0 < len cs <= MaxControlPlansPerItem /\ Forall (fun c => 0 < cm_QueueBytes c) cs /\
      sq_accepting s = true /\ len (sq_controls s) < MaxControlTeardownQueueItems /\
      let b := mkBatch (number_from (sq_next s) cs) (bytes_of (number_from (sq_next s) cs)) in
      sq_controlBytes s + cb_bytes b <= MaxSequencerQueueBytes /\
      s' = set_controls s (sq_controls s ++ [b]) (sq_controlBytes s + cb_bytes b) (sq_next s + length cs)
  | Err _ => s' = set_controls s (sq_controls s) (sq_controlBytes s) (sq_next s') /\ (sq_next s <= sq_next s')%nat
  end.
Proof.
  assert (Hid : forall s : sequencer, s = set_controls s (sq_controls s) (sq_controlBytes s) (sq_next s)) by (by intros []).
  assert (Hbytes : foldr (fun c n => cm_QueueBytes c + n) 0 cs = bytes_of (number_from (sq_next s) cs)).
  { unfold bytes_of, number_from. generalize (sq_next s). induction cs as [|c cs IH]; intros next; [done|]. cbn. by rewrite (IH (S next)). }
  unfold SubmitControlBatch, enqueueControl. rewrite Hbytes.
  destruct (Z.eqb_spec (len cs) 0); cbn [orb]; [intros [= <- <-]; split; [apply Hid|done]|].
  destruct (Z.ltb_spec MaxControlPlansPerItem (len cs)); [intros [= <- <-]; split; [apply Hid|done]|].
  destruct (forallb valid_command cs) eqn:Hv; cbn [negb]; [|intros [= <- <-]; split; [apply Hid|done]].
  cbn [set_controls sq_accepting sq_controlBytes sq_controls cb_bytes sq_next]. destruct (sq_accepting s); cbn [negb];
    [|intros [= <- <-]; split; [done|cbn; lia]].
  destruct (Z.ltb_spec MaxSequencerQueueBytes (sq_controlBytes s + bytes_of (number_from (sq_next s) cs))); [intros [= <- <-]; split; [done|cbn; lia]|].
  destruct (Z.ltb_spec (len (sq_controls s)) MaxControlTeardownQueueItems); intros [= <- <-]; [|split; [done|cbn; lia]].
  split; [apply number_from_spec|]. split; [unfold len in *; lia|]. split; [|by split_and!].
  apply Forall_forall. intros c Hc. apply forallb_forall with (x := c) in Hv; [|by apply list_elem_of_In].
  unfold valid_command in Hv. lia.
Qed.

(** Failing and answering leave the queues alone. *)
Record same_queues (s s' : sequencer) : Prop := {
  sm_commands : sq_commands s' = sq_commands s;
  sm_controls : sq_controls s' = sq_controls s;
  sm_bytes : sq_queuedBytes s' = sq_queuedBytes s /\ sq_controlBytes s' = sq_controlBytes s;
  sm_next : sq_next s' = sq_next s;
  sm_closed : sq_closed s = true -> sq_closed s' = true
}.

Definition failure_ok (s : sequencer) : Prop :=
  match sq_failure s with None => sq_fatal s = [] | Some e => sq_fatal s = [e] /\ sq_closed s = true end /\
  (sq_closed s = true -> sq_accepting s = false).

Lemma fail_ok s e : failure_ok s -> same_queues s (fail s e) /\ failure_ok (fail s e) /\ sq_replies (fail s e) = sq_replies s /\
  sq_pub (fail s e) = sq_pub s /\ (sq_failure s = None -> sq_failure (fail s e) = e) /\ (forall f, sq_failure s = Some f -> fail s e = s).
Proof.
  intros [F1 F2]. unfold fail. destruct e as [e|]; [|split_and!; try done; by constructor].
  destruct (sq_failure s) as [f|] eqn:Hf; [split_and!; try done; try (by constructor); by split; rewrite ?Hf|].
  split; [by constructor|]. split; [|by split_and!]. split; cbn [sq_failure sq_fatal sq_closed sq_accepting]; [|done]. by rewrite F1.
Qed.

Lemma reply_frame s q ph s' next : failure_ok s -> executeAndReply json_Valid json_Marshal json_user idNext s q ph = Some (s', next) ->
  same_queues s s' /\ failure_ok s' /\
  sq_replies s' = sq_replies s ++ match next with None => [(qc_id q, match ph with Reported r => r | _ => Err (refusal s) end)] | Some _ => [] end.
Proof.
  intros Hok. unfold executeAndReply. destruct ph as [| |f r|r].
  - unfold refusal. destruct (sq_failure s) as [f|] eqn:Hf; intros [= <- <-]; [|rewrite app_nil_r; split_and!; [by constructor|done|done]].
    split_and!; [by constructor| |done]. destruct Hok as [F1 F2]. split; cbn [send_reply sq_failure sq_fatal sq_closed sq_accepting]; by rewrite ?Hf in *.
  - destruct (Sequencer.execute _ _ _ _ _ _ _) as [o|] eqn:Ho; [|done]. cbn [mbind option_bind]. intros [= <- <-].
    rewrite app_nil_r. split_and!; [by constructor| |done]. by destruct Hok.
  - intros [= <- <-]. destruct (fail_ok s f Hok) as (K1 & K2 & K3 & _). by rewrite app_nil_r.
  - intros [= <- <-]. split_and!; [by constructor| |done]. by destruct Hok.
Qed.

Lemma take_control_ok s c s' w' : queue_ok s (Idle c true) ->
  match sq_controls s with
  | b :: rest => Some (set_controls s rest (sq_controlBytes s) (sq_next s), GotBatch b c true)
  | [] => if sq_closed s then Some (s, Idle c false) else None
  end = Some (s', w') -> queue_ok s' w'.
Proof.
  intros [H1 H2 (H3 & H3a & H3b & H3c) H4 H5 H6 H7 [H8 H9]].
  destruct (sq_controls s) as [|b rest] eqn:Hc; [destruct (sq_closed s) eqn:Hcl|]; intros; simplify_eq; constructor;
    cbn [set_controls sq_queuedBytes sq_controlBytes sq_commands sq_controls sq_failure sq_fatal sq_closed sq_accepting flags fst snd owed_command owed_batch inflight app];
    rewrite ?Hc, ?Hcl; try done.
  - rewrite len_cons in H3c. lia.
  - unfold batch_commands in H5. cbn in H5. apply Forall_app in H5 as [A B]. apply Forall_app in B as [B D].
    rewrite !Forall_app. split_and!; done.
Qed.

Lemma take_command_ok s k s' w' : queue_ok s (Idle true k) ->
  match sq_commands s with
  | q :: rest => Some (set_queue s rest (sq_queuedBytes s) (sq_next s), GotCommand q true k)
  | [] => if sq_closed s then Some (s, Idle false k) else None
  end = Some (s', w') -> queue_ok s' w'.
Proof.
  intros [H1 H2 (H3 & H3a & H3b & H3c) H4 H5 H6 H7 [H8 H9]].
  destruct (sq_commands s) as [|q rest] eqn:Hc; [destruct (sq_closed s) eqn:Hcl|]; intros; simplify_eq; constructor;
    cbn [set_queue sq_queuedBytes sq_controlBytes sq_commands sq_controls sq_failure sq_fatal sq_closed sq_accepting flags fst snd owed_command owed_batch inflight app];
    rewrite ?Hc, ?Hcl; try done.
  rewrite len_cons in H3b. lia.
Qed.

Lemma worker_ok s w control s' w' : run_step s w control = Some (s', w') -> queue_ok s w -> queue_ok s' w'.
Proof.
  intros Hr Hok. destruct w as [c k|q c k|b c k|ph [|q l] c k|]; cbn [Sequencer.run_step] in Hr; [| | | | |done].
  - destruct c, k, control; cbn [negb andb] in Hr; simplify_eq;
      try (by eapply take_control_ok); try (by eapply take_command_ok); destruct Hok as [H1 H2 H3 H4 H5 H6 H7 H8]; by constructor.
  - injection Hr as <- <-. destruct Hok as [H1 H2 (H3 & H3a & H3b & H3c) H4 H5 H6 H7 H8]. unfold bytes_of in H1. cbn [owed_command app foldr] in H1.
    fold (bytes_of (sq_commands s)) in H1. apply Forall_inv in H5 as Hq.
    constructor; cbn [set_queue sq_queuedBytes sq_controlBytes sq_commands sq_controls sq_failure sq_fatal sq_closed sq_accepting owed_command app]; try done; lia.
  - injection Hr as <- <-. destruct Hok as [H1 H2 (H3 & H3a & H3b & H3c) H4 H5 H6 H7 H8]. unfold batch_bytes in H2. cbn [owed_batch app foldr] in H2.
    fold (batch_bytes (sq_controls s)) in H2. pose proof (Forall_inv H4) as [Hb _].
    assert (0 <= cb_bytes b).
    { rewrite Hb. cbn [inflight] in H5. apply Forall_app in H5 as [H5 _]. unfold bytes_of. clear -H5.
      induction H5 as [|x l [_ Hx] _ IH]; cbn; lia. }
    constructor; cbn [set_controls sq_queuedBytes sq_controlBytes sq_commands sq_controls sq_failure sq_fatal sq_closed sq_accepting owed_batch app]; try done;
      try lia. by apply Forall_inv_tail in H4.
  - injection Hr as <- <-. destruct Hok as [H1 H2 H3 H4 H5 H6 H7 H8]. by constructor.
  - apply bind_Some in Hr as ([s1 next] & Hr & [= <- <-]). destruct Hok as [H1 H2 H3 H4 H5 H6 H7 [H8 H9]].
    destruct (reply_frame s q ph s1 next) as ([M1 M2 [M3 M3'] M4 M5] & [K1 K2] & _); [done|done|].
    assert (Hfl : flags match next with Some ph => Executing ph (q :: l) c k | None => Executing Dequeued l c k end = (c, k)) by (by destruct next).
    constructor; rewrite ?M1, ?M2, ?M3, ?M3', ?Hfl; try done; try (by destruct next); [destruct next; [done|by apply Forall_inv_tail in H5]|].
    split; intros Hf; [destruct (H8 Hf)|destruct (H9 Hf)]; auto.
Qed.

Lemma queue_step n n' : node_step n n' -> queue_ok (nd_seq n) (nd_worker n) -> queue_ok (nd_seq n') (nd_worker n').
Proof.
  intros Hs Hok. destruct Hs as [s w o k c id s' Hc Hs|s w o k c e s' Hs|s w o k cs ids s' Hc Hs|s w o k cs e s' Hs|s w o k|s w o k e|s w o k bus world|s w o k control s' w' Hr];
    cbn [nd_seq nd_worker] in *.
  - destruct (Submit_cases _ _ _ _ Hs) as (-> & Hv & Ha & Hi & Hb & ->). destruct Hok as [H1 H2 (H3 & H3a & H3b & H3c) H4 H5 H6 H7 [H8 H9]].
    assert (0 < cm_QueueBytes c) by (unfold valid_command in Hv; lia).
    constructor; cbn [set_queue sq_queuedBytes sq_controlBytes sq_commands sq_controls sq_failure sq_fatal sq_closed sq_accepting]; try done.
    + rewrite app_assoc, bytes_app, <- H1. cbn. lia.
    + rewrite len_app. change (len [mkQueued (sq_next s) c]) with 1. unfold MaxSequencerQueueItems in *. lia.
    + apply Forall_app in H5 as [? [? ?]%Forall_app]. rewrite !Forall_app. split_and!; try done. by constructor.
    + split; [|done]. intros Hf. destruct (H8 Hf) as [Hcl _]. by rewrite (H7 Hcl) in Ha.
  - destruct (Submit_cases _ _ _ _ Hs) as (-> & _). destruct Hok as [H1 H2 H3 H4 H5 H6 H7 H8]. by constructor.
  - destruct (control_cases _ _ _ _ Hs) as (-> & Hl & Hq & Ha & Hi & Hb & ->). destruct Hok as [H1 H2 (H3 & H3a & H3b & H3c) H4 H5 H6 H7 [H8 H9]].
    destruct (number_from_spec (sq_next s) cs) as [N1 N2]. set (q := number_from (sq_next s) cs) in *.
    constructor; cbn [set_controls sq_queuedBytes sq_controlBytes sq_commands sq_controls sq_failure sq_fatal sq_closed sq_accepting]; try done.
    + rewrite app_assoc, batch_bytes_app, <- H2. cbn. lia.
    + rewrite len_app. change (len [mkBatch q (bytes_of q)]) with 1. unfold MaxControlTeardownQueueItems in *. cbn [cb_bytes] in *. lia.
    + rewrite app_assoc. apply Forall_app. split; [done|]. constructor; [|done]. cbn. split; [done|].
      rewrite <- N1 in Hl. unfold len in *. rewrite length_fmap in Hl. lia.
    + rewrite batch_commands_app. apply Forall_app in H5 as [? [? ?]%Forall_app]. rewrite !Forall_app. split_and!; try done.
      unfold batch_commands. cbn. rewrite app_nil_r. apply Forall_forall. intros x Hx. rewrite Forall_forall in Hc, Hq.
      assert (Hin : qc_command x ∈ cs) by (rewrite <- N1; apply list_elem_of_fmap; eauto). split; [by apply Hc|by apply Hq].
    + split; [done|]. intros Hf. destruct (H9 Hf) as [Hcl _]. by rewrite (H7 Hcl) in Ha.
  - destruct (control_cases _ _ _ _ Hs) as (-> & _). destruct Hok as [H1 H2 H3 H4 H5 H6 H7 H8]. by constructor.
  - destruct Hok as [H1 H2 H3 H4 H5 H6 H7 [H8 H9]]. constructor; cbn; try done.
    + destruct (sq_failure s); [by destruct H6|done].
    + split; intros Hf; [by destruct (H8 Hf)|by destruct (H9 Hf)].
  - destruct Hok as [H1 H2 H3 H4 H5 H6 H7 [H8 H9]]. destruct (fail_ok s (Some e)) as ([M1 M2 [M3 M3'] M4 M5] & [K1 K2] & _); [done|].
    constructor; rewrite ?M1, ?M2, ?M3, ?M3'; try done. split; intros Hf; [destruct (H8 Hf)|destruct (H9 Hf)]; auto.
  - destruct Hok as [H1 H2 H3 H4 H5 H6 H7 H8]. by constructor.
  - by eapply worker_ok.
Qed.

(** ** Order *)

(** The worker takes from the heads of the queues. *)
Lemma worker_order s w control s' w' : run_step s w control = Some (s', w') -> failure_ok s ->
  sq_next s' = sq_next s /\ exists x y, taken s' w' = taken s w ++ x ++ y /\
    qc_id <$> sq_commands s = x ++ (qc_id <$> sq_commands s') /\
    qc_id <$> batch_commands (sq_controls s) = y ++ (qc_id <$> batch_commands (sq_controls s')).
Proof.
  assert (Hnil : forall l : list nat, l = l ++ [] ++ []) by (intros; by rewrite !app_nil_r).
  intros Hr Hf. destruct w as [c k|q c k|b c k|ph [|q l] c k|]; cbn [Sequencer.run_step] in Hr; [| | | | |done].
  - destruct (negb c && negb k); [injection Hr as <- <-; split; [done|]; exists [], []; split_and!; try done; apply Hnil|].
    destruct control.
    + destruct (negb k); [done|]. destruct (sq_controls s) as [|b rest] eqn:Hc.
      * destruct (sq_closed s); [|done]. injection Hr as <- <-. split; [done|]. exists [], []. rewrite Hc. split_and!; try done; apply Hnil.
      * injection Hr as <- <-. split; [done|]. exists [], (qc_id <$> cb_commands b). unfold taken. cbn [inflight set_controls sq_replies sq_commands sq_controls].
        rewrite app_nil_r. split_and!; try done. unfold batch_commands. cbn. by rewrite fmap_app.
    + destruct (negb c); [done|]. destruct (sq_commands s) as [|q rest] eqn:Hc.
      * destruct (sq_closed s); [|done]. injection Hr as <- <-. split; [done|]. exists [], []. rewrite Hc. split_and!; try done; apply Hnil.
      * injection Hr as <- <-. split; [done|]. exists [qc_id q], []. unfold taken. cbn. rewrite app_nil_r. by split_and!.
  - injection Hr as <- <-. split; [done|]. exists [], []. split_and!; try done; apply Hnil.
  - injection Hr as <- <-. split; [done|]. exists [], []. split_and!; try done; apply Hnil.
  - injection Hr as <- <-. split; [done|]. exists [], []. split_and!; try done; apply Hnil.
  - apply bind_Some in Hr as ([s1 next] & Hr & [= <- <-]). destruct (reply_frame s q ph s1 next Hf Hr) as ([M1 M2 _ M4 _] & _ & Hrep).
    split; [done|]. exists [], []. rewrite M1, M2. split_and!; try done. unfold taken. rewrite Hrep, fmap_app.
    destruct next; cbn; by rewrite <- app_assoc, app_nil_r.
Qed.

(** Admitting new numbers to a list does not change the part already taken. *)
Lemma filter_grow (l new T : list nat) : (forall i, i ∈ new -> i ∉ T) -> filter (fun i => i ∈ l ++ new) T = filter (fun i => i ∈ l) T.
Proof. intros H. apply filter_ext_elem. intros i Hi. rewrite elem_of_app. split; [intros [?|Hn]; [done|]|by left]. by destruct (H i Hn). Qed.

Lemma order_fresh n i : order_ok n -> (sq_next (nd_seq n) <= i)%nat -> i ∉ nd_ordinary n ++ nd_control n /\ i ∉ taken (nd_seq n) (nd_worker n).
Proof.
  intros [_ _ _ H4 H5] Hi. assert (Hn : i ∉ nd_ordinary n ++ nd_control n) by (intros Hin; specialize (H5 i Hin); lia).
  split; [done|]. intros Ht. apply Hn. rewrite <- H4. apply elem_of_app. by left.
Qed.

Lemma order_admit n s' (o k : list nat) :
  order_ok n -> NoDup (o ++ k) -> (forall i, i ∈ o ++ k -> (sq_next (nd_seq n) <= i < sq_next s')%nat) -> (sq_next (nd_seq n) <= sq_next s')%nat ->
  sq_replies s' = sq_replies (nd_seq n) -> qc_id <$> sq_commands s' = (qc_id <$> sq_commands (nd_seq n)) ++ o ->
  qc_id <$> batch_commands (sq_controls s') = (qc_id <$> batch_commands (sq_controls (nd_seq n))) ++ k ->
  order_ok (mkNode s' (nd_worker n) (nd_ordinary n ++ o) (nd_control n ++ k)).
Proof.
  intros Hok Hnd Hnew Hnext E1 E2 E3. pose proof Hok as [H1 H2 H3 H4 H5].
  assert (Ht : taken s' (nd_worker n) = taken (nd_seq n) (nd_worker n)) by (unfold taken; by rewrite E1).
  assert (Hf : forall i, i ∈ o ++ k -> i ∉ nd_ordinary n ++ nd_control n /\ i ∉ taken (nd_seq n) (nd_worker n)).
  { intros i Hi. apply order_fresh; [done|]. by apply Hnew. }
  constructor; cbn [nd_seq nd_worker nd_ordinary nd_control]; rewrite ?Ht, ?E2, ?E3.
  - rewrite filter_grow by (intros i Hi; apply Hf, elem_of_app; by left). by rewrite app_assoc, <- H1.
  - rewrite filter_grow by (intros i Hi; apply Hf, elem_of_app; by right). by rewrite app_assoc, <- H2.
  - assert (P : (nd_ordinary n ++ o) ++ nd_control n ++ k ≡ₚ (nd_ordinary n ++ nd_control n) ++ (o ++ k)) by solve_Permutation.
    rewrite P. apply NoDup_app. split_and!; [done| |done]. intros i Hi Hi'. by destruct (Hf i Hi').
  - transitivity ((taken (nd_seq n) (nd_worker n) ++ (qc_id <$> sq_commands (nd_seq n)) ++ (qc_id <$> batch_commands (sq_controls (nd_seq n)))) ++ (o ++ k));
      [solve_Permutation|]. rewrite H4. solve_Permutation.
  - intros i Hi. assert (Hcase : i ∈ nd_ordinary n ++ nd_control n \/ i ∈ o ++ k) by set_solver.
    destruct Hcase as [Hi'|Hi']; [specialize (H5 i Hi'); lia|by apply Hnew].
Qed.

Lemma order_frame n s' : order_ok n -> sq_commands s' = sq_commands (nd_seq n) -> sq_controls s' = sq_controls (nd_seq n) ->
  sq_replies s' = sq_replies (nd_seq n) -> (sq_next (nd_seq n) <= sq_next s')%nat ->
  order_ok (mkNode s' (nd_worker n) (nd_ordinary n) (nd_control n)).
Proof.
  intros Hok E1 E2 E3 E4. rewrite <- (app_nil_r (nd_ordinary n)), <- (app_nil_r (nd_control n)).
  apply order_admit; try done; rewrite ?E1, ?E2, ?app_nil_r; try done; [constructor|]. intros i Hi. by apply elem_of_nil in Hi.
Qed.

Lemma order_step n n' : node_step n n' -> failure_ok (nd_seq n) -> order_ok n -> order_ok n'.
Proof.
  intros Hs Hf Hok. destruct Hs as [s w o k c id s' Hc Hs|s w o k c e s' Hs|s w o k cs ids s' Hc Hs|s w o k cs e s' Hs|s w o k|s w o k e|s w o k bus world|s w o k control s' w' Hr];
    cbn [nd_seq] in *.
  - destruct (Submit_cases _ _ _ _ Hs) as (-> & _ & _ & _ & _ & ->). rewrite <- (app_nil_r k).
    apply (order_admit (mkNode s w o k)); cbn [nd_seq nd_worker nd_ordinary nd_control set_queue sq_replies sq_commands sq_controls sq_next]; try done; try lia.
    + rewrite app_nil_r. apply NoDup_singleton.
    + rewrite app_nil_r. intros i ->%list_elem_of_singleton. lia.
    + by rewrite fmap_app.
    + by rewrite app_nil_r.
  - destruct (Submit_cases _ _ _ _ Hs) as (E & ?). rewrite E. by apply (order_frame (mkNode s w o k)).
  - destruct (control_cases _ _ _ _ Hs) as (-> & _ & _ & _ & _ & _ & ->). rewrite <- (app_nil_r o).
    destruct (number_from_spec (sq_next s) cs) as [_ N2].
    apply (order_admit (mkNode s w o k)); cbn [nd_seq nd_worker nd_ordinary nd_control set_controls sq_replies sq_commands sq_controls sq_next app]; try done; try lia.
    + apply NoDup_seq.
    + intros i Hi%elem_of_seq. lia.
    + by rewrite app_nil_r.
    + rewrite batch_commands_app, fmap_app. f_equal. unfold batch_commands. cbn. by rewrite app_nil_r.
  - destruct (control_cases _ _ _ _ Hs) as (E & ?). rewrite E. by apply (order_frame (mkNode s w o k)).
  - by apply (order_frame (mkNode s w o k)).
  - destruct (fail_ok s (Some e) Hf) as ([M1 M2 _ M4 _] & _ & K3 & _). apply (order_frame (mkNode s w o k)); try done. by rewrite M4.
  - by apply (order_frame (mkNode s w o k)).
  - destruct (worker_order _ _ _ _ _ Hr Hf) as (En & x & y & Et & E1 & E2). destruct Hok as [H1 H2 H3 H4 H5]. cbn [nd_seq nd_worker nd_ordinary nd_control] in *.
    apply NoDup_app in H3 as Hd. destruct Hd as (_ & Hd & _).
    assert (Hx : forall i, i ∈ x -> i ∈ o) by (intros i Hi; rewrite H1, E1; set_solver).
    assert (Hy : forall i, i ∈ y -> i ∈ k) by (intros i Hi; rewrite H2, E2; set_solver).
    constructor; cbn [nd_seq nd_worker nd_ordinary nd_control]; rewrite ?Et, ?En; try done.
    + rewrite !filter_app, (list_filter_all _ x) by done. rewrite (list_filter_none _ y) by (intros i Hi Hi'; by apply (Hd i Hi'), Hy).
      rewrite app_nil_r, <- app_assoc, <- E1. exact H1.
    + rewrite !filter_app, (list_filter_all _ y) by done. rewrite (list_filter_none _ x) by (intros i Hi Hi'; by apply (Hd i (Hx i Hi))).
      cbn [app]. rewrite <- app_assoc, <- E2. exact H2.
    + rewrite <- H4, E1, E2. solve_Permutation.
Qed.

(** *** After a failure *)

(** The command that passed the failure check and was not answered yet. *)
Definition in_hand (w : worker) : option (queued * Phase Value) :=
  match w with
  | Executing Dequeued _ _ _ => None
  | Executing ph (q :: _) _ _ => Some (q, ph)
  | _ => None
  end.

#[local] Abbreviation replies := (list (nat * result (CommandCompletion Value) SequencerError)).

(** What may still happen once the sequencer failed with [e]: the command in hand
    goes on, and every other one is answered with [e]. *)
Inductive settles (e : SequencerError) : option (queued * Phase Value) -> pub -> replies -> pub -> Prop :=
  | settles_wait h p p' : same_state p p' -> settles e h p [] p'
  | settles_refuse p p' more : same_state p p' -> Forall (fun r => r.2 = Err e) more -> settles e None p more p'
  | settles_execute q p p1 g o p' more : same_state p p1 -> execute (qc_command q) p1 g = Some o ->
      settles e (Some (q, Executed (oc_fail o) (oc_reply o))) (oc_pub o) more p' -> settles e (Some (q, Checked)) p more p'
  | settles_report q f r p p' more : settles e (Some (q, Reported r)) p more p' -> settles e (Some (q, Executed f r)) p more p'
  | settles_reply q r p p' more : settles e None p more p' -> settles e (Some (q, Reported r)) p ((qc_id q, r) :: more) p'.

Lemma settles_same e h p p1 p' more : same_state p p1 -> settles e h p1 more p' -> settles e h p more p'.
Proof.
  intros Hs H. revert p Hs. induction H as [h p1 p2 S1|p1 p2 more S1 Hm|q p1 p2 g o p3 more S1 X Hx _|q f r p1 p2 more _ IH|q r p1 p2 more _ IH]; intros p Hs.
  - apply settles_wait. by etrans.
  - apply settles_refuse; [by etrans|done].
  - eapply settles_execute; [by etrans|exact X|exact Hx].
  - apply settles_report. auto.
  - apply settles_reply. auto.
Qed.

Lemma settles_cons e q p more p' : settles e None p more p' -> settles e None p ((q, Err e) :: more) p'.
Proof. intros H. inversion H; subst; apply settles_refuse; try done; by constructor. Qed.

(** A step of a failed sequencer. *)
Lemma failed_step n n' e more p' : node_step n n' -> failure_ok (nd_seq n) -> sq_failure (nd_seq n) = Some e -> sq_accepting (nd_seq n) = false ->
  settles e (in_hand (nd_worker n')) (sq_pub (nd_seq n')) more p' ->
  sq_failure (nd_seq n') = Some e /\ nd_ordinary n' = nd_ordinary n /\ nd_control n' = nd_control n /\
  exists new, sq_replies (nd_seq n') = sq_replies (nd_seq n) ++ new /\
    settles e (in_hand (nd_worker n)) (sq_pub (nd_seq n)) (new ++ more) p'.
Proof.
  intros Hs Hf He Ha Hset.
  assert (Hsame : sq_failure (nd_seq n') = sq_failure (nd_seq n) -> nd_ordinary n' = nd_ordinary n -> nd_control n' = nd_control n ->
    in_hand (nd_worker n') = in_hand (nd_worker n) -> sq_replies (nd_seq n') = sq_replies (nd_seq n) ->
    same_state (sq_pub (nd_seq n)) (sq_pub (nd_seq n')) ->
    sq_failure (nd_seq n') = Some e /\ nd_ordinary n' = nd_ordinary n /\ nd_control n' = nd_control n /\
    exists new, sq_replies (nd_seq n') = sq_replies (nd_seq n) ++ new /\
      settles e (in_hand (nd_worker n)) (sq_pub (nd_seq n)) (new ++ more) p').
  { intros E1 E2 E3 E4 E5 E6. split_and!; [congruence|done..|]. exists []. rewrite app_nil_r. split; [done|].
    rewrite <- E4. by eapply settles_same. }
  destruct Hs as [s w o k c id s' Hc Hs|s w o k c x s' Hs|s w o k cs ids s' Hc Hs|s w o k cs x s' Hs|s w o k|s w o k x|s w o k bus world|s w o k control s' w' Hr];
    cbn [nd_seq nd_worker nd_ordinary nd_control] in *.
  - destruct (Submit_cases _ _ _ _ Hs) as (_ & _ & Hacc & _). congruence.
  - destruct (Submit_cases _ _ _ _ Hs) as (E & _). apply Hsame; try done; by rewrite E.
  - destruct (control_cases _ _ _ _ Hs) as (_ & _ & _ & Hacc & _). congruence.
  - destruct (control_cases _ _ _ _ Hs) as (E & _). apply Hsame; try done; by rewrite E.
  - by apply Hsame.
  - destruct (fail_ok s (Some x) Hf) as (_ & _ & _ & _ & _ & K6). rewrite (K6 e He) in *. by apply Hsame.
  - by apply Hsame.
  - destruct w as [c k'|q c k'|b c k'|ph [|q l] c k'|]; cbn [Sequencer.run_step] in Hr.
    1-3: repeat case_match; simplify_eq; by apply Hsame.
    1: { injection Hr as <- <-. apply Hsame; try done. by destruct ph. }
    2: done.
    apply bind_Some in Hr as ([s1 next] & Hr & [= <- <-]).
    destruct ph as [| |f r|r]; cbn [executeAndReply in_hand] in *.
    + rewrite He in Hr. injection Hr as <- <-. split_and!; try done. exists [(qc_id q, Err e)]. split; [done|]. by apply settles_cons.
    + apply bind_Some in Hr as (x & Hx & [= <- <-]). split_and!; try done. exists []. rewrite app_nil_r. split; [done|].
      by eapply settles_execute.
    + injection Hr as <- <-. destruct (fail_ok s f Hf) as (_ & _ & _ & _ & _ & K6). rewrite (K6 e He) in *. split_and!; try done.
      exists []. rewrite app_nil_r. split; [done|]. by apply settles_report.
    + injection Hr as <- <-. split_and!; try done. exists [(qc_id q, r)]. split; [done|]. by apply settles_reply.
Qed.

(** ** The running sequencer *)

Section Serving.
Context (state : StateVersion) (ring : StateRing) (w0 : W) (log0 : list StateEvent) (p0 : pub) (g0 : G).
Context (Hring : ring_reach json_Valid json_Marshal ring log0) (Hstate : is_u64 (number state)).
Context (Hnew : NewStatePublication state ring w0 = Ok p0).

Definition boot : Node := mkNode (NewPostCommitSequencer p0 g0) (Idle true true) [] [].

(** When the publication must be free: while a command is about to be executed,
    and as long as nothing failed or is about to. *)
Definition must_be_free (s : sequencer) (w : worker) : Prop :=
  match w with
  | Executing Checked (_ :: _) _ _ => True
  | Executing (Executed (Some _) _) (_ :: _) _ _ => False
  | _ => sq_failure s = None
  end.

(** The publication is in a run of its own protocol, and free between commands. *)
Definition publication_run (s : sequencer) (w : worker) : Prop :=
  exists held pubs, rtc pstep (p0, None, []) (sq_pub s, held, pubs) /\ (must_be_free s w -> held = None).

Record node_ok (n : Node) : Prop := {
  no_queue : queue_ok (nd_seq n) (nd_worker n);
  no_order : order_ok n;
  no_pub : publication_run (nd_seq n) (nd_worker n)
}.

Lemma queue_failure s w : queue_ok s w -> failure_ok s.
Proof. by intros []. Qed.

Lemma publication_frame s w s' w' : publication_run s w -> (must_be_free s' w' -> must_be_free s w) -> sq_pub s' = sq_pub s ->
  publication_run s' w'.
Proof. intros (held & pubs & Hrun & Hheld) H1 H2. exists held, pubs. rewrite H2. auto. Qed.

Lemma free_failed s w e : failure_ok s -> must_be_free (fail s e) w -> must_be_free s w.
Proof.
  intros Hf. destruct (fail_ok s e Hf) as (_ & _ & _ & _ & K5 & K6). unfold must_be_free.
  assert (H : sq_failure (fail s e) = None -> sq_failure s = None).
  { destruct (sq_failure s) as [f|] eqn:Hs; [|done]. by rewrite (K6 f eq_refl), Hs. }
  destruct w as [| | |[| |[|] ?|?] [|? ?]|]; auto.
Qed.

(** A step of the worker on the command it holds. *)
Lemma answer_ok s q ph l c k : failure_ok s -> publication_run s (Executing ph (q :: l) c k) -> command_ok (qc_command q) ->
  exists s' next, executeAndReply json_Valid json_Marshal json_user idNext s q ph = Some (s', next) /\
    publication_run s' (match next with Some ph => Executing ph (q :: l) c k | None => Executing Dequeued l c k end).
Proof.
  intros Hf Hrun Hc. destruct ph as [| |f r|r]; cbn [executeAndReply].
  - destruct (sq_failure s) as [f|] eqn:Hfail; eexists _, _; (split; [done|]); (eapply publication_frame; [exact Hrun| |done]); cbn; congruence.
  - destruct Hrun as (held & pubs & Hrun & Hheld). specialize (Hheld I). subst held.
    pose proof (pub_reachable_ok _ _ _ _ _ _ _ _ _ Hring Hstate Hnew Hrun) as Hok.
    destruct (execute_ok state log0 (qc_command q) (sq_pub s) pubs (sq_gen s) Hok (Hc (sq_pub s))) as (o & Ho & [(held' & pubs' & O1 & O1') _]).
    rewrite Ho. cbn [mbind option_bind]. eexists _, _. split; [done|]. exists held', pubs'. split; [by etrans|].
    cbn [must_be_free]. destruct (oc_fail o); [done|]. by intros _; apply O1'.
  - eexists _, _. split; [done|]. destruct (fail_ok s f Hf) as (_ & _ & _ & Ep & K5 & K6). eapply publication_frame; [exact Hrun| |exact Ep].
    cbn [must_be_free]. destruct f as [f|]; [|done]. destruct (sq_failure s) as [f'|] eqn:Hfail; [by rewrite (K6 f' eq_refl), Hfail|by rewrite (K5 eq_refl)].
  - eexists _, _. split; [done|]. by eapply publication_frame.
Qed.

Lemma worker_node_step_ok n n' : node_step n n' -> node_ok n -> node_ok n'.
Proof.
  intros Hs [N1 N2 N3]. pose proof (queue_failure _ _ N1) as Hf.
  constructor; [by eapply queue_step|by eapply order_step|].
  destruct Hs as [s w o k c id s' Hc Hs|s w o k c e s' Hs|s w o k cs ids s' Hc Hs|s w o k cs e s' Hs|s w o k|s w o k e|s w o k bus world|s w o k control s' w' Hr];
    cbn [nd_seq nd_worker] in *.
  - destruct (Submit_cases _ _ _ _ Hs) as (_ & _ & _ & _ & _ & ->). by eapply publication_frame.
  - destruct (Submit_cases _ _ _ _ Hs) as (-> & _). by eapply publication_frame.
  - destruct (control_cases _ _ _ _ Hs) as (_ & _ & _ & _ & _ & _ & ->). by eapply publication_frame.
  - destruct (control_cases _ _ _ _ Hs) as (-> & _). by eapply publication_frame.
  - by eapply publication_frame.
  - eapply publication_frame; [exact N3|by apply free_failed|]. by destruct (fail_ok s (Some e) Hf) as (_ & _ & _ & Ep & _).
  - destruct N3 as (held & pubs & Hrun & Hheld). exists held, pubs. cbn [env set_state sq_pub]. split; [|exact Hheld].
    eapply rtc_r; [eapply rtc_r; [exact Hrun|apply ps_bus]|apply ps_world].
  - destruct w as [c k'|q c k'|b c k'|ph [|q l] c k'|]; cbn [Sequencer.run_step] in Hr; [| | | | |done].
    1-3: repeat case_match; simplify_eq; by eapply publication_frame.
    + injection Hr as <- <-. destruct N3 as (held & pubs & Hrun & Hheld). exists held, pubs. split; [done|]. intros Hn. apply Hheld.
      by destruct ph as [| |[|] ?|?].
    + apply bind_Some in Hr as ([s1 next] & Hr & [= <- <-]).
      destruct (answer_ok s q ph l c k' Hf N3) as (s2 & next2 & Hs2 & H2); [apply (Forall_inv (qo_valid _ _ N1))|].
      rewrite Hr in Hs2. injection Hs2 as <- <-. exact H2.
Qed.

Lemma sequencer_boot_ok : node_ok boot.
Proof.
  constructor.
  - constructor; cbn; try done; constructor.
  - constructor; cbn; try done; [constructor|]. intros i Hi. by apply elem_of_nil in Hi.
  - exists None, []. cbn. split; [apply rtc_refl|done].
Qed.

Lemma sequencer_reachable_ok n : rtc node_step boot n -> node_ok n.
Proof. intros H. pose proof sequencer_boot_ok as H0. induction H; eauto using worker_node_step_ok. Qed.

(** admission is exactly bounded.  In every reachable state the admitted
    bytes of each queue are those of its waiting commands and of the one the
    worker just took, at most 4 MiB; at most 1024 commands and 1024 control items
    of at most 64 commands wait; ordinary work never uses control capacity. *)
Theorem admission_bounded n : rtc node_step boot n ->
  sq_queuedBytes (nd_seq n) = bytes_of (owed_command (nd_worker n) ++ sq_commands (nd_seq n)) /\
  sq_controlBytes (nd_seq n) = batch_bytes (owed_batch (nd_worker n) ++ sq_controls (nd_seq n)) /\
  sq_queuedBytes (nd_seq n) <= 4194304 /\ sq_controlBytes (nd_seq n) <= 4194304 /\
  len (sq_commands (nd_seq n)) <= 1024 /\ len (sq_controls (nd_seq n)) <= 1024 /\
  Forall (fun b => len (cb_commands b) <= 64) (sq_controls (nd_seq n)).
Proof.
  intros [[H1 H2 (H3 & H4 & H5 & H6) H7 _ _ _ _] _ _]%sequencer_reachable_ok.
  unfold MaxSequencerQueueBytes, MaxSequencerQueueItems, MaxControlTeardownQueueItems, MaxControlPlansPerItem in *. cbn in H3, H4.
  split_and!; try done. apply Forall_app in H7 as [_ H7]. eapply Forall_impl; [exact H7|]. by intros b [_ ?].
Qed.

(** C35: every admitted command is answered exactly once, in order.  The answers
    sent so far, then the work the worker holds, then each queue, are exactly the
    admitted commands in the order of their admission; none is answered twice;
    the worker never blocks except when both queues are empty and open; and when
    it has exited every admitted command was answered. *)
Theorem commands_answered n : rtc node_step boot n ->
  nd_ordinary n = filter (fun i => i ∈ nd_ordinary n) (taken (nd_seq n) (nd_worker n)) ++ (qc_id <$> sq_commands (nd_seq n)) /\
  nd_control n = filter (fun i => i ∈ nd_control n) (taken (nd_seq n) (nd_worker n)) ++ (qc_id <$> batch_commands (sq_controls (nd_seq n))) /\
  NoDup (sq_replies (nd_seq n)).*1 /\
  ((forall control, run_step (nd_seq n) (nd_worker n) control = None) ->
     nd_worker n = Done \/ (sq_closed (nd_seq n) = false /\ sq_commands (nd_seq n) = [] /\ sq_controls (nd_seq n) = [])) /\
  (nd_worker n = Done -> forall i, i ∈ nd_ordinary n ++ nd_control n -> i ∈ (sq_replies (nd_seq n)).*1).
Proof.
  intros Hn%sequencer_reachable_ok. pose proof Hn as [[_ _ _ _ Hv _ _ [Hf1 Hf2]] [O1 O2 O3 O4 _] Hpub]. split_and!; try done.
  - rewrite <- O4 in O3. apply NoDup_app in O3 as [O3 _]. unfold taken in O3. by apply NoDup_app in O3 as [? _].
  - intros Hb. destruct n as [s w o k]. cbn [nd_seq nd_worker] in *. pose proof (Hb true) as B1. pose proof (Hb false) as B2.
    destruct w as [c k'|q c k'|b c k'|ph [|q l] c k'|]; cbn [Sequencer.run_step] in B1, B2; try done; [| |by left].
    + destruct c, k'; cbn [negb andb flags fst snd] in *; try done;
        [|destruct (Hf2 eq_refl) as [Hcl _]; rewrite Hcl in B2|destruct (Hf1 eq_refl) as [Hcl _]; rewrite Hcl in B1];
        repeat case_match; try done. right. by split_and!.
    + destruct (answer_ok s q ph l c k') as (s' & next & Hs' & _); [by apply (queue_failure _ (Executing ph (q :: l) c k')), Hn|done|apply (Forall_inv Hv)|].
      rewrite Hs' in B1. done.
  - intros Hd i Hi. rewrite <- O4 in Hi. destruct n as [s w o k]. cbn [nd_seq nd_worker] in *. subst w. cbn [flags fst snd] in *.
    destruct (Hf1 eq_refl) as [_ E1]. destruct (Hf2 eq_refl) as [_ E2]. rewrite E1, E2 in Hi. cbn in Hi. unfold taken in Hi. cbn in Hi. set_solver.
Qed.

(** What [settles] allows, by the command in hand when the sequencer failed. *)
Lemma settles_spec e h p more p' : settles e h p more p' -> match h with
  | None => same_state p p' /\ Forall (fun r => r.2 = Err e) more
  | Some (q, ph) => (more = [] /\ same_state p p') \/
      exists r rest, (more = [] \/ more = (qc_id q, r) :: rest) /\ Forall (fun r => r.2 = Err e) rest /\
        match ph with
        | Checked => exists p1 g o, same_state p p1 /\ execute (qc_command q) p1 g = Some o /\ same_state (oc_pub o) p' /\ r = oc_reply o
        | Executed _ r' | Reported r' => same_state p p' /\ r = r'
        | Dequeued => False
        end
  end.
Proof.
  induction 1 as [h p p' S1|p p' more S1 Hm|q p p1 g o p' more S1 X _ IH|q f r p p' more _ IH|q r p p' more _ IH].
  - destruct h as [[q ph]|]; [by left|]. by split; [|constructor].
  - done.
  - right. destruct IH as [[-> IH]|(r & rest & Hm & He & IH & ->)].
    + exists (oc_reply o), []. split; [by left|]. split; [constructor|]. by exists p1, g, o.
    + exists (oc_reply o), rest. split_and!; try done. by exists p1, g, o.
  - exact IH.
  - destruct IH as [IH1 IH2]. right. exists r, more. split; [by right|]. by split.
Qed.

(** C36: a failure stops the sequencer, whoever reports it and whenever.  From then
    on the supervisor has been told exactly once, nothing is admitted, and every
    command still waiting is answered with that failure.  The only command that
    is not is the one that had passed the failure check: it is executed at most
    once and answered with its own outcome, and nothing but that outcome is
    published; without such a command neither version nor ring change. *)
Theorem failure_stops n n' e : rtc node_step boot n -> sq_failure (nd_seq n) = Some e -> rtc node_step n n' ->
  sq_fatal (nd_seq n') = [e] /\ sq_accepting (nd_seq n') = false /\ nd_ordinary n' = nd_ordinary n /\ nd_control n' = nd_control n /\
  exists more, sq_replies (nd_seq n') = sq_replies (nd_seq n) ++ more /\
    match in_hand (nd_worker n) with
    | None => same_state (sq_pub (nd_seq n)) (sq_pub (nd_seq n')) /\ Forall (fun r => r.2 = Err e) more
    | Some (q, ph) => (more = [] /\ same_state (sq_pub (nd_seq n)) (sq_pub (nd_seq n'))) \/
        exists r rest, (more = [] \/ more = (qc_id q, r) :: rest) /\ Forall (fun r => r.2 = Err e) rest /\
          match ph with
          | Checked => exists p1 g o, same_state (sq_pub (nd_seq n)) p1 /\ execute (qc_command q) p1 g = Some o /\
              same_state (oc_pub o) (sq_pub (nd_seq n')) /\ r = oc_reply o
          | Executed _ r' | Reported r' => same_state (sq_pub (nd_seq n)) (sq_pub (nd_seq n')) /\ r = r'
          | Dequeued => False
          end
    end.
Proof.
  intros Hn%sequencer_reachable_ok He Hs.
  assert (Hinv : sq_failure (nd_seq n') = Some e /\ nd_ordinary n' = nd_ordinary n /\ nd_control n' = nd_control n /\
    exists more, sq_replies (nd_seq n') = sq_replies (nd_seq n) ++ more /\
      settles e (in_hand (nd_worker n)) (sq_pub (nd_seq n)) more (sq_pub (nd_seq n'))).
  { induction Hs as [n|n n1 n2 Hs _ IH]; [split_and!; try done; exists []; rewrite app_nil_r; split; [done|]; by apply settles_wait|].
    pose proof (no_queue _ Hn) as Hq. pose proof (queue_failure _ _ Hq) as Hf. pose proof (worker_node_step_ok _ _ Hs Hn) as Hn1.
    pose proof Hf as [F1 F2]. rewrite He in F1. destruct F1 as [F1 F1']. specialize (F2 F1').
    destruct (failed_step n n1 e [] (sq_pub (nd_seq n1)) Hs Hf He F2 (settles_wait _ _ _ _ (reflexivity _))) as (E1 & _).
    destruct (IH Hn1 E1) as (I1 & I2 & I3 & more' & I5 & I6).
    destruct (failed_step n n1 e more' (sq_pub (nd_seq n2)) Hs Hf He F2 I6) as (_ & E2 & E3 & new & E5 & E6).
    split_and!; [done|congruence|congruence|]. exists (new ++ more'). rewrite I5, E5, app_assoc. by split. }
  destruct Hinv as (E1 & E2 & E3 & more & E5 & E6).
  assert (Hn' : node_ok n') by (clear He E1 E2 E3 E5 E6; induction Hs; eauto using worker_node_step_ok).
  destruct (queue_failure _ _ (no_queue _ Hn')) as [F1 F2]. rewrite E1 in F1. destruct F1 as [F1 F1']. split_and!; try done; [by apply F2|].
  exists more. split; [done|]. by apply settles_spec.
Qed.
End Serving.
End Commands.
Arguments Node C W G Value : clear implicits.

(** ** Examples *)

#[local] Existing Instance EventBusProps.ex_prims.
#[local] Existing Instance PublicationProps.ex_pprims.
#[local] Abbreviation conn := EventBusProps.webSocketSyncConnection.

Definition ex_next (g : Z) : result Z unit * Z := (Ok (g + 1), g + 1).
Definition ex_json_user (_ : SnapshotUserPresence) : option bytes := Some [1].
Definition ex_output : CommandOutput unit Z := mkOutput 5 None None.

(** A command that opens group 1 to everyone in one transaction. *)
Definition ex_script (tx : Tx) : Script conn unit Z :=
  Look (fun base v =>
    Invoke (CallReserve 0 (mkRequest (Some (base, mkVersion (u64 (number v + 1)) (checkpoint v) (ex_state "public") (runtime v))) [ex_template] [7] None))
      (fun _ => Invoke (CallCommit tx) (fun _ => Return ex_output))).
Definition ex_command (tx : Tx) : PostCommitCommand conn unit Z := mkCommand 100 0 None (fun _ => ex_script tx) false false false.

Lemma ex_command_ok tx : command_ok (ex_command tx).
Proof. intros p id. cbn. split; [|done]. intros base cand [= <- <-] _. by split_and!. Qed.

Definition ex_execute (c : PostCommitCommand conn unit Z) : option (Outcome conn unit Z Z) :=
  Sequencer.execute ok_json ok_marshal ex_json_user ex_next c ex_pub 0.


(** The same command marked a no-op first. *)
Definition ex_noop_command : PostCommitCommand conn unit Z :=
  mkCommand 100 0 None (fun _ => Invoke CallMarkNoop (fun _ => ex_script TxCommitted)) false false false.

(** a no-op that commits is lost.  The execution accepts a reservation and a
    commit after [MarkNoop]; the transaction is then durable, but the command is
    answered with an ordinary error, nothing is published and the sequencer does
    not fail. *)
Theorem noop_commit_lost : exists o, ex_execute ex_noop_command = Some o /\ ce_persistent (oc_execution o) = true /\
  oc_reply o = Err ErrCommandNotCommitted /\ oc_fail o = None /\ pb_current (oc_pub o) = pb_current ex_pub /\ pb_locked (oc_pub o) = false.
Proof.
  destruct (ex_execute ex_noop_command) as [o|] eqn:Ho; [|by vm_compute in Ho]. exists o. split; [done|].
  assert (E : (fun o => (ce_persistent (oc_execution o), oc_reply o, oc_fail o, pb_current (oc_pub o), pb_locked (oc_pub o))) <$>
    ex_execute ex_noop_command = Some (true, Err ErrCommandNotCommitted, None, pb_current ex_pub, false)) by (vm_compute; reflexivity).
  rewrite Ho in E. injection E as E1 E2 E3 E4 E5. by split_and!.
Qed.

#[local] Abbreviation ex_step := (node_step ok_json ok_marshal ex_json_user ex_next).
Definition ex_boot : Node conn unit Z Z := boot ex_pub 0.

(** One command admitted, and taken by the worker. *)
Definition ex_admitted : Node conn unit Z Z :=
  mkNode (Submit (nd_seq ex_boot) (ex_command TxCommitted)).2 (Idle true true) [0%nat] [].
Definition ex_taken : Node conn unit Z Z :=
  mkNode (set_queue (nd_seq ex_admitted) [] 100 1) (GotCommand (mkQueued 0 (ex_command TxCommitted)) true true) [0%nat] [].

Lemma ex_admitted_run : rtc ex_step ex_boot ex_admitted.
Proof. apply rtc_once. apply (nd_submit _ _ _ _ _ _ [] [] (ex_command TxCommitted) 0%nat); [apply ex_command_ok|reflexivity]. Qed.
Lemma ex_taken_run : rtc ex_step ex_boot ex_taken.
Proof. eapply rtc_r; [exact ex_admitted_run|]. by apply (nd_run _ _ _ _ _ _ _ _ false). Qed.

Lemma admission_bounded_witness : sq_queuedBytes (nd_seq ex_taken) = 100 /\ len (sq_commands (nd_seq ex_taken)) <= 1024.
Proof.
  destruct (admission_bounded ok_json ok_marshal ex_json_user ex_next ex_before ex_ring tt [] ex_pub 0
    ex_ring_reach ltac:(split; by vm_compute) eq_refl ex_taken ex_taken_run) as (H1 & _ & _ & _ & H2 & _).
  split; [rewrite H1; reflexivity|exact H2].
Defined.

Lemma commands_answered_witness : nd_ordinary ex_taken = [0%nat] /\
  nd_ordinary ex_taken = filter (fun i => i ∈ nd_ordinary ex_taken) (taken (nd_seq ex_taken) (nd_worker ex_taken)) ++ [].
Proof.
  destruct (commands_answered ok_json ok_marshal ex_json_user ex_next ex_before ex_ring tt [] ex_pub 0
    ex_ring_reach ltac:(split; by vm_compute) eq_refl ex_taken ex_taken_run) as (H1 & _).
  split; [reflexivity|exact H1].
Defined.

(** A second command waits and the supervisor fails the sequencer while the first,
    which has passed the check, is about to be executed. *)
Definition ex_checked : Node conn unit Z Z :=
  mkNode (set_queue (nd_seq ex_admitted) [] 0 1) (Executing Checked [mkQueued 0 (ex_command TxCommitted)] true true) [0%nat] [].
Definition ex_second : Node conn unit Z Z :=
  mkNode (Submit (nd_seq ex_checked) (ex_command TxCommitted)).2 (nd_worker ex_checked) [0%nat; 1%nat] [].
Definition ex_failed : Node conn unit Z Z := mkNode (fail (nd_seq ex_second) (Some ErrTx)) (nd_worker ex_second) [0%nat; 1%nat] [].

Lemma ex_failed_run : rtc ex_step ex_boot ex_failed.
Proof.
  eapply rtc_r; [eapply rtc_r; [eapply rtc_r; [eapply rtc_r; [exact ex_taken_run|]|]|]|].
  - by apply (nd_run _ _ _ _ _ _ _ _ false).
  - by apply (nd_run _ _ _ _ _ _ _ _ false (nd_seq ex_checked) (nd_worker ex_checked)).
  - apply (nd_submit _ _ _ _ _ _ [0%nat] [] (ex_command TxCommitted) 1%nat); [apply ex_command_ok|reflexivity].
  - apply nd_fail.
Qed.

(** The worker alone, for [k] steps. *)
Fixpoint ex_work (k : nat) (n : Node conn unit Z Z) : option (Node conn unit Z Z) :=
  match k with
  | O => Some n
  | S k => '(s, w) ← Sequencer.run_step ok_json ok_marshal ex_json_user ex_next (nd_seq n) (nd_worker n) false;
           ex_work k (mkNode s w (nd_ordinary n) (nd_control n))
  end.

Lemma ex_work_run k n n' : ex_work k n = Some n' -> rtc ex_step n n'.
Proof.
  revert n. induction k as [|k IH]; intros n; cbn [ex_work]; [intros [= ->]; apply rtc_refl|].
  intros ([s w] & Hs & Hr)%bind_Some. eapply rtc_l; [|exact (IH _ Hr)]. destruct n as [s0 w0 o0 k0]. by apply (nd_run _ _ _ _ _ _ _ _ false).
Qed.

(** The first command is still published and answered; the second gets the failure. *)
Lemma ex_drained_run : exists n, rtc ex_step ex_failed n /\ number (pb_current (sq_pub (nd_seq n))) = 2 /\
  (fun r => match r.2 with Ok _ => None | Err e => Some e end) <$> sq_replies (nd_seq n) = [None; Some ErrTx].
Proof.
  assert (E : (fun n => (number (pb_current (sq_pub (nd_seq n))),
    (fun r => match r.2 with Ok _ => None | Err e => Some e end) <$> sq_replies (nd_seq n))) <$> ex_work 7 ex_failed = Some (2, [None; Some ErrTx]))
    by (vm_compute; reflexivity).
  destruct (ex_work 7 ex_failed) as [n|] eqn:Hn; [|discriminate E]. injection E as E1 E2.
  exists n. split; [by eapply ex_work_run|]. by split.
Qed.

Lemma failure_stops_witness : exists n, rtc ex_step ex_failed n /\ sq_fatal (nd_seq n) = [ErrTx] /\
  number (pb_current (sq_pub (nd_seq n))) = 2 /\
  (fun r => match r.2 with Ok _ => None | Err e => Some e end) <$> sq_replies (nd_seq n) = [None; Some ErrTx].
Proof.
  destruct ex_drained_run as (n & Hn & Hr). exists n. split; [exact Hn|].
  destruct (failure_stops ok_json ok_marshal ex_json_user ex_next ex_before ex_ring tt [] ex_pub 0
    ex_ring_reach ltac:(split; by vm_compute) eq_refl ex_failed n ErrTx ex_failed_run eq_refl Hn) as (H1 & _).
  split; [exact H1|exact Hr].
Defined.

End SequencerProps.
