(* ===== verification/Identity.v ===== *)
(** * Identity: the canonical identity of a command ([realtime/idempotency.go])

    A retried command is recognised by the HMAC of a canonical text of its
    request: the principal, method and route, the path identifiers and
    preconditions in sorted order, the canonical JSON of its body and the control
    connection, each written with its length.  The first-owner activation and
    the registration have texts of their own.  JSON canonicalisation, Unicode
    upper-casing and HMAC-SHA-256 are arguments. *)

From S2P Require Import Prelude State StateRing Strconv Support Snapshot.
From stdpp Require Import base gmap strings list sorting pretty.
From Stdlib Require Import ZArith Lia Ascii String.
#[local] Open Scope string_scope.
#[local] Open Scope list_scope.
#[local] Open Scope Z_scope.

Module Identity.
Import StateRing Etag.

Inductive IdempotencyError :=
  | ErrInvalidIdempotencyKey | ErrInvalidRequestIdentity | ErrIdempotencyMismatch | ErrInvalidCommandResult.

(** ** Tokens *)

Definition code_of (c : ascii) : nat := nat_of_ascii c.
Definition is_lower (c : ascii) : bool := in_range c 97 122.
Definition is_upper (c : ascii) : bool := in_range c 65 90.
Definition is_digit (c : ascii) : bool := in_range c 48 57.

(** The patterns of the source, anchored at both ends. *)
Definition token_char (c : ascii) : bool :=
  is_upper c || is_lower c || is_digit c || bool_decide (c = "_"%char) || bool_decide (c = "-"%char).
Definition hex_char (c : ascii) : bool := is_digit c || in_range c 97 102.
Definition slen (s : string) : Z := Z.of_nat (String.length s).

Definition IdempotencyKeyValid (key : string) : bool :=
  (16 <=? slen key) && (slen key <=? 64) && forallb token_char (chars key).
Definition installationIdentityPattern (s : string) : bool := (slen s =? 32) && forallb hex_char (chars s).
Definition activationCodeHashPattern (s : string) : bool := (slen s =? 64) && forallb hex_char (chars s).

Definition hasControlCharacters (value : string) : bool :=
  existsb (fun c => bool_decide (code_of c = 13%nat) || bool_decide (code_of c = 10%nat)) (chars value).

(** The characters of an HTTP field name besides letters and digits. *)
Definition header_punctuation : list ascii :=
  ["!"; "#"; "$"; "%"; "&"; "'"; "*"; "+"; "-"; "."; "^"; "_"; "`"; "|"; "~"]%char.
Definition header_char (c : ascii) : bool := is_lower c || is_upper c || is_digit c || bool_decide (c ∈ header_punctuation).
Definition validHTTPHeaderName (name : string) : bool := negb (bool_decide (name = "")) && forallb header_char (chars name).

(** [textproto.CanonicalMIMEHeaderKey] on a name of header characters. *)
Fixpoint canonical_key (upper : bool) (s : string) : string :=
  match s with
  | EmptyString => EmptyString
  | String c s =>
      let c := if upper && is_lower c then ascii_of_nat (code_of c - 32)
               else if negb upper && is_upper c then ascii_of_nat (code_of c + 32) else c in
      String c (canonical_key (bool_decide (c = "-"%char)) s)
  end.
Definition CanonicalMIMEHeaderKey (name : string) : string := canonical_key true name.

(** ** Identities *)

Record CanonicalField := mkField { cf_Name : string; cf_Value : string }.
#[global] Instance CanonicalField_eq_dec : EqDecision CanonicalField.
Proof. solve_decision. Defined.

Record HTTPCommandIdentity := mkHTTPIdentity {
  hi_PrincipalID : Z; hi_Method : string; hi_RouteTemplate : string; hi_PathIDs : list CanonicalField;
  hi_CanonicalDTO : string; hi_PreconditionHeaders : list CanonicalField; hi_ControlConnectionID : string
}.
Record InstallationCommandIdentity := mkInstallationIdentity {
  ii_InstallationID : string; ii_ActivationCodeHash : string; ii_Method : string; ii_RouteTemplate : string; ii_CanonicalDTO : string
}.
Record RegistrationCommandIdentity := mkRegistrationIdentity {
  ri_InstallationID : string; ri_Method : string; ri_RouteTemplate : string; ri_CanonicalDTO : string
}.

(** Fields by name, then by value. *)
Definition field_le (a b : CanonicalField) : Prop :=
  if decide (cf_Name a = cf_Name b) then String.le (cf_Value a) (cf_Value b) else String.le (cf_Name a) (cf_Name b).
#[global] Instance field_le_dec : RelDecision field_le.
Proof. intros a b. unfold field_le. destruct (decide _); apply _. Defined.
#[global] Instance field_le_total : Total field_le.
Proof.
  intros a b. unfold field_le. destruct (decide (cf_Name a = cf_Name b)) as [E|E].
  - rewrite decide_True by done. apply (total String.le).
  - rewrite decide_False by congruence. apply (total String.le).
Qed.
#[global] Instance field_le_trans : Transitive field_le.
Proof.
  intros a b c. unfold field_le. intros H1 H2.
  destruct (decide (cf_Name a = cf_Name b)) as [E1|E1], (decide (cf_Name b = cf_Name c)) as [E2|E2].
  - rewrite decide_True by congruence. by etrans.
  - rewrite decide_False by congruence. by rewrite E1.
  - rewrite decide_False by congruence. by rewrite <- E2.
  - destruct (decide (cf_Name a = cf_Name c)) as [E3|E3]; [|by etrans].
    exfalso. apply E1. apply (anti_symm String.le); [done|]. by rewrite E3.
Qed.
#[global] Instance field_le_antisym : AntiSymm (=) field_le.
Proof.
  intros [n1 v1] [n2 v2]. unfold field_le. cbn. destruct (decide (n1 = n2)) as [->|E].
  - rewrite decide_True by done. intros. f_equal. by apply (anti_symm String.le).
  - rewrite decide_False by congruence. intros. exfalso. apply E. by apply (anti_symm String.le).
Qed.

Fixpoint adjacent_names (fields : list CanonicalField) : bool :=
  match fields with
  | a :: (b :: _) as rest => bool_decide (cf_Name a = cf_Name b) || adjacent_names rest
  | _ => false
  end.

Definition field_ok (f : CanonicalField) : bool :=
  negb (bool_decide (cf_Name f = "") || hasControlCharacters (cf_Name f) || hasControlCharacters (cf_Value f)).

Definition canonicalFields (fields : list CanonicalField) : result (list CanonicalField) IdempotencyError :=
  if negb (forallb field_ok fields) then Err ErrInvalidRequestIdentity
  else
    let cloned := merge_sort field_le fields in
    if adjacent_names cloned then Err ErrInvalidRequestIdentity else Ok cloned.

Definition canonical_header (f : CanonicalField) : CanonicalField := mkField (CanonicalMIMEHeaderKey (cf_Name f)) (cf_Value f).

Definition canonicalPreconditionHeaders (headers : list CanonicalField) : result (list CanonicalField) IdempotencyError :=
  if negb (forallb (fun f => validHTTPHeaderName (cf_Name f)) headers) then Err ErrInvalidRequestIdentity
  else canonicalFields (canonical_header <$> headers).

(** ** Texts *)

Definition newline : string := String (ascii_of_nat 10) EmptyString.

(** One part: name and value, each with its length in bytes. *)
Definition appendIdentityPart (name value : string) : string :=
  pretty (slen name) +:+ ":" +:+ name +:+ "=" +:+ pretty (slen value) +:+ ":" +:+ value +:+ newline.

Definition text (parts : list (string * string)) : string :=
  foldr (fun p s => appendIdentityPart p.1 p.2 +:+ s) EmptyString parts.

Section Canonical.
Context (json_canonical : string -> option string) (ToUpper : string -> string).

Definition canonicalJSONValue (raw : string) : option string :=
  if bool_decide (raw = "") then None else json_canonical raw.

Definition route_ok (method route : string) : bool :=
  negb (bool_decide (method = "")) && bool_decide (method = ToUpper method) && negb (bool_decide (route = "")) &&
  negb (256 <? slen route) && negb (hasControlCharacters route).

Definition http_parts (i : HTTPCommandIdentity) (pathIDs preconditions : list CanonicalField) (dto : string) : list (string * string) :=
  [("principal", pretty (hi_PrincipalID i)); ("method", hi_Method i); ("route", hi_RouteTemplate i)] ++
  ((fun f => ("path:" +:+ cf_Name f, cf_Value f)) <$> pathIDs) ++ [("dto", dto)] ++
  ((fun f => ("precondition:" +:+ cf_Name f, cf_Value f)) <$> preconditions) ++ [("control_connection", hi_ControlConnectionID i)].

Definition canonicalHTTPCommandIdentity (i : HTTPCommandIdentity) : result string IdempotencyError :=
  if (hi_PrincipalID i <=? 0) || negb (route_ok (hi_Method i) (hi_RouteTemplate i)) || hasControlCharacters (hi_ControlConnectionID i)
  then Err ErrInvalidRequestIdentity
  else match canonicalJSONValue (hi_CanonicalDTO i) with
       | None => Err ErrInvalidRequestIdentity
       | Some dto =>
           pathIDs <-? canonicalFields (hi_PathIDs i) ;;
           preconditions <-? canonicalPreconditionHeaders (hi_PreconditionHeaders i) ;;
           Ok (text (http_parts i pathIDs preconditions dto))
       end.

Definition canonicalInstallationCommandIdentity (i : InstallationCommandIdentity) : result string IdempotencyError :=
  if negb (installationIdentityPattern (ii_InstallationID i)) || negb (activationCodeHashPattern (ii_ActivationCodeHash i)) ||
     negb (route_ok (ii_Method i) (ii_RouteTemplate i))
  then Err ErrInvalidRequestIdentity
  else match canonicalJSONValue (ii_CanonicalDTO i) with
       | None => Err ErrInvalidRequestIdentity
       | Some dto => Ok (text [("installation", ii_InstallationID i); ("activation_code_hash", ii_ActivationCodeHash i);
                               ("method", ii_Method i); ("route", ii_RouteTemplate i); ("dto", dto)])
       end.

Definition canonicalRegistrationCommandIdentity (i : RegistrationCommandIdentity) : result string IdempotencyError :=
  if negb (installationIdentityPattern (ri_InstallationID i)) || negb (route_ok (ri_Method i) (ri_RouteTemplate i))
  then Err ErrInvalidRequestIdentity
  else match canonicalJSONValue (ri_CanonicalDTO i) with
       | None => Err ErrInvalidRequestIdentity
       | Some dto => Ok (text [("installation", ri_InstallationID i); ("method", ri_Method i); ("route", ri_RouteTemplate i); ("dto", dto)])
       end.

(** ** Signing *)

Context (hmac_sha256 : string -> string -> bytes).

Record RequestIdentitySigner := mkSigner { sg_key : string }.
Definition NewRequestIdentitySigner (key : string) : result RequestIdentitySigner IdempotencyError :=
  if slen key <? 32 then Err ErrInvalidRequestIdentity else Ok (mkSigner key).

Definition sum_text (s : RequestIdentitySigner) (canonical : result string IdempotencyError) : result string IdempotencyError :=
  if slen (sg_key s) <? 32 then Err ErrInvalidRequestIdentity
  else t <-? canonical ;; Ok (Snapshot.hex_bytes (hmac_sha256 (sg_key s) t)).
Definition Sum (s : RequestIdentitySigner) (i : HTTPCommandIdentity) := sum_text s (canonicalHTTPCommandIdentity i).
Definition SumInstallation (s : RequestIdentitySigner) (i : InstallationCommandIdentity) := sum_text s (canonicalInstallationCommandIdentity i).
Definition SumRegistration (s : RequestIdentitySigner) (i : RegistrationCommandIdentity) := sum_text s (canonicalRegistrationCommandIdentity i).

Definition commandEndpoint (i : HTTPCommandIdentity) : string := hi_Method i +:+ " " +:+ hi_RouteTemplate i.

End Canonical.

(** ** Texts are read back uniquely *)

Lemma digits_free n c : 0 <= n -> is_digit c = false -> free c (pretty n) = true.
Proof.
  intros Hn Hc. eapply forallb_impl; [|by apply pretty_digits]. intros d Hd. apply negb_true_iff, bool_decide_eq_false. intros ->. unfold is_digit in Hc. congruence.
Qed.

Lemma append_assoc (a b c : string) : (a +:+ b) +:+ c = a +:+ (b +:+ c).
Proof. induction a as [|x a IH]; [done|]. change (String x ((a +:+ b) +:+ c) = String x (a +:+ (b +:+ c))). by rewrite IH. Qed.

Lemma append_inj_length (a b c d : string) : String.length a = String.length b -> a +:+ c = b +:+ d -> a = b /\ c = d.
Proof.
  revert b. induction a as [|x a IH]; intros [|y b]; try done. intros [= Hl] E.
  change (String x (a +:+ c) = String y (b +:+ d)) in E. injection E as -> E. destruct (IH b Hl E) as [-> ->]. done.
Qed.

(** A length, a colon and that many characters. *)
Lemma sized_inj v w s t : pretty (slen v) +:+ ":" +:+ v +:+ s = pretty (slen w) +:+ ":" +:+ w +:+ t -> v = w /\ s = t.
Proof.
  intros E. apply (split_inj ":"%char) in E as [E1 E2]; [|apply digits_free; [unfold slen; lia|done]..].
  apply (inj pretty) in E1. unfold slen in E1. apply append_inj_length in E2; [done|lia].
Qed.

Lemma part_inj n v n' v' s t : appendIdentityPart n v +:+ s = appendIdentityPart n' v' +:+ t -> n = n' /\ v = v' /\ s = t.
Proof.
  unfold appendIdentityPart. rewrite !append_assoc. intros [-> E]%sized_inj. injection E as E. apply sized_inj in E as [-> E]. by injection E.
Qed.

Lemma part_nonempty n v s : appendIdentityPart n v +:+ s <> EmptyString.
Proof. unfold appendIdentityPart. pose proof (Strconv.format_ne (slen n)) as H. by destruct (pretty (slen n)). Qed.

Lemma text_inj l1 l2 : text l1 = text l2 -> l1 = l2.
Proof.
  revert l2. induction l1 as [|[n v] l1 IH]; intros [|[n' v'] l2]; cbn [text foldr fst snd]; [done| | |].
  - intros E. by destruct (part_nonempty n' v' (text l2)).
  - intros E. by destruct (part_nonempty n v (text l1)).
  - intros (-> & -> & E)%part_inj. f_equal. by apply IH.
Qed.

(** ** Fields *)

Lemma canonicalFields_spec fields cs : canonicalFields fields = Ok cs -> cs ≡ₚ fields /\ StronglySorted field_le cs.
Proof.
  unfold canonicalFields. destruct (negb _); [done|]. destruct (adjacent_names _); [done|]. intros [= <-].
  split; [apply merge_sort_Permutation|apply StronglySorted_merge_sort; apply _].
Qed.

Lemma canonicalFields_perm f g cf cg : canonicalFields f = Ok cf -> canonicalFields g = Ok cg -> cf = cg <-> f ≡ₚ g.
Proof.
  intros [P1 S1]%canonicalFields_spec [P2 S2]%canonicalFields_spec. split.
  - intros ->. by rewrite <- P1, P2.
  - intros P. eapply StronglySorted_unique; [|exact S1|exact S2|]; [apply _|]. by rewrite P1, P2.
Qed.

(** ** Equality of identities *)

Section Exact.
Context (json_canonical : string -> option string) (ToUpper : string -> string).
#[local] Abbreviation canonical := (canonicalHTTPCommandIdentity json_canonical ToUpper).

Definition http_accepted (i : HTTPCommandIdentity) (t : string) : Prop :=
  exists pathIDs preconditions dto, canonicalFields (hi_PathIDs i) = Ok pathIDs /\
    canonicalPreconditionHeaders (hi_PreconditionHeaders i) = Ok preconditions /\
    canonicalJSONValue json_canonical (hi_CanonicalDTO i) = Some dto /\ t = text (http_parts i pathIDs preconditions dto).

Lemma canonical_accepted i t : canonical i = Ok t -> http_accepted i t.
Proof.
  unfold canonicalHTTPCommandIdentity. destruct (_ || _); [done|]. destruct (canonicalJSONValue _ _) as [dto|] eqn:Hd; [|done].
  intros (pathIDs & Hp & H)%rbind_Ok. apply rbind_Ok in H as (pre & Hh & [= <-]). by exists pathIDs, pre, dto.
Qed.

(** Tagged fields end where another part begins. *)
Lemma tagged_fields tag stop v v' (f g : list CanonicalField) r r' : (forall n, tag +:+ n <> stop) ->
  ((fun x => (tag +:+ cf_Name x, cf_Value x)) <$> f) ++ (stop, v) :: r = ((fun x => (tag +:+ cf_Name x, cf_Value x)) <$> g) ++ (stop, v') :: r' ->
  f = g /\ v = v' /\ r = r'.
Proof.
  intros Hs. revert g. induction f as [|[n x] f IH]; intros [|[n' x'] g]; cbn [fmap list_fmap app].
  - by intros [= -> ->].
  - intros [= E _ _]. by destruct (Hs n').
  - intros [= E _ _]. by destruct (Hs n).
  - intros E. injection E as E1 E2 E3. apply append_inj_length in E1 as E1'; [|].
    + destruct E1' as [_ En]. cbn in En. subst. destruct (IH g E3) as (-> & -> & ->). done.
    + done.
Qed.

(** a retry is recognised exactly.  Two requests that both have a canonical
    identity have the same one if and only if their principal, method, route,
    canonical body and control connection agree, and their path identifiers and
    normalised preconditions agree up to order. *)
Theorem identity_exact i j t u : canonical i = Ok t -> canonical j = Ok u ->
  t = u <-> hi_PrincipalID i = hi_PrincipalID j /\ hi_Method i = hi_Method j /\ hi_RouteTemplate i = hi_RouteTemplate j /\
    hi_ControlConnectionID i = hi_ControlConnectionID j /\
    canonicalJSONValue json_canonical (hi_CanonicalDTO i) = canonicalJSONValue json_canonical (hi_CanonicalDTO j) /\
    hi_PathIDs i ≡ₚ hi_PathIDs j /\
    canonical_header <$> hi_PreconditionHeaders i ≡ₚ canonical_header <$> hi_PreconditionHeaders j.
Proof.
  intros (pi & hi & di & P1 & H1 & D1 & ->)%canonical_accepted (pj & hj & dj & P2 & H2 & D2 & ->)%canonical_accepted.
  rewrite <- (canonicalFields_perm _ _ _ _ P1 P2). unfold canonicalPreconditionHeaders in H1, H2.
  destruct (negb _) in H1; [done|]. destruct (negb _) in H2; [done|]. rewrite <- (canonicalFields_perm _ _ _ _ H1 H2).
  rewrite D1, D2. unfold http_parts. split.
  - intros E%text_inj. cbn [app] in E. injection E as E1 E2 E3 E. apply (inj pretty) in E1.
    apply tagged_fields in E as (-> & -> & E); [|by intros n].
    apply tagged_fields in E as (-> & E4 & _); [|by intros n]. done.
  - intros (-> & -> & -> & -> & [= ->] & -> & ->). done.
Qed.

Lemma Ok_eq {A E} (a b : A) : @Ok A E a = Ok b -> b = a.
Proof. by intros [= ->]. Qed.

(** identities of different kinds never coincide.  The text of an
    authenticated command, of an activation and of a registration are distinct,
    whatever the requests. *)
Theorem identity_domains i a r t u v : canonical i = Ok t ->
  canonicalInstallationCommandIdentity json_canonical ToUpper a = Ok u ->
  canonicalRegistrationCommandIdentity json_canonical ToUpper r = Ok v -> t <> u /\ t <> v /\ u <> v.
Proof.
  intros (pi & hi & di & _ & _ & _ & ->)%canonical_accepted. unfold canonicalInstallationCommandIdentity, canonicalRegistrationCommandIdentity.
  destruct (_ || _); [done|]. destruct (canonicalJSONValue _ (ii_CanonicalDTO a)); [|done]. intros Hu%Ok_eq.
  destruct (_ || _); [done|]. destruct (canonicalJSONValue _ (ri_CanonicalDTO r)); [|done]. intros Hv%Ok_eq. subst u v.
  split_and!; intros E%text_inj; discriminate E.
Qed.
End Exact.

(** ** Examples *)

Definition ex_identity (path headers : list CanonicalField) : HTTPCommandIdentity :=
  mkHTTPIdentity 7 "PATCH" "/api/v0/groups/:id" path "{}" headers "".
Definition ex_activation : InstallationCommandIdentity :=
  mkInstallationIdentity "0123456789abcdef0123456789abcdef" "0123456789abcdef0123456789abcdef0123456789abcdef0123456789abcdef" "POST" "/activate" "{}".
Definition ex_registration : RegistrationCommandIdentity :=
  mkRegistrationIdentity "0123456789abcdef0123456789abcdef" "POST" "/register" "{}".

Definition ex_text (r : result string IdempotencyError) : string := match r with Ok t => t | Err _ => EmptyString end.

(** Two requests that differ in the order of their path identifiers and in the
    spelling of a header name. *)
Lemma identity_exact_witness :
  let i := ex_identity [mkField "id" "4"; mkField "channel" "9"] [mkField "if-match" "x"] in
  let j := ex_identity [mkField "channel" "9"; mkField "id" "4"] [mkField "If-Match" "x"] in
  ex_text (canonicalHTTPCommandIdentity Some id i) = ex_text (canonicalHTTPCommandIdentity Some id j).
Proof.
  intros i j.
  apply (identity_exact Some id i j); [vm_compute; reflexivity|vm_compute; reflexivity|].
  repeat (split; [reflexivity|]). split; [apply perm_swap|reflexivity].
Defined.

Lemma identity_domains_witness :
  let t := ex_text (canonicalHTTPCommandIdentity Some id (ex_identity [] [])) in
  let u := ex_text (canonicalInstallationCommandIdentity Some id ex_activation) in
  let v := ex_text (canonicalRegistrationCommandIdentity Some id ex_registration) in t <> u /\ t <> v /\ u <> v.
Proof.
  intros t u v. apply (identity_domains Some id (ex_identity [] []) ex_activation ex_registration); vm_compute; reflexivity.
Defined.

End Identity.
