(* ===== verification/Idempotency.v ===== *)
(** * Idempotency: replay of completed commands ([realtime/runtime_idempotency.go], [realtime/idempotency.go])

    The runtime cache keeps, per principal and retry key, the command in flight
    or its result for two minutes.  Entries are reached through pointers that
    claims keep, so they live in a heap; the insertion-ordered list of the source
    is the list of its keys.  The clock is an argument of each operation.  [None]
    is a nil dereference, shown not to happen.  JSON canonicalisation is an
    argument; the opaque value of a result has any type. *)

From S2P Require Import Prelude State StateRing Support Cursor Identity.
From stdpp Require Import base gmap strings list relations.
From Stdlib Require Import ZArith Lia Ascii.
#[local] Open Scope string_scope.
#[local] Open Scope list_scope.
#[local] Open Scope Z_scope.

Module Idempotency.
Import State StateRing Etag Identity.

Definition RuntimeIdempotencyTTL : Z := 2 * Minute.
Definition MaxRuntimeIdempotencyRecords : Z := 65536.
Definition MaxRuntimeIdempotencyRecordsPerUser : Z := 128.

Inductive RuntimeError :=
  | ErrRuntimeIdempotencyFull | ErrRuntimeIdempotencyAborted | ErrRuntimeIdempotencyOwner | ErrWaitContext
  | ErrIdentity (e : IdempotencyError).

(** ** Digests *)

(** [hex.DecodeString]. *)
Definition hex_digit (c : ascii) : option Z :=
  let n := Z.of_nat (nat_of_ascii c) in
  if is_digit c then Some (n - 48) else if in_range c 97 102 then Some (n - 87) else if in_range c 65 70 then Some (n - 55) else None.
Fixpoint hex_decode (s : string) : option bytes :=
  match s with
  | EmptyString => Some []
  | String _ EmptyString => None
  | String a (String b rest) =>
      match hex_digit a, hex_digit b, hex_decode rest with
      | Some x, Some y, Some bs => Some (x * 16 + y :: bs)
      | _, _, _ => None
      end
  end.
Definition equalHexDigest (left right : string) : bool :=
  match hex_decode left, hex_decode right with Some l, Some r => bool_decide (l = r) | _, _ => false end.
Definition equalRequestHMAC (left right : string) : bool := equalHexDigest left right.
Definition validRequestHMAC (value : string) : bool := (slen value =? 64) && equalRequestHMAC value value.

(** ** Results *)

Record IdempotencyHeaders := mkHeaders { ih_ETag : string; ih_ParentETag : string; ih_Location : string; ih_CacheControl : string; ih_Pragma : string }.
Definition invalidResourceHeaders (h : IdempotencyHeaders) : bool :=
  hasControlCharacters (ih_ETag h) || hasControlCharacters (ih_ParentETag h) || hasControlCharacters (ih_Location h) ||
  hasControlCharacters (ih_CacheControl h) || hasControlCharacters (ih_Pragma h).

Record CanonicalCommandResult := mkCommandResult {
  cr_CommandID : Z; cr_Status : Z; cr_Body : string; cr_Headers : IdempotencyHeaders; cr_Checkpoint : Checkpoint; cr_StateCursor : string
}.

Section Runtime.
Context (json_canonical : string -> option string) {Value : Type}.

Definition canonicalizeCommandResult (r : CanonicalCommandResult) : result CanonicalCommandResult IdempotencyError :=
  if (cr_CommandID r <=? 0) || (cr_Status r <? 100) || (599 <? cr_Status r) || negb (validateStreamEpoch (cp_StreamEpoch (cr_Checkpoint r))) ||
     bool_decide (cr_StateCursor r = "") || invalidResourceHeaders (cr_Headers r)
  then Err ErrInvalidCommandResult
  else
    let body := if (cr_Status r =? 204) && bool_decide (cr_Body r = "") then "null" else cr_Body r in
    match canonicalJSONValue json_canonical body with
    | None => Err ErrInvalidCommandResult
    | Some body => Ok (mkCommandResult (cr_CommandID r) (cr_Status r) body (cr_Headers r) (cr_Checkpoint r) (cr_StateCursor r))
    end.

Record RuntimeCommandResult := mkRuntimeResult { rr_result : CanonicalCommandResult; rr_Value : Value }.
Definition canonicalizeRuntimeCommandResult (r : RuntimeCommandResult) : result RuntimeCommandResult IdempotencyError :=
  c <-? canonicalizeCommandResult (rr_result r) ;; Ok (mkRuntimeResult c (rr_Value r)).
Definition cloneRuntimeCommandResult (r : RuntimeCommandResult) : RuntimeCommandResult := r.

(** ** The cache *)

Definition runtimeIdempotencyKey : Type := Z * string.

Record runtimeIdempotencyEntry := mkEntry {
  en_requestHMAC : string; en_completed : bool; en_aborted : bool; en_expiresAt : Z; en_result : option RuntimeCommandResult; en_done : bool
}.

Record RuntimeIdempotencyCache := mkCache {
  rc_entries : gmap runtimeIdempotencyKey nat; rc_heap : list runtimeIdempotencyEntry; rc_byUser : gmap Z Z;
  rc_order : list runtimeIdempotencyKey; rc_ttl : Z; rc_maxTotal : Z; rc_maxUser : Z; rc_nextExpiry : option Z
}.

Definition newRuntimeIdempotencyCache (ttl maxTotal maxUser : Z) : RuntimeIdempotencyCache := mkCache ∅ [] ∅ [] ttl maxTotal maxUser None.
Definition NewRuntimeIdempotencyCache : RuntimeIdempotencyCache :=
  newRuntimeIdempotencyCache RuntimeIdempotencyTTL MaxRuntimeIdempotencyRecords MaxRuntimeIdempotencyRecordsPerUser.

Record RuntimeIdempotencyClaim := mkClaim { cl_key : runtimeIdempotencyKey; cl_entry : nat; cl_owner : bool }.
Definition Owner (c : RuntimeIdempotencyClaim) : bool := cl_owner c.

Definition user_count (c : RuntimeIdempotencyCache) (u : Z) : Z := default 0 (rc_byUser c !! u).

Definition removeLocked (c : RuntimeIdempotencyCache) (key : runtimeIdempotencyKey) (entry : nat) : RuntimeIdempotencyCache :=
  if negb (bool_decide (rc_entries c !! key = Some entry)) then c
  else
    let n := user_count c key.1 - 1 in
    mkCache (delete key (rc_entries c)) (rc_heap c) (if n =? 0 then delete key.1 (rc_byUser c) else <[key.1 := n]> (rc_byUser c))
      (filter (fun k => k <> key) (rc_order c)) (rc_ttl c) (rc_maxTotal c) (rc_maxUser c) (rc_nextExpiry c).

(** The loop of [pruneLocked] over the keys in order. *)
Fixpoint prune_loop (now : Z) (keys : list runtimeIdempotencyKey) (c : RuntimeIdempotencyCache) (removed : Z) (next : option Z)
  : option (RuntimeIdempotencyCache * Z * option Z) :=
  match keys with
  | [] => Some (c, removed, next)
  | key :: keys =>
      l ← rc_entries c !! key; e ← rc_heap c !! l;
      if en_completed e && negb (now <? en_expiresAt e) then prune_loop now keys (removeLocked c key l) (removed + 1) next
      else if en_completed e && match next with None => true | Some n => en_expiresAt e <? n end
      then prune_loop now keys c removed (Some (en_expiresAt e))
      else prune_loop now keys c removed next
  end.

Definition with_nextExpiry (c : RuntimeIdempotencyCache) (n : option Z) : RuntimeIdempotencyCache :=
  mkCache (rc_entries c) (rc_heap c) (rc_byUser c) (rc_order c) (rc_ttl c) (rc_maxTotal c) (rc_maxUser c) n.

Definition pruneLocked (c : RuntimeIdempotencyCache) (now : Z) : option (Z * RuntimeIdempotencyCache) :=
  match rc_nextExpiry c with
  | None => Some (0, c)
  | Some n => if now <? n then Some (0, c)
              else '(c, removed, next) ← prune_loop now (rc_order c) c 0 None; Some (removed, with_nextExpiry c next)
  end.

Definition makeRoomLocked (c : RuntimeIdempotencyCache) (principalID : Z) : bool :=
  (user_count c principalID <? rc_maxUser c) && (Z.of_nat (size (rc_entries c)) <? rc_maxTotal c).

Definition Claim (c : RuntimeIdempotencyCache) (now principalID : Z) (idempotencyKey requestHMAC : string)
  : option (result RuntimeIdempotencyClaim RuntimeError * RuntimeIdempotencyCache) :=
  if (principalID <=? 0) || negb (IdempotencyKeyValid idempotencyKey) || negb (validRequestHMAC requestHMAC)
  then Some (Err (ErrIdentity ErrInvalidRequestIdentity), c)
  else
    let key : runtimeIdempotencyKey := (principalID, idempotencyKey) in
    '(_, c) ← pruneLocked c now;
    match rc_entries c !! key with
    | Some l =>
        e ← rc_heap c !! l;
        if negb (equalRequestHMAC (en_requestHMAC e) requestHMAC) then Some (Err (ErrIdentity ErrIdempotencyMismatch), c)
        else Some (Ok (mkClaim key l false), c)
    | None =>
        if negb (makeRoomLocked c principalID) then Some (Err ErrRuntimeIdempotencyFull, c)
        else
          let l := length (rc_heap c) in
          Some (Ok (mkClaim key l true),
                mkCache (<[key := l]> (rc_entries c)) (rc_heap c ++ [mkEntry requestHMAC false false 0 None false])
                  (<[principalID := user_count c principalID + 1]> (rc_byUser c)) (rc_order c ++ [key])
                  (rc_ttl c) (rc_maxTotal c) (rc_maxUser c) (rc_nextExpiry c))
    end.

Definition with_heap (c : RuntimeIdempotencyCache) (h : list runtimeIdempotencyEntry) (next : option Z) : RuntimeIdempotencyCache :=
  mkCache (rc_entries c) h (rc_byUser c) (rc_order c) (rc_ttl c) (rc_maxTotal c) (rc_maxUser c) next.

Definition Complete (c : RuntimeIdempotencyCache) (now : Z) (claim : RuntimeIdempotencyClaim) (r : RuntimeCommandResult)
  : option (option RuntimeError * RuntimeIdempotencyCache) :=
  if negb (cl_owner claim) then Some (Some ErrRuntimeIdempotencyOwner, c)
  else match canonicalizeRuntimeCommandResult r with
  | Err e => Some (Some (ErrIdentity e), c)
  | Ok canonical =>
      e ← rc_heap c !! cl_entry claim;
      if negb (bool_decide (rc_entries c !! cl_key claim = Some (cl_entry claim))) || en_completed e || en_aborted e
      then Some (Some ErrRuntimeIdempotencyOwner, c)
      else
        let expiresAt := now + rc_ttl c in
        let next := match rc_nextExpiry c with
                    | None => Some expiresAt
                    | Some n => if expiresAt <? n then Some expiresAt else Some n
                    end in
        Some (None, with_heap c (<[cl_entry claim := mkEntry (en_requestHMAC e) true (en_aborted e) expiresAt (Some canonical) true]> (rc_heap c)) next)
  end.

Definition Abort (c : RuntimeIdempotencyCache) (claim : RuntimeIdempotencyClaim) : option (option RuntimeError * RuntimeIdempotencyCache) :=
  if negb (cl_owner claim) then Some (Some ErrRuntimeIdempotencyOwner, c)
  else
    e ← rc_heap c !! cl_entry claim;
    if negb (bool_decide (rc_entries c !! cl_key claim = Some (cl_entry claim))) || en_completed e || en_aborted e
    then Some (Some ErrRuntimeIdempotencyOwner, c)
    else
      let h := <[cl_entry claim := mkEntry (en_requestHMAC e) (en_completed e) true (en_expiresAt e) (en_result e) true]> (rc_heap c) in
      Some (None, removeLocked (with_heap c h (rc_nextExpiry c)) (cl_key claim) (cl_entry claim)).

(** [Wait], once the select has left: [canceled] is the case it took.  [None]: it still waits. *)
Definition Wait (c : RuntimeIdempotencyCache) (claim : RuntimeIdempotencyClaim) (canceled : bool) : option (result RuntimeCommandResult RuntimeError) :=
  if cl_owner claim then Some (Err ErrRuntimeIdempotencyOwner)
  else if canceled then Some (Err ErrWaitContext)
  else
    e ← rc_heap c !! cl_entry claim;
    if negb (en_done e) then None
    else if negb (bool_decide (rc_entries c !! cl_key claim = Some (cl_entry claim))) || en_aborted e || negb (en_completed e)
    then Some (Err ErrRuntimeIdempotencyAborted)
    else match en_result e with Some r => Some (Ok (cloneRuntimeCommandResult r)) | None => Some (Err ErrRuntimeIdempotencyAborted) end.

Definition DeleteExpired (c : RuntimeIdempotencyCache) (now : Z) : option (Z * RuntimeIdempotencyCache) := pruneLocked c now.
Definition Len (c : RuntimeIdempotencyCache) (now : Z) : option (Z * RuntimeIdempotencyCache) :=
  '(_, c) ← pruneLocked c now; Some (Z.of_nat (size (rc_entries c)), c).

End Runtime.
Arguments RuntimeIdempotencyCache Value : clear implicits.
Arguments runtimeIdempotencyEntry Value : clear implicits.
Arguments RuntimeCommandResult Value : clear implicits.

End Idempotency.
