(* ===== verification/IdempotencyProps.v ===== *)
(** * IdempotencyProps: what the runtime retry cache promises *)

From S2P Require Import Prelude State StateRing Support Cursor Identity Idempotency.
From stdpp Require Import base gmap strings list relations fin_maps.
From Stdlib Require Import ZArith Lia.
#[local] Open Scope string_scope.
#[local] Open Scope list_scope.
#[local] Open Scope Z_scope.

Module IdempotencyProps.
Import State StateRing Identity Idempotency.

Section Cache.
Context (json_canonical : string -> option string) {Value : Type}.
#[local] Abbreviation cache := (RuntimeIdempotencyCache Value).
#[local] Abbreviation entry := (runtimeIdempotencyEntry Value).
#[local] Abbreviation key := runtimeIdempotencyKey.

(** A completed entry past its window. *)
Definition dead (now : Z) (h : list entry) (l : nat) : bool :=
  match h !! l with Some e => en_completed e && negb (now <? en_expiresAt e) | None => false end.

(** The commands the cache still answers for. *)
Definition live (now : Z) (c : cache) : gmap key nat := filter (fun kl => dead now (rc_heap c) kl.2 = false) (rc_entries c).

Definition of_user (u : Z) (m : gmap key nat) : gmap key nat := filter (fun kl => kl.1.1 = u) m.
Definition held (u : Z) (m : gmap key nat) : Z := Z.of_nat (size (of_user u m)).

Record entry_ok (e : entry) : Prop := {
  eo_aborted : en_aborted e = false;
  eo_result : en_completed e = true <-> en_result e <> None;
  eo_done : en_done e = en_completed e
}.

(** The indexes agree. *)
Record core_ok (c : cache) : Prop := {
  ko_heap : forall k l, rc_entries c !! k = Some l -> exists e, rc_heap c !! l = Some e /\ entry_ok e;
  ko_inj : forall k k' l, rc_entries c !! k = Some l -> rc_entries c !! k' = Some l -> k = k';
  ko_order : NoDup (rc_order c) /\ forall k, k ∈ rc_order c <-> is_Some (rc_entries c !! k);
  ko_user : forall u, user_count c u = held u (rc_entries c)
}.

(** The next expiry is early enough, and the limits hold. *)
Definition expiry_ok (c : cache) : Prop := forall k l e, rc_entries c !! k = Some l -> rc_heap c !! l = Some e ->
  en_completed e = true -> exists n, rc_nextExpiry c = Some n /\ n <= en_expiresAt e.
Record cache_ok (c : cache) : Prop := {
  co_core : core_ok c;
  co_expiry : expiry_ok c;
  co_total : Z.of_nat (size (rc_entries c)) <= rc_maxTotal c;
  co_users : forall u, held u (rc_entries c) <= rc_maxUser c
}.

Lemma held_insert (u : Z) (m : gmap key nat) (k : key) (l : nat) : m !! k = None -> held u (<[k:=l]> m) = held u m + (if decide (k.1 = u) then 1 else 0).
Proof.
  intros Hk. unfold held, of_user. case_decide as Hu.
  - rewrite map_filter_insert_True by done. rewrite map_size_insert_None; [lia|].
    apply map_lookup_filter_None. by left.
  - rewrite map_filter_insert_False by done. rewrite delete_id by done. lia.
Qed.

Lemma held_delete (u : Z) (m : gmap key nat) (k : key) (l : nat) : m !! k = Some l -> held u (delete k m) = held u m - (if decide (k.1 = u) then 1 else 0).
Proof.
  intros Hk. rewrite <- (insert_delete_id m k l Hk) at 2. rewrite held_insert by apply lookup_delete_eq. lia.
Qed.

Lemma held_mono (u : Z) (m m' : gmap key nat) : m ⊆ m' -> held u m <= held u m'.
Proof. intros Hs. unfold held, of_user. apply inj_le, map_subseteq_size. by apply map_filter_subseteq_mono. Qed.

Lemma remove_ok c k l : core_ok c -> rc_entries c !! k = Some l ->
  core_ok (removeLocked c k l) /\ rc_entries (removeLocked c k l) = delete k (rc_entries c) /\
  rc_heap (removeLocked c k l) = rc_heap c /\ rc_ttl (removeLocked c k l) = rc_ttl c /\
  rc_maxTotal (removeLocked c k l) = rc_maxTotal c /\ rc_maxUser (removeLocked c k l) = rc_maxUser c.
Proof.
  intros [H1 H2 [H3 H3'] H4] Hk. unfold removeLocked. rewrite bool_decide_true by done. cbn [negb]. split; [|done].
  constructor; cbn [rc_entries rc_heap rc_order].
  - intros k' l' [_ Hl]%lookup_delete_Some. by eapply H1.
  - intros k1 k2 l' [_ A]%lookup_delete_Some [_ B]%lookup_delete_Some. by eapply H2.
  - split; [by apply NoDup_filter|]. intros k'. rewrite list_elem_of_filter, H3', lookup_delete_is_Some. naive_solver.
  - intros u. rewrite (held_delete u _ k l Hk), <- H4. unfold user_count. cbn [rc_byUser].
    fold (user_count c k.1). case_decide as Hu.
    + subst u. destruct (Z.eqb_spec (user_count c k.1 - 1) 0) as [E|E]; [rewrite lookup_delete_eq|rewrite lookup_insert_eq]; cbn; unfold user_count in *; lia.
    + destruct (user_count c k.1 - 1 =? 0); [rewrite lookup_delete_ne by done|rewrite lookup_insert_ne by done]; lia.
Qed.

(** What one pass over [keys] leaves. *)
Lemma prune_loop_spec now keys c removed next : core_ok c -> NoDup keys -> (forall k, k ∈ keys -> is_Some (rc_entries c !! k)) ->
  exists c' removed' next', prune_loop now keys c removed next = Some (c', removed', next') /\ core_ok c' /\
    rc_heap c' = rc_heap c /\ rc_ttl c' = rc_ttl c /\ rc_maxTotal c' = rc_maxTotal c /\ rc_maxUser c' = rc_maxUser c /\
    rc_entries c' = filter (fun kl => ~ (kl.1 ∈ keys /\ dead now (rc_heap c) kl.2 = true)) (rc_entries c) /\
    (forall n, next = Some n -> exists n', next' = Some n' /\ n' <= n) /\
    (forall k l e, k ∈ keys -> rc_entries c !! k = Some l -> rc_heap c !! l = Some e -> en_completed e = true ->
       dead now (rc_heap c) l = false -> exists n', next' = Some n' /\ n' <= en_expiresAt e).
Proof.
  revert c removed next. induction keys as [|k keys IH]; intros c removed next Hc Hnd Hkeys; cbn [prune_loop].
  { exists c, removed, next. split_and!; try done.
    - symmetry. apply map_filter_id. intros i x _ [Hi _]. by apply elem_of_nil in Hi.
    - intros n ->. by exists n.
    - intros k l e Hk. by apply elem_of_nil in Hk. }
  apply NoDup_cons in Hnd as [Hnk Hnd]. destruct (Hkeys k) as [l Hl]; [by left|]. destruct (ko_heap _ Hc k l Hl) as (e & He & _).
  rewrite Hl. cbn [mbind option_bind]. rewrite He. cbn [mbind option_bind].
  assert (Hdead : dead now (rc_heap c) l = en_completed e && negb (now <? en_expiresAt e)) by (unfold dead; by rewrite He).
  destruct (en_completed e && negb (now <? en_expiresAt e)) eqn:Hd.
  - destruct (remove_ok c k l Hc Hl) as (R1 & R2 & R3 & R4 & R5 & R6).
    destruct (IH (removeLocked c k l) (removed + 1) next R1 Hnd) as (c' & r' & n' & I1 & I2 & I3 & I4 & I5 & I6 & I7 & I8 & I9).
    { intros k' Hk'. rewrite R2, lookup_delete_ne by (intros ->; done). apply Hkeys. by right. }
    exists c', r', n'. split; [done|]. split_and!; try congruence; try done.
    + rewrite I7, R2, R3. apply map_eq. intros i. apply option_eq. intros x. rewrite !map_lookup_filter_Some. cbn [fst snd].
      rewrite lookup_delete_Some, elem_of_cons.
      split; [intros [[Hne Hi] Hn]|intros [Hi Hn]].
      * split; [done|]. intros [[->|Hin] Hx]; [done|]. by apply Hn.
      * assert (k <> i) by (intros ->; apply Hn; rewrite Hl in Hi; injection Hi as <-; split; [by left|done]). split; [done|].
        intros [Hin Hx]. apply Hn. split; [by right|done].
    + intros k' l' e' [->|Hin]%elem_of_cons Hl' He' Hcm Hnd'; [congruence|].
      apply (I9 k' l' e'); rewrite ?R2, ?R3; try done. rewrite lookup_delete_ne; [done|]. intros ->. done.
  - assert (Hfilter : forall m : gmap key nat, m !! k = Some l ->
      filter (fun kl => ~ (kl.1 ∈ keys /\ dead now (rc_heap c) kl.2 = true)) m = filter (fun kl => ~ (kl.1 ∈ k :: keys /\ dead now (rc_heap c) kl.2 = true)) m).
    { intros m Hm. apply map_filter_ext. intros i x Hi. cbn. rewrite elem_of_cons. split; [|naive_solver].
      intros Hn [[->|Hin] Hx]; [|by apply Hn]. rewrite Hm in Hi. injection Hi as <-. congruence. }
    destruct (en_completed e && match next with None => true | Some n => en_expiresAt e <? n end) eqn:Hb.
    + destruct (IH c removed (Some (en_expiresAt e)) Hc Hnd) as (c' & r' & n' & I1 & I2 & I3 & I4 & I5 & I6 & I7 & I8 & I9); [intros k' Hk'; apply Hkeys; by right|].
      exists c', r', n'. split; [done|]. destruct (I8 _ eq_refl) as (n1 & -> & Hn1). split_and!; try done.
      * by rewrite I7, Hfilter.
      * intros n ->. exists n1. split; [done|]. apply andb_true_iff in Hb as [_ Hb]. apply Z.ltb_lt in Hb. lia.
      * intros k' l' e' [->|Hin]%elem_of_cons Hl' He' Hcm Hnd'; [|by eapply I9]. rewrite Hl in Hl'. injection Hl' as <-. rewrite He in He'. injection He' as <-.
        by exists n1.
    + destruct (IH c removed next Hc Hnd) as (c' & r' & n' & I1 & I2 & I3 & I4 & I5 & I6 & I7 & I8 & I9); [intros k' Hk'; apply Hkeys; by right|].
      exists c', r', n'. split; [done|]. split_and!; try done.
      * by rewrite I7, Hfilter.
      * intros k' l' e' [->|Hin]%elem_of_cons Hl' He' Hcm Hnd'; [|by eapply I9]. rewrite Hl in Hl'. injection Hl' as <-. rewrite He in He'. injection He' as <-.
        rewrite Hcm in Hb. cbn [andb] in Hb. destruct next as [n|]; [|done]. apply Z.ltb_ge in Hb. destruct (I8 n eq_refl) as (n1 & -> & ?). exists n1. split; [done|lia].
Qed.

(** Pruning leaves the live commands. *)
Lemma prune_exact now c : cache_ok c ->
  exists n c', pruneLocked c now = Some (n, c') /\ cache_ok c' /\ rc_entries c' = live now c /\ rc_heap c' = rc_heap c /\
    rc_ttl c' = rc_ttl c /\ rc_maxTotal c' = rc_maxTotal c /\ rc_maxUser c' = rc_maxUser c.
Proof.
  intros [Hk He Ht Hu].
  assert (Hsame : (forall n, rc_nextExpiry c = Some n -> now < n) -> rc_entries c = live now c).
  { intros Hn. symmetry. apply map_filter_id. intros k l Hl. unfold dead. cbn [snd]. destruct (rc_heap c !! l) as [e|] eqn:E; [|done].
    destruct (en_completed e) eqn:Hcm; [|done]. destruct (He k l e Hl E Hcm) as (n & Hn1 & Hn2). specialize (Hn n Hn1). cbn [andb]. apply negb_false_iff, Z.ltb_lt. lia. }
  unfold pruneLocked. destruct (rc_nextExpiry c) as [n|] eqn:Hn; [destruct (now <? n) eqn:Hlt|].
  - exists 0, c. apply Z.ltb_lt in Hlt. split_and!; try done. apply Hsame. intros ? [= <-]. done.
  - destruct (ko_order _ Hk) as [Hnd Hord].
    destruct (prune_loop_spec now (rc_order c) c 0 None Hk Hnd) as (c' & r & nx & -> & Hk' & P1 & P2 & P3 & P4 & P5 & _ & P6); [intros k; apply Hord|].
    assert (Hl : rc_entries c' = live now c).
    { rewrite P5. apply map_filter_ext. intros k l Hl. cbn [fst snd]. rewrite <- not_true_iff_false. split; [|naive_solver].
      intros Hno Hd. apply Hno. split; [apply Hord; by rewrite Hl|done]. }
    exists r, (with_nextExpiry c' nx). split; [done|].
    assert (Hsub : rc_entries c' ⊆ rc_entries c) by (rewrite Hl; apply map_filter_subseteq).
    split_and!; try done. constructor; cbn [rc_entries rc_maxTotal rc_maxUser].
    + destruct Hk' as [K1 K2 K3 K4]. by constructor.
    + intros k l e Hkl Hhl Hcm. cbn [rc_nextExpiry with_nextExpiry] in *. cbn [rc_entries rc_heap with_nextExpiry] in *. rewrite P1 in Hhl.
      rewrite Hl in Hkl. apply map_lookup_filter_Some in Hkl as [Hkl Hdd]. apply (P6 k l e); try done. apply Hord. by rewrite Hkl.
    + cbn [with_nextExpiry rc_entries rc_maxTotal]. rewrite P3. pose proof (map_subseteq_size _ _ Hsub). lia.
    + intros u. cbn [with_nextExpiry rc_entries rc_maxUser]. rewrite P4. pose proof (held_mono u _ _ Hsub). specialize (Hu u). lia.
  - exists 0, c. split_and!; try done. by apply Hsame.
Qed.

(** What [Claim] decides, over the live commands alone. *)
Definition claim_answer (now : Z) (c : cache) (k : key) (hmac : string) (r : result RuntimeIdempotencyClaim RuntimeError) (c' : cache) : Prop :=
  match live now c !! k with
  | Some l => exists e, rc_heap c !! l = Some e /\ rc_entries c' = live now c /\ rc_heap c' = rc_heap c /\
      r = (if equalRequestHMAC (en_requestHMAC e) hmac then Ok (mkClaim k l false) else Err (ErrIdentity ErrIdempotencyMismatch))
  | None =>
      if (held k.1 (live now c) <? rc_maxUser c) && (Z.of_nat (size (live now c)) <? rc_maxTotal c)
      then let l := length (rc_heap c) in
           r = Ok (mkClaim k l true) /\ rc_entries c' = <[k := l]> (live now c) /\
           rc_heap c' = rc_heap c ++ [mkEntry hmac false false 0 None false]
      else r = Err ErrRuntimeIdempotencyFull /\ rc_entries c' = live now c /\ rc_heap c' = rc_heap c
  end.

Definition claim_valid (u : Z) (k hmac : string) : bool := negb ((u <=? 0) || negb (IdempotencyKeyValid k) || negb (validRequestHMAC hmac)).

Lemma entries_fresh c l k : core_ok c -> rc_entries c !! k = Some l -> l <> length (rc_heap c).
Proof. intros Hc Hl ->. destruct (ko_heap _ Hc _ _ Hl) as (e & He & _). apply lookup_lt_Some in He. lia. Qed.

(** Taking a free slot keeps the indexes in step. *)
Lemma insert_ok c (k : key) hmac :
  cache_ok c -> rc_entries c !! k = None -> makeRoomLocked c k.1 = true ->
  cache_ok (mkCache (<[k := length (rc_heap c)]> (rc_entries c)) (rc_heap c ++ [mkEntry hmac false false 0 None false])
    (<[k.1 := user_count c k.1 + 1]> (rc_byUser c)) (rc_order c ++ [k]) (rc_ttl c) (rc_maxTotal c) (rc_maxUser c) (rc_nextExpiry c)).
Proof.
  intros [Hk He Ht Hu] Hnone Hroom. pose proof (fun l k' => entries_fresh c l k' Hk) as Hfresh. destruct Hk as [K1 K2 [K3 K3'] K4].
  unfold makeRoomLocked in Hroom. apply andb_true_iff in Hroom as [R1%Z.ltb_lt R2%Z.ltb_lt]. rewrite K4 in R1.
  constructor; [constructor| | |]; cbn [rc_entries rc_heap rc_order rc_maxTotal rc_maxUser].
  - intros k' l' [[<- <-]|[Hne Hl]]%lookup_insert_Some; [eexists; split; [apply list_lookup_middle; done|by constructor]|].
    destruct (K1 _ _ Hl) as (e & E1 & E2). exists e. split; [by apply lookup_app_l_Some|done].
  - intros k1 k2 l' [[<- <-]|[N1 L1]]%lookup_insert_Some [[<- E]|[N2 L2]]%lookup_insert_Some; try done.
    + by destruct (Hfresh _ _ L2).
    + subst l'. by destruct (Hfresh _ _ L1).
    + by eapply K2.
  - split.
    + apply NoDup_app. split_and!; [done| |apply NoDup_singleton]. intros x Hx ->%list_elem_of_singleton. apply K3' in Hx as [? Hx]. congruence.
    + intros k'. rewrite elem_of_app, list_elem_of_singleton, K3', lookup_insert_is_Some. destruct (decide (k' = k)) as [->|]; naive_solver.
  - intros v. rewrite held_insert by done. rewrite <- K4. unfold user_count at 1. cbn [rc_byUser fst]. case_decide as Hv.
    + subst v. by rewrite lookup_insert_eq.
    + rewrite lookup_insert_ne by done. unfold user_count. lia.
  - intros k' l' e' Hl. cbn [rc_entries] in Hl. apply lookup_insert_Some in Hl as [[<- <-]|[Hne Hl]]; intros Hh Hcm.
    + cbn [rc_heap] in Hh. rewrite list_lookup_middle in Hh by done. by injection Hh as <-.
    + cbn [rc_heap rc_nextExpiry] in *. destruct (K1 _ _ Hl) as (e & E1 & E2). rewrite (lookup_app_l_Some _ _ _ _ E1) in Hh. injection Hh as <-. by eapply He.
  - rewrite map_size_insert_None by done. lia.
  - intros v. rewrite held_insert by done. cbn [fst]. specialize (Hu v). case_decide; [subst v|]; lia.
Qed.

Lemma Claim_spec now c u k hmac : cache_ok c -> claim_valid u k hmac = true ->
  exists r c', Claim c now u k hmac = Some (r, c') /\ claim_answer now c (u, k) hmac r c' /\ cache_ok c' /\
    rc_ttl c' = rc_ttl c /\ rc_maxTotal c' = rc_maxTotal c /\ rc_maxUser c' = rc_maxUser c.
Proof.
  intros Hc Hv. unfold claim_valid in Hv. apply negb_true_iff in Hv. unfold Claim, claim_answer. rewrite Hv.
  destruct (prune_exact now c Hc) as (n & c1 & -> & Hc1 & E1 & E2 & E3 & E4 & E5). cbn [mbind option_bind].
  rewrite <- E1, <- E2, <- E4, <- E5, <- E3. cbn [fst].
  destruct (rc_entries c1 !! ((u, k) : key)) as [l|] eqn:Hl.
  - destruct (ko_heap _ (co_core _ Hc1) _ _ Hl) as (e & He & _). rewrite He. cbn [mbind option_bind].
    destruct (equalRequestHMAC (en_requestHMAC e) hmac) eqn:Heq; cbn [negb]; (eexists _, c1; split; [done|]; split_and!; try done; exists e; by rewrite Heq).
  - unfold makeRoomLocked. rewrite (ko_user _ (co_core _ Hc1)).
    destruct (_ && _) eqn:Hroom; cbn [negb]; eexists _, _; (split; [reflexivity|]); split_and!; try done.
    rewrite <- (ko_user _ (co_core _ Hc1)). apply (insert_ok c1 (u, k)); [done|done|]. unfold makeRoomLocked. by rewrite (ko_user _ (co_core _ Hc1)).
Qed.

(** Marking an entry keeps what does not depend on it. *)
Lemma Complete_spec now c cl r c' : cache_ok c -> Complete json_canonical c now cl r = Some (None, c') ->
  exists e canonical, canonicalizeRuntimeCommandResult json_canonical r = Ok canonical /\ rc_entries c !! cl_key cl = Some (cl_entry cl) /\
    rc_heap c !! cl_entry cl = Some e /\ cache_ok c' /\ rc_entries c' = rc_entries c /\ rc_ttl c' = rc_ttl c /\
    rc_heap c' = <[cl_entry cl := mkEntry (en_requestHMAC e) true false (now + rc_ttl c) (Some canonical) true]> (rc_heap c) /\
    en_completed e = false.
Proof.
  intros [Hk He Ht Hu]. unfold Complete. destruct (cl_owner cl); cbn [negb]; [|done]. destruct (canonicalizeRuntimeCommandResult _ r) as [canonical|]; [|done].
  destruct (rc_heap c !! cl_entry cl) as [e|] eqn:Hh; cbn [mbind option_bind]; [|done]. case_bool_decide as Hcl; cbn [negb orb]; [|done].
  destruct (en_completed e) eqn:Hcm; cbn [orb]; [done|]. destruct (en_aborted e) eqn:Hab; [done|]. intros [= <-].
  exists e, canonical. split_and!; try done. destruct Hk as [K1 K2 K3 K4]. constructor; [constructor| | |]; cbn [with_heap rc_entries rc_heap rc_order rc_maxTotal rc_maxUser]; try done.
  - intros k l Hl. destruct (decide (l = cl_entry cl)) as [->|Hne].
    + eexists. split; [apply list_lookup_insert_eq, lookup_lt_Some with e; done|by constructor].
    + rewrite list_lookup_insert_ne by done. by eapply K1.
  - intros k l e' Hl Hh' Hcm'. cbn [with_heap rc_entries rc_heap rc_nextExpiry] in *.
    destruct (decide (l = cl_entry cl)) as [->|Hne].
    + rewrite list_lookup_insert_eq in Hh' by (eapply lookup_lt_Some; done). injection Hh' as <-. cbn [en_expiresAt].
      destruct (rc_nextExpiry c) as [n|]; [destruct (_ <? n) eqn:E|]; eexists; (split; [done|lia]).
    + rewrite list_lookup_insert_ne in Hh' by done. destruct (He k l e' Hl Hh' Hcm') as (n & -> & Hn).
      destruct (_ <? n) eqn:E; eexists; (split; [done|lia]).
Qed.

Lemma Abort_spec c cl c' : cache_ok c -> Abort c cl = Some (None, c') ->
  exists e, rc_entries c !! cl_key cl = Some (cl_entry cl) /\ rc_heap c !! cl_entry cl = Some e /\ en_completed e = false /\ cache_ok c' /\
    rc_entries c' = delete (cl_key cl) (rc_entries c) /\ rc_ttl c' = rc_ttl c /\ exists e', rc_heap c' = <[cl_entry cl := e']> (rc_heap c).
Proof.
  intros [Hk He Ht Hu]. unfold Abort. destruct (cl_owner cl); cbn [negb]; [|done].
  destruct (rc_heap c !! cl_entry cl) as [e|] eqn:Hh; cbn [mbind option_bind]; [|done]. case_bool_decide as Hcl; cbn [negb orb]; [|done].
  destruct (en_completed e) eqn:Hcm; cbn [orb]; [done|]. destruct (en_aborted e) eqn:Hab; [done|]. intros [= <-]. exists e.
  set (e' := mkEntry _ _ _ _ _ _).
  (* the marked entry leaves with its key, so removal is that of the old heap *)
  destruct (remove_ok c (cl_key cl) (cl_entry cl) Hk Hcl) as ([K1 K2 K3 K4] & R2 & R3 & R4 & R5 & R6).
  assert (Hsame : removeLocked (with_heap c (<[cl_entry cl:=e']> (rc_heap c)) (rc_nextExpiry c)) (cl_key cl) (cl_entry cl) =
    with_heap (removeLocked c (cl_key cl) (cl_entry cl)) (<[cl_entry cl:=e']> (rc_heap c)) (rc_nextExpiry c)).
  { unfold removeLocked. cbn [with_heap rc_entries]. by rewrite bool_decide_true. }
  rewrite Hsame. assert (Hlook : forall k l, rc_entries (removeLocked c (cl_key cl) (cl_entry cl)) !! k = Some l -> l <> cl_entry cl /\ rc_entries c !! k = Some l).
  { intros k l Hl. rewrite R2 in Hl. apply lookup_delete_Some in Hl as [Hne Hl]. split; [|done]. intros ->. apply Hne. by eapply (ko_inj _ Hk). }
  assert (Hsub : rc_entries (removeLocked c (cl_key cl) (cl_entry cl)) ⊆ rc_entries c) by (rewrite R2; apply delete_subseteq).
  split_and!; try done; [|by exists e']. constructor; [constructor| | |]; cbn [with_heap rc_entries rc_heap rc_order rc_maxTotal rc_maxUser]; try done.
  - intros k l Hl. destruct (Hlook k l Hl) as [Hne Hl']. rewrite list_lookup_insert_ne by done. by eapply (ko_heap _ Hk).
  - intros k l e1 Hl Hh1 Hcm1. cbn [with_heap rc_entries rc_heap rc_nextExpiry] in *. destruct (Hlook k l Hl) as [Hne Hl']. rewrite list_lookup_insert_ne in Hh1 by done.
    by eapply He.
  - rewrite R5. pose proof (map_subseteq_size _ _ Hsub). lia.
  - intros u. rewrite R6. pose proof (held_mono u _ _ Hsub). specialize (Hu u). lia.
Qed.

(** The operations of the cache at a time; claims are any. *)
Inductive cache_step (now : Z) (c c' : cache) : Prop :=
  | step_claim u k h r (Hop : Claim c now u k h = Some (r, c'))
  | step_complete cl r err (Hop : Complete json_canonical c now cl r = Some (err, c'))
  | step_abort cl err (Hop : Abort c cl = Some (err, c'))
  | step_prune n (Hop : DeleteExpired c now = Some (n, c'))
  | step_len n (Hop : Len c now = Some (n, c')).

(** Sequences of operations, each at a time that [P] admits. *)
Inductive cache_steps (P : Z -> Prop) : cache -> cache -> Prop :=
  | steps_refl c : cache_steps P c c
  | steps_cons now c c1 c2 (Hnow : P now) (Hstep : cache_step now c c1) (Hrest : cache_steps P c1 c2) : cache_steps P c c2.

Lemma Complete_err now (c c' : cache) cl r err : Complete json_canonical c now cl r = Some (Some err, c') -> c' = c.
Proof.
  unfold Complete. destruct (cl_owner cl); cbn [negb]; [|by intros [= _ <-]]. destruct (canonicalizeRuntimeCommandResult _ r); [|by intros [= _ <-]].
  destruct (rc_heap c !! cl_entry cl); cbn [mbind option_bind]; [|done]. destruct (_ || _); by intros [= _ <-].
Qed.
Lemma Abort_err (c c' : cache) cl err : Abort c cl = Some (Some err, c') -> c' = c.
Proof.
  unfold Abort. destruct (cl_owner cl); cbn [negb]; [|by intros [= _ <-]].
  destruct (rc_heap c !! cl_entry cl); cbn [mbind option_bind]; [|done]. destruct (_ || _); by intros [= _ <-].
Qed.
Lemma Claim_invalid now (c c' : cache) u k h r : claim_valid u k h = false -> Claim c now u k h = Some (r, c') -> c' = c.
Proof. unfold claim_valid, Claim. rewrite negb_false_iff. intros ->. by intros [= _ <-]. Qed.

(** A completed entry with its key, until [x]. *)
Definition retained (k : key) (l : nat) (e : entry) (c : cache) : Prop := rc_entries c !! k = Some l /\ rc_heap c !! l = Some e.

Lemma live_retained now k l e c : retained k l e c -> en_completed e = true -> now < en_expiresAt e -> live now c !! k = Some l.
Proof.
  intros [Hk Hh] Hcm Hx. apply map_lookup_filter_Some. split; [done|]. cbn [snd]. unfold dead. rewrite Hh, Hcm. cbn [andb]. by apply negb_false_iff, Z.ltb_lt.
Qed.

Lemma claim_answer_keeps now c (k0 : key) h r c' k l e :
  claim_answer now c k0 h r c' -> live now c !! k = Some l -> rc_heap c !! l = Some e -> retained k l e c'.
Proof.
  unfold claim_answer, retained. intros Ha Hl Hh. destruct (live now c !! k0) eqn:E1; [|destruct (_ && _)].
  - destruct Ha as (e' & _ & -> & -> & _). done.
  - destruct Ha as (_ & -> & ->). split; [|by apply lookup_app_l_Some]. rewrite lookup_insert_ne; [done|]. intros <-. by rewrite E1 in Hl.
  - destruct Ha as (_ & -> & ->). done.
Qed.

Lemma cache_step_ok now c c' : cache_step now c c' -> cache_ok c ->
  cache_ok c' /\ forall k l e, retained k l e c -> en_completed e = true -> now < en_expiresAt e -> retained k l e c'.
Proof.
  intros Hs Hc. destruct Hs.
  - destruct (claim_valid u k h) eqn:Hv; [|rewrite (Claim_invalid _ _ _ _ _ _ _ Hv Hop); done].
    destruct (Claim_spec now c u k h Hc Hv) as (r' & c1 & E & Ha & Hc1 & _). rewrite E in Hop. injection Hop as -> ->. split; [done|].
    intros k0 l e Hr Hcm Hx. pose proof (live_retained now _ _ _ _ Hr Hcm Hx) as Hl. destruct Hr as [_ Hh]. by eapply claim_answer_keeps.
  - destruct err as [err|]; [apply Complete_err in Hop as ->; done|].
    destruct (Complete_spec _ _ _ _ _ Hc Hop) as (e & canonical & _ & S1 & S2 & S3 & S4 & _ & S5 & S6). split; [done|].
    intros k l e' [Hk Hh] Hcm _. split; [by rewrite S4|]. rewrite S5, list_lookup_insert_ne; [done|]. intros <-. congruence.
  - destruct err as [err|]; [apply Abort_err in Hop as ->; done|].
    destruct (Abort_spec _ _ _ Hc Hop) as (e & S1 & S2 & S3 & S4 & S5 & _ & e2 & S6). split; [done|].
    intros k l e' [Hk Hh] Hcm _. assert (l <> cl_entry cl) by (intros ->; congruence). split.
    + rewrite S5, lookup_delete_ne; [done|]. intros <-. congruence.
    + rewrite S6, list_lookup_insert_ne; [done|congruence].
  - destruct (prune_exact now c Hc) as (n' & c1 & E & Hc1 & E1 & E2 & _). unfold DeleteExpired in Hop. rewrite E in Hop. injection Hop as -> ->. split; [done|].
    intros k l e Hr Hcm Hx. split; [rewrite E1; by eapply live_retained|rewrite E2; apply Hr].
  - destruct (prune_exact now c Hc) as (n' & c1 & E & Hc1 & E1 & E2 & _). unfold Len in Hop. rewrite E in Hop. injection Hop as _ ->. split; [done|].
    intros k l e Hr Hcm Hx. split; [rewrite E1; by eapply live_retained|rewrite E2; apply Hr].
Qed.

Lemma cache_steps_ok P c c' : cache_steps P c c' -> cache_ok c ->
  cache_ok c' /\ forall k l e, retained k l e c -> en_completed e = true -> (forall now, P now -> now < en_expiresAt e) -> retained k l e c'.
Proof.
  induction 1 as [c|now c c1 c2 Hnow Hs _ IH]; intros Hc; [done|]. destruct (cache_step_ok _ _ _ Hs Hc) as [Hc1 Hr].
  destruct (IH Hc1) as [Hc2 Hr2]. split; [done|]. intros k l e R Hcm Hx. apply Hr2; [|done..]. apply Hr; [done..|]. by apply Hx.
Qed.

Lemma new_cache_ok ttl total user : 0 <= total -> 0 <= user -> cache_ok (newRuntimeIdempotencyCache ttl total user : cache).
Proof.
  intros Ht Hu. constructor; [constructor| | |].
  - intros k l. cbn. by rewrite lookup_empty.
  - intros k k' l. cbn. by rewrite lookup_empty.
  - split; [constructor|]. intros k. cbn. rewrite lookup_empty. split; [by intros ?%elem_of_nil|by intros [? ?]].
  - intros u. reflexivity.
  - intros k l e. cbn. by rewrite lookup_empty.
  - exact Ht.
  - intros u. exact Hu.
Qed.

(** Caches that operations at any times produce from the one the server starts with. *)
Definition reachable_cache (c : cache) : Prop := cache_steps (fun _ => True) NewRuntimeIdempotencyCache c.
Lemma reachable_cache_ok c : reachable_cache c -> cache_ok c.
Proof. intros Hr. apply (cache_steps_ok _ _ _ Hr). by apply new_cache_ok. Qed.

(** [Claim] answers over the commands whose window is open and nothing else: an expired result neither answers
    nor takes a place, a live one is joined when the request is the same and refused when it is not, and a new
    command is admitted exactly when the live ones of its principal and of the process leave room; it never fails
    to find an entry it indexed, and keeps the indexes consistent. *)
Theorem Claim_exact now c u k hmac : reachable_cache c -> claim_valid u k hmac = true ->
  exists r c', Claim c now u k hmac = Some (r, c') /\ claim_answer now c (u, k) hmac r c' /\ cache_ok c'.
Proof.
  intros Hr Hv. destruct (Claim_spec now c u k hmac (reachable_cache_ok c Hr) Hv) as (r & c' & H1 & H2 & H3 & _). by exists r, c'.
Qed.

(** a completed command is replayed for its whole window: whatever operations other callers run meanwhile, a
    claim of its key before the expiry that [Complete] set is never given the ownership again; it is a waiter whose
    [Wait] returns the stored canonical result at once when the request is the same, and a mismatch otherwise. *)
Theorem runtime_replay c t cl r c1 c2 now hmac :
  reachable_cache c -> Complete json_canonical c t cl r = Some (None, c1) ->
  cache_steps (fun t' => t' < t + rc_ttl c) c1 c2 -> now < t + rc_ttl c -> claim_valid (cl_key cl).1 (cl_key cl).2 hmac = true ->
  exists e canonical answer c3, canonicalizeRuntimeCommandResult json_canonical r = Ok canonical /\ rc_heap c !! cl_entry cl = Some e /\
    Claim c2 now (cl_key cl).1 (cl_key cl).2 hmac = Some (answer, c3) /\
    if equalRequestHMAC (en_requestHMAC e) hmac
    then exists waiter, answer = Ok waiter /\ Owner waiter = false /\ Wait c3 waiter false = Some (Ok canonical)
    else answer = Err (ErrIdentity ErrIdempotencyMismatch).
Proof.
  intros Hr Hcomp Hsteps Hnow Hv. apply reachable_cache_ok in Hr.
  destruct (Complete_spec _ _ _ _ _ Hr Hcomp) as (e & canonical & E1 & E2 & E3 & Hc1 & E4 & E5 & E6 & _).
  set (e1 := mkEntry _ _ _ _ _ _) in E6.
  assert (Hret : retained (cl_key cl) (cl_entry cl) e1 c1).
  { split; [by rewrite E4|]. rewrite E6. apply list_lookup_insert_eq. by eapply lookup_lt_Some. }
  destruct (cache_steps_ok _ _ _ Hsteps Hc1) as [Hc2 Hkeep]. pose proof (Hkeep _ _ _ Hret eq_refl (fun _ Hp => Hp)) as Hret2.
  destruct (Claim_spec now c2 _ _ hmac Hc2 Hv) as (answer & c3 & Hclaim & Ha & Hc3 & _).
  pose proof (live_retained now _ _ _ _ Hret2 eq_refl Hnow) as Hlive. destruct Hret2 as [Hk2 Hh2].
  pose proof Hlive as Hlive'. destruct (cl_key cl) as [u k] eqn:Hkey. cbn [fst snd] in *.
  pose proof (claim_answer_keeps _ _ _ _ _ _ _ _ _ Ha Hlive Hh2) as [Hk3 Hh3].
  exists e, canonical, answer, c3. split_and!; [done..|]. unfold claim_answer in Ha. rewrite Hlive in Ha.
  destruct Ha as (e' & He' & _ & _ & ->). rewrite Hh2 in He'. injection He' as <-. cbn [e1 en_requestHMAC].
  destruct (equalRequestHMAC (en_requestHMAC e) hmac); [|done]. eexists. split_and!; [done|done|].
  unfold Wait. cbn [cl_owner cl_entry cl_key]. rewrite Hh3. cbn [mbind option_bind e1 en_done en_aborted en_completed en_result negb].
  by rewrite bool_decide_true.
Qed.
End Cache.

Definition sample_hmac : string := "00112233445566778899aabbccddeeff00112233445566778899aabbccddeeff".
Definition sample_key : string := "0123456789abcdef".
Definition sample_result : RuntimeCommandResult unit :=
  mkRuntimeResult (mkCommandResult 7 200 "{}" (mkHeaders "" "" "" "" "") (mkCheckpoint "00000000000000000000000000000000" 1) "cursor") tt.
Definition sample_json (s : string) : option string := Some s.
Definition sample_claimed : RuntimeIdempotencyCache unit :=
  match Claim NewRuntimeIdempotencyCache 10 5 sample_key sample_hmac with Some (_, c) => c | None => NewRuntimeIdempotencyCache end.
Definition sample_cl : RuntimeIdempotencyClaim := mkClaim (5, sample_key) 0 true.

Lemma sample_reachable : reachable_cache sample_json sample_claimed.
Proof.
  eapply (steps_cons _ _ 10 _ sample_claimed _ I); [|apply steps_refl]. apply (step_claim _ _ _ _ 5 sample_key sample_hmac (Ok sample_cl)). vm_compute. reflexivity.
Defined.

Lemma Claim_exact_witness :
  reachable_cache sample_json sample_claimed /\
  exists r c', Claim sample_claimed 11 5 sample_key sample_hmac = Some (r, c') /\ claim_answer 11 sample_claimed (5, sample_key) sample_hmac r c' /\ cache_ok c'.
Proof.
  split; [exact sample_reachable|]. apply (Claim_exact sample_json); [exact sample_reachable|vm_compute; reflexivity].
Defined.

Lemma runtime_replay_witness :
  exists e canonical answer c3,
    canonicalizeRuntimeCommandResult sample_json sample_result = Ok canonical /\ rc_heap sample_claimed !! cl_entry sample_cl = Some e /\
    Claim (match Complete sample_json sample_claimed 20 sample_cl sample_result with Some (_, c) => c | None => sample_claimed end)
      1000 5 sample_key sample_hmac = Some (answer, c3) /\
    if equalRequestHMAC (en_requestHMAC e) sample_hmac
    then exists waiter, answer = Ok waiter /\ Owner waiter = false /\ Wait c3 waiter false = Some (Ok canonical)
    else answer = Err (ErrIdentity ErrIdempotencyMismatch).
Proof.
  eapply (runtime_replay sample_json sample_claimed 20 sample_cl sample_result).
  - exact sample_reachable.
  - vm_compute. reflexivity.
  - apply steps_refl.
  - vm_compute. reflexivity.
  - vm_compute. reflexivity.
Defined.
End IdempotencyProps.
