(* ===== verification/Database.v ===== *)
(** * Database: the tables and their statements ([internal/db])

    The schema ([schema.sql]) and the generated statements of [db/*.sql.go].  A
    table is a finite map from its key to its rows; a statement is a function on
    the database that either answers with the new database or fails and changes
    nothing.  The constraints of the schema are checked in the order of the
    engine: [CHECK], uniqueness, references; deletions cascade as declared.  A
    driver failure is left to the stores.  JSON is an argument. *)

From S2P Require Import Prelude State Support.
From stdpp Require Import base gmap strings list fin_maps sorting.
From Stdlib Require Import ZArith Lia Ascii.
#[local] Open Scope string_scope.
#[local] Open Scope list_scope.
#[local] Open Scope Z_scope.

(** [json_valid] and the keys [json_each] enumerates on an object. *)
Class SqlPrims := { json_valid : string -> bool; json_keys : string -> list string }.

Module Database.
Import State Etag.

(** ** Rows besides those of [State] *)

Record SessionRow := mkSessionRow {
  sr_ID : Z; sr_UserID : Z; sr_DeviceID : string; sr_TokenHash : string; sr_PrevTokenHash : option string;
  sr_ExpiresAt : Z; sr_LastUsedAt : Z; sr_CreatedAt : Z
}.
Record InviteRow := mkInviteRow {
  ir_ID : Z; ir_CodeHash : string; ir_RoleKey : string; ir_UsesLeft : Z; ir_ExpiresAt : option Z;
  ir_CreatedBy : option Z; ir_CreatedAt : Z
}.
Record InstallationState := mkInstallation { is_InstallationID : string; is_Initialized : Z }.

(** The resource headers a completed command retains. *)
Record HeaderRow := mkHeaderRow {
  hr_Etag : option string; hr_ParentEtag : option string; hr_Location : option string;
  hr_CacheControl : option string; hr_Pragma : option string
}.
Record CommandIdempotency := mkCommandRow {
  ci_PrincipalID : Z; ci_IdempotencyKey : string; ci_Endpoint : string; ci_RequestHmac : string; ci_CommandID : Z;
  ci_Status : Z; ci_ResultBody : string; ci_Headers : HeaderRow; ci_StreamEpoch : string; ci_Geid : Z;
  ci_StateCursor : string; ci_CreatedAt : Z; ci_ExpiresAt : Z
}.
Record ActivationIdempotency := mkActivationRow {
  ai_InstallationID : string; ai_IdempotencyKey : string; ai_ActivationCodeHash : string; ai_RequestHmac : string;
  ai_CommandID : Z; ai_Status : Z; ai_ResultBody : string; ai_Headers : HeaderRow; ai_CreatedAt : Z; ai_ExpiresAt : Z
}.
Record RegistrationIdempotency := mkRegistrationRow {
  ri_InstallationID : string; ri_IdempotencyKey : string; ri_RequestHmac : string; ri_CommandID : Z; ri_Status : Z;
  ri_ResultBody : string; ri_Headers : HeaderRow; ri_StreamEpoch : string; ri_Geid : Z; ri_StateCursor : string;
  ri_CreatedAt : Z; ri_ExpiresAt : Z
}.

(** Metadata of the local object storage. *)
Record ObjectRow := mkObjectRow {
  or_Bucket : string; or_Name : string; or_ContentType : string; or_Size : Z; or_OriginalName : string; or_CreatedAt : Z
}.

(** The sixteen tables of [schema.sql].  [scope_permission_configs] has one row
    per scope, [installation_state] at most one. *)
Record Db := mkDb {
  t_users : gmap Z UserRow; t_roles : gmap string RoleRow; t_groups : gmap Z Group; t_channels : gmap Z ChannelRow;
  t_groupAccess : gmap Z AccessRow; t_channelAccess : gmap Z AccessRow; t_configs : gmap Scope ConfigRow;
  t_bindings : gmap Z BindingRow; t_mutes : gmap Z MuteRow; t_sessions : gmap Z SessionRow; t_invites : gmap Z InviteRow;
  t_installation : option InstallationState; t_commands : gmap (Z * string) CommandIdempotency;
  t_activations : gmap (string * string) ActivationIdempotency; t_registrations : gmap (string * string) RegistrationIdempotency;
  t_objects : gmap (string * string) ObjectRow
}.

(** A constraint failure that is neither of uniqueness nor of reference is
    reported to callers as it comes. *)
Inductive SqlError := NoRows | UniqueFailed | ForeignKeyFailed | CheckFailed.
Definition Stmt (A : Type) : Type := Db -> result (A * Db) SqlError.

(** ** Constraints *)

(** [length(x)]: characters, the bytes that do not continue one, up to a NUL. *)
Fixpoint text_length (s : string) : Z :=
  match s with
  | EmptyString => 0
  | String c s => let n := nat_of_ascii c in
      if (n =? 0)%nat then 0 else text_length s + (if (128 <=? n)%nat && (n <=? 191)%nat then 0 else 1)
  end.
Definition between (lo hi x : Z) : bool := (lo <=? x) && (x <=? hi).
Definition one_of (l : list string) (s : string) : bool := bool_decide (s ∈ l).
(** An integer column holds 64 bits. *)
Definition version_ok (v : Z) : bool := between 1 (2 ^ 63 - 1) v.
Definition lower_hex (s : string) : bool := forallb is_lower_hex (chars s).

Definition check_user (u : UserRow) : bool :=
  (0 <? ur_ID u) && between 0 (2 ^ 63 - 1) (ur_AuthVersion u) && (0 <=? ur_CreatedAt u) && (0 <=? ur_UpdatedAt u).
Definition check_role (r : RoleRow) : bool :=
  between 1 64 (text_length (rr_Key r)) && between 1 64 (text_length (rr_DisplayName r)) && between 0 1000000 (rr_Rank r) &&
  between 0 1 (rr_Builtin r) && between 0 1 (rr_Immutable r) && (0 <=? rr_CreatedAt r) && (0 <=? rr_UpdatedAt r) && version_ok (rr_Version r) &&
  (if bool_decide (rr_Key r = "owner") then (rr_Rank r =? 1000000) && (rr_Builtin r =? 1) && (rr_Immutable r =? 1)
   else (rr_Rank r <? 1000000) && (rr_Immutable r =? 0)).
Definition position_ok (p : Z) : bool := between (-2147483648) 2147483647 p.
Definition check_group (g : Group) : bool :=
  (0 <? gr_ID g) && between 1 64 (text_length (gr_Name g)) && position_ok (gr_Position g) && one_of ["public"; "private"] (gr_Visibility g) &&
  (0 <=? gr_CreatedAt g) && (0 <=? gr_UpdatedAt g) && version_ok (gr_Version g).
Definition check_channel (c : ChannelRow) : bool :=
  (0 <? cr_ID c) && between 1 64 (text_length (cr_Name c)) && one_of ["voice"; "text"; "announcement"] (cr_Mode c) &&
  between 0 1 (cr_Temporary c) && one_of ["public"; "private"] (cr_Visibility c) && between 1 256 (cr_Capacity c) &&
  position_ok (cr_Position c) && between 0 1 (cr_Pinned c) && (0 <=? cr_CreatedAt c) && (0 <=? cr_UpdatedAt c) && version_ok (cr_Version c) &&
  ((cr_Temporary c =? 0) || bool_decide (cr_Mode c = "voice")).
Definition is_none {A} (o : option A) : bool := match o with None => true | Some _ => false end.
Definition check_access (a : AccessRow) : bool :=
  (0 <? ar_ID a) && (0 <=? ar_CreatedAt a) &&
  (bool_decide (ar_PrincipalType a = "user") && negb (is_none (ar_UserID a)) && is_none (ar_RoleKey a) ||
   bool_decide (ar_PrincipalType a = "role") && is_none (ar_UserID a) && negb (is_none (ar_RoleKey a))).

(** The columns of a scope agree with its type. *)
Definition check_scope (scopeType : string) (groupID channelID : option Z) : bool :=
  bool_decide (scopeType = "server") && is_none groupID && is_none channelID ||
  bool_decide (scopeType = "group") && negb (is_none groupID) && is_none channelID ||
  bool_decide (scopeType = "channel") && is_none groupID && negb (is_none channelID).
Definition row_scope (scopeType : string) (groupID channelID : option Z) : Scope :=
  mkScope scopeType (match groupID, channelID with Some g, _ => g | None, Some c => c | None, None => 0 end).

Section Constraints.
Context `{!SqlPrims}.
Definition check_config (c : ConfigRow) : bool :=
  check_scope (cf_ScopeType c) (cf_GroupID c) (cf_ChannelID c) && json_valid (cf_Config c) && (0 <=? cf_UpdatedAt c) && version_ok (cf_Version c).
End Constraints.
Definition check_binding (b : BindingRow) : bool :=
  (0 <? br_ID b) && check_scope (br_ScopeType b) (br_GroupID b) (br_ChannelID b) && (0 <=? br_CreatedAt b) &&
  (negb (bool_decide (br_RoleKey b = "owner")) || bool_decide (br_ScopeType b = "server")).
Definition check_mute (m : MuteRow) : bool :=
  (0 <? mr_ID m) && check_scope (mr_ScopeType m) (mr_GroupID m) (mr_ChannelID m) && one_of ["text"; "voice"; "desktop_audio"] (mr_Kind m) &&
  (0 <=? mr_CreatedAt m) && version_ok (mr_Version m) && match mr_ExpiresAt m with Some e => mr_CreatedAt m <? e | None => true end.
Definition check_session (s : SessionRow) : bool :=
  (0 <? sr_ID s) && (0 <=? sr_ExpiresAt s) && (0 <=? sr_LastUsedAt s) && (0 <=? sr_CreatedAt s).
Definition check_invite (i : InviteRow) : bool :=
  (0 <? ir_ID i) && (0 <=? ir_UsesLeft i) && (0 <=? ir_CreatedAt i) && negb (bool_decide (ir_RoleKey i = "owner")).
Definition check_object (o : ObjectRow) : bool := (0 <=? or_Size o) && (0 <=? or_CreatedAt o).
Definition check_installation (i : InstallationState) : bool :=
  (text_length (is_InstallationID i) =? 32) && lower_hex (is_InstallationID i) && between 0 1 (is_Initialized i).

(** Whether two different rows violate a unique index together. *)
(** [COLLATE NOCASE] folds the ASCII letters. *)
Fixpoint nocase (s : string) : string :=
  match s with
  | EmptyString => EmptyString
  | String c s => String (if in_range c 65 90 then ascii_of_nat (nat_of_ascii c + 32) else c) (nocase s)
  end.
Definition user_conflict (a b : UserRow) : bool := bool_decide (nocase (ur_Username a) = nocase (ur_Username b)).
Definition access_conflict (a b : AccessRow) : bool :=
  (ar_Resource a =? ar_Resource b) && bool_decide (ar_PrincipalType a = ar_PrincipalType b) &&
  (if bool_decide (ar_PrincipalType a = "user") then bool_decide (ar_UserID a = ar_UserID b) else bool_decide (ar_RoleKey a = ar_RoleKey b)).
Definition same_scope (t t' : string) (g g' c c' : option Z) : bool := bool_decide (t = t' /\ g = g' /\ c = c').
Definition binding_conflict (a b : BindingRow) : bool :=
  (br_UserID a =? br_UserID b) && bool_decide (br_RoleKey a = br_RoleKey b) &&
  same_scope (br_ScopeType a) (br_ScopeType b) (br_GroupID a) (br_GroupID b) (br_ChannelID a) (br_ChannelID b) ||
  bool_decide (br_RoleKey a = "owner") && bool_decide (br_RoleKey b = "owner").
Definition mute_conflict (a b : MuteRow) : bool :=
  (mr_UserID a =? mr_UserID b) && bool_decide (mr_Kind a = mr_Kind b) &&
  same_scope (mr_ScopeType a) (mr_ScopeType b) (mr_GroupID a) (mr_GroupID b) (mr_ChannelID a) (mr_ChannelID b).
Definition session_conflict (a b : SessionRow) : bool :=
  bool_decide (sr_TokenHash a = sr_TokenHash b) || (sr_UserID a =? sr_UserID b) && bool_decide (sr_DeviceID a = sr_DeviceID b).
Definition invite_conflict (a b : InviteRow) : bool := bool_decide (ir_CodeHash a = ir_CodeHash b).

(** ** Access to tables *)

Definition set_users x (d : Db) : Db := mkDb x (t_roles d) (t_groups d) (t_channels d) (t_groupAccess d) (t_channelAccess d) (t_configs d) (t_bindings d) (t_mutes d) (t_sessions d) (t_invites d) (t_installation d) (t_commands d) (t_activations d) (t_registrations d) (t_objects d).
Definition set_roles x (d : Db) : Db := mkDb (t_users d) x (t_groups d) (t_channels d) (t_groupAccess d) (t_channelAccess d) (t_configs d) (t_bindings d) (t_mutes d) (t_sessions d) (t_invites d) (t_installation d) (t_commands d) (t_activations d) (t_registrations d) (t_objects d).
Definition set_groups x (d : Db) : Db := mkDb (t_users d) (t_roles d) x (t_channels d) (t_groupAccess d) (t_channelAccess d) (t_configs d) (t_bindings d) (t_mutes d) (t_sessions d) (t_invites d) (t_installation d) (t_commands d) (t_activations d) (t_registrations d) (t_objects d).
Definition set_channels x (d : Db) : Db := mkDb (t_users d) (t_roles d) (t_groups d) x (t_groupAccess d) (t_channelAccess d) (t_configs d) (t_bindings d) (t_mutes d) (t_sessions d) (t_invites d) (t_installation d) (t_commands d) (t_activations d) (t_registrations d) (t_objects d).
Definition set_groupAccess x (d : Db) : Db := mkDb (t_users d) (t_roles d) (t_groups d) (t_channels d) x (t_channelAccess d) (t_configs d) (t_bindings d) (t_mutes d) (t_sessions d) (t_invites d) (t_installation d) (t_commands d) (t_activations d) (t_registrations d) (t_objects d).
Definition set_channelAccess x (d : Db) : Db := mkDb (t_users d) (t_roles d) (t_groups d) (t_channels d) (t_groupAccess d) x (t_configs d) (t_bindings d) (t_mutes d) (t_sessions d) (t_invites d) (t_installation d) (t_commands d) (t_activations d) (t_registrations d) (t_objects d).
Definition set_configs x (d : Db) : Db := mkDb (t_users d) (t_roles d) (t_groups d) (t_channels d) (t_groupAccess d) (t_channelAccess d) x (t_bindings d) (t_mutes d) (t_sessions d) (t_invites d) (t_installation d) (t_commands d) (t_activations d) (t_registrations d) (t_objects d).
Definition set_bindings x (d : Db) : Db := mkDb (t_users d) (t_roles d) (t_groups d) (t_channels d) (t_groupAccess d) (t_channelAccess d) (t_configs d) x (t_mutes d) (t_sessions d) (t_invites d) (t_installation d) (t_commands d) (t_activations d) (t_registrations d) (t_objects d).
Definition set_mutes x (d : Db) : Db := mkDb (t_users d) (t_roles d) (t_groups d) (t_channels d) (t_groupAccess d) (t_channelAccess d) (t_configs d) (t_bindings d) x (t_sessions d) (t_invites d) (t_installation d) (t_commands d) (t_activations d) (t_registrations d) (t_objects d).
Definition set_sessions x (d : Db) : Db := mkDb (t_users d) (t_roles d) (t_groups d) (t_channels d) (t_groupAccess d) (t_channelAccess d) (t_configs d) (t_bindings d) (t_mutes d) x (t_invites d) (t_installation d) (t_commands d) (t_activations d) (t_registrations d) (t_objects d).
Definition set_invites x (d : Db) : Db := mkDb (t_users d) (t_roles d) (t_groups d) (t_channels d) (t_groupAccess d) (t_channelAccess d) (t_configs d) (t_bindings d) (t_mutes d) (t_sessions d) x (t_installation d) (t_commands d) (t_activations d) (t_registrations d) (t_objects d).
Definition set_installation x (d : Db) : Db := mkDb (t_users d) (t_roles d) (t_groups d) (t_channels d) (t_groupAccess d) (t_channelAccess d) (t_configs d) (t_bindings d) (t_mutes d) (t_sessions d) (t_invites d) x (t_commands d) (t_activations d) (t_registrations d) (t_objects d).
Definition set_commands x (d : Db) : Db := mkDb (t_users d) (t_roles d) (t_groups d) (t_channels d) (t_groupAccess d) (t_channelAccess d) (t_configs d) (t_bindings d) (t_mutes d) (t_sessions d) (t_invites d) (t_installation d) x (t_activations d) (t_registrations d) (t_objects d).
Definition set_activations x (d : Db) : Db := mkDb (t_users d) (t_roles d) (t_groups d) (t_channels d) (t_groupAccess d) (t_channelAccess d) (t_configs d) (t_bindings d) (t_mutes d) (t_sessions d) (t_invites d) (t_installation d) (t_commands d) x (t_registrations d) (t_objects d).
Definition set_registrations x (d : Db) : Db := mkDb (t_users d) (t_roles d) (t_groups d) (t_channels d) (t_groupAccess d) (t_channelAccess d) (t_configs d) (t_bindings d) (t_mutes d) (t_sessions d) (t_invites d) (t_installation d) (t_commands d) (t_activations d) x (t_objects d).
Definition set_objects x (d : Db) : Db := mkDb (t_users d) (t_roles d) (t_groups d) (t_channels d) (t_groupAccess d) (t_channelAccess d) (t_configs d) (t_bindings d) (t_mutes d) (t_sessions d) (t_invites d) (t_installation d) (t_commands d) (t_activations d) (t_registrations d) x.

Definition exists_row {K A} `{Countable K} (p : A -> bool) (m : gmap K A) : bool := existsb p (map_to_list m).*2.
Definition count_rows {K A} `{Countable K} (p : A -> bool) (m : gmap K A) : Z := Z.of_nat (size (filter (fun kr => p kr.2 = true) m)).
Definition refers {K A} `{Countable K} (m : gmap K A) (k : option K) : bool :=
  match k with Some k => bool_decide (is_Some (m !! k)) | None => true end.

(** [INSERT] of a row under its key: the constraints of the row, of the unique
    indexes and of its references. *)
Definition insert_row {K A} `{Countable K} (checked : bool) (conflict : A -> A -> bool) (referenced : bool) (key : K) (row : A) (m : gmap K A)
  : result (gmap K A) SqlError :=
  if negb checked then Err CheckFailed
  else if bool_decide (is_Some (m !! key)) || exists_row (conflict row) m then Err UniqueFailed
  else if negb referenced then Err ForeignKeyFailed
  else Ok (<[key := row]> m).

(** [UPDATE ... WHERE key = ? RETURNING]. *)
Definition update_row {K A} `{Countable K} (check : A -> bool) (referenced : A -> bool) (f : A -> A) (key : K) (m : gmap K A)
  : result (A * gmap K A) SqlError :=
  match m !! key with
  | None => Err NoRows
  | Some row => if negb (check (f row)) then Err CheckFailed
                else if negb (referenced (f row)) then Err ForeignKeyFailed
                else Ok (f row, <[key := f row]> m)
  end.

Definition get_row {K A} `{Countable K} (key : K) (m : gmap K A) : result A SqlError :=
  match m !! key with Some row => Ok row | None => Err NoRows end.
Definition find_row {K A} `{Countable K} (p : A -> bool) (m : gmap K A) : result A SqlError :=
  match List.find p (map_to_list m).*2 with Some row => Ok row | None => Err NoRows end.
Definition drop_rows {K A} `{Countable K} (p : A -> bool) (m : gmap K A) : gmap K A := filter (fun kr => p kr.2 = false) m.

Definition reading {A} (f : Db -> result A SqlError) : Stmt A := fun d => a <-? f d ;; Ok (a, d).
(** Rows in the order of an integer key. *)
Definition list_rows {A} (m : gmap Z A) : list A := values_in_key_order m.

(** [ORDER BY position, id]. *)
Definition display_le {A} (position id : A -> Z) (a b : A) : Prop :=
  position a < position b \/ (position a = position b /\ id a <= id b).
#[global] Instance display_le_dec {A} (position id : A -> Z) : RelDecision (display_le position id).
Proof. intros x y. apply or_dec; [apply _|apply and_dec; apply _]. Defined.

(** ** Users *)

Definition CreateUser (id : Z) (username passwordHash nickname : string) (avatar : option string) (createdAt updatedAt : Z) : Stmt UserRow := fun d =>
  let row := mkUserRow id username passwordHash nickname avatar 0 None None createdAt updatedAt in
  m <-? insert_row (check_user row) user_conflict true id row (t_users d) ;; Ok (row, set_users m d).
Definition GetUserByID (id : Z) : Stmt UserRow := reading (fun d => get_row id (t_users d)).
Definition GetUserByUsername (username : string) : Stmt UserRow :=
  reading (fun d => find_row (fun u => bool_decide (nocase (ur_Username u) = nocase username)) (t_users d)).
Definition ListAllUsers : Stmt (list UserRow) := reading (fun d => Ok (list_rows (t_users d))).

Definition update_user (f : UserRow -> UserRow) (id : Z) : Stmt UserRow := fun d =>
  rm <-? update_row check_user (fun _ => true) f id (t_users d) ;; Ok (rm.1, set_users rm.2 d).
(** [:exec] and [:execrows]: no row is no error; the count of rows. *)
Definition execute_user (f : UserRow -> UserRow) (id : Z) : Stmt Z := fun d =>
  match update_user f id d with Err NoRows => Ok (0, d) | Err e => Err e | Ok (_, d) => Ok (1, d) end.

Definition UpdateUserNickname (nickname : string) (updatedAt id : Z) : Stmt UserRow :=
  update_user (fun u => mkUserRow (ur_ID u) (ur_Username u) (ur_PasswordHash u) nickname (ur_Avatar u) (ur_AuthVersion u) (ur_BannedAt u) (ur_LastLoginAt u) (ur_CreatedAt u) updatedAt) id.
Definition SetUserAvatar (avatar : option string) (updatedAt id : Z) : Stmt UserRow :=
  update_user (fun u => mkUserRow (ur_ID u) (ur_Username u) (ur_PasswordHash u) (ur_Nickname u) avatar (ur_AuthVersion u) (ur_BannedAt u) (ur_LastLoginAt u) (ur_CreatedAt u) updatedAt) id.
Definition SetUserPasswordHash (hash : string) (updatedAt id : Z) : Stmt Z :=
  execute_user (fun u => mkUserRow (ur_ID u) (ur_Username u) hash (ur_Nickname u) (ur_Avatar u) (ur_AuthVersion u + 1) (ur_BannedAt u) (ur_LastLoginAt u) (ur_CreatedAt u) updatedAt) id.
Definition SetUserBanned (bannedAt : option Z) (updatedAt id : Z) : Stmt Z :=
  execute_user (fun u => mkUserRow (ur_ID u) (ur_Username u) (ur_PasswordHash u) (ur_Nickname u) (ur_Avatar u) (ur_AuthVersion u) bannedAt (ur_LastLoginAt u) (ur_CreatedAt u) updatedAt) id.
Definition TouchUserLastLogin (lastLoginAt : option Z) (updatedAt id : Z) : Stmt Z :=
  execute_user (fun u => mkUserRow (ur_ID u) (ur_Username u) (ur_PasswordHash u) (ur_Nickname u) (ur_Avatar u) (ur_AuthVersion u) (ur_BannedAt u) lastLoginAt (ur_CreatedAt u) updatedAt) id.
Definition BumpUserAuthVersion (updatedAt id : Z) : Stmt Z :=
  execute_user (fun u => mkUserRow (ur_ID u) (ur_Username u) (ur_PasswordHash u) (ur_Nickname u) (ur_Avatar u) (ur_AuthVersion u + 1) (ur_BannedAt u) (ur_LastLoginAt u) (ur_CreatedAt u) updatedAt) id.

(** [ON DELETE SET NULL] on the creator columns. *)
Definition forget (id : Z) (o : option Z) : option Z := if bool_decide (o = Some id) then None else o.
Definition orphan_channel (id : Z) (c : ChannelRow) : ChannelRow :=
  mkChannelRow (cr_ID c) (cr_GroupID c) (cr_Name c) (cr_Mode c) (cr_Temporary c) (cr_Visibility c) (cr_Capacity c) (cr_Position c) (cr_Pinned c)
    (forget id (cr_CreatedBy c)) (cr_CreatedAt c) (cr_UpdatedAt c) (cr_Version c).
Definition orphan_mute (id : Z) (m : MuteRow) : MuteRow :=
  mkMuteRow (mr_ID m) (mr_ScopeType m) (mr_GroupID m) (mr_ChannelID m) (mr_UserID m) (mr_Kind m) (mr_ExpiresAt m) (forget id (mr_CreatedBy m))
    (mr_Reason m) (mr_CreatedAt m) (mr_Version m).
Definition orphan_invite (id : Z) (i : InviteRow) : InviteRow :=
  mkInviteRow (ir_ID i) (ir_CodeHash i) (ir_RoleKey i) (ir_UsesLeft i) (ir_ExpiresAt i) (forget id (ir_CreatedBy i)) (ir_CreatedAt i).
Definition DeleteUser (id : Z) : Stmt Z := fun d =>
  _ <-? get_row id (t_users d) ;;
  Ok (id, mkDb (delete id (t_users d)) (t_roles d) (t_groups d) (orphan_channel id <$> t_channels d)
            (drop_rows (fun a => bool_decide (ar_UserID a = Some id)) (t_groupAccess d))
            (drop_rows (fun a => bool_decide (ar_UserID a = Some id)) (t_channelAccess d)) (t_configs d)
            (drop_rows (fun b => br_UserID b =? id) (t_bindings d))
            (orphan_mute id <$> drop_rows (fun m => mr_UserID m =? id) (t_mutes d))
            (drop_rows (fun s => sr_UserID s =? id) (t_sessions d)) (orphan_invite id <$> t_invites d) (t_installation d)
            (drop_rows (fun c => ci_PrincipalID c =? id) (t_commands d)) (t_activations d) (t_registrations d) (t_objects d)).

(** ** Roles *)

Definition no_conflict {A} (_ _ : A) : bool := false.
Definition CreateRole (key displayName : string) (rank createdAt updatedAt : Z) : Stmt RoleRow := fun d =>
  let row := mkRoleRow key displayName rank 0 0 createdAt updatedAt 1 in
  m <-? insert_row (check_role row) no_conflict true key row (t_roles d) ;; Ok (row, set_roles m d).
(** [INSERT OR IGNORE] skips a row that fails a check or a unique index. *)
Definition SeedRole (row : RoleRow) : Stmt unit := fun d =>
  match insert_row (check_role row) no_conflict true (rr_Key row) row (t_roles d) with
  | Ok m => Ok (tt, set_roles m d)
  | Err _ => Ok (tt, d)
  end.
Definition GetRoleByKey (key : string) : Stmt RoleRow := reading (fun d => get_row key (t_roles d)).
(** [ORDER BY rank DESC, display_name, key]. *)
Definition role_le (a b : RoleRow) : Prop :=
  rr_Rank b < rr_Rank a \/ (rr_Rank a = rr_Rank b /\ (String.ltb (rr_DisplayName a) (rr_DisplayName b) = true \/
    (rr_DisplayName a = rr_DisplayName b /\ String.leb (rr_Key a) (rr_Key b) = true))).
#[global] Instance role_le_dec : RelDecision role_le.
Proof. intros x y. unfold role_le. apply _. Defined.
Definition ListRoles : Stmt (list RoleRow) := reading (fun d => Ok (merge_sort role_le (map_to_list (t_roles d)).*2)).
Definition UpdateRole (displayName : string) (rank updatedAt : Z) (key : string) : Stmt RoleRow := fun d =>
  rm <-? update_row check_role (fun _ => true)
           (fun r => mkRoleRow (rr_Key r) displayName rank (rr_Builtin r) (rr_Immutable r) (rr_CreatedAt r) updatedAt (rr_Version r + 1)) key (t_roles d) ;;
  Ok (rm.1, set_roles rm.2 d).

(** Rows that refer to a role and restrict its deletion. *)
Definition role_referenced (key : string) (d : Db) : bool :=
  exists_row (fun b => bool_decide (br_RoleKey b = key)) (t_bindings d) || exists_row (fun a => bool_decide (ar_RoleKey a = Some key)) (t_groupAccess d) ||
  exists_row (fun a => bool_decide (ar_RoleKey a = Some key)) (t_channelAccess d) || exists_row (fun i => bool_decide (ir_RoleKey i = key)) (t_invites d).
Definition DeleteRole (key : string) : Stmt string := fun d =>
  _ <-? get_row key (t_roles d) ;;
  if role_referenced key d then Err ForeignKeyFailed else Ok (key, set_roles (delete key (t_roles d)) d).

Section References.
Context `{!SqlPrims}.
Definition config_mentions (key : string) (d : Db) : Z :=
  foldr Z.add 0 ((fun c => Z.of_nat (length (filter (fun k => k = key) (json_keys (cf_Config c))))) <$> (map_to_list (t_configs d)).*2).
Definition CountRoleReferences (key : string) : Stmt Z := reading (fun d =>
  Ok (count_rows (fun b => bool_decide (br_RoleKey b = key)) (t_bindings d) + count_rows (fun a => bool_decide (ar_RoleKey a = Some key)) (t_groupAccess d) +
      count_rows (fun a => bool_decide (ar_RoleKey a = Some key)) (t_channelAccess d) + count_rows (fun i => bool_decide (ir_RoleKey i = key)) (t_invites d) +
      config_mentions key d)).
End References.

(** ** Groups and channels *)

Definition CreateChannelGroup (id : Z) (name : string) (position : Z) (visibility : string) (createdAt updatedAt : Z) : Stmt Group := fun d =>
  let row := mkGroup id name position visibility createdAt updatedAt 1 in
  m <-? insert_row (check_group row) no_conflict true id row (t_groups d) ;; Ok (row, set_groups m d).
Definition GetChannelGroup (id : Z) : Stmt Group := reading (fun d => get_row id (t_groups d)).
Definition ListChannelGroups : Stmt (list Group) := reading (fun d => Ok (merge_sort (display_le gr_Position gr_ID) (list_rows (t_groups d)))).
Definition CountChannelGroups : Stmt Z := reading (fun d => Ok (Z.of_nat (size (t_groups d)))).
Definition update_group (f : Group -> Group) (id : Z) : Stmt Group := fun d =>
  rm <-? update_row check_group (fun _ => true) f id (t_groups d) ;; Ok (rm.1, set_groups rm.2 d).
Definition UpdateChannelGroup (name : string) (position : Z) (visibility : string) (updatedAt id : Z) : Stmt Group :=
  update_group (fun g => mkGroup (gr_ID g) name position visibility (gr_CreatedAt g) updatedAt (gr_Version g + 1)) id.
Definition TouchChannelGroup (updatedAt id : Z) : Stmt Group :=
  update_group (fun g => mkGroup (gr_ID g) (gr_Name g) (gr_Position g) (gr_Visibility g) (gr_CreatedAt g) updatedAt (gr_Version g + 1)) id.

Definition of_group (id : Z) (g : option Z) : bool := bool_decide (g = Some id).
(** Channels restrict the deletion of their group; the rest cascades. *)
Definition DeleteChannelGroup (id : Z) : Stmt Z := fun d =>
  _ <-? get_row id (t_groups d) ;;
  if exists_row (fun c => of_group id (cr_GroupID c)) (t_channels d) then Err ForeignKeyFailed
  else Ok (id, mkDb (t_users d) (t_roles d) (delete id (t_groups d)) (t_channels d)
                 (drop_rows (fun a => ar_Resource a =? id) (t_groupAccess d)) (t_channelAccess d)
                 (drop_rows (fun c => of_group id (cf_GroupID c)) (t_configs d)) (drop_rows (fun b => of_group id (br_GroupID b)) (t_bindings d))
                 (drop_rows (fun m => of_group id (mr_GroupID m)) (t_mutes d)) (t_sessions d) (t_invites d) (t_installation d)
                 (t_commands d) (t_activations d) (t_registrations d) (t_objects d)).

Definition channel_refs (d : Db) (c : ChannelRow) : bool := refers (t_groups d) (cr_GroupID c) && refers (t_users d) (cr_CreatedBy c).
Definition CreateChannel (id : Z) (groupID : option Z) (name mode : string) (temporary : Z) (visibility : string) (capacity position pinned : Z)
    (createdBy : option Z) (createdAt updatedAt : Z) : Stmt ChannelRow := fun d =>
  let row := mkChannelRow id groupID name mode temporary visibility capacity position pinned createdBy createdAt updatedAt 1 in
  m <-? insert_row (check_channel row) no_conflict (channel_refs d row) id row (t_channels d) ;; Ok (row, set_channels m d).
Definition GetChannel (id : Z) : Stmt ChannelRow := reading (fun d => get_row id (t_channels d)).
Definition ListChannels : Stmt (list ChannelRow) := reading (fun d => Ok (merge_sort (display_le cr_Position cr_ID) (list_rows (t_channels d)))).
Definition CountChannels : Stmt Z := reading (fun d => Ok (Z.of_nat (size (t_channels d)))).
Definition CountTemporaryChannels : Stmt Z := reading (fun d => Ok (count_rows (fun c => cr_Temporary c =? 1) (t_channels d))).
(** A null creator matches no row. *)
Definition CountTemporaryChannelsForCreator (createdBy : option Z) : Stmt Z := reading (fun d =>
  Ok (count_rows (fun c => (cr_Temporary c =? 1) && match createdBy with Some u => bool_decide (cr_CreatedBy c = Some u) | None => false end) (t_channels d))).
Definition update_channel (f : ChannelRow -> ChannelRow) (id : Z) : Stmt ChannelRow := fun d =>
  rm <-? update_row check_channel (channel_refs d) f id (t_channels d) ;; Ok (rm.1, set_channels rm.2 d).
Definition UpdateChannel (groupID : option Z) (name visibility : string) (capacity position pinned updatedAt id : Z) : Stmt ChannelRow :=
  update_channel (fun c => mkChannelRow (cr_ID c) groupID name (cr_Mode c) (cr_Temporary c) visibility capacity position pinned (cr_CreatedBy c)
                            (cr_CreatedAt c) updatedAt (cr_Version c + 1)) id.
Definition TouchChannel (updatedAt id : Z) : Stmt ChannelRow :=
  update_channel (fun c => mkChannelRow (cr_ID c) (cr_GroupID c) (cr_Name c) (cr_Mode c) (cr_Temporary c) (cr_Visibility c) (cr_Capacity c) (cr_Position c)
                            (cr_Pinned c) (cr_CreatedBy c) (cr_CreatedAt c) updatedAt (cr_Version c + 1)) id.
Definition DeleteChannel (id : Z) : Stmt Z := fun d =>
  _ <-? get_row id (t_channels d) ;;
  Ok (id, mkDb (t_users d) (t_roles d) (t_groups d) (delete id (t_channels d)) (t_groupAccess d)
            (drop_rows (fun a => ar_Resource a =? id) (t_channelAccess d))
            (drop_rows (fun c => of_group id (cf_ChannelID c)) (t_configs d)) (drop_rows (fun b => of_group id (br_ChannelID b)) (t_bindings d))
            (drop_rows (fun m => of_group id (mr_ChannelID m)) (t_mutes d)) (t_sessions d) (t_invites d) (t_installation d)
            (t_commands d) (t_activations d) (t_registrations d) (t_objects d)).

(** ** Access entries *)

Definition principal_refs (d : Db) (a : AccessRow) : bool := refers (t_users d) (ar_UserID a) && refers (t_roles d) (ar_RoleKey a).
Definition InsertGroupAccess (id groupID : Z) (principalType : string) (userID : option Z) (roleKey : option string) (createdAt : Z) : Stmt AccessRow := fun d =>
  let row := mkAccessRow id groupID principalType userID roleKey createdAt in
  m <-? insert_row (check_access row) access_conflict (refers (t_groups d) (Some groupID) && principal_refs d row) id row (t_groupAccess d) ;;
  Ok (row, set_groupAccess m d).
Definition InsertChannelAccess (id channelID : Z) (principalType : string) (userID : option Z) (roleKey : option string) (createdAt : Z) : Stmt AccessRow := fun d =>
  let row := mkAccessRow id channelID principalType userID roleKey createdAt in
  m <-? insert_row (check_access row) access_conflict (refers (t_channels d) (Some channelID) && principal_refs d row) id row (t_channelAccess d) ;;
  Ok (row, set_channelAccess m d).
Definition of_resource (id : Z) (m : gmap Z AccessRow) : gmap Z AccessRow := filter (fun kr => ar_Resource kr.2 = id) m.
Definition ListGroupAccess (groupID : Z) : Stmt (list AccessRow) := reading (fun d => Ok (list_rows (of_resource groupID (t_groupAccess d)))).
Definition ListChannelAccess (channelID : Z) : Stmt (list AccessRow) := reading (fun d => Ok (list_rows (of_resource channelID (t_channelAccess d)))).
Definition ListAllGroupAccess : Stmt (list AccessRow) := reading (fun d => Ok (list_rows (t_groupAccess d))).
Definition ListAllChannelAccess : Stmt (list AccessRow) := reading (fun d => Ok (list_rows (t_channelAccess d))).
Definition CountGroupAccess (groupID : Z) : Stmt Z := reading (fun d => Ok (Z.of_nat (size (of_resource groupID (t_groupAccess d))))).
Definition CountChannelAccess (channelID : Z) : Stmt Z := reading (fun d => Ok (Z.of_nat (size (of_resource channelID (t_channelAccess d))))).
Definition delete_access (resource id : Z) (m : gmap Z AccessRow) : result (AccessRow * gmap Z AccessRow) SqlError :=
  row <-? get_row id m ;; if ar_Resource row =? resource then Ok (row, delete id m) else Err NoRows.
Definition DeleteGroupAccess (groupID id : Z) : Stmt AccessRow := fun d =>
  rm <-? delete_access groupID id (t_groupAccess d) ;; Ok (rm.1, set_groupAccess rm.2 d).
Definition DeleteChannelAccess (channelID id : Z) : Stmt AccessRow := fun d =>
  rm <-? delete_access channelID id (t_channelAccess d) ;; Ok (rm.1, set_channelAccess rm.2 d).

(** ** Permission configurations *)

Definition config_row (s : Scope) (config : string) (updatedAt version : Z) : ConfigRow :=
  mkConfigRow (sc_Type s) (if bool_decide (sc_Type s = "group") then Some (sc_ID s) else None)
    (if bool_decide (sc_Type s = "channel") then Some (sc_ID s) else None) config updatedAt version.
Definition GetServerPermissionConfig : Stmt string := reading (fun d => row <-? get_row server_scope (t_configs d) ;; Ok (cf_Config row)).
Definition GetServerPermissionConfigRow : Stmt ConfigRow := reading (fun d => get_row server_scope (t_configs d)).
Definition GetGroupPermissionConfig (groupID : Z) : Stmt ConfigRow := reading (fun d => get_row (group_scope groupID) (t_configs d)).
Definition GetChannelPermissionConfig (channelID : Z) : Stmt ConfigRow := reading (fun d => get_row (channel_scope channelID) (t_configs d)).
(** [ORDER BY scope_type, group_id, channel_id]. *)
Definition config_le (a b : ConfigRow) : Prop :=
  String.ltb (cf_ScopeType a) (cf_ScopeType b) = true \/ (cf_ScopeType a = cf_ScopeType b /\
    default 0 (cf_GroupID a) + default 0 (cf_ChannelID a) <= default 0 (cf_GroupID b) + default 0 (cf_ChannelID b)).
#[global] Instance config_le_dec : RelDecision config_le.
Proof. intros x y. unfold config_le. apply _. Defined.
Definition ListPermissionConfigs : Stmt (list ConfigRow) := reading (fun d => Ok (merge_sort config_le (map_to_list (t_configs d)).*2)).

Section Configs.
Context `{!SqlPrims}.
Definition UpdateServerPermissionConfig (config : string) (updatedAt : Z) : Stmt ConfigRow := fun d =>
  rm <-? update_row check_config (fun _ => true)
           (fun c => mkConfigRow (cf_ScopeType c) (cf_GroupID c) (cf_ChannelID c) config updatedAt (cf_Version c + 1)) server_scope (t_configs d) ;;
  Ok (rm.1, set_configs rm.2 d).
(** [INSERT ... ON CONFLICT DO UPDATE]: the row of the scope is replaced. *)
Definition upsert_config (s : Scope) (referenced : bool) (config : string) (updatedAt version : Z) : Stmt ConfigRow := fun d =>
  let row := config_row s config updatedAt version in
  if negb (check_config row) then Err CheckFailed
  else if negb (bool_decide (is_Some (t_configs d !! s)) || referenced) then Err ForeignKeyFailed
  else Ok (row, set_configs (<[s := row]> (t_configs d)) d).
Definition UpsertGroupPermissionConfig (groupID : Z) (config : string) (updatedAt version : Z) : Stmt ConfigRow := fun d =>
  upsert_config (group_scope groupID) (refers (t_groups d) (Some groupID)) config updatedAt version d.
Definition UpsertChannelPermissionConfig (channelID : Z) (config : string) (updatedAt version : Z) : Stmt ConfigRow := fun d =>
  upsert_config (channel_scope channelID) (refers (t_channels d) (Some channelID)) config updatedAt version d.
Definition SeedServerPermissionConfig (config : string) (updatedAt : Z) : Stmt unit := fun d =>
  let row := config_row server_scope config updatedAt 1 in
  if negb (check_config row) || bool_decide (is_Some (t_configs d !! server_scope)) then Ok (tt, d)
  else Ok (tt, set_configs (<[server_scope := row]> (t_configs d)) d).
End Configs.
Definition delete_config (s : Scope) (id : Z) : Stmt Z := fun d =>
  _ <-? get_row s (t_configs d) ;; Ok (id, set_configs (delete s (t_configs d)) d).
Definition DeleteGroupPermissionConfig (groupID : Z) : Stmt Z := delete_config (group_scope groupID) groupID.
Definition DeleteChannelPermissionConfig (channelID : Z) : Stmt Z := delete_config (channel_scope channelID) channelID.

(** ** Role bindings *)

Definition scope_refs (d : Db) (groupID channelID : option Z) : bool := refers (t_groups d) groupID && refers (t_channels d) channelID.
Definition InsertRoleBinding (id userID : Z) (roleKey scopeType : string) (groupID channelID : option Z) (createdAt : Z) : Stmt BindingRow := fun d =>
  let row := mkBindingRow id userID roleKey scopeType groupID channelID createdAt in
  m <-? insert_row (check_binding row) binding_conflict
          (refers (t_users d) (Some userID) && refers (t_roles d) (Some roleKey) && scope_refs d groupID channelID) id row (t_bindings d) ;;
  Ok (row, set_bindings m d).
Definition GetRoleBindingByID (id : Z) : Stmt BindingRow := reading (fun d => get_row id (t_bindings d)).
Definition is_owner_row (b : BindingRow) : bool := bool_decide (br_RoleKey b = "owner").
Definition GetOwnerBinding : Stmt BindingRow := reading (fun d => find_row is_owner_row (t_bindings d)).
Definition CountOwners : Stmt Z := reading (fun d => Ok (count_rows is_owner_row (t_bindings d))).
Definition ListAllRoleBindings : Stmt (list BindingRow) := reading (fun d => Ok (list_rows (t_bindings d))).
(** [LIMIT ? OFFSET ?]: a negative limit is none, a negative offset is zero. *)
Definition limit_offset {A} (limit offset : Z) (l : list A) : list A :=
  let l := drop (Z.to_nat offset) l in if limit <? 0 then l else take (Z.to_nat limit) l.
Definition ListRoleBindings (limit offset : Z) : Stmt (list BindingRow) := reading (fun d => Ok (limit_offset limit offset (list_rows (t_bindings d)))).
(** [ORDER BY scope_type, group_id, channel_id, role_key]; a null sorts first and identifiers are positive. *)
Definition binding_le (a b : BindingRow) : Prop :=
  String.ltb (br_ScopeType a) (br_ScopeType b) = true \/ (br_ScopeType a = br_ScopeType b /\
    (default 0 (br_GroupID a) < default 0 (br_GroupID b) \/ (default 0 (br_GroupID a) = default 0 (br_GroupID b) /\
      (default 0 (br_ChannelID a) < default 0 (br_ChannelID b) \/ (default 0 (br_ChannelID a) = default 0 (br_ChannelID b) /\
        String.leb (br_RoleKey a) (br_RoleKey b) = true))))).
#[global] Instance binding_le_dec : RelDecision binding_le.
Proof. intros x y. unfold binding_le. apply _. Defined.
Definition ListRoleBindingsForUser (userID : Z) : Stmt (list BindingRow) := reading (fun d =>
  Ok (merge_sort binding_le (filter (fun b => br_UserID b = userID) (list_rows (t_bindings d))))).
Definition ListUsersWithRoleBindings : Stmt (list Z) := reading (fun d => Ok (sort_by id (remove_dups (br_UserID <$> list_rows (t_bindings d))))).
Definition DeleteRoleBinding (id : Z) : Stmt Z := fun d => _ <-? get_row id (t_bindings d) ;; Ok (id, set_bindings (delete id (t_bindings d)) d).
Definition DeleteServerRoleBindingsForUser (userID : Z) : Stmt unit := fun d =>
  Ok (tt, set_bindings (drop_rows (fun b => (br_UserID b =? userID) && bool_decide (br_ScopeType b = "server")) (t_bindings d)) d).

(** ** Mutes *)

Definition mute_refs (d : Db) (m : MuteRow) : bool :=
  refers (t_users d) (Some (mr_UserID m)) && refers (t_users d) (mr_CreatedBy m) && scope_refs d (mr_GroupID m) (mr_ChannelID m).
Definition InsertMute (id : Z) (scopeType : string) (groupID channelID : option Z) (userID : Z) (kind : string) (expiresAt createdBy : option Z)
    (reason : string) (createdAt : Z) : Stmt MuteRow := fun d =>
  let row := mkMuteRow id scopeType groupID channelID userID kind expiresAt createdBy reason createdAt 1 in
  m <-? insert_row (check_mute row) mute_conflict (mute_refs d row) id row (t_mutes d) ;; Ok (row, set_mutes m d).
Definition GetMute (id : Z) : Stmt MuteRow := reading (fun d => get_row id (t_mutes d)).
Definition UpdateMute (expiresAt : option Z) (reason : string) (id : Z) : Stmt MuteRow := fun d =>
  rm <-? update_row check_mute (fun _ => true)
           (fun m => mkMuteRow (mr_ID m) (mr_ScopeType m) (mr_GroupID m) (mr_ChannelID m) (mr_UserID m) (mr_Kind m) expiresAt (mr_CreatedBy m) reason
                       (mr_CreatedAt m) (mr_Version m + 1)) id (t_mutes d) ;;
  Ok (rm.1, set_mutes rm.2 d).
Definition DeleteMute (id : Z) : Stmt Z := fun d => _ <-? get_row id (t_mutes d) ;; Ok (id, set_mutes (delete id (t_mutes d)) d).
Definition DeleteMutesForUser (userID : Z) : Stmt unit := fun d => Ok (tt, set_mutes (drop_rows (fun m => mr_UserID m =? userID) (t_mutes d)) d).
Definition ListAllMutes : Stmt (list MuteRow) := reading (fun d => Ok (list_rows (t_mutes d))).
Definition ListMutesForUser (userID : Z) : Stmt (list MuteRow) := reading (fun d => Ok (filter (fun m => mr_UserID m = userID) (list_rows (t_mutes d)))).
Definition CountActiveMutes (now : Z) : Stmt Z := reading (fun d =>
  Ok (count_rows (fun m => match mr_ExpiresAt m with Some e => now <? e | None => true end) (t_mutes d))).

(** ** The installation *)

Definition GetInstallationState : Stmt InstallationState := reading (fun d => match t_installation d with Some i => Ok i | None => Err NoRows end).
Definition SeedInstallationState (installationID : string) : Stmt Z := fun d =>
  let row := mkInstallation installationID 0 in
  if is_none (t_installation d) && check_installation row then Ok (1, set_installation (Some row) d) else Ok (0, d).
Definition SetInstallationInitialized (to from : Z) : Stmt Z := fun d =>
  match t_installation d with
  | Some i => if is_Initialized i =? from
              then if check_installation (mkInstallation (is_InstallationID i) to)
                   then Ok (1, set_installation (Some (mkInstallation (is_InstallationID i) to)) d) else Err CheckFailed
              else Ok (0, d)
  | None => Ok (0, d)
  end.

(** ** Login sessions *)

Definition find_key {K A} `{Countable K} (p : A -> bool) (m : gmap K A) : option K := fst <$> List.find (fun kr => p kr.2) (map_to_list m).
Definition GetSessionByID (id : Z) : Stmt SessionRow := reading (fun d => get_row id (t_sessions d)).
Definition GetSessionByTokenHash (hash : string) : Stmt SessionRow := reading (fun d => find_row (fun s => bool_decide (sr_TokenHash s = hash)) (t_sessions d)).
(** Any row whose current or previous token it is. *)
Definition GetSessionByAnyTokenHash (hash : string) : Stmt SessionRow :=
  reading (fun d => find_row (fun s => bool_decide (sr_TokenHash s = hash) || bool_decide (sr_PrevTokenHash s = Some hash)) (t_sessions d)).
Definition DeleteSession (id : Z) : Stmt unit := fun d => Ok (tt, set_sessions (delete id (t_sessions d)) d).
Definition DeleteSessionByTokenHash (hash : string) : Stmt unit := fun d =>
  Ok (tt, set_sessions (drop_rows (fun s => bool_decide (sr_TokenHash s = hash)) (t_sessions d)) d).
Definition DeleteSessionByPrevTokenHash (hash : string) : Stmt Z := fun d =>
  let m := drop_rows (fun s => bool_decide (sr_PrevTokenHash s = Some hash)) (t_sessions d) in
  Ok (Z.of_nat (size (t_sessions d)) - Z.of_nat (size m), set_sessions m d).
Definition DeleteUserSessions (userID : Z) : Stmt unit := fun d => Ok (tt, set_sessions (drop_rows (fun s => sr_UserID s =? userID) (t_sessions d)) d).
Definition DeleteExpiredSessions (before : Z) : Stmt Z := fun d =>
  let m := drop_rows (fun s => sr_ExpiresAt s <? before) (t_sessions d) in
  Ok (Z.of_nat (size (t_sessions d)) - Z.of_nat (size m), set_sessions m d).

(** Whether another session than [key] holds the token hash. *)
Definition token_taken (key : Z) (hash : string) (d : Db) : bool :=
  exists_row (fun s => negb (sr_ID s =? key) && bool_decide (sr_TokenHash s = hash)) (t_sessions d).
Definition RotateSession (newHash : string) (lastUsedAt expiresAt : Z) (oldHash : string) (now : Z) : Stmt SessionRow := fun d =>
  match find_key (fun s => bool_decide (sr_TokenHash s = oldHash) && (now <? sr_ExpiresAt s)) (t_sessions d) with
  | None => Err NoRows
  | Some key =>
      s <-? get_row key (t_sessions d) ;;
      let row := mkSessionRow (sr_ID s) (sr_UserID s) (sr_DeviceID s) newHash (Some (sr_TokenHash s)) expiresAt lastUsedAt (sr_CreatedAt s) in
      if negb (check_session row) then Err CheckFailed
      else if token_taken key newHash d then Err UniqueFailed
      else Ok (row, set_sessions (<[key := row]> (t_sessions d)) d)
  end.
Definition UpsertSession (row : SessionRow) : Stmt SessionRow := fun d =>
  if negb (check_session row) then Err CheckFailed
  else match find_key (fun s => (sr_UserID s =? sr_UserID row) && bool_decide (sr_DeviceID s = sr_DeviceID row)) (t_sessions d) with
       | Some key =>
           s <-? get_row key (t_sessions d) ;;
           let new := mkSessionRow (sr_ID s) (sr_UserID s) (sr_DeviceID s) (sr_TokenHash row) (Some (sr_TokenHash s)) (sr_ExpiresAt row) (sr_LastUsedAt row) (sr_CreatedAt s) in
           if token_taken key (sr_TokenHash row) d then Err UniqueFailed
           else Ok (new, set_sessions (<[key := new]> (t_sessions d)) d)
       | None =>
           m <-? insert_row true session_conflict (refers (t_users d) (Some (sr_UserID row))) (sr_ID row) row (t_sessions d) ;; Ok (row, set_sessions m d)
       end.

(** ** Invites *)

Definition invite_live (now : Z) (i : InviteRow) : bool := match ir_ExpiresAt i with Some e => now <? e | None => true end.
Definition CreateInvite (row : InviteRow) : Stmt InviteRow := fun d =>
  m <-? insert_row (check_invite row) invite_conflict (refers (t_roles d) (Some (ir_RoleKey row)) && refers (t_users d) (ir_CreatedBy row)) (ir_ID row) row (t_invites d) ;;
  Ok (row, set_invites m d).
Definition GetInviteByCodeHash (hash : string) (now : Z) : Stmt InviteRow :=
  reading (fun d => find_row (fun i => bool_decide (ir_CodeHash i = hash) && invite_live now i) (t_invites d)).
Definition ConsumeInvite (id now : Z) : Stmt InviteRow := fun d =>
  i <-? get_row id (t_invites d) ;;
  if (0 <? ir_UsesLeft i) && invite_live now i
  then let row := mkInviteRow (ir_ID i) (ir_CodeHash i) (ir_RoleKey i) (ir_UsesLeft i - 1) (ir_ExpiresAt i) (ir_CreatedBy i) (ir_CreatedAt i) in
       Ok (row, set_invites (<[id := row]> (t_invites d)) d)
  else Err NoRows.
Definition DeleteInvite (id : Z) : Stmt Z := fun d => _ <-? get_row id (t_invites d) ;; Ok (id, set_invites (delete id (t_invites d)) d).

(** ** Completed commands *)

Section Commands.
Context `{!SqlPrims}.
Definition check_result (key hmac : string) (commandID status : Z) (body : string) (createdAt expiresAt : Z) : bool :=
  between 16 64 (text_length key) && (text_length hmac =? 64) && (0 <? commandID) && between 100 599 status && json_valid body &&
  (0 <=? createdAt) && (createdAt <? expiresAt).
Definition check_command (c : CommandIdempotency) : bool :=
  check_result (ci_IdempotencyKey c) (ci_RequestHmac c) (ci_CommandID c) (ci_Status c) (ci_ResultBody c) (ci_CreatedAt c) (ci_ExpiresAt c) &&
  between 1 256 (text_length (ci_Endpoint c)) && (text_length (ci_StreamEpoch c) =? 32) && (0 <=? ci_Geid c) && (0 <? text_length (ci_StateCursor c)).
Definition InsertCommandIdempotency (row : CommandIdempotency) : Stmt unit := fun d =>
  m <-? insert_row (check_command row) (fun a b => ci_CommandID a =? ci_CommandID b) (refers (t_users d) (Some (ci_PrincipalID row)))
          (ci_PrincipalID row, ci_IdempotencyKey row) row (t_commands d) ;; Ok (tt, set_commands m d).
Definition check_activation (a : ActivationIdempotency) : bool :=
  check_result (ai_IdempotencyKey a) (ai_RequestHmac a) (ai_CommandID a) (ai_Status a) (ai_ResultBody a) (ai_CreatedAt a) (ai_ExpiresAt a) &&
  lower_hex (ai_RequestHmac a) && (text_length (ai_ActivationCodeHash a) =? 64) && lower_hex (ai_ActivationCodeHash a).
Definition installed (d : Db) (installationID : string) : bool :=
  match t_installation d with Some i => bool_decide (is_InstallationID i = installationID) | None => false end.
Definition InsertActivationIdempotency (row : ActivationIdempotency) : Stmt unit := fun d =>
  m <-? insert_row (check_activation row) (fun a b => ai_CommandID a =? ai_CommandID b) (installed d (ai_InstallationID row))
          (ai_InstallationID row, ai_IdempotencyKey row) row (t_activations d) ;; Ok (tt, set_activations m d).
Definition check_registration (r : RegistrationIdempotency) : bool :=
  check_result (ri_IdempotencyKey r) (ri_RequestHmac r) (ri_CommandID r) (ri_Status r) (ri_ResultBody r) (ri_CreatedAt r) (ri_ExpiresAt r) &&
  lower_hex (ri_RequestHmac r) && (text_length (ri_StreamEpoch r) =? 32) && lower_hex (ri_StreamEpoch r) && (0 <=? ri_Geid r) && (0 <? text_length (ri_StateCursor r)).
Definition InsertRegistrationIdempotency (row : RegistrationIdempotency) : Stmt unit := fun d =>
  m <-? insert_row (check_registration row) (fun a b => ri_CommandID a =? ri_CommandID b) (installed d (ri_InstallationID row))
          (ri_InstallationID row, ri_IdempotencyKey row) row (t_registrations d) ;; Ok (tt, set_registrations m d).
End Commands.

(** [WHERE key = ... AND expires_at > ?]. *)
Definition get_unexpired {K A} `{Countable K} (expiresAt : A -> Z) (key : K) (now : Z) (m : gmap K A) : result A SqlError :=
  row <-? get_row key m ;; if now <? expiresAt row then Ok row else Err NoRows.
Definition GetCommandIdempotency (principalID : Z) (key : string) (now : Z) : Stmt CommandIdempotency :=
  reading (fun d => get_unexpired ci_ExpiresAt (principalID, key) now (t_commands d)).
Definition GetActivationIdempotency (installationID key : string) (now : Z) : Stmt ActivationIdempotency :=
  reading (fun d => get_unexpired ai_ExpiresAt (installationID, key) now (t_activations d)).
Definition GetRegistrationIdempotency (installationID key : string) (now : Z) : Stmt RegistrationIdempotency :=
  reading (fun d => get_unexpired ri_ExpiresAt (installationID, key) now (t_registrations d)).
Definition drop_expired {K A} `{Countable K} (expiresAt : A -> Z) (now : Z) (m : gmap K A) : Z * gmap K A :=
  let m' := drop_rows (fun r => expiresAt r <=? now) m in (Z.of_nat (size m) - Z.of_nat (size m'), m').
Definition DeleteExpiredCommandIdempotency (now : Z) : Stmt Z := fun d =>
  let '(n, m) := drop_expired ci_ExpiresAt now (t_commands d) in Ok (n, set_commands m d).
Definition DeleteExpiredActivationIdempotency (now : Z) : Stmt Z := fun d =>
  let '(n, m) := drop_expired ai_ExpiresAt now (t_activations d) in Ok (n, set_activations m d).
Definition DeleteExpiredRegistrationIdempotency (now : Z) : Stmt Z := fun d =>
  let '(n, m) := drop_expired ri_ExpiresAt now (t_registrations d) in Ok (n, set_registrations m d).
Definition CountDurableIdempotency : Stmt Z := reading (fun d =>
  Ok (Z.of_nat (size (t_commands d)) + Z.of_nat (size (t_activations d)) + Z.of_nat (size (t_registrations d)))).

(** ** Objects *)

(** A conflict on the key replaces every other column. *)
Definition UpsertObject (row : ObjectRow) : Stmt ObjectRow := fun d =>
  if negb (check_object row) then Err CheckFailed
  else Ok (row, set_objects (<[(or_Bucket row, or_Name row) := row]> (t_objects d)) d).
Definition GetObject (bucket name : string) : Stmt ObjectRow := reading (fun d => get_row (bucket, name) (t_objects d)).
Definition DeleteObject (bucket name : string) : Stmt unit := fun d =>
  Ok (tt, set_objects (delete (bucket, name) (t_objects d)) d).

End Database.
