(* ===== verification/DatabaseProps.v ===== *)
(** * DatabaseProps: the schema is an invariant of every statement

    [db_ok] is the invariant in terms of the checks and conflicts the statements
    enforce, and every statement keeps it.  [declared] says the same in terms of
    [schema.sql]: the columns, unique indexes and references of each table on
    its rows; [db_ok] implies it. *)

From S2P Require Import Prelude State Support Database.
From stdpp Require Import base gmap strings list fin_maps sorting.
From Stdlib Require Import ZArith Lia.
#[local] Open Scope string_scope.
#[local] Open Scope list_scope.
#[local] Open Scope Z_scope.

Module DatabaseProps.
Import State Etag Database.

(** ** One table *)

(** Rows are filed under their key, satisfy their checks and do not conflict. *)
Record table_ok {K A} `{Countable K} (key : A -> K) (check : A -> bool) (conflict : A -> A -> bool) (m : gmap K A) : Prop := {
  to_row : forall k r, m !! k = Some r -> key r = k /\ check r = true;
  to_unique : forall i j x y, m !! i = Some x -> m !! j = Some y -> i <> j -> conflict x y = false
}.

(** Every reference of a row of [m] is a key of [t]. *)
Definition refs {K A J B} `{Countable K, Countable J} (f : A -> option J) (m : gmap K A) (t : gmap J B) : Prop :=
  forall k r x, m !! k = Some r -> f r = Some x -> is_Some (t !! x).

Section Tables.
Context {K A : Type} `{Countable K} (key : A -> K) (check : A -> bool) (conflict : A -> A -> bool).
Implicit Types m : gmap K A.

Lemma exists_row_false (p : A -> bool) m k r : exists_row p m = false -> m !! k = Some r -> p r = false.
Proof.
  unfold exists_row. intros He Hk. destruct (p r) eqn:Hp; [|done]. rewrite <- He. symmetry. apply existsb_exists. exists r.
  split; [|done]. apply list_elem_of_In, list_elem_of_fmap. exists (k, r). split; [done|]. by apply elem_of_map_to_list.
Qed.

Lemma exists_row_true (p : A -> bool) m k r : m !! k = Some r -> p r = true -> exists_row p m = true.
Proof. intros Hk Hp. destruct (exists_row p m) eqn:He; [done|]. by rewrite (exists_row_false p m k r He Hk) in Hp. Qed.

Lemma insert_row_inv checked b k row m m' : insert_row checked conflict b k row m = Ok m' ->
  checked = true /\ m !! k = None /\ exists_row (conflict row) m = false /\ b = true /\ m' = <[k := row]> m.
Proof.
  unfold insert_row. destruct checked; cbn [negb]; [|done]. case_bool_decide as Hk; cbn [orb]; [done|].
  destruct (exists_row (conflict row) m) eqn:He; [done|]. destruct b; cbn [negb]; [|done]. intros [= <-].
  split_and!; try done. destruct (m !! k); [|done]. by destruct Hk.
Qed.

Lemma table_insert k row m : (forall a b, conflict a b = conflict b a) -> key row = k -> check row = true -> m !! k = None ->
  exists_row (conflict row) m = false -> table_ok key check conflict m -> table_ok key check conflict (<[k := row]> m).
Proof.
  intros Hsym Hkey Hc Hk He [T1 T2]. split.
  - intros k' r [[<- <-]|[_ Hr]]%lookup_insert_Some; [done|by apply T1].
  - intros i j x y [[<- <-]|[Hi Hx]]%lookup_insert_Some [[<- <-]|[Hj Hy]]%lookup_insert_Some Hne; try done.
    + by eapply exists_row_false.
    + rewrite Hsym. by eapply exists_row_false.
    + by eapply T2.
Qed.

Lemma update_row_inv (chk : A -> bool) b f k m r m' : update_row chk b f k m = Ok (r, m') ->
  exists old, m !! k = Some old /\ r = f old /\ chk (f old) = true /\ b (f old) = true /\ m' = <[k := f old]> m.
Proof.
  unfold update_row. destruct (m !! k) as [old|]; [|done]. destruct (chk (f old)) eqn:Hc; cbn [negb]; [|done].
  destruct (b (f old)) eqn:Hb; cbn [negb]; [|done]. intros [= <- <-]. by exists old.
Qed.

Lemma table_update k old new m : (forall a b, conflict a b = conflict b a) -> (forall b, conflict new b = conflict old b) ->
  key new = key old -> check new = true -> m !! k = Some old ->
  table_ok key check conflict m -> table_ok key check conflict (<[k := new]> m).
Proof.
  intros Hsym Hcf Hkey Hc Hk [T1 T2]. split.
  - intros k' r [[<- <-]|[_ Hr]]%lookup_insert_Some; [|by apply T1]. rewrite Hkey. split; [by eapply T1|done].
  - intros i j x y [[<- <-]|[Hi Hx]]%lookup_insert_Some [[<- <-]|[Hj Hy]]%lookup_insert_Some Hne; try done.
    + rewrite Hcf. by eapply T2.
    + rewrite Hsym, Hcf. eapply T2; [done|done|congruence].
    + by eapply T2.
Qed.

Lemma table_replace k new m : (forall a b, conflict a b = conflict b a) -> key new = k -> check new = true ->
  (forall j y, m !! j = Some y -> j <> k -> conflict new y = false) -> table_ok key check conflict m -> table_ok key check conflict (<[k := new]> m).
Proof.
  intros Hsym Hkey Hc Hcf [T1 T2]. split.
  - intros k' r [[<- <-]|[_ Hr]]%lookup_insert_Some; [done|by apply T1].
  - intros i j x y [[<- <-]|[Hi Hx]]%lookup_insert_Some [[<- <-]|[Hj Hy]]%lookup_insert_Some Hne; try done.
    + by eapply Hcf.
    + rewrite Hsym. by eapply Hcf.
    + by eapply T2.
Qed.

Lemma table_subseteq m m' : m' ⊆ m -> table_ok key check conflict m -> table_ok key check conflict m'.
Proof.
  intros Hs [T1 T2]. split.
  - intros k r Hr. apply T1. by eapply lookup_weaken.
  - intros i j x y Hx Hy. apply T2; by eapply lookup_weaken.
Qed.

Lemma table_fmap (g : A -> A) m : (forall r, key (g r) = key r) -> (forall r, check r = true -> check (g r) = true) ->
  (forall a b, conflict (g a) (g b) = conflict a b) -> table_ok key check conflict m -> table_ok key check conflict (g <$> m).
Proof.
  intros Hk Hc Hcf [T1 T2]. split.
  - intros k r Hr. rewrite lookup_fmap in Hr. destruct (m !! k) as [x|] eqn:E; [|done]. injection Hr as <-.
    destruct (T1 _ _ E) as [E1 E2]. rewrite Hk. split; [done|by apply Hc].
  - intros i j x y Hx Hy Hne. rewrite lookup_fmap in Hx, Hy. destruct (m !! i) as [x'|] eqn:Ex; [|done]. destruct (m !! j) as [y'|] eqn:Ey; [|done].
    injection Hx as <-. injection Hy as <-. rewrite Hcf. by eapply T2.
Qed.

Lemma drop_rows_subseteq (p : A -> bool) m : drop_rows p m ⊆ m.
Proof. apply map_filter_subseteq. Qed.
Lemma drop_rows_Some (p : A -> bool) m k r : drop_rows p m !! k = Some r <-> m !! k = Some r /\ p r = false.
Proof. unfold drop_rows. by rewrite map_lookup_filter_Some. Qed.
Lemma table_delete k m : table_ok key check conflict m -> table_ok key check conflict (delete k m).
Proof. apply table_subseteq, delete_subseteq. Qed.
Lemma table_drop p m : table_ok key check conflict m -> table_ok key check conflict (drop_rows p m).
Proof. apply table_subseteq, drop_rows_subseteq. Qed.
End Tables.

Lemma user_conflict_sym a b : user_conflict a b = user_conflict b a.
Proof. unfold user_conflict. apply bool_decide_ext. split; by intros ->. Qed.
Lemma access_conflict_sym a b : access_conflict a b = access_conflict b a.
Proof.
  unfold access_conflict. rewrite Z.eqb_sym. destruct (ar_Resource b =? ar_Resource a); cbn [andb]; [|done].
  rewrite (bool_decide_ext (ar_PrincipalType a = _) (ar_PrincipalType b = ar_PrincipalType a)) by (split; by intros ->).
  case_bool_decide as Ht; cbn [andb]; [|done]. rewrite Ht. case_bool_decide; apply bool_decide_ext; split; by intros ->.
Qed.
Lemma same_scope_sym t t' g g' c c' : same_scope t t' g g' c c' = same_scope t' t g' g c' c.
Proof. unfold same_scope. apply bool_decide_ext. naive_solver. Qed.
Lemma binding_conflict_sym a b : binding_conflict a b = binding_conflict b a.
Proof.
  unfold binding_conflict. rewrite (andb_comm (bool_decide (br_RoleKey a = "owner"))), same_scope_sym, Z.eqb_sym. do 3 f_equal.
  apply bool_decide_ext. split; by intros ->.
Qed.
Lemma mute_conflict_sym a b : mute_conflict a b = mute_conflict b a.
Proof. unfold mute_conflict. rewrite same_scope_sym, Z.eqb_sym. do 2 f_equal. apply bool_decide_ext. split; by intros ->. Qed.
Lemma session_conflict_sym a b : session_conflict a b = session_conflict b a.
Proof. unfold session_conflict. rewrite Z.eqb_sym. f_equal; [|f_equal]; apply bool_decide_ext; split; by intros ->. Qed.
Lemma invite_conflict_sym a b : invite_conflict a b = invite_conflict b a.
Proof. unfold invite_conflict. apply bool_decide_ext. split; by intros ->. Qed.

Section Refs.
Context {K A J B : Type} `{Countable K, Countable J} (f : A -> option J).
Implicit Types (m : gmap K A) (t : gmap J B).

Lemma refers_spec t k : refers t k = true <-> forall x, k = Some x -> is_Some (t !! x).
Proof.
  destruct k as [k|]; cbn.
  - rewrite bool_decide_eq_true. split; [by intros ? ? [= <-]|by intros Hk; apply Hk].
  - done.
Qed.

Lemma refs_insert k row m t : refers t (f row) = true -> refs f m t -> refs f (<[k := row]> m) t.
Proof.
  intros Hr Hm k' r x [[<- <-]|[_ Hk]]%lookup_insert_Some Hx; [by eapply refers_spec|by eapply Hm].
Qed.
Lemma refs_subseteq m m' t : m' ⊆ m -> refs f m t -> refs f m' t.
Proof. intros Hs Hm k r x Hk. apply (Hm k). by eapply lookup_weaken. Qed.
Lemma refs_grow m t j b : refs f m t -> refs f m (<[j := b]> t).
Proof. intros Hm k r x Hk Hx. apply lookup_insert_is_Some'. right. by eapply Hm. Qed.
Lemma refs_delete m t j : refs f m t -> (forall k r, m !! k = Some r -> f r <> Some j) -> refs f m (delete j t).
Proof.
  intros Hm Hno k r x Hk Hx. rewrite lookup_delete_ne; [by eapply Hm|]. intros <-. by eapply Hno.
Qed.
Lemma refs_fmap (g : A -> A) m t : (forall r x, f (g r) = Some x -> f r = Some x) -> refs f m t -> refs f (g <$> m) t.
Proof.
  intros Hg Hm k r x Hk Hx. rewrite lookup_fmap in Hk. destruct (m !! k) as [r'|] eqn:E; [|done]. injection Hk as <-. eapply Hm; [done|by apply Hg].
Qed.
Lemma refs_fmap_parent (g : B -> B) m t : refs f m t -> refs f m (g <$> t).
Proof. intros Hm k r x Hk Hx. rewrite lookup_fmap. apply fmap_is_Some. by eapply Hm. Qed.
Lemma refs_delete_child k m t : refs f m t -> refs f (delete k m) t.
Proof. apply refs_subseteq, delete_subseteq. Qed.
Lemma refs_drop_child p m t : refs f m t -> refs f (drop_rows p m) t.
Proof. apply refs_subseteq, drop_rows_subseteq. Qed.
(** A cascade: the children of the deleted row go with it. *)
Lemma refs_cascade p m t j : (forall r, f r = Some j -> p r = true) -> refs f m t -> refs f (drop_rows p m) (delete j t).
Proof.
  intros Hp Hm. apply refs_delete; [by apply refs_drop_child|]. intros k r [_ Hr]%drop_rows_Some Hj. by rewrite (Hp r Hj) in Hr.
Qed.
(** [SET NULL]: the children forget the deleted row. *)
Lemma refs_forget (g : A -> A) m t j : (forall r x, f (g r) = Some x -> f r = Some x /\ x <> j) -> refs f m t -> refs f (g <$> m) (delete j t).
Proof.
  intros Hg Hm. apply refs_delete; [apply refs_fmap; [|done]; intros r x Hx; by apply Hg|].
  intros k r Hr Hx. rewrite lookup_fmap in Hr. destruct (m !! k); [|done]. injection Hr as <-. by apply Hg in Hx as [_ ?].
Qed.
End Refs.

(** ** The schema *)

Section Schema.
Context `{!SqlPrims}.

Record db_ok (d : Db) : Prop := {
  ok_users : table_ok ur_ID check_user user_conflict (t_users d);
  ok_roles : table_ok rr_Key check_role no_conflict (t_roles d);
  ok_groups : table_ok gr_ID check_group no_conflict (t_groups d);
  ok_channels : table_ok cr_ID check_channel no_conflict (t_channels d);
  ok_groupAccess : table_ok ar_ID check_access access_conflict (t_groupAccess d);
  ok_channelAccess : table_ok ar_ID check_access access_conflict (t_channelAccess d);
  ok_configs : table_ok (fun c => row_scope (cf_ScopeType c) (cf_GroupID c) (cf_ChannelID c)) check_config no_conflict (t_configs d);
  ok_bindings : table_ok br_ID check_binding binding_conflict (t_bindings d);
  ok_mutes : table_ok mr_ID check_mute mute_conflict (t_mutes d);
  ok_sessions : table_ok sr_ID check_session session_conflict (t_sessions d);
  ok_invites : table_ok ir_ID check_invite invite_conflict (t_invites d);
  ok_installation : forall i, t_installation d = Some i -> check_installation i = true;
  ok_commands : table_ok (fun c => (ci_PrincipalID c, ci_IdempotencyKey c)) check_command (fun a b => ci_CommandID a =? ci_CommandID b) (t_commands d);
  ok_activations : table_ok (fun a => (ai_InstallationID a, ai_IdempotencyKey a)) check_activation (fun a b => ai_CommandID a =? ai_CommandID b) (t_activations d);
  ok_registrations : table_ok (fun r => (ri_InstallationID r, ri_IdempotencyKey r)) check_registration (fun a b => ri_CommandID a =? ri_CommandID b) (t_registrations d);
  ok_objects : table_ok (fun o => (or_Bucket o, or_Name o)) check_object no_conflict (t_objects d);
  rf_channel_group : refs cr_GroupID (t_channels d) (t_groups d);
  rf_channel_user : refs cr_CreatedBy (t_channels d) (t_users d);
  rf_groupAccess : refs (fun a => Some (ar_Resource a)) (t_groupAccess d) (t_groups d);
  rf_groupAccess_user : refs ar_UserID (t_groupAccess d) (t_users d);
  rf_groupAccess_role : refs ar_RoleKey (t_groupAccess d) (t_roles d);
  rf_channelAccess : refs (fun a => Some (ar_Resource a)) (t_channelAccess d) (t_channels d);
  rf_channelAccess_user : refs ar_UserID (t_channelAccess d) (t_users d);
  rf_channelAccess_role : refs ar_RoleKey (t_channelAccess d) (t_roles d);
  rf_config_group : refs cf_GroupID (t_configs d) (t_groups d);
  rf_config_channel : refs cf_ChannelID (t_configs d) (t_channels d);
  rf_binding_user : refs (fun b => Some (br_UserID b)) (t_bindings d) (t_users d);
  rf_binding_role : refs (fun b => Some (br_RoleKey b)) (t_bindings d) (t_roles d);
  rf_binding_group : refs br_GroupID (t_bindings d) (t_groups d);
  rf_binding_channel : refs br_ChannelID (t_bindings d) (t_channels d);
  rf_mute_user : refs (fun m => Some (mr_UserID m)) (t_mutes d) (t_users d);
  rf_mute_creator : refs mr_CreatedBy (t_mutes d) (t_users d);
  rf_mute_group : refs mr_GroupID (t_mutes d) (t_groups d);
  rf_mute_channel : refs mr_ChannelID (t_mutes d) (t_channels d);
  rf_session_user : refs (fun s => Some (sr_UserID s)) (t_sessions d) (t_users d);
  rf_invite_role : refs (fun i => Some (ir_RoleKey i)) (t_invites d) (t_roles d);
  rf_invite_user : refs ir_CreatedBy (t_invites d) (t_users d);
  rf_command_user : refs (fun c => Some (ci_PrincipalID c)) (t_commands d) (t_users d);
  rf_activation : forall k a, t_activations d !! k = Some a -> installed d (ai_InstallationID a) = true;
  rf_registration : forall k r, t_registrations d !! k = Some r -> installed d (ri_InstallationID r) = true
}.

(** A statement that keeps the schema. *)
Definition keeps {A} (s : Stmt A) : Prop := forall d a d', db_ok d -> s d = Ok (a, d') -> db_ok d'.

Lemma keeps_reading {A} (f : Db -> result A SqlError) : keeps (reading f).
Proof. intros d a d' Hd. unfold reading. destruct (f d); cbn; [|done]. by intros [= _ <-]. Qed.

(** The other tables of the new database are those of the old one. *)
Ltac db_fields :=
  cbn [set_users set_roles set_groups set_channels set_groupAccess set_channelAccess set_configs set_bindings set_mutes set_sessions set_invites
       set_installation set_commands set_activations set_registrations set_objects
       t_users t_roles t_groups t_channels t_groupAccess t_channelAccess t_configs t_bindings t_mutes t_sessions t_invites t_installation
       t_commands t_activations t_registrations t_objects] in *.
Ltac schema := constructor; db_fields; try assumption; auto using refs_grow, refs_delete_child, refs_drop_child, table_delete, table_drop.

Lemma CreateUser_keeps id username hash nickname avatar c u : keeps (CreateUser id username hash nickname avatar c u).
Proof.
  intros d a d' []. unfold CreateUser. intros (m & Hm & [= <- <-])%rbind_Ok. apply insert_row_inv in Hm as (H1 & H2 & H3 & _ & ->).
  schema. apply table_insert; eauto using user_conflict_sym.
Qed.

(** An update that keeps the username. *)
Lemma update_user_keeps f id : (forall u, ur_ID (f u) = ur_ID u /\ ur_Username (f u) = ur_Username u) -> keeps (update_user f id).
Proof.
  intros Hf d a d' []. unfold update_user. intros ((r & m) & Hm & [= <- <-])%rbind_Ok. apply update_row_inv in Hm as (old & H1 & -> & H2 & _ & ->).
  destruct (Hf old) as [E1 E2]. schema.
  apply (table_update _ _ _ _ old); auto using user_conflict_sym. intros b. unfold user_conflict. by rewrite E2.
Qed.
Lemma execute_user_keeps f id : (forall u, ur_ID (f u) = ur_ID u /\ ur_Username (f u) = ur_Username u) -> keeps (execute_user f id).
Proof.
  intros Hf d a d' Hd. unfold execute_user. destruct (update_user f id d) as [[r d1]|[]] eqn:E; try done; intros [= _ <-]; [|done].
  by eapply update_user_keeps.
Qed.

Lemma forget_Some id o x : forget id o = Some x -> o = Some x /\ x <> id.
Proof. unfold forget. case_bool_decide as E; [done|]. intros ->. split; [done|]. by intros ->. Qed.

Lemma DeleteUser_keeps id : keeps (DeleteUser id).
Proof.
  intros d a d' []. unfold DeleteUser. intros (r & _ & [= <- <-])%rbind_Ok. schema.
  all: try (apply refs_cascade; [|assumption]; intros x Hx; first [by apply bool_decide_eq_true|injection Hx as <-; apply Z.eqb_refl]).
  all: try (apply refs_forget; [intros x y; apply forget_Some|auto using refs_drop_child]).
  all: try (apply table_fmap; auto using table_drop).
  all: try (apply refs_fmap_parent; auto using refs_drop_child).
  all: apply refs_fmap; auto using refs_drop_child.
  apply refs_cascade; [|done]. intros x [= <-]. apply Z.eqb_refl.
Qed.

Lemma CreateRole_keeps key name rank c u : keeps (CreateRole key name rank c u).
Proof.
  intros d a d' []. unfold CreateRole. intros (m & Hm & [= <- <-])%rbind_Ok. apply insert_row_inv in Hm as (H1 & H2 & H3 & _ & ->).
  schema. by apply table_insert.
Qed.
Lemma SeedRole_keeps row : keeps (SeedRole row).
Proof.
  intros d a d' Hd. unfold SeedRole. destruct (insert_row _ _ _ _ _ _) as [m|] eqn:Hm; intros [= _ <-]; [|done].
  destruct Hd. apply insert_row_inv in Hm as (H1 & H2 & H3 & _ & ->). schema. by apply table_insert.
Qed.
Lemma UpdateRole_keeps name rank u key : keeps (UpdateRole name rank u key).
Proof.
  intros d a d' []. unfold UpdateRole. intros ((r & m) & Hm & [= <- <-])%rbind_Ok. apply update_row_inv in Hm as (old & H1 & -> & H2 & _ & ->).
  schema. by apply (table_update _ _ _ _ old).
Qed.
Lemma DeleteRole_keeps key : keeps (DeleteRole key).
Proof.
  intros d a d' []. unfold DeleteRole. intros (r & _ & Hr)%rbind_Ok. unfold role_referenced in Hr.
  destruct (exists_row _ (t_bindings d)) eqn:E1; [done|]. destruct (exists_row _ (t_groupAccess d)) eqn:E2; [done|].
  destruct (exists_row _ (t_channelAccess d)) eqn:E3; [done|]. destruct (exists_row _ (t_invites d)) eqn:E4; [done|]. cbn [orb] in Hr. injection Hr as <- <-.
  schema; (apply refs_delete; [done|]); intros k x Hk Hx; eapply exists_row_false in Hk; try done; apply bool_decide_eq_false in Hk; congruence.
Qed.

Lemma CreateChannelGroup_keeps id name pos vis c u : keeps (CreateChannelGroup id name pos vis c u).
Proof.
  intros d a d' []. unfold CreateChannelGroup. intros (m & Hm & [= <- <-])%rbind_Ok. apply insert_row_inv in Hm as (H1 & H2 & H3 & _ & ->).
  schema. by apply table_insert.
Qed.
Lemma update_group_keeps f id : (forall g, gr_ID (f g) = gr_ID g) -> keeps (update_group f id).
Proof.
  intros Hf d a d' []. unfold update_group. intros ((r & m) & Hm & [= <- <-])%rbind_Ok. apply update_row_inv in Hm as (old & H1 & -> & H2 & _ & ->).
  schema. by apply (table_update _ _ _ _ old).
Qed.
Lemma of_group_true id g : g = Some id -> of_group id g = true.
Proof. intros ->. by apply bool_decide_eq_true. Qed.
Lemma DeleteChannelGroup_keeps id : keeps (DeleteChannelGroup id).
Proof.
  intros d a d' []. unfold DeleteChannelGroup. intros (r & _ & Hr)%rbind_Ok. destruct (exists_row _ _) eqn:E; [done|]. injection Hr as <- <-. schema.
  all: try (apply refs_cascade; [|assumption]; intros x Hx; first [by apply of_group_true|injection Hx as <-; apply Z.eqb_refl]).
  apply refs_delete; [done|]. intros k x Hk Hx. pose proof (exists_row_false _ _ _ _ E Hk) as Hf. cbn beta in Hf. by rewrite of_group_true in Hf.
Qed.

Lemma CreateChannel_keeps id g name mode tmp vis cap pos pin by_ c u : keeps (CreateChannel id g name mode tmp vis cap pos pin by_ c u).
Proof.
  intros d a d' []. unfold CreateChannel. intros (m & Hm & [= <- <-])%rbind_Ok. apply insert_row_inv in Hm as (H1 & H2 & H3 & H4 & ->).
  unfold channel_refs in H4. apply andb_true_iff in H4 as [H4 H5]. schema; [by apply table_insert|by apply refs_insert..].
Qed.
Lemma update_channel_keeps f id : (forall c, cr_ID (f c) = cr_ID c) -> keeps (update_channel f id).
Proof.
  intros Hf d a d' []. unfold update_channel. intros ((r & m) & Hm & [= <- <-])%rbind_Ok. apply update_row_inv in Hm as (old & H1 & -> & H2 & H3 & ->).
  unfold channel_refs in H3. apply andb_true_iff in H3 as [H3 H4]. schema; [by apply (table_update _ _ _ _ old)|by apply refs_insert..].
Qed.
Lemma DeleteChannel_keeps id : keeps (DeleteChannel id).
Proof.
  intros d a d' []. unfold DeleteChannel. intros (r & _ & [= <- <-])%rbind_Ok. schema.
  all: apply refs_cascade; [|assumption]; intros x Hx; first [by apply of_group_true|injection Hx as <-; apply Z.eqb_refl].
Qed.

Lemma InsertGroupAccess_keeps id g t u k c : keeps (InsertGroupAccess id g t u k c).
Proof.
  intros d a d' []. unfold InsertGroupAccess, principal_refs. intros (m & Hm & [= <- <-])%rbind_Ok. apply insert_row_inv in Hm as (H1 & H2 & H3 & H4 & ->).
  apply andb_true_iff in H4 as [H4 [H5 H6]%andb_true_iff]. schema; [apply table_insert; auto using access_conflict_sym|by apply refs_insert..].
Qed.
Lemma InsertChannelAccess_keeps id g t u k c : keeps (InsertChannelAccess id g t u k c).
Proof.
  intros d a d' []. unfold InsertChannelAccess, principal_refs. intros (m & Hm & [= <- <-])%rbind_Ok. apply insert_row_inv in Hm as (H1 & H2 & H3 & H4 & ->).
  apply andb_true_iff in H4 as [H4 [H5 H6]%andb_true_iff]. schema; [apply table_insert; auto using access_conflict_sym|by apply refs_insert..].
Qed.
Lemma delete_access_inv r id m x m' : delete_access r id m = Ok (x, m') -> m' = delete id m.
Proof. unfold delete_access. intros (row & _ & Hr)%rbind_Ok. destruct (_ =? _); [|done]. by injection Hr. Qed.
Lemma DeleteGroupAccess_keeps g id : keeps (DeleteGroupAccess g id).
Proof. intros d a d' []. unfold DeleteGroupAccess. intros ((r & m) & ->%delete_access_inv & [= <- <-])%rbind_Ok. schema. Qed.
Lemma DeleteChannelAccess_keeps g id : keeps (DeleteChannelAccess g id).
Proof. intros d a d' []. unfold DeleteChannelAccess. intros ((r & m) & ->%delete_access_inv & [= <- <-])%rbind_Ok. schema. Qed.

Lemma config_group d g r : db_ok d -> t_configs d !! group_scope g = Some r -> is_Some (t_groups d !! g).
Proof.
  intros Hd Hr. destruct (to_row _ _ _ _ (ok_configs _ Hd) _ _ Hr) as [Hk Hc]. eapply (rf_config_group _ Hd); [exact Hr|].
  unfold check_config, check_scope in Hc. unfold row_scope, group_scope in Hk. injection Hk as Ht Hi. rewrite Ht in Hc.
  destruct (cf_GroupID r); [by rewrite Hi|]. by vm_compute in Hc.
Qed.
Lemma config_channel d c r : db_ok d -> t_configs d !! channel_scope c = Some r -> is_Some (t_channels d !! c).
Proof.
  intros Hd Hr. destruct (to_row _ _ _ _ (ok_configs _ Hd) _ _ Hr) as [Hk Hc]. eapply (rf_config_channel _ Hd); [exact Hr|].
  unfold check_config, check_scope in Hc. unfold row_scope, channel_scope in Hk. injection Hk as Ht Hi. rewrite Ht in Hc.
  destruct (cf_GroupID r); [by vm_compute in Hc|]. destruct (cf_ChannelID r); [by rewrite Hi|by vm_compute in Hc].
Qed.

Lemma UpdateServerPermissionConfig_keeps config u : keeps (UpdateServerPermissionConfig config u).
Proof.
  intros d a d' []. unfold UpdateServerPermissionConfig. intros ((r & m) & Hm & [= <- <-])%rbind_Ok. apply update_row_inv in Hm as (old & H1 & -> & H2 & _ & ->).
  schema; [by apply (table_update _ _ _ _ old)|..]; (apply refs_insert; [|done]; apply refers_spec; cbn; intros x Hx).
  - by eapply rf_config_group0.
  - by eapply rf_config_channel0.
Qed.
Lemma UpsertGroupPermissionConfig_keeps g config u v : keeps (UpsertGroupPermissionConfig g config u v).
Proof.
  intros d a d' Hd. unfold UpsertGroupPermissionConfig, upsert_config. destruct (check_config _) eqn:Hc; cbn [negb]; [|done].
  destruct (bool_decide _ || _) eqn:He; cbn [negb]; [|done]. intros [= _ <-].
  assert (Hg : is_Some (t_groups d !! g)).
  { apply orb_true_iff in He as [He|He]; [|by apply (refers_spec (t_groups d) (Some g)) ]. apply bool_decide_eq_true in He as [r Hr]. by eapply config_group. }
  destruct Hd. schema.
  - by apply table_replace.
  - apply refs_insert; [|done]. by apply bool_decide_eq_true.
  - by apply refs_insert.
Qed.
Lemma UpsertChannelPermissionConfig_keeps c config u v : keeps (UpsertChannelPermissionConfig c config u v).
Proof.
  intros d a d' Hd. unfold UpsertChannelPermissionConfig, upsert_config. destruct (check_config _) eqn:Hc; cbn [negb]; [|done].
  destruct (bool_decide _ || _) eqn:He; cbn [negb]; [|done]. intros [= _ <-].
  assert (Hg : is_Some (t_channels d !! c)).
  { apply orb_true_iff in He as [He|He]; [|by apply (refers_spec (t_channels d) (Some c)) ]. apply bool_decide_eq_true in He as [r Hr]. by eapply config_channel. }
  destruct Hd. schema.
  - by apply table_replace.
  - by apply refs_insert.
  - apply refs_insert; [|done]. by apply bool_decide_eq_true.
Qed.
Lemma SeedServerPermissionConfig_keeps config u : keeps (SeedServerPermissionConfig config u).
Proof.
  intros d a d' Hd. unfold SeedServerPermissionConfig. destruct (check_config _) eqn:Hc; cbn [negb orb]; [|by intros [= _ <-]].
  case_bool_decide; intros [= _ <-]; [done|]. destruct Hd. schema; [by apply table_replace|by apply refs_insert..].
Qed.
Lemma delete_config_keeps s id : keeps (delete_config s id).
Proof. intros d a d' []. unfold delete_config. intros (r & _ & [= <- <-])%rbind_Ok. schema. Qed.

Lemma InsertRoleBinding_keeps id user role t g c at_ : keeps (InsertRoleBinding id user role t g c at_).
Proof.
  intros d a d' []. unfold InsertRoleBinding, scope_refs. intros (m & Hm & [= <- <-])%rbind_Ok. apply insert_row_inv in Hm as (H1 & H2 & H3 & H4 & ->).
  apply andb_true_iff in H4 as [[H4 H5]%andb_true_iff [H6 H7]%andb_true_iff]. schema; [apply table_insert; auto using binding_conflict_sym|by apply refs_insert..].
Qed.
Lemma DeleteRoleBinding_keeps id : keeps (DeleteRoleBinding id).
Proof. intros d a d' []. unfold DeleteRoleBinding. intros (r & _ & [= <- <-])%rbind_Ok. schema. Qed.
Lemma DeleteServerRoleBindingsForUser_keeps user : keeps (DeleteServerRoleBindingsForUser user).
Proof. intros d a d' []. unfold DeleteServerRoleBindingsForUser. intros [= <- <-]. schema. Qed.

Lemma InsertMute_keeps id t g c user kind e by_ reason at_ : keeps (InsertMute id t g c user kind e by_ reason at_).
Proof.
  intros d a d' []. unfold InsertMute, mute_refs, scope_refs. intros (m & Hm & [= <- <-])%rbind_Ok. apply insert_row_inv in Hm as (H1 & H2 & H3 & H4 & ->).
  apply andb_true_iff in H4 as [[H4 H5]%andb_true_iff [H6 H7]%andb_true_iff]. schema; [apply table_insert; auto using mute_conflict_sym|by apply refs_insert..].
Qed.
Lemma UpdateMute_keeps e reason id : keeps (UpdateMute e reason id).
Proof.
  intros d a d' []. unfold UpdateMute. intros ((r & m) & Hm & [= <- <-])%rbind_Ok. apply update_row_inv in Hm as (old & H1 & -> & H2 & _ & ->).
  schema; [apply (table_update _ _ _ _ old); auto using mute_conflict_sym|..]; (apply refs_insert; [|done]; apply refers_spec; cbn; intros x Hx).
  - by eapply rf_mute_user0.
  - by eapply rf_mute_creator0.
  - by eapply rf_mute_group0.
  - by eapply rf_mute_channel0.
Qed.
Lemma DeleteMute_keeps id : keeps (DeleteMute id).
Proof. intros d a d' []. unfold DeleteMute. intros (r & _ & [= <- <-])%rbind_Ok. schema. Qed.
Lemma DeleteMutesForUser_keeps user : keeps (DeleteMutesForUser user).
Proof. intros d a d' []. unfold DeleteMutesForUser. intros [= <- <-]. schema. Qed.

(** Nothing refers to an installation that does not exist yet. *)
Lemma SeedInstallationState_keeps i : keeps (SeedInstallationState i).
Proof.
  intros d a d' Hd. unfold SeedInstallationState. destruct (t_installation d) eqn:Hi; cbn [is_none andb]; [by intros [= _ <-]|].
  destruct (check_installation _) eqn:Hc; intros [= _ <-]; [|done].
  destruct Hd. schema; [by intros x [= <-]|..]; intros k x Hk; exfalso.
  - specialize (rf_activation0 _ _ Hk). unfold installed in *. by rewrite Hi in *.
  - specialize (rf_registration0 _ _ Hk). unfold installed in *. by rewrite Hi in *.
Qed.
Lemma SetInstallationInitialized_keeps to from : keeps (SetInstallationInitialized to from).
Proof.
  intros d a d' Hd. unfold SetInstallationInitialized. destruct (t_installation d) as [i|] eqn:Hi; [|by intros [= _ <-]].
  destruct (_ =? _); [|by intros [= _ <-]]. destruct (check_installation _) eqn:Hc; [|done]. intros [= _ <-].
  destruct Hd. schema; [by intros x [= <-]|..]; intros k x Hk.
  - specialize (rf_activation0 _ _ Hk). unfold installed in *. db_fields. by rewrite Hi in *.
  - specialize (rf_registration0 _ _ Hk). unfold installed in *. db_fields. by rewrite Hi in *.
Qed.

Lemma find_key_Some {K A} `{Countable K} (p : A -> bool) (m : gmap K A) k : find_key p m = Some k -> exists r, m !! k = Some r /\ p r = true.
Proof.
  unfold find_key. destruct (List.find _ _) as [[k' r]|] eqn:E; cbn; [|done]. intros [= ->]. apply List.find_some in E as [Hin Hp].
  exists r. split; [|done]. by apply elem_of_map_to_list, list_elem_of_In.
Qed.

(** A session that takes a fresh token keeps its owner and device. *)
Lemma session_update d key s new : db_ok d -> t_sessions d !! key = Some s -> check_session new = true -> sr_ID new = sr_ID s ->
  sr_UserID new = sr_UserID s -> sr_DeviceID new = sr_DeviceID s -> token_taken key (sr_TokenHash new) d = false ->
  db_ok (set_sessions (<[key := new]> (t_sessions d)) d).
Proof.
  intros Hd Hs Hc E1 E2 E3 Ht. destruct (to_row _ _ _ _ (ok_sessions _ Hd) _ _ Hs) as [Hk _]. destruct Hd. schema.
  - apply table_replace; auto using session_conflict_sym; [congruence|]. intros j y Hy Hne. unfold session_conflict.
    pose proof (exists_row_false _ _ _ _ Ht Hy) as Hf. cbn beta in Hf. destruct (to_row _ _ _ _ ok_sessions0 _ _ Hy) as [Hj _].
    rewrite (proj2 (Z.eqb_neq (sr_ID y) key)) in Hf by congruence. cbn [negb andb] in Hf. apply bool_decide_eq_false in Hf.
    pose proof (to_unique _ _ _ _ ok_sessions0 _ _ _ _ Hs Hy (not_eq_sym Hne)) as Hu. unfold session_conflict in Hu. rewrite E2, E3.
    apply orb_false_iff in Hu as [_ ->]. rewrite bool_decide_false by congruence. done.
  - apply refs_insert; [|done]. apply refers_spec. intros x [= <-]. rewrite E2. by eapply rf_session_user0.
Qed.

Lemma RotateSession_keeps new used expires old now : keeps (RotateSession new used expires old now).
Proof.
  intros d a d' Hd. unfold RotateSession. destruct (find_key _ _) as [key|]; [|done]. intros (s & Hs & Hr)%rbind_Ok.
  unfold get_row in Hs. destruct (t_sessions d !! key) as [s'|] eqn:E; [|done]. injection Hs as ->.
  destruct (check_session _) eqn:Hc; cbn [negb] in Hr; [|done]. destruct (token_taken _ _ _) eqn:Ht; [done|]. injection Hr as <- <-.
  by eapply session_update.
Qed.
Lemma UpsertSession_keeps row : keeps (UpsertSession row).
Proof.
  intros d a d' Hd. unfold UpsertSession. destruct (check_session row) eqn:Hc; cbn [negb]; [|done]. destruct (find_key _ _) as [key|].
  - intros (s & Hs & Hr)%rbind_Ok. unfold get_row in Hs. destruct (t_sessions d !! key) as [s'|] eqn:E; [|done]. injection Hs as ->.
    destruct (token_taken _ _ _) eqn:Ht; [done|]. injection Hr as <- <-. eapply session_update; try done.
    destruct (to_row _ _ _ _ (ok_sessions _ Hd) _ _ E) as [_ Hcs]. unfold check_session in *. cbn. lia.
  - intros (m & Hm & [= <- <-])%rbind_Ok. apply insert_row_inv in Hm as (_ & H2 & H3 & H4 & ->). destruct Hd. schema.
    + apply table_insert; auto using session_conflict_sym.
    + by apply refs_insert.
Qed.
Lemma drop_sessions_keeps {A} (x : Db -> A) p : keeps (fun d => Ok (x d, set_sessions (drop_rows p (t_sessions d)) d)).
Proof. intros d a d' []. intros [= <- <-]. schema. Qed.
Lemma DeleteSession_keeps id : keeps (DeleteSession id).
Proof. intros d a d' []. unfold DeleteSession. intros [= <- <-]. schema. Qed.

Lemma CreateInvite_keeps row : keeps (CreateInvite row).
Proof.
  intros d a d' []. unfold CreateInvite. intros (m & Hm & [= <- <-])%rbind_Ok. apply insert_row_inv in Hm as (H1 & H2 & H3 & H4 & ->).
  apply andb_true_iff in H4 as [H4 H5]. schema; [apply table_insert; auto using invite_conflict_sym|by apply refs_insert..].
Qed.
Lemma ConsumeInvite_keeps id now : keeps (ConsumeInvite id now).
Proof.
  intros d a d' Hd. unfold ConsumeInvite. intros (i & Hi & Hr)%rbind_Ok. unfold get_row in Hi. destruct (t_invites d !! id) as [i'|] eqn:E; [|done]. injection Hi as ->.
  destruct (0 <? ir_UsesLeft i) eqn:Hu; cbn [andb] in Hr; [|done]. destruct (invite_live now i); [|done]. injection Hr as <- <-.
  destruct Hd. schema.
  - apply (table_update _ _ _ _ i); auto using invite_conflict_sym. destruct (to_row _ _ _ _ ok_invites0 _ _ E) as [_ Hc]. unfold check_invite in *. cbn.
    rewrite !andb_true_iff in *. destruct_and!. split_and!; try assumption. lia.
  - apply refs_insert; [|done]. apply refers_spec. intros x [= <-]. by eapply rf_invite_role0.
  - apply refs_insert; [|done]. apply refers_spec. intros x Hx. by eapply rf_invite_user0.
Qed.
Lemma DeleteInvite_keeps id : keeps (DeleteInvite id).
Proof. intros d a d' []. unfold DeleteInvite. intros (r & _ & [= <- <-])%rbind_Ok. schema. Qed.

Lemma InsertCommandIdempotency_keeps row : keeps (InsertCommandIdempotency row).
Proof.
  intros d a d' []. unfold InsertCommandIdempotency. intros (m & Hm & [= <- <-])%rbind_Ok. apply insert_row_inv in Hm as (H1 & H2 & H3 & H4 & ->).
  schema; [apply table_insert; auto using Z.eqb_sym|by apply refs_insert].
Qed.
Lemma InsertActivationIdempotency_keeps row : keeps (InsertActivationIdempotency row).
Proof.
  intros d a d' []. unfold InsertActivationIdempotency. intros (m & Hm & [= <- <-])%rbind_Ok. apply insert_row_inv in Hm as (H1 & H2 & H3 & H4 & ->).
  schema; [apply table_insert; auto using Z.eqb_sym|]. intros k x [[<- <-]|[_ Hx]]%lookup_insert_Some; [done|by eapply rf_activation0].
Qed.
Lemma InsertRegistrationIdempotency_keeps row : keeps (InsertRegistrationIdempotency row).
Proof.
  intros d a d' []. unfold InsertRegistrationIdempotency. intros (m & Hm & [= <- <-])%rbind_Ok. apply insert_row_inv in Hm as (H1 & H2 & H3 & H4 & ->).
  schema; [apply table_insert; auto using Z.eqb_sym|]. intros k x [[<- <-]|[_ Hx]]%lookup_insert_Some; [done|by eapply rf_registration0].
Qed.
Lemma DeleteExpiredCommandIdempotency_keeps now : keeps (DeleteExpiredCommandIdempotency now).
Proof. intros d a d' []. unfold DeleteExpiredCommandIdempotency, drop_expired. intros [= <- <-]. schema. Qed.
Lemma DeleteExpiredActivationIdempotency_keeps now : keeps (DeleteExpiredActivationIdempotency now).
Proof.
  intros d a d' []. unfold DeleteExpiredActivationIdempotency, drop_expired. intros [= <- <-]. schema. intros k x [Hx _]%drop_rows_Some. by eapply rf_activation0.
Qed.
Lemma DeleteExpiredRegistrationIdempotency_keeps now : keeps (DeleteExpiredRegistrationIdempotency now).
Proof.
  intros d a d' []. unfold DeleteExpiredRegistrationIdempotency, drop_expired. intros [= <- <-]. schema. intros k x [Hx _]%drop_rows_Some. by eapply rf_registration0.
Qed.
Lemma UpsertObject_keeps row : keeps (UpsertObject row).
Proof.
  intros d a d' []. unfold UpsertObject. destruct (check_object row) eqn:Hc; cbn [negb]; [|done]. intros [= <- <-]. schema. by apply table_replace.
Qed.
Lemma DeleteObject_keeps bucket name : keeps (DeleteObject bucket name).
Proof. intros d a d' []. unfold DeleteObject. intros [= <- <-]. schema. Qed.
End Schema.

Create HintDb schema.
#[export] Hint Resolve keeps_reading CreateUser_keeps DeleteUser_keeps CreateRole_keeps SeedRole_keeps UpdateRole_keeps DeleteRole_keeps
  CreateChannelGroup_keeps DeleteChannelGroup_keeps CreateChannel_keeps DeleteChannel_keeps InsertGroupAccess_keeps InsertChannelAccess_keeps
  DeleteGroupAccess_keeps DeleteChannelAccess_keeps UpdateServerPermissionConfig_keeps UpsertGroupPermissionConfig_keeps
  UpsertChannelPermissionConfig_keeps SeedServerPermissionConfig_keeps delete_config_keeps InsertRoleBinding_keeps DeleteRoleBinding_keeps
  DeleteServerRoleBindingsForUser_keeps InsertMute_keeps UpdateMute_keeps DeleteMute_keeps DeleteMutesForUser_keeps SeedInstallationState_keeps
  SetInstallationInitialized_keeps RotateSession_keeps UpsertSession_keeps drop_sessions_keeps DeleteSession_keeps CreateInvite_keeps ConsumeInvite_keeps
  DeleteInvite_keeps InsertCommandIdempotency_keeps InsertActivationIdempotency_keeps InsertRegistrationIdempotency_keeps
  DeleteExpiredCommandIdempotency_keeps DeleteExpiredActivationIdempotency_keeps DeleteExpiredRegistrationIdempotency_keeps
  UpsertObject_keeps DeleteObject_keeps : schema.
#[export] Hint Extern 1 (keeps (update_group _ _)) => apply update_group_keeps; done : schema.
#[export] Hint Extern 1 (keeps (update_channel _ _)) => apply update_channel_keeps; done : schema.
#[export] Hint Extern 1 (keeps (update_user _ _)) => apply update_user_keeps; done : schema.
#[export] Hint Extern 1 (keeps (execute_user _ _)) => apply execute_user_keeps; done : schema.

(** ** Every database the statements can produce *)

Section Reachable.
Context `{!SqlPrims}.

(** The writing statements of the repository. *)
Inductive statement : forall {A}, Stmt A -> Prop :=
  | st_CreateUser i n h k a c u : statement (CreateUser i n h k a c u)
  | st_UpdateUserNickname n u i : statement (UpdateUserNickname n u i)
  | st_SetUserAvatar a u i : statement (SetUserAvatar a u i)
  | st_SetUserPasswordHash h u i : statement (SetUserPasswordHash h u i)
  | st_SetUserBanned b u i : statement (SetUserBanned b u i)
  | st_TouchUserLastLogin l u i : statement (TouchUserLastLogin l u i)
  | st_BumpUserAuthVersion u i : statement (BumpUserAuthVersion u i)
  | st_DeleteUser i : statement (DeleteUser i)
  | st_CreateRole k n r c u : statement (CreateRole k n r c u)
  | st_SeedRole r : statement (SeedRole r)
  | st_UpdateRole n r u k : statement (UpdateRole n r u k)
  | st_DeleteRole k : statement (DeleteRole k)
  | st_CreateChannelGroup i n p v c u : statement (CreateChannelGroup i n p v c u)
  | st_UpdateChannelGroup n p v u i : statement (UpdateChannelGroup n p v u i)
  | st_TouchChannelGroup u i : statement (TouchChannelGroup u i)
  | st_DeleteChannelGroup i : statement (DeleteChannelGroup i)
  | st_CreateChannel i g n m t v c p q b x u : statement (CreateChannel i g n m t v c p q b x u)
  | st_UpdateChannel g n v c p q u i : statement (UpdateChannel g n v c p q u i)
  | st_TouchChannel u i : statement (TouchChannel u i)
  | st_DeleteChannel i : statement (DeleteChannel i)
  | st_InsertGroupAccess i g t u k c : statement (InsertGroupAccess i g t u k c)
  | st_InsertChannelAccess i g t u k c : statement (InsertChannelAccess i g t u k c)
  | st_DeleteGroupAccess g i : statement (DeleteGroupAccess g i)
  | st_DeleteChannelAccess g i : statement (DeleteChannelAccess g i)
  | st_UpdateServerPermissionConfig c u : statement (UpdateServerPermissionConfig c u)
  | st_UpsertGroupPermissionConfig g c u v : statement (UpsertGroupPermissionConfig g c u v)
  | st_UpsertChannelPermissionConfig g c u v : statement (UpsertChannelPermissionConfig g c u v)
  | st_SeedServerPermissionConfig c u : statement (SeedServerPermissionConfig c u)
  | st_DeleteGroupPermissionConfig g : statement (DeleteGroupPermissionConfig g)
  | st_DeleteChannelPermissionConfig c : statement (DeleteChannelPermissionConfig c)
  | st_InsertRoleBinding i u r t g c x : statement (InsertRoleBinding i u r t g c x)
  | st_DeleteRoleBinding i : statement (DeleteRoleBinding i)
  | st_DeleteServerRoleBindingsForUser u : statement (DeleteServerRoleBindingsForUser u)
  | st_InsertMute i t g c u k e b r x : statement (InsertMute i t g c u k e b r x)
  | st_UpdateMute e r i : statement (UpdateMute e r i)
  | st_DeleteMute i : statement (DeleteMute i)
  | st_DeleteMutesForUser u : statement (DeleteMutesForUser u)
  | st_SeedInstallationState i : statement (SeedInstallationState i)
  | st_SetInstallationInitialized x y : statement (SetInstallationInitialized x y)
  | st_DeleteSession i : statement (DeleteSession i)
  | st_DeleteSessionByTokenHash h : statement (DeleteSessionByTokenHash h)
  | st_DeleteSessionByPrevTokenHash h : statement (DeleteSessionByPrevTokenHash h)
  | st_DeleteUserSessions u : statement (DeleteUserSessions u)
  | st_DeleteExpiredSessions b : statement (DeleteExpiredSessions b)
  | st_RotateSession n l e o w : statement (RotateSession n l e o w)
  | st_UpsertSession r : statement (UpsertSession r)
  | st_CreateInvite r : statement (CreateInvite r)
  | st_ConsumeInvite i n : statement (ConsumeInvite i n)
  | st_DeleteInvite i : statement (DeleteInvite i)
  | st_InsertCommandIdempotency r : statement (InsertCommandIdempotency r)
  | st_InsertActivationIdempotency r : statement (InsertActivationIdempotency r)
  | st_InsertRegistrationIdempotency r : statement (InsertRegistrationIdempotency r)
  | st_DeleteExpiredCommandIdempotency n : statement (DeleteExpiredCommandIdempotency n)
  | st_DeleteExpiredActivationIdempotency n : statement (DeleteExpiredActivationIdempotency n)
  | st_DeleteExpiredRegistrationIdempotency n : statement (DeleteExpiredRegistrationIdempotency n)
  | st_UpsertObject r : statement (UpsertObject r)
  | st_DeleteObject b n : statement (DeleteObject b n).

Definition empty_db : Db := mkDb ∅ ∅ ∅ ∅ ∅ ∅ ∅ ∅ ∅ ∅ ∅ None ∅ ∅ ∅ ∅.
Inductive produced : Db -> Prop :=
  | produced_empty : produced empty_db
  | produced_step {A} (s : Stmt A) d a d' (Hs : statement s) (Hd : produced d) (Hrun : s d = Ok (a, d')) : produced d'.

Lemma statement_keeps {A} (s : Stmt A) : statement s -> keeps s.
Proof.
  destruct 1; auto with schema.
  all: unfold UpdateUserNickname, SetUserAvatar, SetUserPasswordHash, SetUserBanned, TouchUserLastLogin, BumpUserAuthVersion, UpdateChannelGroup,
    TouchChannelGroup, UpdateChannel, TouchChannel, DeleteGroupPermissionConfig, DeleteChannelPermissionConfig, DeleteSessionByTokenHash,
    DeleteSessionByPrevTokenHash, DeleteUserSessions, DeleteExpiredSessions; cbv zeta; auto with schema.
  all: apply drop_sessions_keeps.
Qed.

Lemma empty_table {K A} `{Countable K} (key : A -> K) check conflict : table_ok key check conflict (∅ : gmap K A).
Proof. split; intros ?; intros; by rewrite lookup_empty in *. Qed.
Lemma empty_refs {K A J B} `{Countable K, Countable J} (f : A -> option J) (t : gmap J B) : refs f (∅ : gmap K A) t.
Proof. intros k r x Hk. by rewrite lookup_empty in Hk. Qed.
Lemma empty_db_ok : db_ok empty_db.
Proof. constructor; cbn; auto using empty_table, empty_refs; try done; intros k x Hk; by rewrite lookup_empty in Hk. Qed.

Lemma produced_ok d : produced d -> db_ok d.
Proof. induction 1 as [|A s d a d' Hs _ IH Hrun]; [apply empty_db_ok|]. by eapply statement_keeps. Qed.

(** ** The schema as declared

    The columns, indexes and references of [schema.sql] on the rows themselves,
    table by table, without the functions that enforce them. *)

(** A unique index: an expression on the rows, defined where its [WHERE] holds;
    different rows have different values. *)
Definition unique {K A I} `{Countable K} (index : A -> option I) (m : gmap K A) : Prop :=
  forall i j x y v, m !! i = Some x -> m !! j = Some y -> index x = Some v -> index y = Some v -> i = j.
(** Every row is filed under its primary key and its columns satisfy [P]. *)
Definition rows {K A} `{Countable K} (key : A -> K) (P : A -> Prop) (m : gmap K A) : Prop := forall k r, m !! k = Some r -> key r = k /\ P r.

(** The same letter, in either case. *)
Definition same_letter (a b : Ascii.ascii) : Prop :=
  a = b \/ (65 <= Ascii.nat_of_ascii a <= 90 /\ Ascii.nat_of_ascii b = Ascii.nat_of_ascii a + 32)%nat \/
           (65 <= Ascii.nat_of_ascii b <= 90 /\ Ascii.nat_of_ascii a = Ascii.nat_of_ascii b + 32)%nat.
Definition caseless (s t : string) : Prop := Forall2 same_letter (String.list_ascii_of_string s) (String.list_ascii_of_string t).

(** The type of a scope says which of its columns is set. *)
Definition scoped (t : string) (g c : option Z) : Prop :=
  (t = "server" /\ g = None /\ c = None) \/ (t = "group" /\ is_Some g /\ c = None) \/ (t = "channel" /\ g = None /\ is_Some c).
Definition versioned (v : Z) : Prop := 1 <= v < 2 ^ 63.
Definition bit (x : Z) : Prop := x = 0 \/ x = 1.
Definition hexadecimal (s : string) : Prop :=
  Forall (fun c => 48 <= Ascii.nat_of_ascii c <= 57 \/ 97 <= Ascii.nat_of_ascii c <= 102)%nat (String.list_ascii_of_string s).

Definition user_columns (u : UserRow) : Prop := 0 < ur_ID u /\ 0 <= ur_AuthVersion u < 2 ^ 63 /\ 0 <= ur_CreatedAt u /\ 0 <= ur_UpdatedAt u.
Definition role_columns (r : RoleRow) : Prop :=
  1 <= text_length (rr_Key r) <= 64 /\ 1 <= text_length (rr_DisplayName r) <= 64 /\ 0 <= rr_Rank r <= 1000000 /\ bit (rr_Builtin r) /\ bit (rr_Immutable r) /\
  0 <= rr_CreatedAt r /\ 0 <= rr_UpdatedAt r /\ versioned (rr_Version r) /\
  ((rr_Key r = "owner" /\ rr_Rank r = 1000000 /\ rr_Builtin r = 1 /\ rr_Immutable r = 1) \/ (rr_Key r <> "owner" /\ rr_Rank r < 1000000 /\ rr_Immutable r = 0)).
Definition group_columns (g : Group) : Prop :=
  0 < gr_ID g /\ 1 <= text_length (gr_Name g) <= 64 /\ -2147483648 <= gr_Position g <= 2147483647 /\ (gr_Visibility g = "public" \/ gr_Visibility g = "private") /\
  0 <= gr_CreatedAt g /\ 0 <= gr_UpdatedAt g /\ versioned (gr_Version g).
Definition channel_columns (c : ChannelRow) : Prop :=
  0 < cr_ID c /\ 1 <= text_length (cr_Name c) <= 64 /\ (cr_Mode c = "voice" \/ cr_Mode c = "text" \/ cr_Mode c = "announcement") /\
  bit (cr_Temporary c) /\ (cr_Visibility c = "public" \/ cr_Visibility c = "private") /\ 1 <= cr_Capacity c <= 256 /\
  -2147483648 <= cr_Position c <= 2147483647 /\ bit (cr_Pinned c) /\ 0 <= cr_CreatedAt c /\ 0 <= cr_UpdatedAt c /\ versioned (cr_Version c) /\
  (cr_Temporary c = 1 -> cr_Mode c = "voice").
Definition access_columns (a : AccessRow) : Prop :=
  0 < ar_ID a /\ 0 <= ar_CreatedAt a /\
  ((ar_PrincipalType a = "user" /\ is_Some (ar_UserID a) /\ ar_RoleKey a = None) \/ (ar_PrincipalType a = "role" /\ ar_UserID a = None /\ is_Some (ar_RoleKey a))).
Definition config_columns (c : ConfigRow) : Prop :=
  scoped (cf_ScopeType c) (cf_GroupID c) (cf_ChannelID c) /\ json_valid (cf_Config c) = true /\ 0 <= cf_UpdatedAt c /\ versioned (cf_Version c).
Definition binding_columns (b : BindingRow) : Prop :=
  0 < br_ID b /\ scoped (br_ScopeType b) (br_GroupID b) (br_ChannelID b) /\ 0 <= br_CreatedAt b /\ (br_RoleKey b = "owner" -> br_ScopeType b = "server").
Definition mute_columns (m : MuteRow) : Prop :=
  0 < mr_ID m /\ scoped (mr_ScopeType m) (mr_GroupID m) (mr_ChannelID m) /\ (mr_Kind m = "text" \/ mr_Kind m = "voice" \/ mr_Kind m = "desktop_audio") /\
  0 <= mr_CreatedAt m /\ versioned (mr_Version m) /\ (forall e, mr_ExpiresAt m = Some e -> mr_CreatedAt m < e).
Definition session_columns (s : SessionRow) : Prop := 0 < sr_ID s /\ 0 <= sr_ExpiresAt s /\ 0 <= sr_LastUsedAt s /\ 0 <= sr_CreatedAt s.
Definition invite_columns (i : InviteRow) : Prop := 0 < ir_ID i /\ 0 <= ir_UsesLeft i /\ 0 <= ir_CreatedAt i /\ ir_RoleKey i <> "owner".
Definition object_columns (o : ObjectRow) : Prop := 0 <= or_Size o /\ 0 <= or_CreatedAt o.
Definition result_columns (key hmac : string) (command status : Z) (body : string) (created expires : Z) : Prop :=
  16 <= text_length key <= 64 /\ text_length hmac = 64 /\ 0 < command /\ 100 <= status <= 599 /\ json_valid body = true /\ 0 <= created < expires.
Definition command_columns (c : CommandIdempotency) : Prop :=
  result_columns (ci_IdempotencyKey c) (ci_RequestHmac c) (ci_CommandID c) (ci_Status c) (ci_ResultBody c) (ci_CreatedAt c) (ci_ExpiresAt c) /\
  1 <= text_length (ci_Endpoint c) <= 256 /\ text_length (ci_StreamEpoch c) = 32 /\ 0 <= ci_Geid c /\ 0 < text_length (ci_StateCursor c).
Definition activation_columns (a : ActivationIdempotency) : Prop :=
  result_columns (ai_IdempotencyKey a) (ai_RequestHmac a) (ai_CommandID a) (ai_Status a) (ai_ResultBody a) (ai_CreatedAt a) (ai_ExpiresAt a) /\
  hexadecimal (ai_RequestHmac a) /\ text_length (ai_ActivationCodeHash a) = 64 /\ hexadecimal (ai_ActivationCodeHash a).
Definition registration_columns (r : RegistrationIdempotency) : Prop :=
  result_columns (ri_IdempotencyKey r) (ri_RequestHmac r) (ri_CommandID r) (ri_Status r) (ri_ResultBody r) (ri_CreatedAt r) (ri_ExpiresAt r) /\
  hexadecimal (ri_RequestHmac r) /\ text_length (ri_StreamEpoch r) = 32 /\ hexadecimal (ri_StreamEpoch r) /\ 0 <= ri_Geid r /\ 0 < text_length (ri_StateCursor r).

(** The columns of an index on scoped rows of one type. *)
Definition at_server {A} (t : A -> string) (r : A) : option unit := if decide (t r = "server") then Some tt else None.
Definition at_group {A} (t : A -> string) (g : A -> option Z) (r : A) : option Z := if decide (t r = "group") then g r else None.
Definition at_channel {A} (t : A -> string) (c : A -> option Z) (r : A) : option Z := if decide (t r = "channel") then c r else None.
(** A further column. *)
Definition column {A I J} (f : A -> J) (index : A -> option I) (r : A) : option (J * I) := (fun i => (f r, i)) <$> index r.

Record declared (d : Db) : Prop := {
  dc_users : rows ur_ID user_columns (t_users d);
  dc_roles : rows rr_Key role_columns (t_roles d);
  dc_groups : rows gr_ID group_columns (t_groups d);
  dc_channels : rows cr_ID channel_columns (t_channels d);
  dc_groupAccess : rows ar_ID access_columns (t_groupAccess d);
  dc_channelAccess : rows ar_ID access_columns (t_channelAccess d);
  dc_configs : rows (fun c => row_scope (cf_ScopeType c) (cf_GroupID c) (cf_ChannelID c)) config_columns (t_configs d);
  dc_bindings : rows br_ID binding_columns (t_bindings d);
  dc_mutes : rows mr_ID mute_columns (t_mutes d);
  dc_sessions : rows sr_ID session_columns (t_sessions d);
  dc_invites : rows ir_ID invite_columns (t_invites d);
  dc_objects : rows (fun o => (or_Bucket o, or_Name o)) object_columns (t_objects d);
  dc_commands : rows (fun c => (ci_PrincipalID c, ci_IdempotencyKey c)) command_columns (t_commands d);
  dc_activations : rows (fun a => (ai_InstallationID a, ai_IdempotencyKey a)) activation_columns (t_activations d);
  dc_registrations : rows (fun r => (ri_InstallationID r, ri_IdempotencyKey r)) registration_columns (t_registrations d);
  dc_installation : forall i, t_installation d = Some i ->
    text_length (is_InstallationID i) = 32 /\ hexadecimal (is_InstallationID i) /\ bit (is_Initialized i);
  ux_username : forall i j x y, t_users d !! i = Some x -> t_users d !! j = Some y -> caseless (ur_Username x) (ur_Username y) -> i = j;
  ux_group_access_user : unique (fun a => if decide (ar_PrincipalType a = "user") then (fun u => (ar_Resource a, u)) <$> ar_UserID a else None) (t_groupAccess d);
  ux_group_access_role : unique (fun a => if decide (ar_PrincipalType a = "role") then (fun k => (ar_Resource a, k)) <$> ar_RoleKey a else None) (t_groupAccess d);
  ux_channel_access_user : unique (fun a => if decide (ar_PrincipalType a = "user") then (fun u => (ar_Resource a, u)) <$> ar_UserID a else None) (t_channelAccess d);
  ux_channel_access_role : unique (fun a => if decide (ar_PrincipalType a = "role") then (fun k => (ar_Resource a, k)) <$> ar_RoleKey a else None) (t_channelAccess d);
  ux_config_server : unique (at_server cf_ScopeType) (t_configs d);
  ux_config_group : unique (at_group cf_ScopeType cf_GroupID) (t_configs d);
  ux_config_channel : unique (at_channel cf_ScopeType cf_ChannelID) (t_configs d);
  ux_binding_server : unique (column br_UserID (column br_RoleKey (at_server br_ScopeType))) (t_bindings d);
  ux_binding_group : unique (column br_UserID (column br_RoleKey (at_group br_ScopeType br_GroupID))) (t_bindings d);
  ux_binding_channel : unique (column br_UserID (column br_RoleKey (at_channel br_ScopeType br_ChannelID))) (t_bindings d);
  ux_binding_owner : unique (fun b => if decide (br_RoleKey b = "owner") then Some (br_RoleKey b) else None) (t_bindings d);
  ux_mute_server : unique (column mr_UserID (column mr_Kind (at_server mr_ScopeType))) (t_mutes d);
  ux_mute_group : unique (column mr_UserID (column mr_Kind (at_group mr_ScopeType mr_GroupID))) (t_mutes d);
  ux_mute_channel : unique (column mr_UserID (column mr_Kind (at_channel mr_ScopeType mr_ChannelID))) (t_mutes d);
  ux_session_token : unique (fun s => Some (sr_TokenHash s)) (t_sessions d);
  ux_session_device : unique (fun s => Some (sr_UserID s, sr_DeviceID s)) (t_sessions d);
  ux_invite_code : unique (fun i => Some (ir_CodeHash i)) (t_invites d);
  ux_command : unique (fun c => Some (ci_CommandID c)) (t_commands d);
  ux_activation : unique (fun a => Some (ai_CommandID a)) (t_activations d);
  ux_registration : unique (fun r => Some (ri_CommandID r)) (t_registrations d);
  fk_channel : refs cr_GroupID (t_channels d) (t_groups d) /\ refs cr_CreatedBy (t_channels d) (t_users d);
  fk_group_access : refs (fun a => Some (ar_Resource a)) (t_groupAccess d) (t_groups d) /\ refs ar_UserID (t_groupAccess d) (t_users d) /\
    refs ar_RoleKey (t_groupAccess d) (t_roles d);
  fk_channel_access : refs (fun a => Some (ar_Resource a)) (t_channelAccess d) (t_channels d) /\ refs ar_UserID (t_channelAccess d) (t_users d) /\
    refs ar_RoleKey (t_channelAccess d) (t_roles d);
  fk_config : refs cf_GroupID (t_configs d) (t_groups d) /\ refs cf_ChannelID (t_configs d) (t_channels d);
  fk_binding : refs (fun b => Some (br_UserID b)) (t_bindings d) (t_users d) /\ refs (fun b => Some (br_RoleKey b)) (t_bindings d) (t_roles d) /\
    refs br_GroupID (t_bindings d) (t_groups d) /\ refs br_ChannelID (t_bindings d) (t_channels d);
  fk_mute : refs (fun m => Some (mr_UserID m)) (t_mutes d) (t_users d) /\ refs mr_CreatedBy (t_mutes d) (t_users d) /\
    refs mr_GroupID (t_mutes d) (t_groups d) /\ refs mr_ChannelID (t_mutes d) (t_channels d);
  fk_session : refs (fun s => Some (sr_UserID s)) (t_sessions d) (t_users d);
  fk_invite : refs (fun i => Some (ir_RoleKey i)) (t_invites d) (t_roles d) /\ refs ir_CreatedBy (t_invites d) (t_users d);
  fk_command : refs (fun c => Some (ci_PrincipalID c)) (t_commands d) (t_users d);
  fk_activation : forall k a, t_activations d !! k = Some a -> exists i, t_installation d = Some i /\ is_InstallationID i = ai_InstallationID a;
  fk_registration : forall k r, t_registrations d !! k = Some r -> exists i, t_installation d = Some i /\ is_InstallationID i = ri_InstallationID r
}.

Lemma between_spec lo hi x : between lo hi x = true <-> lo <= x <= hi.
Proof. unfold between. rewrite andb_true_iff, !Z.leb_le. lia. Qed.
Lemma bit_spec x : between 0 1 x = true -> bit x.
Proof. rewrite between_spec. unfold bit. lia. Qed.
Lemma version_spec v : version_ok v = true -> versioned v.
Proof. unfold version_ok, versioned. rewrite between_spec. lia. Qed.
Lemma is_none_spec {A} (o : option A) : is_none o = true <-> o = None.
Proof. by destruct o. Qed.
Lemma is_some_spec {A} (o : option A) : negb (is_none o) = true <-> is_Some o.
Proof. destruct o; cbn; (split; [intros ?; try done; by eexists|intros [x Hx]; done]). Qed.
Lemma check_scope_spec t g c : check_scope t g c = true -> scoped t g c.
Proof. unfold check_scope, scoped. rewrite !orb_true_iff, !andb_true_iff, !bool_decide_eq_true, !is_none_spec, !is_some_spec. tauto. Qed.
Lemma lower_hex_spec s : lower_hex s = true -> hexadecimal s.
Proof.
  unfold lower_hex, hexadecimal, chars. rewrite forallb_forall, Forall_forall. intros Hs c Hc%list_elem_of_In%Hs.
  unfold is_lower_hex, in_range in Hc. rewrite orb_true_iff, !andb_true_iff, !Nat.leb_le in Hc. lia.
Qed.

(** A check, column by column. *)
Ltac columns :=
  repeat match goal with
  | H : _ && _ = true |- _ => apply andb_true_iff in H as [? ?]
  | H : version_ok _ = true |- _ => apply version_spec in H
  | H : lower_hex _ = true |- _ => apply lower_hex_spec in H
  | H : check_scope _ _ _ = true |- _ => apply check_scope_spec in H
  | H : between 0 1 _ = true |- _ => apply bit_spec in H
  | H : between _ _ _ = true |- _ => apply between_spec in H
  | H : one_of _ _ = true |- _ => apply bool_decide_eq_true in H; rewrite !elem_of_cons, elem_of_nil in H
  | H : (_ <? _) = true |- _ => apply Z.ltb_lt in H
  | H : (_ <=? _) = true |- _ => apply Z.leb_le in H
  | H : (_ =? _) = true |- _ => apply Z.eqb_eq in H
  end; split_and?; try done; try lia; try tauto.

Lemma check_user_columns u : check_user u = true -> user_columns u.
Proof. unfold check_user, user_columns. intros. columns. Qed.
Lemma check_role_columns r : check_role r = true -> role_columns r.
Proof.
  unfold check_role, role_columns. intros Hr. apply andb_true_iff in Hr as [Hr Ho].
  assert ((rr_Key r = "owner" /\ rr_Rank r = 1000000 /\ rr_Builtin r = 1 /\ rr_Immutable r = 1) \/ (rr_Key r <> "owner" /\ rr_Rank r < 1000000 /\ rr_Immutable r = 0)).
  { case_bool_decide; [left|right]; columns. }
  clear Ho. columns.
Qed.
Lemma check_group_columns g : check_group g = true -> group_columns g.
Proof. unfold check_group, position_ok, group_columns. intros. columns. Qed.
Lemma check_channel_columns c : check_channel c = true -> channel_columns c.
Proof.
  unfold check_channel, position_ok, channel_columns. intros Hc. apply andb_true_iff in Hc as [Hc Ht].
  rewrite orb_true_iff, Z.eqb_eq, bool_decide_eq_true in Ht. assert (cr_Temporary c = 1 -> cr_Mode c = "voice") by (intros; destruct Ht; [lia|done]). columns.
Qed.
Lemma check_access_columns a : check_access a = true -> access_columns a.
Proof.
  unfold check_access, access_columns. rewrite !andb_true_iff, orb_true_iff, !andb_true_iff, !bool_decide_eq_true, !is_none_spec, !is_some_spec, Z.ltb_lt, Z.leb_le. tauto.
Qed.
Lemma check_config_columns c : check_config c = true -> config_columns c.
Proof. unfold check_config, config_columns. intros. columns. Qed.
Lemma check_binding_columns b : check_binding b = true -> binding_columns b.
Proof.
  unfold check_binding, binding_columns. intros Hb. apply andb_true_iff in Hb as [Hb Ho]. apply orb_true_iff in Ho.
  rewrite negb_true_iff, bool_decide_eq_false, bool_decide_eq_true in Ho. columns.
Qed.
Lemma check_mute_columns m : check_mute m = true -> mute_columns m.
Proof.
  unfold check_mute, mute_columns. intros Hm. apply andb_true_iff in Hm as [Hm He].
  assert (forall e, mr_ExpiresAt m = Some e -> mr_CreatedAt m < e) by (intros e E; rewrite E in He; by apply Z.ltb_lt). clear He. columns.
Qed.
Lemma check_session_columns s : check_session s = true -> session_columns s.
Proof. unfold check_session, session_columns. intros. columns. Qed.
Lemma check_invite_columns i : check_invite i = true -> invite_columns i.
Proof.
  unfold check_invite, invite_columns. intros Hi. apply andb_true_iff in Hi as [Hi Ho]. apply negb_true_iff, bool_decide_eq_false in Ho. columns.
Qed.
Lemma check_object_columns o : check_object o = true -> object_columns o.
Proof. unfold check_object, object_columns. intros. columns. Qed.
Lemma check_result_columns k h c s b x e : check_result k h c s b x e = true -> result_columns k h c s b x e.
Proof. unfold check_result, result_columns. intros. columns. Qed.
Lemma check_command_columns c : check_command c = true -> command_columns c.
Proof. unfold check_command, command_columns. intros. columns. by apply check_result_columns. Qed.
Lemma check_activation_columns a : check_activation a = true -> activation_columns a.
Proof. unfold check_activation, activation_columns. intros. columns. by apply check_result_columns. Qed.
Lemma check_registration_columns r : check_registration r = true -> registration_columns r.
Proof. unfold check_registration, registration_columns. intros. columns. by apply check_result_columns. Qed.

Lemma rows_of_table {K A} `{Countable K} (key : A -> K) (P : A -> Prop) check conflict m :
  (forall r, check r = true -> P r) -> table_ok key check conflict m -> rows key P m.
Proof. intros HP [T _] k r [? ?]%T. split; [done|by apply HP]. Qed.
Lemma unique_of_table {K A I} `{Countable K} (index : A -> option I) (key : A -> K) check conflict m :
  (forall x y v, index x = Some v -> index y = Some v -> conflict x y = true) -> table_ok key check conflict m -> unique index m.
Proof.
  intros Hc [_ T] i j x y v Hx Hy Ex Ey. destruct (decide (i = j)) as [|Hne]; [done|]. specialize (T _ _ _ _ Hx Hy Hne). by rewrite (Hc x y v) in T.
Qed.

Lemma lower_letter a b : same_letter a b ->
  (if in_range a 65 90 then Ascii.ascii_of_nat (Ascii.nat_of_ascii a + 32) else a) = (if in_range b 65 90 then Ascii.ascii_of_nat (Ascii.nat_of_ascii b + 32) else b).
Proof.
  assert (Hr : forall c, in_range c 65 90 = true <-> (65 <= Ascii.nat_of_ascii c <= 90)%nat) by (intros c; unfold in_range; rewrite andb_true_iff, !Nat.leb_le; lia).
  assert (Hn : forall c, (90 < Ascii.nat_of_ascii c)%nat -> in_range c 65 90 = false) by (intros c Hc; destruct (in_range c 65 90) eqn:E; [apply Hr in E; lia|done]).
  intros [->|[[Ha Hb]|[Hb Ha]]]; [done|..].
  - rewrite (proj2 (Hr a) Ha), (Hn b) by lia. by rewrite <- Hb, Ascii.ascii_nat_embedding.
  - rewrite (proj2 (Hr b) Hb), (Hn a) by lia. by rewrite <- Ha, Ascii.ascii_nat_embedding.
Qed.
Lemma caseless_nocase s t : caseless s t -> nocase s = nocase t.
Proof.
  unfold caseless. revert t. induction s as [|a s IH]; intros [|b t] Hst; cbn in Hst |- *; inversion Hst as [|? ? ? ? Hab Hrest]; subst; [done|].
  f_equal; [by apply lower_letter|by apply IH].
Qed.

(** The conflicts of the enforced indexes cover the declared ones. *)
Lemma access_user_conflict x y (v : Z * Z) :
  (if decide (ar_PrincipalType x = "user") then (fun u => (ar_Resource x, u)) <$> ar_UserID x else None) = Some v ->
  (if decide (ar_PrincipalType y = "user") then (fun u => (ar_Resource y, u)) <$> ar_UserID y else None) = Some v -> access_conflict x y = true.
Proof.
  intros Hx Hy. destruct (decide _) as [Ex|]; [|done]. destruct (decide (_ y = _)) as [Ey|]; [|done]. apply fmap_Some in Hx as (u & Hx & ->). apply fmap_Some in Hy as (u' & Hy & [= E <-]).
  unfold access_conflict. rewrite E, Z.eqb_refl, Ex, Ey, !bool_decide_eq_true_2 by done. cbn. apply bool_decide_eq_true. congruence.
Qed.
Lemma access_role_conflict x y (v : Z * string) :
  (if decide (ar_PrincipalType x = "role") then (fun u => (ar_Resource x, u)) <$> ar_RoleKey x else None) = Some v ->
  (if decide (ar_PrincipalType y = "role") then (fun u => (ar_Resource y, u)) <$> ar_RoleKey y else None) = Some v -> access_conflict x y = true.
Proof.
  intros Hx Hy. destruct (decide _) as [Ex|]; [|done]. destruct (decide (_ y = _)) as [Ey|]; [|done]. apply fmap_Some in Hx as (u & Hx & ->). apply fmap_Some in Hy as (u' & Hy & [= E <-]).
  unfold access_conflict. rewrite E, Z.eqb_refl, Ex, Ey, bool_decide_eq_true_2 by done. rewrite bool_decide_eq_false_2 by done. cbn. apply bool_decide_eq_true. congruence.
Qed.
(** The scope columns of two rows with equal entries of one index. *)
Lemma server_scope_index {A} (t : A -> string) (g c : A -> option Z) x y v : scoped (t x) (g x) (c x) -> scoped (t y) (g y) (c y) ->
  at_server t x = Some v -> at_server t y = Some v -> same_scope (t x) (t y) (g x) (g y) (c x) (c y) = true.
Proof.
  unfold at_server. intros Sx Sy Hx Hy. destruct (decide _) as [Ex|]; [|done]. destruct (decide (t y = _)) as [Ey|]; [|done]. rewrite Ex, Ey in *.
  apply bool_decide_eq_true. destruct Sx as [(_ & -> & ->)|[(? & _)|(? & _)]], Sy as [(_ & -> & ->)|[(? & _)|(? & _)]]; done.
Qed.
Lemma group_scope_index {A} (t : A -> string) (g c : A -> option Z) x y v : scoped (t x) (g x) (c x) -> scoped (t y) (g y) (c y) ->
  at_group t g x = Some v -> at_group t g y = Some v -> same_scope (t x) (t y) (g x) (g y) (c x) (c y) = true.
Proof.
  unfold at_group. intros Sx Sy Hx Hy. destruct (decide _) as [Ex|]; [|done]. destruct (decide (t y = _)) as [Ey|]; [|done]. rewrite Ex, Ey, Hx, Hy in *.
  apply bool_decide_eq_true. destruct Sx as [(? & _)|[(_ & _ & ->)|(? & _)]], Sy as [(? & _)|[(_ & _ & ->)|(? & _)]]; done.
Qed.
Lemma channel_scope_index {A} (t : A -> string) (g c : A -> option Z) x y v : scoped (t x) (g x) (c x) -> scoped (t y) (g y) (c y) ->
  at_channel t c x = Some v -> at_channel t c y = Some v -> same_scope (t x) (t y) (g x) (g y) (c x) (c y) = true.
Proof.
  unfold at_channel. intros Sx Sy Hx Hy. destruct (decide _) as [Ex|]; [|done]. destruct (decide (t y = _)) as [Ey|]; [|done]. rewrite Ex, Ey, Hx, Hy in *.
  apply bool_decide_eq_true. destruct Sx as [(? & _)|[(? & _)|(_ & -> & _)]], Sy as [(? & _)|[(? & _)|(_ & -> & _)]]; done.
Qed.
Lemma column_Some {A I J} (f : A -> J) (index : A -> option I) x v : column f index x = Some v -> f x = v.1 /\ index x = Some v.2.
Proof. unfold column. intros (i & Hi & ->)%fmap_Some. done. Qed.

(** A scoped index on a table whose conflicts compare a user, a tag and the scope. *)
Lemma scoped_unique {K A I} `{Countable K} (key : A -> K) check conflict (t : A -> string) (g c : A -> option Z) (u : A -> Z) (tag : A -> string)
    (index : A -> option I) m :
  (forall r, check r = true -> scoped (t r) (g r) (c r)) ->
  (forall x y, u x = u y -> tag x = tag y -> same_scope (t x) (t y) (g x) (g y) (c x) (c y) = true -> conflict x y = true) ->
  (forall x y v, scoped (t x) (g x) (c x) -> scoped (t y) (g y) (c y) -> index x = Some v -> index y = Some v ->
     same_scope (t x) (t y) (g x) (g y) (c x) (c y) = true) ->
  table_ok key check conflict m -> unique (column u (column tag index)) m.
Proof.
  intros Hc Hcf Hi [T1 T2] i j x y v Hx Hy Ex Ey. destruct (decide (i = j)) as [|Hne]; [done|]. specialize (T2 _ _ _ _ Hx Hy Hne).
  apply column_Some in Ex as [Ux [Tx Ix]%column_Some], Ey as [Uy [Ty Iy]%column_Some].
  rewrite Hcf in T2; [done|congruence|congruence|]. eapply Hi; [..|exact Ix|exact Iy]; apply Hc; [by apply (T1 i)|by apply (T1 j)].
Qed.
Lemma binding_covers x y : br_UserID x = br_UserID y -> br_RoleKey x = br_RoleKey y ->
  same_scope (br_ScopeType x) (br_ScopeType y) (br_GroupID x) (br_GroupID y) (br_ChannelID x) (br_ChannelID y) = true -> binding_conflict x y = true.
Proof. intros E1 E2 E3. unfold binding_conflict. by rewrite E1, E2, E3, Z.eqb_refl, bool_decide_eq_true_2. Qed.
Lemma mute_covers x y : mr_UserID x = mr_UserID y -> mr_Kind x = mr_Kind y ->
  same_scope (mr_ScopeType x) (mr_ScopeType y) (mr_GroupID x) (mr_GroupID y) (mr_ChannelID x) (mr_ChannelID y) = true -> mute_conflict x y = true.
Proof. intros E1 E2 E3. unfold mute_conflict. by rewrite E1, E2, E3, Z.eqb_refl, bool_decide_eq_true_2. Qed.

(** One configuration row per scope: the scope is the key. *)
Lemma config_unique {I} (index : ConfigRow -> option I) m :
  (forall x y v, scoped (cf_ScopeType x) (cf_GroupID x) (cf_ChannelID x) -> scoped (cf_ScopeType y) (cf_GroupID y) (cf_ChannelID y) ->
     index x = Some v -> index y = Some v -> same_scope (cf_ScopeType x) (cf_ScopeType y) (cf_GroupID x) (cf_GroupID y) (cf_ChannelID x) (cf_ChannelID y) = true) ->
  table_ok (fun c => row_scope (cf_ScopeType c) (cf_GroupID c) (cf_ChannelID c)) check_config no_conflict m -> unique index m.
Proof.
  intros Hi [T _] i j x y v [Kx Cx]%T [Ky Cy]%T Ex Ey. apply check_config_columns in Cx as [Sx _], Cy as [Sy _].
  pose proof (Hi _ _ _ Sx Sy Ex Ey) as (E1 & E2 & E3)%bool_decide_eq_true. by rewrite <- Kx, <- Ky, E1, E2, E3.
Qed.

Lemma db_ok_declared d : db_ok d -> declared d.
Proof.
  intros []. assert (Hin : forall i, installed d i = true -> exists x, t_installation d = Some x /\ is_InstallationID x = i).
  { unfold installed. intros i. destruct (t_installation d) as [x|]; [|done]. intros E%bool_decide_eq_true. by exists x. }
  constructor; try solve [eauto]; try (eapply rows_of_table; [|eassumption]);
    eauto using check_user_columns, check_role_columns, check_group_columns, check_channel_columns, check_access_columns, check_config_columns,
      check_binding_columns, check_mute_columns, check_session_columns, check_invite_columns, check_object_columns, check_command_columns,
      check_activation_columns, check_registration_columns.
  all: try (split_and!; assumption).
  - intros i Hi%ok_installation0. unfold check_installation in Hi. columns.
  - intros i j x y Hx Hy Hc%caseless_nocase. destruct (decide (i = j)) as [|Hne]; [done|].
    pose proof (to_unique _ _ _ _ ok_users0 _ _ _ _ Hx Hy Hne) as Hf. unfold user_conflict in Hf. by apply bool_decide_eq_false in Hf.
  - eapply unique_of_table; [exact access_user_conflict|done].
  - eapply unique_of_table; [exact access_role_conflict|done].
  - eapply unique_of_table; [exact access_user_conflict|done].
  - eapply unique_of_table; [exact access_role_conflict|done].
  - eapply config_unique; [|done]. intros x y v. apply server_scope_index.
  - eapply config_unique; [|done]. intros x y v. apply group_scope_index.
  - eapply config_unique; [|done]. intros x y v. apply channel_scope_index.
  - eapply scoped_unique; [apply check_binding_columns|exact binding_covers|intros x y v; apply server_scope_index|done].
  - eapply scoped_unique; [apply check_binding_columns|exact binding_covers|intros x y v; apply group_scope_index|done].
  - eapply scoped_unique; [apply check_binding_columns|exact binding_covers|intros x y v; apply channel_scope_index|done].
  - eapply unique_of_table; [|exact ok_bindings0]. intros x y v Hx Hy. destruct (decide _) as [Ex|]; [|done]. destruct (decide (br_RoleKey y = _)) as [Ey|]; [|done].
    unfold binding_conflict. rewrite (bool_decide_eq_true_2 (_ = "owner") Ex), (bool_decide_eq_true_2 (_ = "owner") Ey). apply orb_true_r.
  - eapply scoped_unique; [apply check_mute_columns|exact mute_covers|intros x y v; apply server_scope_index|done].
  - eapply scoped_unique; [apply check_mute_columns|exact mute_covers|intros x y v; apply group_scope_index|done].
  - eapply scoped_unique; [apply check_mute_columns|exact mute_covers|intros x y v; apply channel_scope_index|done].
  - eapply unique_of_table; [|exact ok_sessions0]. intros x y v [= <-] [= E]. unfold session_conflict. by rewrite bool_decide_eq_true_2.
  - eapply unique_of_table; [|exact ok_sessions0]. intros x y v [= <-] [= E1 E2]. unfold session_conflict. rewrite E1, E2, Z.eqb_refl, (bool_decide_eq_true_2 (sr_DeviceID x = _)) by done. apply orb_true_r.
  - eapply unique_of_table; [|exact ok_invites0]. intros x y v [= <-] [= E]. by apply bool_decide_eq_true.
  - eapply unique_of_table; [|exact ok_commands0]. intros x y v [= <-] [= E]. by apply Z.eqb_eq.
  - eapply unique_of_table; [|exact ok_activations0]. intros x y v [= <-] [= E]. by apply Z.eqb_eq.
  - eapply unique_of_table; [|exact ok_registrations0]. intros x y v [= <-] [= E]. by apply Z.eqb_eq.
Qed.

(** C30: whatever the statements of the repository do to the database, every table keeps what [schema.sql] declares, stated
    on the rows: they sit under their primary keys, their columns satisfy the checks (ranges and lengths, the columns of a
    scope, an owner binding at the server only, no owner invite), the unique indexes hold (usernames up to case, one access
    entry per resource and principal, one configuration per scope, one role binding and one mute per subject and scope, one
    owner, one session per token and device), and every reference leads to an existing row, through restricted deletions,
    cascades and nulled creators alike. *)
Theorem schema_invariant d : produced d -> declared d.
Proof. intros Hd%produced_ok. by apply db_ok_declared. Qed.
End Reachable.

Definition sample_prims : SqlPrims := {| json_valid := fun s => negb (bool_decide (s = "")); json_keys := fun _ => [] |}.
(** A group with a member's access entry, deleted again: its entry goes with it. *)
Definition after {A} (s : Stmt A) (d : Db) : Db := match s d with Ok (_, d) => d | Err _ => d end.
Definition sample_user : Db := after (CreateUser 7 "ada" "hash" "Ada" None 1 1) empty_db.
Definition sample_group : Db := after (CreateChannelGroup 10 "General" 0 "private" 1 1) sample_user.
Definition sample_access : Db := after (InsertGroupAccess 11 10 "user" (Some 7) None 2) sample_group.
Definition sample_db : Db := after (DeleteChannelGroup 10) sample_access.

Lemma after_produced `{!SqlPrims} {A} (s : Stmt A) d : statement s -> produced d -> produced (after s d).
Proof. intros Hs Hd. unfold after. destruct (s d) as [[a d']|e] eqn:E; [by eapply produced_step|done]. Qed.

Lemma schema_invariant_witness : declared (H := sample_prims) sample_db /\ is_Some (t_groupAccess sample_access !! 11) /\
  InsertGroupAccess 12 10 "user" (Some 7) None 3 sample_access = Err UniqueFailed /\ t_groupAccess sample_db = ∅ /\ t_groups sample_db = ∅.
Proof.
  split; [|split_and!; [by eexists|by vm_compute..]]. apply (schema_invariant (H := sample_prims)).
  apply after_produced; [constructor|]. apply after_produced; [constructor|]. apply after_produced; [constructor|].
  apply after_produced; [constructor|]. apply produced_empty.
Defined.

End DatabaseProps.
