(* ===== verification/Stores.v ===== *)
(** * Stores: the persistence layer ([internal/store])

    A store operation runs statements on the database of its transaction.  Each
    statement, clock reading and identifier is one step; the environment decides
    at each step whether the driver fails and what the clock reads, so a theorem
    holds whatever the driver and the clock do.  A statement that fails leaves
    the transaction as it was.  [mapError] turns constraint failures into the
    errors of the package.  The modules are the stores of [Stores]. *)

From S2P Require Import Prelude State Support Rbac Database.
From stdpp Require Import base gmap strings list fin_maps sorting.
From Stdlib Require Import ZArith Lia.
#[local] Open Scope string_scope.
#[local] Open Scope list_scope.
#[local] Open Scope Z_scope.

(** ** Transactions *)

Module Tx.
Import State Database.

Inductive StoreError :=
  | ErrNotFound | ErrConflict | ErrSessionReused | ErrOwnerBindingProtected | ErrBuiltinRoleProtected | ErrOwnerTransferForbidden
  | ErrOwnerTransferTarget | ErrInstallationInvariant | ErrTransactionRequired | ErrInvalidPermissionConfig | ErrInvalidStore
  | ErrConfigScope | ErrID | ErrDriver | ErrRandom | ErrDecode | ErrBootstrap
  | ErrInvalidIdempotencyRecord | ErrCommandIdempotencyFull | ErrCommandIdempotencyAdmission.
#[global] Instance StoreError_eq_dec : EqDecision StoreError.
Proof. solve_decision. Defined.

(** The identifier generator, and what the driver and the clock do at each step. *)
Class StoreEnv := { gen : Type; idNext : gen -> result Z unit * gen; fault : nat -> bool; clock : nat -> Z }.

(** A constraint that is neither of uniqueness nor of reference comes as the driver reports it. *)
Definition mapError (e : SqlError) : StoreError :=
  match e with NoRows => ErrNotFound | UniqueFailed | ForeignKeyFailed => ErrConflict | CheckFailed => ErrDriver end.

Section Monad.
Context `{!StoreEnv}.
Record Tx := mkTx { tx_db : Db; tx_step : nat; tx_gen : gen }.
(** An operation that may fail with an [E]. *)
Definition Act (E A : Type) : Type := Tx -> result A E * Tx.
Definition Store (A : Type) : Type := Act StoreError A.

Definition ret {E A} (a : A) : Act E A := fun t => (Ok a, t).
Definition throw {E A} (e : E) : Act E A := fun t => (Err e, t).
Definition bind {E A B} (m : Act E A) (f : A -> Act E B) : Act E B := fun t =>
  match m t with (Ok a, t) => f a t | (Err e, t) => (Err e, t) end.
(** The caller inspects the error. *)
Definition attempt {E F A} (m : Act E A) : Act F (result A E) := fun t => let '(r, t) := m t in (Ok r, t).
(** An error of a lower layer as one of the caller's. *)
Definition raise {E F A} (f : E -> F) (m : Act E A) : Act F A := fun t =>
  match m t with (Ok a, t) => (Ok a, t) | (Err e, t) => (Err (f e), t) end.
Definition next_step (t : Tx) : Tx := mkTx (tx_db t) (S (tx_step t)) (tx_gen t).
Definition query {A} (s : Stmt A) : Store A := fun t =>
  if fault (tx_step t) then (Err ErrDriver, next_step t)
  else match s (tx_db t) with
       | Err e => (Err (mapError e), next_step t)
       | Ok (a, d) => (Ok a, mkTx d (S (tx_step t)) (tx_gen t))
       end.
Definition now : Store Z := fun t => (Ok (clock (tx_step t)), next_step t).
Definition nextID : Store Z := fun t =>
  let '(r, g) := idNext (tx_gen t) in
  (match r with Ok id => Ok id | Err _ => Err ErrID end, mkTx (tx_db t) (S (tx_step t)) g).

(** [BeginTx], the body on the transaction's stores, then [Commit]; the deferred
    [Rollback] undoes a body that failed or a commit the driver refused. *)
Definition rollback (old new : Tx) : Tx := mkTx (tx_db old) (tx_step new) (tx_gen new).
Definition transaction {A} (m : Store A) : Store A := fun t =>
  if fault (tx_step t) then (Err ErrDriver, next_step t)
  else match m (next_step t) with
       | (Err e, t') => (Err e, rollback t t')
       | (Ok a, t') => if fault (tx_step t') then (Err ErrDriver, rollback t (next_step t')) else (Ok a, next_step t')
       end.
End Monad.

Declare Scope store_scope.
Delimit Scope store_scope with store.
Notation "x '<~' m ';;' k" := (bind m (fun x => k)) (at level 100, m at next level, right associativity) : store_scope.
Notation "m ';;~' k" := (bind m (fun _ => k)) (at level 100, right associativity) : store_scope.
End Tx.

Module UserStore.
Import State Database Tx.
Open Scope store_scope.
Section Store.
Context `{!StoreEnv}.
Definition Create (username passwordHash nickname : string) (avatar : option string) : Store UserRow :=
  id <~ nextID ;; t <~ now ;; query (Database.CreateUser id username passwordHash nickname avatar t t).
Definition GetByID (id : Z) : Store UserRow := query (GetUserByID id).
Definition GetByUsername (username : string) : Store UserRow := query (GetUserByUsername username).
Definition UpdateNickname (id : Z) (nickname : string) : Store UserRow := t <~ now ;; query (UpdateUserNickname nickname t id).
Definition SetAvatar (id : Z) (avatar : option string) : Store UserRow := t <~ now ;; query (SetUserAvatar avatar t id).
Definition SetPasswordHash (id : Z) (hash : string) : Store unit :=
  t <~ now ;; rows <~ query (SetUserPasswordHash hash t id) ;; if rows =? 0 then throw ErrNotFound else ret tt.
Definition TouchLastLogin (id : Z) : Store unit := t <~ now ;; query (TouchUserLastLogin (Some t) t id) ;;~ ret tt.
Definition Ban (id : Z) : Store unit := t <~ now ;; query (SetUserBanned (Some t) t id) ;;~ ret tt.
Definition Unban (id : Z) : Store unit := t <~ now ;; query (SetUserBanned None t id) ;;~ ret tt.
Definition BumpAuthVersion (id : Z) : Store unit := t <~ now ;; query (BumpUserAuthVersion t id) ;;~ ret tt.
Definition ListAll : Store (list UserRow) := query ListAllUsers.
Definition Delete (id : Z) : Store unit := query (DeleteUser id) ;;~ ret tt.
End Store.
End UserStore.

Module RoleStore.
Import State Database Tx.
Open Scope store_scope.
Section Store.
Context `{!StoreEnv}.
Definition Create (key displayName : string) (rank : Z) : Store RoleRow := t <~ now ;; query (Database.CreateRole key displayName rank t t).
Definition Update (key displayName : string) (rank : Z) : Store RoleRow :=
  current <~ query (GetRoleByKey key) ;;
  if bool_decide (rr_Key current = "owner") && negb (rank =? 1000000) then throw ErrBuiltinRoleProtected
  else t <~ now ;; query (Database.UpdateRole displayName rank t key).
Definition Get (key : string) : Store RoleRow := query (GetRoleByKey key).
Definition List : Store (list RoleRow) := query ListRoles.
Definition ListBindings (userID : Z) : Store (list BindingRow) := query (ListRoleBindingsForUser userID).
Definition ListAllBindings (limit offset : Z) : Store (list BindingRow) := query (ListRoleBindings limit offset).
Definition ListEveryBinding : Store (list BindingRow) := query ListAllRoleBindings.
Definition ListUsersWithBindings : Store (list Z) := query ListUsersWithRoleBindings.
Definition GetBinding (id : Z) : Store BindingRow := query (GetRoleBindingByID id).
Definition insertBinding (userID : Z) (roleKey scopeType : string) (groupID channelID : option Z) : Store BindingRow :=
  id <~ nextID ;; t <~ now ;; query (InsertRoleBinding id userID roleKey scopeType groupID channelID t).
Definition InsertBinding (userID : Z) (roleKey scopeType : string) (groupID channelID : option Z) : Store BindingRow :=
  if bool_decide (roleKey = "owner") then throw ErrOwnerBindingProtected else insertBinding userID roleKey scopeType groupID channelID.
Definition insertOwnerBinding (userID : Z) : Store BindingRow := insertBinding userID "owner" "server" None None.
Definition DeleteBinding (id : Z) : Store unit :=
  binding <~ query (GetRoleBindingByID id) ;;
  if bool_decide (br_RoleKey binding = "owner") then throw ErrOwnerBindingProtected
  else query (DeleteRoleBinding id) ;;~ ret tt.

Context `{!SqlPrims}.
Definition Delete (key : string) : Store unit :=
  role <~ query (GetRoleByKey key) ;;
  if negb (rr_Builtin role =? 0) then throw ErrBuiltinRoleProtected
  else references <~ query (CountRoleReferences key) ;;
       if negb (references =? 0) then throw ErrConflict else query (DeleteRole key) ;;~ ret tt.
End Store.
End RoleStore.

Module ChannelStore.
Import State Database Tx.
Open Scope store_scope.
Record ChannelInput := mkInput {
  ci_GroupID : option Z; ci_Name : string; ci_Mode : string; ci_Temporary : Z; ci_Visibility : string; ci_Capacity : Z;
  ci_Position : Z; ci_Pinned : Z; ci_CreatedBy : option Z
}.
Record ChannelUpdate := mkUpdate {
  cu_GroupID : option Z; cu_Name : string; cu_Visibility : string; cu_Capacity : Z; cu_Position : Z; cu_Pinned : Z
}.
Section Store.
Context `{!StoreEnv}.
Definition Now : Store Z := now.
Definition CreateGroup (name : string) (position : Z) (visibility : string) : Store Group :=
  id <~ nextID ;; t <~ now ;; query (CreateChannelGroup id name position visibility t t).
Definition GetGroup (id : Z) : Store Group := query (GetChannelGroup id).
Definition ListGroups : Store (list Group) := query ListChannelGroups.
Definition CountGroups : Store Z := query CountChannelGroups.
Definition UpdateGroup (id : Z) (name : string) (position : Z) (visibility : string) : Store Group :=
  t <~ now ;; query (UpdateChannelGroup name position visibility t id).
Definition TouchGroup (id : Z) : Store Group := t <~ now ;; query (TouchChannelGroup t id).
Definition DeleteGroup (id : Z) : Store unit := query (DeleteChannelGroup id) ;;~ ret tt.
Definition Create (input : ChannelInput) : Store ChannelRow :=
  id <~ nextID ;; t <~ now ;;
  query (CreateChannel id (ci_GroupID input) (ci_Name input) (ci_Mode input) (ci_Temporary input) (ci_Visibility input) (ci_Capacity input)
           (ci_Position input) (ci_Pinned input) (ci_CreatedBy input) t t).
Definition Get (id : Z) : Store ChannelRow := query (GetChannel id).
Definition List : Store (list ChannelRow) := query ListChannels.
Definition Count : Store Z := query CountChannels.
Definition CountTemporary : Store Z := query CountTemporaryChannels.
Definition CountTemporaryForCreator (creatorID : option Z) : Store Z :=
  match creatorID with None => ret 0 | Some u => query (CountTemporaryChannelsForCreator (Some u)) end.
Definition Update (id : Z) (input : ChannelUpdate) : Store ChannelRow :=
  t <~ now ;; query (UpdateChannel (cu_GroupID input) (cu_Name input) (cu_Visibility input) (cu_Capacity input) (cu_Position input) (cu_Pinned input) t id).
Definition Touch (id : Z) : Store ChannelRow := t <~ now ;; query (TouchChannel t id).
Definition Delete (id : Z) : Store unit := query (DeleteChannel id) ;;~ ret tt.
End Store.
End ChannelStore.

Module AccessStore.
Import State Database Tx.
Open Scope store_scope.
Record AccessPrincipal := mkPrincipal { ap_Type : string; ap_UserID : option Z; ap_RoleKey : option string }.
Section Store.
Context `{!StoreEnv}.
Definition AddGroup (groupID : Z) (p : AccessPrincipal) : Store AccessRow :=
  id <~ nextID ;; t <~ now ;; query (InsertGroupAccess id groupID (ap_Type p) (ap_UserID p) (ap_RoleKey p) t).
Definition ListGroup (groupID : Z) : Store (list AccessRow) := query (ListGroupAccess groupID).
Definition CountGroup (groupID : Z) : Store Z := query (CountGroupAccess groupID).
Definition DeleteGroup (groupID accessID : Z) : Store AccessRow := query (DeleteGroupAccess groupID accessID).
Definition ListAllGroups : Store (list AccessRow) := query ListAllGroupAccess.
Definition AddChannel (channelID : Z) (p : AccessPrincipal) : Store AccessRow :=
  id <~ nextID ;; t <~ now ;; query (InsertChannelAccess id channelID (ap_Type p) (ap_UserID p) (ap_RoleKey p) t).
Definition ListChannel (channelID : Z) : Store (list AccessRow) := query (ListChannelAccess channelID).
Definition CountChannel (channelID : Z) : Store Z := query (CountChannelAccess channelID).
Definition DeleteChannel (channelID accessID : Z) : Store AccessRow := query (DeleteChannelAccess channelID accessID).
Definition ListAllChannels : Store (list AccessRow) := query ListAllChannelAccess.
End Store.
End AccessStore.

Module MuteStore.
Import State Database Tx.
Open Scope store_scope.
Record MuteInput := mkInput {
  mi_ScopeType : string; mi_GroupID : option Z; mi_ChannelID : option Z; mi_UserID : Z; mi_Kind : string; mi_ExpiresAt : option Z;
  mi_CreatedBy : option Z; mi_Reason : string
}.
Section Store.
Context `{!StoreEnv}.
Definition Now : Store Z := now.
Definition Create (i : MuteInput) : Store MuteRow :=
  id <~ nextID ;; t <~ now ;;
  query (InsertMute id (mi_ScopeType i) (mi_GroupID i) (mi_ChannelID i) (mi_UserID i) (mi_Kind i) (mi_ExpiresAt i) (mi_CreatedBy i) (mi_Reason i) t).
Definition Get (id : Z) : Store MuteRow := query (GetMute id).
Definition Delete (id : Z) : Store unit := query (DeleteMute id) ;;~ ret tt.
Definition Update (id : Z) (expiresAt : option Z) (reason : string) : Store MuteRow := query (UpdateMute expiresAt reason id).
Definition CountActive : Store Z := t <~ now ;; query (CountActiveMutes t).
Definition ListForUser (userID : Z) : Store (list MuteRow) := query (ListMutesForUser userID).
Definition ListAll : Store (list MuteRow) := query ListAllMutes.
End Store.
End MuteStore.

Module SessionStore.
Import State Database Tx.
Open Scope store_scope.
Section Store.
Context `{!StoreEnv}.
Definition Upsert (userID : Z) (deviceID tokenHash : string) (expiresAt : Z) : Store SessionRow :=
  id <~ nextID ;; t <~ now ;; query (UpsertSession (mkSessionRow id userID deviceID tokenHash None expiresAt t t)).
Definition GetByTokenHash (hash : string) : Store SessionRow := query (GetSessionByTokenHash hash).
Definition GetByAnyTokenHash (hash : string) : Store SessionRow := query (GetSessionByAnyTokenHash hash).
Definition GetByID (id : Z) : Store SessionRow := query (GetSessionByID id).
(** A token that was rotated away deletes its session. *)
Definition Rotate (oldTokenHash newTokenHash : string) (expiresAt : Z) : Store SessionRow :=
  lastUsedAt <~ now ;; t <~ now ;;
  r <~ attempt (query (RotateSession newTokenHash lastUsedAt expiresAt oldTokenHash t)) ;;
  match r with
  | Ok rotated => ret rotated
  | Err ErrNotFound =>
      n <~ query (DeleteSessionByPrevTokenHash oldTokenHash) ;;
      if n =? 0 then throw ErrNotFound else throw ErrSessionReused
  | Err e => throw e
  end.
Definition Delete (id : Z) : Store unit := query (DeleteSession id).
Definition DeleteByTokenHash (hash : string) : Store unit := query (DeleteSessionByTokenHash hash).
Definition DeleteUserSessions (userID : Z) : Store unit := query (Database.DeleteUserSessions userID).
Definition DeleteExpired (before : Z) : Store Z := query (DeleteExpiredSessions before).
End Store.
End SessionStore.

Module InviteStore.
Import State Database Tx.
Open Scope store_scope.
Section Store.
Context `{!StoreEnv}.
Definition Create (codeHash roleKey : string) (usesLeft : Z) (expiresAt createdBy : option Z) : Store InviteRow :=
  id <~ nextID ;; t <~ now ;; query (CreateInvite (mkInviteRow id codeHash roleKey usesLeft expiresAt createdBy t)).
Definition GetByCodeHash (codeHash : string) : Store InviteRow := t <~ now ;; query (GetInviteByCodeHash codeHash t).
Definition Consume (id : Z) : Store InviteRow := t <~ now ;; query (ConsumeInvite id t).
Definition Delete (id : Z) : Store unit := query (DeleteInvite id) ;;~ ret tt.
End Store.
End InviteStore.

(** ** Permission configurations ([config_store.go]) *)

(** [encoding/json] on permission maps: [None] is a decoding error, [Some None]
    the nil map of [null]; a map of string lists always encodes. *)
Class ConfigJson := { json_config : string -> option (option (gmap string (list string))); json_encode : gmap string (list string) -> string }.

Module ConfigStore.
Import State Permissions Database Tx.
Open Scope store_scope.
Record ConfigScope := mkConfigScope { cs_Type : string; cs_ID : option Z }.
Record EffectiveConfig := mkEffective { ec_Scope : ConfigScope; ec_Local : option ConfigRow; ec_Source : ConfigRow }.

Definition validateConfigScope (s : ConfigScope) : bool :=
  (bool_decide (cs_Type s = "server") && is_none (cs_ID s)) ||
  ((bool_decide (cs_Type s = "group") || bool_decide (cs_Type s = "channel")) && match cs_ID s with Some i => 0 <? i | None => false end).

(** One permission of a role: the wildcard is the owner's, any other one is
    known and meaningful at the scope; a repeated one is skipped. *)
Definition normalize_permission (scopeType roleKey : string) (acc : gset string * list string) (p : string) : result (gset string * list string) StoreError :=
  if bool_decide (p = Wildcard) && negb (bool_decide (roleKey = "owner")) then Err ErrInvalidPermissionConfig
  else if negb (bool_decide (p = Wildcard)) && (negb (IsKnown p) || negb (AllowedAtScope scopeType p)) then Err ErrInvalidPermissionConfig
  else Ok (add_permission acc p).
Definition normalize_permissions (scopeType roleKey : string) (raw : list string) : result (list string) StoreError :=
  acc <-? foldM (normalize_permission scopeType roleKey) (∅, []) raw ;;
  if bool_decide (roleKey = "owner") && negb (bool_decide (acc.2 = [Wildcard])) then Err ErrInvalidPermissionConfig
  else Ok (sort_permissions acc.2).
Definition lift {A} `{!StoreEnv} (r : result A StoreError) : Store A := match r with Ok a => ret a | Err e => throw e end.

(** [DefaultServerPermissionConfig]. *)
Definition default_permissions : gmap string (list string) :=
  list_to_map [("owner", [Wildcard]); ("admin", AllPermissions); ("member", [PermChannelCreateTemp])].

Section Store.
Context `{!StoreEnv, !SqlPrims, !ConfigJson}.
Definition DefaultServerPermissionConfig : string := json_encode default_permissions.

Definition Server : Store string := query GetServerPermissionConfig.
Definition ServerRow : Store ConfigRow := query GetServerPermissionConfigRow.
Definition Group (groupID : Z) : Store ConfigRow := query (GetGroupPermissionConfig groupID).
Definition Channel (channelID : Z) : Store ConfigRow := query (GetChannelPermissionConfig channelID).
Definition ListAll : Store (list ConfigRow) := query ListPermissionConfigs.

(** The loop over the roles of the map; every failure is reported as an invalid
    configuration.  Go visits them in any order, which changes neither the
    outcome nor the canonical map. *)
Fixpoint normalize_roles (scopeType : string) (entries : list (string * list string)) (canonical : gmap string (list string)) : Store (gmap string (list string)) :=
  match entries with
  | [] => ret canonical
  | (roleKey, raw) :: entries =>
      r <~ attempt (RoleStore.Get roleKey) ;;
      match r with
      | Err _ => throw ErrInvalidPermissionConfig
      | Ok _ => permissions <~ lift (normalize_permissions scopeType roleKey raw) ;;
                normalize_roles scopeType entries (<[roleKey := permissions]> canonical)
      end
  end.
Definition normalize (scopeType raw : string) : Store string :=
  match json_config raw with
  | None | Some None => throw ErrInvalidPermissionConfig
  | Some (Some config) => canonical <~ normalize_roles scopeType (map_to_list config) ∅ ;; ret (json_encode canonical)
  end.
Definition Canonicalize (scopeType raw : string) : Store string :=
  if negb (one_of ["server"; "group"; "channel"] scopeType) then throw ErrInvalidPermissionConfig else normalize scopeType raw.

Definition validateRootConfig (raw : string) : bool :=
  match json_config raw with
  | None => false
  | Some m => let config := default ∅ m in
      forallb (fun role => bool_decide (is_Some (config !! role))) ["owner"; "admin"; "member"] && bool_decide (config !! "owner" = Some [Wildcard])
  end.

Definition PutGroup (groupID : Z) (config : string) (version t : Z) : Store ConfigRow :=
  config <~ normalize "group" config ;; query (UpsertGroupPermissionConfig groupID config t version).
Definition PutChannel (channelID : Z) (config : string) (version t : Z) : Store ConfigRow :=
  config <~ normalize "channel" config ;; query (UpsertChannelPermissionConfig channelID config t version).
Definition ResetGroup (groupID : Z) : Store unit := query (DeleteGroupPermissionConfig groupID) ;;~ ret tt.
Definition ResetChannel (channelID : Z) : Store unit := query (DeleteChannelPermissionConfig channelID) ;;~ ret tt.

Definition Effective (scope : ConfigScope) : Store EffectiveConfig :=
  if negb (validateConfigScope scope) then throw ErrConfigScope
  else root <~ ServerRow ;;
  match cs_ID scope with
  | None => ret (mkEffective scope (Some root) root)
  | Some id =>
      if bool_decide (cs_Type scope = "group") then
        query (GetChannelGroup id) ;;~
        local <~ attempt (Group id) ;;
        match local with
        | Err ErrNotFound => ret (mkEffective scope None root)
        | Err e => throw e
        | Ok local => ret (mkEffective scope (Some local) local)
        end
      else
        channel <~ query (GetChannel id) ;;
        local <~ attempt (Channel id) ;;
        match local with
        | Ok local => ret (mkEffective scope (Some local) local)
        | Err ErrNotFound =>
            match cr_GroupID channel with
            | None => ret (mkEffective scope None root)
            | Some g =>
                group <~ attempt (Group g) ;;
                match group with
                | Ok group => ret (mkEffective scope None group)
                | Err ErrNotFound => ret (mkEffective scope None root)
                | Err e => throw e
                end
            end
        | Err e => throw e
        end
  end.

(** The local row's version, zero where the scope inherits. *)
Definition local_version (row : Store ConfigRow) : Store Z :=
  local <~ attempt row ;; match local with Ok local => ret (cf_Version local) | Err ErrNotFound => ret 0 | Err e => throw e end.
Definition Update (scope : ConfigScope) (raw : string) : Store EffectiveConfig :=
  if negb (validateConfigScope scope) then throw ErrConfigScope
  else match cs_ID scope with
  | None =>
      config <~ normalize "server" raw ;;
      if negb (validateRootConfig config) then throw ErrInvalidPermissionConfig
      else t <~ now ;; row <~ query (UpdateServerPermissionConfig config t) ;; ret (mkEffective scope (Some row) row)
  | Some id =>
      Effective scope ;;~
      if bool_decide (cs_Type scope = "group") then
        v <~ local_version (Group id) ;; t <~ now ;; row <~ PutGroup id raw (i64 (v + 1)) t ;; ret (mkEffective scope (Some row) row)
      else v <~ local_version (Channel id) ;; t <~ now ;; row <~ PutChannel id raw (i64 (v + 1)) t ;; ret (mkEffective scope (Some row) row)
  end.
Definition ignore_missing (m : Store unit) : Store unit :=
  r <~ attempt m ;; match r with Ok _ | Err ErrNotFound => ret tt | Err e => throw e end.
Definition Reset (scope : ConfigScope) : Store EffectiveConfig :=
  if negb (validateConfigScope scope) then throw ErrConfigScope
  else match cs_ID scope with
  | None => Update scope DefaultServerPermissionConfig
  | Some id =>
      Effective scope ;;~
      ignore_missing (if bool_decide (cs_Type scope = "group") then ResetGroup id else ResetChannel id) ;;~ Effective scope
  end.

(** [RoleStore.PermissionsForRole]: [None] for an unknown role. *)
Definition PermissionsForRole (key : string) : Store (option (list string)) :=
  r <~ attempt (query (GetRoleByKey key)) ;;
  match r with
  | Err ErrNotFound => ret None
  | Err e => throw e
  | Ok role =>
      if bool_decide (rr_Key role = "owner") then ret (Some [Wildcard])
      else config <~ Server ;;
           match json_config config with
           | None => throw ErrDecode
           | Some m => ret (Some (default [] (default ∅ m !! key)))
           end
  end.
End Store.
End ConfigStore.
