(* ===== verification/Installation.v ===== *)
(** * Installation: bootstrap, the owner, and the state projection ([internal/store])

    [installation_store.go] (the bootstrap marker, first activation and owner
    transfer), [bootstrap.go] (seeding and verification at startup) and
    [state_projection.go] (the coherent read of every synchronised table).  A
    transaction-bound [Stores] has no connection; [root] says which one an
    operation is called on.  The random installation identity is an argument. *)

From S2P Require Import Prelude State Support Rbac Database Stores Idempotency.
From stdpp Require Import base gmap strings list fin_maps sorting.
From Stdlib Require Import ZArith Lia.
#[local] Open Scope string_scope.
#[local] Open Scope list_scope.
#[local] Open Scope Z_scope.

Module Installation.
Import State Permissions Database Tx.
Open Scope store_scope.

(** [validHex]: lower-case hexadecimal of a number of bytes. *)
Definition validHex (value : string) (n : Z) : bool := (Z.of_nat (String.length value) =? n * 2) && forallb is_lower_hex (Etag.chars value).

Definition seed_roles (t : Z) : list RoleRow :=
  [mkRoleRow "owner" "Owner" 1000000 1 1 t t 1; mkRoleRow "admin" "Admin" 1000 1 0 t t 1; mkRoleRow "member" "Member" 0 1 0 t t 1].

Section Store.
Context `{!StoreEnv, !SqlPrims, !ConfigJson}.

(** ** The marker *)

Definition Get : Store InstallationState := query GetInstallationState.
Definition Seed (random : option string) : Store bool :=
  match random with
  | None => throw ErrRandom
  | Some installationID => rows <~ query (SeedInstallationState installationID) ;; ret (rows =? 1)
  end.
Definition SetInitialized (from to : Z) : Store unit :=
  rows <~ query (SetInstallationInitialized to from) ;; if negb (rows =? 1) then throw ErrConflict else ret tt.
Definition CountOwners : Store Z := query Database.CountOwners.

(** ** The owner *)

Definition require_one_owner : Store unit := owners <~ CountOwners ;; if negb (owners =? 1) then throw ErrInstallationInvariant else ret tt.

Definition ActivateFirstOwner (root : bool) (userID : Z) : Store unit :=
  if root then throw ErrTransactionRequired
  else state <~ Get ;; owners <~ CountOwners ;;
  if negb (is_Initialized state =? 0) || negb (owners =? 0) then throw ErrConflict
  else RoleStore.insertOwnerBinding userID ;;~ SetInitialized 0 1 ;;~ require_one_owner.

Definition TransferOwnerInTx (root : bool) (currentUserID targetUserID : Z) : Store unit :=
  if root then throw ErrTransactionRequired
  else if currentUserID =? targetUserID then throw ErrOwnerTransferTarget
  else state <~ Get ;; owners <~ CountOwners ;;
  if negb (is_Initialized state =? 1) || negb (owners =? 1) then throw ErrInstallationInvariant
  else owner <~ query GetOwnerBinding ;;
  if negb (br_UserID owner =? currentUserID) then throw ErrOwnerTransferForbidden
  else target <~ UserStore.GetByID targetUserID ;;
  if negb (is_none (ur_BannedAt target)) then throw ErrOwnerTransferTarget
  else query (DeleteServerRoleBindingsForUser targetUserID) ;;~
       query (DeleteServerRoleBindingsForUser currentUserID) ;;~
       RoleStore.insertBinding currentUserID "member" "server" None None ;;~
       RoleStore.insertOwnerBinding targetUserID ;;~
       query (DeleteMutesForUser targetUserID) ;;~
       require_one_owner.

Definition TransferOwner (root : bool) (currentUserID targetUserID : Z) : Store unit :=
  if negb root then throw ErrTransactionRequired
  else if currentUserID =? targetUserID then throw ErrOwnerTransferTarget
  else transaction (TransferOwnerInTx false currentUserID targetUserID).

(** ** Bootstrap *)

(** The checks of one role's grants; Go visits the roles in any order. *)
Definition grants_valid (roles : gmap string RoleRow) (entry : string * list string) : bool :=
  bool_decide (is_Some (roles !! entry.1)) &&
  forallb (fun p => if bool_decide (p = Wildcard) then bool_decide (entry.1 = "owner") else IsKnown p) entry.2.
Definition validatePermissionConfig (raw : string) (roles : gmap string RoleRow) : bool :=
  match json_config raw with
  | None => false
  | Some m => let config := default ∅ m in
      forallb (grants_valid roles) (map_to_list config) &&
      forallb (fun key => bool_decide (is_Some (config !! key))) ["owner"; "admin"; "member"] &&
      bool_decide (config !! "owner" = Some [Wildcard])
  end.
Definition owner_role_ok (o : option RoleRow) : bool :=
  match o with Some r => (rr_Rank r =? 1000000) && (rr_Builtin r =? 1) && (rr_Immutable r =? 1) | None => false end.
Definition builtin_role_ok (o : option RoleRow) : bool :=
  match o with Some r => (rr_Builtin r =? 1) && (rr_Immutable r =? 0) && (rr_Rank r <? 1000000) | None => false end.

(** Every error is wrapped with what it concerns. *)
Definition wrapped {A} (m : Store A) : Store A :=
  r <~ attempt m ;; match r with Ok a => ret a | Err _ => throw ErrBootstrap end.
Definition verifyInstallation : Store unit :=
  state <~ wrapped Get ;;
  if negb (validHex (is_InstallationID state) 16) then throw ErrBootstrap
  else roles <~ wrapped RoleStore.List ;;
  let byKey : gmap string RoleRow := list_to_map ((fun r => (rr_Key r, r)) <$> roles) in
  if negb (owner_role_ok (byKey !! "owner")) then throw ErrBootstrap
  else if negb (forallb (fun key => builtin_role_ok (byKey !! key)) ["admin"; "member"]) then throw ErrBootstrap
  else config <~ wrapped ConfigStore.Server ;;
  if negb (validatePermissionConfig config byKey) then throw ErrBootstrap
  else owners <~ wrapped CountOwners ;;
  if ((is_Initialized state =? 0) && negb (owners =? 0)) || ((is_Initialized state =? 1) && negb (owners =? 1)) then throw ErrBootstrap
  else if negb (is_Initialized state =? 0) && negb (is_Initialized state =? 1) then throw ErrBootstrap
  else ret tt.

Fixpoint seed_each (roles : list RoleRow) : Store unit :=
  match roles with [] => ret tt | r :: roles => query (SeedRole r) ;;~ seed_each roles end.
Definition announcements : ChannelStore.ChannelInput := ChannelStore.mkInput None "Announcements" "announcement" 0 "public" 256 0 0 None.
Definition SeedAndVerify (random : option string) : Store unit :=
  transaction (
    created <~ Seed random ;; t <~ now ;;
    seed_each (seed_roles t) ;;~
    query (SeedServerPermissionConfig ConfigStore.DefaultServerPermissionConfig t) ;;~
    (if created then ChannelStore.Create announcements ;;~ ret tt else ret tt) ;;~
    verifyInstallation).

(** ** The projection *)

Definition loadStateProjection : Store StateProjection :=
  users <~ UserStore.ListAll ;; roles <~ RoleStore.List ;; groups <~ ChannelStore.ListGroups ;; channels <~ ChannelStore.List ;;
  groupAccess <~ AccessStore.ListAllGroups ;; channelAccess <~ AccessStore.ListAllChannels ;; bindings <~ RoleStore.ListEveryBinding ;;
  configs <~ ConfigStore.ListAll ;; mutes <~ MuteStore.ListAll ;;
  ret (mkProjection users roles groups channels groupAccess channelAccess bindings configs mutes).
(** A root store opens a read transaction of its own. *)
Definition LoadStateProjection (root : bool) : Store StateProjection :=
  if root then transaction loadStateProjection else loadStateProjection.
End Store.
End Installation.
