(* ===== verification/InstallationProps.v ===== *)
(** * InstallationProps: the projection of the tables, and the owner

    The loader reads every synchronised table of a database that keeps its
    schema into exactly the state the tables describe, and never fails on one;
    the owner is unique and moves only by a complete transfer; a refresh token is
    exchanged at most once. *)

From S2P Require Import Prelude State StateProps Support Rbac Database DatabaseProps Stores Idempotency Installation.
From stdpp Require Import base gmap strings list fin_maps sorting pretty.
From Stdlib Require Import ZArith Lia.
#[local] Open Scope string_scope.
#[local] Open Scope list_scope.
#[local] Open Scope Z_scope.

Module InstallationProps.
Import State StateProps Database DatabaseProps Tx Installation.

(** ** Loading succeeds *)

Lemma insert_unique_fresh {K} `{Countable K} {A} kind text k (a : A) (m : gmap K A) : m !! k = None -> insert_unique kind text k a m = Ok (<[k := a]> m).
Proof. unfold insert_unique. by intros ->. Qed.

Lemma load_table_total {K} `{Countable K} {Row A} kind text (conv : Row -> result A ProjectionError) (key : A -> K) (rkey : Row -> K) rows (m : gmap K A) :
  (forall r, r ∈ rows -> exists a, conv r = Ok a /\ key a = rkey r) -> NoDup (rkey <$> rows) -> (forall r, r ∈ rows -> m !! rkey r = None) ->
  exists m', foldM (fun m r => a <-? conv r ;; insert_unique kind text (key a) a m) m rows = Ok m'.
Proof.
  revert m. induction rows as [|r rows IH]; intros m Hc Hn Hm; [by exists m|]. cbn [foldM].
  destruct (Hc r (list_elem_of_here _ _)) as (a & Ha & Hk). rewrite Ha. cbn [rbind]. rewrite Hk, insert_unique_fresh by (apply Hm; left). cbn [rbind].
  rewrite fmap_cons in Hn. apply NoDup_cons in Hn as [Hr Hn]. apply IH; [intros; apply Hc; by right|done|].
  intros r' Hr'. rewrite lookup_insert_ne; [apply Hm; by right|]. intros E. apply Hr. rewrite E. by apply list_elem_of_fmap_2.
Qed.

Lemma load_groups_total {Row A} (conv : Row -> result A ProjectionError) (owner : Row -> Z) rows m :
  (forall r, r ∈ rows -> exists a, conv r = Ok a) -> exists m', foldM (fun m r => a <-? conv r ;; Ok (push (owner r) a m)) m rows = Ok m'.
Proof.
  revert m. induction rows as [|r rows IH]; intros m Hc; [by exists m|]. cbn [foldM]. destruct (Hc r (list_elem_of_here _ _)) as [a ->]. cbn [rbind].
  apply IH. intros; apply Hc; by right.
Qed.

Lemma load_mute_fresh mm r a : muteFromDB r = Ok a -> mm.1 !! mr_ID r = None ->
  load_mute mm r = Ok (<[mr_ID r := a]> mm.1, push (mu_UserID a) a mm.2).
Proof.
  intros Ha Hm. assert (Hk : mu_ID a = mr_ID r) by (unfold muteFromDB in Ha; by apply rbind_Ok in Ha as (s & _ & [= <-])).
  unfold load_mute. rewrite Ha. cbn [rbind]. rewrite Hk, insert_unique_fresh by done. done.
Qed.

Lemma load_mutes_total rows (mm : gmap Z Mute * gmap Z (list Mute)) :
  (forall r, r ∈ rows -> exists a, muteFromDB r = Ok a) -> NoDup (mr_ID <$> rows) -> (forall r, r ∈ rows -> mm.1 !! mr_ID r = None) ->
  exists mm', foldM load_mute mm rows = Ok mm'.
Proof.
  revert mm. induction rows as [|r rows IH]; intros mm Hc Hn Hm; [by exists mm|]. cbn [foldM]. destruct (Hc r (list_elem_of_here _ _)) as [a Ha].
  rewrite (load_mute_fresh _ _ a) by (try done; apply Hm; left). cbn [rbind]. rewrite fmap_cons in Hn. apply NoDup_cons in Hn as [Hr Hn].
  apply IH; [intros; apply Hc; by right|done|]. intros r' Hr'. cbn. rewrite lookup_insert_ne; [apply Hm; by right|].
  intros E. apply Hr. rewrite E. by apply list_elem_of_fmap_2.
Qed.

Lemma foldM_pure {A B E} (f : A -> B -> A) l a : foldM (fun a b => Ok (f a b)) a l = Ok (fold_left f l a) :> result A E.
Proof. revert a. induction l as [|b l IH]; intros a; [done|]. cbn. apply IH. Qed.

(** ** Rows of a sound table *)

Section Rows.
Context {K A : Type} `{Countable K} (key : A -> K) (check : A -> bool) (conflict : A -> A -> bool) (m : gmap K A) (Hm : table_ok key check conflict m).

Lemma elem_of_rows r : r ∈ (map_to_list m).*2 <-> m !! key r = Some r.
Proof.
  rewrite list_elem_of_fmap. split.
  - intros ([k x] & -> & Hx%elem_of_map_to_list). cbn. by rewrite (proj1 (to_row _ _ _ _ Hm _ _ Hx)).
  - intros Hr. exists (key r, r). split; [done|]. by apply elem_of_map_to_list.
Qed.
Lemma rows_NoDup : NoDup (key <$> (map_to_list m).*2).
Proof.
  assert (E : key <$> (map_to_list m).*2 = (map_to_list m).*1); [|rewrite E; apply NoDup_fst_map_to_list].
  rewrite <- list_fmap_compose. apply list_fmap_ext. intros i [k r] Hi. cbn.
  apply list_elem_of_lookup_2, elem_of_map_to_list in Hi. by apply (to_row _ _ _ _ Hm).
Qed.
End Rows.

Section IntRows.
Context {A : Type} (key : A -> Z) (check : A -> bool) (conflict : A -> A -> bool) (m : gmap Z A) (Hm : table_ok key check conflict m).
Lemma int_key k a : m !! k = Some a -> key a = k.
Proof. intros Hk. by apply (to_row _ _ _ _ Hm). Qed.
Lemma elem_of_list_rows r : r ∈ list_rows m <-> m !! key r = Some r.
Proof.
  unfold list_rows. rewrite (elem_of_values m). split; [intros (k & Hk); by rewrite (int_key _ _ Hk)|by exists (key r)].
Qed.
Lemma list_rows_NoDup : NoDup (key <$> list_rows m).
Proof. apply (values_NoDup key m int_key). Qed.
End IntRows.

(** ** The projection of a sound database *)

(** What the nine reads return, in their orders. *)
Definition projection_of (d : Db) : StateProjection :=
  mkProjection (list_rows (t_users d)) (merge_sort role_le (map_to_list (t_roles d)).*2)
    (merge_sort (display_le gr_Position gr_ID) (list_rows (t_groups d))) (merge_sort (display_le cr_Position cr_ID) (list_rows (t_channels d)))
    (list_rows (t_groupAccess d)) (list_rows (t_channelAccess d)) (list_rows (t_bindings d))
    (merge_sort config_le (map_to_list (t_configs d)).*2) (list_rows (t_mutes d)).

Lemma scope_total t g c : check_scope t g c = true -> (forall x, g = Some x -> 0 < x) -> (forall x, c = Some x -> 0 < x) ->
  scopeFromNullable t g c = Ok (row_scope t g c).
Proof.
  unfold check_scope, scopeFromNullable, row_scope, server_scope, group_scope, channel_scope. intros Hs Hg Hc.
  destruct (decide (t = "server")) as [->|N1]; [|destruct (decide (t = "group")) as [->|N2]; [|destruct (decide (t = "channel")) as [->|N3]]];
    destruct g as [g|], c as [c|]; cbn in *; repeat (rewrite bool_decide_true by done || rewrite bool_decide_false by done); cbn; try done.
  - by rewrite (proj2 (Z.ltb_lt 0 g) (Hg _ eq_refl)).
  - by rewrite (proj2 (Z.ltb_lt 0 c) (Hc _ eq_refl)).
  - rewrite !bool_decide_false in Hs by done. done.
  - rewrite !bool_decide_false in Hs by done. done.
  - rewrite !bool_decide_false in Hs by done. done.
  - rewrite !bool_decide_false in Hs by done. done.
Qed.

(** A table that loads is the image of its rows. *)
Lemma table_image {K} `{Countable K} {Row A} kind text (conv : Row -> result A ProjectionError) (f : Row -> A) (key : A -> K) (rkey : Row -> K)
    check conflict (T : gmap K Row) rows :
  table_ok rkey check conflict T -> (forall r, r ∈ rows <-> T !! rkey r = Some r) -> NoDup (rkey <$> rows) ->
  (forall k r, T !! k = Some r -> conv r = Ok (f r) /\ key (f r) = k) ->
  foldM (fun m r => a <-? conv r ;; insert_unique kind text (key a) a m) ∅ rows = Ok (f <$> T).
Proof.
  intros HT Hrows Hn Hf.
  destruct (load_table_total kind text conv key rkey rows ∅) as [m Hm]; [|done|intros; apply lookup_empty|].
  { intros r Hr%Hrows. exists (f r). by apply Hf. }
  rewrite Hm. f_equal. apply map_eq. intros k. apply option_eq. intros a. rewrite (load_table _ _ _ _ _ _ Hm), lookup_fmap, fmap_Some. split.
  - intros (r & Hr%Hrows & Hc & Hk). destruct (Hf _ _ Hr) as [Hc' Hk']. assert (a = f r) as -> by congruence.
    exists r. split; [|done]. by rewrite <- Hk, Hk'.
  - intros (r & Hr & ->). exists r. destruct (Hf _ _ Hr) as [Hc Hk]. split; [|done]. apply Hrows.
    by rewrite (proj1 (to_row _ _ _ _ HT _ _ Hr)).
Qed.

Definition mute_of (r : MuteRow) : Mute :=
  mkMute (mr_ID r) (row_scope (mr_ScopeType r) (mr_GroupID r) (mr_ChannelID r)) (mr_UserID r) (mr_Kind r) (mr_ExpiresAt r) (mr_CreatedBy r) (mr_Reason r)
    (mr_CreatedAt r) (mr_Version r).

(** A state that is exactly what the tables hold. *)
Record describes (d : Db) (st : persistentState) : Prop := {
  ds_users : users st = userFromDB <$> t_users d;
  ds_roles : roles st = roleFromDB <$> t_roles d;
  ds_groups : groups st = t_groups d;
  ds_channels : channels st = channelFromDB <$> t_channels d;
  ds_configs : forall s, configs st !! s = (fun r => mkConfig s (cf_Config r) (cf_UpdatedAt r) (cf_Version r)) <$> t_configs d !! s;
  ds_mutes : mutes st = mute_of <$> t_mutes d;
  ds_bindings : forall u b, b ∈ entries (bindings st) u <-> exists r, t_bindings d !! br_ID r = Some r /\ br_UserID r = u /\ bindingFromDB r = Ok b;
  ds_groupAccess : forall g a, a ∈ entries (groupAccess st) g <-> exists r, t_groupAccess d !! ar_ID r = Some r /\ ar_Resource r = g /\ a = accessFromDB r;
  ds_channelAccess : forall c a, a ∈ entries (channelAccess st) c <-> exists r, t_channelAccess d !! ar_ID r = Some r /\ ar_Resource r = c /\ a = accessFromDB r
}.

Section Exact.
Context `{!SqlPrims}.
Variables (d : Db) (Hd : db_ok d).

Lemma group_positive g : is_Some (t_groups d !! g) -> 0 < g.
Proof.
  intros [r Hr]. destruct (to_row _ _ _ _ (ok_groups _ Hd) _ _ Hr) as [<- Hc]. unfold check_group in Hc. rewrite !andb_true_iff in Hc.
  apply Z.ltb_lt. tauto.
Qed.
Lemma channel_positive c : is_Some (t_channels d !! c) -> 0 < c.
Proof.
  intros [r Hr]. destruct (to_row _ _ _ _ (ok_channels _ Hd) _ _ Hr) as [<- Hc]. unfold check_channel in Hc. rewrite !andb_true_iff in Hc.
  apply Z.ltb_lt. tauto.
Qed.

Lemma binding_total i r : t_bindings d !! i = Some r ->
  bindingFromDB r = Ok (mkBinding (br_ID r) (br_RoleKey r) (row_scope (br_ScopeType r) (br_GroupID r) (br_ChannelID r)) (br_CreatedAt r)).
Proof.
  intros Hr. destruct (to_row _ _ _ _ (ok_bindings _ Hd) _ _ Hr) as [_ Hc]. unfold check_binding in Hc. rewrite !andb_true_iff in Hc.
  unfold bindingFromDB. rewrite scope_total; [done|tauto| |]; intros x Hx;
    [apply group_positive, (rf_binding_group _ Hd _ _ _ Hr Hx)|apply channel_positive, (rf_binding_channel _ Hd _ _ _ Hr Hx)].
Qed.
Lemma config_total i r : t_configs d !! i = Some r -> configFromDB r = Ok (mkConfig i (cf_Config r) (cf_UpdatedAt r) (cf_Version r)).
Proof.
  intros Hr. destruct (to_row _ _ _ _ (ok_configs _ Hd) _ _ Hr) as [<- Hc]. unfold check_config in Hc. rewrite !andb_true_iff in Hc.
  unfold configFromDB. rewrite scope_total; [done|tauto| |]; intros x Hx;
    [apply group_positive, (rf_config_group _ Hd _ _ _ Hr Hx)|apply channel_positive, (rf_config_channel _ Hd _ _ _ Hr Hx)].
Qed.
Lemma mute_total i r : t_mutes d !! i = Some r -> muteFromDB r = Ok (mute_of r).
Proof.
  intros Hr. destruct (to_row _ _ _ _ (ok_mutes _ Hd) _ _ Hr) as [_ Hc]. unfold check_mute in Hc. rewrite !andb_true_iff in Hc.
  unfold muteFromDB. rewrite scope_total; [done|tauto| |]; intros x Hx;
    [apply group_positive, (rf_mute_group _ Hd _ _ _ Hr Hx)|apply channel_positive, (rf_mute_channel _ Hd _ _ _ Hr Hx)].
Qed.

Lemma access_loaded rows (T : gmap Z AccessRow) check conflict : table_ok ar_ID check conflict T -> rows = list_rows T -> forall g a,
  a ∈ entries (sort_by ac_ID <$> fold_left (fun m r => push (ar_Resource r) (accessFromDB r) m) rows ∅) g <->
  exists r, T !! ar_ID r = Some r /\ ar_Resource r = g /\ a = accessFromDB r.
Proof.
  intros HT -> g a. rewrite entries_sort, elem_of_sort_by.
  rewrite (load_groups (fun r => Ok (accessFromDB r)) ar_Resource _ _ (foldM_pure (fun m r => push (ar_Resource r) (accessFromDB r) m) _ _)).
  setoid_rewrite (elem_of_list_rows ar_ID check conflict T HT).
  split; [intros (r & Hr & [= <-] & Hg); by exists r|intros (r & Hr & Hg & ->); by exists r].
Qed.

Lemma users_load : foldM (fun m r => insert_unique "user" pretty (ur_ID r) (userFromDB r) m) ∅ (list_rows (t_users d)) = Ok (userFromDB <$> t_users d).
Proof using Hd.
  apply (table_image "user" pretty (fun r => Ok (userFromDB r)) userFromDB us_ID ur_ID _ _ _ _ (ok_users _ Hd) (elem_of_list_rows _ _ _ _ (ok_users _ Hd))
    (list_rows_NoDup _ _ _ _ (ok_users _ Hd))).
  intros k r Hk. split; [done|]. apply (int_key _ _ _ _ (ok_users _ Hd) _ _ Hk).
Qed.
Lemma roles_load : foldM (fun m r => insert_unique "role" id (rr_Key r) (roleFromDB r) m) ∅ (merge_sort role_le (map_to_list (t_roles d)).*2) = Ok (roleFromDB <$> t_roles d).
Proof using Hd.
  apply (table_image "role" id (fun r => Ok (roleFromDB r)) roleFromDB ro_Key rr_Key _ _ _ _ (ok_roles _ Hd)).
  - intros r. rewrite merge_sort_Permutation. apply (elem_of_rows _ _ _ _ (ok_roles _ Hd)).
  - rewrite merge_sort_Permutation. apply (rows_NoDup _ _ _ _ (ok_roles _ Hd)).
  - intros k r Hk. split; [done|]. apply (to_row _ _ _ _ (ok_roles _ Hd) _ _ Hk).
Qed.
Lemma groups_load : foldM (fun m r => insert_unique "group" pretty (gr_ID r) (groupFromDB r) m) ∅ (merge_sort (display_le gr_Position gr_ID) (list_rows (t_groups d))) =
  Ok (groupFromDB <$> t_groups d).
Proof using Hd.
  apply (table_image "group" pretty (fun r => Ok (groupFromDB r)) groupFromDB gr_ID gr_ID _ _ _ _ (ok_groups _ Hd)).
  - intros r. rewrite merge_sort_Permutation. apply (elem_of_list_rows _ _ _ _ (ok_groups _ Hd)).
  - rewrite merge_sort_Permutation. apply (list_rows_NoDup _ _ _ _ (ok_groups _ Hd)).
  - intros k r Hk. split; [done|]. apply (int_key _ _ _ _ (ok_groups _ Hd) _ _ Hk).
Qed.
Lemma channels_load : foldM (fun m r => insert_unique "channel" pretty (cr_ID r) (channelFromDB r) m) ∅ (merge_sort (display_le cr_Position cr_ID) (list_rows (t_channels d))) =
  Ok (channelFromDB <$> t_channels d).
Proof using Hd.
  apply (table_image "channel" pretty (fun r => Ok (channelFromDB r)) channelFromDB ch_ID cr_ID _ _ _ _ (ok_channels _ Hd)).
  - intros r. rewrite merge_sort_Permutation. apply (elem_of_list_rows _ _ _ _ (ok_channels _ Hd)).
  - rewrite merge_sort_Permutation. apply (list_rows_NoDup _ _ _ _ (ok_channels _ Hd)).
  - intros k r Hk. split; [done|]. apply (int_key _ _ _ _ (ok_channels _ Hd) _ _ Hk).
Qed.
Lemma configs_load : exists cf,
  foldM (fun m r => c <-? configFromDB r ;; insert_unique "permission config" Key (pc_Scope c) c m) ∅ (merge_sort config_le (map_to_list (t_configs d)).*2) = Ok cf /\
  forall s, cf !! s = (fun r => mkConfig s (cf_Config r) (cf_UpdatedAt r) (cf_Version r)) <$> t_configs d !! s.
Proof using Hd.
  destruct (load_table_total "permission config" Key configFromDB pc_Scope (fun c => row_scope (cf_ScopeType c) (cf_GroupID c) (cf_ChannelID c))
    (merge_sort config_le (map_to_list (t_configs d)).*2) ∅) as [cf Hcf]; [| |intros; apply lookup_empty|].
  { intros r. rewrite merge_sort_Permutation, (elem_of_rows _ _ _ _ (ok_configs _ Hd)). intros Hr. eexists. split; [by apply (config_total _ _ Hr)|done]. }
  { rewrite merge_sort_Permutation. apply (rows_NoDup _ _ _ _ (ok_configs _ Hd)). }
  exists cf. split; [done|]. intros s. apply option_eq. intros c. rewrite (load_table _ _ _ _ _ _ Hcf). rewrite fmap_Some.
  setoid_rewrite merge_sort_Permutation. setoid_rewrite (elem_of_rows _ _ _ _ (ok_configs _ Hd)). split.
  - intros (r & Hr & Hc & Hs). rewrite (config_total _ _ Hr) in Hc. injection Hc as <-. cbn in Hs. subst s. by exists r.
  - intros (r & Hr & ->). pose proof (proj1 (to_row _ _ _ _ (ok_configs _ Hd) _ _ Hr)) as Hk. exists r. rewrite Hk. split_and!; [done| |done].
    by apply config_total.
Qed.
Lemma mutes_load : exists mm, foldM load_mute (∅, ∅) (list_rows (t_mutes d)) = Ok mm /\ mm.1 = mute_of <$> t_mutes d.
Proof using Hd.
  destruct (load_mutes_total (list_rows (t_mutes d)) (∅, ∅)) as [mm Hmm]; [|apply (list_rows_NoDup _ _ _ _ (ok_mutes _ Hd))|intros; apply lookup_empty|].
  { intros r Hr%(elem_of_list_rows _ _ _ _ (ok_mutes _ Hd)). eexists. by apply (mute_total _ _ Hr). }
  exists mm. split; [done|]. destruct (load_mutes _ _ Hmm) as [Lm _]. apply map_eq. intros k. apply option_eq. intros m. rewrite Lm, lookup_fmap, fmap_Some.
  setoid_rewrite (elem_of_list_rows _ _ _ _ (ok_mutes _ Hd)). split.
  - intros (r & Hr & Hm & Hk). rewrite (mute_total _ _ Hr) in Hm. injection Hm as <-. cbn in Hk. subst k. by exists r.
  - intros (r & Hr & ->). pose proof (int_key _ _ _ _ (ok_mutes _ Hd) _ _ Hr) as Hk. exists r. rewrite Hk. split_and!; [done| |done].
    by apply (mute_total k).
Qed.

Lemma projection_loads : exists st, newPersistentState (Some (projection_of d)) = Ok st /\ describes d st.
Proof using Hd.
  destruct configs_load as (cf & Hcf & Ecf). destruct mutes_load as (mm & Hmm & Emm).
  destruct (load_groups_total bindingFromDB br_UserID (list_rows (t_bindings d)) ∅) as [bs Hbs].
  { intros r Hr%(elem_of_list_rows _ _ _ _ (ok_bindings _ Hd)). eexists. by apply (binding_total _ _ Hr). }
  eexists. split.
  - unfold newPersistentState, projection_of. cbn [pj_Users pj_Roles pj_Groups pj_Channels pj_GroupAccess pj_ChannelAccess pj_Bindings pj_Configs pj_Mutes].
    rewrite users_load. cbn [rbind]. rewrite roles_load. cbn [rbind]. rewrite groups_load. cbn [rbind]. rewrite channels_load. cbn [rbind].
    rewrite Hbs. cbn [rbind]. rewrite Hcf. cbn [rbind]. rewrite Hmm. reflexivity.
  - constructor; cbn [users roles groups channels configs mutes bindings groupAccess channelAccess]; try done.
    + rewrite <- (map_fmap_id (t_groups d)) at 2. by apply map_fmap_ext.
    + intros u b. rewrite entries_sort, elem_of_sort_by, (load_groups _ _ _ _ Hbs). setoid_rewrite (elem_of_list_rows _ _ _ _ (ok_bindings _ Hd)).
      split; intros (r & H1 & H2 & H3); by exists r.
    + by apply (access_loaded _ _ _ _ (ok_groupAccess _ Hd)).
    + by apply (access_loaded _ _ _ _ (ok_channelAccess _ Hd)).
Qed.
End Exact.

(** ** Operations that only read *)

Section Reads.
Context `{!StoreEnv, !SqlPrims}.

(** On a database [d] the operation answers [a] unless the driver fails, and changes nothing. *)
Definition reads {A} (m : Store A) (a : A) (d : Db) : Prop := forall t, tx_db t = d ->
  tx_db (m t).2 = d /\ ((m t).1 = Ok a \/ ((m t).1 = Err ErrDriver /\ exists n, fault n = true)).

Lemma reads_query {A} (f : Db -> result A SqlError) a d : f d = Ok a -> reads (query (reading f)) a d.
Proof.
  intros Hf t <-. unfold query, reading. destruct (fault (tx_step t)) eqn:Ef; [|rewrite Hf; cbn; auto].
  cbn. split; [done|]. right. split; [done|]. by exists (tx_step t).
Qed.
Lemma reads_bind {A B} (m : Store A) (k : A -> Store B) a b d : reads m a d -> reads (k a) b d -> reads (bind m k) b d.
Proof.
  intros Hm Hk t Ht. unfold bind. destruct (Hm t Ht) as [Hdb Hr]. destruct (m t) as [[x|e] t']; cbn [fst snd] in *.
  - destruct Hr as [[= ->]|[[=] _]]. by apply Hk.
  - destruct Hr as [[=]|[[= ->] Hn]]. split; [done|]. right. by split.
Qed.
Lemma reads_ret {A} (a : A) d : reads (ret a) a d.
Proof. intros t <-. cbn. auto. Qed.

Lemma loadStateProjection_reads d : reads loadStateProjection (projection_of d) d.
Proof.
  unfold loadStateProjection. repeat (eapply reads_bind; [by apply reads_query|]). apply reads_ret.
Qed.

(** C32: Loading a database that keeps its schema never fails but for the driver, changes nothing, and what it
    loads projects to a state (no duplicate key, no malformed scope) that holds exactly the rows of the tables:
    every user, role, group, channel, configuration and mute under its key, and every binding and access entry
    under its owner. *)
Theorem projection_exact t : db_ok (tx_db t) ->
  tx_db (loadStateProjection t).2 = tx_db t /\
  ((exists p st, (loadStateProjection t).1 = Ok p /\ newPersistentState (Some p) = Ok st /\ projection_ok st /\ describes (tx_db t) st) \/
   ((loadStateProjection t).1 = Err ErrDriver /\ exists n, fault n = true)).
Proof.
  intros Hd. destruct (loadStateProjection_reads _ t eq_refl) as [Hdb Hr]. split; [done|]. destruct Hr as [Hr|Hr]; [left|by right].
  destruct (projection_loads _ Hd) as (st & Hst & Hds). exists (projection_of (tx_db t)), st. split_and!; try done. by apply newPersistentState_ok in Hst.
Qed.

(** ** Runs that succeed *)

Lemma bind_Ok {E A B} (m : Act E A) (k : A -> Act E B) t b t' : bind m k t = (Ok b, t') -> exists a t1, m t = (Ok a, t1) /\ k a t1 = (Ok b, t').
Proof. unfold bind. destruct (m t) as [[a|e] t1]; [|done]. intros Hk. by exists a, t1. Qed.
Lemma query_Ok {A} (s : Stmt A) t a t' : query s t = (Ok a, t') -> s (tx_db t) = Ok (a, tx_db t').
Proof. unfold query. destruct (fault _); [done|]. destruct (s (tx_db t)) as [[x d]|]; [|done]. by intros [= <- <-]. Qed.
Lemma reading_Ok {A} (f : Db -> result A SqlError) t a t' : query (reading f) t = (Ok a, t') -> f (tx_db t) = Ok a /\ tx_db t' = tx_db t.
Proof. intros Hq%query_Ok. unfold reading in Hq. destruct (f (tx_db t)); cbn in Hq; [|done]. by injection Hq as <- ->. Qed.
Lemma now_Ok t x t' : now t = (Ok x, t') -> tx_db t' = tx_db t.
Proof. by intros [= _ <-]. Qed.
Lemma nextID_Ok t x t' : nextID t = (Ok x, t') -> tx_db t' = tx_db t.
Proof. unfold nextID. destruct (idNext _) as [[y|] g]; [|done]. by intros [= _ <-]. Qed.
Lemma transaction_run {A} (m : Store A) t : match transaction m t with
  | (Ok a, t') => exists t1 t2, tx_db t1 = tx_db t /\ m t1 = (Ok a, t2) /\ tx_db t' = tx_db t2
  | (Err _, t') => tx_db t' = tx_db t
  end.
Proof.
  unfold transaction. destruct (fault (tx_step t)); [done|]. destruct (m (next_step t)) as [[a|e] t1] eqn:Em; [|done].
  destruct (fault (tx_step t1)); [done|]. exists (next_step t), t1. done.
Qed.
End Reads.

(** ** The owner *)

Section Owner.
Context `{!StoreEnv, !SqlPrims}.

Lemma insertBinding_Ok u key st g c t b t' : RoleStore.insertBinding u key st g c t = (Ok b, t') ->
  exists i x, let row := mkBindingRow i u key st g c x in
  t_bindings (tx_db t) !! i = None /\ InsertRoleBinding i u key st g c x (tx_db t) = Ok (b, tx_db t') /\ tx_db t' = set_bindings (<[i := row]> (t_bindings (tx_db t))) (tx_db t).
Proof.
  unfold RoleStore.insertBinding. intros (i & t1 & H1%nextID_Ok & (x & t2 & H2%now_Ok & H3%query_Ok)%bind_Ok)%bind_Ok.
  assert (E : tx_db t2 = tx_db t) by congruence. rewrite E in H3. exists i, x. cbn zeta. pose proof H3 as H4. unfold InsertRoleBinding in H4.
  apply rbind_Ok in H4 as (m & (_ & Hn & _ & _ & ->)%insert_row_inv & [= _ Hset]). by rewrite <- Hset in *.
Qed.

Lemma find_row_Some {K A} `{Countable K} (p : A -> bool) (m : gmap K A) r : find_row p m = Ok r -> p r = true /\ exists k, m !! k = Some r.
Proof.
  unfold find_row. destruct (List.find p _) as [x|] eqn:Ef; [|done]. intros [= <-]. apply find_some in Ef as [Hin Hp]. split; [done|].
  apply list_elem_of_In, list_elem_of_fmap in Hin as ([k y] & -> & Hk%elem_of_map_to_list). by exists k.
Qed.

(** The bindings after a transfer. *)
Record transferred (current target : Z) (d d' : Db) : Prop := {
  tf_owner : exists i b, t_bindings d' !! i = Some b /\ br_RoleKey b = "owner" /\ br_UserID b = target;
  tf_only : forall i b, t_bindings d' !! i = Some b -> br_RoleKey b = "owner" -> br_UserID b = target;
  tf_demoted : forall i b, t_bindings d' !! i = Some b -> br_UserID b = current -> br_ScopeType b = "server" -> br_RoleKey b = "member";
  tf_scoped : forall i b, br_ScopeType b <> "server" -> t_bindings d' !! i = Some b <-> t_bindings d !! i = Some b;
  tf_others : forall i b, br_UserID b <> current -> br_UserID b <> target -> t_bindings d' !! i = Some b <-> t_bindings d !! i = Some b;
  tf_mutes : forall i m, t_mutes d' !! i = Some m <-> t_mutes d !! i = Some m /\ mr_UserID m <> target
}.

(** The four steps on the binding table. *)
Definition swap (current target : Z) (i j x y : Z) (m : gmap Z BindingRow) : gmap Z BindingRow :=
  <[j := mkBindingRow j target "owner" "server" None None y]> (<[i := mkBindingRow i current "member" "server" None None x]>
    (drop_rows (fun b => (br_UserID b =? current) && bool_decide (br_ScopeType b = "server"))
      (drop_rows (fun b => (br_UserID b =? target) && bool_decide (br_ScopeType b = "server")) m))).

Lemma swap_lookup current target i j x y m k b :
  i <> j -> drop_rows (fun b => (br_UserID b =? current) && bool_decide (br_ScopeType b = "server"))
      (drop_rows (fun b => (br_UserID b =? target) && bool_decide (br_ScopeType b = "server")) m) !! i = None ->
  drop_rows (fun b => (br_UserID b =? current) && bool_decide (br_ScopeType b = "server"))
      (drop_rows (fun b => (br_UserID b =? target) && bool_decide (br_ScopeType b = "server")) m) !! j = None ->
  swap current target i j x y m !! k = Some b <->
  (k = j /\ b = mkBindingRow j target "owner" "server" None None y) \/ (k = i /\ b = mkBindingRow i current "member" "server" None None x) \/
  (m !! k = Some b /\ (br_ScopeType b = "server" -> br_UserID b <> current /\ br_UserID b <> target)).
Proof.
  intros Hij Hi Hj. unfold swap.
  assert (Hdrop : forall k b, drop_rows (fun b => (br_UserID b =? current) && bool_decide (br_ScopeType b = "server"))
      (drop_rows (fun b => (br_UserID b =? target) && bool_decide (br_ScopeType b = "server")) m) !! k = Some b <->
      m !! k = Some b /\ (br_ScopeType b = "server" -> br_UserID b <> current /\ br_UserID b <> target)).
  { intros k' b'. rewrite !drop_rows_Some, !andb_false_iff, !Z.eqb_neq, !bool_decide_eq_false. destruct (decide (br_ScopeType b' = "server")); tauto. }
  rewrite !lookup_insert_Some, Hdrop. split.
  - intros [[-> <-]|[_ [[-> <-]|[_ Hk]]]]; auto.
  - intros [[-> ->]|[[-> ->]|Hk]]; [by left|right; split; [done|by left]|]. right. pose proof (proj2 (Hdrop k b) Hk) as Hl.
    split; [congruence|]. right. split; [congruence|done].
Qed.

Lemma owner_user d k b k' b' : db_ok d -> t_bindings d !! k = Some b -> t_bindings d !! k' = Some b' -> br_RoleKey b = "owner" -> br_RoleKey b' = "owner" ->
  br_UserID b = br_UserID b' /\ br_ScopeType b = "server".
Proof.
  intros Hd Hb Hb' E E'. split.
  - destruct (decide (k = k')) as [->|Hne]; [congruence|]. pose proof (to_unique _ _ _ _ (ok_bindings _ Hd) _ _ _ _ Hb Hb' Hne) as Hf.
    unfold binding_conflict in Hf. by rewrite E, E', orb_true_r in Hf.
  - destruct (to_row _ _ _ _ (ok_bindings _ Hd) _ _ Hb) as [_ Hc]. unfold check_binding in Hc. rewrite E, !andb_true_iff in Hc.
    destruct Hc as [_ Hc]. by apply bool_decide_eq_true in Hc.
Qed.

Lemma swap_transferred current target i j x y d d' k o : db_ok d -> current <> target -> i <> j ->
  t_bindings d !! k = Some o -> br_RoleKey o = "owner" -> br_UserID o = current ->
  t_bindings d' = swap current target i j x y (t_bindings d) -> t_mutes d' = drop_rows (fun m => mr_UserID m =? target) (t_mutes d) ->
  drop_rows (fun b => (br_UserID b =? current) && bool_decide (br_ScopeType b = "server"))
      (drop_rows (fun b => (br_UserID b =? target) && bool_decide (br_ScopeType b = "server")) (t_bindings d)) !! i = None ->
  drop_rows (fun b => (br_UserID b =? current) && bool_decide (br_ScopeType b = "server"))
      (drop_rows (fun b => (br_UserID b =? target) && bool_decide (br_ScopeType b = "server")) (t_bindings d)) !! j = None ->
  transferred current target d d'.
Proof.
  intros Hd Hne Hij Ho Eo Uo Eb Em Hi Hj. pose proof (fun k b => swap_lookup current target i j x y (t_bindings d) k b Hij Hi Hj) as Hl.
  constructor; try setoid_rewrite Eb; try setoid_rewrite Em; setoid_rewrite Hl || setoid_rewrite drop_rows_Some.
  - exists j. eexists. split; [by left|done].
  - intros k' b [[_ ->]|[[_ ->]|[Hb Hs]]] E; [done|done|]. destruct (owner_user _ _ _ _ _ Hd Hb Ho E Eo) as [Eu Es]. destruct (Hs Es). congruence.
  - intros k' b [[_ ->]|[[_ ->]|[Hb Hs]]] E Es; [cbn in E; congruence|done|]. by destruct (Hs Es).
  - intros k' b Ns. split; [|by intros Hb; right; right]. intros [[_ ->]|[[_ ->]|[Hb _]]]; done.
  - intros k' b N1 N2. split; [|by intros Hb; right; right]. intros [[_ ->]|[[_ ->]|[Hb _]]]; done.
  - intros k' m. by rewrite Z.eqb_neq.
Qed.

Lemma TransferOwnerInTx_run current target t t' : db_ok (tx_db t) -> TransferOwnerInTx false current target t = (Ok tt, t') ->
  current <> target /\ (exists k o, t_bindings (tx_db t) !! k = Some o /\ br_RoleKey o = "owner" /\ br_UserID o = current) /\
  (exists u, t_users (tx_db t) !! target = Some u /\ ur_BannedAt u = None) /\ transferred current target (tx_db t) (tx_db t') /\ db_ok (tx_db t').
Proof.
  intros Hd. unfold TransferOwnerInTx, require_one_owner, CountOwners, Database.CountOwners, UserStore.GetByID, GetUserByID, GetOwnerBinding. destruct (Z.eqb_spec current target) as [|Hne]; [done|].
  intros (st & t1 & [_ E1]%reading_Ok & H1)%bind_Ok. apply bind_Ok in H1 as (n & t2 & [_ E2]%reading_Ok & H2).
  destruct (_ || _); [done|]. apply bind_Ok in H2 as (o & t3 & [Ho E3]%reading_Ok & H3).
  destruct (Z.eqb_spec (br_UserID o) current) as [Uo|]; cbn [negb] in H3; [|done].
  apply bind_Ok in H3 as (u & t4 & [Hu E4]%reading_Ok & H4). destruct (ur_BannedAt u) eqn:Ban; cbn [is_none negb] in H4; [done|].
  assert (E : tx_db t4 = tx_db t) by congruence. assert (E' : tx_db t2 = tx_db t) by congruence. assert (E'' : tx_db t3 = tx_db t) by congruence.
  rewrite E' in Ho. rewrite E'' in Hu. clear E1 E2 E3 E4 E' E''.
  apply bind_Ok in H4 as ([] & t5 & Q5%query_Ok & H5). apply bind_Ok in H5 as ([] & t6 & Q6%query_Ok & H6).
  apply bind_Ok in H6 as (b7 & t7 & Q7 & H7). apply bind_Ok in H7 as (b8 & t8 & Q8 & H8).
  apply bind_Ok in H8 as ([] & t9 & Q9%query_Ok & H9). apply bind_Ok in H9 as (c & t10 & [_ E10]%reading_Ok & H10).
  destruct (negb _); [done|]. injection H10 as ->.
  apply insertBinding_Ok in Q7 as (i & x & N7 & S7 & E7). apply insertBinding_Ok in Q8 as (j & y & N8 & S8 & E8).
  apply find_row_Some in Ho as [Eo%bool_decide_eq_true (k & Hk)].
  assert (Hok : db_ok (tx_db t')).
  { rewrite E10. refine (statement_keeps _ _ _ _ _ _ Q9); [constructor|]. refine (statement_keeps _ _ _ _ _ _ S8); [constructor|].
    refine (statement_keeps _ _ _ _ _ _ S7); [constructor|]. refine (statement_keeps _ _ _ _ _ _ Q6); [constructor|].
    refine (statement_keeps _ _ _ _ _ _ Q5); [constructor|]. by rewrite E. }
  injection Q5 as E5. injection Q6 as E6. injection Q9 as E9. rewrite E in E5. rewrite <- E5 in E6. cbn in E6.
  rewrite <- E6 in N7, E7. cbn in N7. rewrite E7 in N8. cbn in N8. apply lookup_insert_None in N8 as [N8 Nij]. rewrite E7 in E8. cbn in E8.
  split_and!; [done|by exists k, o| |  |done].
  { exists u. split; [|done]. unfold get_row in Hu. destruct (t_users (tx_db t) !! target); [by injection Hu as ->|done]. }
  apply (swap_transferred current target i j x y (tx_db t) (tx_db t') k o); try done.
  - rewrite E10, <- E9, E8. done.
  - rewrite E10, <- E9, E8. done.
Qed.

(** An owner transfer is all or nothing.  When it succeeds the caller was the owner and the target an unbanned
    user; then the target alone is owner, the former owner's only server role is member, every scoped binding and
    every other user's binding is untouched, exactly the target's mutes are gone, and the schema holds.  When it
    fails, for any reason, driver and commit included, the database is unchanged. *)
Theorem TransferOwner_exact current target t : db_ok (tx_db t) ->
  match TransferOwner true current target t with
  | (Ok _, t') => (exists k o, t_bindings (tx_db t) !! k = Some o /\ br_RoleKey o = "owner" /\ br_UserID o = current) /\
      (exists u, t_users (tx_db t) !! target = Some u /\ ur_BannedAt u = None) /\ transferred current target (tx_db t) (tx_db t') /\ db_ok (tx_db t')
  | (Err _, t') => tx_db t' = tx_db t
  end.
Proof.
  intros Hd. unfold TransferOwner. cbn [negb]. destruct (current =? target); [done|].
  pose proof (transaction_run (TransferOwnerInTx false current target) t) as Hr.
  destruct (transaction (TransferOwnerInTx false current target) t) as [[[]|e] t']; [|done].
  destruct Hr as (t1 & t2 & E1 & Hm & E2). rewrite <- E1 in Hd. destruct (TransferOwnerInTx_run _ _ _ _ Hd Hm) as (_ & Ho & Hu & Ht & Hok).
  rewrite E2, <- E1. done.
Qed.
End Owner.

(** ** Refresh tokens *)

Section Sessions.
Context `{!StoreEnv, !SqlPrims}.

Lemma drop_rows_count {A} (p : A -> bool) (m : gmap Z A) k r : m !! k = Some r -> p r = true -> (size (drop_rows p m) < size m)%nat.
Proof.
  intros Hk Hp. apply map_subset_size. split; [apply drop_rows_subseteq|]. intros Hsub. pose proof (lookup_weaken _ _ _ _ Hk Hsub) as Hd.
  apply drop_rows_Some in Hd as [_ Hd]. congruence.
Qed.

(** The session at [k] accepts [token] at time [at_]. *)
Definition accepts (token : string) (at_ : Z) (d : Db) (k : Z) (s : SessionRow) : Prop :=
  t_sessions d !! k = Some s /\ sr_TokenHash s = token /\ at_ < sr_ExpiresAt s.

(** [token] is the one some session had before its current one. *)
Definition retired (token : string) (d : Db) : Prop := exists k s, t_sessions d !! k = Some s /\ sr_PrevTokenHash s = Some token.

(** [row] is [s] with [old] replaced by [new]. *)
Record rotated_to (old new : string) (exp : Z) (s row : SessionRow) : Prop := {
  rt_same : (sr_ID row, sr_UserID row, sr_DeviceID row, sr_CreatedAt row) = (sr_ID s, sr_UserID s, sr_DeviceID s, sr_CreatedAt s);
  rt_token : sr_TokenHash row = new /\ sr_PrevTokenHash row = Some old /\ sr_ExpiresAt row = exp
}.

Lemma find_key_cases {A} (p : A -> bool) (m : gmap Z A) :
  match find_key p m with
  | Some k => exists r, m !! k = Some r /\ p r = true
  | None => forall k r, m !! k = Some r -> p r = false
  end.
Proof.
  unfold find_key. destruct (List.find _ _) as [[k r]|] eqn:Ef; cbn.
  - apply find_some in Ef as [Hin Hp]. exists r. split; [|done]. by apply elem_of_map_to_list, list_elem_of_In.
  - intros k r Hk. apply (find_none _ _ Ef (k, r)), list_elem_of_In, elem_of_map_to_list, Hk.
Qed.

Lemma drop_rows_none {A} (p : A -> bool) (m : gmap Z A) : (forall k r, m !! k = Some r -> p r = false) -> drop_rows p m = m.
Proof. intros Hp. unfold drop_rows. apply map_filter_id. exact Hp. Qed.

Lemma drop_prev_count token (m : gmap Z SessionRow) :
  let m' := drop_rows (fun s => bool_decide (sr_PrevTokenHash s = Some token)) m in
  (Z.of_nat (size m) - Z.of_nat (size m') = 0 -> forall k s, m !! k = Some s -> sr_PrevTokenHash s <> Some token) /\
  (Z.of_nat (size m) - Z.of_nat (size m') <> 0 -> exists k s, m !! k = Some s /\ sr_PrevTokenHash s = Some token).
Proof.
  cbv zeta. split.
  - intros E k s Hk Hp. pose proof (drop_rows_count (fun s => bool_decide (sr_PrevTokenHash s = Some token)) _ _ _ Hk (bool_decide_eq_true_2 _ Hp)). lia.
  - intros E. pose proof (find_key_cases (fun s => bool_decide (sr_PrevTokenHash s = Some token)) m) as Hc.
    destruct (find_key _ m) as [k|]; [destruct Hc as (s & Hk & Hp%bool_decide_eq_true); by exists k, s|].
    destruct E. rewrite (drop_rows_none _ _ Hc). lia.
Qed.

(** What a presented token leads to, on any database. *)
Lemma Rotate_cases old new exp t : let at_ := clock (S (tx_step t)) in
  match SessionStore.Rotate old new exp t with
  | (Ok row, t') => exists k s, accepts old at_ (tx_db t) k s /\ rotated_to old new exp s row /\
      tx_db t' = set_sessions (<[k := row]> (t_sessions (tx_db t))) (tx_db t)
  | (Err ErrSessionReused, t') => (forall k s, ~ accepts old at_ (tx_db t) k s) /\ retired old (tx_db t) /\
      tx_db t' = set_sessions (drop_rows (fun s => bool_decide (sr_PrevTokenHash s = Some old)) (t_sessions (tx_db t))) (tx_db t)
  | (Err ErrNotFound, t') => (forall k s, ~ accepts old at_ (tx_db t) k s) /\ ~ retired old (tx_db t) /\
      t_sessions (tx_db t') = t_sessions (tx_db t)
  | (Err _, t') => tx_db t' = tx_db t
  end.
Proof.
  cbv zeta. unfold SessionStore.Rotate, bind, attempt, query, now, next_step. cbn [tx_db tx_step tx_gen].
  destruct (fault (S (S (tx_step t)))); [done|]. unfold RotateSession.
  pose proof (find_key_cases (fun s => bool_decide (sr_TokenHash s = old) && (clock (S (tx_step t)) <? sr_ExpiresAt s)) (t_sessions (tx_db t))) as Hf.
  destruct (find_key _ _) as [k|].
  - destruct Hf as (s & Hk & [Ht%bool_decide_eq_true Hl%Z.ltb_lt]%andb_true_iff). unfold get_row. rewrite Hk. cbn [rbind].
    destruct (negb _); [done|]. destruct (token_taken _ _ _); [done|]. cbn. exists k, s. split; [done|]. split; [|done].
    split; [done|]. cbn. by rewrite Ht.
  - assert (Hno : forall k s, ~ accepts old (clock (S (tx_step t))) (tx_db t) k s).
    { intros k s (Hk & Ht & Hl). specialize (Hf _ _ Hk). rewrite bool_decide_true in Hf by done. apply Z.ltb_ge in Hf. lia. }
    cbn [mapError tx_step tx_db]. destruct (fault (S (S (S (tx_step t))))); [done|]. unfold DeleteSessionByPrevTokenHash.
    cbn -[drop_rows Z.sub Z.eqb Z.of_nat size]. destruct (drop_prev_count old (t_sessions (tx_db t))) as [Hz Hnz].
    match goal with |- context [?x =? 0] => destruct (Z.eqb_spec x 0) as [E|E] end; cbn.
    + split_and!; [done|intros (k & s & Hk & Hp); by eapply Hz|]. apply drop_rows_none. intros k s Hk. apply bool_decide_eq_false. by eapply Hz.
    + split_and!; [done|by apply Hnz|done].
Qed.

(** The operations of the store that do not issue [token]. *)
Inductive store_step (token : string) : Tx -> Tx -> Prop :=
  | st_rotate o n exp t r t' : n <> token -> SessionStore.Rotate o n exp t = (r, t') -> store_step token t t'
  | st_upsert u dev h exp t r t' : h <> token -> SessionStore.Upsert u dev h exp t = (r, t') -> store_step token t t'
  | st_delete id t r t' : SessionStore.Delete id t = (r, t') -> store_step token t t'
  | st_logout h t r t' : SessionStore.DeleteByTokenHash h t = (r, t') -> store_step token t t'
  | st_revoke u t r t' : SessionStore.DeleteUserSessions u t = (r, t') -> store_step token t t'
  | st_expire before t r t' : SessionStore.DeleteExpired before t = (r, t') -> store_step token t t'.

(** No session has [token] as its current one. *)
Definition gone (token : string) (d : Db) : Prop := forall k s, t_sessions d !! k = Some s -> sr_TokenHash s <> token.

Lemma gone_sub token d d' : t_sessions d' ⊆ t_sessions d -> gone token d -> gone token d'.
Proof. intros Hs Hg k s Hk. by apply (Hg k), (lookup_weaken _ _ _ _ Hk Hs). Qed.

Lemma query_gone {A} (st : Stmt A) token t r t' : query st t = (r, t') ->
  (forall a d', st (tx_db t) = Ok (a, d') -> gone token (tx_db t) -> gone token d') -> gone token (tx_db t) -> gone token (tx_db t').
Proof.
  unfold query. destruct (fault _); [by intros [= _ <-]|]. destruct (st (tx_db t)) as [[a d']|e]; intros [= _ <-] Hst Hg; [by apply (Hst a)|done].
Qed.

Lemma insert_gone token k row d d' : sr_TokenHash row <> token -> t_sessions d' = <[k := row]> (t_sessions d) ->
  gone token d -> gone token d'.
Proof. intros Hr E Hg k' s. rewrite E, lookup_insert_Some. intros [[_ <-]|[_ Hk]]; [done|by eapply Hg]. Qed.

Lemma store_step_gone token t t' : store_step token t t' -> gone token (tx_db t) -> gone token (tx_db t').
Proof.
  intros [o n exp t0 r t1 Hn Hr|u dev h exp t0 r t1 Hh Hr|id t0 r t1 Hr|h t0 r t1 Hr|u t0 r t1 Hr|before t0 r t1 Hr] Hg.
  - pose proof (Rotate_cases o n exp t0) as Hc. rewrite Hr in Hc. destruct r as [row|[]]; try (by rewrite Hc).
    + destruct Hc as (k & s & _ & [_ [Ht _]] & E). eapply (insert_gone token k row); [by rewrite Ht|by rewrite E|done].
    + destruct Hc as (_ & _ & E). intros k s. rewrite E. apply Hg.
    + destruct Hc as (_ & _ & E). eapply gone_sub; [|exact Hg]. rewrite E. apply drop_rows_subseteq.
  - unfold SessionStore.Upsert in Hr. unfold bind, nextID, now, next_step in Hr.
    destruct (idNext (tx_gen t0)) as [[id|] g]; [|by injection Hr as _ <-]. cbn [tx_db tx_step tx_gen] in Hr.
    eapply (query_gone _ token _ _ _ Hr); [|exact Hg]. cbn [tx_db]. intros a d'. unfold UpsertSession.
    destruct (negb _); [done|]. destruct (find_key _ _) as [k|].
    + intros (s & _ & Hs)%rbind_Ok Hg0. destruct (token_taken _ _ _); [done|]. injection Hs as <- <-. eapply (insert_gone token k _ (tx_db t0)); [|done|exact Hg0]. done.
    + intros (m & Hm & [= <- <-])%rbind_Ok Hg0. apply insert_row_inv in Hm as (_ & _ & _ & _ & ->). eapply (insert_gone token id _ (tx_db t0)); [|done|exact Hg0]. done.
  - eapply (query_gone _ token _ _ _ Hr); [|exact Hg]. intros a d' [= _ <-]. apply gone_sub, delete_subseteq.
  - eapply (query_gone _ token _ _ _ Hr); [|exact Hg]. intros a d' [= _ <-]. apply gone_sub, drop_rows_subseteq.
  - eapply (query_gone _ token _ _ _ Hr); [|exact Hg]. intros a d' [= _ <-]. apply gone_sub, drop_rows_subseteq.
  - eapply (query_gone _ token _ _ _ Hr); [|exact Hg]. intros a d' [= _ <-]. apply gone_sub, drop_rows_subseteq.
Qed.

(** C33: A refresh token is exchanged at most once.  Presenting a token rotates
    the live session whose current token it is, keeping its identity, its user
    and its device; a token that was replaced by the current one of a session is
    reuse and deletes every such session; any other token, a token replaced
    earlier included, is unknown and changes nothing; every other answer leaves
    the database as it was.  Once a token was exchanged it is never accepted
    again, whatever the store does in between, as long as the same token is not
    issued anew. *)
Theorem rotation_reuse old new exp t : db_ok (tx_db t) -> new <> old ->
  let at_ := clock (S (tx_step t)) in
  match SessionStore.Rotate old new exp t with
  | (Ok row, t') => (exists k s, accepts old at_ (tx_db t) k s /\ rotated_to old new exp s row /\
        tx_db t' = set_sessions (<[k := row]> (t_sessions (tx_db t))) (tx_db t)) /\
      forall t2 new' exp' row', rtc (store_step old) t' t2 -> (SessionStore.Rotate old new' exp' t2).1 <> Ok row'
  | (Err ErrSessionReused, t') => (forall k s, ~ accepts old at_ (tx_db t) k s) /\ retired old (tx_db t) /\
      forall k s, t_sessions (tx_db t') !! k = Some s <-> t_sessions (tx_db t) !! k = Some s /\ sr_PrevTokenHash s <> Some old
  | (Err ErrNotFound, t') => (forall k s, ~ accepts old at_ (tx_db t) k s) /\ ~ retired old (tx_db t) /\
      t_sessions (tx_db t') = t_sessions (tx_db t)
  | (Err _, t') => tx_db t' = tx_db t
  end.
Proof.
  intros Hd Hne at_. pose proof (Rotate_cases old new exp t) as Hc. fold at_ in Hc. cbv zeta in Hc.
  destruct (SessionStore.Rotate old new exp t) as [[row|[]] t']; try exact Hc.
  - split; [exact Hc|]. destruct Hc as (k & s & (Hk & Ht & Hl) & [_ [Hn _]] & E). intros t2 new' exp' row' Hrun.
    assert (Hg : gone old (tx_db t')).
    { intros k' s'. rewrite E. cbn. rewrite lookup_insert_Some. intros [[_ <-]|[Hkk Hs']]; [congruence|]. intros Es.
      pose proof (to_unique _ _ _ _ (ok_sessions _ Hd) _ _ _ _ Hk Hs' Hkk) as Hf. unfold session_conflict in Hf.
      rewrite bool_decide_true in Hf by congruence. done. }
    assert (Hg2 : gone old (tx_db t2)) by (clear -Hg Hrun; induction Hrun; eauto using store_step_gone).
    pose proof (Rotate_cases old new' exp' t2) as Hc2. destruct (SessionStore.Rotate old new' exp' t2) as [[row2|e2] t3]; [|done].
    destruct Hc2 as (k2 & s2 & (Hk2 & Ht2 & _) & _). by destruct (Hg2 _ _ Hk2).
  - destruct Hc as (H1 & H2 & ->). split_and!; [done|done|]. intros k s. cbn. rewrite drop_rows_Some, bool_decide_eq_false. done.
Qed.
End Sessions.

(** ** A small installation *)

Definition demo_env : StoreEnv := {| gen := Z; idNext := fun g => (Ok g, g + 1); fault := fun _ => false; clock := fun n => 1000 + Z.of_nat n |}.
#[local] Existing Instance demo_env.
#[local] Existing Instance sample_prims.
Definition demo_roles : Db := after (SeedRole (mkRoleRow "member" "Member" 0 1 0 1 1 1)) (after (SeedRole (mkRoleRow "owner" "Owner" 1000000 1 1 1 1 1)) empty_db).
Definition demo_users : Db := after (CreateUser 8 "bob" "hash" "Bob" None 1 1) (after (CreateUser 7 "ada" "hash" "Ada" None 1 1) demo_roles).
Definition demo_installed : Db :=
  after (SetInstallationInitialized 1 0) (after (SeedInstallationState "00112233445566778899aabbccddeeff") demo_users).
Definition demo_bound : Db :=
  after (InsertRoleBinding 21 8 "member" "server" None None 2) (after (InsertRoleBinding 20 7 "owner" "server" None None 2) demo_installed).
Definition demo_db : Db := after (UpsertSession (mkSessionRow 30 7 "phone" "token-1" None 5000 2 2)) demo_bound.
Definition demo_tx : Tx := mkTx demo_db 0 (100 : gen).

Lemma demo_ok : db_ok demo_db.
Proof. apply produced_ok. repeat (apply after_produced; [constructor|]). apply produced_empty. Qed.

Lemma projection_exact_witness : exists p st, (loadStateProjection demo_tx).1 = Ok p /\ newPersistentState (Some p) = Ok st /\ describes demo_db st.
Proof.
  destruct (projection_exact demo_tx demo_ok) as [_ [(p & st & H1 & H2 & _ & H3)|[_ [n Hn]]]]; [by exists p, st|discriminate Hn].
Defined.
Lemma TransferOwner_exact_witness : exists t', TransferOwner true 7 8 demo_tx = (Ok tt, t') /\ transferred 7 8 demo_db (tx_db t').
Proof.
  pose proof (TransferOwner_exact 7 8 demo_tx demo_ok) as Hx. destruct (TransferOwner true 7 8 demo_tx) as [[[]|e] t'] eqn:E.
  - exists t'. split; [done|]. apply Hx.
  - exfalso. revert E. vm_compute. discriminate.
Defined.
(** Token 1 is exchanged for 2; presented again it ends the session, while after
    a second exchange it is unknown and the session lives on. *)
Lemma rotation_reuse_witness : exists row t1, SessionStore.Rotate "token-1" "token-2" 9000 demo_tx = (Ok row, t1) /\
  (forall row', (SessionStore.Rotate "token-1" "token-4" 9000 (SessionStore.Rotate "token-2" "token-3" 9000 t1).2).1 <> Ok row') /\
  (SessionStore.Rotate "token-1" "token-3" 9000 t1).1 = Err ErrSessionReused /\
  (SessionStore.Rotate "token-1" "token-4" 9000 (SessionStore.Rotate "token-2" "token-3" 9000 t1).2).1 = Err ErrNotFound.
Proof.
  pose proof (rotation_reuse "token-1" "token-2" 9000 demo_tx demo_ok ltac:(done)) as Hx.
  destruct (SessionStore.Rotate "token-1" "token-2" 9000 demo_tx) as [[row|e] t1] eqn:E; [|exfalso; revert E; vm_compute; discriminate].
  exists row, t1. split; [done|]. split.
  - intros row'. destruct Hx as [_ Hx]. apply Hx. apply rtc_once. eapply st_rotate with (n := "token-3"); [discriminate|apply surjective_pairing].
  - assert (Et : t1 = (SessionStore.Rotate "token-1" "token-2" 9000 demo_tx).2) by (by rewrite E). rewrite Et. split; by vm_compute.
Defined.
End InstallationProps.
