(* ===== verification/Durable.v ===== *)
(** * Durable: completed commands that survive a restart

    The idempotency stores ([store/idempotency_store.go],
    [registration_idempotency_store.go], [activation_idempotency_store.go]) and
    the durable part of [realtime/idempotency.go].  A store bound to a
    transaction admits one command and saves one result; the flags of the store
    value are threaded.  JSON and the keyed digest are arguments. *)

From S2P Require Import Prelude State Support Database Stores Installation Identity Idempotency.
From stdpp Require Import base gmap strings list fin_maps.
From Stdlib Require Import ZArith Lia Ascii.
#[local] Open Scope string_scope.
#[local] Open Scope list_scope.
#[local] Open Scope Z_scope.

(** [json.Valid], [canonicalJSONValue] on non-empty text, and the nested result
    of an activation ([json.Marshal] and [json.Unmarshal] of [activationStoredResult]:
    body, checkpoint and cursor; [None] is an error). *)
Class CommandJson := {
  json_Valid : string -> bool; json_canonical : string -> option string;
  stored_Marshal : string * State.Checkpoint * string -> option string; stored_Unmarshal : string -> option (string * State.Checkpoint * string)
}.

Module Durable.
Import State Identity Idempotency Database Tx.
Open Scope store_scope.

(** ** Stores *)

(** [24 * time.Hour] in milliseconds. *)
Definition CommandIdempotencyTTL : Z := 24 * 60 * 60 * 1000.
Definition MaxCommandIdempotencyRecords : Z := 100000.

(** [idempotencyKeyRE], [streamEpochRE] and [activationIdentityRE] are the patterns of the realtime package. *)
Record CommandIdempotencyRecord := mkRecord {
  dr_PrincipalID : Z; dr_IdempotencyKey : string; dr_Endpoint : string; dr_RequestHMAC : string; dr_CommandID : Z; dr_Status : Z;
  dr_ResultBody : string; dr_Headers : IdempotencyHeaders; dr_StreamEpoch : string; dr_GEID : Z; dr_StateCursor : string;
  dr_CreatedAt : Z; dr_ExpiresAt : Z
}.
Record RegistrationIdempotencyRecord := mkRegistrationRecord {
  rg_InstallationID : string; rg_IdempotencyKey : string; rg_RequestHMAC : string; rg_CommandID : Z; rg_Status : Z; rg_ResultBody : string;
  rg_Headers : IdempotencyHeaders; rg_StreamEpoch : string; rg_GEID : Z; rg_StateCursor : string; rg_CreatedAt : Z; rg_ExpiresAt : Z
}.
Record ActivationIdempotencyRecord := mkActivationRecord {
  ac_InstallationID : string; ac_IdempotencyKey : string; ac_ActivationCodeHash : string; ac_RequestHMAC : string; ac_CommandID : Z; ac_Status : Z;
  ac_ResultBody : string; ac_Headers : IdempotencyHeaders; ac_CreatedAt : Z; ac_ExpiresAt : Z
}.

(** The state of a store value; [WithTx] makes a fresh transactional one. *)
Record Flags := mkFlags { fl_transactional : bool; fl_admitted : bool; fl_saved : bool }.
Definition with_tx : Flags := mkFlags true false false.

Definition optionalNonEmpty (value : string) : option string := if bool_decide (value = "") then None else Some value.
Definition optionalStringValue (value : option string) : string := default "" value.
Definition header_row (h : IdempotencyHeaders) : HeaderRow :=
  mkHeaderRow (optionalNonEmpty (ih_ETag h)) (optionalNonEmpty (ih_ParentETag h)) (optionalNonEmpty (ih_Location h)) (optionalNonEmpty (ih_CacheControl h))
    (optionalNonEmpty (ih_Pragma h)).
Definition headers_of (h : HeaderRow) : IdempotencyHeaders :=
  mkHeaders (optionalStringValue (hr_Etag h)) (optionalStringValue (hr_ParentEtag h)) (optionalStringValue (hr_Location h))
    (optionalStringValue (hr_CacheControl h)) (optionalStringValue (hr_Pragma h)).
(** An activation keeps no parent tag. *)
Definition without_parent (h : IdempotencyHeaders) : IdempotencyHeaders := mkHeaders (ih_ETag h) "" (ih_Location h) (ih_CacheControl h) (ih_Pragma h).
Definition hasHeaderLineBreak (value : string) : bool := hasControlCharacters value.

Section Store.
Context `{!StoreEnv, !SqlPrims, !CommandJson}.

Definition admitDurableIdempotency (f : Flags) : Store unit :=
  if negb (fl_transactional f) || fl_admitted f || fl_saved f then throw ErrCommandIdempotencyAdmission
  else current <~ now ;;
  query (DeleteExpiredCommandIdempotency current) ;;~ query (DeleteExpiredActivationIdempotency current) ;;~
  query (DeleteExpiredRegistrationIdempotency current) ;;~
  count <~ query CountDurableIdempotency ;;
  if MaxCommandIdempotencyRecords <=? count then throw ErrCommandIdempotencyFull else ret tt.
(** Each of the three stores admits with its own flags. *)
Definition store_Admit (f : Flags) : Store Flags := admitDurableIdempotency f ;;~ ret (mkFlags (fl_transactional f) true (fl_saved f)).
Definition may_save (f : Flags) : bool := fl_transactional f && fl_admitted f && negb (fl_saved f).
Definition saved (f : Flags) : Flags := mkFlags (fl_transactional f) (fl_admitted f) true.
Definition expires (created : Z) : Z := i64 (created + CommandIdempotencyTTL).

Definition validCommandIdempotencyRecord (r : CommandIdempotencyRecord) : bool :=
  (0 <? dr_PrincipalID r) && IdempotencyKeyValid (dr_IdempotencyKey r) && (0 <? slen (dr_Endpoint r)) && (slen (dr_Endpoint r) <=? 256) &&
  negb (hasHeaderLineBreak (dr_Endpoint r)) && (0 <? dr_CommandID r) && (100 <=? dr_Status r) && (dr_Status r <=? 599) &&
  installationIdentityPattern (dr_StreamEpoch r) && negb (bool_decide (dr_StateCursor r = "")) && (0 <=? dr_CreatedAt r) &&
  (dr_ExpiresAt r =? expires (dr_CreatedAt r)) && (slen (dr_RequestHMAC r) =? 64) && bool_decide (is_Some (hex_decode (dr_RequestHMAC r))) &&
  json_Valid (dr_ResultBody r) && negb (invalidResourceHeaders (dr_Headers r)) && (dr_GEID r <=? 2 ^ 63 - 1).

Definition commandIdempotencyRecordFromDB (r : CommandIdempotency) : result CommandIdempotencyRecord StoreError :=
  if ci_Geid r <? 0 then Err ErrInvalidIdempotencyRecord
  else Ok (mkRecord (ci_PrincipalID r) (ci_IdempotencyKey r) (ci_Endpoint r) (ci_RequestHmac r) (ci_CommandID r) (ci_Status r) (ci_ResultBody r)
             (headers_of (ci_Headers r)) (ci_StreamEpoch r) (ci_Geid r) (ci_StateCursor r) (ci_CreatedAt r) (ci_ExpiresAt r)).
Definition command_row (r : CommandIdempotencyRecord) : CommandIdempotency :=
  mkCommandRow (dr_PrincipalID r) (dr_IdempotencyKey r) (dr_Endpoint r) (dr_RequestHMAC r) (dr_CommandID r) (dr_Status r) (dr_ResultBody r)
    (header_row (dr_Headers r)) (dr_StreamEpoch r) (i64_of_u64 (dr_GEID r)) (dr_StateCursor r) (dr_CreatedAt r) (dr_ExpiresAt r).

Definition store_Lookup (principalID : Z) (key : string) : Store CommandIdempotencyRecord :=
  if (principalID <=? 0) || negb (IdempotencyKeyValid key) then throw ErrInvalidIdempotencyRecord
  else t <~ now ;; row <~ query (GetCommandIdempotency principalID key t) ;; ConfigStore.lift (commandIdempotencyRecordFromDB row).

(** [Save] fills in the times a caller leaves at zero. *)
Definition stamp (created expiresAt t : Z) : Z * Z :=
  let created := if created =? 0 then t else created in (created, if expiresAt =? 0 then expires created else expiresAt).
Definition store_Save (f : Flags) (r : CommandIdempotencyRecord) : Store Flags :=
  if negb (may_save f) then throw ErrCommandIdempotencyAdmission
  else t <~ now ;;
  let '(created, expiresAt) := stamp (dr_CreatedAt r) (dr_ExpiresAt r) t in
  let r := mkRecord (dr_PrincipalID r) (dr_IdempotencyKey r) (dr_Endpoint r) (dr_RequestHMAC r) (dr_CommandID r) (dr_Status r) (dr_ResultBody r)
             (dr_Headers r) (dr_StreamEpoch r) (dr_GEID r) (dr_StateCursor r) created expiresAt in
  if negb (validCommandIdempotencyRecord r) then throw ErrInvalidIdempotencyRecord
  else query (InsertCommandIdempotency (command_row r)) ;;~ ret (saved f).
Definition Prune : Store Z :=
  t <~ now ;; commands <~ query (DeleteExpiredCommandIdempotency t) ;; activations <~ query (DeleteExpiredActivationIdempotency t) ;;
  registrations <~ query (DeleteExpiredRegistrationIdempotency t) ;; ret (commands + activations + registrations).

Definition validRegistrationRecord (r : RegistrationIdempotencyRecord) : bool :=
  installationIdentityPattern (rg_InstallationID r) && IdempotencyKeyValid (rg_IdempotencyKey r) && Installation.validHex (rg_RequestHMAC r) 32 &&
  (0 <? rg_CommandID r) && (100 <=? rg_Status r) && (rg_Status r <=? 599) && installationIdentityPattern (rg_StreamEpoch r) &&
  negb (bool_decide (rg_StateCursor r = "")) && (0 <=? rg_CreatedAt r) && (rg_ExpiresAt r =? expires (rg_CreatedAt r)) && json_Valid (rg_ResultBody r) &&
  (rg_GEID r <=? 2 ^ 63 - 1) && negb (invalidResourceHeaders (rg_Headers r)).
Definition registrationIdempotencyRecordFromDB (r : RegistrationIdempotency) : result RegistrationIdempotencyRecord StoreError :=
  if ri_Geid r <? 0 then Err ErrInvalidIdempotencyRecord
  else let record := mkRegistrationRecord (ri_InstallationID r) (ri_IdempotencyKey r) (ri_RequestHmac r) (ri_CommandID r) (ri_Status r) (ri_ResultBody r)
                       (headers_of (ri_Headers r)) (ri_StreamEpoch r) (ri_Geid r) (ri_StateCursor r) (ri_CreatedAt r) (ri_ExpiresAt r) in
       if negb (validRegistrationRecord record) then Err ErrInvalidIdempotencyRecord else Ok record.
Definition registration_Lookup (installationID key : string) : Store RegistrationIdempotencyRecord :=
  if negb (installationIdentityPattern installationID) || negb (IdempotencyKeyValid key) then throw ErrInvalidIdempotencyRecord
  else t <~ now ;; row <~ query (GetRegistrationIdempotency installationID key t) ;; ConfigStore.lift (registrationIdempotencyRecordFromDB row).
(** The clock is read only where no creation time was given. *)
Definition created_or_now (created : Z) : Store Z := if created =? 0 then now else ret created.
Definition registration_Save (f : Flags) (r : RegistrationIdempotencyRecord) : Store Flags :=
  if negb (may_save f) then throw ErrCommandIdempotencyAdmission
  else created <~ created_or_now (rg_CreatedAt r) ;;
  let expiresAt := if rg_ExpiresAt r =? 0 then expires created else rg_ExpiresAt r in
  let r := mkRegistrationRecord (rg_InstallationID r) (rg_IdempotencyKey r) (rg_RequestHMAC r) (rg_CommandID r) (rg_Status r) (rg_ResultBody r)
             (rg_Headers r) (rg_StreamEpoch r) (rg_GEID r) (rg_StateCursor r) created expiresAt in
  if negb (validRegistrationRecord r) then throw ErrInvalidIdempotencyRecord
  else query (InsertRegistrationIdempotency (mkRegistrationRow (rg_InstallationID r) (rg_IdempotencyKey r) (rg_RequestHMAC r) (rg_CommandID r) (rg_Status r)
                (rg_ResultBody r) (header_row (rg_Headers r)) (rg_StreamEpoch r) (i64_of_u64 (rg_GEID r)) (rg_StateCursor r) created expiresAt)) ;;~ ret (saved f).

Definition validActivationRecord (r : ActivationIdempotencyRecord) : bool :=
  installationIdentityPattern (ac_InstallationID r) && IdempotencyKeyValid (ac_IdempotencyKey r) && Installation.validHex (ac_ActivationCodeHash r) 32 &&
  Installation.validHex (ac_RequestHMAC r) 32 && (0 <? ac_CommandID r) && (100 <=? ac_Status r) && (ac_Status r <=? 599) && (0 <=? ac_CreatedAt r) &&
  (ac_ExpiresAt r =? expires (ac_CreatedAt r)) && json_Valid (ac_ResultBody r) && negb (invalidResourceHeaders (without_parent (ac_Headers r))).
Definition activationIdempotencyRecordFromDB (r : ActivationIdempotency) : result ActivationIdempotencyRecord StoreError :=
  let record := mkActivationRecord (ai_InstallationID r) (ai_IdempotencyKey r) (ai_ActivationCodeHash r) (ai_RequestHmac r) (ai_CommandID r) (ai_Status r)
                  (ai_ResultBody r) (without_parent (headers_of (ai_Headers r))) (ai_CreatedAt r) (ai_ExpiresAt r) in
  if negb (validActivationRecord record) then Err ErrInvalidIdempotencyRecord else Ok record.
Definition activation_Lookup (installationID key : string) : Store ActivationIdempotencyRecord :=
  if negb (installationIdentityPattern installationID) || negb (IdempotencyKeyValid key) then throw ErrInvalidIdempotencyRecord
  else t <~ now ;; row <~ query (GetActivationIdempotency installationID key t) ;; ConfigStore.lift (activationIdempotencyRecordFromDB row).
Definition activation_Save (f : Flags) (r : ActivationIdempotencyRecord) : Store Flags :=
  if negb (may_save f) then throw ErrCommandIdempotencyAdmission
  else created <~ created_or_now (ac_CreatedAt r) ;;
  let expiresAt := if ac_ExpiresAt r =? 0 then expires created else ac_ExpiresAt r in
  let r := mkActivationRecord (ac_InstallationID r) (ac_IdempotencyKey r) (ac_ActivationCodeHash r) (ac_RequestHMAC r) (ac_CommandID r) (ac_Status r)
             (ac_ResultBody r) (ac_Headers r) created expiresAt in
  if negb (validActivationRecord r) then throw ErrInvalidIdempotencyRecord
  else query (InsertActivationIdempotency (mkActivationRow (ac_InstallationID r) (ac_IdempotencyKey r) (ac_ActivationCodeHash r) (ac_RequestHMAC r)
                (ac_CommandID r) (ac_Status r) (ac_ResultBody r) (header_row (without_parent (ac_Headers r))) created expiresAt)) ;;~ ret (saved f).
End Store.

(** ** Services *)

Inductive DurableError := Refused (e : IdempotencyError) | FromStore (e : StoreError).

Record DurableReplay := mkReplay {
  rp_CommandID : Z; rp_Status : Z; rp_Body : string; rp_Headers : IdempotencyHeaders; rp_Checkpoint : Checkpoint; rp_StateCursor : string;
  rp_SyncRequired : bool
}.
(** The result of an activation may carry no checkpoint; the zero one is empty. *)
Definition no_checkpoint : Checkpoint := mkCheckpoint "" 0.

(** What a lookup found, and the error beside it. *)
Inductive Found (A : Type) := NotFound | Mismatch | Corrupt (e : IdempotencyError) | Replays (a : A).
Arguments NotFound {A}. Arguments Mismatch {A}. Arguments Corrupt {A}. Arguments Replays {A}.

Section Service.
Context `{!StoreEnv, !SqlPrims, !CommandJson} (ToUpper : string -> string) (hmac_sha256 : string -> string -> bytes) (signer : RequestIdentitySigner).

Definition requested {A} (r : result A IdempotencyError) : Act DurableError A := match r with Ok a => ret a | Err e => throw (Refused e) end.
Definition sum_http (i : HTTPCommandIdentity) := Sum json_canonical ToUpper hmac_sha256 signer i.
Definition sum_registration (i : RegistrationCommandIdentity) := SumRegistration json_canonical ToUpper hmac_sha256 signer i.
Definition sum_installation (i : InstallationCommandIdentity) := SumInstallation json_canonical ToUpper hmac_sha256 signer i.

(** A record the store does not have is an answer, not an error. *)
Definition find_record {A} (m : Store A) : Act DurableError (option A) :=
  r <~ attempt m ;; match r with Ok a => ret (Some a) | Err ErrNotFound => ret None | Err e => throw (FromStore e) end.
(** A record of another process epoch still answers the retry, without its checkpoint. *)
Definition replay_of (currentEpoch : string) (r : CanonicalCommandResult) : DurableReplay :=
  if bool_decide (cp_StreamEpoch (cr_Checkpoint r) = currentEpoch)
  then mkReplay (cr_CommandID r) (cr_Status r) (cr_Body r) (cr_Headers r) (cr_Checkpoint r) (cr_StateCursor r) false
  else mkReplay (cr_CommandID r) (cr_Status r) (cr_Body r) (cr_Headers r) no_checkpoint "" true.

Definition canonicalCommandResultFromRecord (r : CommandIdempotencyRecord) : result CanonicalCommandResult IdempotencyError :=
  canonicalizeCommandResult json_canonical
    (mkCommandResult (dr_CommandID r) (dr_Status r) (dr_ResultBody r) (dr_Headers r) (mkCheckpoint (dr_StreamEpoch r) (dr_GEID r)) (dr_StateCursor r)).
Definition canonicalCommandResultFromRegistrationRecord (r : RegistrationIdempotencyRecord) : result CanonicalCommandResult IdempotencyError :=
  canonicalizeCommandResult json_canonical
    (mkCommandResult (rg_CommandID r) (rg_Status r) (rg_ResultBody r) (rg_Headers r) (mkCheckpoint (rg_StreamEpoch r) (rg_GEID r)) (rg_StateCursor r)).

Definition Lookup (identity : HTTPCommandIdentity) (key currentEpoch : string) : Act DurableError (Found DurableReplay) :=
  if negb (IdempotencyKeyValid key) || negb (validateStreamEpoch currentEpoch) then throw (Refused ErrInvalidRequestIdentity)
  else requestHMAC <~ requested (sum_http identity) ;;
  record <~ find_record (store_Lookup (hi_PrincipalID identity) key) ;;
  ret match record with
      | None => NotFound
      | Some record =>
          if negb (bool_decide (dr_Endpoint record = commandEndpoint identity)) || negb (equalRequestHMAC (dr_RequestHMAC record) requestHMAC) then Mismatch
          else match canonicalCommandResultFromRecord record with Err e => Corrupt e | Ok r => Replays (replay_of currentEpoch r) end
      end.
Definition Admit (f : Flags) : Act DurableError Flags := raise FromStore (store_Admit f).
Definition Save (f : Flags) (identity : HTTPCommandIdentity) (key : string) (r : CanonicalCommandResult) : Act DurableError Flags :=
  if negb (IdempotencyKeyValid key) then throw (Refused ErrInvalidRequestIdentity)
  else requestHMAC <~ requested (sum_http identity) ;; r <~ requested (canonicalizeCommandResult json_canonical r) ;;
  raise FromStore (store_Save f (mkRecord (hi_PrincipalID identity) key (commandEndpoint identity) requestHMAC (cr_CommandID r) (cr_Status r) (cr_Body r)
    (cr_Headers r) (cp_StreamEpoch (cr_Checkpoint r)) (cp_GEID (cr_Checkpoint r)) (cr_StateCursor r) 0 0)).

Definition LookupRegistration (identity : RegistrationCommandIdentity) (key currentEpoch : string) : Act DurableError (Found DurableReplay) :=
  if negb (IdempotencyKeyValid key) || negb (validateStreamEpoch currentEpoch) then throw (Refused ErrInvalidRequestIdentity)
  else requestHMAC <~ requested (sum_registration identity) ;;
  record <~ find_record (registration_Lookup (Identity.ri_InstallationID identity) key) ;;
  ret match record with
      | None => NotFound
      | Some record =>
          if negb (equalRequestHMAC (rg_RequestHMAC record) requestHMAC) then Mismatch
          else match canonicalCommandResultFromRegistrationRecord record with Err e => Corrupt e | Ok r => Replays (replay_of currentEpoch r) end
      end.
Definition SaveRegistration (f : Flags) (identity : RegistrationCommandIdentity) (key : string) (r : CanonicalCommandResult) : Act DurableError Flags :=
  if negb (IdempotencyKeyValid key) then throw (Refused ErrInvalidRequestIdentity)
  else requestHMAC <~ requested (sum_registration identity) ;; r <~ requested (canonicalizeCommandResult json_canonical r) ;;
  raise FromStore (registration_Save f (mkRegistrationRecord (Identity.ri_InstallationID identity) key requestHMAC (cr_CommandID r) (cr_Status r) (cr_Body r)
    (cr_Headers r) (cp_StreamEpoch (cr_Checkpoint r)) (cp_GEID (cr_Checkpoint r)) (cr_StateCursor r) 0 0)).

(** [ActivationCommandResult] and [ActivationReplay] have the fields of [CanonicalCommandResult]. *)
Definition checkpoint_ok (r : CanonicalCommandResult) : bool :=
  let epoch := cp_StreamEpoch (cr_Checkpoint r) in
  if bool_decide (epoch = "") then bool_decide (cr_StateCursor r = "") else validateStreamEpoch epoch && negb (bool_decide (cr_StateCursor r = "")).
Definition canonicalizeActivationCommandResult (r : CanonicalCommandResult) : result CanonicalCommandResult IdempotencyError :=
  if (cr_CommandID r <=? 0) || (cr_Status r <? 100) || (599 <? cr_Status r) || invalidResourceHeaders (cr_Headers r) || negb (checkpoint_ok r)
  then Err ErrInvalidCommandResult
  else
    let body := if (cr_Status r =? 204) && bool_decide (cr_Body r = "") then "null" else cr_Body r in
    match canonicalJSONValue json_canonical body with
    | None => Err ErrInvalidCommandResult
    | Some body => Ok (mkCommandResult (cr_CommandID r) (cr_Status r) body (cr_Headers r) (cr_Checkpoint r) (cr_StateCursor r))
    end.
Definition activationResultFromStoredBody (r : CanonicalCommandResult) : result CanonicalCommandResult IdempotencyError :=
  canonicalizeActivationCommandResult
    match stored_Unmarshal (cr_Body r) with
    | Some (body, checkpoint, cursor) =>
        if bool_decide (body = "") then r else mkCommandResult (cr_CommandID r) (cr_Status r) body (cr_Headers r) checkpoint cursor
    | None => r
    end.
Definition LookupActivation (identity : InstallationCommandIdentity) (key : string) : Act DurableError (Found CanonicalCommandResult) :=
  if negb (IdempotencyKeyValid key) then throw (Refused ErrInvalidRequestIdentity)
  else requestHMAC <~ requested (sum_installation identity) ;;
  record <~ find_record (activation_Lookup (ii_InstallationID identity) key) ;;
  ret match record with
      | None => NotFound
      | Some record =>
          if negb (equalHexDigest (ac_ActivationCodeHash record) (ii_ActivationCodeHash identity)) || negb (equalHexDigest (ac_RequestHMAC record) requestHMAC) then Mismatch
          else match activationResultFromStoredBody (mkCommandResult (ac_CommandID record) (ac_Status record) (ac_ResultBody record) (ac_Headers record) no_checkpoint "") with
               | Err e => Corrupt e
               | Ok r => Replays r
               end
      end.
Definition SaveActivation (f : Flags) (identity : InstallationCommandIdentity) (key : string) (r : CanonicalCommandResult) : Act DurableError Flags :=
  if negb (IdempotencyKeyValid key) then throw (Refused ErrInvalidRequestIdentity)
  else requestHMAC <~ requested (sum_installation identity) ;; r <~ requested (canonicalizeActivationCommandResult r) ;;
  match (if negb (bool_decide (cr_StateCursor r = "")) || negb (bool_decide (cp_StreamEpoch (cr_Checkpoint r) = ""))
         then stored_Marshal (cr_Body r, cr_Checkpoint r, cr_StateCursor r) else Some (cr_Body r)) with
  | None => throw (FromStore ErrDecode)
  | Some body =>
      raise FromStore (activation_Save f (mkActivationRecord (ii_InstallationID identity) key (ii_ActivationCodeHash identity) requestHMAC (cr_CommandID r)
        (cr_Status r) body (cr_Headers r) 0 0))
  end.
End Service.
End Durable.
