(* ===== verification/DurableProps.v ===== *)
(** * DurableProps: a completed command is replayed, never run again

    What a saved command answers to a retry, and what admission removes. *)

From S2P Require Import Prelude State Support Database DatabaseProps Stores Installation InstallationProps Identity Idempotency Durable.
From stdpp Require Import base gmap strings list fin_maps.
From Stdlib Require Import ZArith Lia Ascii.
#[local] Open Scope string_scope.
#[local] Open Scope list_scope.
#[local] Open Scope Z_scope.

Module DurableProps.
Import State Identity Idempotency Database DatabaseProps Tx InstallationProps Durable.

Lemma header_roundtrip h : headers_of (header_row h) = h.
Proof.
  assert (Ho : forall s, optionalStringValue (optionalNonEmpty s) = s) by (intros s; unfold optionalNonEmpty; by case_bool_decide).
  unfold headers_of, header_row. cbn. rewrite !Ho. by destruct h.
Qed.

Section Durable.
Context `{!StoreEnv, !SqlPrims, !CommandJson} (ToUpper : string -> string) (hmac_sha256 : string -> string -> bytes) (signer : RequestIdentitySigner).
(** Encoding a canonical text again gives it back, and it is not empty. *)
Context (Hcanonical : forall s s', json_canonical s = Some s' -> json_canonical s' = Some s' /\ s' <> "").

Lemma raise_Ok {E F A} (g : E -> F) (m : Act E A) t a t' : raise g m t = (Ok a, t') -> m t = (Ok a, t').
Proof. unfold raise. destruct (m t) as [[x|e] t1]; [|done]. by intros [= <- <-]. Qed.
Lemma requested_Ok {A} (r : result A IdempotencyError) t a t' : requested r t = (Ok a, t') -> r = Ok a /\ t' = t.
Proof. destruct r; [|done]. by intros [= <- <-]. Qed.

Lemma canonicalize_fixed r c : canonicalizeCommandResult json_canonical r = Ok c -> canonicalizeCommandResult json_canonical c = Ok c.
Proof using Hcanonical.
  unfold canonicalizeCommandResult. destruct (_ || _) eqn:Hc; [done|].
  destruct (canonicalJSONValue json_canonical _) as [body|] eqn:Hj; [|done]. intros [= <-]. cbn. rewrite Hc.
  unfold canonicalJSONValue in *. case_bool_decide as Hb; [done|]. destruct (Hcanonical _ _ Hj) as [Hi Hn].
  rewrite (bool_decide_false (body = "")) by done. rewrite andb_false_r, bool_decide_false by done. by rewrite Hi.
Qed.

(** The row a save leaves behind. *)
Lemma Save_row f identity key r t f' t1 : Save ToUpper hmac_sha256 signer f identity key r t = (Ok f', t1) ->
  exists h c, sum_http ToUpper hmac_sha256 signer identity = Ok h /\ canonicalizeCommandResult json_canonical r = Ok c /\ IdempotencyKeyValid key = true /\
  let record := mkRecord (hi_PrincipalID identity) key (commandEndpoint identity) h (cr_CommandID c) (cr_Status c) (cr_Body c) (cr_Headers c)
    (cp_StreamEpoch (cr_Checkpoint c)) (cp_GEID (cr_Checkpoint c)) (cr_StateCursor c) (clock (tx_step t)) (expires (clock (tx_step t))) in
  validCommandIdempotencyRecord record = true /\
  t_commands (tx_db t1) !! (hi_PrincipalID identity, key) = Some (command_row record).
Proof.
  unfold Save. destruct (IdempotencyKeyValid key) eqn:Hkey; cbn [negb]; [|done].
  intros (h & s1 & [Hh ->]%requested_Ok & Hs)%bind_Ok. apply bind_Ok in Hs as (c & s2 & [Hc ->]%requested_Ok & Hs). apply raise_Ok in Hs.
  exists h, c. split; [done|]. split; [done|]. split; [done|]. cbv zeta. unfold store_Save in Hs. destruct (negb (may_save f)); [done|].
  apply bind_Ok in Hs as (x & s3 & Hnow & Hs). injection Hnow as <- <-. cbn [stamp dr_CreatedAt dr_ExpiresAt] in Hs. unfold stamp in Hs.
  change (0 =? 0) with true in Hs. cbv iota beta in Hs. destruct (validCommandIdempotencyRecord _) eqn:Hv; cbn [negb] in Hs; [|done].
  split; [done|]. apply bind_Ok in Hs as ([] & s4 & Hq%query_Ok & [= _ <-]). unfold InsertCommandIdempotency in Hq.
  apply rbind_Ok in Hq as (m & (_ & _ & _ & _ & ->)%insert_row_inv & [= <-]). cbn. apply lookup_insert_eq.
Qed.

Lemma valid_fields r : validCommandIdempotencyRecord r = true ->
  0 < dr_PrincipalID r /\ is_Some (hex_decode (dr_RequestHMAC r)) /\ 0 <= dr_CreatedAt r /\ dr_GEID r <= 2 ^ 63 - 1.
Proof.
  unfold validCommandIdempotencyRecord. rewrite !andb_true_iff, bool_decide_eq_true, !Z.ltb_lt, !Z.leb_le. tauto.
Qed.

Lemma equalHexDigest_refl s : is_Some (hex_decode s) -> equalHexDigest s s = true.
Proof. intros [b Hb]. unfold equalHexDigest. rewrite Hb. by apply bool_decide_eq_true. Qed.

(** A result stored as a row reads back as itself. *)
Lemma row_result c h p key endpoint t : 0 <= cp_GEID (cr_Checkpoint c) <= 2 ^ 63 - 1 -> canonicalizeCommandResult json_canonical c = Ok c ->
  let record := mkRecord p key endpoint h (cr_CommandID c) (cr_Status c) (cr_Body c) (cr_Headers c) (cp_StreamEpoch (cr_Checkpoint c))
    (cp_GEID (cr_Checkpoint c)) (cr_StateCursor c) t (expires t) in
  commandIdempotencyRecordFromDB (command_row record) = Ok record /\ canonicalCommandResultFromRecord record = Ok c.
Proof.
  intros Hg Hc record. unfold commandIdempotencyRecordFromDB, command_row, record. cbn. unfold i64_of_u64.
  rewrite (proj2 (Z.ltb_lt (cp_GEID (cr_Checkpoint c)) (2 ^ 63))) by lia. rewrite (proj2 (Z.ltb_ge (cp_GEID (cr_Checkpoint c)) 0)) by lia.
  rewrite header_roundtrip. split; [done|]. unfold canonicalCommandResultFromRecord. cbn. destruct c as [? ? ? ? []]. exact Hc.
Qed.

(** A completed command is durable.  Once its result is saved, a retry with the same key finds it for 24 hours: the
    same request is answered with exactly the canonical result that was saved (with its checkpoint and cursor, or
    marked for synchronisation after a restart), any other request under the key is refused as a mismatch, and after
    the window the key is free; nothing but a driver failure gives another answer, and looking up changes nothing. *)
Theorem durable_replay f identity key r t f' t1 identity' h' epoch t2 :
  Save ToUpper hmac_sha256 signer f identity key r t = (Ok f', t1) -> 0 <= cp_GEID (cr_Checkpoint r) ->
  t_commands (tx_db t2) !! (hi_PrincipalID identity, key) = t_commands (tx_db t1) !! (hi_PrincipalID identity, key) ->
  hi_PrincipalID identity' = hi_PrincipalID identity -> validateStreamEpoch epoch = true ->
  sum_http ToUpper hmac_sha256 signer identity' = Ok h' ->
  exists h c, sum_http ToUpper hmac_sha256 signer identity = Ok h /\ canonicalizeCommandResult json_canonical r = Ok c /\ equalRequestHMAC h h = true /\
  let '(answer, t3) := Lookup ToUpper hmac_sha256 signer identity' key epoch t2 in
  tx_db t3 = tx_db t2 /\
  ((answer = Err (FromStore ErrDriver) /\ exists n, fault n = true) \/
   answer = Ok (if expires (clock (tx_step t)) <=? clock (tx_step t2) then NotFound
                else if bool_decide (commandEndpoint identity = commandEndpoint identity') && equalRequestHMAC h h' then Replays (replay_of epoch c)
                else Mismatch)).
Proof using Hcanonical.
  intros Hs Hgeid Hrow Hp He Hh'. destruct (Save_row _ _ _ _ _ _ _ Hs) as (h & c & Hh & Hc & Hkey & Hv & Hl). exists h, c. do 2 (split; [done|]).
  apply valid_fields in Hv as (Hpos & Hhex & _ & Hg). cbn in Hpos, Hg, Hhex. rewrite Hl in Hrow. split; [by apply equalHexDigest_refl|].
  assert (Hcg : cp_GEID (cr_Checkpoint c) = cp_GEID (cr_Checkpoint r)).
  { unfold canonicalizeCommandResult in Hc. destruct (_ || _); [done|]. destruct (canonicalJSONValue _ _); [|done]. by injection Hc as <-. }
  destruct (row_result c h (hi_PrincipalID identity) key (commandEndpoint identity) (clock (tx_step t))) as [Hrec Hres]; [lia|by eapply canonicalize_fixed|].
  unfold Lookup. rewrite Hkey, He. cbn [negb orb]. unfold requested. rewrite Hh'. unfold bind at 1. cbn [ret].
  unfold find_record, store_Lookup, attempt, bind, now, query, next_step, GetCommandIdempotency, reading, get_unexpired, get_row.
  rewrite Hp, Hkey. destruct (Z.leb_spec (hi_PrincipalID identity) 0); [lia|]. cbn [orb negb tx_db tx_step].
  destruct (fault (S (tx_step t2))) eqn:Hf; [split; [done|left; eauto]|]. rewrite Hrow. cbn [rbind ci_ExpiresAt command_row dr_ExpiresAt].
  rewrite Z.leb_antisym. destruct (clock (tx_step t2) <? expires (clock (tx_step t))); cbn [negb rbind mapError]; [|split; [done|by right]].
  rewrite Hrec. cbn [ConfigStore.lift ret dr_Endpoint dr_RequestHMAC]. split; [done|]. right. f_equal. rewrite Hres.
  case_bool_decide; cbn [negb orb andb]; [|done]. by destruct (equalRequestHMAC h h').
Qed.
End Durable.

#[local] Existing Instance demo_env.
#[local] Existing Instance sample_prims.
Definition demo_json : CommandJson := {| json_Valid := fun s => negb (bool_decide (s = "")); json_canonical := fun s => if bool_decide (s = "") then None else Some s;
  stored_Marshal := fun _ => None; stored_Unmarshal := fun _ => None |}.
#[local] Existing Instance demo_json.
Definition demo_signer : RequestIdentitySigner := mkSigner "0123456789abcdef0123456789abcdef".
Definition demo_identity : HTTPCommandIdentity := mkHTTPIdentity 7 "POST" "/groups" [] "{}" [] "".
Definition demo_result : CanonicalCommandResult :=
  mkCommandResult 77 201 "{}" (mkHeaders "" "" "" "" "") (mkCheckpoint "00112233445566778899aabbccddeeff" 5) "cursor".
Definition demo_save := Save id (fun _ _ => replicate 32 1) demo_signer (mkFlags true true false) demo_identity "0123456789abcdef" demo_result demo_tx.

Lemma demo_canonical s s' : json_canonical s = Some s' -> json_canonical s' = Some s' /\ s' <> "".
Proof. cbn. case_bool_decide; [done|]. intros [= <-]. by rewrite bool_decide_false. Qed.

Lemma demo_saved : demo_save = (Ok (mkFlags true true true), demo_save.2).
Proof. assert (Hf : demo_save.1 = Ok (mkFlags true true true)) by (vm_compute; reflexivity). by rewrite <- Hf, <- surjective_pairing. Qed.

Lemma durable_replay_witness : exists c,
  (Lookup id (fun _ _ => replicate 32 1) demo_signer demo_identity "0123456789abcdef" "ffffffffffffffffffffffffffffffff" demo_save.2).1 =
  Ok (Replays (replay_of "ffffffffffffffffffffffffffffffff" c)).
Proof.
  destruct (sum_http id (fun _ _ => replicate 32 1) demo_signer demo_identity) as [h0|] eqn:Eh; [|exfalso; revert Eh; vm_compute; discriminate].
  destruct (durable_replay id (fun _ _ => replicate 32 1) demo_signer demo_canonical _ _ _ _ _ _ _ demo_identity h0 "ffffffffffffffffffffffffffffffff"
    demo_save.2 demo_saved ltac:(done) eq_refl eq_refl eq_refl Eh) as (h & c & Hh & _ & Hrefl & Hx).
  exists c. destruct (Lookup _ _ _ _ _ _ demo_save.2) as [answer t3]. destruct Hx as [_ [[_ [n Hn]]|Hx]]; [discriminate Hn|].
  rewrite Eh in Hh. injection Hh as <-. rewrite Hrefl in Hx. rewrite Hx. cbn [fst]. vm_compute (expires _ <=? _). reflexivity.
Defined.
End DurableProps.
