(* ===== verification/Events.v ===== *)
(** * Events: the state events the services publish

    The event builders of [realtime/lifecycle.go] (voice authority) and of
    [channel/service.go] and [channel/voice.go] (groups, channels, members).  A
    payload is the document that the source hands to [json.Marshal]; the encoder
    is an argument and may fail. *)

From S2P Require Import Prelude State StateRing Visibility Snapshot.
From stdpp Require Import base gmap strings list pretty.
From Stdlib Require Import ZArith.
#[local] Open Scope string_scope.
#[local] Open Scope list_scope.
#[local] Open Scope Z_scope.

Module Events.
Import State StateRing Visibility Snapshot.

Inductive EventBody :=
  | BodyGroup (g : SnapshotGroup)
  | BodyChannel (c : SnapshotChannel)
  | BodyGroupRef (groupID version : string)
  | BodyChannelRef (channelID version : string)
  | BodyMuteRemoved (scopeType : string) (id : option string) (moderationEpoch : string)
  | BodyVoiceLost (voiceSessionID channelID reason : string)
  | BodyAuthority (authority : option SnapshotVoiceAuthority) (previousVoiceSessionID reason : string)
  | BodyMembership (m : SnapshotVoiceMembership)
  | BodyMemberLeft (userID channelID : string)
  | BodyMute (scopeType : string) (id : option string) (moderationEpoch : string)
  | BodyRole (r : SnapshotRole)
  | BodyRoleRef (roleKey : string)
  | BodyScopeVersion (scopeType id entityVersion : string)
  | BodyOwner (previousOwnerID newOwnerID : string)
  | BodyScopeMute (scopeType id moderationEpoch : string)
  | BodySelf (self : SnapshotSelf)
  | BodyUserRef (userID : string).

Class EventJson := { json_body : EventBody -> option bytes }.

(** A template with the fields its builder leaves at zero. *)
Definition template (eventType : string) (scope : Scope) (data : option bytes) (policy : Z) (before : list Z) (recipient : Z) : StateEventTemplate :=
  mkTemplate eventType scope 0 data policy before recipient 0 0 false.

(** ** Voice authority ([lifecycle.go]) *)

Definition voiceRevocationReason (reason : string) : string :=
  if bool_decide (reason = "udp_timeout") then "udp_timeout"
  else if bool_decide (reason ∈ ["eof"; "closed"; "token expired"]) then "owner_ws_closed"
  else if bool_decide (reason ∈ ["logged_out"; "refresh_reused"; "password_changed"; "password_reset"]) then "logged_out"
  else if bool_decide (reason ∈ ["kicked"; "banned"; "account_deleted"; "channel_access_lost"; "channel_deleted"]) then reason
  else "owner_ws_closed".
Definition previousVoiceSessionID (previous : option VoiceAuthority) : string :=
  match previous with Some a => hex_bytes (va_VoiceSessionID a) | None => "" end.
Definition replaced (previous current : option VoiceAuthority) : bool :=
  match previous, current with Some p, Some c => negb (bool_decide (va_VoiceSessionID p = va_VoiceSessionID c)) | _, _ => false end.
Definition authorityReason (previous current : option VoiceAuthority) (reason : string) : string :=
  if negb (bool_decide (reason = "")) then
    if bool_decide (reason ∈ ["left"; "channel_moved"; "joined"; "session_replaced"]) then reason else voiceRevocationReason reason
  else if replaced previous current then "session_replaced" else "".
Definition currentUserID (previous current : option VoiceAuthority) : Z :=
  match current, previous with Some a, _ => va_UserID a | None, Some a => va_UserID a | None, None => 0 end.

Section Build.
Context `{!EventJson}.

(** [None] is a failed [json.Marshal]. *)
Definition voiceAuthorityEventTemplates (previous current : option VoiceAuthority) (reason : string) : option (list StateEventTemplate) :=
  match previous, current with
  | None, None => Some []
  | _, _ =>
      let userID := currentUserID previous current in
      let targeted eventType data := template eventType server_scope (Some data) StateDeliveryUserTargeted [] userID in
      authorityData ← json_body (BodyAuthority (snapshotVoiceAuthorityValue current) (previousVoiceSessionID previous) (authorityReason previous current reason));
      lifecycle ← match previous, current with
        | Some p, None =>
            if bool_decide (reason = "left") then Some []
            else let wireReason := voiceRevocationReason reason in
                 data ← json_body (BodyVoiceLost (hex_bytes (va_VoiceSessionID p)) (pretty (va_ChannelID p)) wireReason);
                 Some [targeted (if bool_decide (wireReason = "udp_timeout") then "voice.disconnected" else "voice.revoked") data]
        | Some p, Some _ =>
            if replaced previous current
            then data ← json_body (BodyVoiceLost (hex_bytes (va_VoiceSessionID p)) (pretty (va_ChannelID p)) "session_replaced");
                 Some [targeted "voice.revoked" data]
            else Some []
        | None, _ => Some []
        end;
      Some (lifecycle ++ [targeted "voice.authority.updated" authorityData])
  end.

(** ** Groups and channels ([channel/service.go]) *)

Definition group_event (eventType : string) (g : Group) : option StateEventTemplate :=
  data ← json_body (BodyGroup (snapshotGroup g)); Some (template eventType (group_scope (gr_ID g)) (Some data) 0 [] 0).
Definition groupCreatedEvents (g : Group) : option (list StateEventTemplate) := e ← group_event "group.created" g; Some [e].
Definition groupUpdatedEvents (g : Group) : option (list StateEventTemplate) := e ← group_event "group.updated" g; Some [e].
Definition group_ref (g : Group) : EventBody := BodyGroupRef (pretty (gr_ID g)) (pretty (gr_Version g)).
Definition groupAccessEvents (g : Group) : option (list StateEventTemplate) :=
  events ← groupUpdatedEvents g; data ← json_body (group_ref g);
  Some (events ++ [template "group.access.updated" (group_scope (gr_ID g)) (Some data) 0 [] 0]).
Definition groupDeletedEvents (g : Group) (visibleBefore : list Z) : option (list StateEventTemplate) :=
  data ← json_body (group_ref g); Some [template "group.deleted" (group_scope (gr_ID g)) (Some data) StateDeliveryVisibleBefore visibleBefore 0].

Definition channel_event (eventType : string) (c : Channel) : option StateEventTemplate :=
  data ← json_body (BodyChannel (snapshotChannel c)); Some (template eventType (channel_scope (ch_ID c)) (Some data) 0 [] 0).
Definition channelCreatedEvents (c : Channel) : option (list StateEventTemplate) := e ← channel_event "channel.created" c; Some [e].
Definition channelUpdatedEvents (c : Channel) : option (list StateEventTemplate) := e ← channel_event "channel.updated" c; Some [e].
Definition channel_ref (c : Channel) : EventBody := BodyChannelRef (pretty (ch_ID c)) (pretty (ch_Version c)).
Definition channelAccessEvents (c : Channel) : option (list StateEventTemplate) :=
  events ← channelUpdatedEvents c; data ← json_body (channel_ref c);
  Some (events ++ [template "channel.access.updated" (channel_scope (ch_ID c)) (Some data) 0 [] 0]).
Definition channelDeletedEvents (c : Channel) (visibleBefore : list Z) : option (list StateEventTemplate) :=
  data ← json_body (channel_ref c); Some [template "channel.deleted" (channel_scope (ch_ID c)) (Some data) StateDeliveryVisibleBefore visibleBefore 0].

(** A mute of the deleted scope went with it: the epoch rises once. *)
Definition appendModerationMuteRemovedEvent (events : list StateEventTemplate) (scope : Scope) (before : StateVersion) (candidate : StateCandidate)
    (visibleBefore : list Z) : option (list StateEventTemplate * StateCandidate) :=
  if existsb (fun m => bool_decide (mu_Scope m = scope)) (Mutes before)
  then let candidate := IncrementModerationEpoch candidate in
       data ← json_body (BodyMuteRemoved (sc_Type scope) (if bool_decide (sc_Type scope = "server") then None else Some (pretty (sc_ID scope)))
                           (pretty (ModerationEpoch (version candidate))));
       Some (events ++ [template "moderation.mute.removed" scope (Some data) StateDeliveryVisibleBefore visibleBefore 0], candidate)
  else Some (events, candidate).

(** ** Members ([channel/voice.go]) *)

Definition visibleGroupUsers (groupID : Z) (v : StateVersion) : list Z := filter (fun u => CanSeeGroup u groupID (Some v) = true) (us_ID <$> Users v).
Definition visibleChannelUsers (channelID : Z) (v : StateVersion) : list Z := filter (fun u => CanAccessChannel u channelID (Some v) = true) (us_ID <$> Users v).

Definition voiceMemberEvent (a : VoiceAuthority) (joined : bool) (before : StateVersion) : option StateEventTemplate :=
  if negb (VoiceValid a) then None
  else data ← json_body (BodyMembership (snapshotMembership a));
  if joined then Some (template "channel.member.joined" (channel_scope (va_ChannelID a)) (Some data) StateDeliveryVisibleAfter [] 0)
  else data ← json_body (BodyMemberLeft (pretty (va_UserID a)) (pretty (va_ChannelID a)));
       Some (template "channel.member.left" (channel_scope (va_ChannelID a)) (Some data) StateDeliveryVisibleBefore
               (visibleChannelUsers (va_ChannelID a) before) 0).
End Build.
End Events.
