(* ===== verification/Service.v ===== *)
(** * Service: mutations of the state through the sequencer

    What [channel/service.go] and its siblings share: a command that, inside one
    database transaction, checks and changes the tables, builds the candidate
    state from that transaction, reserves its publication, saves its durable
    result and commits ([runMutation], [executionReserveAllUsers],
    [channel/voice.go]'s [PrepareVoiceAccessLoss]).

    The body of a command is a program over the transaction and the command's
    execution: it threads the transaction and calls the sequencer, and becomes
    the script that the sequencer runs.  The world of the publication holds the
    committed database, the deadline scheduler, and the voice runtime, which is
    an interface here.  A commit that the driver accepts replaces the database
    of the world; every other end leaves it. *)

From S2P Require Import Prelude State StateRing Visibility Rbac Support Cursor Snapshot Lane Connection EventBus Publication Sequencer Database.
From S2P Require Import Stores Installation Identity Idempotency Durable Events.
From stdpp Require Import base gmap strings list pretty.
From Stdlib Require Import ZArith.
#[local] Open Scope string_scope.
#[local] Open Scope list_scope.
#[local] Open Scope Z_scope.

(** The voice coordinator and session manager as a publication uses them: the
    revocations of a command, which may fail, and what is left to clean up. *)
Class VoiceRuntime (R : Type) := {
  BeginVoiceRevoke : list (State.VoiceAuthority * string) -> R -> R * option (R -> R)
}.

Module Service.
Import State StateRing Visibility Etag Snapshot EventBus Publication Sequencer Database Identity Idempotency Durable Events.
Import Stores.Tx (StoreEnv, Act, fault, clock, gen, tx_db, tx_step, next_step).

#[global] Instance ExpirySchedule_eq_dec : EqDecision ExpirySchedule.
Proof. solve_decision. Defined.

(** Errors of the layers below, and a service's own. *)
Inductive ServiceError (E : Type) :=
  | Own (e : E) | ErrRealtimeUnavailable | ErrOfStore (e : Tx.StoreError) | ErrOfState (e : State.StoreError) | ErrOfSequencer (e : SequencerError)
  | ErrOfDurable (e : DurableError) | ErrOfAuthorizer | ErrOfETag (e : EtagError) | ErrEncode | ErrIssueCursor.
Arguments Own {E}. Arguments ErrRealtimeUnavailable {E}. Arguments ErrOfStore {E}. Arguments ErrOfState {E}. Arguments ErrOfSequencer {E}.
Arguments ErrOfDurable {E}. Arguments ErrOfAuthorizer {E}. Arguments ErrOfETag {E}. Arguments ErrEncode {E}. Arguments ErrIssueCursor {E}.

Record World (R : Type) := mkWorld { w_db : Db; w_timers : Deadline.DeadlineScheduler; w_voice : R }.
Arguments mkWorld {R}. Arguments w_db {R}. Arguments w_timers {R}. Arguments w_voice {R}.

(** [StateCommand] and [mutationResult]; [V] is a service's value. *)
Record StateCommand := mkStateCommand { sc_CommandID : Z; sc_Cursor : string; sc_Checkpoint : Checkpoint; sc_Replay : option DurableReplay }.
Record MutationResult (V : Type) := mkMutation { mr_value : option V; mr_state : StateCommand }.
Arguments mkMutation {V}. Arguments mr_value {V}. Arguments mr_state {V}.

Definition quoted (s : string) : string := String quote (s +:+ String quote "").
Definition mismatch_body : string :=
  "{" +:+ quoted "code" +:+ ":9," +:+ quoted "message" +:+ ":" +:+ quoted "idempotency key reused with different request" +:+ "," +:+ quoted "data" +:+ ":null}".
Definition no_headers : IdempotencyHeaders := mkHeaders "" "" "" "" "".
Definition IdempotencyMismatchReplay : DurableReplay := mkReplay 0 409 mismatch_body no_headers no_checkpoint "" false.
Definition replayed (r : DurableReplay) : StateCommand := mkStateCommand 0 "" no_checkpoint (Some r).

Section Mutations.
Context {C : Type} {R : Type} `{!StoreEnv, !SqlPrims, !CommandJson} {V E : Type}.
#[local] Abbreviation world := (World R).
#[local] Abbreviation script := (Script C world (MutationResult V)).
#[local] Abbreviation tx := Tx.Tx.

(** ** Programs *)

Definition Mut (A : Type) : Type := tx -> (result A (ServiceError E) -> tx -> script) -> script.
Definition mret {A} (a : A) : Mut A := fun t k => k (Ok a) t.
Definition mthrow {A} (e : ServiceError E) : Mut A := fun t k => k (Err e) t.
Definition mbind {A B} (m : Mut A) (f : A -> Mut B) : Mut B := fun t k =>
  m t (fun r t => match r with Ok a => f a t k | Err e => k (Err e) t end).
(** Work on the database. *)
Definition act {A} (m : Act (ServiceError E) A) : Mut A := fun t k => let '(r, t) := m t in k r t.
Definition stored {A} (m : Tx.Store A) : Mut A := act (Tx.raise ErrOfStore m).
Definition durable {A} (m : Act DurableError A) : Mut A := act (Tx.raise ErrOfDurable m).
(** A call on the execution. *)
Definition call (c : Call) : Mut Reply := fun t k => Invoke c (fun reply => k (Ok reply) t).
(** [state.Current()] and the version's address. *)
Definition current : Mut (nat * StateVersion) := fun t k => Look (fun pointer v => k (Ok (pointer, v)) t).
Definition ensure {A} (r : result A (ServiceError E)) : Mut A := match r with Ok a => mret a | Err e => mthrow e end.
Definition encoded {A} (o : option A) : Mut A := match o with Some a => mret a | None => mthrow ErrEncode end.
(** The deferred end: the callback returns its value or its error. *)
Definition reply_error (m : Mut Reply) : Mut unit :=
  mbind m (fun r => match r with GotError (Some e) => mthrow (ErrOfSequencer e) | _ => mret tt end).

Declare Scope mutation_scope.
Delimit Scope mutation_scope with mut.
Notation "x '<=~' m ';;' k" := (mbind m (fun x => k)) (at level 100, m at next level, right associativity) : mutation_scope.
Notation "m ';;=' k" := (mbind m (fun _ => k)) (at level 100, right associativity) : mutation_scope.
#[local] Open Scope mutation_scope.

(** ** The candidate and its reservation *)

(** [BuildPersistentCandidateFrom]: the projection read through the transaction. *)
Definition build_candidate : Mut (nat * StateCandidate) :=
  pv <=~ current ;; p <=~ stored Installation.loadStateProjection ;;
  match BuildPersistentCandidateFrom pv.2 (Some (Some p)) with
  | Ok c => mret (pv.1, c)
  | Err e => mthrow (ErrOfState e)
  end.

(** Every persisted user is a candidate of the visibility diff. *)
Definition reserve_candidate (pointer : nat) (candidate : StateCandidate) (events : list StateEventTemplate) (commit : option (RuntimeCommit (W := world))) : Mut unit := fun t k =>
  Invoke (CallReserve (clock (tx_step t)) (mkRequest (Some (pointer, version candidate)) events (us_ID <$> Users (version candidate)) commit)) (fun reply =>
    k (match reply with GotResult (Err e) => Err (ErrOfSequencer e) | _ => Ok tt end) (next_step t)).

(** A publication of runtime state alone. *)
Definition publish_runtime (pointer : nat) (candidate : StateCandidate) : Mut unit :=
  (fun t k => Invoke (CallReserve (clock (tx_step t)) (mkRequest (Some (pointer, version candidate)) [] [] None)) (fun reply =>
    k (match reply with GotResult (Err e) => Err (ErrOfSequencer e) | _ => Ok tt end) (next_step t))) ;;=
  reply_error (call CallMarkRuntimeReady).

Definition activeChannelMembers (channelID : Z) (v : StateVersion) : Z := len (filter (fun a => va_ChannelID a = channelID) (VoiceAuthorities v)).

Section Reserve.
Context `{!EventJson, !VoiceRuntime R}.
(** Whether the voice runtime is configured, and the time its clock reads. *)
Context (voice_configured : bool) (voiceNow : Z).

(** What the loop of [PrepareVoiceAccessLoss] accumulates. *)
Record LossPlan := mkLoss {
  lp_candidate : StateCandidate; lp_plans : list (VoiceAuthority * string); lp_events : list StateEventTemplate;
  lp_schedules : gmap Z ExpirySchedule; lp_cancellations : gmap Z Z; lp_cleared : gset Z
}.
Definition cancellation (before : StateVersion) (channelID : Z) (m : gmap Z Z) : gmap Z Z :=
  match TemporaryExpiry before channelID with
  | Some s => if live_schedule s && match m !! channelID with Some previous => previous <? es_Generation s | None => true end
              then <[channelID := es_Generation s]> m else m
  | None => m
  end.
(** A member whose channel stays: its schedule is cleared once, and an empty
    temporary channel is scheduled again. *)
Definition loss_schedule (before : StateVersion) (channel : Channel) (p : LossPlan) : option LossPlan :=
  let id := ch_ID channel in
  let clear := (ch_Temporary channel || is_some (TemporaryExpiry before id)) && negb (bool_decide (id ∈ lp_cleared p)) in
  let p := if clear then mkLoss (ClearTemporaryExpiry (lp_candidate p) id).2 (lp_plans p) (lp_events p) (lp_schedules p) (lp_cancellations p) ({[id]} ∪ lp_cleared p) else p in
  if ch_Temporary channel && (activeChannelMembers id (version (lp_candidate p)) =? 0)
  then '(schedule, candidate) ← ScheduleTemporaryExpiry (lp_candidate p) id (voiceNow + 30000);
       Some (mkLoss candidate (lp_plans p) (lp_events p) (<[id := schedule]> (lp_schedules p)) (lp_cancellations p) (lp_cleared p))
  else Some p.
Definition loss_step (before : StateVersion) (p : LossPlan) (a : VoiceAuthority) : result LossPlan (ServiceError E) :=
  let after := version (lp_candidate p) in
  let channel := getChannel after (va_ChannelID a) in
  if is_some channel && CanAccessChannel (va_UserID a) (va_ChannelID a) (Some after) then Ok p
  else match SetVoiceAuthority (lp_candidate p) (va_UserID a) None with
  | None => Err (ErrOfState (ErrInvalidProjection None))
  | Some candidate =>
      let p := mkLoss candidate (lp_plans p) (lp_events p) (lp_schedules p) (cancellation before (va_ChannelID a) (lp_cancellations p)) (lp_cleared p) in
      match (match channel with Some ch => loss_schedule before ch p | None => Some p end) with
      | None => Err (ErrOfState (ErrInvalidProjection None))
      | Some p =>
          let reason := if is_some channel then "channel_access_lost" else "channel_deleted" in
          match voiceAuthorityEventTemplates (Some a) None reason with
          | None => Err ErrEncode
          | Some authorityEvents =>
              match (if is_some channel then (fun gone => [gone]) <$> voiceMemberEvent a false before else Some []) with
              | None => Err ErrEncode
              | Some gone => Ok (mkLoss (lp_candidate p) (lp_plans p ++ [(a, reason)]) (lp_events p ++ authorityEvents ++ gone) (lp_schedules p)
                                   (lp_cancellations p) (lp_cleared p))
              end
          end
      end
  end.
Definition cancel_timers (l : list (Z * Z)) (w : world) : world :=
  mkWorld (w_db w) (fold_left (fun s cg => Deadline.Cancel s "temporary" cg.1 cg.2) l (w_timers w)) (w_voice w).
Definition schedule_timers (l : list (Z * ExpirySchedule)) (w : world) : world :=
  mkWorld (w_db w) (fold_left (fun s cs => Deadline.Schedule s (Deadline.mkTask "temporary" cs.1 (es_Generation cs.2) (es_Deadline cs.2))) l (w_timers w)) (w_voice w).
Definition voice_commit (p : LossPlan) : RuntimeCommit (W := world) := fun w =>
  match BeginVoiceRevoke (lp_plans p) (w_voice w) with
  | (r, None) => (mkWorld (w_db w) (w_timers w) r, (Some CommitFailed, None))
  | (r, Some cleanup) =>
      (mkWorld (w_db w) (w_timers w) r,
       (None, Some (fun w => let w := schedule_timers (map_to_list (lp_schedules p)) (cancel_timers (map_to_list (lp_cancellations p)) w) in
                             mkWorld (w_db w) (w_timers w) (cleanup (w_voice w)))))
  end.
Definition PrepareVoiceAccessLoss (candidate : StateCandidate)
  : result (StateCandidate * list StateEventTemplate * option (RuntimeCommit (W := world))) (ServiceError E) :=
  if negb voice_configured then Ok (candidate, [], None)
  else p <-? foldM (loss_step (base candidate)) (mkLoss candidate [] [] ∅ ∅ ∅) (VoiceAuthorities (base candidate)) ;;
       Ok (if bool_decide (lp_plans p = []) then (lp_candidate p, [], None) else (lp_candidate p, lp_events p, Some (voice_commit p))).

(** [temporaryExpiryCleanup]: the timers of schedules that changed. *)
Definition expiry_cancellations (before after : StateVersion) : list (Z * Z) :=
  omap (fun c => match TemporaryExpiry before (ch_ID c) with
                 | Some s => if live_schedule s && negb (bool_decide (TemporaryExpiry after (ch_ID c) = Some s)) then Some (ch_ID c, es_Generation s) else None
                 | None => None
                 end) (Channels before).
(** The runtime commit of a mutation: voice first; the timers are cancelled in its cleanup. *)
Definition runtime_commit (voice : option (RuntimeCommit (W := world))) (timers : list (Z * Z)) : option (RuntimeCommit (W := world)) :=
  match voice, timers with
  | None, [] => None
  | _, _ => Some (fun w =>
      let '(w, (failed, cleanup)) := run_commit voice w in
      match failed with
      | Some e => (w, (Some e, None))
      | None => (w, (None, Some (fun w => let w := cancel_timers timers w in match cleanup with Some f => f w | None => w end)))
      end)
  end.

Definition executionReserveAllUsers (pointer : nat) (candidate : StateCandidate) (events : list StateEventTemplate) : Mut unit :=
  pv <=~ ensure (PrepareVoiceAccessLoss candidate) ;;
  let '(candidate, voiceEvents, voiceCommit) := pv in
  reserve_candidate pointer candidate (voiceEvents ++ events) (runtime_commit voiceCommit (expiry_cancellations (base candidate) (version candidate))).
End Reserve.

(** ** [runMutation] *)

Section Run.
Context (ToUpper : string -> string) (hmac_sha256 : string -> string -> bytes) (signer : RequestIdentitySigner).
Context (IssueStateCursor : Z -> StateVersion -> option string) {D : Type} (success_body : D -> option string).
(** The code by which a caller tells errors apart. *)
Context (error_code : ServiceError E -> Z).

Definition issue (actorID : Z) (v : StateVersion) : Mut string := match IssueStateCursor actorID v with Some c => mret c | None => mthrow ErrIssueCursor end.
Definition durableBody (status : Z) (data : D) : Mut string := if status =? 204 then mret "" else encoded (success_body data).
(** [tx.Commit()] as the driver answers it. *)
Definition committed (t : tx) : Sequencer.Tx := if fault (tx_step t) then TxRefused else TxCommitted.
Definition set_db (d : Db) (w : world) : world := mkWorld d (w_timers w) (w_voice w).
(** A call that commits, and the database it leaves. *)
Definition commit (c : Sequencer.Tx -> Call) : Mut unit := fun t k =>
  Invoke (c (committed t)) (fun reply =>
    match reply with
    | GotError (Some e) => k (Err (ErrOfSequencer e)) (next_step t)
    | _ => Touch (set_db (tx_db t)) (fun bus => bus) (k (Ok tt) (next_step t))
    end).
Definition begin_tx : Mut unit := fun t k => if fault (tx_step t) then k (Err (ErrOfStore Tx.ErrDriver)) (next_step t) else k (Ok tt) (next_step t).

Definition save_result (f : Flags) (identity : HTTPCommandIdentity) (key : string) (actorID commandID : Z) (version : StateVersion)
    (response : Z * D * IdempotencyHeaders) (checkpoint : Checkpoint) : Mut StateCommand :=
  cursor <=~ issue actorID version ;;
  let '(status, data, headers) := response in
  body <=~ durableBody status data ;;
  durable (Save ToUpper hmac_sha256 signer f identity key (mkCommandResult commandID status body headers checkpoint cursor)) ;;=
  mret (mkStateCommand commandID cursor checkpoint None).

(** The retry lookup at the head of a durable command: [Some] ends it as a no-op. *)
Definition replay_first (command : option (HTTPCommandIdentity * string)) : Mut (option StateCommand) :=
  match command with
  | None => mret None
  | Some (identity, key) =>
      pv <=~ current ;;
      found <=~ durable (Lookup ToUpper hmac_sha256 signer identity key (cp_StreamEpoch (checkpoint pv.2))) ;;
      match found with
      | NotFound => mret None
      | Corrupt e => mthrow (ErrOfDurable (Refused e))
      | Mismatch => reply_error (call CallMarkNoop) ;;= mret (Some (replayed IdempotencyMismatchReplay))
      | Replays r => reply_error (call CallMarkNoop) ;;= mret (Some (replayed r))
      end
  end.
Definition admit_command (command : option (HTTPCommandIdentity * string)) : Mut Flags :=
  match command with None => mret with_tx | Some _ => durable (Admit with_tx) end.

(** The [Execute] callback. *)
Definition execute_mutation (actorID : Z) (command : option (HTTPCommandIdentity * string)) (response : V -> Z * D * IdempotencyHeaders)
    (mutate : Mut (V * bool)) (commandID : Z) : Mut (MutationResult V) :=
  replay <=~ replay_first command ;;
  match replay with
  | Some state => mret (mkMutation None state)
  | None =>
      begin_tx ;;=
      flags <=~ admit_command command ;;
      vn <=~ mutate ;;
      let '(value, noop) := vn in
      if noop then
        match command with
        | Some (identity, key) =>
            pv <=~ current ;;
            state <=~ save_result flags identity key actorID commandID pv.2 (response value) (checkpoint pv.2) ;;
            commit CallCommitNoop ;;= mret (mkMutation (Some value) state)
        | None => reply_error (call CallMarkNoop) ;;= mret (mkMutation (Some value) (mkStateCommand commandID "" no_checkpoint None))
        end
      else
        state <=~ match command with
          | Some (identity, key) =>
              r <=~ call CallReservedResult ;;
              match r with
              | GotResult (Ok reserved) => save_result flags identity key actorID commandID (pu_Version reserved) (response value) (pu_Checkpoint reserved)
              | GotResult (Err e) => mthrow (ErrOfSequencer e)
              | GotError _ => mthrow ErrRealtimeUnavailable
              end
          | None => mret (mkStateCommand commandID "" no_checkpoint None)
          end ;;
        commit CallCommit ;;= mret (mkMutation (Some value) state)
  end.
Definition to_script (m : Mut (MutationResult V)) (t : tx) : script :=
  m t (fun r _ => match r with
                  | Ok v => Return (mkOutput v None None)
                  | Err (ErrOfSequencer e) => Throw e
                  | Err e => Throw (ErrCallback (error_code e))
                  end).

(** The submitted command, on the database of the moment it starts; [acquire]
    takes the actor's lock, the mutation gate and the relay gates. *)
Definition mutation_command (acquire : world -> world * Acquired (W := world)) (actorID : Z) (command : option (HTTPCommandIdentity * string))
    (response : V -> Z * D * IdempotencyHeaders) (mutate : Mut (V * bool)) (t : tx) (canceled : bool) : PostCommitCommand C world (MutationResult V) :=
  mkCommand 1 0 (Some acquire) (fun commandID => to_script (execute_mutation actorID command response mutate commandID) t) canceled false false.

Definition runMutation_guard (actorID : Z) (command : option (HTTPCommandIdentity * string)) : bool :=
  (0 <? actorID) && match command with Some (identity, _) => hi_PrincipalID identity =? actorID | None => true end.

(** What [runMutation] makes of the completion. *)
Definition finish_mutation (actorID : Z) (completion : CommandCompletion (MutationResult V)) : result (MutationResult V) (ServiceError E) :=
  let r := cc_Value completion in
  match cc_Publication completion with
  | None => Ok r
  | Some p =>
      if negb (bool_decide (cp_StreamEpoch (sc_Checkpoint (mr_state r)) = "")) then Ok r
      else match IssueStateCursor actorID (pu_Version p) with
           | None => Err ErrIssueCursor
           | Some cursor => Ok (mkMutation (mr_value r) (mkStateCommand (sc_CommandID (mr_state r)) cursor (pu_Checkpoint p) (sc_Replay (mr_state r))))
           end
  end.
End Run.
End Mutations.
Arguments Mut C R {_} V E A.
Notation "x '<=~' m ';;' k" := (mbind m (fun x => k)) (at level 100, m at next level, right associativity) : mutation_scope.
Notation "m ';;=' k" := (mbind m (fun _ => k)) (at level 100, right associativity) : mutation_scope.
End Service.
