(* ===== verification/ChannelService.v ===== *)
(** * ChannelService: groups, channels and their access lists ([channel/service.go])

    The mutations of the channel service, each the body its command runs inside
    one transaction, the scheduled expiry of temporary channels, and the reads. *)

From S2P Require Import Prelude State StateRing Visibility Rbac Support Cursor Snapshot Lane Connection EventBus Publication Sequencer Database.
From S2P Require Import Stores Installation Identity Idempotency Durable Events Service.
From stdpp Require Import base gmap strings list pretty.
From Stdlib Require Import ZArith.
#[local] Open Scope string_scope.
#[local] Open Scope list_scope.
#[local] Open Scope Z_scope.

Module ChannelService.
Import State StateRing Visibility Permissions Etag Snapshot Publication Sequencer Database Durable Events Service.
Import Stores.Tx (StoreEnv, tx_step, tx_db, next_step, clock, fault).
Import ScopeAuth (Decision, Allow, Visible, DAuthority, Owner, Perms, Decide, AuthorityOf, Authority).
#[local] Open Scope mutation_scope.

Definition maxGroups : Z := 256.
Definition maxChannels : Z := 2048.
Definition maxTemporaryChannels : Z := 512.
Definition maxTemporaryChannelsCreator : Z := 5.
Definition maxAccessEntries : Z := 1024.
Definition defaultChannelCapacity : Z := 256.
Definition PermGroupCreate : string := "group.create".

Inductive ChannelError :=
  | ErrPermissionRequired | ErrParentNotFound | ErrTemporaryMode | ErrResourceLimit | ErrTargetNotFound | ErrPreconditionFailed | ErrGroupNotEmpty
  | ErrInvalidChannelState | ErrChannelActive | ErrParentAccessRequired | ErrAccessPrincipalNotFound | ErrInvalidAccessPrincipal.

Record CreateGroupInput := mkCreateGroup { cg_Name : string; cg_Position : Z; cg_Visibility : string }.
Record CreateChannelInput := mkCreateChannel {
  cc_GroupID : option Z; cc_Name : string; cc_Mode : string; cc_Temporary : bool; cc_Visibility : string; cc_Capacity : Z; cc_Position : Z; cc_Pinned : bool
}.
Record UpdateGroupInput := mkUpdateGroup { ug_Name : option string; ug_Position : option Z; ug_Visibility : option string }.
(** [GroupIDSet] and [GroupID]: [None] keeps the parent, [Some None] removes it. *)
Record UpdateChannelInput := mkUpdateChannel {
  uc_GroupID : option (option Z); uc_Name : option string; uc_Visibility : option string; uc_Capacity : option Z; uc_Position : option Z; uc_Pinned : option bool
}.
Record AccessPrincipalInput := mkPrincipal { pi_Type : string; pi_UserID : option Z; pi_RoleKey : option string }.
Record mutationValue := mkValue {
  mv_group : option SnapshotGroup; mv_channel : option SnapshotChannel; mv_access : option AccessEntry; mv_etag : string; mv_parentETag : string;
  mv_created : bool; mv_temporarySchedule : option ExpirySchedule
}.
Definition no_value : mutationValue := mkValue None None None "" "" false None.
Definition group_value (g : Group) : mutationValue := mkValue (Some (snapshotGroup g)) None None "" "" false None.
Definition channel_value (c : Channel) (s : option ExpirySchedule) : mutationValue := mkValue None (Some (snapshotChannel c)) None "" "" false s.
Definition etag_value (etag : string) : mutationValue := mkValue None None None etag "" false None.
Definition access_value (a : AccessEntry) (etag parent : string) (created : bool) : mutationValue := mkValue None None (Some a) etag parent created None.

(** ** Helpers *)

Definition validateAccessPrincipal (p : AccessPrincipalInput) : bool :=
  (bool_decide (pi_Type p = "user") && match pi_UserID p with Some u => 0 <? u | None => false end && is_none (pi_RoleKey p)) ||
  (bool_decide (pi_Type p = "role") && is_none (pi_UserID p) && match pi_RoleKey p with Some k => negb (bool_decide (k = "")) | None => false end).
Definition accessPrincipalStoreValue (p : AccessPrincipalInput) : AccessStore.AccessPrincipal := AccessStore.mkPrincipal (pi_Type p) (pi_UserID p) (pi_RoleKey p).
Definition accessPrincipalExists (p : AccessPrincipalInput) (v : StateVersion) : bool :=
  match pi_UserID p, pi_RoleKey p with
  | Some u, k => if bool_decide (pi_Type p = "user") then is_some (getUser v u)
                 else match k with Some k => bool_decide (pi_Type p = "role") && is_some (getRole v k) | None => false end
  | None, Some k => bool_decide (pi_Type p = "role") && is_some (getRole v k)
  | None, None => false
  end.
Definition same_present {A} `{EqDecision A} (a b : option A) : bool := match a, b with Some x, Some y => bool_decide (x = y) | _, _ => false end.
Definition access_matches (p : AccessPrincipalInput) (e : AccessEntry) : bool :=
  bool_decide (ac_PrincipalType e = pi_Type p) &&
  ((bool_decide (pi_Type p = "user") && same_present (pi_UserID p) (ac_UserID e)) || (bool_decide (pi_Type p = "role") && same_present (pi_RoleKey p) (ac_RoleKey e))).
Definition matchingAccess (l : list AccessEntry) (p : AccessPrincipalInput) : option AccessEntry := List.find (access_matches p) l.
Definition accessEntryIDExists (l : list AccessEntry) (accessID : Z) : bool := existsb (fun e => ac_ID e =? accessID) l.
Definition groupHasChannels (groupID : Z) (v : StateVersion) : bool := existsb (fun c => bool_decide (ch_GroupID c = Some groupID)) (Channels v).
Definition sameOptionalID (l r : option Z) : bool := bool_decide (l = r).
Definition grantsNewPermission (before after : list string) : bool := existsb (fun p => negb (bool_decide (p ∈ before))) after.

(** [page]: a slice expression with bad bounds panics. *)
Definition page {A} (items : list A) (limit offset : Z) : option (list A) :=
  if len items <=? offset then Some []
  else let last := i64 (offset + limit) in
       let last := if len items <? last then len items else last in
       if (offset <? 0) || (last <? offset) then None else Some (take (Z.to_nat (last - offset)) (drop (Z.to_nat offset) items)).
Definition defaultCapacity (c : option Z) : Z := default defaultChannelCapacity c.

(** [effectiveChannelConfig] and the part of it that has a meaning at a channel. *)
Definition effectiveChannelConfig (c : Channel) (v : StateVersion) : option PermissionConfig :=
  match getConfig v (channel_scope (ch_ID c)) with
  | Some x => Some x
  | None => match g ← ch_GroupID c; getConfig v (group_scope g) with Some x => Some x | None => getConfig v server_scope end
  end.
Definition freeze (role : string) (permissions : list string) : list string :=
  filter (fun p => (role = "owner" /\ p = Wildcard) \/ AllowedAtScope "channel" p = true) permissions.

Section Channels.
Context {C R : Type} `{!StoreEnv, !SqlPrims, !CommandJson, !ConfigJson, !EventJson, !VoiceRuntime R}.
Context (voice_configured : bool) (voiceNow : Z).
#[local] Abbreviation err := (ServiceError ChannelError).
#[local] Abbreviation mut := (Mut C R mutationValue ChannelError).
#[local] Abbreviation reserve := (executionReserveAllUsers voice_configured voiceNow).

Definition refuse {A} (e : ChannelError) : mut A := mthrow (Own e).
Definition Unmarshal (s : string) : option (gmap string (list string)) := match json_config s with Some (Some m) => Some m | _ => None end.
Definition channelConfigSnapshot (raw : string) : result string err :=
  match json_config raw with
  | None => Err ErrEncode
  | Some None => Err ErrRealtimeUnavailable
  | Some (Some grants) => Ok (json_encode (map_imap (fun role ps => Some (freeze role ps)) grants))
  end.

(** ** Authorization *)

Definition authorize (actorID : Z) (target : Scope) (permission : string) (v : StateVersion) : result Decision err :=
  match getUser v actorID with
  | Some u => if us_Banned u then Err (Own ErrPermissionRequired)
              else match Decide Unmarshal actorID target permission (Some v) with Ok d => Ok d | Err _ => Err ErrOfAuthorizer end
  | None => Err (Own ErrPermissionRequired)
  end.
Definition authorizeGroupTarget (actorID groupID : Z) (permission : string) (v : StateVersion) : result (Group * Decision) err :=
  match getGroup v groupID with
  | None => Err (Own ErrTargetNotFound)
  | Some g => d <-? authorize actorID (group_scope groupID) permission v ;; if negb (Visible d) then Err (Own ErrTargetNotFound) else Ok (g, d)
  end.
Definition authorizeChannelTarget (actorID channelID : Z) (permission : string) (v : StateVersion) : result (Channel * Decision) err :=
  match getChannel v channelID with
  | None => Err (Own ErrTargetNotFound)
  | Some c => d <-? authorize actorID (channel_scope channelID) permission v ;; if negb (Visible d) then Err (Own ErrTargetNotFound) else Ok (c, d)
  end.
Definition entity_etag (kind : string) (id version : Z) : result string err :=
  match NumericEntityETag kind id version with Ok t => Ok t | Err e => Err (ErrOfETag e) end.
Definition entityETagMatches (kind : string) (id version : Z) (expected : string) : result unit err :=
  etag <-? entity_etag kind id version ;; if negb (bool_decide (expected = etag)) then Err (Own ErrPreconditionFailed) else Ok tt.

(** The head of every mutation of a group or a channel: visible, up to date, allowed. *)
Definition permitted_group (actorID groupID : Z) (permission expectedETag : string) (v : StateVersion) : result (Group * Decision) err :=
  gd <-? authorizeGroupTarget actorID groupID permission v ;;
  _ <-? entityETagMatches "group" (gr_ID gd.1) (gr_Version gd.1) expectedETag ;;
  if negb (Allow gd.2) then Err (Own ErrPermissionRequired) else Ok gd.
Definition permitted_channel (actorID channelID : Z) (permission expectedETag : string) (v : StateVersion) : result (Channel * Decision) err :=
  cd <-? authorizeChannelTarget actorID channelID permission v ;;
  _ <-? entityETagMatches "channel" (ch_ID cd.1) (ch_Version cd.1) expectedETag ;;
  if negb (Allow cd.2) then Err (Own ErrPermissionRequired) else Ok cd.

Definition candidate_group (c : StateCandidate) (id : Z) : mut Group := match getGroup (version c) id with Some g => mret g | None => mthrow ErrRealtimeUnavailable end.
Definition candidate_channel (c : StateCandidate) (id : Z) : mut Channel := match getChannel (version c) id with Some g => mret g | None => mthrow ErrRealtimeUnavailable end.
Definition below (limit : Z) (count : Tx.Store Z) : mut unit := n <=~ stored count ;; if limit <=? n then refuse ErrResourceLimit else mret tt.

(** ** Access lists *)

Definition AddGroupAccess (actorID groupID : Z) (expectedETag : string) (principal : AccessPrincipalInput) : mut (mutationValue * bool) :=
  pv <=~ current ;; let v := pv.2 in
  gd <=~ ensure (permitted_group actorID groupID PermGroupManage expectedETag v) ;; let group := gd.1 in
  if negb (accessPrincipalExists principal v) then refuse ErrAccessPrincipalNotFound
  else match matchingAccess (GroupAccess v groupID) principal with
  | Some entry => etag <=~ ensure (entity_etag "group" (gr_ID group) (gr_Version group)) ;; mret (access_value entry etag "" false, true)
  | None =>
      below maxAccessEntries (AccessStore.CountGroup groupID) ;;=
      stored (AccessStore.AddGroup groupID (accessPrincipalStoreValue principal)) ;;= stored (ChannelStore.TouchGroup groupID) ;;=
      pc <=~ build_candidate ;; updated <=~ candidate_group pc.2 groupID ;;
      match matchingAccess (GroupAccess (version pc.2) groupID) principal with
      | None => mthrow ErrRealtimeUnavailable
      | Some entry =>
          events <=~ encoded (groupAccessEvents updated) ;; reserve pc.1 pc.2 events ;;=
          etag <=~ ensure (entity_etag "group" (gr_ID updated) (gr_Version updated)) ;; mret (access_value entry etag "" true, false)
      end
  end.

Definition DeleteGroupAccess (actorID groupID accessID : Z) (expectedETag : string) : mut (mutationValue * bool) :=
  pv <=~ current ;; let v := pv.2 in
  gd <=~ ensure (permitted_group actorID groupID PermGroupManage expectedETag v) ;;
  if negb (accessEntryIDExists (GroupAccess v groupID) accessID) then refuse ErrTargetNotFound
  else stored (AccessStore.DeleteGroup groupID accessID) ;;= stored (ChannelStore.TouchGroup groupID) ;;=
  pc <=~ build_candidate ;; updated <=~ candidate_group pc.2 groupID ;;
  events <=~ encoded (groupAccessEvents updated) ;; reserve pc.1 pc.2 events ;;=
  etag <=~ ensure (entity_etag "group" (gr_ID updated) (gr_Version updated)) ;; mret (etag_value etag, false).

(** What granting the parent needs: the parent group and whether it gains an entry. *)
Definition parent_grant (actorID : Z) (channel : Channel) (principal : AccessPrincipalInput) (grantParent : bool) (expectedParentETag : string) (v : StateVersion)
  : result (option (Group * bool)) err :=
  match ch_GroupID channel with
  | None => if grantParent then Err (Own ErrParentAccessRequired) else Ok None
  | Some gid =>
      match getGroup v gid with
      | None => Err ErrRealtimeUnavailable
      | Some parent =>
          let parentExists := is_some (matchingAccess (GroupAccess v (gr_ID parent)) principal) in
          if bool_decide (gr_Visibility parent = "private") && negb parentExists && negb grantParent then Err (Own ErrParentAccessRequired)
          else if negb grantParent then Ok (Some (parent, false))
          else d <-? authorize actorID (group_scope (gr_ID parent)) PermGroupManage v ;;
               if negb (Visible d) then Err (Own ErrTargetNotFound)
               else _ <-? entityETagMatches "group" (gr_ID parent) (gr_Version parent) expectedParentETag ;;
                    if negb (Allow d) then Err (Own ErrPermissionRequired) else Ok (Some (parent, negb parentExists))
      end
  end.
Definition parent_etag (grantParent : bool) (parent : option (Group * bool)) : result string err :=
  match parent with Some (g, _) => if grantParent then entity_etag "group" (gr_ID g) (gr_Version g) else Ok "" | None => Ok "" end.

Definition AddChannelAccess (actorID channelID : Z) (expectedETag expectedParentETag : string) (principal : AccessPrincipalInput) (grantParent : bool)
  : mut (mutationValue * bool) :=
  pv <=~ current ;; let v := pv.2 in
  cd <=~ ensure (permitted_channel actorID channelID PermChannelInvite expectedETag v) ;; let channel := cd.1 in
  if negb (accessPrincipalExists principal v) then refuse ErrAccessPrincipalNotFound
  else
    let child := matchingAccess (ChannelAccess v channelID) principal in
    parent <=~ ensure (parent_grant actorID channel principal grantParent expectedParentETag v) ;;
    let parentChanged := match parent with Some (_, changed) => changed | None => false end in
    match child, parentChanged with
    | Some entry, false =>
        etag <=~ ensure (entity_etag "channel" (ch_ID channel) (ch_Version channel)) ;; parentETag <=~ ensure (parent_etag grantParent parent) ;;
        mret (access_value entry etag parentETag false, true)
    | _, _ =>
        match parent with
        | Some (g, true) =>
            below maxAccessEntries (AccessStore.CountGroup (gr_ID g)) ;;=
            stored (AccessStore.AddGroup (gr_ID g) (accessPrincipalStoreValue principal)) ;;= stored (ChannelStore.TouchGroup (gr_ID g)) ;;= mret tt
        | _ => mret tt
        end ;;=
        (if is_some child then mret tt
         else below maxAccessEntries (AccessStore.CountChannel channelID) ;;=
              stored (AccessStore.AddChannel channelID (accessPrincipalStoreValue principal)) ;;= stored (ChannelStore.Touch channelID) ;;= mret tt) ;;=
        pc <=~ build_candidate ;; updated <=~ candidate_channel pc.2 channelID ;;
        match matchingAccess (ChannelAccess (version pc.2) channelID) principal with
        | None => mthrow ErrRealtimeUnavailable
        | Some entry =>
            pe <=~ match parent with
              | Some (g, true) =>
                  updatedParent <=~ candidate_group pc.2 (gr_ID g) ;; parentEvents <=~ encoded (groupAccessEvents updatedParent) ;;
                  parentETag <=~ ensure (entity_etag "group" (gr_ID updatedParent) (gr_Version updatedParent)) ;; mret (parentETag, parentEvents)
              | _ => parentETag <=~ ensure (parent_etag grantParent parent) ;; mret (parentETag, [])
              end ;;
            channelEvents <=~ (if is_some child then mret [] else encoded (channelAccessEvents updated)) ;;
            reserve pc.1 pc.2 (pe.2 ++ channelEvents) ;;=
            etag <=~ ensure (entity_etag "channel" (ch_ID updated) (ch_Version updated)) ;; mret (access_value entry etag pe.1 true, false)
        end
    end.

Definition DeleteChannelAccess (actorID channelID accessID : Z) (expectedETag : string) : mut (mutationValue * bool) :=
  pv <=~ current ;; let v := pv.2 in
  cd <=~ ensure (permitted_channel actorID channelID PermChannelInvite expectedETag v) ;;
  if negb (accessEntryIDExists (ChannelAccess v channelID) accessID) then refuse ErrTargetNotFound
  else stored (AccessStore.DeleteChannel channelID accessID) ;;= stored (ChannelStore.Touch channelID) ;;=
  pc <=~ build_candidate ;; updated <=~ candidate_channel pc.2 channelID ;;
  events <=~ encoded (channelAccessEvents updated) ;; reserve pc.1 pc.2 events ;;=
  etag <=~ ensure (entity_etag "channel" (ch_ID updated) (ch_Version updated)) ;; mret (etag_value etag, false).

(** ** Groups *)

Definition UpdateGroup (actorID groupID : Z) (expectedETag : string) (input : UpdateGroupInput) : mut (mutationValue * bool) :=
  pv <=~ current ;; let v := pv.2 in
  gd <=~ ensure (permitted_group actorID groupID PermGroupManage expectedETag v) ;; let group := gd.1 in
  let name := default (gr_Name group) (ug_Name input) in
  let position := default (gr_Position group) (ug_Position input) in
  let visibility := default (gr_Visibility group) (ug_Visibility input) in
  if bool_decide (name = gr_Name group) && (position =? gr_Position group) && bool_decide (visibility = gr_Visibility group)
  then mret (group_value group, true)
  else stored (ChannelStore.UpdateGroup (gr_ID group) name position visibility) ;;=
  pc <=~ build_candidate ;; updated <=~ candidate_group pc.2 (gr_ID group) ;;
  events <=~ encoded (groupUpdatedEvents updated) ;; reserve pc.1 pc.2 events ;;= mret (group_value updated, false).

Definition DeleteGroup (actorID groupID : Z) (expectedETag : string) : mut (mutationValue * bool) :=
  pv <=~ current ;; let v := pv.2 in
  gd <=~ ensure (permitted_group actorID groupID PermGroupManage expectedETag v) ;; let group := gd.1 in
  if groupHasChannels (gr_ID group) v then refuse ErrGroupNotEmpty
  else
    let beforeUsers := visibleGroupUsers (gr_ID group) v in
    stored (ChannelStore.DeleteGroup (gr_ID group)) ;;= pc <=~ build_candidate ;;
    events <=~ encoded (groupDeletedEvents group beforeUsers) ;;
    ec <=~ encoded (appendModerationMuteRemovedEvent events (group_scope (gr_ID group)) v pc.2 beforeUsers) ;;
    reserve pc.1 ec.2 ec.1 ;;= mret (no_value, false).

Definition CreateGroup (actorID : Z) (input : CreateGroupInput) : mut (mutationValue * bool) :=
  pv <=~ current ;; let v := pv.2 in
  d <=~ ensure (authorize actorID server_scope PermGroupCreate v) ;;
  if negb (Allow d) then refuse ErrPermissionRequired
  else below maxGroups ChannelStore.CountGroups ;;=
  group <=~ stored (ChannelStore.CreateGroup (cg_Name input) (cg_Position input) (cg_Visibility input)) ;;
  (if bool_decide (cg_Visibility input = "private") && negb (Owner (DAuthority d))
   then stored (AccessStore.AddGroup (gr_ID group) (AccessStore.mkPrincipal "user" (Some actorID) None)) ;;= mret tt else mret tt) ;;=
  pc <=~ build_candidate ;; snapshot <=~ candidate_group pc.2 (gr_ID group) ;;
  events <=~ encoded (groupCreatedEvents snapshot) ;; reserve pc.1 pc.2 events ;;= mret (group_value snapshot, false).

(** ** Channels *)

(** The parent of a new or moved channel exists and the actor sees it. *)
Definition destination_scope (actorID : Z) (groupID : option Z) (v : StateVersion) : result Scope err :=
  match groupID with
  | None => Ok server_scope
  | Some g => if is_some (getGroup v g) && CanSeeGroup actorID g (Some v) then Ok (group_scope g) else Err (Own ErrParentNotFound)
  end.
Definition may_move (actorID : Z) (groupID : option Z) (v : StateVersion) : result unit err :=
  target <-? destination_scope actorID groupID v ;;
  d <-? authorize actorID target PermChannelCreate v ;;
  if is_some groupID && negb (Visible d) then Err (Own ErrParentNotFound) else if negb (Allow d) then Err (Own ErrPermissionRequired) else Ok tt.

(** A moved channel that inherits keeps the configuration it had. *)
Definition freeze_config (channel : Channel) (v : StateVersion) : mut unit :=
  if is_some (getConfig v (channel_scope (ch_ID channel))) then mret tt
  else match effectiveChannelConfig channel v with
  | None => mthrow ErrRealtimeUnavailable
  | Some effective =>
      frozen <=~ ensure (channelConfigSnapshot (pc_Config effective)) ;;
      stored (ConfigStore.Update (ConfigStore.mkConfigScope "channel" (Some (ch_ID channel))) frozen) ;;= mret tt
  end.
Definition no_escalation (actorID channelID : Z) (before : Authority) (c : StateCandidate) : mut unit :=
  if Owner before then mret tt
  else match AuthorityOf Unmarshal actorID (channel_scope channelID) (Some (version c)) with
  | Err _ => mthrow ErrOfAuthorizer
  | Ok after => if grantsNewPermission (Perms before) (Perms after) then refuse ErrPermissionRequired else mret tt
  end.

Definition UpdateChannel (actorID channelID : Z) (expectedETag : string) (input : UpdateChannelInput) : mut (mutationValue * bool) :=
  pv <=~ current ;; let v := pv.2 in
  cd <=~ ensure (permitted_channel actorID channelID PermChannelManage expectedETag v) ;; let channel := cd.1 in
  let groupID := default (ch_GroupID channel) (uc_GroupID input) in
  let moved := negb (sameOptionalID (ch_GroupID channel) groupID) in
  (if moved then ensure (may_move actorID groupID v) else mret tt) ;;=
  let name := default (ch_Name channel) (uc_Name input) in
  let visibility := default (ch_Visibility channel) (uc_Visibility input) in
  let capacity := default (ch_Capacity channel) (uc_Capacity input) in
  let position := default (ch_Position channel) (uc_Position input) in
  let pinned := default (ch_Pinned channel) (uc_Pinned input) in
  if (capacity <? 1) || (defaultChannelCapacity <? capacity) then refuse ErrInvalidChannelState
  else if (capacity <? ch_Capacity channel) && (capacity <? activeChannelMembers (ch_ID channel) v) then refuse ErrInvalidChannelState
  else if negb moved && bool_decide (name = ch_Name channel) && bool_decide (visibility = ch_Visibility channel) && (capacity =? ch_Capacity channel) &&
          (position =? ch_Position channel) && Bool.eqb pinned (ch_Pinned channel)
  then mret (channel_value channel None, true)
  else (if moved then freeze_config channel v else mret tt) ;;=
  stored (ChannelStore.Update (ch_ID channel) (ChannelStore.mkUpdate groupID name visibility capacity position (if pinned then 1 else 0))) ;;=
  pc <=~ build_candidate ;; updated <=~ candidate_channel pc.2 (ch_ID channel) ;;
  (if moved then no_escalation actorID (ch_ID channel) (DAuthority cd.2) pc.2 else mret tt) ;;=
  events <=~ encoded (channelUpdatedEvents updated) ;; reserve pc.1 pc.2 events ;;= mret (channel_value updated None, false).

Definition DeleteChannel (actorID channelID : Z) (expectedETag : string) : mut (mutationValue * bool) :=
  pv <=~ current ;; let v := pv.2 in
  cd <=~ ensure (permitted_channel actorID channelID PermChannelManage expectedETag v) ;; let channel := cd.1 in
  if negb voice_configured && negb (activeChannelMembers (ch_ID channel) v =? 0) then refuse ErrChannelActive
  else
    let beforeUsers := visibleChannelUsers (ch_ID channel) v in
    stored (ChannelStore.Delete (ch_ID channel)) ;;= pc <=~ build_candidate ;;
    events <=~ encoded (channelDeletedEvents channel beforeUsers) ;;
    ec <=~ encoded (appendModerationMuteRemovedEvent events (channel_scope (ch_ID channel)) v pc.2 beforeUsers) ;;
    reserve pc.1 ec.2 ec.1 ;;= mret (no_value, false).

(** [CreateChannel] refuses an ill-formed input before it submits a command. *)
Definition createChannel_input (input : CreateChannelInput) : bool :=
  (1 <=? cc_Capacity input) && (cc_Capacity input <=? defaultChannelCapacity) && (negb (cc_Temporary input) || bool_decide (cc_Mode input = "voice")).
Definition CreateChannel (actorID : Z) (input : CreateChannelInput) : mut (mutationValue * bool) :=
  pv <=~ current ;; let v := pv.2 in
  target <=~ ensure (destination_scope actorID (cc_GroupID input) v) ;;
  d <=~ ensure (authorize actorID target (if cc_Temporary input then PermChannelCreateTemp else PermChannelCreate) v) ;;
  if negb (Allow d) then refuse ErrPermissionRequired
  else below maxChannels ChannelStore.Count ;;=
  (if cc_Temporary input
   then below maxTemporaryChannels ChannelStore.CountTemporary ;;=
        below maxTemporaryChannelsCreator (ChannelStore.CountTemporaryForCreator (Some actorID)) else mret tt) ;;=
  channel <=~ stored (ChannelStore.Create (ChannelStore.mkInput (cc_GroupID input) (cc_Name input) (cc_Mode input) (if cc_Temporary input then 1 else 0)
                       (cc_Visibility input) (cc_Capacity input) (cc_Position input) (if cc_Pinned input then 1 else 0) (Some actorID))) ;;
  (if bool_decide (cc_Visibility input = "private") && negb (Owner (DAuthority d))
   then stored (AccessStore.AddChannel (cr_ID channel) (AccessStore.mkPrincipal "user" (Some actorID) None)) ;;= mret tt else mret tt) ;;=
  pc <=~ build_candidate ;; snapshot <=~ candidate_channel pc.2 (cr_ID channel) ;;
  sc <=~ (if cc_Temporary input
          then t <=~ stored ChannelStore.Now ;;
               match ScheduleTemporaryExpiry pc.2 (cr_ID channel) (t + 30000) with
               | Some (schedule, c) => mret (Some schedule, c)
               | None => mthrow (ErrOfState (ErrInvalidProjection None))
               end
          else mret (None, pc.2)) ;;
  events <=~ encoded (channelCreatedEvents snapshot) ;; reserve pc.1 sc.2 events ;;= mret (channel_value snapshot sc.1, false).

(** ** Temporary channels *)

Definition expired (v : StateVersion) (channelID generation deadline : Z) : option Channel :=
  match TemporaryExpiry v channelID, getChannel v channelID with
  | Some s, Some c => if ch_Temporary c && (es_Generation s =? generation) && (es_Deadline s =? deadline) && (activeChannelMembers channelID v =? 0) then Some c else None
  | _, _ => None
  end.
Definition nothing : MutationResult mutationValue := mkMutation None (mkStateCommand 0 "" no_checkpoint None).
(** The [Execute] callback of the deadline's control command. *)
Definition ExpireTemporary (channelID generation deadline : Z) : mut (MutationResult mutationValue) :=
  pv <=~ current ;; let v := pv.2 in
  match expired v channelID generation deadline with
  | None => reply_error (call CallMarkNoop) ;;= mret nothing
  | Some channel =>
      t <=~ stored ChannelStore.Now ;;
      if t <? deadline then reply_error (call CallMarkNoop) ;;= mret nothing
      else begin_tx ;;=
      let beforeUsers := visibleChannelUsers channelID v in
      stored (ChannelStore.Delete channelID) ;;= pc <=~ build_candidate ;;
      events <=~ encoded (channelDeletedEvents channel beforeUsers) ;;
      ec <=~ encoded (appendModerationMuteRemovedEvent events (channel_scope (ch_ID channel)) v pc.2 beforeUsers) ;;
      reserve pc.1 ec.2 ec.1 ;;= commit CallCommit ;;= mret nothing
  end.
(** One command of [RestoreTemporarySchedules]. *)
Definition restore_schedule (channelID : Z) : mut (MutationResult mutationValue) :=
  pv <=~ current ;; t <=~ stored ChannelStore.Now ;;
  match ScheduleTemporaryExpiry (BuildRuntimeCandidate pv.2) channelID (t + 30000) with
  | None => mthrow (ErrOfState (ErrInvalidProjection None))
  | Some (schedule, c) =>
      publish_runtime pv.1 c ;;= mret (mkMutation (Some (mkValue None None None "" "" false (Some schedule))) (mkStateCommand 0 "" no_checkpoint None))
  end.

(** ** Reads *)

Record Page (A : Type) := mkPage { pg_Items : list A; pg_Limit : Z; pg_Offset : Z; pg_Total : Z }.
Arguments mkPage {A}.
(** [None] is the panic of a slice expression. *)
Definition paged {A} (visible : list A) (limit offset : Z) : option (Page A) := items ← page visible limit offset; Some (mkPage items limit offset (len visible)).
Definition known (actorID : Z) (v : StateVersion) : result unit err := if is_some (getUser v actorID) then Ok tt else Err (Own ErrPermissionRequired).

Definition ListGroups (v : StateVersion) (actorID limit offset : Z) : result (option (Page SnapshotGroup)) err :=
  _ <-? known actorID v ;;
  Ok (paged (snapshotGroup <$> filter (fun g => CanSeeGroup actorID (gr_ID g) (Some v) = true) (Groups v)) limit offset).
Definition ListChannels (v : StateVersion) (actorID : Z) (parent : option Z) (limit offset : Z) : result (option (Page SnapshotChannel)) err :=
  _ <-? known actorID v ;;
  if match parent with Some g => negb (is_some (getGroup v g) && CanSeeGroup actorID g (Some v)) | None => false end then Err (Own ErrParentNotFound)
  else Ok (paged (snapshotChannel <$> filter (fun c => (parent = None \/ ch_GroupID c = parent) /\ CanAccessChannel actorID (ch_ID c) (Some v) = true) (Channels v)) limit offset).
Definition GetGroup (v : StateVersion) (actorID groupID : Z) : result (SnapshotGroup * string) err :=
  _ <-? known actorID v ;;
  match getGroup v groupID with
  | Some g => if CanSeeGroup actorID groupID (Some v) then etag <-? entity_etag "group" (gr_ID g) (gr_Version g) ;; Ok (snapshotGroup g, etag) else Err (Own ErrTargetNotFound)
  | None => Err (Own ErrTargetNotFound)
  end.
Definition GetChannel (v : StateVersion) (actorID channelID : Z) : result (SnapshotChannel * string) err :=
  _ <-? known actorID v ;;
  match getChannel v channelID with
  | Some c => if CanAccessChannel actorID channelID (Some v) then etag <-? entity_etag "channel" (ch_ID c) (ch_Version c) ;; Ok (snapshotChannel c, etag) else Err (Own ErrTargetNotFound)
  | None => Err (Own ErrTargetNotFound)
  end.
Definition ListGroupAccess (v : StateVersion) (actorID groupID limit offset : Z) : result (option (Page AccessEntry) * string) err :=
  gd <-? authorizeGroupTarget actorID groupID PermGroupManage v ;;
  if negb (Allow gd.2) then Err (Own ErrPermissionRequired)
  else etag <-? entity_etag "group" (gr_ID gd.1) (gr_Version gd.1) ;; Ok (paged (State.GroupAccess v groupID) limit offset, etag).
Definition ListChannelAccess (v : StateVersion) (actorID channelID limit offset : Z) : result (option (Page AccessEntry) * string) err :=
  cd <-? authorizeChannelTarget actorID channelID PermChannelManage v ;;
  if negb (Allow cd.2) then Err (Own ErrPermissionRequired)
  else etag <-? entity_etag "channel" (ch_ID cd.1) (ch_Version cd.1) ;; Ok (paged (State.ChannelAccess v channelID) limit offset, etag).
End Channels.
End ChannelService.
