(* ===== verification/ServiceProps.v ===== *)
(** * ServiceProps: the published state mirrors the database

    A program logic for the bodies of mutations, and its first use: whatever a
    mutation does, a command leaves the published state describing exactly the
    committed tables, unless the sequencer stops. *)

From S2P Require Import Prelude State StateProps StateRing Visibility Rbac Support Cursor Snapshot Lane Connection EventBus Publication.
From S2P Require Import Sequencer Database DatabaseProps Stores Installation InstallationProps Identity Idempotency Durable Events Service.
From stdpp Require Import base gmap strings list.
From Stdlib Require Import ZArith Lia.
#[local] Open Scope string_scope.
#[local] Open Scope list_scope.
#[local] Open Scope Z_scope.

Module ServiceProps.
Import State StateRing Visibility Snapshot EventBus Publication Sequencer Database DatabaseProps InstallationProps Identity Idempotency Durable Events Service.
Import Stores.Tx (StoreEnv, Act, fault, clock, gen, tx_db, tx_step, next_step).

(** ** Tables other than those of completed commands *)

Record synced (d d' : Db) : Prop := {
  sy_users : t_users d' = t_users d; sy_roles : t_roles d' = t_roles d; sy_groups : t_groups d' = t_groups d; sy_channels : t_channels d' = t_channels d;
  sy_groupAccess : t_groupAccess d' = t_groupAccess d; sy_channelAccess : t_channelAccess d' = t_channelAccess d; sy_configs : t_configs d' = t_configs d;
  sy_bindings : t_bindings d' = t_bindings d; sy_mutes : t_mutes d' = t_mutes d;
  sy_sessions : t_sessions d' = t_sessions d; sy_invites : t_invites d' = t_invites d; sy_installation : t_installation d' = t_installation d
}.
#[global] Instance synced_preorder : PreOrder synced.
Proof. split; [by intros d|]. intros a b c [] []. constructor; congruence. Qed.
Lemma describes_synced d d' st : synced d d' -> describes d st -> describes d' st.
Proof. intros [] []. constructor; intros; congruence || (rewrite ?sy_users0, ?sy_roles0, ?sy_groups0, ?sy_channels0, ?sy_groupAccess0, ?sy_channelAccess0, ?sy_configs0, ?sy_bindings0, ?sy_mutes0; auto). Qed.

(** ** Store operations keep the schema *)

Section Stores.
Context `{!StoreEnv, !SqlPrims}.
Definition sound {E A} (m : Act E A) : Prop := forall t, db_ok (tx_db t) -> db_ok (tx_db (m t).2).

Lemma sound_ret {E A} (a : A) : sound (Tx.ret (E := E) a).
Proof. by intros t. Qed.
Lemma sound_throw {E A} (e : E) : sound (Tx.throw (A := A) e).
Proof. by intros t. Qed.
Lemma sound_bind {E A B} (m : Act E A) (f : A -> Act E B) : sound m -> (forall a, sound (f a)) -> sound (Tx.bind m f).
Proof. intros Hm Hf t Ht. unfold Tx.bind. specialize (Hm t Ht). destruct (m t) as [[a|e] t']; [by apply Hf|done]. Qed.
Lemma sound_attempt {E F A} (m : Act E A) : sound m -> sound (Tx.attempt (F := F) m).
Proof. intros Hm t Ht. unfold Tx.attempt. specialize (Hm t Ht). by destruct (m t). Qed.
Lemma sound_raise {E F A} (f : E -> F) (m : Act E A) : sound m -> sound (Tx.raise f m).
Proof. intros Hm t Ht. unfold Tx.raise. specialize (Hm t Ht). by destruct (m t) as [[]]. Qed.
Lemma sound_now : sound Tx.now.
Proof. by intros t. Qed.
Lemma sound_nextID : sound Tx.nextID.
Proof. intros t. unfold Tx.nextID. by destruct (Tx.idNext _) as [[] ?]. Qed.
Lemma sound_query {A} (s : Stmt A) : keeps s -> sound (Tx.query s).
Proof. intros Hs t Ht. unfold Tx.query. destruct (fault _); [done|]. destruct (s (tx_db t)) as [[a d]|e] eqn:E; [|done]. by eapply Hs. Qed.
Lemma sound_statement {A} (s : Stmt A) : statement s -> sound (Tx.query s).
Proof. intros Hs. by apply sound_query, statement_keeps. Qed.
Lemma sound_reading {A} (f : Db -> result A SqlError) : sound (Tx.query (reading f)).
Proof. apply sound_query, keeps_reading. Qed.
End Stores.


Section Quiet.
Context `{!StoreEnv, !SqlPrims}.
(** Operations on completed commands touch none of the mirrored tables. *)
Definition quiet {E A} (m : Act E A) : Prop := forall t, db_ok (tx_db t) -> db_ok (tx_db (m t).2) /\ synced (tx_db t) (tx_db (m t).2).
Lemma quiet_ret {E A} (a : A) : quiet (Tx.ret (E := E) a). Proof. by intros t. Qed.
Lemma quiet_throw {E A} (e : E) : quiet (Tx.throw (A := A) e). Proof. by intros t. Qed.
Lemma quiet_now : quiet Tx.now. Proof. by intros t. Qed.
Lemma quiet_bind {E A B} (m : Act E A) (f : A -> Act E B) : quiet m -> (forall a, quiet (f a)) -> quiet (Tx.bind m f).
Proof.
  intros Hm Hf t Ht. unfold Tx.bind. specialize (Hm t Ht). destruct (m t) as [[a|e] t']; [|done]. cbn in Hm. destruct Hm as [H1' H2'].
  destruct (Hf a t' H1') as [H3' H4']. split; [done|]. by etrans.
Qed.
Lemma quiet_attempt {E F A} (m : Act E A) : quiet m -> quiet (Tx.attempt (F := F) m).
Proof. intros Hm t Ht. unfold Tx.attempt. specialize (Hm t Ht). by destruct (m t). Qed.
Lemma quiet_raise {E F A} (f : E -> F) (m : Act E A) : quiet m -> quiet (Tx.raise f m).
Proof. intros Hm t Ht. unfold Tx.raise. specialize (Hm t Ht). by destruct (m t) as [[]]. Qed.
Lemma quiet_query {A} (s : Stmt A) : keeps s -> (forall d a d', s d = Ok (a, d') -> synced d d') -> quiet (Tx.query s).
Proof.
  intros Hs Hq t Ht. unfold Tx.query. destruct (fault _); [done|]. destruct (s (tx_db t)) as [[a d]|e] eqn:Es; [|done].
  split; [by eapply Hs|by eapply Hq].
Qed.
Lemma quiet_reading {A} (f : Db -> result A SqlError) : quiet (Tx.query (reading f)).
Proof. apply quiet_query; [apply keeps_reading|]. intros d a d'. unfold reading. destruct (f d); cbn; [|done]. by intros [= _ <-]. Qed.

Context `{!CommandJson} (ToUpper : string -> string) (hmac : string -> string -> bytes) (signer : RequestIdentitySigner).
Lemma quiet_lift {A} (r : result A Tx.StoreError) : quiet (ConfigStore.lift r). Proof. destruct r; [apply quiet_ret|apply quiet_throw]. Qed.
Lemma quiet_requested {A} (r : result A IdempotencyError) : quiet (requested r). Proof. destruct r; [apply quiet_ret|apply quiet_throw]. Qed.
Lemma quiet_Admit f : quiet (Admit f).
Proof.
  unfold Admit, store_Admit, admitDurableIdempotency. apply quiet_raise, quiet_bind; [|intros; apply quiet_ret].
  destruct (_ || _); [apply quiet_throw|]. apply quiet_bind; [apply quiet_now|intros c].
  do 3 (apply quiet_bind; [apply quiet_query; [apply statement_keeps; constructor|by intros d a d' [= _ <-]]|intros _]).
  apply quiet_bind; [apply quiet_reading|]. intros n. destruct (_ <=? _); [apply quiet_throw|apply quiet_ret].
Qed.
Lemma quiet_Save f identity key r : quiet (Save ToUpper hmac signer f identity key r).
Proof.
  unfold Save. destruct (negb _); [apply quiet_throw|]. apply quiet_bind; [apply quiet_requested|intros h]. apply quiet_bind; [apply quiet_requested|intros c].
  apply quiet_raise. unfold store_Save. destruct (negb _); [apply quiet_throw|]. apply quiet_bind; [apply quiet_now|intros x]. destruct (stamp _ _ _) as [a b].
  destruct (negb _); [apply quiet_throw|]. apply quiet_bind; [|intros; apply quiet_ret]. apply quiet_query; [apply statement_keeps; constructor|].
  intros d y d'. unfold InsertCommandIdempotency. by intros (m & _ & [= _ <-])%rbind_Ok.
Qed.
Lemma quiet_Lookup identity key epoch : quiet (Lookup ToUpper hmac signer identity key epoch).
Proof.
  unfold Lookup. destruct (_ || _); [apply quiet_throw|]. apply quiet_bind; [apply quiet_requested|intros h]. apply quiet_bind; [|intros; apply quiet_ret].
  unfold find_record. apply quiet_bind; [|intros [?|[]]; apply quiet_ret || apply quiet_throw]. apply quiet_attempt. unfold store_Lookup.
  destruct (_ || _); [apply quiet_throw|]. apply quiet_bind; [apply quiet_now|intros x]. apply quiet_bind; [apply quiet_reading|]. intros row. apply quiet_lift.
Qed.
End Quiet.

(** Operations that only read. *)
Section Still.
Context `{!StoreEnv}.
Definition still {E A} (m : Act E A) : Prop := forall t, tx_db (m t).2 = tx_db t.
Lemma still_ret {E A} (a : A) : still (Tx.ret (E := E) a). Proof. by intros t. Qed.
Lemma still_throw {E A} (e : E) : still (Tx.throw (A := A) e). Proof. by intros t. Qed.
Lemma still_now : still Tx.now. Proof. by intros t. Qed.
Lemma still_bind {E A B} (m : Act E A) (f : A -> Act E B) : still m -> (forall a, still (f a)) -> still (Tx.bind m f).
Proof. intros Hm Hf t. unfold Tx.bind. specialize (Hm t). destruct (m t) as [[a|e] t']; [|done]. cbn in Hm. by rewrite (Hf a t'). Qed.
Lemma still_attempt {E F A} (m : Act E A) : still m -> still (Tx.attempt (F := F) m).
Proof. intros Hm t. unfold Tx.attempt. specialize (Hm t). by destruct (m t). Qed.
Lemma still_raise {E F A} (f : E -> F) (m : Act E A) : still m -> still (Tx.raise f m).
Proof. intros Hm t. unfold Tx.raise. specialize (Hm t). by destruct (m t) as [[]]. Qed.
Lemma still_reading {A} (f : Db -> result A SqlError) : still (Tx.query (reading f)).
Proof. intros t. unfold Tx.query. destruct (fault _); [done|]. unfold reading. by destruct (f (tx_db t)). Qed.
(** A run on a database that answers. *)
Definition run_at {E A} (m : Act E A) (d : Db) (a : A) : Prop := exists t t', tx_db t = d /\ m t = (Ok a, t').
(** A failure leaves the database. *)
Definition atomic {E A} (m : Act E A) : Prop := forall t e, (m t).1 = Err e -> tx_db (m t).2 = tx_db t.
Lemma still_sound `{!SqlPrims} {E A} (m : Act E A) : still m -> sound m. Proof. intros Hm t Ht. by rewrite Hm. Qed.
Lemma still_atomic {E A} (m : Act E A) : still m -> atomic m. Proof. intros Hm t e _. apply Hm. Qed.
Lemma atomic_query {A} (s : Stmt A) : atomic (Tx.query s).
Proof. intros t e. unfold Tx.query. destruct (fault _); [done|]. by destruct (s (tx_db t)) as [[a d]|]. Qed.
Lemma atomic_bind {E A B} (m : Act E A) (f : A -> Act E B) : still m -> (forall a, atomic (f a)) -> atomic (Tx.bind m f).
Proof.
  intros Hm Hf t e. unfold Tx.bind. specialize (Hm t). destruct (m t) as [[a|x] t']; [|done]. cbn in Hm. intros He. rewrite (Hf a t' e He). exact Hm.
Qed.
Lemma still_nextID : still Tx.nextID. Proof. intros t. unfold Tx.nextID. by destruct (Tx.idNext _) as [[] ?]. Qed.
End Still.

Create HintDb store.
#[export] Hint Resolve sound_ret sound_throw sound_bind sound_attempt sound_raise sound_now sound_nextID sound_reading : store.
#[export] Hint Extern 2 (sound (Tx.query _)) => (apply sound_reading || (apply sound_statement; constructor)) : store.

Section Logic.
Context {C : Type} `{!StateSink C} {cprims : Cursor.CursorPrims} {pprims : PublicationPrims} {R : Type}.
Context `{!StoreEnv, !SqlPrims, !CommandJson} {V E : Type}.
Context (jvalid : bytes -> bool) (jmarshal : stateEventEnvelope -> option bytes) (juser : SnapshotUserPresence -> option bytes).
#[local] Abbreviation world := (World R).
#[local] Abbreviation pub := (StatePublication C world).
#[local] Abbreviation execution := (CommandExecution world).
#[local] Abbreviation script := (Script C world (MutationResult V)).
#[local] Abbreviation mut := (Mut C R V E).
#[local] Abbreviation err := (ServiceError E).
#[local] Abbreviation run := (run_script jvalid jmarshal (C := C) (W := world) (Value := MutationResult V)).

(** ** Triples *)

Definition assertion : Type := Tx.Tx -> pub -> execution -> Prop.
(** From a state in [P] the program goes on in a state and with an answer in [Q]. *)
Definition triple {A} (P : assertion) (m : mut A) (Q : result A err -> assertion) : Prop :=
  forall t p e (k : result A err -> Tx.Tx -> script) (X : option (Ended * pub * execution) -> Prop), P t p e ->
    (forall r t' p' e', Q r t' p' e' -> X (run (k r t') p' e')) -> X (run (m t k) p e).

Lemma triple_ret {A} (P : assertion) (a : A) (Q : result A err -> assertion) : (forall t p e, P t p e -> Q (Ok a) t p e) -> triple P (mret a) Q.
Proof. intros Hpq t p e k X HP HX. apply HX, Hpq, HP. Qed.
Lemma triple_throw {A} (P : assertion) er (Q : result A err -> assertion) : (forall t p e, P t p e -> Q (Err er) t p e) -> triple P (mthrow er) Q.
Proof. intros Hpq t p e k X HP HX. apply HX, Hpq, HP. Qed.
Lemma triple_bind {A B} P (m : mut A) (f : A -> mut B) Q (S : result B err -> assertion) :
  triple P m Q -> (forall a, triple (Q (Ok a)) (f a) S) -> (forall er t p e, Q (Err er) t p e -> S (Err er) t p e) -> triple P (mbind m f) S.
Proof.
  intros Hm Hf He t p e k X HP HX. unfold mbind. apply (Hm t p e _ X HP). intros [a|er] t' p' e' HQ; [by apply (Hf a t' p' e' k X)|].
  apply HX, He, HQ.
Qed.
Lemma triple_conseq {A} (P P' : assertion) (m : mut A) (Q Q' : result A err -> assertion) :
  triple P m Q -> (forall t p e, P' t p e -> P t p e) -> (forall r t p e, Q r t p e -> Q' r t p e) -> triple P' m Q'.
Proof. intros Hm HP HQ t p e k X Hpre HX. apply (Hm t p e k X (HP _ _ _ Hpre)). intros r t' p' e' Hr. apply HX, HQ, Hr. Qed.
Lemma triple_act {A} (P : assertion) (m : Act err A) (Q : result A err -> assertion) :
  (forall t p e, P t p e -> Q (m t).1 (m t).2 p e) -> triple P (act m) Q.
Proof. intros Hpq t p e k X HP HX. unfold act. specialize (Hpq t p e HP). destruct (m t) as [r t']. apply HX, Hpq. Qed.
Lemma triple_current (P : assertion) (Q : result (nat * StateVersion) err -> assertion) :
  (forall t p e, P t p e -> Q (Ok (pb_pointer p, pb_current p)) t p e) -> triple P current Q.
Proof. intros Hpq t p e k X HP HX. unfold current. cbn. apply HX, Hpq, HP. Qed.

(** ** What keeps the persistent part *)

Definition same_rows (c c' : StateCandidate) : Prop := persistent (version c') = persistent (version c) /\ base c' = base c.
#[global] Instance same_rows_preorder : PreOrder same_rows.
Proof. split; [by intros c|]. intros a b c [] []. split; congruence. Qed.
Lemma with_runtime_rows c r : same_rows c (with_runtime c r).
Proof. done. Qed.
Lemma SetVoiceAuthority_rows c u a c' : SetVoiceAuthority c u a = Some c' -> same_rows c c'.
Proof. unfold SetVoiceAuthority. destruct (_ || _); [done|]. destruct a; intros [= <-]; apply with_runtime_rows. Qed.
Lemma ScheduleTemporaryExpiry_rows c id d s c' : ScheduleTemporaryExpiry c id d = Some (s, c') -> same_rows c c'.
Proof. unfold ScheduleTemporaryExpiry. destruct (_ <=? _); [done|]. destruct (_ !! _); [|done]. destruct (negb _); [done|]. intros [= _ <-]. apply with_runtime_rows. Qed.
Lemma ClearTemporaryExpiry_rows c id : same_rows c (ClearTemporaryExpiry c id).2.
Proof. unfold ClearTemporaryExpiry. cbv zeta. destruct (negb _); [|destruct (_ !! _)]; done. Qed.
Lemma appendModeration_rows `{!EventJson} events s before c users l c' : appendModerationMuteRemovedEvent events s before c users = Some (l, c') -> same_rows c c'.
Proof.
  unfold appendModerationMuteRemovedEvent. destruct (existsb _ _); [|by intros [= _ <-]]. destruct (json_body _); [|done]. cbn. intros [= _ <-]. apply with_runtime_rows.
Qed.
Lemma rows_epoch c c' : same_rows c c' -> same_rows c (IncrementModerationEpoch c'). Proof. intros Hr. by etrans. Qed.
Lemma rows_unmute c c' id : same_rows c c' -> same_rows c (ClearMuteExpiry c' id). Proof. intros Hr. by etrans. Qed.
Lemma rows_mute c c' id d s c'' : ScheduleMuteExpiry c' id d = Some (s, c'') -> same_rows c c' -> same_rows c c''.
Proof.
  intros Hs Hr. revert Hs. unfold ScheduleMuteExpiry. destruct (_ <=? _); [done|]. destruct (_ !! _); [|done]. destruct (negb _); [done|]. intros [= _ <-]. by etrans.
Qed.
Lemma rows_temporary c c' id d s c'' : ScheduleTemporaryExpiry c' id d = Some (s, c'') -> same_rows c c' -> same_rows c c''.
Proof. intros Hs Hr. etrans; [exact Hr|by eapply ScheduleTemporaryExpiry_rows]. Qed.
Lemma rows_removed `{!EventJson} c c' events s before users l c'' : appendModerationMuteRemovedEvent events s before c' users = Some (l, c'') -> same_rows c c' -> same_rows c c''.
Proof. intros Hs Hr. etrans; [exact Hr|by eapply appendModeration_rows]. Qed.
Lemma rows_if (b : bool) c c1 c2 : same_rows c c1 -> same_rows c c2 -> same_rows c (if b then c1 else c2). Proof. by destruct b. Qed.
Lemma Build_rows v p c : BuildPersistentCandidateFrom v (Some (Some p)) = Ok c ->
  newPersistentState (Some p) = Ok (persistent (version c)) /\ base c = v.
Proof. unfold BuildPersistentCandidateFrom. destruct (newPersistentState (Some p)); [|done]. by intros [= <-]. Qed.

Section Voice.
Context `{!EventJson, !VoiceRuntime R} (voice_configured : bool) (voiceNow : Z).
Definition plan_rows (p p' : LossPlan) : Prop := same_rows (lp_candidate p) (lp_candidate p').

Lemma loss_schedule_rows before ch p p' : loss_schedule voiceNow before ch p = Some p' -> plan_rows p p'.
Proof.
  unfold loss_schedule. cbv zeta.
  assert (Hc : forall b, same_rows (lp_candidate p) (lp_candidate (if b : bool then
      mkLoss (ClearTemporaryExpiry (lp_candidate p) (ch_ID ch)).2 (lp_plans p) (lp_events p) (lp_schedules p) (lp_cancellations p) ({[ch_ID ch]} ∪ lp_cleared p)
    else p))) by (intros []; [apply ClearTemporaryExpiry_rows|done]).
  specialize (Hc ((ch_Temporary ch || is_some (TemporaryExpiry before (ch_ID ch))) && negb (bool_decide (ch_ID ch ∈ lp_cleared p)))).
  destruct (ch_Temporary ch && _); [|by intros [= <-]].
  destruct (ScheduleTemporaryExpiry _ _ _) as [[s c]|] eqn:Es; [|done]. cbn. intros [= <-]. unfold plan_rows. cbn.
  etrans; [exact Hc|]. by eapply ScheduleTemporaryExpiry_rows.
Qed.
Lemma loss_step_rows before p a p' : loss_step (E := E) voiceNow before p a = Ok p' -> plan_rows p p'.
Proof.
  unfold loss_step. cbv zeta. destruct (_ && _); [by intros [= <-]|]. destruct (SetVoiceAuthority _ _ _) as [c|] eqn:Es; [|done].
  apply SetVoiceAuthority_rows in Es.
  destruct (getChannel _ _) as [ch|]; cbn [is_some].
  - destruct (loss_schedule _ _ _ _) as [q|] eqn:El; [|done]. apply loss_schedule_rows in El. unfold plan_rows in El. cbn in El.
    destruct (voiceAuthorityEventTemplates _ _ _); [|done]. destruct (voiceMemberEvent _ _ _); [|done]. intros [= <-]. unfold plan_rows. cbn. by etrans.
  - destruct (voiceAuthorityEventTemplates _ _ _); [|done]. by intros [= <-].
Qed.
Lemma PrepareVoiceAccessLoss_rows c c' events commit : PrepareVoiceAccessLoss (E := E) voice_configured voiceNow c = Ok (c', events, commit) -> same_rows c c'.
Proof.
  unfold PrepareVoiceAccessLoss. destruct (negb voice_configured); [by intros [= <- _ _]|]. intros (p & Hp & Hr)%rbind_Ok.
  assert (Hrows : same_rows c (lp_candidate p)).
  { revert Hp. apply (foldM_ind (fun _ p => same_rows c (lp_candidate p))); [done|]. intros done a q q' Hq Hs%loss_step_rows. by etrans. }
  by case_bool_decide; injection Hr as <- _ _.
Qed.

Lemma rows_voice c c1 c2 events commit : PrepareVoiceAccessLoss (E := E) voice_configured voiceNow c1 = Ok (c2, events, commit) -> same_rows c c1 -> same_rows c c2.
Proof. intros Hp Hr. etrans; [exact Hr|by eapply PrepareVoiceAccessLoss_rows]. Qed.

(** A runtime commit and its cleanup leave the database of the world. *)
Definition commit_keeps (f : option (RuntimeCommit (W := world))) : Prop :=
  forall w, w_db (run_commit f w).1 = w_db w /\ forall cleanup, (run_commit f w).2.2 = Some cleanup -> forall w', w_db (cleanup w') = w_db w'.
Lemma PrepareVoiceAccessLoss_keeps c c' events commit : PrepareVoiceAccessLoss (E := E) voice_configured voiceNow c = Ok (c', events, commit) -> commit_keeps commit.
Proof.
  unfold PrepareVoiceAccessLoss. destruct (negb voice_configured); [by intros [= _ _ <-]|]. intros (p & _ & Hr)%rbind_Ok.
  case_bool_decide; injection Hr as _ _ <-; [done|]. intros w. cbn. unfold voice_commit. destruct (BeginVoiceRevoke _ _) as [r [f|]]; [|done].
  cbn. split; [done|]. by intros cleanup [= <-] w'.
Qed.
Lemma runtime_commit_keeps voice timers : commit_keeps voice -> commit_keeps (runtime_commit voice timers).
Proof.
  intros Hv w. destruct (Hv w) as [K1 K2].
  assert (Hg : forall (r : world * (option CommitError * option (world -> world))), w_db r.1 = w_db w -> (forall cleanup, r.2.2 = Some cleanup -> forall w', w_db (cleanup w') = w_db w') ->
    let r' := (let '(w, (failed, cleanup)) := r in match failed with Some e => (w, (Some e, None))
      | None => (w, (None, Some (fun w => let w := cancel_timers timers w in match cleanup with Some f => f w | None => w end))) end) in
    w_db r'.1 = w_db w /\ forall cleanup, r'.2.2 = Some cleanup -> forall w', w_db (cleanup w') = w_db w').
  { intros [w1 [[e|] [f|]]] R1 R2; cbn in *; (split; [done|]); try done; intros cleanup [= <-] w'; [by rewrite (R2 f eq_refl)|done]. }
  unfold runtime_commit. destruct voice as [g|], timers as [|x l]; cbn [run_commit]; try done; exact (Hg _ K1 K2).
Qed.
End Voice.

Lemma reserved_rows now (p : pub) request base candidate res : reserveLocked jvalid jmarshal now p request = Ok res -> rq_Candidate request = Some (base, candidate) ->
  persistent (pu_Version res) = persistent candidate.
Proof.
  unfold reserveLocked. intros Hr Hc. rewrite Hc in Hr. cbv zeta in Hr. destruct (negb _); [done|]. destruct (_ || _); [done|].
  apply rbind_Ok in Hr as ([changes epochs] & _ & Hr). apply rbind_Ok in Hr as (templates & _ & Hr). apply rbind_Ok in Hr as (events & _ & Hr).
  destruct (ValidateAppend _ _ _ _); [done|]. by injection Hr as <-.
Qed.

(** ** Bodies *)

Section Body.
Context (p0 : pub) (e0 : execution) (d0 : Db).
(** What was checked before a body ends without an error; [true] for one that changes nothing. *)
Context (checked : bool -> Prop).
Context (Hunlocked : pb_locked p0 = false) (Hfresh : ce_reservation e0 = None /\ ce_persistent e0 = false /\ ce_runtimeReady e0 = false /\ ce_published e0 = false).
Context (Hd0 : db_ok d0).

(** Nothing was written yet; the transaction keeps the schema; a candidate is
    what the transaction's tables hold; it is reserved. *)
Definition started : assertion := fun t p e => p = p0 /\ e = e0 /\ tx_db t = d0.
Definition working : assertion := fun t p e => p = p0 /\ e = e0 /\ db_ok (tx_db t).
Definition holding (c : StateCandidate) : assertion := fun t p e =>
  p = p0 /\ e = e0 /\ db_ok (tx_db t) /\ describes (tx_db t) (persistent (version c)) /\ base c = pb_current p0.
Definition reserved : assertion := fun t p e => exists r,
  p = with_locked p0 true /\ e = with_reservation e0 r /\ pr_completed r = false /\ commit_keeps (pr_runtimeCommit r) /\
  db_ok (tx_db t) /\ describes (tx_db t) (persistent (pu_Version (pr_result r))).
(** Where an error may leave the command. *)
Definition undone : assertion := fun t p e => (p = p0 /\ e = e0) \/ exists r, p = with_locked p0 true /\ e = with_reservation e0 r /\ pr_completed r = false.
(** A body ends without a change, with a reservation of what it wrote, or with an error. *)
Definition body_post {A} (r : result (A * bool) err) : assertion :=
  match r with
  | Ok (_, true) => fun t p e => started t p e /\ checked true
  | Ok (_, false) => fun t p e => reserved t p e /\ checked false
  | Err _ => undone
  end.
Definition safe (P : assertion) : Prop := forall t p e, P t p e -> undone t p e.

Lemma started_safe : safe started. Proof. intros t p e (? & ? & _). by left. Qed.
Lemma working_safe : safe working. Proof. intros t p e (? & ? & _). by left. Qed.
Lemma holding_safe c : safe (holding c). Proof. intros t p e (? & ? & _). by left. Qed.
Lemma reserved_safe : safe reserved. Proof. intros t p e (r & ? & ? & ? & _). right. by exists r. Qed.

Section Rules.
Context {A B : Type}.
#[local] Abbreviation goal P m := (triple P m (body_post (A := B))).

Lemma t_refuse P er : safe P -> goal P (mthrow er).
Proof. intros Hs. apply triple_throw. apply Hs. Qed.
Lemma t_assoc {A'} P (m : mut A') (f : A' -> mut A) (g : A -> mut (B * bool)) : goal P (mbind m (fun x => mbind (f x) g)) -> goal P (mbind (mbind m f) g).
Proof. intros Hm. exact Hm. Qed.
Lemma t_pure P (a : A) (f : A -> mut (B * bool)) : goal P (f a) -> goal P (mbind (mret a) f).
Proof. intros Hm. exact Hm. Qed.
Lemma t_refuse_bind P er (f : A -> mut (B * bool)) : safe P -> goal P (mbind (mthrow er) f).
Proof. intros Hs. exact (t_refuse P er Hs). Qed.
Lemma t_ensure P (r : result A err) (f : A -> mut (B * bool)) : safe P -> (forall a, r = Ok a -> goal P (f a)) -> goal P (mbind (ensure r) f).
Proof. intros Hs Hf. destruct r as [a|er]; [by apply t_pure, Hf|by apply t_refuse_bind]. Qed.
Lemma t_encoded P (o : option A) (f : A -> mut (B * bool)) : safe P -> (forall a, o = Some a -> goal P (f a)) -> goal P (mbind (encoded o) f).
Proof. intros Hs Hf. destruct o as [a|]; [by apply t_pure, Hf|by apply t_refuse_bind]. Qed.
Lemma t_write (m : mut (B * bool)) : goal working m -> goal started m.
Proof. intros Hm. eapply triple_conseq; [exact Hm| |done]. intros t p e (? & ? & Ed). unfold working. by rewrite Ed. Qed.
Lemma t_stored (m : Tx.Store A) (f : A -> mut (B * bool)) : sound m -> (forall a, goal working (f a)) -> goal working (mbind (stored m) f).
Proof.
  intros Hs Hf. apply (triple_bind _ _ _ (fun _ => working)); [|done|intros er; apply working_safe].
  apply triple_act. intros t p e (? & ? & Hd). split_and!; try done. by apply sound_raise.
Qed.
Lemma t_read (m : Tx.Store A) (f : A -> mut (B * bool)) : still m -> (forall a, run_at m d0 a -> goal started (f a)) -> goal started (mbind (stored m) f).
Proof.
  intros Hm Hf. apply (triple_bind _ _ _ (fun r t p e => started t p e /\ forall a, r = Ok a -> run_at m d0 a)).
  - apply triple_act. intros t p e (? & ? & Ed). split; [split_and!; try done; by rewrite (still_raise ErrOfStore m Hm)|].
    intros a. unfold Tx.raise. destruct (m t) as [[x|x] t'] eqn:Em; intros [= <-]. by exists t, t'.
  - intros a t p e k X [HP Ha]. by apply (Hf a (Ha a eq_refl)).
  - intros er t p e [HP _]. by eapply started_safe.
Qed.
(** The first statement that may write. *)
Lemma t_first (m : Tx.Store A) (f : A -> mut (B * bool)) : sound m -> (forall a, run_at m d0 a -> goal working (f a)) -> goal started (mbind (stored m) f).
Proof.
  intros Hm Hf. apply (triple_bind _ _ _ (fun r t p e => working t p e /\ forall a, r = Ok a -> run_at m d0 a)).
  - apply triple_act. intros t p e (? & ? & Ed). split; [split_and!; try done; apply sound_raise; [done|by rewrite Ed]|].
    intros a. unfold Tx.raise. destruct (m t) as [[x|x] t'] eqn:Em; intros [= <-]. by exists t, t'.
  - intros a t p e k X [HP Ha]. by apply (Hf a (Ha a eq_refl)).
  - intros er t p e [HP _]. by eapply working_safe.
Qed.
(** A statement whose failure the body inspects, and which then changed nothing. *)
Lemma t_attempt (m : Tx.Store A) (f : result A Tx.StoreError -> mut (B * bool)) : sound m -> atomic m -> (forall a, goal working (f (Ok a))) ->
  (forall er, goal started (f (Err er))) -> goal started (mbind (stored (Tx.attempt m)) f).
Proof.
  intros Hm Ha Hok Her. apply (triple_bind _ _ _ (fun r => match r with Ok (Ok _) => working | Ok (Err _) => started | Err _ => fun _ _ _ => False end)).
  - apply triple_act. intros t p e (? & ? & Ed). unfold Tx.raise, Tx.attempt. specialize (Hm t). specialize (Ha t). rewrite Ed in Hm. specialize (Hm Hd0).
    destruct (m t) as [[x|x] t']; cbn in *; split_and!; try done. rewrite <- Ed. by eapply Ha.
  - intros [x|x]; [apply Hok|apply Her].
  - done.
Qed.
Lemma t_noop (v : B) : checked true -> goal started (mret (v, true)).
Proof. intros Hc. by apply triple_ret. Qed.
Lemma t_done (v : B) : checked false -> goal reserved (mret (v, false)).
Proof. intros Hc. by apply triple_ret. Qed.
Lemma t_held c (m : Tx.Store A) (f : A -> mut (B * bool)) : quiet m -> (forall a, goal (holding c) (f a)) -> goal (holding c) (mbind (stored m) f).
Proof.
  intros Hm Hf. apply (triple_bind _ _ _ (fun _ => holding c)); [|done|intros er; apply holding_safe].
  apply triple_act. intros t p e (? & ? & Hd & Hds & ?). destruct (quiet_raise (@ErrOfStore E) m Hm t Hd) as [Hd' Hs']. split_and!; try done. by eapply describes_synced.
Qed.
Lemma t_rows c c' (m : mut (B * bool)) : same_rows c c' -> goal (holding c') m -> goal (holding c) m.
Proof. intros [E1 E2] Hm. eapply triple_conseq; [exact Hm| |done]. intros t p e (? & ? & ? & ? & ?). rewrite <- E1, <- E2 in *. split_and!; congruence. Qed.
End Rules.

Lemma t_current {B} (f : nat * StateVersion -> mut (B * bool)) : triple started (f (pb_pointer p0, pb_current p0)) body_post -> triple started (mbind current f) body_post.
Proof.
  intros Hf. apply (triple_bind _ _ _ (fun r t p e => r = Ok (pb_pointer p0, pb_current p0) /\ started t p e)).
  - apply triple_current. intros t p e (-> & -> & ?). done.
  - intros a t p e k X [[= ->] Hp]. by apply Hf.
  - by intros er t p e [? _].
Qed.

Lemma t_candidate {B} (f : nat * StateCandidate -> mut (B * bool)) :
  (forall c, base c = pb_current p0 -> triple (holding c) (f (pb_pointer p0, c)) body_post) -> triple working (mbind build_candidate f) body_post.
Proof.
  intros Hf. apply (triple_bind _ _ _ (fun r t p e => match r with Ok pc => pc.1 = pb_pointer p0 /\ holding pc.2 t p e | Err _ => working t p e end)).
  2: { intros [n c] t p e k X [Hn Hp]. cbn in Hn. subst n. refine (Hf c _ t p e k X Hp). apply Hp. }
  2: { intros er. apply working_safe. }
  unfold build_candidate. apply (triple_bind _ _ _ (fun r t p e => r = Ok (pb_pointer p0, pb_current p0) /\ working t p e)).
  { apply triple_current. intros t p e (-> & -> & ?). done. }
  2: { by intros er t p e [? _]. }
  intros [n v]. apply (triple_bind _ _ _ (fun r t p e => (n, v) = (pb_pointer p0, pb_current p0) /\ working t p e /\
    match r with Ok pj => pj = projection_of (tx_db t) | Err _ => True end)).
  - apply triple_act. intros t p e ([= -> ->] & -> & -> & Hd). destruct (loadStateProjection_reads _ t eq_refl) as [Hdb Hr].
    unfold Tx.raise. destruct (Installation.loadStateProjection t) as [[pj|er] t']; cbn [fst snd] in *.
    + destruct Hr as [[= ->]|[[=] _]]. unfold working. rewrite Hdb. done.
    + unfold working. rewrite Hdb. done.
  - intros pj. cbn [fst snd]. destruct (BuildPersistentCandidateFrom v (Some (Some pj))) as [c|er] eqn:Eb.
    + apply triple_ret. intros t p e ([= -> ->] & (-> & -> & Hd) & ->). apply Build_rows in Eb as [Eb Ebase]. split; [done|].
      destruct (projection_loads _ Hd) as (st & Hst & Hds). rewrite Hst in Eb. injection Eb as ->. by split_and!.
    + apply triple_throw. by intros t p e (_ & ? & _).
  - by intros er t p e (_ & ? & _).
Qed.

Lemma t_reserve_candidate {B} c c' events commit (f : unit -> mut (B * bool)) : same_rows c c' -> commit_keeps commit -> triple reserved (f tt) body_post ->
  triple (holding c) (mbind (reserve_candidate (pb_pointer p0) c' events commit) f) body_post.
Proof.
  intros Hrows Hkeep Hf. apply (t_rows c c'); [done|]. intros t p e k X (-> & -> & Hd & Hds & Hb) HX. unfold mbind, reserve_candidate. cbn [run_script invoke]. unfold exec_Reserve.
  destruct Hfresh as (F1 & F2 & F3 & F4). rewrite F1, F2, F3, F4, Hunlocked. cbn [is_some orb].
  unfold Reserve. destruct (reserveLocked _ _ _ _ _) as [res|er] eqn:Er; cbn [option_bind].
  - apply (Hf (next_step t) (with_locked p0 true) _ k X); [|exact HX]. eexists. do 2 (split; [done|]). cbn. split; [done|].
    split; [done|]. split; [done|]. erewrite reserved_rows by (exact Er || reflexivity). exact Hds.
  - apply HX. left. done.
Qed.
Section Reserving.
Context `{!EventJson, !VoiceRuntime R} (voice_configured : bool) (voiceNow : Z).
(** With what a loss of access costs, the rows stay and the database is kept. *)
Lemma t_voice_loss {B} c (f : StateCandidate * list StateEventTemplate * option (RuntimeCommit (W := world)) -> mut (B * bool)) :
  (forall c' events commit, base c' = base c -> commit_keeps commit -> triple (holding c') (f (c', events, commit)) body_post) ->
  triple (holding c) (mbind (ensure (PrepareVoiceAccessLoss voice_configured voiceNow c)) f) body_post.
Proof.
  intros Hf. apply t_ensure; [apply holding_safe|]. intros [[c' voiceEvents] voiceCommit] Hv.
  pose proof (PrepareVoiceAccessLoss_rows _ _ _ _ _ _ Hv) as Hrows. pose proof (PrepareVoiceAccessLoss_keeps _ _ _ _ _ _ Hv) as Hkeep.
  apply (t_rows c c'); [done|]. apply Hf; [apply Hrows|done].
Qed.
Lemma t_reserve {B} c c1 events (f : unit -> mut (B * bool)) : same_rows c c1 -> triple reserved (f tt) body_post ->
  triple (holding c) (mbind (executionReserveAllUsers voice_configured voiceNow (pb_pointer p0) c1 events) f) body_post.
Proof.
  intros Hrows Hf. apply (t_rows c c1); [done|]. unfold executionReserveAllUsers. apply t_assoc, t_voice_loss. intros c' voiceEvents voiceCommit _ Hkeep.
  apply t_reserve_candidate; [done|by apply runtime_commit_keeps|done].
Qed.
End Reserving.
End Body.

(** ** Commands *)

(** The published state describes the committed tables, which keep the schema. *)
Definition mirror (p : pub) : Prop := db_ok (w_db (pb_world p)) /\ describes (w_db (pb_world p)) (persistent (pb_current p)).
(** A body that, from any mirrored state, ends as it should, and with a value
    only where [checks] holds of the state and of what the transaction started with. *)
Definition faithful (checks : StateVersion -> Db -> Prop) (mutate : mut (V * bool)) : Prop :=
  forall p0 id d0, pb_locked p0 = false -> db_ok d0 -> describes d0 (persistent (pb_current p0)) ->
  triple (started p0 (with_id new_execution id) d0) mutate (body_post p0 (with_id new_execution id) d0 (fun _ => checks (pb_current p0) d0)).
(** A check of the state alone; a check of the tables, as far as they are mirrored. *)
Definition of_state (P : StateVersion -> Prop) (v : StateVersion) (_ : Db) : Prop := P v.
Definition checked_at (checks : StateVersion -> Db -> Prop) (v : StateVersion) (d : Db) : Prop := exists d', synced d d' /\ checks v d'.

Section Command.
Context (ToUpper : string -> string) (hmac : string -> string -> bytes) (signer : RequestIdentitySigner).
Context (IssueStateCursor : Z -> StateVersion -> option string) {D : Type} (success_body : D -> option string) (error_code : err -> Z).
Context (checks : StateVersion -> Db -> Prop).

Section Execute.
Context (p0 : pub) (id : Z) (d0 : Db).
Context (Hunlocked : pb_locked p0 = false) (Hd0 : db_ok d0) (Hds0 : describes d0 (persistent (pb_current p0))).
#[local] Abbreviation e0 := (with_id (new_execution (W := world)) id).

Definition idle : assertion := fun t p e => p = p0 /\ e = e0 /\ db_ok (tx_db t) /\ synced d0 (tx_db t).
Definition keep_bus (b : option (nat * EventBus C)) := b.
Definition noop_exec : execution := with_phase e0 false false false true.
Definition finished (r : result (MutationResult V) err) : assertion := fun t p e =>
  match r with
  | Err _ => undone p0 e0 t p e
  | Ok m => (mr_value m = None \/ checked_at checks (pb_current p0) d0) /\ (
      ((e = noop_exec \/ e = with_replay noop_exec) /\ (p = p0 \/ exists d, p = touch p0 (set_db d) keep_bus /\ db_ok d /\ synced d0 d)) \/
      (exists rv d, p = touch (with_locked p0 true) (set_db d) keep_bus /\ e = with_phase (with_reservation e0 rv) false true false false /\
        pr_completed rv = false /\ commit_keeps (pr_runtimeCommit rv) /\ db_ok d /\ describes d (persistent (pu_Version (pr_result rv)))) \/
      (exists rv, p = with_locked p0 true /\ e = with_phase (with_reservation e0 rv) false false true false /\
        pr_completed rv = false /\ commit_keeps (pr_runtimeCommit rv) /\ persistent (pu_Version (pr_result rv)) = persistent (pb_current p0)))
  end.

(** An assertion that depends on the transaction only through the mirrored tables. *)
Definition tolerant (P : assertion) : Prop := forall t t' p e, P t p e -> db_ok (tx_db t') -> synced (tx_db t) (tx_db t') -> P t' p e.
Definition sane (P : assertion) : Prop := forall t p e, P t p e -> db_ok (tx_db t) /\ undone p0 e0 t p e.
Lemma idle_tolerant : tolerant idle.
Proof. intros t t' p e (? & ? & _ & Hs) Hd Hs'. split_and!; try done. by etrans. Qed.
Lemma reserved_tolerant : tolerant (reserved p0 e0).
Proof. intros t t' p e (r & ? & ? & ? & ? & _ & Hr) Hd Hs. exists r. split_and!; try done. by eapply describes_synced. Qed.
Lemma idle_sane : sane idle.
Proof. intros t p e (? & ? & ? & _). split; [done|by left]. Qed.
Lemma reserved_sane : sane (reserved p0 e0).
Proof. intros t p e Hr. split; [by destruct Hr as (r & _ & _ & _ & _ & ? & _)|]. by eapply reserved_safe. Qed.

Lemma t_durable {A B} P (m : Act DurableError A) (f : A -> mut B) (Q : result B err -> assertion) : tolerant P -> sane P -> quiet m ->
  (forall a, triple P (f a) Q) -> (forall er t p e, undone p0 e0 t p e -> Q (Err er) t p e) -> triple P (mbind (durable m) f) Q.
Proof.
  intros Ht Hs Hm Hf He. apply (triple_bind _ _ _ (fun _ => P)); [|done|intros er t p e HP; apply He; by apply (Hs t p e)].
  apply triple_act. intros t p e HP. destruct (Hs t p e HP) as [Hd _]. destruct (quiet_raise (@ErrOfDurable E) m Hm t Hd) as [H1' H2']. by eapply Ht.
Qed.

Lemma t_commit_noop (v : MutationResult V) : mr_value v = None \/ checked_at checks (pb_current p0) d0 -> triple idle (mbind (commit CallCommitNoop) (fun _ => mret v)) finished.
Proof.
  intros Hv t p e k X (-> & -> & Hd & Hs) HX. unfold commit, mbind, committed. destruct (fault (tx_step t)); cbn.
  - apply HX. left. done.
  - apply HX. split; [done|]. left. split; [by right|]. right. by exists (tx_db t).
Qed.
Lemma t_mark_noop {A} (v : A) : triple idle (mbind (reply_error (call CallMarkNoop)) (fun _ => mret v)) (fun r t p e => r = Ok v /\ p = p0 /\ e = noop_exec).
Proof. intros t p e k X (-> & -> & Hd & Hs) HX. unfold mbind, reply_error, call. cbn. by apply HX. Qed.
Lemma t_commit (v : MutationResult V) : mr_value v = None \/ checked_at checks (pb_current p0) d0 -> triple (reserved p0 e0) (mbind (commit CallCommit) (fun _ => mret v)) finished.
Proof.
  intros Hv t p e k X (r & -> & -> & Hc & Hk & Hd & Hds) HX. unfold commit, mbind, committed. destruct (fault (tx_step t)); cbn.
  - apply HX. right. by exists r.
  - apply HX. split; [done|]. right. left. by exists r, (tx_db t).
Qed.

(** [Q] on success; an error leaves nothing done. *)
Definition or_undone {A} (Q : A -> assertion) (r : result A err) : assertion := match r with Ok a => Q a | Err _ => undone p0 e0 end.
Lemma t_save_result P f identity key actorID v response cp : tolerant P -> sane P ->
  triple P (save_result ToUpper hmac signer IssueStateCursor success_body f identity key actorID id v response cp) (or_undone (fun _ => P)).
Proof.
  intros Ht Hs. unfold save_result. destruct response as [[status data] headers].
  assert (Hu : forall er, triple P (mthrow er) (or_undone (A := StateCommand) (fun _ => P))) by (intros er; apply triple_throw; intros t p e HP; by apply (Hs t p e)).
  unfold issue. destruct (IssueStateCursor _ _) as [c|]; [|apply Hu]. change (triple P
    (mbind (durableBody success_body status data) (fun body => mbind (durable (Save ToUpper hmac signer f identity key (mkCommandResult id status body headers cp c)))
      (fun _ => mret (mkStateCommand id c cp None)))) (or_undone (fun _ => P))).
  assert (Hk : forall body, triple P (mbind (durable (Save ToUpper hmac signer f identity key (mkCommandResult id status body headers cp c)))
      (fun _ => mret (mkStateCommand id c cp None))) (or_undone (fun _ => P))).
  { intros body. apply t_durable; [done|done|apply quiet_Save| |done]. intros _. by apply triple_ret. }
  unfold durableBody, encoded. destruct (status =? 204); [apply Hk|]. destruct (success_body data); [apply Hk|apply Hu].
Qed.
Lemma t_replay_first command :
  triple idle (replay_first ToUpper hmac signer command) (or_undone (fun o t p e => match o with None => idle t p e | Some _ => p = p0 /\ e = noop_exec end)).
Proof.
  destruct command as [[identity key]|]; [|by apply triple_ret]. unfold replay_first.
  apply (triple_bind _ _ _ (or_undone (fun _ => idle))); [by apply triple_current| |done]. intros pv.
  apply t_durable; [apply idle_tolerant|apply idle_sane|apply quiet_Lookup| |done].
  intros [| |er|r]; [by apply triple_ret| |apply triple_throw; apply idle_sane|].
  all: eapply triple_conseq; [apply t_mark_noop|done|]; by intros ? t p e (-> & ? & ?).
Qed.
Lemma t_admit command : triple idle (admit_command command) (or_undone (fun _ => idle)).
Proof.
  destruct command as [c|]; [|by apply triple_ret]. apply triple_act. intros t p e HP. destruct (idle_sane t p e HP) as [Hd _].
  destruct (quiet_raise (@ErrOfDurable E) _ (quiet_Admit with_tx) t Hd) as [Hd' Hs']. pose proof (idle_tolerant _ _ _ _ HP Hd' Hs') as HP'.
  destruct (Tx.raise _ _ t) as [[f|er] t']; [done|]. by apply (idle_sane t').
Qed.
Lemma t_mutate mutate : faithful checks mutate ->
  triple idle mutate (or_undone (fun (vn : V * bool) t p e => (if vn.2 then idle else reserved p0 e0) t p e /\ checked_at checks (pb_current p0) d0)).
Proof.
  intros Hm t p e k X (-> & -> & Hd & Hs) HX. refine (Hm p0 id (tx_db t) Hunlocked Hd _ t p0 e0 k X _ _); [by eapply describes_synced|done|].
  intros [[v []]|er] t' p' e' Hr; apply HX; cbn in *; [| |done]; (destruct Hr as [Hr Hc]; split; [|by exists (tx_db t)]); [|done].
  destruct Hr as (-> & -> & Hr). unfold idle. by rewrite Hr.
Qed.

#[local] Abbreviation save := (save_result ToUpper hmac signer IssueStateCursor success_body).
Lemma t_end_noop command flags actorID response value : checked_at checks (pb_current p0) d0 ->
  triple idle (match command with
    | Some (identity, key) => mbind current (fun pv => mbind (save flags identity key actorID id pv.2 (response value) (checkpoint pv.2))
        (fun state => mbind (commit CallCommitNoop) (fun _ => mret (mkMutation (Some value) state))))
    | None => mbind (reply_error (call CallMarkNoop)) (fun _ => mret (mkMutation (Some value) (mkStateCommand id "" no_checkpoint None)))
    end) finished.
Proof.
  intros Hc. destruct command as [[identity key]|].
  - apply (triple_bind _ _ _ (or_undone (fun _ => idle))); [by apply triple_current| |done]. intros pv.
    apply (triple_bind _ _ _ (or_undone (fun _ => idle))); [apply t_save_result; [apply idle_tolerant|apply idle_sane]| |done]. intros state. apply t_commit_noop. by right.
  - eapply triple_conseq; [apply t_mark_noop|done|]. intros r t p e (-> & -> & ->). split; [by right|]. left. split; by left.
Qed.
Lemma t_end_write command flags actorID response value : checked_at checks (pb_current p0) d0 ->
  triple (reserved p0 e0) (mbind (match command with
    | Some (identity, key) => mbind (call CallReservedResult) (fun r => match r with
        | GotResult (Ok rs) => save flags identity key actorID id (pu_Version rs) (response value) (pu_Checkpoint rs)
        | GotResult (Err e) => mthrow (ErrOfSequencer e)
        | GotError _ => mthrow ErrRealtimeUnavailable
        end)
    | None => mret (mkStateCommand id "" no_checkpoint None)
    end) (fun state => mbind (commit CallCommit) (fun _ => mret (mkMutation (Some value) state)))) finished.
Proof.
  intros Hc. apply (triple_bind _ _ _ (or_undone (fun _ => reserved p0 e0))); [|intros state; apply t_commit; by right|done].
  destruct command as [[identity key]|]; [|by apply triple_ret].
  apply (triple_bind _ _ _ (or_undone (fun _ => reserved p0 e0))); [| |done].
  { intros t p e k X HP HX. unfold call. cbn. by apply HX. }
  intros [[rs|er]|er]; [apply t_save_result; [apply reserved_tolerant|apply reserved_sane]| |]; apply triple_throw; apply reserved_sane.
Qed.
Lemma execute_mutation_run actorID command response mutate : faithful checks mutate ->
  triple (started p0 e0 d0) (execute_mutation ToUpper hmac signer IssueStateCursor success_body actorID command response mutate id) finished.
Proof.
  intros Hm. apply (triple_conseq idle _ _ finished); [| |done].
  2: { intros t p e (-> & -> & Ed). unfold idle. by rewrite Ed. }
  unfold execute_mutation. eapply triple_bind; [apply t_replay_first| |done]. intros [state|].
  { apply triple_ret. intros t p e [-> ->]. split; [by left|]. left. split; by left. }
  apply (triple_bind _ _ _ (or_undone (fun _ => idle))); [| |done].
  { intros t p e k X HP HX. unfold begin_tx. destruct (fault _); apply HX; [by apply (idle_sane t)|done]. }
  intros []. eapply triple_bind; [apply t_admit| |done]. intros flags.
  eapply triple_bind; [by apply t_mutate| |done]. intros [value []]; cbn [snd or_undone]; intros t p e k X [HP Hc]; [by apply t_end_noop|by apply t_end_write].
Qed.

(** *** Commands without a mutation body *)

#[local] Abbreviation start := (started p0 e0 d0).
Lemma t_now {B} (f : Z -> mut B) Q : (forall t, triple start (f t) Q) -> triple start (mbind (stored Tx.now) f) Q.
Proof using Type. intros Hf t p e k X Hp HX. apply (Hf _ (next_step t) p e k X); [exact Hp|exact HX]. Qed.
Lemma t_begin {B} (f : mut B) (Q : result B err -> assertion) : triple start f Q ->
  (forall er t p e, undone p0 e0 t p e -> Q (Err er) t p e) -> triple start (mbind begin_tx (fun _ => f)) Q.
Proof using Type.
  intros Hf He t p e k X (-> & -> & Ht) HX. unfold mbind, begin_tx. destruct (fault _); [apply HX, He; by left|]. by apply (Hf (next_step t) p0 e0 k X).
Qed.
Lemma t_look {B} (f : nat * StateVersion -> mut B) Q : triple start (f (pb_pointer p0, pb_current p0)) Q -> triple start (mbind current f) Q.
Proof using Type. intros Hf t p e k X (-> & -> & Ht) HX. by apply (Hf t p0 e0 k X). Qed.
Lemma t_give_up er : triple start (mthrow er) finished.
Proof using Type. apply triple_throw. intros t p e (-> & -> & _). by left. Qed.
Lemma t_nothing (v : MutationResult V) : mr_value v = None -> triple start (mbind (reply_error (call CallMarkNoop)) (fun _ => mret v)) finished.
Proof using Type. intros Hv t p e k X (-> & -> & Ht) HX. cbn. apply HX. split; [by left|]. left. split; by left. Qed.
(** A body that always writes, and the commit after it. *)
Lemma t_written {B} (m : mut (B * bool)) (v : MutationResult V) : mr_value v = None -> triple start m (body_post p0 e0 d0 (fun noop => noop = false)) ->
  triple start (mbind m (fun _ => mbind (commit CallCommit) (fun _ => mret v))) finished.
Proof using Type.
  intros Hv Hm. eapply triple_bind; [exact Hm| |done]. intros [b []] t p e k X; [by intros [_ ?]|]. intros [Hr _]. apply t_commit; [by left|done].
Qed.
Lemma t_runtime c (v : MutationResult V) : persistent (version c) = persistent (pb_current p0) -> mr_value v = None \/ checked_at checks (pb_current p0) d0 ->
  triple start (mbind (publish_runtime (pb_pointer p0) c) (fun _ => mret v)) finished.
Proof using Hunlocked.
  intros Hp Hv t p e k X (-> & -> & _) HX. unfold publish_runtime, mbind, reply_error, call. cbn [run_script invoke].
  unfold exec_Reserve. cbn [ce_reservation ce_persistent ce_runtimeReady ce_published with_id new_execution is_some orb]. rewrite Hunlocked.
  unfold Reserve. destruct (reserveLocked _ _ _ _ _) as [res|er] eqn:Er; cbn [option_bind]; [|apply HX; by left].
  cbn. apply HX. split; [done|]. right. right. eexists. do 2 (split; [done|]). cbn. do 2 (split; [done|]).
  erewrite reserved_rows by (exact Er || reflexivity). exact Hp.
Qed.
End Execute.

(** *** The whole command *)

Definition keeps_db (acquire : option (world -> world * Acquired (W := world))) : Prop :=
  forall f, acquire = Some f -> forall w, w_db (f w).1 = w_db w /\ forall release, (f w).2 = AcquireOk release -> forall w', w_db (release w') = w_db w'.
(** A command that succeeds leaves the state mirroring the tables; one that fails
    leaves both as they were; unless the sequencer stops. *)
Definition settled {G} (p : pub) (o : Outcome C world G (MutationResult V)) : Prop :=
  match oc_fail o with
  | Some _ => exists er, oc_reply o = Err er
  | None => pb_locked (oc_pub o) = false /\ mirror (oc_pub o) /\
      match oc_reply o with
      | Err er => w_db (pb_world (oc_pub o)) = w_db (pb_world p) /\ pb_current (oc_pub o) = pb_current p
      | Ok c => mr_value (cc_Value c) = None \/ checked_at checks (pb_current p) (w_db (pb_world p))
      end
  end.

Lemma publish_result canceled (p p' : pub) r r' res : commit_keeps (pr_runtimeCommit r) ->
  publish jvalid jmarshal juser canceled p r = Some (res, p', r') -> w_db (pb_world p') = w_db (pb_world p) /\
  match res with
  | Ok _ => pb_locked p' = false /\ pb_current p' = pu_Version (pr_result r)
  | Err ErrCanceled => pr_completed r = false -> pb_locked p' = false /\ pb_current p' = pb_current p
  | Err _ => True
  end.
Proof.
  intros Hk. unfold publish. destruct (claimCompletion r) as [claimed r1] eqn:Ec.
  assert (Er : pr_result r1 = pr_result r /\ pr_runtimeCommit r1 = pr_runtimeCommit r) by (unfold claimCompletion in Ec; destruct (pr_completed r); by injection Ec as _ <-).
  destruct Er as [Er Ek]. destruct claimed; cbn [negb]; [|by intros [= <- <- <-]].
  destruct canceled; [by intros [= <- <- <-]|]. rewrite Ek, Er. specialize (Hk (pb_world p)). destruct (run_commit _ _) as [w [failed cleanup]]. cbn in Hk. destruct Hk as [Hw Hc].
  assert (Hf : forall (q : pub) slow, w_db (pb_world (finish q slow cleanup)) = w_db (pb_world q)) by (intros q slow; unfold finish; cbn; destruct cleanup; [by apply Hc|done]).
  destruct failed as [[]|]; [intros [= <- <- <-]; rewrite Hf; done..|].
  destruct (Append _ _ _ _) as [[er ring]|]; cbn [mbind option_bind]; [|done].
  destruct er; [intros [= <- <- <-]; by rewrite Hf|]. cbn [pb_bus].
  destruct (pb_bus _) as [[n b]|]; [|intros [= <- <- <-]; by rewrite Hf].
  destruct (fanout _ _ _ _ _ _ _) as [[slow|er] b']; intros [= <- <- <-]; by rewrite Hf.
Qed.

#[local] Arguments settled : simpl never.
Section Outcome.
Context {G : Type} (idNext : G -> result Z unit * G) (p0 : pub) (id : Z) (g : G) (command : PostCommitCommand C world (MutationResult V)).
Context (Hunlocked : pb_locked p0 = false) (Hmirror : mirror p0).
#[local] Abbreviation e0 := (with_id (new_execution (W := world)) id).
#[local] Abbreviation d0 := (w_db (pb_world p0)).
#[local] Abbreviation conclude := (conclude jvalid jmarshal juser command id).

Lemma abort_reserved (p : pub) e r : ce_reservation e = Some r -> pr_completed r = false -> ce_committing e = false -> ce_published e = false ->
  exists e', abort p e = (with_locked p false, e').
Proof. intros Hr Hc H1' H2'. unfold abort, Publication.Abort, claimCompletion. rewrite Hr, H1', H2', andb_false_r. cbn. rewrite Hc. eauto. Qed.
Lemma settled_error (p : pub) e er : w_db (pb_world p) = w_db (pb_world p0) -> pb_current p = pb_current p0 -> pb_locked p = false ->
  settled p0 (ordinary_error (Value := MutationResult V) p e g er).
Proof. intros E1 E2 E3. unfold settled, mirror. cbn. rewrite E1, E2. done. Qed.
Lemma settled_undone t p e er : undone p0 e0 t p e -> settled p0 (conclude (Threw er) p e g).
Proof.
  intros [[-> ->]|(r & -> & -> & Hc)]; [by apply settled_error|]. unfold Sequencer.conclude. cbn [ce_persistent ce_runtimeReady with_reservation with_id new_execution orb].
  unfold aborted. edestruct (abort_reserved (with_locked p0 true)) as [e' ->]; [done..|]. by apply settled_error.
Qed.
Lemma settled_noop d v e : mr_value v = None \/ checked_at checks (pb_current p0) d0 -> db_ok d -> synced d0 d -> e = noop_exec id \/ e = with_replay (noop_exec id) ->
  settled p0 (conclude (Returned (mkOutput v None None)) (touch p0 (set_db d) keep_bus) e g).
Proof. intros Hv Hd Hs He. destruct He as [-> | ->]; cbn; unfold settled, mirror; cbn; (split_and!; try done); (eapply describes_synced; [done|]); apply Hmirror. Qed.
Lemma settled_committed r d v : mr_value v = None \/ checked_at checks (pb_current p0) d0 -> pr_completed r = false -> commit_keeps (pr_runtimeCommit r) -> db_ok d -> describes d (persistent (pu_Version (pr_result r))) ->
  settled p0 (conclude (Returned (mkOutput v None None)) (touch (with_locked p0 true) (set_db d) keep_bus) (with_phase (with_reservation e0 r) false true false false) g).
Proof.
  intros Hv Hc Hk Hd Hds. cbn. unfold publish_phase, Publish. destruct (publish _ _ _ _ _ _) as [[[[res|er] p'] r']|] eqn:Ep; cbn.
  - apply publish_result in Ep as (Ew & El & Ev); [|done]. unfold settled, mirror. cbn. rewrite Ew, Ev, El. done.
  - unfold settled. cbn. by eexists.
  - unfold recovered. destruct (abort _ _). unfold settled. cbn. by eexists.
Qed.
Lemma settled_ready r v : mr_value v = None \/ checked_at checks (pb_current p0) d0 -> pr_completed r = false -> commit_keeps (pr_runtimeCommit r) -> persistent (pu_Version (pr_result r)) = persistent (pb_current p0) ->
  settled p0 (conclude (Returned (mkOutput v None None)) (with_locked p0 true) (with_phase (with_reservation e0 r) false false true false) g).
Proof.
  intros Hv Hc Hk Hp. unfold Sequencer.conclude. cbn [ce_noop with_phase with_reservation ce_reservation ce_persistent ce_runtimeReady andb negb co_BeforePublish]. destruct (cm_canceledReady command).
  { unfold aborted. edestruct (abort_reserved (with_locked p0 true)) as [e' ->]; [done..|]. by apply settled_error. }
  unfold publish_phase, PublishRuntime. destruct (publish _ _ _ _ _ _) as [[[[res|er] p'] r']|] eqn:Ep; cbv iota.
  - apply publish_result in Ep as (Ew & El & Ev); [|done]. unfold settled, mirror. cbn. rewrite Ew, Ev, El, Hp. by destruct Hmirror.
  - apply publish_result in Ep as [Ew Ee]; [|done]. destruct er; try (unfold settled; cbn; by eauto). destruct (Ee Hc) as [El Ev]. by apply settled_error.
  - unfold recovered. destruct (abort _ _). unfold settled. cbn. by eexists.
Qed.
Lemma settled_run (m : mut (MutationResult V)) t : triple (started p0 e0 d0) m (finished p0 id d0) -> tx_db t = d0 ->
  exists ended p e, run (to_script error_code m t) p0 e0 = Some (ended, p, e) /\ settled p0 (conclude ended p e g).
Proof.
  intros Hm Ht. unfold to_script. apply (Hm t p0 e0 _ (fun x => exists ended p e, x = Some (ended, p, e) /\ settled p0 (conclude ended p e g))); [done|].
  intros [v|er] t' p e Hf.
  - exists (Returned (mkOutput v None None)), p, e. split; [done|]. destruct Hf as [Hv Hf]. destruct Hf as [[He [->|(d & -> & Hd & Hs)]]|[(r & d & -> & -> & ? & ? & ? & ?)|(r & -> & -> & ? & ? & ?)]].
    + destruct He as [-> | ->]; unfold settled; cbn; by destruct Hmirror.
    + by apply settled_noop.
    + by apply settled_committed.
    + by apply settled_ready.
  - cbn in Hf. destruct er; eexists _, p, e; (split; [reflexivity|]); by eapply settled_undone.
Qed.
End Outcome.

(** The bodies that keep the promise, for every command. *)
Definition keeps_mirror (body : Z -> mut (MutationResult V)) : Prop := forall p0 id, pb_locked p0 = false -> mirror p0 ->
  triple (started p0 (with_id new_execution id) (w_db (pb_world p0))) (body id) (finished p0 id (w_db (pb_world p0))).
Lemma runMutation_keeps actorID command response mutate : faithful checks mutate ->
  keeps_mirror (execute_mutation ToUpper hmac signer IssueStateCursor success_body actorID command response mutate).
Proof. intros Hm p0 id Hu [Hd Hds]. by apply execute_mutation_run. Qed.

Lemma command_settles {G} (idNext : G -> result Z unit * G) acquire body t size number c1 c2 c3 p g : keeps_mirror body -> keeps_db acquire ->
  pb_locked p = false -> mirror p -> tx_db t = w_db (pb_world p) ->
  exists o, execute jvalid jmarshal juser idNext (mkCommand size number acquire (fun id => to_script error_code (body id) t) c1 c2 c3) p g = Some o /\ settled p o.
Proof.
  intros Hb Ha Hu Hm Ht.
  assert (Hheld : forall q : pub, pb_locked q = false -> pb_current q = pb_current p -> w_db (pb_world q) = w_db (pb_world p) ->
    exists o, execute_held jvalid jmarshal juser idNext (mkCommand size number acquire (fun id => to_script error_code (body id) t) c1 c2 c3) q g = Some o /\ settled q o).
  { intros q Hq Hc Hw. assert (Hm' : mirror q) by (unfold mirror; by rewrite Hc, Hw). unfold execute_held. cbn [cm_CommandID cm_Execute].
    assert (Hrun : forall id (g : G), exists o : Outcome C world G (MutationResult V), (run (to_script error_code (body id) t) q (with_id new_execution id) ≫= fun '(ended, p, e) =>
      Some (conclude jvalid jmarshal juser (mkCommand size number acquire (fun id => to_script error_code (body id) t) c1 c2 c3) id ended p e g)) = Some o /\ settled q o).
    { intros id g'. edestruct (settled_run q id g') as (ended & q' & e & Hr & Hs); [exact Hq|exact Hm'|by apply Hb|by rewrite Hw|].
      rewrite Hr. eexists. split; [reflexivity|exact Hs]. }
    destruct (number =? 0); [|apply Hrun]. destruct (idNext g) as [[id|er] g']; [apply Hrun|]. eexists. split; [reflexivity|]. by apply settled_error. }
  unfold execute. cbn [cm_canceledStart cm_Acquire]. destruct c1.
  { eexists. split; [reflexivity|]. by apply settled_error. }
  destruct acquire as [f|]; [|by apply Hheld]. destruct (Ha f eq_refl (pb_world p)) as [Hw Hr]. destruct (f (pb_world p)) as [w a]. cbn in Hw, Hr.
  destruct a as [er| |release|]; try (eexists; split; [reflexivity|]; by apply settled_error).
  - destruct (Hheld (with_world p w)) as (o & -> & Hs); [done|done|done|]. cbn. eexists. split; [reflexivity|].
    unfold settled, release_barriers in *. cbn. destruct (oc_fail o); [done|]. destruct Hs as (Hl & [Hd Hds] & He). cbn in He. unfold mirror. cbn.
    rewrite (Hr release eq_refl), <- Hw. by destruct (oc_reply o).
  - eexists. split; [reflexivity|]. unfold settled. cbn. by eexists.
Qed.
Lemma mutation_settles {G} (idNext : G -> result Z unit * G) acquire actorID command response mutate t canceled p g : faithful checks mutate ->
  keeps_db (Some acquire) -> pb_locked p = false -> mirror p -> tx_db t = w_db (pb_world p) ->
  exists o, execute jvalid jmarshal juser idNext
    (mutation_command ToUpper hmac signer IssueStateCursor success_body error_code acquire actorID command response mutate t canceled) p g = Some o /\ settled p o.
Proof. intros Hf Ha Hu Hm Ht. apply command_settles; [by apply runMutation_keeps|done..]. Qed.
End Command.

(** What [settled] says of checks of the state alone, and of checks that only see mirrored tables. *)
Lemma settled_iff {G} (checks : StateVersion -> Db -> Prop) (p : pub) (o : Outcome C world G (MutationResult V)) :
  (forall v d d', synced d d' -> checks v d' -> checks v d) -> settled checks p o ->
  match oc_fail o with
  | Some _ => exists er, oc_reply o = Err er
  | None => pb_locked (oc_pub o) = false /\ mirror (oc_pub o) /\
      match oc_reply o with
      | Err _ => w_db (pb_world (oc_pub o)) = w_db (pb_world p) /\ pb_current (oc_pub o) = pb_current p
      | Ok c => mr_value (cc_Value c) = None \/ checks (pb_current p) (w_db (pb_world p))
      end
  end.
Proof.
  intros Hc Hs. unfold settled in Hs. destruct (oc_fail o); [done|]. destruct Hs as (? & ? & Hs). split_and!; try done.
  destruct (oc_reply o); [|done]. destruct Hs as [Hs|(d & Hd & Hs)]; [by left|right; by eapply Hc].
Qed.
End Logic.

(** ** Automation *)

Create HintDb rows.
#[export] Hint Extern 1 (same_rows _ _) => reflexivity : rows.
#[export] Hint Resolve rows_if rows_voice PrepareVoiceAccessLoss_keeps : rows.
#[export] Hint Resolve rows_epoch rows_unmute rows_mute rows_temporary rows_removed : rows.

Ltac store_still := repeat match goal with
  | |- still (Tx.bind _ _) => apply still_bind; [|intros ?]
  | |- still (Tx.ret _) => apply still_ret
  | |- still (Tx.throw _) => apply still_throw
  | |- still (Tx.attempt _) => apply still_attempt
  | |- still (Tx.raise _ _) => apply still_raise
  | |- still Tx.now => apply still_now
  | |- still (Tx.query _) => apply still_reading
  | |- still (match ?x with _ => _ end) => destruct x
  end.
Ltac store_sound := repeat match goal with
  | |- sound (Tx.bind _ _) => apply sound_bind; [|intros ?]
  | |- sound (Tx.ret _) => apply sound_ret
  | |- sound (Tx.throw _) => apply sound_throw
  | |- sound (Tx.attempt _) => apply sound_attempt
  | |- sound Tx.now => apply sound_now
  | |- sound Tx.nextID => apply sound_nextID
  | |- sound (Tx.query _) => first [apply sound_statement; constructor|apply sound_reading]
  | |- sound (match ?x with _ => _ end) => destruct x
  end.

(** One step of a body, by its head. *)
Ltac body_safe := first [apply started_safe|apply working_safe|apply holding_safe|apply reserved_safe].
Ltac body_split := repeat match goal with x : (_ * _)%type |- _ => destruct x; cbn [fst snd] in * end.
Ltac body_step := match goal with
  | |- triple _ _ _ (mbind (mbind _ _) _) _ => apply t_assoc
  | |- triple _ _ _ (mbind (mret _) _) _ => apply t_pure
  | |- triple _ _ _ (mbind (mthrow _) _) _ => apply t_refuse_bind; body_safe
  | |- triple _ _ _ (mthrow _) _ => apply t_refuse; body_safe
  | |- triple _ _ _ (mbind (ensure _) _) _ => apply t_ensure; [body_safe|let E := fresh "E" in intros ? E]
  | |- triple _ _ _ (mbind (encoded _) _) _ => apply t_encoded; [body_safe|let E := fresh "E" in intros ? E]
  | |- triple _ _ (started _ _ _) (mbind current _) _ => apply t_current; cbn [fst snd]
  | |- triple _ _ (started _ _ _) (mbind (stored (Tx.attempt _)) _) _ => apply t_attempt; [done|solve [auto with store]|solve [auto with store]|intros ?|intros ?]
  | |- triple _ _ (started _ _ _) (mbind (stored _) _) _ => let Hr := fresh "Hrun" in
      first [apply t_read; [solve [auto with store]|intros ? Hr]|apply t_first; [done|solve [auto with store]|intros ? Hr]]
  | |- triple _ _ (working _ _) (mbind (stored _) _) _ => apply t_stored; [solve [auto with store]|intros ?]
  | |- triple _ _ (started _ _ _) (mbind build_candidate _) _ => apply t_write; [done|]
  | |- triple _ _ (working _ _) (mbind build_candidate _) _ => let Hb := fresh "Hbase" in apply t_candidate; intros ? Hb; cbn [fst snd]
  | |- triple _ _ (holding _ _ _) (mbind (stored _) _) _ => apply t_held; [apply quiet_now|intros ?]
  | |- triple _ _ (holding _ _ _) (mbind (executionReserveAllUsers _ _ _ _ _) _) _ => body_split; apply t_reserve; [done|done|solve [eauto with rows]|]
  | |- triple _ _ (holding _ _ _) (mbind (reserve_candidate _ _ _ _) _) _ => body_split; apply t_reserve_candidate; [done|done|solve [eauto with rows]|solve [done|eauto with rows]|]
  | |- triple _ _ (started _ _ _) (mret (_, true)) _ => apply t_noop
  | |- triple _ _ (reserved _ _) (mret (_, false)) _ => apply t_done
  | |- triple _ _ _ (if ?b then _ else _) _ => let E := fresh "E" in destruct b eqn:E
  | |- triple _ _ _ (match ?x with _ => _ end) _ => let E := fresh "E" in destruct x eqn:E
  | |- triple _ _ _ (mbind (if ?b then _ else _) _) _ => let E := fresh "E" in destruct b eqn:E
  | |- triple _ _ _ (mbind (match ?x with _ => _ end) _) _ => let E := fresh "E" in destruct x eqn:E
  end.
Ltac body_run := intros p0 id d0 Hu Hd Hds; repeat body_step; body_split.
End ServiceProps.
