(* ===== verification/ChannelProps.v ===== *)
(** * ChannelProps: the channel service keeps the state and the tables together

    Every mutation of [channel/service.go], whatever the driver, the clock and
    the voice runtime do: a command that is answered with a value was allowed,
    and leaves the published state describing exactly the committed tables. *)

From S2P Require Import Prelude State StateProps StateRing Visibility Rbac Support Cursor Snapshot Lane Connection EventBus EventBusProps.
From S2P Require Import Publication PublicationProps Sequencer Database DatabaseProps Stores Installation InstallationProps Identity Idempotency.
From S2P Require Import Durable DurableProps Events Service ServiceProps ChannelService.
From stdpp Require Import base gmap strings list.
From Stdlib Require Import ZArith Lia.
#[local] Open Scope string_scope.
#[local] Open Scope list_scope.
#[local] Open Scope Z_scope.

Module ChannelProps.
Import State StateRing Visibility Permissions Etag Snapshot EventBus Publication Sequencer Database DatabaseProps InstallationProps Identity Idempotency Durable Events
  Service ServiceProps ChannelService.
Import Stores.Tx (StoreEnv, Act, fault, clock, gen, tx_db, tx_step, next_step).
Import ScopeAuth (Decision, Allow, Visible, DAuthority, Owner, Perms, Decide, AuthorityOf, Authority).
#[local] Open Scope mutation_scope.

(** ** The stores keep the schema *)

Section Sound.
Context `{!StoreEnv, !SqlPrims, !ConfigJson}.
Lemma sound_CreateGroup n p v : sound (ChannelStore.CreateGroup n p v). Proof. unfold ChannelStore.CreateGroup. store_sound. Qed.
Lemma sound_UpdateGroup i n p v : sound (ChannelStore.UpdateGroup i n p v). Proof. unfold ChannelStore.UpdateGroup. store_sound. Qed.
Lemma sound_TouchGroup i : sound (ChannelStore.TouchGroup i). Proof. unfold ChannelStore.TouchGroup. store_sound. Qed.
Lemma sound_DeleteGroup i : sound (ChannelStore.DeleteGroup i). Proof. unfold ChannelStore.DeleteGroup. store_sound. Qed.
Lemma sound_Create i : sound (ChannelStore.Create i). Proof. unfold ChannelStore.Create. store_sound. Qed.
Lemma sound_Update i u : sound (ChannelStore.Update i u). Proof. unfold ChannelStore.Update. store_sound. Qed.
Lemma sound_Touch i : sound (ChannelStore.Touch i). Proof. unfold ChannelStore.Touch. store_sound. Qed.
Lemma sound_Delete i : sound (ChannelStore.Delete i). Proof. unfold ChannelStore.Delete. store_sound. Qed.
Lemma sound_CountGroups : sound ChannelStore.CountGroups. Proof. apply sound_reading. Qed.
Lemma sound_Count : sound ChannelStore.Count. Proof. apply sound_reading. Qed.
Lemma sound_CountTemporary : sound ChannelStore.CountTemporary. Proof. apply sound_reading. Qed.
Lemma sound_CountTemporaryForCreator u : sound (ChannelStore.CountTemporaryForCreator u).
Proof. unfold ChannelStore.CountTemporaryForCreator. store_sound. Qed.
Lemma sound_AddGroup g p : sound (AccessStore.AddGroup g p). Proof. unfold AccessStore.AddGroup. store_sound. Qed.
Lemma sound_AddChannel g p : sound (AccessStore.AddChannel g p). Proof. unfold AccessStore.AddChannel. store_sound. Qed.
Lemma sound_CountGroup g : sound (AccessStore.CountGroup g). Proof. apply sound_reading. Qed.
Lemma sound_CountChannel g : sound (AccessStore.CountChannel g). Proof. apply sound_reading. Qed.
Lemma sound_DeleteGroupAccess g i : sound (AccessStore.DeleteGroup g i). Proof. unfold AccessStore.DeleteGroup. store_sound. Qed.
Lemma sound_DeleteChannelAccess g i : sound (AccessStore.DeleteChannel g i). Proof. unfold AccessStore.DeleteChannel. store_sound. Qed.

Lemma sound_normalize_roles ty l m : sound (ConfigStore.normalize_roles ty l m).
Proof. revert m. induction l as [|[k ps] l IH]; intros m; cbn [ConfigStore.normalize_roles]; unfold RoleStore.Get, ConfigStore.lift; store_sound; apply IH. Qed.
Lemma sound_normalize ty raw : sound (ConfigStore.normalize ty raw).
Proof. unfold ConfigStore.normalize. store_sound. apply sound_normalize_roles. Qed.
Lemma sound_Effective s : sound (ConfigStore.Effective s).
Proof. unfold ConfigStore.Effective, ConfigStore.ServerRow, ConfigStore.Group, ConfigStore.Channel. store_sound. Qed.
Lemma sound_ConfigUpdate s raw : sound (ConfigStore.Update s raw).
Proof.
  unfold ConfigStore.Update, ConfigStore.PutGroup, ConfigStore.PutChannel, ConfigStore.local_version, ConfigStore.Group, ConfigStore.Channel.
  store_sound; first [apply sound_normalize|apply sound_Effective].
Qed.
End Sound.
#[export] Hint Resolve sound_CreateGroup sound_UpdateGroup sound_TouchGroup sound_DeleteGroup sound_Create sound_Update sound_Touch sound_Delete sound_CountGroups
  sound_Count sound_CountTemporary sound_CountTemporaryForCreator sound_AddGroup sound_AddChannel sound_CountGroup sound_CountChannel sound_DeleteGroupAccess
  sound_DeleteChannelAccess sound_ConfigUpdate : store.
#[export] Hint Extern 1 (still ChannelStore.Now) => apply still_now : store.

(** ** What a mutation checks *)

Section Checks.
Context `{!ConfigJson}.
(** The actor exists, is not banned, and the authorizer grants it. *)
Definition granted (actorID : Z) (target : Scope) (permission : string) (v : StateVersion) : Prop :=
  exists u d, getUser v actorID = Some u /\ us_Banned u = false /\ Decide Unmarshal actorID target permission (Some v) = Ok d /\ Allow d = true.
Definition may_change_group (actorID groupID : Z) (expectedETag : string) (v : StateVersion) : Prop :=
  granted actorID (group_scope groupID) PermGroupManage v /\ exists g, getGroup v groupID = Some g /\ NumericEntityETag "group" (gr_ID g) (gr_Version g) = Ok expectedETag.
Definition may_change_channel (actorID channelID : Z) (permission expectedETag : string) (v : StateVersion) : Prop :=
  granted actorID (channel_scope channelID) permission v /\
  exists c, getChannel v channelID = Some c /\ NumericEntityETag "channel" (ch_ID c) (ch_Version c) = Ok expectedETag.
(** Creating in a place: its group, if any, exists and is visible. *)
Definition may_create (actorID : Z) (groupID : option Z) (permission : string) (v : StateVersion) : Prop :=
  match groupID with
  | None => granted actorID server_scope permission v
  | Some g => is_Some (getGroup v g) /\ CanSeeGroup actorID g (Some v) = true /\ granted actorID (group_scope g) permission v
  end.

Inductive ChannelMutation :=
  | MAddGroupAccess (groupID : Z) (etag : string) (p : AccessPrincipalInput)
  | MDeleteGroupAccess (groupID accessID : Z) (etag : string)
  | MAddChannelAccess (channelID : Z) (etag parentETag : string) (p : AccessPrincipalInput) (grantParent : bool)
  | MDeleteChannelAccess (channelID accessID : Z) (etag : string)
  | MCreateGroup (i : CreateGroupInput)
  | MUpdateGroup (groupID : Z) (etag : string) (i : UpdateGroupInput)
  | MDeleteGroup (groupID : Z) (etag : string)
  | MCreateChannel (i : CreateChannelInput)
  | MUpdateChannel (channelID : Z) (etag : string) (i : UpdateChannelInput)
  | MDeleteChannel (channelID : Z) (etag : string).
Definition allowed (actorID : Z) (m : ChannelMutation) (v : StateVersion) : Prop :=
  match m with
  | MAddGroupAccess g etag _ | MDeleteGroupAccess g _ etag | MUpdateGroup g etag _ => may_change_group actorID g etag v
  | MDeleteGroup g etag => may_change_group actorID g etag v /\ groupHasChannels g v = false
  | MAddChannelAccess c etag parentETag _ grantParent =>
      may_change_channel actorID c PermChannelInvite etag v /\
      (grantParent = true -> exists ch g, getChannel v c = Some ch /\ ch_GroupID ch = Some g /\ may_change_group actorID g parentETag v)
  | MDeleteChannelAccess c _ etag => may_change_channel actorID c PermChannelInvite etag v
  | MDeleteChannel c etag => may_change_channel actorID c PermChannelManage etag v
  | MCreateGroup _ => granted actorID server_scope PermGroupCreate v
  | MCreateChannel i => may_create actorID (cc_GroupID i) (if cc_Temporary i then PermChannelCreateTemp else PermChannelCreate) v
  | MUpdateChannel c etag i =>
      may_change_channel actorID c PermChannelManage etag v /\
      forall ch g, getChannel v c = Some ch -> uc_GroupID i = Some g -> g <> ch_GroupID ch -> may_create actorID g PermChannelCreate v
  end.

Lemma authorize_granted actorID target permission v d : authorize actorID target permission v = Ok d -> Allow d = true -> granted actorID target permission v.
Proof.
  unfold authorize. destruct (getUser v actorID) as [u|] eqn:Eu; [|done]. destruct (us_Banned u) eqn:Eb; [done|].
  destruct (Decide _ _ _ _ _) as [d'|] eqn:Ed; [|done]. intros [= ->] Ha. by exists u, d.
Qed.
Lemma etag_matches kind id n etag u : entityETagMatches kind id n etag = Ok u -> NumericEntityETag kind id n = Ok etag.
Proof.
  unfold entityETagMatches, entity_etag. destruct (NumericEntityETag kind id n) as [x|]; cbn; [|done]. case_bool_decide; [by subst|done].
Qed.
Lemma permitted_group_checked actorID groupID etag v g d : permitted_group actorID groupID PermGroupManage etag v = Ok (g, d) ->
  getGroup v groupID = Some g /\ may_change_group actorID groupID etag v.
Proof.
  unfold permitted_group, authorizeGroupTarget. intros ([g' d'] & Ha & Hr)%rbind_Ok. destruct (getGroup v groupID) as [g''|] eqn:Eg; [|done].
  apply rbind_Ok in Ha as (d'' & Hd & Ha). destruct (negb (Visible d'')); [done|]. injection Ha as <- <-.
  apply rbind_Ok in Hr as ([] & He & Hr). cbn in *. destruct (Allow d'') eqn:El; [|done]. injection Hr as <- <-.
  split; [done|]. split; [by eapply authorize_granted|]. exists g''. split; [done|]. by eapply etag_matches.
Qed.
Lemma permitted_channel_checked actorID channelID permission etag v c d : permitted_channel actorID channelID permission etag v = Ok (c, d) ->
  getChannel v channelID = Some c /\ may_change_channel actorID channelID permission etag v.
Proof.
  unfold permitted_channel, authorizeChannelTarget. intros ([g' d'] & Ha & Hr)%rbind_Ok. destruct (getChannel v channelID) as [g''|] eqn:Eg; [|done].
  apply rbind_Ok in Ha as (d'' & Hd & Ha). destruct (negb (Visible d'')); [done|]. injection Ha as <- <-.
  apply rbind_Ok in Hr as ([] & He & Hr). cbn in *. destruct (Allow d'') eqn:El; [|done]. injection Hr as <- <-.
  split; [done|]. split; [by eapply authorize_granted|]. exists g''. split; [done|]. by eapply etag_matches.
Qed.
Lemma destination_checked actorID groupID permission v target d : destination_scope actorID groupID v = Ok target -> authorize actorID target permission v = Ok d ->
  Allow d = true -> may_create actorID groupID permission v.
Proof.
  unfold destination_scope, may_create. destruct groupID as [g|].
  - destruct (CanSeeGroup actorID g (Some v)); [|by rewrite andb_false_r]. destruct (getGroup v g) as [gr|]; [|done]. intros [= <-] Ha Hl. split_and!; try done. by eapply authorize_granted.
  - intros [= <-] Ha Hl. by eapply authorize_granted.
Qed.
Lemma may_move_checked actorID groupID v u : may_move actorID groupID v = Ok u -> may_create actorID groupID PermChannelCreate v.
Proof.
  unfold may_move. intros (target & Ht & Hr)%rbind_Ok. apply rbind_Ok in Hr as (d & Hd & Hr).
  destruct (_ && _); [done|]. destruct (Allow d) eqn:El; [|done]. by eapply destination_checked.
Qed.
Lemma parent_grant_checked actorID c p grantParent etag v o : (forall g gr, getGroup v g = Some gr -> gr_ID gr = g) ->
  parent_grant actorID c p grantParent etag v = Ok o -> grantParent = true ->
  exists g, ch_GroupID c = Some g /\ may_change_group actorID g etag v.
Proof.
  unfold parent_grant. intros Hkey Hr ->. destruct (ch_GroupID c) as [g|]; [|done]. destruct (getGroup v g) as [gr|] eqn:Eg; [|done].
  rewrite andb_false_r in Hr. cbn in Hr. apply rbind_Ok in Hr as (d & Hd & Hr). destruct (negb (Visible d)); [done|]. apply rbind_Ok in Hr as ([] & He & Hr).
  destruct (Allow d) eqn:El; [|done]. pose proof (Hkey g gr Eg) as Hk. exists g. split; [done|]. split; [rewrite <- Hk; by eapply authorize_granted|].
  exists gr. split; [done|]. by eapply etag_matches.
Qed.
End Checks.

(** ** Bodies *)

Section Bodies.
Context {C : Type} `{!StateSink C} {cprims : Cursor.CursorPrims} {pprims : PublicationPrims} {R : Type}.
Context `{!StoreEnv, !SqlPrims, !CommandJson, !ConfigJson, !EventJson, !VoiceRuntime R}.
Context (jvalid : bytes -> bool) (jmarshal : stateEventEnvelope -> option bytes).
Context (voice_configured : bool) (voiceNow : Z) (actorID : Z).
#[local] Abbreviation mut := (Mut C R mutationValue ChannelError).
#[local] Abbreviation faithful := (faithful (C := C) (R := R) jvalid jmarshal).

(** The keys of the published groups and channels are their identifiers. *)
Lemma group_key d v g gr : db_ok d -> describes d (persistent v) -> getGroup v g = Some gr -> gr_ID gr = g.
Proof. intros Hd Hds. unfold getGroup. rewrite (ds_groups _ _ Hds). intros Hg. by apply (to_row _ _ _ _ (ok_groups d Hd)) in Hg as [? _]. Qed.
Lemma channel_key d v c ch : db_ok d -> describes d (persistent v) -> getChannel v c = Some ch -> ch_ID ch = c.
Proof.
  intros Hd Hds. unfold getChannel. rewrite (ds_channels _ _ Hds), lookup_fmap. destruct (t_channels d !! c) as [r|] eqn:Er; [|done].
  intros [= <-]. by apply (to_row _ _ _ _ (ok_channels d Hd)) in Er as [? _].
Qed.

(** Turn what was evaluated into what it means. *)
Ltac checks := repeat match goal with
  | Hx : permitted_group _ _ _ _ _ = Ok _ |- _ => let Hr := fresh "Hrow" in let Hm := fresh "Hmay" in apply permitted_group_checked in Hx; destruct Hx as [Hr Hm]
  | Hx : permitted_channel _ _ _ _ _ = Ok _ |- _ => let Hr := fresh "Hrow" in let Hm := fresh "Hmay" in apply permitted_channel_checked in Hx; destruct Hx as [Hr Hm]
  | Hx : may_move _ _ _ = Ok _ |- _ => apply may_move_checked in Hx
  | Hx : negb (Allow _) = false |- _ => apply negb_false_iff in Hx
  end.
Ltac body := unfold below, refuse, candidate_group, candidate_channel; body_run; checks; try done.

Lemma AddGroupAccess_faithful g etag p : faithful (of_state (allowed actorID (MAddGroupAccess g etag p))) (AddGroupAccess voice_configured voiceNow actorID g etag p).
Proof. unfold AddGroupAccess. body. Qed.
Lemma DeleteGroupAccess_faithful g a etag : faithful (of_state (allowed actorID (MDeleteGroupAccess g a etag))) (DeleteGroupAccess voice_configured voiceNow actorID g a etag).
Proof. unfold DeleteGroupAccess. body. Qed.
Lemma DeleteChannelAccess_faithful g a etag : faithful (of_state (allowed actorID (MDeleteChannelAccess g a etag))) (DeleteChannelAccess voice_configured voiceNow actorID g a etag).
Proof. unfold DeleteChannelAccess. body. Qed.
Lemma UpdateGroup_faithful g etag i : faithful (of_state (allowed actorID (MUpdateGroup g etag i))) (UpdateGroup voice_configured voiceNow actorID g etag i).
Proof. unfold UpdateGroup. body. Qed.
Lemma CreateGroup_faithful i : faithful (of_state (allowed actorID (MCreateGroup i))) (CreateGroup voice_configured voiceNow actorID i).
Proof. unfold CreateGroup. body; by eapply authorize_granted. Qed.

Lemma DeleteGroup_faithful g etag : faithful (of_state (allowed actorID (MDeleteGroup g etag))) (DeleteGroup voice_configured voiceNow actorID g etag).
Proof.
  unfold DeleteGroup. body. cbn. split; [done|]. by rewrite <- (group_key _ _ _ _ Hd Hds Hrow).
Qed.
Lemma DeleteChannel_faithful c etag : faithful (of_state (allowed actorID (MDeleteChannel c etag))) (DeleteChannel voice_configured voiceNow actorID c etag).
Proof. unfold DeleteChannel. body. Qed.
Lemma CreateChannel_faithful i : faithful (of_state (allowed actorID (MCreateChannel i))) (CreateChannel voice_configured voiceNow actorID i).
Proof. unfold CreateChannel. body; cbn [allowed of_state]; rewrite E3; by eapply destination_checked. Qed.
Lemma AddChannelAccess_faithful c etag parentETag p grant :
  faithful (of_state (allowed actorID (MAddChannelAccess c etag parentETag p grant))) (AddChannelAccess voice_configured voiceNow actorID c etag parentETag p grant).
Proof.
  unfold AddChannelAccess. body; (split; [done|]; intros Hg).
  all: match goal with Hx : parent_grant _ _ _ _ _ _ = Ok _ |- _ => apply parent_grant_checked in Hx as (g' & Hg' & Hm'); [|by intros; eapply group_key|done] end.
  all: by eexists _, g'.
Qed.
Lemma UpdateChannel_faithful c etag i : faithful (of_state (allowed actorID (MUpdateChannel c etag i))) (UpdateChannel voice_configured voiceNow actorID c etag i).
Proof.
  unfold UpdateChannel, freeze_config, no_escalation. body; (split; [done|]).
  all: intros ch g Hch Hg Hne; rewrite Hg in *; rewrite Hch in Hrow; injection Hrow as <-; cbn in *.
  all: try done; assert (Es : sameOptionalID (ch_GroupID ch) g = false) by (by apply bool_decide_eq_false; congruence); by rewrite Es in *.
Qed.

Definition mutation_body (m : ChannelMutation) : mut (mutationValue * bool) :=
  match m with
  | MAddGroupAccess g etag p => AddGroupAccess voice_configured voiceNow actorID g etag p
  | MDeleteGroupAccess g a etag => DeleteGroupAccess voice_configured voiceNow actorID g a etag
  | MAddChannelAccess c etag parentETag p grant => AddChannelAccess voice_configured voiceNow actorID c etag parentETag p grant
  | MDeleteChannelAccess c a etag => DeleteChannelAccess voice_configured voiceNow actorID c a etag
  | MCreateGroup i => CreateGroup voice_configured voiceNow actorID i
  | MUpdateGroup g etag i => UpdateGroup voice_configured voiceNow actorID g etag i
  | MDeleteGroup g etag => DeleteGroup voice_configured voiceNow actorID g etag
  | MCreateChannel i => CreateChannel voice_configured voiceNow actorID i
  | MUpdateChannel c etag i => UpdateChannel voice_configured voiceNow actorID c etag i
  | MDeleteChannel c etag => DeleteChannel voice_configured voiceNow actorID c etag
  end.
Lemma mutation_faithful m : faithful (of_state (allowed actorID m)) (mutation_body m).
Proof.
  destruct m; [apply AddGroupAccess_faithful|apply DeleteGroupAccess_faithful|apply AddChannelAccess_faithful|apply DeleteChannelAccess_faithful|
    apply CreateGroup_faithful|apply UpdateGroup_faithful|apply DeleteGroup_faithful|apply CreateChannel_faithful|apply UpdateChannel_faithful|apply DeleteChannel_faithful].
Qed.

(** *** The scheduled commands *)

Definition any_state (_ : StateVersion) : Prop := True.
#[local] Abbreviation triple := (triple (C := C) (R := R) (V := mutationValue) (E := ChannelError) jvalid jmarshal).
#[local] Abbreviation pub := (StatePublication C (World R)).
#[local] Abbreviation result_of := (MutationResult mutationValue).

Section Scheduled.
Context (p0 : pub) (id : Z) (Hu : pb_locked p0 = false) (Hm : mirror p0).
#[local] Abbreviation e0 := (with_id (new_execution (W := World R)) id).
#[local] Abbreviation start := (started p0 e0 (w_db (pb_world p0))).
#[local] Abbreviation finish := (finished (V := mutationValue) (E := ChannelError) (of_state any_state) p0 id (w_db (pb_world p0))).
(** The deletion of an expired channel, as a body. *)
Definition expire_body (channelID : Z) (channel : Channel) : mut (unit * bool) :=
  let v := pb_current p0 in let beforeUsers := visibleChannelUsers channelID v in
  stored (ChannelStore.Delete channelID) ;;= pc <=~ build_candidate ;;
  events <=~ encoded (channelDeletedEvents channel beforeUsers) ;;
  ec <=~ encoded (appendModerationMuteRemovedEvent events (channel_scope (ch_ID channel)) v pc.2 beforeUsers) ;;
  executionReserveAllUsers voice_configured voiceNow pc.1 ec.2 ec.1 ;;= mret (tt, false).
Lemma expire_faithful channelID channel : triple start (expire_body channelID channel) (body_post p0 e0 (w_db (pb_world p0)) (fun noop => noop = false)).
Proof. destruct Hm as [Hd Hds]. unfold expire_body. by repeat body_step. Qed.
Lemma ExpireTemporary_run channelID generation deadline : triple start (ExpireTemporary voice_configured voiceNow channelID generation deadline) finish.
Proof.
  unfold ExpireTemporary. apply t_look. cbn [snd]. destruct (expired _ _ _ _) as [channel|]; [|by apply t_nothing].
  apply t_now. intros t. destruct (t <? deadline); [by apply t_nothing|]. apply t_begin; [|done].
  change (triple start (mbind (expire_body channelID channel) (fun _ => mbind (commit CallCommit) (fun _ => mret nothing))) finish).
  apply t_written; [done|apply expire_faithful].
Qed.
Lemma restore_schedule_run channelID : triple start (restore_schedule channelID) finish.
Proof.
  unfold restore_schedule. apply t_look. cbn [fst snd]. apply t_now. intros now.
  destruct (ScheduleTemporaryExpiry _ _ _) as [[schedule c]|] eqn:Es; [|apply t_give_up].
  apply ScheduleTemporaryExpiry_rows in Es as [Es _]. apply t_runtime; [done|done|]. right. by exists (w_db (pb_world p0)).
Qed.
End Scheduled.

(** ** Commands *)

Context (juser : SnapshotUserPresence -> option bytes) {G : Type} (idNext : G -> result Z unit * G).
Context (ToUpper : string -> string) (hmac : string -> string -> bytes) (signer : RequestIdentitySigner).
Context (IssueStateCursor : Z -> StateVersion -> option string) {D : Type} (success_body : D -> option string) (error_code : ServiceError ChannelError -> Z).
#[local] Abbreviation execute := (execute jvalid jmarshal juser idNext).

(** C6: a channel mutation is atomic across the tables and the state.  Take any
    mutation of the channel service, of any actor, with or without an
    idempotency key, from a state that mirrors the committed tables; whatever
    the driver, the clock, the codecs and the voice runtime do, its command
    never blocks, and unless it stops the sequencer it leaves the publication
    unlocked and the state mirroring the tables, which keep their schema.  If it
    answers an error, tables and state are as they were; if it answers a value
    that is not a replay, the actor was unbanned and authorized at the target,
    by its current version where it names one. *)
Theorem channel_mutation_mirror acquire command response m t canceled (p : pub) g : keeps_db (Some acquire) -> pb_locked p = false -> mirror p ->
  tx_db t = w_db (pb_world p) ->
  exists o, execute (mutation_command ToUpper hmac signer IssueStateCursor success_body error_code acquire actorID command response (mutation_body m) t canceled) p g = Some o /\
    match oc_fail o with
    | Some _ => exists er, oc_reply o = Err er
    | None => pb_locked (oc_pub o) = false /\ mirror (oc_pub o) /\
        match oc_reply o with
        | Err _ => w_db (pb_world (oc_pub o)) = w_db (pb_world p) /\ pb_current (oc_pub o) = pb_current p
        | Ok c => mr_value (cc_Value c) = None \/ allowed actorID m (pb_current p)
        end
    end.
Proof.
  intros Ha Hu Hm Ht. edestruct (mutation_settles jvalid jmarshal juser ToUpper hmac signer IssueStateCursor success_body error_code
    (of_state (allowed actorID m)) idNext acquire actorID command response) as (o & Ho & Hs); [apply mutation_faithful|done..|].
  exists o. split; [exact Ho|]. by apply settled_iff in Hs.
Qed.

(** the scheduled commands of temporary channels, which act for no user,
    keep the state mirroring the tables in the same way: the expiry that
    deletes an empty channel when its deadline has come, and the command that
    schedules it again when the service starts. *)
Theorem channel_schedule_mirror acquire body t size c1 c2 c3 (p : pub) g :
  (exists channelID generation deadline, body = (fun _ => ExpireTemporary voice_configured voiceNow channelID generation deadline)) \/
  (exists channelID, body = fun _ => restore_schedule channelID) ->
  keeps_db acquire -> pb_locked p = false -> mirror p -> tx_db t = w_db (pb_world p) ->
  exists o, execute (mkCommand size 0 acquire (fun id => to_script error_code (body id) t) c1 c2 c3) p g = Some o /\ settled (of_state any_state) p o.
Proof.
  intros Hb Ha Hu Hm Ht. eapply (command_settles (V := mutationValue)); [|done..]. intros p0 id Hu0 Hm0.
  destruct Hb as [(c & gn & dl & ->)|[c ->]]; [by apply ExpireTemporary_run|by apply restore_schedule_run].
Qed.
End Bodies.

(** ** A small installation at work *)

#[local] Existing Instance EventBusProps.ex_prims.
#[local] Existing Instance PublicationProps.ex_pprims.
#[local] Existing Instance demo_env.
#[local] Existing Instance sample_prims.
#[local] Existing Instance DurableProps.demo_json.
Definition demo_config : ConfigJson := {| json_config := fun _ => Some (Some ∅); json_encode := fun _ => "{}" |}.
#[local] Existing Instance demo_config.
Definition demo_events : EventJson := {| json_body := fun _ => Some [123; 125] |}.
#[local] Existing Instance demo_events.
Definition demo_voice : VoiceRuntime unit := {| BeginVoiceRevoke := fun _ r => (r, Some (fun r => r)) |}.
#[local] Existing Instance demo_voice.
#[local] Abbreviation conn := EventBusProps.webSocketSyncConnection.

(** The installation, configured. *)
Definition lobby_db : Db := after (SeedServerPermissionConfig "{}" 1) demo_db.
Definition lobby_tx : Tx.Tx := Tx.mkTx lobby_db 0 (100 : gen).
Lemma lobby_ok : db_ok lobby_db.
Proof. apply produced_ok. repeat (apply after_produced; [constructor|]). apply produced_empty. Qed.
Definition lobby_state : persistentState := match newPersistentState (Some (projection_of lobby_db)) with Ok st => st | Err _ => PublicationProps.ex_state "" end.
Lemma lobby_describes : describes lobby_db lobby_state.
Proof. destruct (projection_loads lobby_db lobby_ok) as (st & Hst & Hds). unfold lobby_state. by rewrite Hst. Qed.
Definition demo_pub : StatePublication conn (World unit) :=
  mkPub 0 (mkVersion 1 (mkCheckpoint "e" 0) lobby_state empty_runtime) PublicationProps.ex_ring None false (mkWorld lobby_db Deadline.NewDeadlineScheduler tt).
Definition demo_acquire (w : World unit) : World unit * Acquired (W := World unit) := (w, AcquireOk (fun w => w)).
Definition demo_response (v : mutationValue) : Z * unit * IdempotencyHeaders := (200, tt, no_headers).
Definition demo_command (m : ChannelMutation) : PostCommitCommand conn (World unit) (MutationResult mutationValue) :=
  mutation_command (fun s => s) (fun _ _ => []) (mkSigner "") (fun _ _ => Some "cursor") (fun _ => Some "{}") (fun _ => 0) demo_acquire 7 None demo_response
    (mutation_body false 0 7 m) lobby_tx false.
Definition demo_execute (c : PostCommitCommand conn (World unit) (MutationResult mutationValue)) : option (Outcome conn (World unit) Z (MutationResult mutationValue)) :=
  Sequencer.execute PublicationProps.ok_json PublicationProps.ok_marshal (fun _ => Some [1]) (fun g => (Ok (g + 1), g + 1)) c demo_pub 500.
Definition demo_new_group : ChannelMutation := MCreateGroup (mkCreateGroup "lobby" 0 "public").
Lemma demo_mirror : mirror demo_pub.
Proof. split; [exact lobby_ok|exact lobby_describes]. Qed.
Lemma demo_keeps : keeps_db (Some demo_acquire).
Proof. intros f [= <-] w. split; [done|]. by intros release [= <-]. Qed.

(** The owner creates a group: it is committed and published. *)
Lemma channel_mutation_mirror_witness : exists o, demo_execute (demo_command demo_new_group) = Some o /\ mirror (oc_pub o) /\
  map_to_list (gr_Name <$> t_groups (w_db (pb_world (oc_pub o)))) = [(100, "lobby")] /\ allowed 7 demo_new_group (pb_current demo_pub).
Proof.
  destruct (channel_mutation_mirror PublicationProps.ok_json PublicationProps.ok_marshal false 0 7 (fun _ => Some [1]) (fun g : Z => (Ok (g + 1), g + 1))
    (fun s => s) (fun _ _ => []) (mkSigner "") (fun _ _ => Some "cursor") (fun _ : unit => Some "{}") (fun _ => 0)
    demo_acquire None demo_response demo_new_group lobby_tx false demo_pub 500 demo_keeps eq_refl demo_mirror eq_refl) as (o & Ho & Hs).
  exists o. split; [exact Ho|].
  assert (Hx : (fun o => (oc_fail o, match oc_reply o with Ok c => match mr_value (cc_Value c) with Some _ => true | None => false end | Err _ => false end,
      map_to_list (gr_Name <$> t_groups (w_db (pb_world (oc_pub o)))))) <$> demo_execute (demo_command demo_new_group) = Some (None, true, [(100, "lobby")]))
    by (vm_compute; reflexivity).
  unfold demo_execute, demo_command in Hx. rewrite Ho in Hx. injection Hx as E1 E2 E3. rewrite E1 in Hs. destruct Hs as (_ & Hm & Hr). split; [exact Hm|]. split; [exact E3|].
  destruct (oc_reply o) as [c|]; [|discriminate E2]. destruct (mr_value (cc_Value c)); [|discriminate E2]. destruct Hr as [Hr|Hr]; [discriminate Hr|exact Hr].
Defined.
(** A deadline of a channel that is gone changes nothing. *)
Lemma channel_schedule_mirror_witness : exists o, demo_execute (mkCommand 1 0 None (fun _ => to_script (fun _ => 0) (ExpireTemporary false 0 9 1 5) lobby_tx) false false false) = Some o /\
  mirror (oc_pub o) /\ pb_current (oc_pub o) = pb_current demo_pub.
Proof.
  destruct (channel_schedule_mirror PublicationProps.ok_json PublicationProps.ok_marshal false 0 (fun _ => Some [1]) (fun g : Z => (Ok (g + 1), g + 1))
    (fun _ => 0) None (fun _ => ExpireTemporary false 0 9 1 5) lobby_tx 1 false false false demo_pub 500 (or_introl (ex_intro _ 9 (ex_intro _ 1 (ex_intro _ 5 eq_refl))))
    ltac:(intros f; discriminate) eq_refl demo_mirror eq_refl) as (o & Ho & Hs).
  exists o. split; [exact Ho|].
  assert (Hx : (fun o => (oc_fail o, pb_current (oc_pub o))) <$> demo_execute (mkCommand 1 0 None (fun _ => to_script (fun _ => 0) (ExpireTemporary false 0 9 1 5) lobby_tx) false false false) =
      Some (None, pb_current demo_pub)) by (vm_compute; reflexivity).
  unfold demo_execute in Hx. rewrite Ho in Hx. injection Hx as E1 E2. unfold settled in Hs. rewrite E1 in Hs. destruct Hs as (_ & Hm & _). split; [exact Hm|exact E2].
Defined.
End ChannelProps.
