(* ===== verification/ModerationService.v ===== *)
(** * ModerationService: mutes ([moderation/service.go])

    Creation, change and removal of mutes, each the body its command runs inside
    one transaction, their expiry, and the list. *)

From S2P Require Import Prelude State StateRing Visibility Rbac Support Cursor Snapshot Lane Connection EventBus Publication Sequencer Database.
From S2P Require Import Stores Installation Identity Idempotency Durable Events Service ChannelService.
From stdpp Require Import base gmap strings list pretty.
From Stdlib Require Import ZArith.
#[local] Open Scope string_scope.
#[local] Open Scope list_scope.
#[local] Open Scope Z_scope.

Module ModerationService.
Import State StateRing Visibility Permissions Etag Snapshot Publication Sequencer Database Identity Idempotency Durable Events Service.
Import ChannelService (page, Unmarshal, Page, paged).
Import Stores.Tx (StoreEnv).
Import ScopeAuth (Decision, Allow, Visible, DAuthority, Owner, Rank, Decide, AuthorityOf, Authority).
#[local] Open Scope mutation_scope.

Definition maxActiveMutes : Z := 10000.

Inductive ModerationError :=
  | ErrTargetNotFound | ErrPermissionRequired | ErrRankProtected | ErrPreconditionFailed | ErrMuteExists | ErrInvalidMute | ErrResourceLimit | ErrStaleExpiry.

(** [Scope] of the package: a type and a nullable identifier. *)
Record ScopeInput := mkScopeInput { si_Type : string; si_ID : option Z }.
Record CreateInput := mkCreate { ci_Scope : ScopeInput; ci_UserID : Z; ci_Kind : string; ci_ExpiresAt : option Z; ci_Reason : string }.
(** [ExpiresAtSet] and [ExpiresAt]: [None] keeps the expiry, [Some None] removes it. *)
Record UpdateInput := mkUpdate { ui_ExpiresAt : option (option Z); ui_Reason : option string }.

Record scopeResponse := mkScopeResponse { sr_Type : string; sr_ID : option string }.
Record muteResponse := mkMuteResponse {
  mr_ID : string; mr_Scope : scopeResponse; mr_UserID : string; mr_Kind : string; mr_ExpiresAt : option Z; mr_Reason : string; mr_CreatedAt : Z; mr_Version : string
}.
Record mutationValue := mkValue {
  mv_mute : option muteResponse; mv_muteID : Z; mv_schedule : option ExpirySchedule; mv_cancelSchedule : bool; mv_cancelGeneration : Z
}.

Definition scopeResponseFromRealtime (s : Scope) : scopeResponse :=
  if bool_decide (sc_Type s = "server") then mkScopeResponse "server" None else mkScopeResponse (sc_Type s) (Some (pretty (sc_ID s))).
Definition muteResponseFromState (m : Mute) : muteResponse :=
  mkMuteResponse (pretty (mu_ID m)) (scopeResponseFromRealtime (mu_Scope m)) (pretty (mu_UserID m)) (mu_Kind m) (mu_ExpiresAt m) (mu_Reason m) (mu_CreatedAt m)
    (pretty (mu_Version m)).
Definition scopeToRealtime (s : ScopeInput) : option Scope :=
  match si_ID s with
  | None => if bool_decide (si_Type s = "server") then Some server_scope else None
  | Some id => if (bool_decide (si_Type s = "group") || bool_decide (si_Type s = "channel")) && (0 <? id) then Some (mkScope (si_Type s) id) else None
  end.
Definition scopeGroupID (s : Scope) : option Z := if bool_decide (sc_Type s = "group") then Some (sc_ID s) else None.
Definition scopeChannelID (s : Scope) : option Z := if bool_decide (sc_Type s = "channel") then Some (sc_ID s) else None.
Definition validKind (kind : string) : bool := bool_decide (kind = "text") || bool_decide (kind = "voice") || bool_decide (kind = "desktop_audio").
Definition same_mute (scope : Scope) (userID : Z) (kind : string) (m : Mute) : bool :=
  bool_decide (mu_Scope m = scope) && (mu_UserID m =? userID) && bool_decide (mu_Kind m = kind).
Definition matchingMute (v : StateVersion) (scope : Scope) (userID : Z) (kind : string) : option Mute := List.find (same_mute scope userID kind) (Mutes v).
Definition sameOptionalInt64 (l r : option Z) : bool := bool_decide (l = r).

Section Moderation.
Context {C R : Type} `{!StoreEnv, !SqlPrims, !CommandJson, !ConfigJson, !EventJson}.
#[local] Abbreviation err := (ServiceError ModerationError).
#[local] Abbreviation mut := (Mut C R mutationValue ModerationError).

Definition refuse {A} (e : ModerationError) : mut A := mthrow (Own e).
Definition mute_body (scope : Scope) (v : StateVersion) : EventBody :=
  let s := scopeResponseFromRealtime scope in BodyMute (sr_Type s) (sr_ID s) (pretty (ModerationEpoch v)).
Definition muteUpdatedEvents (scope : Scope) (v : StateVersion) : option (list StateEventTemplate) :=
  data ← json_body (mute_body scope v); Some [template "moderation.mute.updated" scope (Some data) 0 [] 0].
Definition muteRemovedEvents (scope : Scope) (v : StateVersion) : option (list StateEventTemplate) :=
  data ← json_body (mute_body scope v); Some [template "moderation.mute.removed" scope (Some data) 0 [] 0].

(** ** Checks *)

Definition authorize (actorID : Z) (target : Scope) (v : StateVersion) : result Decision err :=
  match getUser v actorID with
  | Some u =>
      if us_Banned u then Err (Own ErrPermissionRequired)
      else match Decide Unmarshal actorID target PermMemberMute (Some v) with
           | Err _ => Err ErrOfAuthorizer
           | Ok d => if negb (Visible d) then Err (Own ErrTargetNotFound) else if negb (Allow d) then Err (Own ErrPermissionRequired) else Ok d
           end
  | None => Err (Own ErrPermissionRequired)
  end.
Definition protectTarget (actorID targetID : Z) (target : Scope) (actor : Authority) (v : StateVersion) : result unit err :=
  if (targetID <=? 0) || (targetID =? actorID) then Err (Own ErrRankProtected)
  else if negb (is_some (getUser v targetID)) then Err (Own ErrTargetNotFound)
  else match AuthorityOf Unmarshal targetID target (Some v) with
  | Err _ => Err ErrOfAuthorizer
  | Ok a => if Owner a || (Rank actor <=? Rank a) then Err (Own ErrRankProtected) else Ok tt
  end.
Definition muteETagMatches (m : Mute) (expected : string) : result unit err :=
  match NumericEntityETag "mute" (mu_ID m) (mu_Version m) with
  | Err e => Err (ErrOfETag e)
  | Ok etag => if negb (bool_decide (expected = etag)) then Err (Own ErrPreconditionFailed) else Ok tt
  end.
(** The head of a change of one mute: it exists, and may be changed at its scope and version. *)
Definition permitted_mute (actorID muteID : Z) (expectedETag : string) (v : StateVersion) : result Mute err :=
  match getMute v muteID with
  | None => Err (Own ErrTargetNotFound)
  | Some m => d <-? authorize actorID (mu_Scope m) v ;; _ <-? muteETagMatches m expectedETag ;;
              _ <-? protectTarget actorID (mu_UserID m) (mu_Scope m) (DAuthority d) v ;; Ok m
  end.

Definition reserveAllUsers (pointer : nat) (candidate : StateCandidate) (events : list StateEventTemplate) : mut unit := reserve_candidate pointer candidate events None.
Definition schedule_mute (candidate : StateCandidate) (muteID deadline : Z) : mut (ExpirySchedule * StateCandidate) :=
  match ScheduleMuteExpiry candidate muteID deadline with Some sc => mret sc | None => mthrow (ErrOfState (ErrInvalidProjection None)) end.
Definition candidate_mute (c : StateCandidate) (id : Z) : mut Mute := match getMute (version c) id with Some m => mret m | None => mthrow ErrRealtimeUnavailable end.

(** ** Mutations *)

(** [Create] refuses an ill-formed input before it submits a command. *)
Definition create_target (input : CreateInput) : option Scope :=
  match scopeToRealtime (ci_Scope input) with
  | Some target => if (ci_UserID input <=? 0) || negb (validKind (ci_Kind input)) then None else Some target
  | None => None
  end.
Definition Create (actorID : Z) (target : Scope) (input : CreateInput) : mut (mutationValue * bool) :=
  pv <=~ current ;; let v := pv.2 in
  d <=~ ensure (authorize actorID target v) ;;
  ensure (protectTarget actorID (ci_UserID input) target (DAuthority d) v) ;;=
  now <=~ stored MuteStore.Now ;;
  if match ci_ExpiresAt input with Some e => e <=? now | None => false end then refuse ErrInvalidMute
  else if is_some (matchingMute v target (ci_UserID input) (ci_Kind input)) then refuse ErrMuteExists
  else count <=~ stored MuteStore.CountActive ;;
  if maxActiveMutes <=? count then refuse ErrResourceLimit
  else mute <=~ stored (MuteStore.Create (MuteStore.mkInput (sc_Type target) (scopeGroupID target) (scopeChannelID target) (ci_UserID input) (ci_Kind input)
                          (ci_ExpiresAt input) (Some actorID) (ci_Reason input))) ;;
  pc <=~ build_candidate ;; let candidate := IncrementModerationEpoch pc.2 in
  sc <=~ match ci_ExpiresAt input with
         | Some e => sc <=~ schedule_mute candidate (State.mr_ID mute) e ;; mret (Some sc.1, sc.2)
         | None => mret (None, candidate)
         end ;;
  updated <=~ candidate_mute sc.2 (State.mr_ID mute) ;;
  events <=~ encoded (muteUpdatedEvents target (version sc.2)) ;; reserveAllUsers pc.1 sc.2 events ;;=
  mret (mkValue (Some (muteResponseFromState updated)) (State.mr_ID mute) sc.1 false 0, false).

(** The expiry a change leaves is in the future. *)
Definition in_future (expiresAt : option Z) : mut unit :=
  match expiresAt with
  | Some e => now <=~ stored MuteStore.Now ;; if e <=? now then refuse ErrInvalidMute else mret tt
  | None => mret tt
  end.
Definition generation_of (c : StateCandidate) (muteID : Z) : Z := match MuteExpiry (version c) muteID with Some s => es_Generation s | None => 0 end.
Definition empty_patch (input : UpdateInput) : bool := negb (is_some (ui_ExpiresAt input)) && negb (is_some (ui_Reason input)).
Definition Update (actorID muteID : Z) (expectedETag : string) (input : UpdateInput) : mut (mutationValue * bool) :=
  pv <=~ current ;; let v := pv.2 in
  mute <=~ ensure (permitted_mute actorID muteID expectedETag v) ;;
  let expiresAt := default (mu_ExpiresAt mute) (ui_ExpiresAt input) in
  in_future expiresAt ;;=
  let reason := default (mu_Reason mute) (ui_Reason input) in
  if sameOptionalInt64 (mu_ExpiresAt mute) expiresAt && bool_decide (reason = mu_Reason mute)
  then mret (mkValue (Some (muteResponseFromState mute)) 0 None false 0, true)
  else row <=~ stored (MuteStore.Update muteID expiresAt reason) ;;
  pc <=~ build_candidate ;; let candidate := IncrementModerationEpoch pc.2 in
  sc <=~ match expiresAt with
         | Some e => sc <=~ schedule_mute candidate muteID e ;; mret (Some sc.1, sc.2)
         | None => mret (None, ClearMuteExpiry candidate muteID)
         end ;;
  let cancelGeneration := if is_some expiresAt then 0 else generation_of sc.2 muteID in
  updated <=~ candidate_mute sc.2 (State.mr_ID row) ;;
  events <=~ encoded (muteUpdatedEvents (mu_Scope mute) (version sc.2)) ;; reserveAllUsers pc.1 sc.2 events ;;=
  mret (mkValue (Some (muteResponseFromState updated)) muteID sc.1 (negb (is_some expiresAt)) cancelGeneration, false).

Definition Delete (actorID muteID : Z) (expectedETag : string) : mut (mutationValue * bool) :=
  pv <=~ current ;; let v := pv.2 in
  mute <=~ ensure (permitted_mute actorID muteID expectedETag v) ;;
  stored (MuteStore.Delete muteID) ;;=
  pc <=~ build_candidate ;; let candidate := ClearMuteExpiry (IncrementModerationEpoch pc.2) muteID in
  events <=~ encoded (muteRemovedEvents (mu_Scope mute) (version candidate)) ;; reserveAllUsers pc.1 candidate events ;;=
  mret (mkValue None 0 None true (generation_of candidate muteID), false).

(** [muteTargetID]: whose lock an update or a removal takes. *)
Definition muteTargetID (v : StateVersion) (muteID : Z) : result Z err := match getMute v muteID with Some m => Ok (mu_UserID m) | None => Err (Own ErrTargetNotFound) end.
(** What the caller does with the timers once the command completed. *)
Definition after_mutation (muteID : Z) (value : mutationValue) (s : Deadline.DeadlineScheduler) : Deadline.DeadlineScheduler :=
  let s := if mv_cancelSchedule value then Deadline.Cancel s "mute" muteID (mv_cancelGeneration value) else s in
  match mv_schedule value with
  | Some sc => Deadline.Schedule s (Deadline.mkTask "mute" (mv_muteID value) (es_Generation sc) (es_Deadline sc))
  | None => s
  end.

(** [runMutation]: the submitted command, over the gate of the target's media. *)
Section Run.
Context (ToUpper : string -> string) (hmac_sha256 : string -> string -> bytes) (signer : RequestIdentitySigner) (IssueStateCursor : Z -> StateVersion -> option string)
  {D : Type} (success_body : D -> option string) (error_code : err -> Z).
Definition runMutation (acquire : World R -> World R * Acquired (W := World R)) (actorID : Z) (command : option (HTTPCommandIdentity * string))
    (response : mutationValue -> Z * D * IdempotencyHeaders) (mutate : mut (mutationValue * bool)) (t : Tx.Tx) (canceled : bool) : PostCommitCommand C (World R) (MutationResult mutationValue) :=
  mutation_command ToUpper hmac_sha256 signer IssueStateCursor success_body error_code acquire actorID command response mutate t canceled.
End Run.

(** ** Expiry *)

Definition nothing : MutationResult mutationValue := mkMutation None (mkStateCommand 0 "" no_checkpoint None).
Definition expired (v : StateVersion) (muteID generation deadline : Z) : option Mute :=
  match MuteExpiry v muteID, getMute v muteID with
  | Some s, Some m => if (es_Generation s =? generation) && (es_Deadline s =? deadline) && bool_decide (mu_ExpiresAt m = Some deadline) then Some m else None
  | _, _ => None
  end.
(** The [Execute] callback of the deadline's control command. *)
Definition Expire (muteID generation deadline : Z) : mut (MutationResult mutationValue) :=
  pv <=~ current ;; let v := pv.2 in
  match expired v muteID generation deadline with
  | None => reply_error (call CallMarkNoop) ;;= mret nothing
  | Some mute =>
      now <=~ stored MuteStore.Now ;;
      if now <? deadline then refuse ErrStaleExpiry
      else begin_tx ;;=
      stored (MuteStore.Delete muteID) ;;= pc <=~ build_candidate ;;
      let candidate := IncrementModerationEpoch (ClearMuteExpiry pc.2 muteID) in
      events <=~ encoded (muteRemovedEvents (mu_Scope mute) (version candidate)) ;;
      reserveAllUsers pc.1 candidate events ;;= commit CallCommit ;;= mret nothing
  end.
(** One command of [RestoreExpiries]. *)
Definition restore_expiry (muteID expiresAt : Z) : mut (MutationResult mutationValue) :=
  pv <=~ current ;;
  sc <=~ schedule_mute (BuildRuntimeCandidate pv.2) muteID expiresAt ;;
  publish_runtime pv.1 sc.2 ;;=
  mret (mkMutation (Some (mkValue None muteID (Some sc.1) false 0)) (mkStateCommand 0 "" no_checkpoint None)).

(** ** List *)

Definition listed (target : Scope) (userID : option Z) (kind : string) (now : Z) (m : Mute) : bool :=
  bool_decide (mu_Scope m = target) && match userID with Some u => mu_UserID m =? u | None => true end &&
  (bool_decide (kind = "") || bool_decide (mu_Kind m = kind)) && negb match mu_ExpiresAt m with Some e => e <=? now | None => false end.
Definition List (v : StateVersion) (now actorID : Z) (scope : ScopeInput) (userID : option Z) (kind : string) (limit offset : Z) : result (option (Page muteResponse)) err :=
  match scopeToRealtime scope with
  | None => Err (Own ErrInvalidMute)
  | Some target => _ <-? authorize actorID target v ;; Ok (paged (muteResponseFromState <$> filter (fun m => listed target userID kind now m = true) (Mutes v)) limit offset)
  end.
End Moderation.
End ModerationService.
