(* ===== verification/ModerationProps.v ===== *)
(** * ModerationProps: mutes keep the state and the tables together, and respect ranks

    Every mutation of [moderation/service.go], and the expiry of mutes. *)

From S2P Require Import Prelude State StateProps StateRing Visibility Rbac Support Cursor Snapshot Lane Connection EventBus EventBusProps.
From S2P Require Import Publication PublicationProps Sequencer Database DatabaseProps Stores Installation InstallationProps Identity Idempotency.
From S2P Require Import Durable DurableProps Events Service ServiceProps ChannelService ChannelProps ModerationService.
From stdpp Require Import base gmap strings list.
From Stdlib Require Import ZArith Lia.
#[local] Open Scope string_scope.
#[local] Open Scope list_scope.
#[local] Open Scope Z_scope.

Module ModerationProps.
Import State StateRing Visibility Permissions Etag Snapshot EventBus Publication Sequencer Database DatabaseProps InstallationProps Identity Idempotency Durable Events
  Service ServiceProps.
Import ChannelService (Unmarshal).
Import ChannelProps (granted, any_state).
Import ModerationService.
Import Stores.Tx (StoreEnv, Act, fault, clock, gen, tx_db, tx_step, next_step).
Import ScopeAuth (Decision, Allow, Visible, DAuthority, Owner, Rank, Decide, AuthorityOf, Authority).
#[local] Open Scope mutation_scope.

Section Sound.
Context `{!StoreEnv, !SqlPrims}.
Lemma sound_mute_Create i : sound (MuteStore.Create i). Proof. unfold MuteStore.Create. store_sound. Qed.
Lemma sound_mute_Update i e r : sound (MuteStore.Update i e r). Proof. unfold MuteStore.Update. store_sound. Qed.
Lemma sound_mute_Delete i : sound (MuteStore.Delete i). Proof. unfold MuteStore.Delete. store_sound. Qed.
Lemma still_mute_Count : still MuteStore.CountActive. Proof. unfold MuteStore.CountActive. store_still. Qed.
Lemma still_mute_Now : still MuteStore.Now. Proof. apply still_now. Qed.
End Sound.
#[export] Hint Resolve sound_mute_Create sound_mute_Update sound_mute_Delete still_mute_Count still_mute_Now : store.

(** ** What a mutation checks *)

Section Checks.
Context `{!ConfigJson}.
(** The target exists, is someone else, is not the owner and ranks below the actor. *)
Definition outranks (actorID targetID : Z) (scope : Scope) (v : StateVersion) : Prop :=
  targetID <> actorID /\ is_Some (getUser v targetID) /\ exists a b, AuthorityOf Unmarshal actorID scope (Some v) = Ok a /\
    AuthorityOf Unmarshal targetID scope (Some v) = Ok b /\ Owner b = false /\ Rank b < Rank a.
Definition may_mute (actorID targetID : Z) (scope : Scope) (v : StateVersion) : Prop :=
  granted actorID scope PermMemberMute v /\ outranks actorID targetID scope v.

Inductive MuteMutation :=
  | MCreateMute (target : Scope) (i : CreateInput)
  | MUpdateMute (muteID : Z) (etag : string) (i : UpdateInput)
  | MDeleteMute (muteID : Z) (etag : string).
Definition mute_allowed (actorID : Z) (m : MuteMutation) (v : StateVersion) : Prop :=
  match m with
  | MCreateMute target i => may_mute actorID (ci_UserID i) target v /\ matchingMute v target (ci_UserID i) (ci_Kind i) = None
  | MUpdateMute id etag _ | MDeleteMute id etag =>
      exists mu, getMute v id = Some mu /\ NumericEntityETag "mute" (mu_ID mu) (mu_Version mu) = Ok etag /\ may_mute actorID (mu_UserID mu) (mu_Scope mu) v
  end.

Lemma Decide_authority u target permission v d : Decide Unmarshal u target permission (Some v) = Ok d -> Allow d = true ->
  AuthorityOf Unmarshal u target (Some v) = Ok (DAuthority d).
Proof.
  unfold Decide. destruct (_ || _); [by intros [= <-]|]. case_bool_decide; [by intros [= <-]|]. destruct (negb _); [by intros [= <-]|].
  intros (a & Ha & Hr)%rbind_Ok. destruct (negb _); [by injection Hr as <-|]. destruct (_ || _); injection Hr as <-; [done|by intros [=]].
Qed.
Lemma authorize_checked actorID target v d : authorize actorID target v = Ok d ->
  granted actorID target PermMemberMute v /\ AuthorityOf Unmarshal actorID target (Some v) = Ok (DAuthority d).
Proof.
  unfold authorize. destruct (getUser v actorID) as [u|] eqn:Eu; [|done]. destruct (us_Banned u) eqn:Eb; [done|].
  destruct (Decide _ _ _ _ _) as [d'|] eqn:Ed; [|done]. destruct (negb (Visible d')); [done|]. destruct (Allow d') eqn:Ea; [|done]. intros [= ->].
  split; [by exists u, d|by eapply Decide_authority].
Qed.
Lemma protected_checked actorID targetID target actor v x : protectTarget actorID targetID target actor v = Ok x ->
  AuthorityOf Unmarshal actorID target (Some v) = Ok actor -> outranks actorID targetID target v.
Proof.
  unfold protectTarget, outranks. destruct (_ || _) eqn:Eo; [done|]. apply orb_false_iff in Eo as [_ Hne%Z.eqb_neq].
  destruct (getUser v targetID) as [u|]; [|done]. cbn [negb is_some]. destruct (AuthorityOf _ targetID _ _) as [b|]; [|done].
  destruct (Owner b) eqn:Eb; [done|]. cbn [orb]. destruct (Z.leb_spec (Rank actor) (Rank b)); [done|]. intros _ Ha. split_and!; [done|done|]. by exists actor, b.
Qed.
Lemma permitted_mute_checked actorID muteID etag v m : permitted_mute actorID muteID etag v = Ok m -> mute_allowed actorID (MDeleteMute muteID etag) v.
Proof.
  unfold permitted_mute. destruct (getMute v muteID) as [mu|] eqn:Em; [|done]. intros (d & [Hg Ha]%authorize_checked & Hr)%rbind_Ok.
  apply rbind_Ok in Hr as ([] & He & Hr). apply rbind_Ok in Hr as (x & Hp & _). exists mu. split; [done|]. split.
  - unfold muteETagMatches in He. destruct (NumericEntityETag _ _ _); [|done]. case_bool_decide; [by subst|done].
  - split; [done|by eapply protected_checked].
Qed.
End Checks.

(** ** Bodies *)

Section Bodies.
Context {C : Type} `{!StateSink C} {cprims : Cursor.CursorPrims} {pprims : PublicationPrims} {R : Type}.
Context `{!StoreEnv, !SqlPrims, !CommandJson, !ConfigJson, !EventJson}.
Context (jvalid : bytes -> bool) (jmarshal : stateEventEnvelope -> option bytes) (actorID : Z).
#[local] Abbreviation mut := (Mut C R mutationValue ModerationError).
#[local] Abbreviation faithful := (faithful (C := C) (R := R) jvalid jmarshal).

Ltac body := unfold in_future, refuse, schedule_mute, candidate_mute, reserveAllUsers; body_run.
Lemma Create_faithful target i : faithful (of_state (mute_allowed actorID (MCreateMute target i))) (Create actorID target i).
Proof.
  unfold Create. body; cbn; (split; [|by destruct (matchingMute _ _ _ _)]).
  all: match goal with Ha : authorize _ _ _ = Ok _, Hp : protectTarget _ _ _ _ _ = Ok _ |- _ => apply authorize_checked in Ha as [Hg Ha]; split; [done|by eapply protected_checked] end.
Qed.
Lemma Update_faithful m etag i : faithful (of_state (mute_allowed actorID (MUpdateMute m etag i))) (Update actorID m etag i).
Proof. unfold Update. body; by eapply permitted_mute_checked. Qed.
Lemma Delete_faithful m etag : faithful (of_state (mute_allowed actorID (MDeleteMute m etag))) (Delete actorID m etag).
Proof. unfold Delete. body; by eapply permitted_mute_checked. Qed.

Definition mute_body_of (m : MuteMutation) : mut (mutationValue * bool) :=
  match m with
  | MCreateMute target i => Create actorID target i
  | MUpdateMute id etag i => Update actorID id etag i
  | MDeleteMute id etag => Delete actorID id etag
  end.
Lemma mute_faithful m : faithful (of_state (mute_allowed actorID m)) (mute_body_of m).
Proof. destruct m; [apply Create_faithful|apply Update_faithful|apply Delete_faithful]. Qed.

(** *** Expiry *)

#[local] Abbreviation triple := (triple (C := C) (R := R) (V := mutationValue) (E := ModerationError) jvalid jmarshal).
#[local] Abbreviation pub := (StatePublication C (World R)).
Section Scheduled.
Context (p0 : pub) (id : Z) (Hu : pb_locked p0 = false) (Hm : mirror p0).
#[local] Abbreviation e0 := (with_id (new_execution (W := World R)) id).
#[local] Abbreviation start := (started p0 e0 (w_db (pb_world p0))).
#[local] Abbreviation finish := (finished (V := mutationValue) (E := ModerationError) (of_state any_state) p0 id (w_db (pb_world p0))).
Definition expire_mute_body (muteID : Z) (mute : Mute) : mut (unit * bool) :=
  stored (MuteStore.Delete muteID) ;;= pc <=~ build_candidate ;;
  let candidate := IncrementModerationEpoch (ClearMuteExpiry pc.2 muteID) in
  events <=~ encoded (muteRemovedEvents (mu_Scope mute) (version candidate)) ;;
  reserveAllUsers pc.1 candidate events ;;= mret (tt, false).
Lemma expire_mute_faithful muteID mute : triple start (expire_mute_body muteID mute) (body_post p0 e0 (w_db (pb_world p0)) (fun noop => noop = false)).
Proof. destruct Hm as [Hd Hds]. unfold expire_mute_body, reserveAllUsers. by repeat body_step. Qed.
Lemma Expire_run muteID generation deadline : triple start (Expire muteID generation deadline) finish.
Proof.
  unfold Expire, refuse. apply t_look. cbn [snd]. destruct (expired _ _ _ _) as [mute|]; [|by apply t_nothing].
  apply t_now. intros t. destruct (t <? deadline); [apply t_give_up|]. apply t_begin; [|done].
  change (triple start (mbind (expire_mute_body muteID mute) (fun _ => mbind (commit CallCommit) (fun _ => mret nothing))) finish).
  apply t_written; [done|apply expire_mute_faithful].
Qed.
Lemma restore_expiry_run muteID expiresAt : triple start (restore_expiry muteID expiresAt) finish.
Proof.
  unfold restore_expiry, schedule_mute. apply t_look. cbn [fst snd].
  destruct (ScheduleMuteExpiry _ _ _) as [[schedule c]|] eqn:Es; [|apply t_give_up].
  pose proof (rows_mute (BuildRuntimeCandidate (pb_current p0)) _ _ _ _ _ Es (reflexivity _)) as [Er _].
  refine (t_runtime _ _ _ p0 id _ Hu c _ _ _); [done|]. right. by exists (w_db (pb_world p0)).
Qed.
End Scheduled.

(** ** Commands *)

Context (juser : SnapshotUserPresence -> option bytes) {G : Type} (idNext : G -> result Z unit * G).
Context (ToUpper : string -> string) (hmac : string -> string -> bytes) (signer : RequestIdentitySigner).
Context (IssueStateCursor : Z -> StateVersion -> option string) {D : Type} (success_body : D -> option string) (error_code : ServiceError ModerationError -> Z).
#[local] Abbreviation execute := (execute jvalid jmarshal juser idNext).

(** C8: a mute mutation respects ranks and keeps the state and the tables
    together.  Whatever the driver, the clock and the codecs do, the command of
    a creation, a change or a removal never blocks, and unless it stops the
    sequencer it leaves the state mirroring the tables.  An error leaves both
    as they were.  A value that is not a replay means that the actor was
    unbanned and granted [member.mute] at the mute's scope, that the target is
    another user who is not the owner and ranks strictly below the actor there,
    and that the mute did not exist yet, or was named by its current version. *)
Theorem mute_mutation_mirror acquire command response m t canceled (p : pub) g : keeps_db (Some acquire) -> pb_locked p = false -> mirror p ->
  tx_db t = w_db (pb_world p) ->
  exists o, execute (runMutation ToUpper hmac signer IssueStateCursor success_body error_code acquire actorID command response (mute_body_of m) t canceled) p g = Some o /\
    match oc_fail o with
    | Some _ => exists er, oc_reply o = Err er
    | None => pb_locked (oc_pub o) = false /\ mirror (oc_pub o) /\
        match oc_reply o with
        | Err _ => w_db (pb_world (oc_pub o)) = w_db (pb_world p) /\ pb_current (oc_pub o) = pb_current p
        | Ok c => mr_value (cc_Value c) = None \/ mute_allowed actorID m (pb_current p)
        end
    end.
Proof.
  intros Ha Hu Hm Ht. edestruct (mutation_settles jvalid jmarshal juser ToUpper hmac signer IssueStateCursor success_body error_code
    (of_state (mute_allowed actorID m)) idNext acquire actorID command response) as (o & Ho & Hs); [apply mute_faithful|done..|].
  exists o. split; [exact Ho|]. by apply settled_iff in Hs.
Qed.
(** the scheduled commands of mutes, their expiry and its restoration when the
    service starts, keep the state mirroring the tables. *)
Theorem mute_schedule_mirror acquire body t size c1 c2 c3 (p : pub) g :
  (exists muteID generation deadline, body = (fun _ => Expire muteID generation deadline)) \/ (exists muteID expiresAt, body = fun _ => restore_expiry muteID expiresAt) ->
  keeps_db acquire -> pb_locked p = false -> mirror p -> tx_db t = w_db (pb_world p) ->
  exists o, execute (mkCommand size 0 acquire (fun id => to_script error_code (body id) t) c1 c2 c3) p g = Some o /\ settled (of_state any_state) p o.
Proof.
  intros Hb Ha Hu Hm Ht. eapply (command_settles (V := mutationValue)); [|done..]. intros p0 id Hu0 Hm0.
  destruct Hb as [(c & gn & dl & ->)|(c & x & ->)]; [by apply Expire_run|by apply restore_expiry_run].
Qed.
End Bodies.

(** ** The owner mutes a member *)

#[local] Existing Instance EventBusProps.ex_prims.
#[local] Existing Instance PublicationProps.ex_pprims.
#[local] Existing Instance demo_env.
#[local] Existing Instance sample_prims.
#[local] Existing Instance DurableProps.demo_json.
#[local] Existing Instance ChannelProps.demo_config.
#[local] Existing Instance ChannelProps.demo_events.
Definition demo_mute : MuteMutation := MCreateMute server_scope (mkCreate (mkScopeInput "server" None) 8 "voice" None "noise").
Definition demo_mute_command : PostCommitCommand EventBusProps.webSocketSyncConnection (World unit) (MutationResult mutationValue) :=
  runMutation (fun s => s) (fun _ _ => []) (mkSigner "") (fun _ _ => Some "cursor") (fun _ : unit => Some "{}") (fun _ => 0) ChannelProps.demo_acquire 7 None
    (fun _ => (200, tt, no_headers)) (mute_body_of 7 demo_mute) ChannelProps.lobby_tx false.
Lemma mute_mutation_mirror_witness : exists o, Sequencer.execute PublicationProps.ok_json PublicationProps.ok_marshal (fun _ => Some [1]) (fun g : Z => (Ok (g + 1), g + 1))
    demo_mute_command ChannelProps.demo_pub 500 = Some o /\ mirror (oc_pub o) /\
  map_to_list (State.mr_UserID <$> t_mutes (w_db (pb_world (oc_pub o)))) = [(100, 8)] /\ mute_allowed 7 demo_mute (pb_current ChannelProps.demo_pub).
Proof.
  destruct (mute_mutation_mirror PublicationProps.ok_json PublicationProps.ok_marshal 7 (fun _ => Some [1]) (fun g : Z => (Ok (g + 1), g + 1))
    (fun s => s) (fun _ _ => []) (mkSigner "") (fun _ _ => Some "cursor") (fun _ : unit => Some "{}") (fun _ => 0)
    ChannelProps.demo_acquire None (fun _ => (200, tt, no_headers)) demo_mute ChannelProps.lobby_tx false ChannelProps.demo_pub 500 ChannelProps.demo_keeps eq_refl
    ChannelProps.demo_mirror eq_refl) as (o & Ho & Hs).
  exists o. split; [exact Ho|].
  assert (Hx : (fun o => (oc_fail o, match oc_reply o with Ok c => match mr_value (cc_Value c) with Some _ => true | None => false end | Err _ => false end,
      map_to_list (State.mr_UserID <$> t_mutes (w_db (pb_world (oc_pub o)))))) <$>
      Sequencer.execute PublicationProps.ok_json PublicationProps.ok_marshal (fun _ => Some [1]) (fun g : Z => (Ok (g + 1), g + 1)) demo_mute_command ChannelProps.demo_pub 500
    = Some (None, true, [(100, 8)])) by (vm_compute; reflexivity).
  unfold demo_mute_command in Hx. rewrite Ho in Hx. injection Hx as E1 E2 E3. rewrite E1 in Hs. destruct Hs as (_ & Hm & Hr). split; [exact Hm|]. split; [exact E3|].
  destruct (oc_reply o) as [c|]; [|discriminate E2]. destruct (mr_value (cc_Value c)); [|discriminate E2]. destruct Hr as [Hr|Hr]; [discriminate Hr|exact Hr].
Defined.
End ModerationProps.
