(* ===== verification/ControlService.v ===== *)
(** * ControlService: roles, bindings, permission configurations, owner transfer
    ([rbac/control])

    Each mutation is a program over the transaction that ends in a value and the
    change to announce; [runMutation] builds the candidate, its events and the
    voice access it costs, and reserves them.  The cache of principals, which a
    commit invalidates, is outside. *)

From S2P Require Import Prelude State StateRing Visibility Rbac Support Cursor Snapshot Lane Connection EventBus Publication Sequencer Database.
From S2P Require Import Stores Installation Identity Idempotency Durable Events Service ChannelService.
From stdpp Require Import base gmap strings list pretty.
From Stdlib Require Import ZArith.
#[local] Open Scope string_scope.
#[local] Open Scope list_scope.
#[local] Open Scope Z_scope.

Module ControlService.
Import Stores.Tx.
Import State StateRing Visibility Permissions Etag Snapshot Publication Sequencer Database Identity Idempotency Durable Events Service.
Import ChannelService (Unmarshal).
Import ConfigStore (ConfigScope, mkConfigScope, cs_Type, cs_ID, EffectiveConfig, mkEffective, ec_Scope, ec_Local, ec_Source).
#[local] Open Scope mutation_scope.

Definition PermRoleManage : string := "role.manage".
Definition PermServerManage : string := "server.manage".
Definition OwnerRank : Z := 1000000.

Inductive ControlError :=
  | ErrInvalidRoleKey | ErrRankProtected | ErrImmutableRole | ErrBuiltinRole | ErrInvalidScope | ErrManagementLost | ErrRoleManageRequired | ErrPreconditionFailed
  | ErrMissingChange | ErrEvents.

Record StateChange := mkChange {
  sg_EventType : string; sg_RoleKey : string; sg_UserIDs : list Z; sg_Scope : Scope; sg_PreviousOwnerID : Z; sg_NewOwnerID : Z; sg_ModerationScopes : list Scope
}.
(** The zero [Scope] and the zero [StateChange] of a no-op. *)
Definition no_scope : Scope := mkScope "" 0.
Definition no_change : StateChange := mkChange "" "" [] no_scope 0 0 [].
Definition role_change (eventType key : string) (userIDs : list Z) : StateChange := mkChange eventType key userIDs no_scope 0 0 [].
Definition scope_change (eventType : string) (userIDs : list Z) (scope : Scope) : StateChange := mkChange eventType "" userIDs scope 0 0 [].

Record BindingInput := mkBindingInput { bi_UserID : Z; bi_RoleKey : string; bi_ScopeType : string; bi_ScopeID : option Z }.
(** The values of [mutationResult]. *)
Inductive ControlValue :=
  | VNil | VRole (r : RoleRow) | VBinding (b : BindingRow) (created : bool) | VConfig (c : EffectiveConfig) (etag : string).

(** ** Helpers *)

Fixpoint unique {A} `{EqDecision A} (seen : list A) (l : list A) : list A :=
  match l with [] => [] | x :: l => if bool_decide (x ∈ seen) then unique seen l else x :: unique (x :: seen) l end.
Definition uniqueScopes (l : list Scope) : list Scope := unique [] l.
Definition uniqueUserIDs (l : list Z) : list Z := sort_by id (unique [] (filter (fun u => 0 < u) l)).
Definition muteScopesForUser (v : StateVersion) (userID : Z) : list Scope :=
  if userID <=? 0 then [] else unique [] (mu_Scope <$> filter (fun m => mu_UserID m = userID) (Mutes v)).
Definition validateScopeShape (i : BindingInput) : bool :=
  if bool_decide (bi_ScopeType i = "server") then is_none (bi_ScopeID i)
  else (bool_decide (bi_ScopeType i = "group") || bool_decide (bi_ScopeType i = "channel")) && match bi_ScopeID i with Some s => 0 <? s | None => false end.
Definition scopeIDs (i : BindingInput) : option Z * option Z :=
  if bool_decide (bi_ScopeType i = "group") then (bi_ScopeID i, None) else if bool_decide (bi_ScopeType i = "channel") then (None, bi_ScopeID i) else (None, None).
Definition realtimeScope (s : ConfigScope) : Scope :=
  if bool_decide (cs_Type s = "server") then server_scope else match cs_ID s with Some id => mkScope (cs_Type s) id | None => no_scope end.
Definition bindingScope (b : BindingRow) : Scope :=
  if bool_decide (br_ScopeType b = "server") then server_scope
  else match br_GroupID b, br_ChannelID b with
  | Some g, c => if bool_decide (br_ScopeType b = "group") then group_scope g
                 else match c with Some c => if bool_decide (br_ScopeType b = "channel") then channel_scope c else no_scope | None => no_scope end
  | None, Some c => if bool_decide (br_ScopeType b = "channel") then channel_scope c else no_scope
  | None, None => no_scope
  end.
Definition bindingScopeFromInput (i : BindingInput) : Scope :=
  if bool_decide (bi_ScopeType i = "server") then server_scope else match bi_ScopeID i with Some s => mkScope (bi_ScopeType i) s | None => no_scope end.
Definition configScopeToRealtime (s : ConfigScope) : option Scope :=
  match cs_ID s with
  | None => if bool_decide (cs_Type s = "server") then Some server_scope else None
  | Some id => if (bool_decide (cs_Type s = "group") || bool_decide (cs_Type s = "channel")) && (0 <? id) then Some (mkScope (cs_Type s) id) else None
  end.
Definition configRowFromState (c : PermissionConfig) : ConfigRow :=
  let s := pc_Scope c in
  mkConfigRow (sc_Type s) (if bool_decide (sc_Type s = "group") then Some (sc_ID s) else None) (if bool_decide (sc_Type s = "channel") then Some (sc_ID s) else None)
    (pc_Config c) (pc_UpdatedAt c) (pc_Version c).
Definition configRowScope (c : ConfigRow) : option Scope :=
  match cf_GroupID c, cf_ChannelID c with
  | None, None => if bool_decide (cf_ScopeType c = "server") then Some server_scope else None
  | Some g, None => if bool_decide (cf_ScopeType c = "group") && (0 <? g) then Some (group_scope g) else None
  | None, Some ch => if bool_decide (cf_ScopeType c = "channel") && (0 <? ch) then Some (channel_scope ch) else None
  | Some _, Some _ => None
  end.

(** ** Authority in the transaction *)

Record authority_t := mkAuthority { au_rank : Z; au_owner : bool }.

Section Read.
Context `{!StoreEnv, !SqlPrims, !ConfigJson}.
#[local] Open Scope store_scope.
Fixpoint authority_loop (bindings : list BindingRow) (got : authority_t) : Store authority_t :=
  match bindings with
  | [] => Tx.ret got
  | b :: bindings =>
      if negb (bool_decide (br_ScopeType b = "server")) then authority_loop bindings got
      else role <~ RoleStore.Get (br_RoleKey b) ;;
           authority_loop bindings (mkAuthority (if au_rank got <? rr_Rank role then rr_Rank role else au_rank got) (au_owner got || bool_decide (rr_Key role = "owner")))
  end.
Definition authority (userID : Z) : Store authority_t :=
  UserStore.GetByID userID ;;~ bindings <~ RoleStore.ListBindings userID ;; authority_loop bindings (mkAuthority (-1) false).

(** The server grants of the user's bindings up to an owner binding. *)
Fixpoint granted_permissions (grants : gmap string (list string)) (bindings : list BindingRow) (acc : gset string) : gset string * bool :=
  match bindings with
  | [] => (acc, false)
  | b :: bindings =>
      if negb (bool_decide (br_ScopeType b = "server")) then granted_permissions grants bindings acc
      else if bool_decide (br_RoleKey b = "owner") then (acc, true)
      else granted_permissions grants bindings (acc ∪ list_to_set (default [] (grants !! br_RoleKey b)))
  end.
Definition actorPermissionsForConfig (userID : Z) (raw : string) : Store (gset string * bool) :=
  bindings <~ RoleStore.ListBindings userID ;;
  match json_config raw with
  | None => Tx.throw Tx.ErrDecode
  | Some grants => Tx.ret (granted_permissions (default ∅ grants) bindings ∅)
  end.
Definition actorPermissions (userID : Z) : Store (gset string * bool) := config <~ ConfigStore.Server ;; actorPermissionsForConfig userID config.

Definition binding_matches (i : BindingInput) (b : BindingRow) : bool :=
  bool_decide (br_RoleKey b = bi_RoleKey i) && bool_decide (br_ScopeType b = bi_ScopeType i) &&
  (bool_decide (bi_ScopeType i = "server") ||
   (bool_decide (bi_ScopeType i = "group") && match br_GroupID b, bi_ScopeID i with Some g, Some s => g =? s | _, _ => false end) ||
   (bool_decide (bi_ScopeType i = "channel") && match br_ChannelID b, bi_ScopeID i with Some c, Some s => c =? s | _, _ => false end)).
Definition matchingBinding (i : BindingInput) : Store (option BindingRow) :=
  bindings <~ RoleStore.ListBindings (bi_UserID i) ;; Tx.ret (List.find (binding_matches i) bindings).
(** [validateScope], for an input of a valid shape. *)
Definition validateScope (i : BindingInput) : Store unit :=
  match bi_ScopeID i with
  | Some s => if bool_decide (bi_ScopeType i = "group") then ChannelStore.GetGroup s ;;~ Tx.ret tt
              else if bool_decide (bi_ScopeType i = "channel") then ChannelStore.Get s ;;~ Tx.ret tt else Tx.ret tt
  | None => Tx.ret tt
  end.
(** [usersWithBindings]: whose locks a change of roles takes. *)
Definition usersWithBindings (actorID : Z) : Store (list Z) := l <~ RoleStore.ListUsersWithBindings ;; Tx.ret (uniqueUserIDs (l ++ [actorID])).

(** [ListBindings]. *)
Fixpoint manageable (actor : authority_t) (bindings : list BindingRow) : Store (list BindingRow) :=
  match bindings with
  | [] => Tx.ret []
  | b :: bindings => target <~ authority (br_UserID b) ;; rest <~ manageable actor bindings ;; Tx.ret (if au_rank target <? au_rank actor then b :: rest else rest)
  end.
Definition ListBindings (actorID limit offset : Z) : Store (list BindingRow) :=
  actor <~ authority actorID ;; bindings <~ RoleStore.ListAllBindings limit offset ;; if au_owner actor then Tx.ret bindings else manageable actor bindings.
Definition ListRoles : Store (list RoleRow) := RoleStore.List.
End Read.

Section Control.
Context {C R : Type} `{!StoreEnv, !SqlPrims, !CommandJson, !ConfigJson, !EventJson, !VoiceRuntime R}.
(** Voice, the snapshot's decoder of configurations and version text, and the parts of a configuration's tag. *)
Context (voice_configured : bool) (voiceNow : Z) (grants : string -> option (gmap string (list string))) (version_text : string)
  (canonicalJSON : string -> option string) (digest : string -> string).
#[local] Abbreviation err := (ServiceError ControlError).
#[local] Abbreviation mut := (Mut C R ControlValue ControlError).
#[local] Abbreviation outcome := (ControlValue * StateChange * bool)%type.

Definition refuse {A} (e : ControlError) : mut A := mthrow (Own e).
Definition changed (v : ControlValue) (c : StateChange) : mut outcome := mret (v, c, false).
Definition unchanged (v : ControlValue) : mut outcome := mret (v, no_change, true).

Definition requireRoleManage (actorID : Z) : mut unit :=
  po <=~ stored (actorPermissions actorID) ;;
  if po.2 then mret tt else if bool_decide (PermRoleManage ∈ po.1) then mret tt else refuse ErrRoleManageRequired.

(** ** Roles *)

Definition role_key_ok (key : string) : bool := roleKeyPattern key && negb (bool_decide (key ∈ ["owner"; "admin"; "member"])).
Definition CreateRole (actorID : Z) (key displayName : string) (rank : Z) : mut outcome :=
  requireRoleManage actorID ;;=
  a <=~ stored (authority actorID) ;;
  if (rank <? 0) || (au_rank a <=? rank) || (OwnerRank <=? rank) then refuse ErrRankProtected
  else role <=~ stored (RoleStore.Create key displayName rank) ;; changed (VRole role) (role_change "rbac.role.created" (rr_Key role) []).

(** What [UpdateRole] checks of the role and the actor. *)
Definition role_guard (a : authority_t) (role : RoleRow) (rank : option Z) : result unit err :=
  if bool_decide (rr_Key role = "owner") then if negb (au_owner a) || is_some rank then Err (Own ErrImmutableRole) else Ok tt
  else if au_rank a <=? rr_Rank role then Err (Own ErrRankProtected) else Ok tt.
Definition UpdateRole (actorID : Z) (userIDs : list Z) (key : string) (displayName : option string) (rank : option Z) : mut outcome :=
  requireRoleManage actorID ;;=
  role <=~ stored (RoleStore.Get key) ;;
  a <=~ stored (authority actorID) ;;
  ensure (role_guard a role rank) ;;=
  let newDisplayName := default (rr_DisplayName role) displayName in
  let newRank := default (rr_Rank role) rank in
  if (newRank <? 0) || (OwnerRank <=? newRank) || (negb (bool_decide (rr_Key role = "owner")) && (au_rank a <=? newRank)) then refuse ErrRankProtected
  else if bool_decide (newDisplayName = rr_DisplayName role) && (newRank =? rr_Rank role) then unchanged (VRole role)
  else updated <=~ stored (RoleStore.Update key newDisplayName newRank) ;; changed (VRole updated) (role_change "rbac.role.updated" (rr_Key updated) userIDs).

Definition DeleteRole (actorID : Z) (userIDs : list Z) (key : string) : mut outcome :=
  requireRoleManage actorID ;;=
  role <=~ stored (RoleStore.Get key) ;;
  if negb (rr_Builtin role =? 0) then refuse ErrBuiltinRole
  else a <=~ stored (authority actorID) ;;
  if au_rank a <=? rr_Rank role then refuse ErrRankProtected
  else stored (RoleStore.Delete key) ;;= changed VNil (role_change "rbac.role.deleted" key userIDs).

(** ** Bindings *)

Definition checkBindingAuthority (actorID : Z) (i : BindingInput) : mut unit :=
  actor <=~ stored (authority actorID) ;; target <=~ stored (authority (bi_UserID i)) ;; role <=~ stored (RoleStore.Get (bi_RoleKey i)) ;;
  if (au_rank actor <=? au_rank target) || (au_rank actor <=? rr_Rank role) then refuse ErrRankProtected else mret tt.
(** [CreateBinding] refuses a bad shape and the owner role before it submits a command. *)
Definition createBinding_input (i : BindingInput) : bool := validateScopeShape i && negb (bool_decide (bi_RoleKey i = "owner")).
Definition CreateBinding (actorID : Z) (i : BindingInput) : mut outcome :=
  requireRoleManage actorID ;;= stored (validateScope i) ;;= checkBindingAuthority actorID i ;;=
  existing <=~ stored (matchingBinding i) ;;
  match existing with
  | Some b => unchanged (VBinding b false)
  | None =>
      r <=~ stored (attempt (RoleStore.InsertBinding (bi_UserID i) (bi_RoleKey i) (bi_ScopeType i) (scopeIDs i).1 (scopeIDs i).2)) ;;
      match r with
      | Ok b => changed (VBinding b true) (scope_change "rbac.binding.updated" [bi_UserID i] (bindingScopeFromInput i))
      | Err Tx.ErrConflict =>
          existing <=~ stored (matchingBinding i) ;;
          match existing with Some b => unchanged (VBinding b false) | None => mthrow (ErrOfStore Tx.ErrConflict) end
      | Err e => mthrow (ErrOfStore e)
      end
  end.
Definition DeleteBinding (actorID bindingID : Z) : mut outcome :=
  requireRoleManage actorID ;;=
  b <=~ stored (RoleStore.GetBinding bindingID) ;;
  if bool_decide (br_RoleKey b = "owner") then mthrow (ErrOfStore Tx.ErrOwnerBindingProtected)
  else actor <=~ stored (authority actorID) ;; target <=~ stored (authority (br_UserID b)) ;;
  if au_rank actor <=? au_rank target then refuse ErrRankProtected
  else role <=~ stored (RoleStore.Get (br_RoleKey b)) ;;
  if au_rank actor <=? rr_Rank role then refuse ErrRankProtected
  else stored (RoleStore.DeleteBinding bindingID) ;;= changed VNil (scope_change "rbac.binding.updated" [br_UserID b] (bindingScope b)).

Definition TransferOwner (currentUserID targetUserID : Z) : mut outcome :=
  pv <=~ current ;;
  let moderationScopes := muteScopesForUser pv.2 targetUserID in
  stored (Installation.TransferOwnerInTx false currentUserID targetUserID) ;;=
  changed VNil (mkChange "owner.transferred" "" [currentUserID; targetUserID] server_scope currentUserID targetUserID moderationScopes).

(** ** Configurations *)

Definition visibleConfigScope (actorID : Z) (s : ConfigScope) (v : StateVersion) : result ScopeAuth.Authority err :=
  match configScopeToRealtime s with
  | None => Err (Own ErrInvalidScope)
  | Some target =>
      match getUser v actorID with
      | Some u =>
          if us_Banned u then Err (Own ErrRoleManageRequired)
          else match ScopeAuth.AuthorityOf Unmarshal actorID server_scope (Some v) with
          | Err _ => Err ErrOfAuthorizer
          | Ok a =>
              if negb (ScopeAuth.Owner a) &&
                 ((bool_decide (sc_Type target = "group") && negb (CanSeeGroup actorID (sc_ID target) (Some v))) ||
                  (bool_decide (sc_Type target = "channel") && negb (CanAccessChannel actorID (sc_ID target) (Some v))))
              then Err (ErrOfStore Tx.ErrNotFound) else Ok a
          end
      | None => Err (Own ErrRoleManageRequired)
      end
  end.
Definition authorizeConfigScope (actorID : Z) (s : ConfigScope) (v : StateVersion) : result unit err :=
  _ <-? visibleConfigScope actorID s v ;;
  match ScopeAuth.Decide Unmarshal actorID server_scope PermRoleManage (Some v) with
  | Err _ => Err ErrOfAuthorizer
  | Ok d => if negb (ScopeAuth.Allow d) then Err (Own ErrRoleManageRequired) else Ok tt
  end.
Definition effectiveConfigFromState (s : ConfigScope) (v : StateVersion) : result EffectiveConfig err :=
  match configScopeToRealtime s with
  | None => Err (Own ErrInvalidScope)
  | Some target =>
      if (bool_decide (sc_Type target = "group") && negb (is_some (getGroup v (sc_ID target)))) ||
         (bool_decide (sc_Type target = "channel") && negb (is_some (getChannel v (sc_ID target))))
      then Err (ErrOfStore Tx.ErrNotFound)
      else match getConfig v server_scope with
      | None => Err ErrRealtimeUnavailable
      | Some root =>
          match getConfig v target with
          | Some local => Ok (mkEffective s (Some (configRowFromState local)) (configRowFromState local))
          | None =>
              let parent := if bool_decide (sc_Type target = "channel") then c ← getChannel v (sc_ID target); g ← ch_GroupID c; getConfig v (group_scope g) else None in
              Ok (mkEffective s None (configRowFromState (default root parent)))
          end
      end
  end.
Definition effectiveConfigETag (c : EffectiveConfig) : result string err :=
  match configScopeToRealtime (ec_Scope c), configRowScope (ec_Source c) with
  | None, _ => Err (Own ErrInvalidScope)
  | _, None => Err ErrRealtimeUnavailable
  | Some target, Some source =>
      match EffectiveConfigETag canonicalJSON digest (mkConfigInput target (is_some (ec_Local c)) source (cf_Version (ec_Source c)) (cf_Config (ec_Source c))) with
      | Ok t => Ok t
      | Err e => Err (ErrOfETag e)
      end
  end.
Definition GetConfig (v : StateVersion) (actorID : Z) (s : ConfigScope) : result (EffectiveConfig * string) err :=
  _ <-? authorizeConfigScope actorID s v ;; c <-? effectiveConfigFromState s v ;; etag <-? effectiveConfigETag c ;; Ok (c, etag).

Definition ensureManagementRetained (actorID : Z) (before : gset string) : mut unit :=
  after <=~ stored (actorPermissions actorID) ;;
  if after.2 then mret tt
  else if existsb (fun p => bool_decide (p ∈ before) && negb (bool_decide (p ∈ after.1))) [PermRoleManage; PermServerManage] then refuse ErrManagementLost else mret tt.
Definition grants_within (allowed : gset string) (config : gmap string (list string)) : bool :=
  forallb (fun rp => forallb (fun p => (bool_decide (rp.1 = "owner") && bool_decide (p = Wildcard)) || bool_decide (p ∈ allowed)) rp.2) (map_to_list config).
Definition validateGrantedPermissions (raw : string) (allowed : gset string) (owner : bool) : result unit err :=
  if owner then Ok tt
  else match json_config raw with
  | None => Err ErrEncode
  | Some config => if grants_within allowed (default ∅ config) then Ok tt else Err (Own ErrRankProtected)
  end.
(** What both configuration mutations check first. *)
Definition config_head (actorID : Z) (expectedETag : string) (s : ConfigScope) (v : StateVersion) : mut (EffectiveConfig * string * (gset string * bool)) :=
  ensure (visibleConfigScope actorID s v) ;;= requireRoleManage actorID ;;=
  c <=~ ensure (effectiveConfigFromState s v) ;; etag <=~ ensure (effectiveConfigETag c) ;;
  if negb (bool_decide (expectedETag = etag)) then refuse ErrPreconditionFailed
  else po <=~ stored (actorPermissions actorID) ;; mret (c, etag, po).
Definition retained (actorID : Z) (s : ConfigScope) (po : gset string * bool) : mut unit :=
  if bool_decide (cs_Type s = "server") && negb po.2 then ensureManagementRetained actorID po.1 else mret tt.
Definition config_changed (c : EffectiveConfig) (userIDs : list Z) (s : ConfigScope) : mut outcome :=
  etag <=~ ensure (effectiveConfigETag c) ;; changed (VConfig c etag) (scope_change "rbac.config.updated" userIDs (realtimeScope s)).
Definition UpdateConfig (actorID : Z) (userIDs : list Z) (expectedETag : string) (s : ConfigScope) (raw : string) : mut outcome :=
  pv <=~ current ;; h <=~ config_head actorID expectedETag s pv.2 ;; let '(c, etag, po) := h in
  ensure (validateGrantedPermissions raw po.1 po.2) ;;=
  canonical <=~ stored (ConfigStore.Canonicalize (cs_Type s) raw) ;;
  if match ec_Local c with Some l => bool_decide (cf_Config l = canonical) | None => false end then unchanged (VConfig c etag)
  else config <=~ stored (ConfigStore.Update s raw) ;; retained actorID s po ;;= config_changed config userIDs s.
Definition ResetConfig (actorID : Z) (userIDs : list Z) (expectedETag : string) (s : ConfigScope) : mut outcome :=
  pv <=~ current ;; h <=~ config_head actorID expectedETag s pv.2 ;; let '(c, etag, po) := h in
  if negb (bool_decide (cs_Type s = "server")) && negb (is_some (ec_Local c)) then unchanged (VConfig c etag)
  else config <=~ stored (ConfigStore.Reset s) ;;
  ensure (validateGrantedPermissions (cf_Config (ec_Source config)) po.1 po.2) ;;= retained actorID s po ;;= config_changed config userIDs s.

(** ** Events ([events.go]) *)

Definition stateScope_body (s : Scope) : string * string := if bool_decide (sc_Type s = "server") then ("server", "") else (sc_Type s, pretty (sc_ID s)).
Definition event (eventType : string) (scope : Scope) (body : EventBody) : result StateEventTemplate err :=
  match json_body body with Some data => Ok (template eventType scope (Some data) 0 [] 0) | None => Err ErrEncode end.
Definition scope_event (eventType : string) (scope : Scope) (v : StateVersion) : result StateEventTemplate err :=
  let s := stateScope_body scope in event eventType scope (BodyScopeVersion s.1 s.2 (pretty (number v))).
Definition mute_event (v : StateVersion) (acc : list StateEventTemplate) (scope : Scope) : result (list StateEventTemplate) err :=
  let s := stateScope_body scope in e <-? event "moderation.mute.removed" scope (BodyScopeMute s.1 s.2 (pretty (ModerationEpoch v))) ;; Ok (acc ++ [e]).
Definition self_event (v : StateVersion) (acc : list StateEventTemplate) (userID : Z) : result (list StateEventTemplate) err :=
  if negb (is_some (getUser v userID)) then Ok acc
  else match json_body (BodySelf (SnapshotSelfFor grants version_text userID v)) with
       | Some data => Ok (acc ++ [template "self.updated" server_scope (Some data) StateDeliveryUserTargeted [] userID])
       | None => Err ErrEncode
       end.
(** The events of the change itself. *)
Definition change_events (c : StateChange) (v : StateVersion) : result (list StateEventTemplate) err :=
  let ty := sg_EventType c in
  let scope := if Valid (sg_Scope c) then sg_Scope c else server_scope in
  if bool_decide (ty = "rbac.role.created") || bool_decide (ty = "rbac.role.updated") then
    match getRole v (sg_RoleKey c) with
    | None => Err (Own ErrEvents)
    | Some r => e <-? event ty server_scope (BodyRole (mkSRole (ro_Key r) (ro_DisplayName r) (ro_Rank r) (ro_Builtin r))) ;; Ok [e]
    end
  else if bool_decide (ty = "rbac.role.deleted") then e <-? event ty server_scope (BodyRoleRef (sg_RoleKey c)) ;; Ok [e]
  else if bool_decide (ty = "rbac.binding.updated") || bool_decide (ty = "rbac.config.updated") then e <-? scope_event ty scope v ;; Ok [e]
  else if bool_decide (ty = "owner.transferred") then
    if (sg_PreviousOwnerID c <=? 0) || (sg_NewOwnerID c <=? 0) then Err (Own ErrEvents)
    else e <-? event ty server_scope (BodyOwner (pretty (sg_PreviousOwnerID c)) (pretty (sg_NewOwnerID c))) ;;
         b <-? scope_event "rbac.binding.updated" server_scope v ;;
         foldM (mute_event v) [e; b] (uniqueScopes (sg_ModerationScopes c))
  else Err (Own ErrEvents).
Definition StateEventTemplates (c : StateChange) (v : StateVersion) : result (list StateEventTemplate) err :=
  events <-? change_events c v ;; foldM (self_event v) events (uniqueUserIDs (sg_UserIDs c)).

(** ** [runMutation] ([sequencer.go]) *)

(** From the transaction's outcome to the reservation. *)
Definition publish_change (mutate : mut outcome) : mut (ControlValue * bool) :=
  o <=~ mutate ;; let '(value, change, noop) := o in
  if noop then mret (value, true)
  else if bool_decide (sg_EventType change = "") then refuse ErrMissingChange
  else pc <=~ build_candidate ;;
  let candidate := if bool_decide (sg_EventType change = "owner.transferred") && negb (bool_decide (sg_ModerationScopes change = [])) then IncrementModerationEpoch pc.2 else pc.2 in
  events <=~ ensure (StateEventTemplates change (version candidate)) ;;
  pl <=~ ensure (PrepareVoiceAccessLoss voice_configured voiceNow candidate) ;; let '(candidate, voiceEvents, voiceCommit) := pl in
  reserve_candidate pc.1 candidate (voiceEvents ++ events) voiceCommit ;;= mret (value, false).
Section Run.
Context (ToUpper : string -> string) (hmac_sha256 : string -> string -> bytes) (signer : RequestIdentitySigner) (IssueStateCursor : Z -> StateVersion -> option string)
  {D : Type} (success_body : D -> option string) (error_code : err -> Z).
(** The cursor of a durable result is its principal's. *)
Definition runMutation (acquire : World R -> World R * Acquired (W := World R)) (command : option (HTTPCommandIdentity * string))
    (response : ControlValue -> Z * D * IdempotencyHeaders) (mutate : mut outcome) (t : Tx.Tx) (canceled : bool) : PostCommitCommand C (World R) (MutationResult ControlValue) :=
  mutation_command ToUpper hmac_sha256 signer IssueStateCursor success_body error_code acquire
    (match command with Some (identity, _) => hi_PrincipalID identity | None => 0 end) command response (publish_change mutate) t canceled.
End Run.
End Control.
End ControlService.
