(* ===== verification/ControlProps.v ===== *)
(** * ControlProps: role management keeps ranks, and the state and the tables together

    Every mutation of [rbac/control]: what it read in its transaction before it
    wrote, in terms of the rows, and that the published state mirrors what it
    committed. *)

From S2P Require Import Prelude State StateProps StateRing Visibility Rbac Support Cursor Snapshot Lane Connection EventBus EventBusProps.
From S2P Require Import Publication PublicationProps Sequencer Database DatabaseProps Stores Installation InstallationProps Identity Idempotency.
From S2P Require Import Durable DurableProps Events Service ServiceProps ChannelService ChannelProps ControlService.
From stdpp Require Import base gmap strings list sorting.
From Stdlib Require Import ZArith Lia.
#[local] Open Scope string_scope.
#[local] Open Scope list_scope.
#[local] Open Scope Z_scope.

Module ControlProps.
Import State StateRing Visibility Permissions Etag Snapshot EventBus Publication Sequencer Database DatabaseProps InstallationProps Identity Idempotency Durable Events
  Service ServiceProps.
Import ControlService.
Import ConfigStore (ConfigScope, cs_Type, cs_ID, EffectiveConfig, mkEffective, ec_Scope, ec_Local, ec_Source).
Import Stores.Tx (StoreEnv, Act, fault, clock, gen, tx_db, tx_step, next_step).
#[local] Open Scope mutation_scope.

(** ** Store operations *)

Section Sound.
Context `{!StoreEnv, !SqlPrims, !ConfigJson}.
Lemma sound_CreateRole k n r : sound (RoleStore.Create k n r). Proof. unfold RoleStore.Create. store_sound. Qed.
Lemma sound_UpdateRole k n r : sound (RoleStore.Update k n r). Proof. unfold RoleStore.Update. store_sound. Qed.
Lemma sound_DeleteRole k : sound (RoleStore.Delete k). Proof. unfold RoleStore.Delete. store_sound. Qed.
Lemma sound_InsertBinding u r t g c : sound (RoleStore.InsertBinding u r t g c). Proof. unfold RoleStore.InsertBinding, RoleStore.insertBinding. store_sound. Qed.
Lemma sound_DeleteBinding i : sound (RoleStore.DeleteBinding i). Proof. unfold RoleStore.DeleteBinding. store_sound. Qed.
Lemma sound_Transfer c u : sound (Installation.TransferOwnerInTx false c u).
Proof.
  unfold Installation.TransferOwnerInTx, Installation.Get, Installation.require_one_owner, Installation.CountOwners, UserStore.GetByID, RoleStore.insertOwnerBinding, RoleStore.insertBinding.
  store_sound.
Qed.
Lemma sound_ConfigReset s : sound (ConfigStore.Reset s).
Proof.
  unfold ConfigStore.Reset, ConfigStore.ignore_missing, ConfigStore.ResetGroup, ConfigStore.ResetChannel. store_sound; first [apply ChannelProps.sound_ConfigUpdate|apply ChannelProps.sound_Effective].
Qed.
Lemma atomic_InsertBinding u r t g c : atomic (RoleStore.InsertBinding u r t g c).
Proof.
  unfold RoleStore.InsertBinding, RoleStore.insertBinding. case_bool_decide; [apply still_atomic, still_throw|].
  apply atomic_bind; [apply still_nextID|intros i]. apply atomic_bind; [apply still_now|intros x]. apply atomic_query.
Qed.
Lemma still_GetRole k : still (RoleStore.Get k). Proof. apply still_reading. Qed.
Lemma still_GetBinding i : still (RoleStore.GetBinding i). Proof. apply still_reading. Qed.
Lemma still_ListBindings u : still (RoleStore.ListBindings u). Proof. apply still_reading. Qed.
Lemma still_authority u : still (authority u).
Proof.
  unfold authority, UserStore.GetByID. store_still; [apply still_ListBindings|]. generalize (mkAuthority (-1) false).
  induction a0 as [|b l IH]; intros got; cbn [authority_loop]; store_still; [apply IH|apply still_GetRole|apply IH].
Qed.
Lemma still_actorPermissions u : still (actorPermissions u).
Proof. unfold actorPermissions, actorPermissionsForConfig, ConfigStore.Server. store_still. apply still_ListBindings. Qed.
Lemma still_matchingBinding i : still (matchingBinding i). Proof. unfold matchingBinding. store_still. apply still_ListBindings. Qed.
Lemma still_validateScope i : still (validateScope i). Proof. unfold validateScope, ChannelStore.GetGroup, ChannelStore.Get. store_still. Qed.
Lemma still_Canonicalize ty raw : still (ConfigStore.Canonicalize ty raw).
Proof.
  unfold ConfigStore.Canonicalize, ConfigStore.normalize. store_still. generalize (∅ : gmap string (list string)).
  induction (map_to_list _) as [|[k ps] l IH]; intros m; cbn [ConfigStore.normalize_roles]; unfold RoleStore.Get, ConfigStore.lift; store_still. apply IH.
Qed.
End Sound.
#[export] Hint Resolve sound_CreateRole sound_UpdateRole sound_DeleteRole sound_InsertBinding sound_DeleteBinding sound_Transfer sound_ConfigReset ChannelProps.sound_ConfigUpdate atomic_InsertBinding
  still_GetRole still_GetBinding still_authority still_actorPermissions still_matchingBinding still_validateScope still_Canonicalize : store.
#[export] Hint Extern 2 (sound (authority _)) => (apply still_sound; auto with store) : store.
#[export] Hint Extern 2 (sound (actorPermissions _)) => (apply still_sound; auto with store) : store.

(** ** What the reads mean *)

Section Rows.
Context `{!StoreEnv, !SqlPrims, !ConfigJson}.
(** The user's server bindings, the roles they name and what the server grants them. *)
Definition bound (d : Db) (u : Z) (b : BindingRow) : Prop := t_bindings d !! br_ID b = Some b /\ br_UserID b = u /\ br_ScopeType b = "server".
Definition has_role (d : Db) (u : Z) (r : RoleRow) : Prop := exists b, bound d u b /\ t_roles d !! br_RoleKey b = Some r.
Definition is_owner (d : Db) (u : Z) : Prop := exists b, bound d u b /\ br_RoleKey b = "owner".
Definition holds (d : Db) (u : Z) (permission : string) : Prop :=
  exists b row g, bound d u b /\ t_configs d !! server_scope = Some row /\ json_config (cf_Config row) = Some g /\ permission ∈ default [] (default ∅ g !! br_RoleKey b).
Definition manages (d : Db) (u : Z) : Prop := is_owner d u \/ holds d u PermRoleManage.
(** The user has a server role above a rank, above every server role of another user. *)
Definition above (d : Db) (u rank : Z) : Prop := exists r, has_role d u r /\ rank < rr_Rank r.
Definition above_user (d : Db) (u w : Z) : Prop := exists r, has_role d u r /\ forall r', has_role d w r' -> rr_Rank r' < rr_Rank r.

Record ranked (d : Db) (u : Z) (a : authority_t) : Prop := {
  rk_all : forall r, has_role d u r -> rr_Rank r <= au_rank a;
  rk_some : au_rank a = -1 \/ exists r, has_role d u r /\ rr_Rank r = au_rank a
}.
Lemma ranked_above d u a n : ranked d u a -> -1 <= n -> n < au_rank a -> above d u n.
Proof. intros [_ [E|(r & Hr & E)]] Hn Hl; [lia|]. exists r. split; [done|lia]. Qed.
Lemma role_rank d k r : db_ok d -> t_roles d !! k = Some r -> rr_Key r = k /\ 0 <= rr_Rank r /\ (k = "owner" -> rr_Rank r = OwnerRank).
Proof.
  intros Hd Hr. destruct (to_row _ _ _ _ (ok_roles _ Hd) _ _ Hr) as [Hk Hc]. split; [done|]. unfold check_role in Hc.
  apply andb_true_iff in Hc as [Hc Ho]. do 5 apply andb_true_iff in Hc as [Hc _]. apply andb_true_iff in Hc as [_ Hb].
  unfold between in Hb. rewrite andb_true_iff, !Z.leb_le in Hb. split; [tauto|]. intros ->. rewrite bool_decide_true, !andb_true_iff, Z.eqb_eq in Ho by done. tauto.
Qed.
Lemma ranked_user d u w a b : db_ok d -> ranked d u a -> ranked d w b -> au_rank b < au_rank a -> above_user d u w.
Proof.
  intros Hd [_ Ha] [Hb Hb'] Hl. destruct Ha as [E|(r & Hr & E)].
  - destruct Hb' as [E'|(r & (x & _ & Hx) & E')]; [lia|]. apply role_rank in Hx; [lia|done].
  - exists r. split; [done|]. intros r' Hr'%Hb. lia.
Qed.

Lemma ListBindings_run u d l : db_ok d -> run_at (RoleStore.ListBindings u) d l -> forall b, b ∈ l <-> t_bindings d !! br_ID b = Some b /\ br_UserID b = u.
Proof.
  intros Hd (t & t' & <- & Hr). unfold RoleStore.ListBindings, ListRoleBindingsForUser in Hr. apply reading_Ok in Hr as [[= <-] _]. intros b.
  rewrite merge_sort_Permutation, list_elem_of_filter, (elem_of_list_rows _ _ _ _ (ok_bindings _ Hd)). tauto.
Qed.
Lemma run_bind {E A B} (m : Act E A) (f : A -> Act E B) d b : still m -> run_at (Tx.bind m f) d b -> exists a, run_at m d a /\ run_at (f a) d b.
Proof. intros Hm (t & t' & <- & (a & t1 & H1' & H2')%bind_Ok). exists a. split; [by exists t, t1|]. exists t1, t'. split; [|done]. specialize (Hm t). by rewrite H1' in Hm. Qed.
Lemma GetRole_run k d r : run_at (RoleStore.Get k) d r -> t_roles d !! k = Some r.
Proof.
  intros (t & t' & <- & Hr). unfold RoleStore.Get, GetRoleByKey in Hr. apply reading_Ok in Hr as [Hr _]. unfold get_row in Hr. destruct (t_roles _ !! k); [|done]. by injection Hr as ->.
Qed.
Lemma GetBinding_run i d b : run_at (RoleStore.GetBinding i) d b -> t_bindings d !! i = Some b.
Proof.
  intros (t & t' & <- & Hr). unfold RoleStore.GetBinding, GetRoleBindingByID in Hr. apply reading_Ok in Hr as [Hr _]. unfold get_row in Hr.
  destruct (t_bindings _ !! i); [|done]. by injection Hr as ->.
Qed.
(** The loop keeps the maximum of the ranks it saw. *)
Lemma authority_loop_run d l got a : run_at (authority_loop l got) d a ->
  au_rank got <= au_rank a /\ (forall b r, b ∈ l -> br_ScopeType b = "server" -> t_roles d !! br_RoleKey b = Some r -> rr_Rank r <= au_rank a) /\
  (au_rank a = au_rank got \/ exists b r, b ∈ l /\ br_ScopeType b = "server" /\ t_roles d !! br_RoleKey b = Some r /\ rr_Rank r = au_rank a).
Proof.
  revert got. induction l as [|b l IH]; intros got Hr; cbn [authority_loop] in Hr.
  - destruct Hr as (t & t' & _ & [= <- _]). split; [done|]. split; [by intros b r ?%elem_of_nil|by left].
  - case_bool_decide as Es; cbn [negb] in Hr.
    + apply run_bind in Hr as (role & Hrole%GetRole_run & Hr); [|apply still_GetRole]. apply IH in Hr as (L1 & L2 & L3). cbn in L1, L3.
      destruct (Z.ltb_spec (au_rank got) (rr_Rank role)).
      * split; [lia|]. split; [intros b' r [->|Hb]%elem_of_cons Hs Ht; [rewrite Ht in Hrole; injection Hrole as ->; lia|by eapply L2]|].
        destruct L3 as [L3|(b' & r & ? & ? & ? & ?)]; right; [exists b, role|exists b', r]; split_and!; try done; [by constructor|by constructor].
      * split; [lia|]. split; [intros b' r [->|Hb]%elem_of_cons Hs Ht; [rewrite Ht in Hrole; injection Hrole as ->; lia|by eapply L2]|].
        destruct L3 as [L3|(b' & r & ? & ? & ? & ?)]; [by left|]. right. exists b', r. split_and!; try done. by constructor.
    + apply IH in Hr as (L1 & L2 & L3). split; [done|]. split; [intros b' r [->|Hb]%elem_of_cons Hs Ht; [done|by eapply L2]|].
      destruct L3 as [L3|(b' & r & ? & ? & ? & ?)]; [by left|]. right. exists b', r. split_and!; try done. by constructor.
Qed.
Lemma authority_run u d a : db_ok d -> run_at (authority u) d a -> ranked d u a.
Proof.
  intros Hd Hr. unfold authority in Hr. apply run_bind in Hr as (x & _ & Hr); [|apply still_reading].
  apply run_bind in Hr as (l & Hl & Hr); [|apply still_ListBindings]. pose proof (ListBindings_run _ _ _ Hd Hl) as Hin.
  apply authority_loop_run in Hr as (_ & L2 & L3). cbn in L3. split.
  - intros r (b & (Hb & Hu & Hs) & Hr). apply (L2 b r); [by apply Hin|done|done].
  - destruct L3 as [L3|(b & r & [Hb Hu]%Hin & Hs & Hr & E)]; [by left|]. right. exists r. split; [|done]. by exists b.
Qed.
Lemma granted_spec g l acc s o : granted_permissions g l acc = (s, o) ->
  (o = true -> exists b, b ∈ l /\ br_ScopeType b = "server" /\ br_RoleKey b = "owner") /\
  (forall p, p ∈ s -> p ∈ acc \/ exists b, b ∈ l /\ br_ScopeType b = "server" /\ p ∈ default [] (g !! br_RoleKey b)).
Proof.
  revert acc. induction l as [|b l IH]; intros acc Hr; cbn [granted_permissions] in Hr; [injection Hr as <- <-; split; [done|by left]|].
  assert (Hx : forall acc', granted_permissions g l acc' = (s, o) -> (forall p, p ∈ acc' -> p ∈ acc \/ (br_ScopeType b = "server" /\ p ∈ default [] (g !! br_RoleKey b))) ->
    (o = true -> exists b', b' ∈ b :: l /\ br_ScopeType b' = "server" /\ br_RoleKey b' = "owner") /\
    (forall p, p ∈ s -> p ∈ acc \/ exists b', b' ∈ b :: l /\ br_ScopeType b' = "server" /\ p ∈ default [] (g !! br_RoleKey b'))).
  { intros acc' Ha Hacc. apply IH in Ha as [L1 L2]. split.
    - intros Ho. destruct (L1 Ho) as (b' & ? & ?). exists b'. split; [by constructor|done].
    - intros p [Hp|(b' & ? & ?)]%L2; [|right; exists b'; split; [by constructor|done]]. destruct (Hacc p Hp) as [?|?]; [by left|]. right. exists b. split; [by constructor|done]. }
  case_bool_decide as Es; cbn [negb] in Hr; [|apply (Hx acc Hr); by left].
  case_bool_decide as Eo; [injection Hr as <- <-; split; [exists b; split; [by constructor|done]|by left]|].
  apply (Hx _ Hr). intros p [Hp|Hp]%elem_of_union; [by left|]. right. split; [done|]. by apply elem_of_list_to_set in Hp.
Qed.
Lemma actorPermissions_run u d po : db_ok d -> run_at (actorPermissions u) d po -> (po.2 = true -> is_owner d u) /\ (forall p, p ∈ po.1 -> holds d u p).
Proof.
  intros Hd Hr. unfold actorPermissions in Hr. apply run_bind in Hr as (config & Hc & Hr); [|apply still_reading].
  unfold actorPermissionsForConfig in Hr. apply run_bind in Hr as (l & Hl & Hr); [|apply still_ListBindings]. pose proof (ListBindings_run _ _ _ Hd Hl) as Hin.
  destruct Hc as (t & t' & Ht & Hc). unfold ConfigStore.Server, GetServerPermissionConfig in Hc. apply reading_Ok in Hc as [Hc _]. rewrite Ht in Hc.
  unfold get_row in Hc. destruct (t_configs d !! server_scope) as [row|] eqn:Erow; [|done]. injection Hc as <-.
  destruct (json_config (cf_Config row)) as [g|] eqn:Eg; [|by destruct Hr as (? & ? & _ & ?)]. destruct Hr as (? & ? & _ & [= Hr _]).
  destruct po as [s o]. apply granted_spec in Hr as [L1 L2]. cbn. split.
  - intros Ho. destruct (L1 Ho) as (b & [Hb Hu]%Hin & Hs & Hk). by exists b.
  - intros p [Hp|(b & [Hb Hu]%Hin & Hs & Hp)]%L2; [by apply elem_of_empty in Hp|]. exists b, row, g. done.
Qed.
End Rows.

(** ** What a mutation checks *)

Section Checks.
Context `{!ConfigJson} (canonicalJSON : string -> option string) (digest : string -> string) (actorID : Z).
Inductive ControlMutation :=
  | MCreateRole (key displayName : string) (rank : Z)
  | MUpdateRole (userIDs : list Z) (key : string) (displayName : option string) (rank : option Z)
  | MDeleteRole (userIDs : list Z) (key : string)
  | MCreateBinding (i : BindingInput)
  | MDeleteBinding (bindingID : Z)
  | MTransferOwner (targetUserID : Z)
  | MUpdateConfig (userIDs : list Z) (etag : string) (s : ConfigScope) (raw : string)
  | MResetConfig (userIDs : list Z) (etag : string) (s : ConfigScope).
(** The tag names the effective configuration of the state. *)
Definition names_config (etag : string) (s : ConfigScope) (v : StateVersion) : Prop :=
  exists c, effectiveConfigFromState s v = Ok c /\ effectiveConfigETag canonicalJSON digest c = Ok etag.
(** Every permission a configuration grants, the owner's wildcard apart, is the actor's own. *)
Definition grants_own (d : Db) (raw : string) : Prop :=
  exists config, json_config raw = Some config /\
    forall role ps p, default ∅ config !! role = Some ps -> p ∈ ps -> (role = "owner" /\ p = Wildcard) \/ holds d actorID p.
Definition control_allowed (m : ControlMutation) (v : StateVersion) (d : Db) : Prop :=
  match m with
  | MCreateRole _ _ rank => manages d actorID /\ 0 <= rank < OwnerRank /\ above d actorID rank
  | MUpdateRole _ key _ rank =>
      manages d actorID /\ key <> "owner" /\ exists role, t_roles d !! key = Some role /\ above d actorID (rr_Rank role) /\
      forall n, rank = Some n -> 0 <= n < OwnerRank /\ above d actorID n
  | MDeleteRole _ key => manages d actorID /\ exists role, t_roles d !! key = Some role /\ rr_Builtin role = 0 /\ above d actorID (rr_Rank role)
  | MCreateBinding i =>
      manages d actorID /\ above_user d actorID (bi_UserID i) /\ exists role, t_roles d !! bi_RoleKey i = Some role /\ above d actorID (rr_Rank role)
  | MDeleteBinding bindingID =>
      manages d actorID /\ exists b role, t_bindings d !! bindingID = Some b /\ br_RoleKey b <> "owner" /\ t_roles d !! br_RoleKey b = Some role /\
      above_user d actorID (br_UserID b) /\ above d actorID (rr_Rank role)
  | MTransferOwner target =>
      actorID <> target /\ (exists k o, t_bindings d !! k = Some o /\ br_RoleKey o = "owner" /\ br_UserID o = actorID) /\
      exists u, t_users d !! target = Some u /\ ur_BannedAt u = None
  | MUpdateConfig _ etag s raw => manages d actorID /\ names_config etag s v /\ (is_owner d actorID \/ grants_own d raw)
  | MResetConfig _ etag s => manages d actorID /\ names_config etag s v
  end.
Lemma control_allowed_synced m v d d' : synced d d' -> control_allowed m v d' -> control_allowed m v d.
Proof. destruct d, d'. intros []. cbn in *. subst. exact id. Qed.
Lemma granted_own d raw allowed u : (forall p, p ∈ allowed -> holds d actorID p) -> validateGrantedPermissions raw allowed false = Ok u -> grants_own d raw.
Proof.
  intros Hp. unfold validateGrantedPermissions. destruct (json_config raw) as [config|] eqn:Ej; [|done]. destruct (grants_within _ _) eqn:Eg; [|done]. intros _.
  exists config. split; [done|]. intros role ps p Hr Hin. unfold grants_within in Eg. rewrite forallb_forall in Eg. specialize (Eg (role, ps)).
  rewrite <- list_elem_of_In, elem_of_map_to_list, forallb_forall in Eg. specialize (Eg Hr p). rewrite <- list_elem_of_In in Eg. specialize (Eg Hin). cbn in Eg.
  apply orb_true_iff in Eg as [[? ?]%andb_true_iff|?]; [left|right; apply Hp]; rewrite !bool_decide_eq_true in *; done.
Qed.
End Checks.

(** ** Bodies *)

Section Bodies.
Context {C : Type} `{!StateSink C} {cprims : Cursor.CursorPrims} {pprims : PublicationPrims} {R : Type}.
Context `{!StoreEnv, !SqlPrims, !CommandJson, !ConfigJson, !EventJson, !VoiceRuntime R}.
Context (jvalid : bytes -> bool) (jmarshal : stateEventEnvelope -> option bytes).
Context (voice_configured : bool) (voiceNow : Z) (grants : string -> option (gmap string (list string))) (version_text : string)
  (canonicalJSON : string -> option string) (digest : string -> string) (actorID : Z).
#[local] Abbreviation mut := (Mut C R ControlValue ControlError).
#[local] Abbreviation allowed := (control_allowed canonicalJSON digest actorID).
#[local] Abbreviation faithful m body := (faithful (C := C) (R := R) jvalid jmarshal (allowed m) (publish_change voice_configured voiceNow grants version_text body)).

Definition control_body (m : ControlMutation) : mut (ControlValue * StateChange * bool) :=
  match m with
  | MCreateRole key displayName rank => CreateRole actorID key displayName rank
  | MUpdateRole userIDs key displayName rank => UpdateRole actorID userIDs key displayName rank
  | MDeleteRole userIDs key => DeleteRole actorID userIDs key
  | MCreateBinding i => CreateBinding actorID i
  | MDeleteBinding bindingID => DeleteBinding actorID bindingID
  | MTransferOwner target => TransferOwner actorID target
  | MUpdateConfig userIDs etag s raw => UpdateConfig canonicalJSON digest actorID userIDs etag s raw
  | MResetConfig userIDs etag s => ResetConfig canonicalJSON digest actorID userIDs etag s
  end.
(** Turn what was read into what it means. *)
Ltac facts := repeat match goal with
  | Hx : _ || _ = false |- _ => apply orb_false_iff in Hx; destruct Hx
  | Hx : (_ <=? _) = false |- _ => apply Z.leb_gt in Hx
  | Hx : (_ <? _) = false |- _ => apply Z.ltb_ge in Hx
  | Hx : negb _ = false |- _ => apply negb_false_iff in Hx
  | Hx : (_ =? _) = true |- _ => apply Z.eqb_eq in Hx
  | Hx : bool_decide _ = true |- _ => apply bool_decide_eq_true in Hx
  | Hx : bool_decide _ = false |- _ => apply bool_decide_eq_false in Hx
  | Hx : run_at (authority _) _ _ |- _ => apply authority_run in Hx; [|assumption]
  | Hx : run_at (RoleStore.Get _) _ _ |- _ => apply GetRole_run in Hx
  | Hx : run_at (RoleStore.GetBinding _) _ _ |- _ => apply GetBinding_run in Hx
  | Hx : run_at (actorPermissions _) _ _ |- _ => let Ho := fresh "Howner" in let Hp := fresh "Hholds" in apply actorPermissions_run in Hx; [|assumption]; destruct Hx as [Ho Hp]; cbn in Ho, Hp
  end.
Ltac body := unfold publish_change, config_changed, retained, ensureManagementRetained, config_head, checkBindingAuthority, requireRoleManage, changed, unchanged, refuse;
  body_run; cbn [fst snd] in *; facts; subst.
Ltac managed := first [left; by eauto|right; by eauto].
Ltac ranks := first [managed|by eapply ranked_above; [eassumption|lia..]|by eapply ranked_user|lia].
Lemma CreateRole_faithful key displayName rank : faithful (MCreateRole key displayName rank) (CreateRole actorID key displayName rank).
Proof. unfold CreateRole. body; split_and!; ranks. Qed.
(** What the guards of [UpdateRole] leave: the role is not the owner's. *)
Lemma role_guard_checked d key role a rank u : db_ok d -> t_roles d !! key = Some role -> ranked d actorID a -> role_guard a role rank = Ok u ->
  default (rr_Rank role) rank < OwnerRank -> key <> "owner" /\ above d actorID (rr_Rank role).
Proof.
  intros Hd Hr Ha Hg Hn. destruct (role_rank _ _ _ Hd Hr) as (Hk & H0' & Ho). unfold role_guard in Hg. rewrite Hk in Hg. case_bool_decide as Eo.
  - destruct rank; [by rewrite orb_true_r in Hg|]. cbn in Hn. rewrite (Ho Eo) in Hn. lia.
  - destruct (Z.leb_spec (au_rank a) (rr_Rank role)); [done|]. split; [done|]. eapply ranked_above; [done|lia..].
Qed.
Lemma UpdateRole_faithful userIDs key displayName rank : faithful (MUpdateRole userIDs key displayName rank) (UpdateRole actorID userIDs key displayName rank).
Proof.
  unfold UpdateRole. body.
  all: match goal with Hg : role_guard _ _ _ = Ok _, Hr : t_roles _ !! _ = Some ?role |- _ =>
    pose proof (role_rank _ _ _ Hd Hr) as (Hk & _ & _); eapply role_guard_checked in Hg as [Hne Hab]; [|eassumption..]; split; [managed|]; split; [done|]; exists role; split_and!; try done end.
  all: intros n ->; cbn in *; split; [lia|].
  all: match goal with Hx : negb _ && _ = false |- _ => rewrite Hk, bool_decide_false in Hx by done; apply Z.leb_gt in Hx end; ranks.
Qed.
Lemma DeleteRole_faithful userIDs key : faithful (MDeleteRole userIDs key) (DeleteRole actorID userIDs key).
Proof.
  unfold DeleteRole. body.
  all: match goal with Hr : t_roles _ !! _ = Some ?role |- _ => pose proof (role_rank _ _ _ Hd Hr) as (_ & ? & _); split; [managed|]; exists role; split_and!; [done|done|ranks] end.
Qed.
Lemma DeleteBinding_faithful bindingID : faithful (MDeleteBinding bindingID) (DeleteBinding actorID bindingID).
Proof.
  unfold DeleteBinding. body.
  all: match goal with Hr : t_roles _ !! _ = Some ?role, Hb : t_bindings _ !! _ = Some ?b |- _ =>
    pose proof (role_rank _ _ _ Hd Hr) as (_ & ? & _); split; [managed|]; exists b, role; split_and!; [done|done|done|ranks|ranks] end.
Qed.
Lemma TransferOwner_faithful target : faithful (MTransferOwner target) (TransferOwner actorID target).
Proof.
  unfold TransferOwner. body.
  match goal with Hr : run_at (Installation.TransferOwnerInTx _ _ _) _ _ |- _ => destruct Hr as (t & t' & <- & Ht) end.
  match type of Ht with _ = (Ok ?u, _) => destruct u end. apply TransferOwnerInTx_run in Ht as (? & ? & ? & _); done.
Qed.
Ltac named := match goal with Hc : effectiveConfigFromState _ _ = Ok ?c |- _ => exists c; by split end.
Lemma UpdateConfig_faithful userIDs etag s raw : faithful (MUpdateConfig userIDs etag s raw) (UpdateConfig canonicalJSON digest actorID userIDs etag s raw).
Proof.
  unfold UpdateConfig. body.
  all: split; [managed|]; split; [named|].
  all: match goal with Hv : validateGrantedPermissions _ _ ?o = Ok _ |- _ => destruct o; [left; by eauto|right; by eapply granted_own] end.
Qed.
Lemma ResetConfig_faithful userIDs etag s : faithful (MResetConfig userIDs etag s) (ResetConfig canonicalJSON digest actorID userIDs etag s).
Proof. unfold ResetConfig. body; (split; [managed|named]). Qed.
Lemma CreateBinding_faithful i : faithful (MCreateBinding i) (CreateBinding actorID i).
Proof.
  unfold CreateBinding. body.
  all: match goal with Hr : t_roles _ !! _ = Some ?role |- _ => pose proof (role_rank _ _ _ Hd Hr) as (_ & ? & _); split; [managed|]; split; [ranks|]; exists role; split; [done|ranks] end.
Qed.
Lemma control_faithful m : faithful m (control_body m).
Proof.
  destruct m; [apply CreateRole_faithful|apply UpdateRole_faithful|apply DeleteRole_faithful|apply CreateBinding_faithful|apply DeleteBinding_faithful|
    apply TransferOwner_faithful|apply UpdateConfig_faithful|apply ResetConfig_faithful].
Qed.

(** ** Commands *)

Context (juser : SnapshotUserPresence -> option bytes) {G : Type} (idNext : G -> result Z unit * G).
Context (ToUpper : string -> string) (hmac : string -> string -> bytes) (signer : RequestIdentitySigner).
Context (IssueStateCursor : Z -> StateVersion -> option string) {D : Type} (success_body : D -> option string) (error_code : ServiceError ControlError -> Z).
#[local] Abbreviation pub := (StatePublication C (World R)).
#[local] Abbreviation execute := (execute jvalid jmarshal juser idNext).
#[local] Abbreviation control_run := (runMutation voice_configured voiceNow grants version_text ToUpper hmac signer IssueStateCursor success_body error_code).

Lemma control_settles acquire command response m t canceled (p : pub) g : keeps_db (Some acquire) -> pb_locked p = false -> mirror p -> tx_db t = w_db (pb_world p) ->
  exists o, execute (control_run acquire command response (control_body m) t canceled) p g = Some o /\
    match oc_fail o with
    | Some _ => exists er, oc_reply o = Err er
    | None => pb_locked (oc_pub o) = false /\ mirror (oc_pub o) /\
        match oc_reply o with
        | Err _ => w_db (pb_world (oc_pub o)) = w_db (pb_world p) /\ pb_current (oc_pub o) = pb_current p
        | Ok c => mr_value (cc_Value c) = None \/ allowed m (pb_current p) (w_db (pb_world p))
        end
    end.
Proof.
  intros Ha Hu Hm Ht. edestruct (mutation_settles jvalid jmarshal juser ToUpper hmac signer IssueStateCursor success_body error_code (allowed m) idNext acquire
    (match command with Some (identity, _) => hi_PrincipalID identity | None => 0 end) command response) as (o & Ho & Hs); [apply control_faithful|done..|].
  exists o. split; [exact Ho|]. apply settled_iff in Hs; [exact Hs|]. intros v d d'. apply control_allowed_synced.
Qed.
(** C7: role management cannot escalate, and keeps the state and the tables
    together.  Whatever the driver, the clock, the codecs and the voice runtime
    do, the command of a mutation of roles, bindings, configurations or the
    owner never blocks, and unless it stops the sequencer it leaves the state
    mirroring the tables; an error leaves both as they were.  A value that is
    not a replay means that, in the committed tables, the actor managed roles,
    that every role the mutation created, changed, deleted, granted or took
    ranked strictly below a role of the actor's, as did every role of the user
    it concerned, that an updated configuration grants only permissions the
    actor has unless the actor is the owner, that a configuration was named by
    its current tag, and that only the owner gave the installation away, to
    another user who is not banned. *)
Theorem control_mutation_mirror acquire command response m t canceled (p : pub) g : keeps_db (Some acquire) -> pb_locked p = false -> mirror p ->
  tx_db t = w_db (pb_world p) ->
  exists o, execute (control_run acquire command response (control_body m) t canceled) p g = Some o /\
    match oc_fail o with
    | Some _ => exists er, oc_reply o = Err er
    | None => pb_locked (oc_pub o) = false /\ mirror (oc_pub o) /\
        match oc_reply o with
        | Err _ => w_db (pb_world (oc_pub o)) = w_db (pb_world p) /\ pb_current (oc_pub o) = pb_current p
        | Ok c => mr_value (cc_Value c) = None \/ control_allowed canonicalJSON digest actorID m (pb_current p) (w_db (pb_world p))
        end
    end.
Proof. apply control_settles. Qed.
(** the owner role cannot be renamed.  No update of the role [owner], by
    any actor and with any name and rank, ever answers a value that is not a
    replay: the rank the schema gives the role is the one the update refuses. *)
Theorem owner_rename_refused acquire command response userIDs displayName rank t canceled (p : pub) g : keeps_db (Some acquire) -> pb_locked p = false -> mirror p ->
  tx_db t = w_db (pb_world p) ->
  exists o, execute (control_run acquire command response (UpdateRole actorID userIDs "owner" displayName rank) t canceled) p g = Some o /\
    forall c, oc_reply o = Ok c -> mr_value (cc_Value c) = None.
Proof.
  intros Ha Hu Hm Ht. destruct (control_settles acquire command response (MUpdateRole userIDs "owner" displayName rank) t canceled p g Ha Hu Hm Ht) as (o & Ho & Hs).
  exists o. split; [exact Ho|]. intros c Hc. destruct (oc_fail o); [destruct Hs as [er Hs]; congruence|]. destruct Hs as (_ & _ & Hs). rewrite Hc in Hs.
  destruct Hs as [Hs|(_ & Hs & _)]; done.
Qed.
End Bodies.

(** ** The owner at work *)

#[local] Existing Instance EventBusProps.ex_prims.
#[local] Existing Instance PublicationProps.ex_pprims.
#[local] Existing Instance demo_env.
#[local] Existing Instance sample_prims.
#[local] Existing Instance DurableProps.demo_json.
#[local] Existing Instance ChannelProps.demo_config.
#[local] Existing Instance ChannelProps.demo_events.
#[local] Existing Instance ChannelProps.demo_voice.
#[local] Abbreviation conn := EventBusProps.webSocketSyncConnection.
Definition demo_body (m : ControlMutation) : Mut conn unit ControlValue ControlError (ControlValue * StateChange * bool) := control_body (fun s => Some s) (fun s => s) 7 m.
Definition demo_control (body : Mut conn unit ControlValue ControlError (ControlValue * StateChange * bool)) : PostCommitCommand conn (World unit) (MutationResult ControlValue) :=
  runMutation false 0 (fun _ => Some ∅) "1" (fun s => s) (fun _ _ => []) (mkSigner "") (fun _ _ => Some "cursor") (fun _ : unit => Some "{}") (fun _ => 0)
    ChannelProps.demo_acquire None (fun _ => (200, tt, no_headers)) body ChannelProps.lobby_tx false.
Definition demo_role : ControlMutation := MCreateRole "moderator" "Moderator" 10.
#[local] Abbreviation demo_run body := (Sequencer.execute PublicationProps.ok_json PublicationProps.ok_marshal (fun _ => Some [1]) (fun g : Z => (Ok (g + 1), g + 1))
  (demo_control body) ChannelProps.demo_pub 500).
Lemma control_mutation_mirror_witness : exists o, demo_run (demo_body demo_role) = Some o /\ mirror (oc_pub o) /\
  rr_Rank <$> t_roles (w_db (pb_world (oc_pub o))) !! "moderator" = Some 10 /\
  control_allowed (fun s => Some s) (fun s => s) 7 demo_role (pb_current ChannelProps.demo_pub) ChannelProps.lobby_db.
Proof.
  destruct (control_mutation_mirror PublicationProps.ok_json PublicationProps.ok_marshal false 0 (fun _ => Some ∅) "1" (fun s => Some s) (fun s => s) 7
    (fun _ => Some [1]) (fun g : Z => (Ok (g + 1), g + 1)) (fun s => s) (fun _ _ => []) (mkSigner "") (fun _ _ => Some "cursor") (fun _ : unit => Some "{}") (fun _ => 0)
    ChannelProps.demo_acquire None (fun _ => (200, tt, no_headers)) demo_role ChannelProps.lobby_tx false ChannelProps.demo_pub 500 ChannelProps.demo_keeps eq_refl
    ChannelProps.demo_mirror eq_refl) as (o & Ho & Hs).
  exists o. split; [exact Ho|].
  assert (Hx : (fun o => (oc_fail o, match oc_reply o with Ok c => match mr_value (cc_Value c) with Some _ => true | None => false end | Err _ => false end,
      rr_Rank <$> t_roles (w_db (pb_world (oc_pub o))) !! "moderator")) <$> demo_run (demo_body demo_role) = Some (None, true, Some 10)) by (vm_compute; reflexivity).
  unfold demo_control, demo_body in Hx. rewrite Ho in Hx. injection Hx as E1 E2 E3. rewrite E1 in Hs. destruct Hs as (_ & Hm & Hr). split; [exact Hm|]. split; [exact E3|].
  destruct (oc_reply o) as [c|]; [|discriminate E2]. destruct (mr_value (cc_Value c)); [|discriminate E2]. destruct Hr as [Hr|Hr]; [discriminate Hr|exact Hr].
Defined.
(** The owner asks for a new display name. *)
Lemma owner_rename_refused_witness : exists o, demo_run (UpdateRole 7 [] "owner" (Some "Founder") None) = Some o /\
  is_owner ChannelProps.lobby_db 7 /\ oc_fail o = None /\ exists er, oc_reply o = Err er.
Proof.
  destruct (owner_rename_refused PublicationProps.ok_json PublicationProps.ok_marshal false 0 (fun _ => Some ∅) "1" (fun s => Some s) (fun s => s) 7
    (fun _ => Some [1]) (fun g : Z => (Ok (g + 1), g + 1)) (fun s => s) (fun _ _ => []) (mkSigner "") (fun _ _ => Some "cursor") (fun _ : unit => Some "{}") (fun _ => 0)
    ChannelProps.demo_acquire None (fun _ => (200, tt, no_headers)) [] (Some "Founder") None ChannelProps.lobby_tx false ChannelProps.demo_pub 500 ChannelProps.demo_keeps eq_refl
    ChannelProps.demo_mirror eq_refl) as (o & Ho & Hs).
  exists o. split; [exact Ho|].
  assert (Hx : (fun o => (oc_fail o, match oc_reply o with Ok c => match mr_value (cc_Value c) with Some _ => false | None => true end | Err _ => false end)) <$>
      demo_run (UpdateRole 7 [] "owner" (Some "Founder") None) = Some (None, false)) by (vm_compute; reflexivity).
  split; [exists (mkBindingRow 20 7 "owner" "server" None None 2); split; [split; [vm_compute; reflexivity|split; vm_compute; reflexivity]|vm_compute; reflexivity]|].
  unfold demo_control in Hx. rewrite Ho in Hx. injection Hx as E1 E2. split; [exact E1|].
  destruct (oc_reply o) as [c|er]; [|by exists er]. rewrite (Hs c eq_refl) in E2. discriminate E2.
Defined.
End ControlProps.
