(* ===== verification/Voice.v ===== *)
(** * Voice: joining and leaving voice ([channel/voice.go])

    Joining binds a user to a voice channel through three parts at once: the
    session manager, the connection coordinator and the published state.  The
    first two are the voice runtime of the world; other goroutines use them at
    any time, so every access first lets them act ([others]), the runtime commit
    at the publication and what follows it included.  The checks of a command
    run against what it reads; its runtime commit compares and swaps.

    The source's clocks, random bytes and HKDF are the environment. *)

From S2P Require Import Prelude Packet Session State StateRing Visibility Rbac Support Cursor Snapshot Lane Connection EventBus Publication Sequencer.
From S2P Require Import Database Stores Installation Identity Idempotency Durable Events Service ChannelService.
From stdpp Require Import base gmap strings list pretty.
From Stdlib Require Import ZArith Ascii.
#[local] Open Scope string_scope.
#[local] Open Scope list_scope.
#[local] Open Scope Z_scope.

Module Voice.
Import State StateRing Visibility Etag Snapshot EventBus Publication Sequencer Database Identity Idempotency Durable Events Service.
Import Connection (ConnectionCoordinator, ControlConnectionRef, r_ID, r_UserID, r_Generation, ConnError, VoiceAuthorityStage, VoiceAuthorityCommit, cm_Current, cm_Drain, cm_Cleanup, cm_Release).
Import Packet (ProtoError, zero_id).
Import Session (SessionInfo, mkInfo, i_ID, i_UserID, i_Encrypted, i_MasterKey, i_ExpiresAt, Drain, Cleanup).
Import Stores.Tx (StoreEnv, Act, fault, clock, gen, tx_db, tx_step, next_step).
#[local] Open Scope mutation_scope.

Inductive VoiceError :=
  | ErrVoiceNotConnected | ErrVoiceNotChannel | ErrVoiceFull | ErrVoiceExpectedRequired | ErrVoiceStale | ErrVoiceNotOwner | ErrVoiceCreateRateLimit
  | ErrTargetNotFound | ErrOfConnection (e : ConnError) | ErrOfProtocol (e : ProtoError).

(** ** The budget of new sessions *)

(** Times are milliseconds. *)
Definition voiceCreateWindow : Z := 60000.
Definition voiceCreateLimit : Z := 10.
Definition voiceCreateKeyCap : Z := 8192.
(** The zero [time.Time] as [UnixMilli]. *)
Definition zero_time : Z := -62135596800000.

Definition voiceCreateKey : Type := Z * string.
Record voiceCreateLimiter := mkLimiter { li_entries : gmap voiceCreateKey (list Z) }.
Definition newVoiceCreateLimiter : voiceCreateLimiter := mkLimiter ∅.
Fixpoint drop_expired (cutoff : Z) (entries : list Z) : list Z :=
  match entries with e :: rest => if e <=? cutoff then drop_expired cutoff rest else entries | [] => [] end.
Definition pruneExpiredLocked (m : gmap voiceCreateKey (list Z)) (cutoff : Z) : gmap voiceCreateKey (list Z) :=
  filter (fun kv => match last kv.2 with Some e => cutoff <? e | None => false end = true) m.
Definition Allow (l : voiceCreateLimiter) (userID : Z) (sourceIP : string) (now : Z) : bool * voiceCreateLimiter :=
  if (userID <=? 0) || (now =? zero_time) then (false, l)
  else
    let key := (userID, sourceIP) in
    let cutoff := now - voiceCreateWindow in
    let m := li_entries l in
    let entries := drop_expired cutoff (default [] (m !! key)) in
    let empty := bool_decide (entries = []) in
    let m := if empty then delete key m else m in
    let full (m : gmap voiceCreateKey (list Z)) := empty && (voiceCreateKeyCap <=? Z.of_nat (size m)) in
    let m := if full m then pruneExpiredLocked m cutoff else m in
    if full m then (false, mkLimiter m)
    else if voiceCreateLimit <=? len entries then (false, mkLimiter (<[key := entries]> m))
    else (true, mkLimiter (<[key := entries ++ [now]]> m)).

(** ** The voice runtime *)

Record Runtime := mkRuntime { rt_co : ConnectionCoordinator; rt_mgr : Session.World; rt_limiter : voiceCreateLimiter }.

(** By the step that asks: what other goroutines did to the runtime before it,
    the manager's clocks, what happens between its critical sections, and the
    random draws. *)
Class VoiceEnv := {
  others : nat -> Runtime -> Runtime; mgr_now : nat -> Z; mgr_clock : nat -> Z; mgr_between : nat -> Session.World -> Session.World;
  drawn_id : nat -> option SessionID; drawn_key : nat -> option bytes; revoke_now : Z
}.

(** The loop of the commit that [PrepareVoiceAccessLoss] returns. *)
Fixpoint revoke_all (now : Z) (plans : list (VoiceAuthority * string)) (c : ConnectionCoordinator) (w : Session.World) (drains : list Connection.ReturnDrain)
    (cleanups : list Cleanup) : ConnectionCoordinator * Session.World * option (list Cleanup) :=
  let drain_all c w := fold_left (fun cw d => Connection.run_return_drain cw.1 cw.2 d) drains (c, w) in
  match plans with
  | [] => (drain_all c w, Some cleanups)
  | (a, _) :: plans =>
      match Connection.BeginVoiceRevokeForPublicationWithGate c a (Some w) now with
      | (Err _, w', c) => (drain_all c (default w w'), None)
      | (Ok None, w', c) => revoke_all now plans c (default w w') drains cleanups
      | (Ok (Some (_, d, cl)), w', c) => revoke_all now plans c (default w w') (drains ++ [d]) (cleanups ++ option_list cl)
      end
  end.
#[global] Instance coordinator_runtime `{!VoiceEnv} : VoiceRuntime Runtime := {|
  BeginVoiceRevoke plans r :=
    let '(c, w, done) := revoke_all revoke_now plans (rt_co r) (rt_mgr r) [] [] in
    (mkRuntime c w (rt_limiter r), (fun cleanups r => mkRuntime (rt_co r) (fold_left Session.run_cleanup cleanups (rt_mgr r)) (rt_limiter r)) <$> done)
|}.

(** ** Inputs *)

Record VoiceJoinInput := mkJoinInput { vj_DeviceID : string; vj_ForceNew : bool; vj_ExpectedVoiceSessionID : string }.
Record VoiceLeaveInput := mkLeaveInput { vl_VoiceSessionID : string }.

Fixpoint all_chars (p : ascii -> bool) (s : string) : bool := match s with EmptyString => true | String c s => p c && all_chars p s end.
(** [strings.ToLower(raw) != raw] and a failed [hex.Decode] are the same error. *)
Definition parseVoiceSessionID (raw : string) : result SessionID VoiceError :=
  if bool_decide (raw = "") then Ok zero_id
  else if negb (slen raw =? 32) || negb (all_chars (fun c => is_digit c || in_range c 97 102) raw) then Err ErrVoiceStale
  else match hex_decode raw with
       | Some b => if bool_decide (b = zero_id) then Err ErrVoiceStale else Ok b
       | None => Err ErrVoiceStale
       end.
Definition validVoiceDeviceID (value : string) : bool :=
  bool_decide (value = "") ||
  ((slen value <=? 64) && all_chars (fun c => is_lower c || is_upper c || is_digit c || bool_decide (c = "_"%char) || bool_decide (c = "-"%char)) value).

(** ** Results *)

Record voiceJoinPlan := mkJoinPlan {
  jp_channel : SnapshotChannel; jp_channelID : Z; jp_info : SessionInfo; jp_created : bool; jp_version : option StateVersion;
  jp_schedules : list (Z * ExpirySchedule); jp_cancellations : list (Z * Z)
}.
Record voiceSessionResponse := mkSessionResponse {
  vs_Created : bool; vs_SessionID : string; vs_Key : string; vs_Encrypted : bool; vs_Warning : string; vs_MaxPayload : Z; vs_ProtocolVersion : Z; vs_ExpiresAt : Z
}.
Record voiceJoinResponse := mkJoinResponse {
  vr_Channel : SnapshotChannel; vr_Members : list SnapshotVoiceMembership; vr_Voice : voiceSessionResponse; vr_StateCursor : string; vr_StreamEpoch : string; vr_GEID : string
}.
Record voiceJoinResult := mkJoinResult { jr_response : voiceJoinResponse; jr_state : StateCommand; jr_body : string }.
(** The output of the command: a plan for the no-op, the prepared result otherwise. *)
Inductive JoinValue := JoinPlanned (plan : voiceJoinPlan) | JoinPrepared (plan : voiceJoinPlan) (r : voiceJoinResult).
Record voiceLeavePlan := mkLeavePlan { lv_version : option StateVersion; lv_channelID : Z; lv_schedule : option ExpirySchedule }.
Inductive LeaveValue := LeavePlanned (plan : voiceLeavePlan) | LeavePrepared (plan : voiceLeavePlan) (state : StateCommand).

(** ** Programs over the runtime *)

Section Access.
Context {C : Type} `{!StoreEnv, !VoiceEnv} {V E : Type}.
#[local] Abbreviation mut := (Mut C Runtime V E).
#[local] Abbreviation world := (World Runtime).

Definition refuse {A} (e : E) : mut A := mthrow (Own e).
Definition set_runtime (r : Runtime) (w : world) : world := mkWorld (w_db w) (w_timers w) r.
(** One access to the runtime, after whatever others did to it. *)
Definition runtime {A} (f : nat -> Runtime -> A * Runtime) : mut A := fun t k =>
  Peek (fun w => let '(a, r) := f (tx_step t) (others (tx_step t) (w_voice w)) in Touch (set_runtime r) (fun bus => bus) (k (Ok a) (next_step t))).
Definition on_connections {A} (f : ConnectionCoordinator -> A * ConnectionCoordinator) : mut A :=
  runtime (fun _ r => let '(a, c) := f (rt_co r) in (a, mkRuntime c (rt_mgr r) (rt_limiter r))).
Definition on_manager {A} (f : nat -> Session.World -> A * Session.World) : mut A :=
  runtime (fun n r => let '(a, w) := f n (rt_mgr r) in (a, mkRuntime (rt_co r) w (rt_limiter r))).
(** The service's clock. *)
Definition voiceNowMillis : mut Z := fun t k => k (Ok (clock (tx_step t))) (next_step t).
Definition projected_state {A} (o : option A) : mut A := match o with Some a => mret a | None => mthrow (ErrOfState (ErrInvalidProjection None)) end.
(** A reservation of runtime state; the commit knows the step it was made at. *)
Definition reserve_runtime (pointer : nat) (candidate : StateCandidate) (events : list StateEventTemplate) (commit : option (nat -> RuntimeCommit (W := world))) : mut unit := fun t k =>
  Invoke (CallReserve (clock (tx_step t)) (mkRequest (Some (pointer, version candidate)) events [] ((fun f => f (tx_step t)) <$> commit))) (fun reply =>
    k (match reply with GotResult (Err e) => Err (ErrOfSequencer e) | _ => Ok tt end) (next_step t)).
Definition reserved_result : mut PublicationResult :=
  r <=~ call CallReservedResult ;;
  match r with
  | GotResult (Ok reserved) => mret reserved
  | GotResult (Err e) => mthrow (ErrOfSequencer e)
  | GotError _ => mthrow ErrRealtimeUnavailable
  end.
(** The script of a body, given the code of its errors and the output it makes of its answer. *)
Definition body_script {A} (out : A -> CommandOutput world (MutationResult V)) (error_code : ServiceError E -> Z) (m : mut A) (t : Tx.Tx) : Script C world (MutationResult V) :=
  m t (fun r _ => match r with Ok v => Return (out v) | Err (ErrOfSequencer e) => Throw e | Err e => Throw (ErrCallback (error_code e)) end).
End Access.

Section Runtime.
Context {C : Type} `{!StoreEnv, !SqlPrims, !CommandJson, !EventJson, !VoiceEnv} {V : Type}.
#[local] Abbreviation mut := (Mut C Runtime V VoiceError).
#[local] Abbreviation err := (ServiceError VoiceError).
#[local] Abbreviation world := (World Runtime).

Definition connected {A} (r : result A ConnError) : mut A := match r with Ok a => mret a | Err e => refuse (ErrOfConnection e) end.

(** [ActiveConnection] and [LeaseActive]: the control connection of the request. *)
Definition active_owner (actorID : Z) (id : SessionID) (now : Z) : mut ControlConnectionRef :=
  ref <=~ on_connections (fun c => Connection.ActiveConnection c actorID id) ;;
  match ref with
  | None => refuse ErrVoiceNotConnected
  | Some owner =>
      live <=~ on_connections (fun c => Connection.LeaseActive c owner now) ;;
      if live then mret owner else refuse ErrVoiceNotConnected
  end.
(** Whether a connection owns an authority. *)
Definition owned (owner : ControlConnectionRef) (a : VoiceAuthority) : bool :=
  bool_decide (va_ControlConnectionID a = r_ID owner) && (va_ConnectionGeneration a =? r_Generation owner).

(** *** What a join checks *)

Definition join_channel (actorID channelID : Z) (v : StateVersion) : result Channel err :=
  match getChannel v channelID with
  | Some ch =>
      if negb (CanAccessChannel actorID channelID (Some v)) then Err (Own ErrTargetNotFound)
      else if negb (bool_decide (ch_Mode ch = "voice")) then Err (Own ErrVoiceNotChannel) else Ok ch
  | None => Err (Own ErrTargetNotFound)
  end.
(** The teardown whose events are not published yet. *)
Definition pending_teardown (actorID : Z) (current projected : option VoiceAuthority) : mut (option (VoiceAuthority * string)) :=
  match current, projected with
  | None, Some p =>
      t <=~ on_connections (fun c => Connection.PendingVoiceAuthorityTombstone c actorID) ;;
      mret match t with
           | Some (a, reason) => if bool_decide (a = p) then Some (a, if bool_decide (reason = "") then "owner_ws_closed" else reason) else None
           | None => None
           end
  | _, _ => mret None
  end.
Definition join_expected (expectedID : SessionID) (channelID : Z) (forceNew : bool) (owner : ControlConnectionRef) (current : option VoiceAuthority)
    (pending : option (VoiceAuthority * string)) : result unit err :=
  if negb (bool_decide (expectedID = zero_id)) then
    if match current, pending with
       | Some a, _ => bool_decide (va_VoiceSessionID a = expectedID)
       | None, Some (a, _) => bool_decide (va_VoiceSessionID a = expectedID)
       | None, None => false
       end
    then Ok tt else Err (Own ErrVoiceStale)
  else if match current with Some a => negb (va_ChannelID a =? channelID) || forceNew || negb (owned owner a) | None => false end then Err (Own ErrVoiceExpectedRequired)
  else match pending with Some _ => Err (Own ErrVoiceExpectedRequired) | None => Ok tt end.
Definition already_there (channelID : Z) (forceNew : bool) (owner : ControlConnectionRef) (current : option VoiceAuthority) : bool :=
  match current with Some a => (va_ChannelID a =? channelID) && owned owner a && negb forceNew | None => false end.
Definition has_room (channelID : Z) (channel : Channel) (v : StateVersion) (projected : option VoiceAuthority) : bool :=
  negb ((ch_Capacity channel <=? activeChannelMembers channelID v) && match projected with Some p => negb (va_ChannelID p =? channelID) | None => true end).

(** *** Sessions *)

Context (hkdf : bytes -> bytes -> bytes -> option bytes) (voiceEncrypted : bool).
Definition allow_session (actorID : Z) (sourceIP : string) (joinedAt : Z) : mut bool :=
  runtime (fun _ r => let '(ok, l) := Allow (rt_limiter r) actorID sourceIP joinedAt in (ok, mkRuntime (rt_co r) (rt_mgr r) l)).
Definition prepare_session (actorID : Z) (sourceIP deviceID : string) (joinedAt : Z) : mut Session.loc :=
  ok <=~ allow_session actorID sourceIP joinedAt ;;
  if negb ok then refuse ErrVoiceCreateRateLimit
  else p <=~ on_manager (fun n w => Session.Prepare hkdf w actorID deviceID voiceEncrypted (drawn_id n) (drawn_key n) (mgr_now n) (mgr_clock n)) ;;
       match p with Ok l => mret l | Err e => refuse (ErrOfProtocol e) end.
Definition snapshot_info (s : Session.SessionSnapshot) : SessionInfo := mkInfo (Session.sn_ID s) (Session.sn_UserID s) (Session.sn_Encrypted s) [] (Session.sn_ExpiresAt s) false.
(** The current session, or that it expired and what to wait for. *)
Inductive Standing := Standing_none | Standing_live (info : SessionInfo) | Standing_expired (drain : option Drain).
Definition standing (actorID : Z) (current : option VoiceAuthority) (replacing : bool) : mut Standing :=
  match current with
  | None => mret Standing_none
  | Some a =>
      s <=~ on_manager (fun n w => let '(s, d, w) := Session.GetStaged w (va_VoiceSessionID a) (mgr_now n) (mgr_between n) in ((s, d), w)) ;;
      match s with
      | (Some snap, d) => if Session.sn_UserID snap =? actorID then mret (Standing_live (snapshot_info snap))
                          else if replacing then mret (Standing_expired d) else refuse ErrVoiceStale
      | (None, d) => if replacing then mret (Standing_expired d) else refuse ErrVoiceStale
      end
  end.
Definition natural_expiry (s : Standing) : bool := match s with Standing_expired _ => true | _ => false end.

(** *** The candidate *)

Definition clear_expiry (c : StateCandidate) (channelID : Z) : StateCandidate * list (Z * Z) :=
  let '((s, live), c) := ClearTemporaryExpiry c channelID in (c, if live : bool then [(channelID, es_Generation s)] else []).
(** The timers of the channel joined and of the one left. *)
Definition join_timers (joinedAt : Z) (channel : Channel) (projected : option VoiceAuthority) (proposed : VoiceAuthority) (v : StateVersion) (c : StateCandidate)
  : option (StateCandidate * list (Z * ExpirySchedule) * list (Z * Z)) :=
  let '(c, canceled) := if ch_Temporary channel then clear_expiry c (ch_ID channel) else (c, []) in
  match projected with
  | Some p =>
      if va_ChannelID p =? va_ChannelID proposed then Some (c, [], canceled)
      else match getChannel v (va_ChannelID p) with
      | Some old =>
          if negb (ch_Temporary old) then Some (c, [], canceled)
          else if activeChannelMembers (ch_ID old) (version c) =? 0
          then '(s, c) ← ScheduleTemporaryExpiry c (ch_ID old) (joinedAt + 30000); Some (c, [(ch_ID old, s)], canceled)
          else let '(c, more) := clear_expiry c (ch_ID old) in Some (c, [], canceled ++ more)
      | None => Some (c, [], canceled)
      end
  | None => Some (c, [], canceled)
  end.
Definition gone_events (a : VoiceAuthority) (reason : string) (v : StateVersion) : option (list StateEventTemplate) :=
  events ← voiceAuthorityEventTemplates (Some a) None reason; gone ← voiceMemberEvent a false v; Some (events ++ [gone]).
Definition join_reason (current : option VoiceAuthority) (proposed : VoiceAuthority) : string :=
  match current with
  | Some a => if negb (bool_decide (va_VoiceSessionID a = va_VoiceSessionID proposed)) then "session_replaced"
              else if negb (va_ChannelID a =? va_ChannelID proposed) then "channel_moved" else "joined"
  | None => "joined"
  end.
Definition join_events (pending : option (VoiceAuthority * string)) (natural : bool) (current projected : option VoiceAuthority) (proposed : VoiceAuthority)
    (v : StateVersion) : option (list StateEventTemplate) :=
  teardown ← match pending with Some (a, reason) => gone_events a reason v | None => Some [] end;
  expiry ← match pending, current with None, Some a => if natural then gone_events a "udp_timeout" v else Some [] | _, _ => Some [] end;
  let memberLeft := is_some pending || (natural && is_some current) in
  let moved := match projected with Some p => negb (va_ChannelID p =? va_ChannelID proposed) | None => false end in
  gone ← match projected with
         | Some p => if moved && negb memberLeft then (fun e => [e]) <$> voiceMemberEvent p false v else Some []
         | None => Some []
         end;
  joined ← if negb (is_some projected) || moved || memberLeft then (fun e => [e]) <$> voiceMemberEvent proposed true v else Some [];
  authority ← if natural && is_some current then voiceAuthorityEventTemplates None (Some proposed) "joined"
              else voiceAuthorityEventTemplates current (Some proposed) (join_reason current proposed);
  Some (teardown ++ expiry ++ gone ++ joined ++ authority).

(** *** The runtime commit *)

Definition drain_manager (d : option Drain) (r : Runtime) : Runtime := mkRuntime (rt_co r) (Connection.run_opt_drain (rt_mgr r) d) (rt_limiter r).
(** A lost race is a cancellation, which the sequencer answers without failing. *)
Definition stale_race (e : ConnError) : CommitError :=
  match e with
  | Connection.ErrProtocol Packet.ErrSessionPrecondition | Connection.ErrProtocol Packet.ErrSessionExpired | Connection.ErrVoiceAuthorityPrecondition => CommitCanceled
  | _ => CommitFailed
  end.
(** Others act before it, while it waits for an expired session, between its
    compare-and-swap and the drain, and until its cleanup after the publication. *)
Definition join_commit (n : nat) (stage : VoiceAuthorityStage) (s : Standing) (proposed : VoiceAuthority) : RuntimeCommit (W := world) := fun w =>
  let r := others (S n) (drain_manager (match s with Standing_expired d => d | _ => None end) (others n (w_voice w))) in
  match Connection.ApplyForPublicationWithGate (rt_co r) stage (Some (rt_mgr r)) (natural_expiry s) (mgr_now n) (mgr_between n) with
  | (Err e, m, c) => (set_runtime (mkRuntime c (default (rt_mgr r) m) (rt_limiter r)) w, (Some (stale_race e), None))
  | (Ok commit, m, c) =>
      let r := drain_manager (cm_Drain commit) (others (S (S n)) (mkRuntime c (default (rt_mgr r) m) (rt_limiter r))) in
      let release r := mkRuntime (Connection.run_release (rt_co r) (cm_Release commit)) (rt_mgr r) (rt_limiter r) in
      if negb (bool_decide (cm_Current commit = proposed)) then (set_runtime (release r) w, (Some CommitFailed, None))
      else (set_runtime r w, (None, Some (fun w =>
        let r := release (others (S (S (S n))) (w_voice w)) in
        set_runtime (mkRuntime (rt_co r) (match cm_Cleanup commit with Some cl => Session.run_cleanup (rt_mgr r) cl | None => rt_mgr r end) (rt_limiter r)) w)))
  end.

(** ** Joining *)

(** The signed cursor and the envelope of a response. *)
Context (IssueStateCursor : Z -> StateVersion -> option string) (success_body : voiceJoinResponse -> option string) (StdEncoding : bytes -> string).
Definition issued (actorID : Z) (v : StateVersion) : result string err := match IssueStateCursor actorID v with Some c => Ok c | None => Err ErrIssueCursor end.

Definition session_response (plan : voiceJoinPlan) : voiceSessionResponse :=
  let info := jp_info plan in
  mkSessionResponse (jp_created plan) (hex_bytes (i_ID info)) (if jp_created plan && i_Encrypted info then StdEncoding (i_MasterKey info) else "") (i_Encrypted info)
    (if i_Encrypted info then "" else "plaintext_mode") (Z.of_nat (Packet.MaxPayload (i_Encrypted info))) Packet.ProtocolVersion (i_ExpiresAt info).
Definition make_response (actorID : Z) (plan : voiceJoinPlan) (v : StateVersion) (state : StateCommand) : result voiceJoinResponse err :=
  if bool_decide (i_ID (jp_info plan) = zero_id) || negb (i_UserID (jp_info plan) =? actorID) then Err ErrRealtimeUnavailable
  else Ok (mkJoinResponse (jp_channel plan) (snapshotMembership <$> filter (fun a => va_ChannelID a = jp_channelID plan) (VoiceAuthorities v)) (session_response plan)
             (sc_Cursor state) (cp_StreamEpoch (sc_Checkpoint state)) (pretty (cp_GEID (sc_Checkpoint state)))).
Definition canonical_body (response : voiceJoinResponse) : result string err :=
  match success_body response ≫= canonicalJSONValue json_canonical with Some b => Ok b | None => Err ErrEncode end.
(** The answer made from one version: cursor, response and body. *)
Definition join_result (actorID commandID : Z) (plan : voiceJoinPlan) (v : StateVersion) (cp : Checkpoint) : result voiceJoinResult err :=
  cursor <-? issued actorID v ;;
  let state := mkStateCommand commandID cursor cp None in
  response <-? make_response actorID plan v state ;; body <-? canonical_body response ;; Ok (mkJoinResult response state body).

Definition stateless : StateCommand := mkStateCommand 0 "" no_checkpoint None.

(** Already bound to this channel by this connection. *)
Definition join_noop (actorID : Z) (channel : Channel) (v : StateVersion) (a : VoiceAuthority) : mut (MutationResult JoinValue) :=
  s <=~ on_manager (fun n w => Session.Get w (va_VoiceSessionID a) (mgr_now n) (mgr_between n)) ;;
  match s with
  | Some snap =>
      if Session.sn_UserID snap =? actorID
      then reply_error (call CallMarkNoop) ;;=
           mret (mkMutation (Some (JoinPlanned (mkJoinPlan (snapshotChannel channel) (ch_ID channel) (snapshot_info snap) false (Some v) [] []))) stateless)
      else refuse ErrVoiceStale
  | None => refuse ErrVoiceStale
  end.

(** The staged change of the coordinator, and the authority it proposes. *)
Definition stage_replacement (owner : ControlConnectionRef) (current : option VoiceAuthority) (channelID : Z) (prepared : option Session.loc) (joinedAt : Z)
  : mut (VoiceAuthorityStage * VoiceAuthority) :=
  stage <=~ runtime (fun _ r => let '(s, c) := Connection.StageVoiceReplacement (rt_co r) (rt_mgr r) owner current channelID prepared joinedAt in
                               (s, mkRuntime c (rt_mgr r) (rt_limiter r))) ;;
  s <=~ connected stage ;;
  proposed <=~ on_manager (fun _ w => (Connection.ProposedAuthority s w, w)) ;;
  p <=~ connected proposed ;; mret (s, p).

Definition join_info (actorID : Z) (proposed : VoiceAuthority) (prepared : option Session.loc) (s : Standing) : mut SessionInfo :=
  match prepared with
  | Some _ => on_manager (fun _ w => (Session.Info w prepared, w))
  | None => mret match s with
                 | Standing_live info => info
                 | _ => mkInfo (va_VoiceSessionID proposed) actorID voiceEncrypted [] 0 false
                 end
  end.

(** Publication of a join, from the sessions on. *)
Definition join_publish (actorID channelID commandID joinedAt : Z) (owner : ControlConnectionRef) (channel : Channel) (v : StateVersion)
    (current_ projected : option VoiceAuthority) (pending : option (VoiceAuthority * string)) (prepared : option Session.loc) (s : Standing) : mut (MutationResult JoinValue) :=
  sp <=~ stage_replacement owner current_ channelID prepared joinedAt ;;
  let '(stage, proposed) := sp in
  pv <=~ current ;;
  c <=~ projected_state (SetVoiceAuthority (BuildRuntimeCandidate pv.2) actorID (Some proposed)) ;;
  timers <=~ projected_state (join_timers joinedAt channel projected proposed v c) ;;
  let '(c, schedules, cancellations) := timers in
  events <=~ encoded (join_events pending (natural_expiry s) current_ projected proposed v) ;;
  info <=~ join_info actorID proposed prepared s ;;
  let plan := mkJoinPlan (snapshotChannel channel) (ch_ID channel) info (is_some prepared) None schedules cancellations in
  reserve_runtime pv.1 c events (Some (fun n => join_commit n stage s proposed)) ;;=
  reserved <=~ reserved_result ;;
  result <=~ ensure (join_result actorID commandID plan (pu_Version reserved) (pu_Checkpoint reserved)) ;;
  reply_error (call CallMarkRuntimeReady) ;;= mret (mkMutation (Some (JoinPrepared plan result)) (jr_state result)).

(** The [Execute] callback of [JoinVoice]. *)
Definition JoinVoice (actorID channelID : Z) (controlConnectionID expectedID : SessionID) (input : VoiceJoinInput) (sourceIP : string) (commandID : Z)
  : mut (MutationResult JoinValue) :=
  joinedAt <=~ voiceNowMillis ;;
  pv <=~ current ;; let v := pv.2 in
  owner <=~ active_owner actorID controlConnectionID joinedAt ;;
  channel <=~ ensure (join_channel actorID channelID v) ;;
  current_ <=~ on_connections (fun c => Connection.GetVoiceAuthority c actorID) ;;
  let projected := getVoiceAuthority v actorID in
  pending <=~ pending_teardown actorID current_ projected ;;
  ensure (join_expected expectedID channelID (vj_ForceNew input) owner current_ pending) ;;=
  if already_there channelID (vj_ForceNew input) owner current_
  then match current_ with Some a => join_noop actorID channel v a | None => refuse ErrVoiceStale end
  else if negb (has_room channelID channel v projected) then refuse ErrVoiceFull
  else
    let replacing := match current_ with Some a => vj_ForceNew input || negb (owned owner a) | None => true end in
    prepared <=~ (if replacing then l <=~ prepare_session actorID sourceIP (vj_DeviceID input) joinedAt ;; mret (Some l) else mret None) ;;
    s <=~ standing actorID current_ replacing ;;
    join_publish actorID channelID commandID joinedAt owner channel v current_ projected pending prepared s.

(** ** Leaving *)

Definition leave_commit (n : nat) (a : VoiceAuthority) : RuntimeCommit (W := world) := fun w =>
  let r := others n (w_voice w) in
  match Connection.BeginVoiceDisconnectForPublicationWithGate (rt_co r) a (Some (rt_mgr r)) (mgr_now n) with
  | (Err _, m, c) => (set_runtime (mkRuntime c (default (rt_mgr r) m) (rt_limiter r)) w, (Some CommitFailed, None))
  | (Ok None, m, c) => (set_runtime (mkRuntime c (default (rt_mgr r) m) (rt_limiter r)) w, (Some CommitCanceled, None))
  | (Ok (Some (_, d)), m, c) =>
      let r := others (S n) (mkRuntime c (default (rt_mgr r) m) (rt_limiter r)) in
      let '(c, m) := Connection.run_return_drain (rt_co r) (rt_mgr r) d in (set_runtime (mkRuntime c m (rt_limiter r)) w, (None, None))
  end.
Definition leave_schedule (nowMillis : Z) (channel : Channel) (v : StateVersion) (c : StateCandidate) : option (option ExpirySchedule * StateCandidate) :=
  if ch_Temporary channel && (activeChannelMembers (ch_ID channel) v <=? 1)
  then '(s, c) ← ScheduleTemporaryExpiry c (ch_ID channel) (nowMillis + 30000); Some (Some s, c) else Some (None, c).
Definition leave_events (a : VoiceAuthority) (v : StateVersion) : option (list StateEventTemplate) :=
  gone ← voiceMemberEvent a false v; events ← voiceAuthorityEventTemplates (Some a) None "left"; Some (events ++ [gone]).

Definition leave_publish (actorID commandID nowMillis : Z) (a : VoiceAuthority) (channel : Channel) (v : StateVersion) : mut (MutationResult LeaveValue) :=
  pv <=~ current ;;
  c <=~ projected_state (SetVoiceAuthority (BuildRuntimeCandidate pv.2) actorID None) ;;
  events <=~ encoded (leave_events a v) ;;
  sc <=~ projected_state (leave_schedule nowMillis channel v c) ;;
  reserve_runtime pv.1 sc.2 events (Some (fun n => leave_commit n a)) ;;=
  reserved <=~ reserved_result ;;
  cursor <=~ ensure (issued actorID (pu_Version reserved)) ;;
  reply_error (call CallMarkRuntimeReady) ;;=
  let state := mkStateCommand commandID cursor (pu_Checkpoint reserved) None in
  mret (mkMutation (Some (LeavePrepared (mkLeavePlan (Some v) (ch_ID channel) sc.1) state)) state).

(** The [Execute] callback of [LeaveVoice]. *)
Definition LeaveVoice (actorID : Z) (controlConnectionID expectedID : SessionID) (commandID : Z) : mut (MutationResult LeaveValue) :=
  nowMillis <=~ voiceNowMillis ;;
  pv <=~ current ;; let v := pv.2 in
  owner <=~ active_owner actorID controlConnectionID nowMillis ;;
  current_ <=~ on_connections (fun c => Connection.GetVoiceAuthority c actorID) ;;
  match current_ with
  | None => reply_error (call CallMarkNoop) ;;= mret (mkMutation (Some (LeavePlanned (mkLeavePlan (Some v) 0 None))) stateless)
  | Some a =>
      if negb (owned owner a) then refuse ErrVoiceNotOwner
      else if negb (bool_decide (va_VoiceSessionID a = expectedID)) then refuse ErrVoiceStale
      else match getChannel v (va_ChannelID a) with
           | None => refuse ErrTargetNotFound
           | Some channel => leave_publish actorID commandID nowMillis a channel v
           end
  end.

(** ** Around the command *)

Context (json_input : VoiceJoinInput + VoiceLeaveInput -> option string) (ToUpper : string -> string) (hmac_sha256 : string -> string -> bytes)
        (signer : RequestIdentitySigner).
Inductive OuterError := OuterService (e : err) | OuterIdentity (e : IdempotencyError) | OuterRuntime (e : RuntimeError) | OuterMarshal | OuterSequencer (e : SequencerError).

Definition NewHTTPCommandIdentity (principalID : Z) (method route : string) (pathIDs preconditions : list CanonicalField) (raw : option string)
  : result HTTPCommandIdentity OuterError :=
  match raw with None => Err OuterMarshal | Some dto => Ok (mkHTTPIdentity principalID method route pathIDs dto preconditions "") end.
Definition over (i : HTTPCommandIdentity) (conn : SessionID) : HTTPCommandIdentity :=
  mkHTTPIdentity (hi_PrincipalID i) (hi_Method i) (hi_RouteTemplate i) (hi_PathIDs i) (hi_CanonicalDTO i) (hi_PreconditionHeaders i) (hex_bytes conn).
Definition request_hmac (i : HTTPCommandIdentity) : result string OuterError :=
  match Sum json_canonical ToUpper hmac_sha256 signer i with Ok h => Ok h | Err e => Err (OuterIdentity e) end.

(** Before the claim: the expected session and the request's digest. *)
Definition join_request (actorID channelID : Z) (conn : SessionID) (key : string) (input : VoiceJoinInput) : result (SessionID * string) OuterError :=
  if (actorID <=? 0) || (channelID <=? 0) || bool_decide (conn = zero_id) then Err (OuterService ErrRealtimeUnavailable)
  else if negb (IdempotencyKeyValid key) || negb (validVoiceDeviceID (vj_DeviceID input)) then Err (OuterIdentity ErrInvalidRequestIdentity)
  else match parseVoiceSessionID (vj_ExpectedVoiceSessionID input) with
  | Err e => Err (OuterService (Own e))
  | Ok expectedID =>
      identity <-? NewHTTPCommandIdentity actorID "POST" "/api/v0/channels/:id/join" [mkField "id" (pretty channelID)] [] (json_input (inl input)) ;;
      h <-? request_hmac (over identity conn) ;; Ok (expectedID, h)
  end.
Definition leave_request (actorID : Z) (conn : SessionID) (input : VoiceLeaveInput) : result (SessionID * string) OuterError :=
  if (actorID <=? 0) || bool_decide (conn = zero_id) then Err (OuterService ErrRealtimeUnavailable)
  else match parseVoiceSessionID (vl_VoiceSessionID input) with
  | Err _ => Err (OuterService (Own ErrVoiceStale))
  | Ok expectedID =>
      if bool_decide (expectedID = zero_id) then Err (OuterService (Own ErrVoiceStale))
      else identity <-? NewHTTPCommandIdentity actorID "POST" "/api/v0/channels/current/leave" [] [] (json_input (inr input)) ;;
           h <-? request_hmac (over identity conn) ;; Ok (expectedID, h)
  end.

(** What a retry key's entry keeps: the answer of a join or of a leave. *)
Inductive VoiceAnswer := JoinAnswer (r : voiceJoinResult) | LeaveAnswer (s : StateCommand).
#[local] Abbreviation cache := (RuntimeIdempotencyCache VoiceAnswer).
(** A request that is not the owner of its key waits for the owner's answer. *)
Definition replay_join (cached : RuntimeCommandResult VoiceAnswer) : result voiceJoinResult OuterError :=
  match rr_Value cached with JoinAnswer r => Ok r | LeaveAnswer _ => Err (OuterIdentity ErrInvalidCommandResult) end.
Definition replay_leave (cached : RuntimeCommandResult VoiceAnswer) : result StateCommand OuterError :=
  match rr_Value cached with LeaveAnswer s => Ok s | JoinAnswer _ => Err (OuterIdentity ErrInvalidCommandResult) end.

Definition no_store : IdempotencyHeaders := mkHeaders "" "" "" "no-store" "no-cache".
Definition join_answer (r : voiceJoinResult) : RuntimeCommandResult VoiceAnswer :=
  mkRuntimeResult (mkCommandResult (sc_CommandID (jr_state r)) 200 (jr_body r) no_store (sc_Checkpoint (jr_state r)) (sc_Cursor (jr_state r))) (JoinAnswer r).
Definition leave_answer (s : StateCommand) : RuntimeCommandResult VoiceAnswer :=
  mkRuntimeResult (mkCommandResult (sc_CommandID s) 204 "" no_store (sc_Checkpoint s) (sc_Cursor s)) (LeaveAnswer s).

(** The version and checkpoint a no-op answers with. *)
Definition noop_version (publication : option PublicationResult) (kept : option StateVersion) : option (StateVersion * Checkpoint) :=
  match publication with
  | Some p => Some (pu_Version p, pu_Checkpoint p)
  | None => (fun v => (v, checkpoint v)) <$> kept
  end.
Definition join_plan (v : JoinValue) : voiceJoinPlan := match v with JoinPlanned p | JoinPrepared p _ => p end.
Definition join_outcome (actorID : Z) (completion : CommandCompletion (MutationResult JoinValue)) : result voiceJoinResult OuterError :=
  match mr_value (cc_Value completion) with
  | None => Err (OuterService ErrRealtimeUnavailable)
  | Some (JoinPrepared _ r) => Ok r
  | Some (JoinPlanned plan) =>
      match noop_version (cc_Publication completion) (jp_version plan) with
      | None => Err (OuterService ErrRealtimeUnavailable)
      | Some (v, cp) => match join_result actorID (cc_CommandID completion) plan v cp with Ok r => Ok r | Err e => Err (OuterService e) end
      end
  end.
Definition leave_plan (v : LeaveValue) : voiceLeavePlan := match v with LeavePlanned p | LeavePrepared p _ => p end.
Definition leave_outcome (actorID : Z) (completion : CommandCompletion (MutationResult LeaveValue)) : result StateCommand OuterError :=
  match mr_value (cc_Value completion) with
  | None => Err (OuterService ErrRealtimeUnavailable)
  | Some (LeavePrepared _ s) => Ok s
  | Some (LeavePlanned plan) =>
      match noop_version (cc_Publication completion) (lv_version plan) with
      | None => Err (OuterService ErrRealtimeUnavailable)
      | Some (v, cp) => match issued actorID v with Ok cursor => Ok (mkStateCommand (cc_CommandID completion) cursor cp None) | Err e => Err (OuterService e) end
      end
  end.
(** The owner completes its entry, or its deferred call aborts it. *)
Definition complete_or_abort {A} (c : cache) (now : Z) (claim : RuntimeIdempotencyClaim) (answer : A -> RuntimeCommandResult VoiceAnswer) (o : result A OuterError)
  : option (result A OuterError * cache) :=
  match o with
  | Err e => '(_, c) ← Idempotency.Abort c claim; Some (Err e, c)
  | Ok r => '(failed, c) ← Complete json_canonical c now claim (answer r);
            match failed with
            | None => Some (Ok r, c)
            | Some e => '(_, c) ← Idempotency.Abort c claim; Some (Err (OuterRuntime e), c)
            end
  end.
Definition join_settle (w : world) (plan : voiceJoinPlan) : world := schedule_timers (jp_schedules plan) (cancel_timers (jp_cancellations plan) w).
Definition leave_settle (w : world) (plan : voiceLeavePlan) : world :=
  schedule_timers (match lv_schedule plan with Some s => [(lv_channelID plan, s)] | None => [] end) w.
(** After the sequencer's answer. *)
Definition finish_join (actorID : Z) (c : cache) (now : Z) (claim : RuntimeIdempotencyClaim) (answer : result (CommandCompletion (MutationResult JoinValue)) SequencerError)
    (w : world) : option (result voiceJoinResult OuterError * cache * world) :=
  let '(o, w) := match answer with
                 | Err e => (Err (OuterSequencer e), w)
                 | Ok completion => (join_outcome actorID completion, match mr_value (cc_Value completion) with Some v => join_settle w (join_plan v) | None => w end)
                 end in
  '(r, c) ← complete_or_abort c now claim join_answer o; Some (r, c, w).
Definition finish_leave (actorID : Z) (c : cache) (now : Z) (claim : RuntimeIdempotencyClaim) (answer : result (CommandCompletion (MutationResult LeaveValue)) SequencerError)
    (w : world) : option (result StateCommand OuterError * cache * world) :=
  let '(o, w) := match answer with
                 | Err e => (Err (OuterSequencer e), w)
                 | Ok completion => (leave_outcome actorID completion, match mr_value (cc_Value completion) with Some v => leave_settle w (leave_plan v) | None => w end)
                 end in
  '(r, c) ← complete_or_abort c now claim leave_answer o; Some (r, c, w).

(** The barriers of both commands: the actor's lock, the gate ([None] when it
    cannot be taken), then the actor's relay gate. *)
Definition acquire_voice (actorID : Z) (gate : option SequencerError) (w : world) : world * Acquired (W := world) :=
  match gate with
  | Some e => (w, AcquireErr e)
  | None => let on f (w : world) := set_runtime (mkRuntime (f (rt_co (w_voice w))) (rt_mgr (w_voice w)) (rt_limiter (w_voice w))) w in
            (on (fun c => Connection.AcquireVoiceRelayGate c actorID) w, AcquireOk (on (fun c => Connection.releaseRelay c actorID)))
  end.
End Runtime.

(** ** A teardown the coordinator made ([VoiceAuthorityProjection]) *)

Section Projection.
Context `{!EventJson} {R : Type}.
Definition VoiceAuthorityProjection (voiceNow : Z) (c : StateCandidate) (previous current : option VoiceAuthority)
  : result (list StateEventTemplate * (World R -> World R) * StateCandidate) (ServiceError VoiceError) :=
  match previous, current with
  | Some a, None =>
      match getChannel (version c) (va_ChannelID a) with
      | None => Ok ([], fun w => w, c)
      | Some channel =>
          match voiceMemberEvent a false (base c) with
          | None => Err ErrEncode
          | Some gone =>
              let '(c, canceled) := clear_expiry c (va_ChannelID a) in
              if ch_Temporary channel && (activeChannelMembers (va_ChannelID a) (version c) =? 0)
              then match ScheduleTemporaryExpiry c (va_ChannelID a) (voiceNow + 30000) with
                   | None => Err (ErrOfState (ErrInvalidProjection None))
                   | Some (s, c) => Ok ([gone], fun w => schedule_timers [(va_ChannelID a, s)] (cancel_timers canceled w), c)
                   end
              else Ok ([gone], cancel_timers canceled, c)
          end
      end
  | _, _ => Ok ([], fun w => w, c)
  end.
End Projection.
End Voice.
