(* ===== verification/VoiceProps.v ===== *)
(** * VoiceProps: joining and leaving keep the three parts of voice in step

    The budget of new sessions, and the two commands of [channel/voice.go]:
    whatever other goroutines do to the coordinator and the session manager
    while a command runs, a command that publishes installed one authority for
    the user, in the coordinator and in the published state alike, in place of
    one it was allowed to replace. *)

From S2P Require Import Prelude Packet Session State StateProps StateRing Visibility Rbac Support Cursor Snapshot Lane Connection ConnectionProps.
From S2P Require Import EventBus EventBusProps Publication PublicationProps Sequencer Database DatabaseProps Stores Installation InstallationProps.
From S2P Require Import Identity Idempotency Durable DurableProps Events Service ServiceProps ChannelService ChannelProps Voice.
From stdpp Require Import base gmap strings list sorting relations.
From Stdlib Require Import ZArith Lia.
#[local] Open Scope string_scope.
#[local] Open Scope list_scope.
#[local] Open Scope Z_scope.

Module VoiceProps.
Import State StateRing Visibility Snapshot EventBus Publication Sequencer Database DatabaseProps InstallationProps Identity Idempotency Durable Events Service ServiceProps Voice.
Import Connection (ConnectionCoordinator, ControlConnectionRef, r_ID, r_UserID, r_Generation, VoiceAuthorityStage, cm_Current, cm_Drain, cm_Cleanup, cm_Release, st_owner,
  with_user, reading, locked, acquireUser, releaseUser, put, emit, user_at).
Import ConnectionProps (reachable, mkSys, sy_co, voice_of, user_sect, index_ok, reachable_inv, iv_index, with_user_spec, release_section, apply_commit).
Import Stores.Tx (StoreEnv, Act, fault, clock, gen, tx_db, tx_step, next_step).
#[local] Open Scope mutation_scope.

(** ** The budget of new sessions *)

Module Limiter.
Definition at_key (l : gmap voiceCreateKey (list Z)) (k : voiceCreateKey) : list Z := default [] (l !! k).
(** A run of the limiter, with the calls it granted, in order. *)
#[local] Abbreviation creation := (voiceCreateKey * Z)%type.
Definition allow_step (s : voiceCreateLimiter * list creation) (c : creation) : voiceCreateLimiter * list creation :=
  let '(ok, l) := Voice.Allow s.1 c.1.1 c.1.2 c.2 in (l, if ok then s.2 ++ [c] else s.2).
Definition allow_run (calls : list creation) : voiceCreateLimiter * list creation := fold_left allow_step calls (newVoiceCreateLimiter, []).
Definition times (k : voiceCreateKey) (g : list creation) : list Z := (filter (fun c : creation => c.1 = k) g).*2.
Definition recent (cutoff : Z) (l : list Z) : list Z := filter (fun e => cutoff < e) l.
Definition within (t : Z) (l : list Z) : list Z := filter (fun e => t - voiceCreateWindow < e <= t) l.

Lemma recent_mono a b l l' : a <= b -> recent a l = recent a l' -> recent b l = recent b l'.
Proof. intros Hab E. unfold recent in *. rewrite <- (list_filter_filter_l (fun e => b < e) (fun e => a < e) l), E, list_filter_filter_l by lia. done. Qed.
Lemma recent_all cutoff l : Forall (fun e => cutoff < e) l -> recent cutoff l = l.
Proof. unfold recent. induction 1 as [|x l Hx Hl IH]; [done|]. by rewrite filter_cons_True, IH. Qed.
Lemma recent_none cutoff l : Forall (fun e => e <= cutoff) l -> recent cutoff l = [].
Proof. unfold recent. induction 1 as [|x l Hx Hl IH]; [done|]. rewrite filter_cons_False by lia. done. Qed.
Lemma drop_recent cutoff l : StronglySorted Z.le l -> drop_expired cutoff l = recent cutoff l.
Proof.
  induction 1 as [|x l Hs IH Hx]; [done|]. cbn [drop_expired]. destruct (Z.leb_spec x cutoff) as [Hle|Hlt].
  - unfold recent. rewrite filter_cons_False by lia. exact IH.
  - symmetry. apply recent_all. constructor; [lia|]. eapply Forall_impl; [exact Hx|]. intros y Hy. cbn in Hy. lia.
Qed.
Lemma sorted_recent cutoff l : StronglySorted Z.le l -> StronglySorted Z.le (recent cutoff l).
Proof.
  induction 1 as [|x l Hs IH Hx]; [constructor|]. unfold recent in *. destruct (decide (cutoff < x)); [rewrite filter_cons_True by done|by rewrite filter_cons_False].
  constructor; [done|]. apply Forall_forall. intros y [_ Hy]%list_elem_of_filter. by eapply Forall_forall in Hx.
Qed.
Lemma sorted_snoc l x : StronglySorted Z.le l -> Forall (fun e => e <= x) l -> StronglySorted Z.le (l ++ [x]).
Proof.
  induction 1 as [|y l Hs IH Hy]; intros Hl; [repeat constructor|]. apply Forall_cons in Hl as [H1 H2]. cbn. constructor; [by apply IH|].
  apply Forall_app. split; [done|]. by repeat constructor.
Qed.
Lemma times_app k g c : times k (g ++ [c]) = if decide (c.1 = k) then times k g ++ [c.2] else times k g.
Proof.
  unfold times. rewrite filter_app. case_decide; [rewrite filter_cons_True, filter_nil, fmap_app by done; done|].
  rewrite filter_cons_False, filter_nil, app_nil_r by done. done.
Qed.
Lemma sorted_last l x : StronglySorted Z.le l -> last l = Some x -> Forall (fun e => e <= x) l.
Proof.
  induction 1 as [|y l Hs IH Hy]; [done|]. destruct l as [|z l]; [intros [= ->]; by repeat constructor|]. rewrite last_cons_cons. intros Hx. specialize (IH Hx).
  constructor; [|done]. etrans; [by apply Forall_cons in Hy as [Hy _]|]. by apply Forall_cons in IH as [IH _].
Qed.

(** At the time of the last call: each key's list is sorted and holds exactly
    the recent grants, none later; no window held more than ten. *)
Record tracked (T : Z) (l : gmap voiceCreateKey (list Z)) (g : list creation) : Prop := {
  tr_size : Z.of_nat (size l) <= voiceCreateKeyCap;
  tr_sorted : forall k, StronglySorted Z.le (at_key l k);
  tr_recent : forall k, recent (T - voiceCreateWindow) (times k g) = recent (T - voiceCreateWindow) (at_key l k);
  tr_past : forall k, Forall (fun e => e <= T) (times k g);
  tr_window : forall k t, len (within t (times k g)) <= voiceCreateLimit
}.
Lemma tracked_later T T' l g : T <= T' -> tracked T l g -> tracked T' l g.
Proof.
  intros HT []. constructor; try done.
  - intros k. apply (recent_mono (T - voiceCreateWindow)); [lia|done].
  - intros k. eapply Forall_impl; [done|]. intros x Hx. cbn in Hx. lia.
Qed.
(** Entries that expired may be dropped from the table. *)
Lemma tracked_drop T l l' g : tracked T l g -> (size l' <= size l)%nat ->
  (forall k, at_key l' k = at_key l k \/ at_key l' k = recent (T - voiceCreateWindow) (at_key l k) \/ at_key l' k = [] /\ recent (T - voiceCreateWindow) (at_key l k) = []) -> tracked T l' g.
Proof.
  intros [] Hs Hk. constructor; [lia| | |done|done].
  - intros k. destruct (Hk k) as [->|[->|[-> _]]]; [done|by apply sorted_recent|constructor].
  - intros k. rewrite tr_recent0. destruct (Hk k) as [->|[->|[-> ->]]]; [done| |done]. unfold recent. by rewrite list_filter_filter_l.
Qed.
Lemma within_grant T t l : Forall (fun e => e <= T) l -> T <= t -> len (within t (l ++ [T])) <= len (recent (T - voiceCreateWindow) l) + 1.
Proof.
  intros Hl Ht. unfold within, len. rewrite filter_app, length_app, Nat2Z.inj_add. apply Z.add_le_mono.
  - apply inj_le. unfold recent. rewrite <- (list_filter_filter_l (fun e => t - voiceCreateWindow < e <= t) (fun e => T - voiceCreateWindow < e)) by lia. apply length_filter.
  - transitivity (Z.of_nat (length [T])); [apply inj_le, length_filter|done].
Qed.

Lemma prune_at l cutoff k : pruneExpiredLocked l cutoff !! k = match l !! k with
  | Some es => if match last es with Some e => cutoff <? e | None => false end then Some es else None
  | None => None
  end.
Proof.
  unfold pruneExpiredLocked. destruct (l !! k) as [es|] eqn:E.
  - destruct (match last es with Some e => _ | None => _ end) eqn:Eb; [by apply map_lookup_filter_Some|].
    apply map_lookup_filter_None. right. intros x Hx. pose proof (eq_trans (eq_sym Hx) E) as Hy. injection Hy as ->. cbn. by rewrite Eb.
  - apply map_lookup_filter_None. by left.
Qed.
Lemma pruned T l g : tracked T l g -> tracked T (pruneExpiredLocked l (T - voiceCreateWindow)) g.
Proof.
  intros Ht. apply (tracked_drop T l); [done|apply map_subseteq_size, map_filter_subseteq|]. intros k. unfold at_key. rewrite prune_at.
  pose proof (tr_sorted _ _ _ Ht k) as Hs. unfold at_key in Hs. destruct (l !! k) as [es|]; cbn in Hs |- *; [|by left].
  destruct (last es) as [x|] eqn:Ex; [|apply last_None in Ex as ->; by left]. destruct (Z.ltb_spec (T - voiceCreateWindow) x) as [?|Hx]; [by left|]. right. right. split; [done|].
  apply recent_none. pose proof (sorted_last _ _ Hs Ex) as Hl. eapply Forall_impl; [exact Hl|]. intros y Hy. cbn in Hy. lia.
Qed.
(** A grant: the key's list was short, and the table has a place for it. *)
Lemma granted T l g k es : tracked T l g -> es = recent (T - voiceCreateWindow) (times k g) -> len es < voiceCreateLimit ->
  is_Some (l !! k) \/ Z.of_nat (size l) < voiceCreateKeyCap -> tracked T (<[k := es ++ [T]]> l) (g ++ [(k, T)]).
Proof.
  intros Ht -> Hlen Hroom. destruct Ht. assert (Hat : forall k' es, at_key (<[k := es]> l) k' = if decide (k = k') then es else at_key l k').
  { intros k' es. unfold at_key. case_decide; subst; [by rewrite lookup_insert_eq|by rewrite lookup_insert_ne]. }
  constructor.
  - destruct Hroom as [Hk|Hk]; [rewrite map_size_insert_Some by done; done|]. transitivity (Z.of_nat (S (size l))); [|lia]. apply inj_le.
    rewrite map_size_insert. destruct (l !! k); cbn; lia.
  - intros k'. rewrite Hat. case_decide; [|done]. subst k'. apply sorted_snoc; [rewrite tr_recent0; by apply sorted_recent|].
    apply Forall_forall. intros x [_ Hx]%list_elem_of_filter. specialize (tr_past0 k). rewrite Forall_forall in tr_past0. by apply tr_past0.
  - intros k'. rewrite Hat, times_app. cbn. case_decide; [|done]. subst k'. unfold recent. rewrite !filter_app. f_equal. by rewrite list_filter_filter_l.
  - intros k'. rewrite times_app. cbn. case_decide; [|done]. apply Forall_app. split; [done|]. by repeat constructor.
  - intros k' t. rewrite times_app. cbn. case_decide; [|done]. subst k'. destruct (decide (T <= t)) as [Hle|Hgt].
    + etrans; [by apply within_grant|]. lia.
    + unfold within. rewrite filter_app, filter_cons_False, filter_nil, app_nil_r by lia. apply tr_window0.
Qed.
Lemma allow_tracked T l g u ip now : T <= now -> tracked T (li_entries l) g ->
  tracked now (li_entries (allow_step (l, g) ((u, ip), now)).1) (allow_step (l, g) ((u, ip), now)).2.
Proof.
  intros HT Ht. apply (tracked_later T now) in Ht; [|done]. unfold allow_step, Voice.Allow. cbn [fst snd]. destruct (_ || _); [done|]. cbv zeta. destruct l as [l]. cbn [li_entries] in *.
  set (k := (u, ip)). set (cutoff := now - voiceCreateWindow).
  assert (He : drop_expired cutoff (default [] (l !! k)) = recent cutoff (times k g)) by (rewrite drop_recent by apply Ht; symmetry; apply Ht). rewrite He.
  set (es := recent cutoff (times k g)) in *. case_bool_decide as Hes.
  - assert (Hd : tracked now (delete k l) g).
    { apply (tracked_drop now l); [done|apply map_subseteq_size, delete_subseteq|]. intros k'. unfold at_key. destruct (decide (k = k')) as [<-|]; [|left; by rewrite lookup_delete_ne].
      right. right. rewrite lookup_delete_eq. split; [done|]. fold (at_key l k). rewrite <- (tr_recent _ _ _ Ht). exact Hes. }
    cbn [andb]. assert (Hgo : forall l', tracked now l' g -> let r := (if voiceCreateKeyCap <=? Z.of_nat (size l') then (false, mkLimiter l') else
        if voiceCreateLimit <=? len es then (false, mkLimiter (<[k := es]> l')) else (true, mkLimiter (<[k := es ++ [now]]> l'))) in tracked now (li_entries r.2) (if r.1 then g ++ [(k, now)] else g)).
    { intros l' Hl'. cbv zeta. destruct (Z.leb_spec voiceCreateKeyCap (Z.of_nat (size l'))) as [?|Hroom]; [done|]. rewrite Hes. cbn [len length Z.of_nat].
      destruct (Z.leb_spec voiceCreateLimit 0); [done|]. cbn. apply (granted _ _ _ _ []); auto. }
    destruct (voiceCreateKeyCap <=? Z.of_nat (size (delete k l))); [specialize (Hgo _ (pruned _ _ _ Hd))|specialize (Hgo _ Hd)]; cbv zeta in Hgo;
      destruct (if _ <=? _ then _ else _) as [ok l']; done.
  - cbn [andb]. assert (Hk : is_Some (l !! k)). { destruct (l !! k) eqn:E; [by eexists|]. by rewrite <- He in Hes. }
    destruct (Z.leb_spec voiceCreateLimit (len es)); cbn; [|apply granted; auto].
    apply (tracked_drop now l); [done|by rewrite map_size_insert_Some|]. intros k'. unfold at_key. destruct (decide (k = k')) as [<-|]; [|left; by rewrite lookup_insert_ne].
    right. left. rewrite lookup_insert_eq. cbn. unfold es. fold (at_key l k). apply Ht.
Qed.
Lemma run_tracked calls : StronglySorted Z.le calls.*2 -> forall T, Forall (fun c : creation => c.2 <= T) calls -> tracked T (li_entries (allow_run calls).1) (allow_run calls).2.
Proof.
  induction calls as [|c calls IH] using rev_ind; intros Hs T HT.
  - cbn. constructor; cbn; try done; intros k; constructor.
  - assert (Ea : allow_run (calls ++ [c]) = allow_step (allow_run calls) c) by (unfold allow_run; by rewrite fold_left_app). rewrite Ea. destruct c as [[u ip] now]. rewrite fmap_app in Hs. apply StronglySorted_app in Hs as (Hle & Hs & _).
    apply Forall_app in HT as [_ HT]. apply Forall_cons in HT as [HT _]. destruct (allow_run calls) as [l g] eqn:E. apply (tracked_later now); [done|].
    apply (allow_tracked now); [done|]. apply (IH Hs). apply Forall_forall. intros c Hc. cbn. apply Hle; [by apply list_elem_of_fmap_2|by left].
Qed.
Lemma allow_grants T l g u ip : tracked T (li_entries l) g -> 0 < u -> T <> zero_time -> Z.of_nat (size (li_entries l)) < voiceCreateKeyCap ->
  len (recent (T - voiceCreateWindow) (times (u, ip) g)) < voiceCreateLimit -> (Voice.Allow l u ip T).1 = true.
Proof.
  intros Ht Hu Hz Hsize Hlen. unfold Voice.Allow. destruct (Z.leb_spec u 0); [lia|]. destruct (Z.eqb_spec T zero_time); [done|]. cbv zeta. destruct l as [l]. cbn [li_entries orb] in *.
  assert (He : drop_expired (T - voiceCreateWindow) (default [] (l !! (u, ip))) = recent (T - voiceCreateWindow) (times (u, ip) g)) by (rewrite drop_recent by apply Ht; symmetry; apply Ht).
  rewrite He. assert (Hd : (size (delete (u, ip) l) <= size l)%nat) by apply map_subseteq_size, delete_subseteq.
  case_bool_decide; cbn [andb]; [|by rewrite (proj2 (Z.leb_gt _ _) Hlen)].
  assert (Hf : (voiceCreateKeyCap <=? Z.of_nat (size (delete (u, ip) l))) = false) by (apply Z.leb_gt; lia). rewrite !Hf. by rewrite (proj2 (Z.leb_gt _ _) Hlen).
Qed.

(** C37: the budget of new sessions.  However calls arrive, at times that do not
    go back, no minute holds more than ten grants of one user and source, and
    the table never has more than 8192 keys; and while it has fewer, a call is
    refused only to a pair that was granted ten in the last minute. *)
Theorem session_budget calls : StronglySorted Z.le calls.*2 ->
  Z.of_nat (size (li_entries (allow_run calls).1)) <= 8192 /\ (forall k t, len (within t (times k (allow_run calls).2)) <= 10) /\
  forall u ip now, Forall (fun c : creation => c.2 <= now) calls -> 0 < u -> now <> zero_time -> Z.of_nat (size (li_entries (allow_run calls).1)) < 8192 ->
    (Voice.Allow (allow_run calls).1 u ip now).1 = false -> len (recent (now - voiceCreateWindow) (times (u, ip) (allow_run calls).2)) = 10.
Proof.
  intros Hs. assert (Hb : exists T, Forall (fun c : creation => c.2 <= T) calls).
  { clear. induction calls as [|c calls [T IH]]; [by exists 0|]. exists (Z.max T c.2). constructor; [lia|]. eapply Forall_impl; [exact IH|]. intros x Hx. cbn in Hx. lia. }
  destruct Hb as [T HT]. pose proof (run_tracked calls Hs T HT) as Ht. split_and!; [apply Ht|apply Ht|]. intros u ip now Hn Hu Hz Hsize Ha. apply Z.le_antisymm.
  - pose proof (run_tracked calls Hs now Hn) as Htn. etrans; [|exact (tr_window _ _ _ Htn (u, ip) now)]. apply Z.eq_le_incl. f_equal. unfold recent, within, len. f_equal.
    pose proof (tr_past _ _ _ Htn (u, ip)) as Hp. induction Hp as [|x l Hx Hl IHl]; [done|]. rewrite !filter_cons, IHl. repeat case_decide; [done|lia|lia|done].
  - apply Z.nlt_ge. intros Hlt. pose proof (allow_grants now _ _ u ip (run_tracked calls Hs now Hn) Hu Hz Hsize Hlt) as Hg. rewrite Ha in Hg. done.
Qed.
Definition ex_calls : list creation := (fun t => ((7, "10.0.0.1"), t)) <$> [1; 2; 3; 4; 5; 6; 7; 8; 9; 10; 11].
Lemma session_budget_witness : len (allow_run ex_calls).2 = 10 /\ len (within 11 (times (7, "10.0.0.1") (allow_run ex_calls).2)) <= 10 /\
  len (recent (12 - voiceCreateWindow) (times (7, "10.0.0.1") (allow_run ex_calls).2)) = 10.
Proof.
  destruct (session_budget ex_calls) as (_ & Hw & Hr); [cbn; repeat (apply SSorted_nil || apply SSorted_cons || apply Forall_nil_2 || apply Forall_cons_2); lia|]. split_and!; [vm_compute; reflexivity|apply Hw|].
  apply Hr; [cbn; repeat (apply Forall_nil_2 || apply Forall_cons_2); cbn; lia|lia|done|vm_compute; reflexivity|vm_compute; reflexivity].
Defined.
End Limiter.

(** ** The coordinator *)

(** Some run of the coordinator's critical sections leads to it. *)
Definition live (c : ConnectionCoordinator) : Prop := exists ids claims, reachable (mkSys c ids claims).
Lemma live_index c : live c -> index_ok c.
Proof. intros (ids & cl & Hr). exact (iv_index _ (reachable_inv _ Hr)). Qed.
Lemma live_step c c' : live c -> (forall ids cl, exists ids' cl', ConnectionProps.sys_step (mkSys c ids cl) (mkSys c' ids' cl')) -> live c'.
Proof. intros (ids & cl & Hr) Hs. destruct (Hs ids cl) as (ids' & cl' & Hs'). exists ids', cl'. eapply rtc_r; [exact Hr|exact Hs']. Qed.
Lemma live_emit c es : live c -> live (emit c es).
Proof. intros Hl. apply (live_step c); [done|]. intros ids cl. exists ids, cl. apply ConnectionProps.ss_effects. Qed.
Lemma live_new : live Connection.NewConnectionCoordinator.
Proof. exists ∅, []. apply rtc_refl. Qed.

(** A whole operation: a section of one registry. *)
Lemma live_section {A} c userID (f : Connection.connectionUser -> A * Connection.connectionUser) :
  (forall c u, exists claim, user_sect c u (f u).2 claim) -> live c -> live (with_user c userID (locked f)).2.
Proof.
  intros Hf Hl. destruct (with_user_spec c userID (locked f) (live_index _ Hl)) as (c1 & l & u & Eu & Ha & Hu & Hat & Hok & Hid & Hp & Hul & Hix & _ & ->).
  assert (Hl1 : live c1) by (apply (live_step c); [done|]; intros ids cl; exists ids, cl; replace c1 with (acquireUser c userID).2 by (by rewrite <- Ha); apply ConnectionProps.ss_acquire).
  unfold locked. destruct (Hf c1 (user_at c1 l)) as [claim Hs]. destruct (f (user_at c1 l)) as [a u'] eqn:E. cbn [fst snd] in *.
  destruct (ConnectionProps.user_sect_ok _ _ _ _ Hs) as (Hok' & Hfr & _); [by rewrite Hat|].
  assert (Hl2 : live (put c1 l u')) by (apply (live_step c1); [done|]; intros ids cl; eexists ids, _; eapply ConnectionProps.ss_section; [|exact Hs]; by exists u).
  apply (live_step (put c1 l u')); [done|]. intros ids cl. exists ids, cl.
  assert (Hu' : Connection.co_heap (put c1 l u') !! l = Some u') by (cbn; by rewrite lookup_insert_eq).
  replace userID with (Connection.u_userID (user_at (put c1 l u') l)); [apply ConnectionProps.ss_release; exists u'; split; [done|]|].
  - rewrite (ConnectionProps.sf_refs _ _ Hfr), Hat. done.
  - unfold user_at. rewrite Hu'. cbn. by rewrite (ConnectionProps.sf_id _ _ Hfr), Hat.
Qed.
Lemma live_reading {A} c userID (f : Connection.connectionUser -> A) : live c -> live (with_user c userID (reading f)).2.
Proof.
  intros Hl. destruct (with_user_spec c userID (reading f) (live_index _ Hl)) as (c1 & l & u & Eu & Ha & Hu & Hat & Hok & Hid & Hp & Hul & Hix & _ & ->).
  assert (Hl1 : live c1) by (apply (live_step c); [done|]; intros ids cl; exists ids, cl; replace c1 with (acquireUser c userID).2 by (by rewrite <- Ha); apply ConnectionProps.ss_acquire).
  apply (live_step c1); [done|]. intros ids cl. exists ids, cl. cbn. rewrite <- Hid, <- Hat. apply ConnectionProps.ss_release. by exists u.
Qed.
Lemma live_ActiveConnection c u id : live c -> live (Connection.ActiveConnection c u id).2.
Proof. intros Hl. unfold Connection.ActiveConnection. destruct (_ || _); [done|by apply live_reading]. Qed.
Lemma live_LeaseActive c ref now : live c -> live (Connection.LeaseActive c ref now).2.
Proof. intros Hl. unfold Connection.LeaseActive. destruct (_ || _); [done|by apply live_reading]. Qed.
Lemma live_GetVoiceAuthority c u : live c -> live (Connection.GetVoiceAuthority c u).2.
Proof. intros Hl. unfold Connection.GetVoiceAuthority. destruct (_ <=? _); [done|by apply live_reading]. Qed.
Lemma live_Pending c u : live c -> live (Connection.PendingVoiceAuthorityTombstone c u).2.
Proof. intros Hl. unfold Connection.PendingVoiceAuthorityTombstone. destruct (_ <=? _); [done|by apply live_reading]. Qed.
Lemma live_Stage c w owner e ch pr j : live c -> live (Connection.StageVoiceReplacement c w owner e ch pr j).2.
Proof. intros Hl. unfold Connection.StageVoiceReplacement. cbv zeta. destruct (_ || _); [done|by apply live_reading]. Qed.
Create HintDb voice.
#[export] Hint Resolve live_ActiveConnection live_LeaseActive live_GetVoiceAuthority live_Pending live_Stage live_emit : voice.

Lemma live_apply c stage w allow acquire now env : live c -> live (Connection.apply c stage (Some w) allow acquire now env).2.
Proof.
  intros Hl. unfold Connection.apply. destruct (_ || _); [done|]. unfold Connection.AcquireVoiceRelayGate, Connection.releaseRelay.
  set (c0 := if acquire then _ else c). assert (Hl0 : live c0) by (subst c0; destruct acquire; [destruct (_ <=? _)|]; auto using live_emit).
  pose proof (live_section c0 (r_UserID (st_owner stage)) (Connection.apply_locked stage w allow now env)
    (fun c u => ex_intro _ None (ConnectionProps.us_apply c u stage w allow now env)) Hl0) as Hs.
  destruct (with_user _ _ _) as [[res w'] c']. cbn in Hs. destruct res; [done|]. cbn. destruct acquire; [destruct (_ <=? _)|]; auto using live_emit.
Qed.
Lemma disconnect_clears c a w acquire now res w' c' : live c -> Connection.beginVoiceDisconnectForPublication c a (Some w) acquire now = (res, w', c') ->
  live c' /\ match res with Ok (Some (_, d)) => voice_of c' (va_UserID a) = None /\ voice_of c (va_UserID a) = Some a /\ (acquire = false -> Connection.rd_gate d = None) | _ => True end.
Proof.
  intros Hl. unfold Connection.beginVoiceDisconnectForPublication. destruct (negb _); [by intros [= <- <- <-]|].
  unfold Connection.AcquireVoiceRelayGate, Connection.releaseRelay.
  set (c0 := if acquire then _ else c). assert (Hl0 : live c0) by (subst c0; destruct acquire; [destruct (_ <=? _)|]; auto using live_emit).
  assert (Hv0 : voice_of c0 (va_UserID a) = voice_of c (va_UserID a)) by (subst c0; destruct acquire; [destruct (_ <=? _)|]; done).
  set (f := Connection.voice_disconnect_locked a (Some w) None now).
  pose proof (live_section c0 (va_UserID a) f (fun c u => ex_intro _ None (ConnectionProps.us_disconnect c u a (Some w) None now)) Hl0) as Hs.
  destruct (with_user_spec c0 (va_UserID a) (locked f) (live_index _ Hl0)) as (c1 & l & u & Eu & Ha & Hu & Hat & Hok & Hid & Hp & Hul & Hix & _ & Ew).
  rewrite Ew in Hs |- *. unfold locked in *. rewrite Hat in Hs |- *. pose proof (ConnectionProps.user_sect_ok c1 u _ _ (ConnectionProps.us_disconnect c1 u a (Some w) None now) Hok) as (Hok' & Hfr & _).
  fold f in Hok', Hfr. destruct (f u) as [[r w1] u'] eqn:Ef. cbn [fst snd] in *.
  destruct (release_section c1 _ l u u' [] (va_UserID a) Hix Hu Hul Hok' (ConnectionProps.sf_id _ _ Hfr) eq_refl) as (_ & R2 & _). rewrite ConnectionProps.emit_nil in R2.
  subst f. unfold Connection.voice_disconnect_locked in Ef. destruct (negb _) eqn:Es.
  - injection Ef as <- <- <-. intros [= <- <- <-]. split; [|done]. destruct acquire; [destruct (_ <=? _)|]; auto using live_emit.
  - apply negb_false_iff in Es. destruct (Session.DeleteStaged _ _ _ _) as [[d err] w2]. destruct (Connection.fatal err).
    + injection Ef as <- <- <-. intros [= <- <- <-]. split; [|done]. destruct acquire; [destruct (_ <=? _)|]; auto using live_emit.
    + injection Ef as <- <- <-. intros [= <- <- <-]. split; [done|]. unfold Connection.sameVoiceAuthority in Es. apply bool_decide_eq_true in Es.
      split_and!; [|rewrite <- Hv0; unfold voice_of; rewrite <- Es; by subst u|by intros ->].
      rewrite R2. unfold Connection.clear_voice_locked. by rewrite Es.
Qed.

(** ** Runtime commits *)

Section Commits.
Context `{!VoiceEnv}.
#[local] Abbreviation world := (World Runtime).
Definition co_of (w : world) : ConnectionCoordinator := rt_co (w_voice w).
(** Other goroutines use the coordinator through its operations. *)
Context (Hothers : forall n r, live (rt_co r) -> live (rt_co (others n r))).

(** One compare-and-swap of the coordinator: a staged voice change, or the end of an authority. *)
Inductive cas (before after : Runtime) : Prop :=
  | cas_apply stage allow now env commit m :
      Connection.apply (rt_co before) stage (Some (rt_mgr before)) allow false now env = (Ok commit, m, rt_co after) -> cas before after
  | cas_end a now x m :
      Connection.beginVoiceDisconnectForPublication (rt_co before) a (Some (rt_mgr before)) false now = (Ok (Some x), m, rt_co after) -> cas before after.

(** A commit that succeeds replaces, in one step, an authority that satisfies
    [from] by [a]; only other goroutines use the coordinator afterwards. *)
Definition installs (userID : Z) (from : option VoiceAuthority -> Prop) (a : option VoiceAuthority) (f : RuntimeCommit (W := world)) : Prop :=
  forall w, live (co_of w) -> live (co_of (f w).1) /\
    (forall cleanup, (f w).2.2 = Some cleanup -> forall w', exists n, co_of (cleanup w') = rt_co (others n (w_voice w'))) /\
    ((f w).2.1 = None -> exists before after n, live (rt_co before) /\ cas before after /\ from (voice_of (rt_co before) userID) /\
       voice_of (rt_co after) userID = a /\ co_of (f w).1 = rt_co (others n after)).

Lemma join_installs n stage s proposed : r_UserID (st_owner stage) = va_UserID proposed ->
  installs (va_UserID proposed) (fun b => b = Connection.st_expected stage) (Some proposed) (join_commit n stage s proposed).
Proof.
  intros Hid w Hl. unfold join_commit, co_of in *. set (r := others (S n) _). assert (Hr : live (rt_co r)) by (by apply Hothers; cbn; apply Hothers).
  unfold Connection.ApplyForPublicationWithGate.
  pose proof (live_apply (rt_co r) stage (rt_mgr r) (natural_expiry s) false (mgr_now n) (mgr_between n) Hr) as Hl'.
  destruct (Connection.apply (rt_co r) stage _ _ _ _ _) as [[[commit|e] m] c] eqn:Ea; cbn [fst snd] in Hl'; [|done].
  pose proof Hr as (ids & cl & Hrr). pose proof (apply_commit _ _ _ _ _ _ _ _ _ _ Hrr Ea) as (_ & _ & _ & Hx & Hv & _ & Hrel & _). rewrite Hid in Hv, Hx. rewrite Hrel. cbn [Connection.run_release].
  pose proof (Hothers (S (S n)) (mkRuntime c (default (rt_mgr r) m) (rt_limiter r)) Hl') as Hl2.
  destruct (negb _) eqn:Ec; [done|]. apply negb_false_iff, bool_decide_eq_true in Ec. rewrite Ec in Hv. cbn. split_and!; [done|by intros cleanup [= <-] w'; eexists|].
  intros _. eexists r, (mkRuntime c (default (rt_mgr r) m) (rt_limiter r)), (S (S n)). split_and!; [done|by eapply cas_apply|done|done|done].
Qed.
Lemma leave_installs n a : installs (va_UserID a) (fun b => b = Some a) None (leave_commit n a).
Proof.
  intros w Hl. unfold leave_commit, co_of in *. set (r := others n (w_voice w)). assert (Hr : live (rt_co r)) by (by apply Hothers).
  unfold Connection.BeginVoiceDisconnectForPublicationWithGate.
  destruct (Connection.beginVoiceDisconnectForPublication _ _ _ _ _) as [[res m] c] eqn:Ed. destruct (disconnect_clears _ _ _ _ _ _ _ _ Hr Ed) as [Hl' Hc].
  destruct res as [[[x d]|]|e]; [|done|done]. destruct Hc as (Hv & Hb & Hg). unfold Connection.run_return_drain. rewrite (Hg eq_refl). cbn.
  pose proof (Hothers (S n) (mkRuntime c (default (rt_mgr r) m) (rt_limiter r)) Hl') as Hl2. split_and!; [done|done|]. intros _.
  eexists r, (mkRuntime c (default (rt_mgr r) m) (rt_limiter r)), (S n). split_and!; [done|by eapply cas_end|done|done|done].
Qed.
Lemma join_keeps n stage s proposed : commit_keeps (Some (join_commit n stage s proposed)).
Proof.
  intros w. cbn. unfold join_commit. destruct (Connection.ApplyForPublicationWithGate _ _ _ _ _ _) as [[[commit|e] m] c]; [|done].
  destruct (negb _); [done|]. cbn. split; [done|]. by intros cleanup [= <-] w'.
Qed.
Lemma leave_keeps n a : commit_keeps (Some (leave_commit n a)).
Proof.
  intros w. cbn. unfold leave_commit. destruct (Connection.BeginVoiceDisconnectForPublicationWithGate _ _ _ _) as [[[[[x d]|]|e] m] c]; [|done|done].
  by destruct (Connection.run_return_drain _ _ _).
Qed.
End Commits.

(** ** Commands of the runtime *)

Section Logic.
Context {C : Type} `{!StateSink C} {cprims : Cursor.CursorPrims} {pprims : PublicationPrims}.
Context `{!StoreEnv, !SqlPrims, !CommandJson, !EventJson, !VoiceEnv} {V E A : Type}.
Context (jvalid : bytes -> bool) (jmarshal : stateEventEnvelope -> option bytes) (juser : SnapshotUserPresence -> option bytes).
(** What is known of the coordinator at every moment, at least that it is in use. *)
Context (sound : ConnectionCoordinator -> Prop) (Hsound : forall c, sound c -> live c).
Context (Hothers : forall n r, sound (rt_co r) -> sound (rt_co (others n r))).
#[local] Abbreviation world := (World Runtime).
#[local] Abbreviation pub := (StatePublication C world).
#[local] Abbreviation execution := (CommandExecution world).
#[local] Abbreviation mut := (Mut C Runtime V E).
#[local] Abbreviation err := (ServiceError E).
#[local] Abbreviation run := (run_script jvalid jmarshal (C := C) (W := world) (Value := MutationResult V)).
#[local] Abbreviation assertion := (Tx.Tx -> pub -> execution -> Prop).
#[local] Abbreviation rcommit := (option (RuntimeCommit (W := world))).

(** What a body promises: of a no-op, and of a version it reserved with a runtime commit. *)
Context (noop : A -> Prop) (changed : A -> rcommit -> StateVersion -> Prop).

(** A commit, and its cleanup, uses the coordinator through its operations. *)
Definition commit_live (f : rcommit) : Prop :=
  forall w, sound (co_of w) -> sound (co_of (run_commit f w).1) /\ forall cleanup, (run_commit f w).2.2 = Some cleanup -> forall w', sound (co_of w') -> sound (co_of (cleanup w')).
(** The world a successful commit leaves once it is cleaned up. *)
Definition cleaned (f : rcommit) (w : world) : world :=
  match (run_commit f w).2.2 with Some cleanup => cleanup (run_commit f w).1 | None => (run_commit f w).1 end.
Lemma commit_live_none : commit_live None.
Proof. intros w Hl. by split. Qed.
Lemma commit_keeps_none : commit_keeps (R := Runtime) None.
Proof. intros w. by split. Qed.
Section Body.
Context (p0 : pub) (id : Z) (Hunlocked : pb_locked p0 = false).
#[local] Abbreviation e0 := (with_id (new_execution (W := world)) id).
#[local] Abbreviation triple := (ServiceProps.triple jvalid jmarshal (C := C) (R := Runtime) (V := V) (E := E)).

(** The world a command may find: its database, and a coordinator in use. *)
Definition same_world (w : world) : Prop := w_db w = w_db (pb_world p0) /\ sound (co_of w).
Definition roaming : assertion := fun _ p e => exists w, same_world w /\ p = with_world p0 w /\ e = e0.
(** A reservation of runtime state. *)
Definition promises (rv : PublicationReservation world) : Prop :=
  pr_completed rv = false /\ commit_live (pr_runtimeCommit rv) /\ commit_keeps (pr_runtimeCommit rv) /\ persistent (pu_Version (pr_result rv)) = persistent (pb_current p0).
Definition holds (rv : PublicationReservation world) (e : execution) : assertion := fun _ p e' => exists w, same_world w /\ p = with_locked (with_world p0 w) true /\ e' = e.
Definition ended (r : result A err) : assertion := fun t p e =>
  match r with
  | Err _ => roaming t p e \/ exists rv, promises rv /\ holds rv (with_reservation e0 rv) t p e
  | Ok v => (noop v /\ exists w, same_world w /\ p = with_world p0 w /\ e = with_phase e0 false false false true) \/
      exists rv, promises rv /\ changed v (pr_runtimeCommit rv) (pu_Version (pr_result rv)) /\ holds rv (with_phase (with_reservation e0 rv) false false true false) t p e
  end.
#[local] Abbreviation goal m := (triple roaming m ended).

Lemma v_assoc {B D} (m : mut B) (f : B -> mut D) (g : D -> mut A) : goal (mbind m (fun x => mbind (f x) g)) -> goal (mbind (mbind m f) g).
Proof. intros Hm. exact Hm. Qed.
Lemma v_pure {B} (a : B) (f : B -> mut A) : goal (f a) -> goal (mbind (mret a) f).
Proof. intros Hm. exact Hm. Qed.
Lemma v_throw er : goal (mthrow er).
Proof. apply triple_throw. by left. Qed.
Lemma v_throw_bind {B} er (f : B -> mut A) : goal (mbind (mthrow er) f).
Proof. exact (v_throw er). Qed.
Lemma v_refuse {B} er (f : B -> mut A) : goal (mbind (refuse er) f).
Proof. exact (v_throw (Own er)). Qed.
Lemma v_ensure {B} (r : result B err) (f : B -> mut A) : (forall a, r = Ok a -> goal (f a)) -> goal (mbind (ensure r) f).
Proof. intros Hf. destruct r; [by apply v_pure, Hf|apply v_throw_bind]. Qed.
Lemma v_encoded {B} (o : option B) (f : B -> mut A) : (forall a, o = Some a -> goal (f a)) -> goal (mbind (encoded o) f).
Proof. intros Hf. destruct o; [by apply v_pure, Hf|apply v_throw_bind]. Qed.
Lemma v_projected {B} (o : option B) (f : B -> mut A) : (forall a, o = Some a -> goal (f a)) -> goal (mbind (projected_state o) f).
Proof. intros Hf. destruct o; [by apply v_pure, Hf|apply v_throw_bind]. Qed.
Lemma v_now (f : Z -> mut A) : (forall z, goal (f z)) -> goal (mbind voiceNowMillis f).
Proof. intros Hf t p e k X HP HX. unfold mbind, voiceNowMillis. by apply (Hf _ _ p e k X). Qed.
Lemma v_current (f : nat * StateVersion -> mut A) : goal (f (pb_pointer p0, pb_current p0)) -> goal (mbind current f).
Proof. intros Hf t p e k X HP HX. unfold mbind, current. cbn. destruct HP as (w & Hw & -> & ->). apply (Hf t (with_world p0 w) e0 k X); [by exists w|done]. Qed.
Lemma v_runtime {B} (f : nat -> Runtime -> B * Runtime) (g : B -> mut A) : (forall n r, sound (rt_co r) -> sound (rt_co (f n r).2)) ->
  (forall a, (exists n r, sound (rt_co r) /\ (f n r).1 = a) -> goal (g a)) -> goal (mbind (runtime f) g).
Proof.
  intros Hf Hg t p e k X (w & [Hd Hl] & -> & ->) HX. unfold mbind, runtime. cbn [run_script pb_world with_world].
  pose proof (Hf (tx_step t) (others (tx_step t) (w_voice w)) (Hothers _ _ Hl)) as Hl'.
  destruct (f (tx_step t) (others (tx_step t) (w_voice w))) as [a r] eqn:Ef. cbn [run_script].
  apply (Hg a (ex_intro _ (tx_step t) (ex_intro _ (others (tx_step t) (w_voice w)) (conj (Hothers _ _ Hl) (f_equal fst Ef)))) (next_step t) _ _ k X); [|done].
  exists (set_runtime r w). split; [|done]. done.
Qed.
Lemma v_connections {B} (f : ConnectionCoordinator -> B * ConnectionCoordinator) (g : B -> mut A) : (forall c, sound c -> sound (f c).2) ->
  (forall a, goal (g a)) -> goal (mbind (on_connections f) g).
Proof. intros Hf Hg. apply v_runtime; [|by intros a _]. intros n r Hl. specialize (Hf _ Hl). by destruct (f (rt_co r)). Qed.
(** The authority the coordinator answers is the user's. *)
Lemma v_authority userID (g : option VoiceAuthority -> mut A) : (forall c, sound c -> sound (Connection.GetVoiceAuthority c userID).2) -> (forall a, match a with Some x => va_UserID x = userID | None => True end -> goal (g a)) ->
  goal (mbind (on_connections (fun c => Connection.GetVoiceAuthority c userID)) g).
Proof.
  intros Hg0 Hg. apply v_runtime.
  { intros n r Hl. pose proof (Hg0 _ Hl) as Hl'. by destruct (Connection.GetVoiceAuthority _ _). }
  intros a (n & r & Hl & E'). apply Hg. revert E'. unfold Connection.GetVoiceAuthority. destruct (userID <=? 0); [by intros <-|].
  destruct (with_user_spec (rt_co r) userID (reading Connection.u_voice) (live_index _ (Hsound _ Hl))) as (c1 & l & u & Eu & _ & Hu & Hat & Hok & Hid & _ & _ & _ & _ & ->).
  unfold reading. rewrite Hat. cbn. intros <-. destruct (Connection.u_voice u) as [x|] eqn:Ex; [|done]. destruct (ConnectionProps.uo_voice _ Hok _ Ex) as (_ & Hx & _). by rewrite Hx.
Qed.
Lemma v_manager {B} (f : nat -> Session.World -> B * Session.World) (g : B -> mut A) : (forall a, (exists n w, (f n w).1 = a) -> goal (g a)) ->
  goal (mbind (on_manager f) g).
Proof.
  intros Hg. apply v_runtime; [intros n r Hl; by destruct (f n (rt_mgr r))|]. intros a (n & r & _ & E'). apply Hg. exists n, (rt_mgr r). by destruct (f n (rt_mgr r)).
Qed.
Lemma v_noop (v : A) : noop v -> goal (mbind (reply_error (call CallMarkNoop)) (fun _ => mret v)).
Proof. intros Hv t p e k X (w & Hw & -> & ->) HX. unfold mbind, reply_error, call. cbn. apply HX. left. split; [done|]. by exists w. Qed.

(** A reservation of runtime state keeps what its candidate holds. *)
Lemma reserved_version now (p : pub) request base candidate res : reserveLocked jvalid jmarshal now p request = Ok res -> rq_Candidate request = Some (base, candidate) ->
  voiceAuthorities (State.runtime (pu_Version res)) = voiceAuthorities (State.runtime candidate) /\ presences (State.runtime (pu_Version res)) = presences (State.runtime candidate).
Proof.
  unfold reserveLocked. intros Hr Hc. rewrite Hc in Hr. cbv zeta in Hr. destruct (negb _); [done|]. destruct (_ || _); [done|].
  apply rbind_Ok in Hr as ([changes epochs] & _ & Hr). apply rbind_Ok in Hr as (templates & _ & Hr). apply rbind_Ok in Hr as (events & _ & Hr).
  destruct (ValidateAppend _ _ _ _); [done|]. by injection Hr as <-.
Qed.
Lemma v_reserve c events commit (g : unit -> mut A) : persistent (version c) = persistent (pb_current p0) ->
  (forall n, let f := (fun f => f n) <$> commit in commit_live f /\ commit_keeps f) ->
  (forall rv n, promises rv -> pr_runtimeCommit rv = (fun f => f n) <$> commit -> voiceAuthorities (State.runtime (pu_Version (pr_result rv))) = voiceAuthorities (State.runtime (version c)) ->
    presences (State.runtime (pu_Version (pr_result rv))) = presences (State.runtime (version c)) -> triple (holds rv (with_reservation e0 rv)) (g tt) ended) ->
  goal (mbind (reserve_runtime (pb_pointer p0) c events commit) g).
Proof.
  intros Hp Hk Hg t p e k X (w & Hw & -> & ->) HX. unfold mbind, reserve_runtime. cbn [run_script invoke]. unfold exec_Reserve.
  cbn [ce_reservation ce_persistent ce_runtimeReady ce_published with_id new_execution is_some orb pb_locked with_world]. rewrite Hunlocked.
  unfold Reserve. destruct (reserveLocked _ _ _ _ _) as [res|er] eqn:Er; cbn [option_bind].
  - pose proof (reserved_version _ _ _ _ _ _ Er eq_refl) as [Hv Hpr].
    refine (Hg (mkReservation res ((fun f => f (tx_step t)) <$> commit) false) (tx_step t) _ eq_refl Hv Hpr (next_step t) (with_locked (with_world p0 w) true) _ k X
      (ex_intro _ w (conj Hw (conj eq_refl eq_refl))) HX).
    destruct (Hk (tx_step t)) as [H1' H2']. split_and!; [done|done|done|]. cbn [pr_result]. by rewrite (reserved_rows _ _ _ _ _ _ _ _ Er eq_refl).
  - apply HX. left. by exists w.
Qed.
#[local] Abbreviation held rv m := (triple (holds rv (with_reservation e0 rv)) m ended).
Lemma h_result rv (g : PublicationResult -> mut A) : promises rv -> held rv (g (Result rv)) -> held rv (mbind reserved_result g).
Proof. intros Hp Hg t p e k X (w & Hw & -> & ->) HX. unfold mbind, reserved_result, call. cbn. apply (Hg t _ _ k X); [by exists w|exact HX]. Qed.
Lemma h_ensure {B} rv (r : result B err) (g : B -> mut A) : promises rv -> (forall x, r = Ok x -> held rv (g x)) -> held rv (mbind (ensure r) g).
Proof. intros Hp Hg. destruct r as [x|er]; [exact (Hg x eq_refl)|]. intros t p e k X Hh HX. apply HX. right. by exists rv. Qed.
Lemma h_ready rv v : promises rv -> changed v (pr_runtimeCommit rv) (pu_Version (pr_result rv)) -> held rv (mbind (reply_error (call CallMarkRuntimeReady)) (fun _ => mret v)).
Proof. intros Hp Hc t p e k X (w & Hw & -> & ->) HX. unfold mbind, reply_error, call. cbn. apply HX. right. exists rv. split_and!; [done|done|by exists w]. Qed.
End Body.

(** ** Their outcome *)

(** What the body's answer becomes, and what runs after the publication. *)
Context (out : A -> CommandOutput world (MutationResult V)).
Definition after_publish (v : A) (w : world) : world := match co_AfterPublish (out v) with Some f => (f w).1 | None => w end.
Definition tame (v : A) : Prop := co_BeforePublish (out v) = None /\ forall f, co_AfterPublish (out v) = Some f ->
  forall w, (f w).2 = CbOk /\ w_db (f w).1 = w_db w /\ (sound (co_of w) -> sound (co_of (f w).1)).
(** The barriers around the command. *)
Definition barriers_ok (acquire : option (world -> world * Acquired (W := world))) : Prop := forall f, acquire = Some f -> forall w,
  w_db (f w).1 = w_db w /\ (sound (co_of w) -> sound (co_of (f w).1)) /\ forall release, (f w).2 = AcquireOk release -> forall w', w_db (release w') = w_db w' /\ (sound (co_of w') -> sound (co_of (release w'))).
Definition released (acquire : option (world -> world * Acquired (W := world))) (release : world -> world) : Prop :=
  match acquire with None => release = fun w => w | Some f => exists w, (f w).2 = AcquireOk release end.

Definition settled_runtime {G} (p : pub) (release : world -> world) (o : Outcome C world G (MutationResult V)) : Prop :=
  match oc_fail o with
  | Some _ => exists er, oc_reply o = Err er
  | None => pb_locked (oc_pub o) = false /\ w_db (pb_world (oc_pub o)) = w_db (pb_world p) /\ sound (co_of (pb_world (oc_pub o))) /\
      match oc_reply o with
      | Err _ => pb_current (oc_pub o) = pb_current p
      | Ok c => exists v, cc_Value c = co_Value (out v) /\
          match cc_Publication c with
          | None => pb_current (oc_pub o) = pb_current p /\ noop v
          | Some _ => persistent (pb_current (oc_pub o)) = persistent (pb_current p) /\ exists f w, changed v f (pb_current (oc_pub o)) /\
              sound (co_of w) /\ (run_commit f w).2.1 = None /\ pb_world (oc_pub o) = release (after_publish v (cleaned f w))
          end
      end
  end.

(** What a publication leaves of the runtime. *)
Lemma publish_runtime_world canceled (p p' : pub) r r' res : pr_completed r = false -> commit_live (pr_runtimeCommit r) -> sound (co_of (pb_world p)) ->
  publish jvalid jmarshal juser canceled p r = Some (res, p', r') -> sound (co_of (pb_world p')) /\
  match res with Ok _ => (run_commit (pr_runtimeCommit r) (pb_world p)).2.1 = None /\ pb_world p' = cleaned (pr_runtimeCommit r) (pb_world p) | Err _ => True end.
Proof.
  intros Hc Hi Hl. unfold publish, claimCompletion, cleaned. rewrite Hc. cbn [negb]. destruct canceled; [by intros [= <- <- <-]|]. cbn [pr_runtimeCommit pr_result].
  specialize (Hi (pb_world p) Hl). destruct (run_commit (pr_runtimeCommit r) (pb_world p)) as [w [failed cleanup]]. cbn in Hi |- *. destruct Hi as (Hlw & Hcl).
  set (w' := match cleanup with Some g => g w | None => w end). assert (Hlw' : sound (co_of w')) by (subst w'; destruct cleanup; [by apply Hcl|done]).
  assert (Hfin : forall (q : pub) slow, pb_world q = w -> pb_world (finish q slow cleanup) = w') by (intros q slow <-; unfold finish; cbn; by destruct cleanup).
  destruct failed as [er|]; [intros [= <- <- <-]; by rewrite Hfin|].
  destruct (Append _ _ _ _) as [[er ring]|]; cbn [option_bind]; [|done].
  destruct er; [intros [= <- <- <-]; by rewrite Hfin|]. cbn [pb_bus].
  destruct (pb_bus _) as [[n b]|]; [|intros [= <- <- <-]; by rewrite Hfin].
  destruct (fanout _ _ _ _ _ _ _) as [[slow|er] b']; intros [= <- <- <-]; by rewrite Hfin.
Qed.

#[local] Arguments settled_runtime : simpl never.
Section Outcome.
Context {G : Type} (idNext : G -> result Z unit * G) (error_code : err -> Z).
#[local] Abbreviation conclude := (conclude jvalid jmarshal juser (C := C) (W := world) (Value := MutationResult V)).
#[local] Abbreviation settled_id p o := (settled_runtime p (fun w => w) o).
Lemma settled_runtime_error (p0 p : pub) e (g : G) er w : same_world p0 w -> pb_world p = w -> pb_current p = pb_current p0 -> pb_locked p = false ->
  settled_id p0 (ordinary_error (Value := MutationResult V) p e g er).
Proof. intros [Hd Hl] <- E2 E3. unfold settled_runtime. cbn. done. Qed.
Lemma settled_runtime_threw (p0 : pub) id command (g : G) t p e er x : pb_locked p0 = false -> ended p0 id (Err er) t p e -> settled_id p0 (conclude command id (Threw x) p e g).
Proof.
  intros Hu [(w & Hw & -> & ->)|(rv & Hp & w & Hw & -> & ->)]; [by eapply settled_runtime_error|].
  unfold Sequencer.conclude. cbn [ce_persistent ce_runtimeReady with_reservation with_id new_execution orb].
  unfold aborted. edestruct (abort_reserved (with_locked (with_world p0 w) true)) as [e' ->]; [done|apply Hp|done|done|]. by eapply settled_runtime_error.
Qed.
Lemma settled_runtime_returned (p0 : pub) id command (g : G) t p e v : pb_locked p0 = false -> (forall f w, changed v f w -> tame v) -> ended p0 id (Ok v) t p e ->
  settled_id p0 (conclude command id (Returned (out v)) p e g).
Proof.
  intros Hu Ht [(Hn & w & [Hd Hl] & -> & ->)|(rv & (Hc & Hi & Hk & Hp) & Hch & w & [Hd Hl] & -> & ->)]; [unfold settled_runtime; cbn; split_and!; eauto|]. destruct (Ht _ _ Hch) as [Hb Ha].
  unfold Sequencer.conclude. cbn [ce_noop with_phase with_reservation ce_reservation ce_persistent ce_runtimeReady andb negb]. rewrite Hb. destruct (cm_canceledReady command).
  { unfold aborted. edestruct (abort_reserved (with_locked (with_world p0 w) true)) as [e' ->]; [done..|]. by apply (settled_runtime_error p0 _ _ _ _ w). }
  unfold publish_phase, PublishRuntime. destruct (publish _ _ _ _ _ _) as [[[[res|er] p'] r']|] eqn:Ep; cbv iota.
  - pose proof (publish_runtime_world _ (with_locked (with_world p0 w) true) _ _ _ _ Hc Hi Hl Ep) as (Hl' & Hf & Hw). apply publish_result in Ep as (Ew & El & Ev); [|done].
    cbn in Hf, Hw. unfold run_callback. destruct (co_AfterPublish (out v)) as [f|] eqn:Ef.
    + destruct (Ha f eq_refl (pb_world p')) as (Hok & Hdb & Hlv). destruct (f (pb_world p')) as [w' r''] eqn:Efw. cbn in Hok, Hdb, Hlv. subst r''.
      unfold settled_runtime. cbn. rewrite Hdb, Ew. split_and!; [done|done|by apply Hlv|]. exists v. split_and!; [done|by rewrite Ev|].
      exists (pr_runtimeCommit rv), w. split_and!; [by rewrite Ev|done|done|]. unfold after_publish. rewrite Ef, <- Hw, Efw. done.
    + unfold settled_runtime. cbn. rewrite Ew. split_and!; [done|done|done|]. exists v. split_and!; [done|by rewrite Ev|].
      exists (pr_runtimeCommit rv), w. split_and!; [by rewrite Ev|done|done|]. unfold after_publish. by rewrite Ef.
  - pose proof (publish_runtime_world _ (with_locked (with_world p0 w) true) _ _ _ _ Hc Hi Hl Ep) as [Hl' _]. apply publish_result in Ep as [Ew Ee]; [|done].
    destruct er; try (unfold settled_runtime; cbn; by eauto). destruct (Ee Hc) as [El Ev]. eapply settled_runtime_error; [split; [|exact Hl']|done..]. by rewrite Ew.
  - unfold recovered. destruct (abort _ _). unfold settled_runtime. cbn. by eexists.
Qed.

Lemma runtime_settles (body : Z -> mut A) t acquire size number c1 c2 c3 (p : pub) (g : G) :
  (forall p0 id, pb_locked p0 = false -> pb_current p0 = pb_current p -> triple jvalid jmarshal (roaming p0 id) (body id) (ended p0 id)) -> (forall v f w, changed v f w -> tame v) -> barriers_ok acquire ->
  pb_locked p = false -> sound (co_of (pb_world p)) ->
  exists o release, execute jvalid jmarshal juser idNext (mkCommand size number acquire (fun id => body_script out error_code (body id) t) c1 c2 c3) p g = Some o /\
    (released acquire release \/ (forall c, oc_reply o <> Ok c)) /\ settled_runtime p release o.
Proof.
  intros Hb Ht Ha Hu Hl. set (command := mkCommand _ _ _ _ _ _ _).
  assert (Hrun : forall (q : pub) id (g : G), pb_locked q = false -> pb_current q = pb_current p -> sound (co_of (pb_world q)) -> exists o, (run (body_script out error_code (body id) t) q (with_id new_execution id) ≫= fun '(ended, p, e) =>
    Some (conclude command id ended p e g)) = Some o /\ settled_id q o).
  { intros q id g' Hq Hcur Hlq. unfold body_script. apply (Hb q id Hq Hcur t q (with_id new_execution id) _ (fun x => exists o, (x ≫= fun '(ended, p, e) => Some (conclude command id ended p e g')) = Some o /\ settled_id q o)).
    - exists (pb_world q). split_and!; [done|by destruct q|done].
    - intros [v|er] t' p' e' He; cbn [run_script].
      + eexists. split; [reflexivity|]. eapply settled_runtime_returned; [done|by apply Ht|exact He].
      + destruct er; (eexists; split; [reflexivity|]); by eapply settled_runtime_threw. }
  assert (Hheld : forall q : pub, pb_locked q = false -> pb_current q = pb_current p -> sound (co_of (pb_world q)) -> exists o, execute_held jvalid jmarshal juser idNext command q g = Some o /\ settled_id q o).
  { intros q Hq Hc Hlq. unfold execute_held. cbn [cm_CommandID cm_Execute command]. destruct (number =? 0); [|by apply Hrun].
    destruct (idNext g) as [[id|er] g']; [by apply Hrun|]. eexists. split; [reflexivity|]. by apply (settled_runtime_error _ _ _ _ _ (pb_world q)). }
  assert (Hrefused : forall er, exists o release, Some (ordinary_error (Value := MutationResult V) p new_execution g er) = Some o /\ (released acquire release \/ (forall c, oc_reply o <> Ok c)) /\ settled_runtime p release o).
  { intros er. exists (ordinary_error p new_execution g er), (fun w => w). split_and!; [done|by right|]. by apply (settled_runtime_error p _ _ _ _ (pb_world p)). }
  unfold execute. change (cm_canceledStart command) with c1. change (cm_Acquire command) with acquire. destruct c1; [apply Hrefused|].
  destruct acquire as [f|]; [|destruct (Hheld p) as (o & -> & Hs); [done..|]; exists o, (fun w => w); split_and!; [done|by left|done]].
  destruct (Ha f eq_refl (pb_world p)) as (Hd & Hlw & Hrel). destruct (f (pb_world p)) as [w a] eqn:Ef. cbn in Hd, Hlw, Hrel. specialize (Hlw Hl). destruct a as [er| |release|]; try apply Hrefused.
  all: try (eexists _, (fun w => w); split_and!; [reflexivity|by right|]; first [by apply (settled_runtime_error p _ _ _ _ w)|unfold settled_runtime; cbn; by eexists]).
  destruct (Hheld (with_world p w)) as (o & -> & Hs); [done..|]. cbn. eexists _, release. split; [reflexivity|]. split; [left; exists (pb_world p); by rewrite Ef|].
  specialize (Hrel release eq_refl). unfold settled_runtime, release_barriers in *. cbn. destruct (oc_fail o); [done|].
  destruct Hs as (Hlk & Hdo & Hlo & Hr). destruct (Hrel (pb_world (oc_pub o))) as [Hd' Hl']. split_and!; [done|rewrite Hd', Hdo; exact Hd|by apply Hl'|].
  destruct (oc_reply o) as [c|]; [|done]. destruct Hr as (v & Hv & Hr). exists v. split; [done|]. destruct (cc_Publication c); [|done].
  destruct Hr as (Hp & fc & w0 & Hch & Hlw0 & Hn & Hw). split; [done|]. exists fc, w0. split_and!; [done..|]. by rewrite Hw.
Qed.
End Outcome.
End Logic.

(** What the logic knows of the voice commands: the coordinator is in use. *)
Section Installs.
Context `{!VoiceEnv} (Hothers : forall n r, live (rt_co r) -> live (rt_co (others n r))).
Lemma installs_live u from a f : installs u from a f -> commit_live live (Some f).
Proof. intros Hi w Hl. destruct (Hi w Hl) as (H1' & H2' & _). split; [done|]. intros cleanup Hc w' Hw. destruct (H2' _ Hc w') as [n ->]. by apply Hothers. Qed.
(** Others leave the user's authority [a] alone. *)
Definition kept (u : Z) (a : option VoiceAuthority) : Prop := forall n r, voice_of (rt_co r) u = a -> voice_of (rt_co (others n r)) u = a.
(** The user's authority was replaced by [a] in one step, and is [a] in the end
    unless somebody takes it away again. *)
Definition installed (u : Z) (from : option VoiceAuthority -> Prop) (a : option VoiceAuthority) (w : World Runtime) : Prop :=
  (exists before after, live (rt_co before) /\ cas before after /\ from (voice_of (rt_co before) u) /\ voice_of (rt_co after) u = a) /\
  (kept u a -> voice_of (co_of w) u = a).
Lemma installs_cleaned u from a f w : installs u from a f -> live (co_of w) -> (run_commit (Some f) w).2.1 = None -> installed u from a (cleaned (Some f) w).
Proof using Type.
  intros Hi Hl Hn. destruct (Hi w Hl) as (_ & H2' & H3'). destruct (H3' Hn) as (before & after & n & B1 & B2 & B3 & B4 & B5). split; [by exists before, after|].
  intros Hk. unfold cleaned. cbn [run_commit]. assert (Hv : voice_of (co_of (f w).1) u = a) by (rewrite B5; by apply Hk).
  destruct (f w).2.2 as [cleanup|] eqn:Ec; [|done]. destruct (H2' _ eq_refl (f w).1) as [n' ->]. by apply Hk.
Qed.
Lemma installs_impl u (from from' : option VoiceAuthority -> Prop) a f : (forall b, from b -> from' b) -> installs u from a f -> installs u from' a f.
Proof using Type.
  intros Hf Hi w Hl. destruct (Hi w Hl) as (H1' & H2' & H3'). split_and!; [done|done|]. intros Hn.
  destruct (H3' Hn) as (before & after & n & B1 & B2 & B3 & B4 & B5). exists before, after, n. by auto.
Qed.
End Installs.

(** ** Candidates and stages *)

(** What a step of the candidate keeps besides the schedules. *)
Definition same_authorities (c c' : StateCandidate) : Prop :=
  same_rows c c' /\ voiceAuthorities (State.runtime (version c')) = voiceAuthorities (State.runtime (version c)).
#[global] Instance same_authorities_preorder : PreOrder same_authorities.
Proof. split; [by intros c|]. intros a b c [] []. split; [by etrans|congruence]. Qed.
Lemma clear_expiry_same c id : same_authorities c (clear_expiry c id).1.
Proof.
  unfold clear_expiry. pose proof (ClearTemporaryExpiry_rows c id) as Hr. assert (Hv : voiceAuthorities (State.runtime (version (ClearTemporaryExpiry c id).2)) = voiceAuthorities (State.runtime (version c))).
  { unfold ClearTemporaryExpiry. cbv zeta. destruct (negb _); [|destruct (_ !! _)]; done. }
  by destruct (ClearTemporaryExpiry c id) as [[s b] c'].
Qed.
Lemma schedule_same c id d s c' : ScheduleTemporaryExpiry c id d = Some (s, c') -> same_authorities c c'.
Proof.
  intros Hs. split; [by eapply ScheduleTemporaryExpiry_rows|]. revert Hs. unfold ScheduleTemporaryExpiry. destruct (_ <=? _); [done|]. destruct (_ !! _); [|done].
  destruct (negb _); [done|]. by intros [= _ <-].
Qed.
Lemma join_timers_same joinedAt channel projected proposed v c c' s l : join_timers joinedAt channel projected proposed v c = Some (c', s, l) -> same_authorities c c'.
Proof.
  unfold join_timers. set (first := if ch_Temporary channel then _ else _).
  assert (Hf : same_authorities c first.1) by (subst first; destruct (ch_Temporary channel); [apply clear_expiry_same|done]). destruct first as [c1 canceled]. cbn in Hf.
  destruct projected as [a|]; [|by intros [= <- _ _]]. destruct (_ =? _); [by intros [= <- _ _]|]. destruct (getChannel _ _) as [old|]; [|by intros [= <- _ _]].
  destruct (negb _); [by intros [= <- _ _]|]. destruct (_ =? 0).
  - destruct (ScheduleTemporaryExpiry _ _ _) as [[sc c2]|] eqn:Es; [|done]. cbn. intros [= <- _ _]. etrans; [exact Hf|by eapply schedule_same].
  - pose proof (clear_expiry_same c1 (ch_ID old)) as Hc. destruct (clear_expiry c1 (ch_ID old)) as [c2 more]. intros [= <- _ _]. by etrans.
Qed.
Lemma leave_schedule_same now channel v c s c' : leave_schedule now channel v c = Some (s, c') -> same_authorities c c'.
Proof.
  unfold leave_schedule. destruct (_ && _); [|by intros [= _ <-]]. destruct (ScheduleTemporaryExpiry _ _ _) as [[sc c2]|] eqn:Es; [|done]. cbn. intros [= _ <-]. by eapply schedule_same.
Qed.
Lemma SetVoiceAuthority_voice c u a c' : SetVoiceAuthority c u a = Some c' ->
  getVoiceAuthority (version c') u = a /\ match a with Some x => va_UserID x = u | None => True end.
Proof.
  unfold SetVoiceAuthority, getVoiceAuthority. destruct ((u <=? 0) || _) eqn:G; [done|]. apply orb_false_iff in G as [_ G]. destruct a as [x|]; intros [= <-]; cbn.
  - rewrite lookup_insert_eq. split; [done|]. apply orb_false_iff in G as [[[G _]%orb_false_iff _]%orb_false_iff _]. by apply negb_false_iff, Z.eqb_eq in G.
  - by rewrite lookup_delete_eq.
Qed.
Lemma stage_channel c w owner e channelID pr j s : (Connection.StageVoiceReplacement c w owner e channelID pr j).1 = Ok s -> Connection.st_channelID s = channelID.
Proof.
  unfold Connection.StageVoiceReplacement. cbv zeta. destruct (_ || _); [done|]. unfold with_user. destruct (acquireUser _ _) as [l c1]. cbn. unfold Connection.stage_locked.
  destruct (_ || _); [done|]. destruct (match pr with Some _ => _ | None => _ end); [done|]. by intros [= <-].
Qed.
Lemma stage_expects c w owner e channelID pr j s : (Connection.StageVoiceReplacement c w owner e channelID pr j).1 = Ok s -> Connection.st_expected s = e.
Proof.
  unfold Connection.StageVoiceReplacement. cbv zeta. destruct (_ || _); [done|]. unfold with_user. destruct (acquireUser _ _) as [l c1]. cbn. unfold Connection.stage_locked.
  destruct (_ || _); [done|]. destruct (match pr with Some _ => _ | None => _ end); [done|]. by intros [= <-].
Qed.
Lemma proposed_fields s w x : Connection.ProposedAuthority s w = Ok x -> r_UserID (st_owner s) = va_UserID x /\ va_ChannelID x = Connection.st_channelID s.
Proof.
  unfold Connection.ProposedAuthority. destruct (_ || _); [done|]. intros (sid & _ & H)%rbind_Ok. destruct (negb _); [done|]. by injection H as <-.
Qed.

(** Rules of the voice commands' own steps. *)
Section VoiceRules.
Context {C : Type} `{!StateSink C} {cprims : Cursor.CursorPrims} {pprims : PublicationPrims} `{!StoreEnv, !SqlPrims, !CommandJson, !EventJson, !VoiceEnv} {V A : Type}.
Context (jvalid : bytes -> bool) (jmarshal : stateEventEnvelope -> option bytes) (Hothers : forall n r, live (rt_co r) -> live (rt_co (others n r))).
Context (noop : A -> Prop) (changed : A -> option (RuntimeCommit (W := World Runtime)) -> StateVersion -> Prop) (p0 : StatePublication C (World Runtime)) (id : Z).
#[local] Abbreviation mut := (Mut C Runtime V VoiceError).
#[local] Abbreviation goal m := (ServiceProps.triple jvalid jmarshal (V := V) (E := VoiceError) (roaming live p0 id) m (ended live noop changed p0 id)).
Lemma v_connected {B} (r : result B Connection.ConnError) (f : B -> mut A) : (forall a, r = Ok a -> goal (f a)) -> goal (mbind (connected r) f).
Proof. intros Hf. destruct r; [by apply v_pure, Hf|apply v_refuse]. Qed.
Lemma v_allow u ip now (g : bool -> mut A) : (forall ok, goal (g ok)) -> goal (mbind (allow_session u ip now) g).
Proof. intros Hg. apply v_runtime; [done|intros n r Hl; by destruct (Voice.Allow _ _ _ _)|]. intros a _. apply Hg. Qed.
End VoiceRules.

(** One step of a voice command, by its head. *)
Ltac voice_step := match goal with
  | |- ServiceProps.triple _ _ _ (mbind (mbind _ _) _) _ => apply v_assoc
  | |- ServiceProps.triple _ _ _ (mbind (mret _) _) _ => apply v_pure
  | |- ServiceProps.triple _ _ _ (mbind (mthrow _) _) _ => apply v_throw_bind
  | |- ServiceProps.triple _ _ _ (mbind (refuse _) _) _ => apply v_refuse
  | |- ServiceProps.triple _ _ _ (refuse _) _ => apply v_throw
  | |- ServiceProps.triple _ _ _ (mthrow _) _ => apply v_throw
  | |- ServiceProps.triple _ _ _ (mbind (ensure _) _) _ => apply v_ensure; let E := fresh "E" in intros ? E
  | |- ServiceProps.triple _ _ _ (mbind (encoded _) _) _ => apply v_encoded; let E := fresh "E" in intros ? E
  | |- ServiceProps.triple _ _ _ (mbind (projected_state _) _) _ => apply v_projected; let E := fresh "E" in intros ? E
  | |- ServiceProps.triple _ _ _ (mbind (connected _) _) _ => apply v_connected; let E := fresh "E" in intros ? E
  | |- ServiceProps.triple _ _ _ (mbind voiceNowMillis _) _ => apply v_now; intros ?
  | |- ServiceProps.triple _ _ _ (mbind current _) _ => apply v_current; cbn [fst snd]
  | |- ServiceProps.triple _ _ _ (mbind (on_connections _) _) _ => apply v_connections; [assumption|solve [auto with voice]|intros ?]
  | |- ServiceProps.triple _ _ _ (mbind (allow_session _ _ _) _) _ => apply v_allow; [assumption|intros ?]
  | |- ServiceProps.triple _ _ _ (mbind (on_manager _) _) _ => apply v_manager; [assumption|let E := fresh "E" in intros ? E]
  | |- ServiceProps.triple _ _ _ (if ?b then _ else _) _ => let E := fresh "E" in destruct b eqn:E
  | |- ServiceProps.triple _ _ _ (match ?x with _ => _ end) _ => let E := fresh "E" in destruct x eqn:E
  | |- ServiceProps.triple _ _ _ (mbind (if ?b then _ else _) _) _ => let E := fresh "E" in destruct b eqn:E
  | |- ServiceProps.triple _ _ _ (mbind (match ?x with _ => _ end) _) _ => let E := fresh "E" in destruct x eqn:E
  end.

(** The answers of both commands, and their barriers. *)
Definition plain {V} (v : MutationResult V) : CommandOutput (World Runtime) (MutationResult V) := mkOutput v None None.
Lemma plain_tame {V} (v : MutationResult V) : tame live plain v.
Proof. by split. Qed.
Lemma acquire_voice_ok actorID gate : barriers_ok live (Some (acquire_voice actorID gate)).
Proof.
  intros f [= <-] w. unfold acquire_voice, co_of, Connection.AcquireVoiceRelayGate, Connection.releaseRelay. destruct gate; [done|]. cbn. split_and!; [done| |].
  - destruct (_ <=? _); auto using live_emit.
  - intros release [= <-] w'. split; [done|]. cbn. destruct (_ <=? _); auto using live_emit.
Qed.
Lemma release_voice actorID gate release w : released (Some (acquire_voice actorID gate)) release -> voice_of (co_of (release w)) = voice_of (co_of w).
Proof.
  intros [w0 Hr]. unfold acquire_voice in Hr. destruct gate; [done|]. injection Hr as <-. unfold co_of, Connection.releaseRelay. cbn. by destruct (_ <=? _).
Qed.

(** The rows of a mirrored state are keyed by their identifiers. *)
Lemma mirrored_channel {C R} `{!SqlPrims} (p : StatePublication C (World R)) channelID ch : mirror p -> getChannel (pb_current p) channelID = Some ch -> ch_ID ch = channelID.
Proof.
  intros [Hd Hds]. unfold getChannel. rewrite (ds_channels _ _ Hds), lookup_fmap, fmap_Some. intros (r & Hr & ->). cbn.
  by destruct (DatabaseProps.to_row _ _ _ _ (DatabaseProps.ok_channels _ Hd) _ _ Hr) as [? _].
Qed.

Section Join.
Context {C : Type} `{!StateSink C} {cprims : Cursor.CursorPrims} {pprims : PublicationPrims}.
Context `{!StoreEnv, !SqlPrims, !CommandJson, !EventJson, !VoiceEnv}.
Context (jvalid : bytes -> bool) (jmarshal : stateEventEnvelope -> option bytes) (juser : SnapshotUserPresence -> option bytes).
Context (Hothers : forall n r, live (rt_co r) -> live (rt_co (others n r))).
Context (hkdf : bytes -> bytes -> bytes -> option bytes) (voiceEncrypted : bool).
Context (IssueStateCursor : Z -> StateVersion -> option string) (success_body : voiceJoinResponse -> option string) (StdEncoding : bytes -> string).
#[local] Abbreviation pub := (StatePublication C (World Runtime)).

Section Body.
Context (actorID channelID : Z) (expectedID : SessionID) (v : StateVersion).
(** The channel a user may join: visible, for voice. *)
Definition joinable (ch : Channel) : Prop :=
  getChannel v channelID = Some ch /\ CanAccessChannel actorID channelID (Some v) = true /\ ch_Mode ch = "voice".
(** Room in it, or the user is counted in it already. *)
Definition roomy (ch : Channel) : Prop :=
  activeChannelMembers channelID v < ch_Capacity ch \/ exists a, getVoiceAuthority v actorID = Some a /\ va_ChannelID a = channelID.
(** The authority a join may replace: the session the request named, or none;
    then the request named none, or the one of the published state whose teardown
    is not published yet. *)
Definition replaceable (current : option VoiceAuthority) : Prop :=
  match current with
  | Some a => va_VoiceSessionID a = expectedID
  | None => expectedID = Packet.zero_id \/ exists a, getVoiceAuthority v actorID = Some a /\ va_VoiceSessionID a = expectedID
  end.
Lemma join_expected_spec force owner current pending u : join_expected expectedID channelID force owner current pending = Ok u ->
  already_there channelID force owner current = false -> (forall a reason, pending = Some (a, reason) -> getVoiceAuthority v actorID = Some a) -> replaceable current.
Proof using Type.
  unfold join_expected, already_there, replaceable. intros He Ha Hp. destruct (bool_decide_reflect (expectedID = Packet.zero_id)) as [Hz|Hz]; cbn [negb] in He.
  - destruct current as [a|]; [|by left]. exfalso. destruct (va_ChannelID a =? channelID), force, (owned owner a); done.
  - destruct current as [a|]; [case_bool_decide; done|]. destruct pending as [[a reason]|]; [|done]. case_bool_decide; [|done]. right. exists a. split; [by eapply Hp|done].
Qed.
Definition join_noop_post (m : MutationResult JoinValue) : Prop := exists plan ch, mr_value m = Some (JoinPlanned plan) /\ joinable ch.
Definition join_post (m : MutationResult JoinValue) (commit : option (RuntimeCommit (W := World Runtime))) (w : StateVersion) : Prop :=
  exists plan r ch x f, mr_value m = Some (JoinPrepared plan r) /\ joinable ch /\ roomy ch /\ va_UserID x = actorID /\ va_ChannelID x = channelID /\
    snapshotMembership x ∈ vr_Members (jr_response r) /\ commit = Some f /\ installs actorID replaceable (Some x) f /\ getVoiceAuthority w actorID = Some x.

Lemma join_result_members commandID plan w cp r x : join_result IssueStateCursor success_body StdEncoding actorID commandID plan w cp = Ok r ->
  getVoiceAuthority w actorID = Some x -> va_ChannelID x = jp_channelID plan -> snapshotMembership x ∈ vr_Members (jr_response r).
Proof.
  unfold join_result. intros (cursor & _ & Hr)%rbind_Ok Hx Hc. cbv zeta in Hr. apply rbind_Ok in Hr as (response & Hm & Hr). apply rbind_Ok in Hr as (body & _ & [= <-]). cbn.
  unfold make_response in Hm. destruct (_ || _); [done|]. injection Hm as <-. cbn. apply list_elem_of_fmap. exists x. split; [done|].
  apply list_elem_of_filter. split; [done|]. unfold VoiceAuthorities. apply elem_of_values_in_order. by exists actorID.
Qed.

Context (p0 : pub) (id : Z) (Hunlocked : pb_locked p0 = false) (Hv : pb_current p0 = v).
Context (Hids : forall ch, getChannel v channelID = Some ch -> ch_ID ch = channelID).
#[local] Abbreviation goal m := (ServiceProps.triple jvalid jmarshal (V := JoinValue) (roaming live p0 id) m (ended live join_noop_post join_post p0 id)).

Lemma join_channel_spec ch : join_channel actorID channelID v = Ok ch -> joinable ch.
Proof.
  unfold join_channel. destruct (getChannel v channelID) as [c|] eqn:Ec; [|done]. destruct (CanAccessChannel _ _ _) eqn:Ea; [|done]. cbn [negb].
  destruct (bool_decide _) eqn:Em; [|done]. cbn [negb]. intros [= <-]. apply bool_decide_eq_true in Em. done.
Qed.
Lemma join_publish_run commandID joinedAt owner ch cur projected pending prepared s : joinable ch -> roomy ch -> replaceable cur ->
  goal (join_publish voiceEncrypted IssueStateCursor success_body StdEncoding actorID channelID commandID joinedAt owner ch v cur projected pending prepared s).
Proof.
  intros Hj Hr Hcur. unfold join_publish, stage_replacement. voice_step. apply v_runtime; [done| |].
  { intros n r Hl. pose proof (live_Stage (rt_co r) (rt_mgr r) owner cur channelID prepared joinedAt Hl) as Hs.
    by destruct (Connection.StageVoiceReplacement _ _ _ _ _ _ _). }
  intros stage (n & r & _ & Es).
  assert (Hst : forall st, stage = Ok st -> Connection.st_channelID st = channelID /\ Connection.st_expected st = cur).
  { intros st ->. assert (Ek : (Connection.StageVoiceReplacement (rt_co r) (rt_mgr r) owner cur channelID prepared joinedAt).1 = Ok st)
      by (rewrite <- Es; by destruct (Connection.StageVoiceReplacement _ _ _ _ _ _ _)).
    split; [exact (stage_channel _ _ _ _ _ _ _ _ Ek)|exact (stage_expects _ _ _ _ _ _ _ _ Ek)]. }
  clear n r Es. do 5 voice_step. destruct E0 as (n & w & E0). voice_step. destruct (proposed_fields _ _ _ (eq_trans E0 E1)) as [Hu Hc]. clear E0 E1 n w.
  repeat voice_step. rename s0 into c, l0 into schedules, l into cancellations. assert (Hact : va_UserID a1 = actorID) by (by apply (SetVoiceAuthority_voice _ _ _ _ E0)).
  assert (Hrest : forall info, goal (
    reserve_runtime (pb_pointer p0) c a4 (Some (fun n => join_commit n a s a1)) ;;= reserved <=~ reserved_result ;;
    result <=~ ensure (join_result IssueStateCursor success_body StdEncoding actorID commandID
      (mkJoinPlan (snapshotChannel ch) (ch_ID ch) info (is_some prepared) None schedules cancellations) (pu_Version reserved) (pu_Checkpoint reserved)) ;;
    reply_error (call CallMarkRuntimeReady) ;;=
    mret (mkMutation (Some (JoinPrepared (mkJoinPlan (snapshotChannel ch) (ch_ID ch) info (is_some prepared) None schedules cancellations) result)) (jr_state result)))).
  { intros info. apply join_timers_same in E1 as [[Er _] Ev]. assert (Hin : forall n, installs actorID replaceable (Some a1) (join_commit n a s a1)).
    { intros n. rewrite <- Hact. eapply installs_impl; [|by apply join_installs]. intros b ->. rewrite (proj2 (Hst _ E)). exact Hcur. }
    apply v_reserve; [done| |intros n; split; [by eapply installs_live|apply join_keeps]|].
    - rewrite Er. pose proof (SetVoiceAuthority_rows _ _ _ _ E0) as [-> _]. done.
    - intros rv n Hp Hf Hva _. apply h_result; [done|]. apply h_ensure; [done|]. intros r Hres. apply h_ready; [done|].
      assert (Hat : getVoiceAuthority (pu_Version (pr_result rv)) actorID = Some a1) by (unfold getVoiceAuthority; rewrite Hva, Ev; exact (proj1 (SetVoiceAuthority_voice _ _ _ _ E0))).
      eexists _, r, ch, a1, (join_commit n a s a1). split_and!; [reflexivity|done|done|done|rewrite Hc; by apply Hst| |exact Hf|done|done].
      eapply join_result_members; [exact Hres|exact Hat|]. cbn. rewrite (Hids _ (proj1 Hj)), Hc. by apply Hst. }
  unfold join_info. destruct prepared; [|apply v_pure, Hrest]. apply v_manager; [done|]. intros info _. apply Hrest.
Qed.
Lemma join_run conn input sourceIP commandID :
  goal (JoinVoice hkdf voiceEncrypted IssueStateCursor success_body StdEncoding actorID channelID conn expectedID input sourceIP commandID).
Proof.
  unfold JoinVoice, active_owner, pending_teardown, prepare_session, standing, join_noop. do 3 voice_step. rewrite Hv.
  assert (Hroom : forall ch, negb (has_room channelID ch v (getVoiceAuthority v actorID)) = false -> roomy ch).
  { intros ch Hr. apply negb_false_iff, negb_true_iff, andb_false_iff in Hr as [Hr%Z.leb_gt|Hr]; [by left|].
    right. destruct (getVoiceAuthority v actorID) as [a|]; [|done]. exists a. split; [done|]. by apply negb_false_iff, Z.eqb_eq in Hr. }
  repeat voice_step; lazymatch goal with
    | |- ServiceProps.triple _ _ _ (join_publish _ _ _ _ _ _ ?c ?j ?o ?ch _ ?cur ?old ?pe ?pr ?s) _ => apply (join_publish_run c j o ch cur old pe pr s); [by apply join_channel_spec|by apply Hroom|];
        eapply join_expected_spec; [eassumption|eassumption|]; intros; repeat case_match; simplify_eq; try done;
        match goal with Hb : bool_decide _ = true |- _ => apply bool_decide_eq_true in Hb; congruence end
    | _ => idtac
    end.
  apply v_noop. eexists _, _. split; [reflexivity|by apply join_channel_spec].
Qed.
End Body.


(** *** Leaving *)

Definition leave_noop_post (m : MutationResult LeaveValue) : Prop := exists plan, mr_value m = Some (LeavePlanned plan).
Definition leave_post (actorID : Z) (m : MutationResult LeaveValue) (commit : option (RuntimeCommit (W := World Runtime))) (w : StateVersion) : Prop :=
  (exists plan state, mr_value m = Some (LeavePrepared plan state)) /\ exists f, commit = Some f /\ installs actorID is_Some None f /\ getVoiceAuthority w actorID = None.
Lemma leave_run actorID conn expectedID commandID (p0 : pub) id : pb_locked p0 = false ->
  ServiceProps.triple jvalid jmarshal (V := LeaveValue) (roaming live p0 id) (LeaveVoice IssueStateCursor actorID conn expectedID commandID) (ended live leave_noop_post (leave_post actorID) p0 id).
Proof.
  intros Hu. unfold LeaveVoice, active_owner. do 5 voice_step; [do 2 voice_step|voice_step].
  voice_step; [|voice_step]. voice_step. apply v_authority; [done|done|intros co; apply live_GetVoiceAuthority|]. intros [x|] Hx; [|apply v_noop; by eexists].
  repeat voice_step. unfold leave_publish. repeat voice_step. destruct a3 as [s c']. apply leave_schedule_same in E6 as [[Er _] Ev].
  assert (Hin : forall n, installs actorID is_Some None (leave_commit n x)) by (intros n; rewrite <- Hx; eapply installs_impl; [|by apply leave_installs]; by intros b ->).
  apply v_reserve; [done| |intros n; split; [by eapply installs_live|apply leave_keeps]|].
  - cbn. rewrite Er. pose proof (SetVoiceAuthority_rows _ _ _ _ E4) as [-> _]. done.
  - intros rv n Hp Hf Hva _. apply h_result; [done|]. apply h_ensure; [done|]. intros r Hres. apply h_ready; [done|]. split; [by eexists _, _|].
    exists (leave_commit n x). split_and!; [exact Hf|done|]. unfold getVoiceAuthority. cbn in Hva. rewrite Hva, Ev. exact (proj1 (SetVoiceAuthority_voice _ _ _ _ E4)).
Qed.

(** leaving, in the same setting: a success that publishes ended the user's
    authority in one compare-and-swap, and the user has none, in the published
    state and, unless a later join gave it one, in the coordinator. *)
Theorem leave_coherent {G} (idNext : G -> result Z unit * G) error_code gate actorID conn expectedID t size number c1 c2 c3 (p : pub) (g : G) :
  pb_locked p = false -> mirror p -> live (co_of (pb_world p)) ->
  exists o, execute jvalid jmarshal juser idNext (mkCommand size number (Some (acquire_voice actorID gate)) (fun id => to_script error_code
      (LeaveVoice IssueStateCursor actorID conn expectedID id) t) c1 c2 c3) p g = Some o /\
    match oc_fail o with
    | Some _ => exists er, oc_reply o = Err er
    | None => pb_locked (oc_pub o) = false /\ mirror (oc_pub o) /\ w_db (pb_world (oc_pub o)) = w_db (pb_world p) /\ live (co_of (pb_world (oc_pub o))) /\
        match oc_reply o with
        | Err _ => pb_current (oc_pub o) = pb_current p
        | Ok c =>
            match cc_Publication c with
            | None => pb_current (oc_pub o) = pb_current p
            | Some _ => getVoiceAuthority (pb_current (oc_pub o)) actorID = None /\
                (exists before after, live (rt_co before) /\ cas before after /\ is_Some (voice_of (rt_co before) actorID) /\ voice_of (rt_co after) actorID = None) /\
                (kept actorID None -> voice_of (co_of (pb_world (oc_pub o))) actorID = None)
            end
        end
    end.
Proof.
  intros Hu Hm Hl. destruct (runtime_settles jvalid jmarshal juser live leave_noop_post (leave_post actorID) plain
    idNext error_code (LeaveVoice IssueStateCursor actorID conn expectedID) t (Some (acquire_voice actorID gate)) size number c1 c2 c3 p g)
    as (o & release & Ho & Hrel & Hs); [|intros v _ _ _; apply plain_tame|apply acquire_voice_ok|done|done|].
  { intros p0 id Hu0 _. by apply leave_run. }
  exists o. split; [exact Ho|]. unfold settled_runtime in Hs. destruct (oc_fail o); [done|]. destruct Hs as (Hlk & Hd & Hlo & Hr).
  assert (Hmir : persistent (pb_current (oc_pub o)) = persistent (pb_current p) -> mirror (oc_pub o)) by (intros E; unfold mirror; by rewrite Hd, E).
  destruct (oc_reply o) as [c|] eqn:Ec; [|rewrite Hr in Hmir; by auto]. destruct Hr as (m & _ & Hr). destruct (cc_Publication c).
  - destruct Hr as (Hp & f & w & (_ & f' & -> & Hin & Hat) & Hlw & Hn & Hw). destruct (installs_cleaned _ _ _ _ _ Hin Hlw Hn) as [Hcas Hend]. split_and!; try done; [by auto|]. intros Hk. rewrite Hw. cbn.
    destruct Hrel as [Hrel|Hrel]; [|by destruct (Hrel c)]. rewrite (release_voice _ _ _ _ Hrel). by apply Hend.
  - destruct Hr as [Hp _]. rewrite Hp in Hmir. by auto.
Qed.
End Join.

(** ** A user joins and leaves *)

#[local] Existing Instance EventBusProps.ex_prims.
#[local] Existing Instance PublicationProps.ex_pprims.
#[local] Existing Instance demo_env.
#[local] Existing Instance DatabaseProps.sample_prims.
#[local] Existing Instance DurableProps.demo_json.
#[local] Existing Instance ChannelProps.demo_events.
Definition quiet_env : VoiceEnv := {|
  others := fun _ r => r; mgr_now := fun _ => 1; mgr_clock := fun _ => 1; mgr_between := fun _ w => w; drawn_id := fun _ => Some (replicate 16 2);
  drawn_key := fun _ => None; revoke_now := 1
|}.
#[local] Existing Instance quiet_env.
#[local] Abbreviation conn := EventBusProps.webSocketSyncConnection.
Definition talk_db : Db := after (CreateChannel 500 None "talk" "voice" 0 "public" 10 0 0 (Some 7) 1 1) ChannelProps.lobby_db.
Lemma talk_ok : db_ok talk_db.
Proof. apply produced_ok. repeat (apply after_produced; [constructor|]). apply produced_empty. Qed.
Definition talk_state : persistentState := match newPersistentState (Some (projection_of talk_db)) with Ok st => st | Err _ => PublicationProps.ex_state "" end.
Definition talk_pub (c : ConnectionCoordinator) : StatePublication conn (World Runtime) :=
  mkPub 0 (mkVersion 1 (mkCheckpoint "e" 0) talk_state empty_runtime) PublicationProps.ex_ring None false
    (mkWorld talk_db Deadline.NewDeadlineScheduler (Voice.mkRuntime c (Session.NewManager 0) newVoiceCreateLimiter)).
Lemma talk_mirror c : mirror (talk_pub c).
Proof. split; [exact talk_ok|]. destruct (projection_loads talk_db talk_ok) as (st & Hst & Hds). cbn. unfold talk_state. by rewrite Hst. Qed.
Definition talk_tx : Tx.Tx := Tx.mkTx talk_db 0 (100 : gen).
Definition no_input : VoiceJoinInput := mkJoinInput "phone" false "".
Definition run_voice {V} (body : Z -> Mut conn Runtime V VoiceError (MutationResult V)) (p : StatePublication conn (World Runtime)) : option (Outcome conn (World Runtime) Z (MutationResult V)) :=
  execute PublicationProps.ok_json PublicationProps.ok_marshal (fun _ => Some [1]) (fun g => (Ok (g + 1), g + 1))
    (mkCommand 1 0 (Some (acquire_voice 7 None)) (fun id => to_script (fun _ => 0) (body id) talk_tx) false false false) p 600.
Definition talk_join := JoinVoice (C := conn) (V := JoinValue) (fun _ _ _ => None) false (fun _ _ => Some "cursor") (fun _ => Some "{}") (fun _ => "") 7 500 ConnectionProps.ex_conn
  Packet.zero_id no_input "10.0.0.1".
Lemma connected_live : live (sy_co ConnectionProps.ex_sys2).
Proof. exists ({[ConnectionProps.ex_conn]} ∪ ∅), ([] ++ []). exact ConnectionProps.ex_sys2_reachable. Qed.

Lemma quiet_others n r : live (rt_co r) -> live (rt_co (others n r)).
Proof. done. Qed.

End VoiceProps.
