(* ===== verification/Lifecycle.v ===== *)
(** * Lifecycle: connections and presence through the sequencer ([realtime/lifecycle.go])

    [ConnectionStatePublisher] couples the connection coordinator to the
    published state: activating a connection, setting a presence, and, from two
    worker goroutines, taking a user offline and projecting the end of a voice
    authority.

    Each command's [Execute] callback is a program over the runtime of [Voice];
    other goroutines act before every access.  The publisher itself is a system
    whose threads (the two workers, the observers of closed connections, the
    callers) move one critical section or channel operation at a time. *)

From S2P Require Import Prelude Float64 State StateRing Visibility Support Cursor Snapshot Lane Connection EventBus Publication Sequencer.
From S2P Require Import Database Stores Installation Identity Idempotency Durable Events Service Voice.
From stdpp Require Import base gmap strings list pretty.
From Stdlib Require Import ZArith.
#[local] Open Scope string_scope.
#[local] Open Scope list_scope.
#[local] Open Scope Z_scope.

Module Lifecycle.
Import State StateRing Visibility Snapshot EventBus Publication Sequencer Events Service Voice.
Import Connection (ConnectionCoordinator, ControlConnectionRef, mkRef, r_ID, r_UserID, AuthLease, mkLease, no_lease, Transport, ConnError, ErrInvalidConnection, ErrConnectionNotActive,
  ConnectionActive, Effect, EffClosed, EffVoiceObserve, co_log, validConnectionRef).
Import Stores.Tx (StoreEnv, clock, tx_step, next_step).
#[local] Open Scope mutation_scope.

(** [ErrConnection] are the coordinator's errors, [ErrProjection] those of the application's hook. *)
Inductive LifecycleError :=
  | ErrInvalidConnectionPublisher | ErrInvalidPresence | ErrPresenceRateLimited | ErrConnectionUnauthorized
  | ErrConnection (e : ConnError) | ErrProjection (e : ServiceError VoiceError).

(** ** Presence values *)

Definition presenceSetRate : Z := Float64.of_int 2.
Definition presenceSetBurst : Z := Float64.of_int 4.

Definition samePresence (left right : Presence) : bool :=
  bool_decide (pr_Status left = pr_Status right) &&
  match pr_Activity left, pr_Activity right with
  | Some a, Some b => bool_decide (pa_Type a = pa_Type b) && bool_decide (pa_Name a = pa_Name b) && bool_decide (pa_Privacy a = pa_Privacy b)
  | None, None => true
  | _, _ => false
  end.
(** A copy of a value is the value. *)
Definition clonePresenceActivity (activity : option PresenceActivity) : option PresenceActivity := activity.
Definition validClientPresence (status : string) (activity : option PresenceActivity) : bool :=
  if negb (bool_decide (status = "online")) && negb (bool_decide (status = "dnd")) && negb (bool_decide (status = "afk")) && negb (bool_decide (status = "invisible")) then false
  else validPresence (mkPresence status activity).

Record presenceRateState := mkRate { ps_tokens : Z; ps_last : Z }.
(** One user's part of [allowPresence], under [rateMu]. *)
Definition allow_rate (known : option presenceRateState) (now : Z) : bool * presenceRateState :=
  let state := match known with Some s => s | None => mkRate presenceSetBurst now end in
  let elapsed := Float64.duration_seconds (time_sub now (ps_last state)) in
  let state := if 0 <? elapsed
               then mkRate (Z.min presenceSetBurst (Float64.add (ps_tokens state) (Float64.mul elapsed presenceSetRate))) now else state in
  if ps_tokens state <? Float64.one then (false, state)
  else (true, mkRate (Float64.sub (ps_tokens state) Float64.one) (ps_last state)).

Record voiceAuthorityTransition := mkTransition { tr_previous : option VoiceAuthority; tr_current : option VoiceAuthority; tr_reason : string }.
Record PresenceSetResult := mkSetResult { ps_CommandID : Z; ps_Changed : bool }.

(** ** The commands *)

Section Commands.
Context {C : Type} `{!StoreEnv, !SqlPrims, !EventJson, !VoiceEnv}.
#[local] Abbreviation world := (World Runtime).
#[local] Abbreviation mut := (Mut C Runtime bool LifecycleError).
(** What a callback answers, and what runs once the candidate is visible. *)
Definition Answer : Type := MutationResult bool * option (world -> world).
Definition answer (changed : option bool) : Answer := (mkMutation changed stateless, None).
Definition output (a : Answer) : CommandOutput world (MutationResult bool) := mkOutput a.1 None ((fun f w => (f w, CbOk)) <$> a.2).

Definition presenceEventTemplates (userID : Z) (changed : bool) : option (list StateEventTemplate) :=
  if negb changed then Some []
  else data ← json_body (BodyUserRef (pretty userID)); Some [mkTemplate "presence.updated" server_scope 0 (Some data) 0 [] 0 userID 0 false].

(** A reservation made ready for publication. *)
Definition publish (pointer : nat) (c : StateCandidate) (events : list StateEventTemplate) (commit : option (nat -> RuntimeCommit (W := world))) (a : Answer) : mut Answer :=
  reserve_runtime pointer c events commit ;;= reply_error (call CallMarkRuntimeReady) ;;= mret a.
(** The step an access made here would have. *)
Definition moment : mut nat := fun t k => k (Ok (tx_step t)) (next_step t).

(** *** Activating a connection *)

(** [reservation.Activate] at the publication; its answer is what [Activate] returns. *)
Definition activate_at (n : nat) (ref : ControlConnectionRef) (transport : Transport) (accessExpiresAt : Z) (w : world) :=
  Connection.Activate (rt_co (others n (w_voice w))) ref (Some transport) accessExpiresAt.
Definition activate_commit (n : nat) (ref : ControlConnectionRef) (transport : Transport) (accessExpiresAt : Z) : RuntimeCommit (W := world) := fun w =>
  let r := others n (w_voice w) in
  let '(a, c) := activate_at n ref transport accessExpiresAt w in
  (set_runtime (mkRuntime c (rt_mgr r) (rt_limiter r)) w, (match a with Ok _ => None | Err _ => Some CommitFailed end, None)).
Definition first_online (userID : Z) (c : StateCandidate) : option (bool * StateCandidate) :=
  let previous := getPresence (version c) userID in
  c ← SetPresence c userID (mkPresence "online" None);
  Some (negb (bool_decide (pr_Status previous = "online")) || is_some (pr_Activity previous), c).
Definition activate_body (ref : ControlConnectionRef) (transport : Transport) (accessExpiresAt : Z) : mut Answer :=
  pv <=~ current ;;
  let c := BuildRuntimeCandidate pv.2 in
  count <=~ on_connections (fun co => Connection.UserActiveCount co (r_UserID ref)) ;;
  cc <=~ (if count =? 0 then projected_state (first_online (r_UserID ref) c) else mret (false, c)) ;;
  events <=~ encoded (presenceEventTemplates (r_UserID ref) cc.1) ;;
  publish pv.1 cc.2 events (Some (fun n => activate_commit n ref transport accessExpiresAt)) (answer None).

(** *** Setting a presence *)

Definition change_presence (userID : Z) (next : Presence) (c : StateCandidate) : option (bool * StateCandidate) :=
  let changed := negb (samePresence (getPresence (version c) userID) next) in c ← SetPresence c userID next; Some (changed, c).
(** The clock moved on since the check at the head of the callback. *)
Definition presence_commit (n : nat) (ref : ControlConnectionRef) (expectedLease : AuthLease) : RuntimeCommit (W := world) := fun w =>
  let r := others n (w_voice w) in
  let '(ok, c) := Connection.LeaseMatches (rt_co r) ref expectedLease (clock (S n)) in
  (set_runtime (mkRuntime c (rt_mgr r) (rt_limiter r)) w, (if ok then None else Some CommitFailed, None)).
Definition presence_body (ref : ControlConnectionRef) (expectedLease : AuthLease) (status : string) (activity : option PresenceActivity) : mut Answer :=
  now <=~ voiceNowMillis ;;
  ok <=~ on_connections (fun co => Connection.LeaseMatches co ref expectedLease now) ;;
  if negb ok then refuse (ErrConnection ErrConnectionNotActive)
  else
    pv <=~ current ;;
    cc <=~ projected_state (change_presence (r_UserID ref) (mkPresence status (clonePresenceActivity activity)) (BuildRuntimeCandidate pv.2)) ;;
    events <=~ encoded (presenceEventTemplates (r_UserID ref) cc.1) ;;
    publish pv.1 cc.2 events (Some (fun n => presence_commit n ref expectedLease)) (answer (Some cc.1)).

(** *** Taking a user offline *)

Definition offline_body (userID : Z) : mut Answer :=
  pv <=~ current ;;
  let c := BuildRuntimeCandidate pv.2 in
  match getUser (version c) userID with
  | Some _ =>
      count <=~ on_connections (fun co => Connection.UserActiveCount co userID) ;;
      cc <=~ (if count =? 0 then projected_state (change_presence userID (mkPresence "offline" None) c) else mret (false, c)) ;;
      events <=~ encoded (presenceEventTemplates userID cc.1) ;;
      publish pv.1 cc.2 events None (answer None)
  | None => publish pv.1 c [] None (answer None)
  end.

(** *** Projecting the end of a voice authority *)

(** The application's hook; [VoiceAuthorityProjection] of [Voice] is the one installed. *)
Context (voiceProjection : option (StateCandidate -> option VoiceAuthority -> option VoiceAuthority -> string ->
  result (list StateEventTemplate * (world -> world) * StateCandidate) (ServiceError VoiceError))).
Definition clear_tombstone (n : nat) (previous : option VoiceAuthority) (w : world) : world :=
  let r := others n (w_voice w) in set_runtime (mkRuntime (Connection.clearPendingVoiceAuthorityTombstone (rt_co r) previous) (rt_mgr r) (rt_limiter r)) w.
Definition project (c : StateCandidate) (t : voiceAuthorityTransition) : mut (list StateEventTemplate * (world -> world) * StateCandidate) :=
  match voiceProjection with
  | None => mret ([], fun w => w, c)
  | Some f => match f c (tr_previous t) (tr_current t) (tr_reason t) with Ok r => mret r | Err e => refuse (ErrProjection e) end
  end.
Definition voice_body (t : voiceAuthorityTransition) : mut Answer :=
  n <=~ moment ;;
  pv <=~ current ;;
  tc <=~ projected_state (TransitionVoiceAuthority (BuildRuntimeCandidate pv.2) (tr_previous t) (tr_current t)) ;;
  if negb tc.1 then publish pv.1 tc.2 [] None (mkMutation (Some false) stateless, Some (clear_tombstone n (tr_previous t)))
  else
    p <=~ project tc.2 t ;;
    let '(applicationEvents, afterPublish, c) := p in
    authorityEvents <=~ encoded (voiceAuthorityEventTemplates (tr_previous t) (tr_current t) (tr_reason t)) ;;
    publish pv.1 c (authorityEvents ++ applicationEvents) None
      (mkMutation (Some true) stateless, Some (fun w => clear_tombstone n (tr_previous t) (afterPublish w))).

(** *** As commands *)

Context (error_code : ServiceError LifecycleError -> Z).
Definition command (canceled : bool * bool * bool) (body : mut Answer) (t : Stores.Tx.Tx) : PostCommitCommand C world (MutationResult bool) :=
  mkCommand 1 0 None (fun _ => body_script output error_code body t) canceled.1.1 canceled.1.2 canceled.2.
Definition offlineCommand (canceled : bool * bool * bool) (t : Stores.Tx.Tx) (userID : Z) : PostCommitCommand C world (MutationResult bool) :=
  command canceled (offline_body userID) t.
Definition voiceCommand (canceled : bool * bool * bool) (t : Stores.Tx.Tx) (tr : voiceAuthorityTransition) : PostCommitCommand C world (MutationResult bool) :=
  command canceled (voice_body tr) t.
End Commands.

(** ** The publisher *)

Record ConnectionStatePublisher := mkPublisher {
  rates : gmap Z presenceRateState; offlinePending : gset Z; offlineQueue : list Z; voiceQueue : list voiceAuthorityTransition; offlineStop : bool
}.
Definition NewConnectionStatePublisher : ConnectionStatePublisher := mkPublisher ∅ ∅ [] [] false.
Definition set_rates (p : ConnectionStatePublisher) m := mkPublisher m (offlinePending p) (offlineQueue p) (voiceQueue p) (offlineStop p).
Definition set_pending (p : ConnectionStatePublisher) m := mkPublisher (rates p) m (offlineQueue p) (voiceQueue p) (offlineStop p).
Definition set_offlineQueue (p : ConnectionStatePublisher) q := mkPublisher (rates p) (offlinePending p) q (voiceQueue p) (offlineStop p).
Definition set_voiceQueue (p : ConnectionStatePublisher) q := mkPublisher (rates p) (offlinePending p) (offlineQueue p) q (offlineStop p).
Definition allowPresence (p : ConnectionStatePublisher) (userID now : Z) : bool * ConnectionStatePublisher :=
  let '(ok, state) := allow_rate (rates p !! userID) now in (ok, set_rates p (<[userID := state]> (rates p))).

(** A send that does not block. *)
Definition try_send {T} (q : list T) (x : T) : option (list T) := if len q <? MaxControlTeardownQueueItems then Some (q ++ [x]) else None.
(** [errors.New] of a full reserve. *)
Definition reserve_exhausted : SequencerError := ErrCallback 0.
(** [context.Canceled], [context.DeadlineExceeded] and [ErrSequencerClosed]. *)
Definition teardown_ends (e : SequencerError) : bool :=
  match e with ErrContext | ErrSequencerClosed | ErrPublication ErrCanceled => true | _ => false end.

(** A worker: waiting for its first item, collecting, waiting for the gate,
    holding it, waiting for the replies to its batch, and settling. *)
Inductive BatchWorker (T : Type) :=
  | Waiting | Collecting (batch : list T) | Gating (batch : list T) | Holding (batch : list T) | Submitted (batch : list T) (ids : list nat)
  | Settling (batch : list T) (failure : option SequencerError) | Finished.
Arguments Waiting {T}. Arguments Collecting {T}. Arguments Gating {T}. Arguments Holding {T}. Arguments Submitted {T}. Arguments Settling {T}. Arguments Finished {T}.
(** What a worker holds of the queue's items. *)
Definition batch_of {T} (w : BatchWorker T) : list T :=
  match w with Waiting | Finished => [] | Collecting b | Gating b | Holding b | Submitted b _ | Settling b _ => b end.

(** The case a select takes: an item, or the timer or the stop channel. *)
Inductive Choice := Receive | Leave.
Definition collect_step {T} (choice : Choice) (queue : list T) (stopped : bool) (w : BatchWorker T) : option (list T * BatchWorker T) :=
  match w, choice, queue with
  | Waiting, Receive, x :: q => Some (q, Collecting [x])
  | Waiting, Leave, _ => if stopped then Some (queue, Finished) else None
  | Collecting b, Receive, x :: q => if len b <? MaxControlPlansPerItem then Some (q, Collecting (b ++ [x])) else None
  | Collecting b, Leave, _ => Some (queue, Gating b)
  | _, _, _ => None
  end.

(** [connectionClosed], between its critical sections. *)
Inductive Closer := Counting (ref : ControlConnectionRef) | Marking (userID : Z) | Sending (userID : Z) | Unmarking (userID : Z).
Definition marked (c : Closer) : option Z := match c with Sending u | Unmarking u => Some u | _ => None end.

(** Calls of [Activate] and [SetPresence]. *)
Inductive Request :=
  | ReqActivate (ref : ControlConnectionRef) (transport : option Transport) (accessExpiresAt : Z)
  | ReqPresence (ref : ControlConnectionRef) (status : string) (activity : option PresenceActivity).
Inductive Response := Activated (ref : ControlConnectionRef) (lease : AuthLease) | PresenceSet (r : PresenceSetResult).
Inductive CallError := CallRefused (e : LifecycleError) | CallGate | CallSequencer (e : SequencerError).
Inductive Caller := Entering (r : Request) | CallerGating (r : Request) | CallerHolding (r : Request) | Awaiting (r : Request) (id : nat) | Answered (a : result Response CallError).

Definition acquireRuntimeMutation (g : option MutationGate.Gate) (cancelled prefer_ctx : bool) : option (result (option MutationGate.Gate) SequencerError) :=
  match g with
  | None => Some (Ok None)
  | Some g => match MutationGate.Acquire g cancelled prefer_ctx with
              | MutationGate.Granted g => Some (Ok (Some g))
              | MutationGate.Cancelled => Some (Err ErrContext)
              | MutationGate.Blocked => None
              end
  end.
Definition release_gate (g : option MutationGate.Gate) : option MutationGate.Gate := MutationGate.Release <$> g.

(** The reply to a command, and the wait of [SubmitControlBatch] for its commands in order. *)
Definition reply_of {A} (replies : list (nat * A)) (id : nat) : option A := snd <$> head (filter (fun r => r.1 = id) replies).
Fixpoint wait_batch {A} (replies : list (nat * result A SequencerError)) (ids : list nat) : option (option SequencerError) :=
  match ids with
  | [] => Some None
  | id :: rest => match reply_of replies id with None => None | Some (Err e) => Some (Some e) | Some (Ok _) => wait_batch replies rest end
  end.

Section System.
Context {C : Type} `{!StateSink C} {cprims : Cursor.CursorPrims} {pprims : PublicationPrims} `{!StoreEnv, !SqlPrims, !EventJson, !VoiceEnv}.
Context (jvalid : bytes -> bool) (jmarshal : stateEventEnvelope -> option bytes) (juser : SnapshotUserPresence -> option bytes).
Context {G : Type} (idNext : G -> result Z unit * G).
Context (voiceProjection : option (StateCandidate -> option VoiceAuthority -> option VoiceAuthority -> string ->
  result (list StateEventTemplate * (World Runtime -> World Runtime) * StateCandidate) (ServiceError VoiceError))).
Context (error_code : ServiceError LifecycleError -> Z).
(** By command number: where its program starts, and what its context answers. *)
Context (start : nat -> Stores.Tx.Tx) (canceled : nat -> bool * bool * bool).
#[local] Abbreviation world := (World Runtime).
#[local] Abbreviation sequencer := (PostCommitSequencer C world G (MutationResult bool)).

Record Sys := mkSys {
  sy_pub : ConnectionStatePublisher; sy_seq : sequencer; sy_run : Worker C world (MutationResult bool); sy_gate : option MutationGate.Gate;
  sy_offline : BatchWorker Z; sy_voice : BatchWorker voiceAuthorityTransition; sy_closers : list Closer; sy_callers : list Caller
}.
Definition with_pub (s : Sys) p := mkSys p (sy_seq s) (sy_run s) (sy_gate s) (sy_offline s) (sy_voice s) (sy_closers s) (sy_callers s).
Definition with_seq (s : Sys) q := mkSys (sy_pub s) q (sy_run s) (sy_gate s) (sy_offline s) (sy_voice s) (sy_closers s) (sy_callers s).
Definition with_gate (s : Sys) g := mkSys (sy_pub s) (sy_seq s) (sy_run s) g (sy_offline s) (sy_voice s) (sy_closers s) (sy_callers s).
Definition with_offline (s : Sys) w := mkSys (sy_pub s) (sy_seq s) (sy_run s) (sy_gate s) w (sy_voice s) (sy_closers s) (sy_callers s).
Definition with_voice (s : Sys) w := mkSys (sy_pub s) (sy_seq s) (sy_run s) (sy_gate s) (sy_offline s) w (sy_closers s) (sy_callers s).
Definition with_closers (s : Sys) l := mkSys (sy_pub s) (sy_seq s) (sy_run s) (sy_gate s) (sy_offline s) (sy_voice s) l (sy_callers s).
Definition with_callers (s : Sys) l := mkSys (sy_pub s) (sy_seq s) (sy_run s) (sy_gate s) (sy_offline s) (sy_voice s) (sy_closers s) l.

Definition connections (s : Sys) : ConnectionCoordinator := rt_co (w_voice (pb_world (sq_pub (sy_seq s)))).
Definition set_connections (s : Sys) (c : ConnectionCoordinator) : Sys :=
  let q := sy_seq s in let w := pb_world (sq_pub q) in let r := w_voice w in
  with_seq s (set_state q (with_world (sq_pub q) (set_runtime (mkRuntime c (rt_mgr r) (rt_limiter r)) w)) (sq_gen q)).
Definition Fail (s : Sys) (e : SequencerError) : Sys := with_seq s (fail (sy_seq s) (Some e)).

(** *** The observers of the coordinator *)

Definition voiceAuthorityChanged (s : Sys) (previous current : option VoiceAuthority) (reason : string) : Sys :=
  match try_send (voiceQueue (sy_pub s)) (mkTransition (Connection.cloneVoiceAuthority previous) (Connection.cloneVoiceAuthority current) reason) with
  | Some q => with_pub s (set_voiceQueue (sy_pub s) q)
  | None => Fail s reserve_exhausted
  end.
(** [connectionClosed] takes several steps; the coordinator's callback starts it. *)
Definition observe (s : Sys) (e : Effect) : Sys :=
  match e with
  | EffClosed ref => with_closers s (sy_closers s ++ [Counting ref])
  | EffVoiceObserve previous current reason => voiceAuthorityChanged s previous current reason
  | _ => s
  end.
(** The callbacks of the effects that were logged since. *)
Definition notice (before : list Effect) (s : Sys) : Sys := fold_left observe (drop (length before) (co_log (connections s))) s.
Definition connectionClosed (s : Sys) (i : nat) : option Sys :=
  closer ← sy_closers s !! i;
  let p := sy_pub s in
  let next s c := with_closers s (<[i := c]> (sy_closers s)) in
  let done s := with_closers s (delete i (sy_closers s)) in
  Some match closer with
       | Counting ref => let '(count, c) := Connection.UserActiveCount (connections s) (r_UserID ref) in
                         let s := set_connections s c in if negb (count =? 0) then done s else next s (Marking (r_UserID ref))
       | Marking u => if bool_decide (u ∈ offlinePending p) then done s else next (with_pub s (set_pending p ({[u]} ∪ offlinePending p))) (Sending u)
       | Sending u => match try_send (offlineQueue p) u with
                      | Some q => done (with_pub s (set_offlineQueue p q))
                      | None => next s (Unmarking u)
                      end
       | Unmarking u => Fail (done (with_pub s (set_pending p (offlinePending p ∖ {[u]})))) reserve_exhausted
       end.

(** *** The workers *)

(** Numbers of the commands a worker submits next. *)
Definition numbered {T} (s : Sys) (command : bool * bool * bool -> Stores.Tx.Tx -> T -> PostCommitCommand C world (MutationResult bool)) (batch : list T) :=
  zip_with (fun n x => command (canceled n) (start n) x) (seq (sq_next (sy_seq s)) (length batch)) batch.
(** From the gate to the replies, which both workers share. *)
Definition batch_step {T} (command : bool * bool * bool -> Stores.Tx.Tx -> T -> PostCommitCommand C world (MutationResult bool)) (prefer_ctx : bool) (s : Sys) (w : BatchWorker T)
  : option (Sys * BatchWorker T) :=
  match w with
  | Gating b => a ← acquireRuntimeMutation (sy_gate s) (offlineStop (sy_pub s)) prefer_ctx;
                Some match a with Ok g => (with_gate s g, Holding b) | Err e => (s, Settling b (Some e)) end
  | Holding b => Some match SubmitControlBatch (sy_seq s) (numbered s command b) with
                      | (Ok ids, q) => (with_seq s q, Submitted b ids)
                      | (Err e, q) => (with_gate (with_seq s q) (release_gate (sy_gate s)), Settling b (Some e))
                      end
  | Submitted b ids => failure ← wait_batch (sq_replies (sy_seq s)) ids; Some (with_gate s (release_gate (sy_gate s)), Settling b failure)
  | _ => None
  end.
Definition report (s : Sys) (failure : option SequencerError) : Sys :=
  match failure with Some e => if teardown_ends e then s else Fail s e | None => s end.
Definition runOfflineBatches (choice : Choice) (prefer_ctx : bool) (s : Sys) : option Sys :=
  let p := sy_pub s in
  match sy_offline s with
  | Waiting | Collecting _ => '(q, w) ← collect_step choice (offlineQueue p) (offlineStop p) (sy_offline s); Some (with_offline (with_pub s (set_offlineQueue p q)) w)
  | Settling b failure => Some (report (with_offline (with_pub s (set_pending p (offlinePending p ∖ list_to_set b))) Waiting) failure)
  | w => '(s, w) ← batch_step (offlineCommand error_code) prefer_ctx s w; Some (with_offline s w)
  end.
Definition runVoiceBatches (choice : Choice) (prefer_ctx : bool) (s : Sys) : option Sys :=
  let p := sy_pub s in
  match sy_voice s with
  | Waiting | Collecting _ => '(q, w) ← collect_step choice (voiceQueue p) (offlineStop p) (sy_voice s); Some (with_voice (with_pub s (set_voiceQueue p q)) w)
  | Settling b failure => Some (report (with_voice s Waiting) failure)
  | w => '(s, w) ← batch_step (voiceCommand voiceProjection error_code) prefer_ctx s w; Some (with_voice s w)
  end.

(** *** Callers *)

(** [now] is the clock and [validated] what the lease validator answers; the guards of [SetPresence] come in this order. *)
Definition enter (s : Sys) (r : Request) (now : Z) (validated : option LifecycleError) : Sys * Caller :=
  let refused s e := (s, Answered (Err (CallRefused e))) in
  match r with
  | ReqActivate ref transport accessExpiresAt =>
      if negb (is_some transport) || (accessExpiresAt <=? 0) then refused s ErrInvalidConnectionPublisher
      else if negb (validConnectionRef ref) then refused s (ErrConnection ErrInvalidConnection) else (s, CallerGating r)
  | ReqPresence ref status activity =>
      if negb (validConnectionRef ref) then refused s ErrInvalidConnectionPublisher
      else if negb (validClientPresence status activity) then refused s ErrInvalidPresence
      else let '(state, c) := Connection.ConnState (connections s) ref in
           let s := set_connections s c in
           if negb (bool_decide (state = Some ConnectionActive)) then refused s (ErrConnection ErrConnectionNotActive)
           else let '(ok, p) := allowPresence (sy_pub s) (r_UserID ref) now in
                let s := with_pub s p in
                if negb ok then refused s ErrPresenceRateLimited
                else match validated with Some e => refused s e | None => (s, CallerGating r) end
  end.
(** With the gate held: the command, or the connection is gone. *)
Definition request_command (s : Sys) (r : Request) : option (PostCommitCommand C world (MutationResult bool)) * Sys :=
  let n := sq_next (sy_seq s) in
  match r with
  | ReqActivate ref (Some transport) accessExpiresAt => (Some (command error_code (canceled n) (activate_body ref transport accessExpiresAt) (start n)), s)
  | ReqActivate _ None _ => (None, s)
  | ReqPresence ref status activity =>
      let '(lease, c) := Connection.GetAuthLease (connections s) ref in
      ((fun l => command error_code (canceled n) (presence_body ref l status activity) (start n)) <$> lease, set_connections s c)
  end.
Definition submit_request (s : Sys) (r : Request) : Sys * Caller :=
  let leave s e := (with_gate s (release_gate (sy_gate s)), Answered (Err e)) in
  match request_command s r with
  | (None, s) => leave s (CallRefused (ErrConnection ErrConnectionNotActive))
  | (Some c, s) => match Submit (sy_seq s) c with
                   | (Ok id, q) => (with_seq s q, Awaiting r id)
                   | (Err e, q) => leave (with_seq s q) (CallSequencer e)
                   end
  end.
(** An activation that committed assigned its reference and its first lease. *)
Definition response (r : Request) (completion : CommandCompletion (MutationResult bool)) : Response :=
  match r with
  | ReqActivate ref _ accessExpiresAt => Activated ref (mkLease 1 accessExpiresAt)
  | ReqPresence _ _ _ => PresenceSet (mkSetResult (cc_CommandID completion) (default false (mr_value (cc_Value completion))))
  end.
Definition caller_step (s : Sys) (i : nat) (now : Z) (validated : option LifecycleError) (cancelled prefer_ctx : bool) : option Sys :=
  caller ← sy_callers s !! i;
  let become (sc : Sys * Caller) := with_callers sc.1 (<[i := sc.2]> (sy_callers sc.1)) in
  match caller with
  | Entering r => Some (become (enter s r now validated))
  | CallerGating r => a ← acquireRuntimeMutation (sy_gate s) cancelled prefer_ctx;
                      Some (become match a with Ok g => (with_gate s g, CallerHolding r) | Err _ => (s, Answered (Err CallGate)) end)
  | CallerHolding r => Some (become (submit_request s r))
  | Awaiting r id => reply ← reply_of (sq_replies (sy_seq s)) id;
                     Some (become (with_gate s (release_gate (sy_gate s)), Answered match reply with Ok c => Ok (response r c) | Err e => Err (CallSequencer e) end))
  | Answered _ => None
  end.

(** *** Teardown, and every move of the system *)

(** An operation of the coordinator, with the callbacks it makes. *)
Definition coordinate {A} (s : Sys) (f : ConnectionCoordinator -> A * ConnectionCoordinator) : A * Sys :=
  let '(a, c) := f (connections s) in (a, notice (co_log (connections s)) (set_connections s c)).
Definition Disconnect (s : Sys) (ref : ControlConnectionRef) (statusCode : Z) (reason : string) : bool * Sys :=
  coordinate s (fun c => Connection.BeginDisconnect c ref statusCode reason).
Definition DisconnectLoginSession (s : Sys) (userID loginSessionID : Z) (reason : string) (order : list Connection.ConnID) : Sys :=
  (coordinate s (fun c => (tt, Connection.DisconnectLoginSession c userID loginSessionID reason order))).2.
Definition DisconnectUser (s : Sys) (userID : Z) (reason : string) (order : list Connection.ConnID) : Sys :=
  (coordinate s (fun c => (tt, Connection.DisconnectUser c userID reason order))).2.
(** [Close] stops the workers, and returns once both finished. *)
Definition Close (s : Sys) : Sys :=
  let p := sy_pub s in with_pub s (mkPublisher (rates p) (offlinePending p) (offlineQueue p) (voiceQueue p) true).
Definition Closed (s : Sys) : bool := match sy_offline s, sy_voice s with Finished, Finished => true | _, _ => false end.

Inductive Move :=
  | MConnections (f : ConnectionCoordinator -> ConnectionCoordinator) | MCloser (i : nat) | MOffline (choice : Choice) (prefer_ctx : bool) | MVoice (choice : Choice) (prefer_ctx : bool)
  | MCall (r : Request) | MCaller (i : nat) (now : Z) (validated : option LifecycleError) (cancelled prefer_ctx : bool) | MRun (control : bool) | MClose.
Definition move (s : Sys) (m : Move) : option Sys :=
  match m with
  | MConnections f => Some (coordinate s (fun c => (tt, f c))).2
  | MCloser i => connectionClosed s i
  | MOffline choice prefer_ctx => runOfflineBatches choice prefer_ctx s
  | MVoice choice prefer_ctx => runVoiceBatches choice prefer_ctx s
  | MCall r => Some (with_callers s (sy_callers s ++ [Entering r]))
  | MCaller i now validated cancelled prefer_ctx => caller_step s i now validated cancelled prefer_ctx
  | MRun control => '(q, w) ← run_step jvalid jmarshal juser idNext (sy_seq s) (sy_run s) control;
                    Some (notice (co_log (connections s)) (mkSys (sy_pub s) q w (sy_gate s) (sy_offline s) (sy_voice s) (sy_closers s) (sy_callers s)))
  | MClose => Some (Close s)
  end.
Definition moves (s : Sys) (l : list Move) : option Sys := foldl (fun s m => s ≫= fun s => move s m) (Some s) l.
(** A new publisher over a sequencer, its observers installed. *)
Definition initial (q : sequencer) (gate : option MutationGate.Gate) : Sys :=
  let s := mkSys NewConnectionStatePublisher q (Idle true true) gate Waiting Waiting [] [] in
  set_connections s (Connection.SetVoiceAuthorityObserver (Connection.SetCloseObserver (connections s) true) true).
End System.
Arguments Sys C G : clear implicits.
End Lifecycle.
