(* ===== verification/LifecycleProps.v ===== *)
(** * LifecycleProps: presence, connections and their teardown

    The budget of presence commands is a token bucket.  Each command of
    [realtime/lifecycle.go] is described by its outcome, whatever other
    goroutines do to the coordinator meanwhile.  The publisher's own bookkeeping
    is an invariant of every run of its threads, and three runs show what it
    does not give. *)

From S2P Require Import Prelude Float64 TokenBucket Packet Session State StateProps StateRing Visibility Rbac Support Cursor Snapshot Lane Ingress Connection ConnectionProps.
From S2P Require Import EventBus EventBusProps Publication PublicationProps Sequencer Database DatabaseProps Stores Installation InstallationProps.
From S2P Require Import Identity Idempotency Durable DurableProps Events Service ServiceProps ChannelService ChannelProps Voice VoiceProps Lifecycle.
From stdpp Require Import base gmap strings list sorting relations.
From Stdlib Require Import ZArith Lia.
#[local] Open Scope string_scope.
#[local] Open Scope list_scope.
#[local] Open Scope Z_scope.

Module LifecycleProps.
Import State StateRing Visibility Snapshot EventBus Publication Sequencer Database DatabaseProps Events Service ServiceProps Voice VoiceProps Lifecycle.
Import Connection (ConnectionCoordinator, ControlConnectionRef, r_ID, r_UserID, AuthLease, mkLease, Transport, with_user, reading, locked).
Import Stores.Tx (StoreEnv, clock, tx_step, next_step).
#[local] Open Scope mutation_scope.

(** ** The budget of presence commands *)

#[local] Transparent Float64.rnd.
Lemma rnd_nonpos p q : p <= 0 -> 0 < q -> Float64.rnd p q <= 0.
Proof.
  intros Hp Hq. unfold Float64.rnd. destruct (Z.ltb_spec p 0); [pose proof (Float64.rnd_pos_nonneg (- p) q); lia|]. replace p with (0 * q) by lia.
  rewrite Float64.rnd_pos_exact; [lia|lia|lia|]. by exists 0, 0.
Qed.
Lemma seconds_nonpos d : d <= 0 -> Float64.duration_seconds d <= 0.
Proof.
  intros Hd. pose proof Float64.one_pos. unfold Float64.duration_seconds. pose proof (Z.quot_rem d 1000000000 ltac:(lia)). assert (Z.rem d 1000000000 <= 0) by (apply Z.rem_nonpos; lia).
  assert (Z.quot d 1000000000 <= 0) by (rewrite <- (Z.opp_involutive d), Z.quot_opp_l by lia; pose proof (Z.quot_pos (- d) 1000000000); lia).
  unfold Float64.add. apply rnd_nonpos; [|lia]. unfold Float64.div, Float64.of_int at 1. pose proof (rnd_nonpos (Z.quot d 1000000000 * Float64.one) 1 ltac:(nia) ltac:(lia)).
  rewrite (Float64.of_int_exact 1000000000) by lia. unfold Float64.of_int. pose proof (rnd_nonpos (Z.rem d 1000000000 * Float64.one) 1 ltac:(nia) ltac:(lia)).
  pose proof (rnd_nonpos (Float64.rnd (Z.rem d 1000000000 * Float64.one) 1 * Float64.one) (1000000000 * Float64.one) ltac:(nia) ltac:(lia)). lia.
Qed.
Lemma seconds_pos d : 0 < d < 2 ^ 63 -> 0 < Float64.duration_seconds d.
Proof.
  intros Hd. pose proof Float64.one_pos as Ho. pose proof Float64.one_large as Hol. unfold Float64.duration_seconds. pose proof (Z.quot_rem d 1000000000 ltac:(lia)) as Hqr.
  pose proof (Z.rem_bound_pos d 1000000000 ltac:(lia) ltac:(lia)) as Hr. assert (0 <= Z.quot d 1000000000) by (apply Z.quot_pos; lia).
  rewrite !Float64.of_int_exact by lia. set (q := Z.quot d 1000000000) in *. set (r := Z.rem d 1000000000) in *.
  assert (Hdiv : 0 < r -> 1 <= Float64.div (r * Float64.one) (1000000000 * Float64.one)).
  { intros Hr0. unfold Float64.div. rewrite Float64.rnd_nonneg_eq by nia. rewrite <- (Float64.rnd_pos_exact 1 1); [|lia|lia|by exists 1, 0]. apply Float64.rnd_pos_mono; nia. }
  assert (0 <= Float64.div (r * Float64.one) (1000000000 * Float64.one)) by (apply Float64.div_nonneg; nia).
  apply Float64.add_gt; [by exists 0, 0|nia|lia|lia|]. destruct (decide (0 < r)); [specialize (Hdiv ltac:(done)); nia|]. assert (0 < q) by lia. nia.
Qed.

(** The clock moved on exactly if some time elapsed. *)
Lemma elapsed_iff now last : ((now <? last) || (now =? last)) = negb (0 <? Float64.duration_seconds (time_sub now last)).
Proof.
  destruct (Z.leb_spec now last) as [Hle|Hlt].
  - rewrite (proj2 (Z.ltb_ge 0 (Float64.duration_seconds _))) by (apply seconds_nonpos; unfold time_sub; lia). destruct (Z.ltb_spec now last); [done|]. cbn. apply Z.eqb_eq. lia.
  - rewrite (proj2 (Z.ltb_lt 0 (Float64.duration_seconds _))) by (apply seconds_pos; unfold time_sub; lia). apply orb_false_iff. split; [apply Z.ltb_ge|apply Z.eqb_neq]; lia.
Qed.

(** The bucket a user's state stands for. *)
Definition bucket (s : presenceRateState) : TokenBucket.TokenBucket := TokenBucket.mkBucket presenceSetRate presenceSetBurst (ps_tokens s) (ps_last s).
Lemma allow_bucket s now : let '(ok, s') := allow_rate (Some s) now in TokenBucket.TakeAt (bucket s) now = (ok, bucket s').
Proof.
  unfold allow_rate, TokenBucket.TakeAt, TokenBucket.refillLocked. cbn [TokenBucket.last TokenBucket.tokens TokenBucket.burst TokenBucket.rate bucket].
  rewrite elapsed_iff. destruct (0 <? _); cbn [negb TokenBucket.tokens TokenBucket.rate TokenBucket.burst TokenBucket.last ps_tokens ps_last].
  - set (t := Float64.add _ _). replace (Z.min presenceSetBurst t) with (if presenceSetBurst <? t then presenceSetBurst else t) by (destruct (Z.ltb_spec presenceSetBurst t); lia).
    by destruct (_ <? Float64.one).
  - by destruct (_ <? Float64.one).
Qed.
Lemma allow_fresh now : allow_rate None now = allow_rate (Some (mkRate presenceSetBurst now)) now.
Proof. done. Qed.

(** The answers to the presence commands of all users, in order. *)
Fixpoint allow_all (p : ConnectionStatePublisher) (calls : list (Z * Z)) : list (Z * bool) :=
  match calls with
  | [] => []
  | (u, now) :: rest => let '(ok, p) := allowPresence p u now in (u, ok) :: allow_all p rest
  end.
Definition of_user {A} (u : Z) (l : list (Z * A)) : list A := (filter (fun x => x.1 = u) l).*2.
Lemma of_user_cons {A} u v (x : A) l : of_user u ((v, x) :: l) = if decide (v = u) then x :: of_user u l else of_user u l.
Proof. unfold of_user. rewrite filter_cons. cbn. by case_decide. Qed.
Lemma allow_all_bucket u calls : forall p s, rates p !! u = Some s -> of_user u (allow_all p calls) = (TokenBucket.take_all (bucket s) (of_user u calls)).1.
Proof.
  induction calls as [|[v now] calls IH]; intros p s Hs; [done|]. cbn [allow_all]. unfold allowPresence. rewrite (of_user_cons u v now). case_decide as Hv.
  - subst v. rewrite Hs. pose proof (allow_bucket s now) as Hb. destruct (allow_rate (Some s) now) as [ok s']. cbn [TokenBucket.take_all]. rewrite Hb, of_user_cons, decide_True by done.
    rewrite (IH _ s'); [by destruct (TokenBucket.take_all _ _)|]. cbn. by rewrite lookup_insert_eq.
  - destruct (allow_rate _ _) as [ok s']. rewrite of_user_cons, decide_False by done. apply IH. cbn. by rewrite lookup_insert_ne.
Qed.
Lemma allow_all_new u calls p : rates p !! u = None ->
  of_user u (allow_all p calls) = (TokenBucket.take_all (TokenBucket.NewTokenBucket presenceSetRate 4 (default 0 (head (of_user u calls)))) (of_user u calls)).1.
Proof.
  revert p. induction calls as [|[v now] calls IH]; intros p Hp; [done|]. cbn [allow_all]. unfold allowPresence. rewrite (of_user_cons u v now). case_decide as Hv.
  - subst v. rewrite Hp, allow_fresh. cbn [head]. pose proof (allow_bucket (mkRate presenceSetBurst now) now) as Hb. destruct (allow_rate _ now) as [ok s'].
    change (TokenBucket.NewTokenBucket presenceSetRate 4 (default 0 (Some now))) with (bucket (mkRate presenceSetBurst now)).
    cbn [TokenBucket.take_all]. rewrite of_user_cons, decide_True, Hb by done. rewrite (allow_all_bucket u calls _ s'); [by destruct (TokenBucket.take_all (bucket s') _)|]. cbn. by rewrite lookup_insert_eq.
  - destruct (allow_rate _ _) as [ok s']. rewrite of_user_cons, decide_False by done. apply IH. cbn. by rewrite lookup_insert_ne.
Qed.

(** the budget of presence commands.  However the calls of different users
    interleave, each user's answers are those of one token bucket of the
    protocol, of two tokens a second and a burst of four, full at the user's
    first call. *)
Theorem presence_budget calls u :
  of_user u (allow_all NewConnectionStatePublisher calls) =
    (TokenBucket.take_all (TokenBucket.NewTokenBucket (Float64.of_int 2) 4 (default 0 (head (of_user u calls)))) (of_user u calls)).1.
Proof. apply allow_all_new. done. Qed.

(** ** What the commands rely on *)

(** A property of the coordinator that other goroutines and lookups keep. *)
Record Rely `{!VoiceEnv} (sound : ConnectionCoordinator -> Prop) : Prop := {
  ry_live : forall c, sound c -> live c;
  ry_others : forall n r, sound (rt_co r) -> sound (rt_co (others n r));
  ry_reads : forall A c userID (f : Connection.connectionUser -> A), sound c -> sound (with_user c userID (reading f)).2
}.
Lemma rely_live `{!VoiceEnv} : (forall n r, live (rt_co r) -> live (rt_co (others n r))) -> Rely live.
Proof. intros Ho. constructor; [done|done|]. intros A c u f. apply live_reading. Qed.

(** The number of a user's active connections. *)
Definition active_of (c : ConnectionCoordinator) (userID : Z) : Z :=
  msum (fun r => if decide (Connection.cr_state r = Connection.ConnectionActive) then 1 else 0) (ConnectionProps.conns_of c userID).
Lemma active_count_of c u : live c -> 0 < u -> (Connection.UserActiveCount c u).1 = active_of c u.
Proof.
  intros Hl Hu. unfold Connection.UserActiveCount. destruct (Z.leb_spec u 0); [lia|].
  destruct (ConnectionProps.with_user_spec c u (reading Connection.active_count) (live_index _ Hl)) as (c1 & l & x & Ex & _ & _ & Hat & _ & _ & _ & _ & _ & _ & ->). cbn. rewrite Hat, Ex. done.
Qed.
(** A lookup leaves every user's connections. *)
Lemma acquire_view c v u : ConnectionProps.index_ok c -> u <> v -> ConnectionProps.view (Connection.acquireUser c v).2 u = ConnectionProps.view c u.
Proof.
  intros Hix Hne. unfold Connection.acquireUser, ConnectionProps.view, Connection.user_at. destruct (Connection.co_users c !! v) as [l|] eqn:El; cbn.
  - destruct (Connection.co_users c !! u) as [l'|] eqn:El'; [|done]. rewrite lookup_insert_ne; [done|]. intros <-.
    destruct (ConnectionProps.ix_users _ Hix _ _ El) as (a & Ha & Ea), (ConnectionProps.ix_users _ Hix _ _ El') as (b & Hb & Eb). congruence.
  - rewrite lookup_insert_ne by done. destruct (Connection.co_users c !! u) as [l'|] eqn:El'; [|done]. rewrite lookup_insert_ne; [done|]. intros <-.
    destruct (ConnectionProps.ix_users _ Hix _ _ El') as (b & Hb & _). destruct (ConnectionProps.ix_heap _ Hix _ _ Hb) as (_ & Hlt). cbn in *. lia.
Qed.
Lemma reading_conns {A} c v (f : Connection.connectionUser -> A) u : live c -> ConnectionProps.conns_of (with_user c v (reading f)).2 u = ConnectionProps.conns_of c u.
Proof.
  intros Hl. pose proof (live_index _ Hl) as Hix. destruct (ConnectionProps.with_user_spec c v (reading f) Hix) as (c1 & l & x & Ex & Ha & Hx & Hat & Hok & Hid & Hp & Hul & Hix1 & _ & ->). cbn.
  destruct (decide (u = v)) as [->|Hne].
  - destruct (ConnectionProps.release_section c1 c1 l x x [] v Hix1 Hx Hul Hok eq_refl) as (R1 & _ & _); [rewrite ConnectionProps.emit_nil; unfold Connection.put, Connection.set_index; rewrite insert_id by done; by destruct c1|].
    rewrite R1, Ex. done.
  - unfold ConnectionProps.conns_of. rewrite ConnectionProps.same_index_release by done. f_equal. replace c1 with (Connection.acquireUser c v).2 by (by rewrite <- Ha). by apply acquire_view.
Qed.
(** The user has no active connection, or keeps some. *)
Lemma rely_active `{!VoiceEnv} u (P : Z -> Prop) : let sound c := live c /\ P (active_of c u) in
  (forall n r, sound (rt_co r) -> sound (rt_co (others n r))) -> Rely sound.
Proof.
  intros sound Ho. constructor; [by intros c []|done|]. intros A c v f [Hl HP]. split; [by apply live_reading|]. unfold active_of. by rewrite reading_conns.
Qed.

(** ** Outcomes *)

(** What a version has of the user's presence, the others as before. *)
Definition presence_set (u : Z) (p : option Presence) (v w : StateVersion) : Prop :=
  presences (State.runtime w) = match p with Some p => <[u := p]> (presences (State.runtime v)) | None => presences (State.runtime v) end /\
  voiceAuthorities (State.runtime w) = voiceAuthorities (State.runtime v).
Lemma SetPresence_set c u p c' v : SetPresence c u p = Some c' -> version c = version (BuildRuntimeCandidate v) -> persistent (version c') = persistent v /\ presence_set u (Some p) v (version c').
Proof. unfold SetPresence. destruct (_ || _); [done|]. intros [= <-] Hv. cbn. rewrite Hv. done. Qed.
Lemma first_online_set u v b c' : first_online u (BuildRuntimeCandidate v) = Some (b, c') -> persistent (version c') = persistent v /\ presence_set u (Some (mkPresence "online" None)) v (version c').
Proof. unfold first_online. destruct (SetPresence _ _ _) as [c|] eqn:E; [|done]. cbn. intros [= _ <-]. by apply (SetPresence_set _ _ _ _ _ E). Qed.
#[global] Instance PresenceActivity_eq_dec : EqDecision PresenceActivity.
Proof. solve_decision. Defined.
#[global] Instance Presence_eq_dec : EqDecision Presence.
Proof. solve_decision. Defined.
Lemma samePresence_spec a b : samePresence a b = bool_decide (a = b).
Proof.
  unfold samePresence. destruct a as [s [[t n p]|]], b as [s' [[t' n' p']|]]; cbn; repeat case_bool_decide; cbn; try done; simplify_eq; try congruence; done.
Qed.
Lemma change_presence_set u p v b c' : change_presence u p (BuildRuntimeCandidate v) = Some (b, c') ->
  persistent (version c') = persistent v /\ presence_set u (Some p) v (version c') /\ b = negb (bool_decide (getPresence v u = p)).
Proof.
  unfold change_presence. destruct (SetPresence _ _ _) as [c|] eqn:E; [|done]. cbn. intros [= <- <-]. rewrite samePresence_spec. destruct (SetPresence_set _ _ _ _ v E eq_refl). done.
Qed.

Section Outcomes.
Context {C : Type} `{!StateSink C} {cprims : Cursor.CursorPrims} {pprims : PublicationPrims}.
Context `{!StoreEnv, !SqlPrims, !CommandJson, !EventJson, !VoiceEnv}.
Context (jvalid : bytes -> bool) (jmarshal : stateEventEnvelope -> option bytes) (juser : SnapshotUserPresence -> option bytes).
Context (sound : ConnectionCoordinator -> Prop) (rely : Rely sound).
#[local] Abbreviation world := (World Runtime).
#[local] Abbreviation pub := (StatePublication C world).
#[local] Abbreviation mut := (Mut C Runtime bool LifecycleError).
#[local] Abbreviation rcommit := (option (RuntimeCommit (W := world))).
Definition never (_ : Answer) : Prop := False.

Section Body.
Context (changed : Answer -> rcommit -> StateVersion -> Prop) (p0 : pub) (id : Z) (Hunlocked : pb_locked p0 = false).
#[local] Abbreviation goal m := (ServiceProps.triple jvalid jmarshal (V := bool) (E := LifecycleError) (roaming sound p0 id) m (ended sound never changed p0 id)).
Lemma v_publish c events commit a : persistent (version c) = persistent (pb_current p0) -> (forall n, let f := (fun f => f n) <$> commit in commit_live sound f /\ commit_keeps f) ->
  (forall n w, presences (State.runtime w) = presences (State.runtime (version c)) -> voiceAuthorities (State.runtime w) = voiceAuthorities (State.runtime (version c)) ->
    changed a ((fun f => f n) <$> commit) w) -> goal (publish (pb_pointer p0) c events commit a).
Proof.
  intros Hp Hk Hc. unfold publish. apply v_reserve; [done|done|done|]. intros rv n Hpr Hf Hv Hps. apply h_ready; [done|]. rewrite Hf. by apply Hc.
Qed.
Lemma v_moment (g : nat -> mut Answer) : (forall n, goal (g n)) -> goal (mbind moment g).
Proof. intros Hg t p e k X HP HX. unfold mbind, moment. by apply (Hg _ _ p e k X). Qed.
(** The count of a user's active connections, at some moment. *)
Lemma v_count u (g : Z -> mut Answer) : 0 < u -> (forall c, sound c -> goal (g (active_of c u))) -> goal (mbind (on_connections (fun co => Connection.UserActiveCount co u)) g).
Proof.
  intros Hu Hg. assert (Hs : forall c, sound c -> sound (Connection.UserActiveCount c u).2) by (intros c Hc; unfold Connection.UserActiveCount; destruct (_ <=? _); [done|by apply rely]).
  apply v_runtime; [apply rely| |].
  - intros n r Hr. specialize (Hs _ Hr). by destruct (Connection.UserActiveCount _ _).
  - intros a (n & r & Hr & <-). replace (_ .1) with (active_of (rt_co r) u); [by apply Hg|]. rewrite <- active_count_of by (done || by apply rely). by destruct (Connection.UserActiveCount _ _).
Qed.
End Body.

(** The outcome of a command whose body promises [changed]. *)
Definition outcome_ok {G} (changed : Answer -> rcommit -> StateVersion -> Prop) (p : pub) (o : Outcome C world G (MutationResult bool)) : Prop :=
  match oc_fail o with
  | Some _ => exists er, oc_reply o = Err er
  | None => pb_locked (oc_pub o) = false /\ w_db (pb_world (oc_pub o)) = w_db (pb_world p) /\ sound (co_of (pb_world (oc_pub o))) /\
      match oc_reply o with
      | Err _ => pb_current (oc_pub o) = pb_current p
      | Ok c => persistent (pb_current (oc_pub o)) = persistent (pb_current p) /\ exists a f w r, cc_Value c = a.1 /\ cc_Publication c = Some r /\ changed a f (pb_current (oc_pub o)) /\
          sound (co_of w) /\ (run_commit f w).2.1 = None /\ pb_world (oc_pub o) = after_publish output a (cleaned f w)
      end
  end.
Lemma command_outcome {G} (idNext : G -> result Z unit * G) error_code changed (body : mut Answer) canceled t (p : pub) (g : G) :
  (forall p0 id, pb_locked p0 = false -> pb_current p0 = pb_current p -> ServiceProps.triple jvalid jmarshal (roaming sound p0 id) body (ended sound never changed p0 id)) ->
  (forall a f w, changed a f w -> tame sound output a) -> pb_locked p = false -> sound (co_of (pb_world p)) ->
  exists o, execute jvalid jmarshal juser idNext (command error_code canceled body t) p g = Some o /\ outcome_ok changed p o.
Proof.
  intros Hb Ht Hu Hs. destruct (runtime_settles jvalid jmarshal juser sound never changed output idNext error_code (fun _ => body) t None 1 0 canceled.1.1 canceled.1.2 canceled.2 p g)
    as (o & release & Ho & Hrel & Hset); [done|done|done|done|done|]. exists o. split; [exact Ho|]. unfold settled_runtime, outcome_ok in *. destruct (oc_fail o); [done|].
  destruct Hset as (Hs1 & Hs2 & Hs3 & Hr). split_and!; [done..|]. destruct (oc_reply o) as [c|] eqn:Ec; [|done]. destruct Hr as (a & Hv & Hr).
  destruct (cc_Publication c) as [r|] eqn:Er; [|by destruct Hr]. destruct Hr as (Hp & f & w & Hch & Hw & Hn & He). split; [done|]. exists a, f, w, r.
  destruct Hrel as [->|Hrel]; [|by destruct (Hrel c)]. done.
Qed.
Lemma answer_tame x : tame sound output (answer x).
Proof. by split. Qed.
Lemma presence_same u v w : presences (State.runtime w) = presences (State.runtime v) -> voiceAuthorities (State.runtime w) = voiceAuthorities (State.runtime v) -> presence_set u None v w.
Proof. by split. Qed.
Lemma presence_moved u p v c w : presence_set u p v (version c) -> presences (State.runtime w) = presences (State.runtime (version c)) ->
  voiceAuthorities (State.runtime w) = voiceAuthorities (State.runtime (version c)) -> presence_set u p v w.
Proof. unfold presence_set. by intros [-> ->] -> ->. Qed.

(** *** Offline *)

Definition offline : Presence := mkPresence "offline" None.
Definition online : Presence := mkPresence "online" None.
Definition offline_post (u : Z) (v : StateVersion) (a : Answer) (f : rcommit) (w : StateVersion) : Prop :=
  a = answer None /\ match getUser v u with
    | Some _ => exists c, sound c /\ presence_set u (if active_of c u =? 0 then Some offline else None) v w
    | None => presence_set u None v w
    end.
Lemma offline_run u (p0 : pub) id : 0 < u -> pb_locked p0 = false ->
  ServiceProps.triple jvalid jmarshal (roaming sound p0 id) (offline_body u) (ended sound never (offline_post u (pb_current p0)) p0 id).
Proof.
  intros Hu Hl. unfold offline_body. apply v_current. cbn [fst snd]. unfold getUser. change (persistent (version (BuildRuntimeCandidate (pb_current p0)))) with (persistent (pb_current p0)).
  assert (Hk : forall n, let f := (fun f => f n) <$> @None (nat -> RuntimeCommit (W := world)) in commit_live sound f /\ commit_keeps f) by (intros n; split; [apply commit_live_none|apply commit_keeps_none]).
  destruct (users (persistent (pb_current p0)) !! u) as [x|] eqn:Ex.
  - apply v_count; [done|]. intros c Hc. destruct (active_of c u =? 0) eqn:Ea.
    + apply v_projected. intros [b c'] E. apply change_presence_set in E as (Hp & Hset & _). apply v_encoded. intros events _. apply v_publish; [done..|].
      intros n w Hw1 Hw2. split; [done|]. unfold getUser. rewrite Ex. exists c. split; [done|]. rewrite Ea. by eapply presence_moved.
    + apply v_pure, v_encoded. intros events _. apply v_publish; [done..|]. intros n w Hw1 Hw2. split; [done|]. unfold getUser. rewrite Ex. exists c. split; [done|]. rewrite Ea. by apply presence_same.
  - apply v_publish; [done..|]. intros n w Hw1 Hw2. split; [done|]. unfold getUser. rewrite Ex. by apply presence_same.
Qed.

(** C31: taking a user offline.  Let [sound] be anything the coordinator keeps while
    others use it and lookups are made: that it is in use, or also that this user
    stays without an active connection.  The command never blocks; unless it
    stops the sequencer it leaves the publication unlocked, the database as it
    was and [sound]; an error leaves the published state.  A success publishes a
    version in which the user, if there is one and [sound] allows that it had no
    active connection when asked, is offline, and otherwise as before; nobody
    else's presence and no voice authority changed. *)
Theorem offline_outcome {G} (idNext : G -> result Z unit * G) error_code canceled t u (p : pub) (g : G) :
  0 < u -> pb_locked p = false -> sound (co_of (pb_world p)) ->
  exists o, execute jvalid jmarshal juser idNext (offlineCommand error_code canceled t u) p g = Some o /\
    match oc_fail o with
    | Some _ => exists er, oc_reply o = Err er
    | None => pb_locked (oc_pub o) = false /\ w_db (pb_world (oc_pub o)) = w_db (pb_world p) /\ sound (co_of (pb_world (oc_pub o))) /\
        match oc_reply o with
        | Err _ => pb_current (oc_pub o) = pb_current p
        | Ok c => is_Some (cc_Publication c) /\ persistent (pb_current (oc_pub o)) = persistent (pb_current p) /\
            match getUser (pb_current p) u with
            | Some _ => exists co, sound co /\ presence_set u (if active_of co u =? 0 then Some offline else None) (pb_current p) (pb_current (oc_pub o))
            | None => presence_set u None (pb_current p) (pb_current (oc_pub o))
            end
        end
    end.
Proof.
  intros Hu Hl Hs. destruct (command_outcome idNext error_code (offline_post u (pb_current p)) (offline_body u) canceled t p g) as (o & Ho & Hok); [|by intros a f w [-> _]|done|done|].
  { intros p0 id Hl0 <-. by apply offline_run. }
  exists o. split; [exact Ho|]. unfold outcome_ok in Hok. destruct (oc_fail o); [done|]. destruct Hok as (Ha & Hb & Hc & Hr). split_and!; [done..|].
  destruct (oc_reply o); [|done]. destruct Hr as (Hp & a' & f & w & r & Hv & Hpub & (_ & Hpost) & _). rewrite Hpub. split_and!; [by eexists|done|done].
Qed.

(** *** Presence *)

Lemma LeaseMatches_sound c ref lease now : sound c -> sound (Connection.LeaseMatches c ref lease now).2.
Proof. intros Hc. unfold Connection.LeaseMatches. destruct (_ || _); [done|]. by apply rely. Qed.
Lemma presence_commit_ok n ref lease : commit_live sound (Some (presence_commit n ref lease)) /\ commit_keeps (Some (presence_commit n ref lease)).
Proof.
  split; intros w; cbn; unfold presence_commit.
  - intros Hw. assert (Hr : sound (rt_co (others n (w_voice w)))) by (by apply rely). pose proof (LeaseMatches_sound (rt_co (others n (w_voice w))) ref lease (clock (S n)) Hr) as Hc.
    by destruct (Connection.LeaseMatches _ _ _ _) as [[] c].
  - by destruct (Connection.LeaseMatches _ _ _ _) as [[] c].
Qed.
Definition presence_post (ref : ControlConnectionRef) (lease : AuthLease) (next : Presence) (v : StateVersion) (a : Answer) (f : rcommit) (w : StateVersion) : Prop :=
  a = answer (Some (negb (bool_decide (getPresence v (r_UserID ref) = next)))) /\ (exists n, f = Some (presence_commit n ref lease)) /\ presence_set (r_UserID ref) (Some next) v w.
Lemma presence_run ref lease status activity (p0 : pub) id : pb_locked p0 = false ->
  ServiceProps.triple jvalid jmarshal (roaming sound p0 id) (presence_body ref lease status activity) (ended sound never (presence_post ref lease (mkPresence status activity) (pb_current p0)) p0 id).
Proof.
  intros Hl. unfold presence_body. apply v_now. intros now. apply v_connections; [apply rely|intros c Hc; by apply LeaseMatches_sound|]. intros [|]; cbn [negb]; [|apply v_throw].
  apply v_current. cbn [fst snd]. apply v_projected. intros [b c'] E. apply change_presence_set in E as (Hp & Hset & ->). apply v_encoded. intros events _. apply v_publish; [done..| |].
  - intros n. apply presence_commit_ok.
  - intros n w Hw1 Hw2. split_and!; [done|by exists n|]. by eapply presence_moved.
Qed.

(** setting a presence, in the same setting.  A success publishes a version in
    which the user's presence is the one asked for and nobody else's changed,
    and it reports whether the presence differed before; and at the publication
    itself the connection was active, under the lease the caller started with,
    and the lease had not expired. *)
Theorem presence_outcome {G} (idNext : G -> result Z unit * G) error_code canceled t ref lease status activity (p : pub) (g : G) :
  pb_locked p = false -> sound (co_of (pb_world p)) ->
  exists o, execute jvalid jmarshal juser idNext (command error_code canceled (presence_body ref lease status activity) t) p g = Some o /\
    match oc_fail o with
    | Some _ => exists er, oc_reply o = Err er
    | None => pb_locked (oc_pub o) = false /\ w_db (pb_world (oc_pub o)) = w_db (pb_world p) /\ sound (co_of (pb_world (oc_pub o))) /\
        match oc_reply o with
        | Err _ => pb_current (oc_pub o) = pb_current p
        | Ok c => is_Some (cc_Publication c) /\ persistent (pb_current (oc_pub o)) = persistent (pb_current p) /\
            mr_value (cc_Value c) = Some (negb (bool_decide (getPresence (pb_current p) (r_UserID ref) = mkPresence status activity))) /\
            presence_set (r_UserID ref) (Some (mkPresence status activity)) (pb_current p) (pb_current (oc_pub o)) /\
            exists co n, sound co /\ (Connection.LeaseMatches co ref lease (clock n)).1 = true
        end
    end.
Proof.
  intros Hl Hs. destruct (command_outcome idNext error_code (presence_post ref lease (mkPresence status activity) (pb_current p)) (presence_body ref lease status activity) canceled t p g) as (o & Ho & Hok);
    [|by intros a f w [-> _]|done|done|].
  { intros p0 id Hl0 <-. by apply presence_run. }
  exists o. split; [exact Ho|]. unfold outcome_ok in Hok. destruct (oc_fail o); [done|]. destruct Hok as (Ha & Hb & Hc & Hr). split_and!; [done..|].
  destruct (oc_reply o); [|done]. destruct Hr as (Hp & a' & f & w & r & Hv & Hpub & (-> & (n & ->) & Hpost) & Hw & Hn & _). rewrite Hpub, Hv. split_and!; [by eexists|done|done|done|].
  exists (rt_co (others n (w_voice w))), (S n). split; [by apply rely|]. revert Hn. cbn. unfold presence_commit. by destruct (Connection.LeaseMatches _ _ _ _) as [[] ?].
Qed.
End Outcomes.

(** *** Activation and voice *)

Lemma activate_active c ref t e a c' : live c -> Connection.Activate c ref (Some t) e = (a, c') -> live c' /\
  match a with Ok x => x = (ref, mkLease 1 e) /\ exists r, ConnectionProps.conns_of c' (r_UserID ref) !! r_ID ref = Some r /\ Connection.cr_ref r = ref /\
                       Connection.cr_state r = Connection.ConnectionActive /\ Connection.cr_lease r = mkLease 1 e
  | Err _ => True end.
Proof.
  intros Hl. unfold Connection.Activate, Connection.activate. destruct (e <=? 0) eqn:Ee; [by intros [= <- <-]|]. destruct (_ || _); [by intros [= <- <-]|].
  set (f := Connection.activate_locked ref t e). intros Ha. pose proof (live_section c (r_UserID ref) f (fun c u => ex_intro _ None (ConnectionProps.us_activate c u ref t e)) Hl) as Hs.
  destruct (ConnectionProps.with_user_spec c (r_UserID ref) (locked f) (live_index _ Hl)) as (c1 & l & u & Eu & _ & Hu & Hat & Hok & Hid & Hp & Hul & Hix & _ & Ew).
  rewrite Ew in Ha, Hs. unfold locked in *. rewrite Hat in Ha, Hs. pose proof (ConnectionProps.user_sect_ok c1 u _ _ (ConnectionProps.us_activate c1 u ref t e) Hok) as (Hok' & Hfr & _).
  fold f in Hok', Hfr. destruct (f u) as [r u'] eqn:Ef. cbn [fst snd] in *. injection Ha as <- <-. split; [exact Hs|]. destruct r as [x|]; [|done].
  destruct (ConnectionProps.release_section c1 _ l u u' [] (r_UserID ref) Hix Hu Hul Hok' (ConnectionProps.sf_id _ _ Hfr) eq_refl) as (R1 & _). rewrite ConnectionProps.emit_nil in R1. rewrite R1.
  subst f. unfold Connection.activate_locked in Ef. destruct (Connection.u_connections u !! r_ID ref) as [rc|] eqn:Er; [|done]. destruct (decide _) as [[Hr1 Hr2]|]; [|done].
  injection Ef as <- <-. split; [done|]. cbn. rewrite lookup_insert_eq. eexists. split; [reflexivity|]. done.
Qed.
Lemma clear_clears c x reason : live c -> live (Connection.clearPendingVoiceAuthorityTombstone c (Some x)) /\
  (Connection.PendingVoiceAuthorityTombstone (Connection.clearPendingVoiceAuthorityTombstone c (Some x)) (va_UserID x)).1 <> Some (x, reason).
Proof.
  intros Hl. unfold Connection.clearPendingVoiceAuthorityTombstone. set (f := Connection.clear_tombstone_locked x).
  pose proof (live_section c (va_UserID x) f (fun c u => ex_intro _ None (ConnectionProps.us_clear c u x)) Hl) as Hs. split; [exact Hs|].
  unfold Connection.PendingVoiceAuthorityTombstone. destruct (_ <=? 0); [done|]. set (g := fun u => _ <$> Connection.u_tombstone u).
  destruct (ConnectionProps.with_user_spec _ (va_UserID x) (reading g) (live_index _ Hs)) as (c2 & l2 & u2 & Eu2 & _ & _ & Hat2 & _ & _ & _ & _ & _ & _ & ->). cbn. rewrite Hat2, Eu2. clear Hat2 Eu2 u2 l2 c2.
  destruct (ConnectionProps.with_user_spec c (va_UserID x) (locked f) (live_index _ Hl)) as (c1 & l & u & Eu & _ & Hu & Hat & _ & _ & _ & Hul & _ & _ & ->). unfold locked. rewrite Hat. cbn [fst snd].
  assert (Hf : forall reason, Connection.u_tombstone (f u).2 <> Some (Connection.mkTombstone x reason)).
  { subst f. unfold Connection.clear_tombstone_locked. intros rs. destruct (Connection.u_tombstone u) as [tb|] eqn:Et; [|cbn; by rewrite Et]. destruct (decide _) as [|Hne]; cbn; [done|]. rewrite Et. intros [= ->]. by apply Hne. }
  destruct (f u) as [[] u'] eqn:Ef. cbn [snd] in *. unfold ConnectionProps.view, Connection.releaseUser, Connection.user_at. cbn. rewrite lookup_insert_eq. cbn.
  destruct (_ && _); cbn; [by rewrite lookup_delete_eq|]. rewrite Hul. cbn. rewrite lookup_insert_eq. cbn. destruct (Connection.u_tombstone u') as [[ta tr]|] eqn:Et; cbn; [|done].
  intros [= -> ->]. by apply (Hf reason).
Qed.

Section Live.
Context {C : Type} `{!StateSink C} {cprims : Cursor.CursorPrims} {pprims : PublicationPrims}.
Context `{!StoreEnv, !SqlPrims, !CommandJson, !EventJson, !VoiceEnv}.
Context (jvalid : bytes -> bool) (jmarshal : stateEventEnvelope -> option bytes) (juser : SnapshotUserPresence -> option bytes).
Context (Hothers : forall n r, live (rt_co r) -> live (rt_co (others n r))).
#[local] Abbreviation world := (World Runtime).
#[local] Abbreviation pub := (StatePublication C world).
#[local] Abbreviation rcommit := (option (RuntimeCommit (W := world))).

Lemma activate_commit_ok n ref t e : commit_live live (Some (activate_commit n ref t e)) /\ commit_keeps (Some (activate_commit n ref t e)).
Proof.
  split; intros w; cbn; unfold activate_commit, activate_at.
  - intros Hw. destruct (Connection.Activate _ _ _ _) as [a c] eqn:Ea. apply activate_active in Ea as [Hl _]; [|by apply Hothers]. by destruct a.
  - by destruct (Connection.Activate _ _ _ _) as [[] c].
Qed.
Definition activate_post (ref : ControlConnectionRef) (t : Transport) (e : Z) (v : StateVersion) (a : Answer) (f : rcommit) (w : StateVersion) : Prop :=
  a = answer None /\ (exists n, f = Some (activate_commit n ref t e)) /\ exists c, live c /\ presence_set (r_UserID ref) (if active_of c (r_UserID ref) =? 0 then Some online else None) v w.
Lemma activate_run ref t e (p0 : pub) id : 0 < r_UserID ref -> pb_locked p0 = false ->
  ServiceProps.triple jvalid jmarshal (roaming live p0 id) (activate_body ref t e) (ended live never (activate_post ref t e (pb_current p0)) p0 id).
Proof.
  intros Hu Hl. unfold activate_body. apply v_current. cbn [fst snd]. apply (v_count _ _ _ (rely_live Hothers)); [done|]. intros c Hc.
  assert (Hk : forall n, let f := (fun f => f n) <$> Some (fun n => activate_commit n ref t e) in commit_live live f /\ commit_keeps f) by (intros n; apply activate_commit_ok).
  destruct (active_of c (r_UserID ref) =? 0) eqn:Ea.
  - apply v_projected. intros [b c'] E. apply first_online_set in E as [Hp Hset]. apply v_encoded. intros events _. apply v_publish; [done..|].
    intros n w Hw1 Hw2. split_and!; [done|by exists n|]. exists c. split; [done|]. rewrite Ea. by eapply presence_moved.
  - apply v_pure, v_encoded. intros events _. apply v_publish; [done..|]. intros n w Hw1 Hw2. split_and!; [done|by exists n|]. exists c. split; [done|]. rewrite Ea. by apply presence_same.
Qed.

(** activating a connection, whatever other goroutines do through the
    coordinator's operations.  A success leaves the reserved connection active,
    under its first lease, and publishes a version in which the user is online
    if it had no active connection when asked; nobody else's presence changed. *)
Theorem activation_outcome {G} (idNext : G -> result Z unit * G) error_code canceled t ref transport e (p : pub) (g : G) :
  0 < r_UserID ref -> pb_locked p = false -> live (co_of (pb_world p)) ->
  exists o, execute jvalid jmarshal juser idNext (command error_code canceled (activate_body ref transport e) t) p g = Some o /\
    match oc_fail o with
    | Some _ => exists er, oc_reply o = Err er
    | None => pb_locked (oc_pub o) = false /\ w_db (pb_world (oc_pub o)) = w_db (pb_world p) /\ live (co_of (pb_world (oc_pub o))) /\
        match oc_reply o with
        | Err _ => pb_current (oc_pub o) = pb_current p
        | Ok c => is_Some (cc_Publication c) /\ persistent (pb_current (oc_pub o)) = persistent (pb_current p) /\
            (exists r, ConnectionProps.conns_of (co_of (pb_world (oc_pub o))) (r_UserID ref) !! r_ID ref = Some r /\ Connection.cr_ref r = ref /\
               Connection.cr_state r = Connection.ConnectionActive /\ Connection.cr_lease r = mkLease 1 e) /\
            exists co, live co /\ presence_set (r_UserID ref) (if active_of co (r_UserID ref) =? 0 then Some online else None) (pb_current p) (pb_current (oc_pub o))
        end
    end.
Proof.
  intros Hu Hl Hs. destruct (command_outcome jvalid jmarshal juser live idNext error_code (activate_post ref transport e (pb_current p)) (activate_body ref transport e) canceled t p g)
    as (o & Ho & Hok); [|by intros a f w [-> _]|done|done|].
  { intros p0 id Hl0 <-. by apply activate_run. }
  exists o. split; [exact Ho|]. unfold outcome_ok in Hok. destruct (oc_fail o); [done|]. destruct Hok as (Ha & Hb & Hc & Hr). split_and!; [done..|].
  destruct (oc_reply o); [|done]. destruct Hr as (Hp & a' & f & w & r & Hv & Hpub & (-> & (n & ->) & Hpost) & Hw & Hn & He). rewrite Hpub, He. split_and!; [by eexists|done| |done].
  revert Hn. cbn. unfold cleaned. cbn. unfold activate_commit, activate_at. destruct (Connection.Activate _ _ _ _) as [[x|] c'] eqn:Ea; [|done]. intros _. cbn.
  apply activate_active in Ea as [_ [_ Hr]]; [exact Hr|]. by apply Hothers.
Qed.

(** *** Voice *)

(** What an application's hook may do: it keeps the candidate's rows and
    authorities, and its callback neither the database nor the coordinator. *)
#[local] Abbreviation hook := (StateCandidate -> option VoiceAuthority -> option VoiceAuthority -> string ->
  result (list StateEventTemplate * (world -> world) * StateCandidate) (ServiceError VoiceError)).
Definition hook_ok (voiceProjection : option hook) : Prop := forall f c previous current reason events after c', voiceProjection = Some f ->
  f c previous current reason = Ok (events, after, c') -> same_authorities c c' /\ forall w, w_db (after w) = w_db w /\ co_of (after w) = co_of w.
(** The hook of [channel/voice.go] does. *)
Lemma channel_hook_ok now : hook_ok (Some (fun c previous current _ => VoiceAuthorityProjection now c previous current)).
Proof.
  intros f c previous current reason events after c' [= <-]. unfold VoiceAuthorityProjection. destruct previous as [a|], current; try (intros [= <- <- <-]; done).
  destruct (getChannel _ _) as [channel|]; [|by intros [= <- <- <-]]. destruct (voiceMemberEvent _ _ _); [|done].
  pose proof (clear_expiry_same c (va_ChannelID a)) as Hc. destruct (clear_expiry c (va_ChannelID a)) as [c1 canceled]. cbn in Hc. destruct (_ && _); [|by intros [= <- <- <-]].
  destruct (ScheduleTemporaryExpiry _ _ _) as [[sc c2]|] eqn:Es; [|done]. intros [= <- <- <-]. split; [|done]. etrans; [exact Hc|by eapply schedule_same].
Qed.

Lemma TransitionVoiceAuthority_spec v previous current b c : TransitionVoiceAuthority (BuildRuntimeCandidate v) previous current = Some (b, c) ->
  let u := currentUserID previous current in persistent (version c) = persistent v /\ b = bool_decide (getVoiceAuthority v u = previous) /\
    getVoiceAuthority (version c) u = (if b then current else getVoiceAuthority v u) /\ forall u', u' <> u -> getVoiceAuthority (version c) u' = getVoiceAuthority v u'.
Proof.
  intros Ht. unfold TransitionVoiceAuthority in Ht. change (match current with Some a => va_UserID a | None => match previous with Some a => va_UserID a | None => 0 end end) with (currentUserID previous current) in Ht.
  set (u := currentUserID previous current) in *. cbv zeta. destruct (_ || _); [done|]. unfold getVoiceAuthority.
  change (voiceAuthorities (State.runtime (version (BuildRuntimeCandidate v)))) with (voiceAuthorities (State.runtime v)) in Ht. destruct (bool_decide _) eqn:Eb; cbn [negb] in Ht; [|by injection Ht as <- <-].
  destruct (SetVoiceAuthority _ _ _) as [c1|] eqn:Es; [|done]. injection Ht as <- <-. pose proof (SetVoiceAuthority_voice _ _ _ _ Es) as [Hv _]. pose proof (SetVoiceAuthority_rows _ _ _ _ Es) as [Hp _].
  split_and!; [exact Hp|done|exact Hv|]. intros u' Hne. unfold SetVoiceAuthority in Es. destruct (_ || _); [done|]. destruct current; injection Es as <-; cbn; rewrite ?lookup_insert_ne, lookup_delete_ne by done; done.
Qed.

Context (voiceProjection : option hook) (Hhook : hook_ok voiceProjection).
Definition voice_post (tr : voiceAuthorityTransition) (v : StateVersion) (a : Answer) (f : rcommit) (w : StateVersion) : Prop :=
  let u := currentUserID (tr_previous tr) (tr_current tr) in let b := bool_decide (getVoiceAuthority v u = tr_previous tr) in
  f = None /\ mr_value a.1 = Some b /\ getVoiceAuthority w u = (if b then tr_current tr else getVoiceAuthority v u) /\ (forall u', u' <> u -> getVoiceAuthority w u' = getVoiceAuthority v u') /\
  exists n after, a.2 = Some (fun w => clear_tombstone n (tr_previous tr) (after w)) /\ forall w, w_db (after w) = w_db w /\ co_of (after w) = co_of w.
Lemma voice_run tr (p0 : pub) id : pb_locked p0 = false ->
  ServiceProps.triple jvalid jmarshal (roaming live p0 id) (voice_body voiceProjection tr) (ended live never (voice_post tr (pb_current p0)) p0 id).
Proof.
  intros Hl. unfold voice_body. apply v_moment. intros n. apply v_current. cbn [fst snd]. apply v_projected. intros [b c] E. apply TransitionVoiceAuthority_spec in E as (Hp & -> & Hv & Hne).
  assert (Hk : forall n, let f := (fun f => f n) <$> @None (nat -> RuntimeCommit (W := world)) in commit_live live f /\ commit_keeps f) by (intros m; split; [apply commit_live_none|apply commit_keeps_none]).
  cbn [fst snd]. destruct (bool_decide _) eqn:Eb; cbn [negb].
  - unfold project. assert (Hgo : forall events after c', same_authorities c c' -> (forall w, w_db (after w) = w_db w /\ co_of (after w) = co_of w) ->
      ServiceProps.triple jvalid jmarshal (roaming live p0 id) (mbind (encoded (voiceAuthorityEventTemplates (tr_previous tr) (tr_current tr) (tr_reason tr))) (fun authorityEvents =>
        publish (pb_pointer p0) c' (authorityEvents ++ events) None (mkMutation (Some true) stateless, Some (fun w => clear_tombstone n (tr_previous tr) (after w)))))
        (ended live never (voice_post tr (pb_current p0)) p0 id)).
    { intros events after c' [[Hr _] Ha] Haft. apply v_encoded. intros authorityEvents _. apply v_publish; [done|congruence|done|]. intros m w _ Hw. unfold voice_post. rewrite Eb. split_and!; [done|done| | |by exists n, after].
      - unfold getVoiceAuthority in *. rewrite Hw, Ha. exact Hv.
      - intros u' Hu'. unfold getVoiceAuthority in *. rewrite Hw, Ha. by apply Hne. }
    destruct voiceProjection as [f|] eqn:Ep; [|apply v_pure, Hgo; [reflexivity|done]]. destruct (f _ _ _ _) as [[[events after] c']|er] eqn:Ef; [|apply v_refuse]. apply v_pure.
    destruct (Hhook f _ _ _ _ _ _ _ eq_refl Ef) as [Hs Ha]. by apply Hgo.
  - apply v_publish; [done..|]. intros m w _ Hw. unfold voice_post. rewrite Eb. split_and!; [done|done| | |by exists n, (fun w => w)].
    + unfold getVoiceAuthority in *. by rewrite Hw.
    + intros u' Hu'. unfold getVoiceAuthority in *. rewrite Hw. by apply Hne.
Qed.
Lemma voice_tame tr v a f w : voice_post tr v a f w -> tame live output a.
Proof.
  intros (_ & _ & _ & _ & n & after & Ha & Haft). split; [done|]. unfold output. cbn. rewrite Ha. cbn. intros g [= <-] w'. destruct (Haft w') as [Hd Hc]. split_and!; [done|by cbn; rewrite Hd|].
  intros Hl. unfold clear_tombstone, co_of. cbn. destruct (tr_previous tr) as [x|]; [apply (clear_clears _ x "")|]; apply Hothers; unfold co_of in Hc; by rewrite Hc.
Qed.

(** C40: the end of a voice authority reaches the published state.  A teardown that
    the coordinator made is published as a compare-and-swap: if the user's
    published authority is the one that ended, it becomes the new one, if any;
    an authority that replaced it meanwhile stays, and the answer tells which;
    nobody else's changed.  The mark that kept the teardown visible to joins is
    gone once the version is published. *)
Theorem voice_outcome {G} (idNext : G -> result Z unit * G) error_code canceled t tr (p : pub) (g : G) :
  pb_locked p = false -> live (co_of (pb_world p)) ->
  exists o, execute jvalid jmarshal juser idNext (voiceCommand voiceProjection error_code canceled t tr) p g = Some o /\
    match oc_fail o with
    | Some _ => exists er, oc_reply o = Err er
    | None => pb_locked (oc_pub o) = false /\ w_db (pb_world (oc_pub o)) = w_db (pb_world p) /\ live (co_of (pb_world (oc_pub o))) /\
        match oc_reply o with
        | Err _ => pb_current (oc_pub o) = pb_current p
        | Ok c => let u := currentUserID (tr_previous tr) (tr_current tr) in let b := bool_decide (getVoiceAuthority (pb_current p) u = tr_previous tr) in
            persistent (pb_current (oc_pub o)) = persistent (pb_current p) /\ mr_value (cc_Value c) = Some b /\
            getVoiceAuthority (pb_current (oc_pub o)) u = (if b then tr_current tr else getVoiceAuthority (pb_current p) u) /\
            (forall u', u' <> u -> getVoiceAuthority (pb_current (oc_pub o)) u' = getVoiceAuthority (pb_current p) u') /\
            forall x reason, tr_previous tr = Some x -> (Connection.PendingVoiceAuthorityTombstone (co_of (pb_world (oc_pub o))) (va_UserID x)).1 <> Some (x, reason)
        end
    end.
Proof.
  intros Hl Hs. destruct (command_outcome jvalid jmarshal juser live idNext error_code (voice_post tr (pb_current p)) (voice_body voiceProjection tr) canceled t p g)
    as (o & Ho & Hok); [|apply voice_tame|done|done|].
  { intros p0 id Hl0 <-. by apply voice_run. }
  exists o. split; [exact Ho|]. unfold outcome_ok in Hok. destruct (oc_fail o); [done|]. destruct Hok as (Ha & Hb & Hc & Hr). split_and!; [done..|].
  destruct (oc_reply o); [|done]. destruct Hr as (Hp & a' & f & w & r & -> & Hpub & Hpost & Hw & Hn & He). destruct Hpost as (-> & Hv1 & Hv2 & Hv3 & n & after & Hal & Haft). cbv zeta.
  split_and!; [done..|]. intros x reason Hx. rewrite He. unfold after_publish, output. cbn. rewrite Hal, Hx. unfold clear_tombstone, co_of in *. cbn [set_runtime w_voice rt_co fst snd fmap option_fmap option_map].
  apply clear_clears, Hothers. destruct (Haft (cleaned None w)) as [_ Hco]. cbn in *. by rewrite Hco.
Qed.
End Live.

(** ** The publisher's bookkeeping *)

Section Bookkeeping.
Context {C : Type} `{!StateSink C} {cprims : Cursor.CursorPrims} {pprims : PublicationPrims} `{!StoreEnv, !SqlPrims, !EventJson, !VoiceEnv}.
Context (jvalid : bytes -> bool) (jmarshal : stateEventEnvelope -> option bytes) (juser : SnapshotUserPresence -> option bytes) {G : Type} (idNext : G -> result Z unit * G).
Context (voiceProjection : option (StateCandidate -> option VoiceAuthority -> option VoiceAuthority -> string ->
  result (list StateEventTemplate * (World Runtime -> World Runtime) * StateCandidate) (ServiceError VoiceError))).
Context (error_code : ServiceError LifecycleError -> Z) (start : nat -> Tx.Tx) (canceled : nat -> bool * bool * bool).
#[local] Abbreviation sys := (Sys C G).
#[local] Abbreviation move := (move jvalid jmarshal juser idNext voiceProjection error_code start canceled (C := C)).

(** The users whose offline is on its way: queued, in the worker's batch, or
    marked by an observer that has not sent it yet. *)
Definition held (s : sys) : list Z := offlineQueue (sy_pub s) ++ batch_of (sy_offline s) ++ omap marked (sy_closers s).
Definition batch_ok {T} (w : BatchWorker T) : Prop :=
  match w with Waiting | Finished => True | Collecting b | Gating b | Holding b | Submitted b _ | Settling b _ => 1 <= len b <= MaxControlPlansPerItem end.
(** Threads between acquiring the gate and releasing it. *)
Definition worker_in {T} (w : BatchWorker T) : nat := match w with Holding _ | Submitted _ _ => 1 | _ => 0 end.
Definition caller_in (c : Caller) : nat := match c with CallerHolding _ | Awaiting _ _ => 1 | _ => 0 end.
Definition inside (s : sys) : nat := worker_in (sy_offline s) + worker_in (sy_voice s) + sum_list_with caller_in (sy_callers s).
Definition gate_ok (n : nat) (g : option MutationGate.Gate) : Prop :=
  match g with Some g => (n <= 1)%nat /\ MutationGate.holders g = n /\ MutationGate.permit g = bool_decide (n = 0%nat) | None => True end.
Record accounted (s : sys) : Prop := {
  ac_nodup : NoDup (held s); ac_pending : offlinePending (sy_pub s) = list_to_set (held s);
  ac_offline : len (offlineQueue (sy_pub s)) <= MaxControlTeardownQueueItems; ac_voice : len (voiceQueue (sy_pub s)) <= MaxControlTeardownQueueItems;
  ac_batch : batch_ok (sy_offline s); ac_vbatch : batch_ok (sy_voice s); ac_gate : gate_ok (inside s) (sy_gate s)
}.

(** What the bookkeeping looks at. *)
Definition books (s : sys) := (offlinePending (sy_pub s), offlineQueue (sy_pub s), voiceQueue (sy_pub s), sy_gate s, sy_offline s, sy_voice s, omap marked (sy_closers s), sy_callers s).
Lemma accounted_books s s' : books s' = books s -> accounted s -> accounted s'.
Proof.
  intros [= E1 E2 E3 E4 E5 E6 E7 E8] []. assert (Eh : held s' = held s) by (unfold held; congruence). assert (Ei : inside s' = inside s) by (unfold inside; congruence).
  constructor; rewrite ?Eh, ?E1, ?E2, ?E3, ?E4, ?E5, ?E6, ?Ei; done.
Qed.
Lemma try_send_ok {T} (q q' : list T) x : try_send q x = Some q' -> q' = q ++ [x] /\ len q' <= MaxControlTeardownQueueItems.
Proof. unfold try_send. destruct (Z.ltb_spec (len q) MaxControlTeardownQueueItems); [|done]. intros [= <-]. split; [done|]. unfold len in *. rewrite length_app. cbn. lia. Qed.
Lemma observe_accounted s e : accounted s -> accounted (observe s e).
Proof.
  intros Ha. destruct e; try done; cbn [observe]; [unfold voiceAuthorityChanged; destruct (try_send _ _) as [q|] eqn:Eq|].
  - destruct Ha. apply try_send_ok in Eq as [_ Hq]. by constructor.
  - by apply (accounted_books s).
  - apply (accounted_books s); [|done]. unfold books. cbn. rewrite omap_app. cbn. by rewrite app_nil_r.
Qed.
Lemma notice_accounted before s : accounted s -> accounted (notice before s).
Proof. unfold notice. generalize (drop (length before) (Connection.co_log (connections s))). intros es. revert s. induction es as [|e es IH]; [done|]. intros s Hs. cbn. by apply IH, observe_accounted. Qed.
Lemma closers_at (l : list Closer) i c : l !! i = Some c -> omap marked l ≡ₚ option_list (marked c) ++ omap marked (delete i l) /\
  forall c', omap marked (<[i := c']> l) ≡ₚ option_list (marked c') ++ omap marked (delete i l).
Proof.
  intros Hi. assert (Hd : delete i l = take i l ++ drop (S i) l) by apply delete_take_drop. assert (Hm : l = take i l ++ c :: drop (S i) l) by (symmetry; by apply take_drop_middle).
  assert (Hx : forall c', omap marked (take i l ++ c' :: drop (S i) l) ≡ₚ option_list (marked c') ++ omap marked (delete i l)).
  { intros c'. rewrite Hd, !omap_app. cbn. destruct (marked c'); cbn; [|done]. by rewrite Permutation_middle. }
  split; [rewrite Hm at 1; apply Hx|]. intros c'. rewrite insert_take_drop by (by eapply lookup_lt_Some). apply Hx.
Qed.
(** A change of the users on their way that the pending set follows. *)
Lemma accounted_held s s' X : accounted s -> held s' ≡ₚ X -> NoDup X -> offlinePending (sy_pub s') = list_to_set X -> len (offlineQueue (sy_pub s')) <= MaxControlTeardownQueueItems ->
  voiceQueue (sy_pub s') = voiceQueue (sy_pub s) -> batch_ok (sy_offline s') -> sy_voice s' = sy_voice s -> gate_ok (inside s') (sy_gate s') -> accounted s'.
Proof.
  intros [] Hh Hn Hp Hq E1 Hb E2 Hg. constructor; rewrite ?E1, ?E2; try done; [by rewrite Hh|]. rewrite Hp. apply leibniz_equiv. by rewrite Hh.
Qed.
Lemma closer_accounted s i s' : accounted s -> connectionClosed s i = Some s' -> accounted s'.
Proof.
  intros Ha. unfold connectionClosed. destruct (sy_closers s !! i) as [closer|] eqn:Ei; [|done]. cbn [option_bind]. intros [= <-].
  destruct (closers_at _ _ _ Ei) as [Hc Hnew]. destruct closer as [ref|u|u|u]; cbn [marked option_list app] in Hc.
  - destruct (Connection.UserActiveCount _ _) as [count c]. apply (accounted_held s _ (held s)); try apply Ha; destruct (negb _); try done; try apply Ha; unfold held; cbn; [by rewrite Hc|].
    rewrite (Hnew (Marking (r_UserID ref))), Hc. done.
  - case_bool_decide as Hu.
    + apply (accounted_held s _ (held s)); try apply Ha; try done. unfold held. cbn. by rewrite Hc.
    + rewrite (ac_pending _ Ha), elem_of_list_to_set in Hu. apply (accounted_held s _ (u :: held s)); try apply Ha; try done.
      * unfold held. cbn. rewrite (Hnew (Sending u)), Hc. cbn. by rewrite !Permutation_middle.
      * constructor; [done|apply Ha].
      * cbn. by rewrite (ac_pending _ Ha).
  - destruct (try_send _ _) as [q|] eqn:Eq.
    + apply try_send_ok in Eq as [-> Hq]. apply (accounted_held s _ (held s)); try apply Ha; try done. unfold held. cbn. rewrite Hc. cbn. rewrite <- (assoc app). cbn. by rewrite !Permutation_middle.
    + apply (accounted_held s _ (held s)); try apply Ha; try done. unfold held. cbn. rewrite (Hnew (Unmarking u)), Hc. done.
  - apply (accounted_books (with_closers (with_pub s (set_pending (sy_pub s) (offlinePending (sy_pub s) ∖ {[u]}))) (delete i (sy_closers s)))); [done|].
    assert (Hh : held s ≡ₚ u :: offlineQueue (sy_pub s) ++ batch_of (sy_offline s) ++ omap marked (delete i (sy_closers s))) by (unfold held; rewrite Hc; cbn; by rewrite !Permutation_middle).
    pose proof (ac_nodup _ Ha) as Hn. rewrite Hh in Hn. apply NoDup_cons in Hn as [Hnu Hn]. eapply accounted_held; [exact Ha|reflexivity|exact Hn| |apply Ha|done|apply Ha|done|apply Ha].
    cbn. rewrite (ac_pending _ Ha). apply leibniz_equiv. rewrite Hh. cbn [list_to_set]. set_unfold. intros y. split; [naive_solver|]. intros Hy. split; [by right|]. intros ->. apply Hnu. set_solver.
Qed.

(** The gate of a thread that comes in, and of one that leaves. *)
Lemma gate_in n g canceled' prefer g' : gate_ok n g -> acquireRuntimeMutation g canceled' prefer = Some (Ok g') -> gate_ok (S n) g'.
Proof.
  intros Hg. unfold acquireRuntimeMutation. destruct g as [g|]; [|by intros [= <-]]. unfold MutationGate.Acquire. destruct (_ && _); [done|].
  destruct (MutationGate.permit g) eqn:Ep; [|done]. intros [= <-]. destruct Hg as (_ & Hh & Hp). rewrite Ep in Hp. symmetry in Hp. apply bool_decide_eq_true in Hp as ->. cbn. by rewrite Hh.
Qed.
Lemma gate_out n g : gate_ok (S n) g -> gate_ok n (release_gate g).
Proof. destruct g as [g|]; [|done]. intros (Hn & Hh & _). cbn. rewrite Hh. assert (n = 0%nat) as -> by lia. split_and!; [lia|done|done]. Qed.
Lemma collect_step_ok {T} choice (q q' : list T) stopped w w' : collect_step choice q stopped w = Some (q', w') -> batch_ok w ->
  q' ++ batch_of w' ≡ₚ q ++ batch_of w /\ len q' <= len q /\ batch_ok w' /\ worker_in w' = worker_in w.
Proof.
  unfold collect_step. destruct w as [|b| | | | |]; try done; [destruct choice; [destruct q as [|x q]; [done|]|destruct stopped; [|done]]|destruct choice; [destruct q as [|x q]; [done|]|]].
  - intros [= <- <-] _. cbn. unfold len. cbn. split_and!; [by rewrite Permutation_app_comm, app_nil_r|lia|lia|done|done].
  - intros [= <- <-] _. split_and!; try done.
  - destruct (Z.ltb_spec (len b) MaxControlPlansPerItem); [|done]. intros [= <- <-] Hb. cbn in *. unfold len in *. rewrite length_app. cbn in *. split_and!; [|lia|lia|lia|done].
    by rewrite (Permutation_app_comm b), Permutation_middle.
  - intros [= <- <-] Hb. done.
Qed.
(** From the gate to the replies a worker keeps its batch. *)
Lemma batch_step_ok {T} command prefer (s s' : sys) (w w' : BatchWorker T) rest : batch_step start canceled command prefer s w = Some (s', w') -> batch_ok w -> gate_ok (worker_in w + rest) (sy_gate s) ->
  batch_of w' = batch_of w /\ batch_ok w' /\ gate_ok (worker_in w' + rest) (sy_gate s') /\ sy_pub s' = sy_pub s /\ sy_offline s' = sy_offline s /\ sy_voice s' = sy_voice s /\
  sy_closers s' = sy_closers s /\ sy_callers s' = sy_callers s.
Proof.
  unfold batch_step. destruct w as [| |b|b|b ids| |]; try done.
  - destruct (acquireRuntimeMutation _ _ _) as [[g|e]|] eqn:Ea; [| |done]; cbn; intros [= <- <-] Hb Hg; split_and!; try done. by eapply gate_in.
  - cbn. destruct (SubmitControlBatch _ _) as [[ids|e] q]; intros [= <- <-] Hb Hg; split_and!; try done. by apply gate_out.
  - destruct (wait_batch _ _) as [failure|]; [|done]. cbn. intros [= <- <-] Hb Hg. split_and!; try done. by apply gate_out.
Qed.
Lemma report_books s f : books (report s f) = books s.
Proof. unfold report. destruct f as [e|]; [|done]. by destruct (teardown_ends e). Qed.
Lemma offline_accounted choice prefer s s' : accounted s -> runOfflineBatches error_code start canceled choice prefer s = Some s' -> accounted s'.
Proof.
  intros Ha. unfold runOfflineBatches. cbv zeta. pose proof (ac_batch _ Ha) as Hb. pose proof (ac_gate _ Ha) as Hg. unfold inside in Hg.
  assert (Hcollect : ('(q, w) ← collect_step choice (offlineQueue (sy_pub s)) (offlineStop (sy_pub s)) (sy_offline s); Some (with_offline (with_pub s (set_offlineQueue (sy_pub s) q)) w)) = Some s' -> accounted s').
  { destruct (collect_step _ _ _ _) as [[q w]|] eqn:Ec; [|done]. cbn. intros [= <-]. destruct (collect_step_ok _ _ _ _ _ _ Ec Hb) as (Hp & Hq & Hw & Hin).
    apply (accounted_held s _ (held s)); try apply Ha; try done; [unfold held; cbn; rewrite !(assoc app); by rewrite Hp|cbn; pose proof (ac_offline _ Ha); lia|].
    unfold inside. cbn. by rewrite Hin. }
  assert (Hbatch : ('(s, w) ← batch_step start canceled (offlineCommand error_code) prefer s (sy_offline s); Some (with_offline s w)) = Some s' -> accounted s').
  { destruct (batch_step _ _ _ _ _ _) as [[s1 w]|] eqn:Ec; [|done]. cbn. intros [= <-]. rewrite <- Nat.add_assoc in Hg.
    destruct (batch_step_ok _ _ _ _ _ _ _ Ec Hb Hg) as (E1 & Hw & Hg' & E2 & E3 & E4 & E5 & E6).
    apply (accounted_held s _ (held s)); rewrite ?E2, ?E4; try apply Ha; cbn; rewrite ?E2, ?E4; try apply Ha; try done; [unfold held; cbn; by rewrite E2, E1, E5|].
    unfold inside. cbn. rewrite E4, E6, <- Nat.add_assoc. exact Hg'. }
  destruct (sy_offline s) as [|b|b|b|b ids|b f|] eqn:Eo; try done. intros [= <-]. apply (accounted_books (with_offline (with_pub s (set_pending (sy_pub s) (offlinePending (sy_pub s) ∖ list_to_set b))) Waiting)); [apply report_books|].
  assert (Hh : held s ≡ₚ b ++ offlineQueue (sy_pub s) ++ omap marked (sy_closers s)) by (unfold held; rewrite Eo; cbn; by rewrite (Permutation_app_swap_app b)).
  pose proof (ac_nodup _ Ha) as Hn. rewrite Hh in Hn. apply NoDup_app in Hn as (_ & Hd & Hn). eapply (accounted_held s _ _ Ha); [reflexivity|exact Hn| |apply Ha|done|done|done|].
  - cbn. rewrite (ac_pending _ Ha). apply leibniz_equiv. rewrite Hh, list_to_set_app. set_unfold. intros y. split; [naive_solver|]. intros Hy. split; [by right|]. intros Hyb. apply (Hd y Hyb). set_solver.
  - unfold inside. cbn. exact Hg.
Qed.
Lemma voice_accounted choice prefer s s' : accounted s -> runVoiceBatches voiceProjection error_code start canceled choice prefer s = Some s' -> accounted s'.
Proof.
  intros Ha. unfold runVoiceBatches. cbv zeta. pose proof (ac_vbatch _ Ha) as Hb. pose proof (ac_gate _ Ha) as Hg. unfold inside in Hg.
  assert (Hcollect : ('(q, w) ← collect_step choice (voiceQueue (sy_pub s)) (offlineStop (sy_pub s)) (sy_voice s); Some (with_voice (with_pub s (set_voiceQueue (sy_pub s) q)) w)) = Some s' -> accounted s').
  { destruct (collect_step _ _ _ _) as [[q w]|] eqn:Ec; [|done]. cbn. intros [= <-]. destruct (collect_step_ok _ _ _ _ _ _ Ec Hb) as (Hp & Hq & Hw & Hin). destruct Ha. constructor; try done; [cbn; lia|].
    unfold inside. cbn. by rewrite Hin. }
  assert (Hbatch : ('(s, w) ← batch_step start canceled (voiceCommand voiceProjection error_code) prefer s (sy_voice s); Some (with_voice s w)) = Some s' -> accounted s').
  { destruct (batch_step _ _ _ _ _ _) as [[s1 w]|] eqn:Ec; [|done]. cbn. intros [= <-]. rewrite (Nat.add_comm (worker_in (sy_offline s))), <- Nat.add_assoc in Hg.
    destruct (batch_step_ok _ _ _ _ _ _ _ Ec Hb Hg) as (E1 & Hw & Hg' & E2 & E3 & E4 & E5 & E6). destruct Ha. constructor; unfold held, inside in *; cbn; rewrite ?E2, ?E3, ?E5; try done.
    rewrite E6, (Nat.add_comm (worker_in (sy_offline s))), <- Nat.add_assoc. exact Hg'. }
  destruct (sy_voice s) as [|b|b|b|b ids|b f|] eqn:Eo; try done. intros [= <-]. apply (accounted_books (with_voice s Waiting)); [apply report_books|]. destruct Ha. by constructor.
Qed.

Lemma callers_at (l : list Caller) i c c' : l !! i = Some c -> (sum_list_with caller_in (<[i := c']> l) + caller_in c = sum_list_with caller_in l + caller_in c')%nat.
Proof.
  intros Hi. rewrite insert_take_drop by (by eapply lookup_lt_Some). rewrite <- (take_drop_middle l i c Hi) at 3. rewrite !sum_list_with_app. cbn. lia.
Qed.
(** A caller's step: of the books, only the gate moves. *)
Lemma become_accounted s s1 i c c' : accounted s -> sy_callers s !! i = Some c -> books s1 = books (with_gate s (sy_gate s1)) ->
  (forall rest, gate_ok (caller_in c + rest) (sy_gate s) -> gate_ok (caller_in c' + rest) (sy_gate s1)) -> accounted (with_callers s1 (<[i := c']> (sy_callers s1))).
Proof.
  intros Ha Hi Hb Hg. injection Hb as E1 E2 E3 E4 E5 E6 E7. destruct Ha. constructor; unfold held in *; cbn in *; rewrite ?E1, ?E2, ?E3, ?E4, ?E5, ?E6; try done.
  unfold inside in *. cbn. rewrite E7, E4, E5. pose proof (callers_at _ _ _ c' Hi) as Hc. set (rest := (worker_in (sy_offline s) + worker_in (sy_voice s) + (sum_list_with caller_in (sy_callers s) - caller_in c))%nat).
  assert (Hle : (caller_in c <= sum_list_with caller_in (sy_callers s))%nat) by (rewrite <- (take_drop_middle _ _ _ Hi), sum_list_with_app; cbn; lia).
  replace (_ + _ + _)%nat with (caller_in c' + rest)%nat by lia. apply Hg. replace (caller_in c + rest)%nat with (worker_in (sy_offline s) + worker_in (sy_voice s) + sum_list_with caller_in (sy_callers s))%nat by lia. done.
Qed.
Lemma enter_books s r now validated : books (enter s r now validated).1 = books s /\ caller_in (enter s r now validated).2 = 0%nat.
Proof.
  unfold enter. destruct r as [ref tr e|ref status activity].
  - destruct (_ || _); [done|]. by destruct (negb _).
  - destruct (negb _); [done|]. destruct (negb _); [done|]. destruct (Connection.ConnState _ _) as [st c]. destruct (negb _); [done|]. unfold allowPresence. destruct (allow_rate _ _) as [ok x].
    destruct (negb ok); [done|]. by destruct validated.
Qed.
Lemma caller_accounted s i now validated cancelled prefer s' : accounted s -> caller_step error_code start canceled s i now validated cancelled prefer = Some s' -> accounted s'.
Proof.
  intros Ha. unfold caller_step. destruct (sy_callers s !! i) as [caller|] eqn:Ei; [|done]. cbn [option_bind]. destruct caller as [r|r|r|r id|a]; [| | | |done].
  - intros [= <-]. destruct (enter_books s r now validated) as [Hb Hc]. assert (Hgate : sy_gate (enter s r now validated).1 = sy_gate s) by (by injection Hb).
    eapply become_accounted; [done|done|rewrite Hgate, Hb; done|]. rewrite Hc, Hgate. done.
  - destruct (acquireRuntimeMutation _ _ _) as [[g|e]|] eqn:Eg; [| |done]; cbn; intros [= <-].
    + apply (become_accounted s (with_gate s g) i _ _ Ha Ei); [done|]. cbn. intros rest Hr. by eapply gate_in.
    + by apply (become_accounted s s i _ _ Ha Ei).
  - intros [= <-]. unfold submit_request, request_command.
    assert (Hgo : forall s1 m, books s1 = books s -> accounted (let sc := match m : option _ with
      | None => (with_gate s1 (release_gate (sy_gate s1)), Answered (Err (CallRefused (ErrConnection Connection.ErrConnectionNotActive))))
      | Some c => match Submit (sy_seq s1) c with (Ok id, q) => (with_seq s1 q, Awaiting r id) | (Err e, q) => (with_gate (with_seq s1 q) (release_gate (sy_gate (with_seq s1 q))), Answered (Err (CallSequencer e))) end
      end in with_callers sc.1 (<[i := sc.2]> (sy_callers sc.1)))).
    { intros s1 m Hb. assert (Hgate : sy_gate s1 = sy_gate s) by (by injection Hb). cbv zeta.
      assert (Hout : forall s2 e, books s2 = books s -> accounted (with_callers (with_gate s2 (release_gate (sy_gate s2))) (<[i := Answered (Err e)]> (sy_callers s2)))).
      { intros s2 e Hb2. assert (Hg2 : sy_gate s2 = sy_gate s) by (by injection Hb2). apply (become_accounted s (with_gate s2 (release_gate (sy_gate s2))) i _ _ Ha Ei); [|cbn; intros rest Hr; rewrite Hg2; by apply gate_out].
        injection Hb2 as F1 F2 F3 F4 F5 F6 F7. unfold books. cbn. congruence. }
      destruct m as [c|]; [|exact (Hout s1 _ Hb)]. destruct (Submit _ _) as [[id|e] q]; cbn.
      - apply (become_accounted s (with_seq s1 q) i _ _ Ha Ei); [|cbn; rewrite Hgate; done]. injection Hb as F1 F2 F3 F4 F5 F6 F7. unfold books. cbn. congruence.
      - apply (Hout (with_seq s1 q) (CallSequencer e)). exact Hb. }
    destruct r as [ref [tr|] e|ref status activity]; [exact (Hgo s (Some _) eq_refl)|exact (Hgo s None eq_refl)|]. destruct (Connection.GetAuthLease _ _) as [lease c]. exact (Hgo (set_connections s c) _ eq_refl).
  - intros Hm. apply bind_Some in Hm as (x & [= <-] & Hm). apply bind_Some in Hm as (reply & _ & [= <-]). apply (become_accounted s (with_gate s (release_gate (sy_gate s))) i _ _ Ha Ei); [done|]. cbn. intros rest. apply gate_out.
Qed.
Lemma move_accounted s m s' : accounted s -> move s m = Some s' -> accounted s'.
Proof.
  intros Ha. destruct m as [f|i|ch pr|ch pr|r|i now v c pr|control|]; cbn [Lifecycle.move].
  - intros [= <-]. unfold coordinate. cbn. apply notice_accounted. by apply (accounted_books s).
  - by apply closer_accounted.
  - by apply offline_accounted.
  - by apply voice_accounted.
  - intros [= <-]. destruct Ha. constructor; try done. unfold inside in *. cbn. rewrite sum_list_with_app. cbn. by rewrite !Nat.add_0_r.
  - by apply caller_accounted.
  - destruct (run_step _ _ _ _ _ _ _) as [[q w]|]; [|done]. cbn. intros [= <-]. apply notice_accounted. by apply (accounted_books s).
  - intros [= <-]. by apply (accounted_books s).
Qed.
Definition step (s s' : sys) : Prop := exists m, move s m = Some s'.

(** C39: the publisher's bookkeeping.  Whatever its threads and callers do, and in
    whatever order: each user marked as pending is on its way exactly once, in
    the queue, in the batch the worker has, or with the observer that marked it;
    the queues never hold more than 1024 items; a batch has between one and 64
    plans; and at most one worker or caller is between taking the mutation gate
    and releasing it. *)
Theorem teardown_accounted (s s' : sys) : accounted s -> rtc step s s' ->
  NoDup (held s') /\ offlinePending (sy_pub s') = list_to_set (held s') /\ len (offlineQueue (sy_pub s')) <= 1024 /\ len (voiceQueue (sy_pub s')) <= 1024 /\
  (forall b, batch_of (sy_offline s') = b -> b = [] \/ 1 <= len b <= 64) /\ (forall b, batch_of (sy_voice s') = b -> b = [] \/ 1 <= len b <= 64) /\
  (is_Some (sy_gate s') -> (inside s' <= 1)%nat).
Proof.
  intros Ha Hr. assert (Ha' : accounted s') by (induction Hr as [|a b c [m Hm] _ IH]; [done|]; apply IH; by eapply move_accounted).
  assert (Hb : forall T (w : BatchWorker T), batch_ok w -> forall b, batch_of w = b -> b = [] \/ 1 <= len b <= 64) by (intros T [] Hw b <-; auto).
  destruct Ha' as [? ? ? ? Hb1 Hb2 Hg]. split_and!; [done..|by apply Hb|by apply Hb|]. intros [g Eg]. rewrite Eg in Hg. by destruct Hg.
Qed.
Lemma initial_accounted q gate : gate = None \/ gate = Some MutationGate.NewMutationGate -> accounted (initial q gate).
Proof. intros [-> | ->]; constructor; try done; try apply NoDup_nil_2. all: try (cbn; split_and!; [lia|done|done]). Qed.
Lemma moves_run s l s' : moves jvalid jmarshal juser idNext voiceProjection error_code start canceled s l = Some s' -> rtc step s s'.
Proof.
  unfold moves. revert s. induction l as [|m l IH]; cbn; intros s Hs; [by injection Hs as ->|]. destruct (move s m) as [s1|] eqn:Em; cbn in Hs.
  - eapply rtc_l; [by exists m|by apply IH].
  - exfalso. clear IH. by induction l.
Qed.
End Bookkeeping.

(** ** Runs *)

#[local] Existing Instance EventBusProps.ex_prims.
#[local] Existing Instance PublicationProps.ex_pprims.
#[local] Existing Instance InstallationProps.demo_env.
#[local] Existing Instance DatabaseProps.sample_prims.
#[local] Existing Instance DurableProps.demo_json.
#[local] Existing Instance ChannelProps.demo_events.
#[local] Existing Instance quiet_env.
#[local] Abbreviation conn := EventBusProps.webSocketSyncConnection.
#[local] Abbreviation demo_id := (fun g : Z => (Ok (g + 1) : result Z unit, g + 1)).
Definition demo_sys : Sys conn Z := initial (NewPostCommitSequencer (Value := MutationResult bool) (talk_pub Connection.NewConnectionCoordinator) 600) (Some MutationGate.NewMutationGate).
Definition demo_run (l : list Move) : option (Sys conn Z) :=
  moves PublicationProps.ok_json PublicationProps.ok_marshal (fun _ => Some [1]) demo_id None (fun _ => 0) (fun _ => talk_tx) (fun _ => (false, false, false)) demo_sys l.
(** The [k]-th connection of user 7. *)
Definition ref_of (k : Z) : ControlConnectionRef := Connection.mkRef (replicate 16 k) 7 k 3.
(** The [i]-th caller connects it, through the gate and the sequencer. *)
Definition connect (i : nat) (k : Z) : list Move :=
  let caller := MCaller i 0 None false false in
  [MConnections (fun c => (Connection.ReserveConnectFrom c 7 3 ConnectionProps.ex_ip (Some (replicate 16 k))).2); MCall (ReqActivate (ref_of k) (Some ConnectionProps.ex_t) 9000);
   caller; caller; caller; MRun false; MRun false; MRun false; MRun false; MRun false; MRun false; MRun false; caller].
Definition lose (ref : ControlConnectionRef) : Move := MConnections (fun c => (Connection.BeginDisconnect c ref 1000 "closed").2).
Definition situation (s : Sys conn Z) := (held s, offlinePending (sy_pub s), sy_offline s, sy_closers s).
Definition presence_of (s : Sys conn Z) : Presence := getPresence (pb_current (sq_pub (sy_seq s))) 7.

(** The user's only connection closes, and its offline is queued. *)
Definition queued_run : list Move := connect 0 1 ++ [lose (ref_of 1); MCloser 0; MCloser 0; MCloser 0].
Lemma teardown_accounted_witness : exists s, demo_run queued_run = Some s /\ held s = [7] /\ offlinePending (sy_pub s) = list_to_set (held s) /\ NoDup (held s).
Proof.
  destruct (demo_run queued_run) as [s|] eqn:E; [|vm_compute in E; discriminate E]. exists s. split; [reflexivity|].
  destruct (teardown_accounted PublicationProps.ok_json PublicationProps.ok_marshal (fun _ => Some [1]) demo_id None (fun _ => 0) (fun _ => talk_tx) (fun _ => (false, false, false)) demo_sys s)
    as (Hn & Hp & _); [apply initial_accounted; by right|by eapply moves_run|]. split; [|by split].
  assert (Hx : held <$> demo_run queued_run = Some [7]) by (vm_compute; reflexivity). rewrite E in Hx. by injection Hx.
Defined.

(** The commands alone. *)
Definition run_command (body : Mut conn Runtime bool LifecycleError Answer) (p : StatePublication conn (World Runtime)) : option (Outcome conn (World Runtime) Z (MutationResult bool)) :=
  execute PublicationProps.ok_json PublicationProps.ok_marshal (fun _ => Some [1]) demo_id (command (fun _ => 0) (false, false, false) body talk_tx) p 600.
Lemma quiet_rely : Rely live.
Proof. apply rely_live. exact quiet_others. Qed.
(** The user at a quiet coordinator. *)
Lemma presence_outcome_witness : exists o, run_command (presence_body (ref_of 1) (mkLease 1 9000) "dnd" None) (talk_pub (ConnectionProps.sy_co ConnectionProps.ex_sys2)) = Some o /\
  getPresence (pb_current (oc_pub o)) 7 = mkPresence "dnd" None.
Proof.
  destruct (presence_outcome PublicationProps.ok_json PublicationProps.ok_marshal (fun _ => Some [1]) live quiet_rely demo_id (fun _ => 0) (false, false, false) talk_tx (ref_of 1) (mkLease 1 9000) "dnd" None
    (talk_pub (ConnectionProps.sy_co ConnectionProps.ex_sys2)) 600 eq_refl connected_live) as (o & Ho & Hs). exists o. split; [exact Ho|].
  assert (Hx : (fun o => (oc_fail o, match oc_reply o with Ok _ => true | Err _ => false end)) <$> run_command (presence_body (ref_of 1) (mkLease 1 9000) "dnd" None) (talk_pub (ConnectionProps.sy_co ConnectionProps.ex_sys2)) = Some (None, true))
    by (vm_compute; reflexivity).
  unfold run_command in Hx. rewrite Ho in Hx. injection Hx as E1 E2. rewrite E1 in Hs. destruct Hs as (_ & _ & _ & Hr). destruct (oc_reply o); [|discriminate E2].
  destruct Hr as (_ & _ & _ & [Hp _] & _). unfold getPresence. rewrite Hp. cbn. rewrite lookup_insert_eq. reflexivity.
Defined.
(** A user that stays without a connection goes offline. *)
Lemma quiet_idle : Rely (fun c => live c /\ active_of c 7 = 0).
Proof. apply (rely_active 7 (fun n => n = 0)). done. Qed.
Lemma offline_outcome_witness : exists o, run_command (offline_body 7) (talk_pub Connection.NewConnectionCoordinator) = Some o /\ presences (State.runtime (pb_current (oc_pub o))) !! 7 = Some offline.
Proof.
  destruct (offline_outcome PublicationProps.ok_json PublicationProps.ok_marshal (fun _ => Some [1]) _ quiet_idle demo_id (fun _ => 0) (false, false, false) talk_tx 7
    (talk_pub Connection.NewConnectionCoordinator) 600 ltac:(lia) eq_refl (conj live_new eq_refl)) as (o & Ho & Hs). exists o. split; [exact Ho|].
  assert (Hx : (fun o => (oc_fail o, match oc_reply o with Ok _ => true | Err _ => false end)) <$> run_command (offline_body 7) (talk_pub Connection.NewConnectionCoordinator) = Some (None, true))
    by (vm_compute; reflexivity).
  unfold run_command in Hx. unfold offlineCommand in Ho. rewrite Ho in Hx. injection Hx as E1 E2. rewrite E1 in Hs. destruct Hs as (_ & _ & _ & Hr). destruct (oc_reply o); [|discriminate E2].
  destruct Hr as (_ & _ & Hr). destruct (getUser _ 7) eqn:Eu; [|vm_compute in Eu; discriminate Eu]. destruct Hr as (co & [_ Hco] & [Hp _]). rewrite Hp, Hco. cbn. rewrite lookup_insert_eq. reflexivity.
Defined.
(** A voice authority the coordinator ended leaves the published state. *)
Definition spoken_pub : StatePublication conn (World Runtime) :=
  let p := talk_pub Connection.NewConnectionCoordinator in let v := pb_current p in
  mkPub (pb_pointer p) (mkVersion (number v) (checkpoint v) (persistent v) (State.set_voice {[7 := ConnectionProps.ex_voice]} {[5 := [ConnectionProps.ex_voice]]} (State.runtime v)))
    (pb_ring p) (pb_bus p) (pb_locked p) (pb_world p).
Definition ended_voice : voiceAuthorityTransition := mkTransition (Some ConnectionProps.ex_voice) None "udp_timeout".
Lemma voice_outcome_witness : exists o, run_command (voice_body (Some (fun c previous current _ => VoiceAuthorityProjection 1 c previous current)) ended_voice) spoken_pub = Some o /\
  getVoiceAuthority (pb_current spoken_pub) 7 = Some ConnectionProps.ex_voice /\ getVoiceAuthority (pb_current (oc_pub o)) 7 = None.
Proof.
  destruct (voice_outcome PublicationProps.ok_json PublicationProps.ok_marshal (fun _ => Some [1]) quiet_others _ (channel_hook_ok 1) demo_id (fun _ => 0) (false, false, false) talk_tx ended_voice
    spoken_pub 600 eq_refl live_new) as (o & Ho & Hs). exists o. split; [exact Ho|]. split; [reflexivity|].
  assert (Hx : (fun o => (oc_fail o, match oc_reply o with Ok _ => true | Err _ => false end)) <$> run_command (voice_body (Some (fun c previous current _ => VoiceAuthorityProjection 1 c previous current)) ended_voice) spoken_pub = Some (None, true))
    by (vm_compute; reflexivity).
  unfold run_command in Hx. unfold voiceCommand in Ho. rewrite Ho in Hx. injection Hx as E1 E2. rewrite E1 in Hs. destruct Hs as (_ & _ & _ & Hr). destruct (oc_reply o); [|discriminate E2].
  destruct Hr as (_ & _ & Hv & _). exact Hv.
Defined.

Definition lost_run : list Move :=
  queued_run ++ [MOffline Receive false] ++ connect 1 2 ++
  [MOffline Leave false; MOffline Leave false; MOffline Leave false; MRun true; MRun true; MRun true; MRun true; MRun true; MRun true; lose (ref_of 2); MCloser 0; MCloser 0; MOffline Leave false; MOffline Leave false; MRun true].
(** A user left online.  The user's only connection closes; before the worker
    submits its batch the user connects again, so the command finds an active
    connection and publishes nothing; then that connection closes while the user
    still counts as pending, so its close is not queued.  The batch settles, and
    the user is online with no connection, nothing pending and no thread that
    would still move. *)
Theorem offline_lost : (fun s => (presence_of s, (Connection.UserActiveCount (connections s) 7).1, situation s, sq_failure (sy_seq s))) <$> demo_run lost_run =
  Some (online, 0, ([], ∅, Waiting, []), None).
Proof. vm_compute. reflexivity. Qed.

Definition racing_env : VoiceEnv := {|
  others := fun n r => if decide (n = 2%nat) then Voice.mkRuntime (Connection.BeginDisconnect (rt_co r) (ref_of 1) 1000 "closed").2 (rt_mgr r) (rt_limiter r) else r;
  mgr_now := fun _ => 1; mgr_clock := fun _ => 1; mgr_between := fun _ w => w; drawn_id := fun _ => None; drawn_key := fun _ => None; revoke_now := 1
|}.
Definition set_dnd (env : VoiceEnv) : option (Outcome conn (World Runtime) Z (MutationResult bool)) :=
  execute PublicationProps.ok_json PublicationProps.ok_marshal (fun _ => Some [1]) demo_id
    (command (fun _ => 0) (false, false, false) (@presence_body conn _ _ env (ref_of 1) (mkLease 1 9000) "dnd" None) talk_tx) (talk_pub (ConnectionProps.sy_co ConnectionProps.ex_sys2)) 600.
(** A connection that closes during its own presence command stops the
    sequencer: the commit's error is not a cancellation, as it is for voice. *)
Theorem presence_race_fatal : (fun o => (oc_fail o, oc_reply o)) <$> set_dnd racing_env =
  Some (Some (ErrSequencerFailed (ErrPublication ErrRuntime)), Err (ErrSequencerFailed (ErrPublication ErrRuntime))).
Proof. vm_compute. reflexivity. Qed.

Definition user_ref (k : Z) : ControlConnectionRef := Connection.mkRef ([k / 256; k mod 256] ++ replicate 14 1) k 1 3.
Definition visit (k : Z) : list Move :=
  [MConnections (fun c => (Connection.ReserveConnectFrom c k 3 (Netip.Addr4 [10; 0; k / 256; k mod 256]) (Some (r_ID (user_ref k)))).2);
   MConnections (fun c => (Connection.Activate c (user_ref k) (Some ConnectionProps.ex_t) 9000).2); lose (user_ref k); MCloser 0; MCloser 0; MCloser 0].
(** The teardown reserve is smaller than the connection cap: 1025 users, a
    quarter of the cap, that connect and close while the worker waits its turn
    stop the sequencer. *)
Theorem reserve_exhausted_run :
  (fun s => (Connection.ActiveCount (connections s), len (offlineQueue (sy_pub s)), sq_failure (sy_seq s), sq_accepting (sy_seq s))) <$> demo_run (flat_map visit (seqZ 1 1025) ++ [MCloser 0]) =
    Some (1025, 1024, Some reserve_exhausted, false).
Proof. vm_compute. reflexivity. Qed.
End LifecycleProps.
