(* ===== verification/Cache.v ===== *)
(** * Cache: the generic in-process cache ([cache/cache.go])

    Values with a lifetime, a bounded number of entries in the order of their
    insertion, and a loader whose concurrent runs for one key are shared.  Two
    locks protect it, [inflightMu] outside [mu].  A section under [mu] alone is
    one step; [inflightMu] is held across steps only by a caller that looks a
    second time for its key, and is explicit.  Calls of the loader are shared by
    pointer, so they live in a heap.

    The cache runs against a source that the loader reads and others write.  The
    system records which keys were written without being invalidated since, and
    for each caller whether its key was always clean while it ran. *)

From S2P Require Import Prelude.
From stdpp Require Import base gmap list.
From Stdlib Require Import ZArith Lia.
#[local] Open Scope list_scope.
#[local] Open Scope Z_scope.

Module Cache.

Section Cache.
Context {K : Type} `{Countable K} {V E : Type}.

(** [None] is the zero time: the entry never expires. *)
Record entry := mkEntry { en_value : V; en_expiresAt : option Z }.
(** A call of the loader; [ca_ready] is its closed channel. *)
Record inflight := mkCall { ca_ready : bool; ca_value : option V; ca_err : option E; ca_generation : Z; ca_invalidated : bool }.
Record config := mkConfig { cf_ttl : Z; cf_loader : bool; cf_maxSize : Z }.
Record Cache := mkCache {
  entries : gmap K entry; tombstones : gmap K Z; order : list K; calls : gmap K nat; heap : gmap nat inflight; hits : Z; misses : Z
}.
Definition New : Cache := mkCache ∅ ∅ [] ∅ ∅ 0 0.

Definition set_entries (c : Cache) (m : gmap K entry) (o : list K) : Cache := mkCache m (tombstones c) o (calls c) (heap c) (hits c) (misses c).
Definition set_calls (c : Cache) (t : gmap K Z) (m : gmap K nat) (h : gmap nat inflight) : Cache := mkCache (entries c) t (order c) m h (hits c) (misses c).
Definition count_hit (c : Cache) : Cache := mkCache (entries c) (tombstones c) (order c) (calls c) (heap c) (u64 (hits c + 1)) (misses c).
Definition count_miss (c : Cache) : Cache := mkCache (entries c) (tombstones c) (order c) (calls c) (heap c) (hits c) (u64 (misses c + 1)).

Section Options.
Context (cfg : config).

(** [!e.expiresAt.IsZero() && !now.Before(e.expiresAt)]. *)
Definition expired (now : Z) (e : entry) : bool := match en_expiresAt e with Some t => negb (now <? t) | None => false end.
(** The deadline of an entry stored now. *)
Definition deadline (now : Z) : option Z := if 0 <? cf_ttl cfg then Some (now + cf_ttl cfg) else None.
Fixpoint remove_key (key : K) (l : list K) : list K :=
  match l with [] => [] | k :: l => if bool_decide (k = key) then l else k :: remove_key key l end.
Definition forget (c : Cache) (key : K) : Cache :=
  match entries c !! key with
  | Some _ => set_entries c (delete key (entries c)) (remove_key key (order c))
  | None => c
  end.
(** A new key goes last, and evicts the first one from a full cache. *)
Definition admit_key (c : Cache) (key : K) : Cache :=
  match entries c !! key with
  | Some _ => c
  | None =>
      let o := order c ++ [key] in
      if (0 <? cf_maxSize cfg) && (cf_maxSize cfg <? Z.of_nat (length o))
      then match o with oldest :: o => set_entries c (delete oldest (entries c)) o | [] => set_entries c (entries c) o end
      else set_entries c (entries c) o
  end.
Definition storeLocked (c : Cache) (key : K) (value : V) (now : Z) : Cache :=
  let c := admit_key c key in set_entries c (<[key := mkEntry value (deadline now)]> (entries c)) (order c).

(** A call that Set, Delete or Clear finds is cut off from its key. *)
Definition invalidate (i : inflight) : inflight := mkCall (ca_ready i) (ca_value i) (ca_err i) (ca_generation i) true.
Definition generation (c : Cache) (key : K) : Z := default 0 (tombstones c !! key).
Definition detach (c : Cache) (key : K) : Cache :=
  match calls c !! key with
  | Some l => set_calls c (<[key := u64 (generation c key + 1)]> (tombstones c)) (delete key (calls c)) (alter invalidate l (heap c))
  | None => c
  end.

Definition Set_ (c : Cache) (key : K) (value : V) (now : Z) : Cache := storeLocked (detach c key) key value now.
Definition Delete (c : Cache) (key : K) : Cache := forget (detach c key) key.
(** The loop over the calls, in any order. *)
Definition Clear (c : Cache) : Cache := set_entries (fold_left detach (map_to_list (calls c)).*1 c) ∅ [].
Definition purgeExpiredLocked (c : Cache) (now : Z) : Z * Cache :=
  let m := filter (fun ke => expired now ke.2 = false) (entries c) in
  let n := Z.of_nat (size (entries c)) - Z.of_nat (size m) in
  (n, if 0 <? n then set_entries c m (filter (fun k => is_Some (m !! k)) (order c)) else c).
Definition DeleteExpired (c : Cache) (now : Z) : Z * Cache := purgeExpiredLocked c now.
Definition Snapshot (c : Cache) (now : Z) : gmap K V * Cache := let c := (purgeExpiredLocked c now).2 in (en_value <$> entries c, c).
Definition Len (c : Cache) : Z := Z.of_nat (size (entries c)).
Definition Stats (c : Cache) : Z * Z := (hits c, misses c).

(** [get]: what the section under the read lock finds, and the section that
    removes an entry still expired. *)
Inductive Looked := Found (v : V) | Absent | Stale.
Definition look (c : Cache) (key : K) (now : Z) : Looked :=
  match entries c !! key with None => Absent | Some e => if expired now e then Stale else Found (en_value e) end.
Definition purge (c : Cache) (key : K) (now : Z) : Cache :=
  match entries c !! key with Some e => if expired now e then forget c key else c | None => c end.

(** ** Loading *)

(** A fresh call that owns its key. *)
Definition register (c : Cache) (key : K) : nat * Cache :=
  let l := fresh (dom (heap c)) in
  (l, set_calls c (tombstones c) (<[key := l]> (calls c)) (<[l := mkCall false None None (generation c key) false]> (heap c))).
(** What the loader answered, published only by the call that owns the key. *)
Definition complete (c : Cache) (key : K) (l : nat) (answer : result V E) (now : Z) : Cache :=
  match heap c !! l with
  | None => c
  | Some i =>
      if bool_decide (calls c !! key = Some l) && negb (ca_invalidated i) && (generation c key =? ca_generation i)
      then
        let '(c, i) := match answer with
          | Ok v => (storeLocked c key v now, mkCall true (Some v) (ca_err i) (ca_generation i) false)
          | Err e => (c, mkCall true (ca_value i) (Some e) (ca_generation i) false)
          end in
        set_calls c (delete key (tombstones c)) (delete key (calls c)) (<[l := i]> (heap c))
      else
        set_calls c (if bool_decide (calls c !! key = None) then delete key (tombstones c) else tombstones c) (calls c)
          (<[l := mkCall true (ca_value i) (ca_err i) (ca_generation i) true]> (heap c))
  end.

(** What [Get] returns. *)
Inductive Got := Hit (v : V) | Missed | Failed (e : E) | Canceled.
(** A finished call as its callers see it: [None] is a retry. *)
Definition outcome (i : inflight) : option Got :=
  if ca_invalidated i then None
  else match ca_err i, ca_value i with Some e, _ => Some (Failed e) | None, Some v => Some (Hit v) | None, None => Some Missed end.

(** ** Callers *)

(** Where a [Get] is.  [Rereading] and [Repurging] hold [inflightMu]; [Running]
    is inside the loader, [Loaded] has its answer; [Retrying] asks the context. *)
Inductive Pc :=
  | Reading | Purging | Missing | Joining | Rereading | Repurging | Waiting (l : nat) | Running (l : nat) | Loaded (l : nat) (answer : result V E)
  | Retrying | Done (r : Got).
Record Caller := mkCaller { cl_key : K; cl_pc : Pc; cl_clean : bool }.
(** [sy_lock] is the holder of [inflightMu]; [sy_dirty] are the keys written
    since they were last invalidated. *)
Record System := mkSystem { sy_cache : Cache; sy_lock : option nat; sy_callers : gmap nat Caller; sy_source : gmap K V; sy_dirty : gset K }.

Definition at_pc (s : System) (n : nat) (t : Caller) (pc : Pc) : System :=
  mkSystem (sy_cache s) (sy_lock s) (<[n := mkCaller (cl_key t) pc (cl_clean t)]> (sy_callers s)) (sy_source s) (sy_dirty s).
Definition with_cache (s : System) (c : Cache) : System := mkSystem c (sy_lock s) (sy_callers s) (sy_source s) (sy_dirty s).
Definition with_lock (s : System) (o : option nat) : System := mkSystem (sy_cache s) o (sy_callers s) (sy_source s) (sy_dirty s).

(** What the clock, the loader's connection and the context answer a step. *)
Record Env := mkEnv { ev_now : Z; ev_fault : option E; ev_missing : E; ev_canceled : bool }.
(** The loader reads the source. *)
Definition load_answer (s : System) (key : K) (v : Env) : result V E :=
  match ev_fault v with Some e => Err e | None => match sy_source s !! key with Some x => Ok x | None => Err (ev_missing v) end end.
(** [inflightMu] is free. *)
Definition free (s : System) : bool := match sy_lock s with None => true | Some _ => false end.
Definition start_load (s : System) (n : nat) (t : Caller) : System :=
  let '(l, c) := register (sy_cache s) (cl_key t) in at_pc (with_lock (with_cache s c) None) n t (Running l).
Definition settle (s : System) (n : nat) (t : Caller) (l : nat) : option System :=
  match heap (sy_cache s) !! l with
  | Some i => Some (at_pc s n t (match outcome i with Some r => Done r | None => Retrying end))
  | None => None
  end.

(** One step of a caller; [None] where it is blocked. *)
Definition caller_step (s : System) (n : nat) (t : Caller) (v : Env) : option System :=
  let key := cl_key t in
  let c := sy_cache s in
  match cl_pc t with
  | Reading =>
      Some (match look c key (ev_now v) with
            | Found x => at_pc (with_cache s (count_hit c)) n t (Done (Hit x))
            | Absent => at_pc s n t Missing
            | Stale => at_pc s n t Purging
            end)
  | Purging => Some (at_pc (with_cache s (purge c key (ev_now v))) n t Missing)
  | Missing => Some (at_pc (with_cache s (count_miss c)) n t (if cf_loader cfg then Joining else Done Missed))
  | Joining =>
      if negb (free s) then None
      else Some (match calls c !! key with
                 | Some l => at_pc s n t (Waiting l)
                 | None => at_pc (with_lock s (Some n)) n t Rereading
                 end)
  | Rereading =>
      Some (match look c key (ev_now v) with
            | Found x => at_pc (with_lock s None) n t (Done (Hit x))
            | Absent => start_load s n t
            | Stale => at_pc s n t Repurging
            end)
  | Repurging => Some (start_load (with_cache s (purge c key (ev_now v))) n t)
  | Waiting l =>
      if ev_canceled v then Some (at_pc s n t (Done Canceled))
      else match heap c !! l with Some i => if ca_ready i then settle s n t l else None | None => None end
  | Running l => Some (at_pc s n t (Loaded l (load_answer s key v)))
  | Loaded l answer => if negb (free s) then None else settle (with_cache s (complete c key l answer (ev_now v))) n t l
  | Retrying => Some (at_pc s n t (if ev_canceled v then Done Canceled else Joining))
  | Done _ => None
  end.

Inductive Move :=
  | MGet (n : nat) (key : K)
  | MStep (n : nat) (v : Env)
  | MSet (key : K) (value : V) (now : Z)
  | MDelete (key : K)
  | MClear
  | MPurge (now : Z)
  | MWrite (key : K) (value : option V).

(** A write makes its key dirty, and so every caller that runs for it. *)
Definition spoil (key : K) (t : Caller) : Caller := if bool_decide (cl_key t = key) then mkCaller (cl_key t) (cl_pc t) false else t.
Definition write (s : System) (key : K) (value : option V) : System :=
  mkSystem (sy_cache s) (sy_lock s) (spoil key <$> sy_callers s) (partial_alter (fun _ => value) key (sy_source s)) ({[key]} ∪ sy_dirty s).
Definition with_dirty (s : System) (d : gset K) : System := mkSystem (sy_cache s) (sy_lock s) (sy_callers s) (sy_source s) d.

(** [Set] bypasses the loader: its key counts as dirty until it is invalidated. *)
Definition move (s : System) (m : Move) : option System :=
  match m with
  | MGet n key =>
      match sy_callers s !! n with
      | Some _ => None
      | None => Some (mkSystem (sy_cache s) (sy_lock s) (<[n := mkCaller key Reading (bool_decide (key ∉ sy_dirty s))]> (sy_callers s)) (sy_source s) (sy_dirty s))
      end
  | MStep n v => t ← sy_callers s !! n; caller_step s n t v
  | MSet key value now => if negb (free s) then None else Some (write (with_cache s (Set_ (sy_cache s) key value now)) key (sy_source s !! key))
  | MDelete key => if negb (free s) then None else Some (with_dirty (with_cache s (Delete (sy_cache s) key)) (sy_dirty s ∖ {[key]}))
  | MClear => if negb (free s) then None else Some (with_dirty (with_cache s (Clear (sy_cache s))) ∅)
  | MPurge now => Some (with_cache s (DeleteExpired (sy_cache s) now).2)
  | MWrite key value => Some (write s key value)
  end.
Definition initial (source : gmap K V) : System := mkSystem New None ∅ source ∅.
Definition moves (s : System) (ms : list Move) : option System := fold_left (fun s m => s ← s; move s m) ms (Some s).
End Options.
End Cache.
Arguments entry : clear implicits.
Arguments inflight : clear implicits.
Arguments Cache K {_ _} V E : rename.
Arguments System K {_ _} V E : rename.
Arguments Caller : clear implicits.
Arguments Move : clear implicits.
Arguments Got : clear implicits.
Arguments Pc : clear implicits.
Arguments Env : clear implicits.
End Cache.
