(* ===== verification/CacheProps.v ===== *)
(** * CacheProps: a cache that never serves what was invalidated

    Over every interleaving of callers, writers and invalidations. *)

From S2P Require Import Prelude Cache.
From stdpp Require Import base gmap list.
From Stdlib Require Import ZArith Lia.
#[local] Open Scope list_scope.
#[local] Open Scope Z_scope.

Module CacheProps.
Import Cache.

Section Props.
Context {K : Type} `{Countable K} {V E : Type} (cfg : config).
#[local] Abbreviation cache := (Cache K V E).
#[local] Abbreviation system := (System K V E).
#[local] Abbreviation caller := (Caller K V E).

(** ** The order of insertion *)

Record order_ok (m : gmap K (entry V)) (o : list K) : Prop := {
  oo_nodup : NoDup o; oo_exact : forall k, k ∈ o <-> is_Some (m !! k); oo_bound : 0 < cf_maxSize cfg -> Z.of_nat (length o) <= cf_maxSize cfg
}.
Lemma remove_key_spec key (o : list K) : NoDup o ->
  NoDup (remove_key key o) /\ (forall k, k ∈ remove_key key o <-> k ∈ o /\ k <> key) /\ (length (remove_key key o) <= length o)%nat.
Proof.
  induction o as [|x o IH]; cbn; [set_solver|]. intros [Hx Ho]%NoDup_cons. destruct (IH Ho) as (I1 & I2 & I3). case_bool_decide as Ek; cbn.
  - subst. split_and!; [done| |lia]. intros k. set_solver.
  - split_and!; [|intros k; rewrite !elem_of_cons, I2; naive_solver|lia]. apply NoDup_cons. split; [|done]. rewrite I2. naive_solver.
Qed.
Lemma forget_order (c : cache) key : order_ok (entries c) (order c) -> order_ok (entries (forget c key)) (order (forget c key)).
Proof.
  intros [N X B]. unfold forget. destruct (entries c !! key) eqn:Ek; [|done]. cbn. destruct (remove_key_spec key (order c) N) as (R1 & R2 & R3).
  constructor; [done| |lia]. intros k. rewrite R2, X, lookup_delete_is_Some. naive_solver.
Qed.
Lemma store_order (c : cache) key v now : order_ok (entries c) (order c) ->
  order_ok (entries (storeLocked cfg c key v now)) (order (storeLocked cfg c key v now)).
Proof.
  intros [N X B]. unfold storeLocked, admit_key. destruct (entries c !! key) as [e|] eqn:Ek; cbn.
  { constructor; [done| |done]. intros k. rewrite X, lookup_insert_is_Some. destruct (decide (key = k)) as [<-|]; [|naive_solver]. rewrite Ek. naive_solver. }
  assert (Hk : key ∉ order c) by (rewrite X, Ek; apply is_Some_None).
  assert (N' : NoDup (order c ++ [key])) by (apply NoDup_app; split_and!; [done|set_solver|apply NoDup_singleton]).
  assert (X' : forall k, k ∈ order c ++ [key] <-> is_Some (<[key := mkEntry v (deadline cfg now)]> (entries c) !! k)).
  { intros k. rewrite elem_of_app, list_elem_of_singleton, X, lookup_insert_is_Some. destruct (decide (key = k)) as [<-|]; naive_solver. }
  assert (Hl : length (order c ++ [key]) = S (length (order c))) by (rewrite length_app; cbn; lia).
  rewrite Hl. destruct (Z.ltb_spec 0 (cf_maxSize cfg)) as [Hm|]; cbn [andb]; [|constructor; cbn; [done|done|lia]].
  destruct (Z.ltb_spec (cf_maxSize cfg) (Z.of_nat (S (length (order c))))); [|constructor; cbn; [done|done|lia]].
  specialize (B Hm). destruct (order c) as [|x o] eqn:Eo; [cbn in *; lia|]. cbn [app] in *.
  assert (Hx : x <> key) by (intros ->; apply Hk; set_solver).
  apply NoDup_cons in N' as [Nx N']. constructor; cbn; [done| |rewrite length_app in *; cbn in *; lia].
  intros k. rewrite lookup_insert_is_Some, lookup_delete_is_Some. specialize (X' k). rewrite elem_of_cons, lookup_insert_is_Some in X'.
  destruct (decide (k = x)) as [->|]; [|naive_solver]. naive_solver.
Qed.
Lemma purge_order (c : cache) key now : order_ok (entries c) (order c) -> order_ok (entries (purge c key now)) (order (purge c key now)).
Proof. intros Ho. unfold purge. destruct (entries c !! key); [|done]. destruct (expired _ _); [by apply forget_order|done]. Qed.
Lemma sweep_order (c : cache) now : order_ok (entries c) (order c) ->
  order_ok (entries (DeleteExpired c now).2) (order (DeleteExpired c now).2).
Proof.
  intros [N X B]. unfold DeleteExpired, purgeExpiredLocked. cbn. destruct (_ <? _); [|done]. cbn. constructor.
  - by apply NoDup_filter.
  - intros k. rewrite list_elem_of_filter, X. split; [by intros []|]. intros Hk. split; [done|]. destruct Hk as [e He]. apply map_lookup_filter_Some in He as [He _]. eauto.
  - intros Hm. specialize (B Hm). pose proof (length_filter (fun k => is_Some (filter (fun ke : K * entry V => expired now ke.2 = false) (entries c) !! k)) (order c)). lia.
Qed.

(** ** What holds of every reachable system *)

Definition loading (pc : Pc V E) (l : nat) : Prop := pc = Running l \/ exists a, pc = Loaded l a.
Definition holds (pc : Pc V E) : Prop := pc = Rereading \/ pc = Repurging.
(** A finished call that its key still owned has an answer, and a value that
    is the source's for every caller whose key stayed clean. *)
Definition call_fresh (source : gmap K V) (t : caller) (i : inflight V E) : Prop := ca_ready i = true -> ca_invalidated i = false ->
  match ca_err i, ca_value i with Some _, _ => True | None, Some v => cl_clean t = true -> source !! cl_key t = Some v | None, None => False end.
Definition pc_ok (c : cache) (lock : option nat) (source : gmap K V) (dirty : gset K) (n : nat) (t : caller) : Prop :=
  match cl_pc t with
  | Rereading | Repurging => lock = Some n /\ calls c !! cl_key t = None
  | Waiting l => exists i, heap c !! l = Some i /\ call_fresh source t i
  | Running l | Loaded l (Err _) => exists i, heap c !! l = Some i /\ ca_ready i = false /\ (ca_invalidated i = false -> calls c !! cl_key t = Some l)
  | Loaded l (Ok v) => exists i, heap c !! l = Some i /\ ca_ready i = false /\ (ca_invalidated i = false -> calls c !! cl_key t = Some l) /\
      (calls c !! cl_key t = Some l -> cl_key t ∈ dirty \/ source !! cl_key t = Some v)
  | Done (Hit v) => cl_clean t = true -> source !! cl_key t = Some v
  | _ => True
  end.
Definition thread_ok (s : system) (n : nat) (t : caller) : Prop :=
  (cl_clean t = true -> cl_key t ∉ sy_dirty s) /\ pc_ok (sy_cache s) (sy_lock s) (sy_source s) (sy_dirty s) n t.

Record Inv (s : system) : Prop := {
  v_order : order_ok (entries (sy_cache s)) (order (sy_cache s));
  v_entries : forall k e, entries (sy_cache s) !! k = Some e -> k ∈ sy_dirty s \/ sy_source s !! k = Some (en_value e);
  v_calls : forall k l, calls (sy_cache s) !! k = Some l -> exists i n t, heap (sy_cache s) !! l = Some i /\ ca_invalidated i = false /\
    ca_generation i = generation (sy_cache s) k /\ sy_callers s !! n = Some t /\ loading (cl_pc t) l /\ cl_key t = k;
  v_owned : forall l i, heap (sy_cache s) !! l = Some i -> ca_ready i = false -> exists n t, sy_callers s !! n = Some t /\ loading (cl_pc t) l;
  v_threads : forall n t, sy_callers s !! n = Some t -> thread_ok s n t;
  v_unique : forall n t n' t' l, sy_callers s !! n = Some t -> sy_callers s !! n' = Some t' -> loading (cl_pc t) l -> loading (cl_pc t') l -> n = n';
  v_wait : forall n t n' t' l, sy_callers s !! n = Some t -> sy_callers s !! n' = Some t' -> cl_pc t = Waiting l -> loading (cl_pc t') l -> cl_key t = cl_key t';
  v_lock : forall n, sy_lock s = Some n -> exists t, sy_callers s !! n = Some t /\ holds (cl_pc t)
}.

Lemma loading_ok c lock source dirty n t l : pc_ok c lock source dirty n t -> loading (cl_pc t) l ->
  exists i, heap c !! l = Some i /\ ca_ready i = false /\ (ca_invalidated i = false -> calls c !! cl_key t = Some l).
Proof. unfold pc_ok. intros Hp [El|[[v|e] El]]; rewrite El in Hp; [done| |done]. destruct Hp as (i & ? & ? & ? & _). by exists i. Qed.
Lemma calls_inj s k k' l : Inv s -> calls (sy_cache s) !! k = Some l -> calls (sy_cache s) !! k' = Some l -> k = k'.
Proof.
  intros Hi (i & n & t & _ & _ & _ & Hn & Hl & <-)%(v_calls s Hi) (i' & n' & t' & _ & _ & _ & Hn' & Hl' & <-)%(v_calls s Hi).
  assert (n = n') as <- by by eapply (v_unique s Hi). congruence.
Qed.

(** *** Entries *)

Lemma forget_entries (c : cache) key k e : entries (forget c key) !! k = Some e -> entries c !! k = Some e.
Proof. unfold forget. destruct (entries c !! key); [|done]. cbn. by intros [_ ?]%lookup_delete_Some. Qed.
Lemma purge_entries (c : cache) key now k e : entries (purge c key now) !! k = Some e -> entries c !! k = Some e.
Proof. unfold purge. destruct (entries c !! key); [|done]. destruct (expired _ _); [apply forget_entries|done]. Qed.
Lemma sweep_entries (c : cache) now k e : entries (DeleteExpired c now).2 !! k = Some e -> entries c !! k = Some e.
Proof. unfold DeleteExpired, purgeExpiredLocked. cbn. destruct (_ <? _); [|done]. cbn. by intros [? _]%map_lookup_filter_Some. Qed.
Lemma store_entries (c : cache) key v now k e : entries (storeLocked cfg c key v now) !! k = Some e -> (k = key /\ en_value e = v) \/ entries c !! k = Some e.
Proof.
  unfold storeLocked. cbn. intros [[-> <-]|[Hk He]]%lookup_insert_Some; [by left|right]. revert He. unfold admit_key. destruct (entries c !! key); [done|].
  destruct (_ && _); [|done]. destruct (_ ++ _); [done|]. cbn. by intros [_ ?]%lookup_delete_Some.
Qed.
Definition same_calls (c c' : cache) : Prop := calls c' = calls c /\ heap c' = heap c /\ tombstones c' = tombstones c.
Lemma forget_calls (c : cache) key : same_calls c (forget c key). Proof. unfold forget. by destruct (entries c !! key). Qed.
Lemma purge_calls (c : cache) key now : same_calls c (purge c key now).
Proof. unfold purge. destruct (entries c !! key); [|done]. destruct (expired _ _); [apply forget_calls|done]. Qed.
Lemma sweep_calls (c : cache) now : same_calls c (DeleteExpired c now).2.
Proof. unfold DeleteExpired, purgeExpiredLocked. cbn. by destruct (_ <? _). Qed.
Lemma store_calls (c : cache) key v now : same_calls c (storeLocked cfg c key v now).
Proof. unfold storeLocked, admit_key. destruct (entries c !! key); [done|]. destruct (_ && _); [|done]. by destruct (_ ++ _). Qed.

(** A change of entries alone. *)
Lemma inv_entries s c : Inv s -> same_calls (sy_cache s) c -> order_ok (entries c) (order c) ->
  (forall k e, entries c !! k = Some e -> k ∈ sy_dirty s \/ sy_source s !! k = Some (en_value e)) -> Inv (with_cache s c).
Proof.
  intros [] (Ec & Eh & Et) Ho He. constructor; unfold thread_ok, pc_ok, generation in *; cbn; rewrite ?Ec, ?Eh, ?Et; try done.
Qed.
Lemma inv_fewer s c : Inv s -> same_calls (sy_cache s) c -> order_ok (entries c) (order c) ->
  (forall k e, entries c !! k = Some e -> entries (sy_cache s) !! k = Some e) -> Inv (with_cache s c).
Proof. intros Hi Hc Ho He. apply inv_entries; [done..|]. intros k e Hk. eapply v_entries; eauto. Qed.

(** *** Callers *)

Lemma holds_loading pc l : holds pc -> loading pc l -> False.
Proof. by intros [->| ->] [[=]|[? [=]]]. Qed.

(** A caller that neither runs the loader before nor after. *)
Lemma inv_pc s n t pc : Inv s -> sy_callers s !! n = Some t -> (forall l, loading (cl_pc t) l -> False) -> (forall l, loading pc l -> False) ->
  pc_ok (sy_cache s) (sy_lock s) (sy_source s) (sy_dirty s) n (mkCaller (cl_key t) pc (cl_clean t)) ->
  (forall l, pc = Waiting l -> calls (sy_cache s) !! cl_key t = Some l) -> (sy_lock s = Some n -> holds pc) -> Inv (at_pc s n t pc).
Proof.
  intros Hi Hn Hold Hnew Hok Hw Hlock. pose proof Hi as []. constructor; cbn; try done.
  - intros k l Hk. destruct (v_calls0 k l Hk) as (i & m & t' & ? & ? & ? & Hm & Hl & ?). exists i, m, t'. split_and!; try done.
    rewrite lookup_insert_ne; [done|]. intros ->. rewrite Hn in Hm. injection Hm as ->. by eapply Hold.
  - intros l i Hl Hr. destruct (v_owned0 l i Hl Hr) as (m & t' & Hm & Hld). exists m, t'. split; [|done]. rewrite lookup_insert_ne; [done|].
    intros ->. rewrite Hn in Hm. injection Hm as ->. by eapply Hold.
  - intros m t' [[-> <-]|[_ Hm]]%lookup_insert_Some; [|by apply v_threads0]. split; [|done]. by apply (v_threads0 m t).
  - intros m t1 m' t2 l [[-> <-]|[_ Hm]]%lookup_insert_Some; [intros _ Hl; by apply Hnew in Hl|].
    intros [[-> <-]|[_ Hm']]%lookup_insert_Some; [intros _ Hl; by apply Hnew in Hl|]. by eapply v_unique0.
  - intros m t1 m' t2 l Hm [[-> <-]|[_ Hm']]%lookup_insert_Some Hp Hl; [by apply Hnew in Hl|]. apply lookup_insert_Some in Hm as [[-> <-]|[_ Hm]]; [|by eapply v_wait0].
    cbn in *. apply Hw in Hp. destruct (v_calls0 _ _ Hp) as (i & x & t' & _ & _ & _ & Hx & Hl' & <-). assert (x = m') as -> by by eapply v_unique0. congruence.
  - intros m Hm. destruct (v_lock0 m Hm) as (t' & Ht' & Hh). destruct (decide (n = m)) as [->|]; [|exists t'; by rewrite lookup_insert_ne].
    exists (mkCaller (cl_key t) pc (cl_clean t)). rewrite lookup_insert_eq. split; [done|]. by apply Hlock.
Qed.
(** The lock taken by a caller that found no call, and released by one that holds it. *)
Lemma inv_acquire s n t : Inv s -> sy_callers s !! n = Some t -> cl_pc t = Joining -> sy_lock s = None -> calls (sy_cache s) !! cl_key t = None ->
  Inv (at_pc (with_lock s (Some n)) n t Rereading).
Proof.
  intros Hi Hn Hp Hl Hc. assert (Hi' : Inv (at_pc s n t Missing)).
  { apply inv_pc; try done; [rewrite Hp; by intros l [[=]|[? [=]]]|by intros l [[=]|[? [=]]]|congruence]. }
  destruct Hi'. constructor; cbn in *; try done.
  - intros k l Hk. destruct (v_calls0 k l Hk) as (i & m & t' & ? & ? & ? & Hm & Hld & ?). exists i, m, t'. split_and!; try done.
    apply lookup_insert_Some in Hm as [[-> <-]|[? Hm]]; [by destruct Hld as [[=]|[? [=]]]|]. by rewrite lookup_insert_ne.
  - intros l i Hk Hr. destruct (v_owned0 l i Hk Hr) as (m & t' & Hm & Hld). exists m, t'. split; [|done].
    apply lookup_insert_Some in Hm as [[-> <-]|[? Hm]]; [by destruct Hld as [[=]|[? [=]]]|]. by rewrite lookup_insert_ne.
  - intros m t' [[<- <-]|[? Hm]]%lookup_insert_Some; [split; [by apply (v_threads s Hi n t)|done]|].
    destruct (v_threads0 m t') as [H1' H2']; [by rewrite lookup_insert_ne|]. split; [done|]. revert H2'. unfold pc_ok. cbn. rewrite Hl. by destruct (cl_pc t') as [| | | | | | | |? []| |[]]; try intros [[=] _].
  - intros m t1 m' t2 l [[<- <-]|[? Hm]]%lookup_insert_Some; [by intros _ [[=]|[? [=]]]|]. intros [[<- <-]|[? Hm']]%lookup_insert_Some; [by intros _ [[=]|[? [=]]]|]. by eapply (v_unique s Hi).
  - intros m t1 m' t2 l [[<- <-]|[? Hm]]%lookup_insert_Some; [done|]. intros [[<- <-]|[? Hm']]%lookup_insert_Some; [by intros _ [[=]|[? [=]]]|]. by eapply (v_wait s Hi).
  - intros m [= <-]. eexists. rewrite lookup_insert_eq. split; [done|]. by left.
Qed.

(** Others do not hold the lock of [n]. *)
Lemma unlocked_ok c source dirty n m t : pc_ok c (Some n) source dirty m t -> n <> m -> pc_ok c None source dirty m t.
Proof. unfold pc_ok. intros Hp Hm. destruct (cl_pc t) as [| | | | | | | |? []| |[]]; try done; destruct Hp as [[=] _]; done. Qed.
Lemma inv_release s n t x : Inv s -> sy_callers s !! n = Some t -> cl_pc t = Rereading -> (cl_clean t = true -> sy_source s !! cl_key t = Some x) ->
  Inv (at_pc (with_lock s None) n t (Done (Hit x))).
Proof.
  intros Hi Hn Hp Hx. pose proof Hi as [].
  assert (Hlock : sy_lock s = Some n) by (destruct (v_threads0 n t Hn) as [_ Ho]; revert Ho; unfold pc_ok; rewrite Hp; by intros []).
  assert (Hold : forall m t' l, sy_callers s !! m = Some t' -> loading (cl_pc t') l -> n <> m).
  { intros m t' l Hm Hl ->. rewrite Hn in Hm. injection Hm as <-. rewrite Hp in Hl. by destruct Hl as [[=]|[? [=]]]. }
  constructor; cbn; try done.
  - intros k l Hk. destruct (v_calls0 k l Hk) as (i & m & t' & ? & ? & ? & Hm & Hl & ?). exists i, m, t'. split_and!; try done. rewrite lookup_insert_ne; eauto.
  - intros l i Hl Hr. destruct (v_owned0 l i Hl Hr) as (m & t' & Hm & Hld). exists m, t'. split; [|done]. rewrite lookup_insert_ne; eauto.
  - intros m t' [[<- <-]|[Hne Hm]]%lookup_insert_Some; [split; [by apply (v_threads0 n t)|done]|].
    destruct (v_threads0 m t' Hm) as [H1' H2']. split; [done|]. rewrite Hlock in H2'. by eapply unlocked_ok.
  - intros m t1 m' t2 l [[<- <-]|[? Hm]]%lookup_insert_Some; [by intros _ [[=]|[? [=]]]|]. intros [[<- <-]|[? Hm']]%lookup_insert_Some; [by intros _ [[=]|[? [=]]]|]. by eapply v_unique0.
  - intros m t1 m' t2 l [[<- <-]|[? Hm]]%lookup_insert_Some; [done|]. intros [[<- <-]|[? Hm']]%lookup_insert_Some; [by intros _ [[=]|[? [=]]]|]. by eapply v_wait0.
Qed.

(** A call that is registered by the caller that holds the lock. *)
Lemma inv_register s n t : Inv s -> sy_callers s !! n = Some t -> holds (cl_pc t) -> Inv (start_load s n t).
Proof.
  intros Hi Hn Hp. pose proof Hi as []. unfold start_load, register. set (l := fresh (dom (heap (sy_cache s)))).
  assert (Hl : heap (sy_cache s) !! l = None) by (apply not_elem_of_dom, is_fresh).
  assert (Ht : sy_lock s = Some n /\ calls (sy_cache s) !! cl_key t = None).
  { destruct (v_threads0 n t Hn) as [_ Ho]. revert Ho. unfold pc_ok. by destruct Hp as [->| ->]. }
  destruct Ht as [Hlock Hfree].
  assert (Hold : forall m t' l, sy_callers s !! m = Some t' -> loading (cl_pc t') l -> n <> m).
  { intros m t' l' Hm Hl' ->. rewrite Hn in Hm. injection Hm as <-. by eapply holds_loading. }
  assert (Hin : forall m t' l', sy_callers s !! m = Some t' -> loading (cl_pc t') l' -> l <> l').
  { intros m t' l' Hm Hld ->. destruct (v_threads0 m t' Hm) as [_ Ho]. destruct (loading_ok _ _ _ _ _ _ _ Ho Hld) as (i & Hi' & _). congruence. }
  constructor; cbn; try done.
  - intros k l' [[<- <-]|[Hne Hk]]%lookup_insert_Some.
    + eexists _, n, _. rewrite !lookup_insert_eq. split_and!; [done|done|done|done|by left|done].
    + destruct (v_calls0 k l' Hk) as (i & m & t' & ? & ? & ? & Hm & Hld & ?). exists i, m, t'. rewrite !lookup_insert_ne by eauto. done.
  - intros l' i [[<- <-]|[Hne Hl']]%lookup_insert_Some Hr; [eexists n, _; rewrite lookup_insert_eq; split; [done|by left]|].
    destruct (v_owned0 l' i Hl' Hr) as (m & t' & Hm & Hld). exists m, t'. split; [|done]. rewrite lookup_insert_ne; eauto.
  - intros m t' [[<- <-]|[Hne Hm]]%lookup_insert_Some.
    + split; [by apply (v_threads0 n t)|]. cbn. eexists. rewrite !lookup_insert_eq. done.
    + destruct (v_threads0 m t' Hm) as [H1' H2']. split; [done|]. rewrite Hlock in H2'. apply unlocked_ok in H2'; [|done].
      assert (Hc : forall k l', l' <> l -> calls (sy_cache s) !! k = Some l' -> <[cl_key t := l]> (calls (sy_cache s)) !! k = Some l').
      { intros k l' Hl' Hk. rewrite lookup_insert_ne; [done|]. intros <-. congruence. }
      assert (Hh : forall l' i, heap (sy_cache s) !! l' = Some i -> l' <> l) by (intros l' i Hi' ->; congruence).
      unfold pc_ok in *. cbn. destruct (cl_pc t') as [| | | | | |l'|l'|l' [v|e]| |[]]; try done.
      * by destruct H2' as [[=] _].
      * by destruct H2' as [[=] _].
      * destruct H2' as (i & Hi' & ?). exists i. rewrite lookup_insert_ne by (symmetry; eauto). done.
      * destruct H2' as (i & Hi' & ? & ?). exists i. rewrite lookup_insert_ne by (symmetry; eauto). split_and!; eauto.
      * destruct H2' as (i & Hi' & ? & ? & Hv). exists i. rewrite lookup_insert_ne by (symmetry; eauto). split_and!; eauto.
        intros [[_ <-]|[_ Hk]]%lookup_insert_Some; [by destruct (Hh l i Hi')|]. by apply Hv.
      * destruct H2' as (i & Hi' & ? & ?). exists i. rewrite lookup_insert_ne by (symmetry; eauto). split_and!; eauto.
  - intros m t1 m' t2 l' [[<- <-]|[? Hm]]%lookup_insert_Some [[<- <-]|[? Hm']]%lookup_insert_Some Hl1 Hl2; try done.
    + destruct Hl1 as [[= <-]|[? [=]]]. by destruct (Hin m' t2 l).
    + destruct Hl2 as [[= <-]|[? [=]]]. by destruct (Hin m t1 l).
    + by eapply v_unique0.
  - intros m t1 m' t2 l' [[<- <-]|[? Hm]]%lookup_insert_Some [[<- <-]|[? Hm']]%lookup_insert_Some Hw Hld; [done|done| |by eapply v_wait0].
    destruct Hld as [[= <-]|[? [=]]]. destruct (v_threads0 m t1 Hm) as [_ Ho]. unfold pc_ok in Ho. rewrite Hw in Ho. destruct Ho as (i & Hi' & _). congruence.
Qed.

(** The loader answers. *)
Lemma inv_loaded s n t l v : Inv s -> sy_callers s !! n = Some t -> cl_pc t = Running l -> Inv (at_pc s n t (Loaded l (load_answer s (cl_key t) v))).
Proof.
  intros Hi Hn Hp. pose proof Hi as [].
  assert (Hl : forall m t' l', <[n := mkCaller (cl_key t) (Loaded l (load_answer s (cl_key t) v)) (cl_clean t)]> (sy_callers s) !! m = Some t' -> loading (cl_pc t') l' ->
    exists t'', sy_callers s !! m = Some t'' /\ loading (cl_pc t'') l' /\ cl_key t'' = cl_key t').
  { intros m t' l' [[<- <-]|[_ Hm]]%lookup_insert_Some Hld; [|by exists t']. exists t. destruct Hld as [[=]|[? [= -> _]]]. split_and!; [done|by left|done]. }
  assert (Hr : forall m t' l', sy_callers s !! m = Some t' -> loading (cl_pc t') l' -> exists t'',
    <[n := mkCaller (cl_key t) (Loaded l (load_answer s (cl_key t) v)) (cl_clean t)]> (sy_callers s) !! m = Some t'' /\ loading (cl_pc t'') l' /\ cl_key t'' = cl_key t').
  { intros m t' l' Hm Hld. destruct (decide (n = m)) as [<-|]; [|exists t'; by rewrite lookup_insert_ne]. rewrite Hn in Hm. injection Hm as <-.
    rewrite Hp in Hld. destruct Hld as [[= <-]|[? [=]]]. eexists. rewrite lookup_insert_eq. split_and!; [done|right; by eexists|done]. }
  constructor; cbn; try done.
  - intros k l' Hk. destruct (v_calls0 k l' Hk) as (i & m & t' & ? & ? & ? & Hm & Hld & ?). destruct (Hr m t' l' Hm Hld) as (t'' & ? & ? & ?). exists i, m, t''. split_and!; try done. congruence.
  - intros l' i Hl' Hr'. destruct (v_owned0 l' i Hl' Hr') as (m & t' & Hm & Hld). destruct (Hr m t' l' Hm Hld) as (t'' & ? & ? & _). by exists m, t''.
  - intros m t' [[<- <-]|[_ Hm]]%lookup_insert_Some; [|by apply v_threads0]. destruct (v_threads0 n t Hn) as [H1' H2']. split; [done|].
    unfold pc_ok in *. rewrite Hp in H2'. cbn in *. unfold load_answer. destruct (ev_fault v); [done|]. destruct (sy_source s !! cl_key t) eqn:Es; [|done].
    destruct H2' as (i & ? & ? & ?). exists i. split_and!; try done. intros _. by right.
  - intros m t1 m' t2 l' Hm Hm' Hl1 Hl2. destruct (Hl m t1 l' Hm Hl1) as (? & ? & ? & _). destruct (Hl m' t2 l' Hm' Hl2) as (? & ? & ? & _). by eapply v_unique0.
  - intros m t1 m' t2 l' Hm Hm' Hw Hl2. destruct (Hl m' t2 l' Hm' Hl2) as (t'' & ? & ? & <-). apply lookup_insert_Some in Hm as [[<- <-]|[_ Hm]]; [done|]. by eapply v_wait0.
  - intros m Hm. destruct (v_lock0 m Hm) as (t' & Ht' & Hh). destruct (decide (n = m)) as [<-|]; [|exists t'; by rewrite lookup_insert_ne].
    rewrite Hn in Ht'. injection Ht' as <-. rewrite Hp in Hh. by destruct Hh as [[=]|[=]].
Qed.

(** A call that ends: it is ready, owns no key any more, and everything else stays. *)
Lemma inv_finish s n t l answer c i r : Inv s -> sy_callers s !! n = Some t -> cl_pc t = Loaded l answer ->
  heap c = <[l := i]> (heap (sy_cache s)) -> ca_ready i = true -> order_ok (entries c) (order c) ->
  (forall k e, entries c !! k = Some e -> k ∈ sy_dirty s \/ sy_source s !! k = Some (en_value e)) ->
  (forall k l', calls c !! k = Some l' <-> calls (sy_cache s) !! k = Some l' /\ l' <> l) ->
  (forall k l', calls c !! k = Some l' -> generation c k = generation (sy_cache s) k) ->
  (forall t', cl_key t' = cl_key t -> (cl_clean t' = true -> cl_key t' ∉ sy_dirty s) -> call_fresh (sy_source s) t' i) ->
  r = match outcome i with Some r => Done r | None => Retrying end -> Inv (at_pc (with_cache s c) n t r).
Proof.
  intros Hi Hn Hp Hheap Hready Hord Hent Hcalls Hgen Hfresh Hr. pose proof Hi as [].
  assert (Hl : loading (cl_pc t) l) by (right; by exists answer).
  assert (Hnew : forall l', loading r l' -> False) by (intros l'; subst r; destruct (outcome i); by intros [[=]|[? [=]]]).
  assert (Hoth : forall m t' l', sy_callers s !! m = Some t' -> loading (cl_pc t') l' -> l' <> l -> n <> m).
  { intros m t' l' Hm Hld Hne ->. rewrite Hn in Hm. injection Hm as <-. rewrite Hp in Hld. destruct Hld as [[=]|[? [= <- _]]]. done. }
  assert (Hmine : forall m t', sy_callers s !! m = Some t' -> n <> m -> loading (cl_pc t') l -> False) by (intros m t' Hm Hne Hld; by destruct Hne; eapply v_unique0).
  constructor; cbn; try done.
  - intros k l' Hk. rewrite (Hgen k l' Hk). apply Hcalls in Hk as [Hk Hne]. destruct (v_calls0 k l' Hk) as (i' & m & t' & ? & ? & ? & Hm & Hld & ?). exists i', m, t'.
    rewrite Hheap, !lookup_insert_ne by eauto. done.
  - intros l' i'. rewrite Hheap. intros [[_ <-]|[Hne Hl']]%lookup_insert_Some Hr'; [congruence|]. destruct (v_owned0 l' i' Hl' Hr') as (m & t' & Hm & Hld). exists m, t'.
    rewrite lookup_insert_ne by eauto. done.
  - intros m t' [[<- <-]|[Hne Hm]]%lookup_insert_Some.
    + destruct (v_threads0 n t Hn) as [H1' _]. split; [done|]. unfold pc_ok. cbn. specialize (Hfresh (mkCaller (cl_key t) r (cl_clean t)) eq_refl H1' Hready).
      subst r. unfold outcome in *. destruct (ca_invalidated i); [done|]. specialize (Hfresh eq_refl). destruct (ca_err i); [done|]. by destruct (ca_value i).
    + destruct (v_threads0 m t' Hm) as [H1' H2']. split; [done|]. pose proof (Hmine m t' Hm Hne) as Hmi. pose proof (fun Hw => v_wait0 m t' n t l Hm Hn Hw Hl) as Hwt.
      assert (Hld : forall l', (exists i', heap (sy_cache s) !! l' = Some i' /\ ca_ready i' = false /\ (ca_invalidated i' = false -> calls (sy_cache s) !! cl_key t' = Some l')) -> l' <> l ->
        exists i', heap c !! l' = Some i' /\ ca_ready i' = false /\ (ca_invalidated i' = false -> calls c !! cl_key t' = Some l')).
      { intros l' (i' & ? & ? & Hc) Hl'. exists i'. rewrite Hheap, lookup_insert_ne by done. split_and!; try done. intros Hv. apply Hcalls. by split; [apply Hc|]. }
      unfold pc_ok in *. cbn. destruct (cl_pc t') as [| | | | | |l'|l'|l' [v|e]| |[]] eqn:Ep; try done.
      1,2: destruct H2' as [? Hc]; split; [done|]; destruct (calls c !! cl_key t') eqn:Ec; [|done]; apply Hcalls in Ec as [Ec _]; congruence.
      * destruct H2' as (i' & Hi' & Hf). rewrite Hheap. destruct (decide (l = l')) as [<-|]; [|exists i'; by rewrite lookup_insert_ne].
        exists i. rewrite lookup_insert_eq. split; [done|]. apply Hfresh; [by apply Hwt|done].
      * apply Hld; [done|]. intros ->. apply Hmi. by left.
      * destruct H2' as (i' & ? & ? & Hc & Hv). assert (l' <> l) as Hne' by (intros ->; apply Hmi; right; by eexists).
        destruct (Hld l') as (i'' & ? & ? & ?); [by exists i'|done|]. exists i''. split_and!; try done. intros [Hk _]%Hcalls. by apply Hv.
      * apply Hld; [done|]. intros ->. apply Hmi. right. by eexists.
  - intros m t1 m' t2 l' [[<- <-]|[? Hm]]%lookup_insert_Some; [intros _ Hld; by apply Hnew in Hld|]. intros [[<- <-]|[? Hm']]%lookup_insert_Some; [intros _ Hld; by apply Hnew in Hld|].
    by eapply v_unique0.
  - intros m t1 m' t2 l' Hm [[<- <-]|[? Hm']]%lookup_insert_Some Hw Hld; [by apply Hnew in Hld|]. apply lookup_insert_Some in Hm as [[<- <-]|[_ Hm]]; [|by eapply v_wait0].
    cbn in Hw. subst r. by destruct (outcome i).
  - intros m Hm. destruct (v_lock0 m Hm) as (t' & Ht' & Hh). destruct (decide (n = m)) as [<-|]; [|exists t'; by rewrite lookup_insert_ne].
    rewrite Hn in Ht'. injection Ht' as <-. rewrite Hp in Hh. by destruct Hh as [[=]|[=]].
Qed.
Lemma generation_delete (m : gmap K Z) (k key : K) : k <> key -> default 0 (delete key m !! k) = default 0 (m !! k).
Proof. intros Hne. by rewrite lookup_delete_ne. Qed.
Lemma inv_complete s n t l answer now s' : Inv s -> sy_callers s !! n = Some t -> cl_pc t = Loaded l answer ->
  settle (with_cache s (complete cfg (sy_cache s) (cl_key t) l answer now)) n t l = Some s' -> Inv s'.
Proof.
  intros Hi Hn Hp. pose proof Hi as []. assert (Hl : loading (cl_pc t) l) by (right; by exists answer).
  destruct (v_threads0 n t Hn) as [Hclean Ho]. destruct (loading_ok _ _ _ _ _ _ _ Ho Hl) as (i & Hi' & Hr & Hc).
  assert (Hown : forall k, calls (sy_cache s) !! k = Some l -> k = cl_key t /\ ca_invalidated i = false /\ ca_generation i = generation (sy_cache s) k).
  { intros k Hk. destruct (v_calls0 k l Hk) as (i' & m & t' & Hi2 & Hv & Hg & Hm & Hld & <-). assert (m = n) as -> by by eapply v_unique0.
    rewrite Hn in Hm. injection Hm as <-. rewrite Hi' in Hi2. injection Hi2 as <-. done. }
  unfold complete. rewrite Hi'. case_bool_decide as Ec; cbn [andb].
  - destruct (Hown _ Ec) as (_ & Ev & Eg). rewrite Ev, <- Eg, Z.eqb_refl. cbn [negb andb].
    assert (Hdel : forall (c : cache) k l', calls c = calls (sy_cache s) ->
      delete (cl_key t) (calls c) !! k = Some l' <-> calls (sy_cache s) !! k = Some l' /\ l' <> l).
    { intros c k l' ->. rewrite lookup_delete_Some. split.
      - intros [Hk Hk']. split; [done|]. intros ->. apply Hk. symmetry. by apply Hown.
      - intros [Hk Hk']. split; [|done]. intros <-. rewrite Ec in Hk. congruence. }
    destruct answer as [v|e].
    + destruct (store_calls (sy_cache s) (cl_key t) v now) as (Sc & Sh & St). pose proof (store_order _ (cl_key t) v now v_order0) as So.
      pose proof (store_entries (sy_cache s) (cl_key t) v now) as Se. revert Sc Sh St So Se. generalize (storeLocked cfg (sy_cache s) (cl_key t) v now). intros c Sc Sh St So Se.
      unfold settle; cbn [with_cache sy_cache heap set_calls]; rewrite lookup_insert_eq; intros [= <-].
      eapply inv_finish; [exact Hi|exact Hn|exact Hp|cbn; rewrite Sh; reflexivity|done|exact So| | | | |done]; cbn.
      * intros k e [[-> <-]|He]%Se; [|by eapply v_entries0]. unfold pc_ok in Ho. rewrite Hp in Ho. destruct Ho as (_ & _ & _ & _ & Hv). by apply Hv.
      * intros k l'. by apply Hdel.
      * intros k l' Hk%Hdel; [|done]. unfold generation. cbn. rewrite St. apply generation_delete. intros ->. destruct Hk as [Hk ?]. rewrite Ec in Hk. congruence.
      * intros t' Hk Hcl _ _. cbn. unfold pc_ok in Ho. rewrite Hp in Ho. destruct Ho as (i2 & Hi2 & _ & _ & Hv).
        destruct (ca_err i) eqn:Ee; [done|]. intros Hc'. rewrite Hk in *. by destruct (Hv Ec) as [?|?]; [destruct (Hcl Hc')|].
    + unfold settle; cbn [with_cache sy_cache heap set_calls]; rewrite lookup_insert_eq; intros [= <-].
      eapply inv_finish; [exact Hi|exact Hn|exact Hp|done|done|done|done| | | |done]; cbn.
      * intros k l'. by apply Hdel.
      * intros k l' Hk%Hdel; [|done]. apply generation_delete. intros ->. destruct Hk as [Hk ?]. rewrite Ec in Hk. congruence.
      * by intros t' Hk Hcl _ _.
  - unfold settle. cbn [with_cache sy_cache heap set_calls]. rewrite lookup_insert_eq. intros [= <-].
    eapply inv_finish; [exact Hi|exact Hn|exact Hp|done|done|done|done| | | |done]; cbn.
    + intros k l'. split; [|by intros []]. intros Hk. split; [done|]. intros ->. apply Ec. destruct (Hown k Hk) as [<- _]. done.
    + intros k l' Hk. case_bool_decide as En; [|done]. apply generation_delete. intros ->. congruence.
    + by intros t' Hk Hcl _ [=].
Qed.

(** *** Invalidation and writes *)

Lemma detach_frame (c : cache) key : entries (detach c key) = entries c /\ order (detach c key) = order c.
Proof. unfold detach. by destruct (calls c !! key). Qed.
Lemma detach_calls (c : cache) key : calls (detach c key) = delete key (calls c).
Proof. unfold detach. destruct (calls c !! key) eqn:Ek; [done|]. by rewrite delete_id. Qed.
Lemma inv_detach s key : Inv s -> Inv (with_cache s (detach (sy_cache s) key)).
Proof.
  intros Hi. pose proof Hi as []. unfold detach. destruct (calls (sy_cache s) !! key) as [l0|] eqn:Ek; [|by apply inv_fewer].
  assert (Hheap : forall l i, heap (sy_cache s) !! l = Some i -> alter invalidate l0 (heap (sy_cache s)) !! l = Some (if decide (l0 = l) then invalidate i else i)).
  { intros l i Hl. destruct (decide (l0 = l)) as [<-|]; [by rewrite lookup_alter_eq, Hl|by rewrite lookup_alter_ne]. }
  assert (Hcalls : forall k l, calls (sy_cache s) !! k = Some l -> l0 <> l -> delete key (calls (sy_cache s)) !! k = Some l).
  { intros k l Hk Hne. rewrite lookup_delete_ne; [done|]. intros <-. congruence. }
  assert (Hld : forall t l, (exists i, heap (sy_cache s) !! l = Some i /\ ca_ready i = false /\ (ca_invalidated i = false -> calls (sy_cache s) !! cl_key t = Some l)) ->
    exists i, alter invalidate l0 (heap (sy_cache s)) !! l = Some i /\ ca_ready i = false /\ (ca_invalidated i = false -> delete key (calls (sy_cache s)) !! cl_key (K := K) (V := V) (E := E) t = Some l)).
  { intros t l (i & Hl & Hr & Hc). eexists. split; [by apply Hheap|]. destruct (decide (l0 = l)); [by split|]. split; [done|]. intros Hv. apply Hcalls; [by apply Hc|done]. }
  constructor; cbn; try done.
  - intros k l [Hne Hk]%lookup_delete_Some. destruct (v_calls0 k l Hk) as (i & n & t & Hl & ? & Hg & ? & ? & ?). exists i, n, t. split_and!; try done.
    + rewrite (Hheap l i Hl). destruct (decide (l0 = l)) as [<-|]; [|done]. destruct Hne. by eapply calls_inj.
    + rewrite Hg. unfold generation. cbn. by rewrite lookup_insert_ne.
  - intros l i Hl Hr. destruct (heap (sy_cache s) !! l) as [i'|] eqn:Hl'.
    + rewrite (Hheap l i' Hl') in Hl. injection Hl as <-. eapply v_owned0; [exact Hl'|]. by destruct (decide (l0 = l)).
    + apply (lookup_alter_None invalidate _ l0) in Hl'. congruence.
  - intros n t Hn. destruct (v_threads0 n t Hn) as [H1' H2']. split; [done|]. unfold pc_ok in *. cbn. destruct (cl_pc t) as [| | | | | |l|l|l [v|e]| |[]]; try done.
    1,2: destruct H2' as [? H2']; split; [done|]; rewrite lookup_delete_None; by right.
    + destruct H2' as (i & Hl & Hf). eexists. split; [by apply Hheap|]. destruct (decide (l0 = l)); [|done]. by intros _ [=].
    + by apply Hld.
    + destruct H2' as (i & ? & ? & ? & Hv). destruct (Hld t l) as (i' & ? & ? & ?); [by exists i|]. exists i'. split_and!; try done. intros [_ Hk]%lookup_delete_Some. by apply Hv.
    + by apply Hld.
Qed.
(** A key without an entry or a call may be called clean. *)
Lemma inv_clean s d : Inv s -> d ⊆ sy_dirty s -> (forall k, k ∈ sy_dirty s -> k ∉ d -> entries (sy_cache s) !! k = None /\ calls (sy_cache s) !! k = None) ->
  Inv (with_dirty s d).
Proof.
  intros [] Hsub Hgone. constructor; cbn; try done.
  - intros k e He. destruct (v_entries0 k e He) as [Hd|]; [|by right]. destruct (decide (k ∈ d)); [by left|]. destruct (Hgone k Hd) as [? _]; [done|congruence].
  - intros n t Hn. destruct (v_threads0 n t Hn) as [H1' H2']. split; [cbn; set_solver|]. unfold pc_ok in *. cbn. destruct (cl_pc t) as [| | | | | | | |l [v|e]| |[]]; try done.
    destruct H2' as (i & ? & ? & ? & Hv). exists i. split_and!; try done. intros Hk. destruct (Hv Hk) as [Hd|]; [|by right].
    destruct (decide (cl_key t ∈ d)); [by left|]. destruct (Hgone (cl_key t) Hd) as [_ ?]; [done|congruence].
Qed.
Lemma forget_gone (c : cache) key : entries (forget c key) !! key = None.
Proof. unfold forget. destruct (entries c !! key) eqn:Ek; [apply lookup_delete_eq|done]. Qed.
Lemma inv_delete s key : Inv s -> Inv (with_dirty (with_cache s (Delete (sy_cache s) key)) (sy_dirty s ∖ {[key]})).
Proof.
  intros Hi. pose proof (inv_detach s key Hi) as Hd. assert (Hf : Inv (with_cache s (Delete (sy_cache s) key))).
  { refine (inv_fewer (with_cache s (detach (sy_cache s) key)) _ Hd _ _ _); [apply forget_calls|apply forget_order; apply Hd|apply forget_entries]. }
  apply (inv_clean (with_cache s (Delete (sy_cache s) key))); cbn; [done|set_solver|]. intros k Hk Hn. destruct (decide (k = key)) as [->|]; [|set_solver]. split; [apply forget_gone|].
  unfold Delete. destruct (forget_calls (detach (sy_cache s) key) key) as (-> & _). rewrite detach_calls. apply lookup_delete_eq.
Qed.
Lemma inv_clear s : Inv s -> Inv (with_dirty (with_cache s (Clear (sy_cache s))) ∅).
Proof.
  intros Hi. set (ks := (map_to_list (calls (sy_cache s))).*1).
  assert (Hd : forall l s, Inv s -> Inv (with_cache s (fold_left detach l (sy_cache s))) /\ forall k, calls (fold_left detach l (sy_cache s)) !! k = if decide (k ∈ l) then None else calls (sy_cache s) !! k).
  { induction l as [|x l IH]; cbn; [intros s' Hs; split; [by destruct s'|done]|]. intros s' Hs. destruct (IH _ (inv_detach s' x Hs)) as [I1 I2]. cbn in I1, I2. split; [exact I1|].
    intros k. rewrite I2, detach_calls. destruct (decide (k ∈ l)), (decide (k ∈ x :: l)) as [Hn|Hn]; try done; rewrite elem_of_cons in Hn.
    - naive_solver.
    - assert (k = x) as -> by naive_solver. apply lookup_delete_eq.
    - rewrite lookup_delete_ne; [done|]. naive_solver. }
  destruct (Hd ks s Hi) as [Hf Hc].
  assert (Hs : Inv (with_cache s (Clear (sy_cache s)))).
  { refine (inv_fewer (with_cache s (fold_left detach ks (sy_cache s))) _ Hf _ _ _); [done| |done]. split; cbn; [apply NoDup_nil_2| |lia]. intros k. rewrite lookup_empty, elem_of_nil. split; [done|by intros []]. }
  apply (inv_clean (with_cache s (Clear (sy_cache s)))); cbn; [done|set_solver|]. intros k _ _. split; [done|]. rewrite Hc. destruct (decide (k ∈ ks)) as [|Hn]; [done|].
  destruct (calls (sy_cache s) !! k) as [l|] eqn:Ek; [|done]. destruct Hn. apply list_elem_of_fmap. exists (k, l). split; [done|]. by apply elem_of_map_to_list.
Qed.
Lemma dirty_new (key : K) (d : gset K) : key ∈ {[key]} ∪ d. Proof. by apply elem_of_union_l, elem_of_singleton. Qed.
Lemma inv_write s key value : Inv s -> Inv (write s key value).
Proof.
  intros []. assert (Hsp : forall n t, (spoil key <$> sy_callers s) !! n = Some t -> exists t', sy_callers s !! n = Some t' /\ cl_key t = cl_key t' /\ cl_pc t = cl_pc t' /\
      (cl_clean t = true -> cl_clean t' = true /\ cl_key t <> key)).
  { intros n t. rewrite lookup_fmap. destruct (sy_callers s !! n) as [t'|]; [|done]. cbn. intros [= <-]. exists t'. unfold spoil. case_bool_decide; cbn; naive_solver. }
  assert (Hps : forall n t, sy_callers s !! n = Some t -> exists t', (spoil key <$> sy_callers s) !! n = Some t' /\ cl_key t' = cl_key t /\ cl_pc t' = cl_pc t).
  { intros n t Hn. exists (spoil key t). rewrite lookup_fmap, Hn. unfold spoil. cbn. by case_bool_decide. }
  assert (Hsrc : forall k, k <> key -> partial_alter (fun _ => value) key (sy_source s) !! k = sy_source s !! k) by (intros k Hk; by rewrite lookup_partial_alter_ne).
  constructor; cbn; try done.
  - intros k e He. destruct (decide (k = key)) as [->|]; [left; by apply dirty_new|]. rewrite Hsrc by done. destruct (v_entries0 k e He); [left; by apply elem_of_union_r|by right].
  - intros k l Hk. destruct (v_calls0 k l Hk) as (i & n & t & ? & ? & ? & Hn & Hl & <-). destruct (Hps n t Hn) as (t' & ? & ? & Hp). exists i, n, t'. by rewrite Hp.
  - intros l i Hl Hr. destruct (v_owned0 l i Hl Hr) as (n & t & Hn & Hld). destruct (Hps n t Hn) as (t' & ? & _ & Hp). exists n, t'. by rewrite Hp.
  - intros n t Hn. destruct (Hsp n t Hn) as (t' & Hn' & Hk & Hp & Hc). destruct (v_threads0 n t' Hn') as [H1' H2']. split.
    { cbn. intros Hcl. destruct (Hc Hcl) as [Hc1 Hc2]. apply not_elem_of_union. rewrite elem_of_singleton, Hk in *. split; [done|by apply H1']. }
   
    unfold pc_ok, call_fresh in *. rewrite Hp, Hk in *. cbn. destruct (cl_pc t') as [| | | | | |l|l|l [v|e]| |[]]; try done.
    + destruct H2' as (i & Hl & Hf). exists i. split; [done|]. intros H3' H4'. specialize (Hf H3' H4'). destruct (ca_err i); [done|]. destruct (ca_value i); [|done].
      intros [Hcl Hne]%Hc. rewrite Hsrc by done. by apply Hf.
    + destruct H2' as (i & ? & ? & ? & Hv). exists i. split_and!; try done. intros [?|?]%Hv; [left; by apply elem_of_union_r|]. destruct (decide (cl_key t' = key)) as [->|]; [left; by apply dirty_new|].
      right. by rewrite Hsrc.
    + intros [Hcl Hne]%Hc. rewrite Hsrc by done. by apply H2'.
  - intros n t n' t' l Hn Hn'. destruct (Hsp n t Hn) as (t1 & ? & _ & -> & _), (Hsp n' t' Hn') as (t2 & ? & _ & -> & _). by eapply v_unique0.
  - intros n t n' t' l Hn Hn'. destruct (Hsp n t Hn) as (t1 & ? & -> & -> & _), (Hsp n' t' Hn') as (t2 & ? & -> & -> & _). by eapply v_wait0.
  - intros n Hl. destruct (v_lock0 n Hl) as (t & Hn & Hh). destruct (Hps n t Hn) as (t' & ? & _ & Hp). exists t'. by rewrite Hp.
Qed.
Lemma inv_set s key v now : Inv s -> Inv (write (with_cache s (Set_ cfg (sy_cache s) key v now)) key (sy_source s !! key)).
Proof.
  intros Hi. pose proof (inv_detach _ key (inv_write s key (sy_source s !! key) Hi)) as Hd. cbn in Hd.
  refine (inv_entries (with_cache (write s key (sy_source s !! key)) (detach (sy_cache s) key)) _ Hd _ _ _); [apply store_calls|apply store_order; apply Hd|].
  intros k e [[-> _]|He]%store_entries; [left; apply dirty_new|]. by apply (v_entries _ Hd).
Qed.

(** *** Every move *)

Lemma look_fresh s key now x : Inv s -> key ∉ sy_dirty s -> look (sy_cache s) key now = Found x -> sy_source s !! key = Some x.
Proof.
  intros Hi Hk. unfold look. destruct (entries (sy_cache s) !! key) as [e|] eqn:Ee; [|done]. destruct (expired now e); [done|]. intros [= <-].
  by destruct (v_entries s Hi key e Ee).
Qed.
Ltac idle := by intros ? [[=]|[? [=]]].
Lemma inv_idle s n t pc : Inv s -> sy_callers s !! n = Some t -> (forall l, loading (cl_pc t) l -> False) -> ~ holds (cl_pc t) -> (forall l, loading pc l -> False) ->
  (forall l, pc <> Waiting l) -> pc_ok (sy_cache s) (sy_lock s) (sy_source s) (sy_dirty s) n (mkCaller (cl_key t) pc (cl_clean t)) -> Inv (at_pc s n t pc).
Proof.
  intros Hi Hn Hl Hh Hl' Hw Ho. apply inv_pc; try done; [by intros l ?%Hw|]. intros Hlock. destruct (v_lock s Hi n Hlock) as (t' & Ht' & Hh'). congruence.
Qed.
Lemma inv_caller s n t v s' : Inv s -> sy_callers s !! n = Some t -> caller_step cfg s n t v = Some s' -> Inv s'.
Proof.
  intros Hi Hn. destruct (v_threads s Hi n t Hn) as [Hcl Ho]. unfold caller_step. destruct (cl_pc t) as [| | | | | |l|l|l a| |r] eqn:Ep.
  - intros [= <-]. destruct (look _ _ _) as [x| |] eqn:El.
    + apply inv_idle; [apply inv_fewer; [done|done|apply Hi|done]|done|rewrite Ep; idle|rewrite Ep; by intros [[=]|[=]]|idle|done|]. intros Hc. exact (look_fresh s _ _ x Hi (Hcl Hc) El).
    + apply inv_idle; [done|done|rewrite Ep; idle|rewrite Ep; by intros [[=]|[=]]|idle|done|done].
    + apply inv_idle; [done|done|rewrite Ep; idle|rewrite Ep; by intros [[=]|[=]]|idle|done|done].
  - intros [= <-]. apply inv_idle; [|done|rewrite Ep; idle|rewrite Ep; by intros [[=]|[=]]|idle|done|done].
    apply inv_fewer; [done|apply purge_calls|apply purge_order, Hi|apply purge_entries].
  - intros [= <-]. destruct (cf_loader cfg); (apply inv_idle; [apply inv_fewer; [done|done|apply Hi|done]|done|rewrite Ep; idle|rewrite Ep; by intros [[=]|[=]]|idle|done|done]).
  - unfold free. destruct (sy_lock s) eqn:Elock; [done|]. cbn [negb]. intros [= <-]. destruct (calls (sy_cache s) !! cl_key t) as [l|] eqn:Ec; [|by apply inv_acquire].
    apply inv_pc; [done|done|rewrite Ep; idle|idle| |by intros ? [= <-]|by rewrite Elock]. cbn.
    destruct (v_calls s Hi _ _ Ec) as (i & m & t' & Hl & _ & _ & Hm & Hld & _). exists i. split; [done|].
    destruct (v_threads s Hi m t' Hm) as [_ Ho']. destruct (loading_ok _ _ _ _ _ _ _ Ho' Hld) as (i' & Hi' & Hr & _). intros Hr'. congruence.
  - intros [= <-]. destruct (look _ _ _) as [x| |] eqn:El.
    + apply inv_release; [done..|]. intros Hc. exact (look_fresh s _ _ x Hi (Hcl Hc) El).
    + apply inv_register; [done|done|by left].
    + apply inv_pc; [done|done|rewrite Ep; idle|idle| |done|by right]. revert Ho. unfold pc_ok. by rewrite Ep.
  - intros [= <-]. apply inv_register; [|done|by right]. apply inv_fewer; [done|apply purge_calls|apply purge_order, Hi|apply purge_entries].
  - destruct (ev_canceled v).
    { intros [= <-]. apply inv_idle; [done|done|rewrite Ep; idle|rewrite Ep; by intros [[=]|[=]]|idle|done|done]. }
    unfold pc_ok in Ho. rewrite Ep in Ho. destruct Ho as (i & Hl & Hf). unfold settle. rewrite Hl. destruct (ca_ready i) eqn:Er; [|done]. intros [= <-]. specialize (Hf Er).
    unfold outcome. destruct (ca_invalidated i); [apply inv_idle; [done|done|rewrite Ep; idle|rewrite Ep; by intros [[=]|[=]]|idle|done|done]|].
    specialize (Hf eq_refl). destruct (ca_err i); [|destruct (ca_value i); [|done]]; (apply inv_idle; [done|done|rewrite Ep; idle|rewrite Ep; by intros [[=]|[=]]|idle|done|done]).
  - intros [= <-]. by apply inv_loaded.
  - destruct (negb _); [done|]. by apply inv_complete with (answer := a).
  - intros [= <-]. destruct (ev_canceled v); (apply inv_idle; [done|done|rewrite Ep; idle|rewrite Ep; by intros [[=]|[=]]|idle|done|done]).
  - done.
Qed.
Lemma inv_start s n key : Inv s -> sy_callers s !! n = None ->
  Inv (mkSystem (sy_cache s) (sy_lock s) (<[n := mkCaller key Reading (bool_decide (key ∉ sy_dirty s))]> (sy_callers s)) (sy_source s) (sy_dirty s)).
Proof.
  intros [] Hn. assert (Hne : forall m t, sy_callers s !! m = Some t -> n <> m) by (intros m t Hm ->; congruence). constructor; cbn; try done.
  - intros k l Hk. destruct (v_calls0 k l Hk) as (i & m & t & ? & ? & ? & Hm & ? & ?). exists i, m, t. rewrite lookup_insert_ne by eauto. done.
  - intros l i Hl Hr. destruct (v_owned0 l i Hl Hr) as (m & t & Hm & ?). exists m, t. rewrite lookup_insert_ne by eauto. done.
  - intros m t [[<- <-]|[_ Hm]]%lookup_insert_Some; [|by apply v_threads0]. split; [cbn|done]. by intros ?%bool_decide_eq_true.
  - intros m t m' t' l [[<- <-]|[_ Hm]]%lookup_insert_Some; [by intros _ [[=]|[? [=]]]|]. intros [[<- <-]|[_ Hm']]%lookup_insert_Some; [by intros _ [[=]|[? [=]]]|]. by eapply v_unique0.
  - intros m t m' t' l [[<- <-]|[_ Hm]]%lookup_insert_Some; [done|]. intros [[<- <-]|[_ Hm']]%lookup_insert_Some; [by intros _ [[=]|[? [=]]]|]. by eapply v_wait0.
  - intros m Hm. destruct (v_lock0 m Hm) as (t & Ht & ?). exists t. rewrite lookup_insert_ne by eauto. done.
Qed.
Lemma inv_move s m s' : Inv s -> move cfg s m = Some s' -> Inv s'.
Proof.
  intros Hi. destruct m as [n key|n v|key value now|key| |now|key value]; cbn.
  - destruct (sy_callers s !! n) eqn:Hn; [done|]. intros [= <-]. by apply inv_start.
  - destruct (sy_callers s !! n) as [t|] eqn:Hn; [|done]. cbn. by apply inv_caller.
  - destruct (negb _); [done|]. intros [= <-]. by apply inv_set.
  - destruct (negb _); [done|]. intros [= <-]. by apply inv_delete.
  - destruct (negb _); [done|]. intros [= <-]. by apply inv_clear.
  - intros [= <-]. apply inv_fewer; [done|apply sweep_calls|apply sweep_order, Hi|apply sweep_entries].
  - intros [= <-]. by apply inv_write.
Qed.
Lemma inv_initial source : Inv (initial source).
Proof.
  constructor; cbn; try done. split; [apply NoDup_nil_2| |cbn; lia]. intros k. cbn. rewrite lookup_empty, elem_of_nil. split; [done|by intros []].
Qed.
Lemma inv_moves source ms s : moves cfg (initial source) ms = Some s -> Inv s.
Proof.
  unfold moves. generalize (inv_initial source). generalize (initial (E := E) source). induction ms as [|m ms IH]; cbn; intros s0 Hi; [by intros [= <-]|].
  destruct (move cfg s0 m) as [s1|] eqn:Em; [|clear; by induction ms]. apply IH. by eapply inv_move.
Qed.

(** C18: the cache serves nothing that was invalidated.  Callers, writers of the
    source, invalidations and sweeps may interleave in any way.  A [Get] whose
    key was clean when it started and was not written while it ran returns the
    source's current value, whether it found it, loaded it, or joined the
    loader of another caller; an entry of a clean key is the source's value;
    the cache keeps its size limit; and a caller only waits for a load that is
    finished or that some caller is running. *)
Theorem cache_fresh source ms (s : system) : moves cfg (initial source) ms = Some s ->
  (forall n t v, sy_callers s !! n = Some t -> cl_pc t = Done (Hit v) -> cl_clean t = true -> sy_source s !! cl_key t = Some v) /\
  (forall key now v, key ∉ sy_dirty s -> look (sy_cache s) key now = Found v -> sy_source s !! key = Some v) /\
  (0 < cf_maxSize cfg -> Len (sy_cache s) <= cf_maxSize cfg) /\
  (forall n t l, sy_callers s !! n = Some t -> cl_pc t = Waiting l ->
     exists i, heap (sy_cache s) !! l = Some i /\ (ca_ready i = true \/ exists m t', sy_callers s !! m = Some t' /\ loading (cl_pc t') l)).
Proof.
  intros Hi%inv_moves. split_and!.
  - intros n t v Hn Hp Hc. destruct (v_threads s Hi n t Hn) as [_ Ho]. unfold pc_ok in Ho. rewrite Hp in Ho. by apply Ho.
  - intros key now v Hk Hl. by eapply look_fresh.
  - intros Hm. destruct (v_order s Hi) as [N X B]. specialize (B Hm). unfold Len. rewrite <- size_dom.
    assert (Hd : dom (entries (sy_cache s)) = list_to_set (order (sy_cache s))) by (apply set_eq; intros k; by rewrite elem_of_dom, elem_of_list_to_set, X).
    rewrite Hd, size_list_to_set by done. done.
  - intros n t l Hn Hp. destruct (v_threads s Hi n t Hn) as [_ Ho]. unfold pc_ok in Ho. rewrite Hp in Ho. destruct Ho as (i & Hl & _). exists i. split; [done|].
    destruct (ca_ready i) eqn:Er; [by left|right]. by eapply v_owned.
Qed.
End Props.

(** A reader loads a value, a write and its invalidation overtake it, a second
    reader starts then: the first load is thrown away and both read the new value. *)
Definition demo_config : config := mkConfig 60 true 2.
Definition demo_env (now : Z) : Env unit := mkEnv now None tt false.
Definition demo_moves : list (Move Z Z unit) :=
  let go n := MStep n (demo_env 5) in
  [MGet 1%nat 7; go 1%nat; go 1%nat; go 1%nat; go 1%nat; go 1%nat; MWrite 7 (Some 200); MDelete 7; MGet 2%nat 7; go 2%nat; go 2%nat; go 2%nat; go 2%nat; go 1%nat; go 2%nat; go 2%nat;
   go 1%nat; go 1%nat; go 1%nat].
Lemma cache_fresh_witness : exists s, moves demo_config (initial {[7 := 100]}) demo_moves = Some s /\
  (forall t v, sy_callers s !! 2%nat = Some t -> cl_pc t = Done (Hit v) -> cl_clean t = true -> sy_source s !! cl_key t = Some v) /\
  (cl_pc <$> sy_callers s !! 1%nat) = Some (Done (Hit 200)) /\ (cl_pc <$> sy_callers s !! 2%nat) = Some (Done (Hit 200)) /\ (cl_clean <$> sy_callers s !! 2%nat) = Some true.
Proof.
  destruct (moves demo_config (initial {[7 := 100]}) demo_moves) as [s|] eqn:Es; [|vm_compute in Es; discriminate Es].
  exists s. split; [reflexivity|]. split; [intros t v; apply (cache_fresh demo_config {[7 := 100]} demo_moves s Es)|].
  vm_compute in Es. injection Es as <-. vm_compute. split; [reflexivity|]. split; reflexivity.
Defined.
End CacheProps.
