(* ===== verification/Password.v ===== *)
(** * Password: password hashes, tokens and codes ([auth/password.go], [auth/token.go])

    The PHC text of an argon2id hash, its encoder and its parser, with
    [encoding/base64] and [fmt.Sscanf] as far as they are used.  Argon2 and
    SHA-256 are arguments; random bytes are what the reader gave, [None] when it
    failed.  Text is ASCII. *)

From S2P Require Import Prelude Strconv Support Identity Snapshot.
From stdpp Require Import base strings list pretty.
From Stdlib Require Import ZArith Lia Ascii.
#[local] Open Scope string_scope.
#[local] Open Scope list_scope.
#[local] Open Scope Z_scope.

Module Password.
Import Strconv Etag Identity.

Inductive PasswordError := ErrHashFormat | ErrHashVersion | ErrHashParameters | ErrHashSalt | ErrHashKey | ErrRandomSource.

Definition argonSaltLen : Z := 16.
Definition argonKeyLen : Z := 32.
Definition argonTime : Z := 3.
Definition argonMemory : Z := 64 * 1024.
Definition argonThreads : Z := 2.
(** [argon2.Version], 0x13. *)
Definition argonVersion : Z := 19.
Definition u32 (x : Z) : Z := x mod 2 ^ 32.
Definition u8 (x : Z) : Z := x mod 2 ^ 8.

(** ** [base64.RawStdEncoding] *)

Definition code (c : ascii) : Z := Z.of_nat (nat_of_ascii c).
Definition char (n : Z) : ascii := ascii_of_nat (Z.to_nat n).
Definition b64_char (n : Z) : ascii :=
  if n <? 26 then char (65 + n) else if n <? 52 then char (97 + (n - 26)) else if n <? 62 then char (48 + (n - 52)) else if n =? 62 then "+"%char else "/"%char.
Definition b64_value (c : ascii) : option Z :=
  let n := code c in
  if is_upper c then Some (n - 65) else if is_lower c then Some (n - 97 + 26) else if is_digit c then Some (n - 48 + 52)
  else if bool_decide (c = "+"%char) then Some 62 else if bool_decide (c = "/"%char) then Some 63 else None.
Fixpoint sextets (b : bytes) : list Z :=
  match b with
  | x :: y :: z :: b => [x / 4; x mod 4 * 16 + y / 16; y mod 16 * 4 + z / 64; z mod 64] ++ sextets b
  | [x; y] => [x / 4; x mod 4 * 16 + y / 16; y mod 16 * 4]
  | [x] => [x / 4; x mod 4 * 16]
  | [] => []
  end.
(** The bits beyond the last byte are not checked; a single digit is an error. *)
Fixpoint octets (l : list Z) : option bytes :=
  match l with
  | a :: b :: c :: d :: l => r ← octets l; Some ([a * 4 + b / 16; b mod 16 * 16 + c / 4; c mod 4 * 64 + d] ++ r)
  | [a; b; c] => Some [a * 4 + b / 16; b mod 16 * 16 + c / 4]
  | [a; b] => Some [a * 4 + b / 16]
  | [_] => None
  | [] => Some []
  end.
Definition EncodeToString (b : bytes) : string := String.string_of_list_ascii (b64_char <$> sextets b).
(** Line ends are skipped. *)
Definition line_end (c : ascii) : bool := bool_decide (code c = 10) || bool_decide (code c = 13).
Definition DecodeString (s : string) : option bytes := mapM b64_value (filter (fun c => line_end c = false) (chars s)) ≫= octets.

(** ** Scanning *)

(** [strings.Split(s, c)]. *)
Fixpoint split_on (c : ascii) (l : list ascii) : list (list ascii) :=
  match l with
  | [] => [[]]
  | x :: l => match split_on c l with
              | part :: parts => if bool_decide (x = c) then [] :: part :: parts else (x :: part) :: parts
              | [] => [[x]]
              end
  end.
Definition Split (s : string) (c : ascii) : list string := String.string_of_list_ascii <$> split_on c (chars s).

(** A literal of a format; a line end never matches. *)
Fixpoint literal (f s : string) : option string :=
  match f, s with
  | EmptyString, _ => Some s
  | String a f, String b s => if bool_decide (a = b) then literal f s else None
  | String _ _, EmptyString => None
  end.
(** Spaces before a number; a newline is an error. *)
Fixpoint skip_space (s : string) : option string :=
  match s with
  | String c r => if bool_decide (code c ∈ [9; 11; 12; 13; 32]) then skip_space r else if code c =? 10 then None else Some s
  | EmptyString => Some s
  end.
Fixpoint span_digits (s : string) : string * string :=
  match s with
  | String c r => match digit c with Some _ => let '(d, r) := span_digits r in (String c d, r) | None => (EmptyString, s) end
  | EmptyString => (EmptyString, EmptyString)
  end.
(** ["%d"] into an [int]: the number and what follows it. *)
Definition scan_int (s : string) : option (Z * string) :=
  s ← skip_space s;
  let '(sign, s) := match s with String c r => if bool_decide (c = "-"%char) || bool_decide (c = "+"%char) then (String c EmptyString, r) else (EmptyString, s)
                    | EmptyString => (EmptyString, s) end in
  let '(d, r) := span_digits s in
  n ← ParseInt (sign +:+ d); Some (n, r).
(** [Sscanf(s, "v=%d", ...)] and [Sscanf(s, "m=%d,t=%d,p=%d", ...)]; input may remain. *)
Definition scan_version (s : string) : option Z := '(n, _) ← literal "v=" s ≫= scan_int; Some n.
Definition scan_parameters (s : string) : option (Z * Z * Z) :=
  '(m, s) ← literal "m=" s ≫= scan_int; '(t, s) ← literal ",t=" s ≫= scan_int; '(p, _) ← literal ",p=" s ≫= scan_int; Some (m, t, p).

(** ** Hashes *)

Section Hash.
(** [argon2.IDKey]: password, salt, time, memory, threads and key length. *)
Context (IDKey : string -> bytes -> Z -> Z -> Z -> Z -> bytes).

Definition phc (salt hash : bytes) : string :=
  "$argon2id$v=" +:+ pretty argonVersion +:+ "$m=" +:+ pretty argonMemory +:+ ",t=" +:+ pretty argonTime +:+ ",p=" +:+ pretty argonThreads +:+ "$" +:+
  EncodeToString salt +:+ "$" +:+ EncodeToString hash.
Definition HashPassword (password : string) (salt : option bytes) : result string PasswordError :=
  match salt with
  | None => Err ErrRandomSource
  | Some salt => Ok (phc salt (IDKey password salt argonTime argonMemory argonThreads argonKeyLen))
  end.
(** [None] is the panic of [argon2.IDKey] on a zero time or parallelism. *)
Definition VerifyPassword (password encoded : string) : option (result bool PasswordError) :=
  match Split encoded "$" with
  | [_; algorithm; version; parameters; salt; hash] =>
      if negb (bool_decide (algorithm = "argon2id")) then Some (Err ErrHashFormat)
      else if negb (bool_decide (scan_version version = Some argonVersion)) then Some (Err ErrHashVersion)
      else match scan_parameters parameters with
      | None => Some (Err ErrHashParameters)
      | Some (memory, timeCost, threads) =>
          match DecodeString salt with
          | None => Some (Err ErrHashSalt)
          | Some salt =>
              match DecodeString hash with
              | None => Some (Err ErrHashKey)
              | Some want =>
                  if (u32 timeCost <? 1) || (u8 threads <? 1) then None
                  else Some (Ok (bool_decide (IDKey password salt (u32 timeCost) (u32 memory) (u8 threads) (u32 (Z.of_nat (length want))) = want)))
              end
          end
      end
  | _ => Some (Err ErrHashFormat)
  end.
Definition dummyPasswordHash : string := "$argon2id$v=19$m=65536,t=3,p=2$a2hiWpgd32hQmnpfbEbpug$4824/H6vT+YvIUwnGiSUUXThRg3P6gj1/xCJV2517bQ".
End Hash.

(** ** Tokens and codes *)

Definition randomHex (drawn : option bytes) : result string PasswordError := match drawn with Some b => Ok (Snapshot.hex_bytes b) | None => Err ErrRandomSource end.
Definition sha256Hex (sha256 : string -> bytes) (s : string) : string := Snapshot.hex_bytes (sha256 s).

Definition inviteAlphabet : string := "0123456789ABCDEFGHIJKLMNOPQRSTUVWXYZ".
(** Eight draws below the length of the alphabet. *)
Definition generateInviteCode (drawn : nat -> option Z) : result string PasswordError :=
  match mapM drawn (seq 0 8) with
  | Some l => Ok (String.string_of_list_ascii ((fun n => default "0"%char (chars inviteAlphabet !! Z.to_nat n)) <$> l))
  | None => Err ErrRandomSource
  end.
(** [base32.StdEncoding] without padding, of five bytes at a time. *)
Definition b32_char (n : Z) : ascii := if n <? 26 then char (65 + n) else char (50 + (n - 26)).
Fixpoint quintets (b : bytes) : list Z :=
  match b with
  | v :: w :: x :: y :: z :: b =>
      [v / 8; v mod 8 * 4 + w / 64; w / 2 mod 32; w mod 2 * 16 + x / 16; x mod 16 * 2 + y / 128; y / 4 mod 32; y mod 4 * 8 + z / 32; z mod 32] ++ quintets b
  | _ => []
  end.
(** Ten bytes are two groups. *)
Definition generateActivationCode (drawn : option bytes) : result string PasswordError :=
  match drawn with Some b => Ok (String.string_of_list_ascii (b32_char <$> quintets b)) | None => Err ErrRandomSource end.
(** The Unicode functions of [strings]. *)
Definition normalizeCode (ToUpper TrimSpace : string -> string) (code : string) : string := ToUpper (TrimSpace code).

(** ** Verification is exact *)

Lemma b64_char_value n : 0 <= n < 64 -> b64_value (b64_char n) = Some n /\ line_end (b64_char n) = false /\ b64_char n <> "$"%char.
Proof.
  intros Hn. assert (Ha : forallb (fun n => bool_decide (b64_value (b64_char n) = Some n) && negb (line_end (b64_char n)) && negb (bool_decide (b64_char n = "$"%char)))
    (Z.of_nat <$> seq 0 64) = true) by (vm_compute; reflexivity).
  rewrite forallb_forall in Ha. specialize (Ha n). rewrite <- list_elem_of_In in Ha. rewrite list_elem_of_fmap in Ha.
  assert (Hx : exists x : nat, n = Z.of_nat x /\ x ∈ seq 0 64) by (exists (Z.to_nat n); split; [lia|apply elem_of_seq; lia]).
  destruct (andb_prop _ _ (Ha Hx)) as [[H1 H2]%andb_prop H3].
  apply bool_decide_eq_true in H1. apply negb_true_iff in H2, H3. by apply bool_decide_eq_false in H3.
Qed.
Lemma sextets_spec b : Forall is_byte b -> Forall (fun n => 0 <= n < 64) (sextets b) /\ octets (sextets b) = Some b.
Proof.
  revert b. fix IH 1. intros [|x [|y [|z b]]] Hb; cbn [sextets octets app].
  - done.
  - apply Forall_cons in Hb as [Hx _]. unfold is_byte in *. split; [repeat constructor; Z.to_euclidean_division_equations; lia|].
    do 2 f_equal. Z.to_euclidean_division_equations; lia.
  - apply Forall_cons in Hb as [Hx [Hy _]%Forall_cons]. unfold is_byte in *. split; [repeat constructor; Z.to_euclidean_division_equations; lia|].
    do 2 f_equal; [|f_equal]; Z.to_euclidean_division_equations; lia.
  - apply Forall_cons in Hb as [Hx [Hy [Hz Hb]%Forall_cons]%Forall_cons]. destruct (IH b Hb) as [I1 I2]. unfold is_byte in *.
    split; [repeat constructor; [..|exact I1]; Z.to_euclidean_division_equations; lia|]. rewrite I2. cbn.
    do 2 f_equal; [|f_equal; [|f_equal]]; Z.to_euclidean_division_equations; lia.
Qed.

Lemma text_app a b : chars (a +:+ b) = chars a ++ chars b.
Proof. induction a as [|c a IH]; [done|]. change (c :: chars (a +:+ b) = c :: (chars a ++ chars b)). by rewrite IH. Qed.
Lemma chars_text l : chars (String.string_of_list_ascii l) = l.
Proof. apply String.list_ascii_of_string_of_list_ascii. Qed.
Lemma text_chars s : String.string_of_list_ascii (chars s) = s.
Proof. apply String.string_of_list_ascii_of_string. Qed.
Lemma split_on_last c l : c ∉ l -> split_on c l = [l].
Proof. induction l as [|x l IH]; [done|]. intros [Hx Hl]%not_elem_of_cons. cbn. rewrite IH by done. by rewrite bool_decide_eq_false_2. Qed.
Lemma split_on_cons c a l : c ∉ a -> split_on c (a ++ c :: l) = a :: split_on c l.
Proof.
  induction a as [|x a IH]; cbn; intros Ha.
  - destruct (split_on c l) eqn:E; [by destruct l as [|y l]; cbn in E; [|destruct (split_on c l); [|destruct (bool_decide _)]]|]. by rewrite bool_decide_eq_true_2.
  - apply not_elem_of_cons in Ha as [Hx Ha]. rewrite IH by done. by rewrite bool_decide_eq_false_2.
Qed.
Lemma encoded_chars b : Forall is_byte b -> "$"%char ∉ chars (EncodeToString b) /\ DecodeString (EncodeToString b) = Some b.
Proof.
  intros Hb. destruct (sextets_spec b Hb) as [Hs Ho]. unfold DecodeString, EncodeToString. rewrite chars_text. split.
  - intros (n & E & Hn)%list_elem_of_fmap. rewrite Forall_forall in Hs. destruct (b64_char_value n (Hs n Hn)) as (_ & _ & ?). congruence.
  - rewrite <- Ho. generalize (sextets b) Hs. clear. intros l Hl.
    assert (Hm : mapM b64_value (filter (fun c => line_end c = false) (b64_char <$> l)) = Some l); [|by rewrite Hm].
    induction Hl as [|n l Hn Hl IH]; [done|]. destruct (b64_char_value n Hn) as (H1 & H2 & _). rewrite fmap_cons, filter_cons_True by done. revert IH. generalize (filter (fun c => line_end c = false) (b64_char <$> l)).
    intros r IH. cbn. rewrite H1. cbn. by rewrite IH.
Qed.
Lemma phc_split salt hash : Forall is_byte salt -> Forall is_byte hash ->
  Split (phc salt hash) "$" = [""; "argon2id"; "v=19"; "m=65536,t=3,p=2"; EncodeToString salt; EncodeToString hash].
Proof.
  intros Hs Hh. destruct (encoded_chars salt Hs) as [Ns _], (encoded_chars hash Hh) as [Nh _]. unfold Split, phc.
  set (p := "$argon2id$v=" +:+ _). assert (Hp : chars p = chars "" ++ "$"%char :: chars "argon2id" ++ "$"%char :: chars "v=19" ++ "$"%char :: chars "m=65536,t=3,p=2" ++ "$"%char ::
    chars (EncodeToString salt) ++ "$"%char :: chars (EncodeToString hash)).
  { subst p. rewrite !text_app. change (chars "$") with ["$"%char].
    replace (chars (pretty argonVersion)) with (chars "19") by (vm_compute; reflexivity). replace (chars (pretty argonMemory)) with (chars "65536") by (vm_compute; reflexivity).
    replace (chars (pretty argonTime)) with (chars "3") by (vm_compute; reflexivity). replace (chars (pretty argonThreads)) with (chars "2") by (vm_compute; reflexivity).
    reflexivity. }
  rewrite Hp. rewrite !split_on_cons, split_on_last by (done || (apply (bool_decide_unpack _); vm_compute; exact I)). rewrite !fmap_cons, !text_chars. done.
Qed.

Section Exact.
Context (IDKey : string -> bytes -> Z -> Z -> Z -> Z -> bytes).
(** [argon2.IDKey] returns as many bytes as it is asked for. *)
Context (IDKey_bytes : forall password salt time memory threads n, 0 <= n ->
  Forall is_byte (IDKey password salt time memory threads n) /\ Z.of_nat (length (IDKey password salt time memory threads n)) = n).

(** C25: a stored hash verifies exactly the passwords that derive its key.  The
    text that [HashPassword] makes of a password and a salt is split, scanned
    and decoded by [VerifyPassword] to the salt, the parameters and the key it
    was made of, so the check never fails or panics on it, accepts the password
    itself, and accepts another one only if argon2 derives the same key from it. *)
Theorem password_exact password salt h attempt : Forall is_byte salt -> HashPassword IDKey password (Some salt) = Ok h ->
  VerifyPassword IDKey attempt h = Some (Ok (bool_decide
    (IDKey attempt salt argonTime argonMemory argonThreads argonKeyLen = IDKey password salt argonTime argonMemory argonThreads argonKeyLen))).
Proof using IDKey_bytes.
  intros Hs [= <-]. set (key := IDKey password salt argonTime argonMemory argonThreads argonKeyLen).
  destruct (IDKey_bytes password salt argonTime argonMemory argonThreads argonKeyLen) as [Hb Hn]; [done|]. fold key in Hb, Hn.
  unfold VerifyPassword. rewrite phc_split by done. cbn [bool_decide]. rewrite bool_decide_eq_true_2 by done. cbn [negb].
  replace (scan_version "v=19") with (Some argonVersion) by (vm_compute; reflexivity). rewrite bool_decide_eq_true_2 by done. cbn [negb].
  replace (scan_parameters "m=65536,t=3,p=2") with (Some (argonMemory, argonTime, argonThreads)) by (vm_compute; reflexivity).
  destruct (encoded_chars salt Hs) as [_ ->], (encoded_chars key Hb) as [_ ->]. rewrite Hn. reflexivity.
Qed.
End Exact.

(** A key derivation that depends on the password. *)
Definition demo_key (password : string) (_ : bytes) (_ _ _ n : Z) : bytes := replicate (Z.to_nat n) (Z.of_nat (String.length password) mod 256).
Definition demo_salt : bytes := Z.of_nat <$> seq 1 16.
Lemma password_exact_witness : exists h, HashPassword demo_key "secret" (Some demo_salt) = Ok h /\
  VerifyPassword demo_key "secret" h = Some (Ok true) /\ VerifyPassword demo_key "wrong" h = Some (Ok false).
Proof.
  assert (Hk : forall password salt time memory threads n, 0 <= n ->
    Forall is_byte (demo_key password salt time memory threads n) /\ Z.of_nat (length (demo_key password salt time memory threads n)) = n).
  { intros. unfold demo_key. rewrite length_replicate. split; [|lia]. apply Forall_replicate. apply Z.mod_pos_bound. lia. }
  assert (Hs : Forall is_byte demo_salt) by (repeat constructor; vm_compute; congruence).
  eexists. split; [reflexivity|]. split.
  - rewrite (password_exact demo_key Hk "secret" demo_salt _ "secret" Hs eq_refl). vm_compute. reflexivity.
  - rewrite (password_exact demo_key Hk "secret" demo_salt _ "wrong" Hs eq_refl). vm_compute. reflexivity.
Defined.
End Password.
