(* ===== verification/Auth.v ===== *)
(** * Auth: authentication ([auth/])

    Logging in, refreshing and logging out ([service.go]), access tokens
    ([claims.go]), admission of control connections ([connection.go]), the cache
    of principals ([principal_cache.go], [resolver.go]), the permission check of
    account mutations ([authorization.go]) and invites ([invites.go]).

    A flow runs statements on the database and asks the owner of the connections
    to end some of them.  The JSON Web Token library is a class, argon2 and
    SHA-256 are arguments, random bytes are what was drawn.  The mutation barrier
    of a user makes what runs under it atomic for that user; what others do
    before it is taken is an argument. *)

From S2P Require Import Prelude State Rbac Support Database Stores Installation Snapshot Connection EventBus Publication Sequencer Identity Idempotency Durable Events Service Password.
From stdpp Require Import base gmap strings list sorting.
From Stdlib Require Import ZArith.
#[local] Open Scope string_scope.
#[local] Open Scope list_scope.
#[local] Open Scope Z_scope.

(** The access token's payload; times are seconds ([jwt.NumericDate]). *)
Record Claims := mkClaims { cl_UserID : Z; cl_LoginSessionID : Z; cl_Ver : Z; cl_IssuedAt : option Z; cl_ExpiresAt : option Z }.
(** [SignedString] and [ParseWithClaims] with the HMAC methods, at a time in milliseconds. *)
Class Jwt := { jwt_sign : string -> Claims -> option string; jwt_parse : string -> string -> Z -> option Claims }.
(** A signed token is read back until it expires. *)
Class JwtLaws {jwt : Jwt} : Prop := {
  jwt_roundtrip secret c token e now : jwt_sign secret c = Some token -> cl_ExpiresAt c = Some e -> now < e * 1000 -> jwt_parse secret token now = Some c
}.
Arguments JwtLaws : clear implicits.

Module Auth.
Import State Permissions Server Database Tx.
Import Sequencer (is_some).
Import Service (ServiceError, Own, ErrOfStore).
Import Password.

(** [ErrPanic] is a panic that the server's recovery reports. *)
Inductive AuthError :=
  | ErrInvalidCredentials | ErrUserBanned | ErrInvalidRefresh | ErrWrongPassword | ErrInvalidAccessClaims | ErrInvalidToken | ErrSign
  | ErrInvalidConnectionAuthenticator | ErrLoginSessionInvalid | ErrTokenRevoked | ErrConnectionIdentityMismatch | ErrPermissionRequired
  | ErrUnknownRole | ErrInvalidExpiry | ErrInvalidInvite | ErrUsernameTaken | ErrInvalidActivationCode | ErrOwnerAlreadyExists
  | ErrActivationIdempotencyKey | ErrSelfAction | ErrOwnerProtected | ErrInvalidChange | ErrOfTeardown | ErrOfPassword (e : PasswordError) | ErrPanic
  | ErrOfAction (code : Z).
#[local] Abbreviation err := (ServiceError AuthError).

Definition ownerRole : string := "owner".
Definition adminRole : string := "admin".
Definition memberRole : string := "member".
Definition PermUserUpdate : string := "user:update".
Definition PermUserKick : string := "user:kick".
Definition PermUserDelete : string := "user:delete".
Definition PermInviteManage : string := "invite.manage".

(** ** Access tokens *)

(** [jwt.NewNumericDate] truncates to seconds. *)
Definition NumericDate (ms : Z) : Z := ms / 1000.
Definition Validate (c : Claims) : bool := negb ((cl_UserID c <=? 0) || (cl_LoginSessionID c <=? 0) || (cl_Ver c <? 0) || negb (is_some (cl_ExpiresAt c))).
Section Tokens.
Context `{!Jwt}.
Definition SignAccess (secret : string) (userID authVersion loginSessionID ttl now : Z) : result string err :=
  let c := mkClaims userID loginSessionID authVersion (Some (NumericDate now)) (Some (NumericDate (now + ttl))) in
  if negb (Validate c) then Err (Own ErrInvalidAccessClaims) else match jwt_sign secret c with Some s => Ok s | None => Err (Own ErrSign) end.
(** The parser calls [Validate] beside its own checks. *)
Definition ParseAccess (secret token : string) (now : Z) : result Claims err :=
  match jwt_parse secret token now with Some c => if Validate c then Ok c else Err (Own ErrInvalidAccessClaims) | None => Err (Own ErrInvalidToken) end.
End Tokens.

(** ** Principals *)

Record PrincipalSnapshot := mkSnapshot { ps_Bindings : list RoleBinding; ps_Banned : bool; ps_AuthVersion : Z }.
Definition toRoleBindings (l : list BindingRow) : list RoleBinding := (fun b => mkRB (br_RoleKey b) (br_ScopeType b) (br_GroupID b) (br_ChannelID b)) <$> l.
(** The entries of the cache. *)
Definition PrincipalCache : Type := gmap Z PrincipalSnapshot.
Definition Invalidate (p : PrincipalCache) (userID : Z) : PrincipalCache := delete userID p.

(** What the loader reads of a user. *)
Definition snapshot_of (d : Db) (userID : Z) : option PrincipalSnapshot :=
  user ← t_users d !! userID;
  Some (mkSnapshot (toRoleBindings (merge_sort binding_le (filter (fun b => br_UserID b = userID) (list_rows (t_bindings d))))) (is_some (ur_BannedAt user)) (ur_AuthVersion user)).

Section Flows.
Context `{!StoreEnv, !SqlPrims, !ConfigJson}.
Open Scope store_scope.
#[local] Abbreviation act := (Act err).
Definition stored {A} (m : Store A) : act A := raise ErrOfStore m.
Definition refuse {A} (e : AuthError) : act A := throw (Own e).
Definition lift {A} (r : result A err) : act A := match r with Ok a => ret a | Err e => throw e end.

(** The loader: a read transaction. *)
Definition load_principal (userID : Z) : Store PrincipalSnapshot :=
  transaction (user <~ UserStore.GetByID userID ;; bindings <~ RoleStore.ListBindings userID ;;
               ret (mkSnapshot (toRoleBindings bindings) (is_some (ur_BannedAt user)) (ur_AuthVersion user))).
(** What [Cache] serves while no write of the user is under way. *)
Definition GetUnderBarrier (p : PrincipalCache) (userID : Z) : Store (PrincipalSnapshot * PrincipalCache) :=
  match p !! userID with
  | Some s => ret (s, p)
  | None => s <~ load_principal userID ;; ret (s, <[userID := s]> p)
  end.
Definition resolve_principal (c : Claims) (p : PrincipalCache) : act (Principal * PrincipalCache) :=
  sp <~ stored (GetUnderBarrier p (cl_UserID c)) ;;
  if negb (cl_Ver c =? ps_AuthVersion sp.1) then refuse ErrTokenRevoked
  else if ps_Banned sp.1 then refuse ErrUserBanned
  else ret (mkPrincipal (cl_UserID c) (ps_Bindings sp.1), sp.2).

(** ** Control connections *)

Record ConnectionAuth := mkConnectionAuth { co_UserID : Z; co_LoginSessionID : Z; co_AccessExpiresAt : Z }.
(** The session of an identity, alive. *)
Definition live_session (userID loginSessionID : Z) : act unit :=
  s <~ attempt (SessionStore.GetByID loginSessionID) ;;
  match s with
  | Err ErrNotFound => refuse ErrLoginSessionInvalid
  | Err e => throw (ErrOfStore e)
  | Ok session => t <~ stored now ;; if negb (sr_UserID session =? userID) || (sr_ExpiresAt session <=? t) then refuse ErrLoginSessionInvalid else ret tt
  end.
(** [validate] up to its action. *)
Definition check_claims (c : Claims) (p : PrincipalCache) : act (ConnectionAuth * PrincipalCache) :=
  sp <~ stored (GetUnderBarrier p (cl_UserID c)) ;;
  if ps_Banned sp.1 then refuse ErrUserBanned
  else if negb (ps_AuthVersion sp.1 =? cl_Ver c) then refuse ErrTokenRevoked
  else live_session (cl_UserID c) (cl_LoginSessionID c) ;;~
       ret (mkConnectionAuth (cl_UserID c) (cl_LoginSessionID c) (default 0 (cl_ExpiresAt c) * 1000), sp.2).
(** The reservation or lease update, on the coordinator, under the barrier. *)
Section Action.
Context {S : Type} (action : ConnectionAuth -> S -> result unit err * S).
Definition validate (c : Claims) (p : PrincipalCache) (s : S) : act (ConnectionAuth * PrincipalCache * S) :=
  ap <~ check_claims c p ;;
  match action ap.1 s with (Ok _, s) => ret (ap.1, ap.2, s) | (Err e, _) => throw e end.
Context `{!Jwt}.
Definition Authenticate (secret token : string) (p : PrincipalCache) (s : S) : act (ConnectionAuth * PrincipalCache * S) :=
  t <~ stored now ;; c <~ lift (ParseAccess secret token t) ;; validate c p s.
Definition UpdateLease (secret token : string) (expectedUserID expectedLoginSessionID : Z) (p : PrincipalCache) (s : S) : act (ConnectionAuth * PrincipalCache * S) :=
  if (expectedUserID <=? 0) || (expectedLoginSessionID <=? 0) then refuse ErrInvalidConnectionAuthenticator
  else t <~ stored now ;; c <~ lift (ParseAccess secret token t) ;;
       if negb (cl_UserID c =? expectedUserID) || negb (cl_LoginSessionID c =? expectedLoginSessionID) then refuse ErrConnectionIdentityMismatch else validate c p s.
End Action.
(** The barrier is released by the caller. *)
Definition AcquireCurrent (userID loginSessionID : Z) (p : PrincipalCache) : act PrincipalCache :=
  if (userID <=? 0) || (loginSessionID <=? 0) then refuse ErrInvalidConnectionAuthenticator
  else sp <~ stored (GetUnderBarrier p userID) ;;
       if ps_Banned sp.1 then refuse ErrUserBanned else live_session userID loginSessionID ;;~ ret sp.2.

(** ** Permissions *)

Fixpoint permitted (required : string) (bindings : list BindingRow) : act unit :=
  match bindings with
  | [] => refuse ErrPermissionRequired
  | b :: bindings =>
      if negb (bool_decide (br_ScopeType b = "server")) then permitted required bindings
      else permissions <~ stored (ConfigStore.PermissionsForRole (br_RoleKey b)) ;;
           match permissions with
           | None => permitted required bindings
           | Some l => if existsb (fun p => bool_decide (p = Wildcard) || bool_decide (p = required)) l then ret tt else permitted required bindings
           end
  end.
Definition requireServerPermission (actorID : Z) (required : string) : act unit := bindings <~ stored (RoleStore.ListBindings actorID) ;; permitted required bindings.
Definition isOwner (userID : Z) : act bool :=
  bindings <~ stored (RoleStore.ListBindings userID) ;;
  ret (existsb (fun b => bool_decide (br_ScopeType b = "server") && bool_decide (br_RoleKey b = ownerRole)) bindings).
Definition serverRoles (userID : Z) : Store (list string) :=
  bindings <~ RoleStore.ListBindings userID ;; ret (br_RoleKey <$> filter (fun b => br_ScopeType b = "server") bindings).
(** [UserService.Get]. *)
Definition GetWithRoles (userID : Z) : Store (UserRow * list string) := user <~ UserStore.GetByID userID ;; roles <~ serverRoles userID ;; ret (user, roles).

(** [runTx]. *)
Definition runTx {A} (m : act A) : act A := fun t =>
  if fault (tx_step t) then (Err (ErrOfStore ErrDriver), next_step t)
  else match m (next_step t) with
       | (Err e, t') => (Err e, rollback t t')
       | (Ok a, t') => if fault (tx_step t') then (Err (ErrOfStore ErrDriver), rollback t (next_step t')) else (Ok a, next_step t')
       end.

(** ** Sessions *)

Context (IDKey : string -> bytes -> Z -> Z -> Z -> Z -> bytes) (sha256 : string -> bytes).
#[local] Abbreviation digest := (sha256Hex sha256).
(** [AuthService]: the secret and the lifetimes in milliseconds. *)
Record AuthService := mkAuthService { as_secret : string; as_accessTTL : Z; as_refreshTTL : Z }.
Record TokenPair := mkPair { tp_AccessToken : string; tp_RefreshToken : string; tp_ExpiresIn : Z }.
(** Calls of the [ConnectionRevoker]. *)
Inductive Revocation := RevokeLoginSession (userID loginSessionID : Z) (reason : string) | RevokeUser (userID : Z) (reason : string).

(** A flow's answer and the connections it ends. *)
Definition Flow (A : Type) : Type := Tx -> result A err * list Revocation * Tx.
Definition flow {A} (m : act A) : Flow A := fun t => let '(r, t) := m t in (r, [], t).
Definition fbind {A B} (m : Flow A) (f : A -> Flow B) : Flow B := fun t =>
  match m t with
  | (Ok a, l, t) => let '(r, l', t) := f a t in (r, l ++ l', t)
  | (Err e, l, t) => (Err e, l, t)
  end.
Definition disconnect (r : Revocation) : Flow unit := fun t => (Ok tt, [r], t).
#[local] Notation "x <=- m ;; k" := (fbind m (fun x => k)) (at level 100, m at next level, right associativity).
#[local] Notation "m ;;- k" := (fbind m (fun _ => k)) (at level 100, right associativity).
Definition best_effort {A} (m : Store A) : act unit := attempt m ;;~ ret tt.
(** What others do to the database before the barrier is held. *)
Definition interleave (others : Db -> Db) : act unit := fun t => (Ok tt, mkTx (others (tx_db t)) (tx_step t) (tx_gen t)).

Definition verify (password encoded : string) : act bool :=
  match VerifyPassword IDKey password encoded with Some (Ok b) => ret b | Some (Err e) => refuse (ErrOfPassword e) | None => refuse ErrPanic end.
Definition drawn {A} (r : result A PasswordError) : act A := match r with Ok a => ret a | Err e => refuse (ErrOfPassword e) end.

Context `{!Jwt} (s : AuthService).
Definition issue (userID authVersion : Z) (deviceID : string) (draw : option bytes) : act TokenPair :=
  refresh <~ drawn (randomHex draw) ;; t <~ stored now ;;
  sess <~ stored (SessionStore.Upsert userID deviceID (digest refresh) (t + as_refreshTTL s)) ;;
  access <~ lift (SignAccess (as_secret s) userID authVersion (sr_ID sess) (as_accessTTL s) t) ;;
  ret (mkPair access refresh (as_accessTTL s / 1000)).
Definition cleanupExpired (t : Z) : act unit := best_effort (SessionStore.DeleteExpired t).
(** An unknown name costs the same check, against a fixed hash. *)
Definition Login (username password deviceID : string) (draw : option bytes) : act (TokenPair * UserRow) :=
  found <~ attempt (UserStore.GetByUsername username) ;;
  match found with
  | Err ErrNotFound => match VerifyPassword IDKey password dummyPasswordHash with None => refuse ErrPanic | Some _ => refuse ErrInvalidCredentials end
  | Err e => throw (ErrOfStore e)
  | Ok user =>
      ok <~ verify password (ur_PasswordHash user) ;;
      if negb ok then refuse ErrInvalidCredentials
      else if is_some (ur_BannedAt user) then refuse ErrUserBanned
      else t <~ stored now ;; cleanupExpired t ;;~
           pair <~ issue (ur_ID user) (ur_AuthVersion user) deviceID draw ;;
           best_effort (UserStore.TouchLastLogin (ur_ID user)) ;;~ ret (pair, user)
  end.

(** The session was rotated: the account may have gone meanwhile. *)
Definition refreshed (newRefresh : string) (t : Z) (sess : SessionRow) : Flow TokenPair :=
  found <=- flow (attempt (UserStore.GetByID (sr_UserID sess))) ;;
  match found with
  | Err ErrNotFound =>
      flow (best_effort (SessionStore.Delete (sr_ID sess))) ;;- disconnect (RevokeLoginSession (sr_UserID sess) (sr_ID sess) "auth_revoked") ;;- flow (refuse ErrInvalidRefresh)
  | Err e => flow (throw (ErrOfStore e))
  | Ok user =>
      if is_some (ur_BannedAt user) then
        flow (best_effort (SessionStore.Delete (sr_ID sess))) ;;- disconnect (RevokeLoginSession (sr_UserID sess) (sr_ID sess) "auth_revoked") ;;- flow (refuse ErrInvalidRefresh)
      else access <=- flow (lift (SignAccess (as_secret s) (sr_UserID sess) (ur_AuthVersion user) (sr_ID sess) (as_accessTTL s) t)) ;;
           flow (ret (mkPair access newRefresh (as_accessTTL s / 1000)))
  end.
Definition Refresh (others : Db -> Db) (refreshToken : string) (draw : option bytes) : Flow TokenPair :=
  newRefresh <=- flow (drawn (randomHex draw)) ;; t <=- flow (stored now) ;; flow (cleanupExpired t) ;;-
  found <=- flow (attempt (SessionStore.GetByAnyTokenHash (digest refreshToken))) ;;
  match found with
  | Err ErrNotFound => flow (refuse ErrInvalidRefresh)
  | Err e => flow (throw (ErrOfStore e))
  | Ok previous =>
      flow (interleave others) ;;-
      rotated <=- flow (attempt (SessionStore.Rotate (digest refreshToken) (digest newRefresh) (t + as_refreshTTL s))) ;;
      match rotated with
      | Err ErrNotFound => flow (refuse ErrInvalidRefresh)
      | Err ErrSessionReused => disconnect (RevokeLoginSession (sr_UserID previous) (sr_ID previous) "refresh_reused") ;;- flow (refuse ErrInvalidRefresh)
      | Err e => flow (throw (ErrOfStore e))
      | Ok sess => refreshed newRefresh t sess
      end
  end.
Definition Logout (others : Db -> Db) (refreshToken : string) : Flow unit :=
  found <=- flow (attempt (SessionStore.GetByTokenHash (digest refreshToken))) ;;
  match found with
  | Err ErrNotFound => flow (ret tt)
  | Err e => flow (throw (ErrOfStore e))
  | Ok sess =>
      flow (interleave others) ;;-
      deleted <=- flow (attempt (SessionStore.DeleteByTokenHash (digest refreshToken))) ;;
      match deleted with
      | Err ErrNotFound => flow (ret tt)
      | Err e => flow (throw (ErrOfStore e))
      | Ok _ => disconnect (RevokeLoginSession (sr_UserID sess) (sr_ID sess) "logged_out")
      end
  end.

(** ** Invites *)

(** [DefaultInviteTTL] in milliseconds. *)
Definition DefaultInviteTTL : Z := 24 * 3600 * 1000.
Definition invite_expiry (expiresAt : option Z) : act Z :=
  t <~ stored now ;; match expiresAt with None => ret (t + DefaultInviteTTL) | Some e => if e <=? t then refuse ErrInvalidExpiry else ret e end.
Definition CreateInvite (createdBy : Z) (roleKey : string) (uses : Z) (expiresAt : option Z) (draw : nat -> option Z) : act (string * InviteRow) :=
  let roleKey := if bool_decide (roleKey = "") then memberRole else roleKey in
  let uses := if uses <=? 0 then 1 else uses in
  expiry <~ invite_expiry expiresAt ;;
  code <~ drawn (generateInviteCode draw) ;;
  runTx (requireServerPermission createdBy PermInviteManage ;;~
         role <~ attempt (RoleStore.Get roleKey) ;;
         match role with
         | Err ErrNotFound => refuse ErrUnknownRole
         | _ => if bool_decide (roleKey = ownerRole) then refuse ErrUnknownRole
                else match role with
                     | Err e => throw (ErrOfStore e)
                     | Ok role => inv <~ stored (InviteStore.Create (digest code) (rr_Key role) uses (Some expiry) (Some createdBy)) ;; ret (code, inv)
                     end
         end).
Definition DeleteInvite (actorID id : Z) : act unit := runTx (requireServerPermission actorID PermInviteManage ;;~ stored (InviteStore.Delete id)).
End Flows.
End Auth.
