(* ===== verification/AuthProps.v ===== *)
(** * AuthProps: admission, and what a login admits

    The cache of principals never decides anything: while it holds what the
    tables say, admission through it is admission by the tables.  What a login
    hands out is admitted until it expires. *)

From S2P Require Import Prelude State StateProps Rbac Support Database DatabaseProps Stores Installation InstallationProps Snapshot Connection EventBus Publication.
From S2P Require Import Sequencer Identity Idempotency Durable DurableProps Events Service ServiceProps Password Auth.
From stdpp Require Import base gmap strings list sorting.
From Stdlib Require Import ZArith Lia Ascii String.
#[local] Open Scope string_scope.
#[local] Open Scope list_scope.
#[local] Open Scope Z_scope.

Module AuthProps.
Import State StateProps Database DatabaseProps Auth.
Import Stores.Tx (StoreEnv, Act, fault, clock, gen, tx_db, tx_step, tx_gen, next_step, mkTx).
Import Sequencer (is_some).
Import Server (mkRB).
Import Service (ServiceError, Own, ErrOfStore).
Import ServiceProps (still, still_reading, still_bind, still_raise, still_attempt, still_ret, still_throw, still_now).
#[local] Abbreviation err := (ServiceError AuthError).

(** ** The cache says what the tables say *)

Definition coherent (d : Db) (p : PrincipalCache) : Prop := forall userID s, p !! userID = Some s -> snapshot_of d userID = Some s.
Lemma coherent_insert d p userID s : coherent d p -> snapshot_of d userID = Some s -> coherent d (<[userID := s]> p).
Proof. intros Hp Hs u x [[<- <-]|[_ Hu]]%lookup_insert_Some; [done|by apply Hp]. Qed.
Lemma coherent_delete d p userID : coherent d p -> coherent d (delete userID p).
Proof. intros Hp u x [_ Hu]%lookup_delete_Some. by apply Hp. Qed.
Lemma snapshot_Some d userID s : snapshot_of d userID = Some s -> exists user, t_users d !! userID = Some user /\
  ps_Banned s = is_some (ur_BannedAt user) /\ ps_AuthVersion s = ur_AuthVersion user.
Proof. unfold snapshot_of. destruct (t_users d !! userID) as [user|]; [|done]. cbn. intros [= <-]. by exists user. Qed.
Lemma snapshot_None d userID : t_users d !! userID = None -> snapshot_of d userID = None.
Proof. unfold snapshot_of. by intros ->. Qed.

Section Admission.
Context `{!StoreEnv, !SqlPrims, !ConfigJson}.
(** A driver failure, and nothing else, may come between. *)
Definition faulty {A} (r : result A err) : Prop := r = Err (ErrOfStore Tx.ErrDriver) /\ exists n, fault n = true.

(** The loader reads what the tables say. *)
Lemma load_principal_reads userID t : let '(r, t') := load_principal userID t in tx_db t' = tx_db t /\
  match r with
  | Ok s => snapshot_of (tx_db t) userID = Some s
  | Err e => (e = Tx.ErrNotFound /\ t_users (tx_db t) !! userID = None) \/ (e = Tx.ErrDriver /\ exists n, fault n = true)
  end.
Proof.
  unfold load_principal, Tx.transaction, UserStore.GetByID, RoleStore.ListBindings, Tx.bind, Tx.query, snapshot_of, GetUserByID, ListRoleBindingsForUser, reading, get_row, Tx.rollback.
  destruct (fault (tx_step t)) eqn:F0; cbn [next_step tx_db tx_step tx_gen]; [eauto|].
  destruct (fault (S (tx_step t))) eqn:F1; cbn; [eauto|]. destruct (t_users (tx_db t) !! userID) as [user|]; cbn; [|eauto].
  destruct (fault (S (S (tx_step t)))) eqn:F2; cbn; [eauto|]. destruct (fault (S (S (S (tx_step t))))) eqn:F3; cbn; eauto.
Qed.
Lemma GetUnderBarrier_reads p userID t : coherent (tx_db t) p -> let '(r, t') := GetUnderBarrier p userID t in tx_db t' = tx_db t /\
  match r with
  | Ok (s, p') => snapshot_of (tx_db t) userID = Some s /\ coherent (tx_db t) p'
  | Err e => (e = Tx.ErrNotFound /\ t_users (tx_db t) !! userID = None) \/ (e = Tx.ErrDriver /\ exists n, fault n = true)
  end.
Proof.
  intros Hp. unfold GetUnderBarrier. destruct (p !! userID) as [s|] eqn:E; [split; [done|]; split; [by apply Hp|done]|].
  unfold Tx.bind. pose proof (load_principal_reads userID t) as Hl. destruct (load_principal userID t) as [[s|e] t']; [|done].
  destruct Hl as [Hd Hs]. cbn. split; [done|]. split; [done|]. by apply coherent_insert.
Qed.

(** Whether the tables admit an identity at a time. *)
Definition session_live (d : Db) (userID loginSessionID now : Z) : bool :=
  match t_sessions d !! loginSessionID with Some s => (sr_UserID s =? userID) && (now <? sr_ExpiresAt s) | None => false end.
Definition admission (d : Db) (c : Claims) (now : Z) : result ConnectionAuth err :=
  match t_users d !! cl_UserID c with
  | None => Err (ErrOfStore Tx.ErrNotFound)
  | Some user =>
      if is_some (ur_BannedAt user) then Err (Own ErrUserBanned)
      else if negb (ur_AuthVersion user =? cl_Ver c) then Err (Own ErrTokenRevoked)
      else if negb (session_live d (cl_UserID c) (cl_LoginSessionID c) now) then Err (Own ErrLoginSessionInvalid)
      else Ok (mkConnectionAuth (cl_UserID c) (cl_LoginSessionID c) (default 0 (cl_ExpiresAt c) * 1000))
  end.

Lemma live_session_reads userID id t : let '(r, t') := live_session userID id t in tx_db t' = tx_db t /\
  (faulty r \/ exists n, r = if session_live (tx_db t) userID id (clock n) then Ok tt else Err (Own ErrLoginSessionInvalid)).
Proof.
  unfold live_session, session_live, SessionStore.GetByID, Tx.attempt, Tx.bind, Tx.query, GetSessionByID, reading, get_row.
  destruct (fault (tx_step t)) eqn:F0; cbn; [split; [done|]; left; split; [done|eauto]|].
  destruct (t_sessions (tx_db t) !! id) as [s|]; cbn; [|split; [done|]; right; by exists 0%nat].
  rewrite Z.leb_antisym. destruct (sr_UserID s =? userID) eqn:Eu, (clock (S (tx_step t)) <? sr_ExpiresAt s) eqn:El; cbn;
    (split; [done|]; right; exists (S (tx_step t)); by rewrite ?Eu, ?El).
Qed.

(** C19: Admission through the cache is admission by the tables.  While every cached
    principal is what the tables say, the check of a control connection's claims
    answers at some reading of the clock exactly what the users and sessions
    tables answer: an unknown user, a banned one, a token issued before the last
    revocation, and a session that is gone, expired or another user's are each
    refused with their own error, and everything else is admitted.  It writes
    nothing and leaves the cache agreeing with the tables.  Only a driver failure
    may come between. *)
Theorem claims_admitted c p t : coherent (tx_db t) p -> let '(r, t') := check_claims c p t in tx_db t' = tx_db t /\
  (faulty r \/ exists n, match r with Ok (a, p') => admission (tx_db t) c (clock n) = Ok a /\ coherent (tx_db t) p' | Err e => admission (tx_db t) c (clock n) = Err e end).
Proof.
  intros Hp. unfold check_claims, Tx.bind at 1, Auth.stored, Tx.raise, admission. pose proof (GetUnderBarrier_reads p (cl_UserID c) t Hp) as Hg.
  destruct (GetUnderBarrier p (cl_UserID c) t) as [[[s p']|e] t1]; destruct Hg as [Hd Hg].
  2: { split; [done|]. destruct Hg as [[-> ->]|[-> Hf]]; [right; by exists 0%nat|by left]. }
  destruct Hg as [Hs Hp']. apply snapshot_Some in Hs as (user & -> & Hb & Hv). cbn [fst snd]. rewrite Hb, Hv.
  destruct (is_some (ur_BannedAt user)); [split; [done|]; right; by exists 0%nat|].
  destruct (negb _); [split; [done|]; right; by exists 0%nat|]. unfold Tx.bind.
  pose proof (live_session_reads (cl_UserID c) (cl_LoginSessionID c) t1) as Hl. destruct (live_session _ _ t1) as [r t2]. rewrite Hd in Hl.
  destruct Hl as [Hd2 [[-> Hf]|[n ->]]]; [split; [done|]; by left|].
  destruct (session_live _ _ _ (clock n)) eqn:E; (split; [done|]; right; exists n; by rewrite E).
Qed.
End Admission.

(** ** Login *)

Section Login.
Context `{!StoreEnv, !SqlPrims, !ConfigJson, !Jwt, !JwtLaws _}.
Context (IDKey : string -> bytes -> Z -> Z -> Z -> Z -> bytes) (sha256 : string -> bytes) (s : AuthService).
#[local] Abbreviation digest := (Password.sha256Hex sha256).

Lemma find_row_Ok {A} (f : A -> bool) (m : gmap Z A) row : find_row f m = Ok row -> exists k, m !! k = Some row /\ f row = true.
Proof.
  unfold find_row. destruct (List.find f _) as [x|] eqn:E; [|done]. intros [= <-]. apply List.find_some in E as [Hin Hf].
  apply list_elem_of_In, list_elem_of_fmap in Hin as ([k y] & -> & Hin). exists k. split; [by apply elem_of_map_to_list|done].
Qed.
(** The session of a device, created or taken over. *)
Lemma UpsertSession_stores row d sess d' : db_ok d -> UpsertSession row d = Ok (sess, d') ->
  t_sessions d' !! sr_ID sess = Some sess /\ t_users d' = t_users d /\ sr_UserID sess = sr_UserID row /\ sr_DeviceID sess = sr_DeviceID row /\
  sr_TokenHash sess = sr_TokenHash row /\ sr_ExpiresAt sess = sr_ExpiresAt row.
Proof.
  intros Hd. unfold UpsertSession. destruct (negb _); [done|]. destruct (find_key _ _) as [key|] eqn:Ek.
  - apply find_key_Some in Ek as (old & Hold & Hm). unfold get_row. rewrite Hold. cbn [rbind]. destruct (token_taken _ _ _); [done|]. intros [= <- <-]. cbn.
    apply andb_true_iff in Hm as [Hu%Z.eqb_eq Hdv%bool_decide_eq_true]. destruct (to_row _ _ _ _ (ok_sessions _ Hd) _ _ Hold) as [Hid _].
    rewrite Hid, lookup_insert_eq. split_and!; congruence.
  - intros (m & Hm & [= <- <-])%rbind_Ok. apply insert_row_inv in Hm as (_ & _ & _ & _ & ->). cbn. by rewrite lookup_insert_eq.
Qed.
(** What only touches sessions that expire, or the time of a login. *)
Lemma cleanup_keeps_users now t r t' : db_ok (tx_db t) -> cleanupExpired now t = (r, t') -> db_ok (tx_db t') /\ t_users (tx_db t') = t_users (tx_db t).
Proof.
  intros Hd. unfold cleanupExpired, best_effort, Tx.bind, Tx.attempt, SessionStore.DeleteExpired, Tx.query. destruct (fault _); cbn; intros [= <- <-]; [done|].
  split; [|done]. refine (statement_keeps (DeleteExpiredSessions now) _ _ _ _ Hd eq_refl). constructor.
Qed.
Lemma touch_keeps_login id t r t' : best_effort (UserStore.TouchLastLogin id) t = (r, t') ->
  t_sessions (tx_db t') = t_sessions (tx_db t) /\ forall u user, t_users (tx_db t) !! u = Some user ->
    exists user', t_users (tx_db t') !! u = Some user' /\ ur_BannedAt user' = ur_BannedAt user /\ ur_AuthVersion user' = ur_AuthVersion user.
Proof.
  unfold best_effort, Tx.bind, Tx.attempt, UserStore.TouchLastLogin, Tx.bind, Tx.now, Tx.query. cbn [tx_step next_step tx_db tx_gen].
  destruct (fault _); cbn; [intros [= <- <-]; split; [done|eauto]|]. unfold TouchUserLastLogin, execute_user, update_user, update_row.
  destruct (t_users (tx_db t) !! id) as [row|] eqn:E; cbn; [|intros [= <- <-]; split; [done|eauto]].
  destruct (negb _); cbn; intros [= <- <-]; (split; [done|]); [eauto|]. intros u user Hu. cbn.
  destruct (decide (id = u)) as [<-|Hne]; [rewrite lookup_insert_eq|rewrite lookup_insert_ne by done; eauto]. eexists. split; [done|]. cbn. by simplify_eq.
Qed.

(** What a token pair stands for in the tables. *)
Definition pair_of (d : Db) (userID version : Z) (deviceID : string) (pair : TokenPair) (c : Claims) (issued : Z) : Prop :=
  exists session, t_sessions d !! cl_LoginSessionID c = Some session /\ sr_UserID session = userID /\ sr_DeviceID session = deviceID /\
    sr_TokenHash session = digest (tp_RefreshToken pair) /\ sr_ExpiresAt session = issued + as_refreshTTL s /\
    cl_UserID c = userID /\ cl_Ver c = version /\ cl_ExpiresAt c = Some (NumericDate (issued + as_accessTTL s)) /\ Validate c = true /\
    jwt_sign (as_secret s) c = Some (tp_AccessToken pair).
Lemma issue_pair userID version deviceID draw t pair t' : db_ok (tx_db t) -> issue sha256 s userID version deviceID draw t = (Ok pair, t') ->
  exists c issued, pair_of (tx_db t') userID version deviceID pair c issued /\ t_users (tx_db t') = t_users (tx_db t).
Proof.
  intros Hd. unfold issue. intros (refresh & t1 & Hr & Hi)%InstallationProps.bind_Ok. unfold drawn in Hr. destruct (Password.randomHex draw); [|done]. injection Hr as -> <-.
  apply InstallationProps.bind_Ok in Hi as (issued & t2 & [= <- <-] & Hi). apply InstallationProps.bind_Ok in Hi as (sess & t3 & Hs & Hi).
  apply DurableProps.raise_Ok in Hs. unfold SessionStore.Upsert in Hs. apply InstallationProps.bind_Ok in Hs as (id & t4 & Hn & Hs).
  unfold Tx.nextID in Hn. cbn in Hn. destruct (Tx.idNext _) as [[x|x] g]; [|done]. injection Hn as -> <-.
  apply InstallationProps.bind_Ok in Hs as (now & t5 & [= <- <-] & Hs%InstallationProps.query_Ok). cbn in Hs.
  apply InstallationProps.bind_Ok in Hi as (access & t6 & Ha & Hi). injection Hi as <- <-. unfold lift, SignAccess in Ha. cbv zeta in Ha.
  destruct (Validate _) eqn:Ev; cbn in Ha; [|done]. destruct (jwt_sign _ _) eqn:Ej; [|done]. injection Ha as -> <-.
  apply UpsertSession_stores in Hs as (S1 & S2 & S3 & S4 & S5 & S6); [|done]. cbn in *. eexists (mkClaims userID (sr_ID sess) version (Some _) (Some _)), _. split; [|exact S2].
  exists sess. cbn. split_and!; try exact S1; try exact S5; try exact S6; try exact Ev; try exact Ej; done.
Qed.

(** C20: A login is sound and what it hands out works.  When a login answers a token
    pair, the password is the one whose hash the account's row holds, the
    account is not banned, and the device has a session under the digest of the
    refresh token.  The access token then parses to claims that the tables admit
    as that user and that session at every time before the token's and the
    session's expiry, so a control connection opens with it. *)
Theorem login_admits username password deviceID draw t pair user t' : db_ok (tx_db t) ->
  Login IDKey sha256 s username password deviceID draw t = (Ok (pair, user), t') ->
  Password.VerifyPassword IDKey password (ur_PasswordHash user) = Some (Ok true) /\ ur_BannedAt user = None /\
  t_users (tx_db t) !! ur_ID user = Some user /\ nocase (ur_Username user) = nocase username /\
  exists c issued, pair_of (tx_db t') (ur_ID user) (ur_AuthVersion user) deviceID pair c issued /\
    forall now, now < NumericDate (issued + as_accessTTL s) * 1000 -> now < issued + as_refreshTTL s ->
      ParseAccess (as_secret s) (tp_AccessToken pair) now = Ok c /\
      admission (tx_db t') c now = Ok (mkConnectionAuth (ur_ID user) (cl_LoginSessionID c) (NumericDate (issued + as_accessTTL s) * 1000)).
Proof.
  intros Hd. unfold Login. intros (found & t1 & Hf & Hl)%InstallationProps.bind_Ok. unfold Tx.attempt in Hf.
  destruct (UserStore.GetByUsername username t) as [r t1'] eqn:Eg. injection Hf as -> ->.
  destruct found as [u|er]; [|by destruct er; try done; destruct (Password.VerifyPassword _ _ _)].
  apply InstallationProps.query_Ok in Eg. unfold GetUserByUsername, reading in Eg. apply rbind_Ok in Eg as (x & Hx & [= -> Hd1]).
  apply find_row_Ok in Hx as (k & Hk & Hn%bool_decide_eq_true). destruct (to_row _ _ _ _ (ok_users _ Hd) _ _ Hk) as [<- _].
  apply InstallationProps.bind_Ok in Hl as (ok & t2 & Hv & Hl). unfold verify in Hv.
  destruct (Password.VerifyPassword IDKey password (ur_PasswordHash u)) as [[b|]|] eqn:Ev; [|done..]. injection Hv as -> <-.
  destruct ok; [|done]. cbn [negb] in Hl. destruct (ur_BannedAt u) eqn:Eb; [done|]. cbn [is_some] in Hl.
  apply InstallationProps.bind_Ok in Hl as (now0 & t3 & [= <- <-] & Hl). apply InstallationProps.bind_Ok in Hl as ([] & t4 & Hc & Hl).
  apply cleanup_keeps_users in Hc as [Hd4 Hu4]; [|cbn; by rewrite <- Hd1]. cbn in Hu4.
  apply InstallationProps.bind_Ok in Hl as (pr & t5 & Hi & Hl). apply issue_pair in Hi as (c & issued & Hp & Hu5); [|done].
  apply InstallationProps.bind_Ok in Hl as ([] & t6 & Ht & [= -> -> ->]). apply touch_keeps_login in Ht as [Hs6 Hu6].
  split_and!; try done. exists c, issued. destruct Hp as (sess & P1 & P2 & P3 & P4 & P5 & P6 & P7 & P8 & P9 & P10).
  split; [exists sess; by rewrite Hs6|]. intros now Hn1 Hn2.
  split; [unfold ParseAccess; by rewrite (jwt_roundtrip _ _ _ _ now P10 P8 Hn1), P9|].
  destruct (Hu6 (ur_ID user) user) as (user' & Hu' & Eb' & Ev'); [by rewrite Hu5, Hu4, <- Hd1|].
  unfold admission, session_live. rewrite P6, Hu', Eb', Eb, Ev', P7, Z.eqb_refl, Hs6, P1, P2, Z.eqb_refl, P8. cbn.
  by rewrite P5, (proj2 (Z.ltb_lt _ _) Hn2).
Qed.
End Login.
(** ** A user logs in and connects *)

#[local] Existing Instance InstallationProps.demo_env.
#[local] Existing Instance sample_prims.
#[global] Instance Claims_eq_dec : EqDecision Claims.
Proof. solve_decision. Defined.

Definition demo_config : ConfigJson := {| json_config := fun _ => Some (Some {[ "admin" := ["user:kick"; "user:update"; "user:delete"] ]}); json_encode := fun _ => "{}" |}.
#[local] Existing Instance demo_config.
(** A library that knows one token. *)
Definition demo_claims : Claims := mkClaims 9 100 0 (Some 1) (Some 901).
Definition demo_jwt : Jwt := {|
  jwt_sign := fun _ c => if decide (c = demo_claims) then Some "token" else None;
  jwt_parse := fun _ token now => if bool_decide (token = "token") && (now <? 901000) then Some demo_claims else None
|}.
#[local] Existing Instance demo_jwt.
Lemma demo_jwt_laws : JwtLaws demo_jwt.
Proof.
  split. intros secret c token e now. cbn. destruct (decide (c = demo_claims)) as [->|]; [|done]. intros [= <-] [= <-] Hn.
  by rewrite (proj2 (Z.ltb_lt now 901000)).
Qed.
Definition demo_hash : string := match Password.HashPassword Password.demo_key "secret" (Some Password.demo_salt) with Ok h => h | Err _ => "" end.
Definition demo_db : Db := after (CreateUser 9 "Eve" demo_hash "Eve" None 1 1) InstallationProps.demo_db.
Definition demo_tx : Tx.Tx := mkTx demo_db 0 (100 : gen).
Definition demo_service : AuthService := mkAuthService "key" 900000 2000000.
Definition demo_digest (s : string) : bytes := (fun c => Z.of_nat (Ascii.nat_of_ascii c)) <$> String.list_ascii_of_string s.
Lemma auth_demo_ok : db_ok demo_db.
Proof. apply produced_ok. repeat (apply after_produced; [constructor|]). apply produced_empty. Qed.

Lemma login_admits_witness : exists pair user t' c, Login Password.demo_key demo_digest demo_service "eve" "secret" "phone" (Some [1; 2; 3]) demo_tx = (Ok (pair, user), t') /\
  ParseAccess "key" (tp_AccessToken pair) 5000 = Ok c /\ admission (tx_db t') c 5000 = Ok (mkConnectionAuth 9 100 901000).
Proof.
  destruct (Login Password.demo_key demo_digest demo_service "eve" "secret" "phone" (Some [1; 2; 3]) demo_tx) as [[[pair user]|e] t'] eqn:El; [|exfalso; revert El; vm_compute; discriminate].
  destruct (@login_admits _ _ _ demo_jwt_laws Password.demo_key demo_digest demo_service "eve" "secret" "phone" (Some [1; 2; 3]) demo_tx pair user t' auth_demo_ok El) as (_ & _ & _ & _ & c & issued & Hp & Hadm).
  assert (Hx : (ur_ID user, tp_AccessToken pair) = (9, "token")) by (revert El; vm_compute; by intros [= <- <- <-]).
  injection Hx as E1 E2. destruct Hp as (sess & Hs & _ & _ & _ & He & _ & _ & _ & _ & Hj). rewrite E2 in Hj. cbn in Hj. destruct (decide _) as [->|]; [|done].
  assert (Hi : (fun d => sr_ExpiresAt <$> t_sessions d !! 100) (tx_db t') = Some 2001003) by (revert El; vm_compute; by intros [= <- <- <-]).
  cbn [cl_LoginSessionID demo_claims] in Hs. cbv beta in Hi. rewrite Hs in Hi. cbn in Hi, He. assert (issued = 1003) as -> by (injection Hi; lia).
  exists pair, user, t', demo_claims. split; [reflexivity|].
  destruct (Hadm 5000) as [Ha1 Ha2]; [vm_compute; reflexivity|vm_compute; reflexivity|]. rewrite E1 in Ha2. split; [exact Ha1|exact Ha2].
Defined.

(** Two claims at the cached principal of user 7. *)
Definition demo_cache : PrincipalCache := {[ 7 := mkSnapshot [mkRB "owner" "server" None None] false 0 ]}.
Lemma auth_demo_coherent : coherent demo_db demo_cache.
Proof. unfold demo_cache. intros u x [<- <-]%lookup_singleton_Some. vm_compute. reflexivity. Qed.
Lemma claims_admitted_witness : (check_claims (mkClaims 7 30 0 None (Some 5)) demo_cache demo_tx).1 = Ok (mkConnectionAuth 7 30 5000, demo_cache) /\
  coherent demo_db demo_cache /\ (check_claims (mkClaims 7 30 1 None (Some 5)) demo_cache demo_tx).1 = Err (Own ErrTokenRevoked).
Proof.
  pose proof (claims_admitted (mkClaims 7 30 0 None (Some 5)) demo_cache demo_tx auth_demo_coherent) as Hx.
  destruct (check_claims (mkClaims 7 30 0 None (Some 5)) demo_cache demo_tx) as [r t'] eqn:E.
  assert (Hr : r = Ok (mkConnectionAuth 7 30 5000, demo_cache)) by (revert E; vm_compute; by intros [= <- <-]). subst r.
  destruct Hx as [_ [[Hf _]|[n [_ Hc]]]]; [discriminate Hf|]. split_and!; [reflexivity|exact Hc|vm_compute; reflexivity].
Defined.
End AuthProps.
