(* ===== verification/Account.v ===== *)
(** * Account: account mutations through the sequencer ([auth/state_change.go])

    The transactions of [auth/users.go], [auth/service.go], [auth/register.go]
    and [auth/activate.go], and [StateMutationRuntime.Run], which commits one of
    them together with its publication: it looks for a replay, admits the
    command, runs the transaction, builds the candidate, prepares the teardown
    of the user's connections ([PrepareAccountTeardown] of
    [realtime/connection.go]), reserves, saves the durable result, commits and
    invalidates the cached principals; the connections end after the commit and
    before the publication.

    Without a runtime a service runs the same transaction alone and then ends
    the connections of its target ([direct]); a profile is then read or written
    on its own ([update_profile_direct]). *)

From S2P Require Import Prelude State StateRing Visibility Rbac Support Cursor Snapshot Lane Session Connection EventBus Publication Sequencer Database.
From S2P Require Import Stores Installation Identity Idempotency Durable Events Service ChannelService Voice Password Auth.
From stdpp Require Import base gmap strings list pretty sorting.
From Stdlib Require Import ZArith.
#[local] Open Scope string_scope.
#[local] Open Scope list_scope.
#[local] Open Scope Z_scope.

Module Account.
Import Stores.Tx.
Import State StateRing Visibility Snapshot EventBus Publication Sequencer Database Identity Idempotency Durable Events Service Password.
Import Connection (ConnectionCoordinator, ConnID).
Import Voice (Runtime, mkRuntime, rt_co, rt_mgr, rt_limiter, VoiceEnv, others, VoiceError).
Import Auth (AuthError, ErrPermissionRequired, ErrSelfAction, ErrOwnerProtected, ErrInvalidInvite, ErrUsernameTaken, ErrInvalidActivationCode, ErrOwnerAlreadyExists,
  ErrInvalidChange, ErrOfTeardown, ErrOfPassword, PrincipalCache, snapshot_of, Revocation, RevokeUser, Flow, flow, fbind, disconnect,
  ownerRole, memberRole, PermUserUpdate, PermUserKick, PermUserDelete, requireServerPermission, isOwner, runTx).
#[local] Abbreviation err := (ServiceError AuthError).

(** ** Transactions *)

Record StateChange := mkChange { ch_EventType : string; ch_UserID : Z }.
(** The values of [AccountMutationResult]. *)
Inductive AccountValue := VNil | VUser (u : UserRow) | VAvatar (name : string).
(** A result that announces a change, with the teardown it prepares; or a no-op. *)
Record Written := mkWritten { wr_value : AccountValue; wr_change : StateChange; wr_noop : bool; wr_teardown : option (Z * string) }.
Definition updated (userID : Z) (value : AccountValue) (teardown : option (Z * string)) : Written := mkWritten value (mkChange "user.updated" userID) false teardown.
Definition created (user : UserRow) : Written := mkWritten (VUser user) (mkChange "user.created" (ur_ID user)) false None.
Definition untouched (userID : Z) (user : UserRow) : Written := mkWritten (VUser user) (mkChange "" userID) true None.

(** [RegistrationMode]. *)
Inductive RegistrationMode := RegistrationOpen | RegistrationInvite.

Section Transactions.
Context `{!StoreEnv, !SqlPrims, !ConfigJson}.
#[local] Open Scope store_scope.
#[local] Abbreviation act := (Act err).
#[local] Abbreviation st := Auth.stored.
#[local] Abbreviation refuse := Auth.refuse.
#[local] Abbreviation ret := Tx.ret.

(** *** Users ([users.go]) *)

(** [UpdateProfile] through the runtime.  An omitted nickname is a read inside
    the command, so that its answer is saved and replayed with the command. *)
Definition update_profile (userID : Z) (nickname : string) : act Written :=
  if bool_decide (nickname = "") then user <~ st (UserStore.GetByID userID) ;; ret (untouched userID user)
  else user <~ st (UserStore.UpdateNickname userID nickname) ;; ret (updated userID (VUser user) None).
(** [UpdateProfile] of a service without a runtime: an omitted nickname reads the
    row outside any transaction, another one is a single statement. *)
Definition update_profile_direct (userID : Z) (nickname : string) : act UserRow :=
  if bool_decide (nickname = "") then st (UserStore.GetByID userID) else st (UserStore.UpdateNickname userID nickname).
Definition update_managed_profile (actorID userID : Z) (nickname : string) : act Written :=
  requireServerPermission actorID PermUserUpdate ;;~
  user <~ st (UserStore.GetByID userID) ;;
  if bool_decide (nickname = "") then ret (untouched userID user)
  else user <~ st (UserStore.UpdateNickname userID nickname) ;; ret (updated userID (VUser user) None).
(** The target exists and is not the owner. *)
Definition unprotected (userID : Z) : act UserRow :=
  user <~ st (UserStore.GetByID userID) ;; owner <~ isOwner userID ;; if owner then refuse ErrOwnerProtected else ret user.
Definition kick (actorID userID : Z) : act Written :=
  requireServerPermission actorID PermUserKick ;;~ unprotected userID ;;~
  st (UserStore.BumpAuthVersion userID) ;;~ st (SessionStore.DeleteUserSessions userID) ;;~ ret (updated userID VNil (Some (userID, "kicked"))).
Definition ban (actorID userID : Z) : act Written :=
  requireServerPermission actorID PermUserUpdate ;;~ unprotected userID ;;~ st (UserStore.Ban userID) ;;~ ret (updated userID VNil (Some (userID, "banned"))).
Definition unban (actorID userID : Z) : act Written :=
  requireServerPermission actorID PermUserUpdate ;;~ st (UserStore.GetByID userID) ;;~ st (UserStore.Unban userID) ;;~ ret (updated userID VNil None).
Definition delete_user (actorID userID : Z) : act Written :=
  requireServerPermission actorID PermUserDelete ;;~ user <~ unprotected userID ;; st (UserStore.Delete userID) ;;~
  ret (mkWritten (VAvatar (default "" (ur_Avatar user))) (mkChange "user.deleted" userID) false (Some (userID, "account_deleted"))).

(** *** Passwords ([service.go]) *)

Definition replace_password (userID : Z) (hash reason : string) : act Written :=
  st (UserStore.SetPasswordHash userID hash) ;;~ st (SessionStore.DeleteUserSessions userID) ;;~ ret (updated userID VNil (Some (userID, reason))).
Definition change_password (userID : Z) (hash : string) : act Written := replace_password userID hash "password_changed".
(** An administrator may not take over the owner. *)
Definition reset_password (actorID userID : Z) (hash : string) : act Written :=
  requireServerPermission actorID PermUserUpdate ;;~ owner <~ isOwner userID ;;
  if owner then refuse ErrOwnerProtected else replace_password userID hash "password_reset".

(** *** Registration ([register.go]) and activation ([activate.go]) *)

(** The user, its server binding and the invite it used, the invite last. *)
Definition register (username hash nickname roleKey : string) (invite : option InviteRow) : act Written :=
  user <~ Tx.attempt (UserStore.Create username hash nickname None) ;;
  match user with
  | Err Tx.ErrConflict => refuse ErrUsernameTaken
  | Err e => Tx.throw (ErrOfStore e)
  | Ok user =>
      st (RoleStore.InsertBinding (ur_ID user) roleKey "server" None None) ;;~
      match invite with
      | None => ret (created user)
      | Some i =>
          consumed <~ Tx.attempt (InviteStore.Consume (ir_ID i)) ;;
          match consumed with
          | Err Tx.ErrNotFound => refuse ErrInvalidInvite
          | Err e => Tx.throw (ErrOfStore e)
          | Ok _ => ret (created user)
          end
      end
  end.
Definition activate (username hash nickname : string) : act Written :=
  user <~ st (UserStore.Create username hash nickname None) ;; st (Installation.ActivateFirstOwner false (ur_ID user)) ;;~ ret (created user).

(** What a registration looks up before its transaction. *)
Context (ToUpper TrimSpace : string -> string) (sha256 : string -> bytes).
Definition registration_role (mode : RegistrationMode) (inviteCode : string) : act (string * option InviteRow) :=
  match mode with
  | RegistrationOpen => ret (memberRole, None)
  | RegistrationInvite =>
      let code := normalizeCode ToUpper TrimSpace inviteCode in
      if bool_decide (code = "") then refuse ErrInvalidInvite
      else got <~ Tx.attempt (InviteStore.GetByCodeHash (sha256Hex sha256 code)) ;;
      match got with
      | Err Tx.ErrNotFound => refuse ErrInvalidInvite
      | Err e => Tx.throw (ErrOfStore e)
      | Ok got =>
          if ir_UsesLeft got <=? 0 then refuse ErrInvalidInvite
          else if bool_decide (ir_RoleKey got = ownerRole) then refuse ErrInvalidInvite
          else role <~ Tx.attempt (RoleStore.Get (ir_RoleKey got)) ;;
          match role with
          | Err Tx.ErrNotFound => refuse ErrInvalidInvite
          | Err e => Tx.throw (ErrOfStore e)
          | Ok _ => ret (ir_RoleKey got, Some got)
          end
      end
  end.
Context (IDKey : string -> bytes -> Z -> Z -> Z -> Z -> bytes).
Definition prepareAccount (username password nickname : string) (salt : option bytes) : result (string * string) err :=
  match HashPassword IDKey password salt with
  | Err e => Err (Own (ErrOfPassword e))
  | Ok hash => Ok (hash, if bool_decide (nickname = "") then username else nickname)
  end.
(** [ChangeOwnPassword] up to the mutation: the new hash. *)
Definition own_password (userID : Z) (oldPassword newPassword : string) (salt : option bytes) : act string :=
  found <~ Tx.attempt (UserStore.GetByID userID) ;;
  match found with
  | Err Tx.ErrNotFound => refuse Auth.ErrInvalidCredentials
  | Err e => Tx.throw (ErrOfStore e)
  | Ok user =>
      ok <~ Auth.verify IDKey oldPassword (ur_PasswordHash user) ;;
      if negb ok then refuse Auth.ErrWrongPassword else Auth.drawn (HashPassword IDKey newPassword salt)
  end.

(** *** The activation code *)

(** [EnsureCode]: the pending code's digest, and the code when it is new. *)
Definition EnsureCode (codeHash : string) (draw : option bytes) : act (string * bool * string) :=
  if negb (bool_decide (codeHash = "")) then ret ("", true, codeHash)
  else state <~ st Installation.Get ;;
  if is_Initialized state =? 1 then ret ("", false, codeHash)
  else owners <~ st Installation.CountOwners ;;
  if negb (owners =? 0) then refuse ErrOwnerAlreadyExists
  else code <~ Auth.drawn (generateActivationCode draw) ;; ret (code, true, sha256Hex sha256 code).
(** The code matches and no owner exists; an owner revokes the code. *)
Definition activation_allowed (codeHash code : string) : act (result unit err * string) :=
  if bool_decide (codeHash = "") || negb (bool_decide (sha256Hex sha256 code = codeHash)) then ret (Err (Own ErrInvalidActivationCode), codeHash)
  else state <~ st Installation.Get ;; owners <~ st Installation.CountOwners ;;
  if (is_Initialized state =? 1) || negb (owners =? 0) then ret (Err (Own ErrOwnerAlreadyExists), "") else ret (Ok tt, codeHash).

(** *** The mutations of the services *)

(** Passwords and invites are those that were prepared before. *)
Inductive AccountOp :=
  | UpdateProfile (userID : Z) (nickname : string) | UpdateManagedProfile (actorID userID : Z) (nickname : string)
  | Kick (actorID userID : Z) | Ban (actorID userID : Z) | Unban (actorID userID : Z) | DeleteUser (actorID userID : Z)
  | ChangePassword (userID : Z) (hash : string) | ResetPassword (actorID userID : Z) (hash : string)
  | Register (username hash nickname roleKey : string) (invite : option InviteRow).
Definition op_body (op : AccountOp) : act Written :=
  match op with
  | UpdateProfile userID nickname => update_profile userID nickname
  | UpdateManagedProfile actorID userID nickname => update_managed_profile actorID userID nickname
  | Kick actorID userID => kick actorID userID
  | Ban actorID userID => ban actorID userID
  | Unban actorID userID => unban actorID userID
  | DeleteUser actorID userID => delete_user actorID userID
  | ChangePassword userID hash => change_password userID hash
  | ResetPassword actorID userID hash => reset_password actorID userID hash
  | Register username hash nickname roleKey invite => register username hash nickname roleKey invite
  end.
(** The users whose principals the command locks. *)
Definition op_users (op : AccountOp) : list Z :=
  match op with
  | UpdateProfile userID _ | ChangePassword userID _ => [userID]
  | UpdateManagedProfile actorID userID _ | Kick actorID userID | Ban actorID userID | Unban actorID userID | DeleteUser actorID userID
  | ResetPassword actorID userID _ => [actorID; userID]
  | Register _ _ _ _ _ => []
  end.
(** Refused before anything is submitted. *)
Definition self_action (op : AccountOp) : bool :=
  match op with Kick actorID userID | Ban actorID userID | DeleteUser actorID userID => actorID =? userID | _ => false end.

(** *** Without a runtime *)

(** Commits alone, then ends the connections of the target. *)
Definition direct (m : act Written) : Flow AccountValue :=
  fbind (flow (runTx m)) (fun w =>
    match wr_teardown w with
    | Some (userID, reason) => fbind (disconnect (RevokeUser userID reason)) (fun _ => flow (ret (wr_value w)))
    | None => flow (ret (wr_value w))
    end).
End Transactions.

(** ** The runtime *)

(** The voice runtime and the cached principals. *)
Record Process := mkProcess { pc_voice : Runtime; pc_principals : PrincipalCache }.
(** By the step that asks, what readers of other users do to the cache: load an entry or let it expire. *)
Class AccountEnv := { readers : nat -> list (Z * bool) }.

Definition reader (locked : list Z) (d : Db) (p : PrincipalCache) (r : Z * bool) : PrincipalCache :=
  if bool_decide (r.1 ∈ locked) then p
  else if r.2 then match p !! r.1, snapshot_of d r.1 with None, Some s => <[r.1 := s]> p | _, _ => p end else delete r.1 p.

(** [HTTPMutationCommand] and [RegistrationHTTPMutationCommand]. *)
Inductive DurableCommand := HTTPMutation (identity : HTTPCommandIdentity) (key : string) | RegistrationMutation (identity : RegistrationCommandIdentity) (key : string).

Section Run.
Context {C : Type} `{!StoreEnv, !SqlPrims, !CommandJson, !ConfigJson, !EventJson, !VoiceEnv, !AccountEnv}.
#[local] Abbreviation world := (World Process).
#[local] Abbreviation mut := (Mut C Process AccountValue AuthError).
#[local] Open Scope mutation_scope.

Definition set_process (p : Process) (w : world) : world := mkWorld (w_db w) (w_timers w) p.
(** One access to the coordinator, after whatever others did. *)
Definition on_coordinator {A} (f : ConnectionCoordinator -> A * ConnectionCoordinator) : mut A := fun t k =>
  Peek (fun w =>
    let r := others (tx_step t) (pc_voice (w_voice w)) in
    let '(a, c) := f (rt_co r) in
    Touch (set_process (mkProcess (mkRuntime c (rt_mgr r) (rt_limiter r)) (pc_principals (w_voice w)))) (fun bus => bus) (k (Ok a) (next_step t))).

(** *** Teardown *)

(** What runs before and after the publication. *)
Definition Hook : Type := option (world -> world * Callback).
Record TeardownPlan := mkTeardown { tp_events : list StateEventTemplate; tp_before : Hook; tp_after : Hook }.
Definition no_plan : TeardownPlan := mkTeardown [] None None.

Context (voiceProjection : option (StateCandidate -> option VoiceAuthority -> option VoiceAuthority -> string ->
  result (list StateEventTemplate * (world -> world) * StateCandidate) (ServiceError VoiceError))).
(** The order in which Go ranges over the user's connections. *)
Context (connection_order : ConnectionCoordinator -> list ConnID).

Definition disconnect_user (n : nat) (userID : Z) (reason : string) (w : world) : world * Callback :=
  let r := others n (pc_voice (w_voice w)) in
  (set_process (mkProcess (mkRuntime (Connection.DisconnectUserForPublication (rt_co r) userID reason (connection_order (rt_co r))) (rt_mgr r) (rt_limiter r))
     (pc_principals (w_voice w))) w, CbOk).
(** The authority of the coordinator, or the one the candidate still shows. *)
Definition previous_authority (userID : Z) (c : StateCandidate) : mut (option VoiceAuthority) :=
  a <=~ on_coordinator (fun co => Connection.GetVoiceAuthority co userID) ;;
  mret (match a with Some a => Some a | None => getVoiceAuthority (version c) userID end).
Definition cleared (userID : Z) (c : StateCandidate) : mut StateCandidate :=
  match ClearPresence c userID ≫= fun c => SetVoiceAuthority c userID None with Some c => mret c | None => mthrow (ErrOfState (ErrInvalidProjection None)) end.
Definition PrepareAccountTeardown (userID : Z) (reason : string) (c : StateCandidate) : mut (StateCandidate * TeardownPlan) :=
  if userID <=? 0 then mthrow (Own ErrOfTeardown)
  else
    previous <=~ previous_authority userID c ;;
    c <=~ cleared userID c ;;
    events <=~ encoded (voiceAuthorityEventTemplates previous None reason) ;;
    p <=~ match previous, voiceProjection with
          | Some _, Some project =>
              match project c previous None reason with Ok p => mret p | Err _ => mthrow (Own ErrOfTeardown) end
          | _, _ => mret ([], fun w => w, c)
          end ;;
    let '(membership, cleanup, c) := p in
    fun t k => k (Ok (c, mkTeardown (events ++ membership) (Some (disconnect_user (tx_step t) userID reason)) (Some (fun w => (cleanup w, CbOk))))) (next_step t).
Definition prepare (teardown : option (Z * string)) (c : StateCandidate) : mut (StateCandidate * TeardownPlan) :=
  match teardown with Some (userID, reason) => PrepareAccountTeardown userID reason c | None => mret (c, no_plan) end.

(** *** Events *)

Context (grants : string -> option (gmap string (list string))) (version_text : string).
Definition user_event (eventType : string) (userID subject : Z) : option StateEventTemplate :=
  data ← json_body (BodyUserRef (pretty userID)); Some (mkTemplate eventType server_scope 0 (Some data) 0 [] 0 subject 0 false).
Definition accountStateEvents (change : StateChange) (v : StateVersion) : result (list StateEventTemplate) err :=
  let userID := ch_UserID change in
  let of_option {A} (o : option A) : result A err := match o with Some a => Ok a | None => Err ErrEncode end in
  if userID <=? 0 then Err (Own ErrInvalidChange)
  else if bool_decide (ch_EventType change = "user.deleted") then e <-? of_option (user_event "user.deleted" userID 0) ;; Ok [e]
  else if negb (bool_decide (ch_EventType change = "user.created")) && negb (bool_decide (ch_EventType change = "user.updated")) then Err (Own ErrInvalidChange)
  else if negb (is_some (getUser v userID)) then Err (Own ErrInvalidChange)
  else e <-? of_option (user_event (ch_EventType change) userID userID) ;;
       if bool_decide (ch_EventType change = "user.updated")
       then data <-? of_option (json_body (BodySelf (SnapshotSelfFor grants version_text userID v))) ;;
            Ok [e; template "self.updated" server_scope (Some data) StateDeliveryUserTargeted [] userID]
       else Ok [e].

(** *** [Run] *)

Context (ToUpper : string -> string) (hmac_sha256 : string -> string -> bytes) (signer : RequestIdentitySigner).
Context (IssueStateCursor : Z -> StateVersion -> option string) {D : Type} (success_body : D -> option string).
#[local] Abbreviation durable_response := (AccountValue -> result (Z * D * IdempotencyHeaders) err).

Definition lookup_command (c : DurableCommand) (epoch : string) : Act DurableError (Found DurableReplay) :=
  match c with
  | HTTPMutation identity key => Lookup ToUpper hmac_sha256 signer identity key epoch
  | RegistrationMutation identity key => LookupRegistration ToUpper hmac_sha256 signer identity key epoch
  end.
Definition save_command (c : DurableCommand) (f : Flags) (r : CanonicalCommandResult) : Act DurableError Flags :=
  match c with
  | HTTPMutation identity key => Save ToUpper hmac_sha256 signer f identity key r
  | RegistrationMutation identity key => SaveRegistration ToUpper hmac_sha256 signer f identity key r
  end.
(** The cursor of a result is its principal's; a registration's is the new user's. *)
Definition cursor_user (c : DurableCommand) (change : StateChange) : Z := match c with HTTPMutation identity _ => hi_PrincipalID identity | RegistrationMutation _ _ => ch_UserID change end.

Definition replay_account (command : option DurableCommand) : mut (option StateCommand) :=
  match command with
  | None => mret None
  | Some c =>
      pv <=~ current ;;
      found <=~ durable (lookup_command c (cp_StreamEpoch (checkpoint pv.2))) ;;
      match found with
      | NotFound => mret None
      | Corrupt e => mthrow (ErrOfDurable (Refused e))
      | Mismatch => reply_error (call CallMarkNoop) ;;= mret (Some (replayed IdempotencyMismatchReplay))
      | Replays r => reply_error (call CallMarkNoop) ;;= mret (Some (replayed r))
      end
  end.
Definition admit_account (command : option DurableCommand) : mut Flags := match command with None => mret with_tx | Some _ => durable (Admit with_tx) end.
Definition save_account (c : DurableCommand) (f : Flags) (commandID : Z) (w : Written) (response : durable_response) (v : StateVersion) (cp : Checkpoint) : mut StateCommand :=
  cursor <=~ issue IssueStateCursor (cursor_user c (wr_change w)) v ;;
  r <=~ ensure (response (wr_value w)) ;;
  let '(status, data, headers) := r in
  body <=~ durableBody success_body status data ;;
  durable (save_command c f (mkCommandResult commandID status body headers cp cursor)) ;;=
  mret (mkStateCommand commandID cursor cp None).
Definition unsaved (commandID : Z) : StateCommand := mkStateCommand commandID "" no_checkpoint None.

(** [Invalidate] of every locked user, after whatever other readers did. *)
Definition invalidate (userIDs : list Z) : mut unit := fun t k =>
  Touch (fun w =>
    let p := fold_left (reader userIDs (w_db w)) (readers (tx_step t)) (pc_principals (w_voice w)) in
    set_process (mkProcess (pc_voice (w_voice w)) (fold_left (fun p u => if 0 <? u then Auth.Invalidate p u else p) userIDs p)) w)
    (fun bus => bus) (k (Ok tt) (next_step t)).

(** The answer, and what runs around the publication. *)
Definition Answer : Type := MutationResult AccountValue * Hook * Hook.
Definition plain (r : MutationResult AccountValue) : Answer := (r, None, None).
Definition output (a : Answer) : CommandOutput world (MutationResult AccountValue) := mkOutput a.1.1 a.1.2 a.2.

Definition reserve_account (userIDs : list Z) (pointer : nat) (c : StateCandidate) (events : list StateEventTemplate) : mut PublicationResult := fun t k =>
  Invoke (CallReserve (clock (tx_step t)) (mkRequest (Some (pointer, version c)) events ((us_ID <$> Users (version c)) ++ userIDs) None)) (fun reply =>
    match reply with
    | GotResult (Ok r) => k (Ok r) (next_step t)
    | GotResult (Err e) => k (Err (ErrOfSequencer e)) (next_step t)
    | GotError _ => k (Err ErrRealtimeUnavailable) (next_step t)
    end).

(** [AccountMutation]: what it wrote, and the durable record that must share its commit. *)
Definition BeforeCommit : Type := option (Z -> PublicationResult -> mut unit).
Definition AccountMutation : Type := mut (Written * BeforeCommit).

Definition finish_noop (command : option DurableCommand) (flags : Flags) (response : durable_response) (commandID : Z) (w : Written) : mut Answer :=
  match command with
  | Some c =>
      pv <=~ current ;;
      state <=~ save_account c flags commandID w response pv.2 (checkpoint pv.2) ;;
      commit CallCommitNoop ;;= mret (plain (mkMutation (Some (wr_value w)) state))
  | None => reply_error (call CallMarkNoop) ;;= mret (plain (mkMutation (Some (wr_value w)) (unsaved commandID)))
  end.
Definition finish_written (userIDs : list Z) (command : option DurableCommand) (flags : Flags) (response : durable_response) (commandID : Z) (w : Written) (before : BeforeCommit) : mut Answer :=
  pc <=~ build_candidate ;;
  pl <=~ prepare (wr_teardown w) pc.2 ;; let '(c, plan) := pl in
  events <=~ ensure (accountStateEvents (wr_change w) (version c)) ;;
  reserved <=~ reserve_account userIDs pc.1 c (tp_events plan ++ events) ;;
  match before with Some f => f commandID reserved | None => mret tt end ;;=
  state <=~ match command with
            | Some d => save_account d flags commandID w response (pu_Version reserved) (pu_Checkpoint reserved)
            | None => mret (unsaved commandID)
            end ;;
  commit CallCommit ;;= invalidate userIDs ;;= mret (mkMutation (Some (wr_value w)) state, tp_before plan, tp_after plan).

(** The [Execute] callback. *)
Definition execute_account (userIDs : list Z) (command : option DurableCommand) (response : durable_response) (mutate : AccountMutation) (commandID : Z) : mut Answer :=
  replay <=~ replay_account command ;;
  match replay with
  | Some state => mret (plain (mkMutation None state))
  | None =>
      begin_tx ;;=
      flags <=~ admit_account command ;;
      wb <=~ mutate ;;
      if wr_noop wb.1 then finish_noop command flags response commandID wb.1 else finish_written userIDs command flags response commandID wb.1 wb.2
  end.
Context (error_code : err -> Z).
Definition account_script (m : mut Answer) (t : Tx.Tx) : Script C world (MutationResult AccountValue) :=
  m t (fun r _ => match r with Ok a => Return (output a) | Err (ErrOfSequencer e) => Throw e | Err e => Throw (ErrCallback (error_code e)) end).
(** The submitted command; [acquire] takes the locks of the users, the gate and their relay gates. *)
Definition Run (acquire : world -> world * Acquired (W := world)) (userIDs : list Z) (command : option DurableCommand) (response : durable_response) (mutate : AccountMutation) (t : Tx.Tx)
    (canceled : bool) : PostCommitCommand C world (MutationResult AccountValue) :=
  mkCommand 1 0 (Some acquire) (fun commandID => account_script (execute_account userIDs command response mutate commandID) t) canceled false false.

(** What [Run] reports beside the value: the checkpoint and cursor of the publication where none were saved. *)
Definition finish_account (userIDs : list Z) (c : CommandCompletion (MutationResult AccountValue)) : StateCommand :=
  let st := mr_state (cc_Value c) in
  if is_some (sc_Replay st) then st
  else
    let cp := if bool_decide (cp_StreamEpoch (sc_Checkpoint st) = "") then match cc_Publication c with Some p => pu_Checkpoint p | None => no_checkpoint end else sc_Checkpoint st in
    let cursor := if bool_decide (sc_Cursor st = "")
                  then match cc_Publication c, userIDs with Some p, [u] => default "" (IssueStateCursor u (pu_Version p)) | _, _ => "" end else sc_Cursor st in
    mkStateCommand (cc_CommandID c) cursor cp None.

(** *** The mutations *)

Definition ordinary (m : Act err Written) : AccountMutation := mbind (act m) (fun w => mret (w, None)).
Definition submit (acquire : world -> world * Acquired (W := world)) (command : option DurableCommand) (response : durable_response) (t : Tx.Tx) (canceled : bool)
    (op : AccountOp) : result (PostCommitCommand C world (MutationResult AccountValue)) err :=
  if self_action op then Err (Own ErrSelfAction) else Ok (Run acquire (op_users op) command response (ordinary (op_body op)) t canceled).
(** First-owner activation keeps its own durable record; [user_body] is the envelope of the new user. *)
Definition save_activation (flags : Flags) (identity : InstallationCommandIdentity) (key body : string) (userID commandID : Z) (p : PublicationResult) : mut unit :=
  cursor <=~ issue IssueStateCursor userID (pu_Version p) ;;
  durable (SaveActivation ToUpper hmac_sha256 signer flags identity key (mkCommandResult commandID 200 body no_headers (pu_Checkpoint p) cursor)) ;;= mret tt.
Definition activation (user_body : UserRow -> option string) (identity : InstallationCommandIdentity) (key username hash nickname : string) : AccountMutation :=
  flags <=~ durable (Admit with_tx) ;;
  w <=~ act (activate username hash nickname) ;;
  match wr_value w with
  | VUser user => body <=~ encoded (user_body user) ;; mret (w, Some (save_activation flags identity key body (ur_ID user)))
  | _ => mthrow ErrRealtimeUnavailable
  end.
End Run.
End Account.
