(* ===== verification/AccountTables.v ===== *)
(** * AccountTables: what account mutations write

    The bodies of account mutations keep the schema, change nobody's principal
    but those whom the command locks, and the ones that tear an account down
    leave it unable to be admitted. *)

From S2P Require Import Prelude State StateProps Rbac Support Database DatabaseProps Stores Installation InstallationProps Snapshot Connection EventBus Publication.
From S2P Require Import Sequencer Identity Idempotency Durable DurableProps Events Service ServiceProps ChannelService Voice Password Auth AuthProps Account.
From stdpp Require Import base gmap strings list sorting.
From Stdlib Require Import ZArith Lia.
#[local] Open Scope string_scope.
#[local] Open Scope list_scope.
#[local] Open Scope Z_scope.

Module AccountTables.
Import State StateProps Database DatabaseProps InstallationProps ServiceProps Auth AuthProps Account.
Import Stores.Tx (StoreEnv, Act, fault, clock, gen, tx_db, tx_step, tx_gen, next_step, mkTx).
Import Sequencer (is_some).
Import Service (ServiceError, Own, ErrOfStore).
#[local] Abbreviation err := (ServiceError AuthError).

(** ** A user whom nobody touched *)

Record spared (d d' : Db) (u : Z) : Prop := {
  sp_user : t_users d' !! u = t_users d !! u;
  sp_bindings : forall k b, br_UserID b = u -> t_bindings d' !! k = Some b <-> t_bindings d !! k = Some b
}.
Lemma spared_refl d u : spared d d u. Proof. done. Qed.
Lemma spared_trans a b c u : spared a b u -> spared b c u -> spared a c u.
Proof. intros [S1 S2] [S3 S4]. split; [congruence|]. intros k x Hx. by rewrite S4, S2. Qed.
Lemma spared_tables d d' u : t_users d' = t_users d -> t_bindings d' = t_bindings d -> spared d d' u.
Proof. intros E1 E2. split; [by rewrite E1|]. intros. by rewrite E2. Qed.
Lemma synced_spared d d' u : synced d d' -> spared d d' u.
Proof. intros []. by apply spared_tables. Qed.

Lemma StronglySorted_filter {A} (R : relation A) (P : A -> Prop) `{forall x, Decision (P x)} l : StronglySorted R l -> StronglySorted R (filter P l).
Proof.
  induction 1 as [|x l Hs IH Hf]; [constructor|]. rewrite filter_cons. case_decide; [|done]. constructor; [done|].
  apply Forall_forall. intros y [_ Hy]%list_elem_of_filter. by eapply Forall_forall in Hf.
Qed.
(** Rows of one table in key order are determined by which rows there are. *)
Lemma rows_of_user `{!SqlPrims} d d' u : db_ok d -> db_ok d' -> spared d d' u ->
  filter (fun b => br_UserID b = u) (list_rows (t_bindings d')) = filter (fun b => br_UserID b = u) (list_rows (t_bindings d)).
Proof.
  intros Hd Hd' [_ Hb].
  assert (Hk : forall d, db_ok d -> forall k b, t_bindings d !! k = Some b -> br_ID b = k) by (intros x Hx k b Hl; by apply (to_row _ _ _ _ (ok_bindings _ Hx))).
  assert (Hs : forall d, db_ok d -> StronglySorted (by_key br_ID) (filter (fun b => br_UserID b = u) (list_rows (t_bindings d))) /\
    NoDup (filter (fun b => br_UserID b = u) (list_rows (t_bindings d)))).
  { intros x Hx. split; [apply StronglySorted_filter, values_sorted; by apply Hk|]. apply NoDup_filter, (NoDup_fmap_1 br_ID), values_NoDup. by apply Hk. }
  destruct (Hs _ Hd) as [S1 N1], (Hs _ Hd') as [S2 N2]. eapply StronglySorted_unique_strong; [|exact S2|exact S1|].
  - intros x y [Hx Hxin]%list_elem_of_filter [_ Hyin]%list_elem_of_filter L1 L2. apply elem_of_values in Hxin as [k Hxk], Hyin as [j Hyj].
    pose proof (Hk _ Hd' _ _ Hxk) as <-. pose proof (Hk _ Hd _ _ Hyj) as <-. apply Hb in Hxk; [|done]. unfold by_key in *.
    assert (E : br_ID x = br_ID y) by lia. rewrite E in Hxk. congruence.
  - apply NoDup_Permutation; [done|done|]. intros x. rewrite !list_elem_of_filter. split; intros [Hx Hin]; (split; [done|]);
      apply elem_of_values in Hin as [k Hin]; apply elem_of_values; exists k; by apply Hb.
Qed.
Lemma spared_snapshot `{!SqlPrims} d d' u : db_ok d -> db_ok d' -> spared d d' u -> snapshot_of d' u = snapshot_of d u.
Proof. intros Hd Hd' Hs. unfold snapshot_of. by rewrite (rows_of_user d d' u), (sp_user _ _ _ Hs). Qed.

(** ** Operations that touch only some users *)

Section Within.
Context `{!StoreEnv, !SqlPrims, !ConfigJson}.
Definition within {E A} (us : list Z) (m : Act E A) : Prop := forall t u, u ∉ us -> spared (tx_db t) (tx_db (m t).2) u.

Lemma within_still {E A} us (m : Act E A) : still m -> within us m.
Proof. intros Hm t u _. by rewrite Hm. Qed.
Lemma within_bind {E A B} us (m : Act E A) (f : A -> Act E B) : within us m -> (forall a, within us (f a)) -> within us (Tx.bind m f).
Proof.
  intros Hm Hf t u Hu. unfold Tx.bind. specialize (Hm t u Hu). destruct (m t) as [[a|e] t']; [|done]. cbn in Hm. eapply spared_trans; [exact Hm|]. by apply Hf.
Qed.
Lemma within_attempt {E F A} us (m : Act E A) : within us m -> within us (Tx.attempt (F := F) m).
Proof. intros Hm t u Hu. unfold Tx.attempt. specialize (Hm t u Hu). by destruct (m t). Qed.
Lemma within_raise {E F A} us (f : E -> F) (m : Act E A) : within us m -> within us (Tx.raise f m).
Proof. intros Hm t u Hu. unfold Tx.raise. specialize (Hm t u Hu). by destruct (m t) as [[]]. Qed.
Lemma within_query {A} us (s : Stmt A) : (forall d a d', s d = Ok (a, d') -> forall u, u ∉ us -> spared d d' u) -> within us (Tx.query s).
Proof. intros Hs t u Hu. unfold Tx.query. destruct (fault _); [done|]. destruct (s (tx_db t)) as [[a d]|e] eqn:E; [|done]. by eapply Hs. Qed.

Lemma update_user_within f id (us : list Z) d a d' : id ∈ us -> update_user f id d = Ok (a, d') -> forall u, u ∉ us -> spared d d' u.
Proof.
  intros Hid (rm & Hr & [= _ <-])%rbind_Ok u Hu. destruct rm as [r m]. apply update_row_inv in Hr as (old & _ & _ & _ & _ & ->). split; [|done]. cbn.
  apply lookup_insert_ne. intros <-. by apply Hu.
Qed.
Lemma execute_user_within f id (us : list Z) d n d' : id ∈ us -> execute_user f id d = Ok (n, d') -> forall u, u ∉ us -> spared d d' u.
Proof.
  intros Hid. unfold execute_user. destruct (update_user f id d) as [[a x]|[]] eqn:E; try done; intros [= _ <-]; [by eapply update_user_within|done].
Qed.
Lemma DeleteUser_within id (us : list Z) d n d' : id ∈ us -> Database.DeleteUser id d = Ok (n, d') -> forall u, u ∉ us -> spared d d' u.
Proof.
  intros Hid (row & _ & [= _ <-])%rbind_Ok u Hu. assert (Hne : id <> u) by (by intros ->). split; cbn; [by apply lookup_delete_ne|].
  intros k b Hb. rewrite drop_rows_Some. assert ((br_UserID b =? id) = false) as -> by (apply Z.eqb_neq; congruence). tauto.
Qed.
Lemma within_now us : within us Tx.now. Proof. apply within_still, still_now. Qed.
End Within.

Create HintDb tables.
#[export] Hint Resolve within_bind within_attempt within_raise within_now sound_bind sound_attempt sound_raise sound_now sound_nextID : tables.

(** One operation at a time. *)
Ltac tables_step := match goal with
  | |- within _ (Tx.bind _ _) => apply within_bind; [|intros ?]
  | |- within _ (Tx.raise _ _) => apply within_raise
  | |- within _ (Auth.stored _) => apply within_raise
  | |- within _ (Auth.refuse _) => apply within_still, still_throw
  | |- within _ (Tx.attempt _) => apply within_attempt
  | |- within _ (match ?x with _ => _ end) => destruct x
  | |- within _ (Tx.ret _) => apply within_still, still_ret
  | |- within _ (Tx.throw _) => apply within_still, still_throw
  | |- within _ _ => first [solve [auto with tables]|apply within_still; solve [auto with tables]]
  | |- sound (Tx.bind _ _) => apply sound_bind; [|intros ?]
  | |- sound (Tx.raise _ _) => apply sound_raise
  | |- sound (Auth.stored _) => apply sound_raise
  | |- sound (Auth.refuse _) => apply sound_throw
  | |- sound (Tx.attempt _) => apply sound_attempt
  | |- sound (match ?x with _ => _ end) => destruct x
  | |- sound (Tx.ret _) => apply sound_ret
  | |- sound (Tx.throw _) => apply sound_throw
  | |- sound _ => first [solve [auto with tables]|apply still_sound; solve [auto with tables]]
  end.

Section Reads.
Context `{!StoreEnv, !SqlPrims, !ConfigJson}.
Lemma still_GetByID id : still (UserStore.GetByID id). Proof. apply still_reading. Qed.
Lemma still_Bindings id : still (RoleStore.ListBindings id). Proof. apply still_reading. Qed.
Lemma still_isOwner id : still (isOwner id).
Proof. unfold isOwner, Auth.stored. apply still_bind; [apply still_raise, still_Bindings|intros ?; apply still_ret]. Qed.
Lemma still_PermissionsForRole key : still (ConfigStore.PermissionsForRole key).
Proof. unfold ConfigStore.PermissionsForRole, ConfigStore.Server. store_still. Qed.
Lemma still_permitted required l : still (permitted required l).
Proof.
  induction l as [|b l IH]; cbn; [apply still_throw|]. destruct (negb _); [done|]. apply still_bind; [apply still_raise, still_PermissionsForRole|].
  intros [p|]; [|done]. destruct (existsb _ _); [apply still_ret|done].
Qed.
Lemma still_required actorID p : still (requireServerPermission actorID p).
Proof. unfold requireServerPermission. apply still_bind; [apply still_raise, still_Bindings|intros ?; apply still_permitted]. Qed.
Lemma still_unprotected id : still (unprotected id).
Proof.
  unfold unprotected. apply still_bind; [apply still_raise, still_GetByID|intros ?]. apply still_bind; [apply still_isOwner|intros []]; [apply still_throw|apply still_ret].
Qed.
End Reads.
#[export] Hint Resolve still_GetByID still_isOwner still_required still_unprotected : tables.

Section Writes.
Context `{!StoreEnv, !SqlPrims, !ConfigJson}.
Lemma sound_UpdateNickname id n : sound (UserStore.UpdateNickname id n). Proof. unfold UserStore.UpdateNickname. store_sound. Qed.
Lemma sound_SetPasswordHash id h : sound (UserStore.SetPasswordHash id h). Proof. unfold UserStore.SetPasswordHash. store_sound. Qed.
Lemma sound_Ban id : sound (UserStore.Ban id). Proof. unfold UserStore.Ban. store_sound. Qed.
Lemma sound_Unban id : sound (UserStore.Unban id). Proof. unfold UserStore.Unban. store_sound. Qed.
Lemma sound_Bump id : sound (UserStore.BumpAuthVersion id). Proof. unfold UserStore.BumpAuthVersion. store_sound. Qed.
Lemma sound_DeleteUser id : sound (UserStore.Delete id). Proof. unfold UserStore.Delete. store_sound. Qed.
Lemma sound_CreateUser n h k a : sound (UserStore.Create n h k a). Proof. unfold UserStore.Create. store_sound. Qed.
Lemma sound_DeleteUserSessions id : sound (SessionStore.DeleteUserSessions id). Proof. unfold SessionStore.DeleteUserSessions. store_sound. Qed.
Lemma sound_Binding u r ty g c : sound (RoleStore.InsertBinding u r ty g c). Proof. unfold RoleStore.InsertBinding, RoleStore.insertBinding. store_sound. Qed.
Lemma sound_Consume id : sound (InviteStore.Consume id). Proof. unfold InviteStore.Consume. store_sound. Qed.

Lemma within_UpdateNickname us id n : id ∈ us -> within us (UserStore.UpdateNickname id n).
Proof. intros Hid. unfold UserStore.UpdateNickname. repeat tables_step. apply within_query. intros d x d'. by apply update_user_within. Qed.
Lemma within_SetPasswordHash us id h : id ∈ us -> within us (UserStore.SetPasswordHash id h).
Proof. intros Hid. unfold UserStore.SetPasswordHash. repeat tables_step. apply within_query. intros d x d'. by apply execute_user_within. Qed.
Lemma within_Ban us id : id ∈ us -> within us (UserStore.Ban id).
Proof. intros Hid. unfold UserStore.Ban. repeat tables_step. apply within_query. intros d x d'. by apply execute_user_within. Qed.
Lemma within_Unban us id : id ∈ us -> within us (UserStore.Unban id).
Proof. intros Hid. unfold UserStore.Unban. repeat tables_step. apply within_query. intros d x d'. by apply execute_user_within. Qed.
Lemma within_Bump us id : id ∈ us -> within us (UserStore.BumpAuthVersion id).
Proof. intros Hid. unfold UserStore.BumpAuthVersion. repeat tables_step. apply within_query. intros d x d'. by apply execute_user_within. Qed.
Lemma within_DeleteUser us id : id ∈ us -> within us (UserStore.Delete id).
Proof. intros Hid. unfold UserStore.Delete. repeat tables_step. apply within_query. intros d x d'. by apply DeleteUser_within. Qed.
Lemma within_DeleteUserSessions us id : within us (SessionStore.DeleteUserSessions id).
Proof. apply within_query. intros d a d' [= _ <-] u _. by apply spared_tables. Qed.
Lemma within_Consume us id : within us (InviteStore.Consume id).
Proof.
  unfold InviteStore.Consume. repeat tables_step. apply within_query. intros d i d'. unfold ConsumeInvite. intros (row & _ & Hr)%rbind_Ok u _.
  destruct (_ && _); [|done]. injection Hr as _ <-. by apply spared_tables.
Qed.
Lemma within_InsertBinding us u r ty g c : u ∈ us -> within us (RoleStore.InsertBinding u r ty g c).
Proof.
  intros Hid. unfold RoleStore.InsertBinding, RoleStore.insertBinding. destruct (bool_decide _); [apply within_still, still_throw|]. apply within_bind; [apply within_still, still_nextID|].
  intros id. repeat tables_step. apply within_query. intros d b d'. unfold InsertRoleBinding. intros (m & Hm & [= _ <-])%rbind_Ok v Hv.
  apply insert_row_inv in Hm as (_ & Hfresh & _ & _ & ->). split; [done|]. intros k x Hx. cbn. rewrite lookup_insert_Some. split.
  - intros [[_ <-]|[_ ?]]; [|done]. cbn in Hx. by subst v.
  - intros Hk. right. split; [|done]. intros ->. by rewrite Hfresh in Hk.
Qed.
End Writes.
#[export] Hint Resolve sound_UpdateNickname sound_SetPasswordHash sound_Ban sound_Unban sound_Bump sound_DeleteUser sound_CreateUser sound_DeleteUserSessions
  sound_Binding sound_Consume within_UpdateNickname within_SetPasswordHash within_Ban within_Unban within_Bump within_DeleteUser within_DeleteUserSessions
  within_Consume within_InsertBinding : tables.
#[export] Hint Extern 1 (_ ∈ [_]) => apply list_elem_of_singleton; reflexivity : tables.
#[export] Hint Extern 1 (_ ∈ [_; ?x]) => right; left : tables.

(** ** The mutations *)

Section Operations.
Context `{!StoreEnv, !SqlPrims, !ConfigJson}.
Lemma op_sound op : sound (op_body op).
Proof.
  destruct op; cbn; unfold update_profile, update_managed_profile, kick, ban, unban, delete_user, change_password, reset_password, replace_password, register; repeat tables_step.
Qed.
(** The identifier of a new user is new. *)
Lemma Create_fresh n h k a t r t' : UserStore.Create n h k a t = (r, t') ->
  match r with Ok row => t_users (tx_db t) !! ur_ID row = None | Err _ => tx_db t' = tx_db t end /\
  forall u, match r with Ok row => u <> ur_ID row | Err _ => True end -> spared (tx_db t) (tx_db t') u.
Proof.
  unfold UserStore.Create, Tx.bind, Tx.nextID. destruct (Tx.idNext _) as [[id|e] g]; [|intros [= <- <-]; done]. cbn. unfold Tx.query, next_step. cbn.
  destruct (fault _); [intros [= <- <-]; done|]. unfold CreateUser. destruct (insert_row _ _ _ _ _ _) as [m|e] eqn:E; cbn; intros [= <- <-]; [|done].
  apply insert_row_inv in E as (_ & Hn & _ & _ & ->). cbn. split; [done|]. intros u Hu. split; [|done]. cbn. by apply lookup_insert_ne.
Qed.
(** Nobody is touched but those whom the command locks, and a user who was not there. *)
Lemma op_within op t w t' : op_body op t = (Ok w, t') -> forall u, u ∉ op_users op -> spared (tx_db t) (tx_db t') u \/ t_users (tx_db t) !! u = None.
Proof.
  intros Hr u Hu. destruct op as [| | | | | | | |n h k r inv].
  9: { cbn in Hr. unfold register, Tx.bind at 1, Tx.attempt at 1 in Hr. destruct (UserStore.Create n h k None t) as [[row|er] t1] eqn:Ec;
         apply Create_fresh in Ec as [Hn Hs]; [|by destruct er]. destruct (decide (u = ur_ID row)) as [->|Hne]; [by right|left]. eapply spared_trans; [by apply Hs|].
       match type of Hr with ?m t1 = _ => assert (Hw : within [ur_ID row] m) by repeat tables_step; specialize (Hw t1 u) end.
       rewrite Hr in Hw. apply Hw. by intros ?%list_elem_of_singleton. }
  all: left; match type of Hr with op_body ?o _ = _ => assert (Hw : within (op_users o) (op_body o));
    [cbn; unfold update_profile, update_managed_profile, kick, ban, unban, delete_user, change_password, reset_password, replace_password; repeat tables_step|
     specialize (Hw t u Hu); by rewrite Hr in Hw] end.
Qed.
Lemma still_run {E A} (m : Act E A) t a t' : still m -> m t = (Ok a, t') -> tx_db t' = tx_db t.
Proof. intros Hm Hr. specialize (Hm t). by rewrite Hr in Hm. Qed.
Lemma stored_run {A} (m : Tx.Store A) t a t' : Auth.stored m t = (Ok a, t') -> m t = (Ok a, t').
Proof. apply DurableProps.raise_Ok. Qed.
Lemma ret_run {E A} (a b : A) t t' : Tx.ret (E := E) a t = (Ok b, t') -> b = a /\ t' = t.
Proof. by intros [= <- <-]. Qed.
Ltac walk := repeat match goal with
  | H : Tx.bind _ _ _ = (Ok _, _) |- _ => apply bind_Ok in H as (? & ? & ? & H)
  | H : Tx.ret _ _ = (Ok _, _) |- _ => apply ret_run in H as [? ->]; simplify_eq
  | H : Tx.throw _ _ = (Ok _, _) |- _ => discriminate H
  | H : Auth.refuse _ _ = (Ok _, _) |- _ => discriminate H
  | H : (if ?b then _ else _) _ = (Ok _, _) |- _ => destruct b
  | H : (match ?x with _ => _ end) _ = (Ok _, _) |- _ => destruct x
  end.
(** A mutation that announces nothing wrote nothing. *)
Lemma op_noop op t w t' : op_body op t = (Ok w, t') -> wr_noop w = true -> tx_db t' = tx_db t.
Proof.
  destruct op; cbn; unfold update_profile, update_managed_profile, kick, ban, unban, delete_user, change_password, reset_password, replace_password, register.
  all: intros Hr Hn; walk; try discriminate Hn.
  - match goal with H : Auth.stored _ _ = _ |- _ => apply stored_run, still_run in H; [done|apply still_GetByID] end.
  - match goal with H1 : requireServerPermission _ _ _ = _, H2 : Auth.stored _ _ = _ |- _ =>
      apply stored_run, still_run in H2; [|apply still_GetByID]; apply still_run in H1; [congruence|apply still_required] end.
Qed.

(** ** Teardown *)

(** After a revocation the user is gone, banned, or without a session and with every earlier token outdated. *)
Definition revoked (d d' : Db) (u : Z) : Prop :=
  match t_users d' !! u with
  | None => True
  | Some row => is_Some (ur_BannedAt row) \/
      ((forall old, t_users d !! u = Some old -> ur_AuthVersion old < ur_AuthVersion row) /\ forall k s, t_sessions d' !! k = Some s -> sr_UserID s <> u)
  end.
Lemma revoked_synced d1 d2 d1' d2' u : synced d1 d1' -> synced d2 d2' -> revoked d1' d2 u -> revoked d1 d2' u.
Proof. intros [] []. unfold revoked. rewrite sy_users1, sy_users0, sy_sessions1. done. Qed.
Lemma execute_user_run f id d n d' : execute_user f id d = Ok (n, d') ->
  t_sessions d' = t_sessions d /\ t_users d' !! id = f <$> t_users d !! id.
Proof.
  unfold execute_user, update_user, update_row. destruct (t_users d !! id) as [row|] eqn:E; cbn; [|intros [= _ <-]; by rewrite E].
  destruct (negb _); cbn; [done|]. intros [= _ <-]. cbn. by rewrite lookup_insert_eq.
Qed.
(** Outdated tokens, then no sessions. *)
Lemma outdated_revoked d1 d2 d3 u : (forall row, t_users d2 !! u = Some row -> forall old, t_users d1 !! u = Some old -> ur_AuthVersion old < ur_AuthVersion row) ->
  Database.DeleteUserSessions u d2 = Ok (tt, d3) -> revoked d1 d3 u.
Proof.
  intros Hv [= <-]. unfold revoked. cbn. destruct (t_users d2 !! u) as [row|]; [|done]. right. split; [by apply Hv|].
  intros k x [_ Hx%Z.eqb_neq]%drop_rows_Some. done.
Qed.
Lemma Bump_outdates id t t' : UserStore.BumpAuthVersion id t = (Ok tt, t') ->
  forall row, t_users (tx_db t') !! id = Some row -> forall old, t_users (tx_db t) !! id = Some old -> ur_AuthVersion old < ur_AuthVersion row.
Proof.
  unfold UserStore.BumpAuthVersion. intros Hr. walk. repeat match goal with H : Tx.now _ = _ |- _ => apply now_Ok in H as E1 | H : Tx.query _ _ = _ |- _ => apply query_Ok, execute_user_run in H as [_ E2] end.
  rewrite E2, E1. intros row Hrow old Hold. rewrite Hold in Hrow. injection Hrow as <-. cbn. lia.
Qed.
Lemma SetPassword_outdates id h t t' : UserStore.SetPasswordHash id h t = (Ok tt, t') ->
  forall row, t_users (tx_db t') !! id = Some row -> forall old, t_users (tx_db t) !! id = Some old -> ur_AuthVersion old < ur_AuthVersion row.
Proof.
  unfold UserStore.SetPasswordHash. intros Hr. walk. repeat match goal with H : Tx.now _ = _ |- _ => apply now_Ok in H as E1 | H : Tx.query _ _ = _ |- _ => apply query_Ok, execute_user_run in H as [_ E2] end.
  rewrite E2, E1. intros row Hrow old Hold. rewrite Hold in Hrow. injection Hrow as <-. cbn. lia.
Qed.
Lemma replace_revokes u hash reason t w t' : replace_password u hash reason t = (Ok w, t') -> revoked (tx_db t) (tx_db t') u.
Proof.
  unfold replace_password. intros Hr. walk. repeat match goal with H : Auth.stored _ _ = _ |- _ => apply stored_run in H end.
  repeat match goal with x : unit |- _ => destruct x end.
  match goal with H1 : UserStore.SetPasswordHash _ _ _ = _, H2 : SessionStore.DeleteUserSessions _ _ = _ |- _ =>
    apply query_Ok in H2; exact (outdated_revoked _ _ _ _ (SetPassword_outdates _ _ _ _ H1) H2) end.
Qed.
Lemma kick_revokes a u t w t' : kick a u t = (Ok w, t') -> revoked (tx_db t) (tx_db t') u.
Proof.
  unfold kick. intros Hr. walk. repeat match goal with H : Auth.stored _ _ = _ |- _ => apply stored_run in H | x : unit |- _ => destruct x end.
  match goal with H1 : requireServerPermission _ _ _ = _, H2 : unprotected _ _ = _, H3 : UserStore.BumpAuthVersion _ _ = _, H4 : SessionStore.DeleteUserSessions _ _ = _ |- _ =>
    apply still_run in H1; [|apply still_required]; apply still_run in H2; [|apply still_unprotected]; rewrite <- H1, <- H2;
    apply query_Ok in H4; exact (outdated_revoked _ _ _ _ (Bump_outdates _ _ _ H3) H4) end.
Qed.
Lemma ban_revokes a u t w t' : ban a u t = (Ok w, t') -> revoked (tx_db t) (tx_db t') u.
Proof.
  unfold ban, UserStore.Ban. intros Hr. walk. repeat match goal with H : Auth.stored _ _ = _ |- _ => apply stored_run in H; walk end.
  match goal with H : Tx.query _ _ = _ |- _ => apply query_Ok, execute_user_run in H as [_ E] end. unfold revoked. rewrite E.
  match goal with |- context [_ <$> ?o] => destruct o end; cbn; [|done]. left. by eexists.
Qed.
Lemma delete_revokes a u t w t' : delete_user a u t = (Ok w, t') -> revoked (tx_db t) (tx_db t') u.
Proof.
  unfold delete_user, UserStore.Delete. intros Hr. walk. repeat match goal with H : Auth.stored _ _ = _ |- _ => apply stored_run in H; walk end.
  match goal with H : Tx.query _ _ = _ |- _ => apply query_Ok in H; apply rbind_Ok in H as (row & _ & [= _ E]) end. unfold revoked. rewrite <- E. cbn. by rewrite lookup_delete_eq.
Qed.
(** The account a mutation tears down. *)
Definition op_target (op : AccountOp) : option Z :=
  match op with Kick _ u | Ban _ u | DeleteUser _ u | ChangePassword u _ | ResetPassword _ u _ => Some u | _ => None end.
Lemma op_teardown op t w t' u : op_body op t = (Ok w, t') -> op_target op = Some u -> wr_noop w = false /\ exists reason, wr_teardown w = Some (u, reason).
Proof.
  destruct op; cbn; unfold kick, ban, delete_user, change_password, reset_password, replace_password; intros Hr [= <-]; walk; (split; [done|]); by eexists.
Qed.
Lemma op_revokes op t w t' u : op_body op t = (Ok w, t') -> op_target op = Some u -> revoked (tx_db t) (tx_db t') u.
Proof.
  destruct op; cbn; intros Hr [= <-].
  - by eapply kick_revokes.
  - by eapply ban_revokes.
  - by eapply delete_revokes.
  - by eapply replace_revokes.
  - unfold reset_password in Hr. walk. match goal with H1 : requireServerPermission _ _ _ = _, H2 : isOwner _ _ = _ |- _ =>
      apply still_run in H1; [|apply still_required]; apply still_run in H2; [|apply still_isOwner]; rewrite <- H1, <- H2 end. by eapply replace_revokes.
Qed.

(** ** What a mutation checked *)

(** The role grants the permission at the server. *)
Definition role_grants (d : Db) (key permission : string) : Prop := is_Some (t_roles d !! key) /\
  (key = "owner" \/ exists row m l, t_configs d !! server_scope = Some row /\ json_config (cf_Config row) = Some m /\ default ∅ m !! key = Some l /\ (Permissions.Wildcard ∈ l \/ permission ∈ l)).
Definition holds (d : Db) (u : Z) (permission : string) : Prop := exists k b, t_bindings d !! k = Some b /\ br_UserID b = u /\ br_ScopeType b = "server" /\ role_grants d (br_RoleKey b) permission.
Definition owner_in (d : Db) (u : Z) : Prop := exists k b, t_bindings d !! k = Some b /\ br_UserID b = u /\ br_ScopeType b = "server" /\ br_RoleKey b = "owner".
Definition op_allowed (d : Db) (op : AccountOp) : Prop :=
  match op with
  | UpdateProfile _ _ | ChangePassword _ _ => True
  | UpdateManagedProfile a _ _ | Unban a _ => holds d a PermUserUpdate
  | Kick a u => holds d a PermUserKick /\ ~ owner_in d u
  | Ban a u | ResetPassword a u _ => holds d a PermUserUpdate /\ ~ owner_in d u
  | DeleteUser a u => holds d a PermUserDelete /\ ~ owner_in d u
  | Register _ _ _ role invite => role <> "owner" /\ match invite with
      | Some i => exists row, t_invites d !! ir_ID i = Some row /\ 0 < ir_UsesLeft row
      | None => True end
  end.
Lemma Bindings_listed u t l t' : RoleStore.ListBindings u t = (Ok l, t') -> tx_db t' = tx_db t /\
  forall b, b ∈ l <-> br_UserID b = u /\ exists k, t_bindings (tx_db t) !! k = Some b.
Proof.
  intros Hr. pose proof (still_run _ _ _ _ (still_Bindings u) Hr) as Hd. split; [done|]. apply query_Ok in Hr. unfold ListRoleBindingsForUser, reading in Hr. cbn in Hr.
  injection Hr as <- _. intros b. rewrite merge_sort_Permutation, list_elem_of_filter. unfold list_rows. by rewrite elem_of_values.
Qed.
Lemma PermissionsForRole_run key t l t' permission : ConfigStore.PermissionsForRole key t = (Ok (Some l), t') -> Permissions.Wildcard ∈ l \/ permission ∈ l ->
  db_ok (tx_db t) -> role_grants (tx_db t) key permission.
Proof.
  intros Hr Hin Hd. unfold ConfigStore.PermissionsForRole in Hr. apply bind_Ok in Hr as (x & t1 & Hx & Hr). unfold Tx.attempt in Hx.
  destruct (Tx.query (GetRoleByKey key) t) as [r t2] eqn:Eq. injection Hx as -> ->. destruct x as [role|er]; [|by destruct er].
  pose proof (still_run _ _ _ _ (still_reading _) Eq) as Hd1. apply query_Ok in Eq. unfold GetRoleByKey, reading, get_row in Eq.
  destruct (t_roles (tx_db t) !! key) as [row|] eqn:Er; [|done]. injection Eq as -> _. destruct (to_row _ _ _ _ (ok_roles _ Hd) _ _ Er) as [Hk _].
  split; [by eexists|]. case_bool_decide; [left; congruence|right]. apply bind_Ok in Hr as (raw & t3 & Hc & Hr). apply query_Ok in Hc. rewrite Hd1 in Hc.
  unfold GetServerPermissionConfig, reading, get_row in Hc. destruct (t_configs (tx_db t) !! server_scope) as [cfg|]; [|done]. injection Hc as <- _.
  destruct (json_config (cf_Config cfg)) as [m|] eqn:Ej; [|done]. injection Hr as <- _. destruct (default ∅ m !! key) as [ps|] eqn:El; cbn in Hin; [|by destruct Hin as [?%not_elem_of_nil|?%not_elem_of_nil]].
  by exists cfg, m, ps.
Qed.
Lemma permitted_run required l t t' : db_ok (tx_db t) -> permitted required l t = (Ok tt, t') -> exists b, b ∈ l /\ br_ScopeType b = "server" /\ role_grants (tx_db t) (br_RoleKey b) required.
Proof.
  revert t. induction l as [|b l IH]; intros t Hd; [done|]. cbn. case_bool_decide as Hs; cbn [negb].
  2: { intros Hr. destruct (IH t Hd Hr) as (x & ? & ? & ?). exists x. split; [by right|done]. }
  intros (ps & t1 & Hp & Hr)%bind_Ok. apply stored_run in Hp. pose proof (still_run _ _ _ _ (still_PermissionsForRole _) Hp) as Hd1.
  assert (Hrest : permitted required l t1 = (Ok tt, t') -> exists x, x ∈ b :: l /\ br_ScopeType x = "server" /\ role_grants (tx_db t) (br_RoleKey x) required).
  { intros Hx. destruct (IH t1) as (x & ? & ? & ?); [by rewrite Hd1|done|]. exists x. rewrite <- Hd1. split; [by right|done]. }
  destruct ps as [ps|]; [|by apply Hrest]. destruct (existsb _ ps) eqn:Ee; [|by apply Hrest]. exists b. split; [by left|]. split; [done|].
  apply existsb_exists in Ee as (p & Hin%list_elem_of_In & Hp'). eapply PermissionsForRole_run; [exact Hp| |done].
  apply orb_true_iff in Hp' as [->%bool_decide_eq_true| ->%bool_decide_eq_true]; [by left|by right].
Qed.
Lemma required_run a permission t t' : db_ok (tx_db t) -> requireServerPermission a permission t = (Ok tt, t') -> holds (tx_db t) a permission /\ tx_db t' = tx_db t.
Proof.
  intros Hd Hr. split; [|exact (still_run _ _ _ _ (still_required a permission) Hr)]. unfold requireServerPermission in Hr. apply bind_Ok in Hr as (l & t1 & Hl & Hr).
  apply stored_run in Hl. destruct (Bindings_listed _ _ _ _ Hl) as [Hd1 Hm]. destruct (permitted_run permission l t1 t') as (b & Hin & Hs & Hg); [by rewrite Hd1|done|].
  apply Hm in Hin as (Hu & k & Hk). exists k, b. rewrite <- Hd1. split_and!; try done. by rewrite Hd1.
Qed.
Lemma isOwner_run u t o t' : isOwner u t = (Ok o, t') -> tx_db t' = tx_db t /\ (o = false -> ~ owner_in (tx_db t) u).
Proof.
  intros Hr. split; [exact (still_run _ _ _ _ (still_isOwner u) Hr)|]. unfold isOwner in Hr. apply bind_Ok in Hr as (l & t1 & Hl & Hr). apply stored_run in Hl.
  destruct (Bindings_listed _ _ _ _ Hl) as [_ Hm]. injection Hr as <- _. intros Hf (k & b & Hk & Hu & Hs & Ho).
  assert (Ht : existsb (fun b => bool_decide (br_ScopeType b = "server") && bool_decide (br_RoleKey b = ownerRole)) l = true).
  { apply existsb_exists. exists b. split; [apply list_elem_of_In, Hm; eauto|]. rewrite Hs, Ho. done. }
  congruence.
Qed.
Lemma unprotected_run u t x t' : unprotected u t = (Ok x, t') -> tx_db t' = tx_db t /\ ~ owner_in (tx_db t) u.
Proof.
  intros Hr. split; [exact (still_run _ _ _ _ (still_unprotected u) Hr)|]. unfold unprotected in Hr. apply bind_Ok in Hr as (row & t1 & Hg & Hr). apply stored_run in Hg.
  pose proof (still_run _ _ _ _ (still_GetByID u) Hg) as Hd1. apply bind_Ok in Hr as (o & t2 & Ho & Hr). apply isOwner_run in Ho as [_ Ho]. destruct o; [done|]. rewrite <- Hd1. by apply Ho.
Qed.
Lemma Create_invites n h k a t r t' : UserStore.Create n h k a t = (r, t') -> t_invites (tx_db t') = t_invites (tx_db t).
Proof.
  unfold UserStore.Create, Tx.bind, Tx.nextID. destruct (Tx.idNext _) as [[id|e] g]; [|by intros [= _ <-]]. cbn. unfold Tx.query, next_step. cbn.
  destruct (fault _); [by intros [= _ <-]|]. unfold CreateUser. destruct (insert_row _ _ _ _ _ _); cbn; by intros [= _ <-].
Qed.
Lemma insertBinding_invites u r ty g c t b t' : RoleStore.insertBinding u r ty g c t = (b, t') -> t_invites (tx_db t') = t_invites (tx_db t).
Proof.
  unfold RoleStore.insertBinding, Tx.bind, Tx.nextID. destruct (Tx.idNext _) as [[id|e] x]; [|by intros [= _ <-]]. cbn. unfold Tx.query, next_step. cbn.
  destruct (fault _); [by intros [= _ <-]|]. unfold InsertRoleBinding. destruct (insert_row _ _ _ _ _ _); cbn; by intros [= _ <-].
Qed.
(** With a runtime or without one, a profile change answers the same row and
    leaves the same tables. *)
Lemma update_profile_same userID nickname t : update_profile userID nickname t =
  match update_profile_direct userID nickname t with
  | (Ok user, t') => (Ok (if bool_decide (nickname = "") then untouched userID user else updated userID (VUser user) None), t')
  | (Err e, t') => (Err e, t')
  end.
Proof. unfold update_profile, update_profile_direct, Tx.bind. case_bool_decide; by destruct (Auth.stored _ t) as [[user|e] t']. Qed.
Lemma op_checked op t w t' : db_ok (tx_db t) -> op_body op t = (Ok w, t') -> op_allowed (tx_db t) op.
Proof.
  intros Hd Hr. destruct op as [| | | | | | | |n h k role invite]; cbn in Hr |- *; unfold update_managed_profile, kick, ban, unban, delete_user, reset_password in Hr; try done.
  1-6: apply bind_Ok in Hr as ([] & t1 & Hq & Hr); apply required_run in Hq as [Hh Hd1]; [|done]; try done; (split; [done|]); rewrite <- Hd1.
  1-3: apply bind_Ok in Hr as (x & t2 & Hx & Hr); by apply unprotected_run in Hx as [_ ?].
  - apply bind_Ok in Hr as (o & t2 & Ho & Hr). apply isOwner_run in Ho as [_ Ho]. destruct o; [done|]. by apply Ho.
  - unfold register in Hr. apply bind_Ok in Hr as (u & t1 & Hc & Hr). unfold Tx.attempt in Hc. destruct (UserStore.Create n h k None t) as [r t1'] eqn:Ec.
    injection Hc as -> ->. destruct u as [row|er]; [|by destruct er]. apply bind_Ok in Hr as (b & t2 & Hb & Hr). apply stored_run in Hb. unfold RoleStore.InsertBinding in Hb.
    case_bool_decide as Hro; [done|]. split; [done|]. destruct invite as [i|]; [|done].
    apply bind_Ok in Hr as (c & t3 & Hc & Hr). unfold Tx.attempt in Hc. destruct (InviteStore.Consume (ir_ID i) t2) as [r t3'] eqn:Ei. injection Hc as -> ->.
    destruct c as [row'|er]; [|by destruct er]. unfold InviteStore.Consume in Ei. apply bind_Ok in Ei as (now & t4 & Hn%now_Ok & Hq%query_Ok). rewrite Hn in Hq.
    unfold ConsumeInvite, get_row in Hq. assert (Hinv : t_invites (tx_db t2) = t_invites (tx_db t)).
    { apply Create_invites in Ec. apply insertBinding_invites in Hb. congruence. }
    rewrite Hinv in Hq. destruct (t_invites (tx_db t) !! ir_ID i) as [inv|] eqn:El; [|done]. cbn in Hq. destruct (0 <? ir_UsesLeft inv) eqn:Eu; [|done].
    exists inv. split; [done|by apply Z.ltb_lt].
Qed.

Lemma op_allowed_synced d d' op : synced d d' -> op_allowed d' op -> op_allowed d op.
Proof.
  intros Hs. unfold op_allowed, holds, owner_in, role_grants. by rewrite (sy_bindings _ _ Hs), (sy_roles _ _ Hs), (sy_configs _ _ Hs), (sy_invites _ _ Hs).
Qed.

(** ** Nobody revoked is admitted *)

Definition denied {A} (r : result A err) : Prop := match r with Ok _ => False | Err _ => True end.
Section Denied.
Context (d d' : Db) (p : PrincipalCache) (u : Z) (Hrev : revoked d d' u) (Hcoh : coherent d' p).
Lemma live_session_denied id t : tx_db t = d' -> (forall k s, t_sessions d' !! k = Some s -> sr_UserID s <> u) -> denied (live_session u id t).1.
Proof.
  intros Ht Hs. pose proof (live_session_reads u id t) as Hl. destruct (live_session u id t) as [r t']. destruct Hl as [_ [[-> _]|[n ->]]]; [done|].
  unfold session_live. rewrite Ht. destruct (t_sessions d' !! id) as [x|] eqn:E; [|done]. by rewrite (proj2 (Z.eqb_neq _ _) (Hs _ _ E)).
Qed.
Lemma barrier_revoked t s p' t' : tx_db t = d' -> GetUnderBarrier p u t = (Ok (s, p'), t') -> tx_db t' = d' /\
  (ps_Banned s = true \/ (forall old, t_users d !! u = Some old -> ur_AuthVersion old < ps_AuthVersion s) /\ forall k x, t_sessions d' !! k = Some x -> sr_UserID x <> u).
Proof using Hrev Hcoh.
  intros Ht Hg. pose proof (GetUnderBarrier_reads p u t) as Hr. rewrite Hg, Ht in Hr. destruct (Hr Hcoh) as [Hd [Hs _]]. split; [done|].
  apply snapshot_Some in Hs as (row & Hrow & Hb & Hv). unfold revoked in Hrev. rewrite Hrow in Hrev. rewrite Hb, Hv.
  destruct Hrev as [[x Hx]|?]; [left; by rewrite Hx|by right].
Qed.
Lemma check_claims_denied c t : tx_db t = d' -> cl_UserID c = u -> denied (check_claims c p t).1.
Proof using Hrev Hcoh.
  intros Ht Hc. unfold check_claims, Tx.bind at 1, Auth.stored, Tx.raise. rewrite Hc. destruct (GetUnderBarrier p u t) as [[[s p']|e] t'] eqn:E; [|done].
  destruct (barrier_revoked _ _ _ _ Ht E) as [Hd [Hb|[_ Hs]]]; cbn [fst snd]; [by rewrite Hb|]. destruct (ps_Banned s); [done|]. destruct (negb _); [done|].
  unfold Tx.bind. pose proof (live_session_denied (cl_LoginSessionID c) t' Hd Hs) as Hl. by destruct (live_session u _ t') as [[]].
Qed.
Lemma AcquireCurrent_denied id t : tx_db t = d' -> denied (AcquireCurrent u id p t).1.
Proof using Hrev Hcoh.
  intros Ht. unfold AcquireCurrent. destruct (_ || _); [done|]. unfold Tx.bind at 1, Auth.stored, Tx.raise. destruct (GetUnderBarrier p u t) as [[[s p']|e] t'] eqn:E; [|done].
  destruct (barrier_revoked _ _ _ _ Ht E) as [Hd [Hb|[_ Hs]]]; cbn [fst snd]; [by rewrite Hb|]. destruct (ps_Banned s); [done|].
  unfold Tx.bind. pose proof (live_session_denied id t' Hd Hs) as Hl. by destruct (live_session u _ t') as [[]].
Qed.
(** A request with a token issued before. *)
Lemma resolve_denied c t old : tx_db t = d' -> cl_UserID c = u -> t_users d !! u = Some old -> cl_Ver c <= ur_AuthVersion old -> denied (resolve_principal c p t).1.
Proof using Hrev Hcoh.
  intros Ht Hc Hold Hver. unfold resolve_principal, Tx.bind at 1, Auth.stored, Tx.raise. rewrite Hc. destruct (GetUnderBarrier p u t) as [[[s p']|e] t'] eqn:E; [|done].
  destruct (barrier_revoked _ _ _ _ Ht E) as [Hd [Hb|[Hv _]]]; cbn [fst snd]; [rewrite Hb; by destruct (negb _)|].
  specialize (Hv _ Hold). by rewrite (proj2 (Z.eqb_neq (cl_Ver c) (ps_AuthVersion s))) by lia.
Qed.
End Denied.
End Operations.
End AccountTables.
