(* ===== verification/AccountProps.v ===== *)
(** * AccountProps: account mutations keep state, tables, cache and connections together

    Every mutation of the account services that goes through
    [StateMutationRuntime.Run]: the published state describes the committed
    tables, the cached principals say what the tables say, and an account that
    was torn down has no presence, no voice authority, no open connection and no
    way back in with what it held. *)

From S2P Require Import Prelude State StateProps StateRing Visibility Rbac Support Cursor Snapshot Lane Session Connection ConnectionProps EventBus EventBusProps.
From S2P Require Import Publication PublicationProps Sequencer Database DatabaseProps Stores Installation InstallationProps Identity Idempotency Durable DurableProps.
From S2P Require Import Events Service ServiceProps ChannelService ChannelProps Voice VoiceProps Password Auth AuthProps Account AccountTables.
From stdpp Require Import base gmap strings list.
From Stdlib Require Import ZArith Lia.
#[local] Open Scope string_scope.
#[local] Open Scope list_scope.
#[local] Open Scope Z_scope.

Module AccountProps.
Import State StateRing Visibility Snapshot EventBus Publication Sequencer Database DatabaseProps Identity Idempotency Durable Events Service ServiceProps.
Import InstallationProps (describes, projection_of).
Import Auth AuthProps Account AccountTables.
Import Stores.Tx (StoreEnv, Act, fault, clock, gen, tx_db, tx_step, next_step).
Import Connection (ConnectionCoordinator, ConnID, ConnectionClosing, cr_state).
Import ConnectionProps (conns_of, voice_of).
Import VoiceProps (live, live_index, live_GetVoiceAuthority).
Import Voice (Runtime, mkRuntime, rt_co, rt_mgr, rt_limiter, VoiceEnv, others, VoiceError).
#[local] Abbreviation err := (ServiceError AuthError).

(** ** Durable results *)

Section Quiet.
Context `{!StoreEnv, !SqlPrims, !CommandJson} (ToUpper : string -> string) (hmac : string -> string -> bytes) (signer : RequestIdentitySigner).
Lemma quiet_lookup c epoch : quiet (lookup_command ToUpper hmac signer c epoch).
Proof.
  destruct c as [identity key|identity key]; [apply quiet_Lookup|]. cbn. unfold LookupRegistration.
  destruct (_ || _); [apply quiet_throw|]. apply quiet_bind; [apply quiet_requested|intros h]. apply quiet_bind; [|intros; apply quiet_ret].
  unfold find_record. apply quiet_bind; [|intros [?|[]]; apply quiet_ret || apply quiet_throw]. apply quiet_attempt. unfold registration_Lookup.
  destruct (_ || _); [apply quiet_throw|]. apply quiet_bind; [apply quiet_now|intros x]. apply quiet_bind; [apply quiet_reading|]. intros row. apply quiet_lift.
Qed.
Lemma quiet_save c f r : quiet (save_command ToUpper hmac signer c f r).
Proof.
  destruct c as [identity key|identity key]; [apply quiet_Save|]. cbn. unfold SaveRegistration. destruct (negb _); [apply quiet_throw|].
  apply quiet_bind; [apply quiet_requested|intros h]. apply quiet_bind; [apply quiet_requested|intros c].
  apply quiet_raise. unfold registration_Save. destruct (negb _); [apply quiet_throw|]. apply quiet_bind; [unfold created_or_now; cbn; apply quiet_now|intros x]. cbv zeta.
  destruct (negb _); [apply quiet_throw|]. apply quiet_bind; [|intros; apply quiet_ret]. apply quiet_query; [apply statement_keeps; constructor|].
  intros d y d'. unfold InsertRegistrationIdempotency. by intros (m & _ & [= _ <-])%rbind_Ok.
Qed.
End Quiet.

(** ** The cache under a mutation *)

Section Cache.
Context `{!StoreEnv, !SqlPrims, !AccountEnv}.
(** Entries of users whom nobody touched stay right. *)
Definition spares (us : list Z) (d d' : Db) : Prop := forall u, u ∉ us -> spared d d' u \/ t_users d !! u = None.
Definition outside (us : list Z) (d : Db) (p : PrincipalCache) : Prop := forall u s, p !! u = Some s -> 0 < u /\ (u ∉ us -> snapshot_of d u = Some s).
Lemma snapshot_positive d u s : db_ok d -> snapshot_of d u = Some s -> 0 < u.
Proof.
  intros Hd (row & Hrow & _)%snapshot_Some. destruct (to_row _ _ _ _ (ok_users _ Hd) _ _ Hrow) as [<- Hc].
  unfold check_user in Hc. do 3 apply andb_true_iff in Hc as [Hc _]. by apply Z.ltb_lt.
Qed.
Lemma reader_outside us d p r : db_ok d -> outside us d p -> outside us d (reader us d p r).
Proof.
  intros Hd Hp u s. unfold reader. case_bool_decide; [by apply Hp|]. destruct r as [v b]. cbn. destruct b; [|by intros [_ Hu]%lookup_delete_Some; apply Hp].
  destruct (p !! v) eqn:Ev; [by apply Hp|]. destruct (snapshot_of d v) eqn:Es; [|by apply Hp].
  intros [[<- <-]|[_ Hu]]%lookup_insert_Some; [split; [by eapply snapshot_positive|done]|by apply Hp].
Qed.
Lemma readers_outside us d l p : db_ok d -> outside us d p -> outside us d (fold_left (reader us d) l p).
Proof. intros Hd. revert p. induction l as [|r l IH]; intros p Hp; [done|]. cbn. apply IH. by apply reader_outside. Qed.
Lemma invalidated us p u : 0 < u -> u ∈ us -> fold_left (fun p u => if 0 <? u then Auth.Invalidate p u else p) us p !! u = None.
Proof.
  intros Hu. assert (Hnone : forall us (p : PrincipalCache), p !! u = None -> fold_left (fun p u => if 0 <? u then Auth.Invalidate p u else p) us p !! u = None).
  { clear us p. induction us as [|v us IH]; intros p Hp; [done|]. cbn. apply IH. destruct (0 <? v); [|done]. apply lookup_delete_None. by right. }
  revert p. induction us as [|v us IH]; intros p; [by intros ?%not_elem_of_nil|]. intros [<-|Hin]%elem_of_cons; cbn; [|by apply IH].
  rewrite (proj2 (Z.ltb_lt 0 u)) by done. apply Hnone. apply lookup_delete_None. by left.
Qed.
Lemma invalidate_sub us p u s : fold_left (fun p u => if 0 <? u then Auth.Invalidate p u else p) us p !! u = Some s -> p !! u = Some s.
Proof.
  revert p. induction us as [|v us IH]; intros p; [done|]. cbn. intros Hp%IH. destruct (0 <? v); [|done]. unfold Auth.Invalidate in Hp. by apply lookup_delete_Some in Hp as [_ Hp].
Qed.
(** What is left after the locked users were invalidated is right. *)
Lemma refreshed_coherent us d d' p l : db_ok d -> db_ok d' -> coherent d p -> spares us d d' ->
  coherent d' (fold_left (fun p u => if 0 <? u then Auth.Invalidate p u else p) us (fold_left (reader us d') l p)).
Proof.
  intros Hd Hd' Hp Hs u s Hu.
  assert (Ho : outside us d' (fold_left (reader us d') l p)).
  { apply readers_outside; [done|]. intros v x Hv. pose proof (Hp _ _ Hv) as Hx. split; [exact (snapshot_positive _ _ _ Hd Hx)|]. intros Hn.
    destruct (Hs v Hn) as [Hsp|Hnone]; [by rewrite (spared_snapshot d d')|by rewrite snapshot_None in Hx]. }
  destruct (Ho _ _ (invalidate_sub _ _ _ _ Hu)) as [Hpos Hq]. destruct (decide (u ∈ us)) as [Hin|]; [|by apply Hq]. by rewrite invalidated in Hu.
Qed.
End Cache.

(** ** The stages of a mutation *)

Section Command.
Context {C : Type} `{!StateSink C} {cprims : Cursor.CursorPrims} {pprims : PublicationPrims}.
Context `{!StoreEnv, !SqlPrims, !CommandJson, !ConfigJson, !EventJson, !VoiceEnv, !AccountEnv}.
Context (jvalid : bytes -> bool) (jmarshal : stateEventEnvelope -> option bytes) (juser : SnapshotUserPresence -> option bytes).
#[local] Abbreviation world := (World Process).
#[local] Abbreviation pub := (StatePublication C world).
#[local] Abbreviation execution := (CommandExecution world).
#[local] Abbreviation mut := (Mut C Process AccountValue AuthError).
#[local] Abbreviation assertion := (assertion (C := C) (R := Process)).
#[local] Abbreviation triple := (triple (C := C) (R := Process) (V := AccountValue) (E := AuthError) jvalid jmarshal).
#[local] Abbreviation process w := (w_voice w).
#[local] Abbreviation coordinator w := (rt_co (pc_voice (w_voice w))).
#[local] Abbreviation principals w := (pc_principals (w_voice w)).

Context (voiceProjection : option (StateCandidate -> option VoiceAuthority -> option VoiceAuthority -> string ->
  result (list StateEventTemplate * (world -> world) * StateCandidate) (ServiceError VoiceError))).
Context (connection_order : ConnectionCoordinator -> list ConnID) (grants : string -> option (gmap string (list string))) (version_text : string).
Context (ToUpper : string -> string) (hmac : string -> string -> bytes) (signer : RequestIdentitySigner).
Context (IssueStateCursor : Z -> StateVersion -> option string) {D : Type} (success_body : D -> option string) (error_code : err -> Z).

(** What others do keeps the coordinator's registries; a range visits every connection. *)
Context (Hothers : forall n r, live (rt_co r) -> live (rt_co (others n r))).
Context (Horder : forall c u id, is_Some (conns_of c u !! id) -> id ∈ connection_order c).
Definition same_presence (c c' : StateCandidate) : Prop :=
  presences (runtime (version c')) = presences (runtime (version c)) /\ voiceAuthorities (runtime (version c')) = voiceAuthorities (runtime (version c)).
Definition projection_keeps : Prop := forall project c previous reason events f c', voiceProjection = Some project ->
  project c previous None reason = Ok (events, f, c') -> same_rows c c' /\ same_presence c c' /\ forall w, w_db (f w) = w_db w /\ w_voice (f w) = w_voice w.
Context (Hproject : projection_keeps).

Section Stages.
Context (p0 : pub) (id : Z) (us : list Z) (m : Act err Written).
#[local] Abbreviation d0 := (w_db (pb_world p0)).
#[local] Abbreviation pr0 := (principals (pb_world p0)).
#[local] Abbreviation e0 := (with_id (new_execution (W := world)) id).

(** The publication as it was, but for what others did to the voice runtime. *)
Record near (b : bool) (d : Db) (pr : PrincipalCache) (p : pub) : Prop := {
  nr_pointer : pb_pointer p = pb_pointer p0; nr_current : pb_current p = pb_current p0; nr_locked : pb_locked p = b;
  nr_db : w_db (pb_world p) = d; nr_principals : principals (pb_world p) = pr; nr_live : live (coordinator (pb_world p))
}.
Definition stage (b : bool) (Q : Db -> execution -> Prop) : assertion := fun t p e => near b d0 pr0 p /\ db_ok (tx_db t) /\ Q (tx_db t) e.
(** [Q] sees the mirrored tables only, and where an error leaves the command. *)
Record mild (b : bool) (Q : Db -> execution -> Prop) : Prop := {
  ml_synced : forall d d' e, Q d e -> synced d d' -> Q d' e;
  ml_exec : forall d e, Q d e -> if b then exists r, e = with_reservation e0 r /\ pr_completed r = false else e = e0
}.
Definition undone : assertion := fun t p e => exists b, near b d0 pr0 p /\ if b then exists r, e = with_reservation e0 r /\ pr_completed r = false else e = e0.
Definition or_undone {A} (Q : A -> assertion) (r : result A err) : assertion := match r with Ok a => Q a | Err _ => undone end.
Lemma stage_undone b Q t p e : mild b Q -> stage b Q t p e -> undone t p e.
Proof. intros Hm (Hn & _ & Hq). exists b. split; [done|]. by eapply ml_exec. Qed.

(** The body ran on tables that only completed commands could have changed meanwhile. *)
Definition ran (w : Written) (d : Db) : Prop := exists t t', db_ok (tx_db t) /\ synced d0 (tx_db t) /\ m t = (Ok w, t') /\ synced (tx_db t') d.
Definition torn (w : Written) (plan : TeardownPlan) (v : StateVersion) : Prop :=
  match wr_teardown w with
  | None => tp_before plan = None /\ tp_after plan = None
  | Some (u, reason) => 0 < u /\ presences (runtime v) !! u = None /\ voiceAuthorities (runtime v) !! u = None /\
      (exists n, tp_before plan = Some (disconnect_user connection_order n u reason)) /\
      exists f, tp_after plan = Some (fun w => (f w, CbOk)) /\ forall w, w_db (f w) = w_db w /\ w_voice (f w) = w_voice w
  end.
Definition at_idle (d : Db) (e : execution) : Prop := e = e0 /\ synced d0 d.
Definition at_wrote (w : Written) (d : Db) (e : execution) : Prop := e = e0 /\ ran w d.
Definition at_holding (w : Written) (c : StateCandidate) (d : Db) (e : execution) : Prop := e = e0 /\ ran w d /\ describes d (persistent (version c)).
Definition at_reserved (w : Written) (plan : TeardownPlan) (d : Db) (e : execution) : Prop := exists r,
  e = with_reservation e0 r /\ pr_completed r = false /\ pr_runtimeCommit r = None /\ ran w d /\ describes d (persistent (pu_Version (pr_result r))) /\
  torn w plan (pu_Version (pr_result r)).
Lemma synced_sym d d' : synced d d' -> synced d' d. Proof using Type. intros []. by constructor. Qed.
Lemma ran_synced w d d' : ran w d -> synced d d' -> ran w d'.
Proof. intros (t & t' & ? & ? & ? & ?) Hs. exists t, t'. split_and!; try done. by etrans. Qed.
Lemma mild_idle : mild false at_idle.
Proof. split; [|by intros d e [-> _]]. intros d d' e [-> Hs] Hs'. split; [done|by etrans]. Qed.
Lemma mild_wrote w : mild false (at_wrote w).
Proof. split; [|by intros d e [-> _]]. intros d d' e [-> Hs] Hs'. split; [done|by eapply ran_synced]. Qed.
Lemma mild_holding w c : mild false (at_holding w c).
Proof. split; [|by intros d e [-> _]]. intros d d' e (-> & Hr & Hs) Hs'. split_and!; [done|by eapply ran_synced|by eapply describes_synced]. Qed.
Lemma mild_reserved w plan : mild true (at_reserved w plan).
Proof.
  split; [|intros d e (r & -> & ? & _); by exists r]. intros d d' e (r & ? & ? & ? & ? & ? & ?) Hs. exists r. split_and!; try done; [by eapply ran_synced|by eapply describes_synced].
Qed.
#[local] Hint Resolve mild_idle mild_wrote mild_holding mild_reserved : core.

(** *** Rules *)

Lemma account_t_refuse {A} b Q (R : A -> assertion) er : mild b Q -> triple (stage b Q) (mthrow er) (or_undone R).
Proof using Type. intros Hm. apply triple_throw. intros t p e Hp. by eapply stage_undone. Qed.
Lemma account_t_ensure {A B} b Q (r : result A err) (f : A -> mut B) (R : B -> assertion) : mild b Q -> (forall a, r = Ok a -> triple (stage b Q) (f a) (or_undone R)) ->
  triple (stage b Q) (mbind (ensure r) f) (or_undone R).
Proof using Type. intros Hm Hf. destruct r as [a|er]; [by apply Hf|by apply account_t_refuse]. Qed.
Lemma t_quiet {A} b Q (a : Act DurableError A) : mild b Q -> quiet a -> triple (stage b Q) (durable a) (or_undone (fun _ => stage b Q)).
Proof using Type.
  intros Hm Ha. apply triple_act. intros t p e (Hn & Hd & Hq). destruct (quiet_raise (@ErrOfDurable AuthError) a Ha t Hd) as [Hd' Hs'].
  assert (Hst : stage b Q (Tx.raise ErrOfDurable a t).2 p e) by (split_and!; [done|done|by eapply ml_synced]).
  destruct (Tx.raise _ _ t) as [[x|er] t']; [done|]. by eapply stage_undone.
Qed.
Lemma t_seq {A B} b Q (x : mut A) (f : A -> mut B) (R : B -> assertion) (S : A -> assertion) : triple (stage b Q) x (or_undone S) -> (forall a, triple (S a) (f a) (or_undone R)) ->
  triple (stage b Q) (mbind x f) (or_undone R).
Proof using Type. intros Hx Hf. by eapply triple_bind. Qed.
Lemma account_t_current {A} b Q (f : nat * StateVersion -> mut A) (R : A -> assertion) : triple (stage b Q) (f (pb_pointer p0, pb_current p0)) (or_undone R) ->
  triple (stage b Q) (mbind current f) (or_undone R).
Proof using Type.
  intros Hf t p e k X Hp HX. unfold mbind, current. cbn. destruct Hp as (Hn & Hp). rewrite (nr_pointer _ _ _ _ Hn), (nr_current _ _ _ _ Hn). by apply (Hf t p e k X).
Qed.
Lemma t_known {A B} (P : assertion) (a : A) (f : A -> mut B) R : triple P (f a) R -> triple P (mbind (mret a) f) R.
Proof using Type. intros Hf. exact Hf. Qed.
(** One access to the coordinator, which keeps its registries. *)
Lemma t_coordinator {A} b Q (f : ConnectionCoordinator -> A * ConnectionCoordinator) : (forall c, live c -> live (f c).2) ->
  triple (stage b Q) (on_coordinator f) (or_undone (fun _ => stage b Q)).
Proof using Hothers.
  intros Hf t p e k X (Hn & Hd & Hq) HX. unfold on_coordinator. cbn [run_script]. pose proof (Hf _ (Hothers (tx_step t) _ (nr_live _ _ _ _ Hn))) as Hl.
  destruct (f _) as [a c] eqn:Ef. cbn [run_script]. apply HX. split_and!; [|done|done]. destruct Hn. by constructor.
Qed.

(** *** Before the body *)

#[local] Abbreviation noop_exec := (with_phase e0 false false false true).
Definition marked : assertion := fun t p e => near false d0 pr0 p /\ e = noop_exec.
Lemma t_mark b Q : mild b Q -> b = false -> triple (stage b Q) (reply_error (call CallMarkNoop)) (or_undone (fun _ => marked)).
Proof using Type.
  intros Hm -> t p e k X (Hn & Hd & Hq) HX. pose proof (ml_exec _ _ Hm _ _ Hq) as He. cbn in He. subst e. cbn. by apply HX.
Qed.
Lemma t_replay command :
  triple (stage false at_idle) (replay_account ToUpper hmac signer command) (or_undone (fun o => match o with None => stage false at_idle | Some _ => marked end)).
Proof using Type.
  destruct command as [c|]; [|by apply triple_ret]. unfold replay_account. apply account_t_current. cbn [snd].
  eapply t_seq; [apply t_quiet; [done|apply quiet_lookup]|]. intros [| |er|r]; [by apply triple_ret| |by apply account_t_refuse|].
  all: eapply t_seq; [by apply t_mark|]; intros []; by apply triple_ret.
Qed.
Lemma account_t_begin : triple (stage false at_idle) begin_tx (or_undone (fun _ => stage false at_idle)).
Proof using Type. intros t p e k X Hp HX. unfold begin_tx. destruct (fault _); apply HX; [apply (stage_undone false at_idle); [done|exact Hp]|exact Hp]. Qed.
Lemma account_t_admit command : triple (stage false at_idle) (admit_account command) (or_undone (fun _ => stage false at_idle)).
Proof using Type. destruct command; [|by apply triple_ret]. apply t_quiet; [done|apply quiet_Admit]. Qed.

Context (Hmirror : mirror p0) (Hunlocked : pb_locked p0 = false) (Hcoherent : coherent d0 pr0) (Hlive : live (coordinator (pb_world p0))).
Context (Hsound : sound m) (Hwithin : forall t w t', m t = (Ok w, t') -> spares us (tx_db t) (tx_db t'))
  (Hnoop : forall t w t', m t = (Ok w, t') -> wr_noop w = true -> tx_db t' = tx_db t).
Lemma t_body : triple (stage false at_idle) (ordinary m) (or_undone (fun wb t p e => stage false (at_wrote wb.1) t p e /\ wb.2 = None /\ (wr_noop wb.1 = true -> synced d0 (tx_db t)))).
Proof using Hsound Hnoop.
  intros t p e k X (Hn & Hd & -> & Hs) HX. unfold ordinary, mbind, act. pose proof (Hsound t Hd) as Hd'. destruct (m t) as [[w|er] t'] eqn:Em; apply HX.
  - split_and!; [|done|intros Hw; cbn in Hw; by rewrite (Hnoop _ _ _ Em Hw)]. split; [done|]. split; [done|]. split; [done|]. by exists t, t'.
  - by exists false.
Qed.

(** *** The durable result *)

#[local] Abbreviation save := (save_account ToUpper hmac signer IssueStateCursor success_body).
Lemma t_save b Q c f w response v cp : mild b Q -> triple (stage b Q) (save c f id w response v cp) (or_undone (fun _ => stage b Q)).
Proof using Type.
  intros Hm. unfold save_account, Service.issue. destruct (IssueStateCursor _ _) as [cursor|]; [|by apply account_t_refuse].
  change (triple (stage b Q) (mbind (ensure (response (wr_value w))) (fun r => let '(status, data, headers) := r in
    mbind (durableBody success_body status data) (fun body => mbind (durable (save_command ToUpper hmac signer c f (mkCommandResult id status body headers cp cursor)))
      (fun _ => mret (mkStateCommand id cursor cp None))))) (or_undone (fun _ => stage b Q))).
  apply account_t_ensure; [done|]. intros [[status data] headers] _. unfold durableBody, encoded.
  assert (Hk : forall body, triple (stage b Q) (mbind (durable (save_command ToUpper hmac signer c f (mkCommandResult id status body headers cp cursor)))
      (fun _ => mret (mkStateCommand id cursor cp None))) (or_undone (fun _ => stage b Q))).
  { intros body. eapply t_seq; [apply t_quiet; [done|apply quiet_save]|]. intros ?. by apply triple_ret. }
  destruct (status =? 204); [apply Hk|]. destruct (success_body data); [apply Hk|by apply account_t_refuse].
Qed.

(** *** The candidate and its teardown *)

Lemma t_build w : triple (stage false (at_wrote w)) build_candidate (or_undone (fun pc t p e => pc.1 = pb_pointer p0 /\ stage false (at_holding w pc.2) t p e)).
Proof using Type.
  unfold build_candidate. apply account_t_current. cbn [fst snd].
  apply (triple_bind _ _ _ _ _ (fun r t p e => stage false (at_wrote w) t p e /\ match r with Ok pj => pj = projection_of (tx_db t) | Err _ => True end)).
  - apply triple_act. intros t p e (Hn & Hd & -> & Hr). destruct (InstallationProps.loadStateProjection_reads _ t eq_refl) as [Hdb Hl].
    unfold Tx.raise. destruct (Installation.loadStateProjection t) as [[pj|er] t']; cbn [fst snd] in *; unfold stage, at_wrote; rewrite Hdb; [|done].
    destruct Hl as [[= ->]|[[=] _]]. done.
  - intros pj. destruct (BuildPersistentCandidateFrom _ _) as [c|er] eqn:Eb.
    + apply triple_ret. intros t p e [(Hn & Hd & -> & Hr) ->]. apply Build_rows in Eb as [Eb _]. cbn. split; [done|].
      destruct (InstallationProps.projection_loads _ Hd) as (st & Hst & Hds). rewrite Hst in Eb. injection Eb as ->. by split_and!.
    + apply triple_throw. intros t p e [Hs _]. eapply stage_undone; [|exact Hs]; done.
  - intros er t p e [Hs _]. eapply stage_undone; [|exact Hs]; done.
Qed.
Lemma holding_rows {A} w c c' (x : mut A) R : same_rows c c' -> triple (stage false (at_holding w c')) x R -> triple (stage false (at_holding w c)) x R.
Proof using Type. intros [E _] Hx. eapply triple_conseq; [exact Hx| |done]. intros t p e (? & ? & ? & ? & ?). split_and!; try done. split_and!; try done. by rewrite E. Qed.
Lemma cleared_rows u c c' : (ClearPresence c u ≫= fun c => SetVoiceAuthority c u None) = Some c' -> same_rows c c' /\
  presences (runtime (version c')) !! u = None /\ voiceAuthorities (runtime (version c')) !! u = None.
Proof using Type.
  unfold ClearPresence. destruct (u <=? 0) eqn:Eu; [done|]. cbn. unfold SetVoiceAuthority. rewrite Eu. cbn. intros [= <-]. split; [done|]. cbn. by rewrite !lookup_delete_eq.
Qed.
#[local] Abbreviation prepare := (prepare voiceProjection connection_order).
Lemma t_prepare w c : triple (stage false (at_holding w c)) (prepare (wr_teardown w) c)
  (or_undone (fun cp t p e => stage false (at_holding w cp.1) t p e /\ torn w cp.2 (version cp.1))).
Proof using Hothers Hproject.
  destruct (wr_teardown w) as [[u reason]|] eqn:Ew; [|apply triple_ret; intros t p e Hp; split; [done|]; unfold torn; by rewrite Ew].
  cbn. unfold PrepareAccountTeardown. destruct (Z.leb_spec u 0) as [|Hu]; [by apply account_t_refuse|].
  eapply t_seq; [unfold previous_authority; eapply t_seq; [apply t_coordinator; intros co; apply live_GetVoiceAuthority|intros a; apply (triple_ret _ _ _ _ (or_undone (fun _ => stage false (at_holding w c)))); done]|].
  intros previous. unfold cleared. destruct (_ ≫= _) as [c1|] eqn:Ec; [|by apply account_t_refuse]. apply cleared_rows in Ec as (Hr1 & Hp1 & Hv1).
  apply (holding_rows w c c1); [done|]. apply t_known. unfold encoded. destruct (voiceAuthorityEventTemplates _ _ _) as [events|]; [|by apply account_t_refuse]. apply t_known.
  assert (Hend : forall membership f c2, same_rows c1 c2 -> same_presence c1 c2 -> (forall w, w_db (f w) = w_db w /\ w_voice (f w) = w_voice w) ->
    triple (stage false (at_holding w c1)) (fun t k => k (Ok (c2, mkTeardown (events ++ membership) (Some (disconnect_user connection_order (tx_step t) u reason)) (Some (fun w => (f w, CbOk))))) (next_step t))
    (or_undone (fun cp t p e => stage false (at_holding w cp.1) t p e /\ torn w cp.2 (version cp.1)))).
  { intros membership f c2 Hr2 [E1 E2] Hf. apply (holding_rows w c1 c2); [done|]. intros t p e k X Hp HX. apply HX. split; [exact Hp|]. unfold torn. rewrite Ew. cbn.
    rewrite E1, E2. split_and!; try done; [by eexists|]. by exists f. }
  destruct previous as [a|]; [|by apply (Hend [] (fun w => w) c1)]. destruct voiceProjection as [project|] eqn:Ev; [|by apply (Hend [] (fun w => w) c1)].
  destruct (project c1 (Some a) None reason) as [[[membership f] c2]|er] eqn:Ep; [|exact (account_t_refuse _ _ _ (Own ErrOfTeardown) (mild_holding w c1))].
  destruct (Hproject project c1 (Some a) reason membership f c2) as (H1' & H2' & H3'); [done|done|]. by apply Hend.
Qed.

(** *** Reservation and commit *)

Lemma reserved_runtime now (p : pub) request base candidate res : reserveLocked jvalid jmarshal now p request = Ok res -> rq_Candidate request = Some (base, candidate) ->
  presences (runtime (pu_Version res)) = presences (runtime candidate) /\ voiceAuthorities (runtime (pu_Version res)) = voiceAuthorities (runtime candidate).
Proof using Type.
  unfold reserveLocked. intros Hr Hc. rewrite Hc in Hr. cbv zeta in Hr. destruct (negb _); [done|]. destruct (_ || _); [done|].
  apply rbind_Ok in Hr as ([changes epochs] & _ & Hr). apply rbind_Ok in Hr as (templates & _ & Hr). apply rbind_Ok in Hr as (events & _ & Hr).
  destruct (ValidateAppend _ _ _ _); [done|]. by injection Hr as <-.
Qed.
Lemma account_t_reserve w c plan events : torn w plan (version c) ->
  triple (stage false (at_holding w c)) (reserve_account us (pb_pointer p0) c events) (or_undone (fun _ => stage true (at_reserved w plan))).
Proof using Type.
  intros Ht t p e k X (Hn & Hd & -> & Hr & Hds) HX. unfold reserve_account. cbn [run_script invoke]. unfold exec_Reserve.
  cbn [ce_reservation ce_persistent ce_runtimeReady ce_published with_id new_execution is_some orb]. rewrite (nr_locked _ _ _ _ Hn).
  unfold Reserve. destruct (reserveLocked _ _ _ _ _) as [res|er] eqn:Er; cbn [option_bind].
  - apply HX. split_and!; [destruct Hn; by constructor|done|]. eexists. split; [reflexivity|]. cbn. split_and!; try done.
    + erewrite reserved_rows by (exact Er || reflexivity). exact Hds.
    + destruct (reserved_runtime _ _ _ _ _ _ Er eq_refl) as [E1 E2]. unfold torn in *. destruct (wr_teardown w) as [[u reason]|]; [|done]. by rewrite E1, E2.
  - apply HX. by exists false.
Qed.
(** The commit, and the cache after it. *)
Definition committed_at (w : Written) (plan : TeardownPlan) : assertion := fun t p e => exists r d pr,
  near true d pr p /\ e = with_phase (with_reservation e0 r) false true false false /\ pr_completed r = false /\ pr_runtimeCommit r = None /\ db_ok d /\ ran w d /\
  describes d (persistent (pu_Version (pr_result r))) /\ torn w plan (pu_Version (pr_result r)) /\ coherent d pr.
Lemma ran_spares w d : ran w d -> spares us d0 d.
Proof using Hwithin.
  intros (t & t' & Hd & Hs & Hm & Hs') u Hu. destruct (Hwithin _ _ _ Hm u Hu) as [Hsp|Hnone].
  - left. eapply spared_trans; [by apply synced_spared|]. eapply spared_trans; [exact Hsp|by apply synced_spared].
  - right. by rewrite <- (sy_users _ _ Hs).
Qed.
Lemma t_commit_invalidate w plan {A} (a : A) : triple (stage true (at_reserved w plan)) (mbind (commit CallCommit) (fun _ => mbind (invalidate us) (fun _ => mret a)))
  (or_undone (fun x t p e => x = a /\ committed_at w plan t p e)).
Proof using Hmirror Hcoherent Hwithin.
  intros t p e k X (Hn & Hd & r & -> & Hc & Hrc & Hr & Hds & Ht) HX. unfold commit, mbind, committed. destruct (fault (tx_step t)); cbn.
  - apply HX. exists true. split; [done|]. by exists r.
  - apply HX. split; [done|]. exists r, (tx_db t), (fold_left (fun p u => if 0 <? u then Auth.Invalidate p u else p) us
      (fold_left (reader us (tx_db t)) (readers (S (tx_step t))) pr0)). destruct Hmirror as [Hd0 _].
    split_and!; try done; [destruct Hn as [? ? ? ? Hp ?]; constructor; try done; cbn; by rewrite Hp|]. apply (refreshed_coherent us d0); [done..|]. by eapply ran_spares.
Qed.

(** *** The end of a command *)

Definition finished (r : result Answer err) : assertion := fun t p e =>
  match r with
  | Err _ => undone t p e
  | Ok (v, before, after) =>
      (before = None /\ after = None /\ (e = noop_exec \/ e = with_replay noop_exec) /\ exists d, near false d pr0 p /\ db_ok d /\ synced d0 d /\
         (mr_value v = None \/ exists w, wr_noop w = true /\ ran w d /\ mr_value v = Some (wr_value w))) \/
      exists w plan, before = tp_before plan /\ after = tp_after plan /\ committed_at w plan t p e /\ wr_noop w = false /\ mr_value v = Some (wr_value w)
  end.

Lemma account_t_commit_noop w v : mr_value v = Some (wr_value w) -> wr_noop w = true ->
  triple (fun t p e => stage false (at_wrote w) t p e /\ synced d0 (tx_db t)) (mbind (commit CallCommitNoop) (fun _ => mret (plain v))) finished.
Proof using Type.
  intros Hv Hw t p e k X [(Hn & Hd & -> & Hr) Hs] HX. unfold commit, mbind, committed. destruct (fault (tx_step t)); cbn.
  - apply HX. by exists false.
  - apply HX. left. split_and!; [done|done|by right|]. exists (tx_db t). split_and!; try done; [destruct Hn; by constructor|]. right. by exists w.
Qed.
Lemma t_finish_noop command flags response w : wr_noop w = true ->
  triple (fun t p e => stage false (at_wrote w) t p e /\ synced d0 (tx_db t)) (finish_noop ToUpper hmac signer IssueStateCursor success_body command flags response id w) finished.
Proof using Hmirror.
  intros Hw. set (Q := fun d e => at_wrote w d e /\ synced d0 d). apply (triple_conseq _ _ (stage false Q) _ _ finished); [|by intros t p e [(? & ? & ?) ?]|done].
  assert (Hq : mild false Q).
  { split; [|by intros d e [[-> _] _]]. intros d d' e [H1' H2'] Hs. split; [by eapply (ml_synced _ _ (mild_wrote w))|by etrans]. }
  unfold finish_noop. destruct command as [c|].
  - apply (triple_conseq _ _ (stage false Q) _ _ (or_undone (fun a => finished (Ok a))) finished); [|done|by intros []]. apply account_t_current. cbn [snd].
    eapply t_seq; [by apply t_save|]. intros state. eapply triple_conseq; [apply (account_t_commit_noop w); [|done]|by intros t p e (? & ? & ? & ?)|by intros []]. done.
  - apply (triple_conseq _ _ (stage false Q) _ _ (or_undone (fun a => finished (Ok a))) finished); [|done|by intros []].
    intros t p e k X (Hn & Hd & [-> Hr] & Hs) HX. cbn. apply HX. left. split_and!; [done|done|by left|]. exists d0. destruct Hmirror as [Hd0 _]. split_and!; try done.
    right. exists w. split_and!; [done| |done]. destruct Hr as (s & s' & R1 & R2 & R3 & R4). exists s, s'. split_and!; try done.
    etrans; [exact R4|by apply synced_sym].
Qed.
#[local] Abbreviation finish_written := (finish_written voiceProjection connection_order grants version_text ToUpper hmac signer IssueStateCursor success_body).
Lemma t_finish_written command flags response w : wr_noop w = false ->
  triple (stage false (at_wrote w)) (finish_written us command flags response id w None) finished.
Proof using Hmirror Hcoherent Hwithin Hothers Hproject.
  intros Hw. apply (triple_conseq _ _ (stage false (at_wrote w)) _ _ (or_undone (fun a => finished (Ok a))) finished); [|done|by intros []].
  unfold Account.finish_written. eapply t_seq; [apply t_build|]. intros [pointer c] t0 p1 e1 k1 X1 [Hp Hst]. cbn in Hp. subst pointer. revert t0 p1 e1 k1 X1 Hst. cbn [fst snd].
  change (triple (stage false (at_holding w c)) (mbind (prepare (wr_teardown w) c) (fun pl => let '(c, plan) := pl in
    mbind (ensure (accountStateEvents grants version_text (wr_change w) (version c))) (fun events =>
    mbind (reserve_account us (pb_pointer p0) c (tp_events plan ++ events)) (fun reserved =>
    mbind (mret tt) (fun _ => mbind (match command with Some d => save d flags id w response (pu_Version reserved) (pu_Checkpoint reserved) | None => mret (unsaved id) end) (fun state =>
    mbind (commit CallCommit) (fun _ => mbind (invalidate us) (fun _ => mret (mkMutation (Some (wr_value w)) state, tp_before plan, tp_after plan)))))))))
    (or_undone (fun a => finished (Ok a)))).
  eapply t_seq; [apply t_prepare|]. intros [c' plan] t0 p1 e1 k1 X1 [Hst Htorn]. cbn in Htorn. revert t0 p1 e1 k1 X1 Hst. cbn [fst snd].
  apply (account_t_ensure false (at_holding w c')); [done|]. intros events _. eapply t_seq; [by apply account_t_reserve|]. intros res. apply t_known.
  eapply (t_seq true (at_reserved w plan) _ _ _ (fun _ => stage true (at_reserved w plan))); [destruct command as [d|]; [by apply t_save|by apply triple_ret]|].
  intros state. eapply triple_conseq; [apply t_commit_invalidate|done|]. intros [a|er] t p e; [|done]. cbn. intros [-> Hc]. right. by exists w, plan.
Qed.
Lemma t_execute command response :
  triple (stage false at_idle) (execute_account voiceProjection connection_order grants version_text ToUpper hmac signer IssueStateCursor success_body us command response (ordinary m) id) finished.
Proof using Hmirror Hcoherent Hwithin Hnoop Hsound Hothers Hproject.
  apply (triple_conseq _ _ (stage false at_idle) _ _ (or_undone (fun a => finished (Ok a))) finished); [|done|by intros []].
  unfold execute_account. eapply t_seq; [apply t_replay|]. intros [state|].
  { apply triple_ret. intros t p e [Hn ->]. left. split_and!; [done|done|by left|]. exists d0. destruct Hmirror as [Hd0 _]. split_and!; try done. by left. }
  eapply t_seq; [apply account_t_begin|]. intros []. eapply t_seq; [apply account_t_admit|]. intros flags. eapply t_seq; [apply t_body|].
  intros [w before] t p e k X (Hst & Hb & Hsy) HX. cbn in Hb. subst before. cbn [fst snd] in *. destruct (wr_noop w) eqn:Ew.
  - apply (t_finish_noop command flags response w Ew t p e k X); [split; [done|by apply Hsy]|]. intros [a|er] t' p' e' Hf; [exact (HX (Ok a) _ _ _ Hf)|exact (HX (Err er) _ _ _ Hf)].
  - apply (t_finish_written command flags response w Ew t p e k X Hst). intros [a|er] t' p' e' Hf; [exact (HX (Ok a) _ _ _ Hf)|exact (HX (Err er) _ _ _ Hf)].
Qed.
End Stages.

(** ** Commands *)

(** Everything the account held is closed. *)
Definition closed_out (p : pub) (u : Z) : Prop :=
  presences (runtime (pb_current p)) !! u = None /\ voiceAuthorities (runtime (pb_current p)) !! u = None /\
  (forall id r, conns_of (coordinator (pb_world p)) u !! id = Some r -> cr_state r = ConnectionClosing) /\ voice_of (coordinator (pb_world p)) u = None.
Definition settled_account {G} (m : Act err Written) (p : pub) (o : Outcome C world G (MutationResult AccountValue)) : Prop :=
  match oc_fail o with
  | Some _ => exists er, oc_reply o = Err er
  | None => pb_locked (oc_pub o) = false /\ mirror (oc_pub o) /\ coherent (w_db (pb_world (oc_pub o))) (principals (pb_world (oc_pub o))) /\
      match oc_reply o with
      | Err _ => w_db (pb_world (oc_pub o)) = w_db (pb_world p) /\ pb_current (oc_pub o) = pb_current p
      | Ok c => (mr_value (cc_Value c) = None /\ synced (w_db (pb_world p)) (w_db (pb_world (oc_pub o)))) \/
          exists w, ran p m w (w_db (pb_world (oc_pub o))) /\ mr_value (cc_Value c) = Some (wr_value w) /\
            forall u reason, wr_teardown w = Some (u, reason) -> wr_noop w = false -> closed_out (oc_pub o) u
      end
  end.

Lemma disconnect_closes n u reason (w : world) : 0 < u -> live (coordinator w) -> let w' := (disconnect_user connection_order n u reason w).1 in
  w_db w' = w_db w /\ principals w' = principals w /\ (forall id r, conns_of (coordinator w') u !! id = Some r -> cr_state r = ConnectionClosing) /\ voice_of (coordinator w') u = None.
Proof using Hothers Horder.
  intros Hu Hl. cbn. split; [done|]. split; [done|]. pose proof (live_index _ (Hothers n _ Hl)) as Hix. set (c := rt_co (others n _)) in *.
  unfold Connection.DisconnectUserForPublication, Connection.disconnectMatchingWithGate. destruct (Z.leb_spec u 0); [lia|].
  destruct (ConnectionProps.close_matching_spec c u 4002 reason true true (fun _ => true) (connection_order c) Hix) as (Hc & Hv & _); [by apply Horder|]. split.
  - intros id r. rewrite Hc, lookup_fmap. destruct (conns_of c u !! id) as [r0|]; [|done]. by intros [= <-].
  - destruct (voice_of _ u) as [a|] eqn:Ea; [|done]. destruct (proj1 (Hv a) eq_refl) as [Ha Hno]. exfalso.
    destruct (ConnectionProps.view_ok c u Hix) as [Hok _]. destruct (ConnectionProps.uo_voice _ Hok a Ha) as (_ & _ & _ & r & Hr & _). by specialize (Hno r Hr).
Qed.
Lemma publish_plain (p p' : pub) r r' res : pr_runtimeCommit r = None -> publish jvalid jmarshal juser false p r = Some (Ok res, p', r') ->
  pb_world p' = pb_world p /\ pb_locked p' = false /\ pb_current p' = pu_Version (pr_result r).
Proof using Type.
  intros Hk. unfold publish. destruct (claimCompletion r) as [claimed r1] eqn:Ec.
  assert (Er : pr_result r1 = pr_result r /\ pr_runtimeCommit r1 = pr_runtimeCommit r) by (unfold claimCompletion in Ec; destruct (pr_completed r); by injection Ec as _ <-).
  destruct Er as [Er Ek]. destruct claimed; cbn [negb]; [|by intros [=]]. rewrite Ek, Er, Hk. cbn [run_commit].
  destruct (Append _ _ _ _) as [[er ring]|]; cbn [mbind option_bind]; [|done]. destruct er; [by intros [=]|]. cbn [pb_bus with_world].
  destruct (pb_bus p) as [[n b]|]; [|by intros [= _ <- _]]. destruct (fanout _ _ _ _ _ _ _) as [[slow|er] b']; [by intros [= _ <- _]|by intros [=]].
Qed.

Section Outcome.
Context {G : Type} (idNext : G -> result Z unit * G) (p0 : pub) (us : list Z) (m : Act err Written) (id : Z) (g : G).
Context (command : PostCommitCommand C world (MutationResult AccountValue)).
Context (Hunlocked : pb_locked p0 = false) (Hmirror : mirror p0) (Hcoherent : coherent (w_db (pb_world p0)) (principals (pb_world p0))).
#[local] Abbreviation conclude := (conclude jvalid jmarshal juser command id).
#[local] Abbreviation settled := (settled_account (G := G) m p0).

Lemma account_settled_error (p : pub) e er : near p0 false (w_db (pb_world p0)) (principals (pb_world p0)) p -> settled (ordinary_error p e g er).
Proof using Hmirror Hcoherent. intros []. unfold settled_account, mirror. cbn. rewrite nr_db0, nr_current0, nr_principals0. done. Qed.
Lemma account_settled_undone t p e er : undone p0 id t p e -> settled (conclude (Threw er) p e g).
Proof using Hmirror Hcoherent.
  intros ([] & Hn & He); [|subst e; by apply account_settled_error]. destruct He as (r & -> & Hc). unfold Sequencer.conclude. cbn [ce_persistent ce_runtimeReady with_reservation with_id new_execution orb].
  unfold aborted. edestruct (abort_reserved p) as [e' ->]; [done..|]. apply account_settled_error. destruct Hn. by constructor.
Qed.
Lemma account_settled_noop p v d e : near p0 false d (principals (pb_world p0)) p -> db_ok d -> synced (w_db (pb_world p0)) d ->
  (mr_value v = None \/ exists w, wr_noop w = true /\ ran p0 m w d /\ mr_value v = Some (wr_value w)) ->
  e = with_phase (with_id new_execution id) false false false true \/ e = with_replay (with_phase (with_id new_execution id) false false false true) ->
  settled (conclude (Returned (mkOutput v None None)) p e g).
Proof using Hmirror Hcoherent.
  intros [? ? ? Hdb Hpr ?] Hd Hs Hv He. replace (conclude _ _ _ _) with (mkOutcome (Ok (mkCompletion id None v)) None p e g) by (by destruct He as [-> | ->]).
  clear He. unfold settled_account, mirror. cbn. rewrite Hdb, Hpr, nr_current0. split_and!; try done.
  - eapply describes_synced; [done|]. apply Hmirror.
  - intros u x Hx. apply Hcoherent in Hx. unfold snapshot_of in *. by rewrite (sy_users _ _ Hs), (sy_bindings _ _ Hs).
  - destruct Hv as [Hv|(w & Hw & Hr & Hv)]; [by left|right]. exists w. split_and!; [done|done|]. intros u reason _ Hw'. congruence.
Qed.
(** From the publication point on. *)
Definition closed_at (w : Written) (v : StateVersion) (x : world) : Prop := forall u reason, wr_teardown w = Some (u, reason) ->
  presences (runtime v) !! u = None /\ voiceAuthorities (runtime v) !! u = None /\
  (forall id r, conns_of (coordinator x) u !! id = Some r -> cr_state r = ConnectionClosing) /\ voice_of (coordinator x) u = None.
Lemma settled_published (p : pub) e r v w after before : pr_runtimeCommit r = None -> db_ok (w_db (pb_world p)) ->
  describes (w_db (pb_world p)) (persistent (pu_Version (pr_result r))) -> coherent (w_db (pb_world p)) (principals (pb_world p)) -> ran p0 m w (w_db (pb_world p)) ->
  mr_value v = Some (wr_value w) -> closed_at w (pu_Version (pr_result r)) (pb_world p) ->
  (after = None \/ exists f, after = Some (fun w => (f w, CbOk)) /\ forall w, w_db (f w) = w_db w /\ w_voice (f w) = w_voice w) ->
  settled (publish_phase jvalid jmarshal juser command id (mkOutput v before after) r false p e g).
Proof using Type.
  intros Hrc Hd Hds Hco Hr Hv Hcl Ha. unfold publish_phase, Publish. destruct (publish _ _ _ _ _ _) as [[[[res|er] p'] r']|] eqn:Ep; cbn [andb].
  2: { unfold settled_account. cbn. by eexists. }
  2: { unfold recovered. destruct (abort _ _). unfold settled_account. cbn. by eexists. }
  apply publish_plain in Ep as (Ew & El & Ev); [|done]. cbn [co_AfterPublish co_Value].
  destruct Ha as [->|(f & -> & Hf)]; unfold run_callback, settled_account, mirror, closed_out; cbn; [|destruct (Hf (pb_world p')) as [-> ->]]; rewrite Ew, Ev;
    (split_and!; [done|done|done|done|]; right; exists w; split_and!; [done|done|]; intros u reason Ht _; exact (Hcl u reason Ht)).
Qed.
Lemma account_settled_committed t p e v w plan : committed_at p0 id m w plan t p e -> mr_value v = Some (wr_value w) ->
  settled (conclude (Returned (mkOutput v (tp_before plan) (tp_after plan))) p e g).
Proof using Hothers Horder.
  intros (r & d & pr & [? ? ? Hdb Hpr Hl] & -> & Hc & Hrc & Hd & Hr & Hds & Ht & Hco) Hv.
  unfold Sequencer.conclude. cbn [ce_noop with_phase with_reservation ce_reservation ce_persistent ce_runtimeReady andb negb co_BeforePublish].
  unfold torn in Ht. destruct (wr_teardown w) as [[u reason]|] eqn:Ew.
  - destruct Ht as (Hu & Hp & Ha & [n ->] & f & Hf & Hk). cbn [run_callback].
    destruct (disconnect_closes n u reason (pb_world p) Hu Hl) as (D1 & D2 & D3 & D4).
    destruct (disconnect_user _ _ _ _ _) as [x cb] eqn:Ed. assert (cb = CbOk) as -> by (unfold disconnect_user in Ed; by injection Ed as _ <-). cbn [fst] in *.
    apply (settled_published _ _ r v w); cbn; rewrite ?D1, ?D2, ?Hdb, ?Hpr; try done; [|right; by exists f].
    intros u' reason'. rewrite Ew. intros [= <- <-]. done.
  - destruct Ht as [-> Hf]. apply (settled_published _ _ r v w); rewrite ?Hdb, ?Hpr; try done; [|by left]. intros u' reason'. by rewrite Ew.
Qed.
Lemma account_settled_run t response cmd : sound m -> (forall t w t', m t = (Ok w, t') -> spares us (tx_db t) (tx_db t')) ->
  (forall t w t', m t = (Ok w, t') -> wr_noop w = true -> tx_db t' = tx_db t) -> live (coordinator (pb_world p0)) -> tx_db t = w_db (pb_world p0) ->
  exists ended p e, run_script jvalid jmarshal (account_script error_code
    (execute_account voiceProjection connection_order grants version_text ToUpper hmac signer IssueStateCursor success_body us cmd response (ordinary m) id) t)
    p0 (with_id new_execution id) = Some (ended, p, e) /\ settled (conclude ended p e g).
Proof using Hothers Horder Hproject Hmirror Hcoherent Hunlocked.
  intros Hs Hw Hn Hl Ht. unfold account_script.
  apply (t_execute p0 id us m Hmirror Hcoherent Hs Hw Hn cmd response t p0 (with_id new_execution id) _ (fun x => exists ended p e, x = Some (ended, p, e) /\ settled (conclude ended p e g))).
  - split; [by constructor|]. destruct Hmirror as [Hd _]. split; [by rewrite Ht|]. split; [done|by rewrite Ht].
  - intros [[[v before] after]|er] t' p e Hf.
    + eexists (Returned (mkOutput v before after)), p, e. split; [done|]. destruct Hf as [(-> & -> & He & d & Hnr & Hd & Hsy & Hv)|(w & plan & -> & -> & Hc & _ & Hv)].
      * by eapply account_settled_noop.
      * by eapply account_settled_committed.
    + cbn in Hf. destruct er; eexists _, p, e; (split; [reflexivity|]); by eapply account_settled_undone.
Qed.
End Outcome.

(** Taking the barriers and giving them back keeps the tables, the cache and the registries. *)
Definition keeps_process (acquire : world -> world * Acquired (W := world)) : Prop := forall w,
  w_db (acquire w).1 = w_db w /\ principals (acquire w).1 = principals w /\ (live (coordinator w) -> live (coordinator (acquire w).1)) /\
  forall release, (acquire w).2 = AcquireOk release -> forall w, w_db (release w) = w_db w /\ principals (release w) = principals w /\
    forall u, conns_of (coordinator (release w)) u = conns_of (coordinator w) u /\ voice_of (coordinator (release w)) u = voice_of (coordinator w) u.

Section Commands.
Context {G : Type} (idNext : G -> result Z unit * G).
#[local] Abbreviation execute := (execute jvalid jmarshal juser idNext).
#[local] Abbreviation run_command := (Run voiceProjection connection_order grants version_text ToUpper hmac signer IssueStateCursor success_body error_code).

Lemma Run_settles acquire us command response (m : Act err Written) t canceled (p : pub) g : sound m ->
  (forall t w t', m t = (Ok w, t') -> spares us (tx_db t) (tx_db t')) -> (forall t w t', m t = (Ok w, t') -> wr_noop w = true -> tx_db t' = tx_db t) ->
  keeps_process acquire -> pb_locked p = false -> mirror p -> coherent (w_db (pb_world p)) (principals (pb_world p)) -> live (coordinator (pb_world p)) ->
  tx_db t = w_db (pb_world p) ->
  exists o, execute (run_command acquire us command response (ordinary m) t canceled) p g = Some o /\ settled_account m p o.
Proof using Hothers Horder Hproject.
  intros Hs Hw Hn Ha Hu Hm Hc Hl Ht. unfold Sequencer.execute, Run. cbn [cm_canceledStart cm_Acquire]. destruct canceled.
  { eexists. split; [reflexivity|]. apply account_settled_error; [done|done|by constructor]. }
  destruct (Ha (pb_world p)) as (A1 & A2 & A3 & A4). destruct (acquire (pb_world p)) as [w a]. cbn [fst snd] in *.
  set (q := with_world p w).
  assert (Hq : near p false (w_db (pb_world p)) (principals (pb_world p)) q) by (constructor; cbn; auto).
  assert (Hmq : mirror q) by (unfold mirror; cbn; by rewrite A1). assert (Hcq : coherent (w_db (pb_world q)) (principals (pb_world q))) by (cbn; by rewrite A1, A2).
  destruct a as [er| |release|]; try (eexists; split; [reflexivity|]; by apply account_settled_error); [|eexists; split; [reflexivity|]; by eexists].
  unfold execute_held. cbn [cm_CommandID cm_Execute]. destruct (idNext g) as [[id|er] g']; cbn [Z.eqb].
  2: { eexists. split; [reflexivity|]. pose proof (account_settled_error p m g' Hm Hc q new_execution ErrID Hq) as He. unfold settled_account in *. cbn in *.
       destruct He as (? & ? & ? & ? & ?). destruct (A4 release eq_refl w) as (R1 & R2 & _). unfold mirror in *. cbn in *. by rewrite R1, R2. }
  edestruct (account_settled_run q us m id g' (run_command acquire us command response (ordinary m) t false)) as (ended & q' & e & Hrun & Hset);
    [done|done|done|done|done|done|by apply A3|cbn; by rewrite A1, Ht|]. cbn [option_bind fmap option_fmap option_map]. rewrite Hrun. cbn. eexists. split; [reflexivity|].
  unfold Run in Hset. set (o := Sequencer.conclude _ _ _ _ _ _ _ _ _) in *. clearbody o. revert Hset.
  unfold settled_account, release_barriers, closed_out, mirror. cbn. destruct (oc_fail o); [done|]. intros Hset. destruct (A4 release eq_refl (pb_world (oc_pub o))) as (R1 & R2 & R3).
  rewrite R1, R2. destruct Hset as (S1 & S2 & S3 & S4). split_and!; [exact S1|apply S2|apply S2|exact S3|].
  assert (Hran : forall x d, ran q m x d -> ran p m x d) by (intros x d (y & y' & Y); exists y, y'; unfold q in Y; cbn in Y; by rewrite A1 in Y).
  destruct (oc_reply o) as [c|er].
  - destruct S4 as [[S4 S5]|(x & S4 & S5 & S6)]; [left; split; [done|]; cbn in S5; by rewrite A1 in S5|right]. exists x. split_and!; [by apply Hran|done|].
    intros u reason X1 X2. destruct (S6 u reason X1 X2) as (? & ? & ? & ?). destruct (R3 u) as [-> ->]. done.
  - destruct S4 as [S4 S5]. by rewrite S4, A1.
Qed.

#[local] Abbreviation submit := (submit voiceProjection connection_order grants version_text ToUpper hmac signer IssueStateCursor success_body error_code).
Lemma op_settles acquire command response op t canceled cmd (p : pub) g : submit acquire command response t canceled op = Ok cmd ->
  keeps_process acquire -> pb_locked p = false -> mirror p -> coherent (w_db (pb_world p)) (principals (pb_world p)) -> live (coordinator (pb_world p)) -> tx_db t = w_db (pb_world p) ->
  exists o, execute cmd p g = Some o /\ settled_account (op_body op) p o.
Proof using Hothers Horder Hproject.
  unfold Account.submit. destruct (self_action op); [done|]. intros [= <-] Ha Hu Hm Hc Hl Ht.
  apply Run_settles; [apply op_sound| |apply op_noop|done..]. intros x w x' Hr u Hu'. by eapply op_within.
Qed.

(** C10: an account mutation keeps state, tables and cached principals together.
    Whatever the driver, the clock, the codecs and other connections do, the
    command of a profile change, a kick, a ban or its end, a deletion, a change
    or reset of a password, or a registration never blocks; unless it stops the
    sequencer, the published state mirrors the tables and every cached principal
    is what the tables say.  An error leaves both as they were.  A value that is
    not a replay means that the transaction ran as a whole, and that on the
    tables before it the actor held the permission, the target was not the
    owner, and an invite had a use left. *)
Theorem account_mutation_mirror acquire command response op t canceled cmd (p : pub) g : submit acquire command response t canceled op = Ok cmd ->
  keeps_process acquire -> pb_locked p = false -> mirror p -> coherent (w_db (pb_world p)) (principals (pb_world p)) -> live (coordinator (pb_world p)) -> tx_db t = w_db (pb_world p) ->
  exists o, execute cmd p g = Some o /\
    match oc_fail o with
    | Some _ => exists er, oc_reply o = Err er
    | None => pb_locked (oc_pub o) = false /\ mirror (oc_pub o) /\ coherent (w_db (pb_world (oc_pub o))) (principals (pb_world (oc_pub o))) /\
        match oc_reply o with
        | Err _ => w_db (pb_world (oc_pub o)) = w_db (pb_world p) /\ pb_current (oc_pub o) = pb_current p
        | Ok c => (mr_value (cc_Value c) = None /\ synced (w_db (pb_world p)) (w_db (pb_world (oc_pub o)))) \/
            exists w, ran p (op_body op) w (w_db (pb_world (oc_pub o))) /\ mr_value (cc_Value c) = Some (wr_value w) /\ op_allowed (w_db (pb_world p)) op
        end
    end.
Proof using Hothers Horder Hproject.
  intros Hs Ha Hu Hm Hc Hl Ht. destruct (op_settles acquire command response op t canceled cmd p g) as (o & Ho & Hset); [done..|]. exists o. split; [done|].
  unfold settled_account in Hset. destruct (oc_fail o); [done|]. destruct Hset as (? & ? & ? & Hr). split_and!; [done..|]. destruct (oc_reply o); [|done].
  destruct Hr as [Hr|(w & Hw & Hv & _)]; [by left|right]. exists w. split_and!; [done|done|]. destruct Hw as (x & x' & X1 & X2 & X3 & _).
  eapply op_allowed_synced; [exact X2|]. by eapply op_checked.
Qed.

(** C9: tearing an account down leaves it nothing.  When a kick, a ban, a
    deletion or a password change answers with a value, the published state
    shows the account offline and out of voice, every control connection it has
    is closing and its voice authority is gone; no claims admit a new connection
    or continue an old one, and no token issued before names a principal: not
    through the cache as the command left it, and not at any time. *)
Theorem account_revocation acquire command response op t canceled cmd (p : pub) g o c u : submit acquire command response t canceled op = Ok cmd ->
  keeps_process acquire -> pb_locked p = false -> mirror p -> coherent (w_db (pb_world p)) (principals (pb_world p)) -> live (coordinator (pb_world p)) -> tx_db t = w_db (pb_world p) ->
  op_target op = Some u -> execute cmd p g = Some o -> oc_fail o = None -> oc_reply o = Ok c -> mr_value (cc_Value c) <> None ->
  closed_out (oc_pub o) u /\
  forall s, tx_db s = w_db (pb_world (oc_pub o)) -> let cache := principals (pb_world (oc_pub o)) in
    (forall claims, cl_UserID claims = u -> denied (check_claims claims cache s).1) /\ (forall session, denied (AcquireCurrent u session cache s).1) /\
    (forall claims old, cl_UserID claims = u -> t_users (w_db (pb_world p)) !! u = Some old -> cl_Ver claims <= ur_AuthVersion old -> denied (resolve_principal claims cache s).1).
Proof using Hothers Horder Hproject.
  intros Hs Ha Hu Hm Hc Hl Ht Hop Ho Hf Hr Hv. destruct (op_settles acquire command response op t canceled cmd p g) as (o' & Ho' & Hset); [done..|].
  rewrite Ho in Ho'. injection Ho' as <-. unfold settled_account in Hset. rewrite Hf, Hr in Hset. destruct Hset as (_ & _ & Hco & [[? _]|(w & Hw & Hval & Hcl)]); [done|].
  destruct Hw as (x & x' & X1 & X2 & X3 & X4). destruct (op_teardown _ _ _ _ u X3 Hop) as (Hn & reason & Hreason).
  split; [by eapply Hcl|]. intros s Hdb. pose proof (revoked_synced _ _ _ _ u X2 X4 (op_revokes _ _ _ _ u X3 Hop)) as Hrev. split_and!.
  - intros claims Hclaims. by eapply check_claims_denied.
  - intros session. by eapply AcquireCurrent_denied.
  - intros claims old H1' H2' H3'. by eapply resolve_denied.
Qed.
End Commands.
End Command.

(** The projection of voice membership keeps what it must. *)
Definition voice_projection `{!EventJson} (voiceNow : Z) (c : StateCandidate) (previous current : option VoiceAuthority) (_ : string) :=
  Voice.VoiceAuthorityProjection (R := Process) voiceNow c previous current.
Lemma voice_projection_keeps `{!EventJson} voiceNow : projection_keeps (Some (voice_projection voiceNow)).
Proof.
  intros project c previous reason events f c' [= <-]. unfold voice_projection, Voice.VoiceAuthorityProjection.
  destruct previous as [a|]; [|intros [= _ <- <-]; done]. destruct (getChannel _ _) as [channel|]; [|intros [= _ <- <-]; done].
  destruct (voiceMemberEvent _ _ _) as [gone|]; [|done].
  assert (Hc : forall x, same_rows c (Voice.clear_expiry c x).1 /\ same_presence c (Voice.clear_expiry c x).1).
  { intros x. unfold Voice.clear_expiry. pose proof (ClearTemporaryExpiry_rows c x) as Hr.
    assert (Hp : same_presence c (ClearTemporaryExpiry c x).2) by (unfold ClearTemporaryExpiry; cbv zeta; destruct (negb _); [|destruct (_ !! _)]; done).
    destruct (ClearTemporaryExpiry c x) as [[? ?] ?]. done. }
  specialize (Hc (va_ChannelID a)). destruct (Voice.clear_expiry _ _) as [c1 canceled]. cbn in Hc. destruct Hc as [Hr [P1 P2]].
  destruct (_ && _); [|intros [= _ <- <-]; split_and!; done].
  destruct (ScheduleTemporaryExpiry _ _ _) as [[x c2]|] eqn:Es; [|done]. intros [= _ <- <-]. split; [etrans; [exact Hr|by eapply ScheduleTemporaryExpiry_rows]|].
  split; [|done]. unfold ScheduleTemporaryExpiry in Es. destruct (_ <=? _); [done|]. destruct (_ !! _); [|done]. destruct (negb _); [done|]. injection Es as _ <-. by split.
Qed.

(** ** The owner kicks a member, and changes the password *)

#[local] Existing Instance EventBusProps.ex_prims.
#[local] Existing Instance PublicationProps.ex_pprims.
#[local] Existing Instance InstallationProps.demo_env.
#[local] Existing Instance DatabaseProps.sample_prims.
#[local] Existing Instance DurableProps.demo_json.
#[local] Existing Instance ChannelProps.demo_config.
#[local] Existing Instance ChannelProps.demo_events.
#[local] Existing Instance VoiceProps.quiet_env.
Definition demo_readers : AccountEnv := {| readers := fun _ => [(8, true); (7, true)] |}.
#[local] Existing Instance demo_readers.
#[local] Abbreviation conn := EventBusProps.webSocketSyncConnection.
#[local] Abbreviation world := (World Process).

Definition every_connection (c : ConnectionCoordinator) : list ConnID := flat_map (fun lu => (map_to_list (Connection.u_connections lu.2)).*1) (map_to_list (Connection.co_heap c)).
Lemma every_connection_all c u id : is_Some (conns_of c u !! id) -> id ∈ every_connection c.
Proof.
  unfold conns_of, ConnectionProps.view, Connection.user_at, every_connection. intros [r Hr].
  destruct (Connection.co_users c !! u) as [l|]; [|exfalso; exact (lookup_empty_Some _ _ Hr)]. destruct (Connection.co_heap c !! l) as [x|] eqn:Ex; cbn in Hr; [|exfalso; exact (lookup_empty_Some _ _ Hr)].
  apply list_elem_of_In, in_flat_map. exists (l, x). split; [by apply list_elem_of_In, elem_of_map_to_list|]. apply list_elem_of_In, list_elem_of_fmap. exists (id, r).
  split; [done|by apply elem_of_map_to_list].
Qed.
Definition demo_process : Process := mkProcess (Voice.mkRuntime (ConnectionProps.sy_co ConnectionProps.ex_sys2) (Session.NewManager 0) Voice.newVoiceCreateLimiter) AuthProps.demo_cache.
Definition demo_pub : StatePublication conn world :=
  mkPub 0 (mkVersion 1 (mkCheckpoint "e" 0) VoiceProps.talk_state empty_runtime) PublicationProps.ex_ring None false
    (mkWorld VoiceProps.talk_db Deadline.NewDeadlineScheduler demo_process).
Definition demo_acquire (w : world) : world * Acquired (W := world) := (w, AcquireOk (fun w => w)).
Definition demo_submit (op : AccountOp) : result (PostCommitCommand conn world (MutationResult AccountValue)) err :=
  submit (Some (voice_projection 1)) every_connection (fun _ => Some ∅) "" (fun s => s) (fun _ _ => []) (mkSigner "") (fun _ _ => Some "cursor") (fun _ : unit => Some "{}") (fun _ => 0)
    demo_acquire None (fun _ => Ok (200, tt, no_headers)) VoiceProps.talk_tx false op.
Definition demo_execute (op : AccountOp) : option (Outcome conn world Z (MutationResult AccountValue)) :=
  match demo_submit op with
  | Ok cmd => Sequencer.execute PublicationProps.ok_json PublicationProps.ok_marshal (fun _ => Some [1]) (fun g : Z => (Ok (g + 1), g + 1)) cmd demo_pub 600
  | Err _ => None
  end.
Lemma account_demo_mirror : mirror demo_pub.
Proof. split; [exact VoiceProps.talk_ok|]. destruct (InstallationProps.projection_loads VoiceProps.talk_db VoiceProps.talk_ok) as (st & Hst & Hds). cbn. unfold VoiceProps.talk_state. by rewrite Hst. Qed.
Lemma account_demo_coherent : coherent VoiceProps.talk_db AuthProps.demo_cache.
Proof. unfold AuthProps.demo_cache. intros u x [<- <-]%lookup_singleton_Some. vm_compute. reflexivity. Qed.
Lemma account_demo_keeps : keeps_process demo_acquire.
Proof. intros w. split_and!; try done. intros release [= <-] w'. done. Qed.
Definition demo_view (o : Outcome conn world Z (MutationResult AccountValue)) :=
  (oc_fail o, match oc_reply o with Ok c => is_some (mr_value (cc_Value c)) | Err _ => false end, (fun u => ur_AuthVersion <$> t_users (w_db (pb_world (oc_pub o))) !! u) <$> [7; 8],
   map_to_list (pc_principals (w_voice (pb_world (oc_pub o))))).

(** The cached owner is dropped with the lock, although readers asked for it. *)
Lemma account_mutation_mirror_witness : exists o, demo_execute (Kick 7 8) = Some o /\ demo_view o = (None, true, [Some 0; Some 1], []) /\ mirror (oc_pub o) /\
  op_allowed VoiceProps.talk_db (Kick 7 8).
Proof.
  destruct (demo_submit (Kick 7 8)) as [cmd|] eqn:Es; [|discriminate Es].
  destruct (account_mutation_mirror PublicationProps.ok_json PublicationProps.ok_marshal (fun _ => Some [1]) (Some (voice_projection 1)) every_connection (fun _ => Some ∅) ""
    (fun s => s) (fun _ _ => []) (mkSigner "") (fun _ _ => Some "cursor") (fun _ : unit => Some "{}") (fun _ => 0) VoiceProps.quiet_others every_connection_all (voice_projection_keeps 1)
    (fun g : Z => (Ok (g + 1), g + 1)) demo_acquire None (fun _ => Ok (200, tt, no_headers)) (Kick 7 8) VoiceProps.talk_tx false cmd demo_pub 600 Es account_demo_keeps eq_refl account_demo_mirror account_demo_coherent
    VoiceProps.connected_live eq_refl) as (o & Ho & Hs).
  assert (Hx : demo_view <$> demo_execute (Kick 7 8) = Some (None, true, [Some 0; Some 1], [])) by (vm_compute; reflexivity).
  assert (He : demo_execute (Kick 7 8) = Some o) by (unfold demo_execute; rewrite Es; exact Ho). rewrite He in Hx. apply (inj Some) in Hx. exists o. split; [exact He|]. split; [exact Hx|].
  pose proof (f_equal (fun x => x.1.1.1) Hx) as E1. pose proof (f_equal (fun x => x.1.1.2) Hx) as E2. cbn in E1, E2. rewrite E1 in Hs. destruct Hs as (_ & Hm & _ & Hr). split; [exact Hm|].
  destruct (oc_reply o) as [c|]; [|discriminate E2]. destruct Hr as [[Hr _]|(w & _ & _ & Hr)]; [by rewrite Hr in E2|exact Hr].
Defined.

(** The connected user of the changed password is disconnected, and the token is void. *)
Definition owner_claims : Claims := mkClaims 7 30 0 None (Some 5).
Definition after_tx (o : Outcome conn world Z (MutationResult AccountValue)) : Tx.Tx := Tx.mkTx (w_db (pb_world (oc_pub o))) 0 (100 : gen).
Lemma account_revocation_witness :
  (check_claims owner_claims AuthProps.demo_cache VoiceProps.talk_tx).1 = Ok (mkConnectionAuth 7 30 5000, AuthProps.demo_cache) /\
  exists o, demo_execute (ChangePassword 7 "new") = Some o /\ closed_out (oc_pub o) 7 /\ conns_of (rt_co (pc_voice (w_voice (pb_world (oc_pub o))))) 7 <> ∅ /\
    denied (check_claims owner_claims (pc_principals (w_voice (pb_world (oc_pub o)))) (after_tx o)).1.
Proof.
  split; [vm_compute; reflexivity|].
  destruct (demo_submit (ChangePassword 7 "new")) as [cmd|] eqn:Es; [|discriminate Es].
  destruct (demo_execute (ChangePassword 7 "new")) as [o|] eqn:Eo; [|exfalso; revert Eo; vm_compute; discriminate]. exists o. split; [reflexivity|].
  assert (Hx : (demo_view o, bool_decide (conns_of (rt_co (pc_voice (w_voice (pb_world (oc_pub o))))) 7 = ∅)).1.1.1 = (None, true) /\ bool_decide (conns_of (rt_co (pc_voice (w_voice (pb_world (oc_pub o))))) 7 = ∅) = false)
    by (revert Eo; vm_compute; intros [= <-]; split; reflexivity).
  destruct Hx as [Hx Hne%bool_decide_eq_false]. pose proof (f_equal fst Hx) as E1. pose proof (f_equal snd Hx) as E2. cbn in E1, E2.
  destruct (oc_reply o) as [c|] eqn:Er; [|discriminate E2].
  assert (Hv : mr_value (cc_Value c) <> None) by (intros Hv; rewrite Hv in E2; discriminate E2).
  assert (Ho : Sequencer.execute PublicationProps.ok_json PublicationProps.ok_marshal (fun _ => Some [1]) (fun g : Z => (Ok (g + 1), g + 1)) cmd demo_pub 600 = Some o)
    by (unfold demo_execute in Eo; rewrite Es in Eo; exact Eo).
  destruct (account_revocation PublicationProps.ok_json PublicationProps.ok_marshal (fun _ => Some [1]) (Some (voice_projection 1)) every_connection (fun _ => Some ∅) ""
    (fun s => s) (fun _ _ => []) (mkSigner "") (fun _ _ => Some "cursor") (fun _ : unit => Some "{}") (fun _ => 0) VoiceProps.quiet_others every_connection_all (voice_projection_keeps 1)
    (fun g : Z => (Ok (g + 1), g + 1)) demo_acquire None (fun _ => Ok (200, tt, no_headers)) (ChangePassword 7 "new") VoiceProps.talk_tx false cmd demo_pub 600 o c 7 Es account_demo_keeps eq_refl account_demo_mirror
    account_demo_coherent VoiceProps.connected_live eq_refl eq_refl Ho E1 Er Hv) as [Hcl Hden].
  split; [exact Hcl|]. split; [exact Hne|]. apply (Hden (after_tx o) eq_refl). reflexivity.
Defined.
End AccountProps.
