(* ===== verification/WebSocket.v ===== *)
(** * WebSocket: the control connection handler ([realtime/websocket.go])

    [WebSocketHandler] admits a request, upgrades it, activates the connection
    and then reads one client frame after the other until it returns.  The
    handler is a program over what it shares with other goroutines (the
    coordinator, its write pump, the upgrade limiter and the rest of the
    server), which act before every access; its budget, its two timers and its
    counters are its own.  The frames of one connection are a list, a read that
    fails included; the authenticator, the synchronisation strategy and the
    publisher are the interfaces of the source.

    [so_log] records what the handler did, in order. *)

From S2P Require Import Prelude Float64 TokenBucket Ingress State StateRing Lane Pump Connection EventBus Sync Lifecycle.
From stdpp Require Import base gmap strings list pretty.
From Stdlib Require Import ZArith Ascii String.
#[local] Open Scope string_scope.
#[local] Open Scope list_scope.
#[local] Open Scope Z_scope.

Module WebSocket.
Import Netip Ingress.Ingress Ingress.Upgrade State StateRing Lane Pump.
Import Connection (ConnectionCoordinator, ControlConnectionRef, r_ID, r_UserID, r_LoginSessionID, AuthLease, al_Revision, al_ExpiresAt, ConnError,
  ErrConnectionNotActive, ErrConnectionAdmissionClosed, ErrControlConnectionLimit, ErrSourceConnectionLimit, ConnID).
Import Sync (SyncError, ErrSyncSlow, ErrSyncBus).
Import Lifecycle (LifecycleError, ErrPresenceRateLimited, ErrInvalidPresence, ErrConnectionUnauthorized, ErrConnection).

Definition MaxInboundWebSocketMessage : Z := Z.shiftl 64 10.
Definition websocketHelloTimeout : Z := 10 * Second.
Definition websocketResyncTimeout : Z := 30 * Second.
Definition websocketLivenessWindow : Z := 60 * Second.
Definition websocketCommandRate : Z := Float64.of_int 20.
Definition websocketCommandBurst : Z := Float64.of_int 40.
Definition websocketMalformedCommandLimit : Z := 3.
Definition websocketRateLimitCloseLimit : Z := 3.
Definition websocketCloseNormal : Z := 1000.
Definition websocketCloseProtocol : Z := 4000.
Definition websocketCloseExpired : Z := 4001.
Definition websocketCloseRevoked : Z := 4002.
Definition websocketCloseAbuse : Z := 4003.
Definition websocketCloseSync : Z := 4004.
Definition websocketCloseSlow : Z := 4006.

(** [^[A-Za-z0-9_-]{16,64}$]. *)
Definition request_char (c : ascii) : bool :=
  let n := Z.of_N (N_of_ascii c) in
  ((65 <=? n) && (n <=? 90)) || ((97 <=? n) && (n <=? 122)) || ((48 <=? n) && (n <=? 57)) || (n =? 95) || (n =? 45).
Definition requestIDPattern (s : string) : bool :=
  let l := String.list_ascii_of_string s in (16 <=? len l) && (len l <=? 64) && forallb request_char l.

(** ** Client frames *)

Record webSocketClientEnvelope := mkEnvelope { en_Type : string; en_RequestID : string; en_Data : bytes }.
(** [json.Unmarshal] into the structures of the source. *)
Class ClientJson := {
  Unmarshal_envelope : bytes -> option webSocketClientEnvelope;
  Unmarshal_hello : bytes -> option (option string);
  Unmarshal_update : bytes -> option string;
  Unmarshal_set : bytes -> option (option string * option PresenceActivity)
}.
Section Decoders.
Context `{!ClientJson}.
(** [dereferenceString] is the last [match]. *)
Definition syncHelloCursor (data : bytes) : option string :=
  if bool_decide (data = []) then None else match Unmarshal_hello data with Some (Some cursor) => Some cursor | _ => None end.
Definition authUpdateToken (data : bytes) : option string :=
  if bool_decide (data = []) then None
  else match Unmarshal_update data with Some token => if bool_decide (token = "") then None else Some token | None => None end.
Definition presenceSetData (data : bytes) : option (string * option PresenceActivity) :=
  if bool_decide (data = []) then None
  else match Unmarshal_set data with Some (Some status, activity) => Some (status, Lifecycle.clonePresenceActivity activity) | _ => None end.
End Decoders.

(** ** Server frames *)

Inductive ServerFrame :=
  | ConnectionReady (controlConnectionID : ConnID) (accessExpiresAt : Z)
  | SyncRequired (reason : string)
  | AuthUpdated (requestID : string) (expiresAt : Z)
  | PresenceUpdated (requestID commandID : string)
  | AuthRevoked (reason : string)
  | CommandError (requestID commandType : string) (code : Z) (message : string) (retryable : bool).
(** [json.Marshal]. *)
Class ServerJson := { Marshal : ServerFrame -> option bytes }.
Section Frames.
Context `{!ServerJson}.
(** The error of the encoder is dropped and its bytes are nil. *)
Definition encode (f : ServerFrame) : bytes := default [] (Marshal f).
Definition webSocketReadyFrame (ref : ControlConnectionRef) (accessExpiresAt : Z) : bytes := encode (ConnectionReady (r_ID ref) accessExpiresAt).
Definition webSocketSyncRequiredFrame (reason : string) : bytes := encode (SyncRequired reason).
Definition webSocketAuthUpdatedFrame (requestID : string) (expiresAt : Z) : bytes := encode (AuthUpdated requestID expiresAt).
Definition webSocketPresenceUpdatedFrame (requestID : string) (commandID : Z) : bytes := encode (PresenceUpdated requestID (pretty commandID)).
Definition webSocketAuthRevokedFrame (reason : string) : bytes := encode (AuthRevoked reason).
End Frames.

(** ** The command budget *)

Record webSocketCommandLimiter := mkLimiter { li_tokens : Z; li_last : Z }.
Definition newWebSocketCommandLimiter (now : Z) : webSocketCommandLimiter := mkLimiter websocketCommandBurst now.
Definition AllowCommand (l : webSocketCommandLimiter) (now : Z) : bool * webSocketCommandLimiter :=
  let elapsed := Float64.duration_seconds (time_sub now (li_last l)) in
  let l := if 0 <? elapsed
           then mkLimiter (Z.min websocketCommandBurst (Float64.add (li_tokens l) (Float64.mul elapsed websocketCommandRate))) now else l in
  if li_tokens l <? Float64.one then (false, l)
  else (true, mkLimiter (Float64.sub (li_tokens l) Float64.one) (li_last l)).

(** ** Timers *)

(** [sd_timer] is the revision and the delay of the timer last set. *)
Record syncDeadline := mkDeadline { sd_timer : option (Z * Z); sd_stopped : bool; sd_revision : Z }.
Definition newSyncDeadline : syncDeadline := mkDeadline None false 0.
Definition ScheduleSync (d : syncDeadline) (after : Z) : syncDeadline :=
  if after <=? 0 then d
  else if sd_stopped d then d
  else let revision := u64 (sd_revision d + 1) in mkDeadline (Some (revision, after)) false revision.
(** Whether the callback of [revision] closes the connection. *)
Definition expire (d : syncDeadline) (revision : Z) : bool := negb (sd_stopped d) && (sd_revision d =? revision).
Definition StopSync (d : syncDeadline) : syncDeadline := mkDeadline None true (u64 (sd_revision d + 1)).

(** The lease a callback carries and its delay. *)
Record authLeaseTimer := mkLeaseTimer { lt_timer : option (AuthLease * Z); lt_stopped : bool }.
Definition newAuthLeaseTimer : authLeaseTimer := mkLeaseTimer None false.
(** [now] in nanoseconds. *)
Definition ScheduleLease (t : authLeaseTimer) (lease : AuthLease) (now : Z) : authLeaseTimer :=
  if (al_Revision lease =? 0) || (al_ExpiresAt lease <=? 0) then t
  else let delay := time_sub (al_ExpiresAt lease * 1000000) now in
       let delay := if delay <? 0 then 0 else delay in
       if lt_stopped t then t else mkLeaseTimer (Some (lease, delay)) false.
Definition StopLease (t : authLeaseTimer) : authLeaseTimer := mkLeaseTimer None true.

(** ** What the handler shares *)

Record WebSocketIdentity := mkIdentity { id_UserID : Z; id_LoginSessionID : Z; id_AccessExpiresAt : Z }.
Inductive syncPhase := SyncPhaseInitial | SyncPhaseResyncRequired | SyncPhaseLive.
#[export] Instance syncPhase_eq : EqDecision syncPhase. Proof. solve_decision. Defined.

Record Shared (X : Type) := mkShared { sh_co : ConnectionCoordinator; sh_pump : webSocketWritePump; sh_upgrades : UpgradeLimiter; sh_rest : X }.
Arguments mkShared {X}. Arguments sh_co {X}. Arguments sh_pump {X}. Arguments sh_upgrades {X}. Arguments sh_rest {X}.
Definition set_co {X} (s : Shared X) (c : ConnectionCoordinator) : Shared X := mkShared c (sh_pump s) (sh_upgrades s) (sh_rest s).
Definition set_pump {X} (s : Shared X) (p : webSocketWritePump) : Shared X := mkShared (sh_co s) p (sh_upgrades s) (sh_rest s).

(** The interfaces [WebSocketAuthenticator], [StateSyncStrategy] and
    [ControlConnectionPublisher].  [Verify] is the part of [Authenticate] and
    [UpdateLease] before their callback, which runs last and decides them; the
    expected identity is that of [UpdateLease].  [None] is an error that is none
    of the named ones. *)
Class Services (X : Type) := {
  Verify : option (Z * Z) -> string -> Shared X -> option WebSocketIdentity * Shared X;
  OnHello : ControlConnectionRef -> string -> Shared X -> result string SyncError * Shared X;
  OnDisconnect : ControlConnectionRef -> Shared X -> Shared X;
  Activate : ControlConnectionRef -> Z -> Shared X -> option AuthLease * Shared X;
  SetPresence : ControlConnectionRef -> string -> option PresenceActivity -> Shared X -> result Z (option LifecycleError) * Shared X
}.
(** What other goroutines do before an access, the clock, the choices of a
    select, and how long the writer takes to finish. *)
Class SocketEnv (X : Type) := { others : nat -> Shared X -> Shared X; clock : nat -> Z; pick_done : nat -> bool; finished_at : nat -> nat }.

(** What the handler does. *)
Inductive Act :=
  | DidTake (now : Z) (granted : bool)
  | DidHello (cursor : string) (live : option bool)
  | DidClaim (requestID : string)
  | DidUpdate (requestID token : string)
  | DidPresence (requestID status : string) (activity : option PresenceActivity)
  | DidAnswer (requestID : string) (frame : option bytes) (accepted : bool)
  | DidRelease (requestID : string)
  | DidSend (frame : bytes) (accepted : bool)
  | DidClose (status : Z) (reason : string).

Record Socket (X : Type) := mkSocket {
  so_shared : Shared X; so_commands : webSocketCommandLimiter; so_sync : syncDeadline; so_lease : authLeaseTimer;
  so_phase : syncPhase; so_malformed : Z; so_violations : Z; so_log : list Act
}.
Arguments mkSocket {X}. Arguments so_shared {X}. Arguments so_commands {X}. Arguments so_sync {X}. Arguments so_lease {X}. Arguments so_phase {X}.
Arguments so_malformed {X}. Arguments so_violations {X}. Arguments so_log {X}.

(** ** The program of the handler *)

Section Handler.
Context {X : Type} `{!Services X, !SocketEnv X, !ClientJson, !ServerJson}.
#[local] Abbreviation shared := (Shared X).
#[local] Abbreviation socket := (Socket X).

(** A statement goes on, the handler returns, or it blocks for good. *)
Inductive Out (A : Type) := Go (a : A) | Return | Block.
Arguments Go {A}. Arguments Return {A}. Arguments Block {A}.
Definition io (A : Type) : Type := nat * socket -> Out A * (nat * socket).
Definition pass {A} (a : A) : io A := fun w => (Go a, w).
Definition leave {A} : io A := fun w => (Return, w).
Definition andThen {A B} (m : io A) (f : A -> io B) : io B := fun w =>
  match m w with (Go a, w) => f a w | (Return, w) => (Return, w) | (Block, w) => (Block, w) end.
#[local] Notation "x <== m ;; k" := (andThen m (fun x => k)) (at level 100, m at next level, right associativity).
#[local] Notation "m ;;; k" := (andThen m (fun _ => k)) (at level 100, right associativity).

Definition own {A} (f : nat -> socket -> A * socket) : io A := fun '(n, s) => let '(a, s) := f n s in (Go a, (n, s)).
(** An access to what is shared. *)
Definition touch {A} (f : nat -> shared -> A * shared) : io A := fun '(n, s) =>
  let '(a, sh) := f n (others n (so_shared s)) in
  (Go a, (S n, mkSocket sh (so_commands s) (so_sync s) (so_lease s) (so_phase s) (so_malformed s) (so_violations s) (so_log s))).
Definition did (a : Act) : io unit := own (fun _ s =>
  (tt, mkSocket (so_shared s) (so_commands s) (so_sync s) (so_lease s) (so_phase s) (so_malformed s) (so_violations s) (so_log s ++ [a]))).
Definition get {A} (f : socket -> A) : io A := own (fun _ s => (f s, s)).
Definition set_phase (p : syncPhase) : io unit := own (fun _ s =>
  (tt, mkSocket (so_shared s) (so_commands s) (so_sync s) (so_lease s) p (so_malformed s) (so_violations s) (so_log s))).
Definition set_timers (f : nat -> syncDeadline -> syncDeadline) (g : nat -> authLeaseTimer -> authLeaseTimer) : io unit := own (fun n s =>
  (tt, mkSocket (so_shared s) (so_commands s) (f n (so_sync s)) (g n (so_lease s)) (so_phase s) (so_malformed s) (so_violations s) (so_log s))).
Definition set_malformed (z : Z) : io unit := own (fun _ s =>
  (tt, mkSocket (so_shared s) (so_commands s) (so_sync s) (so_lease s) (so_phase s) z (so_violations s) (so_log s))).
Definition set_violations (z : Z) : io unit := own (fun _ s =>
  (tt, mkSocket (so_shared s) (so_commands s) (so_sync s) (so_lease s) (so_phase s) (so_malformed s) z (so_log s))).
Definition UnixMilli (t : Z) : Z := t / 1000000.

(** *** The write pump *)

(** [RequestClose] to its end: the state lane stops, and the close frame is
    checked, reserved and sent. *)
Fixpoint run_requester (fuel : nat) (r : Requester) : io unit :=
  match fuel with
  | O => pass tt
  | S fuel => r <== touch (fun n s => let '(p, r) := requester_step (sh_pump s) r (pick_done n) in (r, set_pump s p)) ;; run_requester fuel r
  end.
Definition pump_RequestClose (status : Z) (reason : string) : io unit := run_requester 4 (RequestClose status reason).
Definition pump_Enqueue (frame : bytes) : io bool :=
  ok <== touch (fun _ s => let '(ok, p) := Enqueue (sh_pump s) frame in (ok, set_pump s p)) ;; did (DidSend frame ok) ;;; pass ok.
(** Blocks for good if the queue is full. *)
Definition send_response (slot : webSocketResponseSlot) (frame : bytes) : io bool :=
  o <== touch (fun n s => match pump_EnqueueResponse (sh_pump s) (pick_done n) slot frame with
                          | Some (ok, p) => (Some ok, set_pump s p)
                          | None => (None, s)
                          end) ;;
  match o with Some ok => did (DidAnswer (sl_requestID slot) (Some frame) ok) ;;; pass ok | None => fun w => (Block, w) end.
Definition enqueueCommandError (slot : webSocketResponseSlot) (requestID commandType : string) (code : Z) (message : string) (retryable : bool) : io bool :=
  match Marshal (CommandError requestID commandType code message retryable) with
  | None => did (DidAnswer requestID None false) ;;; pass false
  | Some encoded => send_response slot encoded
  end.

(** *** Ending the connection *)

Section Connection.
Context (ref : ControlConnectionRef).

(** A claimed teardown runs the transport's [RequestClose]. *)
Definition begin_disconnect (status : Z) (reason : string) : io unit :=
  claimed <== touch (fun _ s => let '(ok, c) := Connection.BeginDisconnect (sh_co s) ref status reason in (ok, set_co s c)) ;;
  (if claimed : bool then pump_RequestClose status reason else pass tt) ;;; did (DidClose status reason).
Definition hang_up {A} (status : Z) (reason : string) : io A := begin_disconnect status reason ;;; leave.
(** [if !enqueued { disconnect; return }]. *)
Definition or_slow (m : io bool) : io unit := ok <== m ;; if ok : bool then pass tt else hang_up websocketCloseSlow "writer unavailable".

(** *** Commands *)

Definition allow : io bool :=
  ok <== own (fun n s => let now := clock n in let '(ok, l) := AllowCommand (so_commands s) now in
                         ((ok, now), mkSocket (so_shared s) l (so_sync s) (so_lease s) (so_phase s) (so_malformed s) (so_violations s) (so_log s))) ;;
  did (DidTake ok.2 ok.1) ;;; pass ok.1.

Definition sync_hello (e : webSocketClientEnvelope) : io unit :=
  phase <== get so_phase ;;
  if bool_decide (phase = SyncPhaseLive) then hang_up websocketCloseSync "invalid sync state"
  else match syncHelloCursor (en_Data e) with
  | None => hang_up websocketCloseSync "invalid sync state"
  | Some cursor =>
      ok <== allow ;;
      if negb ok then hang_up websocketCloseAbuse "command rate limited"
      else
        r <== touch (fun _ => OnHello ref cursor) ;;
        match r with
        | Err er =>
            did (DidHello cursor None) ;;;
            match er with
            | ErrSyncSlow | ErrSyncBus EventBus.ErrEventConsumerSlow | ErrSyncBus EventBus.ErrSyncAttemptClosed => leave
            | _ => hang_up websocketCloseProtocol "state sync failure"
            end
        | Ok reason =>
            if negb (bool_decide (reason = "")) then
              did (DidHello cursor (Some false)) ;;;
              (if bool_decide (phase = SyncPhaseInitial)
               then set_phase SyncPhaseResyncRequired ;;; set_timers (fun _ d => ScheduleSync d websocketResyncTimeout) (fun _ t => t) else pass tt) ;;;
              or_slow (pump_Enqueue (webSocketSyncRequiredFrame reason))
            else did (DidHello cursor (Some true)) ;;; set_phase SyncPhaseLive ;;; set_timers (fun _ d => StopSync d) (fun _ t => t)
        end
  end.

(** The head that [auth.update] and [presence.set] share: the slot of a command
    that may run. *)
Definition begin_command (e : webSocketClientEnvelope) : io (option webSocketResponseSlot) :=
  if negb (requestIDPattern (en_RequestID e)) then hang_up websocketCloseProtocol "protocol error"
  else
    fresh <== touch (fun _ s => let '(ok, l) := tracker_Reserve (wp_responses (sh_pump s)) (en_RequestID e) in (ok, set_pump s (set_responses (sh_pump s) l))) ;;
    if negb fresh then hang_up websocketCloseProtocol "duplicate request id"
    else
      slot <== touch (fun _ s => let '(o, p) := pump_ReserveResponse (sh_pump s) (en_RequestID e) in (o, set_pump s p)) ;;
      match slot with
      | None => hang_up websocketCloseSlow "response lane full"
      | Some slot =>
          did (DidClaim (en_RequestID e)) ;;;
          ok <== allow ;;
          if negb ok then
            violations <== get so_violations ;; set_violations (violations + 1) ;;;
            or_slow (enqueueCommandError slot (en_RequestID e) (en_Type e) 1008 "rate limited" true) ;;;
            (if websocketRateLimitCloseLimit <=? violations + 1 then hang_up websocketCloseAbuse "command rate limited" else pass None)
          else set_violations 0 ;;; pass (Some slot)
      end.
(** A command that cannot be read is counted, and answered. *)
Definition malformed (slot : webSocketResponseSlot) (e : webSocketClientEnvelope) (code : Z) (message : string) : io Z :=
  n <== get so_malformed ;; set_malformed (n + 1) ;;; or_slow (enqueueCommandError slot (en_RequestID e) (en_Type e) code message false) ;;; pass (n + 1).

(** The callback renews the lease under the principal's barrier. *)
Definition update_lease (token : string) : io (option (WebSocketIdentity * AuthLease)) :=
  touch (fun n s =>
    match Verify (Some (r_UserID ref, r_LoginSessionID ref)) token s with
    | (None, s) => (None, s)
    | (Some identity, s) =>
        let '(r, c) := Connection.RenewAuthLease (sh_co s) ref (id_AccessExpiresAt identity) (UnixMilli (clock n)) in
        (match r with Ok lease => Some (identity, lease) | Err _ => None end, set_co s c)
    end).
Definition auth_update (e : webSocketClientEnvelope) : io unit :=
  o <== begin_command e ;;
  match o with
  | None => pass tt
  | Some slot =>
      match authUpdateToken (en_Data e) with
      | None =>
          n <== malformed slot e 1001 "malformed request" ;;
          (* the source goes on to the next read here *)
          if websocketMalformedCommandLimit <=? n then begin_disconnect websocketCloseProtocol "protocol error" else pass tt
      | Some token =>
          set_malformed 0 ;;;
          r <== update_lease token ;; did (DidUpdate (en_RequestID e) token) ;;;
          match r with
          | None =>
              touch (fun _ s => (tt, set_pump s (set_responses (sh_pump s) (release_slot (wp_responses (sh_pump s)) slot)))) ;;;
              did (DidRelease (en_RequestID e)) ;;; hang_up websocketCloseExpired "unauthorized"
          | Some (identity, lease) =>
              set_timers (fun _ d => d) (fun n t => ScheduleLease t lease (clock n)) ;;;
              or_slow (send_response slot (webSocketAuthUpdatedFrame (en_RequestID e) (id_AccessExpiresAt identity)))
          end
      end
  end.

Definition presence_set (e : webSocketClientEnvelope) : io unit :=
  o <== begin_command e ;;
  match o with
  | None => pass tt
  | Some slot =>
      phase <== get so_phase ;;
      if negb (bool_decide (phase = SyncPhaseLive)) then or_slow (enqueueCommandError slot (en_RequestID e) (en_Type e) 1 "sync incomplete" true)
      else
      match presenceSetData (en_Data e) with
      | None =>
          n <== malformed slot e 1001 "malformed request" ;;
          if websocketMalformedCommandLimit <=? n then hang_up websocketCloseProtocol "protocol error" else pass tt
      | Some (status, activity) =>
          set_malformed 0 ;;;
          r <== touch (fun _ => SetPresence ref status activity) ;; did (DidPresence (en_RequestID e) status activity) ;;;
          match r with
          | Ok commandID => set_malformed 0 ;;; or_slow (send_response slot (webSocketPresenceUpdatedFrame (en_RequestID e) commandID))
          | Err (Some ErrPresenceRateLimited) => or_slow (enqueueCommandError slot (en_RequestID e) (en_Type e) 1008 "rate limited" true)
          | Err (Some ErrInvalidPresence) =>
              n <== malformed slot e 1 "invalid presence" ;;
              if websocketMalformedCommandLimit <=? n then hang_up websocketCloseProtocol "protocol error" else pass tt
          | Err (Some (ErrConnection ErrConnectionNotActive)) => hang_up websocketCloseExpired "connection inactive"
          | Err (Some ErrConnectionUnauthorized) => hang_up websocketCloseExpired "unauthorized"
          | Err _ => hang_up websocketCloseProtocol "presence publication failed"
          end
      end
  end.

(** *** The read loop *)

(** What a read returns; [deadline_ok] is whether the next deadline could be set. *)
Inductive Read := ReadTimeout | ReadFailed | ReadBinary | ReadText (payload : bytes) (deadline_ok : bool).
(** Whether the connection's lease is still good; an expired one ends it here. *)
Definition lease_good : io bool :=
  r <== touch (fun n s => let '(o, c) := Connection.GetAuthLease (sh_co s) ref in (o, set_co s c)) ;;
  match r with
  | None => pass false
  | Some lease =>
      expired <== touch (fun n s => let '(ok, c) := Connection.ExpireAuthLease (sh_co s) ref lease (UnixMilli (clock n)) in (ok, set_co s c)) ;;
      (if expired : bool then pump_RequestClose websocketCloseExpired "token expired" ;;; did (DidClose websocketCloseExpired "token expired") else pass tt) ;;;
      pass (negb expired)
  end.
Definition on_message (r : Read) : io unit :=
  match r with
  | ReadTimeout => hang_up websocketCloseProtocol "liveness timeout"
  | ReadFailed => leave
  | ReadBinary => hang_up websocketCloseProtocol "protocol error"
  | ReadText payload deadline_ok =>
      good <== lease_good ;;
      if negb good then leave
      else match Unmarshal_envelope payload with
      | None => hang_up websocketCloseProtocol "protocol error"
      | Some e =>
          if bool_decide (en_Type e = "") then hang_up websocketCloseProtocol "protocol error"
          else if negb deadline_ok then hang_up websocketCloseProtocol "read deadline failure"
          else if bool_decide (en_Type e = "sync.hello") then sync_hello e
          else if bool_decide (en_Type e = "auth.update") then auth_update e
          else if bool_decide (en_Type e = "presence.set") then presence_set e
          else hang_up websocketCloseProtocol "protocol error"
      end
  end.
(** The messages so far; after the last one the loop waits in a read. *)
Fixpoint read_loop (messages : list Read) : io unit :=
  match messages with [] => pass tt | m :: messages => on_message m ;;; read_loop messages end.

(** *** Leaving *)

(** [<-pump.Done()]. *)
Definition wait_done : io unit := fun '(n, s) =>
  let k := finished_at n in
  let sh := others k (so_shared s) in
  let s := mkSocket sh (so_commands s) (so_sync s) (so_lease s) (so_phase s) (so_malformed s) (so_violations s) (so_log s) in
  (if wp_done (sh_pump sh) then Go tt else Block, (S k, s)).
Definition finish : io unit := wait_done ;;; touch (fun _ s => (tt, set_co s (Connection.FinishDisconnect (sh_co s) ref))).
(** The deferred function. *)
Definition deferred : io unit :=
  set_timers (fun _ d => StopSync d) (fun _ t => StopLease t) ;;;
  touch (fun _ s => (tt, OnDisconnect ref s)) ;;;
  begin_disconnect websocketCloseNormal "closed" ;;; finish.
(** [defer]: it runs when the body returns. *)
Definition with_deferred (m : io unit) : io unit := fun w =>
  match m w with (Return, w) => match deferred w with (Go _, w) => (Return, w) | o => o end | o => o end.

(** An exit before the loop. *)
Definition fail_early (status : Z) (reason : string) : io unit := begin_disconnect status reason ;;; finish ;;; leave.
(** From the activation to the end; [read_deadline] is whether the socket took its first one. *)
Definition serve (read_deadline : bool) (lease : AuthLease) (accessExpiresAt : Z) (messages : list Read) : io unit :=
  if negb read_deadline then fail_early websocketCloseProtocol "read deadline failure"
  else
    ok <== pump_Enqueue (webSocketReadyFrame ref accessExpiresAt) ;;
    if negb ok then fail_early websocketCloseSlow "writer unavailable"
    else
      set_timers (fun _ d => ScheduleSync d websocketHelloTimeout) (fun n t => ScheduleLease t lease (clock n)) ;;;
      with_deferred (
        own (fun n s => (tt, mkSocket (so_shared s) (newWebSocketCommandLimiter (clock n)) (so_sync s) (so_lease s) SyncPhaseInitial 0 0 (so_log s))) ;;;
        read_loop messages).
End Connection.

(** ** Admission *)

Context (Fields : string -> list string).
(** [strings.EqualFold] with a text whose letters fold among ASCII alone. *)
Definition lower_char (c : ascii) : ascii := let n := N_of_ascii c in if ((65 <=? n) && (n <=? 90))%N then ascii_of_N (n + 32) else c.
Definition EqualFold (s t : string) : bool := bool_decide (lower_char <$> String.list_ascii_of_string s = lower_char <$> String.list_ascii_of_string t).
Definition bearerAccessToken (header : string) : option string :=
  match Fields header with
  | [scheme; token] => if negb (EqualFold scheme "Bearer") || bool_decide (token = "") then None else Some token
  | _ => None
  end.

(** [echo.HTTPError]. *)
Record HTTPError := mkHTTPError { he_status : Z; he_message : string }.
Definition ErrUnauthorized : HTTPError := mkHTTPError 401 "Unauthorized".
(** [None] is an error of the token's verification. *)
Definition webSocketAuthenticationError (e : option ConnError) : HTTPError :=
  match e with
  | Some ErrConnectionAdmissionClosed => mkHTTPError 503 "server shutting down"
  | Some ErrControlConnectionLimit | Some ErrSourceConnectionLimit => mkHTTPError 503 "control connection capacity reached"
  | _ => ErrUnauthorized
  end.

(** A request: the peer [requestSourceIP] finds, its authorization header, the
    identifier drawn for its connection, and whether the upgrade and the first
    read deadline succeed. *)
Record Request := mkRequest { rq_source : option Addr; rq_authorization : string; rq_drawn : option ConnID; rq_upgraded : bool; rq_deadline : bool }.
(** The callback of [Authenticate] reserves the connection under the barrier. *)
Definition reserve (rq : Request) (source : Addr) (token : string) : io (result (WebSocketIdentity * ControlConnectionRef) (option ConnError)) :=
  touch (fun _ s =>
    match Verify None token s with
    | (None, s) => (Err None, s)
    | (Some identity, s) =>
        let '(r, c) := Connection.ReserveConnectFrom (sh_co s) (id_UserID identity) (id_LoginSessionID identity) source (rq_drawn rq) in
        (match r with Ok ref => Ok (identity, ref) | Err e => Err (Some e) end, set_co s c)
    end).
Definition abort_reservation (ref : ControlConnectionRef) : io unit := touch (fun _ s => (tt, set_co s (Connection.abort (sh_co s) ref))).
Definition open_pump : io unit := touch (fun _ s => (tt, set_pump s newWebSocketWritePump)).
(** From the reservation on. *)
Definition connect (rq : Request) (identity : WebSocketIdentity) (ref : ControlConnectionRef) (messages : list Read) : io unit :=
  if negb (rq_upgraded rq) then abort_reservation ref ;;; leave
  else
    open_pump ;;;
    lease <== touch (fun _ => Activate ref (id_AccessExpiresAt identity)) ;;
    match lease with
    | None => pump_RequestClose websocketCloseRevoked "connection revoked" ;;; wait_done ;;; abort_reservation ref ;;; leave
    | Some lease => serve ref (rq_deadline rq) lease (id_AccessExpiresAt identity) messages
    end.
(** [strategy] is whether [syncStrategy] has one.  A refusal is an HTTP error. *)
Definition WebSocketHandler (strategy : bool) (rq : Request) (messages : list Read) : io (option HTTPError) :=
  if negb strategy then pass (Some (mkHTTPError 503 "state sync unavailable"))
  else
    accepting <== touch (fun _ s => (Connection.AdmissionOpen (sh_co s), s)) ;;
    if negb accepting then pass (Some (mkHTTPError 503 "server shutting down"))
    else match rq_source rq with
    | None => pass (Some (mkHTTPError 400 "invalid remote address"))
    | Some source =>
        allowed <== touch (fun n s => let '(ok, l) := Allow (sh_upgrades s) source (clock n) in (ok, mkShared (sh_co s) (sh_pump s) l (sh_rest s))) ;;
        if negb allowed then pass (Some (mkHTTPError 429 "websocket upgrade rate limited"))
        else match bearerAccessToken (rq_authorization rq) with
        | None => pass (Some ErrUnauthorized)
        | Some token =>
            r <== reserve rq source token ;;
            match r with
            | Err e => pass (Some (webSocketAuthenticationError e))
            | Ok (identity, ref) => connect rq identity ref messages ;;; pass None
            end
        end
    end.
End Handler.
Arguments Go {A}. Arguments Return {A}. Arguments Block {A}.
End WebSocket.
