(* ===== verification/WebSocketProps.v ===== *)
(** * WebSocketProps: what a control connection does, and how it ends

    Whatever other goroutines do within their contract, the handler follows the
    connection protocol: it synchronises before it accepts presence, runs a
    command only with a granted token and a reserved response, answers each one
    once, does nothing after it asked the connection to close, and leaves no
    trace in the coordinator when it returns. *)

From S2P Require Import Prelude Float64 TokenBucket Ingress State StateRing Lane Pump Connection ConnectionProps EventBus Sync Lifecycle VoiceProps LifecycleProps WebSocket.
From stdpp Require Import base gmap strings list.
From Stdlib Require Import ZArith Lia.
#[local] Open Scope string_scope.
#[local] Open Scope list_scope.
#[local] Open Scope Z_scope.

Module WebSocketProps.
Import Connection (ConnectionCoordinator, ControlConnectionRef, r_ID, r_UserID, connectionUser, connectionRecord, u_connections, cr_ref, cr_state, ConnectionClosing,
  ConnectionActive, user_at, put, emit, releaseUser, acquireUser, with_user, reading, locked, validConnectionRef, active_record, loc).
Import ConnectionProps (user_sect, user_ok, conns_of, view, index_ok, mkSys, reachable).
Import VoiceProps (live, live_index, live_step, live_reading, live_section).
Import Lane Pump StateRing WebSocket.

(** ** The coordinator *)

(** The connection is closing or gone. *)
Definition ended (ref : ControlConnectionRef) (c : ConnectionCoordinator) : Prop :=
  forall r, conns_of c (r_UserID ref) !! r_ID ref = Some r -> cr_ref r = ref -> cr_state r = ConnectionClosing.

(** An operation that replaces one registry and has effects. *)
Lemma with_section {A} c userID (f : ConnectionCoordinator -> loc -> A * ConnectionCoordinator) : live c ->
  (forall c1 l, exists a u' es claim, f c1 l = (a, emit (put c1 l u') es) /\ user_sect c1 (user_at c1 l) u' claim) ->
  live (with_user c userID f).2 /\
  exists c1 l a u' es, user_ok (user_at c1 l) /\ u_connections (user_at c1 l) = conns_of c userID /\ f c1 l = (a, emit (put c1 l u') es) /\
    (with_user c userID f).1 = a /\ conns_of (with_user c userID f).2 userID = u_connections u'.
Proof.
  intros Hl Hf. destruct (ConnectionProps.with_user_spec c userID f (live_index _ Hl)) as (c1 & l & u & Eu & Ha & Hu & Hat & Hok & Hid & Hp & Hul & Hix & _ & ->).
  destruct (Hf c1 l) as (a & u' & es & claim & Ef & Hs). rewrite Ef. cbn [fst snd]. rewrite Hat in Hs.
  destruct (ConnectionProps.user_sect_ok _ _ _ _ Hs) as (Hok' & Hfr & _); [done|].
  assert (Hl1 : live c1) by (apply (live_step c); [done|]; intros ids cl; exists ids, cl; replace c1 with (acquireUser c userID).2 by (by rewrite <- Ha); apply ConnectionProps.ss_acquire).
  assert (Hl2 : live (emit (put c1 l u') es)).
  { apply VoiceProps.live_emit. apply (live_step c1); [done|]. intros ids cl. eexists ids, _. eapply ConnectionProps.ss_section; [by exists u|]. by rewrite Hat. }
  split.
  - apply (live_step _ _ Hl2). intros ids cl. exists ids, cl.
    assert (Hu' : Connection.co_heap (emit (put c1 l u') es) !! l = Some u') by (cbn; by rewrite lookup_insert_eq).
    replace userID with (Connection.u_userID (user_at (emit (put c1 l u') es) l)); [apply ConnectionProps.ss_release; exists u'; split; [done|]|].
    + by rewrite (ConnectionProps.sf_refs _ _ Hfr).
    + unfold user_at. rewrite Hu'. cbn. by rewrite (ConnectionProps.sf_id _ _ Hfr).
  - destruct (ConnectionProps.release_section c1 _ l u u' es userID Hix Hu Hul Hok' (ConnectionProps.sf_id _ _ Hfr) eq_refl) as (R1 & _ & _).
    exists c1, l, a, u', es. rewrite Hat. split_and!; [done|by rewrite Eu|done|done|done].
Qed.

Lemma begin_shape ref status reason c l : exists a u' es claim,
  Connection.begin_disconnect ref status reason c l = (a, emit (put c l u') es) /\ user_sect c (user_at c l) u' claim /\
  (Connection.beginDisconnectLocked c ref status reason (user_at c l)).2 = u'.
Proof.
  unfold Connection.begin_disconnect. pose proof (ConnectionProps.us_begin c (user_at c l) ref status reason) as Hs.
  destruct (Connection.beginDisconnectLocked c ref status reason (user_at c l)) as [[plan ok] u']. cbn [fst snd] in *.
  destruct (ConnectionProps.run_plan_emit (put c l u') plan false) as (es & He & _). unfold Connection.runClosePlan. rewrite He.
  destruct ok; unfold Connection.notifyClosed; cbn [Connection.co_closeObserver emit put Connection.set_index]; [destruct (Connection.co_closeObserver _)|];
    rewrite ?ConnectionProps.emit_emit; eexists _, u', _, _; (split; [reflexivity|]); by split.
Qed.
(** Afterwards the registry shows it closing, or not at all. *)
Lemma begin_ends c ref status reason u r : u_connections (Connection.beginDisconnectLocked c ref status reason u).2 !! r_ID ref = Some r -> cr_ref r = ref -> cr_state r = ConnectionClosing.
Proof.
  unfold Connection.beginDisconnectLocked. destruct (u_connections u !! r_ID ref) as [r0|] eqn:E; [|cbn; congruence].
  destruct (decide _) as [[Hne|Hc]|Hn]; cbn [snd]; [rewrite E; congruence|rewrite E; congruence|].
  repeat case_match; cbn; rewrite lookup_insert_eq; intros [= <-]; done.
Qed.
Lemma begin_section c ref status reason : live c -> let w := with_user c (r_UserID ref) (Connection.begin_disconnect ref status reason) in live w.2 /\ ended ref w.2.
Proof.
  intros Hl w. subst w.
  destruct (with_section c (r_UserID ref) (Connection.begin_disconnect ref status reason)) as (Hl' & c1 & l & a & u' & es & _ & _ & Ef & _ & Hc); [done| |].
  { intros c1 l. destruct (begin_shape ref status reason c1 l) as (a & u' & es & claim & E1 & E2 & _). by exists a, u', es, claim. }
  split; [done|]. intros r. rewrite Hc. destruct (begin_shape ref status reason c1 l) as (a2 & u2 & es2 & claim & E1 & _ & E2).
  rewrite Ef in E1. assert (u' = u2) as ->. { injection E1 as _ E1 _. apply (f_equal (lookup l)) in E1. rewrite !lookup_insert_eq in E1. congruence. }
  rewrite <- E2. apply begin_ends.
Qed.
Lemma BeginDisconnect_ends c ref status reason : live c -> validConnectionRef ref = true ->
  live (Connection.BeginDisconnect c ref status reason).2 /\ ended ref (Connection.BeginDisconnect c ref status reason).2.
Proof. intros Hl Hv. unfold Connection.BeginDisconnect. rewrite Hv. by apply begin_section. Qed.
Lemma ended_reading {A} c v (f : connectionUser -> A) ref : live c -> ended ref c -> ended ref (with_user c v (reading f)).2.
Proof. intros Hl He r. rewrite LifecycleProps.reading_conns by done. apply He. Qed.
Lemma GetAuthLease_ended c ref : live c ->
  let '(o, c') := Connection.GetAuthLease c ref in live c' /\ (ended ref c -> ended ref c' /\ o = None).
Proof.
  intros Hl. unfold Connection.GetAuthLease. destruct (negb _); [done|].
  pose proof (live_reading c (r_UserID ref) (fun u => Connection.cr_lease <$> active_record u ref) Hl) as H1.
  pose proof (ended_reading c (r_UserID ref) (fun u => Connection.cr_lease <$> active_record u ref) ref Hl) as H2.
  destruct (ConnectionProps.with_user_spec c (r_UserID ref) (reading (fun u => Connection.cr_lease <$> active_record u ref)) (live_index _ Hl))
    as (c1 & l & u & Eu & _ & _ & Hat & _ & _ & _ & _ & _ & _ & Ew).
  rewrite Ew in H1, H2 |- *. unfold reading in *. cbn [fst snd] in *. split; [done|]. intros He. split; [by apply H2|].
  rewrite Hat. unfold active_record. destruct (u_connections u !! r_ID ref) as [r|] eqn:Er; [|done]. rewrite decide_False; [done|].
  intros [Hr Ha]. specialize (He r). rewrite Eu in Er. rewrite He in Ha; done.
Qed.
Lemma ExpireAuthLease_ends c ref lease now : live c ->
  let '(ok, c') := Connection.ExpireAuthLease c ref lease now in live c' /\ (ok = true \/ ended ref c -> ended ref c').
Proof.
  intros Hl. unfold Connection.ExpireAuthLease. destruct (_ || _); [split; [done|by intros [|]]|].
  destruct (with_user c (r_UserID ref) (Connection.expire_locked ref lease)) as [ok c'] eqn:E.
  destruct (ConnectionProps.with_user_spec c (r_UserID ref) (Connection.expire_locked ref lease) (live_index _ Hl))
    as (c1 & l & u & Eu & Ha & Hu & Hat & Hok & Hid & Hp & Hul & Hix & _ & Ew).
  assert (Hread : forall x : unit, with_user c (r_UserID ref) (reading (fun _ => x)) = (x, releaseUser c1 (r_UserID ref) l)).
  { intros x. unfold with_user. rewrite <- Ha. done. }
  rewrite Ew in E. unfold Connection.expire_locked in E. rewrite Hat in E.
  assert (Hno : (false, releaseUser c1 (r_UserID ref) l) = (ok, c') -> live c' /\ (ok = true \/ ended ref c -> ended ref c')).
  { intros [= <- <-]. pose proof (live_reading c (r_UserID ref) (fun _ => tt) Hl) as H1. pose proof (ended_reading c (r_UserID ref) (fun _ => tt) ref Hl) as H2.
    rewrite Hread in H1, H2. split; [exact H1|]. intros [?|?]; [done|by apply H2]. }
  destruct (active_record u ref) as [r|]; [|by apply Hno]. destruct (decide _); [|by apply Hno].
  pose proof (begin_section c ref 4001 "token expired" Hl) as [Hl' He'].
  assert (Ew' : with_user c (r_UserID ref) (Connection.begin_disconnect ref 4001 "token expired") = (ok, c')).
  { unfold with_user. rewrite <- Ha. destruct (Connection.begin_disconnect ref 4001 "token expired" c1 l) as [b c3]. exact E. }
  rewrite Ew' in Hl', He'. done.
Qed.
Lemma RenewAuthLease_keeps c ref expires now : live c ->
  let c' := (Connection.RenewAuthLease c ref expires now).2 in live c' /\ (ended ref c -> ended ref c').
Proof.
  intros Hl. unfold Connection.RenewAuthLease. destruct (_ || _); [done|]. cbv zeta.
  destruct (with_section c (r_UserID ref) (locked (Connection.renew_locked ref expires now))) as (Hl' & c1 & l & a & u' & es & _ & Hu & Ef & _ & Hc); [done| |].
  { intros c1 l. unfold locked. pose proof (ConnectionProps.us_renew c1 (user_at c1 l) ref expires now) as Hs.
    destruct (Connection.renew_locked ref expires now (user_at c1 l)) as [r u']. exists r, u', [], None. by rewrite ConnectionProps.emit_nil. }
  split; [done|]. intros He r. rewrite Hc. unfold locked, Connection.renew_locked in Ef.
  assert (Hx : active_record (user_at c1 l) ref = None).
  { unfold active_record. rewrite Hu. destruct (_ !! _) as [r0|] eqn:E0; [|done]. rewrite decide_False; [done|]. intros [E1 E2]. rewrite (He r0 E0 E1) in E2. done. }
  rewrite Hx in Ef. injection Ef as _ E1 _. apply (f_equal (lookup l)) in E1. rewrite !lookup_insert_eq in E1. injection E1 as <-. rewrite Hu. apply He.
Qed.

(** Removing a closing connection leaves no record of it. *)
Lemma FinishDisconnect_removes c ref : live c -> validConnectionRef ref = true -> ended ref c ->
  let c' := Connection.FinishDisconnect c ref in live c' /\ forall r, conns_of c' (r_UserID ref) !! r_ID ref = Some r -> cr_ref r <> ref.
Proof.
  intros Hl Hv He. unfold Connection.FinishDisconnect. rewrite Hv. cbn [negb]. unfold Connection.finish. cbv zeta.
  destruct (ConnectionProps.with_user_spec c (r_UserID ref) (Connection.finish_locked ref) (live_index _ Hl)) as (c1 & l & u & Eu & Ha & Hu & Hat & Hok & Hid & Hp & Hul & Hix & _ & ->).
  cbn [snd]. assert (Hl1 : live c1) by (apply (live_step c); [done|]; intros ids cl; exists ids, cl; replace c1 with (acquireUser c (r_UserID ref)).2 by (by rewrite <- Ha); apply ConnectionProps.ss_acquire).
  assert (Hl2 : live (Connection.finish_locked ref c1 l).2) by (apply (live_step c1); [done|]; intros ids cl; exists ids, cl; apply ConnectionProps.ss_finish; by exists u).
  assert (H2 : exists u2, Connection.co_heap (Connection.finish_locked ref c1 l).2 !! l = Some u2 /\ Connection.co_users (Connection.finish_locked ref c1 l).2 = Connection.co_users c1 /\
    Connection.u_userID u2 = Connection.u_userID u /\ 0 < Connection.u_refs u2 /\ forall r, u_connections u2 !! r_ID ref = Some r -> cr_ref r <> ref).
  { unfold Connection.finish_locked. rewrite Hat. destruct (u_connections u !! r_ID ref) as [r|] eqn:Er.
    - destruct (decide _) as [[Hr Hs]|Hn].
      + rewrite ConnectionProps.removeLocked_eq by (by destruct (ConnectionProps.record_at _ _ _ Hok Er) as (_ & _ & ? & _)). cbn. rewrite lookup_insert_eq. eexists. split; [done|]. cbn. split_and!; [done..|].
        intros r'. rewrite Hr, lookup_delete_eq. done.
      + exists u. split_and!; [done..|]. intros r'. rewrite Er. intros [= <-] Hr. apply Hn. split; [done|]. apply He; [|done]. rewrite <- Er, Eu. done.
    - exists u. split_and!; [done..|]. intros r'. by rewrite Er. }
  destruct H2 as (u2 & Hu2 & Hus & Hid2 & Hp2 & Hr2). split.
  - apply (live_step _ _ Hl2). intros ids cl. exists ids, cl. rewrite <- Hid, <- Hid2. rewrite <- (ConnectionProps.user_at_Some _ _ _ Hu2). apply ConnectionProps.ss_release. by exists u2.
  - intros r. destruct (ConnectionProps.release_spec _ (r_UserID ref) l u2 (live_index _ Hl2) Hu2) as [R1 _]; [by rewrite Hus|].
    unfold conns_of. rewrite R1. apply Hr2.
Qed.

(** ** The response lane *)

(** The lane's accounts are right, and the slot the reader holds is outstanding. *)
Definition holds (held : option webSocketResponseSlot) (l : webSocketResponseLane) : Prop :=
  responses_ok l /\ match held with
  | Some s => (sl_id s < rl_next l)%nat /\ sl_id s ∉ rl_released l /\ sl_id s ∉ ((fun r => sl_id r.2) <$> rl_queue l)
  | None => True
  end.
Lemma holds_none held l : holds held l -> holds None l.
Proof. by intros [? _]. Qed.
Lemma holds_tracker l requestID : holds None l -> holds None (tracker_Reserve l requestID).2.
Proof. intros [[H1 H2 H3 H4 H5] _]. unfold tracker_Reserve. split; [|done]. repeat case_match; by constructor. Qed.
Lemma holds_reserve l done requestID : holds None l -> let '(o, l') := ReserveResponse l done requestID in holds o l' /\ forall s, o = Some s -> sl_requestID s = requestID.
Proof.
  intros [[H1 H2 H3 H4 [H5 H6]] _]. unfold ReserveResponse. destruct done; [by split; [split; [constructor|]|]|].
  destruct (Z.leb_spec MaxWebSocketResponseItems (rl_items l)); [by split; [split; [constructor|]|]|].
  destruct (Z.ltb_spec MaxWebSocketResponseBytes (rl_bytes l + maxWebSocketResponseFrameBytes)); cbn [orb]; [by split; [split; [constructor|]|]|].
  split; [|by intros ? [= <-]]. split; cbn [sl_id rl_next rl_released rl_queue].
  - constructor; cbn [rl_items rl_bytes rl_queue rl_released rl_next rl_used]; try done; try lia.
    + intros i Hi. specialize (H4 i Hi). lia.
    + split; [done|]. intros r Hr. destruct (H6 r Hr). split; [lia|done].
  - split_and!; [lia| |]; [intros Hi; specialize (H4 _ Hi); lia|]. intros (r & Hid & Hr)%list_elem_of_fmap. destruct (H6 r Hr). lia.
Qed.
Lemma holds_release l s : holds (Some s) l -> holds None (release_slot l s).
Proof. intros (Hok & Hs & _ & Hq). split; [by apply release_slot_ok|done]. Qed.
(** The answer for a held slot never blocks, and ends the hold. *)
Lemma holds_answer l done s frame : holds (Some s) l -> exists ok l', EnqueueResponse l done s frame = Some (ok, l') /\ holds None l' /\ (ok = true -> len frame <> 0).
Proof.
  intros Hh. destruct Hh as (Hok & Hs & Hr & Hq). destruct done.
  - exists false, (release_slot l s). split_and!; [unfold EnqueueResponse; by destruct (_ || _)| |done]. split; [by apply release_slot_ok|done].
  - destruct (answer_fits l s frame Hok Hs Hr Hq) as (b & l' & He). exists b, l'. split_and!; [done| |].
    + split; [|done]. eapply response_step_ok; [|exact Hok]. by eapply rs_answer.
    + intros ->. unfold EnqueueResponse in He. destruct (Z.eqb_spec (len frame) 0); [|done]. by cbn in He.
Qed.

(** ** The budget *)

Definition bucket (l : webSocketCommandLimiter) : TokenBucket.TokenBucket := TokenBucket.mkBucket websocketCommandRate websocketCommandBurst (li_tokens l) (li_last l).
Lemma AllowCommand_bucket l now : let '(ok, l') := AllowCommand l now in TokenBucket.TakeAt (bucket l) now = (ok, bucket l').
Proof.
  unfold AllowCommand, TokenBucket.TakeAt, TokenBucket.refillLocked. cbn [TokenBucket.last TokenBucket.tokens TokenBucket.burst TokenBucket.rate bucket].
  rewrite LifecycleProps.elapsed_iff. destruct (0 <? _); cbn [negb TokenBucket.tokens TokenBucket.rate TokenBucket.burst TokenBucket.last li_tokens li_last]; [|by destruct (_ <? Float64.one)].
  set (t := Float64.add _ _). replace (Z.min websocketCommandBurst t) with (if websocketCommandBurst <? t then websocketCommandBurst else t) by (destruct (Z.ltb_spec websocketCommandBurst t); lia).
  by destruct (_ <? Float64.one).
Qed.
Lemma take_all_snoc b ts t : TokenBucket.take_all b (ts ++ [t]) =
  let '(oks, b1) := TokenBucket.take_all b ts in let '(ok, b2) := TokenBucket.TakeAt b1 t in (oks ++ [ok], b2).
Proof.
  revert b. induction ts as [|x ts IH]; intros b; cbn [TokenBucket.take_all app].
  - by destruct (TokenBucket.TakeAt b t).
  - destruct (TokenBucket.TakeAt b x) as [ok b']. rewrite IH. destruct (TokenBucket.take_all b' ts) as [oks b1]. by destruct (TokenBucket.TakeAt b1 t).
Qed.

(** ** The protocol *)

(** Where a connection stands after what it did: idle; refused a hello; granted
    one; owing the notice that a snapshot is required; serving a request whose
    slot it holds, undecided, denied or granted a token; having run it; ending. *)
Inductive Mode :=
  | Idle (phase : syncPhase) | Denied | Granted (phase : syncPhase) | Owing (phase : syncPhase)
  | Busy (phase : syncPhase) (id : string) | BusyDenied (phase : syncPhase) (id : string) | BusyGranted (phase : syncPhase) (id : string) | Ran (phase : syncPhase) (id : string)
  | Ending.
Definition answered (phase : syncPhase) (id id' : string) (accepted : bool) : option Mode :=
  if bool_decide (id = id') then Some (if accepted then Idle phase else Ending) else None.
Definition proceed (m : Mode) (a : Act) : option Mode :=
  match m, a with
  | Idle phase, DidTake _ granted => if bool_decide (phase = SyncPhaseLive) then None else Some (if granted then Granted phase else Denied)
  | Granted _, DidHello _ (Some true) => Some (Idle SyncPhaseLive)
  | Granted _, DidHello _ (Some false) => Some (Owing SyncPhaseResyncRequired)
  | Granted _, DidHello _ None => Some Ending
  | Owing phase, DidSend _ accepted => Some (if accepted then Idle phase else Ending)
  | Idle phase, DidClaim id => Some (Busy phase id)
  | Busy phase id, DidTake _ granted => Some (if granted then BusyGranted phase id else BusyDenied phase id)
  | BusyGranted phase id, DidUpdate id' _ => if bool_decide (id = id') then Some (Ran phase id) else None
  | BusyGranted SyncPhaseLive id, DidPresence id' _ _ => if bool_decide (id = id') then Some (Ran SyncPhaseLive id) else None
  | BusyDenied phase id, DidAnswer id' _ accepted | BusyGranted phase id, DidAnswer id' _ accepted | Ran phase id, DidAnswer id' _ accepted => answered phase id id' accepted
  | Ran _ id, DidRelease id' => if bool_decide (id = id') then Some Ending else None
  | Idle _, DidClose _ _ | Denied, DidClose _ _ | Ran _ _, DidClose _ _ | Ending, DidClose _ _ => Some Ending
  | _, _ => None
  end.
Definition follow (m : Mode) (l : list Act) : option Mode := fold_left (fun o a => m ← o; proceed m a) l (Some m).

(** The tokens asked for, the answers, and the commands that ran. *)
Definition instants (l : list Act) : list Z := omap (fun a => match a with DidTake t _ => Some t | _ => None end) l.
Definition grants (l : list Act) : list bool := omap (fun a => match a with DidTake _ g => Some g | _ => None end) l.
Definition runs (a : Act) : bool := match a with DidHello _ _ | DidUpdate _ _ | DidPresence _ _ _ => true | _ => false end.
Definition credit (m : Mode) : nat := match m with Granted _ | BusyGranted _ _ => 1 | _ => 0 end.
Lemma follow_snoc m l a : follow m (l ++ [a]) = m' ← follow m l; proceed m' a.
Proof. unfold follow. by rewrite fold_left_app. Qed.
(** Every command that ran took its own token. *)
Lemma runs_paid l m : forall m', follow m l = Some m' -> (length (filter (fun a => runs a = true) l) + credit m' <= count_occ Bool.bool_dec (grants l) true + credit m)%nat.
Proof.
  induction l as [|a l IH] using rev_ind; intros m'; [intros [= <-]; cbn; lia|]. rewrite follow_snoc. destruct (follow m l) as [m1|] eqn:E; [|done]. cbn. intros Hp. specialize (IH m1 eq_refl).
  rewrite filter_app, length_app. unfold grants. rewrite omap_app, count_occ_app. fold (grants l).
  destruct m1 as [ph| | | | | | | |], a; cbn in Hp; try done; unfold answered in Hp; repeat (case_match; try done); simplify_eq/=; lia.
Qed.

(** An answer that the lane took names the request it answers; a claimed
    request identifier has the documented form. *)
Definition request_of (f : ServerFrame) : option string :=
  match f with AuthUpdated id _ | PresenceUpdated id _ | CommandError id _ _ _ _ => Some id | _ => None end.
Definition correlated `{!ServerJson} (a : Act) : Prop :=
  match a with
  | DidClaim id => requestIDPattern id = true
  | DidAnswer id (Some frame) true => exists f, Marshal f = Some frame /\ request_of f = Some id
  | DidAnswer _ None accepted => accepted = false
  | _ => True
  end.

Section Protocol.
Context {X : Type} `{!Services X, !SocketEnv X, !ClientJson, !ServerJson} (ref : ControlConnectionRef) (Hv : validConnectionRef ref = true).

(** What the handler relies on: the lane and the coordinator are in order, and a
    connection that ended stays so. *)
Record sound (held : option webSocketResponseSlot) (e : bool) (s : Shared X) : Prop := mkSound {
  sn_lane : holds held (wp_responses (sh_pump s)); sn_co : live (sh_co s); sn_ended : e = true -> ended ref (sh_co s)
}.
Definition calm (f : Shared X -> Shared X) : Prop := forall held e s, sound held e s -> sound held e (f s).
Lemma sound_weaken held e s : sound held e s -> sound None false s.
Proof. intros [H1 H2 _]. split; [by eapply holds_none|done|done]. Qed.

Context (Hothers : forall n, calm (others n)) (Hverify : forall o token, calm (fun s => (Verify o token s).2)) (Hhello : forall cursor, calm (fun s => (OnHello ref cursor s).2))
  (Hpresence : forall status activity, calm (fun s => (SetPresence ref status activity s).2)).
Context (start : Z) (before : list Act).

(** What was done so far follows the protocol, and the budget granted it. *)
Definition accepted (m : Mode) (s : Socket X) : Prop := exists l,
  so_log s = before ++ l /\ follow (Idle SyncPhaseInitial) l = Some m /\ Forall correlated l /\
  TokenBucket.take_all (bucket (newWebSocketCommandLimiter start)) (instants l) = (grants l, bucket (so_commands s)).
Definition at_ (m : Mode) (held : option webSocketResponseSlot) (e : bool) (phase : syncPhase) (s : Socket X) : Prop :=
  accepted m s /\ sound held e (so_shared s) /\ so_phase s = phase.
Definition over (s : Socket X) : Prop := exists m, accepted m s /\ sound None false (so_shared s).
Definition hoare {A} (P : Socket X -> Prop) (c : io A) (Q : A -> Socket X -> Prop) : Prop := forall n s, P s ->
  match c (n, s) with (Go a, (_, s')) => Q a s' | (Return, (_, s')) => over s' | (Block, _) => False end.

Lemma h_bind {A B} P (c : io A) (f : A -> io B) R Q : hoare P c R -> (forall a, hoare (R a) (f a) Q) -> hoare P (andThen c f) Q.
Proof.
  intros Hc Hf n s HP. unfold andThen. specialize (Hc n s HP). destruct (c (n, s)) as [[a| |] [n' s']]; [|done|done]. apply (Hf a n' s' Hc).
Qed.
Lemma h_pass {A} (P : Socket X -> Prop) (a : A) (Q : A -> Socket X -> Prop) : (forall s, P s -> Q a s) -> hoare P (pass a) Q.
Proof. intros Hq n s HP. by apply Hq. Qed.
Lemma h_leave {A} m held e ph (Q : A -> Socket X -> Prop) : hoare (at_ m held e ph) leave Q.
Proof. intros n s (Ha & Hs & _). exists m. split; [done|by eapply sound_weaken]. Qed.
Lemma h_weaken {A} (P P' : Socket X -> Prop) (c : io A) (Q Q' : A -> Socket X -> Prop) : hoare P' c Q' -> (forall s, P s -> P' s) -> (forall a s, Q' a s -> Q a s) -> hoare P c Q.
Proof. intros Hc HP HQ n s Hs. specialize (Hc n s (HP _ Hs)). destruct (c (n, s)) as [[a| |] [n' s']]; auto. Qed.
Lemma h_assume {A} (F : Prop) (P : Socket X -> Prop) (c : io A) (Q : A -> Socket X -> Prop) : (F -> hoare P c Q) -> hoare (fun s => F /\ P s) c Q.
Proof. intros Hc n s [HF HP]. by apply Hc. Qed.
Lemma h_get {A} m held e ph (f : Socket X -> A) (Q : A -> Socket X -> Prop) : (forall s, at_ m held e ph s -> Q (f s) s) -> hoare (at_ m held e ph) (get f) Q.
Proof. intros Hq n s Hs. by apply Hq. Qed.
Lemma h_did m m' held e ph a : (match a with DidTake _ _ => False | _ => True end) -> proceed m a = Some m' -> correlated a ->
  hoare (at_ m held e ph) (did a) (fun _ => at_ m' held e ph).
Proof.
  intros Hn Hp Hc n s ((l & E1 & E2 & E3 & E4) & Hs & Hph). split; [|by split]. exists (l ++ [a]). cbn. rewrite E1, app_assoc. split; [done|].
  split; [by rewrite follow_snoc, E2|]. split; [by apply Forall_app; split; [|constructor]|].
  unfold instants, grants. rewrite !omap_app. fold (instants l) (grants l). destruct a; try done; cbn; by rewrite !app_nil_r.
Qed.
Lemma h_set_phase m held e ph p : hoare (at_ m held e ph) (set_phase p) (fun _ => at_ m held e p).
Proof. intros n s (Ha & Hs & _). by split_and!. Qed.
Lemma h_set_timers m held e ph f g : hoare (at_ m held e ph) (set_timers f g) (fun _ => at_ m held e ph).
Proof. intros n s (Ha & Hs & Hp). by split_and!. Qed.
Lemma h_set_malformed m held e ph z : hoare (at_ m held e ph) (set_malformed z) (fun _ => at_ m held e ph).
Proof. intros n s (Ha & Hs & Hp). by split_and!. Qed.
Lemma h_set_violations m held e ph z : hoare (at_ m held e ph) (set_violations z) (fun _ => at_ m held e ph).
Proof. intros n s (Ha & Hs & Hp). by split_and!. Qed.
Lemma h_touch {A} m held e ph (f : nat -> Shared X -> A * Shared X) held' e' :
  (forall n s, sound held e s -> sound (held' (f n s).1) (e' (f n s).1) (f n s).2) ->
  hoare (at_ m held e ph) (touch f) (fun a => at_ m (held' a) (e' a) ph).
Proof.
  intros Hf n s (Ha & Hs & Hp). unfold touch. specialize (Hf n _ (Hothers n _ _ _ Hs)). destruct (f n (others n (so_shared s))) as [a sh].
  by split_and!.
Qed.
Lemma h_allow m m' held e ph : (forall t g, proceed m (DidTake t g) = Some (m' g)) -> hoare (at_ m held e ph) allow (fun g => at_ (m' g) held e ph).
Proof.
  intros Hp n s ((l & E1 & E2 & E3 & E4) & Hs & Hph). unfold allow, andThen, own, did, pass. cbn -[AllowCommand].
  pose proof (AllowCommand_bucket (so_commands s) (clock n)) as Hb. destruct (AllowCommand (so_commands s) (clock n)) as [ok l'].
  split; [|by split]. exists (l ++ [DidTake (clock n) ok]). cbn. rewrite E1, app_assoc. split; [done|]. split; [by rewrite follow_snoc, E2; cbn|]. split; [by apply Forall_app; split; [|constructor]|].
  unfold instants, grants. rewrite !omap_app. fold (instants l) (grants l). cbn [omap list_omap]. rewrite take_all_snoc, E4, Hb. done.
Qed.

(** *** Closing *)

Lemma requester_lane p r pick : wp_responses (requester_step p r pick).1 = wp_responses p.
Proof. unfold requester_step. repeat (case_match; try done). Qed.
Lemma h_requester fuel r m held e ph : hoare (at_ m held e ph) (run_requester fuel r) (fun _ => at_ m held e ph).
Proof using Hothers.
  revert r. induction fuel as [|fuel IH]; intros r; cbn; [by apply h_pass|].
  eapply h_bind; [|intros r'; apply IH]. apply (h_touch _ _ _ _ _ (fun _ => held) (fun _ => e)). intros n s [H1 H2 H3].
  pose proof (requester_lane (sh_pump s) r (pick_done n)) as Hl. destruct (requester_step _ _ _) as [p r']. cbn in *. by split; cbn; [rewrite Hl| |].
Qed.
Lemma h_begin m held e ph status reason : (forall st rs, proceed m (DidClose st rs) = Some Ending) ->
  hoare (at_ m held e ph) (begin_disconnect ref status reason) (fun _ => at_ Ending held true ph).
Proof using Hothers Hv.
  intros Hp. unfold begin_disconnect. eapply (h_bind _ _ _ (fun _ => at_ m held true ph)).
  - apply (h_touch _ _ _ _ _ (fun _ => held) (fun _ => true)). intros n s [H1 H2 H3]. pose proof (BeginDisconnect_ends (sh_co s) ref status reason H2 Hv) as [H4 H5].
    destruct (Connection.BeginDisconnect _ _ _ _). cbn in *. by split.
  - intros claimed. eapply (h_bind _ _ _ (fun _ => at_ m held true ph)); [|intros _; by apply h_did].
    destruct claimed; [apply h_requester|by apply h_pass].
Qed.
Lemma h_hang_up {A} m held e ph status reason (Q : A -> Socket X -> Prop) : (forall st rs, proceed m (DidClose st rs) = Some Ending) ->
  hoare (at_ m held e ph) (hang_up ref status reason) Q.
Proof using Hothers Hv. intros Hp. apply (h_bind _ _ _ (fun _ => at_ Ending held true ph)); [by apply h_begin|]. intros _. apply h_leave. Qed.

(** *** Answering *)

(** An answer is due: the token was refused, or the command is granted or ran. *)
Definition due (m : Mode) (ph : syncPhase) (id : string) : Prop := m = BusyDenied ph id \/ m = BusyGranted ph id \/ m = Ran ph id.
Lemma due_answer m ph id frame ok : due m ph id -> proceed m (DidAnswer id frame ok) = Some (if ok then Idle ph else Ending).
Proof. intros [->|[->| ->]]; destruct ph; cbn; unfold answered; by rewrite bool_decide_eq_true_2. Qed.
Lemma h_send m slot e ph frame : due m ph (sl_requestID slot) -> (len frame <> 0 -> exists f, Marshal f = Some frame /\ request_of f = Some (sl_requestID slot)) ->
  hoare (at_ m (Some slot) e ph) (send_response slot frame) (fun ok => at_ (if ok then Idle ph else Ending) None e ph).
Proof using Hothers.
  intros Hd Hf. unfold send_response.
  eapply (h_bind _ _ _ (fun o s => exists ok, o = Some ok /\ (ok = true -> len frame <> 0) /\ at_ m None e ph s)).
  - intros n s (Ha & Hs & Hp). unfold touch. destruct (Hothers n _ _ _ Hs) as [H1 H2 H3]. unfold pump_EnqueueResponse.
    destruct (holds_answer _ (wp_done (sh_pump (others n (so_shared s))) && pick_done n) slot frame H1) as (ok & l' & -> & Hl & Hok). cbn. exists ok. split_and!; [done..|]. by split.
  - intros o n s (ok & -> & Hok & Hs). revert n s Hs. apply h_bind with (R := fun _ => at_ (if ok then Idle ph else Ending) None e ph).
    + apply h_did; [done|by apply due_answer|]. destruct ok; [|done]. cbn. auto.
    + intros _. apply h_pass. auto.
Qed.
Lemma h_error m slot e ph id ty code msg retry : due m ph (sl_requestID slot) -> id = sl_requestID slot ->
  hoare (at_ m (Some slot) e ph) (enqueueCommandError slot id ty code msg retry) (fun ok => at_ (if ok then Idle ph else Ending) None e ph).
Proof using Hothers.
  intros Hd ->. unfold enqueueCommandError. destruct (Marshal _) as [frame|] eqn:E.
  - apply h_send; [done|]. intros _. by eexists.
  - eapply (h_bind _ _ _ (fun _ => at_ Ending (Some slot) e ph)); [by apply h_did; [|apply (due_answer _ ph _ None false)|]|].
    intros _. apply h_pass. intros s (Ha & [H1 H2 H3] & Hp). split_and!; [done| |done]. split; [by eapply holds_none|done|done].
Qed.
Lemma h_encoded m slot e ph f : due m ph (sl_requestID slot) -> request_of f = Some (sl_requestID slot) ->
  hoare (at_ m (Some slot) e ph) (send_response slot (encode f)) (fun ok => at_ (if ok then Idle ph else Ending) None e ph).
Proof using Hothers.
  intros Hd Hr. apply h_send; [done|]. unfold encode. destruct (Marshal f) as [frame|] eqn:E; [|done]. intros _. by exists f.
Qed.
Lemma h_or_slow P (c : io bool) e ph ph' : hoare P c (fun ok => at_ (if ok then Idle ph' else Ending) None e ph) -> hoare P (or_slow ref c) (fun _ => at_ (Idle ph') None e ph).
Proof using Hothers Hv. intros Hc. eapply h_bind; [exact Hc|]. intros [|]; [by apply h_pass|by apply h_hang_up]. Qed.

(** *** Commands *)

Lemma h_begin_command en ph : hoare (at_ (Idle ph) None false ph) (begin_command ref en)
  (fun o s => match o with
   | None => at_ (Idle ph) None false ph s
   | Some slot => sl_requestID slot = en_RequestID en /\ at_ (BusyGranted ph (en_RequestID en)) (Some slot) false ph s
   end).
Proof using Hothers Hv.
  unfold begin_command. destruct (requestIDPattern (en_RequestID en)) eqn:Hid; cbn [negb]; [|by apply h_hang_up].
  apply (h_bind _ _ _ (fun _ => at_ (Idle ph) None false ph)).
  { apply (h_touch _ _ _ _ _ (fun _ => None) (fun _ => false)). intros n s [H1 H2 H3]. pose proof (holds_tracker _ (en_RequestID en) H1) as Ht.
    destruct (tracker_Reserve _ _). by split. }
  intros [|]; cbn [negb]; [|by apply h_hang_up].
  apply (h_bind _ _ _ (fun o s => (forall slot, o = Some slot -> sl_requestID slot = en_RequestID en) /\ at_ (Idle ph) o false ph s)).
  { intros n s (Ha & Hs & Hp). unfold touch. destruct (Hothers n _ _ _ Hs) as [H1 H2 H3]. unfold pump_ReserveResponse.
    pose proof (holds_reserve _ (wp_done (sh_pump (others n (so_shared s)))) (en_RequestID en) H1) as Ht. destruct (ReserveResponse _ _ _) as [o l']. destruct Ht as [Ht Hr].
    cbn. split; [done|]. by split. }
  intros [slot|]; [|apply (h_weaken _ (at_ (Idle ph) None false ph) _ _ (fun _ _ => False)); [by apply h_hang_up|by intros s [_ ?]|done]].
  apply h_assume. intros Hslot. specialize (Hslot slot eq_refl).
  apply (h_bind _ _ _ (fun _ => at_ (Busy ph (en_RequestID en)) (Some slot) false ph)); [by apply h_did|]. intros _.
  apply (h_bind _ _ _ (fun g : bool => at_ (if g then BusyGranted ph (en_RequestID en) else BusyDenied ph (en_RequestID en)) (Some slot) false ph)); [by apply h_allow|].
  intros [|]; cbn [negb].
  - apply (h_bind _ _ _ (fun _ => at_ (BusyGranted ph (en_RequestID en)) (Some slot) false ph)); [apply h_set_violations|]. intros _. by apply h_pass.
  - apply (h_bind _ _ _ (fun _ => at_ (BusyDenied ph (en_RequestID en)) (Some slot) false ph)); [by apply h_get|]. intros violations.
    apply (h_bind _ _ _ (fun _ => at_ (BusyDenied ph (en_RequestID en)) (Some slot) false ph)); [apply h_set_violations|]. intros _.
    apply (h_bind _ _ _ (fun _ => at_ (Idle ph) None false ph)); [apply h_or_slow, h_error; [rewrite Hslot; by left|done]|]. intros _.
    destruct (_ <=? _); [by apply h_hang_up|by apply h_pass].
Qed.
Lemma h_malformed m slot en ph code msg : due m ph (sl_requestID slot) -> sl_requestID slot = en_RequestID en ->
  hoare (at_ m (Some slot) false ph) (malformed ref slot en code msg) (fun _ => at_ (Idle ph) None false ph).
Proof using Hothers Hv.
  intros Hd Hslot. unfold malformed. apply (h_bind _ _ _ (fun _ => at_ m (Some slot) false ph)); [by apply h_get|]. intros z.
  apply (h_bind _ _ _ (fun _ => at_ m (Some slot) false ph)); [apply h_set_malformed|]. intros _.
  apply (h_bind _ _ _ (fun _ => at_ (Idle ph) None false ph)); [by apply h_or_slow, h_error|]. intros _. by apply h_pass.
Qed.

(** The handler between two messages. *)
Definition waiting (s : Socket X) : Prop := exists ph : syncPhase, at_ (Idle ph) None false ph s \/ at_ Ending None true ph s.
Lemma waiting_idle ph s : at_ (Idle ph) None false ph s -> waiting s.
Proof. intros Hs. exists ph. by left. Qed.
Lemma waiting_ending ph s : at_ Ending None true ph s -> waiting s.
Proof. intros Hs. exists ph. by right. Qed.

Lemma h_served en ph (k : webSocketResponseSlot -> io unit) : (forall slot, sl_requestID slot = en_RequestID en -> hoare (at_ (BusyGranted ph (en_RequestID en)) (Some slot) false ph) (k slot) (fun _ => waiting)) ->
  hoare (at_ (Idle ph) None false ph) (andThen (begin_command ref en) (fun o => match o with None => pass tt | Some slot => k slot end)) (fun _ => waiting).
Proof using Hothers Hv.
  intros Hk. eapply h_bind; [apply h_begin_command|]. intros [slot|]; [|apply h_pass; intros s; apply waiting_idle].
  apply h_assume, Hk.
Qed.
Lemma h_update_lease token m slot ph : hoare (at_ m (Some slot) false ph) (update_lease ref token) (fun _ => at_ m (Some slot) false ph).
Proof using Hothers Hverify.
  apply (h_touch _ _ _ _ _ (fun _ => Some slot) (fun _ => false)). intros n s Hs. pose proof (Hverify (Some (r_UserID ref, Connection.r_LoginSessionID ref)) token _ _ _ Hs) as H1. cbv beta in H1.
  destruct (Verify _ token s) as [[identity|] s1]; cbn in H1; [|exact H1]. destruct H1 as [L1 L2 L3].
  pose proof (RenewAuthLease_keeps (sh_co s1) ref (id_AccessExpiresAt identity) (UnixMilli (clock n)) L2) as [H1 _]. destruct (Connection.RenewAuthLease _ _ _ _). cbn in *. by split.
Qed.
Lemma h_auth_update en ph : hoare (at_ (Idle ph) None false ph) (auth_update ref en) (fun _ => waiting).
Proof using Hothers Hverify Hv.
  apply h_served. intros slot Hslot. destruct (authUpdateToken (en_Data en)) as [token|].
  - apply (h_bind _ _ _ (fun _ => at_ (BusyGranted ph (en_RequestID en)) (Some slot) false ph)); [apply h_set_malformed|]. intros _.
    apply (h_bind _ _ _ (fun _ => at_ (BusyGranted ph (en_RequestID en)) (Some slot) false ph)); [apply h_update_lease|]. intros r.
    apply (h_bind _ _ _ (fun _ => at_ (Ran ph (en_RequestID en)) (Some slot) false ph)).
    { apply h_did; [done| |done]. destruct ph; cbn; by rewrite bool_decide_eq_true_2. }
    intros _. destruct r as [[identity lease]|].
    + apply (h_bind _ _ _ (fun _ => at_ (Ran ph (en_RequestID en)) (Some slot) false ph)); [apply h_set_timers|]. intros _.
      eapply h_weaken; [apply h_or_slow, h_encoded; [rewrite Hslot; by right; right|by rewrite Hslot]|done|]. intros ? s. apply waiting_idle.
    + apply (h_bind _ _ _ (fun _ => at_ (Ran ph (en_RequestID en)) None false ph)).
      { apply (h_touch _ _ _ _ _ (fun _ => None) (fun _ => false)). intros n s [H1 H2 H3]. split; [by apply holds_release|done|done]. }
      intros _. apply (h_bind _ _ _ (fun _ => at_ Ending None false ph)).
      { apply h_did; [done| |done]. cbn. by rewrite bool_decide_eq_true_2. }
      intros _. by apply h_hang_up.
  - apply (h_bind _ _ _ (fun _ => at_ (Idle ph) None false ph)); [apply h_malformed; [rewrite Hslot; by right; left|done]|]. intros z.
    destruct (_ <=? z); [|apply h_pass; intros s; apply waiting_idle]. apply (h_weaken _ (at_ (Idle ph) None false ph) _ _ (fun _ => at_ Ending None true ph)); [by apply h_begin|done|]. intros ? s. apply waiting_ending.
Qed.
Lemma h_presence_set en ph : hoare (at_ (Idle ph) None false ph) (presence_set ref en) (fun _ => waiting).
Proof using Hothers Hpresence Hv.
  apply h_served. intros slot Hslot. assert (Hdue : due (BusyGranted ph (en_RequestID en)) ph (sl_requestID slot)) by (rewrite Hslot; by right; left).
  apply (h_bind _ _ _ (fun phase s => phase = ph /\ at_ (BusyGranted ph (en_RequestID en)) (Some slot) false ph s)); [apply h_get; by intros s (? & ? & ?)|].
  intros phase. destruct (decide (phase = ph)) as [->|]; [|by apply h_assume]. apply h_assume. intros _.
  case_bool_decide as Hlive; cbn [negb].
  2: { eapply h_weaken; [by apply h_or_slow, h_error|done|]. intros ? s. apply waiting_idle. }
  subst ph. assert (Hmal : forall m code msg, due m SyncPhaseLive (sl_requestID slot) -> hoare (at_ m (Some slot) false SyncPhaseLive)
     (andThen (malformed ref slot en code msg) (fun n => if websocketMalformedCommandLimit <=? n then hang_up ref websocketCloseProtocol "protocol error" else pass tt)) (fun _ => waiting)).
  { intros m code msg Hd. apply (h_bind _ _ _ (fun _ => at_ (Idle SyncPhaseLive) None false SyncPhaseLive)); [by apply h_malformed|]. intros z.
    destruct (_ <=? z); [by apply h_hang_up|apply h_pass; intros s; apply waiting_idle]. }
  destruct (presenceSetData (en_Data en)) as [[status activity]|]; [|by apply Hmal].
  apply (h_bind _ _ _ (fun _ => at_ (BusyGranted SyncPhaseLive (en_RequestID en)) (Some slot) false SyncPhaseLive)); [apply h_set_malformed|]. intros _.
  apply (h_bind _ _ _ (fun _ => at_ (BusyGranted SyncPhaseLive (en_RequestID en)) (Some slot) false SyncPhaseLive)).
  { apply (h_touch _ _ _ _ _ (fun _ => Some slot) (fun _ => false)). intros n s Hs. exact (Hpresence status activity _ _ _ Hs). }
  intros r. apply (h_bind _ _ _ (fun _ => at_ (Ran SyncPhaseLive (en_RequestID en)) (Some slot) false SyncPhaseLive)).
  { apply h_did; [done| |done]. cbn. by rewrite bool_decide_eq_true_2. }
  intros _. assert (Hran : due (Ran SyncPhaseLive (en_RequestID en)) SyncPhaseLive (sl_requestID slot)) by (rewrite Hslot; by right; right).
  destruct r as [commandID|[er|]]; [| |by apply h_hang_up].
  - apply (h_bind _ _ _ (fun _ => at_ (Ran SyncPhaseLive (en_RequestID en)) (Some slot) false SyncPhaseLive)); [apply h_set_malformed|]. intros _.
    eapply h_weaken; [apply h_or_slow, h_encoded; [done|by rewrite Hslot]|done|]. intros ? s. apply waiting_idle.
  - destruct er as [| | | |[]|]; try (by apply h_hang_up); [by apply Hmal|]. eapply h_weaken; [by apply h_or_slow, h_error|done|]. intros ? s. apply waiting_idle.
Qed.
Lemma enqueue_lane p frame : wp_responses (Enqueue p frame).2 = wp_responses p.
Proof. unfold Enqueue. repeat (case_match; try done). Qed.
Lemma h_sync_hello en ph : hoare (at_ (Idle ph) None false ph) (sync_hello ref en) (fun _ => waiting).
Proof using Hothers Hhello Hv.
  unfold sync_hello. apply (h_bind _ _ _ (fun phase s => phase = ph /\ at_ (Idle ph) None false ph s)); [apply h_get; by intros s (? & ? & ?)|].
  intros phase. apply h_assume. intros ->. case_bool_decide as Hlive; [by apply h_hang_up|]. destruct (syncHelloCursor (en_Data en)) as [cursor|]; [|by apply h_hang_up].
  apply (h_bind _ _ _ (fun g : bool => at_ (if g then Granted ph else Denied) None false ph)); [apply h_allow; intros t g; cbn; by rewrite bool_decide_eq_false_2|].
  intros [|]; cbn [negb]; [|by apply h_hang_up]. apply (h_bind _ _ _ (fun _ => at_ (Granted ph) None false ph)).
  { apply (h_touch _ _ _ _ _ (fun _ => None) (fun _ => false)). intros n s Hs. exact (Hhello cursor _ _ _ Hs). }
  intros [reason|er].
  - case_bool_decide as Hreason; cbn [negb].
    + apply (h_bind _ _ _ (fun _ => at_ (Idle SyncPhaseLive) None false ph)); [by apply h_did|]. intros _.
      apply (h_bind _ _ _ (fun _ => at_ (Idle SyncPhaseLive) None false SyncPhaseLive)); [apply h_set_phase|]. intros _.
      apply (h_weaken _ (at_ (Idle SyncPhaseLive) None false SyncPhaseLive) _ _ (fun _ => at_ (Idle SyncPhaseLive) None false SyncPhaseLive)); [apply h_set_timers|done|]. intros ? s. apply waiting_idle.
    + apply (h_bind _ _ _ (fun _ => at_ (Owing SyncPhaseResyncRequired) None false ph)); [by apply h_did|]. intros _.
      apply (h_bind _ _ _ (fun _ => at_ (Owing SyncPhaseResyncRequired) None false SyncPhaseResyncRequired)).
      { case_bool_decide as Hph; [|destruct ph; [done|by apply h_pass|done]].
        apply (h_bind _ _ _ (fun _ => at_ (Owing SyncPhaseResyncRequired) None false SyncPhaseResyncRequired)); [apply h_set_phase|intros _; apply h_set_timers]. }
      intros _. apply (h_weaken _ (at_ (Owing SyncPhaseResyncRequired) None false SyncPhaseResyncRequired) _ _ (fun _ => at_ (Idle SyncPhaseResyncRequired) None false SyncPhaseResyncRequired));
        [|done|intros ? s; apply waiting_idle].
      apply h_or_slow. apply (h_bind _ _ _ (fun _ => at_ (Owing SyncPhaseResyncRequired) None false SyncPhaseResyncRequired)).
      { apply (h_touch _ _ _ _ _ (fun _ => None) (fun _ => false)). intros n s [H1 H2 H3]. pose proof (enqueue_lane (sh_pump s) (webSocketSyncRequiredFrame reason)) as Hl.
        destruct (Enqueue _ _). cbn in *. split; cbn; [by rewrite Hl|done|done]. }
      intros ok. apply (h_bind _ _ _ (fun _ => at_ (if ok then Idle SyncPhaseResyncRequired else Ending) None false SyncPhaseResyncRequired)); [by apply h_did|]. intros _. by apply h_pass.
  - apply (h_bind _ _ _ (fun _ => at_ Ending None false ph)); [by apply h_did|]. intros _.
    destruct er as [| | | | | | |[]]; first [by apply h_hang_up|apply h_leave].
Qed.

(** *** The read loop *)

(** A closed or expired connection is not served; an open one may be. *)
Lemma h_lease_good m e ph : (forall st rs, proceed m (DidClose st rs) = Some Ending) ->
  hoare (at_ m None e ph) (lease_good ref) (fun good => if good then fun s => e = false /\ at_ m None e ph s else over).
Proof using Hothers.
  intros Hp. unfold lease_good. apply (h_bind _ _ _ (fun o s => (e = true -> o = None) /\ at_ m None e ph s)).
  { intros n s (Ha & Hs & Hph). unfold touch. destruct (Hothers n _ _ _ Hs) as [H1 H2 H3].
    pose proof (GetAuthLease_ended (sh_co (others n (so_shared s))) ref H2) as Hg. destruct (Connection.GetAuthLease _ _) as [o c]. destruct Hg as [Hl Hg]. cbn.
    split; [intros He; by apply Hg, H3|]. split_and!; [done| |done]. split; cbn; [done|done|]. intros He. by apply Hg, H3. }
  intros o. apply h_assume. intros Ho. destruct o as [lease|]; [|apply h_pass; intros s (? & ? & ?); exists m; split; [done|by eapply sound_weaken]].
  assert (e = false) as -> by (destruct e; [by specialize (Ho eq_refl)|done]).
  apply (h_bind _ _ _ (fun expired : bool => at_ m None expired ph)).
  { apply (h_touch _ _ _ _ _ (fun _ => None) (fun x => x)). intros n s [H1 H2 H3]. pose proof (ExpireAuthLease_ends (sh_co s) ref lease (UnixMilli (clock n)) H2) as Hx.
    destruct (Connection.ExpireAuthLease _ _ _ _) as [ok c]. destruct Hx as [Hl Hx]. cbn. split; cbn; [done|done|]. intros ->. apply Hx. by left. }
  intros [|]; cbn [negb].
  - apply (h_bind _ _ _ (fun _ => at_ Ending None true ph)); [|intros _; apply h_pass; intros s (? & ? & ?); exists Ending; split; [done|by eapply sound_weaken]].
    apply (h_bind _ _ _ (fun _ => at_ m None true ph)); [apply h_requester|]. intros _. by apply h_did.
  - apply (h_bind _ _ _ (fun _ => at_ m None false ph)); [by apply h_pass|]. intros _. by apply h_pass.
Qed.
Lemma h_over {A} (Q : A -> Socket X -> Prop) : hoare over leave Q.
Proof. by intros n s Hs. Qed.
Lemma h_message r : hoare waiting (on_message ref r) (fun _ => waiting).
Proof using Hothers Hhello Hpresence Hverify Hv.
  assert (Hclose : forall m e ph st rs, (forall st rs, proceed m (DidClose st rs) = Some Ending) -> hoare (at_ m None e ph) (hang_up ref st rs) (fun _ : unit => waiting)) by (intros; by apply h_hang_up).
  intros n s [ph [Hs|Hs]]; revert n s Hs.
  - change (hoare (at_ (Idle ph) None false ph) (on_message ref r) (fun _ => waiting)). destruct r as [| | |payload deadline_ok]; [by apply Hclose|apply h_leave|by apply Hclose|].
    apply (h_bind _ _ _ _ _ (h_lease_good (Idle ph) false ph ltac:(done))). intros [|]; cbn [negb]; [|apply h_over]. apply h_assume. intros _.
    destruct (Unmarshal_envelope payload) as [en|]; [|by apply Hclose]. repeat (case_bool_decide; [|]); try (by apply Hclose); destruct deadline_ok; cbn [negb];
      first [by apply Hclose|apply h_sync_hello|apply h_auth_update|apply h_presence_set].
  - change (hoare (at_ Ending None true ph) (on_message ref r) (fun _ => waiting)). destruct r as [| | |payload deadline_ok]; [by apply Hclose|apply h_leave|by apply Hclose|].
    apply (h_bind _ _ _ _ _ (h_lease_good Ending true ph ltac:(done))). intros [|]; cbn [negb]; [|apply h_over]. by apply h_assume.
Qed.
Lemma h_loop messages : hoare waiting (read_loop ref messages) (fun _ => waiting).
Proof using Hothers Hhello Hpresence Hverify Hv. induction messages as [|r messages IH]; cbn; [by apply h_pass|]. apply (h_bind _ _ _ (fun _ => waiting)); [apply h_message|]. intros _. exact IH. Qed.
End Protocol.

(** ** Theorems *)

Section Sessions.
Context {X : Type} `{!Services X, !SocketEnv X, !ClientJson, !ServerJson}.

(** The contract of everything else: other goroutines and the services leave the
    slot the reader holds alone, keep the lane's accounts and the coordinator's
    invariant, and never revive a connection that is closing. *)
Record contract (ref : ControlConnectionRef) : Prop := {
  ct_others : forall n, calm ref (others n);
  ct_verify : forall o token, calm ref (fun s => (Verify o token s).2);
  ct_hello : forall cursor, calm ref (fun s => (OnHello ref cursor s).2);
  ct_presence : forall status activity, calm ref (fun s => (SetPresence ref status activity s).2);
  ct_disconnect : calm ref (OnDisconnect ref)
}.

(** The rate of the budget. *)
Lemma grants_bounded start l lim : TokenBucket.take_all (bucket (newWebSocketCommandLimiter start)) (instants l) = (grants l, bucket lim) ->
  Z.of_nat (count_occ Bool.bool_dec (grants l) true) * (1000000000 * 2 ^ 51) <=
    40 * (1000000000 * 2 ^ 51) + (fold_left Z.max (instants l) start - start) * 20 * (2 ^ 51 + 1) + Z.of_nat (length (instants l)) * (1000000000 * 41).
Proof.
  intros E. pose proof (TokenBucket.rate_bound 20 40 start (instants l) ltac:(lia) ltac:(lia)) as Hb. cbv zeta in Hb.
  change (TokenBucket.NewTokenBucket (Float64.of_int 20) 40 start) with (bucket (newWebSocketCommandLimiter start)) in Hb. rewrite E in Hb. exact Hb.
Qed.

(** A control connection follows its protocol.  Whatever frames arrive and
    whatever other goroutines do within their contract, the reader never blocks
    on its own answer, and what it does follows the protocol: a hello is served
    only before the connection is live, a presence only after; each command that
    runs holds a response slot under a well-formed request identifier and took
    its own token, and is answered exactly once, in a frame that names it, before
    the next frame is read, unless the connection ends; and nothing runs any more
    after the reader asked to end it.  The commands that run are at most forty
    plus twenty for every second, up to the rounding of the budget. *)
Theorem websocket_protocol ref start messages n (s : Socket X) : contract ref -> validConnectionRef ref = true -> sound ref None false (so_shared s) ->
  so_phase s = SyncPhaseInitial -> so_commands s = newWebSocketCommandLimiter start ->
  let '(o, (_, s')) := read_loop ref messages (n, s) in
  o <> Block /\ exists l m, so_log s' = so_log s ++ l /\ follow (Idle SyncPhaseInitial) l = Some m /\ Forall correlated l /\
    (o = Go tt -> m = Idle (so_phase s') \/ m = Ending) /\
    Z.of_nat (length (filter (fun a => runs a = true) l)) * (1000000000 * 2 ^ 51) <=
      40 * (1000000000 * 2 ^ 51) + (fold_left Z.max (instants l) start - start) * 20 * (2 ^ 51 + 1) + Z.of_nat (length (instants l)) * (1000000000 * 41).
Proof.
  intros [C1 C2 C3 C4 C5] Hv Hs Hp Hc.
  pose proof (h_loop ref Hv C1 C2 C3 C4 start (so_log s) messages n s) as Hl.
  assert (Hw : waiting ref start (so_log s) s).
  { exists SyncPhaseInitial. left. split_and!; [|done|done]. exists []. rewrite app_nil_r. split_and!; [done|done|done|]. by rewrite Hc. }
  specialize (Hl Hw). destruct (read_loop ref messages (n, s)) as [[[]| |] [n' s']]; [| |done].
  all: assert (Hend : forall l m, so_log s' = so_log s ++ l -> follow (Idle SyncPhaseInitial) l = Some m ->
      TokenBucket.take_all (bucket (newWebSocketCommandLimiter start)) (instants l) = (grants l, bucket (so_commands s')) ->
      Z.of_nat (length (filter (fun a => runs a = true) l)) * (1000000000 * 2 ^ 51) <=
      40 * (1000000000 * 2 ^ 51) + (fold_left Z.max (instants l) start - start) * 20 * (2 ^ 51 + 1) + Z.of_nat (length (instants l)) * (1000000000 * 41))
    by (intros l m _ Hf Ht; pose proof (runs_paid l _ _ Hf) as Hpaid; cbn [credit] in Hpaid; pose proof (grants_bounded start l _ Ht); lia).
  - split; [done|]. destruct Hl as [ph [((l & E1 & E2 & E3 & E4) & _ & <-)|((l & E1 & E2 & E3 & E4) & _ & _)]]; eexists l, _; (split_and!; [exact E1|exact E2|exact E3| |by eapply Hend]); intros _; [by left|by right].
  - split; [done|]. destruct Hl as (m & (l & E1 & E2 & E3 & E4) & _). exists l, m. split_and!; [done..|by eapply Hend].
Qed.

(** An invalid presence never counts towards the limit of malformed commands: the
    counter was reset just before the call, so the connection goes on, whatever
    it has sent before. *)
Lemma invalid_presence_unlimited ref e slot status activity (w w1 : nat * Socket X) :
  (forall s, (SetPresence ref status activity s).1 = Err (Some Lifecycle.ErrInvalidPresence)) ->
  begin_command ref e w = (Go (Some slot), w1) -> so_phase w1.2 = SyncPhaseLive -> presenceSetData (en_Data e) = Some (status, activity) ->
  presence_set ref e w =
    andThen (set_malformed 0) (fun _ => andThen (touch (fun _ => SetPresence ref status activity)) (fun _ =>
      andThen (did (DidPresence (en_RequestID e) status activity)) (fun _ => andThen (set_malformed 1) (fun _ =>
        or_slow ref (enqueueCommandError slot (en_RequestID e) (en_Type e) 1 "invalid presence" false))))) w1.
Proof.
  intros Hs Hb Hp Hd. unfold presence_set, andThen at 1. rewrite Hb. destruct w1 as [n s]. cbn in Hp. unfold get, own, andThen at 1. rewrite Hp, Hd.
  rewrite (bool_decide_eq_true_2 (SyncPhaseLive = SyncPhaseLive)) by done. cbn [negb].
  unfold set_malformed, own, touch, did, andThen. cbn [so_shared so_commands so_sync so_lease so_phase so_malformed so_violations so_log].
  specialize (Hs (others n (so_shared s))). destruct (SetPresence ref status activity (others n (so_shared s))) as [r sh]. cbn [fst] in Hs. subst r.
  unfold malformed, set_malformed, get, own, andThen at 1 2 3, pass. cbn [so_shared so_commands so_sync so_lease so_phase so_malformed so_violations so_log].
  change (0 + 1) with 1. by destruct (or_slow ref _ _) as [[[]| |] w2].
Qed.

(** *** The end of a connection *)

(** Steps that only end things keep what the handler relies on. *)
Lemma requester_keeps ref fuel r n (s : Socket X) e : (forall n, calm ref (others n)) -> sound ref None e (so_shared s) ->
  exists n' s', run_requester fuel r (n, s) = (Go tt, (n', s')) /\ sound ref None e (so_shared s') /\ so_sync s' = so_sync s /\ so_lease s' = so_lease s.
Proof.
  intros Ho. revert r n s. induction fuel as [|fuel IH]; intros r n s Hs; [by exists n, s|]. cbn [run_requester]. unfold andThen, touch.
  destruct (Ho n _ _ _ Hs) as [H1 H2 H3]. pose proof (requester_lane (sh_pump (others n (so_shared s))) r (pick_done n)) as Hl.
  destruct (requester_step _ _ _) as [p r']. cbn [fst snd] in Hl.
  destruct (IH r' (S n) (mkSocket (set_pump (others n (so_shared s)) p) (so_commands s) (so_sync s) (so_lease s) (so_phase s) (so_malformed s) (so_violations s) (so_log s)))
    as (n' & s' & E & Hs' & E1 & E2); [split; cbn; [by rewrite Hl|done|done]|]. by exists n', s'.
Qed.
Lemma begin_keeps ref status reason n (s : Socket X) e : validConnectionRef ref = true -> (forall n, calm ref (others n)) -> sound ref None e (so_shared s) ->
  exists n' s', begin_disconnect ref status reason (n, s) = (Go tt, (n', s')) /\ sound ref None true (so_shared s') /\ so_sync s' = so_sync s /\ so_lease s' = so_lease s.
Proof.
  intros Hv Ho Hs. unfold begin_disconnect, andThen at 1, touch. destruct (Ho n _ _ _ Hs) as [H1 H2 H3].
  pose proof (BeginDisconnect_ends (sh_co (others n (so_shared s))) ref status reason H2 Hv) as [H4 H5]. destruct (Connection.BeginDisconnect _ _ _ _) as [claimed c]. cbn [fst snd] in H4, H5.
  set (s1 := mkSocket _ _ _ _ _ _ _ _). assert (Hs1 : sound ref None true (so_shared s1)) by (by split).
  unfold andThen. destruct claimed; [|by eexists _, _].
  destruct (requester_keeps ref 4 (RequestClose status reason) (S n) s1 true Ho Hs1) as (n' & s' & E & Hs' & E1 & E2). unfold pump_RequestClose. rewrite E. by eexists _, _.
Qed.

Context (ref : ControlConnectionRef) (Hv : validConnectionRef ref = true) (Hc : contract ref).
(** A writer that was asked to close finishes. *)
Context (Hdone : forall n s, wp_done (sh_pump (others (finished_at n) s)) = true).
(** No record and no timer of the connection is left. *)
Definition gone (s : Socket X) : Prop :=
  (forall r, conns_of (sh_co (so_shared s)) (r_UserID ref) !! r_ID ref = Some r -> cr_ref r <> ref) /\ sd_timer (so_sync s) = None /\ lt_timer (so_lease s) = None.
Lemma finish_gone n (s : Socket X) : sound ref None true (so_shared s) -> sd_timer (so_sync s) = None -> lt_timer (so_lease s) = None ->
  exists n' s', finish ref (n, s) = (Go tt, (n', s')) /\ gone s'.
Proof using Hc Hdone Hv.
  intros Hs H1 H2. unfold finish, andThen, wait_done, touch. rewrite Hdone. eexists _, _. split; [reflexivity|]. cbn. split; [|done].
  apply (ct_others _ Hc (finished_at n)) in Hs. apply (ct_others _ Hc (S (finished_at n))) in Hs. destruct Hs as [_ L E]. cbn in L, E.
  exact (proj2 (FinishDisconnect_removes _ ref L Hv (E eq_refl))).
Qed.
Lemma deferred_gone n (s : Socket X) : sound ref None false (so_shared s) -> exists n' s', deferred ref (n, s) = (Go tt, (n', s')) /\ gone s'.
Proof using Hc Hdone Hv.
  intros Hs. unfold deferred, andThen at 1 2, set_timers, own, touch.
  set (s1 := mkSocket _ _ _ _ _ _ _ _). assert (Hs1 : sound ref None false (so_shared s1)) by (apply (ct_disconnect _ Hc), (ct_others _ Hc), Hs).
  destruct (begin_keeps ref websocketCloseNormal "closed" (S n) s1 false Hv (ct_others _ Hc) Hs1) as (n2 & s2 & E & Hs2 & T1 & T2).
  unfold andThen. fold s1. rewrite E. destruct (finish_gone n2 s2 Hs2) as (n3 & s3 & E3 & Hg); [by rewrite T1|by rewrite T2|]. by exists n3, s3.
Qed.
Lemma early_gone status reason n (s : Socket X) : sound ref None false (so_shared s) -> sd_timer (so_sync s) = None -> lt_timer (so_lease s) = None ->
  exists n' s', fail_early ref status reason (n, s) = (Return, (n', s')) /\ gone s'.
Proof using Hc Hdone Hv.
  intros Hs H1 H2. unfold fail_early, andThen at 1. destruct (begin_keeps ref status reason n s false Hv (ct_others _ Hc) Hs) as (n2 & s2 & -> & Hs2 & T1 & T2).
  unfold andThen. destruct (finish_gone n2 s2 Hs2) as (n3 & s3 & -> & Hg); [by rewrite T1|by rewrite T2|]. by exists n3, s3.
Qed.
(** A read that fails, and any read of a connection that has ended. *)
Definition final (r : Read) : Prop := match r with ReadText _ _ => False | _ => True end.
Definition stops {A} (o : Out A) : Prop := match o with Go _ => False | _ => True end.
Lemma final_returns r w : final r -> stops (on_message (X := X) ref r w).1.
Proof. destruct r; [| | |done]; cbn; intros _; [|done|]; unfold hang_up, andThen; by destruct (begin_disconnect _ _ _ _) as [[[]| |] w']. Qed.
Lemma loop_returns messages : Exists final messages -> forall w, stops (read_loop (X := X) ref messages w).1.
Proof.
  induction 1 as [r messages Hr|r messages _ IH]; intros w; cbn; unfold andThen.
  - pose proof (final_returns r w Hr). by destruct (on_message ref r w) as [[[]| |] w'].
  - by destruct (on_message ref r w) as [[[]| |] w'].
Qed.

(** A connection always ends completely.  Whatever frames arrive, the
    handler never blocks; as soon as a read fails or is not text it returns; and
    whenever it returns, early or from its loop, the connection's record has
    left the coordinator, so that its admission is free again, and no timer of
    it is set. *)
Theorem connection_ends deadline_ok lease expires messages n (s : Socket X) : sound ref None false (so_shared s) ->
  so_sync s = newSyncDeadline -> so_lease s = newAuthLeaseTimer ->
  let '(o, (_, s')) := serve ref deadline_ok lease expires messages (n, s) in
  o <> Block /\ (o = Return -> gone s') /\ (Exists final messages -> o = Return).
Proof using Hc Hdone Hv.
  intros Hs Hsd Hlt. unfold serve. destruct deadline_ok; cbn [negb]; [|destruct (early_gone websocketCloseProtocol "read deadline failure" n s) as (n' & s' & -> & Hg); [done|by rewrite Hsd|by rewrite Hlt|done]].
  unfold pump_Enqueue, andThen at 1 2 3, touch. destruct (ct_others _ Hc n _ _ _ Hs) as [L1 L2 L3]. pose proof (enqueue_lane (sh_pump (others n (so_shared s))) (webSocketReadyFrame ref expires)) as Hl.
  destruct (Enqueue _ _) as [ok p]. cbn [fst snd] in Hl. unfold did, own, pass. cbn [so_shared so_commands so_sync so_lease so_phase so_malformed so_violations so_log].
  set (s1 := mkSocket _ _ _ _ _ _ _ _). assert (Hs1 : sound ref None false (so_shared s1)) by (split; cbn; [by rewrite Hl|done|done]).
  destruct ok; cbn [negb]; [|destruct (early_gone websocketCloseSlow "writer unavailable" (S n) s1) as (n' & s' & -> & Hg); [done|cbn; by rewrite Hsd|cbn; by rewrite Hlt|done]].
  unfold set_timers, own, andThen at 1. set (s2 := mkSocket _ _ _ _ _ _ _ _). unfold with_deferred, andThen at 1, own. set (s3 := mkSocket _ _ _ _ _ _ _ _).
  assert (Hw : waiting ref (clock (S n)) (so_log s3) s3).
  { exists SyncPhaseInitial. left. split_and!; [|done|done]. exists []. rewrite app_nil_r. by split_and!. }
  pose proof (h_loop ref Hv (ct_others _ Hc) (ct_verify _ Hc) (ct_hello _ Hc) (ct_presence _ Hc) _ _ messages (S n) s3 Hw) as Hloop.
  pose proof (loop_returns messages) as Hr. destruct (read_loop ref messages (S n, s3)) as [[[]| |] [n4 s4]] eqn:E; [| |done].
  - split_and!; [done|done|]. intros Hf. specialize (Hr Hf (S n, s3)). by rewrite E in Hr.
  - destruct Hloop as (m & _ & Hs4). destruct (deferred_gone n4 s4 Hs4) as (n5 & s5 & -> & Hg). done.
Qed.
End Sessions.

(** A connection that synchronises, sets its presence and hangs up, in a server
    where nothing else happens. *)
Definition quiet_services : Services unit := {|
  Verify _ _ s := (None, s); OnHello _ _ s := (Ok "", s); OnDisconnect _ s := s; Activate _ _ s := (None, s); SetPresence _ _ _ s := (Ok 77, s)
|}.
Definition quiet_env : SocketEnv unit := {| others _ s := s; clock n := 5000 * Z.of_nat n; pick_done _ := false; finished_at n := n |}.
Definition letters : bytes := [1].
Definition quiet_client : ClientJson := {|
  Unmarshal_envelope payload := Some (if bool_decide (payload = letters) then mkEnvelope "sync.hello" "" [1] else mkEnvelope "presence.set" "0123456789abcdef" [1]);
  Unmarshal_hello _ := Some (Some ""); Unmarshal_update _ := None; Unmarshal_set _ := Some (Some "online", None)
|}.
Definition quiet_server : ServerJson := {| Marshal _ := Some [7] |}.
Definition quiet_socket : Socket unit :=
  mkSocket (mkShared (ConnectionProps.sy_co ConnectionProps.ex_sys2) newWebSocketWritePump Ingress.Upgrade.NewUpgradeLimiter tt)
    (newWebSocketCommandLimiter 0) newSyncDeadline newAuthLeaseTimer SyncPhaseInitial 0 0 [].
Definition quiet_reads : list Read := [ReadText letters true; ReadText [] true; ReadFailed].
Definition quiet_loop := @read_loop unit quiet_services quiet_env quiet_client quiet_server ConnectionProps.ex_ref quiet_reads (0%nat, quiet_socket).

Lemma quiet_contract : @contract unit quiet_services quiet_env ConnectionProps.ex_ref.
Proof. by split; repeat intros ?. Qed.
Definition quiet_log : list Act := [DidTake 10000 true; DidHello "" (Some true); DidClaim "0123456789abcdef"; DidTake 35000 true;
    DidPresence "0123456789abcdef" "online" None; DidAnswer "0123456789abcdef" (Some [7]) true].
Lemma quiet_runs : let '(_, (_, s)) := quiet_loop in so_log s = quiet_log.
Proof. by vm_compute. Qed.
Lemma quiet_sound : sound ConnectionProps.ex_ref None false (so_shared quiet_socket).
Proof.
  split; [split; [|done]|eexists _, _; apply ConnectionProps.ex_sys2_reachable|done]. constructor; cbn; [done..| |].
  - intros i Hi. by apply not_elem_of_empty in Hi.
  - split; [constructor|]. intros r Hr. by apply elem_of_nil in Hr.
Qed.
Lemma websocket_protocol_example : exists m, follow (Idle SyncPhaseInitial) quiet_log = Some m.
Proof.
  pose proof (@websocket_protocol unit quiet_services quiet_env quiet_client quiet_server ConnectionProps.ex_ref 0 quiet_reads 0 quiet_socket quiet_contract
    eq_refl quiet_sound eq_refl eq_refl) as Hp.
  pose proof quiet_runs as Hr. fold quiet_loop in Hp. destruct quiet_loop as [o [n s]]. destruct Hp as (_ & l & m & E1 & E2 & _). exists m.
  rewrite <- Hr, E1. exact E2.
Qed.
End WebSocketProps.
